(* ===== verification/_CoqProject ===== *)
-Q . S2P
Prelude.v
KVAllocator.v
KVAllocatorProofs.v
KVAllocatorSpec.v
RadixTree.v
RadixInv.v
RadixSplit.v
RadixMatch.v
RadixInsert.v
RadixLock.v
RadixWalk.v
RadixOwn.v
RadixEvict.v
RadixSpec.v
ReqPool.v
Request.v
RequestSpec.v
PrefixCache.v
RadixReq.v
RadixHeld.v
RadixReqSpec.v
ChunkCache.v
CacheCommon.v
CacheWrite.v
RadixAlloc.v
SchedulePolicy.v
SchedulePolicySpec.v
ScheduleBatch.v
ScheduleBatchSpec.v
RadixRetract.v
PrefillAdder.v
PrefillAdderSpec.v
RWLock.v
InputControl.v
Session.v
SessionSpec.v
MultimodalCache.v
Scheduler.v
SchedulerTags.v
SchedulerHosts.v
SchedulerSpec.v
SchedulerDemo.v
SchedulerOps.v
Tensor.v
ExpertLoad.v
ExpertPacking.v
ExpertOptimal.v
ExpertLoadSpec.v
ExpertBalance.v
DataParallel.v
DataParallelSpec.v
FutureMap.v
FutureMapSpec.v
ExpertUpdate.v
ExpertUpdateChunks.v
ExpertUpdatePlan.v
ExpertUpdateMatch.v
ExpertUpdateSpec.v
ExpertElastic.v
ExpertElasticSpec.v
ExpertVec.v
ExpertVecSpec.v
ExpertVecBalance.v
ExpertLocation.v
ExpertLocationSpec.v
ExpertMetadata.v
ExpertConstruct.v
ExpertRecorder.v
ExpertRecorderSpec.v
ExpertManager.v
ExpertManagerPass.v
ExpertManagerWorld.v
ExpertManagerSpec.v
ExpertManagerDemo.v
ExpertManagerRuns.v
PyText.v
Harmony.v
HarmonySpec.v
ReasoningParser.v
ReasoningSpec.v
