(* ===== verification/Prelude.v ===== *)
(** * A verification library for the SGLang runtime (dyna-spec)

    The repository is a serving runtime for language models.  Its scheduler keeps
    the KV cache of the device: every token of a running request occupies one
    slot, slots are handed out in pages, finished requests leave their slots in a
    radix tree so that later requests with the same prefix find them, and when
    slots run out leaves of the tree are evicted or running requests are
    retracted.  This library models that core, the Python code of
    [src/python/sglang/srt], as executable definitions and proves what makes it
    correct: no slot is lost, handed out twice or freed while it is used; the tree
    answers lookups with the longest cached prefix; batches, queues and budgets
    say what they are meant to say; the loops end; no request is lost.  A second
    part is the expert parallelism of mixture-of-experts models: where the experts
    are placed, how their weights move while the server runs, and how tokens find
    them.  A third reads the text that comes out: what the model thinks, its answer
    and its tool calls.

    ** The parts and how they interact

    - The allocators ([mem_cache/allocator.py]) own the free slots.  [KVAllocator.v]:
      modules [TokenAlloc], [PagedAlloc] with its two Triton kernels, [SWAAlloc].
      The class [KVPool] of [KVAllocatorSpec.v] is what the caches rely on, with an
      instance per allocator.
    - The radix tree ([mem_cache/radix_cache.py], [mem_cache/evict_policy.py]) is a
      heap of nodes, [RadixTree.v].  [RadixInv.v] has its invariant [wf] and its
      meaning [Cached]; [RadixSplit], [RadixMatch], [RadixInsert],
      [RadixLock], [RadixWalk], [RadixOwn] and [RadixEvict] have one operation or
      one aspect each; [RadixSpec.v] has the theorems.
    - Requests ([Req] of [managers/schedule_batch.py]) are [Request.v], the table of
      their slots ([ReqToTokenPool] of [mem_cache/memory_pool.py]) is [ReqPool.v].
      [RequestSpec.v]: stopping and incremental detokenisation.
    - [PrefixCache.v] is the interface of caches ([mem_cache/base_prefix_cache.py])
      as a class with laws.  Its implementations are the radix cache with the
      request operations of [RadixReq.v] and the chunk caches of [ChunkCache.v]
      ([mem_cache/chunk_cache.py]).  [RadixHeld.v], [RadixReqSpec.v]:
      a request's slots end up in the tree or in the allocator, exactly once; an
      unaligned prefix whose page somebody else cached leaves freed slots in its row.
    - Allocation for a batch ([mem_cache/common.py]) is [CacheCommon.v], over the
      class [CacheHost] (a cache, its allocator and the table).  [CacheWrite.v]: the
      Triton kernels write what the loops write.  [RadixAlloc.v]: with eviction,
      allocation succeeds whenever the free and evictable slots suffice.
    - The scheduler's decisions: [SchedulePolicy.v] orders the waiting queue,
      [PrefillAdder.v] admits requests into a prefill batch under token budgets
      (both [managers/schedule_policy.py]), [ScheduleBatch.v] forms, extends, splits,
      merges and retracts batches ([managers/schedule_batch.py]); each with a
      [...Spec.v] file.  The class [RetractLaws] states what retraction needs of a
      cache, and [RadixRetract.v] shows that the radix cache keeps it; [LockLaws] is
      what admission needs.
    - At the edges of the scheduler: [InputControl.v] is the gate for incoming
      requests with the barrier of the processes and the receive skipper
      ([managers/scheduler_input_blocker.py], [utils/poll_based_barrier.py],
      [managers/scheduler_recv_skipper.py]); [Session.v] is the tree of requests of a
      session ([managers/session_controller.py]); [MultimodalCache.v] the cache of
      embeddings ([mem_cache/multimodal_cache.py]); [RWLock.v] the lock between
      requests and weight updates ([utils/aio_rwlock.py]).
    - The scheduler itself ([managers/scheduler.py] and
      [managers/scheduler_output_processor_mixin.py]) composes these parts:
      [Scheduler.v] has one iteration of the event loop (receive, choose a batch, run
      it, process its results) over the class [SchedHost] of a cache, whose instances
      are in [SchedulerHosts.v]; [SchedulerTags.v] says what scheduling leaves
      unchanged, [SchedulerSpec.v] that no request is lost, [SchedulerOps.v] has the
      single operations, [SchedulerDemo.v] concrete runs.  [FutureMap.v],
      [FutureMapSpec.v]: the overlap scheduler runs the same passes with futures
      ([managers/overlap_utils.py]).  [DataParallel.v], [DataParallelSpec.v]: the
      controller in front of several schedulers
      ([managers/data_parallel_controller.py]).
    - Placements of experts ([eplb/eplb_algorithms/]).  [Tensor.v] has the tensor
      operations.  [ExpertLoad.v] is [deepseek.py], with [ExpertPacking],
      [ExpertOptimal], [ExpertLoadSpec] and [ExpertBalance];
      [ExpertVec.v] is [deepseek_vec.py], with [ExpertVecSpec] and
      [ExpertVecBalance]; [ExpertElastic.v] is [elasticity_aware.py], with
      [ExpertElasticSpec].
    - The metadata of a placement and the dispatch of tokens
      ([eplb/expert_location.py], [eplb/expert_location_dispatch.py]):
      [ExpertLocation.v], [ExpertLocationSpec.v]; its invariant [metadata_ok] is in
      [ExpertMetadata.v], the constructors in [ExpertConstruct.v].
    - Moving the weights of a layer on all ranks ([eplb/expert_location_updater.py]):
      [ExpertUpdate.v]; [ExpertUpdateChunks], [ExpertUpdatePlan],
      [ExpertUpdateMatch] and [ExpertUpdateSpec] have the
      plan, the matching of sends and receives, and the result.
    - Counting the tokens of every expert ([eplb/expert_distribution.py]):
      [ExpertRecorder.v], [ExpertRecorderSpec.v].
    - All together ([eplb/eplb_manager.py], and the parts of
      [model_executor/model_runner.py] and [layers/moe/topk.py] that call it):
      [ExpertManager.v] runs passes on all ranks; after each pass the generators of
      the ranks resume, dump the counts, balance and update.
      [ExpertManagerPass.v]: an update, a pass and a dump.  [ExpertManagerWorld.v]: what holds
      of all ranks between passes, and the abstract machine [eplb_step].
      [ExpertManagerSpec.v]: runs.  [ExpertManagerRuns.v]: the promises, at the small
      server of [ExpertManagerDemo.v].
    - The text of the answer: [PyText.v] has Python's strings and the methods used.
      [Harmony.v] is the parser of the Harmony format ([parser/harmony_parser.py]):
      the scanner of tokens, the two strategies, the parser that chooses between
      them; [HarmonySpec.v].  [ReasoningParser.v], [ReasoningSpec.v]: the detectors
      that separate reasoning and answer ([parser/reasoning_parser.py]), at once or
      chunk by chunk; the detector of GPT-OSS calls the Harmony parser.

    ** How the code is read

    A Python function is a function in the error monad [res] below, with the
    exception it raises as a value; mutable objects that are shared (tree nodes,
    session nodes) live in a heap under ids, the rest is passed as state.  Tensors
    are lists of integers, dictionaries that are iterated keep their insertion
    order ([dict_get], [dict_set], [dict_del]), [int32] stores truncate.  Python's
    slices, negative indices, floor division and modulo are written out here.
    Code outside the repository is a parameter: the clock, [hash], the tokenizer,
    [re.search], [random.shuffle], the loads of the host cache, [all_reduce] of the
    scheduler.  For the experts: loads are any type with the comparisons and sums
    that PyTorch gives floats ([TorchFloat], [TorchVec], with laws; integers are an
    instance), the random generator ([Random], [RandomLaws]), memory that is not
    initialised ([Uninitialised]) and the point-to-point exchange ([P2P], [P2PLaws]:
    the k-th receive from a rank gets the k-th send to it; an instance satisfies
    it).  Ranks that run a collective operation together are one step of the model;
    a rank that would wait for others that do not come is an error.
    Floats that scale budgets are exact rationals.  [heapq] pops the first smallest
    entry.  Objects compared with [==] by identity are compared by their ids; a
    request's id is its [rid].  A text is the list of its code points; a regular
    expression is a matcher that tries its alternatives in the order of [re];
    [lower()] is that of the ASCII letters, as the texts are only compared with
    ASCII words.

    ** Fuel

    Loops over the tree take fuel [size heap + 1] or a little more, and give
    [Err OutOfFuel] when it is used up: each walk visits a node at most once, so on
    a tree that satisfies [wf] this never happens, and the theorems state [Ok].
    Retraction and preemption recur on the list of candidates; the session's
    clearing has the size of its heap as fuel.  The generators of the load balancer
    get fuel 3 after a pass: a dump, at most one update before the next [yield], and
    the [yield].  The scanner of the Harmony format has the length of the text and
    one as fuel, the loop over its tokens their number and one: every step moves
    forward ([scan_ok], [parse_tokens_total]).

    ** What the theorems show

    Conservation and absence of aliasing of slots (allocators, table, chunk cache,
    tree and requests); equivalence of the page kernels and of the write kernels
    with sequential loops; the longest prefix, insertion and eviction of the tree as
    operations on its content, with locked prefixes surviving and separate name
    spaces for [extra_key]; allocation never fails while enough is free or
    evictable; orders of the queue are permutations; admission is all or nothing and
    what is admitted fits; batches refine lists of rows; retraction ends with room
    for a decode step; stops are found at the first position; the reader-writer
    lock excludes and does not lose wake-ups; the input gate keeps the order of
    requests; in any run of the scheduler every request is waiting, running,
    finished or reported, as long as a batch of requests that want no tokens is not
    left unfinished; runs with futures are runs with the tokens; a request goes
    to exactly one worker.  Placements contain every expert, the maps are inverse to
    each other and replicas minimise the maximal load; moving weights leaves every
    rank with the rows of its new experts; in any run of the load balancer tokens
    reach places that hold their experts, all ranks follow one machine, a
    rebalancing ends, and a dump counts the last passes.  The tokens of the Harmony
    format tile the text and well-formed messages are read back as the events they
    stand for; a text in chunks gives what it gives at once as long as no chunk ends
    within a tag.  Where the code does not do what its comments say, a theorem shows
    the behaviour (see [store_event_no_parent], [insert_sort_misplaces_largest],
    [vocab_boundary_off_by_one], [cancelled_writer_strands_reader],
    [replace_all_raises], [unaligned_prefix_goes_stale],
    [grammar_failure_aborts_others], [batch_goes_everywhere],
    [long_prefill_overwrites], [split_end_tag_missed],
    [split_end_marker_leaks], [short_answer_dropped]), or a concrete run does
    ([preemption_loses_request], [stale_counts]).

    ** Not modelled

    Tensor programs (models, layers, samplers, attention back ends, kernels other
    than those named), processes and sockets, HTTP and gRPC, tokenizers, grammars,
    LoRA, speculative decoding, disaggregation, the host and storage tiers, the
    sliding-window, Mamba and hierarchical trees, multimodal processing, the
    front-end language, benchmarks, and the parsers of function calls, which rest on
    libraries for partial JSON.  Within the modelled files: metrics, logging,
    logprob buffers, the sampling tensors of a batch, the usage counter
    [cached_tokens], the lock token of a sliding-window tree, the conversion of a
    batch to a [ModelWorkerBatch], the internals of the Mamba pool, the utilisation
    metrics and the per-token mode of the expert recorder, the canary tensors of the
    weight transfer, the update from disk of elastic groups, placements read from
    a file, and the buffer context that the text strategy of Harmony keeps but never
    reads.  The
    [DynamicVocabularyManager] that [README_Dyna.md] describes has no code in the
    repository. *)

From Stdlib Require Export ZArith Lia Permutation Sorted.
From stdpp Require Export base list gmap sets strings sorting.

#[global] Open Scope Z_scope.
#[global] Set Default Goal Selector "!".

(** ** Python exceptions and the error monad

    A Python call either returns a value or raises.  [OutOfFuel] is not an
    exception of the language: it marks a loop that did not end within the
    fuel the model gave it, and the termination theorems show that it is
    never the result on well-formed states. *)
Inductive exn : Type :=
  | ValueError | RuntimeError | AssertionError | IndexError | KeyError
  | AttributeError | NotImplementedError | TypeError | UnboundLocalError
  | ZeroDivisionError | CancelledError
  | OutOfFuel.

#[global] Instance exn_eq_dec : EqDecision exn.
Proof. solve_decision. Defined.

Inductive res (A : Type) : Type :=
  | Ok (a : A)
  | Err (e : exn).
Arguments Ok {A} a.
Arguments Err {A} e.

#[global] Instance res_eq_dec `{EqDecision A} : EqDecision (res A).
Proof. solve_decision. Defined.

Definition res_bind {A B} (f : A → res B) (m : res A) : res B :=
  match m with Ok a => f a | Err e => Err e end.

Declare Scope py_scope.
Delimit Scope py_scope with py.
#[global] Open Scope py_scope.
Notation "'let!' x ':=' m 'in' k" := (res_bind (λ x, k) m)
  (at level 10, x name, m at level 100, k at level 200,
   format "'let!'  x  ':='  m  'in' '//' k") : py_scope.
Notation "'let!' ' x ':=' m 'in' k" := (res_bind (λ x, k) m)
  (at level 10, x strict pattern, m at level 100, k at level 200, only parsing) : py_scope.

(** [assert b] and [if b: raise e]. *)
Definition py_assert (b : bool) : res unit := if b then Ok tt else Err AssertionError.
Definition guard_raise (b : bool) (e : exn) : res unit := if b then Err e else Ok tt.

(** Reading an optional attribute: [None] has no attributes. *)
Definition of_opt {A} (e : exn) (o : option A) : res A :=
  match o with Some a => Ok a | None => Err e end.

(** A list comprehension whose elements may raise. *)
Fixpoint mapM_res {A B} (f : A → res B) (l : list A) : res (list B) :=
  match l with
  | [] => Ok []
  | x :: l' => let! y := f x in let! r := mapM_res f l' in Ok (y :: r)
  end.

(** ** Lengths, indices and slices

    Python integers are [Z]; [//] and [%] are floor division and its
    remainder, which are [Z.div] and [Z.modulo]. *)
Definition len {A} (l : list A) : Z := Z.of_nat (length l).

(** The position a slice bound denotes in a sequence of length [n]. *)
Definition slice_bound (n i : Z) : Z := if i <? 0 then Z.max 0 (n + i) else Z.min i n.

(** [l[:b]], [l[a:]] and [l[a:b]]. *)
Definition py_upto {A} (l : list A) (b : Z) : list A :=
  take (Z.to_nat (slice_bound (len l) b)) l.
Definition py_from {A} (l : list A) (a : Z) : list A :=
  drop (Z.to_nat (slice_bound (len l) a)) l.
Definition py_slice {A} (l : list A) (a b : Z) : list A :=
  drop (Z.to_nat (slice_bound (len l) a)) (py_upto l b).

(** [l[i]] with Python's negative indices. *)
Definition py_index {A} (l : list A) (i : Z) : res A :=
  let j := if i <? 0 then len l + i else i in
  if (j <? 0) then Err IndexError else of_opt IndexError (l !! Z.to_nat j).

(** [l[a:b] = v] on a tensor row: the slice and the value have one length
    (a one-element value broadcasts). *)
Definition py_set_slice {A} (l : list A) (a b : Z) (v : list A) : res (list A) :=
  let i := slice_bound (len l) a in
  let j := Z.max i (slice_bound (len l) b) in
  let v' := match v with [x] => replicate (Z.to_nat (j - i)) x | _ => v end in
  if len v' =? j - i
  then Ok (take (Z.to_nat i) l ++ v' ++ drop (Z.to_nat j) l)
  else Err RuntimeError.

(** [torch.arange(a, b)] and [range(a, b)]. *)
Definition py_range (a b : Z) : list Z :=
  (λ i : nat, a + Z.of_nat i) <$> seq 0 (Z.to_nat (b - a)).

Definition sum_Z (l : list Z) : Z := fold_right Z.add 0 l.

(** ** Sorting

    Python's sort is stable and only uses [<]; insertion of the earlier
    elements in front of the equal ones is the reference stable sort. *)
Section sort.
Context {A : Type} (ltb : A → A → bool).

Fixpoint sort_insert (x : A) (l : list A) : list A :=
  match l with
  | [] => [x]
  | y :: l' => if ltb y x then y :: sort_insert x l' else x :: y :: l'
  end.

Definition py_sort (l : list A) : list A := fold_right sort_insert [] l.
End sort.

(** [torch.sort(t)[0]] and [torch.unique(t)] on one-dimensional integer tensors. *)
Definition torch_sort (l : list Z) : list Z := py_sort Z.ltb l.

Fixpoint dedup_sorted (l : list Z) : list Z :=
  match l with
  | x :: ((y :: _) as l') => if x =? y then dedup_sorted l' else x :: dedup_sorted l'
  | _ => l
  end.
Definition torch_unique (l : list Z) : list Z := dedup_sorted (torch_sort l).

(** ** Insertion-ordered dictionaries

    A Python [dict] iterates in insertion order; overwriting a key keeps its
    place and deleting it removes the entry. *)
Section dict.
Context {K V : Type} `{EqDecision K}.

Fixpoint dict_get (k : K) (d : list (K * V)) : option V :=
  match d with
  | [] => None
  | (k', v) :: d' => if decide (k = k') then Some v else dict_get k d'
  end.

Fixpoint dict_set (k : K) (v : V) (d : list (K * V)) : list (K * V) :=
  match d with
  | [] => [(k, v)]
  | (k', v') :: d' => if decide (k = k') then (k', v) :: d' else (k', v') :: dict_set k v d'
  end.

Fixpoint dict_del (k : K) (d : list (K * V)) : list (K * V) :=
  match d with
  | [] => []
  | (k', v') :: d' => if decide (k = k') then d' else (k', v') :: dict_del k d'
  end.
End dict.

(** ** Automation *)

Create HintDb py discriminated.

(** Invert a successful computation one bind at a time. *)
Ltac inv_ok :=
  repeat match goal with
  | H : Ok _ = Ok _ |- _ => injection H as H; try subst
  | H : Err _ = Ok _ |- _ => discriminate H
  | H : Ok _ = Err _ |- _ => discriminate H
  | H : res_bind _ ?m = Ok _ |- _ =>
      let E := fresh "E" in destruct m eqn:E; cbn [res_bind] in H; [|discriminate H]
  | H : py_assert ?b = Ok _ |- _ =>
      let E := fresh "E" in destruct b eqn:E; cbn [py_assert] in H; [|discriminate H]
  | H : of_opt _ ?o = Ok _ |- _ =>
      let E := fresh "E" in destruct o eqn:E; cbn [of_opt] in H; [|discriminate H]
  end.

(** Case analysis on the boolean tests of the goal, turned into arithmetic. *)
Ltac case_bool :=
  match goal with
  | |- context [Z.ltb ?a ?b] => destruct (Z.ltb_spec a b)
  | |- context [Z.leb ?a ?b] => destruct (Z.leb_spec a b)
  | |- context [Z.eqb ?a ?b] => destruct (Z.eqb_spec a b)
  | H : context [Z.ltb ?a ?b] |- _ => destruct (Z.ltb_spec a b)
  | H : context [Z.leb ?a ?b] |- _ => destruct (Z.leb_spec a b)
  | H : context [Z.eqb ?a ?b] |- _ => destruct (Z.eqb_spec a b)
  end.
Ltac case_bools := repeat case_bool.

(** Case analysis on the outermost [if] of the goal only. *)
Ltac case_if :=
  match goal with
  | |- context [if Z.ltb ?a ?b then _ else _] => destruct (Z.ltb_spec a b)
  | |- context [if Z.leb ?a ?b then _ else _] => destruct (Z.leb_spec a b)
  | |- context [if Z.eqb ?a ?b then _ else _] => destruct (Z.eqb_spec a b)
  end.

(** Prove a closed decidable statement by evaluating its decision procedure. *)
Ltac by_decide := refine (bool_decide_unpack _ _); vm_compute; exact I.

Lemma res_bind_ok {A B} (m : res A) (f : A → res B) b :
  res_bind f m = Ok b ↔ ∃ a, m = Ok a ∧ f a = Ok b.
Proof. destruct m; cbn; naive_solver. Qed.

Lemma mapM_res_ok {A B} (f : A → res B) (g : A → B) l : Forall (λ x, f x = Ok (g x)) l → mapM_res f l = Ok (g <$> l).
Proof. induction 1 as [|x l Hx _ IH]; [done|]. cbn. by rewrite Hx, IH. Qed.
Lemma mapM_res_inv {A B} (f : A → res B) l r : mapM_res f l = Ok r → Forall2 (λ x y, f x = Ok y) l r.
Proof.
  revert r. induction l as [|x l IH]; intros r; cbn; [by intros [= <-]|].
  destruct (f x) as [y|] eqn:E; [|done]. cbn. destruct (mapM_res f l) as [ys|]; [|done]. intros [= <-]. auto.
Qed.

(** ** Lists *)

Lemma len_nonneg {A} (l : list A) : 0 ≤ len l.
Proof. unfold len. lia. Qed.
Lemma len_app {A} (l k : list A) : len (l ++ k) = len l + len k.
Proof. unfold len. rewrite length_app. lia. Qed.
Lemma len_nil {A} : len (@nil A) = 0.
Proof. reflexivity. Qed.
Lemma len_cons {A} (x : A) l : len (x :: l) = 1 + len l.
Proof. unfold len. cbn. lia. Qed.
Lemma len_zero_iff {A} (l : list A) : len l = 0 ↔ l = [].
Proof. destruct l; rewrite ?len_nil, ?len_cons; [done|]. pose proof (len_nonneg l). split; [lia|done]. Qed.
Lemma len_fmap {A B} (f : A → B) (l : list A) : len (f <$> l) = len l.
Proof. unfold len. by rewrite length_fmap. Qed.

Lemma py_upto_take {A} (l : list A) (n : Z) :
  0 ≤ n → py_upto l n = take (Z.to_nat n) l.
Proof.
  intros Hn. unfold py_upto, slice_bound. case_bools; [lia|].
  destruct (decide (n ≤ len l)).
  - by rewrite Z.min_l by lia.
  - rewrite Z.min_r by lia. unfold len in *.
    rewrite !take_ge by lia. done.
Qed.

Lemma py_from_drop {A} (l : list A) (n : Z) :
  0 ≤ n → py_from l n = drop (Z.to_nat n) l.
Proof.
  intros Hn. unfold py_from, slice_bound. case_bools; [lia|].
  destruct (decide (n ≤ len l)).
  - by rewrite Z.min_l by lia.
  - rewrite Z.min_r by lia. unfold len in *.
    rewrite !drop_ge by lia. done.
Qed.

Lemma py_slice_drop_take {A} (l : list A) (a b : Z) :
  0 ≤ a → 0 ≤ b → py_slice l a b = drop (Z.to_nat a) (take (Z.to_nat b) l).
Proof.
  intros Ha Hb. unfold py_slice. rewrite py_upto_take by done.
  unfold slice_bound. case_bools; [lia|].
  destruct (decide (a ≤ len l)).
  - by rewrite Z.min_l by lia.
  - rewrite Z.min_r by lia. unfold len in *.
    rewrite !drop_ge by (rewrite ?length_take; lia). done.
Qed.

(** [l[:b]] and [l[b:]] partition [l] at the same place, whatever [b] is. *)
Lemma py_upto_from {A} (l : list A) (b : Z) : py_upto l b ++ py_from l b = l.
Proof. apply take_drop. Qed.

Lemma len_py_upto {A} (l : list A) (n : Z) :
  0 ≤ n → len (py_upto l n) = Z.min n (len l).
Proof. intros. rewrite py_upto_take by done. unfold len. rewrite length_take. lia. Qed.

Lemma sum_Z_cons x l : sum_Z (x :: l) = x + sum_Z l.
Proof. done. Qed.
Lemma sum_Z_app l k : sum_Z (l ++ k) = sum_Z l + sum_Z k.
Proof. induction l; cbn; unfold sum_Z in *; lia. Qed.
Lemma sum_Z_perm l k : l ≡ₚ k → sum_Z l = sum_Z k.
Proof. induction 1; unfold sum_Z in *; cbn; lia. Qed.
Lemma sum_Z_nonneg l : Forall (Z.le 0) l → 0 ≤ sum_Z l.
Proof. induction 1; unfold sum_Z in *; cbn; lia. Qed.

Lemma elem_of_py_range a b x : x ∈ py_range a b ↔ a ≤ x < b.
Proof.
  unfold py_range. rewrite list_elem_of_fmap. split.
  - intros (i & -> & Hi%elem_of_seq). lia.
  - intros Hx. exists (Z.to_nat (x - a)). split; [lia|]. apply elem_of_seq. lia.
Qed.
Lemma filter_all {A} (f : A → bool) l : Forall (λ x, f x = true) l → List.filter f l = l.
Proof. induction 1 as [|x l Hx _ IH]; [done|]. cbn. by rewrite Hx, IH. Qed.
Lemma NoDup_py_range a b : NoDup (py_range a b).
Proof. unfold py_range. apply NoDup_fmap_2; [intros ???; lia | apply NoDup_seq]. Qed.
Lemma len_py_range a b : a ≤ b → len (py_range a b) = b - a.
Proof. intros. unfold py_range, len. rewrite length_fmap, length_seq. lia. Qed.

Lemma length_py_range a b : length (py_range a b) = Z.to_nat (b - a).
Proof. unfold py_range. by rewrite length_fmap, length_seq. Qed.

Lemma py_range_snoc a n : a ≤ n → py_range a (n + 1) = py_range a n ++ [n].
Proof.
  intros. unfold py_range.
  replace (Z.to_nat (n + 1 - a)) with (Z.to_nat (n - a) + 1)%nat by lia.
  rewrite seq_app, fmap_app. cbn. do 2 f_equal. lia.
Qed.

Lemma py_range_nil a b : b ≤ a → py_range a b = [].
Proof. intros. unfold py_range. by replace (Z.to_nat (b - a)) with 0%nat by lia. Qed.

Lemma py_range_split a b c : a ≤ b ≤ c → py_range a c = py_range a b ++ py_range b c.
Proof.
  intros. unfold py_range.
  replace (Z.to_nat (c - a)) with (Z.to_nat (b - a) + Z.to_nat (c - b))%nat by lia.
  rewrite seq_app, fmap_app, Nat.add_comm, <-(fmap_add_seq (Z.to_nat (b - a)) 0).
  rewrite <-list_fmap_compose. f_equal. apply list_fmap_ext. intros ? x _. cbn. lia.
Qed.

Lemma py_range_shift a b : py_range a b = (λ o, a + o) <$> py_range 0 (b - a).
Proof.
  unfold py_range. rewrite <-list_fmap_compose.
  replace (b - a - 0) with (b - a) by lia. apply list_fmap_ext. intros; cbn; lia.
Qed.

Lemma py_range_take a b n : a ≤ n ≤ b → take (Z.to_nat (n - a)) (py_range a b) = py_range a n.
Proof.
  intros. rewrite (py_range_split a n b) by lia.
  apply take_app_length'. unfold py_range. by rewrite length_fmap, length_seq.
Qed.

Lemma fmap_py_range_list {B} (f : Z → B) (l : list B) :
  (∀ i x, l !! i = Some x → f (Z.of_nat i) = x) → f <$> py_range 0 (len l) = l.
Proof.
  intros Hf. unfold py_range, len. rewrite Z.sub_0_r, Nat2Z.id, <-list_fmap_compose.
  apply list_eq. intros i. rewrite list_lookup_fmap.
  destruct (l !! i) as [x|] eqn:E.
  - rewrite lookup_seq_lt by eauto using lookup_lt_Some. cbn. f_equal. by apply Hf.
  - rewrite lookup_seq_ge by (by apply lookup_ge_None). done.
Qed.

Lemma fmap_py_range_const {B} (f : Z → B) (c : B) a b :
  (∀ o, a ≤ o < b → f o = c) → f <$> py_range a b = replicate (Z.to_nat (b - a)) c.
Proof.
  intros Hf. apply list_eq. intros i. unfold py_range. rewrite <-list_fmap_compose, list_lookup_fmap.
  destruct (decide (i < Z.to_nat (b - a))%nat).
  - rewrite lookup_seq_lt, lookup_replicate_2 by lia. cbn. f_equal. apply Hf. lia.
  - rewrite lookup_seq_ge by lia. cbn. symmetry. apply lookup_replicate_None. lia.
Qed.

Lemma fmap_py_range_ext {B} (f g : Z → B) a b :
  (∀ o, a ≤ o < b → f o = g o) → f <$> py_range a b = g <$> py_range a b.
Proof.
  intros Hfg. apply list_fmap_ext. intros i o Ho%list_elem_of_lookup_2.
  apply Hfg. by apply elem_of_py_range.
Qed.

(** ** Sorting lemmas *)
Section sort_lemmas.
Context {A : Type} (ltb : A → A → bool).

Lemma sort_insert_perm x l : sort_insert ltb x l ≡ₚ x :: l.
Proof.
  induction l as [|y l IH]; cbn; [done|]. destruct (ltb y x); [|done].
  rewrite IH. apply perm_swap.
Qed.

Lemma py_sort_perm l : py_sort ltb l ≡ₚ l.
Proof. induction l as [|x l IH]; cbn; [done|]. by rewrite sort_insert_perm, IH. Qed.

(** The order of the result: no later element is smaller than an earlier one. *)
Definition not_after (x y : A) : Prop := ltb y x = false.

Context (ltb_asym : ∀ x y, ltb x y = true → ltb y x = false)
        (ltb_cotrans : ∀ x y z, ltb x z = true → ltb x y = true ∨ ltb y z = true).

Lemma sort_insert_sorted x l :
  StronglySorted not_after l → StronglySorted not_after (sort_insert ltb x l).
Proof.
  induction 1 as [|y l Hl IH Hy]; cbn; [repeat constructor|].
  destruct (ltb y x) eqn:E.
  - constructor; [done|]. rewrite sort_insert_perm. constructor; [|done].
    unfold not_after. eauto.
  - constructor; [by constructor|]. constructor; [done|].
    eapply Forall_impl; [exact Hy|]. intros z Hz. unfold not_after in *.
    destruct (ltb z x) eqn:Ezx; [|done].
    destruct (ltb_cotrans z y x Ezx); congruence.
Qed.

Lemma py_sort_sorted l : StronglySorted not_after (py_sort ltb l).
Proof. induction l; cbn; [constructor | by apply sort_insert_sorted]. Qed.

(** Stability: the elements of one equivalence class keep their order. *)
Context (eqv : A → bool)
        (eqv_ltb : ∀ x y, eqv x = true → eqv y = true → ltb x y = false)
        (eqv_closed : ∀ x y, eqv x = true → ltb x y = false → ltb y x = false → eqv y = true).

Lemma sort_insert_stable x l :
  List.filter eqv (sort_insert ltb x l) = List.filter eqv (x :: l).
Proof.
  induction l as [|y l IH]; cbn; [done|].
  destruct (ltb y x) eqn:E; [|done]. cbn in *. rewrite IH.
  destruct (eqv y) eqn:Ey, (eqv x) eqn:Ex; try done.
  rewrite eqv_ltb in E by done. done.
Qed.

Lemma py_sort_stable l : List.filter eqv (py_sort ltb l) = List.filter eqv l.
Proof.
  induction l as [|x l IH]; [done|].
  change (py_sort ltb (x :: l)) with (sort_insert ltb x (py_sort ltb l)).
  rewrite sort_insert_stable. cbn. by rewrite IH.
Qed.
End sort_lemmas.

Lemma torch_sort_perm l : torch_sort l ≡ₚ l.
Proof. apply py_sort_perm. Qed.

Lemma torch_sort_sorted l : StronglySorted Z.le (torch_sort l).
Proof.
  assert (StronglySorted (not_after Z.ltb) (torch_sort l)) as H.
  { apply py_sort_sorted; intros *; lia. }
  induction H as [|x k ? IH Hx]; constructor; [done|].
  eapply Forall_impl; [exact Hx|]. unfold not_after. cbn. lia.
Qed.

Lemma elem_of_dedup_sorted x l : x ∈ dedup_sorted l ↔ x ∈ l.
Proof.
  induction l as [|y l IH]; [done|].
  destruct l as [|z l]; [done|].
  change (dedup_sorted (y :: z :: l)) with
    (if y =? z then dedup_sorted (z :: l) else y :: dedup_sorted (z :: l)).
  case_bools.
  - subst. rewrite IH. set_solver.
  - rewrite !elem_of_cons, IH, elem_of_cons. done.
Qed.

Lemma dedup_sorted_StronglySorted l :
  StronglySorted Z.le l → StronglySorted Z.lt (dedup_sorted l).
Proof.
  induction 1 as [|y l Hl IH Hy]; [constructor|].
  destruct l as [|z l]; [repeat constructor|].
  change (dedup_sorted (y :: z :: l)) with
    (if y =? z then dedup_sorted (z :: l) else y :: dedup_sorted (z :: l)).
  case_bools; [done|].
  constructor; [done|]. apply Forall_forall. intros w Hw. rewrite elem_of_dedup_sorted in Hw.
  rewrite Forall_forall in Hy. pose proof (Hy w Hw).
  apply elem_of_cons in Hw as [->|Hw]; [lia|].
  inversion Hl as [|? ? ? Hz]; subst. rewrite Forall_forall in Hz.
  pose proof (Hz w Hw). pose proof (Hy z ltac:(left)). lia.
Qed.

Lemma StronglySorted_lt_NoDup l : StronglySorted Z.lt l → NoDup l.
Proof.
  induction 1 as [|x l _ IH Hx]; constructor; [|done].
  intros Hin. rewrite Forall_forall in Hx. specialize (Hx x Hin). lia.
Qed.

Lemma NoDup_torch_unique l : NoDup (torch_unique l).
Proof. apply StronglySorted_lt_NoDup, dedup_sorted_StronglySorted, torch_sort_sorted. Qed.

Lemma elem_of_torch_unique x l : x ∈ torch_unique l ↔ x ∈ l.
Proof. unfold torch_unique. by rewrite elem_of_dedup_sorted, torch_sort_perm. Qed.

(** ** Dictionary lemmas *)
Section dict_lemmas.
Context {K V : Type} `{EqDecision K}.
Implicit Types (d : list (K * V)) (k : K) (v : V).

Lemma dict_get_Some_elem d k v : dict_get k d = Some v → (k, v) ∈ d.
Proof.
  induction d as [|[k' v'] d IH]; cbn; [done|].
  case_decide; intros; simplify_eq; [left|right; auto].
Qed.

Lemma dict_get_elem d k v : NoDup d.*1 → (k, v) ∈ d → dict_get k d = Some v.
Proof.
  induction d as [|[k' v'] d IH]; cbn; [set_solver|].
  intros [Hk Hd]%NoDup_cons [?|Hin]%elem_of_cons; simplify_eq/=.
  - by rewrite decide_True.
  - rewrite decide_False; [by apply IH|]. intros ->. apply Hk.
    apply list_elem_of_fmap. by exists (k', v).
Qed.

Lemma dict_get_None d k : dict_get k d = None ↔ k ∉ d.*1.
Proof.
  induction d as [|[k' v'] d IH]; cbn; [set_solver|].
  case_decide; [set_solver|]. rewrite IH. set_solver.
Qed.

Lemma dict_get_set_eq d k v : dict_get k (dict_set k v d) = Some v.
Proof.
  induction d as [|[k' v'] d IH]; cbn; [by rewrite decide_True|].
  destruct (decide (k = k')); cbn; [by rewrite decide_True | by rewrite decide_False].
Qed.

Lemma dict_get_set_ne d k k' v : k ≠ k' → dict_get k' (dict_set k v d) = dict_get k' d.
Proof.
  intros. induction d as [|[k0 v0] d IH]; cbn; [by rewrite decide_False|].
  destruct (decide (k = k0)); cbn; [subst; by rewrite !decide_False|].
  by destruct (decide (k' = k0)).
Qed.

Lemma dict_set_fst_in d k v : k ∈ d.*1 → (dict_set k v d).*1 = d.*1.
Proof.
  induction d as [|[k' v'] d IH]; cbn; [set_solver|].
  intros Hin. case_decide; cbn; [done|]. f_equal. apply IH. set_solver.
Qed.

Lemma dict_set_new d k v : k ∉ d.*1 → dict_set k v d = d ++ [(k, v)].
Proof.
  induction d as [|[k' v'] d IH]; cbn; [done|].
  intros Hin. rewrite decide_False by set_solver. rewrite IH by set_solver. done.
Qed.

Lemma dict_set_NoDup d k v : NoDup d.*1 → NoDup (dict_set k v d).*1.
Proof.
  intros Hd. destruct (decide (k ∈ d.*1)).
  - by rewrite dict_set_fst_in.
  - rewrite dict_set_new by done. rewrite fmap_app. apply NoDup_app.
    split; [done|]. cbn. split; [set_solver | apply NoDup_singleton].
Qed.

Lemma dict_get_del_ne d k k' : k ≠ k' → dict_get k' (dict_del k d) = dict_get k' d.
Proof.
  intros. induction d as [|[k0 v0] d IH]; cbn; [done|].
  destruct (decide (k = k0)); cbn; [subst; by rewrite decide_False|].
  by destruct (decide (k' = k0)).
Qed.

Lemma dict_del_sublist d k : dict_del k d `sublist_of` d.
Proof.
  induction d as [|[k0 v0] d IH]; cbn; [done|].
  case_decide; [by constructor | by constructor].
Qed.

Lemma dict_get_del_eq d k : NoDup d.*1 → dict_get k (dict_del k d) = None.
Proof.
  induction d as [|[k0 v0] d IH]; cbn; [done|].
  intros [Hk Hd]%NoDup_cons. case_decide; subst; [by apply dict_get_None|].
  cbn. by rewrite decide_False, IH.
Qed.

Lemma dict_del_NoDup d k : NoDup d.*1 → NoDup (dict_del k d).*1.
Proof. intros Hd. eapply sublist_NoDup; [exact Hd|]. apply fmap_sublist, dict_del_sublist. Qed.

Lemma elem_of_dict_set d k v k' v' :
  NoDup d.*1 → (k', v') ∈ dict_set k v d ↔ (k' = k ∧ v' = v) ∨ (k' ≠ k ∧ (k', v') ∈ d).
Proof.
  intros Hd. pose proof (dict_set_NoDup d k v Hd) as Hd'. split.
  - intros Hin%(dict_get_elem _ _ _ Hd'). destruct (decide (k' = k)) as [->|].
    + rewrite dict_get_set_eq in Hin. naive_solver.
    + rewrite dict_get_set_ne in Hin by done. right. eauto using dict_get_Some_elem.
  - intros [[-> ->]|[? Hin]]; apply dict_get_Some_elem.
    + apply dict_get_set_eq.
    + rewrite dict_get_set_ne by done. by apply dict_get_elem.
Qed.

Lemma elem_of_dict_del d k k' v' :
  NoDup d.*1 → (k', v') ∈ dict_del k d ↔ k' ≠ k ∧ (k', v') ∈ d.
Proof.
  intros Hd. pose proof (dict_del_NoDup d k Hd) as Hd'. split.
  - intros Hin%(dict_get_elem _ _ _ Hd'). destruct (decide (k' = k)) as [->|].
    + by rewrite dict_get_del_eq in Hin.
    + rewrite dict_get_del_ne in Hin by done. eauto using dict_get_Some_elem.
  - intros [? Hin]. apply dict_get_Some_elem.
    rewrite dict_get_del_ne by done. by apply dict_get_elem.
Qed.

(** Redirecting a key changes a sum over the values at one place. *)
Lemma dict_set_sum (f : V → Z) d k v w :
  dict_get k d = Some v → sum_Z (f <$> (dict_set k w d).*2) = sum_Z (f <$> d.*2) - f v + f w.
Proof.
  unfold sum_Z. induction d as [|[k0 v0] d IH]; cbn; [done|].
  case_decide; intros; simplify_eq/=; [lia|]. rewrite IH by done. lia.
Qed.

Lemma dict_del_sum (f : V → Z) d k v :
  dict_get k d = Some v → sum_Z (f <$> (dict_del k d).*2) = sum_Z (f <$> d.*2) - f v.
Proof.
  unfold sum_Z. induction d as [|[k0 v0] d IH]; cbn; [done|].
  case_decide; intros; simplify_eq/=; [lia|]. rewrite IH by done. lia.
Qed.
End dict_lemmas.

#[export] Hint Rewrite @len_app @len_nil @len_cons @len_fmap : py.
#[export] Hint Resolve len_nonneg NoDup_py_range NoDup_torch_unique torch_sort_perm : py.
