(* ===== verification/KVAllocator.v ===== *)
(** * The KV-slot allocators of [mem_cache/allocator.py]

    [Base] is the state every allocator shares; [TokenAlloc] the allocator of
    single slots, [PagedAlloc] the page-aligned one with its two Triton
    kernels, [SWAAlloc] the pair of token allocators of a hybrid
    sliding-window model.  Tensors are lists of integers; the storage of the
    KV data itself ([_kvcache], dtype, device) is not part of the state. *)

From S2P Require Import Prelude.

(** ** Shared state and helpers *)
Module Base.
Record t := mk {
  size : Z;
  page_size : Z;
  need_sort : bool;
  free_pages : list Z;
  release_pages : list Z;
  is_not_in_free_group : bool;
  free_group : list (list Z)
}.

Definition set_pages (s : t) (fp rp : list Z) : t :=
  mk (size s) (page_size s) (need_sort s) fp rp (is_not_in_free_group s) (free_group s).
Definition set_group (s : t) (b : bool) (g : list (list Z)) : t :=
  mk (size s) (page_size s) (need_sort s) (free_pages s) (release_pages s) b g.

Definition available_size (s : t) : Z :=
  (len (free_pages s) + len (release_pages s)) * page_size s.

Definition backup_state (s : t) : list Z * list Z := (free_pages s, release_pages s).
Definition restore_state (s : t) (state : list Z * list Z) : t :=
  set_pages s (fst state) (snd state).

Definition free_group_begin (s : t) : t := set_group s false [].

(** [self.free] is the method of the subclass. *)
Definition free_group_end (free : t → list Z → t) (s : t) : t :=
  let s' := set_group s true (free_group s) in
  match free_group s with
  | [] => s'
  | g => free s' (mjoin g)
  end.

Definition merge_and_sort_free (s : t) : t :=
  if 0 <? len (release_pages s)
  then set_pages s (torch_sort (free_pages s ++ release_pages s)) []
  else s.
End Base.

(** ** One slot per page *)
Module TokenAlloc.
Import Base.

Definition clear (s : t) : t :=
  mk (size s) (page_size s) (need_sort s) (py_range 1 (size s + 1)) [] true [].

Definition init (size : Z) (need_sort : bool) : t :=
  clear (mk size 1 need_sort [] [] true []).

Definition available_size (s : t) : Z := len (free_pages s) + len (release_pages s).

Definition alloc (s : t) (need_size : Z) : option (list Z) * t :=
  let s := if need_sort s && (len (free_pages s) <? need_size)
           then merge_and_sort_free s else s in
  if len (free_pages s) <? need_size then (None, s)
  else
    let select_index := py_upto (free_pages s) need_size in
    (Some select_index, set_pages s (py_from (free_pages s) need_size) (release_pages s)).

Definition free (s : t) (free_index : list Z) : t :=
  if len free_index =? 0 then s
  else if is_not_in_free_group s then
    if need_sort s then set_pages s (free_pages s) (release_pages s ++ free_index)
    else set_pages s (free_pages s ++ free_index) (release_pages s)
  else set_group s (is_not_in_free_group s) (free_group s ++ [free_index]).
End TokenAlloc.

(** ** Gather and scatter on a one-dimensional tensor: [m[idx]] and [m[idx] = v] *)
Fixpoint gather (m : list Z) (idx : list Z) : res (list Z) :=
  match idx with
  | [] => Ok []
  | i :: idx' => let! x := py_index m i in let! r := gather m idx' in Ok (x :: r)
  end.

Definition scatter1 (m : list Z) (i v : Z) : res (list Z) :=
  let j := if i <? 0 then len m + i else i in
  if (j <? 0) || (len m <=? j) then Err IndexError else Ok (<[Z.to_nat j := v]> m).

Fixpoint scatter (m : list Z) (idx vals : list Z) : res (list Z) :=
  match idx, vals with
  | [], [] => Ok m
  | i :: idx', v :: vals' => let! m' := scatter1 m i v in scatter m' idx' vals'
  | _, _ => Err RuntimeError
  end.

(** [.to(torch.int32)] keeps the low 32 bits as a signed number. *)
Definition to_int32 (z : Z) : Z := (z + 2 ^ 31) mod 2 ^ 32 - 2 ^ 31.

(** ** Sliding-window hybrid allocator *)
Module SWAAlloc.
Record t := mk {
  full_attn_allocator : Base.t;
  swa_attn_allocator : Base.t;
  full_to_swa_index_mapping : list Z;
  is_not_in_free_group : bool;
  free_group : list (list Z)
}.

Definition clear (s : t) : t :=
  mk (TokenAlloc.clear (full_attn_allocator s)) (TokenAlloc.clear (swa_attn_allocator s))
     ((λ _, 0) <$> full_to_swa_index_mapping s) true [].

(** [torch.empty] leaves the mapping unspecified; [clear] fills it. *)
Definition init (size size_swa : Z) (need_sort : bool) (uninit : Z → Z) : t :=
  clear (mk (TokenAlloc.init size need_sort) (TokenAlloc.init size_swa need_sort)
            (uninit <$> py_range 0 (size + size_swa + 1)) true []).

Definition full_available_size (s : t) : Z := TokenAlloc.available_size (full_attn_allocator s).
Definition swa_available_size (s : t) : Z := TokenAlloc.available_size (swa_attn_allocator s).

Definition translate_loc_from_full_to_swa (s : t) (kv_indices : list Z) : res (list Z) :=
  let! v := gather (full_to_swa_index_mapping s) kv_indices in Ok (to_int32 <$> v).

(** Both pools are tested first, so the two inner allocations succeed; the
    store with a [None] index that would follow otherwise is an error. *)
Definition alloc (s : t) (need_size : Z) : res (option (list Z) * t) :=
  if full_available_size s <? need_size then Ok (None, s)
  else if swa_available_size s <? need_size then Ok (None, s)
  else
    let '(alloc_full_indices, full') := TokenAlloc.alloc (full_attn_allocator s) need_size in
    let '(alloc_swa_indices, swa') := TokenAlloc.alloc (swa_attn_allocator s) need_size in
    match alloc_full_indices, alloc_swa_indices with
    | Some fi, Some si =>
        let! m := scatter (full_to_swa_index_mapping s) fi si in
        Ok (Some fi, mk full' swa' m (is_not_in_free_group s) (free_group s))
    | _, _ => Err TypeError
    end.

Definition free_swa (s : t) (free_index : list Z) : res t :=
  let! swa_indices := gather (full_to_swa_index_mapping s) free_index in
  let swa_indices := List.filter (λ i, 0 <? i) swa_indices in
  let! m := scatter (full_to_swa_index_mapping s) free_index ((λ _, 0) <$> free_index) in
  Ok (mk (full_attn_allocator s) (TokenAlloc.free (swa_attn_allocator s) swa_indices) m
         (is_not_in_free_group s) (free_group s)).

Definition free (s : t) (free_index : list Z) : res t :=
  if len free_index =? 0 then Ok s
  else
    let! s' :=
      if is_not_in_free_group s then
        free_swa (mk (TokenAlloc.free (full_attn_allocator s) free_index) (swa_attn_allocator s)
                     (full_to_swa_index_mapping s) (is_not_in_free_group s) (free_group s))
                 free_index
      else Ok (mk (full_attn_allocator s) (swa_attn_allocator s) (full_to_swa_index_mapping s)
                  (is_not_in_free_group s) (free_group s ++ [free_index])) in
    let! _ := py_assert (full_available_size s' <=? Base.size (full_attn_allocator s')) in
    let! _ := py_assert (swa_available_size s' <=? Base.size (swa_attn_allocator s')) in
    Ok s'.

Definition backup_state (s : t) : (list Z * list Z) * (list Z * list Z) :=
  (Base.backup_state (full_attn_allocator s), Base.backup_state (swa_attn_allocator s)).
Definition restore_state (s : t) (state : (list Z * list Z) * (list Z * list Z)) : t :=
  mk (Base.restore_state (full_attn_allocator s) (fst state))
     (Base.restore_state (swa_attn_allocator s) (snd state))
     (full_to_swa_index_mapping s) (is_not_in_free_group s) (free_group s).
End SWAAlloc.

(** ** Helpers of [utils/common.py] *)

(** [int.bit_length] of a nonnegative integer. *)
Definition bit_length (n : Z) : Z := if n =? 0 then 0 else Z.log2 n + 1.
Definition next_power_of_2 (n : Z) : Z := if 0 <? n then Z.shiftl 1 (bit_length (n - 1)) else 1.

Definition ceil_div (x y : Z) : Z := (x + y - 1) / y.
Definition ceil_align (x y : Z) : Z := ceil_div x y * y.

Definition get_num_new_pages (seq_lens : list Z) (page_size : Z)
    (prefix_lens : option (list Z)) (decode : bool) : res Z :=
  match prefix_lens, decode with
  | Some prefix_lens, false =>
      let num_pages_after := (λ s, (s + page_size - 1) / page_size) <$> seq_lens in
      let num_pages_before := (λ s, (s + page_size - 1) / page_size) <$> prefix_lens in
      Ok (sum_Z (zip_with Z.sub num_pages_after num_pages_before))
  | _, _ =>
      let! _ := py_assert decode in
      Ok (sum_Z ((λ s, if s mod page_size =? 1 then 1 else 0) <$> seq_lens))
  end.

(** ** The Triton kernels

    A kernel instance [pid] reads device arrays and stores into the output
    array.  A lane that the mask of a load switches off holds an unspecified
    value, [masked]; a load past the end of an array returns an unspecified
    value, [oob]; a store past the end has no effect on the array.  Both values
    are parameters, and no theorem below depends on them. *)
Section kernels.
Context (masked oob : Z).

Definition tl_load (arr : list Z) (i : Z) : Z :=
  if i <? 0 then oob else default oob (arr !! Z.to_nat i).

(** [tl.load(ptr + arange(0, n), mask=...)] as the list of its lanes. *)
Definition tl_load_lanes (arr : list Z) (n : Z) (mask : Z → bool) : list Z :=
  (λ o, if mask o then tl_load arr o else masked) <$> py_range 0 n.

(** [tl.store(out + base + arange(0, n), val, mask=...)]. *)
Definition tl_store_lanes (out : list Z) (base n : Z) (val : Z → Z) (mask : Z → bool) : list Z :=
  foldl (λ out o, if mask o && (0 <=? base + o)
                  then <[Z.to_nat (base + o) := val o]> out else out)
        out (py_range 0 n).

Definition alloc_extend_kernel (pre_lens_ptr seq_lens_ptr last_loc_ptr free_page_ptr : list Z)
    (bs_upper page_size max_num_extend_tokens : Z) (out_indices : list Z) (pid : Z) : list Z :=
  let seq_lens := tl_load_lanes seq_lens_ptr bs_upper (λ o, o <=? pid) in
  let pre_lens := tl_load_lanes pre_lens_ptr bs_upper (λ o, o <=? pid) in
  let extend_lens := zip_with Z.sub seq_lens pre_lens in

  let seq_len := tl_load seq_lens_ptr pid in
  let pre_len := tl_load pre_lens_ptr pid in
  let extend_len := seq_len - pre_len in

  let sum_extend_lens := sum_Z extend_lens in
  let output_start_loc := sum_extend_lens - extend_len in

  let num_pages_after := (λ s, (s + page_size - 1) / page_size) <$> seq_lens in
  let num_pages_before := (λ s, (s + page_size - 1) / page_size) <$> pre_lens in
  let num_new_pages := zip_with Z.sub num_pages_after num_pages_before in

  let num_page_start_loc_self :=
    (seq_len + page_size - 1) / page_size - (pre_len + page_size - 1) / page_size in
  let sum_num_new_pages := sum_Z num_new_pages in
  let new_page_start_loc := sum_num_new_pages - num_page_start_loc_self in

  (* Part 1: fill the old partial page *)
  let last_loc := tl_load last_loc_ptr pid in
  let num_part1 :=
    Z.min seq_len ((pre_len + page_size - 1) / page_size * page_size) - pre_len in
  let out_indices :=
    tl_store_lanes out_indices output_start_loc page_size
      (λ o, last_loc + 1 + o) (λ o, o <? num_part1) in
  if pre_len + num_part1 =? seq_len then out_indices else

  (* Part 2: fill the new full pages *)
  let num_part2 :=
    seq_len / page_size * page_size - (pre_len + page_size - 1) / page_size * page_size in
  let out_indices :=
    tl_store_lanes out_indices (output_start_loc + num_part1) max_num_extend_tokens
      (λ o, (if o <? num_part2
             then tl_load free_page_ptr (new_page_start_loc + o / page_size) else masked)
            * page_size + o mod page_size)
      (λ o, o <? num_part2) in
  if pre_len + num_part1 + num_part2 =? seq_len then out_indices else

  (* Part 3: fill the new partial page *)
  let num_part3 := seq_len - seq_len / page_size * page_size in
  let start_loc := tl_load free_page_ptr (new_page_start_loc + num_page_start_loc_self - 1) in
  tl_store_lanes out_indices (output_start_loc + num_part1 + num_part2) page_size
    (λ o, start_loc * page_size + o) (λ o, o <? num_part3).

Definition alloc_decode_kernel (seq_lens_ptr last_loc_ptr free_page_ptr : list Z)
    (bs_upper page_size : Z) (out_indices : list Z) (pid : Z) : list Z :=
  let seq_lens := tl_load_lanes seq_lens_ptr bs_upper (λ o, o <=? pid) in
  let pre_lens :=
    zip_with (λ o s, if o <=? pid then s - 1 else s) (py_range 0 bs_upper) seq_lens in

  let seq_len := tl_load seq_lens_ptr pid in
  let pre_len := seq_len - 1 in

  let num_pages_after := (λ s, (s + page_size - 1) / page_size) <$> seq_lens in
  let num_pages_before := (λ s, (s + page_size - 1) / page_size) <$> pre_lens in
  let num_new_pages := zip_with Z.sub num_pages_after num_pages_before in

  let num_page_start_loc_self :=
    (seq_len + page_size - 1) / page_size - (pre_len + page_size - 1) / page_size in
  let sum_num_new_pages := sum_Z num_new_pages in
  let new_page_start_loc := sum_num_new_pages - num_page_start_loc_self in

  if num_page_start_loc_self =? 0 then
    let last_loc := tl_load last_loc_ptr pid in
    tl_store_lanes out_indices pid 1 (λ _, last_loc + 1) (λ _, true)
  else
    let page := tl_load free_page_ptr new_page_start_loc in
    tl_store_lanes out_indices pid 1 (λ _, page * page_size) (λ _, true).

(** [kernel[(bs,)](...)]: every instance of the grid runs. *)
Definition launch (bs : Z) (kernel : list Z → Z → list Z) (out : list Z) : list Z :=
  foldl kernel out (py_range 0 bs).
End kernels.

(** ** The paged allocator *)
Module PagedAlloc.
Record t := mk {
  base : Base.t;
  num_pages : Z;
  debug_mode : bool;
  seen_max_num_extend_tokens_next_power_of_2 : Z
}.
Definition with_base (s : t) (b : Base.t) : t :=
  mk b (num_pages s) (debug_mode s) (seen_max_num_extend_tokens_next_power_of_2 s).

Definition clear (s : t) : t :=
  let b := base s in
  with_base s (Base.mk (Base.size b) (Base.page_size b) (Base.need_sort b)
                       (py_range 1 (num_pages s + 1)) [] true []).

Definition init (size page_size : Z) (need_sort debug_mode : bool) : t :=
  clear (mk (Base.mk size page_size need_sort [] [] true []) (size / page_size) debug_mode 1).

(** [out_pages[:, None] * page_size + arange(page_size)], flattened. *)
Definition page_slots (page_size page : Z) : list Z :=
  (λ o, page * page_size + o) <$> py_range 0 page_size.

Definition alloc (s : t) (need_size : Z) : res (option (list Z) * t) :=
  let ps := Base.page_size (base s) in
  let! _ := if debug_mode s then py_assert (need_size mod ps =? 0) else Ok tt in
  let num_pages := need_size / ps in
  let b := base s in
  let b := if Base.need_sort b && (len (Base.free_pages b) <? num_pages)
           then Base.merge_and_sort_free b else b in
  if len (Base.free_pages b) <? num_pages then Ok (None, with_base s b)
  else
    let out_pages := py_upto (Base.free_pages b) num_pages in
    let b := Base.set_pages b (py_from (Base.free_pages b) num_pages) (Base.release_pages b) in
    Ok (Some (out_pages ≫= page_slots ps), with_base s b).

Section paged.
Context (masked oob : Z).

(** [uninit] is the content [torch.empty] leaves in the output tensor. *)
Definition alloc_extend (s : t) (uninit : Z → Z)
    (prefix_lens prefix_lens_cpu seq_lens seq_lens_cpu last_loc : list Z)
    (extend_num_tokens : Z) : res (option (list Z) * t) :=
  let ps := Base.page_size (base s) in
  let! _ := if debug_mode s
            then py_assert (forallb (λ b, b) (zip_with (λ l p, (l + 1) mod ps =? p mod ps)
                                                       last_loc prefix_lens))
            else Ok tt in
  let s := mk (base s) (num_pages s) (debug_mode s)
              (Z.max (seen_max_num_extend_tokens_next_power_of_2 s)
                     (next_power_of_2 extend_num_tokens)) in
  let bs := len prefix_lens in
  let b := base s in
  let b := if Base.need_sort b && (len (Base.free_pages b) <? extend_num_tokens / ps + bs + 1)
           then Base.merge_and_sort_free b else b in
  let s := with_base s b in
  let out_indices := uninit <$> py_range 0 extend_num_tokens in
  let out_indices :=
    launch bs (alloc_extend_kernel masked oob prefix_lens seq_lens last_loc (Base.free_pages b)
                 (next_power_of_2 bs) ps (seen_max_num_extend_tokens_next_power_of_2 s))
           out_indices in
  let! _ := if debug_mode s
            then py_assert (len (torch_unique out_indices) =? len out_indices) else Ok tt in
  let! num_new_pages := get_num_new_pages seq_lens_cpu ps (Some prefix_lens_cpu) false in
  if len (Base.free_pages b) <? num_new_pages then Ok (None, s)
  else Ok (Some out_indices,
           with_base s (Base.set_pages b (py_from (Base.free_pages b) num_new_pages)
                                         (Base.release_pages b))).

Definition alloc_decode (s : t) (uninit : Z → Z)
    (seq_lens seq_lens_cpu last_loc : list Z) : res (option (list Z) * t) :=
  let ps := Base.page_size (base s) in
  let! _ := if debug_mode s
            then py_assert (forallb (λ b, b) (zip_with (λ l p, (l + 2) mod ps =? p mod ps)
                                                       last_loc seq_lens))
            else Ok tt in
  let bs := len seq_lens in
  let b := base s in
  let b := if Base.need_sort b && (len (Base.free_pages b) <? bs)
           then Base.merge_and_sort_free b else b in
  let s := with_base s b in
  let out_indices := uninit <$> py_range 0 bs in
  let out_indices :=
    launch bs (alloc_decode_kernel masked oob seq_lens last_loc (Base.free_pages b)
                 (next_power_of_2 bs) ps)
           out_indices in
  let! _ := if debug_mode s
            then py_assert (len (torch_unique out_indices) =? len out_indices) else Ok tt in
  let! num_new_pages := get_num_new_pages seq_lens_cpu ps None true in
  if len (Base.free_pages b) <? num_new_pages then Ok (None, s)
  else Ok (Some out_indices,
           with_base s (Base.set_pages b (py_from (Base.free_pages b) num_new_pages)
                                         (Base.release_pages b))).
End paged.

Definition free (s : t) (free_index : list Z) : res t :=
  if len free_index =? 0 then Ok s
  else
    let b := base s in
    let b :=
      if Base.is_not_in_free_group b then
        let free_page_indices := torch_unique ((λ i, i / Base.page_size b) <$> free_index) in
        if Base.need_sort b
        then Base.set_pages b (Base.free_pages b) (free_page_indices ++ Base.release_pages b)
        else Base.set_pages b (free_page_indices ++ Base.free_pages b) (Base.release_pages b)
      else Base.set_group b (Base.is_not_in_free_group b) (Base.free_group b ++ [free_index]) in
    let! _ := if debug_mode s
              then py_assert (len (torch_unique (Base.free_pages b)) =? len (Base.free_pages b))
              else Ok tt in
    Ok (with_base s b).
End PagedAlloc.
