(* ===== verification/KVAllocatorProofs.v ===== *)
(** * Correctness of the KV-slot allocators

    Conservation of slots for the token and paged allocators, equivalence of
    the two Triton kernels with a sequential reference that walks the requests
    one by one, freedom from aliasing of what they hand out, and the
    sliding-window pair.  [KVAllocator] is the interface the prefix caches are
    proved against. *)

From S2P Require Import Prelude KVAllocator.

(** ** Reference definitions *)

(** The slots of the positions [pre .. seq - 1] of one request whose last
    occupied slot is [last] and whose new pages are [pages]. *)
Definition req_slot (ps pre last : Z) (pages : list Z) (p : Z) : Z :=
  if p <? ceil_align pre ps then last + 1 + (p - pre)
  else nth (Z.to_nat (p / ps - ceil_div pre ps)) pages 0 * ps + p mod ps.

Definition req_slots (ps pre seq last : Z) (pages : list Z) : list Z :=
  req_slot ps pre last pages <$> py_range pre seq.

(** The pages a request needs beyond the ones its prefix occupies. *)
Definition new_pages (ps pre seq : Z) : Z := ceil_div seq ps - ceil_div pre ps.

Record req_shape := { r_pre : Z; r_seq : Z; r_last : Z }.

Fixpoint ref_extend (ps : Z) (rs : list req_shape) (free : list Z) : list Z :=
  match rs with
  | [] => []
  | r :: rs' =>
      let n := Z.to_nat (new_pages ps (r_pre r) (r_seq r)) in
      req_slots ps (r_pre r) (r_seq r) (r_last r) (take n free) ++ ref_extend ps rs' (drop n free)
  end.

Definition total_new_pages (ps : Z) (rs : list req_shape) : Z :=
  sum_Z ((λ r, new_pages ps (r_pre r) (r_seq r)) <$> rs).
Definition total_extend (rs : list req_shape) : Z :=
  sum_Z ((λ r, r_seq r - r_pre r) <$> rs).

(** ** Arithmetic of pages *)

Lemma ceil_div_bounds x y : 0 < y → x ≤ ceil_div x y * y < x + y.
Proof.
  intros Hy. unfold ceil_div.
  pose proof (Z.div_mod (x + y - 1) y ltac:(lia)).
  pose proof (Z.mod_pos_bound (x + y - 1) y Hy). nia.
Qed.

Lemma ceil_div_unique x y q : 0 < y → x ≤ q * y < x + y → ceil_div x y = q.
Proof. intros Hy Hq. pose proof (ceil_div_bounds x y Hy). nia. Qed.

Lemma ceil_div_mono x x' y : 0 < y → x ≤ x' → ceil_div x y ≤ ceil_div x' y.
Proof. intros Hy Hx. unfold ceil_div. apply Z.div_le_mono; lia. Qed.

Lemma div_bounds x y : 0 < y → x / y * y ≤ x < x / y * y + y.
Proof.
  intros Hy. pose proof (Z.div_mod x y ltac:(lia)).
  pose proof (Z.mod_pos_bound x y Hy). nia.
Qed.

Lemma next_power_of_2_ge n : n ≤ next_power_of_2 n.
Proof.
  unfold next_power_of_2, bit_length. rewrite Z.shiftl_1_l. case_bools; try lia.
  pose proof (Z.log2_spec (n - 1) ltac:(lia)). lia.
Qed.

(** ** Writes to consecutive cells *)

Definition seg_write (out : list Z) (b : nat) (vs : list Z) : list Z :=
  take b out ++ vs ++ drop (b + length vs) out.

Lemma seg_write_nil out b : seg_write out b [] = out.
Proof. unfold seg_write. cbn. rewrite Nat.add_0_r. apply take_drop. Qed.

Lemma length_seg_write out b vs :
  (b + length vs ≤ length out)%nat → length (seg_write out b vs) = length out.
Proof. intros. unfold seg_write. rewrite !length_app, length_take, length_drop. lia. Qed.

Lemma seg_write_app out b vs ws :
  (b + length vs + length ws ≤ length out)%nat →
  seg_write (seg_write out b vs) (b + length vs) ws = seg_write out b (vs ++ ws).
Proof.
  intros H. unfold seg_write. rewrite length_app.
  rewrite (app_assoc (take b out) vs) at 1.
  rewrite take_app_length' by (rewrite length_app, length_take; lia).
  rewrite <-!app_assoc. f_equal. f_equal. f_equal.
  rewrite app_assoc, drop_app_ge by (rewrite length_app, length_take; lia).
  rewrite drop_drop. f_equal. rewrite length_app, length_take. lia.
Qed.

Lemma seg_write_singleton out b x :
  (b < length out)%nat → seg_write out b [x] = <[b := x]> out.
Proof. intros. unfold seg_write. rewrite insert_take_drop by done. cbn. by rewrite Nat.add_1_r. Qed.

Lemma foldl_store_skip base m (val : Z → Z) l (out : list Z) :
  Forall (λ o, m ≤ o) l →
  foldl (λ out o, if (o <? m) && (0 <=? base + o)
                  then <[Z.to_nat (base + o) := val o]> out else out) out l = out.
Proof.
  revert out. induction l as [|o l IH]; intros out Hl; [done|].
  inversion Hl; subst. cbn. replace (o <? m) with false by lia. by apply IH.
Qed.

Lemma foldl_store_run base m (val : Z → Z) (out : list Z) k :
  0 ≤ base → Z.of_nat k ≤ m → (Z.to_nat base + k ≤ length out)%nat →
  foldl (λ out o, if (o <? m) && (0 <=? base + o)
                  then <[Z.to_nat (base + o) := val o]> out else out)
        out (py_range 0 (Z.of_nat k)) =
  seg_write out (Z.to_nat base) (val <$> py_range 0 (Z.of_nat k)).
Proof.
  intros Hb. induction k as [|k IH]; intros Hk Hl; [by rewrite seg_write_nil|].
  rewrite Nat2Z.inj_succ, <-Z.add_1_r, py_range_snoc by lia.
  rewrite foldl_app, fmap_app, IH by lia. cbn [foldl fmap list_fmap].
  pose proof (len_py_range 0 (Z.of_nat k) ltac:(lia)) as Hr. unfold len in Hr.
  rewrite <-seg_write_app; [|rewrite length_fmap; cbn; lia].
  replace (Z.of_nat k <? m) with true by lia.
  replace (0 <=? base + Z.of_nat k) with true by lia. cbn [andb].
  rewrite seg_write_singleton; [f_equal; rewrite length_fmap; lia|].
  rewrite length_seg_write; rewrite length_fmap; lia.
Qed.

Lemma store_lanes_seg out base n m val :
  0 ≤ base → 0 ≤ m ≤ n → base + m ≤ len out →
  tl_store_lanes out base n val (λ o, o <? m) =
  seg_write out (Z.to_nat base) (val <$> py_range 0 m).
Proof.
  intros Hb Hm Hlen. unfold tl_store_lanes.
  rewrite (py_range_split 0 m n) by lia. rewrite foldl_app, foldl_store_skip.
  2: { apply Forall_forall. intros o. rewrite elem_of_py_range. lia. }
  pose proof (foldl_store_run base m val out (Z.to_nat m)) as Hrun.
  rewrite Z2Nat.id in Hrun by lia. apply Hrun; unfold len in *; lia.
Qed.

(** ** Masked loads *)

Lemma tl_load_app oob l x k i :
  i = len l → tl_load oob (l ++ x :: k) i = x.
Proof.
  intros ->. unfold tl_load, len. case_bools; [lia|].
  rewrite Nat2Z.id, list_lookup_middle by done. done.
Qed.

Lemma load_lanes_split masked oob l x k n :
  len l < n →
  tl_load_lanes masked oob (l ++ x :: k) n (λ o, o <=? len l) =
  l ++ [x] ++ replicate (Z.to_nat (n - len l - 1)) masked.
Proof.
  intros Hn. unfold tl_load_lanes. pose proof (len_nonneg l).
  rewrite (py_range_split 0 (len l) n), (py_range_split (len l) (len l + 1) n) by lia.
  rewrite !fmap_app. f_equal; [|f_equal].
  - apply fmap_py_range_list. intros i y Hi.
    pose proof (lookup_lt_Some _ _ _ Hi). unfold tl_load.
    case_bools; try (unfold len in *; lia).
    by rewrite Nat2Z.id, lookup_app_l, Hi by done.
  - rewrite py_range_snoc, py_range_nil by lia. cbn [app fmap list_fmap].
    rewrite Z.leb_refl. by rewrite tl_load_app.
  - replace (n - len l - 1) with (n - (len l + 1)) by lia.
    apply fmap_py_range_const. intros o Ho. case_bools; [lia|done].
Qed.

(** The lanes past [pid] hold the same unspecified value in both loads and cancel. *)
Lemma sum_lanes_diff (f : Z → Z) masked oob sl s sk pl p pk n :
  length sl = length pl → len sl < n →
  sum_Z (zip_with Z.sub
    (f <$> tl_load_lanes masked oob (sl ++ s :: sk) n (λ o, o <=? len sl))
    (f <$> tl_load_lanes masked oob (pl ++ p :: pk) n (λ o, o <=? len sl))) =
  sum_Z (zip_with (λ a b, f a - f b) sl pl) + (f s - f p).
Proof.
  intros Hl Hn. assert (len sl = len pl) as Hlen by (unfold len; lia).
  rewrite (load_lanes_split _ _ sl) by done. rewrite Hlen.
  rewrite (load_lanes_split _ _ pl) by lia. rewrite !fmap_app. rewrite zip_with_app by (by rewrite !length_fmap).
  cbn [fmap list_fmap app zip_with]. rewrite sum_Z_app. cbn [sum_Z fold_right].
  rewrite zip_with_fmap_l, zip_with_fmap_r.
  assert (∀ k, fold_right Z.add 0 (zip_with Z.sub (f <$> replicate k masked) (f <$> replicate k masked)) = 0) as ->.
  { induction k; cbn; lia. }
  lia.
Qed.

(** ** The extend kernel *)
Section extend.
Context (masked oob ps : Z) (Hps : 0 < ps).

Definition shape_ok (r : req_shape) : Prop := 0 ≤ r_pre r ≤ r_seq r.

Lemma new_pages_nonneg r : shape_ok r → 0 ≤ new_pages ps (r_pre r) (r_seq r).
Proof using Hps. intros []. unfold new_pages. pose proof (ceil_div_mono (r_pre r) (r_seq r) ps). lia. Qed.

(** The three parts of one request, written one after the other. *)
Lemma req_slots_parts pre seq last pages :
  0 ≤ pre ≤ seq →
  let c := ceil_div pre ps * ps in
  req_slots ps pre seq last pages =
  ((λ o, last + 1 + o) <$> py_range 0 (Z.min seq c - pre)) ++
  (if seq <=? c then [] else
     ((λ o, nth (Z.to_nat (o / ps)) pages 0 * ps + o mod ps) <$> py_range 0 (seq / ps * ps - c)) ++
     ((λ o, nth (Z.to_nat (seq / ps - ceil_div pre ps)) pages 0 * ps + o) <$> py_range 0 (seq - seq / ps * ps))).
Proof using Hps.
  intros Hpre c. pose proof (ceil_div_bounds pre ps Hps). pose proof (div_bounds seq ps Hps).
  unfold req_slots. rewrite (py_range_split pre (Z.min seq c) seq), fmap_app by lia. f_equal.
  { rewrite py_range_shift, <-list_fmap_compose. apply fmap_py_range_ext. intros o Ho.
    cbn. unfold req_slot, ceil_align. fold c. case_bools; lia. }
  case_bools; [by rewrite py_range_nil by lia|].
  assert (ceil_div pre ps ≤ seq / ps) as Hq by (apply Z.div_le_lower_bound; lia).
  rewrite Z.min_r, (py_range_split c (seq / ps * ps) seq), fmap_app by nia. f_equal.
  - rewrite py_range_shift, <-list_fmap_compose. apply fmap_py_range_ext. intros o Ho.
    cbn. unfold req_slot, ceil_align. fold c. case_bools; [lia|]. unfold c.
    rewrite (Z.add_comm _ o), Z.div_add, Z.mod_add by lia. do 4 f_equal. lia.
  - rewrite py_range_shift, <-list_fmap_compose. apply fmap_py_range_ext. intros o Ho.
    cbn. unfold req_slot, ceil_align. fold c. case_bools; [nia|].
    rewrite (Z.add_comm _ o), Z.div_add, Z.mod_add by lia.
    rewrite (Z.div_small o), (Z.mod_small o) by lia. done.
Qed.

Lemma tl_load_nth free n i k :
  0 ≤ n → 0 ≤ i < k → n + k ≤ len free →
  tl_load oob free (n + i) = nth (Z.to_nat i) (take (Z.to_nat k) (drop (Z.to_nat n) free)) 0.
Proof.
  intros Hn Hi Hk. unfold tl_load. case_bools; [lia|].
  rewrite nth_lookup, lookup_take_lt, lookup_drop by lia.
  replace (Z.to_nat n + Z.to_nat i)%nat with (Z.to_nat (n + i)) by lia.
  destruct (free !! Z.to_nat (n + i)) eqn:E; [done|].
  apply lookup_ge_None in E. unfold len in *. lia.
Qed.

Lemma total_new_pages_nonneg rs : Forall shape_ok rs → 0 ≤ total_new_pages ps rs.
Proof using Hps.
  intros H. apply sum_Z_nonneg, Forall_fmap. eapply Forall_impl; [exact H|].
  intros r Hr. by apply new_pages_nonneg.
Qed.
Lemma total_extend_nonneg rs : Forall shape_ok rs → 0 ≤ total_extend rs.
Proof.
  intros H. apply sum_Z_nonneg, Forall_fmap. eapply Forall_impl; [exact H|].
  unfold shape_ok. cbn. lia.
Qed.
Lemma total_extend_mid l r k :
  total_extend (l ++ r :: k) = total_extend l + (r_seq r - r_pre r) + total_extend k.
Proof. unfold total_extend. rewrite fmap_app, sum_Z_app, fmap_cons, sum_Z_cons. lia. Qed.
Lemma total_new_pages_mid l r k :
  total_new_pages ps (l ++ r :: k) =
  total_new_pages ps l + new_pages ps (r_pre r) (r_seq r) + total_new_pages ps k.
Proof. unfold total_new_pages. rewrite fmap_app, sum_Z_app, fmap_cons, sum_Z_cons. lia. Qed.

Lemma zip_with_shapes (f : Z → Z) (rs : list req_shape) :
  zip_with (λ a b, f a - f b) (r_seq <$> rs) (r_pre <$> rs) =
  (λ r, f (r_seq r) - f (r_pre r)) <$> rs.
Proof. induction rs; cbn; f_equal; auto. Qed.

(** What an instance stores, once its offsets are known: [X] is the first
    output cell of the request, [P] the first free page it takes. *)
Definition extend_stores (pre seq last : Z) (free out : list Z) (X P maxn : Z) : list Z :=
  let c := ceil_div pre ps in let cs := ceil_div seq ps in let q := seq / ps in
  let n1 := Z.min seq (c * ps) - pre in
  let out := tl_store_lanes out X ps (λ o, last + 1 + o) (λ o, o <? n1) in
  if pre + n1 =? seq then out else
  let n2 := q * ps - c * ps in
  let out := tl_store_lanes out (X + n1) maxn
    (λ o, (if o <? n2 then tl_load oob free (P + o / ps) else masked) * ps + o mod ps)
    (λ o, o <? n2) in
  if pre + n1 + n2 =? seq then out else
  tl_store_lanes out (X + n1 + n2) ps
    (λ o, tl_load oob free (P + (cs - c) - 1) * ps + o) (λ o, o <? seq - q * ps).

Lemma extend_kernel_stores l r k free out bs_upper maxn :
  len l < bs_upper →
  alloc_extend_kernel masked oob (r_pre <$> l ++ r :: k) (r_seq <$> l ++ r :: k)
    (r_last <$> l ++ r :: k) free bs_upper ps maxn out (len l) =
  extend_stores (r_pre r) (r_seq r) (r_last r) free out (total_extend l) (total_new_pages ps l) maxn.
Proof.
  intros Hbs. unfold alloc_extend_kernel. rewrite !fmap_app. cbn [fmap list_fmap].
  rewrite !tl_load_app by (by rewrite len_fmap).
  pose proof (sum_lanes_diff (λ z, z) masked oob (r_seq <$> l) (r_seq r) (r_seq <$> k)
    (r_pre <$> l) (r_pre r) (r_pre <$> k) bs_upper) as Hs1.
  pose proof (sum_lanes_diff (λ s, (s + ps - 1) / ps) masked oob (r_seq <$> l) (r_seq r)
    (r_seq <$> k) (r_pre <$> l) (r_pre r) (r_pre <$> k) bs_upper) as Hs2.
  rewrite !length_fmap, !len_fmap, !list_fmap_id in Hs1.
  rewrite !length_fmap, !len_fmap in Hs2.
  rewrite Hs1, Hs2 by done. rewrite !zip_with_shapes.
  fold (total_extend l) (ceil_div (r_seq r) ps) (ceil_div (r_pre r) ps).
  change (sum_Z ((λ r0, (r_seq r0 + ps - 1) / ps - (r_pre r0 + ps - 1) / ps) <$> l))
    with (total_new_pages ps l).
  cbv zeta.
  replace (total_extend l + (r_seq r - r_pre r) - (r_seq r - r_pre r)) with (total_extend l) by lia.
  replace (total_new_pages ps l + _ - _) with (total_new_pages ps l) by lia. done.
Qed.

(** Parts 2 and 3 write the slots of the new pages. *)
Lemma extend_stores_tail pre seq free out X P n maxn :
  let c := ceil_div pre ps in let q := seq / ps in
  let pages := take (Z.to_nat (ceil_div seq ps - c)) (drop (Z.to_nat P) free) in
  0 ≤ X → 0 ≤ P → 0 ≤ n → pre + n = c * ps → c * ps < seq → seq - pre ≤ maxn →
  P + (ceil_div seq ps - c) ≤ len free → X + (seq - pre) ≤ len out →
  (let out2 := tl_store_lanes out (X + n) maxn
     (λ o, (if o <? q * ps - c * ps then tl_load oob free (P + o / ps) else masked) * ps + o mod ps)
     (λ o, o <? q * ps - c * ps) in
   if pre + n + (q * ps - c * ps) =? seq then out2 else
   tl_store_lanes out2 (X + n + (q * ps - c * ps)) ps
     (λ o, tl_load oob free (P + (ceil_div seq ps - c) - 1) * ps + o) (λ o, o <? seq - q * ps)) =
  seg_write out (Z.to_nat (X + n))
    (((λ o, nth (Z.to_nat (o / ps)) pages 0 * ps + o mod ps) <$> py_range 0 (q * ps - c * ps)) ++
     ((λ o, nth (Z.to_nat (q - c)) pages 0 * ps + o) <$> py_range 0 (seq - q * ps))).
Proof using Hps.
  intros c q pages HX HP Hn Hpre Hgt Hmax Hfree Hout.
  pose proof (div_bounds seq ps Hps) as Hq. fold q in Hq.
  pose proof (ceil_div_bounds seq ps Hps) as Hcs.
  assert (c ≤ q) as Hcq by (apply Z.div_le_lower_bound; lia).
  set (B := (λ o, nth (Z.to_nat (o / ps)) pages 0 * ps + o mod ps) <$> _).
  assert (length B = Z.to_nat (q * ps - c * ps)) as HB.
  { unfold B. rewrite length_fmap, length_py_range. lia. }
  cbv zeta. rewrite store_lanes_seg by nia.
  rewrite (fmap_py_range_ext _ (λ o, nth (Z.to_nat (o / ps)) pages 0 * ps + o mod ps)).
  2: { intros o Ho. replace (o <? q * ps - c * ps) with true by lia.
       unfold pages. erewrite <-tl_load_nth; [done|lia| |lia].
       split; [apply Z.div_pos; lia|]. apply Z.div_lt_upper_bound; nia. }
  fold B. case_if; [rewrite (py_range_nil 0 (seq - q * ps)) by nia; by rewrite app_nil_r|].
  assert (ceil_div seq ps = q + 1) as Hcsq by (apply ceil_div_unique; nia).
  rewrite store_lanes_seg; [|nia|nia|].
  2: { unfold len in *. rewrite length_seg_write by nia. nia. }
  replace (Z.to_nat (X + n + _)) with (Z.to_nat (X + n) + length B)%nat by nia.
  rewrite seg_write_app by (rewrite length_fmap, length_py_range; unfold len in *; nia).
  replace (P + (_ - c) - 1) with (P + (q - c)) by lia.
  unfold pages. by erewrite <-tl_load_nth by lia.
Qed.

Lemma extend_stores_spec pre seq last free out X P maxn :
  0 ≤ pre ≤ seq → 0 ≤ X → 0 ≤ P → seq - pre ≤ maxn →
  P + new_pages ps pre seq ≤ len free → X + (seq - pre) ≤ len out →
  extend_stores pre seq last free out X P maxn =
  seg_write out (Z.to_nat X)
    (req_slots ps pre seq last (take (Z.to_nat (new_pages ps pre seq)) (drop (Z.to_nat P) free))).
Proof using Hps.
  intros Hpre HX HP Hmax Hfree Hout. pose proof (ceil_div_bounds pre ps Hps) as Hc.
  unfold new_pages in *. rewrite req_slots_parts by done. unfold extend_stores. cbv zeta.
  set (c := ceil_div pre ps) in *.
  set (A := (λ o, last + 1 + o) <$> py_range 0 (Z.min seq (c * ps) - pre)).
  assert (length A = Z.to_nat (Z.min seq (c * ps) - pre)) as HA.
  { unfold A. rewrite length_fmap, length_py_range. lia. }
  rewrite store_lanes_seg by lia. fold A.
  destruct (Z.leb_spec seq (c * ps)) as [Hle|Hgt].
  { rewrite app_nil_r. case_if; [done|lia]. }
  case_if; [lia|]. rewrite Z.min_r in * by lia.
  assert (len (seg_write out (Z.to_nat X) A) = len out) as HoA.
  { unfold len. rewrite length_seg_write; unfold len in *; lia. }
  pose proof (extend_stores_tail pre seq free (seg_write out (Z.to_nat X) A) X P (c * ps - pre)
    maxn) as Htail. cbv zeta in Htail. fold c in Htail. rewrite Htail by lia.
  replace (Z.to_nat (X + _)) with (Z.to_nat X + length A)%nat by lia.
  rewrite seg_write_app; [done|].
  pose proof (div_bounds seq ps Hps). assert (c ≤ seq / ps) by (apply Z.div_le_lower_bound; lia).
  rewrite length_app, !length_fmap, !length_py_range. unfold len in *. nia.
Qed.

Lemma length_ref_extend rs free :
  Forall shape_ok rs → len (ref_extend ps rs free) = total_extend rs.
Proof.
  revert free. induction rs as [|r rs IH]; intros free Hrs; [done|].
  inversion Hrs as [|? ? [] ?]; subst. cbn [ref_extend]. rewrite len_app, IH by done.
  unfold req_slots. rewrite len_fmap, len_py_range by lia.
  unfold total_extend. rewrite fmap_cons, sum_Z_cons. lia.
Qed.

Lemma ref_extend_snoc l r free :
  Forall shape_ok l →
  ref_extend ps (l ++ [r]) free = ref_extend ps l free ++
    req_slots ps (r_pre r) (r_seq r) (r_last r)
      (take (Z.to_nat (new_pages ps (r_pre r) (r_seq r)))
            (drop (Z.to_nat (total_new_pages ps l)) free)).
Proof using Hps.
  revert free. induction l as [|x l IH]; intros free Hl; cbn [app ref_extend]; [by rewrite app_nil_r|].
  inversion Hl; subst. rewrite IH, <-app_assoc by done. do 2 f_equal.
  rewrite drop_drop. do 3 f_equal. unfold total_new_pages. rewrite fmap_cons, sum_Z_cons.
  pose proof (new_pages_nonneg x). pose proof (total_new_pages_nonneg l).
  unfold total_new_pages in *. rewrite Z2Nat.inj_add by auto. done.
Qed.

Lemma launch_extend rs free out bs_upper maxn :
  Forall shape_ok rs → len rs ≤ bs_upper → total_extend rs ≤ maxn →
  total_new_pages ps rs ≤ len free → total_extend rs = len out →
  launch (len rs) (alloc_extend_kernel masked oob (r_pre <$> rs) (r_seq <$> rs) (r_last <$> rs)
                     free bs_upper ps maxn) out = ref_extend ps rs free.
Proof using Hps.
  intros Hok Hbs Hmax Hfree Hout.
  assert (∀ l k, rs = l ++ k →
    launch (len l) (alloc_extend_kernel masked oob (r_pre <$> rs) (r_seq <$> rs) (r_last <$> rs)
                      free bs_upper ps maxn) out = seg_write out 0 (ref_extend ps l free)) as Hpref.
  { induction l as [|r l IH] using rev_ind; intros k Hk; [by rewrite seg_write_nil|].
    assert (rs = l ++ r :: k) as Hrs by (by rewrite Hk, <-app_assoc).
    assert (Forall shape_ok l ∧ shape_ok r ∧ Forall shape_ok k) as (Hl & Hr & Hk').
    { rewrite Hrs, Forall_app, Forall_cons in Hok. tauto. }
    pose proof (total_extend_nonneg k Hk'). pose proof (total_new_pages_nonneg k Hk').
    pose proof (total_extend_nonneg l Hl). pose proof (total_new_pages_nonneg l Hl).
    rewrite Hrs, total_extend_mid in Hmax, Hout. rewrite Hrs, total_new_pages_mid in Hfree.
    pose proof (len_nonneg k).
    unfold launch. replace (len (l ++ [r])) with (len l + 1) by (rewrite len_app; done).
    rewrite py_range_snoc by apply len_nonneg.
    rewrite foldl_app. cbn [foldl]. fold (launch (len l) (alloc_extend_kernel masked oob
      (r_pre <$> rs) (r_seq <$> rs) (r_last <$> rs) free bs_upper ps maxn) out).
    rewrite (IH (r :: k) Hrs), Hrs, extend_kernel_stores.
    2: { rewrite Hrs, len_app, len_cons in Hbs. lia. }
    pose proof (length_ref_extend l free Hl) as Hlen. unfold len in Hlen.
    rewrite extend_stores_spec; try done; try lia.
    2: { unfold len in *. rewrite length_seg_write by (destruct Hr; lia). lia. }
    rewrite ref_extend_snoc by done. replace (Z.to_nat (total_extend l)) with
      (0 + length (ref_extend ps l free))%nat by lia.
    apply seg_write_app. unfold req_slots. rewrite length_fmap, length_py_range.
    destruct Hr. unfold len in *. lia. }
  rewrite (Hpref rs [] (eq_sym (app_nil_r rs))). unfold seg_write. cbn.
  pose proof (length_ref_extend rs free Hok) as Hlen. unfold len in *.
  rewrite drop_ge by lia. apply app_nil_r.
Qed.
End extend.

(** ** No aliasing *)
Section alias.
Context (ps : Z) (Hps : 0 < ps).

(** [last_loc] ends the prefix: it is in the right place of its page. *)
Definition aligned (r : req_shape) : Prop :=
  shape_ok r ∧ (r_last r + 1) mod ps = r_pre r mod ps.
(** The page the prefix leaves partly filled. *)
Definition partial_page (r : req_shape) : list Z :=
  if r_pre r mod ps =? 0 then [] else [r_last r / ps].

Lemma req_slot_decomp r pages p :
  aligned r → r_pre r ≤ p →
  req_slot ps (r_pre r) (r_last r) pages p mod ps = p mod ps ∧
  req_slot ps (r_pre r) (r_last r) pages p / ps =
    if p <? ceil_align (r_pre r) ps then r_last r / ps
    else nth (Z.to_nat (p / ps - ceil_div (r_pre r) ps)) pages 0.
Proof using Hps.
  intros [[Hp0 Hps'] Hal] Hp. unfold req_slot, ceil_align.
  pose proof (ceil_div_bounds (r_pre r) ps Hps) as Hc. case_if.
  - pose proof (Z.div_mod (r_last r + 1) ps ltac:(lia)) as E1.
    pose proof (Z.mod_pos_bound (r_last r + 1) ps Hps).
    pose proof (Z.div_mod (r_pre r) ps ltac:(lia)) as E2.
    pose proof (Z.mod_pos_bound (r_pre r) ps Hps). rewrite Hal in *.
    set (m := r_pre r mod ps) in *. set (a := (r_last r + 1) / ps) in *.
    set (b := r_pre r / ps) in *.
    assert (b < ceil_div (r_pre r) ps) by nia.
    assert (ceil_div (r_pre r) ps = b + 1) as Hcb by nia.
    assert (0 < m) by nia.
    assert (r_last r + 1 + (p - r_pre r) = (p - b * ps) + a * ps) as -> by lia.
    rewrite Z.mod_add, Z.div_add by lia. rewrite Hcb in *.
    rewrite (Z.div_small (p - b * ps)) by nia. split.
    + rewrite <-(Z.mod_add (p - b * ps) b ps) by lia. f_equal. lia.
    + rewrite Z.add_0_l. apply (Z.div_unique_pos _ _ _ (m - 1)); lia.
  - rewrite Z.add_comm, Z.mod_add, Z.div_add by lia.
    pose proof (Z.mod_pos_bound p ps Hps).
    rewrite Z.mod_mod, Z.div_small by lia. done.
Qed.

Lemma below_ceil_partial r p :
  shape_ok r → r_pre r ≤ p → p < ceil_align (r_pre r) ps → partial_page r = [r_last r / ps].
Proof using Hps.
  intros [] Hp Hlt. unfold partial_page, ceil_align in *. case_if; [|done].
  pose proof (Z.div_mod (r_pre r) ps ltac:(lia)).
  assert (ceil_div (r_pre r) ps = r_pre r / ps) by (apply ceil_div_unique; nia). nia.
Qed.

(** The page of every slot of a request is its partial page or one of its new pages. *)
Lemma req_slot_page r pages p :
  aligned r → r_pre r ≤ p < r_seq r → new_pages ps (r_pre r) (r_seq r) ≤ len pages →
  req_slot ps (r_pre r) (r_last r) pages p / ps ∈ partial_page r ++ pages.
Proof using Hps.
  intros Hal Hp Hlen. destruct (req_slot_decomp r pages p Hal) as [_ ->]; [lia|].
  destruct Hal as [Hok _]. case_if.
  - rewrite (below_ceil_partial r p) by (done || lia). set_solver.
  - apply elem_of_app. right. unfold ceil_align, new_pages in *.
    pose proof (ceil_div_bounds (r_seq r) ps Hps). pose proof (div_bounds p ps Hps).
    assert (ceil_div (r_pre r) ps ≤ p / ps) by (apply Z.div_le_lower_bound; lia).
    assert (p / ps < ceil_div (r_seq r) ps) by nia.
    apply list_elem_of_lookup. exists (Z.to_nat (p / ps - ceil_div (r_pre r) ps)).
    rewrite nth_lookup. destruct (pages !! _) eqn:E; [done|].
    apply lookup_ge_None in E. unfold len in *. lia.
Qed.

Lemma req_slots_NoDup r pages :
  aligned r → NoDup (partial_page r ++ pages) → new_pages ps (r_pre r) (r_seq r) ≤ len pages →
  NoDup (req_slots ps (r_pre r) (r_seq r) (r_last r) pages).
Proof using Hps.
  intros Hal Hnd Hlen. unfold req_slots. apply NoDup_fmap_2_strong; [|apply NoDup_py_range].
  intros p p' Hp%elem_of_py_range Hp'%elem_of_py_range Heq.
  destruct (req_slot_decomp r pages p Hal) as [Hm Hd]; [lia|].
  destruct (req_slot_decomp r pages p' Hal) as [Hm' Hd']; [lia|].
  rewrite Heq in Hm, Hd. rewrite Hm' in Hm. rewrite Hd' in Hd.
  destruct Hal as [Hok Hmod]. apply NoDup_app in Hnd as (_ & Hdisj & Hnd).
  pose proof (Z.div_mod p ps ltac:(lia)). pose proof (Z.div_mod p' ps ltac:(lia)).
  assert (∀ x, r_pre r ≤ x < r_seq r → ceil_align (r_pre r) ps ≤ x →
    pages !! Z.to_nat (x / ps - ceil_div (r_pre r) ps) =
      Some (nth (Z.to_nat (x / ps - ceil_div (r_pre r) ps)) pages 0) ∧
    ceil_div (r_pre r) ps ≤ x / ps) as Hin.
  { intros x Hx Hxc. unfold ceil_align, new_pages in *.
    pose proof (ceil_div_bounds (r_seq r) ps Hps). pose proof (div_bounds x ps Hps).
    assert (ceil_div (r_pre r) ps ≤ x / ps) by (apply Z.div_le_lower_bound; lia).
    split; [|done]. rewrite nth_lookup. destruct (pages !! _) eqn:E; [done|].
    apply lookup_ge_None in E. unfold len in *. nia. }
  destruct (Z.ltb_spec p (ceil_align (r_pre r) ps)), (Z.ltb_spec p' (ceil_align (r_pre r) ps)).
  - pose proof (ceil_div_bounds (r_pre r) ps Hps). unfold ceil_align in *.
    pose proof (Z.mod_pos_bound p ps Hps). assert (p / ps = p' / ps) by nia. nia.
  - exfalso. rewrite (below_ceil_partial r p) in Hdisj by (done || lia).
    apply (Hdisj (r_last r / ps)); [set_solver|]. rewrite <-Hd.
    apply list_elem_of_lookup. eexists. apply Hin; lia.
  - exfalso. rewrite (below_ceil_partial r p') in Hdisj by (done || lia).
    apply (Hdisj (r_last r / ps)); [set_solver|]. rewrite Hd.
    apply list_elem_of_lookup. eexists. apply Hin; lia.
  - destruct (Hin p) as [L1 G1]; [lia..|]. destruct (Hin p') as [L2 G2]; [lia..|].
    rewrite Hd in L2. rewrite NoDup_alt in Hnd. pose proof (Hnd _ _ _ L1 L2). nia.
Qed.

Definition partial_pages (rs : list req_shape) : list Z := rs ≫= partial_page.

Lemma ref_extend_pages rs free x :
  Forall aligned rs → total_new_pages ps rs ≤ len free → x ∈ ref_extend ps rs free →
  x / ps ∈ partial_pages rs ++ take (Z.to_nat (total_new_pages ps rs)) free.
Proof using Hps.
  revert free. induction rs as [|r rs IH]; intros free Hal Hlen; cbn [ref_extend]; [set_solver|].
  inversion Hal as [|? ? Hr Hrs]; subst.
  assert (Forall shape_ok rs) as Hoks by (eapply Forall_impl; [exact Hrs|]; by intros ? []).
  pose proof (new_pages_nonneg ps Hps r (proj1 Hr)) as Hn.
  pose proof (total_new_pages_nonneg ps Hps rs Hoks) as Htn.
  assert (total_new_pages ps (r :: rs) = new_pages ps (r_pre r) (r_seq r) + total_new_pages ps rs)
    as Htot by done. rewrite Htot in *.
  rewrite Z2Nat.inj_add by done. unfold partial_pages. cbn [mbind list_bind].
  rewrite <-take_take_drop. intros [Hx|Hx]%elem_of_app.
  - unfold req_slots in Hx. apply list_elem_of_fmap in Hx as (p & -> & Hp%elem_of_py_range).
    pose proof (req_slot_page r (take (Z.to_nat (new_pages ps (r_pre r) (r_seq r))) free) p Hr Hp)
      as Hpg. rewrite !elem_of_app in *. unfold len in *. rewrite length_take in Hpg.
    destruct Hpg; [lia|auto..].
  - apply IH in Hx; [|done|unfold len in *; rewrite length_drop; lia].
    unfold partial_pages in Hx. rewrite !elem_of_app in *. tauto.
Qed.

Lemma ref_extend_NoDup rs free :
  Forall aligned rs → total_new_pages ps rs ≤ len free → NoDup (partial_pages rs ++ free) →
  NoDup (ref_extend ps rs free).
Proof using Hps.
  revert free. induction rs as [|r rs IH]; intros free Hal Hlen Hnd; cbn [ref_extend]; [constructor|].
  inversion Hal as [|? ? Hr Hrs]; subst.
  assert (Forall shape_ok rs) as Hoks by (eapply Forall_impl; [exact Hrs|]; by intros ? []).
  pose proof (new_pages_nonneg ps Hps r (proj1 Hr)) as Hn.
  pose proof (total_new_pages_nonneg ps Hps rs Hoks) as Htn.
  change (total_new_pages ps (r :: rs)) with
    (new_pages ps (r_pre r) (r_seq r) + total_new_pages ps rs) in Hlen.
  set (n := Z.to_nat (new_pages ps (r_pre r) (r_seq r))) in *.
  unfold partial_pages in Hnd. cbn [mbind list_bind] in Hnd. fold (partial_pages rs) in Hnd.
  rewrite <-(take_drop n free) in Hnd.
  assert (NoDup ((partial_page r ++ take n free) ++ (partial_pages rs ++ drop n free))) as Hnd'.
  { rewrite <-!app_assoc, (app_assoc _ (partial_pages rs)), (Permutation_app_comm (take n free)).
    by rewrite <-!app_assoc in *. }
  apply NoDup_app in Hnd' as (Hnd1 & Hdisj & Hnd2).
  assert (len (take n free) = new_pages ps (r_pre r) (r_seq r)) as Hlt.
  { unfold len in *. rewrite length_take. lia. }
  assert (total_new_pages ps rs ≤ len (drop n free)) as Hld.
  { unfold len in *. rewrite length_drop. lia. }
  apply NoDup_app. split_and!.
  - apply req_slots_NoDup; [done|done|lia].
  - intros x Hx Hx'. apply ref_extend_pages in Hx'; [|done..].
    apply list_elem_of_fmap in Hx as (p & -> & Hp%elem_of_py_range).
    apply (Hdisj _ (req_slot_page r (take n free) p Hr Hp ltac:(lia))).
    rewrite elem_of_app in *. destruct Hx' as [?|Hx']; [by left|right].
    eapply elem_of_submseteq; [exact Hx'|]. apply sublist_submseteq, sublist_take.
  - by apply IH.
Qed.
End alias.
