(* ===== verification/KVAllocatorSpec.v ===== *)
(** * What the allocators promise

    The theorems about [KVAllocator.v]: an allocator owns a set of pages, hands
    out pages it owned, takes back what it is given and invents or loses none.
    The class [KVPool] is the promise in the form the prefix caches use. *)

From S2P Require Import Prelude KVAllocator KVAllocatorProofs.

(** The pages an allocator holds, whichever of its two lists they are in. *)
Definition held (b : Base.t) : list Z := Base.free_pages b ++ Base.release_pages b.

(** Every held page is a real one and is held once. *)
Definition pool_wf (n : Z) (b : Base.t) : Prop :=
  NoDup (held b) ∧ Forall (λ p, 1 ≤ p ≤ n) (held b) ∧
  (Base.need_sort b = false → Base.release_pages b = []).

#[global] Instance pool_wf_dec n b : Decision (pool_wf n b).
Proof. unfold pool_wf. apply _. Defined.

Section base_lemmas.
Implicit Types b : Base.t.

Lemma merge_held b : held (Base.merge_and_sort_free b) ≡ₚ held b.
Proof.
  unfold Base.merge_and_sort_free, held. case_if; [|done]. cbn.
  by rewrite app_nil_r, torch_sort_perm.
Qed.

Lemma merge_free_len b :
  len (Base.free_pages (Base.merge_and_sort_free b)) =
  len (Base.free_pages b) + len (Base.release_pages b).
Proof.
  unfold Base.merge_and_sort_free. case_if; cbn.
  - unfold len. rewrite (Permutation_length (torch_sort_perm _)), length_app. lia.
  - pose proof (len_nonneg (Base.release_pages b)). lia.
Qed.

Lemma merge_release b : Base.release_pages (Base.merge_and_sort_free b) = [].
Proof.
  unfold Base.merge_and_sort_free. case_if; [done|].
  apply len_zero_iff. pose proof (len_nonneg (Base.release_pages b)). lia.
Qed.

(** The list [alloc] takes from, after the merge it may have done first. *)
Definition ready (b : Base.t) (n : Z) : Base.t :=
  if Base.need_sort b && (len (Base.free_pages b) <? n)
  then Base.merge_and_sort_free b else b.

Lemma ready_held b n : held (ready b n) ≡ₚ held b.
Proof. unfold ready. destruct (_ && _); [apply merge_held | done]. Qed.

Lemma ready_fields b n :
  Base.need_sort (ready b n) = Base.need_sort b ∧ Base.size (ready b n) = Base.size b ∧
  Base.page_size (ready b n) = Base.page_size b ∧
  Base.is_not_in_free_group (ready b n) = Base.is_not_in_free_group b ∧
  Base.free_group (ready b n) = Base.free_group b.
Proof. unfold ready, Base.merge_and_sort_free. by destruct (_ && _), (0 <? len (Base.release_pages b)). Qed.

(** A merge happens exactly when it can help, so the test after it fails
    only if the pool as a whole is too small. *)
Lemma ready_short b n m :
  pool_wf m b → len (Base.free_pages (ready b n)) < n ↔ len (held b) < n.
Proof.
  intros (_ & _ & Hrel). unfold ready, held. rewrite len_app.
  pose proof (len_nonneg (Base.release_pages b)).
  destruct (Base.need_sort b) eqn:Es; cbn [andb].
  - destruct (Z.ltb_spec (len (Base.free_pages b)) n); [rewrite merge_free_len|]; lia.
  - rewrite Hrel, len_nil by done. lia.
Qed.

Lemma pool_wf_ready m b n : pool_wf m b → pool_wf m (ready b n).
Proof.
  intros (Hnd & Hb & Hrel). pose proof (ready_held b n) as Hh.
  split_and!; [by rewrite Hh | by rewrite Hh |]. intros Hs.
  unfold ready in *. destruct (Base.need_sort b) eqn:E; cbn in *.
  - destruct (len (Base.free_pages b) <? n); [apply merge_release|congruence].
  - auto.
Qed.

(** Taking the first [k] free pages. *)
Lemma take_front_perm b k :
  take k (Base.free_pages b) ++
    held (Base.set_pages b (drop k (Base.free_pages b)) (Base.release_pages b)) ≡ₚ held b.
Proof. unfold held. cbn. by rewrite app_assoc, take_drop. Qed.

Lemma pool_wf_perm m b b' l :
  Base.need_sort b' = Base.need_sort b →
  (Base.need_sort b = false → Base.release_pages b = [] → Base.release_pages b' = []) →
  l ++ held b' ≡ₚ held b → pool_wf m b → pool_wf m b'.
Proof.
  intros Hs Hr Hp (Hnd & Hb & Hrel). rewrite <-Hp in Hnd, Hb.
  apply NoDup_app in Hnd as (_ & _ & ?). apply Forall_app in Hb as [_ ?].
  split_and!; [done..|]. rewrite Hs. auto.
Qed.
End base_lemmas.

(** ** The token allocator *)

Lemma token_alloc_cases b need m :
  pool_wf m b → 0 ≤ need →
  TokenAlloc.alloc b need =
  if len (held b) <? need then (None, ready b need)
  else (Some (take (Z.to_nat need) (Base.free_pages (ready b need))),
        Base.set_pages (ready b need) (drop (Z.to_nat need) (Base.free_pages (ready b need)))
                       (Base.release_pages (ready b need))).
Proof.
  intros Hwf Hn. unfold TokenAlloc.alloc. fold (ready b need).
  pose proof (ready_short b need m Hwf). rewrite py_upto_take, py_from_drop by done.
  destruct (Z.ltb_spec (len (Base.free_pages (ready b need))) need),
    (Z.ltb_spec (len (held b)) need); try done; lia.
Qed.

(** Token allocation: on a well-formed pool [alloc need] fails exactly when
    fewer than [need] slots are held, and then loses none; otherwise it returns
    [need] distinct real slots, which with what it keeps are the slots it held,
    and the pool stays well-formed. *)
Theorem token_alloc_conserves b need (Hwf : pool_wf (Base.size b) b) (Hneed : 0 ≤ need) :
  match TokenAlloc.alloc b need with
  | (None, b') => TokenAlloc.available_size b < need ∧ held b' ≡ₚ held b ∧ pool_wf (Base.size b) b'
  | (Some out, b') =>
      len out = need ∧ NoDup out ∧ Forall (λ p, 1 ≤ p ≤ Base.size b) out ∧
      out ++ held b' ≡ₚ held b ∧ pool_wf (Base.size b) b' ∧
      TokenAlloc.available_size b' = TokenAlloc.available_size b - need
  end.
Proof.
  rewrite (token_alloc_cases b need _ Hwf Hneed).
  unfold TokenAlloc.available_size. rewrite <-len_app. fold (held b).
  pose proof (ready_held b need) as Hr. pose proof (pool_wf_ready _ b need Hwf) as Hwr.
  case_if; [by rewrite Hr|].
  pose proof (take_front_perm (ready b need) (Z.to_nat need)) as Hp.
  set (b' := Base.set_pages _ _ _) in *. set (out := take _ _) in *.
  assert (len out = need) as Hlen.
  { pose proof (ready_short b need _ Hwf). unfold out, len in *. rewrite length_take. lia. }
  destruct Hwr as (Hnd & Hb & Hrel). pose proof Hnd as Hnd'. pose proof Hb as Hb'.
  rewrite <-Hp in Hnd', Hb'. apply NoDup_app in Hnd' as (? & _ & ?). apply Forall_app in Hb' as [? _].
  split_and!; try done; [by rewrite Hp | | ].
  - eapply (pool_wf_perm _ (ready b need) b' out); done || by repeat split.
  - rewrite <-len_app. fold (held b'). unfold len in *.
    rewrite <-(Permutation_length Hr), <-(Permutation_length Hp), length_app. lia.
Qed.

Lemma token_alloc_conserves_witness :
  TokenAlloc.alloc (Base.mk 4 1 true [3] [4; 1] true []) 2 =
    (Some [1; 3], Base.mk 4 1 true [4] [] true []) ∧
  pool_wf 4 (Base.mk 4 1 true [4] [] true []).
Proof.
  assert (pool_wf 4 (Base.mk 4 1 true [3] [4; 1] true [])) as Hwf.
  { by_decide. }
  split; [reflexivity|].
  apply (token_alloc_conserves (Base.mk 4 1 true [3] [4; 1] true []) 2 Hwf ltac:(lia)).
Defined.

(** ** The interface the caches are written against *)

(** The pages that a list of slots touches. *)
Definition pages_of (ps : Z) (idx : list Z) : list Z := torch_unique ((λ i, i / ps) <$> idx).

Lemma elem_of_pages_of ps idx p : p ∈ pages_of ps idx ↔ ∃ i, i ∈ idx ∧ p = i / ps.
Proof. unfold pages_of. rewrite elem_of_torch_unique, list_elem_of_fmap. naive_solver. Qed.

Lemma pages_of_1 idx : NoDup idx → pages_of 1 idx ≡ₚ idx.
Proof.
  intros Hnd. apply NoDup_Permutation; [apply NoDup_torch_unique | done |].
  intros p. rewrite elem_of_pages_of. setoid_rewrite Z.div_1_r. naive_solver.
Qed.

Lemma pages_of_nil ps : pages_of ps [] = [].
Proof. done. Qed.

(** A pool of pages that slots are returned to.  [kv_free] is the method
    [free]; [kv_held] the pages it can hand out. *)
Class KVPool (A : Type) := {
  kv_free : A → list Z → res A;
  kv_page_size : A → Z;
  kv_limit : A → Z;
  kv_held : A → list Z;
  kv_ok : A → Prop;
  kv_free_nil : ∀ a, kv_free a [] = Ok a;
  kv_free_spec : ∀ a idx, kv_ok a → NoDup idx →
    Forall (λ p, 1 ≤ p ≤ kv_limit a ∧ p ∉ kv_held a) (pages_of (kv_page_size a) idx) →
    ∃ a', kv_free a idx = Ok a' ∧ kv_ok a' ∧ kv_page_size a' = kv_page_size a ∧
          kv_limit a' = kv_limit a ∧
          kv_held a' ≡ₚ pages_of (kv_page_size a) idx ++ kv_held a
}.

(** Adding fresh pages keeps a pool well-formed. *)
Lemma pool_wf_add n b b' l :
  pool_wf n b → held b' ≡ₚ l ++ held b → NoDup l →
  Forall (λ p, 1 ≤ p ≤ n ∧ p ∉ held b) l →
  (Base.need_sort b' = false → Base.release_pages b' = []) → pool_wf n b'.
Proof.
  intros (Hnd & Hb & _) Hp Hl Hfresh Hrel. split_and!; [rewrite Hp..|done].
  - apply NoDup_app. split_and!; [done| |done]. intros x Hx.
    rewrite Forall_forall in Hfresh. by apply Hfresh.
  - apply Forall_app. split; [|done]. eapply Forall_impl; [exact Hfresh|]. by intros ? [].
Qed.

Lemma token_free_held b idx :
  Base.is_not_in_free_group b = true → held (TokenAlloc.free b idx) ≡ₚ idx ++ held b.
Proof.
  intros Hg. unfold TokenAlloc.free. case_if.
  - replace idx with (@nil Z) by (symmetry; by apply len_zero_iff). done.
  - rewrite Hg. destruct (Base.need_sort b); unfold held; cbn; solve_Permutation.
Qed.

Lemma token_free_wf b idx :
  pool_wf (Base.size b) b → Base.is_not_in_free_group b = true → NoDup idx →
  Forall (λ p, 1 ≤ p ≤ Base.size b ∧ p ∉ held b) idx →
  pool_wf (Base.size b) (TokenAlloc.free b idx).
Proof.
  intros Hwf Hg Hnd Hfresh. eapply (pool_wf_add _ b _ idx); try done.
  - by apply token_free_held.
  - destruct Hwf as (_ & _ & Hrel). unfold TokenAlloc.free.
    case_if; [done|]. rewrite Hg. destruct (Base.need_sort b) eqn:E; cbn; [congruence|auto].
Qed.

#[global, refine] Instance token_pool : KVPool Base.t := {|
  kv_free b idx := Ok (TokenAlloc.free b idx);
  kv_page_size _ := 1;
  kv_limit := Base.size;
  kv_held := held;
  kv_ok b := pool_wf (Base.size b) b ∧ Base.is_not_in_free_group b = true
|}.
Proof.
  - done.
  - intros b idx [Hwf Hg] Hnd Hfresh.
    assert (Forall (λ p, 1 ≤ p ≤ Base.size b ∧ p ∉ held b) idx) as Hfresh'.
    { by rewrite <-(pages_of_1 idx Hnd). }
    assert (Base.size (TokenAlloc.free b idx) = Base.size b ∧
            Base.is_not_in_free_group (TokenAlloc.free b idx) = true) as [Hs Hg'].
    { unfold TokenAlloc.free. rewrite Hg. by destruct (_ =? _), (Base.need_sort b). }
    eexists. split_and!; [done| |done|done|done|].
    + rewrite Hs. by apply token_free_wf.
    + rewrite (pages_of_1 idx Hnd). by apply token_free_held.
Defined.

(** ** The paged allocator *)

Definition paged_wf (s : PagedAlloc.t) : Prop :=
  0 < Base.page_size (PagedAlloc.base s) ∧ pool_wf (PagedAlloc.num_pages s) (PagedAlloc.base s).

Lemma NoDup_unique_len l : NoDup l → len (torch_unique l) = len l.
Proof.
  intros Hl. unfold len. f_equal. apply Permutation_length, NoDup_Permutation; auto with py.
  intros x. apply elem_of_torch_unique.
Qed.

#[global, refine] Instance paged_pool : KVPool PagedAlloc.t := {|
  kv_free := PagedAlloc.free;
  kv_page_size s := Base.page_size (PagedAlloc.base s);
  kv_limit := PagedAlloc.num_pages;
  kv_held s := held (PagedAlloc.base s);
  kv_ok s := paged_wf s ∧ Base.is_not_in_free_group (PagedAlloc.base s) = true
|}.
Proof.
  - done.
  - intros s idx [[Hps Hwf] Hg] Hnd Hfresh. unfold PagedAlloc.free.
    destruct (Z.eqb_spec (len idx) 0) as [->%len_zero_iff|Hne].
    { exists s. split_and!; done. }
    rewrite Hg. fold (pages_of (Base.page_size (PagedAlloc.base s)) idx).
    set (b := PagedAlloc.base s) in *. set (pg := pages_of _ idx) in *.
    set (b' := if Base.need_sort b then _ else _).
    assert (held b' ≡ₚ pg ++ held b) as Hheld.
    { unfold b', held. destruct (Base.need_sort b); cbn; solve_Permutation. }
    assert (pool_wf (PagedAlloc.num_pages s) b') as Hwf'.
    { eapply (pool_wf_add _ b); [done..|apply NoDup_torch_unique|done|].
      unfold b'. destruct Hwf as (_ & _ & Hrel).
      destruct (Base.need_sort b) eqn:E; cbn; [congruence|auto]. }
    assert (len (torch_unique (Base.free_pages b')) =? len (Base.free_pages b') = true) as ->.
    { apply Z.eqb_eq, NoDup_unique_len. destruct Hwf' as [Hn _]. by apply NoDup_app in Hn as [? _]. }
    assert (Base.page_size b' = Base.page_size b ∧ Base.is_not_in_free_group b' = true) as [Hp Hg'].
    { unfold b'. by destruct (Base.need_sort b). }
    exists (PagedAlloc.with_base s b'). destruct (PagedAlloc.debug_mode s); cbn.
    all: unfold paged_wf; cbn; rewrite Hp; by split_and!.
Defined.

Lemma get_num_new_pages_shapes ps rs :
  get_num_new_pages (r_seq <$> rs) ps (Some (r_pre <$> rs)) false = Ok (total_new_pages ps rs).
Proof.
  unfold get_num_new_pages, total_new_pages, new_pages, ceil_div. do 2 f_equal.
  rewrite zip_with_fmap_l, zip_with_fmap_r. apply zip_with_shapes.
Qed.

(** The state [alloc_extend] leaves: the merge it may have done, the larger
    kernel bound, and the pages it took. *)
Definition extend_state (s : PagedAlloc.t) (rs : list req_shape) (k : nat) : PagedAlloc.t :=
  let ps := Base.page_size (PagedAlloc.base s) in
  let b := ready (PagedAlloc.base s) (total_extend rs / ps + len rs + 1) in
  PagedAlloc.mk (Base.set_pages b (drop k (Base.free_pages b)) (Base.release_pages b))
    (PagedAlloc.num_pages s) (PagedAlloc.debug_mode s)
    (Z.max (PagedAlloc.seen_max_num_extend_tokens_next_power_of_2 s)
           (next_power_of_2 (total_extend rs))).

Lemma set_pages_id b : Base.set_pages b (Base.free_pages b) (Base.release_pages b) = b.
Proof. by destruct b. Qed.

Lemma alloc_extend_eq masked oob uninit (s : PagedAlloc.t) (rs : list req_shape)
    (Hps : 0 < Base.page_size (PagedAlloc.base s)) (Hdbg : PagedAlloc.debug_mode s = false)
    (Hok : Forall shape_ok rs) :
  let ps := Base.page_size (PagedAlloc.base s) in
  let pages := Base.free_pages (ready (PagedAlloc.base s) (total_extend rs / ps + len rs + 1)) in
  PagedAlloc.alloc_extend masked oob s uninit (r_pre <$> rs) (r_pre <$> rs)
    (r_seq <$> rs) (r_seq <$> rs) (r_last <$> rs) (total_extend rs) =
  Ok (if len pages <? total_new_pages ps rs then (None, extend_state s rs 0)
      else (Some (ref_extend ps rs pages), extend_state s rs (Z.to_nat (total_new_pages ps rs)))).
Proof.
  intros ps pages. unfold PagedAlloc.alloc_extend, extend_state. rewrite Hdbg. cbn [res_bind].
  rewrite len_fmap. fold ps. cbn [PagedAlloc.base PagedAlloc.with_base].
  fold (ready (PagedAlloc.base s) (total_extend rs / ps + len rs + 1)).
  set (b := ready _ _) in *. fold pages.
  cbn [PagedAlloc.debug_mode PagedAlloc.seen_max_num_extend_tokens_next_power_of_2
       PagedAlloc.with_base res_bind]. rewrite ?Hdbg. cbn [res_bind].
  rewrite get_num_new_pages_shapes. cbn [res_bind].
  pose proof (total_new_pages_nonneg ps Hps rs Hok). pose proof (total_extend_nonneg rs Hok).
  rewrite py_from_drop by done. case_if.
  - by rewrite drop_0, set_pages_id.
  - rewrite (launch_extend masked oob ps Hps); try done.
    + apply next_power_of_2_ge.
    + pose proof (next_power_of_2_ge (total_extend rs)). lia.
    + rewrite len_fmap, len_py_range by done. lia.
Qed.

(** C24. Paged prefill allocation: the parallel [alloc_extend_kernel] computes what
    a sequential walk over the requests computes (each continues its partial
    page, then takes its own new pages in order), whatever the masked lanes, the
    out-of-range loads and the uninitialised output hold; when the pages do not
    suffice it returns [None] and takes none. *)
Theorem alloc_extend_sequential masked oob uninit (s : PagedAlloc.t) (rs : list req_shape)
    (Hps : 0 < Base.page_size (PagedAlloc.base s)) (Hdbg : PagedAlloc.debug_mode s = false)
    (Hok : Forall shape_ok rs) :
  let ps := Base.page_size (PagedAlloc.base s) in
  let pages := Base.free_pages (ready (PagedAlloc.base s) (total_extend rs / ps + len rs + 1)) in
  PagedAlloc.alloc_extend masked oob s uninit (r_pre <$> rs) (r_pre <$> rs)
    (r_seq <$> rs) (r_seq <$> rs) (r_last <$> rs) (total_extend rs) =
  Ok (if len pages <? total_new_pages ps rs then (None, extend_state s rs 0)
      else (Some (ref_extend ps rs pages), extend_state s rs (Z.to_nat (total_new_pages ps rs)))).
Proof. exact (alloc_extend_eq masked oob uninit s rs Hps Hdbg Hok). Qed.

Definition ex_paged : PagedAlloc.t :=
  PagedAlloc.mk (Base.mk 40 4 true [1; 2; 3; 4] [5; 6; 7; 8] true []) 10 false 1.
Definition ex_shapes : list req_shape :=
  [ {| r_pre := 0; r_seq := 6; r_last := -1 |}; {| r_pre := 2; r_seq := 3; r_last := 37 |};
    {| r_pre := 5; r_seq := 13; r_last := 40 |} ].

Lemma alloc_extend_sequential_witness :
  PagedAlloc.alloc_extend 0 0 ex_paged (λ _, 0) [0; 2; 5] [0; 2; 5] [6; 3; 13] [6; 3; 13] [-1; 37; 40] 15 =
  Ok (Some [4; 5; 6; 7; 8; 9; 38; 41; 42; 43; 12; 13; 14; 15; 16], extend_state ex_paged ex_shapes 4).
Proof.
  assert (Forall shape_ok ex_shapes) as Hok by (repeat constructor; cbn; lia).
  apply (alloc_extend_sequential 0 0 (λ _, 0) ex_paged ex_shapes ltac:(done) eq_refl Hok).
Defined.

(** Paged prefill allocation never hands a slot out twice: on a well-formed
    pool, for requests whose last slots sit where their prefix lengths say and
    whose partial pages are distinct and not free, the slots returned are
    distinct, they lie in the partial pages or in pages that were free, the pages
    taken are no longer held, and the pool stays well-formed. *)
Theorem alloc_extend_no_alias masked oob uninit (s s' : PagedAlloc.t) (rs : list req_shape) out
    (Hwf : paged_wf s) (Hdbg : PagedAlloc.debug_mode s = false)
    (Hal : Forall (aligned (Base.page_size (PagedAlloc.base s))) rs)
    (Hpart : NoDup (partial_pages (Base.page_size (PagedAlloc.base s)) rs ++ held (PagedAlloc.base s)))
    (Hrun : PagedAlloc.alloc_extend masked oob s uninit (r_pre <$> rs) (r_pre <$> rs)
      (r_seq <$> rs) (r_seq <$> rs) (r_last <$> rs) (total_extend rs) = Ok (Some out, s')) :
  let ps := Base.page_size (PagedAlloc.base s) in
  NoDup out ∧ len out = total_extend rs ∧ paged_wf s' ∧
  ∃ taken, len taken = total_new_pages ps rs ∧
    taken ++ held (PagedAlloc.base s') ≡ₚ held (PagedAlloc.base s) ∧
    Forall (λ x, x / ps ∈ partial_pages ps rs ++ taken) out.
Proof.
  intros ps. destruct Hwf as [Hps Hwf].
  assert (Forall shape_ok rs) as Hok by (eapply Forall_impl; [exact Hal|]; by intros ? []).
  rewrite (alloc_extend_eq masked oob uninit s rs Hps Hdbg Hok) in Hrun. fold ps in Hrun, Hpart.
  pose proof (ready_held (PagedAlloc.base s) (total_extend rs / ps + len rs + 1)) as Hh.
  pose proof (pool_wf_ready _ _ (total_extend rs / ps + len rs + 1) Hwf) as Hwr.
  pose proof (ready_fields (PagedAlloc.base s) (total_extend rs / ps + len rs + 1)) as Hf.
  unfold extend_state in Hrun. fold ps in Hrun. set (b := ready _ _) in *.
  destruct (Z.ltb_spec (len (Base.free_pages b)) (total_new_pages ps rs)) as [|Hle];
    [discriminate Hrun|]. injection Hrun as <- <-.
  set (k := Z.to_nat (total_new_pages ps rs)).
  pose proof (total_new_pages_nonneg ps Hps rs Hok).
  pose proof (take_front_perm b k) as Hp. cbn [PagedAlloc.base] in *.
  assert (NoDup (partial_pages ps rs ++ Base.free_pages b)) as Hnd.
  { rewrite <-Hh in Hpart. unfold held in Hpart. rewrite app_assoc in Hpart.
    by apply NoDup_app in Hpart as [? _]. }
  split_and!.
  - by apply ref_extend_NoDup.
  - by apply length_ref_extend.
  - split; cbn; [by destruct Hf as (_ & _ & -> & _)|].
    eapply (pool_wf_perm _ b _ (take k (Base.free_pages b))); done.
  - exists (take k (Base.free_pages b)). split_and!.
    + unfold len in *. rewrite length_take. lia.
    + by rewrite Hp, Hh.
    + apply Forall_forall. intros x Hx. by apply ref_extend_pages.
Qed.

Lemma alloc_extend_no_alias_witness :
  NoDup [4; 5; 6; 7; 8; 9; 38; 41; 42; 43; 12; 13; 14; 15; 16].
Proof.
  assert (paged_wf ex_paged) as Hwf.
  { split; [done|]. by_decide. }
  assert (Forall (aligned 4) ex_shapes) as Hal by (repeat constructor; cbn; lia).
  apply (alloc_extend_no_alias 0 0 (λ _, 0) ex_paged (extend_state ex_paged ex_shapes 4) ex_shapes
           [4; 5; 6; 7; 8; 9; 38; 41; 42; 43; 12; 13; 14; 15; 16] Hwf eq_refl Hal).
  - by_decide.
  - reflexivity.
Defined.

(** ** Decode *)

(** A decode step extends every request by one position. *)
Definition decode_shape (sl : Z * Z) : req_shape :=
  {| r_pre := fst sl - 1; r_seq := fst sl; r_last := snd sl |}.

Section decode.
Context (masked oob ps : Z) (Hps : 0 < ps).

Lemma decode_pre_lanes arr n pid :
  pid < len arr →
  zip_with (λ o s, if o <=? pid then s - 1 else s) (py_range 0 n)
    (tl_load_lanes masked oob arr n (λ o, o <=? pid)) =
  tl_load_lanes masked oob ((λ s, s - 1) <$> arr) n (λ o, o <=? pid).
Proof.
  intros Hpid. unfold tl_load_lanes. rewrite zip_with_fmap_r, zip_with_diag.
  apply fmap_py_range_ext. intros o Ho. case_if; [|done].
  unfold tl_load. case_if; [lia|]. rewrite list_lookup_fmap.
  destruct (arr !! Z.to_nat o) eqn:E; [done|]. apply lookup_ge_None in E. unfold len in *. lia.
Qed.

Lemma store_one {A} (l : list A) out v :
  len l < len out →
  tl_store_lanes out (len l) 1 (λ _, v) (λ _, true) = seg_write out (length l) [v].
Proof.
  intros Hout. unfold tl_store_lanes. change (py_range 0 1) with [0]. cbn [foldl andb].
  replace (0 <=? len l + 0) with true by (pose proof (len_nonneg l); lia).
  rewrite seg_write_singleton by (unfold len in *; lia). f_equal. unfold len. lia.
Qed.

Lemma req_slots_decode seq last pages :
  1 ≤ seq →
  req_slots ps (seq - 1) seq last pages =
  [if new_pages ps (seq - 1) seq =? 0 then last + 1 else nth 0 pages 0 * ps].
Proof using Hps.
  intros Hs. unfold req_slots, py_range. replace (Z.to_nat (seq - (seq - 1))) with 1%nat by lia.
  cbn. rewrite Z.add_0_r. f_equal. unfold req_slot, new_pages, ceil_align.
  pose proof (ceil_div_bounds (seq - 1) ps Hps). pose proof (ceil_div_bounds seq ps Hps).
  pose proof (ceil_div_mono (seq - 1) seq ps Hps ltac:(lia)).
  destruct (Z.ltb_spec (seq - 1) (ceil_div (seq - 1) ps * ps)).
  - assert (ceil_div seq ps = ceil_div (seq - 1) ps) as -> by (apply ceil_div_unique; lia).
    case_if; lia.
  - assert (seq - 1 = ceil_div (seq - 1) ps * ps) as E by lia.
    destruct (Z.eqb_spec (ceil_div seq ps - ceil_div (seq - 1) ps) 0); [nia|].
    assert ((seq - 1) / ps = ceil_div (seq - 1) ps) as -> by (rewrite E at 1; by apply Z.div_mul, Z.neq_sym, Z.lt_neq).
    assert ((seq - 1) mod ps = 0) as -> by (rewrite E; apply Z.mod_mul; lia).
    rewrite Z.sub_diag, Z.add_0_r. done.
Qed.

Lemma decode_kernel_spec l r k free out bs_upper :
  let rs := l ++ r :: k in
  Forall (λ p, 1 ≤ fst p) (l ++ [r]) → len l < bs_upper →
  total_new_pages ps (decode_shape <$> l ++ [r]) ≤ len free → len l < len out →
  alloc_decode_kernel masked oob (fst <$> rs) (snd <$> rs) free bs_upper ps out (len l) =
  seg_write out (length l)
    (req_slots ps (fst r - 1) (fst r) (snd r)
      (take (Z.to_nat (new_pages ps (fst r - 1) (fst r)))
            (drop (Z.to_nat (total_new_pages ps (decode_shape <$> l))) free))).
Proof using Hps.
  intros rs Hpos Hbs Hfree Hout.
  rewrite Forall_app, Forall_singleton in Hpos. destruct Hpos as [Hpl Hpr].
  assert (Forall shape_ok (decode_shape <$> l)) as Hok.
  { apply Forall_fmap. eapply Forall_impl; [exact Hpl|]. unfold shape_ok. cbn. lia. }
  pose proof (total_new_pages_nonneg ps Hps _ Hok) as HP.
  rewrite fmap_app in Hfree. cbn [fmap list_fmap] in Hfree. rewrite total_new_pages_mid in Hfree.
  cbn [decode_shape r_pre r_seq] in Hfree.
  change (total_new_pages ps []) with 0 in Hfree. rewrite req_slots_decode by done.
  unfold alloc_decode_kernel, rs. rewrite decode_pre_lanes.
  2: { rewrite len_fmap, len_app, len_cons. pose proof (len_nonneg k). lia. }
  rewrite <-list_fmap_compose, !fmap_app. cbn [fmap list_fmap].
  rewrite !tl_load_app by (by rewrite len_fmap).
  pose proof (sum_lanes_diff (λ s, (s + ps - 1) / ps) masked oob (fst <$> l) (fst r) (fst <$> k)
    ((λ s, s - 1) ∘ fst <$> l) (fst r - 1) ((λ s, s - 1) ∘ fst <$> k) bs_upper) as Hs.
  rewrite !length_fmap, !len_fmap in Hs. cbn in Hs |- *. rewrite Hs by done. clear Hs.
  assert (zip_with (λ a b, (a + ps - 1) / ps - (b + ps - 1) / ps) (fst <$> l) ((λ s, s - 1) ∘ fst <$> l)
    = (λ r, new_pages ps (r_pre r) (r_seq r)) <$> (decode_shape <$> l)) as Hz.
  { clear. induction l; cbn; f_equal; auto. }
  cbn in Hz. rewrite Hz. fold (total_new_pages ps (decode_shape <$> l)).
  fold (ceil_div (fst r) ps) (ceil_div (fst r - 1) ps) (new_pages ps (fst r - 1) (fst r)).
  replace (_ + new_pages ps _ _ - _) with (total_new_pages ps (decode_shape <$> l)) by lia.
  rewrite !store_one by done. case_if; [done|].
  pose proof (new_pages_nonneg ps Hps (decode_shape r)) as Hnn. unfold shape_ok in Hnn. cbn in Hnn.
  rewrite <-(Z.add_0_r (total_new_pages ps (decode_shape <$> l))) at 1.
  rewrite (tl_load_nth oob free _ 0 (new_pages ps (fst r - 1) (fst r))) by lia. done.
Qed.

Lemma launch_decode rs free out bs_upper :
  Forall (λ p, 1 ≤ fst p) rs → len rs ≤ bs_upper →
  total_new_pages ps (decode_shape <$> rs) ≤ len free → len rs = len out →
  launch (len rs) (alloc_decode_kernel masked oob (fst <$> rs) (snd <$> rs) free bs_upper ps) out =
  ref_extend ps (decode_shape <$> rs) free.
Proof using Hps.
  intros Hpos Hbs Hfree Hout.
  assert (∀ l, Forall (λ p, 1 ≤ fst p) l → Forall shape_ok (decode_shape <$> l)) as Hoks.
  { intros l Hl. apply Forall_fmap. eapply Forall_impl; [exact Hl|]. unfold shape_ok. cbn. lia. }
  assert (∀ l, Forall (λ p, 1 ≤ fst p) l →
    length (ref_extend ps (decode_shape <$> l) free) = length l) as Hlr.
  { intros l Hl. pose proof (length_ref_extend ps (decode_shape <$> l) free (Hoks l Hl)) as H.
    assert (total_extend (decode_shape <$> l) = len l) as Ht.
    { clear. induction l as [|x l IH]; [done|]. unfold total_extend in *.
      rewrite !fmap_cons, sum_Z_cons, IH, len_cons. cbn. lia. }
    rewrite Ht in H. unfold len in H. lia. }
  assert (∀ l k, rs = l ++ k →
    launch (len l) (alloc_decode_kernel masked oob (fst <$> rs) (snd <$> rs) free bs_upper ps) out
    = seg_write out 0 (ref_extend ps (decode_shape <$> l) free)) as Hpref.
  { induction l as [|r l IH] using rev_ind; intros k Hk; [by rewrite seg_write_nil|].
    assert (rs = l ++ r :: k) as Hrs by (by rewrite Hk, <-app_assoc).
    assert (Forall (λ p, 1 ≤ fst p) (l ++ [r]) ∧ Forall (λ p, 1 ≤ fst p) l
            ∧ Forall (λ p, 1 ≤ fst p) k) as (Hlr' & Hl & Hk').
    { rewrite Hk, !Forall_app in Hpos. rewrite Forall_app. tauto. }
    pose proof (total_new_pages_nonneg ps Hps _ (Hoks k Hk')).
    pose proof (len_nonneg k). rewrite Hrs, len_app, len_cons in Hout, Hbs.
    unfold launch. replace (len (l ++ [r])) with (len l + 1) by (rewrite len_app; done).
    rewrite py_range_snoc by apply len_nonneg. rewrite foldl_app. cbn [foldl].
    fold (launch (len l) (alloc_decode_kernel masked oob (fst <$> rs) (snd <$> rs) free bs_upper ps) out).
    rewrite (IH (r :: k) Hrs), Hrs, decode_kernel_spec; [|done|lia| |].
    - rewrite fmap_app. cbn [fmap list_fmap]. rewrite (ref_extend_snoc ps Hps) by auto.
      rewrite <-(Hlr l) at 1 by done. apply (seg_write_app out 0).
      rewrite Hlr by done. unfold req_slots. rewrite length_fmap, length_py_range.
      cbn [r_pre r_seq decode_shape]. unfold len in *. lia.
    - rewrite Hk, fmap_app in Hfree. unfold total_new_pages in Hfree.
      rewrite fmap_app, sum_Z_app in Hfree. unfold total_new_pages in *. lia.
    - unfold len in *. rewrite length_seg_write by (rewrite Hlr by done; lia). lia. }
  rewrite (Hpref rs [] (eq_sym (app_nil_r rs))). unfold seg_write. cbn.
  rewrite drop_ge; [apply app_nil_r|]. rewrite Hlr by done. unfold len in *. lia.
Qed.
End decode.

(** The shortcut for decode counts what the general formula counts. *)
Lemma decode_new_page ps s :
  1 < ps → 1 ≤ s → (if s mod ps =? 1 then 1 else 0) = new_pages ps (s - 1) s.
Proof.
  intros Hps Hs. unfold new_pages.
  pose proof (ceil_div_bounds (s - 1) ps ltac:(lia)). pose proof (ceil_div_bounds s ps ltac:(lia)).
  pose proof (Z.div_mod s ps ltac:(lia)). pose proof (Z.mod_pos_bound s ps ltac:(lia)).
  set (q := s / ps) in *. case_if.
  - assert (ceil_div s ps = q + 1) as -> by (apply ceil_div_unique; nia).
    assert (ceil_div (s - 1) ps = q) as -> by (apply ceil_div_unique; nia). lia.
  - destruct (Z.eqb_spec (s mod ps) 0) as [E|].
    + assert (ceil_div s ps = q) as -> by (apply ceil_div_unique; nia).
      assert (ceil_div (s - 1) ps = q) as -> by (apply ceil_div_unique; nia). lia.
    + assert (ceil_div s ps = q + 1) as -> by (apply ceil_div_unique; nia).
      assert (ceil_div (s - 1) ps = q + 1) as -> by (apply ceil_div_unique; nia). lia.
Qed.

Lemma get_num_new_pages_decode ps rs :
  1 < ps → Forall (λ p : Z * Z, 1 ≤ fst p) rs →
  get_num_new_pages (fst <$> rs) ps None true = Ok (total_new_pages ps (decode_shape <$> rs)).
Proof.
  intros Hps Hpos. unfold get_num_new_pages, total_new_pages. cbn [py_assert res_bind]. do 2 f_equal.
  induction Hpos as [|[s l] rs Hs _ IH]; [done|]. cbn in Hs |- *. f_equal; [|exact IH].
  by apply decode_new_page.
Qed.

(** Paged decode allocation: with pages of more than one slot, [alloc_decode]
    returns what the sequential prefill walk returns when every request is
    extended by one position, and consumes the same pages (so its shortcuts, one
    store per request and [seq_len % page_size == 1], are exact). *)
Theorem alloc_decode_is_extend masked oob uninit (s : PagedAlloc.t) (rs : list (Z * Z))
    (Hps : 1 < Base.page_size (PagedAlloc.base s)) (Hdbg : PagedAlloc.debug_mode s = false)
    (Hpos : Forall (λ p : Z * Z, 1 ≤ fst p) rs) :
  let ps := Base.page_size (PagedAlloc.base s) in
  let b := ready (PagedAlloc.base s) (len rs) in
  let n := total_new_pages ps (decode_shape <$> rs) in
  PagedAlloc.alloc_decode masked oob s uninit (fst <$> rs) (fst <$> rs) (snd <$> rs) =
  Ok (if len (Base.free_pages b) <? n then (None, PagedAlloc.with_base s b)
      else (Some (ref_extend ps (decode_shape <$> rs) (Base.free_pages b)),
            PagedAlloc.with_base s (Base.set_pages b (drop (Z.to_nat n) (Base.free_pages b))
                                                   (Base.release_pages b)))).
Proof.
  intros ps b n. unfold PagedAlloc.alloc_decode. rewrite Hdbg. cbn [res_bind].
  rewrite len_fmap. fold ps. fold (ready (PagedAlloc.base s) (len rs)). fold b.
  cbn [PagedAlloc.debug_mode PagedAlloc.with_base res_bind]. rewrite ?Hdbg. cbn [res_bind].
  rewrite get_num_new_pages_decode by done. cbn [res_bind]. fold n.
  assert (0 ≤ n).
  { apply total_new_pages_nonneg; [lia|]. apply Forall_fmap.
    eapply Forall_impl; [exact Hpos|]. unfold shape_ok. cbn. lia. }
  rewrite py_from_drop by done. case_if; [done|].
  pose proof (len_nonneg rs). pose proof (next_power_of_2_ge (len rs)).
  rewrite (launch_decode masked oob ps ltac:(lia)); try done.
  rewrite len_fmap, len_py_range by lia. lia.
Qed.

Lemma alloc_decode_is_extend_witness :
  ∃ s', PagedAlloc.alloc_decode 0 0 ex_paged (λ _, 0) [5; 3; 9] [5; 3; 9] [39; 37; 43] =
        Ok (Some [4; 38; 8], s').
Proof.
  assert (Forall (λ p : Z * Z, 1 ≤ fst p) [(5, 39); (3, 37); (9, 43)]) as Hpos by by_decide.
  eexists. apply (alloc_decode_is_extend 0 0 (λ _, 0) ex_paged [(5, 39); (3, 37); (9, 43)]
    ltac:(done) eq_refl Hpos).
Defined.

(** ** Whole-page allocation and its round trip *)

Lemma elem_of_page_slots ps p x : 0 < ps → x ∈ PagedAlloc.page_slots ps p ↔ x / ps = p.
Proof.
  intros Hps. unfold PagedAlloc.page_slots. rewrite list_elem_of_fmap. split.
  - intros (o & -> & Ho%elem_of_py_range). rewrite Z.add_comm, Z.div_add, Z.div_small; lia.
  - intros <-. exists (x mod ps). rewrite elem_of_py_range.
    pose proof (Z.div_mod x ps ltac:(lia)). pose proof (Z.mod_pos_bound x ps Hps). split; lia.
Qed.

Lemma pages_of_page_slots ps pages :
  0 < ps → NoDup pages → pages_of ps (pages ≫= PagedAlloc.page_slots ps) ≡ₚ pages.
Proof.
  intros Hps Hnd. apply NoDup_Permutation; [apply NoDup_torch_unique|done|].
  intros p. rewrite elem_of_pages_of. split.
  - intros (i & Hi & ->). apply list_elem_of_bind in Hi as (q & Hi & Hq).
    by apply elem_of_page_slots in Hi as <-.
  - intros Hp. exists (p * ps). rewrite Z.div_mul by lia. split; [|done].
    apply list_elem_of_bind. exists p. split; [|done].
    apply elem_of_page_slots; [done|]. by apply Z.div_mul, Z.neq_sym, Z.lt_neq.
Qed.

Lemma NoDup_bind_page_slots ps pages :
  0 < ps → NoDup pages → NoDup (pages ≫= PagedAlloc.page_slots ps).
Proof.
  intros Hps. induction 1 as [|p l Hp _ IH]; cbn; [constructor|].
  apply NoDup_app. split_and!; [| |done].
  - apply NoDup_fmap_2; [intros ???; lia | apply NoDup_py_range].
  - intros x Hx%elem_of_page_slots Hx'; [|done]. apply list_elem_of_bind in Hx' as (q & Hq & Hin).
    apply elem_of_page_slots in Hq; [|done]. congruence.
Qed.

Lemma len_bind_page_slots ps pages :
  0 ≤ ps → len (pages ≫= PagedAlloc.page_slots ps) = len pages * ps.
Proof.
  intros Hps. induction pages as [|p l IH]; [done|]. cbn [mbind list_bind].
  rewrite len_app, IH, len_cons. unfold PagedAlloc.page_slots.
  rewrite len_fmap, len_py_range by lia. lia.
Qed.

(** Round trip of the paged allocator: allocating [k] pages on a well-formed
    pool outside a free group and freeing what was returned succeeds and gives
    back exactly the pages that were held, also in debug mode. *)
Theorem paged_alloc_free_roundtrip (s s1 : PagedAlloc.t) (k : Z) out
    (Hwf : paged_wf s) (Hg : Base.is_not_in_free_group (PagedAlloc.base s) = true) (Hk : 0 ≤ k)
    (Hrun : PagedAlloc.alloc s (k * Base.page_size (PagedAlloc.base s)) = Ok (Some out, s1)) :
  len out = k * Base.page_size (PagedAlloc.base s) ∧
  ∃ s2, PagedAlloc.free s1 out = Ok s2 ∧ paged_wf s2 ∧
        held (PagedAlloc.base s2) ≡ₚ held (PagedAlloc.base s).
Proof.
  destruct Hwf as [Hps Hwf]. set (ps := Base.page_size (PagedAlloc.base s)) in *.
  unfold PagedAlloc.alloc in Hrun. fold ps in Hrun.
  rewrite Z.mod_mul, Z.div_mul in Hrun by lia. cbn [Z.eqb py_assert] in Hrun.
  assert (∀ b : bool, (if b then Ok tt else Ok tt) = Ok tt) as Hif by (by intros []).
  rewrite Hif in Hrun. cbn [res_bind] in Hrun. fold (ready (PagedAlloc.base s) k) in Hrun.
  pose proof (ready_held (PagedAlloc.base s) k) as Hh.
  pose proof (ready_fields (PagedAlloc.base s) k) as (Hf1 & _ & Hf3 & Hf4 & _).
  pose proof (pool_wf_ready _ _ k Hwf) as Hwr. set (b := ready _ _) in *.
  destruct (Z.ltb_spec (len (Base.free_pages b)) k) as [|Hle]; [discriminate Hrun|].
  rewrite py_upto_take, py_from_drop in Hrun by done. injection Hrun as <- <-.
  set (taken := take (Z.to_nat k) (Base.free_pages b)).
  pose proof (take_front_perm b (Z.to_nat k)) as Hp. fold taken in Hp.
  set (b' := Base.set_pages b _ _) in *.
  assert (len taken = k) as Hlt by (unfold taken, len in *; rewrite length_take; lia).
  pose proof Hwr as (Hnd & Hb & _). rewrite <-Hp in Hnd, Hb.
  apply NoDup_app in Hnd as (Hndt & Hdisj & _). apply Forall_app in Hb as [Hbt _].
  split.
  - rewrite <-Hlt. apply len_bind_page_slots. lia.
  - pose proof (pages_of_page_slots ps taken Hps Hndt) as Hpg.
    edestruct (kv_free_spec (PagedAlloc.with_base s b') (taken ≫= PagedAlloc.page_slots ps))
      as (s2 & Hs2 & [Hok _] & _ & _ & Hheld).
    { split; [|by rewrite <-Hf4 in Hg]. split; cbn; [by rewrite Hf3|].
      by eapply (pool_wf_perm _ b b' taken). }
    { apply NoDup_bind_page_slots; done. }
    { cbn. fold b'. rewrite Hf3. fold ps. rewrite Hpg.
      apply Forall_forall. intros p Hin. rewrite Forall_forall in Hbt. auto. }
    exists s2. split_and!; [done|done|]. cbn in Hheld. rewrite Hf3 in Hheld.
    fold ps in Hheld. rewrite Hpg in Hheld.
    etransitivity; [exact Hheld|]. etransitivity; [exact Hp|exact Hh].
Qed.

Lemma paged_alloc_free_roundtrip_witness :
  ∃ s1 s2, PagedAlloc.alloc ex_paged 20 = Ok (Some (py_range 4 24), s1) ∧
    PagedAlloc.free s1 (py_range 4 24) = Ok s2 ∧
    held (PagedAlloc.base s2) ≡ₚ [1; 2; 3; 4; 5; 6; 7; 8].
Proof.
  assert (paged_wf ex_paged) as Hwf by (split; [done|by_decide]).
  eexists. edestruct (paged_alloc_free_roundtrip ex_paged _ 5 (py_range 4 24) Hwf eq_refl
    ltac:(lia) eq_refl) as (_ & s2 & H1 & _ & H2).
  exists s2. split; [reflexivity|]. split; [exact H1|exact H2].
Defined.
