(* ===== verification/RadixTree.v ===== *)
(** * The radix tree of [mem_cache/radix_cache.py]

    Nodes are Python objects that are shared and mutated through parent and
    child references, so the tree is a heap from node ids to node records; a
    node taken out of the tree stays in the heap, as the object stays alive for
    whoever holds it.  [time.monotonic()] is the parameter [clock]: call number
    [n] returns [clock n].  Python's [hash] of a tuple of tokens is the
    parameter [hash]. *)

From S2P Require Import Prelude KVAllocator KVAllocatorProofs KVAllocatorSpec.

(** ** Keys *)

(** A token id is an integer, or a pair once EAGLE's bigram conversion ran. *)
Inductive token : Type :=
  | TInt (z : Z)
  | TPair (a b : token).
#[global] Instance token_eq_dec : EqDecision token.
Proof. solve_decision. Defined.

Record RadixKey := mkKey { token_ids : list token; extra_key : option string }.
#[global] Instance RadixKey_eq_dec : EqDecision RadixKey.
Proof. solve_decision. Defined.

Definition klen (k : RadixKey) : nat := length (token_ids k).
(** [key[:n]] and [key[n:]] for a nonnegative [n]. *)
Definition key_upto (k : RadixKey) (n : nat) : RadixKey := mkKey (take n (token_ids k)) (extra_key k).
Definition key_from (k : RadixKey) (n : nat) : RadixKey := mkKey (drop n (token_ids k)) (extra_key k).

Definition _check_extra_key (key0 key1 : RadixKey) : res unit :=
  guard_raise (negb (bool_decide (extra_key key0 = extra_key key1))) ValueError.

Fixpoint common_prefix (l k : list token) : nat :=
  match l, k with
  | x :: l', y :: k' => if decide (x = y) then S (common_prefix l' k') else 0
  | _, _ => 0
  end.

Definition _key_match_page_size1 (key0 key1 : RadixKey) : res nat :=
  let! _ := _check_extra_key key0 key1 in
  Ok (common_prefix (token_ids key0) (token_ids key1)).

(** The [while] loop; every round advances [i] by a page, so [min_len + 1]
    rounds are enough when pages are not empty. *)
Fixpoint key_match_loop (fuel : nat) (page_size min_len : nat) (t0 t1 : list token) (i : nat) : res nat :=
  match fuel with
  | O => Err OutOfFuel
  | S fuel =>
      if decide (i < min_len)%nat then
        if decide (take page_size (drop i t0) = take page_size (drop i t1))
        then key_match_loop fuel page_size min_len t0 t1 (i + page_size)
        else Ok i
      else Ok i
  end.

Definition _key_match_paged (key0 key1 : RadixKey) (page_size : nat) : res nat :=
  let! _ := _check_extra_key key0 key1 in
  let min_len := Nat.min (klen key0) (klen key1) in
  key_match_loop (S min_len) page_size min_len (token_ids key0) (token_ids key1) 0.

(** The key a child is filed under: a token, or the tuple of a page's tokens,
    tagged with the extra key when there is one. *)
Inductive plain_key : Type :=
  | PTok (t : token)
  | PTup (ts : list token).
#[global] Instance plain_key_eq_dec : EqDecision plain_key.
Proof. solve_decision. Defined.
Definition child_key : Type := option string * plain_key.
#[global] Instance child_key_eq_dec : EqDecision child_key.
Proof. unfold child_key. apply _. Defined.

Definition get_child_key (key : RadixKey) (page_size : nat) : res child_key :=
  let! plain_key :=
    if decide (page_size = 1%nat)
    then let! t := of_opt IndexError (token_ids key !! 0%nat) in Ok (PTok t)
    else Ok (PTup (take page_size (token_ids key))) in
  Ok (extra_key key, plain_key).

Fixpoint bigrams (tokens : list token) : list token :=
  match tokens with
  | a :: ((b :: _) as rest) => TPair a b :: bigrams rest
  | _ => []
  end.

Definition _convert_to_bigram_key (tokens : list token) : list token :=
  if (length tokens <? 2)%nat then []
  else match tokens with
       | TPair _ _ :: _ => tokens
       | _ => bigrams tokens
       end.

(** ** Nodes and the cache *)
Record TreeNode := mkNode {
  children : list (child_key * nat);
  parent : option nat;
  key : RadixKey;
  value : option (list Z);
  lock_ref : Z;
  last_access_time : Z;
  creation_time : Z;
  hit_count : Z;
  host_ref_counter : Z;
  host_value : option (list Z);
  hash_value : option (list string)
}.

Definition set_children (n : TreeNode) x := mkNode x (parent n) (key n) (value n) (lock_ref n)
  (last_access_time n) (creation_time n) (hit_count n) (host_ref_counter n) (host_value n) (hash_value n).
Definition set_parent (n : TreeNode) x := mkNode (children n) x (key n) (value n) (lock_ref n)
  (last_access_time n) (creation_time n) (hit_count n) (host_ref_counter n) (host_value n) (hash_value n).
Definition set_key_value (n : TreeNode) k v := mkNode (children n) (parent n) k v (lock_ref n)
  (last_access_time n) (creation_time n) (hit_count n) (host_ref_counter n) (host_value n) (hash_value n).
Definition set_lock (n : TreeNode) x := mkNode (children n) (parent n) (key n) (value n) x
  (last_access_time n) (creation_time n) (hit_count n) (host_ref_counter n) (host_value n) (hash_value n).
Definition set_time (n : TreeNode) x := mkNode (children n) (parent n) (key n) (value n) (lock_ref n)
  x (creation_time n) (hit_count n) (host_ref_counter n) (host_value n) (hash_value n).
Definition set_host (n : TreeNode) x := mkNode (children n) (parent n) (key n) (value n) (lock_ref n)
  (last_access_time n) (creation_time n) (hit_count n) x (host_value n) (hash_value n).

Definition evicted (n : TreeNode) : bool := bool_decide (value n = None).
Definition backuped (n : TreeNode) : bool := bool_decide (host_value n ≠ None).
Definition protect_host (n : TreeNode) : TreeNode := set_host n (host_ref_counter n + 1).
Definition release_host (n : TreeNode) : res TreeNode :=
  if 0 <? host_ref_counter n then Ok (set_host n (host_ref_counter n - 1)) else Err RuntimeError.
Definition get_last_hash_value (n : TreeNode) : option string :=
  match hash_value n with None => None | Some l => last l end.

Inductive kv_event : Type :=
  | BlockStored (block_hash : Z) (parent_block_hash : option Z) (token_ids : list token) (block_size : nat)
  | BlockRemoved (block_hash : Z)
  | AllBlocksCleared.

(** ** Eviction strategies ([mem_cache/evict_policy.py]) *)
Inductive strategy := LRU | LFU | FIFO | MRU | FILO.

(** A priority is a number or a pair compared lexicographically. *)
Inductive priority := PNum (z : Z) | PPair (a b : Z).

Definition get_priority (s : strategy) (n : TreeNode) : priority :=
  match s with
  | LRU => PNum (last_access_time n)
  | LFU => PPair (hit_count n) (last_access_time n)
  | FIFO => PNum (creation_time n)
  | MRU => PNum (- last_access_time n)
  | FILO => PNum (- creation_time n)
  end.

Definition priority_ltb (p q : priority) : bool :=
  match p, q with
  | PNum x, PNum y => x <? y
  | PPair a b, PPair c d => (a <? c) || ((a =? c) && (b <? d))
  | PNum _, PPair _ _ => true
  | PPair _ _, PNum _ => false
  end.
Definition priority_eqb (p q : priority) : bool :=
  negb (priority_ltb p q) && negb (priority_ltb q p).

Record config := mkConfig {
  page_size : nat;
  disable : bool;
  enable_kv_cache_events : bool;
  is_eagle : bool;
  eviction_strategy : strategy
}.

(** [RadixCache.__init__] rejects an unknown policy name; names are matched
    after [lower()]. *)
Definition ascii_lower (c : Ascii.ascii) : Ascii.ascii :=
  let n := Ascii.nat_of_ascii c in
  if ((65 <=? n) && (n <=? 90))%nat then Ascii.ascii_of_nat (n + 32) else c.
Fixpoint str_lower (s : string) : string :=
  match s with EmptyString => EmptyString | String c s' => String (ascii_lower c) (str_lower s') end.
Definition eviction_strategy_of (eviction_policy : string) : res strategy :=
  let p := str_lower eviction_policy in
  if decide (p = "lru"%string) then Ok LRU
  else if decide (p = "lfu"%string) then Ok LFU
  else if decide (p = "fifo"%string) then Ok FIFO
  else if decide (p = "mru"%string) then Ok MRU
  else if decide (p = "filo"%string) then Ok FILO
  else Err ValueError.

Record cache (A : Type) := mkCache {
  heap : gmap nat TreeNode;
  counter : nat;
  ticks : nat;
  root_node : nat;
  evictable_size_ : Z;
  protected_size_ : Z;
  kv_event_queue : list kv_event;
  allocator : A
}.
Arguments mkCache {A}.
Arguments heap {A}. Arguments counter {A}. Arguments ticks {A}. Arguments root_node {A}.
Arguments evictable_size_ {A}. Arguments protected_size_ {A}. Arguments kv_event_queue {A}.
Arguments allocator {A}.

Section radix.
Context {A : Type} `{KVPool A}.
Context (clock : nat → Z) (hash : list token → Z) (cfg : config).
Implicit Types st : cache A.

Definition set_heap st h := mkCache h (counter st) (ticks st) (root_node st)
  (evictable_size_ st) (protected_size_ st) (kv_event_queue st) (allocator st).
Definition set_sizes st e p := mkCache (heap st) (counter st) (ticks st) (root_node st)
  e p (kv_event_queue st) (allocator st).
Definition set_events st q := mkCache (heap st) (counter st) (ticks st) (root_node st)
  (evictable_size_ st) (protected_size_ st) q (allocator st).
Definition set_alloc st (a : A) := mkCache (heap st) (counter st) (ticks st) (root_node st)
  (evictable_size_ st) (protected_size_ st) (kv_event_queue st) a.

Definition get_node st (n : nat) : res TreeNode := of_opt AttributeError (heap st !! n).
Definition upd_node st (n : nat) (f : TreeNode → TreeNode) : cache A := set_heap st (alter f n (heap st)).

Definition monotonic st : Z * cache A :=
  (clock (ticks st),
   mkCache (heap st) (counter st) (S (ticks st)) (root_node st)
     (evictable_size_ st) (protected_size_ st) (kv_event_queue st) (allocator st)).

(** [TreeNode()]: a fresh id; the key is assigned before it is first read. *)
Definition new_tree_node st : nat * cache A :=
  let '(t1, st) := monotonic st in
  let '(t2, st) := monotonic st in
  let id := counter st in
  (id, mkCache (<[id := mkNode [] None (mkKey [] None) None 0 t1 t2 0 0 None None]> (heap st))
         (S id) (ticks st) (root_node st) (evictable_size_ st) (protected_size_ st)
         (kv_event_queue st) (allocator st)).

Definition key_match_fn (key0 key1 : RadixKey) : res nat :=
  if decide (page_size cfg = 1%nat) then _key_match_page_size1 key0 key1
  else _key_match_paged key0 key1 (page_size cfg).
Definition get_child_key_fn (key : RadixKey) : res child_key := get_child_key key (page_size cfg).
Definition key_convert_fn (tokens : list token) : list token :=
  if is_eagle cfg then _convert_to_bigram_key tokens else tokens.

(** ** Events *)

(** [tokens[start : start + page_size] for start in range(0, len, page_size)]. *)
Fixpoint pages_loop (fuel : nat) (l : list token) : list (list token) :=
  match fuel, l with
  | S fuel, _ :: _ => take (page_size cfg) l :: pages_loop fuel (drop (page_size cfg) l)
  | _, _ => []
  end.
Definition key_pages (l : list token) : list (list token) := pages_loop (length l) l.

Fixpoint stored_events (parent_block_hash : option Z) (pages : list (list token)) : list kv_event :=
  match pages with
  | [] => []
  | page_tokens :: rest =>
      let block_hash := hash page_tokens in
      BlockStored block_hash parent_block_hash page_tokens (length page_tokens)
        :: stored_events (Some block_hash) rest
  end.

Definition _record_store_event st (node : nat) : res (cache A) :=
  if enable_kv_cache_events cfg then
    let! n := get_node st node in
    let! parent_block_hash :=
      if bool_decide (parent n = None) || bool_decide (node ≠ root_node st) then Ok None
      else
        let! pid := of_opt AttributeError (parent n) in
        let! p := get_node st pid in
        let last_page_start :=
          ((Z.of_nat (klen (key p)) - 1) / Z.of_nat (page_size cfg)) * Z.of_nat (page_size cfg) in
        Ok (Some (hash (py_from (token_ids (key p)) last_page_start))) in
    Ok (set_events st (kv_event_queue st ++
          stored_events parent_block_hash (key_pages (token_ids (key n)))))
  else Ok st.

Definition _record_remove_event st (node : nat) : res (cache A) :=
  if enable_kv_cache_events cfg then
    let! n := get_node st node in
    Ok (set_events st (kv_event_queue st ++
          ((λ page_tokens, BlockRemoved (hash page_tokens)) <$> key_pages (token_ids (key n)))))
  else Ok st.

Definition _record_all_cleared_event st : cache A :=
  if enable_kv_cache_events cfg
  then set_events st (kv_event_queue st ++ [AllBlocksCleared]) else st.

Definition take_events st : list kv_event * cache A :=
  if enable_kv_cache_events cfg then (kv_event_queue st, set_events st []) else ([], st).

(** ** The tree operations *)

Definition reset st : cache A :=
  let '(root, st) := new_tree_node st in
  let st := upd_node st root (λ n, mkNode (children n) (parent n) (mkKey [] None) (Some []) 1
              (last_access_time n) (creation_time n) (hit_count n) (host_ref_counter n)
              (Some []) (hash_value n)) in
  let st := mkCache (heap st) (counter st) (ticks st) root 0 0 (kv_event_queue st) (allocator st) in
  _record_all_cleared_event st.

Definition _split_node st (key_ : RadixKey) (child : nat) (split_len : nat) : res (nat * cache A) :=
  let! st := _record_remove_event st child in
  let '(new_node, st) := new_tree_node st in
  let! ck := get_child_key_fn (key_from key_ split_len) in
  let! c := get_node st child in
  let! v := of_opt TypeError (value c) in
  let! nn := get_node st new_node in
  let nn := mkNode [(ck, child)] (parent c) (key_upto (key c) split_len) (Some (take split_len v))
              (lock_ref c) (last_access_time nn) (creation_time nn) (hit_count nn)
              (host_ref_counter nn) (host_value nn) (hash_value nn) in
  let st := upd_node st new_node (λ _, nn) in
  let st := upd_node st child (λ c, set_parent (set_key_value c (key_from (key c) split_len)
                                                (Some (drop split_len v))) (Some new_node)) in
  let! ck' := get_child_key_fn key_ in
  let! p := of_opt AttributeError (parent nn) in
  let! _ := get_node st p in
  let st := upd_node st p (λ p, set_children p (dict_set ck' new_node (children p))) in
  let! st := _record_store_event st new_node in
  let! st := _record_store_event st child in
  Ok (new_node, st).

(** The [while] loop of [_match_prefix_helper]; [fuel] bounds the rounds. *)
Fixpoint match_loop (fuel : nat) st (access_time : Z) (node : nat) (key_ : RadixKey) (ck : child_key)
    (value_ : list (list Z)) : res (list (list Z) * nat * cache A) :=
  match fuel with
  | O => Err OutOfFuel
  | S fuel =>
      if decide (klen key_ = 0%nat) then Ok (value_, node, st) else
      let! n := get_node st node in
      match dict_get ck (children n) with
      | None => Ok (value_, node, st)
      | Some child =>
          let st := upd_node st child (λ c, set_time c access_time) in
          let! c := get_node st child in
          let! prefix_len := key_match_fn (key c) key_ in
          if decide (prefix_len < klen (key c))%nat then
            let! '(new_node, st) := _split_node st (key c) child prefix_len in
            let! nn := get_node st new_node in
            let! v := of_opt TypeError (value nn) in
            Ok (value_ ++ [v], new_node, st)
          else
            let! v := of_opt TypeError (value c) in
            let key_ := key_from key_ prefix_len in
            let! ck := if decide (klen key_ = 0%nat) then Ok ck else get_child_key_fn key_ in
            match_loop fuel st access_time child key_ ck (value_ ++ [v])
      end
  end.

Definition _match_prefix_helper st (node : nat) (key_ : RadixKey) : res (list (list Z) * nat * cache A) :=
  let '(access_time, st) := monotonic st in
  let st := upd_node st node (λ n, set_time n access_time) in
  let! ck := get_child_key_fn key_ in
  match_loop (S (klen key_)) st access_time node key_ ck [].

(** [MatchResult]; the last host node is the last device node here and the
    host hit length is 0. *)
Record MatchResult := mkMatch { device_indices : list Z; last_device_node : nat }.

Definition match_prefix st (key_ : RadixKey) : res (MatchResult * cache A) :=
  let key_ := mkKey (key_convert_fn (token_ids key_)) (extra_key key_) in
  let empty_match_result := mkMatch [] (root_node st) in
  if disable cfg || bool_decide (klen key_ = 0%nat) then Ok (empty_match_result, st) else
  let key_ :=
    if decide (page_size cfg = 1%nat) then key_
    else key_upto key_ (klen key_ / page_size cfg * page_size cfg) in
  if decide (klen key_ = 0%nat) then Ok (empty_match_result, st) else
  let! '(value_, last_node, st) := _match_prefix_helper st (root_node st) key_ in
  Ok (mkMatch (mjoin value_) last_node, st).

(** The [while] loop of [_insert_helper]. *)
Fixpoint insert_loop (fuel : nat) st (access_time : Z) (node : nat) (key_ : RadixKey) (value_ : list Z)
    (ck : child_key) (total_prefix_length : nat)
    : res (nat * RadixKey * list Z * child_key * nat * cache A) :=
  match fuel with
  | O => Err OutOfFuel
  | S fuel =>
      if decide (klen key_ = 0%nat) then Ok (node, key_, value_, ck, total_prefix_length, st) else
      let! n := get_node st node in
      match dict_get ck (children n) with
      | None => Ok (node, key_, value_, ck, total_prefix_length, st)
      | Some node =>
          let st := upd_node st node (λ c, set_time c access_time) in
          let! n := get_node st node in
          let! prefix_len := key_match_fn (key n) key_ in
          let total_prefix_length := (total_prefix_length + prefix_len)%nat in
          let key_ := key_from key_ prefix_len in
          let value_ := drop prefix_len value_ in
          let! '(node, st) :=
            if decide (prefix_len < klen (key n))%nat
            then _split_node st (key n) node prefix_len else Ok (node, st) in
          let! ck := if decide (klen key_ = 0%nat) then Ok ck else get_child_key_fn key_ in
          insert_loop fuel st access_time node key_ value_ ck total_prefix_length
      end
  end.

Definition _insert_helper st (node : nat) (key_ : RadixKey) (value_ : list Z) : res (nat * cache A) :=
  let '(access_time, st) := monotonic st in
  let st := upd_node st node (λ n, set_time n access_time) in
  if decide (klen key_ = 0%nat) then Ok (0%nat, st) else
  let! ck := get_child_key_fn key_ in
  let! '(node, key_, value_, ck, total_prefix_length, st) :=
    insert_loop (S (klen key_)) st access_time node key_ value_ ck 0 in
  if decide (klen key_ = 0%nat) then Ok (total_prefix_length, st) else
  let '(new_node, st) := new_tree_node st in
  let st := upd_node st new_node (λ n, set_parent (set_key_value n key_ (Some value_)) (Some node)) in
  let! _ := get_node st node in
  let st := upd_node st node (λ n, set_children n (dict_set ck new_node (children n))) in
  let st := set_sizes st (evictable_size_ st + Z.of_nat (klen key_)) (protected_size_ st) in
  let! st := _record_store_event st new_node in
  Ok (total_prefix_length, st).

(** [torch.tensor(key.token_ids)]; the two-dimensional tensor that bigrams
    would give is outside the model. *)
Fixpoint tensor_of_tokens (l : list token) : res (list Z) :=
  match l with
  | [] => Ok []
  | TInt z :: l' => let! r := tensor_of_tokens l' in Ok (z :: r)
  | TPair _ _ :: _ => Err NotImplementedError
  end.

Definition insert st (key_ : RadixKey) (value_ : option (list Z)) : res (nat * cache A) :=
  if disable cfg then Ok (0%nat, st) else
  let key_ := mkKey (key_convert_fn (token_ids key_)) (extra_key key_) in
  let! value_ := match value_ with Some v => Ok v | None => tensor_of_tokens (token_ids key_) end in
  let value_ := if is_eagle cfg then take (klen key_) value_ else value_ in
  _insert_helper st (root_node st) key_ value_.

(** ** Locks *)
Fixpoint inc_lock_loop (fuel : nat) st (node : nat) (delta : Z) : res (Z * cache A) :=
  match fuel with
  | O => Err OutOfFuel
  | S fuel =>
      if decide (node = root_node st) then Ok (delta, st) else
      let! n := get_node st node in
      let l := Z.of_nat (klen (key n)) in
      let '(st, delta) :=
        if lock_ref n =? 0
        then (set_sizes st (evictable_size_ st - l) (protected_size_ st + l), delta - l)
        else (st, delta) in
      let st := upd_node st node (λ n, set_lock n (lock_ref n + 1)) in
      let! p := of_opt AttributeError (parent n) in
      inc_lock_loop fuel st p delta
  end.

Definition inc_lock_ref st (node : nat) : res (Z * cache A) :=
  if disable cfg then Ok (0, st) else inc_lock_loop (S (size (heap st))) st node 0.

Fixpoint dec_lock_loop (fuel : nat) st (node : nat) (delta : Z) : res (Z * cache A) :=
  match fuel with
  | O => Err OutOfFuel
  | S fuel =>
      if decide (node = root_node st) then Ok (delta, st) else
      let! n := get_node st node in
      let l := Z.of_nat (klen (key n)) in
      let '(st, delta) :=
        if lock_ref n =? 1
        then (set_sizes st (evictable_size_ st + l) (protected_size_ st - l), delta + l)
        else (st, delta) in
      let st := upd_node st node (λ n, set_lock n (lock_ref n - 1)) in
      let! p := of_opt AssertionError (parent n) in
      dec_lock_loop fuel st p delta
  end.

Definition dec_lock_ref st (node : nat) : res (Z * cache A) :=
  if disable cfg then Ok (0, st) else dec_lock_loop (S (size (heap st))) st node 0.

(** ** Traversals: an explicit stack, popped from its end *)
Fixpoint collect_loop (fuel : nat) st (stack : list nat) (ret_list : list nat) : res (list nat) :=
  match fuel with
  | O => Err OutOfFuel
  | S fuel =>
      match last stack with
      | None => Ok ret_list
      | Some cur_node =>
          let stack := take (length stack - 1) stack in
          let! n := get_node st cur_node in
          if decide (children n = []) then
            collect_loop fuel st stack (if lock_ref n =? 0 then ret_list ++ [cur_node] else ret_list)
          else collect_loop fuel st (stack ++ (children n).*2) ret_list
      end
  end.

Definition _collect_leaves st : res (list nat) :=
  let! r := get_node st (root_node st) in
  collect_loop (S (size (heap st))) st (children r).*2 [].

Fixpoint total_size_loop (fuel : nat) st (stack : list nat) (total_size : Z) : res Z :=
  match fuel with
  | O => Err OutOfFuel
  | S fuel =>
      match last stack with
      | None => Ok total_size
      | Some current_node =>
          let stack := take (length stack - 1) stack in
          let! n := get_node st current_node in
          let! v := of_opt TypeError (value n) in
          let! cs := mapM_res (λ c, let! cn := get_node st c in Ok (c, evicted cn)) (children n).*2 in
          total_size_loop fuel st (stack ++ (List.filter (λ p, negb p.2) cs).*1) (total_size + len v)
      end
  end.

Definition _total_size_helper st : res Z := total_size_loop (S (size (heap st))) st [root_node st] 0.

(** ** Eviction *)

(** [for k, v in items: if v == node: break] followed by [del children[k]]:
    without a match, [k] is the last key visited. *)
Definition find_child_key (d : list (child_key * nat)) (node : nat) : res child_key :=
  match List.find (λ kv, bool_decide (kv.2 = node)) d with
  | Some kv => Ok kv.1
  | None => of_opt UnboundLocalError (fst <$> last d)
  end.

Definition _delete_leaf st (node : nat) : res (cache A) :=
  let! n := get_node st node in
  let! pid := of_opt AttributeError (parent n) in
  let! p := get_node st pid in
  let! k := find_child_key (children p) node in
  let st := upd_node st pid (λ p, set_children p (dict_del k (children p))) in
  Ok (set_sizes st (evictable_size_ st - Z.of_nat (klen (key n))) (protected_size_ st)).

(** Entries of the eviction heap are [(priority, node)] tuples; nodes of equal
    priority are compared by [TreeNode.__lt__]. *)
Definition entry : Type := priority * nat.
Definition entry_ltb st (x y : entry) : bool :=
  priority_ltb x.1 y.1 ||
  (priority_eqb x.1 y.1 &&
   match heap st !! x.2, heap st !! y.2 with
   | Some a, Some b => last_access_time a <? last_access_time b
   | _, _ => false
   end).

(** [heapq.heappop] returns a smallest entry; the model keeps the entries in a
    list and takes the first smallest one. *)
Fixpoint pop_min (ltb : entry → entry → bool) (x : entry) (l : list entry) : entry * list entry :=
  match l with
  | [] => (x, [])
  | y :: l' =>
      let '(m, rest) := pop_min ltb y l' in
      if ltb m x then (m, x :: rest) else (x, m :: rest)
  end.

Fixpoint evict_loop (fuel : nat) st (eviction_heap : list entry) (num_tokens num_evicted : Z)
    : res (Z * cache A) :=
  match fuel with
  | O => Err OutOfFuel
  | S fuel =>
      match eviction_heap with
      | [] => Ok (num_evicted, st)
      | e :: es =>
          if num_tokens <=? num_evicted then Ok (num_evicted, st) else
          let '((_, x), eviction_heap) := pop_min (entry_ltb st) e es in
          let! xn := get_node st x in
          let! v := of_opt TypeError (value xn) in
          let! a := kv_free (allocator st) v in
          let st := set_alloc st a in
          let num_evicted := num_evicted + len v in
          let! st := _delete_leaf st x in
          let! pid := of_opt AttributeError (parent xn) in
          let! p := get_node st pid in
          let eviction_heap :=
            if bool_decide (children p = []) && (lock_ref p =? 0)
            then eviction_heap ++ [(get_priority (eviction_strategy cfg) p, pid)]
            else eviction_heap in
          let! st := _record_remove_event st x in
          evict_loop fuel st eviction_heap num_tokens num_evicted
      end
  end.

Definition evict st (num_tokens : Z) : res (Z * cache A) :=
  if disable cfg then Ok (0, st) else
  let! leaves := _collect_leaves st in
  let! eviction_heap :=
    mapM_res (λ n, let! nd := get_node st n in Ok (get_priority (eviction_strategy cfg) nd, n)) leaves in
  evict_loop (S (size (heap st))) st eviction_heap num_tokens 0.

Definition evictable_size st : Z := evictable_size_ st.
Definition protected_size st : Z := protected_size_ st.
Definition total_size st : res Z := _total_size_helper st.

(** [all_values_flatten]: the values below the root, in depth-first order. *)
Fixpoint dfs_values (fuel : nat) st (node : nat) : res (list (list Z)) :=
  match fuel with
  | O => Err OutOfFuel
  | S fuel =>
      let! n := get_node st node in
      let! vs := mapM_res (λ c, let! cn := get_node st c in
                                let! v := of_opt TypeError (value cn) in
                                let! rest := dfs_values fuel st c in Ok (v :: rest)) (children n).*2 in
      Ok (mjoin vs)
  end.
Definition all_values_flatten st : res (list Z) :=
  let! vs := dfs_values (S (size (heap st))) st (root_node st) in Ok (mjoin vs).
End radix.

(** [RadixCache.__init__]: check the policy, then [reset] an empty cache. *)
Definition RadixCache_init {A} (clock : nat → Z) (a : A) (page_size : nat) (disable enable_kv_cache_events : bool)
    (eviction_policy : string) (is_eagle : bool) : res (config * cache A) :=
  let! s := eviction_strategy_of eviction_policy in
  let cfg := mkConfig page_size disable enable_kv_cache_events is_eagle s in
  Ok (cfg, reset clock cfg (mkCache ∅ 0 0 0 0 0 [] a)).
