(* ===== verification/RadixInv.v ===== *)
(** * The radix-tree invariant and what the tree means

    The invariant [wf] is stated over the fields of the nodes that carry the
    structure (their [view]) and a ghost map [G] that gives every node that is
    in the tree the tokens and the KV indices on the path from the root to it.
    Splitting a node does not change the ghost entry of any other node, which is
    what makes the operations easy to follow.  [Cached] is the abstract content:
    the token sequences a lookup can find, each with its KV indices. *)

From stdpp Require Import gmultiset.
From S2P Require Import Prelude KVAllocator KVAllocatorProofs KVAllocatorSpec RadixTree.

(** ** Views *)
Record nview := mkView {
  vch : list (child_key * nat);
  vpar : option nat;
  vkey : RadixKey;
  vval : option (list Z);
  vlock : Z
}.
Definition view (n : TreeNode) : nview :=
  mkView (children n) (parent n) (key n) (value n) (lock_ref n).

Abbreviation ghost := (gmap nat (list token * list Z)).
Abbreviation views := (gmap nat nview).
Definition hview (h : gmap nat TreeNode) : views := view <$> h.

(** ** The invariant *)

(** How a node [n] other than the root, with view [v], hangs below [pid]. *)
Record linked (ps : nat) (G : ghost) (W : views) (r n : nat) (v : nview) (pid : nat) (pv : nview)
    (g pg : list token * list Z) (vs : list Z) : Prop := {
  lk_par : vpar v = Some pid;
  lk_pview : W !! pid = Some pv;
  lk_ghost : G !! n = Some g;
  lk_pghost : G !! pid = Some pg;
  lk_val : vval v = Some vs;
  lk_len : length vs = klen (vkey v);
  lk_toks : g.1 = pg.1 ++ token_ids (vkey v);
  lk_idxs : g.2 = pg.2 ++ vs;
  lk_nonempty : klen (vkey v) ≠ 0%nat;
  lk_aligned : (ps | klen (vkey v))%nat;
  lk_extra : pid ≠ r → extra_key (vkey pv) = extra_key (vkey v);
  lk_child : ∃ ck, get_child_key (vkey v) ps = Ok ck ∧ dict_get ck (vch pv) = Some n
}.

Arguments lk_par {_ _ _ _ _ _ _ _ _ _ _} _.
Arguments lk_pview {_ _ _ _ _ _ _ _ _ _ _} _.
Arguments lk_ghost {_ _ _ _ _ _ _ _ _ _ _} _.
Arguments lk_pghost {_ _ _ _ _ _ _ _ _ _ _} _.
Arguments lk_val {_ _ _ _ _ _ _ _ _ _ _} _.
Arguments lk_len {_ _ _ _ _ _ _ _ _ _ _} _.
Arguments lk_toks {_ _ _ _ _ _ _ _ _ _ _} _.
Arguments lk_idxs {_ _ _ _ _ _ _ _ _ _ _} _.
Arguments lk_nonempty {_ _ _ _ _ _ _ _ _ _ _} _.
Arguments lk_aligned {_ _ _ _ _ _ _ _ _ _ _} _.
Arguments lk_extra {_ _ _ _ _ _ _ _ _ _ _} _.
Arguments lk_child {_ _ _ _ _ _ _ _ _ _ _} _.

Record wf (ps : nat) (G : ghost) (W : views) (ctr r : nat) : Prop := {
  wf_page : ps ≠ 0%nat;
  wf_root : ∃ v, W !! r = Some v ∧ G !! r = Some ([], []) ∧ vpar v = None ∧
                 token_ids (vkey v) = [] ∧ vval v = Some [];
  wf_node : ∀ n, is_Some (G !! n) → n ≠ r →
    ∃ v pid pv g pg vs, W !! n = Some v ∧ linked ps G W r n v pid pv g pg vs;
  wf_children : ∀ n v, is_Some (G !! n) → W !! n = Some v →
    NoDup (vch v).*1 ∧
    ∀ ck c, (ck, c) ∈ vch v →
      is_Some (G !! c) ∧ ∃ cv, W !! c = Some cv ∧ vpar cv = Some n ∧ get_child_key (vkey cv) ps = Ok ck;
  wf_fresh : ∀ n, is_Some (W !! n) → (n < ctr)%nat
}.

Arguments wf_page {_ _ _ _ _} _.
Arguments wf_root {_ _ _ _ _} _.
Arguments wf_node {_ _ _ _ _} _.
Arguments wf_children {_ _ _ _ _} _.
Arguments wf_fresh {_ _ _ _ _} _.

(** Lock counts: [L] is the multiset of the nodes on which a lock is held.  A
    node is locked once for each holder at it and once for each lock of a
    child; [d] is the correction of a node a lock operation has yet to reach. *)
Definition lock_of (W : views) (n : nat) : Z := from_option vlock 0 (W !! n).
Record locks_ok (G : ghost) (L : gmultiset nat) (W : views) (r : nat) (d : nat → Z) : Prop := {
  lo_live : ∀ n, n ∈ L → is_Some (G !! n);
  lo_root : lock_of W r = 1;
  lo_count : ∀ n v, is_Some (G !! n) → n ≠ r → W !! n = Some v →
    0 ≤ vlock v ∧ vlock v + d n = Z.of_nat (multiplicity n L) + sum_Z (lock_of W <$> (vch v).*2)
}.

Arguments lo_live {_ _ _ _ _} _.
Arguments lo_root {_ _ _ _ _} _.
Arguments lo_count {_ _ _ _ _} _.

(** The two size counters. *)
Definition set_sum (f : nat → Z) (X : gset nat) : Z := sum_Z (f <$> elements X).

(** The length of a node whose being unlocked is [b]. *)
Definition sel_len (b : bool) (W : views) (r n : nat) : Z :=
  match W !! n with
  | Some v => if decide (n = r) then 0
              else if Bool.eqb (vlock v =? 0) b then Z.of_nat (klen (vkey v)) else 0
  | None => 0
  end.
Abbreviation unlocked_len := (sel_len true).
Abbreviation locked_len := (sel_len false).

(** The invariant of a cache with the lock holders [L]. *)
Record cache_inv {A} (cfg : config) (G : ghost) (L : gmultiset nat) (d : nat → Z) (st : cache A) : Prop := {
  ci_wf : wf (page_size cfg) G (hview (heap st)) (counter st) (root_node st);
  ci_locks : locks_ok G L (hview (heap st)) (root_node st) d;
  ci_evictable : evictable_size_ st = set_sum (unlocked_len (hview (heap st)) (root_node st)) (dom G);
  ci_protected : protected_size_ st = set_sum (locked_len (hview (heap st)) (root_node st)) (dom G)
}.
Arguments ci_wf {_ _ _ _ _ _} _.
Arguments ci_locks {_ _ _ _ _ _} _.
Arguments ci_evictable {_ _ _ _ _ _} _.
Arguments ci_protected {_ _ _ _ _ _} _.
Abbreviation cache_wf cfg G L := (cache_inv cfg G L (λ _, 0)).

(** ** The abstract content

    [Cached e toks idxs]: under the extra key [e], a lookup of [toks] finds the
    KV indices [idxs]. *)
Definition Cached (ps : nat) (G : ghost) (W : views) (r : nat)
    (e : option string) (toks : list token) (idxs : list Z) : Prop :=
  ∃ n v g, n ≠ r ∧ W !! n = Some v ∧ G !! n = Some g ∧ extra_key (vkey v) = e ∧
    toks `prefix_of` g.1 ∧ (ps | length toks)%nat ∧ idxs = take (length toks) g.2.
Definition cached {A} (cfg : config) (G : ghost) (st : cache A) :=
  Cached (page_size cfg) G (hview (heap st)) (root_node st).

(** ** Sums over sets *)
Lemma set_sum_insert f n X : n ∉ X → set_sum f ({[n]} ∪ X) = f n + set_sum f X.
Proof.
  intros Hn. unfold set_sum. rewrite (sum_Z_perm _ (f <$> n :: elements X)); [done|].
  by apply fmap_Permutation, elements_union_singleton.
Qed.

Lemma set_sum_delete f n X : n ∈ X → set_sum f X = f n + set_sum f (X ∖ {[n]}).
Proof.
  intros Hn. rewrite <-set_sum_insert by set_solver. f_equal. apply set_eq. intros m.
  destruct (decide (m = n)); set_solver.
Qed.

Lemma set_sum_ext f g X : (∀ n, n ∈ X → f n = g n) → set_sum f X = set_sum g X.
Proof.
  intros Hfg. unfold set_sum. f_equal. apply list_fmap_ext.
  intros i n Hn%list_elem_of_lookup_2. apply Hfg. by apply elem_of_elements.
Qed.

Lemma set_sum_nonneg f X : (∀ n, n ∈ X → 0 ≤ f n) → 0 ≤ set_sum f X.
Proof.
  intros Hf. apply sum_Z_nonneg, Forall_fmap, Forall_forall.
  intros n Hn. apply Hf. by apply elem_of_elements.
Qed.

(** Changing the summand at one point only. *)
Lemma set_sum_update f g n X :
  n ∈ X → (∀ m, m ∈ X → m ≠ n → f m = g m) → set_sum f X = set_sum g X + (f n - g n).
Proof.
  intros Hn Hfg. rewrite (set_sum_delete f n X), (set_sum_delete g n X) by done.
  rewrite (set_sum_ext f g (X ∖ {[n]})) by set_solver. lia.
Qed.

Lemma set_sum_add f g X : set_sum (λ n, f n + g n) X = set_sum f X + set_sum g X.
Proof. unfold set_sum, sum_Z. induction (elements X) as [|n l IH]; cbn; [done|]. rewrite IH. lia. Qed.

Lemma set_sum_zero f X : (∀ n, n ∈ X → f n = 0) → set_sum f X = 0.
Proof.
  intros Hf. unfold set_sum. assert (Forall (λ n, f n = 0) (elements X)) as HF.
  { apply Forall_forall. intros n Hn. apply Hf. by apply elem_of_elements. }
  induction HF as [|n l Hn _ IH]; [done|]. rewrite fmap_cons, sum_Z_cons, Hn, IH. done.
Qed.

(** ** Keys *)
Lemma key_match_page1 k0 k1 n :
  _key_match_page_size1 k0 k1 = Ok n → n = common_prefix (token_ids k0) (token_ids k1).
Proof. unfold _key_match_page_size1. intros. inv_ok. done. Qed.

Lemma common_prefix_take l k : take (common_prefix l k) l = take (common_prefix l k) k.
Proof.
  revert k. induction l as [|x l IH]; intros [|y k]; cbn; try done.
  case_decide; cbn; [by subst; rewrite IH|done].
Qed.
Lemma common_prefix_le l k : (common_prefix l k ≤ Nat.min (length l) (length k))%nat.
Proof.
  revert k. induction l as [|x l IH]; intros [|y k]; cbn; try lia.
  case_decide; [|lia]. specialize (IH k). lia.
Qed.
Lemma common_prefix_max l k n :
  (n ≤ length l)%nat → (n ≤ length k)%nat → take n l = take n k → (n ≤ common_prefix l k)%nat.
Proof.
  revert k n. induction l as [|x l IH]; intros [|y k] [|n] Hl Hk; cbn in *; try lia.
  intros [= -> Heq]. rewrite decide_True by done. apply le_n_S, IH; [lia..|done].
Qed.

(** What [key_match_fn] returns on aligned keys: the longest common prefix made
    of whole pages. *)
Definition is_match (ps : nat) (l k : list token) (n : nat) : Prop :=
  (n ≤ length l)%nat ∧ (n ≤ length k)%nat ∧ (ps | n)%nat ∧ take n l = take n k ∧
  ∀ m, (m ≤ length l)%nat → (m ≤ length k)%nat → (ps | m)%nat → take m l = take m k → (m ≤ n)%nat.

Lemma take_page_step {T} (l : list T) i ps : take (i + ps) l = take i l ++ take ps (drop i l).
Proof. by rewrite take_take_drop. Qed.

Lemma divide_lt_add ps i m : 
  (ps ≠ 0)%nat → (ps | i)%nat → (ps | m)%nat → (i < m)%nat → (i + ps ≤ m)%nat.
Proof.
  intros Hps [a ->] [b ->] Hlt. apply Nat.mul_lt_mono_pos_r in Hlt; [|lia].
  rewrite <-Nat.mul_succ_l. by apply Nat.mul_le_mono_r.
Qed.

Lemma is_match_stop ps l k n :
  (n ≤ length l)%nat → (n ≤ length k)%nat → (ps | n)%nat → take n l = take n k →
  (∀ m, (n < m)%nat → (ps | m)%nat → (m ≤ length l)%nat → (m ≤ length k)%nat → take m l ≠ take m k) →
  is_match ps l k n.
Proof.
  intros ???? Hmax. split_and!; [done..|]. intros m ????.
  destruct (decide (m ≤ n)%nat); [done|]. exfalso. eapply (Hmax m); [lia|done..].
Qed.

Lemma key_match_loop_spec ps t0 t1 fuel i :
  (ps ≠ 0)%nat → (ps | length t0)%nat → (ps | length t1)%nat → (ps | i)%nat →
  (i ≤ Nat.min (length t0) (length t1))%nat → take i t0 = take i t1 →
  (Nat.min (length t0) (length t1) - i < fuel)%nat →
  ∃ n, key_match_loop fuel ps (Nat.min (length t0) (length t1)) t0 t1 i = Ok n ∧ is_match ps t0 t1 n.
Proof.
  intros Hps Hd0 Hd1. revert i. induction fuel as [|fuel IH]; intros i Hdi Hi Heq Hf; [lia|].
  cbn [key_match_loop]. case_decide as Hlt.
  2: { exists i. split; [done|]. apply is_match_stop; [lia|lia|done|done|]. intros; lia. }
  pose proof (divide_lt_add ps i _ Hps Hdi Hd0 ltac:(lia)).
  pose proof (divide_lt_add ps i _ Hps Hdi Hd1 ltac:(lia)).
  case_decide as Hpage.
  - apply IH; [by apply Nat.divide_add_r, Nat.divide_refl | lia | | lia].
    by rewrite !take_page_step, Heq, Hpage.
  - exists i. split; [done|]. apply is_match_stop; [lia|lia|done|done|].
    intros m Him Hdm Hm0 Hm1 Hm. apply Hpage.
    pose proof (divide_lt_add ps i m Hps Hdi Hdm Him).
    assert (take (i + ps) t0 = take (i + ps) t1) as Hp.
    { apply (f_equal (take (i + ps))) in Hm. rewrite !take_take in Hm.
      by rewrite !Nat.min_l in Hm by lia. }
    rewrite !take_page_step, Heq in Hp. by apply app_inv_head in Hp.
Qed.

Lemma key_match_fn_spec cfg k0 k1 :
  page_size cfg ≠ 0%nat → extra_key k0 = extra_key k1 →
  (page_size cfg | klen k0)%nat → (page_size cfg | klen k1)%nat →
  ∃ n, key_match_fn cfg k0 k1 = Ok n ∧ is_match (page_size cfg) (token_ids k0) (token_ids k1) n.
Proof.
  intros Hps He Hd0 Hd1. unfold key_match_fn, _key_match_page_size1, _key_match_paged, _check_extra_key.
  rewrite bool_decide_eq_true_2 by done. cbn [guard_raise negb res_bind].
  case_decide as Hp1.
  - rewrite Hp1. eexists. split; [done|]. set (n := common_prefix _ _).
    pose proof (common_prefix_le (token_ids k0) (token_ids k1)).
    split_and!; [lia|lia|apply Nat.divide_1_l|apply common_prefix_take|].
    intros m ????. by apply common_prefix_max.
  - apply key_match_loop_spec; try done; [apply Nat.divide_0_r|lia|unfold klen; lia].
Qed.

(** Aligned keys are filed under the same child key exactly when their extra
    keys and their first pages agree. *)
Lemma get_child_key_ok k ps : klen k ≠ 0%nat → ∃ ck, get_child_key k ps = Ok ck ∧ ck.1 = extra_key k.
Proof.
  intros Hk. unfold get_child_key. case_decide; cbn; [|eauto].
  unfold klen in *. destruct (token_ids k); cbn in *; [done|eauto].
Qed.

Lemma get_child_key_inj k0 k1 ps ck :
  get_child_key k0 ps = Ok ck → get_child_key k1 ps = Ok ck →
  extra_key k0 = extra_key k1 ∧ take ps (token_ids k0) = take ps (token_ids k1).
Proof.
  unfold get_child_key. case_decide; intros; inv_ok; simplify_eq/=; [|naive_solver].
  split; [congruence|]. destruct (token_ids k0), (token_ids k1); naive_solver.
Qed.

Lemma get_child_key_ext k0 k1 ps :
  extra_key k0 = extra_key k1 → take ps (token_ids k0) = take ps (token_ids k1) →
  get_child_key k0 ps = get_child_key k1 ps.
Proof.
  intros He Ht. unfold get_child_key. rewrite He, Ht. case_decide as Hp; [|done]. subst.
  destruct (token_ids k0), (token_ids k1); cbn in *; congruence.
Qed.

(** ** Consequences of the invariant *)
Section wf_facts.
Context {ps : nat} {G : ghost} {W : views} {ctr r : nat} (Hwf : wf ps G W ctr r).
Implicit Types (n c p m : nat) (g : list token * list Z).

Lemma wf_live_view n : is_Some (G !! n) → is_Some (W !! n).
Proof.
  intros Hn. destruct (decide (n = r)) as [->|Hr].
  - destruct (wf_root Hwf) as (v & -> & _). eauto.
  - destruct (wf_node Hwf n Hn Hr) as (v & ? & ? & ? & ? & ? & -> & _). eauto.
Qed.

Lemma wf_ctr_fresh : G !! ctr = None ∧ W !! ctr = None.
Proof.
  assert (W !! ctr = None) as Hw.
  { destruct (W !! ctr) eqn:E; [|done].
    pose proof (wf_fresh Hwf ctr ltac:(eauto)). lia. }
  split; [|done]. destruct (G !! ctr) eqn:E; [|done].
  destruct (wf_live_view ctr); [eauto|congruence].
Qed.

Lemma wf_linked n v g : G !! n = Some g → W !! n = Some v → n ≠ r →
  ∃ pid pv pg vs, linked ps G W r n v pid pv g pg vs.
Proof.
  intros Hg Hv Hr. destruct (wf_node Hwf n ltac:(eauto) Hr)
    as (v' & pid & pv & g' & pg & vs & ? & Hl).
  pose proof (lk_ghost Hl). simplify_eq. eauto.
Qed.

Lemma wf_child n v ck c : is_Some (G !! n) → W !! n = Some v → dict_get ck (vch v) = Some c →
  c ≠ r ∧ ∃ cv g pg vs, W !! c = Some cv ∧ linked ps G W r c cv n v g pg vs ∧
    get_child_key (vkey cv) ps = Ok ck.
Proof.
  intros Hn Hv Hck%dict_get_Some_elem.
  destruct (wf_children Hwf n v Hn Hv) as [_ Hch].
  destruct (Hch _ _ Hck) as ([g Hg] & cv & Hcv & Hpar & Hk).
  assert (c ≠ r) as Hr.
  { intros ->. destruct (wf_root Hwf) as (? & ? & _ & ? & _). congruence. }
  split; [done|]. destruct (wf_linked c cv g Hg Hcv Hr) as (pid & pv & pg & vs & Hl).
  pose proof (lk_par Hl). pose proof (lk_pview Hl).
  simplify_eq. eauto 10.
Qed.

(** Two nodes below one parent that agree beyond it are one node. *)
Lemma child_unique p c1 c2 v1 v2 pv g1 g2 pg vs1 vs2 n :
  linked ps G W r c1 v1 p pv g1 pg vs1 → linked ps G W r c2 v2 p pv g2 pg vs2 →
  extra_key (vkey v1) = extra_key (vkey v2) → (ps | n)%nat →
  take (length pg.1 + n) g1.1 = take (length pg.1 + n) g2.1 → n ≠ 0%nat → c1 = c2.
Proof.
  intros H1 H2 He [a ->] Ht Hn.
  rewrite (lk_toks H1), (lk_toks H2) in Ht.
  rewrite !take_app_add' in Ht by done. apply app_inv_head in Ht.
  apply (f_equal (take ps)) in Ht. rewrite !take_take, !Nat.min_l in Ht by (destruct a; lia).
  destruct (lk_child H1) as (k1 & Hk1 & Hd1).
  destruct (lk_child H2) as (k2 & Hk2 & Hd2).
  rewrite (get_child_key_ext _ _ ps He Ht) in Hk1. congruence.
Qed.

(** ** Ancestors

    [anc n m]: [n] is [m] or lies on the way from [m] to the root. *)
Inductive anc : nat → nat → Prop :=
  | anc_refl n : is_Some (G !! n) → anc n n
  | anc_step n p c cv pv g pg vs :
      anc n p → W !! c = Some cv → c ≠ r → linked ps G W r c cv p pv g pg vs → anc n c.

Lemma anc_trans n m k : anc n m → anc m k → anc n k.
Proof. intros H1 H2. induction H2; [done|]. eapply anc_step; [by apply IHanc|eauto..]. Qed.

(** A strict descendant is below one of the node's children. *)
Lemma anc_child n m : anc n m → n = m ∨ ∃ c cv pv g pg vs,
  W !! c = Some cv ∧ c ≠ r ∧ linked ps G W r c cv n pv g pg vs ∧ anc c m.
Proof.
  induction 1 as [n Hn|n p c cv pv g pg vs Hnp IH Hcv Hr Hl]; [by left|]. right.
  destruct IH as [->|(c' & cv' & pv' & g' & pg' & vs' & ? & ? & ? & ?)].
  - exists c, cv, pv, g, pg, vs. split_and!; try done. constructor. rewrite (lk_ghost Hl). eauto.
  - exists c', cv', pv', g', pg', vs'. split_and!; try done. eapply (anc_step _ p); eauto.
Qed.

Lemma anc_prefix n m gn gm : anc n m → G !! n = Some gn → G !! m = Some gm →
  gn.1 `prefix_of` gm.1 ∧ gn.2 `prefix_of` gm.2 ∧ (n ≠ m → length gn.1 < length gm.1)%nat.
Proof.
  intros H Hgn. revert gm. induction H as [n Hn|n p c cv pv g pg vs Hnp IH Hcv Hr Hl]; intros gm Hgm.
  - simplify_eq. done.
  - pose proof (lk_ghost Hl). simplify_eq.
    destruct (IH Hgn pg (lk_pghost Hl)) as (Hp1 & Hp2 & _).
    rewrite (lk_toks Hl), (lk_idxs Hl). split_and!; [by apply prefix_app_r..|].
    intros _. apply prefix_length in Hp1. rewrite length_app.
    pose proof (lk_nonempty Hl) as Hne. unfold klen in Hne. lia.
Qed.

Lemma wf_path n g : G !! n = Some g →
  length g.1 = length g.2 ∧ (ps | length g.1)%nat ∧ (n ≠ r → g.1 ≠ []) ∧ anc r n.
Proof.
  remember (length g.1) as k eqn:Hk. revert n g Hk.
  induction (lt_wf k) as [k _ IH]; intros n g -> Hg.
  destruct (decide (n = r)) as [->|Hr].
  - destruct (wf_root Hwf) as (v & _ & Hg' & _). simplify_eq/=.
    split_and!; [done|apply Nat.divide_0_r|done|by constructor].
  - destruct (wf_live_view n ltac:(eauto)) as [v Hv].
    destruct (wf_linked n v g Hg Hv Hr) as (p & pv & pg & vs & Hl).
    pose proof (lk_nonempty Hl) as Hne. unfold klen in Hne.
    rewrite (lk_toks Hl), (lk_idxs Hl) in *. rewrite !length_app in *.
    destruct (IH (length pg.1) ltac:(lia) p pg eq_refl (lk_pghost Hl)) as (He & Hd & _ & Ha).
    rewrite He, (lk_len Hl). unfold klen. split_and!; [done| | |].
    + rewrite <-He. apply Nat.divide_add_r; [done|]. apply (lk_aligned Hl).
    + intros _ Hnil. apply (f_equal length) in Hnil. rewrite length_app in Hnil. cbn in Hnil. lia.
    + by eapply anc_step.
Qed.

Lemma path_nil_root n g : G !! n = Some g → g.1 = [] → n = r.
Proof.
  intros Hg Hnil. destruct (decide (n = r)) as [|Hr]; [done|].
  destruct (wf_path n g Hg) as (_ & _ & Hn & _). by destruct (Hn Hr).
Qed.

(** The node [n] may have entries of [m]'s namespace below it. *)
Definition compat n (e : option string) : Prop :=
  n = r ∨ ∃ v, W !! n = Some v ∧ extra_key (vkey v) = e.

Lemma linked_below c cv p pv g pg vs : linked ps G W r c cv p pv g pg vs →
  (length pg.1 + ps ≤ length g.1)%nat ∧ g.1 = pg.1 ++ token_ids (vkey cv) ∧
  take (length pg.1) g.1 = pg.1.
Proof.
  intros Hl. rewrite (lk_toks Hl). rewrite length_app, take_app_length.
  destruct (lk_aligned Hl) as [a Ha]. pose proof (lk_nonempty Hl) as Hne. unfold klen in *.
  split_and!; [|done..]. rewrite Ha. destruct a; lia.
Qed.

Lemma linked_ne c cv p pv g pg vs : linked ps G W r c cv p pv g pg vs → c ≠ ctr ∧ p ≠ ctr ∧ p ≠ c.
Proof.
  intros Hl. destruct wf_ctr_fresh as [HG HW]. pose proof (lk_ghost Hl). pose proof (lk_pghost Hl).
  split_and!; [congruence..|]. intros ->.
  destruct (linked_below _ _ _ _ _ _ _ Hl) as (Hb & _). pose proof (wf_page Hwf). simplify_eq. lia.
Qed.

Lemma prefix_take_eq {T} (l k : list T) : l `prefix_of` k → take (length l) k = l.
Proof. intros [x ->]. by rewrite take_app_length. Qed.
Lemma take_prefix {T} (l k : list T) : take (length l) k = l → l `prefix_of` k.
Proof. intros <-. apply prefix_take. Qed.

(** Below a node there is room for one child per first page: a child that lies
    on the way to a node which agrees with a sibling beyond the parent is that
    sibling. *)
Lemma child_on_path p c1 c2 v1 v2 pv pv' g1 g2 pg pg' vs1 vs2 (m : list token) :
  linked ps G W r c1 v1 p pv g1 pg vs1 → linked ps G W r c2 v2 p pv' g2 pg' vs2 →
  extra_key (vkey v1) = extra_key (vkey v2) →
  g1.1 `prefix_of` m → (length pg.1 < length m)%nat →
  take (length pg.1 + ps) m `prefix_of` g2.1 → c1 = c2.
Proof.
  intros H1 H2 He Hm Hlt Ht.
  pose proof (lk_pview H1). pose proof (lk_pghost H1). pose proof (lk_pview H2). pose proof (lk_pghost H2).
  simplify_eq. eapply (child_unique p c1 c2 _ _ _ _ _ _ _ _ ps H1 H2 He); [done| |apply (wf_page Hwf)].
  destruct (linked_below _ _ _ _ _ _ _ H1) as (Hlen & _).
  destruct Hm as [x ->]. rewrite take_app_le in Ht by lia.
  apply prefix_take_eq in Ht. by rewrite length_take_le in Ht by lia.
Qed.

Lemma wf_extra n v m : anc n m → n ≠ r → W !! n = Some v → ∃ mv, W !! m = Some mv ∧
  extra_key (vkey mv) = extra_key (vkey v).
Proof.
  intros H Hr Hv. induction H as [|n p c cv pv g pg vs Hnp IH Hcv Hr' Hl]; [eauto|].
  destruct (IH Hr Hv) as (mv & Hmv & He). pose proof (lk_pview Hl). simplify_eq.
  exists cv. split; [done|]. rewrite <-He. symmetry. apply (lk_extra Hl).
  intros ->. destruct (G !! n) as [gn|] eqn:Hgn.
  - destruct (anc_prefix _ _ _ _ Hnp Hgn (lk_pghost Hl)) as (Hp & _).
    destruct (wf_root Hwf) as (? & _ & Hg & _). pose proof (lk_pghost Hl). simplify_eq/=.
    apply Hr, (path_nil_root n gn Hgn). by apply prefix_nil_inv.
  - clear -Hnp Hgn. induction Hnp; [|done]. rewrite Hgn in *. by destruct H.
Qed.

(** Paths determine the tree: a node whose path is a prefix of another's, in
    the same namespace, is its ancestor. *)
Lemma prefix_anc n m gn gm mv :
  G !! n = Some gn → G !! m = Some gm → W !! m = Some mv → compat n (extra_key (vkey mv)) →
  gn.1 `prefix_of` gm.1 → anc n m.
Proof.
  remember (length gn.1 + length gm.1)%nat as k eqn:Hk. revert n m gn gm mv Hk.
  induction (lt_wf k) as [k _ IH]; intros n m gn gm mv -> Hn Hm Hmv Hc Hp.
  destruct (decide (m = r)) as [->|Hr].
  { destruct (wf_root Hwf) as (? & _ & ? & _). simplify_eq/=.
    rewrite (path_nil_root n gn Hn) by (by apply prefix_nil_inv). constructor. eauto. }
  destruct (wf_linked m mv gm Hm Hmv Hr) as (p & pv & pg & vs & Hl).
  destruct (linked_below _ _ _ _ _ _ _ Hl) as (Hlen & Hgm & _).
  pose proof (wf_page Hwf) as Hps.
  destruct (decide (length gn.1 ≤ length pg.1)%nat) as [Hle|Hgt].
  - eapply anc_step; [|eauto..].
    assert (gn.1 `prefix_of` pg.1) as Hnp.
    { rewrite Hgm in Hp. destruct Hp as [x Hx]. apply take_prefix.
      apply (f_equal (take (length gn.1))) in Hx. rewrite take_app_length in Hx.
      by rewrite take_app_le in Hx. }
    eapply (IH (length gn.1 + length pg.1)%nat); [lia|done|done|apply (lk_pghost Hl)|apply (lk_pview Hl)| |done].
    destruct Hc as [->|(v & Hv & He)]; [by left|].
    destruct (decide (p = r)) as [->|Hpr]; [left|right; exists v; rewrite (lk_extra Hl); eauto].
    destruct (wf_root Hwf) as (? & _ & Hg & _). pose proof (lk_pghost Hl). simplify_eq/=.
    eapply path_nil_root; [done|]. by apply prefix_nil_inv.
  - assert (pg.1 `prefix_of` gn.1) as Hpn.
    { destruct (prefix_weak_total pg.1 gn.1 gm.1) as [|Hx]; [by rewrite Hgm; apply prefix_app_r|done|done|].
      apply prefix_length in Hx. lia. }
    assert (n ≠ r) as Hnr.
    { intros ->. destruct (wf_root Hwf) as (? & _ & ? & _). simplify_eq/=. lia. }
    destruct Hc as [?|(v & Hv & He)]; [done|].
    assert (anc p n) as Hpa.
    { eapply (IH (length pg.1 + length gn.1)%nat); [lia|done|apply (lk_pghost Hl)|done|done| |done].
      destruct (decide (p = r)) as [->|Hpr]; [by left|right]. exists pv.
      split; [apply (lk_pview Hl)|]. rewrite (lk_extra Hl); congruence. }
    destruct (anc_child _ _ Hpa) as [->|(c & cv & pv' & g' & pg' & vs' & Hcv & Hcr & Hcl & Hcn)].
    { pose proof (lk_pghost Hl). exfalso. simplify_eq; lia. }
    destruct (anc_prefix _ _ _ _ Hcn (lk_ghost Hcl) Hn) as (Hcp & _ & _).
    destruct (wf_extra _ _ _ Hcn Hcr Hcv) as (v' & Hv' & He'). simplify_eq.
    assert (c = m) as ->.
    { pose proof (lk_pghost Hl). pose proof (lk_pghost Hcl). simplify_eq.
      eapply (child_on_path p c m _ _ _ _ _ _ _ _ _ _ gn.1 Hcl Hl); [congruence|done|lia|].
      etrans; [apply prefix_take|done]. }
    destruct (decide (n = m)) as [->|Hnm]; [constructor; eauto|].
    destruct (anc_prefix _ _ _ _ Hcn Hm Hn) as (_ & _ & Hs).
    apply prefix_length in Hp. specialize (Hs ltac:(done)). lia.
Qed.

(** The node reached on the way to [m] at or after position [k]. *)
Lemma cut_node m mv gm (k : nat) :
  G !! m = Some gm → W !! m = Some mv → m ≠ r → (0 < k ≤ length gm.1)%nat →
  ∃ c cv p pv g pg vs, W !! c = Some cv ∧ c ≠ r ∧ linked ps G W r c cv p pv g pg vs ∧ anc c m ∧
    (length pg.1 < k ≤ length g.1)%nat ∧ extra_key (vkey cv) = extra_key (vkey mv).
Proof.
  remember (length gm.1) as n eqn:Hn. revert m mv gm Hn.
  induction (lt_wf n) as [n _ IH]; intros m mv gm -> Hm Hmv Hr Hk.
  destruct (wf_linked m mv gm Hm Hmv Hr) as (p & pv & pg & vs & Hl).
  destruct (linked_below _ _ _ _ _ _ _ Hl) as (Hlen & _ & _).
  pose proof (wf_page Hwf) as Hps.
  destruct (decide (length pg.1 < k)%nat) as [Hlt|Hge].
  { exists m, mv, p, pv, gm, pg, vs. split_and!; try done || lia. constructor. eauto. }
  assert (p ≠ r) as Hpr.
  { intros ->. destruct (wf_root Hwf) as (? & _ & ? & _). pose proof (lk_pghost Hl). simplify_eq/=. lia. }
  destruct (IH (length pg.1) ltac:(lia) p pv pg eq_refl (lk_pghost Hl) (lk_pview Hl) Hpr ltac:(lia))
    as (c & cv & q & qv & g & qg & vs' & ? & ? & ? & Ha & ? & He).
  exists c, cv, q, qv, g, qg, vs'. split_and!; try done || lia.
  - by eapply anc_step.
  - rewrite He. apply (lk_extra Hl Hpr).
Qed.

(** The node that covers the end of a cached sequence. *)
Lemma cover_node m v g (toks : list token) :
  m ≠ r → W !! m = Some v → G !! m = Some g → toks `prefix_of` g.1 → toks ≠ [] →
  ∃ c cv p pv g' pg vs, W !! c = Some cv ∧ c ≠ r ∧
    linked ps G W r c cv p pv g' pg vs ∧ extra_key (vkey cv) = extra_key (vkey v) ∧
    (length pg.1 < length toks)%nat ∧ toks `prefix_of` g'.1 ∧
    take (length toks) g.2 = take (length toks) g'.2.
Proof.
  intros Hr Hv Hg Hp Hne. pose proof (prefix_length _ _ Hp) as Hlen.
  destruct (cut_node m v g (length toks) Hg Hv Hr)
    as (c & cv & p & pv & g' & pg & vs & Hcv & Hcr & Hl & Ha & Hk & Hex).
  { destruct toks; [done|cbn in *; lia]. }
  destruct (anc_prefix _ _ _ _ Ha (lk_ghost Hl) Hg) as (Hpt & Hpi & _).
  exists c, cv, p, pv, g', pg, vs. split_and!; try done || lia.
  - destruct (prefix_weak_total _ _ _ Hp Hpt) as [|Hx]; [done|].
    by rewrite (prefix_length_eq _ _ Hx) by lia.
  - destruct Hpi as [x ->]. rewrite take_app_le; [done|].
    rewrite <-(proj1 (wf_path c g' (lk_ghost Hl))). lia.
Qed.

Lemma prefix_through {T} (a b l : list T) :
  a `prefix_of` l → b `prefix_of` l → (length a ≤ length b)%nat → a `prefix_of` b.
Proof.
  intros Ha Hb Hle. destruct (prefix_weak_total _ _ _ Ha Hb) as [|Hx]; [done|].
  by rewrite (prefix_length_eq _ _ Hx) by lia.
Qed.

Lemma cover_unique c1 c2 v1 v2 p1 p2 pv1 pv2 g1 g2 pg1 pg2 vs1 vs2 (toks : list token) :
  linked ps G W r c1 v1 p1 pv1 g1 pg1 vs1 → linked ps G W r c2 v2 p2 pv2 g2 pg2 vs2 →
  extra_key (vkey v1) = extra_key (vkey v2) → W !! c1 = Some v1 → (ps | length toks)%nat →
  toks `prefix_of` g1.1 → toks `prefix_of` g2.1 →
  (length pg1.1 ≤ length pg2.1)%nat → (length pg2.1 < length toks)%nat → c1 = c2.
Proof.
  intros H1 H2 He Hv1 Hd Ht1 Ht2 Hle Hlt.
  destruct (linked_below _ _ _ _ _ _ _ H1) as (_ & Hg1 & _).
  destruct (linked_below _ _ _ _ _ _ _ H2) as (_ & Hg2 & _).
  assert (pg1.1 `prefix_of` toks) as Hp1.
  { apply (prefix_through _ _ g1.1); [rewrite Hg1; by apply prefix_app_r|done|lia]. }
  assert (pg2.1 `prefix_of` toks) as Hp2.
  { apply (prefix_through _ _ g2.1); [rewrite Hg2; by apply prefix_app_r|done|lia]. }
  assert (anc p1 p2) as Ha.
  { eapply prefix_anc; [apply (lk_pghost H1)|apply (lk_pghost H2)|apply (lk_pview H2)| |].
    - destruct (decide (p1 = r)) as [|Hr1]; [by left|right]. exists pv1. split; [apply (lk_pview H1)|].
      rewrite (lk_extra H1 Hr1), He. symmetry. apply (lk_extra H2). intros ->.
      destruct (wf_root Hwf) as (? & _ & ? & _). pose proof (lk_pghost H2). simplify_eq/=.
      apply Hr1, (path_nil_root _ _ (lk_pghost H1)), nil_length_inv. lia.
    - by apply (prefix_through _ _ toks). }
  destruct (anc_child _ _ Ha) as [->|(c & cv & pv' & g' & pg' & vs' & Hcv & Hcr & Hcl & Hcn)].
  - assert (pg1 = pg2) as -> by (pose proof (lk_pghost H1); pose proof (lk_pghost H2); congruence).
    eapply (child_on_path p2 c1 c2 _ _ _ _ _ _ _ _ _ _ g1.1 H1 H2 He); [done| |].
    + apply prefix_length in Ht1. lia.
    + pose proof (divide_lt_add ps (length pg2.1) (length toks) (wf_page Hwf)
        (proj1 (proj2 (wf_path _ _ (lk_pghost H2)))) Hd Hlt).
      etrans; [|exact Ht2]. destruct Ht1 as [x ->]. rewrite take_app_le by lia. apply prefix_take.
  - assert (pg' = pg1) as -> by (pose proof (lk_pghost H1); pose proof (lk_pghost Hcl); congruence).
    destruct (anc_prefix _ _ _ _ Hcn (lk_ghost Hcl) (lk_pghost H2)) as (Hcp & _).
    destruct (wf_extra _ _ _ Hcn Hcr Hcv) as (mv & Hmv & Hme). pose proof (lk_pview H2). simplify_eq.
    destruct (linked_below _ _ _ _ _ _ _ Hcl) as (Hb & _). pose proof (wf_page Hwf).
    assert (c = c1) as ->.
    { eapply (child_on_path p1 c c1 _ _ _ _ _ _ _ _ _ _ pg2.1 Hcl H1); [|done| |].
      - rewrite <-Hme, He. apply (lk_extra H2). intros ->.
        destruct (wf_root Hwf) as (? & _ & ? & _). pose proof (lk_pghost H2). simplify_eq/=.
        apply prefix_nil_inv in Hcp. rewrite Hcp in Hb. cbn in Hb. lia.
      - apply prefix_length in Hcp. lia.
      - etrans; [apply prefix_take|]. by etrans. }
    pose proof (lk_ghost Hcl). pose proof (lk_ghost H1). simplify_eq.
    apply prefix_length in Hcp, Ht1. lia.
Qed.

(** A lookup finds one list of indices. *)
Lemma Cached_functional e toks i1 i2 :
  Cached ps G W r e toks i1 → Cached ps G W r e toks i2 → i1 = i2.
Proof.
  intros (m1 & v1 & g1 & Hr1 & Hv1 & Hg1 & He1 & Hp1 & Hd & ->)
         (m2 & v2 & g2 & Hr2 & Hv2 & Hg2 & He2 & Hp2 & _ & ->).
  destruct (decide (toks = [])) as [->|Hne]; [done|].
  destruct (cover_node m1 v1 g1 toks Hr1 Hv1 Hg1 Hp1 Hne)
    as (c1 & w1 & p1 & q1 & h1 & ph1 & vs1 & Hw1 & _ & Hl1 & He1' & Hk1 & Ht1 & ->).
  destruct (cover_node m2 v2 g2 toks Hr2 Hv2 Hg2 Hp2 Hne)
    as (c2 & w2 & p2 & q2 & h2 & ph2 & vs2 & Hw2 & _ & Hl2 & He2' & Hk2 & Ht2 & ->).
  assert (c1 = c2) as ->.
  { destruct (decide (length ph1.1 ≤ length ph2.1)%nat).
    - eapply (cover_unique c1 c2); eauto; congruence.
    - symmetry. eapply (cover_unique c2 c1); eauto; [congruence|lia]. }
  pose proof (lk_ghost Hl1). pose proof (lk_ghost Hl2). by simplify_eq.
Qed.

(** If a lookup of [gn ++ K] can go further than the node [n] with path [gn],
    [n] has a child under the key of [K]. *)
Lemma child_on_way n gn K e toks idxs :
  G !! n = Some gn → compat n e → Cached ps G W r e toks idxs →
  toks `prefix_of` gn.1 ++ K → (length gn.1 < length toks)%nat →
  ∃ c cv pv g vs, W !! c = Some cv ∧ c ≠ r ∧ linked ps G W r c cv n pv g gn vs ∧
    extra_key (vkey cv) = e ∧ get_child_key (vkey cv) ps = get_child_key (mkKey K e) ps ∧
    (toks `prefix_of` g.1 ∨ g.1 `prefix_of` toks).
Proof.
  intros Hgn Hc (m & mv & gm & Hr & Hmv & Hgm & He & Hp & Hd & _) HK Hlt.
  assert (gn.1 `prefix_of` toks) as Hnt.
  { apply (prefix_through _ _ (gn.1 ++ K)); [by apply prefix_app_r|done|lia]. }
  assert (anc n m) as Ha.
  { eapply prefix_anc; eauto; [by rewrite He|]. by etrans. }
  destruct (anc_child _ _ Ha) as [->|(c & cv & pv & g & pg & vs & Hcv & Hcr & Hl & Hcm)].
  { simplify_eq. apply prefix_length in Hp. lia. }
  assert (pg = gn) as -> by (pose proof (lk_pghost Hl); congruence).
  destruct (anc_prefix _ _ _ _ Hcm (lk_ghost Hl) Hgm) as (Hcp & _ & _).
  destruct (wf_extra _ _ _ Hcm Hcr Hcv) as (mv' & ? & He'). simplify_eq.
  exists c, cv, pv, g, vs. split_and!; try done || congruence; [|exact (prefix_weak_total _ _ _ Hp Hcp)].
  apply get_child_key_ext; [done|]. cbn.
  pose proof (divide_lt_add ps _ _ (wf_page Hwf) (proj1 (proj2 (wf_path _ _ Hgn))) Hd Hlt) as Hge.
  destruct (linked_below _ _ _ _ _ _ _ Hl) as (Hb & Hg & _).
  assert (take (length gn.1 + ps) g.1 = take (length gn.1 + ps) (gn.1 ++ K)) as Ht.
  { transitivity (take (length gn.1 + ps) gm.1).
    - destruct Hcp as [x ->]. by rewrite take_app_le.
    - transitivity (take (length gn.1 + ps) toks).
      + destruct Hp as [x ->]. by rewrite take_app_le.
      + destruct HK as [x ->]. by rewrite take_app_le. }
  rewrite Hg, !take_app_add' in Ht by done. by apply app_inv_head in Ht.
Qed.
End wf_facts.
