(* ===== verification/RadixSplit.v ===== *)
(** * The slots of a tree, and splitting a node

    The nodes of the tree store KV slots; with pages larger than one slot they
    store whole pages.  [_split_node] puts a new node between a node and its parent.
    On the views it changes three nodes; the invariant, the lock counts, the sizes
    and the cached content are unchanged.  The lemmas are about any views that differ
    as the code makes them differ; [split_node_spec] is the operation. *)

From stdpp Require Import gmultiset.
From S2P Require Import Prelude KVAllocator KVAllocatorProofs KVAllocatorSpec RadixTree RadixInv.

(** ** Whole pages *)
Definition whole (ps : nat) (vs : list Z) : Prop :=
  ∃ pgs, vs = pgs ≫= PagedAlloc.page_slots (Z.of_nat ps).

Lemma length_page_slots ps p : length (PagedAlloc.page_slots (Z.of_nat ps) p) = ps.
Proof. unfold PagedAlloc.page_slots. rewrite length_fmap, length_py_range. lia. Qed.

Lemma length_bind_page_slots ps pgs : length (pgs ≫= PagedAlloc.page_slots (Z.of_nat ps)) = (length pgs * ps)%nat.
Proof. induction pgs as [|p pgs IH]; [done|]. cbn. by rewrite length_app, length_page_slots, <-IH. Qed.

Lemma whole_nil ps : whole ps [].
Proof. by exists []. Qed.
Lemma whole_app ps l k : whole ps l → whole ps k → whole ps (l ++ k).
Proof. intros [a ->] [b ->]. exists (a ++ b). by rewrite bind_app. Qed.

Lemma whole_cut ps vs n : ps ≠ 0%nat → whole ps vs → (ps | n)%nat → whole ps (take n vs) ∧ whole ps (drop n vs).
Proof.
  intros Hps [pgs ->] [a ->]. split.
  - exists (take a pgs). revert a. induction pgs as [|p pgs IH]; intros [|a]; cbn; rewrite ?take_nil; try done.
    rewrite <-(length_page_slots ps p) at 1. rewrite take_app_add. f_equal. apply IH.
  - exists (drop a pgs). revert a. induction pgs as [|p pgs IH]; intros [|a]; cbn; rewrite ?drop_nil; try done.
    rewrite <-(length_page_slots ps p) at 1. rewrite drop_app_add. apply IH.
Qed.

(** Whole pages contain a slot with all slots of its page. *)
Lemma whole_closed ps vs s s' : ps ≠ 0%nat → whole ps vs → s ∈ vs →
  s' / Z.of_nat ps = s / Z.of_nat ps → s' ∈ vs.
Proof.
  intros Hps [pgs ->] Hs E. apply list_elem_of_bind in Hs as (p & Hs & Hp).
  apply list_elem_of_bind. exists p. split; [|done].
  apply elem_of_page_slots in Hs; [|lia]. apply elem_of_page_slots; [lia|]. congruence.
Qed.

Lemma pages_of_perm ps l k : l ≡ₚ k → pages_of ps l ≡ₚ pages_of ps k.
Proof.
  intros HP. apply NoDup_Permutation; [apply NoDup_torch_unique..|].
  intros p. rewrite !elem_of_pages_of. by setoid_rewrite HP.
Qed.

Lemma pages_of_app ps l k :
  (∀ x y, x ∈ l → y ∈ k → x / ps ≠ y / ps) → pages_of ps (l ++ k) ≡ₚ pages_of ps l ++ pages_of ps k.
Proof.
  intros Hd. apply NoDup_Permutation; [apply NoDup_torch_unique| |].
  - apply NoDup_app. split_and!; [apply NoDup_torch_unique| |apply NoDup_torch_unique].
    intros p (x & Hx & ->)%elem_of_pages_of (y & Hy & E)%elem_of_pages_of. by apply (Hd x y).
  - intros p. rewrite elem_of_app, !elem_of_pages_of. setoid_rewrite elem_of_app. naive_solver.
Qed.

(** Slots that are not in whole pages [vs] are on other pages. *)
Lemma whole_disjoint ps vs ws : ps ≠ 0%nat → whole ps vs → (∀ x, x ∈ vs → x ∉ (ws : list Z)) →
  ∀ x y, x ∈ vs → y ∈ ws → x / Z.of_nat ps ≠ y / Z.of_nat ps.
Proof. intros Hps Hw Hd x y Hx Hy E. apply (Hd y); [by eapply whole_closed|done]. Qed.

(** ** The slots of a tree *)
Definition node_vals (W : views) (n : nat) : list Z := default [] (W !! n ≫= vval).
Definition slots_of (W : views) (X : gset nat) : list Z := mjoin (node_vals W <$> elements X).

Lemma slots_of_insert W n X : n ∉ X → slots_of W ({[n]} ∪ X) ≡ₚ node_vals W n ++ slots_of W X.
Proof. intros Hn. unfold slots_of. by rewrite elements_union_singleton. Qed.
Lemma slots_of_delete W n X : n ∈ X → slots_of W X ≡ₚ node_vals W n ++ slots_of W (X ∖ {[n]}).
Proof.
  intros Hn. rewrite <-slots_of_insert by set_solver.
  assert ({[n]} ∪ X ∖ {[n]} = X) as ->; [|done]. apply set_eq. intros m. destruct (decide (m = n)); set_solver.
Qed.
Lemma slots_of_ext W W' X : (∀ n, n ∈ X → node_vals W n = node_vals W' n) → slots_of W X = slots_of W' X.
Proof.
  intros E. unfold slots_of. f_equal. apply list_fmap_ext. intros i n Hn%list_elem_of_lookup_2.
  apply E. by apply elem_of_elements.
Qed.
Lemma elem_of_slots_of W X s : s ∈ slots_of W X ↔ ∃ n, n ∈ X ∧ s ∈ node_vals W n.
Proof.
  unfold slots_of. rewrite list_elem_of_join. setoid_rewrite list_elem_of_fmap.
  split; [intros (l & ? & n & -> & Hn%elem_of_elements); eauto|].
  intros (n & Hn & Hs). eexists. split; [exact Hs|]. exists n. split; [done|]. by apply elem_of_elements.
Qed.

(** Every live node holds whole pages. *)
Definition all_whole (ps : nat) (G : ghost) (W : views) : Prop :=
  ∀ n, is_Some (G !! n) → whole ps (node_vals W n).

Section split_views.
Context {ps : nat} {G : ghost} {W : views} {ctr r : nat} (Hwf : wf ps G W ctr r).
Context {c p : nat} {cv pv : nview} {g pg : list token * list Z} {vs : list Z}.
Context (Hcv : W !! c = Some cv) (Hcr : c ≠ r) (Hl : linked ps G W r c cv p pv g pg vs).
Context {s : nat} (Hs0 : s ≠ 0%nat) (Hs : (s < klen (vkey cv))%nat) (Hsd : (ps | s)%nat).
Context {ck ck' : child_key} (Hck : get_child_key (key_from (vkey cv) s) ps = Ok ck)
        (Hck' : get_child_key (vkey cv) ps = Ok ck').
Context {W' : views}.
Let nv := mkView [(ck, c)] (Some p) (key_upto (vkey cv) s) (Some (take s vs)) (vlock cv).
Let cv' := mkView (vch cv) (Some ctr) (key_from (vkey cv) s) (Some (drop s vs)) (vlock cv).
Let pv' := mkView (dict_set ck' ctr (vch pv)) (vpar pv) (vkey pv) (vval pv) (vlock pv).
Let G' : ghost := <[ctr := (pg.1 ++ take s (token_ids (vkey cv)), pg.2 ++ take s vs)]> G.
Context (Hnew : W' !! ctr = Some nv) (Hc' : W' !! c = Some cv') (Hp' : W' !! p = Some pv')
        (Hother : ∀ n, n ≠ ctr → n ≠ c → n ≠ p → W' !! n = W !! n).

Lemma split_ne : c ≠ ctr ∧ p ≠ ctr ∧ p ≠ c.
Proof. exact (linked_ne Hwf _ _ _ _ _ _ _ Hl). Qed.

Lemma split_page : (ps ≤ s)%nat.
Proof. destruct Hsd as [a ->]. destruct a; lia. Qed.

Lemma split_ghost n : n ≠ ctr → G' !! n = G !! n.
Proof. intros. unfold G'. by rewrite lookup_insert_ne. Qed.

Lemma split_ghost_new : G' !! ctr = Some (pg.1 ++ take s (token_ids (vkey cv)), pg.2 ++ take s vs).
Proof. unfold G'. by rewrite lookup_insert_eq. Qed.

(** What is kept of the views of the nodes that were there. *)
Lemma split_view n v : W !! n = Some v → ∃ v', W' !! n = Some v' ∧ vlock v' = vlock v ∧
  extra_key (vkey v') = extra_key (vkey v) ∧
  (n ≠ c → vkey v' = vkey v ∧ vpar v' = vpar v ∧ vval v' = vval v) ∧ (n ≠ p → vch v' = vch v).
Proof.
  intros Hv. destruct split_ne as (? & ? & ?). destruct (wf_ctr_fresh Hwf) as [_ HW].
  destruct (decide (n = c)) as [->|].
  { exists cv'. rewrite Hcv in Hv. injection Hv as <-. by split_and!. }
  destruct (decide (n = p)) as [->|].
  { exists pv'. rewrite (lk_pview Hl) in Hv. injection Hv as <-. by split_and!. }
  exists v. rewrite Hother by congruence. by split_and!.
Qed.

Lemma split_child_get n k : n ≠ ctr → n ≠ c → dict_get k (vch pv) = Some n →
  dict_get k (vch pv') = Some n.
Proof.
  intros ? Hnc Hk. unfold pv'. cbn. rewrite dict_get_set_ne; [done|]. intros ->.
  destruct (lk_child Hl) as (k' & Hk' & Hd'). congruence.
Qed.

Lemma split_linked n v q qv gn gq ws : n ≠ c → W !! n = Some v → linked ps G W r n v q qv gn gq ws →
  ∃ v' qv', W' !! n = Some v' ∧ linked ps G' W' r n v' q qv' gn gq ws.
Proof.
  intros Hnc Hv Hln. destruct (wf_ctr_fresh Hwf) as [HG HW].
  destruct (split_view n v Hv) as (v' & Hv' & _ & _ & Hsame & _).
  destruct (Hsame Hnc) as (Ek & Ep & Ev).
  destruct (split_view q qv (lk_pview Hln)) as (qv' & Hqv' & _ & Eq & _ & Hch).
  exists v', qv'. split; [done|]. pose proof (lk_ghost Hln). pose proof (lk_pghost Hln).
  pose proof (lk_pview Hl) as Hpv.
  destruct Hln as [? Hqv ? ? ? ? ? ? ? ? Hex (k & Hk & Hd)].
  constructor; rewrite ?Ek, ?Ep, ?Ev, ?split_ghost by congruence; try done.
  - intros. rewrite Eq. auto.
  - exists k. split; [done|]. destruct (decide (q = p)) as [->|]; [|by rewrite Hch].
    rewrite Hp' in Hqv'. injection Hqv' as <-. rewrite Hqv in Hpv. injection Hpv as ->.
    apply split_child_get; [congruence|done|done].
Qed.

Lemma split_linked_new : linked ps G' W' r ctr nv p pv'
  (pg.1 ++ take s (token_ids (vkey cv)), pg.2 ++ take s vs) pg (take s vs).
Proof.
  destruct split_ne as (? & ? & ?). pose proof split_page. unfold klen in *.
  constructor; cbn; try done.
  - apply split_ghost_new.
  - rewrite split_ghost by done. apply (lk_pghost Hl).
  - unfold klen, key_upto; cbn. rewrite !length_take. by rewrite (lk_len Hl).
  - unfold klen, key_upto; cbn. rewrite length_take. lia.
  - unfold klen, key_upto; cbn. by rewrite length_take_le by lia.
  - apply (lk_extra Hl).
  - exists ck'. rewrite dict_get_set_eq. split; [|done]. rewrite <-Hck'.
    apply get_child_key_ext; cbn; [done|]. rewrite take_take. f_equal. lia.
Qed.

Lemma split_linked_child : linked ps G' W' r c cv' ctr nv g
  (pg.1 ++ take s (token_ids (vkey cv)), pg.2 ++ take s vs) (drop s vs).
Proof.
  destruct split_ne as (? & ? & ?). unfold klen in *. constructor; cbn; try done.
  - rewrite split_ghost by done. apply (lk_ghost Hl).
  - apply split_ghost_new.
  - unfold klen; cbn. rewrite !length_drop. by rewrite (lk_len Hl).
  - by rewrite <-app_assoc, take_drop, (lk_toks Hl).
  - by rewrite <-app_assoc, take_drop, (lk_idxs Hl).
  - unfold klen; cbn. rewrite length_drop. lia.
  - unfold klen; cbn. rewrite length_drop. apply Nat.divide_sub_r; [apply (lk_aligned Hl)|done].
  - exists ck. split; [done|]. by rewrite decide_True.
Qed.

Lemma split_wf : wf ps G' W' (S ctr) r.
Proof.
  destruct split_ne as (Hcc & Hpc & Hcp). destruct (wf_ctr_fresh Hwf) as [HG HW].
  assert (r ≠ ctr) as Hrc by (destruct (wf_root Hwf) as (? & ? & _); congruence).
  constructor.
  - apply (wf_page Hwf).
  - destruct (wf_root Hwf) as (v & Hv & Hg & Hpar & Hk & Hval).
    destruct (split_view r v Hv) as (v' & Hv' & _ & _ & Hsame & _).
    destruct (Hsame ltac:(done)) as (Ek & Ep & Ev). exists v'.
    rewrite split_ghost, Ek, Ep, Ev by done. done.
  - intros n Hn Hr. destruct (decide (n = ctr)) as [->|Hnn].
    { exists nv. do 5 eexists. split; [done|]. apply split_linked_new. }
    destruct (decide (n = c)) as [->|Hnc].
    { exists cv'. do 5 eexists. split; [done|]. apply split_linked_child. }
    rewrite split_ghost in Hn by done. destruct (wf_node Hwf n Hn Hr)
      as (v & q & qv & gn & gq & ws & Hv & Hln).
    destruct (split_linked n v q qv gn gq ws Hnc Hv Hln) as (v' & qv' & ? & ?). eauto 10.
  - intros n v' Hn Hv'. destruct (decide (n = ctr)) as [->|Hnn].
    { simplify_eq. cbn. split; [apply NoDup_singleton|]. intros ? ? ?%list_elem_of_singleton.
      simplify_eq. rewrite split_ghost by done. rewrite (lk_ghost Hl). eauto. }
    rewrite split_ghost in Hn by done. destruct (wf_live_view Hwf n Hn) as [v Hv].
    destruct (wf_children Hwf n v Hn Hv) as [Hnd Hch].
    destruct (split_view n v Hv) as (v'' & ? & _ & _ & _ & Hsame). simplify_eq.
    assert (∀ k d, (k, d) ∈ vch v → (n = p → k ≠ ck') → is_Some (G' !! d) ∧
      ∃ dv, W' !! d = Some dv ∧ vpar dv = Some n ∧ get_child_key (vkey dv) ps = Ok k) as Hold.
    { intros k d Hkd Hk. destruct (Hch k d Hkd) as (Hd & dv & Hdv & Hdp & Hdk).
      rewrite split_ghost by (intros ->; rewrite HG in Hd; by destruct Hd). split; [done|].
      assert (d ≠ c) as Hdc.
      { intros ->. simplify_eq. pose proof (lk_par Hl). apply Hk; congruence. }
      destruct (split_view d dv Hdv) as (dv' & ? & _ & _ & Hs' & _).
      destruct (Hs' Hdc) as (Ek & Ep & _). exists dv'. by rewrite Ek, Ep. }
    destruct (decide (n = p)) as [->|Hnp].
    + pose proof (lk_pview Hl). simplify_eq. cbn. split; [by apply dict_set_NoDup|].
      intros k d Hkd. apply elem_of_dict_set in Hkd as [[-> ->]|[Hk Hkd]]; [| |done].
      * rewrite split_ghost_new. split; [eauto|]. exists nv. split_and!; try done.
        rewrite <-Hck'. apply get_child_key_ext; cbn; [done|]. rewrite take_take. f_equal.
        pose proof split_page. lia.
      * by apply Hold.
    + rewrite Hsame by done. split; [done|]. intros k d Hkd. by apply Hold.
  - intros n [v Hv]. destruct (decide (n = ctr)) as [->|]; [lia|].
    destruct (decide (n = c)) as [->|]; [pose proof (wf_fresh Hwf c ltac:(eauto)); lia|].
    destruct (decide (n = p)) as [->|].
    { pose proof (wf_fresh Hwf p ltac:(rewrite (lk_pview Hl); eauto)). lia. }
    rewrite Hother in Hv by done. pose proof (wf_fresh Hwf n ltac:(eauto)). lia.
Qed.

Lemma split_extra n v v' : W !! n = Some v → W' !! n = Some v' → extra_key (vkey v') = extra_key (vkey v).
Proof. intros Hv Hv'. destruct (split_view n v Hv) as (v'' & ? & _ & He & _). by simplify_eq. Qed.

Lemma split_cached e toks idxs : Cached ps G' W' r e toks idxs ↔ Cached ps G W r e toks idxs.
Proof.
  destruct split_ne as (Hcc & Hpc & Hcp). split.
  - intros (n & v' & gn & Hr & Hv' & Hgn & He & Hp & Hd & ->).
    destruct (decide (n = ctr)) as [->|Hnn].
    + rewrite split_ghost_new in Hgn. simplify_eq/=.
      exists c, cv, g. split_and!; try done; [apply (lk_ghost Hl)| |].
      * etrans; [exact Hp|]. rewrite (lk_toks Hl). apply prefix_app, prefix_take.
      * rewrite (lk_idxs Hl). apply prefix_length in Hp. rewrite length_app, length_take in Hp.
        unfold klen in Hs. rewrite Nat.min_l in Hp by lia.
        pose proof (proj1 (wf_path Hwf _ _ (lk_pghost Hl))) as Hpl.
        rewrite <-(take_drop s vs) at 2. rewrite app_assoc.
        symmetry. apply take_app_le. rewrite length_app, length_take, (lk_len Hl), <-Hpl.
        unfold klen. lia.
    + rewrite split_ghost in Hgn by done. destruct (wf_live_view Hwf n ltac:(eauto)) as [v Hv].
      exists n, v, gn. split_and!; try done. rewrite <-He. symmetry. by apply (split_extra n).
  - intros (n & v & gn & Hr & Hv & Hgn & He & Hp & Hd & ->).
    destruct (split_view n v Hv) as (v' & Hv' & _ & He' & _).
    exists n, v', gn. rewrite split_ghost; [split_and!; congruence || done|].
    intros ->. destruct (wf_ctr_fresh Hwf). congruence.
Qed.

Lemma split_lock_of n : n ≠ ctr → lock_of W' n = lock_of W n.
Proof.
  intros Hn. unfold lock_of. destruct (W !! n) as [v|] eqn:Hv.
  - destruct (split_view n v Hv) as (v' & -> & E & _). exact E.
  - rewrite Hother, Hv; [done|done| |]; intros ->; pose proof (lk_pview Hl); congruence.
Qed.

Lemma split_locks_children n v : is_Some (G !! n) → W !! n = Some v →
  lock_of W' <$> (vch v).*2 = lock_of W <$> (vch v).*2.
Proof.
  intros Hn Hv. destruct (wf_children Hwf n v Hn Hv) as [_ Hch]. apply list_fmap_ext.
  intros i d Hd%list_elem_of_lookup_2. apply list_elem_of_fmap in Hd as ([k d'] & -> & Hkd).
  destruct (Hch k d' Hkd) as (Hd' & _). apply split_lock_of. cbn. intros ->.
  destruct (wf_ctr_fresh Hwf) as [HG _]. rewrite HG in Hd'. by destruct Hd'.
Qed.

Lemma split_locks L d : d ctr = 0 → locks_ok G L W r d → locks_ok G' L W' r d.
Proof.
  intros Hd0 Hlo. destruct split_ne as (Hcc & Hpc & Hcp). destruct (wf_ctr_fresh Hwf) as [HG HW].
  assert (r ≠ ctr) as Hrc by (destruct (wf_root Hwf) as (? & ? & _); congruence).
  assert (ctr ∉ L) as HL by (intros Hin; pose proof (lo_live Hlo _ Hin) as Hx; rewrite HG in Hx; by destruct Hx).
  assert (lock_of W' ctr = vlock cv) as Hln by (unfold lock_of; by rewrite Hnew).
  assert (lock_of W c = vlock cv) as Hlc by (unfold lock_of; by rewrite Hcv).
  constructor.
  - intros n Hn. rewrite split_ghost by congruence. by apply (lo_live Hlo).
  - rewrite split_lock_of by done. apply (lo_root Hlo).
  - intros n v' Hn Hr Hv'. destruct (decide (n = ctr)) as [->|Hnn].
    + rewrite Hnew in Hv'. injection Hv' as <-. cbn. rewrite split_lock_of, Hlc, Hd0 by done.
      rewrite (proj1 (not_elem_of_multiplicity _ _) HL).
      destruct (lo_count Hlo c cv ltac:(rewrite (lk_ghost Hl); eauto) Hcr Hcv). lia.
    + rewrite split_ghost in Hn by done. destruct (wf_live_view Hwf n Hn) as [v Hv].
      destruct (split_view n v Hv) as (v'' & Hv'' & El & _ & _ & Hsame).
      rewrite Hv' in Hv''. injection Hv'' as <-. rewrite El.
      destruct (lo_count Hlo n v Hn Hr Hv) as [H0 Hc]. split; [done|]. rewrite Hc. f_equal.
      rewrite <-(split_locks_children n v Hn Hv). destruct (decide (n = p)) as [->|Hnp].
      * rewrite Hp' in Hv'. injection Hv' as <-. pose proof (lk_pview Hl) as Hpv. rewrite Hv in Hpv.
        injection Hpv as ->. cbn. destruct (lk_child Hl) as (k & Hk & Hd). rewrite Hck' in Hk.
        injection Hk as <-. rewrite (dict_set_sum _ _ _ c) by done.
        rewrite Hln, split_lock_of, Hlc by done. lia.
      * by rewrite Hsame.
Qed.

Lemma split_sizes b : set_sum (sel_len b W' r) (dom G') = set_sum (sel_len b W r) (dom G).
Proof.
  destruct split_ne as (Hcc & Hpc & Hcp). destruct (wf_ctr_fresh Hwf) as [HG HW].
  assert (r ≠ ctr) as Hrc by (destruct (wf_root Hwf) as (? & ? & _); congruence).
  unfold G'. rewrite dom_insert_L, set_sum_insert by (by apply not_elem_of_dom).
  rewrite (set_sum_update (sel_len b W' r) (sel_len b W r) c).
  - unfold sel_len. rewrite Hnew, Hc', Hcv. cbn. rewrite !decide_False by done.
    unfold klen, key_upto, key_from in *; cbn. rewrite length_take, length_drop.
    destruct (Bool.eqb _ _); lia.
  - apply elem_of_dom. rewrite (lk_ghost Hl). eauto.
  - intros m Hm%elem_of_dom Hmc. destruct (wf_live_view Hwf m Hm) as [v Hv].
    destruct (split_view m v Hv) as (v' & Hv' & El & _ & Hs' & _).
    unfold sel_len. by rewrite Hv, Hv', El, (proj1 (Hs' Hmc)).
Qed.

Lemma split_vals n : n ≠ ctr → n ≠ c → node_vals W' n = node_vals W n.
Proof.
  intros Hn Hnc. unfold node_vals. destruct (decide (n = p)) as [->|Hnp]; [|by rewrite Hother].
  by rewrite Hp', (lk_pview Hl).
Qed.

Lemma split_slots : slots_of W' (dom G') ≡ₚ slots_of W (dom G).
Proof.
  destruct split_ne as (Hcc & Hpc & Hcp). destruct (wf_ctr_fresh Hwf) as [HG HW].
  assert (c ∈ dom G) as Hc by (apply elem_of_dom; rewrite (lk_ghost Hl); eauto).
  unfold G'. rewrite dom_insert_L, slots_of_insert by (by apply not_elem_of_dom).
  rewrite (slots_of_delete W' c), (slots_of_delete W c) by done.
  rewrite (slots_of_ext W' W (dom G ∖ {[c]})).
  - unfold node_vals. rewrite Hnew, Hc', Hcv. cbn. rewrite (lk_val Hl). cbn.
    by rewrite app_assoc, take_drop.
  - intros n Hn. apply split_vals; [|set_solver]. intros ->. apply not_elem_of_dom in HG. set_solver.
Qed.

Lemma split_whole : all_whole ps G W → all_whole ps G' W'.
Proof.
  intros Hw n Hn. destruct split_ne as (Hcc & Hpc & Hcp).
  assert (whole ps vs) as Hvs.
  { specialize (Hw c ltac:(rewrite (lk_ghost Hl); eauto)). unfold node_vals in Hw. rewrite Hcv in Hw.
    cbn in Hw. by rewrite (lk_val Hl) in Hw. }
  destruct (whole_cut ps vs s (wf_page Hwf) Hvs Hsd) as [Ht Hd].
  destruct (decide (n = ctr)) as [->|Hnn]; [unfold node_vals; by rewrite Hnew|].
  destruct (decide (n = c)) as [->|Hnc]; [unfold node_vals; by rewrite Hc'|].
  rewrite split_vals by done. apply Hw. by rewrite split_ghost in Hn.
Qed.
End split_views.

(** ** The operation on the cache *)

(** The tree [st'] refines [st]: it may have more nodes, but it has the same
    content and the same allocator. *)
Record refines {A} (cfg : config) (G : ghost) (st : cache A) (G' : ghost) (st' : cache A) : Prop := {
  rf_ghost : G ⊆ G';
  rf_root : root_node st' = root_node st;
  rf_alloc : allocator st' = allocator st;
  rf_evictable : evictable_size_ st' = evictable_size_ st;
  rf_protected : protected_size_ st' = protected_size_ st;
  rf_slots : slots_of (hview (heap st')) (dom G') ≡ₚ slots_of (hview (heap st)) (dom G);
  rf_whole : all_whole (page_size cfg) G (hview (heap st)) → all_whole (page_size cfg) G' (hview (heap st'));
  rf_cached : ∀ e toks idxs, cached cfg G' st' e toks idxs ↔ cached cfg G st e toks idxs
}.
Arguments rf_ghost {_ _ _ _ _ _} _.
Arguments rf_root {_ _ _ _ _ _} _.
Arguments rf_alloc {_ _ _ _ _ _} _.
Arguments rf_evictable {_ _ _ _ _ _} _.
Arguments rf_protected {_ _ _ _ _ _} _.
Arguments rf_slots {_ _ _ _ _ _} _.
Arguments rf_whole {_ _ _ _ _ _} _.
Arguments rf_cached {_ _ _ _ _ _} _.

Lemma refines_refl {A} cfg G (st : cache A) : refines cfg G st G st.
Proof. by constructor. Qed.
Lemma refines_trans {A} cfg G1 G2 G3 (st1 st2 st3 : cache A) :
  refines cfg G1 st1 G2 st2 → refines cfg G2 st2 G3 st3 → refines cfg G1 st1 G3 st3.
Proof.
  intros H1 H2. constructor.
  - etrans; [apply (rf_ghost H1)|apply (rf_ghost H2)].
  - rewrite (rf_root H2). apply (rf_root H1).
  - rewrite (rf_alloc H2). apply (rf_alloc H1).
  - rewrite (rf_evictable H2). apply (rf_evictable H1).
  - rewrite (rf_protected H2). apply (rf_protected H1).
  - by rewrite (rf_slots H2), (rf_slots H1).
  - intros. by apply (rf_whole H2), (rf_whole H1).
  - intros. rewrite (rf_cached H2). apply (rf_cached H1).
Qed.

(** Fields the invariant does not depend on. *)
Definition same_tree {A} (st st' : cache A) : Prop :=
  hview (heap st') = hview (heap st) ∧ counter st' = counter st ∧ root_node st' = root_node st ∧
  evictable_size_ st' = evictable_size_ st ∧ protected_size_ st' = protected_size_ st.

Lemma cache_inv_same {A} cfg G L d (st st' : cache A) :
  same_tree st st' → cache_inv cfg G L d st → cache_inv cfg G L d st'.
Proof. intros (Eh & Ec & Er & Ee & Ep) [? ? ? ?]. constructor; rewrite ?Eh, ?Ec, ?Er, ?Ee, ?Ep; done. Qed.
Lemma refines_same {A} cfg G (st st' : cache A) :
  same_tree st st' → allocator st' = allocator st → refines cfg G st G st'.
Proof.
  intros (Eh & Ec & Er & Ee & Ep) Ea. constructor; rewrite ?Eh; try done.
  intros. unfold cached. by rewrite Eh, Er.
Qed.

Lemma hview_alter_same f n h : (∀ x, view (f x) = view x) → hview (alter f n h) = hview h.
Proof.
  intros Hf. unfold hview. apply map_eq. intros m. rewrite !lookup_fmap.
  destruct (decide (m = n)) as [->|]; [|by rewrite lookup_alter_ne].
  rewrite lookup_alter_eq. destruct (h !! n); cbn; [by rewrite Hf|done].
Qed.

Section split_op.
Context {A : Type} `{KVPool A}.
Context (clock : nat → Z) (hash : list token → Z) (cfg : config).
Implicit Types st : cache A.

Lemma record_store_ok st n : n ≠ root_node st → is_Some (heap st !! n) →
  ∃ q, _record_store_event hash cfg st n = Ok (set_events st q).
Proof.
  intros Hn [x Hx]. unfold _record_store_event, get_node. destruct (enable_kv_cache_events cfg).
  - rewrite Hx. cbn. rewrite (bool_decide_eq_true_2 (n ≠ _)) by done. rewrite orb_true_r. cbn. eauto.
  - exists (kv_event_queue st). by destruct st.
Qed.

Lemma record_remove_ok st n : is_Some (heap st !! n) →
  ∃ q, _record_remove_event hash cfg st n = Ok (set_events st q).
Proof.
  intros [x Hx]. unfold _record_remove_event, get_node. destruct (enable_kv_cache_events cfg).
  - rewrite Hx. cbn. eauto.
  - exists (kv_event_queue st). by destruct st.
Qed.

Lemma hview_lookup h n : hview h !! n = view <$> h !! n.
Proof. apply lookup_fmap. Qed.

Lemma hview_Some h n x : h !! n = Some x → hview h !! n = Some (view x).
Proof. intros E. by rewrite hview_lookup, E. Qed.

Lemma split_node_spec G L st c cn g s :
  cache_wf cfg G L st → G !! c = Some g → heap st !! c = Some cn → c ≠ root_node st →
  s ≠ 0%nat → (s < klen (key cn))%nat → (page_size cfg | s)%nat →
  ∃ nn st' g', _split_node clock hash cfg st (key cn) c s = Ok (counter st, st') ∧
    let G' := <[counter st := g']> G in
    cache_wf cfg G' L st' ∧ refines cfg G st G' st' ∧ G !! counter st = None ∧
    heap st' !! counter st = Some nn ∧ extra_key (key nn) = extra_key (key cn) ∧
    (∃ pn pg vs, parent cn = Some pn ∧ G !! pn = Some pg ∧ value cn = Some vs ∧
      value nn = Some (take s vs) ∧
      g' = (pg.1 ++ take s (token_ids (key cn)), pg.2 ++ take s vs)).
Proof.
  intros [Hwf Hlo He Hp] Hg Hcn Hcr Hs0 Hs Hsd.
  pose proof (hview_Some _ _ _ Hcn) as Hcv.
  destruct (wf_linked Hwf c _ g Hg Hcv Hcr) as (p & pv & pg & vs & Hl).
  destruct (linked_ne Hwf _ _ _ _ _ _ _ Hl) as (Hcc & Hpc & Hcp).
  destruct (get_child_key_ok (key_from (key cn) s) (page_size cfg)) as (ck & Hck & _).
  { unfold klen in *. cbn. rewrite length_drop. lia. }
  destruct (lk_child Hl) as (ck' & Hck' & _). cbn in Hck'.
  pose proof (lk_pview Hl) as Hpv. rewrite hview_lookup in Hpv.
  destruct (heap st !! p) as [pn|] eqn:Hpn; [|done]. injection Hpv as <-.
  pose proof (lk_par Hl) as Hpar. pose proof (lk_val Hl) as Hval. cbn in Hpar, Hval.
  unfold _split_node.
  destruct (record_remove_ok st c) as [q ->]; [eauto|]. cbn [res_bind new_tree_node monotonic].
  unfold get_child_key_fn, get_node, upd_node. cbn [set_events set_heap heap counter ticks root_node].
  rewrite Hck. cbn [res_bind]. rewrite (lookup_insert_ne _ (counter st) c), Hcn by done. cbn [res_bind of_opt].
  rewrite Hval. cbn [res_bind of_opt]. rewrite lookup_insert_eq. cbn [res_bind of_opt].
  rewrite Hck'. cbn [res_bind parent of_opt]. rewrite Hpar. cbn [res_bind of_opt set_heap heap].
  rewrite lookup_alter_ne, lookup_alter_ne, lookup_insert_ne, Hpn by done. cbn [res_bind of_opt].
  match goal with |- context [_record_store_event hash cfg ?x (counter st)] => set (mid := x) end.
  assert (counter st ≠ root_node st) as Hctr.
  { intros E. destruct (wf_root Hwf) as (? & ? & _). destruct (wf_ctr_fresh Hwf). congruence. }
  set (nn := mkNode [(ck, c)] (Some p) (key_upto (key cn) s) (Some (take s vs)) (lock_ref cn)
    (clock (ticks st)) (clock (S (ticks st))) 0 0 None None).
  assert (heap mid !! counter st = Some nn) as Hn.
  { unfold mid; cbn [heap set_heap]. rewrite !lookup_alter_ne by done. by rewrite lookup_alter_eq, lookup_insert_eq. }
  assert (heap mid !! c = Some (set_parent (set_key_value cn (key_from (key cn) s) (Some (drop s vs)))
    (Some (counter st)))) as Hc'.
  { unfold mid; cbn [heap set_heap]. rewrite lookup_alter_ne, lookup_alter_eq, lookup_alter_ne,
      lookup_insert_ne, Hcn by done. done. }
  assert (heap mid !! p = Some (set_children pn (dict_set ck' (counter st) (children pn)))) as Hp'.
  { unfold mid; cbn [heap set_heap]. rewrite lookup_alter_eq, !lookup_alter_ne, lookup_insert_ne, Hpn by done. done. }
  assert (∀ n, n ≠ counter st → n ≠ c → n ≠ p → heap mid !! n = heap st !! n) as Ho.
  { intros. unfold mid; cbn [heap set_heap]. rewrite !lookup_alter_ne, lookup_insert_ne by done. done. }
  assert (counter mid = S (counter st) ∧ root_node mid = root_node st ∧ allocator mid = allocator st ∧
    evictable_size_ mid = evictable_size_ st ∧ protected_size_ mid = protected_size_ st)
    as (Em1 & Em2 & Em3 & Em4 & Em5) by done.
  clearbody mid.
  destruct (record_store_ok mid (counter st)) as [q1 ->]; [by rewrite Em2|eauto|]. cbn [res_bind].
  destruct (record_store_ok (set_events mid q1) c) as [q2 ->]; [cbn; by rewrite Em2|cbn; eauto|].
  cbn [res_bind].
  exists nn, (set_events (set_events mid q1) q2). eexists. split; [done|].
  assert (∀ n, n ≠ counter st → n ≠ c → n ≠ p → hview (heap mid) !! n = hview (heap st) !! n) as Hov.
  { intros. by rewrite !hview_lookup, Ho. }
  assert (Hn' := hview_Some _ _ _ Hn). assert (Hc'' := hview_Some _ _ _ Hc').
  assert (Hp'' := hview_Some _ _ _ Hp').
  unfold view, nn in Hn', Hc'', Hp''; cbn in Hn', Hc'', Hp''.
  split_and!.
  - constructor; cbn [set_events heap counter root_node evictable_size_ protected_size_];
      rewrite ?Em1, ?Em2, ?Em4, ?Em5.
    + eapply (split_wf Hwf Hcv Hcr Hl); eauto.
    + eapply (split_locks Hwf Hcv Hcr Hl); first [eassumption|done].
    + rewrite He. symmetry. eapply (split_sizes Hwf Hcv Hcr Hl); first [eassumption|done].
    + rewrite Hp. symmetry. eapply (split_sizes Hwf Hcv Hcr Hl); first [eassumption|done].
  - constructor; cbn [set_events heap root_node allocator evictable_size_ protected_size_]; try done.
    + apply insert_subseteq. by apply (wf_ctr_fresh Hwf).
    + eapply split_slots; first [eassumption|done].
    + eapply split_whole; first [eassumption|done].
    + intros. unfold cached. cbn. rewrite Em2. eapply (split_cached Hwf Hcv Hcr Hl); first [eassumption|done].
  - by apply (wf_ctr_fresh Hwf).
  - done.
  - done.
  - exists p, pg, vs. split_and!; try done. apply (lk_pghost Hl).
Qed.
End split_op.
