(* ===== verification/RadixMatch.v ===== *)
(** * Prefix matching

    [match_prefix] returns the KV indices of the longest cached prefix made of
    whole pages, and changes nothing but the representation of the tree. *)

From stdpp Require Import gmultiset.
From S2P Require Import Prelude KVAllocator KVAllocatorProofs KVAllocatorSpec RadixTree RadixInv RadixSplit.

Section radix_match.
Context {A : Type} `{KVPool A}.
Context (clock : nat → Z) (hash : list token → Z) (cfg : config).
Implicit Types st : cache A.
Abbreviation ps := (page_size cfg).
Abbreviation W st := (hview (heap st)).

Lemma get_node_ok st n x : heap st !! n = Some x → get_node st n = Ok x.
Proof. unfold get_node. by intros ->. Qed.

(** Setting an access time is invisible to the invariant. *)
Lemma upd_time_same st n t : same_tree st (upd_node st n (λ c, set_time c t)).
Proof. unfold upd_node, same_tree; cbn. by rewrite hview_alter_same. Qed.

(** A round of a walk: the child filed under the first page of the key, and how
    far the key agrees with it. *)
Lemma walk_round G L d st node gn key_ ck child :
  cache_inv cfg G L d st → G !! node = Some gn → compat (W:=W st) (r:=root_node st) node (extra_key key_) →
  (ps | klen key_)%nat → klen key_ ≠ 0%nat → get_child_key key_ ps = Ok ck →
  ∀ n, heap st !! node = Some n → dict_get ck (children n) = Some child →
  ∃ cn g vs pl, heap st !! child = Some cn ∧ child ≠ root_node st ∧ value cn = Some vs ∧
    linked ps G (W st) (root_node st) child (view cn) node (view n) g gn vs ∧
    extra_key (key cn) = extra_key key_ ∧
    key_match_fn cfg (key cn) key_ = Ok pl ∧ is_match ps (token_ids (key cn)) (token_ids key_) pl ∧
    pl ≠ 0%nat.
Proof.
  intros [Hwf _ _ _] Hgn Hc Hd Hne Hck n Hn Hdict.
  destruct (wf_child Hwf node (view n) ck child) as (Hr & cv & g & pg & vs & Hcv & Hl & Hk);
    [eauto|by apply hview_Some|done|].
  assert (pg = gn) as -> by (pose proof (lk_pghost Hl); congruence).
  rewrite hview_lookup in Hcv. destruct (heap st !! child) as [cn|] eqn:Hcn; [|done].
  injection Hcv as <-. cbn in Hk.
  destruct (get_child_key_inj _ _ _ _ Hk Hck) as [Hex Hpage].
  destruct (key_match_fn_spec cfg (key cn) key_ (wf_page Hwf) Hex (lk_aligned Hl) Hd) as (pl & Hpl & Hm).
  exists cn, g, vs, pl. split_and!; try done; [apply (lk_val Hl)|].
  intros ->. destruct Hm as (_ & _ & _ & _ & Hmax).
  pose proof (wf_page Hwf). pose proof (lk_aligned Hl) as [a Ha]. pose proof (lk_nonempty Hl) as Hne'.
  destruct Hd as [b Hb]. cbn in Ha, Hne'. unfold klen in *.
  specialize (Hmax ps ltac:(destruct a; lia) ltac:(destruct b; lia) (Nat.divide_refl _) Hpage). lia.
Qed.

(** What a walk from [node] along [key_] has found when it stops at [last]. *)
Record walked G st (gn : list token * list Z) (key_ : RadixKey) G' st' (last : nat)
    (gl : list token * list Z) : Prop := {
  wk_refines : refines cfg G st G' st';
  wk_last : G' !! last = Some gl;
  wk_compat : compat (W:=W st') (r:=root_node st') last (extra_key key_);
  wk_prefix : ∃ k, (ps | k)%nat ∧ (k ≤ klen key_)%nat ∧ gl.1 = gn.1 ++ take k (token_ids key_);
  wk_max : ∀ toks idxs, cached cfg G st (extra_key key_) toks idxs →
    toks `prefix_of` gn.1 ++ token_ids key_ → (length toks ≤ length gl.1)%nat
}.

Lemma walked_stop G L d st node gn key_ ck n :
  cache_inv cfg G L d st → G !! node = Some gn → compat (W:=W st) (r:=root_node st) node (extra_key key_) →
  heap st !! node = Some n →
  klen key_ = 0%nat ∨ get_child_key key_ ps = Ok ck ∧ dict_get ck (children n) = None →
  walked G st gn key_ G st node gn.
Proof.
  intros [Hwf _ _ _] Hgn Hc Hn Hstop. constructor; try done.
  - exists 0%nat. split_and!; [apply Nat.divide_0_r|lia|]. cbn. by rewrite app_nil_r.
  - intros toks idxs Hcd Hp. destruct (decide (length toks ≤ length gn.1)%nat) as [|Hgt]; [done|].
    exfalso. destruct Hstop as [Hk|[Hck Hnone]].
    { apply prefix_length in Hp. unfold klen in Hk. rewrite length_app, Hk in Hp. lia. }
    destruct (child_on_way Hwf node gn (token_ids key_) _ toks idxs Hgn Hc Hcd Hp ltac:(lia))
      as (c & cv & pv & g & vs & Hcv & Hcr & Hl & He & Hk & _).
    destruct (lk_child Hl) as (ck' & Hck' & Hd). pose proof (lk_pview Hl) as Hpv.
    rewrite hview_lookup, Hn in Hpv. injection Hpv as <-. cbn in Hd.
    destruct key_ as [kt ke]. cbn in Hk. congruence.
Qed.

Lemma walked_refines G G1 st st1 gn key_ G' st' last gl :
  refines cfg G st G1 st1 →
  walked G1 st1 gn key_ G' st' last gl → walked G st gn key_ G' st' last gl.
Proof.
  intros Hr1 [Hr ? ? ? Hm]. constructor; try done; [by eapply refines_trans|].
  intros toks idxs Hcd. apply (Hm toks idxs). by apply (rf_cached Hr1).
Qed.

Lemma walked_same G st st1 gn key_ G' st' last gl :
  same_tree st st1 → allocator st1 = allocator st →
  walked G st1 gn key_ G' st' last gl → walked G st gn key_ G' st' last gl.
Proof. intros Hs Ha. apply walked_refines. by apply refines_same. Qed.

Lemma walked_step G st gn g key_ pl G' st' last gl :
  (ps | pl)%nat → (pl ≤ klen key_)%nat → g.1 = gn.1 ++ take pl (token_ids key_) →
  walked G st g (key_from key_ pl) G' st' last gl → walked G st gn key_ G' st' last gl.
Proof.
  intros Hd Hle Hg [? ? ? (k & Hk & Hkl & Hgl) Hm]. constructor; try done.
  - exists (pl + k)%nat. unfold klen in *; cbn in *. rewrite length_drop in Hkl.
    split_and!; [by apply Nat.divide_add_r|lia|]. by rewrite Hgl, Hg, take_page_step, app_assoc.
  - intros toks idxs Hcd Hp. apply (Hm toks idxs Hcd). cbn.
    by rewrite Hg, <-app_assoc, take_drop.
Qed.

(** Stopping inside a child, which has just been split at [pl]. *)
Lemma walked_split G L d st node gn key_ n child cn g vs pl G' st' new nn gl :
  cache_inv cfg G L d st → G !! node = Some gn → compat (W:=W st) (r:=root_node st) node (extra_key key_) →
  heap st !! node = Some n → heap st !! child = Some cn → extra_key (key cn) = extra_key key_ →
  get_child_key key_ ps = get_child_key (key cn) ps →
  linked ps G (W st) (root_node st) child (view cn) node (view n) g gn vs →
  is_match ps (token_ids (key cn)) (token_ids key_) pl → (pl < klen (key cn))%nat →
  refines cfg G st G' st' → G' !! new = Some gl → heap st' !! new = Some nn →
  extra_key (key nn) = extra_key (key cn) → gl.1 = gn.1 ++ take pl (token_ids (key cn)) →
  walked G st gn key_ G' st' new gl.
Proof.
  intros [Hwf _ _ _] Hgn Hc Hn Hcn Hex Hck Hl (Hm1 & Hm2 & Hm3 & Hm4 & Hmax) Hlt Hrf Hgl Hnn Hexn Hpath.
  constructor; try done.
  - right. exists (view nn). split; [by apply hview_Some|]. cbn. congruence.
  - exists pl. split_and!; try done. by rewrite Hpath, Hm4.
  - intros toks idxs Hcd Hp. destruct (decide (length toks ≤ length gl.1)%nat) as [|Hgt]; [done|].
    rewrite Hpath, length_app, length_take_le in Hgt by lia. exfalso.
    destruct (child_on_way Hwf node gn (token_ids key_) _ toks idxs Hgn Hc Hcd Hp ltac:(lia))
      as (c & cv & pv & g' & vs' & Hcv & Hcr & Hl' & He & Hk & Hor).
    assert (c = child) as ->.
    { destruct (lk_child Hl) as (k1 & Hk1 & Hd1), (lk_child Hl') as (k2 & Hk2 & Hd2).
      assert (pv = view n) as -> by (pose proof (lk_pview Hl); pose proof (lk_pview Hl'); congruence).
      destruct key_; cbn in *. congruence. }
    assert (g' = g) as -> by (pose proof (lk_ghost Hl); pose proof (lk_ghost Hl'); congruence).
    pose proof (lk_toks Hl) as Hg. cbn in Hg. unfold klen in *.
    destruct Hor as [Ht|Ht].
    + assert (length toks - length gn.1 ≤ pl)%nat; [|lia]. pose proof (prefix_length _ _ Ht) as Hlen.
      rewrite Hg, length_app in Hlen. pose proof (prefix_length _ _ Hp) as Hlen'. rewrite length_app in Hlen'.
      assert (length toks = length gn.1 + (length toks - length gn.1))%nat as Hsplit by lia.
      apply Hmax; [lia|lia| |].
      * apply Nat.divide_sub_r; [by destruct Hcd as (? & ? & ? & ? & ? & ? & ? & ? & ? & ?)|].
        apply (wf_path Hwf node gn Hgn).
      * apply prefix_take_eq in Ht, Hp. rewrite Hg, Hsplit, take_app_add' in Ht by done.
        rewrite Hsplit, take_app_add' in Hp by done. apply (app_inv_head gn.1). congruence.
    + assert (klen (key cn) ≤ pl)%nat; [|unfold klen in *; lia]. unfold klen.
      assert (g.1 `prefix_of` gn.1 ++ token_ids key_) as Hgp by (by etrans).
      rewrite Hg in Hgp. apply prefix_app_inv in Hgp.
      apply Hmax; [done|by apply prefix_length|apply (lk_aligned Hl)|].
      by rewrite firstn_all, prefix_take_eq.
Qed.

(** The loop of [_match_prefix_helper] ends and reports where it stopped. *)
Lemma match_loop_spec fuel : ∀ G L st t node gn key_ ck value_,
  cache_wf cfg G L st → G !! node = Some gn → compat (W:=W st) (r:=root_node st) node (extra_key key_) →
  (ps | klen key_)%nat → (klen key_ ≠ 0%nat → get_child_key key_ ps = Ok ck) →
  mjoin value_ = gn.2 → (klen key_ < fuel)%nat →
  ∃ value' last st' G' gl,
    match_loop clock hash cfg fuel st t node key_ ck value_ = Ok (value', last, st') ∧
    cache_wf cfg G' L st' ∧ walked G st gn key_ G' st' last gl ∧ mjoin value' = gl.2.
Proof.
  induction fuel as [|fuel IH]; intros G L st t node gn key_ ck value_ Hinv Hgn Hc Hd Hck Hval Hfuel; [lia|].
  destruct (wf_live_view (ci_wf Hinv) node ltac:(eauto)) as [nv Hnv].
  rewrite hview_lookup in Hnv. destruct (heap st !! node) as [n|] eqn:Hn; [|done]. clear nv Hnv.
  cbn [match_loop]. case_decide as Hk.
  { exists value_, node, st, G, gn. split_and!; try done. eapply (walked_stop G L _ st node gn key_ ck n); eauto. }
  rewrite (get_node_ok _ _ _ Hn). cbn [res_bind].
  destruct (dict_get ck (children n)) as [child|] eqn:Hdict.
  2: { exists value_, node, st, G, gn. split_and!; try done. eapply (walked_stop G L _ st node gn key_ ck n); eauto. }
  destruct (walk_round G L _ st node gn key_ ck child Hinv Hgn Hc Hd Hk (Hck Hk) n Hn Hdict)
    as (cn & g & vs & pl & Hcn & Hcr & Hvs & Hl & Hex & Hpl & Hm & Hpl0).
  set (st1 := upd_node st child _). pose proof (upd_time_same st child t) as Hs. fold st1 in Hs.
  assert (allocator st1 = allocator st) as Ha by done.
  assert (heap st1 !! child = Some (set_time cn t)) as Hcn1.
  { cbn. by rewrite lookup_alter_eq, Hcn. }
  pose proof (cache_inv_same _ _ _ _ _ _ Hs Hinv) as Hinv1.
  rewrite (get_node_ok _ _ _ Hcn1). cbn [res_bind].
  change (key (set_time cn t)) with (key cn). change (value (set_time cn t)) with (value cn).
  rewrite Hpl. cbn [res_bind].
  assert (get_child_key key_ ps = get_child_key (key cn) ps) as Hsame.
  { destruct (lk_child Hl) as (k1 & Hk1 & Hd1). cbn in *.
    destruct (wf_child (ci_wf Hinv) node (view n) ck child) as (_ & cv & ? & ? & ? & Hcv & _ & Hkk);
      [eauto|by apply hview_Some|done|]. rewrite (hview_Some _ _ _ Hcn) in Hcv.
    injection Hcv as <-. rewrite (Hck Hk). by symmetry. }
  destruct Hm as (Hm1 & Hm2 & Hm3 & Hm4 & Hmax). case_decide as Hlt.
  - destruct (split_node_spec clock hash cfg G L st1 child (set_time cn t) g pl Hinv1 (lk_ghost Hl) Hcn1)
      as (nn & st' & gl & Heq & Hinv' & Hrf & Hfr & Hnn & Hexn & pn & pg & vs' & Hpn & Hpg & Hvs' & Hvn & Hgl);
      try done.
    cbn [key set_time] in Heq. rewrite Heq. cbn [res_bind].
    rewrite (get_node_ok _ _ _ Hnn). cbn [res_bind]. rewrite Hvn. cbn [of_opt res_bind]. cbn in Hpn, Hvs', Hexn, Hgl.
    assert (vs' = vs) as -> by congruence.
    assert (pn = node) as -> by (pose proof (lk_par Hl) as Hx; cbn in Hx; congruence).
    assert (pg = gn) as -> by congruence.
    exists (value_ ++ [take pl vs]), (counter st1), st', (<[counter st1:=gl]> G), gl. split_and!; [done|exact Hinv'| |].
    + eapply (walked_split G L _ st node gn key_ n child cn g vs pl); eauto; try done.
      * eapply refines_trans; [by apply refines_same|exact Hrf].
      * by rewrite lookup_insert_eq.
      * by rewrite Hgl.
    + rewrite join_app, Hval, Hgl. cbn. by rewrite app_nil_r.
  - assert (pl = klen (key cn)) as Hplen by (unfold klen in *; lia).
    rewrite Hvs. cbn [of_opt res_bind].
    assert (g.1 = gn.1 ++ take pl (token_ids key_)) as Hg.
    { rewrite (lk_toks Hl), <-Hm4, Hplen. cbn. unfold klen. by rewrite firstn_all. }
    assert (∃ ck', (if decide (klen (key_from key_ pl) = 0%nat) then Ok ck else
        get_child_key_fn cfg (key_from key_ pl)) = Ok ck' ∧
      (klen (key_from key_ pl) ≠ 0%nat → get_child_key (key_from key_ pl) ps = Ok ck')) as (ck' & -> & Hck').
    { case_decide; [by exists ck|].
      destruct (get_child_key_ok (key_from key_ pl) ps) as (ck' & ? & _); [done|]. by exists ck'. }
    cbn [res_bind].
    destruct (IH G L st1 t child g (key_from key_ pl) ck' (value_ ++ [vs]) Hinv1 (lk_ghost Hl))
      as (value' & last & st' & G' & gl & Heq & Hinv' & Hwk & Hv'); try done.
    + right. exists (view cn). split; [|done]. by rewrite (proj1 Hs), (hview_Some _ _ _ Hcn).
    + unfold klen in *; cbn. rewrite length_drop. by apply Nat.divide_sub_r.
    + rewrite join_app, Hval, (lk_idxs Hl). cbn. by rewrite app_nil_r.
    + unfold klen in *; cbn. rewrite length_drop. lia.
    + exists value', last, st', G', gl. split_and!; try done.
      apply (walked_step G st gn g key_ pl); try done. by apply (walked_same _ _ st1).
Qed.

(** The part of a key that can be cached: whole pages, after conversion. *)
Definition aligned (toks : list token) : list token := take (length toks / ps * ps) toks.
Definition lookup_tokens (key_ : RadixKey) : list token := aligned (key_convert_fn cfg (token_ids key_)).

Lemma length_aligned toks : ps ≠ 0%nat → length (aligned toks) = (length toks / ps * ps)%nat.
Proof. intros. unfold aligned. rewrite length_take. pose proof (Nat.div_mod_eq (length toks) ps). lia. Qed.
Lemma divide_aligned toks : ps ≠ 0%nat → (ps | length (aligned toks))%nat.
Proof. intros. rewrite length_aligned by done. apply Nat.divide_factor_r. Qed.
Lemma aligned_id toks : ps ≠ 0%nat → (ps | length toks)%nat → aligned toks = toks.
Proof. intros ? [a Ha]. unfold aligned. rewrite Ha, Nat.div_mul, <-Ha by done. apply firstn_all. Qed.
Lemma aligned_1 toks : ps = 1%nat → aligned toks = toks.
Proof. intros E. unfold aligned. rewrite E, Nat.div_1_r, Nat.mul_1_r. apply firstn_all. Qed.

(** The walk from the root. *)
Lemma match_helper_spec G L st key_ :
  cache_wf cfg G L st → (ps | klen key_)%nat → klen key_ ≠ 0%nat →
  ∃ value' last st' G' gl,
    _match_prefix_helper clock hash cfg st (root_node st) key_ = Ok (value', last, st') ∧
    cache_wf cfg G' L st' ∧ walked G st ([], []) key_ G' st' last gl ∧ mjoin value' = gl.2.
Proof.
  intros Hinv Hd Hne. unfold _match_prefix_helper. cbn [monotonic].
  destruct (get_child_key_ok key_ ps Hne) as (ck & Hck & _).
  unfold get_child_key_fn. rewrite Hck. cbn [res_bind].
  match goal with |- context [match_loop _ _ _ _ ?x _ _ _ _] => set (st1 := x) end.
  assert (same_tree st st1) as Hs.
  { unfold st1, same_tree, upd_node; cbn. by rewrite hview_alter_same. }
  destruct (wf_root (ci_wf Hinv)) as (v & _ & Hg & _).
  destruct (match_loop_spec (S (klen key_)) G L st1 (clock (ticks st)) (root_node st) ([], []) key_ ck [])
    as (value' & last & st' & G' & gl & Heq & Hinv' & Hwk & Hv); try done.
  - by eapply cache_inv_same.
  - by left.
  - lia.
  - exists value', last, st', G', gl. split_and!; try done. by apply (walked_same _ _ st1).
Qed.

(** [m] describes the longest cached prefix of [key_]. *)
Definition matched (G : ghost) st (key_ : RadixKey) (G' : ghost) st' (m : MatchResult) : Prop :=
  let toks := lookup_tokens key_ in
  let k := length (device_indices m) in
  (k ≤ length toks)%nat ∧ (ps | k)%nat ∧
  G' !! last_device_node m = Some (take k toks, device_indices m) ∧
  compat (W:=W st') (r:=root_node st') (last_device_node m) (extra_key key_) ∧
  (∀ t i, cached cfg G st (extra_key key_) t i → t `prefix_of` toks → (length t ≤ k)%nat).

Lemma matched_empty G L d st key_ :
  cache_inv cfg G L d st → length (lookup_tokens key_) = 0%nat →
  matched G st key_ G st (mkMatch [] (root_node st)).
Proof.
  intros Hinv Hz. destruct (wf_root (ci_wf Hinv)) as (v & _ & Hg & _).
  unfold matched. cbn. split_and!; [lia|apply Nat.divide_0_r|done|by left|].
  intros t i _ Hp%prefix_length. lia.
Qed.

Lemma matched_walked G L d st key_ G' st' last gl :
  cache_inv cfg G' L d st' →
  walked G st ([], []) (mkKey (lookup_tokens key_) (extra_key key_)) G' st' last gl →
  matched G st key_ G' st' (mkMatch gl.2 last).
Proof.
  intros Hinv' [Hrf Hlast Hc (k & Hk1 & Hk3 & Hgl) Hmax]. cbn in *. unfold klen in *; cbn in *.
  assert (length gl.2 = k) as Hlen.
  { rewrite <-(proj1 (wf_path (ci_wf Hinv') _ _ Hlast)), Hgl, length_take. lia. }
  unfold matched. cbn. rewrite Hlen. split_and!; try done.
  - by rewrite Hlast, <-Hgl; destruct gl.
  - intros t i Hcd Hp. specialize (Hmax t i Hcd Hp). rewrite Hgl, length_take in Hmax. lia.
Qed.

Lemma match_prefix_spec G L st key_ :
  cache_wf cfg G L st → disable cfg = false →
  ∃ m st' G', match_prefix clock hash cfg st key_ = Ok (m, st') ∧ cache_wf cfg G' L st' ∧
    refines cfg G st G' st' ∧ matched G st key_ G' st' m.
Proof.
  intros Hinv Hdis. pose proof (wf_page (ci_wf Hinv)) as Hps. unfold match_prefix.
  set (key1 := mkKey (key_convert_fn cfg (token_ids key_)) (extra_key key_)).
  set (key2 := if decide (ps = 1%nat) then key1 else key_upto key1 (klen key1 / ps * ps)).
  assert (key2 = mkKey (lookup_tokens key_) (extra_key key_)) as Hk2.
  { unfold key2, lookup_tokens. case_decide; [by rewrite aligned_1|done]. }
  assert (klen key2 = length (lookup_tokens key_)) as Hlk by (by rewrite Hk2).
  rewrite Hdis. cbn [orb]. case_bool_decide as H1.
  { exists (mkMatch [] (root_node st)), st, G. split_and!; try done. eapply matched_empty; [done|].
    unfold klen in H1; cbn in H1. unfold lookup_tokens, aligned.
    apply nil_length_inv in H1. by rewrite H1, take_nil. }
  fold key2. case_decide as H2.
  { exists (mkMatch [] (root_node st)), st, G. split_and!; try done. eapply matched_empty; [done|lia]. }
  destruct (match_helper_spec G L st key2) as (value' & last & st' & G' & gl & -> & Hinv' & Hwk & Hv);
    [done| |done|].
  { rewrite Hlk. by apply divide_aligned. }
  cbn [res_bind]. exists (mkMatch (mjoin value') last), st', G'. rewrite Hk2 in Hwk.
  split_and!; try done; [apply (wk_refines _ _ _ _ _ _ _ _ Hwk)|]. rewrite Hv. by eapply matched_walked.
Qed.

(** At a node of the tree its own path is cached. *)
Lemma node_cached G L d st n g e :
  cache_inv cfg G L d st → G !! n = Some g → compat (W:=W st) (r:=root_node st) n e → n ≠ root_node st →
  cached cfg G st e g.1 g.2.
Proof.
  intros [Hwf _ _ _] Hg Hc Hr. destruct Hc as [?|(v & Hv & He)]; [done|].
  destruct (wf_path Hwf n g Hg) as (Hlen & Hd & _).
  exists n, v, g. split_and!; try done. by rewrite Hlen, firstn_all.
Qed.

Lemma cached_prefix G st e toks idxs t :
  cached cfg G st e toks idxs → t `prefix_of` toks → (ps | length t)%nat →
  cached cfg G st e t (take (length t) idxs).
Proof.
  intros (n & v & g & ? & ? & ? & ? & Hp & ? & ->) Ht Hd. exists n, v, g. split_and!; try done; [by etrans|].
  rewrite take_take. f_equal. apply prefix_length in Ht. lia.
Qed.
End radix_match.
