(* ===== verification/RadixInsert.v ===== *)
(** * Insertion

    [insert] walks like [match_prefix], then hangs a leaf with the rest of the
    key and of the values below the last node. *)

From stdpp Require Import gmultiset.
From S2P Require Import Prelude KVAllocator KVAllocatorProofs KVAllocatorSpec.
From S2P Require Import RadixTree RadixInv RadixSplit RadixMatch.

(** ** A new leaf, on the views *)
Section leaf_views.
Context {ps : nat} {G : ghost} {W : views} {ctr r : nat} (Hwf : wf ps G W ctr r).
Context {p : nat} {pv : nview} {pg : list token * list Z} (Hpv : W !! p = Some pv) (Hpg : G !! p = Some pg).
Context {k : RadixKey} {vs : list Z} {ck : child_key} (Hck : get_child_key k ps = Ok ck)
        (Hnone : dict_get ck (vch pv) = None) (Hk0 : klen k ≠ 0%nat) (Hkd : (ps | klen k)%nat)
        (Hvs : length vs = klen k) (Hcompat : compat (W:=W) (r:=r) p (extra_key k)).
Context {W' : views}.
Let lv := mkView [] (Some p) k (Some vs) 0.
Let pv' := mkView (dict_set ck ctr (vch pv)) (vpar pv) (vkey pv) (vval pv) (vlock pv).
Let gl : list token * list Z := (pg.1 ++ token_ids k, pg.2 ++ vs).
Let G' : ghost := <[ctr := gl]> G.
Context (Hnew : W' !! ctr = Some lv) (Hp' : W' !! p = Some pv')
        (Hother : ∀ n, n ≠ ctr → n ≠ p → W' !! n = W !! n).

Lemma leaf_ne : p ≠ ctr ∧ r ≠ ctr.
Proof.
  destruct (wf_ctr_fresh Hwf) as [HG HW]. destruct (wf_root Hwf) as (? & ? & _). split; congruence.
Qed.

Lemma leaf_ghost n : n ≠ ctr → G' !! n = G !! n.
Proof. intros. unfold G'. by rewrite lookup_insert_ne. Qed.

Lemma leaf_view n v : W !! n = Some v → ∃ v', W' !! n = Some v' ∧ vlock v' = vlock v ∧
  vkey v' = vkey v ∧ vpar v' = vpar v ∧ vval v' = vval v ∧ (n ≠ p → vch v' = vch v).
Proof.
  intros Hv. destruct (wf_ctr_fresh Hwf) as [_ HW].
  destruct (decide (n = p)) as [->|].
  - exists pv'. rewrite Hpv in Hv. injection Hv as <-. by split_and!.
  - exists v. rewrite Hother by congruence. by split_and!.
Qed.

Lemma leaf_linked n v q qv gn gq ws : W !! n = Some v → linked ps G W r n v q qv gn gq ws →
  ∃ v' qv', W' !! n = Some v' ∧ linked ps G' W' r n v' q qv' gn gq ws.
Proof.
  intros Hv Hln. destruct (wf_ctr_fresh Hwf) as [HG HW].
  destruct (leaf_view n v Hv) as (v' & Hv' & _ & Ek & Ep & Ev & _).
  destruct (leaf_view q qv (lk_pview Hln)) as (qv' & Hqv' & _ & Eq & _ & _ & Hch).
  exists v', qv'. split; [done|]. pose proof (lk_ghost Hln). pose proof (lk_pghost Hln).
  destruct Hln as [? Hqv ? ? ? ? ? ? ? ? Hex (k' & Hk & Hd)].
  constructor; rewrite ?Ek, ?Ep, ?Ev, ?leaf_ghost by congruence; try done.
  - intros. rewrite Eq. auto.
  - exists k'. split; [done|]. destruct (decide (q = p)) as [->|]; [|by rewrite Hch].
    rewrite Hp' in Hqv'. injection Hqv' as <-. rewrite Hqv in Hpv. injection Hpv as ->. cbn.
    rewrite dict_get_set_ne; [done|]. intros <-. congruence.
Qed.

Lemma leaf_linked_new : linked ps G' W' r ctr lv p pv' gl pg vs.
Proof.
  destruct leaf_ne as (? & ?). constructor; cbn; try done.
  - unfold G'. by rewrite lookup_insert_eq.
  - by rewrite leaf_ghost.
  - intros Hr. destruct Hcompat as [?|(v & Hv & He)]; [done|]. congruence.
  - exists ck. by rewrite dict_get_set_eq.
Qed.

Lemma leaf_wf : wf ps G' W' (S ctr) r.
Proof.
  destruct leaf_ne as (Hpc & Hrc). destruct (wf_ctr_fresh Hwf) as [HG HW].
  constructor.
  - apply (wf_page Hwf).
  - destruct (wf_root Hwf) as (v & Hv & Hg & Hpar & Hk & Hval).
    destruct (leaf_view r v Hv) as (v' & Hv' & _ & Ek & Ep & Ev & _).
    exists v'. rewrite leaf_ghost, Ek, Ep, Ev by done. done.
  - intros n Hn Hr. destruct (decide (n = ctr)) as [->|Hnn].
    { exists lv. do 5 eexists. split; [done|]. apply leaf_linked_new. }
    rewrite leaf_ghost in Hn by done. destruct (wf_node Hwf n Hn Hr)
      as (v & q & qv & gn & gq & ws & Hv & Hln).
    destruct (leaf_linked n v q qv gn gq ws Hv Hln) as (v' & qv' & ? & ?). eauto 10.
  - intros n v' Hn Hv'. destruct (decide (n = ctr)) as [->|Hnn].
    { rewrite Hnew in Hv'. injection Hv' as <-. cbn. split; [constructor|set_solver]. }
    rewrite leaf_ghost in Hn by done. destruct (wf_live_view Hwf n Hn) as [v Hv].
    destruct (wf_children Hwf n v Hn Hv) as [Hnd Hch].
    assert (∀ k' d, (k', d) ∈ vch v → is_Some (G' !! d) ∧
      ∃ dv, W' !! d = Some dv ∧ vpar dv = Some n ∧ get_child_key (vkey dv) ps = Ok k') as Hold.
    { intros k' d Hkd'. destruct (Hch k' d Hkd') as (Hd & dv & Hdv & Hdp & Hdk).
      rewrite leaf_ghost by (intros ->; rewrite HG in Hd; by destruct Hd). split; [done|].
      destruct (leaf_view d dv Hdv) as (dv' & ? & _ & Ek & Ep & _). exists dv'. by rewrite Ek, Ep. }
    destruct (leaf_view n v Hv) as (v'' & Hv'' & _ & _ & _ & _ & Hsame).
    rewrite Hv' in Hv''. injection Hv'' as <-.
    destruct (decide (n = p)) as [->|Hnp]; [|by rewrite Hsame].
    rewrite Hp' in Hv'. injection Hv' as <-. rewrite Hv in Hpv. injection Hpv as <-. cbn.
    split; [by apply dict_set_NoDup|]. intros k' d Hkd'.
    apply elem_of_dict_set in Hkd' as [[-> ->]|[Hk' Hkd']]; [|by apply Hold|done].
    unfold G'. rewrite lookup_insert_eq. split; [eauto|]. by exists lv.
  - intros n [v Hv]. destruct (decide (n = ctr)) as [->|]; [lia|].
    destruct (decide (n = p)) as [->|]; [pose proof (wf_fresh Hwf p ltac:(eauto)); lia|].
    rewrite Hother in Hv by done. pose proof (wf_fresh Hwf n ltac:(eauto)). lia.
Qed.

Lemma leaf_cached e toks idxs : Cached ps G' W' r e toks idxs ↔
  Cached ps G W r e toks idxs ∨
  (e = extra_key k ∧ toks `prefix_of` gl.1 ∧ (ps | length toks)%nat ∧ idxs = take (length toks) gl.2).
Proof.
  destruct leaf_ne as (Hpc & Hrc). split.
  - intros (n & v' & gn & Hr & Hv' & Hgn & He & Hp & Hd & ->).
    destruct (decide (n = ctr)) as [->|Hnn].
    + right. unfold G' in Hgn. rewrite lookup_insert_eq in Hgn. injection Hgn as <-.
      rewrite Hnew in Hv'. injection Hv' as <-. by rewrite <-He.
    + left. rewrite leaf_ghost in Hgn by done. destruct (wf_live_view Hwf n ltac:(eauto)) as [v Hv].
      destruct (leaf_view n v Hv) as (v'' & Hv'' & _ & Ek & _). rewrite Hv' in Hv''. injection Hv'' as <-.
      exists n, v, gn. rewrite <-Ek. by split_and!.
  - intros [(n & v & gn & Hr & Hv & Hgn & He & Hp & Hd & ->)|(-> & Hp & Hd & ->)].
    + destruct (leaf_view n v Hv) as (v' & Hv' & _ & Ek & _).
      exists n, v', gn. rewrite leaf_ghost, Ek; [by split_and!|].
      intros ->. destruct (wf_ctr_fresh Hwf). congruence.
    + exists ctr, lv, gl. unfold G'. rewrite lookup_insert_eq. by split_and!.
Qed.

Lemma leaf_lock_of n : lock_of W' n = lock_of W n.
Proof.
  unfold lock_of. destruct (wf_ctr_fresh Hwf) as [_ HW]. destruct (decide (n = ctr)) as [->|Hn].
  - by rewrite Hnew, HW.
  - destruct (W !! n) as [v|] eqn:Hv.
    + destruct (leaf_view n v Hv) as (v' & -> & E & _). exact E.
    + rewrite Hother, Hv; [done|done|congruence].
Qed.

Lemma leaf_locks L d : d ctr = 0 → locks_ok G L W r d → locks_ok G' L W' r d.
Proof.
  intros Hd0 Hlo. destruct leaf_ne as (Hpc & Hrc). destruct (wf_ctr_fresh Hwf) as [HG HW].
  assert (ctr ∉ L) as HL by (intros Hin; pose proof (lo_live Hlo _ Hin) as Hx; rewrite HG in Hx; by destruct Hx).
  constructor.
  - intros n Hn. rewrite leaf_ghost by congruence. by apply (lo_live Hlo).
  - rewrite leaf_lock_of. apply (lo_root Hlo).
  - intros n v' Hn Hr Hv'. destruct (decide (n = ctr)) as [->|Hnn].
    + rewrite Hnew in Hv'. injection Hv' as <-. cbn.
      rewrite (proj1 (not_elem_of_multiplicity _ _) HL). lia.
    + rewrite leaf_ghost in Hn by done. destruct (wf_live_view Hwf n Hn) as [v Hv].
      destruct (leaf_view n v Hv) as (v'' & Hv'' & El & _ & _ & _ & Hsame).
      rewrite Hv' in Hv''. injection Hv'' as <-. rewrite El.
      destruct (lo_count Hlo n v Hn Hr Hv) as [H0 Hc]. split; [done|]. rewrite Hc. f_equal.
      rewrite (list_fmap_ext (lock_of W') (lock_of W)) by (intros; apply leaf_lock_of).
      destruct (decide (n = p)) as [->|Hnp]; [|by rewrite Hsame].
      rewrite Hp' in Hv'. injection Hv' as <-. rewrite Hpv in Hv. injection Hv as <-. cbn.
      rewrite dict_set_new by (by apply dict_get_None). rewrite !fmap_app, sum_Z_app. cbn.
      unfold lock_of at 3. rewrite HW. cbn. lia.
Qed.

Lemma leaf_sizes b : set_sum (sel_len b W' r) (dom G') =
  set_sum (sel_len b W r) (dom G) + (if b then Z.of_nat (klen k) else 0).
Proof.
  destruct leaf_ne as (Hpc & Hrc). destruct (wf_ctr_fresh Hwf) as [HG HW].
  unfold G'. rewrite dom_insert_L, set_sum_insert by (by apply not_elem_of_dom).
  rewrite (set_sum_ext (sel_len b W' r) (sel_len b W r)).
  - unfold sel_len at 1. rewrite Hnew. cbn. rewrite decide_False by done. destruct b; cbn; lia.
  - intros n Hn%elem_of_dom. destruct (wf_live_view Hwf n Hn) as [v Hv].
    destruct (leaf_view n v Hv) as (v' & Hv' & El & Ek & _).
    unfold sel_len. by rewrite Hv, Hv', El, Ek.
Qed.

Lemma leaf_vals n : n ≠ ctr → node_vals W' n = node_vals W n.
Proof.
  intros Hn. unfold node_vals. destruct (decide (n = p)) as [->|Hnp]; [|by rewrite Hother].
  by rewrite Hp', Hpv.
Qed.

Lemma leaf_slots : slots_of W' (dom G') ≡ₚ vs ++ slots_of W (dom G).
Proof.
  destruct (wf_ctr_fresh Hwf) as [HG HW]. apply not_elem_of_dom in HG.
  unfold G'. rewrite dom_insert_L, slots_of_insert by done.
  rewrite (slots_of_ext W' W (dom G)) by (intros; apply leaf_vals; congruence).
  unfold node_vals at 1. by rewrite Hnew.
Qed.

Lemma leaf_whole : all_whole ps G W → whole ps vs → all_whole ps G' W'.
Proof.
  intros Hw Hvs' n Hn. destruct (decide (n = ctr)) as [->|Hnn]; [unfold node_vals; by rewrite Hnew|].
  rewrite leaf_vals by done. apply Hw. by rewrite leaf_ghost in Hn.
Qed.
End leaf_views.

Section radix_insert.
Context {A : Type} `{KVPool A}.
Context (clock : nat → Z) (hash : list token → Z) (cfg : config).
Implicit Types st : cache A.
Abbreviation ps := (page_size cfg).
Abbreviation W st := (hview (heap st)).

(** One round: the walk moves down by [pl] tokens, splitting if it must. *)
Lemma insert_round G L st t node gn key_ ck n child :
  cache_wf cfg G L st → G !! node = Some gn → compat (W:=W st) (r:=root_node st) node (extra_key key_) →
  (ps | klen key_)%nat → klen key_ ≠ 0%nat → get_child_key key_ ps = Ok ck →
  heap st !! node = Some n → dict_get ck (children n) = Some child →
  let st1 := upd_node st child (λ c, set_time c t) in
  ∃ cn pl node' st' G' g', get_node st1 child = Ok cn ∧ key_match_fn cfg (key cn) key_ = Ok pl ∧
    (if decide (pl < klen (key cn))%nat then _split_node clock hash cfg st1 (key cn) child pl
     else Ok (child, st1)) = Ok (node', st') ∧
    cache_wf cfg G' L st' ∧ refines cfg G st G' st' ∧ G' !! node' = Some g' ∧
    compat (W:=W st') (r:=root_node st') node' (extra_key key_) ∧
    pl ≠ 0%nat ∧ (ps | pl)%nat ∧ (pl ≤ klen key_)%nat ∧ g'.1 = gn.1 ++ take pl (token_ids key_).
Proof.
  intros Hinv Hgn Hc Hd Hk Hck Hn Hdict st1.
  destruct (walk_round cfg G L _ st node gn key_ ck child Hinv Hgn Hc Hd Hk Hck n Hn Hdict)
    as (cn & g & vs & pl & Hcn & Hcr & Hvs & Hl & Hex & Hpl & (Hm1 & Hm2 & Hm3 & Hm4 & Hmax) & Hpl0).
  pose proof (upd_time_same st child t) as Hs. fold st1 in Hs.
  assert (heap st1 !! child = Some (set_time cn t)) as Hcn1 by (cbn; by rewrite lookup_alter_eq, Hcn).
  pose proof (cache_inv_same _ _ _ _ _ _ Hs Hinv) as Hinv1.
  exists (set_time cn t), pl. case_decide as Hlt; cbn [key set_time] in Hlt |- *.
  - destruct (split_node_spec clock hash cfg G L st1 child (set_time cn t) g pl Hinv1 (lk_ghost Hl) Hcn1)
      as (nn & st' & gl & Heq & Hinv' & Hrf & Hfr & Hnn & Hexn & pn & pg & vs' & Hpn & Hpg & Hvs' & Hvn & Hgl);
      try done.
    exists (counter st1), st', (<[counter st1:=gl]> G), gl. cbn in Hpn, Hexn, Hgl.
    assert (pn = node) as -> by (pose proof (lk_par Hl) as Hx; cbn in Hx; congruence).
    assert (pg = gn) as -> by congruence.
    split_and!; try done.
    + by apply get_node_ok.
    + eapply refines_trans; [by apply refines_same|exact Hrf].
    + by rewrite lookup_insert_eq.
    + right. exists (view nn). split; [by apply hview_Some|]. cbn. congruence.
    + by rewrite Hgl, <-Hm4.
  - exists child, st1, G, g. split_and!; try done.
    + by apply get_node_ok.
    + by apply refines_same.
    + apply (lk_ghost Hl).
    + right. exists (view cn). by rewrite (proj1 Hs), (hview_Some _ _ _ Hcn).
    + rewrite (lk_toks Hl), <-Hm4. unfold klen in Hlt. cbn. by rewrite (take_ge _ pl) by lia.
Qed.

(** How the loop ends: it has moved down by [k] tokens and there is no child to
    continue with. *)
Definition insert_end (G : ghost) (L : gmultiset nat) st gn key_ (value_ : list Z) (total : nat)
    (out : res (nat * RadixKey * list Z * child_key * nat * cache A)) : Prop :=
  ∃ last k ck' st' G' gl n',
    out = Ok (last, key_from key_ k, drop k value_, ck', (total + k)%nat, st') ∧
    cache_wf cfg G' L st' ∧ walked cfg G st gn key_ G' st' last gl ∧
    (k ≤ klen key_)%nat ∧ (ps | k)%nat ∧ gl.1 = gn.1 ++ take k (token_ids key_) ∧
    heap st' !! last = Some n' ∧
    (klen (key_from key_ k) ≠ 0%nat →
       get_child_key (key_from key_ k) ps = Ok ck' ∧ dict_get ck' (children n') = None).

Lemma insert_stop G L st node gn key_ value_ ck total n :
  cache_wf cfg G L st → G !! node = Some gn → compat (W:=W st) (r:=root_node st) node (extra_key key_) →
  (klen key_ ≠ 0%nat → get_child_key key_ ps = Ok ck) → heap st !! node = Some n →
  klen key_ = 0%nat ∨ klen key_ ≠ 0%nat ∧ dict_get ck (children n) = None →
  insert_end G L st gn key_ value_ total (Ok (node, key_, value_, ck, total, st)).
Proof.
  intros Hinv Hgn Hc Hck Hn Hor. exists node, 0%nat, ck, st, G, gn, n.
  replace (key_from key_ 0) with key_ by (by destruct key_). rewrite drop_0, Nat.add_0_r.
  split_and!; try done || lia; [|apply Nat.divide_0_r|cbn; by rewrite app_nil_r|].
  - eapply (walked_stop cfg G L _ st node gn key_ ck n); eauto. naive_solver.
  - intros. destruct Hor as [|[]]; [done|]. auto.
Qed.

Lemma insert_loop_spec fuel : ∀ G L st t node gn key_ value_ ck total,
  cache_wf cfg G L st → G !! node = Some gn → compat (W:=W st) (r:=root_node st) node (extra_key key_) →
  (ps | klen key_)%nat → (klen key_ ≠ 0%nat → get_child_key key_ ps = Ok ck) →
  (klen key_ < fuel)%nat →
  insert_end G L st gn key_ value_ total
    (insert_loop clock hash cfg fuel st t node key_ value_ ck total).
Proof.
  induction fuel as [|fuel IH]; intros G L st t node gn key_ value_ ck total Hinv Hgn Hc Hd Hck Hfuel; [lia|].
  destruct (wf_live_view (ci_wf Hinv) node ltac:(eauto)) as [nv Hnv].
  rewrite hview_lookup in Hnv. destruct (heap st !! node) as [n|] eqn:Hn; [|done]. clear nv Hnv.
  cbn [insert_loop].
  case_decide as Hk; [eapply insert_stop; eauto|].
  rewrite (get_node_ok _ _ _ Hn). cbn [res_bind].
  destruct (dict_get ck (children n)) as [child|] eqn:Hdict; [|eapply insert_stop; eauto].
  destruct (insert_round G L st t node gn key_ ck n child Hinv Hgn Hc Hd Hk (Hck Hk) Hn Hdict)
    as (cn & pl & node' & st1 & G1 & g1 & -> & Hpl & Hsp & Hinv1 & Hrf1 & Hg1 & Hc1 & Hp0 & Hpd & Hple & Hg1').
  cbn [res_bind]. rewrite Hpl. cbn [res_bind]. rewrite Hsp. cbn [res_bind].
  set (key1 := key_from key_ pl).
  assert (klen key1 = klen key_ - pl)%nat as Hl1 by (unfold klen, key1; cbn; by rewrite length_drop).
  assert (∃ ck', (if decide (klen key1 = 0%nat) then Ok ck else get_child_key_fn cfg key1) = Ok ck' ∧
    (klen key1 ≠ 0%nat → get_child_key key1 ps = Ok ck')) as (ck1 & -> & Hck1).
  { destruct (decide (klen key1 = 0%nat)); [by exists ck|]. destruct (get_child_key_ok key1 ps) as (ck1 & ? & _); [done|]. by exists ck1. }
  cbn [res_bind].
  destruct (IH G1 L st1 t node' g1 key1 (drop pl value_) ck1 (total + pl)%nat Hinv1 Hg1 Hc1)
    as (last & k & ck' & st' & G' & gl & n' & -> & Hinv' & Hwk & Hkl & Hkd & Hgl & Hn' & Hend); try done.
  { rewrite Hl1. by apply Nat.divide_sub_r. }
  { lia. }
  exists last, (pl + k)%nat, ck', st', G', gl, n'.
  assert (key_from key1 k = key_from key_ (pl + k)) as Hkk by (unfold key1, key_from; cbn; by rewrite drop_drop).
  rewrite Hkk in *. rewrite drop_drop, Nat.add_assoc.
  split_and!; try done; [| |by apply Nat.divide_add_r|].
  - eapply walked_refines; [exact Hrf1|]. eapply walked_step; [exact Hpd|done|exact Hg1'|exact Hwk].
  - lia.
  - by rewrite Hgl, Hg1', take_page_step, app_assoc.
Qed.

(** What an insertion of [toks] with the KV indices [value_] under [e] does:
    [k] tokens were cached already, with the indices [I]; the others are now
    cached with their part of [value_], and nothing else changes. *)
Record inserted (G : ghost) st (e : option string) (toks : list token) (value_ : list Z)
    (k : nat) (G' : ghost) st' (I : list Z) : Prop := {
  is_ghost : G ⊆ G';
  is_root : root_node st' = root_node st;
  is_alloc : allocator st' = allocator st;
  is_bound : (k ≤ length toks)%nat;
  is_aligned : (ps | k)%nat;
  is_len : length I = k;
  is_old : k ≠ 0%nat → cached cfg G st e (take k toks) I;
  is_max : ∀ t i, cached cfg G st e t i → t `prefix_of` toks → (length t ≤ k)%nat;
  is_cached : ∀ e' t i, cached cfg G' st' e' t i ↔
    cached cfg G st e' t i ∨
    (toks ≠ [] ∧ e' = e ∧ t `prefix_of` toks ∧ (ps | length t)%nat ∧ i = take (length t) (I ++ drop k value_));
  is_slots : slots_of (W st') (dom G') ≡ₚ drop k value_ ++ slots_of (W st) (dom G);
  is_whole : all_whole ps G (W st) → whole ps (drop k value_) → all_whole ps G' (W st');
  is_evictable : evictable_size_ st' = evictable_size_ st + (Z.of_nat (length toks) - Z.of_nat k);
  is_protected : protected_size_ st' = protected_size_ st
}.

(** Hanging the leaf below the node the walk stopped at. *)
Lemma add_leaf_spec G L st node gn n key_ value_ ck (total : nat) :
  cache_wf cfg G L st → G !! node = Some gn → heap st !! node = Some n →
  compat (W:=W st) (r:=root_node st) node (extra_key key_) → klen key_ ≠ 0%nat → (ps | klen key_)%nat →
  length value_ = klen key_ → get_child_key key_ ps = Ok ck → dict_get ck (children n) = None →
  let gl := (gn.1 ++ token_ids key_, gn.2 ++ value_) in
  let G' := <[counter st := gl]> G in
  ∃ st', (let '(new_node, st) := new_tree_node clock st in
          let st := upd_node st new_node (λ n, set_parent (set_key_value n key_ (Some value_)) (Some node)) in
          let! _ := get_node st node in
          let st := upd_node st node (λ n, set_children n (dict_set ck new_node (children n))) in
          let st := set_sizes st (evictable_size_ st + Z.of_nat (klen key_)) (protected_size_ st) in
          let! st := _record_store_event hash cfg st new_node in
          Ok (total, st)) = Ok (total, st') ∧
    cache_wf cfg G' L st' ∧ root_node st' = root_node st ∧ allocator st' = allocator st ∧
    evictable_size_ st' = evictable_size_ st + Z.of_nat (klen key_) ∧
    protected_size_ st' = protected_size_ st ∧ G !! counter st = None ∧
    slots_of (W st') (dom G') ≡ₚ value_ ++ slots_of (W st) (dom G) ∧
    (all_whole ps G (W st) → whole ps value_ → all_whole ps G' (W st')) ∧
    (∀ e t i, cached cfg G' st' e t i ↔ cached cfg G st e t i ∨
      (e = extra_key key_ ∧ t `prefix_of` gl.1 ∧ (ps | length t)%nat ∧ i = take (length t) gl.2)).
Proof.
  intros [Hwf Hlo He Hp] Hgn Hn Hc Hk0 Hkd Hv Hck Hnone gl G'.
  pose proof (hview_Some _ _ _ Hn) as Hpv.
  assert (node ≠ counter st ∧ root_node st ≠ counter st) as (Hpc & Hrc).
  { destruct (wf_ctr_fresh Hwf) as [HG HW]. destruct (wf_root Hwf) as (? & ? & _). split; congruence. }
  cbn [new_tree_node monotonic].
  unfold get_node, upd_node, set_heap. cbn [heap].
  rewrite lookup_alter_ne, lookup_insert_ne, Hn by done. cbn [of_opt res_bind].
  match goal with |- context [_record_store_event hash cfg _ ?y] => change y with (counter st) end.
  match goal with |- context [_record_store_event hash cfg ?x _] => set (mid := x) end.
  assert (heap mid !! counter st = Some (mkNode [] (Some node) key_ (Some value_) 0
    (clock (ticks st)) (clock (S (ticks st))) 0 0 None None)) as Hn1.
  { unfold mid; cbn [heap set_sizes]. by rewrite lookup_alter_ne, lookup_alter_eq, lookup_insert_eq by done. }
  assert (heap mid !! node = Some (set_children n (dict_set ck (counter st) (children n)))) as Hp1.
  { unfold mid; cbn [heap set_sizes]. by rewrite lookup_alter_eq, lookup_alter_ne, lookup_insert_ne, Hn. }
  assert (∀ m, m ≠ counter st → m ≠ node → heap mid !! m = heap st !! m) as Ho.
  { intros. unfold mid; cbn [heap set_sizes]. by rewrite !lookup_alter_ne, lookup_insert_ne. }
  assert (counter mid = S (counter st) ∧ root_node mid = root_node st ∧ allocator mid = allocator st ∧
    evictable_size_ mid = evictable_size_ st + Z.of_nat (klen key_) ∧
    protected_size_ mid = protected_size_ st) as (Em1 & Em2 & Em3 & Em4 & Em5) by done.
  clearbody mid.
  destruct (record_store_ok hash cfg mid (counter st)) as [q ->]; [by rewrite Em2|eauto|].
  exists (set_events mid q). split; [done|].
  apply hview_Some in Hn1, Hp1. unfold view in Hn1, Hp1; cbn in Hn1, Hp1.
  assert (∀ m, m ≠ counter st → m ≠ node → W mid !! m = W st !! m) as Hov.
  { intros. by rewrite !hview_lookup, Ho. }
  split_and!; try done; [|by apply (wf_ctr_fresh Hwf)| | |].
  - constructor; cbn [set_events heap counter root_node evictable_size_ protected_size_];
      rewrite ?Em1, ?Em2, ?Em4, ?Em5.
    + eapply leaf_wf; first [eassumption|done].
    + eapply leaf_locks; first [eassumption|done].
    + rewrite He. symmetry. eapply leaf_sizes with (b:=true); first [eassumption|done].
    + rewrite Hp. symmetry. etrans; [eapply leaf_sizes with (b:=false); first [eassumption|done]|]. lia.
  - eapply leaf_slots; first [eassumption|done].
  - eapply leaf_whole; first [eassumption|done].
  - intros. unfold cached. cbn. rewrite Em2. eapply leaf_cached; first [eassumption|done].
Qed.

(** What a walk from the root says about the content. *)
Lemma walked_root G L d st key_ G2 st2 last gl k :
  cache_inv cfg G2 L d st2 → walked cfg G st ([], []) key_ G2 st2 last gl →
  (k ≤ klen key_)%nat → gl.1 = take k (token_ids key_) →
  length gl.2 = k ∧
  (k ≠ 0%nat → cached cfg G st (extra_key key_) (take k (token_ids key_)) gl.2) ∧
  (∀ t i, cached cfg G st (extra_key key_) t i → t `prefix_of` token_ids key_ → (length t ≤ k)%nat).
Proof.
  intros Hinv2 [Hrf Hlast Hc _ Hmax] Hk Hgl. cbn in Hmax. unfold klen in Hk.
  assert (length gl.2 = k) as Hlen.
  { rewrite <-(proj1 (wf_path (ci_wf Hinv2) _ _ Hlast)), Hgl, length_take. lia. }
  split_and!; [done| |].
  - intros Hk0. apply (rf_cached Hrf). rewrite <-Hgl. eapply node_cached; eauto. intros ->.
    destruct (wf_root (ci_wf Hinv2)) as (? & _ & ? & _). simplify_eq/=.
  - intros t i Hcd Hp. specialize (Hmax t i Hcd Hp). rewrite Hgl, length_take in Hmax. lia.
Qed.

(** The key was cached entirely. *)
Lemma inserted_full G L st key_ value_ G2 st2 last gl :
  cache_wf cfg G2 L st2 → walked cfg G st ([], []) key_ G2 st2 last gl →
  gl.1 = take (klen key_) (token_ids key_) → (ps | klen key_)%nat → klen key_ ≠ 0%nat →
  length value_ = klen key_ →
  inserted G st (extra_key key_) (token_ids key_) value_ (klen key_) G2 st2 gl.2.
Proof.
  intros Hinv2 Hwk Hgl Hd Hk Hv.
  destruct (walked_root G L _ st key_ G2 st2 last gl (klen key_) Hinv2 Hwk ltac:(lia) Hgl) as (Hlen & Hold & Hmax).
  pose proof (wk_refines _ _ _ _ _ _ _ _ _ Hwk) as Hrf.
  constructor; try done; [apply (rf_ghost Hrf)|apply (rf_root Hrf)|apply (rf_alloc Hrf)| | | | |apply (rf_protected Hrf)].
  - intros e' t i. rewrite (rf_cached Hrf). split; [by left|]. intros [|(_ & -> & Hp & Hpd & ->)]; [done|].
    specialize (Hold Hk). unfold klen in *. rewrite firstn_all in Hold.
    rewrite (drop_ge value_), app_nil_r by lia. by eapply cached_prefix.
  - rewrite drop_ge by lia. apply (rf_slots Hrf).
  - intros ? _. by apply (rf_whole Hrf).
  - rewrite (rf_evictable Hrf). unfold klen. lia.
Qed.

(** The rest of the key became a leaf. *)
Lemma inserted_leaf G L st key_ value_ k G2 st2 last gl n' ck' :
  cache_wf cfg G2 L st2 → walked cfg G st ([], []) key_ G2 st2 last gl →
  gl.1 = take k (token_ids key_) → (ps | klen key_)%nat → (ps | k)%nat → (k < klen key_)%nat →
  length value_ = klen key_ → heap st2 !! last = Some n' →
  get_child_key (key_from key_ k) ps = Ok ck' → dict_get ck' (children n') = None →
  ∃ st3 G3, (let '(new_node, st) := new_tree_node clock st2 in
          let st := upd_node st new_node (λ n, set_parent (set_key_value n (key_from key_ k)
                                                 (Some (drop k value_))) (Some last)) in
          let! _ := get_node st last in
          let st := upd_node st last (λ n, set_children n (dict_set ck' new_node (children n))) in
          let st := set_sizes st (evictable_size_ st + Z.of_nat (klen (key_from key_ k))) (protected_size_ st) in
          let! st := _record_store_event hash cfg st new_node in
          Ok (k, st)) = Ok (k, st3) ∧
    cache_wf cfg G3 L st3 ∧ inserted G st (extra_key key_) (token_ids key_) value_ k G3 st3 gl.2.
Proof.
  intros Hinv2 Hwk Hgl Hd Hkd Hlt Hv Hn' Hck' Hnone.
  destruct (walked_root G L _ st key_ G2 st2 last gl k Hinv2 Hwk ltac:(lia) Hgl) as (Hlen & Hold & Hmax).
  destruct Hwk as [Hrf Hlast Hc _ _].
  assert (klen (key_from key_ k) = klen key_ - k)%nat as Hkl by (unfold klen; cbn; by rewrite length_drop).
  destruct (add_leaf_spec G2 L st2 last gl n' (key_from key_ k) (drop k value_) ck' k)
    as (st3 & Heq & Hinv3 & Hroot & Hal & Hev & Hpr & Hfr & Hsl & Hwh & Hcd); try done.
  { lia. }
  { rewrite Hkl. by apply Nat.divide_sub_r. }
  { rewrite length_drop. lia. }
  exists st3. eexists. split_and!; [exact Heq|exact Hinv3|]. clear Heq.
  assert (gl.1 ++ token_ids (key_from key_ k) = token_ids key_) as Hpath by (rewrite Hgl; apply take_drop).
  rewrite Hpath in *. cbn in Hcd. unfold klen in Hlt. constructor; try done.
  - etrans; [apply (rf_ghost Hrf)|]. by apply insert_subseteq.
  - rewrite Hroot. apply (rf_root Hrf).
  - rewrite Hal. apply (rf_alloc Hrf).
  - lia.
  - intros e' t i. rewrite Hcd, (rf_cached Hrf).
    assert (token_ids key_ ≠ []) as Hne by (intros E; rewrite E in Hlt; cbn in Hlt; lia).
    clear -Hne. naive_solver.
  - by rewrite Hsl, (rf_slots Hrf).
  - intros. apply Hwh; [by apply (rf_whole Hrf)|done].
  - rewrite Hev, (rf_evictable Hrf), Hkl. unfold klen. lia.
  - rewrite Hpr. apply (rf_protected Hrf).
Qed.

Lemma insert_helper_spec G L st key_ value_ :
  cache_wf cfg G L st → (ps | klen key_)%nat → length value_ = klen key_ →
  ∃ k st' G' I, _insert_helper clock hash cfg st (root_node st) key_ value_ = Ok (k, st') ∧
    cache_wf cfg G' L st' ∧
    inserted G st (extra_key key_) (token_ids key_) value_ k G' st' I.
Proof.
  intros Hinv Hd Hv. unfold _insert_helper. cbn [monotonic].
  match goal with |- context [upd_node ?x _ _] => set (st1 := upd_node x (root_node st) (λ n, set_time n (clock (ticks st)))) end.
  assert (same_tree st st1) as Hs.
  { unfold st1, same_tree, upd_node; cbn. by rewrite hview_alter_same. }
  assert (allocator st1 = allocator st) as Ha by done.
  pose proof (cache_inv_same _ _ _ _ _ _ Hs Hinv) as Hinv1.
  pose proof (refines_same cfg G st st1 Hs Ha) as Hr1.
  destruct (wf_root (ci_wf Hinv)) as (v & _ & Hg & _).
  case_decide as Hk.
  { exists 0%nat, st1, G, []. split_and!; try done. apply nil_length_inv in Hk. rewrite Hk.
    constructor; try done; [apply Nat.divide_0_r| | | | |].
    - intros t i _ Hp%prefix_length. exact Hp.
    - intros. rewrite (rf_cached Hr1). naive_solver.
    - rewrite drop_ge by (rewrite Hv; unfold klen; by rewrite Hk). apply (rf_slots Hr1).
    - intros ? _. by apply (rf_whole Hr1).
    - cbn. lia. }
  destruct (get_child_key_ok key_ ps Hk) as (ck & Hck & _).
  unfold get_child_key_fn. rewrite Hck. cbn [res_bind].
  destruct (insert_loop_spec (S (klen key_)) G L st1 (clock (ticks st)) (root_node st) ([], []) key_ value_ ck 0)
    as (last & k & ck' & st2 & G2 & gl & n' & -> & Hinv2 & Hwk & Hkl & Hkd & Hgl & Hn' & Hend); try done.
  { by left. }
  { lia. }
  cbn [res_bind Nat.add]. cbn in Hgl. apply (walked_same cfg G st st1 _ _ _ _ _ _ Hs Ha) in Hwk.
  assert (klen (key_from key_ k) = klen key_ - k)%nat as Hl1 by (unfold klen; cbn; by rewrite length_drop).
  case_decide as Hk'.
  - assert (k = klen key_) as -> by lia. exists (klen key_), st2, G2, gl.2. split_and!; try done.
    by eapply inserted_full.
  - destruct (Hend Hk') as [Hck' Hnone].
    destruct (inserted_leaf G L st key_ value_ k G2 st2 last gl n' ck') as (st3 & G3 & ? & ? & ?);
      try done; [lia|]. exists k, st3, G3, gl.2. by split_and!.
Qed.

(** [insert]: the converted key has whole pages and there is an index per token. *)
Lemma insert_spec G L st key_ value_ :
  cache_wf cfg G L st → disable cfg = false →
  let toks := key_convert_fn cfg (token_ids key_) in
  let v := if is_eagle cfg then take (length toks) value_ else value_ in
  (ps | length toks)%nat → length v = length toks →
  ∃ k st' G' I, insert clock hash cfg st key_ (Some value_) = Ok (k, st') ∧
    cache_wf cfg G' L st' ∧ inserted G st (extra_key key_) toks v k G' st' I.
Proof.
  intros Hinv Hdis toks v Hd Hv. unfold insert. rewrite Hdis. cbn [res_bind].
  apply (insert_helper_spec G L st (mkKey toks (extra_key key_)) v Hinv Hd Hv).
Qed.
End radix_insert.
