(* ===== verification/RadixLock.v ===== *)
(** * Lock references

    [inc_lock_ref] and [dec_lock_ref] walk from a node to the root.  Both are
    one loop, [lock_loop], which adds [z = 1] or [z = -1] to the counters on the
    way and moves a node's tokens between the two size counters when it becomes
    or stops being locked. *)

From stdpp Require Import gmultiset.
From S2P Require Import Prelude KVAllocator KVAllocatorProofs KVAllocatorSpec.
From S2P Require Import RadixTree RadixInv RadixSplit RadixMatch.

(** The nodes from [n] up to, but not including, the root. *)
Fixpoint chain (W : views) (r n : nat) (l : list nat) : Prop :=
  match l with
  | [] => n = r
  | x :: l' => x = n ∧ n ≠ r ∧ ∃ v p, W !! n = Some v ∧ vpar v = Some p ∧ chain W r p l'
  end.

Definition add_lock (z : Z) (n : TreeNode) : TreeNode := set_lock n (lock_ref n + z).
Definition relock (z : Z) (l : list nat) (h : gmap nat TreeNode) : gmap nat TreeNode :=
  foldl (λ h n, alter (add_lock z) n h) h l.

Lemma relock_lookup z l h n : NoDup l →
  relock z l h !! n = if decide (n ∈ l) then add_lock z <$> h !! n else h !! n.
Proof.
  revert h. induction l as [|x l IH]; intros h Hnd; [done|].
  apply NoDup_cons in Hnd as [Hx Hnd]. cbn. unfold relock in IH. rewrite IH by done.
  destruct (decide (n = x)) as [->|Hne].
  - rewrite decide_False by done. rewrite decide_True by left. by rewrite lookup_alter_eq.
  - rewrite lookup_alter_ne by done. destruct (decide (n ∈ l)).
    + by rewrite decide_True by (by right).
    + rewrite decide_False; [done|]. set_solver.
Qed.

Lemma relock_cancel z l h : NoDup l → relock (- z) l (relock z l h) = h.
Proof.
  intros Hnd. apply map_eq. intros n. rewrite !relock_lookup by done.
  case_decide; [|done]. destruct (h !! n) as [[]|]; cbn; [|done]. do 2 f_equal.
  unfold add_lock, set_lock; cbn. f_equal. lia.
Qed.

(** ** Views that differ in the locks only *)
Definition relocked (W W' : views) : Prop :=
  ∀ n, (λ v, (vch v, vpar v, vkey v, vval v)) <$> W' !! n = (λ v, (vch v, vpar v, vkey v, vval v)) <$> W !! n.

Lemma relocked_view W W' n v : relocked W W' → W !! n = Some v → ∃ v', W' !! n = Some v' ∧
  vch v' = vch v ∧ vpar v' = vpar v ∧ vkey v' = vkey v ∧ vval v' = vval v.
Proof.
  intros HR Hv. specialize (HR n). rewrite Hv in HR. destruct (W' !! n) as [v'|]; [|done].
  cbn in HR. simplify_eq. eauto 10.
Qed.
Lemma relocked_sym W W' : relocked W W' → relocked W' W.
Proof. intros HR n. by rewrite HR. Qed.

Lemma relocked_linked ps G W W' r n v pid pv g pg vs : relocked W W' →
  W !! n = Some v → linked ps G W r n v pid pv g pg vs →
  ∃ v' pv', W' !! n = Some v' ∧ linked ps G W' r n v' pid pv' g pg vs.
Proof.
  intros HR Hv Hl. destruct (relocked_view W W' n v HR Hv) as (v' & Hv' & _ & E2 & E3 & E4).
  destruct (relocked_view W W' pid pv HR (lk_pview Hl)) as (pv' & Hpv' & F1 & _ & F3 & _).
  exists v', pv'. split; [done|]. destruct Hl. constructor; rewrite ?E2, ?E3, ?E4, ?F1, ?F3; done.
Qed.

Lemma relocked_wf ps G W W' ctr r : relocked W W' → wf ps G W ctr r → wf ps G W' ctr r.
Proof.
  intros HR Hwf. constructor.
  - apply (wf_page Hwf).
  - destruct (wf_root Hwf) as (v & Hv & Hg & E). destruct (relocked_view W W' r v HR Hv) as (v' & ? & _ & E2 & E3 & E4).
    exists v'. by rewrite E2, E3, E4.
  - intros n Hn Hr. destruct (wf_node Hwf n Hn Hr) as (v & pid & pv & g & pg & vs & Hv & Hl).
    destruct (relocked_linked _ _ _ _ _ _ _ _ _ _ _ _ HR Hv Hl) as (v' & pv' & ? & ?). eauto 10.
  - intros n v' Hn Hv'. destruct (relocked_view W' W n v' (relocked_sym _ _ HR) Hv') as (v & Hv & E1 & _).
    destruct (wf_children Hwf n v Hn Hv) as [Hnd Hch]. rewrite <-E1. split; [done|].
    intros ck c Hc. destruct (Hch ck c Hc) as (Hgc & cv & Hcv & Hpar & Hk). split; [done|].
    destruct (relocked_view W W' c cv HR Hcv) as (cv' & ? & _ & E2 & E3 & _). exists cv'. by rewrite E2, E3.
  - intros n [v' Hv']. destruct (relocked_view W' W n v' (relocked_sym _ _ HR) Hv') as (v & Hv & _).
    apply (wf_fresh Hwf). eauto.
Qed.

Lemma relocked_Cached ps G W W' r e t i : relocked W W' → Cached ps G W' r e t i ↔ Cached ps G W r e t i.
Proof.
  revert W W'. enough (∀ W W', relocked W W' → Cached ps G W r e t i → Cached ps G W' r e t i) as Hdir.
  { intros W W' HR. split; apply Hdir; [by apply relocked_sym|done]. }
  intros W W' HR (n & v & g & Hr & Hv & Hg & He & Hrest).
  destruct (relocked_view W W' n v HR Hv) as (v' & Hv' & _ & _ & E & _).
  exists n, v', g. rewrite E. done.
Qed.

(** ** The way to the root is short *)
Lemma chain_exists ps G W ctr r n g : wf ps G W ctr r → G !! n = Some g →
  ∃ l, chain W r n l ∧ NoDup l ∧ Forall (λ x, is_Some (G !! x) ∧ x ≠ r ∧
    ∀ gx, G !! x = Some gx → (length gx.1 ≤ length g.1)%nat) l.
Proof.
  intros Hwf. remember (length g.1) as k eqn:Hk. revert n g Hk.
  induction (lt_wf k) as [k _ IH]; intros n g -> Hg.
  destruct (decide (n = r)) as [->|Hr]; [exists []; split_and!; by constructor|].
  destruct (wf_live_view Hwf n ltac:(eauto)) as [v Hv].
  destruct (wf_linked Hwf n v g Hg Hv Hr) as (p & pv & pg & vs & Hl).
  destruct (linked_below _ _ _ _ _ _ _ Hl) as (Hb & _). pose proof (wf_page Hwf).
  destruct (IH (length pg.1) ltac:(lia) p pg eq_refl (lk_pghost Hl)) as (l & Hch & Hnd & Hall).
  exists (n :: l). split_and!.
  - cbn. split_and!; [done|done|]. exists v, p. split_and!; [done|apply (lk_par Hl)|done].
  - constructor; [|done]. intros Hin. rewrite Forall_forall in Hall.
    destruct (Hall n Hin) as (_ & _ & Hle). specialize (Hle g Hg). lia.
  - constructor; [split_and!; eauto; intros; simplify_eq; lia|].
    eapply Forall_impl; [exact Hall|]. intros x (? & ? & Hle). split_and!; try done.
    intros gx Hgx. specialize (Hle gx Hgx). lia.
Qed.

Lemma chain_length {A} cfg G L d (st : cache A) n l :
  cache_inv cfg G L d st → chain (hview (heap st)) (root_node st) n l → NoDup l →
  (length l ≤ size (heap st))%nat.
Proof.
  intros _ Hch Hnd. rewrite <-size_dom. rewrite <-(size_list_to_set (C:=gset nat) l Hnd).
  apply subseteq_size. intros x Hx%elem_of_list_to_set.
  revert n Hch. clear Hnd. induction l as [|y l IH]; intros n Hch; [by apply not_elem_of_nil in Hx|].
  destruct Hch as (-> & Hr & v & p & Hv & Hp & Hch). apply elem_of_cons in Hx as [->|Hx].
  - rewrite hview_lookup in Hv. apply elem_of_dom. destruct (heap st !! n); [eauto|done].
  - by eapply IH.
Qed.

(** The node a lock operation has reached still lacks [z]. *)
Definition pending (n : nat) (z : Z) : nat → Z := λ m, if decide (m = n) then z else 0.

Section lock_step.
Context {ps : nat} {G : ghost} {L : gmultiset nat} {W W' : views} {ctr r : nat} (Hwf : wf ps G W ctr r).
Context {n p : nat} {v : nview} {z : Z} (Hn : is_Some (G !! n)) (Hr : n ≠ r) (Hv : W !! n = Some v)
        (Hp : vpar v = Some p) (Hlo : locks_ok G L W r (pending n z)).
Context (HW' : W' = alter (λ v, mkView (vch v) (vpar v) (vkey v) (vval v) (vlock v + z)) n W).

Lemma step_relocked : relocked W W'.
Proof.
  intros m. rewrite HW'. destruct (decide (m = n)) as [->|]; [|by rewrite lookup_alter_ne].
  rewrite lookup_alter_eq. by destruct (W !! n).
Qed.

Lemma step_lock_of m : lock_of W' m = lock_of W m + (if decide (m = n) then z else 0).
Proof.
  unfold lock_of. rewrite HW'. case_decide as E; [subst m|].
  - rewrite lookup_alter_eq, Hv. done.
  - rewrite lookup_alter_ne by done. lia.
Qed.

Lemma children_locks_nonneg m mv : is_Some (G !! m) → W !! m = Some mv →
  0 ≤ sum_Z (lock_of W <$> (vch mv).*2).
Proof.
  intros Hm Hmv. apply sum_Z_nonneg, Forall_fmap, Forall_fmap, Forall_forall. intros [k c] Hc. cbn.
  destruct (wf_children Hwf m mv Hm Hmv) as [Hnd Hch].
  destruct (wf_child Hwf m mv k c Hm Hmv) as (Hcr & cv & g & pg & vs & Hcv & Hl & _).
  { by apply dict_get_elem. }
  unfold lock_of. rewrite Hcv. cbn. apply (lo_count Hlo c cv); [|done|done].
  rewrite (lk_ghost Hl). eauto.
Qed.

Lemma step_nonneg : 0 ≤ vlock v + z.
Proof.
  destruct (lo_count Hlo n v Hn Hr Hv) as [_ E]. unfold pending in E. rewrite decide_True in E by done.
  pose proof (children_locks_nonneg n v Hn Hv). lia.
Qed.

(** Only the parent's sum of child locks sees the change. *)
Lemma step_children m mv : is_Some (G !! m) → W !! m = Some mv →
  sum_Z (lock_of W' <$> (vch mv).*2) = sum_Z (lock_of W <$> (vch mv).*2) + pending p z m.
Proof.
  intros Hm Hmv. destruct (wf_children Hwf m mv Hm Hmv) as [Hnd Hch].
  assert (∀ d : list (child_key * nat), n ∉ d.*2 →
    sum_Z (lock_of W' <$> d.*2) = sum_Z (lock_of W <$> d.*2)) as Hnone.
  { intros d Hd. f_equal. apply list_fmap_ext. intros i c Hc%list_elem_of_lookup_2.
    rewrite step_lock_of, decide_False; [lia|]. by intros ->. }
  unfold pending. case_decide as E; [subst m|].
  - destruct (wf_live_view Hwf n Hn) as [v' Hv']. destruct Hn as [g Hg].
    destruct (wf_linked Hwf n v g Hg Hv Hr) as (p' & pv & pg & vs & Hl).
    assert (p' = p) as -> by (pose proof (lk_par Hl); congruence).
    assert (pv = mv) as -> by (pose proof (lk_pview Hl); congruence).
    destruct (lk_child Hl) as (k & Hk & Hd).
    assert (n ∉ (dict_del k (vch mv)).*2) as Hnot.
    { intros ([k' c'] & E & Hin)%list_elem_of_fmap. cbn in E. subst c'. apply elem_of_dict_del in Hin as [Hne Hin]; [|done].
      destruct (Hch _ _ Hin) as (_ & cv & Hcv & _ & Hk'). congruence. }
    pose proof (dict_del_sum (lock_of W) _ _ _ Hd) as S1. pose proof (dict_del_sum (lock_of W') _ _ _ Hd) as S2.
    rewrite (Hnone _ Hnot) in S2. rewrite step_lock_of, decide_True in S2 by done. lia.
  - rewrite Hnone; [lia|]. intros ([k c] & E1 & Hin)%list_elem_of_fmap. cbn in E1. subst c.
    destruct (Hch _ _ Hin) as (_ & cv & Hcv & Hpar & _). congruence.
Qed.

Lemma step_locks : locks_ok G L W' r (pending p z).
Proof.
  constructor; [apply (lo_live Hlo)| |].
  - rewrite step_lock_of, decide_False by done. rewrite (lo_root Hlo). lia.
  - intros m v' Hm Hmr Hv'.
    destruct (relocked_view W' W m v' (relocked_sym _ _ step_relocked) Hv') as (mv & Hmv & E1 & _).
    rewrite <-E1, (step_children m mv Hm Hmv). destruct (lo_count Hlo m mv Hm Hmr Hmv) as [H0 E].
    assert (vlock v' = vlock mv + (if decide (m = n) then z else 0)) as El.
    { pose proof (step_lock_of m) as X. unfold lock_of in X. by rewrite Hv', Hmv in X. }
    rewrite El. unfold pending in E at 1. split; [|destruct (decide (m = n)); lia].
    destruct (decide (m = n)) as [->|]; [|lia].
    assert (mv = v) as -> by congruence. apply step_nonneg.
Qed.

Lemma step_sizes b : set_sum (sel_len b W' r) (dom G) = set_sum (sel_len b W r) (dom G) +
  ((if Bool.eqb (vlock v + z =? 0) b then Z.of_nat (klen (vkey v)) else 0) -
   (if Bool.eqb (vlock v =? 0) b then Z.of_nat (klen (vkey v)) else 0)).
Proof.
  rewrite (set_sum_update (sel_len b W' r) (sel_len b W r) n); [|by apply elem_of_dom|].
  - unfold sel_len. rewrite HW', lookup_alter_eq, Hv. cbn. by rewrite !decide_False by done.
  - intros m Hm Hmn. unfold sel_len. by rewrite HW', lookup_alter_ne.
Qed.
End lock_step.

(** ** The two loops as one *)
Section locks.
Context {A : Type} `{KVPool A}.
Context (cfg : config).
Implicit Types st : cache A.

Fixpoint lock_loop (z : Z) (exn : exn) (fuel : nat) st (node : nat) (delta : Z) : res (Z * cache A) :=
  match fuel with
  | O => Err OutOfFuel
  | S fuel =>
      if decide (node = root_node st) then Ok (delta, st) else
      let! n := get_node st node in
      let l := Z.of_nat (klen (key n)) in
      let '(st, delta) :=
        if lock_ref n =? (1 - z) / 2
        then (set_sizes st (evictable_size_ st - z * l) (protected_size_ st + z * l), delta - z * l)
        else (st, delta) in
      let st := upd_node st node (add_lock z) in
      let! p := of_opt exn (parent n) in
      lock_loop z exn fuel st p delta
  end.

Lemma inc_lock_loop_eq fuel st node delta :
  inc_lock_loop fuel st node delta = lock_loop 1 AttributeError fuel st node delta.
Proof.
  revert st node delta. induction fuel as [|fuel IH]; intros st node delta; [done|].
  cbn [lock_loop inc_lock_loop]. change ((1 - 1) / 2) with 0.
  case_decide; [done|]. destruct (get_node st node) as [n|]; [|done]. cbn [res_bind].
  rewrite Z.mul_1_l. by destruct (lock_ref n =? 0), (parent n); cbn [of_opt res_bind]; rewrite ?IH.
Qed.

Lemma dec_lock_loop_eq fuel st node delta :
  dec_lock_loop fuel st node delta = lock_loop (-1) AssertionError fuel st node delta.
Proof.
  revert st node delta. induction fuel as [|fuel IH]; intros st node delta; [done|].
  cbn [lock_loop dec_lock_loop]. change ((1 - -1) / 2) with 1.
  case_decide; [done|]. destruct (get_node st node) as [n|]; [|done]. cbn [res_bind].
  replace (delta - -1 * Z.of_nat (klen (key n))) with (delta + Z.of_nat (klen (key n))) by lia.
  replace (evictable_size_ st - -1 * Z.of_nat (klen (key n)))
    with (evictable_size_ st + Z.of_nat (klen (key n))) by lia.
  replace (protected_size_ st + -1 * Z.of_nat (klen (key n)))
    with (protected_size_ st - Z.of_nat (klen (key n))) by lia.
  by destruct (lock_ref n =? 1), (parent n); cbn [of_opt res_bind]; rewrite ?IH.
Qed.

Lemma hview_add_lock h n z : hview (alter (add_lock z) n h) =
  alter (λ v, mkView (vch v) (vpar v) (vkey v) (vval v) (vlock v + z)) n (hview h).
Proof.
  unfold hview. apply map_eq. intros m. destruct (decide (m = n)) as [->|].
  - rewrite lookup_fmap, !lookup_alter_eq, lookup_fmap. by destruct (h !! n).
  - by rewrite lookup_fmap, !lookup_alter_ne, lookup_fmap.
Qed.

(** The state after the counters on [l] were changed by [z] and [delta] tokens
    became evictable. *)
Definition with_locks z l delta st : cache A :=
  mkCache (relock z l (heap st)) (counter st) (ticks st) (root_node st)
    (evictable_size_ st + delta) (protected_size_ st - delta) (kv_event_queue st) (allocator st).

(** One round of the loop. *)
Lemma lock_round z exn fuel st node delta n p :
  node ≠ root_node st → heap st !! node = Some n → parent n = Some p →
  let δ := if lock_ref n =? (1 - z) / 2 then - z * Z.of_nat (klen (key n)) else 0 in
  lock_loop z exn (S fuel) st node delta =
  lock_loop z exn fuel (with_locks z [node] δ st) p (delta + δ).
Proof.
  intros Hr Hn Hp δ. cbn [lock_loop]. rewrite decide_False by done.
  rewrite (get_node_ok _ _ _ Hn). cbn [res_bind]. rewrite Hp. unfold δ, with_locks, upd_node, set_heap.
  destruct (_ =? _); cbn [of_opt res_bind heap counter ticks root_node evictable_size_ protected_size_
    kv_event_queue allocator set_sizes relock foldl]; f_equal; try lia; f_equal; lia.
Qed.

Lemma round_inv z G L st node n p :
  z = 1 ∨ z = -1 →
  cache_inv cfg G L (pending node z) st → is_Some (G !! node) → node ≠ root_node st →
  heap st !! node = Some n → parent n = Some p →
  let δ := if lock_ref n =? (1 - z) / 2 then - z * Z.of_nat (klen (key n)) else 0 in
  cache_inv cfg G L (pending p z) (with_locks z [node] δ st).
Proof.
  intros Hz [Hwf Hlo He Hpr] Hg Hr Hn Hp δ. pose proof (hview_Some _ _ _ Hn) as Hv.
  pose proof (hview_add_lock (heap st) node z) as HW'.
  pose proof (step_nonneg Hwf Hg Hr Hv Hlo) as H0.
  pose proof (proj1 (lo_count Hlo node _ Hg Hr Hv)) as H1. cbn in H0, H1.
  constructor; cbn [with_locks heap counter root_node evictable_size_ protected_size_ relock foldl].
  - eapply relocked_wf; [|exact Hwf]. by eapply step_relocked.
  - by eapply (step_locks Hwf Hg Hr Hv Hp Hlo).
  - rewrite (step_sizes Hg Hr Hv HW' true), He. cbn [view vlock vkey]. unfold δ.
    destruct Hz as [-> | ->]; [change ((1 - 1) / 2) with 0|change ((1 - -1) / 2) with 1];
      case_bools; cbn [Bool.eqb]; lia.
  - rewrite (step_sizes Hg Hr Hv HW' false), Hpr. cbn [view vlock vkey]. unfold δ.
    destruct Hz as [-> | ->]; [change ((1 - 1) / 2) with 0|change ((1 - -1) / 2) with 1];
      case_bools; cbn [Bool.eqb]; lia.
Qed.

Lemma with_locks_cons z x l δ1 δ2 st :
  with_locks z l δ2 (with_locks z [x] δ1 st) = with_locks z (x :: l) (δ1 + δ2) st.
Proof. unfold with_locks; cbn. f_equal; lia. Qed.

Lemma with_locks_chain z x δ st n l :
  chain (hview (heap st)) (root_node st) n l →
  chain (hview (heap (with_locks z [x] δ st))) (root_node st) n l.
Proof.
  revert n. induction l as [|y l IH]; intros n Hch; [done|].
  destruct Hch as (-> & Hr & v & p & Hv & Hp & Hch). split_and!; [done|done|].
  cbn [with_locks heap relock foldl]. rewrite hview_add_lock.
  destruct (decide (n = x)) as [->|Hne].
  - rewrite lookup_alter_eq, Hv. do 2 eexists. split_and!; [done|exact Hp|].
    specialize (IH p Hch). cbn [with_locks heap relock foldl] in IH. by rewrite hview_add_lock in IH.
  - rewrite lookup_alter_ne by done. exists v, p. split_and!; [done|done|].
    specialize (IH p Hch). cbn [with_locks heap relock foldl] in IH. by rewrite hview_add_lock in IH.
Qed.

Lemma lock_loop_spec z exn G L l : z = 1 ∨ z = -1 → ∀ fuel st node delta,
  cache_inv cfg G L (pending node z) st → chain (hview (heap st)) (root_node st) node l →
  is_Some (G !! node) → (length l < fuel)%nat →
  ∃ δ, lock_loop z exn fuel st node delta = Ok (delta + δ, with_locks z l δ st) ∧
    cache_inv cfg G L (pending (root_node st) z) (with_locks z l δ st).
Proof.
  intros Hz. induction l as [|x l IH]; intros fuel st node delta Hinv Hch Hg Hf.
  - cbn in Hch. subst. exists 0. destruct fuel; [cbn in Hf; lia|]. cbn [lock_loop].
    assert (with_locks z [] 0 st = st) as E.
    { destruct st; unfold with_locks; cbn. f_equal; lia. }
    rewrite decide_True, E, Z.add_0_r by done. done.
  - destruct Hch as (-> & Hr & v & p & Hv & Hp & Hch). destruct fuel as [|fuel]; [cbn in Hf; lia|].
    rewrite hview_lookup in Hv. destruct (heap st !! node) as [n|] eqn:Hn; [|done]. injection Hv as <-. cbn in Hp.
    rewrite (lock_round z exn fuel st node delta n p Hr Hn Hp).
    pose proof (round_inv z G L st node n p Hz Hinv Hg Hr Hn Hp) as Hinv1.
    set (δ1 := if _ =? _ then _ else _) in *.
    destruct Hg as [g Hg].
    destruct (wf_linked (ci_wf Hinv) node _ g Hg (hview_Some _ _ _ Hn) Hr) as (p' & pv & pg & vs & Hl).
    assert (p' = p) as -> by (pose proof (lk_par Hl) as X; cbn in X; congruence).
    destruct (IH fuel (with_locks z [node] δ1 st) p (delta + δ1) Hinv1) as (δ2 & -> & Hinv2).
    + by apply (with_locks_chain z node δ1 st).
    + rewrite (lk_pghost Hl). eauto.
    + cbn in Hf. lia.
    + exists (δ1 + δ2). rewrite with_locks_cons in *. cbn [root_node with_locks] in Hinv2.
      rewrite Z.add_assoc. done.
Qed.

Lemma pending_root G L st z : cache_inv cfg G L (pending (root_node st) z) st ↔ cache_wf cfg G L st.
Proof.
  split; intros [Hwf [Hl1 Hl2 Hl3] He Hp]; constructor; try done; constructor; try done;
    intros n v Hn Hr Hv; specialize (Hl3 n v Hn Hr Hv); unfold pending in *;
    rewrite decide_False in * by done; done.
Qed.

(** Adding and removing a holder. *)
Lemma pending_add G L st node : cache_wf cfg G L st → is_Some (G !! node) →
  cache_inv cfg G (L ⊎ {[+ node +]}) (pending node 1) st.
Proof.
  intros [Hwf [Hl1 Hl2 Hl3] He Hp] Hg. constructor; try done. constructor; try done.
  - intros n [?|?%gmultiset_elem_of_singleton]%gmultiset_elem_of_disj_union; [auto|by subst].
  - intros n v Hn Hr Hv. destruct (Hl3 n v Hn Hr Hv) as [? E]. split; [done|].
    rewrite multiplicity_disj_union, multiplicity_singleton. unfold pending. case_decide; lia.
Qed.

Lemma pending_remove G L st node : cache_wf cfg G L st → node ∈ L →
  cache_inv cfg G (L ∖ {[+ node +]}) (pending node (-1)) st.
Proof.
  intros [Hwf [Hl1 Hl2 Hl3] He Hp] Hg. constructor; try done. constructor; try done.
  - intros n Hn. apply Hl1. multiset_solver.
  - intros n v Hn Hr Hv. destruct (Hl3 n v Hn Hr Hv) as [? E]. split; [done|].
    rewrite elem_of_multiplicity in Hg.
    rewrite multiplicity_difference, multiplicity_singleton. unfold pending.
    case_decide; [subst|]; lia.
Qed.

(** ** The operations *)
Lemma inc_lock_ref_spec G L st node :
  cache_wf cfg G L st → is_Some (G !! node) → disable cfg = false →
  ∃ l δ, chain (hview (heap st)) (root_node st) node l ∧ NoDup l ∧
    inc_lock_ref cfg st node = Ok (δ, with_locks 1 l δ st) ∧
    cache_wf cfg G (L ⊎ {[+ node +]}) (with_locks 1 l δ st).
Proof.
  intros Hinv [g Hg] Hdis. destruct (chain_exists _ _ _ _ _ _ _ (ci_wf Hinv) Hg) as (l & Hch & Hnd & _).
  pose proof (chain_length cfg G L _ st node l Hinv Hch Hnd) as Hlen.
  destruct (lock_loop_spec 1 AttributeError G (L ⊎ {[+ node +]}) l ltac:(lia) (S (size (heap st))) st node 0)
    as (δ & Heq & Hinv'); [by apply pending_add|done|eauto|lia|].
  exists l, δ. split_and!; [done|done| |].
  - unfold inc_lock_ref. rewrite Hdis, inc_lock_loop_eq, Heq. done.
  - by eapply pending_root.
Qed.

Lemma dec_lock_ref_spec G L st node :
  cache_wf cfg G L st → node ∈ L → disable cfg = false →
  ∃ l δ, chain (hview (heap st)) (root_node st) node l ∧ NoDup l ∧
    dec_lock_ref cfg st node = Ok (δ, with_locks (-1) l δ st) ∧
    cache_wf cfg G (L ∖ {[+ node +]}) (with_locks (-1) l δ st).
Proof.
  intros Hinv HL Hdis. destruct (lo_live (ci_locks Hinv) node HL) as [g Hg].
  destruct (chain_exists _ _ _ _ _ _ _ (ci_wf Hinv) Hg) as (l & Hch & Hnd & _).
  pose proof (chain_length cfg G L _ st node l Hinv Hch Hnd) as Hlen.
  destruct (lock_loop_spec (-1) AssertionError G (L ∖ {[+ node +]}) l ltac:(lia) (S (size (heap st))) st node 0)
    as (δ & Heq & Hinv'); [by apply pending_remove|done|eauto|lia|].
  exists l, δ. split_and!; [done|done| |].
  - unfold dec_lock_ref. rewrite Hdis, dec_lock_loop_eq, Heq. done.
  - by eapply pending_root.
Qed.

(** Changing locks leaves the content alone. *)
Lemma with_locks_view z l δ st : relocked (hview (heap st)) (hview (heap (with_locks z l δ st))).
Proof.
  cbn [with_locks heap]. generalize (heap st). induction l as [|x l IH]; intros h n; [done|].
  cbn [relock foldl]. etrans; [apply IH|]. rewrite hview_add_lock.
  destruct (decide (n = x)) as [->|]; [|by rewrite lookup_alter_ne].
  rewrite lookup_alter_eq. by destruct (hview h !! x).
Qed.

Lemma with_locks_cached z l δ G st e t i :
  cached cfg G (with_locks z l δ st) e t i ↔ cached cfg G st e t i.
Proof. apply relocked_Cached, with_locks_view. Qed.
End locks.
