(* ===== verification/RadixWalk.v ===== *)
(** * Traversals with an explicit stack

    [_collect_leaves] and [_total_size_helper] pop a node from a stack and push
    its children.  [frontier] says which nodes a stack has yet to visit; both
    loops visit each of them once, so the size of the heap is enough fuel. *)

From stdpp Require Import gmultiset.
From S2P Require Import Prelude KVAllocator KVAllocatorProofs KVAllocatorSpec.
From S2P Require Import RadixTree RadixInv RadixSplit RadixMatch.

Section frontier.
Context {ps : nat} {G : ghost} {W : views} {ctr r : nat} (Hwf : wf ps G W ctr r).

(** [X] are the nodes at or below the stack [S]. *)
Record frontier (S : list nat) (X : gset nat) : Prop := {
  fr_nodup : NoDup S;
  fr_in : ∀ n, n ∈ S → n ∈ X;
  fr_live : ∀ n, n ∈ X → is_Some (G !! n);
  fr_closed : ∀ n v k c, n ∈ X → W !! n = Some v → (k, c) ∈ vch v → c ∈ X;
  fr_above : ∀ n v, n ∈ X → W !! n = Some v → n ∈ S ∨ ∃ p, vpar v = Some p ∧ p ∈ X;
  fr_top : ∀ n v p, n ∈ S → W !! n = Some v → vpar v = Some p → p ∉ X
}.

Lemma frontier_perm S S' X : S ≡ₚ S' → frontier S X → frontier S' X.
Proof.
  intros HP [H1 H2 H3 H4 H5 H6]. constructor; [by rewrite <-HP| |done|done| |].
  - intros n. rewrite <-HP. auto.
  - intros n v Hn Hv. rewrite <-HP. by apply H5.
  - intros n v p. rewrite <-HP. by apply H6.
Qed.

Lemma frontier_nil X : frontier [] X → X = ∅.
Proof.
  intros HF. apply elem_of_equiv_empty_L. intros n Hn.
  destruct (fr_live _ _ HF n Hn) as [g Hg]. remember (length g.1) as k eqn:Hk. revert n g Hk Hn Hg.
  induction (lt_wf k) as [k _ IH]; intros n g -> Hn Hg.
  destruct (wf_live_view Hwf n ltac:(eauto)) as [v Hv].
  destruct (fr_above _ _ HF n v Hn Hv) as [?%not_elem_of_nil|(p & Hp & HpX)]; [done|].
  destruct (fr_live _ _ HF p HpX) as [pg Hpg].
  destruct (decide (n = r)) as [->|Hr].
  { destruct (wf_root Hwf) as (? & ? & _ & ? & _). congruence. }
  destruct (wf_linked Hwf n v g Hg Hv Hr) as (p' & pv & pg' & vs & Hl).
  pose proof (lk_par Hl). assert (p' = p) as -> by congruence.
  pose proof (lk_pghost Hl). assert (pg' = pg) as -> by congruence.
  destruct (linked_below _ _ _ _ _ _ _ Hl) as (Hb & _). pose proof (wf_page Hwf).
  eapply (IH (length pg.1)); [lia|done|exact HpX|done].
Qed.

Lemma frontier_pop S n v X :
  frontier (S ++ [n]) X → W !! n = Some v → frontier (S ++ (vch v).*2) (X ∖ {[n]}) ∧ n ∈ X.
Proof.
  intros [H1 H2 H3 H4 H5 H6] Hv.
  apply NoDup_app in H1 as (HndS & Hdis & _).
  assert (n ∉ S) as HnS by set_solver. assert (n ∈ X) as HnX by (apply H2; set_solver).
  destruct (wf_children Hwf n v (H3 n HnX) Hv) as [Hndk Hch].
  assert (∀ c, c ∈ (vch v).*2 → c ∈ X ∧ c ≠ n ∧ c ∉ S ∧ ∃ cv, W !! c = Some cv ∧ vpar cv = Some n) as Hc.
  { intros c ([k c'] & E & Hin)%list_elem_of_fmap. cbn in E. subst c'.
    destruct (Hch k c Hin) as (_ & cv & Hcv & Hpar & _).
    split_and!; [by eapply H4| | |by eauto].
    - intros ->. assert (v = cv) as <- by congruence. destruct (H6 n v n); [set_solver|done|done|done].
    - intros HcS. destruct (H6 c cv n); [set_solver|done|done|done]. }
  split; [|done]. constructor.
  - apply NoDup_app. split_and!; [done| |].
    + intros x HxS Hx%Hc. naive_solver.
    + apply NoDup_fmap_2_strong; [|by eapply NoDup_fmap_1].
      intros [k1 c1] [k2 c2] Hin1 Hin2 E. cbn in E. subst c2.
      destruct (Hch _ _ Hin1) as (_ & cv1 & Hcv1 & _ & E1), (Hch _ _ Hin2) as (_ & cv2 & Hcv2 & _ & E2).
      congruence.
  - intros m [Hm|Hm%Hc]%elem_of_app; [|set_solver]. set_solver.
  - intros m Hm. apply H3. set_solver.
  - intros m mv k c Hm Hmv Hin. assert (c ∈ X) as HcX by (eapply (H4 m); [set_solver|done..]).
    enough (c ≠ n) by set_solver. intros ->.
    destruct (wf_children Hwf m mv (H3 m ltac:(set_solver)) Hmv) as [_ Hch'].
    destruct (Hch' k n Hin) as (_ & nv & Hnv & Hpar & _).
    destruct (H6 n nv m); [set_solver|done|done|set_solver].
  - intros m mv Hm Hmv. destruct (H5 m mv ltac:(set_solver) Hmv) as [HmS|(p & Hp & HpX)].
    + left. set_solver.
    + destruct (decide (p = n)) as [->|]; [|right; exists p; set_solver].
      left. apply elem_of_app. right.
      destruct (decide (m = r)) as [->|Hmr].
      { destruct (wf_root Hwf) as (? & ? & _ & ? & _). congruence. }
      destruct (H3 m ltac:(set_solver)) as [g Hg].
      destruct (wf_linked Hwf m mv g Hg Hmv Hmr) as (p' & pv & pg & vs & Hl).
      pose proof (lk_par Hl). assert (p' = n) as -> by congruence.
      pose proof (lk_pview Hl). assert (pv = v) as -> by congruence.
      destruct (lk_child Hl) as (k & _ & Hd). apply list_elem_of_fmap. exists (k, m).
      split; [done|]. by apply dict_get_Some_elem.
  - intros m mv p [Hm|Hm]%elem_of_app Hmv Hp HpX.
    + apply (H6 m mv p); [set_solver|done|done|set_solver].
    + destruct (Hc m Hm) as (_ & _ & _ & cv & Hcv & Hpar). set_solver.
Qed.

Lemma frontier_root : frontier [r] (dom G).
Proof.
  destruct (wf_root Hwf) as (rv & Hrv & Hg & Hpar & _). constructor.
  - apply NoDup_singleton.
  - intros n ->%list_elem_of_singleton. apply elem_of_dom. eauto.
  - intros n Hn. by apply elem_of_dom.
  - intros n v k c Hn Hv Hin. apply elem_of_dom in Hn.
    destruct (wf_children Hwf n v Hn Hv) as [_ Hch]. apply elem_of_dom. by apply (Hch k c).
  - intros n v Hn Hv. destruct (decide (n = r)) as [->|Hr]; [left; set_solver|right].
    apply elem_of_dom in Hn as [g Hg']. destruct (wf_linked Hwf n v g Hg' Hv Hr) as (p & pv & pg & vs & Hl).
    exists p. split; [apply (lk_par Hl)|]. apply elem_of_dom. rewrite (lk_pghost Hl). eauto.
  - intros n v p ->%list_elem_of_singleton Hv Hp. congruence.
Qed.

Lemma frontier_children rv : W !! r = Some rv → frontier (vch rv).*2 (dom G ∖ {[r]}).
Proof. intros Hrv. by apply (frontier_pop [] r rv (dom G) frontier_root). Qed.
End frontier.

Lemma last_snoc_inv {T} (l : list T) x : last l = Some x → l = take (length l - 1) l ++ [x].
Proof.
  intros Hl. destruct l as [|y l' _] using rev_ind; [done|]. rewrite last_snoc in Hl. injection Hl as ->.
  rewrite length_app. cbn. rewrite Nat.add_sub, take_app_length. done.
Qed.

Section walks.
Context {A : Type} `{KVPool A}.
Context (cfg : config).
Implicit Types st : cache A.

(** A node that can be evicted next. *)
Definition unlocked_leaf (G : ghost) st (n : nat) : Prop :=
  n ≠ root_node st ∧ is_Some (G !! n) ∧ ∃ v, hview (heap st) !! n = Some v ∧ vch v = [] ∧ vlock v = 0.

Lemma collect_loop_spec G L d st : cache_inv cfg G L d st → ∀ fuel S X acc,
  frontier (G:=G) (W:=hview (heap st)) S X → root_node st ∉ X → (size X < fuel)%nat →
  ∃ out, collect_loop fuel st S acc = Ok (acc ++ out) ∧ NoDup out ∧
    ∀ n, n ∈ out ↔ n ∈ X ∧ unlocked_leaf G st n.
Proof.
  intros [Hwf _ _ _]. induction fuel as [|fuel IH]; intros S X acc HF Hr Hf; [lia|].
  cbn [collect_loop]. destruct (last S) as [n|] eqn:Hlast.
  2: { apply last_None in Hlast. subst S. rewrite (frontier_nil Hwf X HF).
       exists []. rewrite app_nil_r. split_and!; [done|constructor|set_solver]. }
  rewrite (last_snoc_inv _ _ Hlast) in HF. set (S' := take (length S - 1) S) in *.
  assert (n ∈ X) as HnX by (apply (fr_in _ _ HF); set_solver).
  destruct (wf_live_view Hwf n (fr_live _ _ HF n HnX)) as [v Hv].
  destruct (frontier_pop Hwf S' n v X HF Hv) as [HF' _].
  pose proof Hv as Hv'. rewrite hview_lookup in Hv'. destruct (heap st !! n) as [nd|] eqn:Hnd; [|done].
  injection Hv' as <-. rewrite (get_node_ok _ _ _ Hnd). cbn [res_bind].
  assert (size (X ∖ {[n]}) < size X)%nat by (apply subset_size; set_solver).
  cbn [view vch] in HF'. case_decide as Hleaf.
  - rewrite Hleaf in HF'. cbn in HF'. rewrite app_nil_r in HF'.
    destruct (IH S' (X ∖ {[n]}) (if lock_ref nd =? 0 then acc ++ [n] else acc) HF') as (out & -> & Hnd' & Ho); [set_solver|lia|].
    destruct (Z.eqb_spec (lock_ref nd) 0) as [E|E].
    + exists (n :: out). rewrite <-app_assoc. split_and!; [done|constructor; [set_solver|done]|].
      intros m. rewrite elem_of_cons, Ho. split; [|destruct (decide (m = n)); set_solver].
      intros [->|[? ?]]; [|set_solver]. split; [done|]. split_and!; [by intros ->|by apply (fr_live _ _ HF)|].
      exists (view nd). done.
    + exists out. split_and!; [done..|]. intros m. rewrite Ho. split; [set_solver|].
      intros [Hm Hu]. split; [|done]. enough (m ≠ n) by set_solver. intros ->.
      destruct Hu as (_ & _ & v' & ? & _ & El). assert (v' = view nd) as -> by congruence. done.
  - destruct (IH _ (X ∖ {[n]}) acc HF') as (out & -> & Hnd' & Ho); [set_solver|lia|].
    exists out. split_and!; [done..|]. intros m. rewrite Ho. split; [set_solver|].
    intros [Hm Hu]. split; [|done]. enough (m ≠ n) by set_solver. intros ->.
    destruct Hu as (_ & _ & v' & ? & Ec & _). assert (v' = view nd) as -> by congruence. done.
Qed.

Lemma dom_ghost_size G L d st : cache_inv cfg G L d st → (size (dom G) ≤ size (heap st))%nat.
Proof.
  intros [Hwf _ _ _]. rewrite <-(size_dom (heap st)). apply subseteq_size. intros n Hn%elem_of_dom.
  destruct (wf_live_view Hwf n Hn) as [v Hv]. rewrite hview_lookup in Hv.
  apply elem_of_dom. destruct (heap st !! n); [eauto|done].
Qed.

Lemma collect_leaves_spec G L d st : cache_inv cfg G L d st →
  ∃ out, _collect_leaves st = Ok out ∧ NoDup out ∧ ∀ n, n ∈ out ↔ unlocked_leaf G st n.
Proof.
  intros Hinv. pose proof (ci_wf Hinv) as Hwf. destruct (wf_root Hwf) as (rv & Hrv & _).
  pose proof (frontier_children Hwf rv Hrv) as HF.
  rewrite hview_lookup in Hrv. destruct (heap st !! root_node st) as [rn|] eqn:Hrn; [|done].
  injection Hrv as <-. cbn [view vch] in HF. unfold _collect_leaves. rewrite (get_node_ok _ _ _ Hrn). cbn [res_bind].
  destruct (collect_loop_spec G L d st Hinv (S (size (heap st))) _ _ [] HF) as (out & -> & Hnd & Ho); [set_solver| |].
  { pose proof (dom_ghost_size _ _ _ _ Hinv). pose proof (subseteq_size (dom G ∖ {[root_node st]}) (dom G) ltac:(set_solver)). lia. }
  exists out. split_and!; [done..|]. intros n. rewrite Ho. split; [naive_solver|].
  intros Hu. split; [|done]. destruct Hu as (? & ?%elem_of_dom & _). set_solver.
Qed.

(** The number of KV indices a node holds. *)
Definition val_len (W : views) (n : nat) : Z :=
  match W !! n with Some v => match vval v with Some vs => len vs | None => 0 end | None => 0 end.

Lemma children_not_evicted G L d st n nd : cache_inv cfg G L d st → is_Some (G !! n) → heap st !! n = Some nd →
  mapM_res (λ c, let! cn := get_node st c in Ok (c, evicted cn)) (children nd).*2 =
    Ok ((λ c, (c, false)) <$> (children nd).*2).
Proof.
  intros [Hwf _ _ _] Hn Hnd. destruct (wf_children Hwf n _ Hn (hview_Some _ _ _ Hnd)) as [Hk Hch]. cbn in Hk, Hch.
  assert (∀ c, c ∈ (children nd).*2 → ∃ cn, heap st !! c = Some cn ∧ evicted cn = false) as Hall.
  { intros c ([k c'] & E & Hin)%list_elem_of_fmap. cbn in E. subst c'.
    destruct (wf_child Hwf n (view nd) k c Hn (hview_Some _ _ _ Hnd)) as (_ & cv & g & pg & vs & Hcv & Hl & _).
    { by apply dict_get_elem. }
    rewrite hview_lookup in Hcv. destruct (heap st !! c) as [cn|] eqn:Hcn; [|done]. injection Hcv as <-.
    exists cn. split; [done|]. unfold evicted. pose proof (lk_val Hl) as X. cbn in X. rewrite X. done. }
  clear Hk Hch. induction (children nd).*2 as [|c l IH]; [done|]. cbn [mapM_res].
  destruct (Hall c ltac:(left)) as (cn & Hcn & He). rewrite (get_node_ok _ _ _ Hcn). cbn [res_bind].
  rewrite IH by (intros; apply Hall; by right). cbn. by rewrite He.
Qed.

Lemma filter_pairs_false (l : list nat) :
  (List.filter (λ p : nat * bool, negb p.2) ((λ c, (c, false)) <$> l)).*1 = l.
Proof. induction l as [|c l IH]; [done|]. cbn. f_equal. exact IH. Qed.

Lemma total_loop_spec G L d st : cache_inv cfg G L d st → ∀ fuel S X acc,
  frontier (G:=G) (W:=hview (heap st)) S X → (size X < fuel)%nat →
  total_size_loop fuel st S acc = Ok (acc + set_sum (val_len (hview (heap st))) X).
Proof.
  intros Hinv. pose proof (ci_wf Hinv) as Hwf. induction fuel as [|fuel IH]; intros S X acc HF Hf; [lia|].
  cbn [total_size_loop]. destruct (last S) as [n|] eqn:Hlast.
  2: { apply last_None in Hlast. subst S. rewrite (frontier_nil Hwf X HF).
       unfold set_sum. rewrite elements_empty. cbn. by rewrite Z.add_0_r. }
  rewrite (last_snoc_inv _ _ Hlast) in HF. set (S' := take (length S - 1) S) in *.
  assert (n ∈ X) as HnX by (apply (fr_in _ _ HF); set_solver).
  pose proof (fr_live _ _ HF n HnX) as Hlive.
  destruct (wf_live_view Hwf n Hlive) as [v Hv].
  destruct (frontier_pop Hwf S' n v X HF Hv) as [HF' _].
  pose proof Hv as Hv'. rewrite hview_lookup in Hv'. destruct (heap st !! n) as [nd|] eqn:Hnd; [|done].
  injection Hv' as <-. rewrite (get_node_ok _ _ _ Hnd). cbn [res_bind].
  assert (∃ vs, value nd = Some vs) as [vs Hvs].
  { destruct (decide (n = root_node st)) as [->|Hr].
    - destruct (wf_root Hwf) as (rv & Hrv & _ & _ & _ & E). assert (rv = view nd) as -> by congruence. eauto.
    - destruct Hlive as [g Hg]. destruct (wf_linked Hwf n _ g Hg Hv Hr) as (? & ? & ? & vs & Hl).
      exists vs. apply (lk_val Hl). }
  rewrite Hvs. cbn [of_opt res_bind]. rewrite (children_not_evicted G L d st n nd) by done. cbn [res_bind].
  assert (size (X ∖ {[n]}) < size X)%nat by (apply subset_size; set_solver).
  rewrite filter_pairs_false. rewrite (IH _ (X ∖ {[n]})) by (done || lia).
  rewrite (set_sum_delete _ n X) by done. 
  assert (val_len (hview (heap st)) n = len vs) as -> by (unfold val_len; rewrite Hv; cbn; by rewrite Hvs).
  f_equal. lia.
Qed.

(** The tokens in the tree are the evictable and the protected ones. *)
Lemma val_len_split G L d st : cache_inv cfg G L d st →
  set_sum (val_len (hview (heap st))) (dom G) = evictable_size_ st + protected_size_ st.
Proof.
  intros [Hwf _ He Hp]. rewrite He, Hp, <-set_sum_add. apply set_sum_ext. intros n Hn%elem_of_dom.
  destruct (wf_live_view Hwf n Hn) as [v Hv]. unfold val_len, sel_len. rewrite Hv.
  case_decide as Hr.
  - subst n. destruct (wf_root Hwf) as (rv & Hrv & _ & _ & _ & E). assert (rv = v) as -> by congruence.
    by rewrite E.
  - destruct Hn as [g Hg]. destruct (wf_linked Hwf n v g Hg Hv Hr) as (? & ? & ? & vs & Hl).
    rewrite (lk_val Hl). unfold len. rewrite (lk_len Hl). destruct (vlock v =? 0); cbn; lia.
Qed.

Lemma total_size_spec G L d st : cache_inv cfg G L d st →
  total_size st = Ok (evictable_size_ st + protected_size_ st).
Proof.
  intros Hinv. unfold total_size, _total_size_helper.
  rewrite (total_loop_spec G L d st Hinv _ _ (dom G)).
  - by rewrite Z.add_0_l, (val_len_split G L d st Hinv).
  - apply (frontier_root (ci_wf Hinv)).
  - pose proof (dom_ghost_size _ _ _ _ Hinv). lia.
Qed.
End walks.
