(* ===== verification/RadixOwn.v ===== *)
(** * Who owns which KV slot

    A slot of the KV pool is either free in the allocator, or stored in one
    node of the tree, or held by a running request.  [owns] is the tree's part
    of that statement: its nodes hold whole pages, no slot is in two places, and
    no page of the tree is free. *)

From stdpp Require Import gmultiset.
From S2P Require Import Prelude KVAllocator KVAllocatorProofs KVAllocatorSpec.
From S2P Require Import RadixTree RadixInv RadixSplit RadixMatch RadixInsert RadixLock.

Section owns.
Context {A : Type} `{KVPool A}.
Context (cfg : config).
Implicit Types st : cache A.
Abbreviation ps := (page_size cfg).

Definition tree_slots (G : ghost) st : list Z := slots_of (hview (heap st)) (dom G).

Record owns (G : ghost) st : Prop := {
  ow_ok : kv_ok (allocator st);
  ow_ps : kv_page_size (allocator st) = Z.of_nat ps;
  ow_whole : all_whole ps G (hview (heap st));
  ow_nodup : NoDup (tree_slots G st);
  ow_pages : Forall (λ s, 1 ≤ s / Z.of_nat ps ≤ kv_limit (allocator st) ∧
                          s / Z.of_nat ps ∉ kv_held (allocator st)) (tree_slots G st)
}.

(** All pages the tree and the allocator account for. *)
Definition accounted (G : ghost) st : list Z :=
  kv_held (allocator st) ++ pages_of (Z.of_nat ps) (tree_slots G st).

Lemma owns_perm G st G' st' :
  allocator st' = allocator st → tree_slots G' st' ≡ₚ tree_slots G st →
  all_whole ps G' (hview (heap st')) →
  owns G st → owns G' st' ∧ accounted G' st' ≡ₚ accounted G st.
Proof.
  intros Ea HP Hw [H1 H2 H3 H4 H5]. split.
  - constructor; rewrite ?Ea; try done; by rewrite HP.
  - unfold accounted. rewrite Ea. by rewrite (pages_of_perm _ _ _ HP).
Qed.

Lemma relocked_vals W W' n : relocked W W' → node_vals W' n = node_vals W n.
Proof.
  intros HR. unfold node_vals. specialize (HR n).
  destruct (W !! n), (W' !! n); cbn in *; try done. injection HR as _ _ _ E. by rewrite E.
Qed.

Lemma owns_relocked G st z l δ : owns G st → owns G (with_locks z l δ st).
Proof.
  intros Hown. pose proof (with_locks_view z l δ st) as HR.
  eapply (owns_perm G st); [done| | |exact Hown].
  - unfold tree_slots. rewrite (slots_of_ext _ (hview (heap st))); [done|]. intros n _. by apply relocked_vals.
  - intros n Hn. rewrite (relocked_vals _ _ n HR). by apply (ow_whole _ _ Hown).
Qed.

(** Freeing slots of the tree that leave it. *)
Lemma owns_free G st vs rest :
  ps ≠ 0%nat → owns G st → whole ps vs → tree_slots G st ≡ₚ vs ++ rest →
  ∃ a', kv_free (allocator st) vs = Ok a' ∧ kv_limit a' = kv_limit (allocator st) ∧ ∀ G' st', allocator st' = a' →
    tree_slots G' st' ≡ₚ rest → all_whole ps G' (hview (heap st')) →
    owns G' st' ∧ accounted G' st' ≡ₚ accounted G st.
Proof.
  intros Hps [Hok Hpg Hw Hnd Hpages] Hwv HP. rewrite HP in Hnd, Hpages.
  apply NoDup_app in Hnd as (Hnv & Hdis & Hnr). apply Forall_app in Hpages as [Hpv Hpr].
  pose proof (whole_disjoint ps vs rest Hps Hwv Hdis) as Hpd.
  destruct (kv_free_spec (allocator st) vs Hok Hnv) as (a' & Hfree & Hok' & Hps' & Hlim' & Hheld').
  { rewrite Hpg. apply Forall_forall. intros p (s & Hs & ->)%elem_of_pages_of.
    rewrite Forall_forall in Hpv. by apply Hpv. }
  rewrite Hpg in *. exists a'. split; [done|]. split; [done|]. intros G' st' Ea HP' Hw'. split.
  - constructor; rewrite ?Ea; try done; [by rewrite HP'|]. rewrite HP', Hlim'.
    eapply Forall_impl; [apply Forall_and; split; [exact Hpr|apply Forall_forall; intros x Hx; exact Hx]|].
    intros s [[Hs1 Hs2] Hs3]. split; [done|]. rewrite Hheld', elem_of_app.
    intros [(x & Hx & E)%elem_of_pages_of|]; [|done]. by apply (Hpd x s).
  - unfold accounted. rewrite Ea, Hheld', (pages_of_perm _ _ _ HP'), (pages_of_perm _ _ _ HP).
    rewrite (pages_of_app _ vs rest) by done. solve_Permutation.
Qed.

(** Storing slots that were neither in the tree nor free. *)
Lemma owns_insert G st e toks v k G' st' I :
  ps ≠ 0%nat → owns G st → inserted cfg G st e toks v k G' st' I → whole ps (drop k v) →
  NoDup (drop k v ++ tree_slots G st) →
  Forall (λ s, 1 ≤ s / Z.of_nat ps ≤ kv_limit (allocator st) ∧
               s / Z.of_nat ps ∉ kv_held (allocator st)) (drop k v) →
  owns G' st' ∧ accounted G' st' ≡ₚ pages_of (Z.of_nat ps) (drop k v) ++ accounted G st.
Proof.
  intros Hps [H1 H2 H3 H4 H5] Hi Hw Hnd Hp. destruct Hi as [_ _ Ea _ _ _ _ _ _ Hs Hwh _ _].
  split.
  - constructor; rewrite ?Ea; try done; [by apply Hwh|unfold tree_slots; by rewrite Hs|].
    unfold tree_slots. rewrite Hs. by apply Forall_app.
  - unfold accounted, tree_slots. rewrite Ea, (pages_of_perm _ _ _ Hs), pages_of_app; [solve_Permutation|].
    apply NoDup_app in Hnd as (_ & Hd & _). by apply whole_disjoint.
Qed.

(** Freeing slots that are not the tree's. *)
Lemma owns_free_ext G st idx :
  owns G st → NoDup idx →
  Forall (λ p, 1 ≤ p ≤ kv_limit (allocator st) ∧ p ∉ kv_held (allocator st) ∧
               ∀ s, s ∈ tree_slots G st → s / Z.of_nat ps ≠ p) (pages_of (Z.of_nat ps) idx) →
  ∃ a', kv_free (allocator st) idx = Ok a' ∧ owns G (set_alloc st a') ∧ kv_limit a' = kv_limit (allocator st) ∧
    kv_held a' ≡ₚ pages_of (Z.of_nat ps) idx ++ kv_held (allocator st) ∧
    accounted G (set_alloc st a') ≡ₚ pages_of (Z.of_nat ps) idx ++ accounted G st.
Proof.
  intros [Hok Hpg Hw Hnd Hpages] Hni Hf.
  destruct (kv_free_spec (allocator st) idx Hok Hni) as (a' & Hfree & Hok' & Hps' & Hlim' & Hheld').
  { rewrite Hpg. eapply Forall_impl; [exact Hf|]. naive_solver. }
  rewrite Hpg in *. exists a'. split_and!; try done.
  - constructor; try done. cbn [set_alloc allocator]. rewrite Hlim'.
    change (tree_slots G (set_alloc st a')) with (tree_slots G st). rewrite Forall_forall in *.
    intros s Hs. destruct (Hpages s Hs) as [? ?]. split; [done|]. rewrite Hheld', elem_of_app.
    intros [Hin|]; [|done]. by apply (Hf _ Hin) in Hs.
  - unfold accounted. cbn [set_alloc allocator]. rewrite Hheld'. by rewrite <-app_assoc.
Qed.
End owns.
Arguments ow_ok {_ _ _ _ _} _.
Arguments ow_ps {_ _ _ _ _} _.
Arguments ow_whole {_ _ _ _ _} _.
Arguments ow_nodup {_ _ _ _ _} _.
Arguments ow_pages {_ _ _ _ _} _.
