(* ===== verification/RadixEvict.v ===== *)
(** * Eviction

    [evict] pops unlocked leaves in the order of the eviction strategy, frees
    their slots and takes them out of the tree; a parent that becomes an
    unlocked leaf is queued in turn. *)

From stdpp Require Import gmultiset.
From S2P Require Import Prelude KVAllocator KVAllocatorProofs KVAllocatorSpec.
From S2P Require Import RadixTree RadixInv RadixSplit RadixMatch RadixInsert RadixLock RadixWalk RadixOwn.

(** ** Taking a leaf out, on the views *)
Section delete_views.
Context {ps : nat} {G : ghost} {W : views} {ctr r : nat} (Hwf : wf ps G W ctr r).
Context {n p : nat} {v pv : nview} {g pg : list token * list Z} {vs : list Z}.
Context (Hv : W !! n = Some v) (Hr : n ≠ r) (Hl : linked ps G W r n v p pv g pg vs) (Hleaf : vch v = []).
Context {k : child_key} (Hk : dict_get k (vch pv) = Some n).
Context {W' : views}.
Let pv' := mkView (dict_del k (vch pv)) (vpar pv) (vkey pv) (vval pv) (vlock pv).
Let G' : ghost := delete n G.
Context (Hp' : W' !! p = Some pv') (Hother : ∀ m, m ≠ p → W' !! m = W !! m).

Lemma del_ne : p ≠ n ∧ r ≠ n.
Proof. destruct (linked_ne Hwf _ _ _ _ _ _ _ Hl) as (_ & _ & ?). done. Qed.

Lemma del_ghost m : m ≠ n → G' !! m = G !! m.
Proof. intros. unfold G'. by rewrite lookup_delete_ne. Qed.
Lemma del_live m : is_Some (G' !! m) → m ≠ n ∧ is_Some (G !! m).
Proof. unfold G'. intros [x [? ?]%lookup_delete_Some]. eauto. Qed.

Lemma del_view m mv : W !! m = Some mv → ∃ mv', W' !! m = Some mv' ∧ vlock mv' = vlock mv ∧
  vkey mv' = vkey mv ∧ vpar mv' = vpar mv ∧ vval mv' = vval mv ∧ (m ≠ p → mv' = mv).
Proof.
  intros Hm. destruct (decide (m = p)) as [->|].
  - exists pv'. rewrite (lk_pview Hl) in Hm. injection Hm as <-. by split_and!.
  - exists mv. rewrite Hother by done. by split_and!.
Qed.
Lemma del_view_back m mv' : W' !! m = Some mv' → ∃ mv, W !! m = Some mv.
Proof.
  intros Hm. destruct (decide (m = p)) as [->|]; [rewrite (lk_pview Hl); eauto|].
  rewrite Hother in Hm by done. eauto.
Qed.

(** Nothing hangs below a leaf. *)
Lemma del_parent m mv q qv gm gq ws : W !! m = Some mv → linked ps G W r m mv q qv gm gq ws → q ≠ n.
Proof.
  intros Hm Hlm ->. destruct (lk_child Hlm) as (k' & _ & Hd). pose proof (lk_pview Hlm) as E.
  rewrite Hv in E. injection E as <-. rewrite Hleaf in Hd. done.
Qed.

Lemma del_linked m mv q qv gm gq ws : m ≠ n → W !! m = Some mv → linked ps G W r m mv q qv gm gq ws →
  ∃ mv' qv', W' !! m = Some mv' ∧ linked ps G' W' r m mv' q qv' gm gq ws.
Proof.
  intros Hmn Hm Hlm. pose proof (del_parent _ _ _ _ _ _ _ Hm Hlm) as Hq.
  destruct (del_view m mv Hm) as (mv' & Hm' & _ & Ek & Ep & Ev & _).
  destruct (del_view q qv (lk_pview Hlm)) as (qv' & Hq' & _ & Fk & _ & _ & Fsame).
  exists mv', qv'. split; [done|]. pose proof (lk_pview Hl) as Hpv.
  destruct Hlm as [? Hqv ? ? ? ? ? ? ? ? Hex (k' & Hk' & Hd)].
  constructor; rewrite ?Ek, ?Ep, ?Ev, ?del_ghost by done; try done.
  - intros. rewrite Fk. auto.
  - exists k'. split; [done|]. destruct (decide (q = p)) as [->|Hqp]; [|by rewrite Fsame].
    rewrite Hp' in Hq'. injection Hq' as <-. rewrite Hqv in Hpv. injection Hpv as ->. cbn.
    rewrite dict_get_del_ne; [done|]. intros <-. congruence.
Qed.

Lemma del_wf : wf ps G' W' ctr r.
Proof.
  destruct del_ne as [Hpn Hrn]. constructor.
  - apply (wf_page Hwf).
  - destruct (wf_root Hwf) as (rv & Hrv & Hg & E1 & E2 & E3).
    destruct (del_view r rv Hrv) as (rv' & ? & _ & Ek & Ep & Ev & _). exists rv'.
    rewrite del_ghost, Ek, Ep, Ev by done. done.
  - intros m [Hmn Hm]%del_live Hmr. destruct (wf_node Hwf m Hm Hmr) as (mv & q & qv & gm & gq & ws & Hmv & Hlm).
    destruct (del_linked m mv q qv gm gq ws Hmn Hmv Hlm) as (mv' & qv' & ? & ?). eauto 10.
  - intros m mv' [Hmn Hm]%del_live Hmv'. destruct (del_view_back m mv' Hmv') as [mv Hmv].
    destruct (wf_children Hwf m mv Hm Hmv) as [Hnd Hch].
    assert (∀ k' c, (k', c) ∈ vch mv → c ≠ n → is_Some (G' !! c) ∧
      ∃ cv, W' !! c = Some cv ∧ vpar cv = Some m ∧ get_child_key (vkey cv) ps = Ok k') as Hold.
    { intros k' c Hc Hcn. destruct (Hch k' c Hc) as (Hgc & cv & Hcv & Hpar & Hck).
      rewrite del_ghost by done. split; [done|].
      destruct (del_view c cv Hcv) as (cv' & ? & _ & Ek & Ep & _). exists cv'. by rewrite Ek, Ep. }
    destruct (decide (m = p)) as [->|Hmp].
    + rewrite Hp' in Hmv'. injection Hmv' as <-. pose proof (lk_pview Hl) as E. rewrite Hmv in E.
      injection E as ->. cbn. split; [by apply dict_del_NoDup|]. intros k' c Hc.
      apply elem_of_dict_del in Hc as [Hkk Hc]; [|done]. apply Hold; [done|]. intros ->.
      apply Hkk. destruct (Hch k' n Hc) as (_ & cv & Hcv & _ & E1).
      destruct (Hch k n (dict_get_Some_elem _ _ _ Hk)) as (_ & cv' & Hcv' & _ & E2). congruence.
    + rewrite Hother in Hmv' by done. assert (mv' = mv) as -> by congruence. split; [done|].
      intros k' c Hc. apply Hold; [done|]. intros ->. destruct (Hch k' n Hc) as (_ & cv & Hcv & Hpar & _).
      pose proof (lk_par Hl). congruence.
  - intros m [mv' Hmv']. destruct (del_view_back m mv' Hmv') as [mv Hmv]. apply (wf_fresh Hwf). eauto.
Qed.

Lemma del_lock_of m : lock_of W' m = lock_of W m.
Proof.
  unfold lock_of. destruct (W !! m) as [mv|] eqn:Hm.
  - by destruct (del_view m mv Hm) as (mv' & -> & E & _).
  - rewrite Hother, Hm; [done|]. intros ->. pose proof (lk_pview Hl). congruence.
Qed.

Lemma del_locks L : vlock v = 0 → locks_ok G L W r (λ _, 0) → locks_ok G' L W' r (λ _, 0).
Proof.
  intros Hlock Hlo. destruct del_ne as [Hpn Hrn].
  assert (is_Some (G !! n)) as Hgn by (rewrite (lk_ghost Hl); eauto).
  assert (n ∉ L) as HnL.
  { destruct (lo_count Hlo n v Hgn Hr Hv) as [_ E]. rewrite Hleaf, Hlock in E. cbn in E.
    apply not_elem_of_multiplicity. lia. }
  constructor.
  - intros m Hm. rewrite del_ghost by congruence. by apply (lo_live Hlo).
  - rewrite del_lock_of. apply (lo_root Hlo).
  - intros m mv' [Hmn Hm]%del_live Hmr Hmv'. destruct (del_view_back m mv' Hmv') as [mv Hmv].
    destruct (del_view m mv Hmv) as (mv'' & Hmv'' & El & _ & _ & _ & Hsame).
    rewrite Hmv' in Hmv''. injection Hmv'' as <-. rewrite El.
    destruct (lo_count Hlo m mv Hm Hmr Hmv) as [H0 E]. split; [done|]. rewrite E. f_equal.
    rewrite (list_fmap_ext (lock_of W') (lock_of W)) by (intros; apply del_lock_of).
    destruct (decide (m = p)) as [->|Hmp]; [|by rewrite Hsame].
    rewrite Hp' in Hmv'. injection Hmv' as <-. pose proof (lk_pview Hl) as X. rewrite Hmv in X.
    injection X as ->. cbn. rewrite (dict_del_sum _ _ _ n Hk). unfold lock_of at 3. rewrite Hv. cbn. lia.
Qed.

Lemma del_dom : dom G' = dom G ∖ {[n]}.
Proof. unfold G'. by rewrite dom_delete_L. Qed.

Lemma del_sizes b : set_sum (sel_len b W' r) (dom G') = set_sum (sel_len b W r) (dom G) - sel_len b W r n.
Proof.
  rewrite del_dom, (set_sum_delete (sel_len b W r) n (dom G)) by (apply elem_of_dom; rewrite (lk_ghost Hl); eauto).
  rewrite (set_sum_ext (sel_len b W' r) (sel_len b W r)); [lia|].
  intros m Hm. unfold sel_len. destruct (W !! m) as [mv|] eqn:Hmv.
  - by destruct (del_view m mv Hmv) as (mv' & -> & -> & -> & _).
  - rewrite Hother, Hmv; [done|]. intros ->. pose proof (lk_pview Hl). congruence.
Qed.

Lemma del_vals m : node_vals W' m = node_vals W m.
Proof.
  unfold node_vals. destruct (W !! m) as [mv|] eqn:Hmv.
  - destruct (del_view m mv Hmv) as (mv' & -> & _ & _ & _ & E & _). cbn. by rewrite E.
  - rewrite Hother, Hmv; [done|]. intros ->. pose proof (lk_pview Hl). congruence.
Qed.

Lemma del_slots : slots_of W (dom G) ≡ₚ vs ++ slots_of W' (dom G').
Proof.
  rewrite (slots_of_delete W n) by (apply elem_of_dom; rewrite (lk_ghost Hl); eauto).
  rewrite del_dom, (slots_of_ext W' W) by (intros; apply del_vals).
  unfold node_vals at 1. rewrite Hv. cbn. by rewrite (lk_val Hl).
Qed.

Lemma del_whole : all_whole ps G W → all_whole ps G' W'.
Proof. intros Hw m [_ Hm]%del_live. rewrite del_vals. by apply Hw. Qed.

Lemma del_cached e t i : Cached ps G' W' r e t i → Cached ps G W r e t i.
Proof.
  intros (m & mv' & gm & Hmr & Hmv' & Hgm & He & Hrest). destruct (del_live m ltac:(eauto)) as [Hmn _].
  destruct (del_view_back m mv' Hmv') as [mv Hmv]. rewrite del_ghost in Hgm by done.
  destruct (del_view m mv Hmv) as (mv'' & ? & _ & Ek & _). exists m, mv, gm.
  split_and!; try done; [|by destruct Hrest as (? & ? & ?)..]. congruence.
Qed.
End delete_views.

(** Without an unlocked leaf nothing is unlocked. *)
Lemma no_leaf_all_locked {A} cfg G L (st : cache A) :
  cache_wf cfg G L st → (∀ n, ¬ unlocked_leaf G st n) → evictable_size_ st = 0.
Proof.
  intros [Hwf Hlo He _] Hno. set (W := hview (heap st)) in *. set (r := root_node st) in *.
  rewrite He. apply set_sum_zero. intros n Hn%elem_of_dom.
  set (M := max_list ((λ m, length (default ([], []) (G !! m)).1) <$> elements (dom G))).
  assert (∀ m g, G !! m = Some g → (length g.1 ≤ M)%nat) as HM.
  { intros m g Hg. apply max_list_elem_of_le, list_elem_of_fmap. exists m. rewrite Hg. split; [done|].
    apply elem_of_elements, elem_of_dom. eauto. }
  enough (∀ n v, is_Some (G !! n) → n ≠ r → W !! n = Some v → vlock v ≠ 0) as Hall.
  { unfold sel_len. destruct (W !! n) as [v|] eqn:Hv; [|done]. case_decide; [done|].
    by rewrite (proj2 (Z.eqb_neq _ _) (Hall n v Hn ltac:(done) Hv)). }
  clear n Hn. intros n v [g Hg]. remember (M - length g.1)%nat as k eqn:Hk. revert n v g Hk Hg.
  induction (lt_wf k) as [k _ IH]; intros n v g -> Hg Hr Hv Hlock.
  destruct (vch v) as [|[ck c] ch] eqn:Hch.
  { apply (Hno n). split_and!; [done|eauto|]. by exists v. }
  destruct (wf_children Hwf n v ltac:(eauto) Hv) as [Hnd _].
  destruct (wf_child Hwf n v ck c ltac:(eauto) Hv) as (Hcr & cv & cg & pg & vs & Hcv & Hl & _).
  { apply dict_get_elem; [done|]. rewrite Hch. left. }
  assert (pg = g) as -> by (pose proof (lk_pghost Hl); congruence).
  destruct (linked_below _ _ _ _ _ _ _ Hl) as (Hb & _). pose proof (wf_page Hwf).
  pose proof (HM c cg (lk_ghost Hl)).
  destruct (lo_count Hlo n v ltac:(eauto) Hr Hv) as [_ E].
  destruct (lo_count Hlo c cv ltac:(rewrite (lk_ghost Hl); eauto) Hcr Hcv) as [Hc0 _].
  rewrite Hlock, Hch in E. cbn in E. unfold lock_of in E at 1. rewrite Hcv in E. cbn in E.
  assert (0 ≤ sum_Z (lock_of W <$> ch.*2)) as Hrest.
  { apply sum_Z_nonneg, Forall_fmap, Forall_fmap, Forall_forall. intros [ck' c'] Hin. cbn.
    destruct (wf_child Hwf n v ck' c' ltac:(eauto) Hv) as (Hcr' & cv' & ? & ? & ? & Hcv' & Hl' & _).
    { apply dict_get_elem; [done|]. rewrite Hch. by right. }
    unfold lock_of. rewrite Hcv'. cbn. apply (lo_count Hlo c' cv'); [|done|done]. rewrite (lk_ghost Hl'). eauto. }
  eapply (IH (M - length cg.1)%nat); [|done|apply (lk_ghost Hl)|exact Hcr|exact Hcv|]; unfold sum_Z in *; lia.
Qed.

(** [heappop] takes one entry out, and no other entry is smaller. *)
Lemma pop_min_perm ltb x l m rest : pop_min ltb x l = (m, rest) → m :: rest ≡ₚ x :: l.
Proof.
  revert x m rest. induction l as [|y l IH]; intros x m rest; cbn; [by intros [= <- <-]|].
  destruct (pop_min ltb y l) as [m' rest'] eqn:E. specialize (IH y m' rest' E).
  destruct (ltb m' x); intros [= <- <-]; rewrite <-IH; [apply perm_swap|done].
Qed.

Lemma pop_min_least (ltb : entry → entry → bool) x l m rest :
  (∀ a b, ltb a b = true → ltb b a = false) →
  (∀ a b c, ltb a c = true → ltb a b = true ∨ ltb b c = true) →
  pop_min ltb x l = (m, rest) → Forall (λ y, ltb y m = false) (x :: l).
Proof.
  intros Hasym Hco. assert (∀ a, ltb a a = false) as Hirr.
  { intros a. destruct (ltb a a) eqn:E; [|done]. by rewrite (Hasym _ _ E) in E. }
  revert x m rest. induction l as [|y l IH]; intros x m rest; cbn.
  { intros [= <- <-]. repeat constructor. apply Hirr. }
  destruct (pop_min ltb y l) as [m' rest'] eqn:E. specialize (IH y m' rest' E).
  destruct (ltb m' x) eqn:Hlt; intros [= <- <-].
  - constructor; [by apply Hasym|done].
  - constructor; [apply Hirr|]. eapply Forall_impl; [exact IH|]. intros z Hz. cbn in Hz.
    destruct (ltb z x) eqn:Ez; [|done]. destruct (Hco z m' x Ez); congruence.
Qed.

Section evict_op.
Context {A : Type} `{KVPool A}.
Context (hash : list token → Z) (cfg : config).
Implicit Types st : cache A.
Abbreviation ps := (page_size cfg).

Lemma find_child_key_ok d k n : dict_get k d = Some n →
  (∀ k', (k', n) ∈ d → k' = k) → find_child_key d n = Ok k.
Proof.
  intros Hd Hu. unfold find_child_key.
  destruct (List.find (λ kv, bool_decide (kv.2 = n)) d) as [[k' n']|] eqn:E.
  - apply List.find_some in E as [Hin E]. cbn in E. apply bool_decide_eq_true in E. subst n'.
    cbn. f_equal. apply Hu. by apply list_elem_of_In.
  - pose proof (List.find_none _ _ E (k, n)) as X. cbn in X. rewrite bool_decide_eq_true_2 in X by done.
    discriminate X. apply list_elem_of_In. by apply dict_get_Some_elem.
Qed.

(** An unlocked leaf leaves the tree with its slots. *)
Lemma delete_leaf_spec G L st x :
  cache_wf cfg G L st → unlocked_leaf G st x →
  ∃ xn vs p st', heap st !! x = Some xn ∧ value xn = Some vs ∧ parent xn = Some p ∧
    _delete_leaf st x = Ok st' ∧ cache_wf cfg (delete x G) L st' ∧
    root_node st' = root_node st ∧ allocator st' = allocator st ∧ kv_event_queue st' = kv_event_queue st ∧
    evictable_size_ st' = evictable_size_ st - len vs ∧ protected_size_ st' = protected_size_ st ∧
    tree_slots G st ≡ₚ vs ++ tree_slots (delete x G) st' ∧
    (all_whole ps G (hview (heap st)) → all_whole ps (delete x G) (hview (heap st'))) ∧
    (∀ e t i, cached cfg (delete x G) st' e t i → cached cfg G st e t i) ∧
    (∀ n, vkey <$> hview (heap st') !! n = vkey <$> hview (heap st) !! n) ∧
    is_Some (heap st' !! x) ∧
    ∃ pn', heap st' !! p = Some pn' ∧
      ∀ m, unlocked_leaf (delete x G) st' m ↔
        (m ≠ x ∧ unlocked_leaf G st m) ∨ (m = p ∧ children pn' = [] ∧ lock_ref pn' = 0).
Proof.
  intros [Hwf Hlo He Hp] (Hr & [g Hg] & v & Hv & Hleaf & Hlock).
  destruct (wf_linked Hwf x v g Hg Hv Hr) as (p & pv & pg & vs & Hl).
  destruct (linked_ne Hwf _ _ _ _ _ _ _ Hl) as (_ & _ & Hpx).
  destruct (lk_child Hl) as (k & Hck & Hd). pose proof (lk_pview Hl) as Hpv.
  pose proof Hv as Hv0. rewrite hview_lookup in Hv0. destruct (heap st !! x) as [xn|] eqn:Hxn; [|done].
  injection Hv0 as <-. pose proof Hpv as Hpv0. rewrite hview_lookup in Hpv0.
  destruct (heap st !! p) as [pn|] eqn:Hpn; [|done]. injection Hpv0 as <-. cbn in Hd, Hleaf, Hlock.
  pose proof (lk_par Hl) as Hpar. pose proof (lk_val Hl) as Hval. cbn in Hpar, Hval.
  set (st' := set_sizes (upd_node st p (λ p, set_children p (dict_del k (children p))))
    (evictable_size_ st - Z.of_nat (klen (key xn))) (protected_size_ st)).
  assert (_delete_leaf st x = Ok st') as Heq.
  { unfold _delete_leaf. rewrite (get_node_ok _ _ _ Hxn). cbn [res_bind]. rewrite Hpar. cbn [of_opt res_bind].
    rewrite (get_node_ok _ _ _ Hpn). cbn [res_bind]. rewrite (find_child_key_ok _ k); [done|done|].
    intros k' Hin. destruct (wf_children Hwf p (view pn) ltac:(rewrite (lk_pghost Hl); eauto) Hpv) as [_ Hch].
    destruct (Hch k' x Hin) as (_ & cv & Hcv & _ & E). assert (cv = view xn) as -> by congruence. congruence. }
  set (pn' := set_children pn (dict_del k (children pn))).
  assert (heap st' !! p = Some pn') as Hpn' by (cbn; by rewrite lookup_alter_eq, Hpn).
  assert (∀ m, m ≠ p → heap st' !! m = heap st !! m) as Ho by (intros; cbn; by rewrite lookup_alter_ne).
  assert (∀ m, m ≠ p → hview (heap st') !! m = hview (heap st) !! m) as Hov by (intros; by rewrite !hview_lookup, Ho).
  pose proof (hview_Some _ _ _ Hpn') as Hpv'. unfold view, pn' in Hpv'. cbn in Hpv'.
  exists xn, vs, p, st'. split_and!; try done.
  - constructor.
    + eapply del_wf; first [eassumption|done].
    + eapply del_locks; first [eassumption|done].
    + change (evictable_size_ st') with (evictable_size_ st - Z.of_nat (klen (key xn))).
      rewrite He. etrans; [|symmetry; eapply del_sizes; first [eassumption|done]].
      f_equal. unfold sel_len. rewrite Hv. cbn. by rewrite decide_False, Hlock.
    + change (protected_size_ st') with (protected_size_ st).
      rewrite Hp. etrans; [|symmetry; eapply del_sizes; first [eassumption|done]].
      unfold sel_len at 3. rewrite Hv. cbn. rewrite decide_False, Hlock by done. cbn. lia.
  - cbn. unfold len. by rewrite (lk_len Hl).
  - eapply del_slots; first [eassumption|done].
  - eapply del_whole; first [eassumption|done].
  - intros e t i. eapply del_cached; first [eassumption|done].
  - intros m. destruct (decide (m = p)) as [->|]; [|by rewrite Hov]. by rewrite (hview_Some _ _ _ Hpn'), Hpv.
  - rewrite Ho by done. eauto.
  - exists pn'. split; [done|]. intros m. unfold unlocked_leaf.
    change (root_node st') with (root_node st). split.
    + intros (Hmr & Hm & mv & Hmv & Hc & Hk). apply lookup_delete_is_Some in Hm as [Hmx Hm].
      destruct (decide (m = p)) as [->|Hmp].
      * right. rewrite (hview_Some _ _ _ Hpn') in Hmv. by injection Hmv as <-.
      * left. rewrite Hov in Hmv by done. split_and!; eauto.
    + intros [(Hmx & Hmr & Hm & mv & Hmv & Hc & Hk)|(-> & Hc & Hk)].
      * rewrite lookup_delete_ne by done. split_and!; [done|done|]. exists mv. rewrite Hov; [done|].
        intros ->. assert (mv = view pn) as -> by congruence. cbn in Hc. by rewrite Hc in Hd.
      * rewrite lookup_delete_ne by done. split_and!; [|rewrite (lk_pghost Hl); eauto|].
        -- intros E. pose proof (lo_root Hlo) as X. rewrite <-E in X. unfold lock_of in X.
           rewrite Hpv in X. cbn in X, Hk. congruence.
        -- exists (view pn'). by rewrite (hview_Some _ _ _ Hpn').
Qed.

(** What freeing slots keeps of the allocator. *)
Definition freeing (P : A → Prop) : Prop := ∀ a idx a', kv_free a idx = Ok a' → P a → P a'.

(** What evicting [n] tokens does: the pages are conserved, nothing that is
    locked is touched, and no new content appears. *)
Record evicted_to (G : ghost) (L : gmultiset nat) st (G' : ghost) st' (n : Z) : Prop := {
  ev_wf : cache_wf cfg G' L st';
  ev_owns : owns cfg G' st';
  ev_ghost : G' ⊆ G;
  ev_root : root_node st' = root_node st;
  ev_accounted : accounted cfg G' st' ≡ₚ accounted cfg G st;
  ev_nonneg : 0 ≤ n;
  ev_evictable : evictable_size_ st' = evictable_size_ st - n;
  ev_protected : protected_size_ st' = protected_size_ st;
  ev_keys : ∀ m, vkey <$> hview (heap st') !! m = vkey <$> hview (heap st) !! m;
  ev_cached : ∀ e t i, cached cfg G' st' e t i → cached cfg G st e t i;
  ev_limit : kv_limit (allocator st') = kv_limit (allocator st);
  ev_alloc : ∀ P : A → Prop, freeing P → P (allocator st) → P (allocator st');
  ev_slots : ∀ x, x ∈ tree_slots G' st' → x ∈ tree_slots G st
}.

Lemma evicted_refl G L st : cache_wf cfg G L st → owns cfg G st → evicted_to G L st G st 0.
Proof. intros. constructor; try done; lia. Qed.

Lemma evicted_trans G1 G2 G3 L st1 st2 st3 n m :
  evicted_to G1 L st1 G2 st2 n → evicted_to G2 L st2 G3 st3 m → evicted_to G1 L st1 G3 st3 (n + m).
Proof.
  intros [? ? Hg1 Hr1 Ha1 Hn1 He1 Hp1 Hk1 Hc1 Hl1 HP1 Hs1] [? ? Hg2 Hr2 Ha2 Hn2 He2 Hp2 Hk2 Hc2 Hl2 HP2 Hs2].
  constructor; try done; [by etrans|by rewrite Hr2|by rewrite Ha2|lia|lia|lia|intros; by rewrite Hk2|eauto|congruence|by intros P HP X; apply HP2, HP1|eauto].
Qed.

(** One round of the loop. *)
Lemma evict_round G L st x :
  cache_wf cfg G L st → owns cfg G st → unlocked_leaf G st x →
  ∃ xn vs p a' st1 st2 pn, heap st !! x = Some xn ∧ value xn = Some vs ∧ parent xn = Some p ∧
    kv_free (allocator st) vs = Ok a' ∧ _delete_leaf (set_alloc st a') x = Ok st1 ∧
    heap st1 !! p = Some pn ∧ _record_remove_event hash cfg st1 x = Ok st2 ∧
    evicted_to G L st (delete x G) st2 (len vs) ∧
    (∀ m, unlocked_leaf (delete x G) st2 m ↔
      (m ≠ x ∧ unlocked_leaf G st m) ∨ (m = p ∧ children pn = [] ∧ lock_ref pn = 0)) ∧
    ¬ unlocked_leaf G st p.
Proof.
  intros Hinv Hown Hu. pose proof (wf_page (ci_wf Hinv)) as Hps.
  destruct (delete_leaf_spec G L st x Hinv Hu) as (xn & vs & _ & st0 & Hxn & Hvs & _ & _ & _ & _ & _ & _ & _ & _ & Hsl & _).
  assert (whole ps vs) as Hwv.
  { pose proof (ow_whole Hown x (proj1 (proj2 Hu))) as X. unfold node_vals in X.
    rewrite (hview_Some _ _ _ Hxn) in X. cbn in X. by rewrite Hvs in X. }
  destruct (owns_free cfg G st vs _ Hps Hown Hwv Hsl) as (a' & Hfree & _ & Hnext). clear st0 Hsl Hnext.
  destruct (delete_leaf_spec G L (set_alloc st a') x) as (xn' & vs' & p & st1 & Hxn' & Hvs' & Hp & Hdel & Hinv1 &
    Hr1 & Ha1 & Hq1 & He1 & Hp1 & Hsl & Hw1 & Hc1 & Hk1 & Hx1 & pn & Hpn & Hul).
  { eapply cache_inv_same; [|exact Hinv]. done. }
  { exact Hu. }
  cbn in Hxn'. assert (xn' = xn) as -> by congruence. assert (vs' = vs) as -> by congruence.
  change (tree_slots G (set_alloc st a')) with (tree_slots G st) in Hsl.
  destruct (owns_free cfg G st vs _ Hps Hown Hwv Hsl) as (a'' & Hfree' & Hlim & Hnext).
  assert (a'' = a') as -> by congruence.
  destruct (record_remove_ok hash cfg st1 x Hx1) as [q Hq].
  exists xn, vs, p, a', st1, (set_events st1 q), pn. split_and!; try done.
  2: { destruct Hu as (Hr & [g Hg] & v & Hv & _). intros (_ & _ & pv & Hpv & Hch & _).
       destruct (wf_linked (ci_wf Hinv) x v g Hg Hv Hr) as (p' & pv' & ? & ? & Hl).
       pose proof (lk_par Hl) as X. rewrite (hview_Some _ _ _ Hxn) in Hv. injection Hv as <-. cbn in X.
       assert (p' = p) as -> by congruence. destruct (lk_child Hl) as (k & _ & Hd).
       pose proof (lk_pview Hl). assert (pv' = pv) as -> by congruence. by rewrite Hch in Hd. }
  destruct (Hnext (delete x G) (set_events st1 q)) as [Hown' Hacc]; [done|done|apply Hw1; apply (ow_whole Hown)|].
  constructor; try done.
  - apply (cache_inv_same _ _ _ _ st1); [|done]. by destruct st1.
  - apply delete_subseteq.
  - pose proof (len_nonneg vs). lia.
  - cbn [set_events allocator]. by rewrite Ha1.
  - intros P HP HPa. cbn [set_events allocator]. rewrite Ha1. by eapply HP.
  - intros y Hy. rewrite Hsl. apply elem_of_app. by right.
Qed.

Lemma evict_loop_spec fuel : ∀ G L st E num n0,
  cache_wf cfg G L st → owns cfg G st → NoDup E.*2 → (∀ m, m ∈ E.*2 ↔ unlocked_leaf G st m) →
  (size (dom G) < fuel)%nat →
  ∃ n st' G', evict_loop hash cfg fuel st E num n0 = Ok (n0 + n, st') ∧
    evicted_to G L st G' st' n ∧ (num ≤ n0 + n ∨ evictable_size_ st' = 0).
Proof.
  induction fuel as [|fuel IH]; intros G L st E num n0 Hinv Hown Hnd HE Hf; [lia|].
  cbn [evict_loop]. destruct E as [|e es].
  { exists 0, st, G. rewrite Z.add_0_r. split_and!; [done|by apply evicted_refl|right].
    eapply no_leaf_all_locked; [exact Hinv|]. intros n Hn%HE. by apply not_elem_of_nil in Hn. }
  destruct (Z.leb_spec num n0) as [Hle|Hgt].
  { exists 0, st, G. rewrite Z.add_0_r. split_and!; [done|by apply evicted_refl|left; lia]. }
  destruct (pop_min (entry_ltb st) e es) as [[pr x] E'] eqn:Hpop.
  pose proof (fmap_Permutation snd _ _ (pop_min_perm _ _ _ _ _ Hpop)) as HP. cbn [fmap list_fmap snd] in HP.
  change (snd <$> e :: es) with ((e :: es).*2) in HP.
  assert (x ∉ E'.*2 ∧ NoDup E'.*2) as [Hx HndE'] by (apply NoDup_cons; by rewrite HP).
  assert (unlocked_leaf G st x) as Hu by (apply HE; rewrite <-HP; left).
  destruct (evict_round G L st x Hinv Hown Hu)
    as (xn & vs & p & a' & st1 & st2 & pn & Hxn & Hvs & Hp & Hfree & Hdel & Hpn & Hrec & Hev & Hul & Hnp).
  rewrite (get_node_ok _ _ _ Hxn). cbn [res_bind]. rewrite Hvs. cbn [of_opt res_bind].
  rewrite Hfree. cbn [res_bind]. rewrite Hdel. cbn [res_bind]. rewrite Hp. cbn [of_opt res_bind].
  rewrite (get_node_ok _ _ _ Hpn). cbn [res_bind]. rewrite Hrec. cbn [res_bind].
  assert (∀ E'', NoDup E''.*2 → (∀ m, m ∈ E''.*2 ↔ unlocked_leaf (delete x G) st2 m) →
    ∃ n st' G', evict_loop hash cfg fuel st2 E'' num (n0 + len vs) = Ok (n0 + n, st') ∧
      evicted_to G L st G' st' n ∧ (num ≤ n0 + n ∨ evictable_size_ st' = 0)) as Hnext.
  { intros E'' Hnd'' HE''.
    destruct (IH (delete x G) L st2 E'' num (n0 + len vs)) as (n & st' & G' & -> & Hev' & Hend); try done.
    - apply (ev_wf _ _ _ _ _ _ Hev).
    - apply (ev_owns _ _ _ _ _ _ Hev).
    - rewrite dom_delete_L. destruct Hu as (_ & Hgx%elem_of_dom & _).
      pose proof (subset_size (dom G ∖ {[x]}) (dom G) ltac:(set_solver)). lia.
    - exists (len vs + n), st', G'. rewrite Z.add_assoc. split_and!; [done|by eapply evicted_trans|done]. }
  assert (∀ m, m ∈ E'.*2 ↔ m ≠ x ∧ unlocked_leaf G st m) as HE'.
  { intros m. rewrite <-HE, <-HP, elem_of_cons. set_solver. }
  destruct (bool_decide (children pn = []) && (lock_ref pn =? 0)) eqn:Hpush; apply Hnext.
  - rewrite fmap_app. apply NoDup_app. split_and!; [done| |apply NoDup_singleton].
    intros m Hm%HE'. cbn. intros ->%list_elem_of_singleton. naive_solver.
  - apply andb_true_iff in Hpush as [Hc%bool_decide_eq_true Hlk%Z.eqb_eq].
    intros m. rewrite fmap_app, elem_of_app, Hul, HE'. cbn. rewrite list_elem_of_singleton. naive_solver.
  - done.
  - intros m. rewrite Hul, HE'. split; [by left|]. intros [|(_ & Hc & Hlk)]; [done|].
    by rewrite bool_decide_eq_true_2, Hlk in Hpush by done.
Qed.

(** [evict] frees the requested number of tokens, or everything evictable. *)
Lemma evict_spec G L st num :
  cache_wf cfg G L st → owns cfg G st → disable cfg = false →
  ∃ n st' G', evict hash cfg st num = Ok (n, st') ∧ evicted_to G L st G' st' n ∧
    (num ≤ n ∨ evictable_size_ st' = 0).
Proof.
  intros Hinv Hown Hdis. unfold evict. rewrite Hdis.
  destruct (collect_leaves_spec cfg G L _ st Hinv) as (out & -> & Hnd & Ho). cbn [res_bind].
  assert (∃ E, mapM_res (λ n, let! nd := get_node st n in Ok (get_priority (eviction_strategy cfg) nd, n)) out = Ok E
    ∧ E.*2 = out) as (E & -> & HE).
  { assert (Forall (λ n, is_Some (heap st !! n)) out) as Hall.
    { apply Forall_forall. intros n (_ & Hn & v & Hv & _)%Ho. rewrite hview_lookup in Hv.
      destruct (heap st !! n); [eauto|done]. }
    clear -Hall. induction Hall as [|n l [nd Hn] _ IH]; [by exists []|]. cbn.
    rewrite (get_node_ok _ _ _ Hn). cbn. destruct IH as (E & -> & <-). cbn. by eexists. }
  cbn [res_bind].
  destruct (evict_loop_spec (S (size (heap st))) G L st E num 0 Hinv Hown) as (n & st' & G' & -> & ? & ?).
  - by rewrite HE.
  - by rewrite HE.
  - pose proof (dom_ghost_size cfg G L _ st Hinv). lia.
  - exists n, st', G'. by split_and!.
Qed.
End evict_op.
