(* ===== verification/RadixSpec.v ===== *)
(** * What the radix cache promises

    The theorems about [RadixTree.v], for any allocator that satisfies
    [KVPool], any clock and any hash. *)

From stdpp Require Import gmultiset.
From S2P Require Import Prelude KVAllocator KVAllocatorProofs KVAllocatorSpec.
From S2P Require Import RadixTree RadixInv RadixSplit RadixMatch RadixInsert RadixLock RadixWalk RadixOwn RadixEvict.

(** ** The empty cache *)
Section reset.
Context {A : Type} `{KVPool A}.
Context (clock : nat → Z) (cfg : config).

Definition root_ghost (r : nat) : ghost := {[r := ([], [])]}.

Lemma root_ghost_lookup r n x : root_ghost r !! n = Some x ↔ r = n ∧ ([], []) = x.
Proof. apply lookup_singleton_Some. Qed.

Lemma reset_heap (st : cache A) :
  heap (reset clock cfg st) = <[counter st := mkNode [] None (mkKey [] None) (Some []) 1
    (clock (ticks st)) (clock (S (ticks st))) 0 0 (Some []) None]> (heap st) ∧
  counter (reset clock cfg st) = S (counter st) ∧ root_node (reset clock cfg st) = counter st ∧
  evictable_size_ (reset clock cfg st) = 0 ∧ protected_size_ (reset clock cfg st) = 0 ∧
  allocator (reset clock cfg st) = allocator st.
Proof.
  unfold reset, _record_all_cleared_event. destruct (enable_kv_cache_events cfg); cbn; split_and!; try done;
    apply map_eq; intros n; destruct (decide (n = counter st)) as [->|];
    by rewrite ?lookup_alter_eq, ?lookup_alter_ne, ?lookup_insert_eq, ?lookup_insert_ne by done.
Qed.

Lemma reset_wf (st : cache A) : page_size cfg ≠ 0%nat →
  (∀ n, is_Some (heap st !! n) → (n < counter st)%nat) →
  cache_wf cfg (root_ghost (counter st)) ∅ (reset clock cfg st).
Proof.
  intros Hps Hf. destruct (reset_heap st) as (Eh & Ec & Er & Ee & Ep & _). set (r := counter st) in *.
  set (rn := mkNode [] None (mkKey [] None) (Some []) 1 _ _ 0 0 (Some []) None) in Eh.
  assert (hview (heap (reset clock cfg st)) !! r = Some (view rn)) as Hr.
  { apply hview_Some. by rewrite Eh, lookup_insert_eq. }
  constructor; rewrite ?Ee, ?Ep, ?Er, ?Ec.
  - constructor; [done| | | |].
    + exists (view rn). split_and!; try done. apply lookup_singleton_eq.
    + intros n [x [? ?]%root_ghost_lookup]. congruence.
    + intros n v [x [<- _]%root_ghost_lookup] Hv. rewrite Hr in Hv. injection Hv as <-. cbn.
      split; [constructor|set_solver].
    + intros n [v Hv]. rewrite hview_lookup, Eh in Hv. destruct (decide (n = r)) as [->|]; [lia|].
      rewrite lookup_insert_ne in Hv by done. pose proof (Hf n). destruct (heap st !! n); [|done].
      specialize (H0 ltac:(eauto)). lia.
  - constructor.
    + intros n Hn. multiset_solver.
    + unfold lock_of. by rewrite Hr.
    + intros n v [x [<- _]%root_ghost_lookup]. done.
  - symmetry. apply set_sum_zero. intros n [x [<- _]%root_ghost_lookup]%elem_of_dom.
    unfold sel_len. by rewrite Hr, decide_True.
  - symmetry. apply set_sum_zero. intros n [x [<- _]%root_ghost_lookup]%elem_of_dom.
    unfold sel_len. by rewrite Hr, decide_True.
Qed.

Lemma reset_cached (st : cache A) e t i : ¬ cached cfg (root_ghost (counter st)) (reset clock cfg st) e t i.
Proof.
  intros (n & v & g & Hr & _ & [<- _]%root_ghost_lookup & _).
  by rewrite (proj1 (proj2 (proj2 (reset_heap st)))) in Hr.
Qed.

Lemma reset_owns (st : cache A) : kv_ok (allocator st) →
  kv_page_size (allocator st) = Z.of_nat (page_size cfg) →
  owns cfg (root_ghost (counter st)) (reset clock cfg st).
Proof.
  intros Hok Hps. destruct (reset_heap st) as (Eh & _ & _ & _ & _ & Ea).
  assert (node_vals (hview (heap (reset clock cfg st))) (counter st) = []) as Hv.
  { unfold node_vals. rewrite hview_lookup, Eh, lookup_insert_eq. done. }
  assert (tree_slots (root_ghost (counter st)) (reset clock cfg st) = []) as Hs.
  { unfold tree_slots, slots_of, root_ghost. rewrite dom_singleton_L, elements_singleton.
    rewrite fmap_cons, Hv. done. }
  constructor; rewrite ?Ea, ?Hs; try done; [|constructor].
  intros n [x [<- _]%root_ghost_lookup]. rewrite Hv. apply whole_nil.
Qed.
End reset.

(** ** Prefix matching *)
Section match_facts.
Context {A : Type} `{KVPool A}.
Context (cfg : config).
Implicit Types st : cache A.

Lemma cached_functional G L d st e t i1 i2 : cache_inv cfg G L d st →
  cached cfg G st e t i1 → cached cfg G st e t i2 → i1 = i2.
Proof. intros Hinv. apply (Cached_functional (ci_wf Hinv)). Qed.

Lemma matched_facts G L d st key_ G' st' m :
  cache_inv cfg G L d st → cache_wf cfg G' L st' → refines cfg G st G' st' → matched cfg G st key_ G' st' m →
  let toks := lookup_tokens cfg key_ in
  let k := length (device_indices m) in
  (k ≠ 0%nat → cached cfg G st (extra_key key_) (take k toks) (device_indices m)) ∧
  ∀ t i, cached cfg G st (extra_key key_) t i → t `prefix_of` toks →
    (length t ≤ k)%nat ∧ i = take (length t) (device_indices m).
Proof.
  intros Hinv Hinv' Hrf (Hk & Hkd & Hlast & Hc & Hmax) toks k.
  assert (k ≠ 0%nat → cached cfg G st (extra_key key_) (take k toks) (device_indices m)) as Hcd.
  { intros Hk0. apply (rf_cached Hrf).
    apply (node_cached cfg G' L _ st' _ _ _ Hinv' Hlast Hc). intros E. rewrite E in Hlast.
    destruct (wf_root (ci_wf Hinv')) as (? & _ & X & _). rewrite Hlast in X. injection X as _ X.
    apply Hk0. unfold k. by rewrite X. }
  split; [done|]. intros t i Ht Hp. specialize (Hmax t i Ht Hp). split; [done|].
  destruct (decide (t = [])) as [->|Hne].
  { destruct Ht as (? & ? & ? & _ & _ & _ & _ & _ & _ & ->). done. }
  eapply (cached_functional G L d st); [done|exact Ht|]. eapply (cached_prefix cfg G st _ (take k toks)).
  - apply Hcd. destruct t; [done|]. cbn in Hmax. unfold k. lia.
  - eapply (prefix_through _ _ toks); [done|apply prefix_take|]. rewrite length_take_le; done.
  - by destruct Ht as (? & ? & ? & _ & _ & _ & _ & _ & ? & _).
Qed.
End match_facts.

(** C13. Longest cached prefix: on a well-formed cache [match_prefix] returns (it
    never raises and its loop ends), the indices it returns are those cached for
    the first [k] tokens of the page-aligned key, every cached prefix of the key
    in the same namespace has at most [k] tokens and the same leading indices,
    and the tree afterwards is well-formed with exactly the same content. *)
Theorem match_prefix_longest {A} `{KVPool A} clock hash cfg G L (st : cache A) key_
    (Hinv : cache_wf cfg G L st) (Hen : disable cfg = false) :
  ∃ m st' G', match_prefix clock hash cfg st key_ = Ok (m, st') ∧
    cache_wf cfg G' L st' ∧ refines cfg G st G' st' ∧
    let toks := lookup_tokens cfg key_ in
    let k := length (device_indices m) in
    (k ≤ length toks)%nat ∧
    (k ≠ 0%nat → cached cfg G st (extra_key key_) (take k toks) (device_indices m)) ∧
    ∀ t i, cached cfg G st (extra_key key_) t i → t `prefix_of` toks →
      (length t ≤ k)%nat ∧ i = take (length t) (device_indices m).
Proof.
  destruct (match_prefix_spec clock hash cfg G L st key_ Hinv Hen) as (m & st' & G' & Heq & Hinv' & Hrf & Hm).
  exists m, st', G'. do 3 (split; [done|]). split; [by destruct Hm|].
  apply (matched_facts cfg G L _ st key_ G' st' m Hinv Hinv' Hrf Hm).
Qed.

(** ** A concrete cache for the witnesses *)
Module Demo.
Definition cfg : config := mkConfig 1 false false false LRU.
Definition pool : Base.t := Base.mk 8 1 false [1; 2; 3; 4; 8] [] true [].
Definition empty : cache Base.t := reset Z.of_nat cfg (mkCache ∅ 0 0 0 0 0 [] pool).
Definition no_hash (_ : list token) : Z := 0.
Definition k (l : list Z) : RadixKey := mkKey (TInt <$> l) None.
(** Tokens 11, 12, 13 stored in the slots 5, 6, 7. *)
Definition full : cache Base.t :=
  match insert Z.of_nat no_hash cfg empty (k [11; 12; 13]) (Some [5; 6; 7]) with
  | Ok (_, st) => st | Err _ => empty end.

Lemma empty_wf : cache_wf cfg (root_ghost 0) ∅ empty.
Proof. apply (reset_wf Z.of_nat cfg (mkCache ∅ 0 0 0 0 0 [] pool)); [done|]. intros n [x Hx]. done. Qed.

Lemma pool_ok : kv_ok pool.
Proof. split; [|done]. by_decide. Qed.

Lemma empty_owns : owns cfg (root_ghost 0) empty.
Proof. apply (reset_owns Z.of_nat cfg (mkCache ∅ 0 0 0 0 0 [] pool)); [apply pool_ok|done]. Qed.

Lemma full_ok : ∃ G, cache_wf cfg G ∅ full ∧ owns cfg G full ∧
  cached cfg G full None (TInt <$> [11; 12; 13]) [5; 6; 7].
Proof.
  destruct (insert_spec Z.of_nat no_hash cfg (root_ghost 0) ∅ empty (k [11; 12; 13]) [5; 6; 7])
    as (n & st' & G' & I & Heq & Hinv & Hins); [apply empty_wf|done|apply Nat.divide_1_l|done|].
  assert (full = st') as -> by (unfold full; by rewrite Heq).
  pose proof (is_old _ _ _ _ _ _ _ _ _ _ Hins) as Hold.
  assert (n = 0%nat) as ->.
  { destruct n; [done|]. exfalso.
    apply (reset_cached Z.of_nat cfg (mkCache ∅ 0 0 0 0 0 [] pool) _ _ _ (Hold ltac:(done))). }
  pose proof (is_len _ _ _ _ _ _ _ _ _ _ Hins) as HI. apply nil_length_inv in HI. subst I.
  exists G'. split_and!; [done| |].
  - refine (proj1 (owns_insert cfg (root_ghost 0) empty _ _ _ _ _ _ _ _ empty_owns Hins _ _ _)); [done| | |].
    + exists [5; 6; 7]. reflexivity.
    + assert (tree_slots (root_ghost 0) empty = []) as -> by reflexivity. by_decide.
    + by_decide.
  - apply (is_cached _ _ _ _ _ _ _ _ _ _ Hins). right. split_and!; try done. apply Nat.divide_1_l.
Qed.

Lemma full_node G : cache_wf cfg G ∅ full → cached cfg G full None (TInt <$> [11; 12; 13]) [5; 6; 7] →
  is_Some (G !! 1%nat).
Proof.
  intros Hinv (n & v & g & Hr & Hv & Hg & _). assert (dom (heap full) = {[0%nat; 1%nat]}) as Hd by by_decide.
  assert (n ∈ dom (heap full)) as Hn.
  { rewrite hview_lookup in Hv. apply elem_of_dom. destruct (heap full !! n); [eauto|done]. }
  rewrite Hd in Hn. apply elem_of_union in Hn as [Hn|Hn]; apply elem_of_singleton in Hn; subst n; [|eauto].
  by destruct Hr.
Qed.
End Demo.

Lemma match_prefix_longest_witness :
  (∃ st', match_prefix Z.of_nat Demo.no_hash Demo.cfg Demo.full (Demo.k [11; 12; 20]) =
     Ok (mkMatch [5; 6] 2, st')) ∧
  ∃ G, cached Demo.cfg G Demo.full None (TInt <$> [11; 12]) [5; 6].
Proof.
  split; [eexists; vm_compute; reflexivity|].
  destruct Demo.full_ok as (G & Hinv & _ & _). exists G.
  destruct (match_prefix_longest Z.of_nat Demo.no_hash Demo.cfg G ∅ Demo.full (Demo.k [11; 12; 20])
    Hinv eq_refl) as (m & st' & G' & Heq & _ & _ & _ & Hc & _).
  assert (m = mkMatch [5; 6] 2) as ->.
  { enough (fst <$> (match match_prefix Z.of_nat Demo.no_hash Demo.cfg Demo.full (Demo.k [11; 12; 20])
      with Ok x => Some x | Err _ => None end) = Some (mkMatch [5; 6] 2)) as X; [|vm_compute; reflexivity].
    rewrite Heq in X. by injection X. }
  apply Hc. done.
Defined.

(** ** Insertion *)

(** C14. Insertion: with a page-aligned key and one index per token, [insert]
    returns the length [k] of the longest prefix that was cached already; that
    part keeps its old indices [I], the rest of the key is cached with the rest
    of the given indices, every other entry is unchanged, the tree stays
    well-formed and only the evictable size grows, by the new tokens. *)
Theorem insert_extends {A} `{KVPool A} clock hash cfg G L (st : cache A) key_ value_
    (Hinv : cache_wf cfg G L st) (Hen : disable cfg = false)
    (Hal : (page_size cfg | length (key_convert_fn cfg (token_ids key_)))%nat)
    (Hval : length (if is_eagle cfg then take (length (key_convert_fn cfg (token_ids key_))) value_ else value_)
            = length (key_convert_fn cfg (token_ids key_))) :
  let toks := key_convert_fn cfg (token_ids key_) in
  let v := if is_eagle cfg then take (length toks) value_ else value_ in
  ∃ k st' G' I, insert clock hash cfg st key_ (Some value_) = Ok (k, st') ∧ cache_wf cfg G' L st' ∧
    length I = k ∧ (k ≠ 0%nat → cached cfg G st (extra_key key_) (take k toks) I) ∧
    (∀ t i, cached cfg G st (extra_key key_) t i → t `prefix_of` toks → (length t ≤ k)%nat) ∧
    (∀ e t i, cached cfg G' st' e t i ↔ cached cfg G st e t i ∨
       (toks ≠ [] ∧ e = extra_key key_ ∧ t `prefix_of` toks ∧ (page_size cfg | length t)%nat ∧
        i = take (length t) (I ++ drop k v))) ∧
    allocator st' = allocator st ∧ protected_size st' = protected_size st ∧
    evictable_size st' = evictable_size st + (Z.of_nat (length toks) - Z.of_nat k).
Proof.
  destruct (insert_spec clock hash cfg G L st key_ value_ Hinv Hen Hal Hval) as (k & st' & G' & I & Heq & Hinv' & Hins).
  exists k, st', G', I. by destruct Hins.
Qed.

Lemma insert_extends_witness :
  insert Z.of_nat Demo.no_hash Demo.cfg Demo.full (Demo.k [11; 12; 20]) (Some [5; 6; 4]) =
    insert Z.of_nat Demo.no_hash Demo.cfg Demo.full (Demo.k [11; 12; 20]) (Some [1; 2; 4]) ∧
  ∃ (st' : cache Base.t) G', cached Demo.cfg G' st' None (TInt <$> [11; 12; 20]) [5; 6; 4].
Proof.
  split; [vm_compute; reflexivity|].
  destruct Demo.full_ok as (G & Hinv & _ & Hc).
  destruct (insert_extends Z.of_nat Demo.no_hash Demo.cfg G ∅ Demo.full (Demo.k [11; 12; 20]) [1; 2; 4]
    Hinv eq_refl (Nat.divide_1_l _) eq_refl) as (k & st' & G' & I & Heq & _ & Hlen & Hold & Hmax & Hiff & _).
  assert (k = 2%nat) as ->.
  { enough (fst <$> (match insert Z.of_nat Demo.no_hash Demo.cfg Demo.full (Demo.k [11; 12; 20]) (Some [1; 2; 4])
      with Ok x => Some x | Err _ => None end) = Some 2%nat) as X; [|vm_compute; reflexivity].
    rewrite Heq in X. by injection X. }
  assert (I = [5; 6]) as ->.
  { eapply cached_functional; [exact Hinv|apply Hold; done|].
    change [5; 6] with (take (length (TInt <$> [11; 12])) [5; 6; 7]).
    change (take 2 _) with (TInt <$> [11; 12]).
    apply (cached_prefix _ _ _ _ _ _ (TInt <$> [11; 12]) Hc); [by exists [TInt 13]|apply Nat.divide_1_l]. }
  exists st', G'. apply Hiff. right.
  split; [discriminate|]. split; [reflexivity|]. split; [reflexivity|]. split; [apply Nat.divide_1_l|reflexivity].
Defined.

(** Insert/lookup round trip: matching a key right after inserting it
    returns an index for every token: the indices the tree already had for the
    part it knew, and the inserted ones for the rest. *)
Theorem insert_match_roundtrip {A} `{KVPool A} clock hash cfg G L (st : cache A) key_ value_
    (Hinv : cache_wf cfg G L st) (Hen : disable cfg = false)
    (Hal : (page_size cfg | length (key_convert_fn cfg (token_ids key_)))%nat)
    (Hval : length (if is_eagle cfg then take (length (key_convert_fn cfg (token_ids key_))) value_ else value_)
            = length (key_convert_fn cfg (token_ids key_))) :
  let toks := key_convert_fn cfg (token_ids key_) in
  let v := if is_eagle cfg then take (length toks) value_ else value_ in
  ∃ k st1 I m st2, insert clock hash cfg st key_ (Some value_) = Ok (k, st1) ∧
    match_prefix clock hash cfg st1 key_ = Ok (m, st2) ∧
    length I = k ∧ (k ≠ 0%nat → cached cfg G st (extra_key key_) (take k toks) I) ∧
    device_indices m = I ++ drop k v.
Proof.
  intros toks v.
  destruct (insert_spec clock hash cfg G L st key_ value_ Hinv Hen Hal Hval) as (k & st1 & G1 & I & Heq & Hinv1 & Hins).
  destruct (match_prefix_spec clock hash cfg G1 L st1 key_ Hinv1 Hen) as (m & st2 & G2 & Heqm & Hinv2 & Hrf & Hm).
  exists k, st1, I, m, st2. fold toks v in Hins.
  do 2 (split; [done|]). split; [apply (is_len _ _ _ _ _ _ _ _ _ _ Hins)|].
  split; [apply (is_old _ _ _ _ _ _ _ _ _ _ Hins)|].
  assert (lookup_tokens cfg key_ = toks) as Hlt by (apply aligned_id; [apply (wf_page (ci_wf Hinv))|done]).
  assert (length (I ++ drop k v) = length toks) as Hl.
  { pose proof (is_bound _ _ _ _ _ _ _ _ _ _ Hins). pose proof (is_len _ _ _ _ _ _ _ _ _ _ Hins).
    assert (length v = length toks) as Hv by exact Hval. rewrite length_app, length_drop. lia. }
  destruct (matched_facts cfg G1 L _ st1 key_ G2 st2 m Hinv1 Hinv2 Hrf Hm) as [_ Hmax]. rewrite Hlt in Hmax.
  destruct Hm as (Hk & _). rewrite Hlt in Hk.
  destruct (decide (toks = [])) as [E|Hne].
  { rewrite E in *. cbn in *. apply nil_length_inv in Hl. rewrite Hl. apply nil_length_inv. lia. }
  destruct (Hmax toks (take (length toks) (I ++ drop k v))) as [Hlen Hi].
  - apply (is_cached _ _ _ _ _ _ _ _ _ _ Hins). right. by split_and!.
  - done.
  - rewrite <-Hl, firstn_all in Hi. rewrite Hi, take_ge; [done|]. lia.
Qed.

Lemma insert_match_roundtrip_witness : ∃ k st1 I m st2,
  insert Z.of_nat Demo.no_hash Demo.cfg Demo.full (Demo.k [11; 20]) (Some [3; 4]) = Ok (k, st1) ∧
  match_prefix Z.of_nat Demo.no_hash Demo.cfg st1 (Demo.k [11; 20]) = Ok (m, st2) ∧
  device_indices m = I ++ drop k [3; 4].
Proof.
  destruct Demo.full_ok as (G & Hinv & _ & _).
  destruct (insert_match_roundtrip Z.of_nat Demo.no_hash Demo.cfg G ∅ Demo.full (Demo.k [11; 20]) [3; 4]
    Hinv eq_refl (Nat.divide_1_l _) eq_refl) as (k & st1 & I & m & st2 & H1 & H2 & _ & _ & H3).
  exists k, st1, I, m, st2. exact (conj H1 (conj H2 H3)).
Defined.

(** Namespaces: inserting under one extra key does not change what any
    lookup under another extra key returns. *)
Theorem extra_key_isolation {A} `{KVPool A} clock hash cfg G L (st : cache A) key_ value_ other
    (Hinv : cache_wf cfg G L st) (Hen : disable cfg = false)
    (Hal : (page_size cfg | length (key_convert_fn cfg (token_ids key_)))%nat)
    (Hval : length (if is_eagle cfg then take (length (key_convert_fn cfg (token_ids key_))) value_ else value_)
            = length (key_convert_fn cfg (token_ids key_)))
    (Hne : extra_key other ≠ extra_key key_) :
  ∃ k st1 m m1 st2 st3, insert clock hash cfg st key_ (Some value_) = Ok (k, st1) ∧
    match_prefix clock hash cfg st other = Ok (m, st2) ∧
    match_prefix clock hash cfg st1 other = Ok (m1, st3) ∧
    device_indices m1 = device_indices m.
Proof.
  destruct (insert_spec clock hash cfg G L st key_ value_ Hinv Hen Hal Hval) as (k & st1 & G1 & I & Heq & Hinv1 & Hins).
  destruct (match_prefix_spec clock hash cfg G L st other Hinv Hen) as (m & st2 & G2 & Heqm & Hinv2 & Hrf & Hm).
  destruct (match_prefix_spec clock hash cfg G1 L st1 other Hinv1 Hen) as (m1 & st3 & G3 & Heqm1 & Hinv3 & Hrf1 & Hm1).
  exists k, st1, m, m1, st2, st3. do 3 (split; [done|]).
  assert (∀ t i, cached cfg G1 st1 (extra_key other) t i ↔ cached cfg G st (extra_key other) t i) as Hc.
  { intros t i. rewrite (is_cached _ _ _ _ _ _ _ _ _ _ Hins). naive_solver. }
  destruct (matched_facts cfg G L _ st other G2 st2 m Hinv Hinv2 Hrf Hm) as [Ha Hb].
  destruct (matched_facts cfg G1 L _ st1 other G3 st3 m1 Hinv1 Hinv3 Hrf1 Hm1) as [Ha1 Hb1].
  destruct Hm as (Hk & _), Hm1 as (Hk1 & _). set (toks := lookup_tokens cfg other) in *.
  destruct (decide (length (device_indices m) = 0%nat)) as [E|E].
  - apply nil_length_inv in E as E'. rewrite E'. apply nil_length_inv.
    destruct (decide (length (device_indices m1) = 0%nat)) as [|E1]; [done|].
    destruct (Hb _ _ (proj1 (Hc _ _) (Ha1 E1)) (prefix_take _ _)) as [Hle _]. rewrite length_take_le in Hle by done. lia.
  - destruct (Hb1 _ _ (proj2 (Hc _ _) (Ha E)) (prefix_take _ _)) as [Hle Hi]. rewrite length_take_le in Hle, Hi by done.
    destruct (Hb _ _ (proj1 (Hc _ _) (Ha1 ltac:(lia))) (prefix_take _ _)) as [Hle' _].
    rewrite length_take_le in Hle' by done. by rewrite Hi, take_ge by lia.
Qed.

Lemma extra_key_isolation_witness : ∃ k st1 m m1 st2 st3,
  insert Z.of_nat Demo.no_hash Demo.cfg Demo.full (Demo.k [11; 20]) (Some [3; 4]) = Ok (k, st1) ∧
  match_prefix Z.of_nat Demo.no_hash Demo.cfg Demo.full (mkKey (TInt <$> [11; 20]) (Some "lora"%string)) = Ok (m, st2) ∧
  match_prefix Z.of_nat Demo.no_hash Demo.cfg st1 (mkKey (TInt <$> [11; 20]) (Some "lora"%string)) = Ok (m1, st3) ∧
  device_indices m1 = device_indices m.
Proof.
  destruct Demo.full_ok as (G & Hinv & _ & _).
  apply (extra_key_isolation Z.of_nat Demo.no_hash Demo.cfg G ∅ Demo.full (Demo.k [11; 20]) [3; 4]
    (mkKey (TInt <$> [11; 20]) (Some "lora"%string)) Hinv eq_refl (Nat.divide_1_l _) eq_refl).
  discriminate.
Defined.

(** ** Locks *)
Lemma chain_det W r n l l' : chain W r n l → chain W r n l' → l = l'.
Proof.
  revert n l'. induction l as [|x l IH]; intros n [|x' l']; cbn; [done|naive_solver|naive_solver|].
  intros (-> & _ & v & p & Hv & Hp & Hc) (-> & _ & v' & p' & Hv' & Hp' & Hc'). simplify_eq.
  f_equal. by eapply IH.
Qed.

Lemma chain_relocked W W' r n l : relocked W W' → chain W r n l → chain W' r n l.
Proof.
  intros HR. revert n. induction l as [|x l IH]; intros n; [done|].
  intros (-> & Hr & v & p & Hv & Hp & Hc). destruct (relocked_view W W' n v HR Hv) as (v' & Hv' & _ & E & _).
  split_and!; [done|done|]. exists v', p. split_and!; [done|congruence|auto].
Qed.

(** Releasing a lock undoes taking it. *)
Lemma lock_undo {A} `{KVPool A} cfg G L (st : cache A) node :
  cache_wf cfg G L st → disable cfg = false → is_Some (G !! node) →
  ∃ δ st1, inc_lock_ref cfg st node = Ok (δ, st1) ∧ dec_lock_ref cfg st1 node = Ok (- δ, st) ∧
    cache_wf cfg G (L ⊎ {[+ node +]}) st1.
Proof.
  intros Hinv Hen Hn.
  destruct (inc_lock_ref_spec cfg G L st node Hinv Hn Hen) as (l & δ & Hch & Hnd & Heq & Hinv1).
  destruct (dec_lock_ref_spec cfg G _ _ node Hinv1 ltac:(multiset_solver) Hen)
    as (l' & δ' & Hch' & _ & Heq' & Hinv2).
  exists δ, (with_locks 1 l δ st). split; [done|]. split; [|done]. rewrite Heq'.
  assert (l' = l) as ->.
  { eapply chain_det; [exact Hch'|]. eapply chain_relocked; [apply with_locks_view|exact Hch]. }
  assert (heap (with_locks (-1) l δ' (with_locks 1 l δ st)) = heap st) as Hh.
  { exact (relock_cancel 1 l (heap st) Hnd). }
  pose proof (ci_evictable Hinv2) as He. rewrite Hh in He. cbn in He.
  rewrite <-(ci_evictable Hinv) in He. assert (δ' = - δ) as -> by lia.
  f_equal. f_equal. destruct st. unfold with_locks in *. cbn in *. f_equal; [done|lia|lia].
Qed.

(** Lock round trip: on a well-formed cache, taking a lock on a live node
    and releasing it again restores the very same cache state, and the two
    returned size changes cancel. *)
Theorem lock_roundtrip {A} `{KVPool A} cfg G L (st : cache A) node
    (Hinv : cache_wf cfg G L st) (Hen : disable cfg = false) (Hn : is_Some (G !! node)) :
  ∃ δ st1, inc_lock_ref cfg st node = Ok (δ, st1) ∧ dec_lock_ref cfg st1 node = Ok (- δ, st).
Proof.
  destruct (lock_undo cfg G L st node Hinv Hen Hn) as (δ & st1 & H1 & H2 & _). eauto.
Qed.

Lemma lock_roundtrip_witness : ∃ δ st1,
  inc_lock_ref Demo.cfg Demo.full 1 = Ok (δ, st1) ∧ dec_lock_ref Demo.cfg st1 1 = Ok (- δ, Demo.full).
Proof.
  destruct Demo.full_ok as (G & Hinv & _ & Hc).
  exact (lock_roundtrip Demo.cfg G ∅ Demo.full 1 Hinv eq_refl (Demo.full_node G Hinv Hc)).
Defined.

(** Lock accounting: [inc_lock_ref] moves exactly [-δ] tokens from the
    evictable to the protected size, keeps the tree well-formed with one more
    holder, and leaves the cached content, the allocator and the sum of the two
    sizes (which is [total_size]) unchanged. *)
Theorem inc_lock_accounting {A} `{KVPool A} cfg G L (st : cache A) node
    (Hinv : cache_wf cfg G L st) (Hen : disable cfg = false) (Hn : is_Some (G !! node)) :
  ∃ δ st1, inc_lock_ref cfg st node = Ok (δ, st1) ∧
    cache_wf cfg G (L ⊎ {[+ node +]}) st1 ∧
    evictable_size st1 = evictable_size st + δ ∧ protected_size st1 = protected_size st - δ ∧
    total_size st1 = total_size st ∧ allocator st1 = allocator st ∧
    (∀ e t i, cached cfg G st1 e t i ↔ cached cfg G st e t i).
Proof.
  destruct (inc_lock_ref_spec cfg G L st node Hinv Hn Hen) as (l & δ & Hch & Hnd & Heq & Hinv1).
  exists δ, (with_locks 1 l δ st). split_and!; try done.
  - rewrite (total_size_spec cfg G _ _ _ Hinv1), (total_size_spec cfg G _ _ _ Hinv). cbn. f_equal. lia.
  - intros. apply with_locks_cached.
Qed.

Lemma inc_lock_accounting_witness : ∃ δ st1,
  inc_lock_ref Demo.cfg Demo.full 1 = Ok (δ, st1) ∧ evictable_size st1 = evictable_size Demo.full + δ ∧
  total_size st1 = total_size Demo.full.
Proof.
  destruct Demo.full_ok as (G & Hinv & _ & Hc).
  destruct (inc_lock_accounting Demo.cfg G ∅ Demo.full 1 Hinv eq_refl (Demo.full_node G Hinv Hc))
    as (δ & st1 & H1 & _ & H2 & _ & H3 & _).
  exists δ, st1. exact (conj H1 (conj H2 H3)).
Defined.

(** ** Eviction *)

(** C15. Eviction: on a well-formed cache that owns its slots, [evict] returns
    (no exception, and the loop ends); it frees [n] tokens with [n] at least the
    number asked for, or everything evictable if that is less; every page it
    takes from the tree goes back to the allocator and none is lost or freed
    twice; the protected tokens and all lock holders stay, and nothing new is
    cached. *)
Theorem evict_frees {A} `{KVPool A} hash cfg G L (st : cache A) num_tokens
    (Hinv : cache_wf cfg G L st) (Hown : owns cfg G st) (Hen : disable cfg = false) :
  ∃ n st' G', evict hash cfg st num_tokens = Ok (n, st') ∧
    Z.min num_tokens (evictable_size st) ≤ n ∧
    evictable_size st' = evictable_size st - n ∧ protected_size st' = protected_size st ∧
    cache_wf cfg G' L st' ∧ owns cfg G' st' ∧ G' ⊆ G ∧
    accounted cfg G' st' ≡ₚ accounted cfg G st ∧
    (∀ e t i, cached cfg G' st' e t i → cached cfg G st e t i).
Proof.
  destruct (evict_spec hash cfg G L st num_tokens Hinv Hown Hen) as (n & st' & G' & Heq & Hev & Hend).
  exists n, st', G'. destruct Hev as [? ? ? ? ? ? He ? ? ? _ _ _]. split_and!; try done.
  unfold evictable_size. destruct Hend as [Hle|Hz]; lia.
Qed.

Lemma evict_frees_witness :
  (∃ st', evict Demo.no_hash Demo.cfg Demo.full 2 = Ok (3, st') ∧
     Base.free_pages (allocator st') = [1; 2; 3; 4; 8; 5; 6; 7]) ∧
  ∃ n st' G', evict Demo.no_hash Demo.cfg Demo.full 2 = Ok (n, st') ∧ Z.min 2 3 ≤ n ∧ owns Demo.cfg G' st'.
Proof.
  split; [eexists; split; vm_compute; reflexivity|].
  destruct Demo.full_ok as (G & Hinv & Hown & _).
  destruct (evict_frees Demo.no_hash Demo.cfg G ∅ Demo.full 2 Hinv Hown eq_refl)
    as (n & st' & G' & H1 & H2 & _ & _ & _ & H3 & _).
  exists n, st', G'. exact (conj H1 (conj H2 H3)).
Defined.

(** A locked prefix survives eviction: lock the node a match ended at, evict
    any number of tokens, and the matched prefix is still cached with the
    indices the match returned. *)
Theorem locked_prefix_survives {A} `{KVPool A} clock hash cfg G L (st : cache A) key_ num_tokens
    (Hinv : cache_wf cfg G L st) (Hown : owns cfg G st) (Hen : disable cfg = false) :
  ∃ m st1 δ st2 n st3 G3, match_prefix clock hash cfg st key_ = Ok (m, st1) ∧
    inc_lock_ref cfg st1 (last_device_node m) = Ok (δ, st2) ∧
    evict hash cfg st2 num_tokens = Ok (n, st3) ∧
    cache_wf cfg G3 (L ⊎ {[+ last_device_node m +]}) st3 ∧
    let k := length (device_indices m) in
    (k ≠ 0%nat → cached cfg G3 st3 (extra_key key_) (take k (lookup_tokens cfg key_)) (device_indices m)).
Proof.
  destruct (match_prefix_spec clock hash cfg G L st key_ Hinv Hen) as (m & st1 & G1 & Heq1 & Hinv1 & Hrf & Hm).
  destruct Hm as (Hk & Hkd & Hlast & Hc & _).
  destruct (inc_lock_ref_spec cfg G1 L st1 (last_device_node m) Hinv1 ltac:(eauto) Hen) as (l & δ & _ & _ & Heq2 & Hinv2).
  pose proof (with_locks_view 1 l δ st1) as HR. set (st2 := with_locks 1 l δ st1) in *.
  assert (owns cfg G1 st1) as Hown1.
  { eapply (owns_perm cfg G st); [apply (rf_alloc Hrf)|apply (rf_slots Hrf)|apply (rf_whole Hrf), (ow_whole Hown)|done]. }
  assert (owns cfg G1 st2) as Hown2 by (by apply owns_relocked).
  destruct (evict_spec hash cfg G1 _ st2 num_tokens Hinv2 Hown2 Hen) as (n & st3 & G3 & Heq3 & Hev & _).
  exists m, st1, δ, st2, n, st3, G3. split_and!; try done; [apply (ev_wf _ _ _ _ _ _ _ Hev)|].
  intros k Hk0. destruct Hev as [Hwf3 _ Hsub Hroot _ _ _ _ Hkeys Hcd _ _ _].
  assert (G3 !! last_device_node m = Some (take k (lookup_tokens cfg key_), device_indices m)) as Hlast3.
  { destruct (lo_live (ci_locks Hwf3) (last_device_node m) ltac:(multiset_solver)) as [g3 Hg3].
    pose proof (lookup_weaken _ _ _ _ Hg3 Hsub) as X. rewrite Hlast in X. rewrite Hg3. by symmetry. }
  apply (node_cached cfg G3 _ _ st3 (last_device_node m) _ _ Hwf3 Hlast3).
  - destruct Hc as [Hc|(v & Hv & He)].
    + left. rewrite Hroot. exact Hc.
    + right. destruct (relocked_view _ _ _ _ HR Hv) as (v2 & Hv2 & _ & _ & Ek & _).
      specialize (Hkeys (last_device_node m)). rewrite Hv2 in Hkeys.
      destruct (hview (heap st3) !! last_device_node m) as [v3|]; [|done]. cbn in Hkeys.
      exists v3. split; [done|]. congruence.
  - intros E. rewrite E in Hlast3. destruct (wf_root (ci_wf Hwf3)) as (? & _ & X & _).
    rewrite Hlast3 in X. injection X as _ X. apply Hk0. unfold k. by rewrite X.
Qed.

Lemma locked_prefix_survives_witness : ∃ m st1 δ st2 n st3,
  match_prefix Z.of_nat Demo.no_hash Demo.cfg Demo.full (Demo.k [11; 12]) = Ok (m, st1) ∧
  inc_lock_ref Demo.cfg st1 (last_device_node m) = Ok (δ, st2) ∧
  evict Demo.no_hash Demo.cfg st2 10 = Ok (n, st3).
Proof.
  destruct Demo.full_ok as (G & Hinv & Hown & _).
  destruct (locked_prefix_survives Z.of_nat Demo.no_hash Demo.cfg G ∅ Demo.full (Demo.k [11; 12]) 10 Hinv Hown eq_refl)
    as (m & st1 & δ & st2 & n & st3 & G3 & H1 & H2 & H3 & _).
  exists m, st1, δ, st2, n, st3. exact (conj H1 (conj H2 H3)).
Defined.

(** ** Sizes and events *)

(** Size accounting: the tokens stored below the root are exactly the
    evictable and the protected ones, and counting them by a traversal of the
    tree ends. *)
Theorem total_size_accounts {A} `{KVPool A} cfg G L (st : cache A) (Hinv : cache_wf cfg G L st) :
  total_size st = Ok (evictable_size st + protected_size st).
Proof. exact (total_size_spec cfg G L _ st Hinv). Qed.

Lemma total_size_accounts_witness : total_size Demo.full = Ok (evictable_size Demo.full + protected_size Demo.full).
Proof.
  destruct Demo.full_ok as (G & Hinv & _ & _). exact (total_size_accounts Demo.cfg G ∅ Demo.full Hinv).
Defined.

(** Store events of nodes below the root never carry a parent hash: whatever
    the parent holds, the first block of the node is reported with
    [parent_block_hash = None] (the test in the code is inverted). *)
Theorem store_event_no_parent {A} `{KVPool A} hash cfg (st : cache A) node n
    (Hev : enable_kv_cache_events cfg = true) (Hn : heap st !! node = Some n) (Hne : node ≠ root_node st) :
  _record_store_event hash cfg st node =
    Ok (set_events st (kv_event_queue st ++ stored_events hash None (key_pages cfg (token_ids (key n))))).
Proof.
  unfold _record_store_event, get_node. rewrite Hev, Hn. cbn.
  rewrite (bool_decide_eq_true_2 (node ≠ _)) by done. by rewrite orb_true_r.
Qed.

Lemma store_event_no_parent_witness :
  ∃ st', _record_store_event (λ _, 7) (mkConfig 1 false true false LRU) Demo.full 1 = Ok st' ∧
    kv_event_queue st' = [BlockStored 7 None [TInt 11] 1; BlockStored 7 (Some 7) [TInt 12] 1; BlockStored 7 (Some 7) [TInt 13] 1].
Proof.
  destruct (heap Demo.full !! 1%nat) as [n|] eqn:Hn; [|vm_compute in Hn; discriminate].
  eexists. split.
  - apply (store_event_no_parent (λ _, 7) (mkConfig 1 false true false LRU) Demo.full 1 n eq_refl Hn). discriminate.
  - vm_compute in Hn. injection Hn as <-. vm_compute. reflexivity.
Defined.
