(* ===== verification/ReqPool.v ===== *)
(** * The request table [ReqToTokenPool] of [mem_cache/memory_pool.py]

    One row of KV slot numbers per request; the rows are [int32], so a stored
    number is truncated.  Slots of the table are handed out from the front of a
    list and returned to its end. *)

From S2P Require Import Prelude KVAllocator.

Module ReqToTokenPool.
Record t := mk {
  size : Z;
  max_context_len : Z;
  req_to_token : list (list Z);
  free_slots : list Z
}.

Definition set_rows (p : t) rows := mk (size p) (max_context_len p) rows (free_slots p).
Definition set_free (p : t) fs := mk (size p) (max_context_len p) (req_to_token p) fs.

Definition init (size max_context_len : Z) : t :=
  mk size max_context_len
     (replicate (Z.to_nat size) (replicate (Z.to_nat max_context_len) 0)) (py_range 0 size).

(** The row a (possibly negative) index denotes. *)
Definition row_pos {A} (rows : list A) (i : Z) : res nat :=
  let j := if i <? 0 then len rows + i else i in
  if (j <? 0) || (len rows <=? j) then Err IndexError else Ok (Z.to_nat j).

Definition row (p : t) (i : Z) : res (list Z) :=
  let! j := row_pos (req_to_token p) i in of_opt IndexError (req_to_token p !! j).

(** [write((i, slice(a, b)), values)]. *)
Definition write (p : t) (i a b : Z) (values : list Z) : res t :=
  let! j := row_pos (req_to_token p) i in
  let! r := of_opt IndexError (req_to_token p !! j) in
  let! r' := py_set_slice r a b (to_int32 <$> values) in
  Ok (set_rows p (<[j := r']> (req_to_token p))).

(** [req_to_token[i, j]] and [write((indices, locs), values)], one cell per entry. *)
Definition cell (p : t) (i j : Z) : res Z := let! r := row p i in py_index r j.
Definition write_cell (p : t) (i j v : Z) : res t :=
  let! k := row_pos (req_to_token p) i in
  let! r := of_opt IndexError (req_to_token p !! k) in
  let! c := row_pos r j in
  Ok (set_rows p (<[k := <[c := to_int32 v]> r]> (req_to_token p))).
Fixpoint write_cells (p : t) (indices locs values : list Z) : res t :=
  match indices, locs, values with
  | i :: indices, j :: locs, v :: values =>
      let! p := write_cell p i j v in write_cells p indices locs values
  | [], [], [] => Ok p
  | _, _, _ => Err RuntimeError
  end.

Definition available_size (p : t) : Z := len (free_slots p).

Definition alloc (p : t) (need_size : Z) : option (list Z) * t :=
  if len (free_slots p) <? need_size then (None, p)
  else (Some (py_upto (free_slots p) need_size), set_free p (py_from (free_slots p) need_size)).

Definition free1 (p : t) (free_index : Z) : t := set_free p (free_slots p ++ [free_index]).
Definition free (p : t) (free_index : list Z) : t := set_free p (free_slots p ++ free_index).
Definition clear (p : t) : t := set_free p (py_range 0 (size p)).
End ReqToTokenPool.

(** ** Facts *)

(** The free slots are rows of the table, each once. *)
Definition req_pool_wf (p : ReqToTokenPool.t) : Prop :=
  NoDup (ReqToTokenPool.free_slots p) ∧
  Forall (λ i, 0 ≤ i < ReqToTokenPool.size p) (ReqToTokenPool.free_slots p) ∧
  len (ReqToTokenPool.req_to_token p) = ReqToTokenPool.size p ∧
  Forall (λ r, len r = ReqToTokenPool.max_context_len p) (ReqToTokenPool.req_to_token p).
#[global] Instance req_pool_wf_dec p : Decision (req_pool_wf p).
Proof. unfold req_pool_wf. apply _. Defined.

Lemma to_int32_id z : - 2 ^ 31 ≤ z < 2 ^ 31 → to_int32 z = z.
Proof. intros. unfold to_int32. rewrite Z.mod_small by lia. lia. Qed.

Lemma to_int32_list l : Forall (λ z, - 2 ^ 31 ≤ z < 2 ^ 31) l → to_int32 <$> l = l.
Proof. induction 1; cbn; [done|]. rewrite to_int32_id by done. by f_equal. Qed.

Lemma row_pos_ok {A} (rows : list A) i : 0 ≤ i < len rows → ReqToTokenPool.row_pos rows i = Ok (Z.to_nat i).
Proof.
  intros Hi. unfold ReqToTokenPool.row_pos. destruct (Z.ltb_spec i 0); [lia|].
  destruct (Z.ltb_spec i 0); [lia|]. destruct (Z.leb_spec (len rows) i); [lia|]. done.
Qed.

Lemma row_ok p i r : 0 ≤ i → ReqToTokenPool.req_to_token p !! Z.to_nat i = Some r →
  ReqToTokenPool.row p i = Ok r.
Proof.
  intros Hi Hr. unfold ReqToTokenPool.row.
  rewrite row_pos_ok; [cbn; by rewrite Hr|]. apply lookup_lt_Some in Hr. unfold len. lia.
Qed.

(** A slice assignment within the row replaces exactly that part of it. *)
Lemma py_set_slice_ok {A} (l : list A) a b v : 0 ≤ a ≤ b → b ≤ len l → len v = b - a →
  py_set_slice l a b v = Ok (take (Z.to_nat a) l ++ v ++ drop (Z.to_nat b) l).
Proof.
  intros Hab Hb Hv. unfold py_set_slice.
  assert (slice_bound (len l) a = a) as -> by (unfold slice_bound; case_bools; lia).
  assert (slice_bound (len l) b = b) as -> by (unfold slice_bound; case_bools; lia).
  rewrite Z.max_r by lia.
  assert (match v with [x] => replicate (Z.to_nat (b - a)) x | _ => v end = v) as ->.
  { destruct v as [|x [|y v]]; [done| |done]. rewrite <-Hv. done. }
  by rewrite (proj2 (Z.eqb_eq _ _) Hv).
Qed.

Lemma write_ok p i r a b v :
  0 ≤ i → ReqToTokenPool.req_to_token p !! Z.to_nat i = Some r → 0 ≤ a ≤ b → b ≤ len r → len v = b - a →
  Forall (λ z, - 2 ^ 31 ≤ z < 2 ^ 31) v →
  ReqToTokenPool.write p i a b v =
    Ok (ReqToTokenPool.set_rows p (<[Z.to_nat i := take (Z.to_nat a) r ++ v ++ drop (Z.to_nat b) r]>
          (ReqToTokenPool.req_to_token p))).
Proof.
  intros Hi Hr Hab Hb Hv Hv32. unfold ReqToTokenPool.write.
  rewrite row_pos_ok by (apply lookup_lt_Some in Hr; unfold len; lia). cbn [res_bind].
  rewrite Hr. cbn [of_opt res_bind]. rewrite to_int32_list, py_set_slice_ok by done. done.
Qed.

(** Request slots: on a well-formed table [alloc n] fails exactly when fewer
    than [n] rows are free and then changes nothing; otherwise it hands out [n]
    distinct rows, and freeing them again gives back a permutation of the free
    rows it started with. *)
Theorem req_slots_conserved p n (Hwf : req_pool_wf p) (Hn : 0 ≤ n) :
  match ReqToTokenPool.alloc p n with
  | (None, p') => ReqToTokenPool.available_size p < n ∧ p' = p
  | (Some rows, p') =>
      len rows = n ∧ NoDup rows ∧ Forall (λ i, 0 ≤ i < ReqToTokenPool.size p) rows ∧ req_pool_wf p' ∧
      ReqToTokenPool.available_size p' = ReqToTokenPool.available_size p - n ∧
      (∀ i, i ∈ rows → i ∉ ReqToTokenPool.free_slots p') ∧
      ReqToTokenPool.free_slots (ReqToTokenPool.free p' rows) ≡ₚ ReqToTokenPool.free_slots p ∧
      req_pool_wf (ReqToTokenPool.free p' rows)
  end.
Proof.
  destruct Hwf as (Hnd & Hb & Hlen & Hrows). unfold ReqToTokenPool.alloc, ReqToTokenPool.available_size.
  case_if; [done|]. rewrite py_upto_take, py_from_drop by done. set (k := Z.to_nat n).
  pose proof (take_drop k (ReqToTokenPool.free_slots p)) as Htd.
  set (fs := ReqToTokenPool.free_slots p) in *. cbn.
  rewrite <-Htd in Hnd, Hb. apply NoDup_app in Hnd as (Hn1 & Hdis & Hn2). apply Forall_app in Hb as [Hb1 Hb2].
  assert (drop k fs ++ take k fs ≡ₚ fs) as HP by (rewrite Permutation_app_comm; by rewrite Htd).
  split_and!; try done.
  - unfold len in *. rewrite length_take. lia.
  - unfold len in *. rewrite length_drop. lia.
  - unfold req_pool_wf. cbn. rewrite HP, <-Htd. split_and!; [|by apply Forall_app|done|done].
    apply NoDup_app. by split_and!.
Qed.

Lemma req_slots_conserved_witness :
  ReqToTokenPool.alloc (ReqToTokenPool.init 3 4) 2 =
    (Some [0; 1], ReqToTokenPool.set_free (ReqToTokenPool.init 3 4) [2]) ∧
  req_pool_wf (ReqToTokenPool.free (ReqToTokenPool.set_free (ReqToTokenPool.init 3 4) [2]) [0; 1]).
Proof.
  assert (req_pool_wf (ReqToTokenPool.init 3 4)) as Hwf by by_decide.
  split; [reflexivity|]. apply (req_slots_conserved (ReqToTokenPool.init 3 4) 2 Hwf ltac:(lia)).
Defined.
