(* ===== verification/Request.v ===== *)
(** * Requests: the class [Req] of [managers/schedule_batch.py]

    A request carries its tokens, the accounting of the KV slots it uses, the
    state of stopping and of incremental detokenisation, and its place in the
    prefix cache.  The fields are grouped as in [Req.__init__]; logprob buffers,
    metrics, multimodal inputs and disaggregation handles are left out.  Text is
    a list of code points; the tokenizer's [decode] and [re.search] are
    parameters. *)

From S2P Require Import Prelude.

Abbreviation text := (list Z).

(** [sub in s] for strings. *)
Definition text_in (sub s : text) : bool :=
  existsb (λ i, bool_decide (take (length sub) (drop i s) = sub)) (seq 0 (S (length s))).

(** ** Finish reasons *)
Inductive FinishReason : Type :=
  | FINISH_MATCHED_TOKEN (matched : Z)
  | FINISH_MATCHED_STR (matched : text)
  | FINISHED_MATCHED_REGEX (matched : text)
  | FINISH_LENGTH (length : Z)
  | FINISH_ABORT (message : string) (status_code : option Z) (err_type : option string).

Definition is_error (f : FinishReason) : bool :=
  match f with FINISH_ABORT _ _ _ => true | _ => false end.

Inductive json : Type :=
  | JStr (s : string) | JText (t : text) | JInt (z : Z) | JNull.
Definition to_json (f : FinishReason) : list (string * json) :=
  match f with
  | FINISH_MATCHED_TOKEN m => [("type", JStr "stop"); ("matched", JInt m)]
  | FINISH_MATCHED_STR m | FINISHED_MATCHED_REGEX m => [("type", JStr "stop"); ("matched", JText m)]
  | FINISH_LENGTH l => [("type", JStr "length"); ("length", JInt l)]
  | FINISH_ABORT m c e => [("type", JStr "abort"); ("message", JStr m);
      ("status_code", from_option JInt JNull c); ("err_type", from_option JStr JNull e)]
  end%string.

(** [FINISH_ABORT(message, ...)]: [message or "Aborted"]. *)
Definition finish_abort (message : option string) (status_code : option Z) (err_type : option string) : FinishReason :=
  let m := match message with Some EmptyString | None => "Aborted"%string | Some m => m end in
  FINISH_ABORT m status_code err_type.

(** The sampling parameters the request reads; a set is listed in its iteration order. *)
Record SamplingParams := mkSampling {
  max_new_tokens : Z;
  ignore_eos : bool;
  stop_token_ids : list Z;
  stop_strs : list text;
  stop_regex_strs : list text;
  stop_str_max_len : Z;
  stop_regex_max_len : Z
}.

Record Tokenizer := mkTokenizer { eos_token_id : Z; additional_stop_token_ids : list Z }.

Module Req.
Record Io := mkIo {
  rid_ : string;
  origin_input_ids_unpadded_ : list Z;
  origin_input_ids_ : list Z;
  output_ids_ : list Z;
  fill_ids_ : list Z
}.
Record Kv := mkKv {
  kv_committed_len_ : Z;
  kv_allocated_len_ : Z;
  kv_committed_freed_ : bool;
  kv_overallocated_freed_ : bool;
  evicted_seqlen_local_ : Z;
  req_pool_idx_ : option Z
}.
Record Args := mkArgs {
  sampling_params_ : SamplingParams;
  extra_key_ : option string;
  lora_id_ : option string;
  eos_token_ids_ : list Z;
  vocab_size_ : option Z;
  priority_ : option Z;
  return_logprob_ : bool;
  logprob_start_len_ : Z
}.
Record Fin := mkFin {
  tokenizer_ : option Tokenizer;
  finished_reason_ : option FinishReason;
  finished_len_ : option Z;
  to_finish_ : option FinishReason;
  grammar_ : option bool
}.
Record Detok := mkDetok {
  surr_offset_ : option Z;
  read_offset_ : option Z;
  decoded_text_ : text;
  surr_and_decode_ids_ : list Z;
  cur_decode_ids_len_ : Z
}.
Record Prefix := mkPrefix {
  prefix_indices_ : list Z;
  extend_input_len_ : Z;
  extend_logprob_start_len_ : Z;
  last_node_ : option nat;
  host_hit_length_ : Z;
  last_matched_prefix_len_ : Z;
  is_chunked_ : Z;
  is_retracted_ : bool;
  retraction_count_ : Z;
  already_computed_ : Z
}.
Record t := mk {
  io : Io;
  kv : Kv;
  args : Args;
  fin : Fin;
  detok : Detok;
  prefix : Prefix
}.
Definition rid (r : t) : string := rid_ (io r).
Definition origin_input_ids_unpadded (r : t) : list Z := origin_input_ids_unpadded_ (io r).
Definition origin_input_ids (r : t) : list Z := origin_input_ids_ (io r).
Definition output_ids (r : t) : list Z := output_ids_ (io r).
Definition fill_ids (r : t) : list Z := fill_ids_ (io r).
Definition kv_committed_len (r : t) : Z := kv_committed_len_ (kv r).
Definition kv_allocated_len (r : t) : Z := kv_allocated_len_ (kv r).
Definition kv_committed_freed (r : t) : bool := kv_committed_freed_ (kv r).
Definition kv_overallocated_freed (r : t) : bool := kv_overallocated_freed_ (kv r).
Definition evicted_seqlen_local (r : t) : Z := evicted_seqlen_local_ (kv r).
Definition req_pool_idx (r : t) : option Z := req_pool_idx_ (kv r).
Definition sampling_params (r : t) : SamplingParams := sampling_params_ (args r).
Definition extra_key (r : t) : option string := extra_key_ (args r).
Definition lora_id (r : t) : option string := lora_id_ (args r).
Definition eos_token_ids (r : t) : list Z := eos_token_ids_ (args r).
Definition vocab_size (r : t) : option Z := vocab_size_ (args r).
Definition priority (r : t) : option Z := priority_ (args r).
Definition return_logprob (r : t) : bool := return_logprob_ (args r).
Definition logprob_start_len (r : t) : Z := logprob_start_len_ (args r).
Definition tokenizer (r : t) : option Tokenizer := tokenizer_ (fin r).
Definition finished_reason (r : t) : option FinishReason := finished_reason_ (fin r).
Definition finished_len (r : t) : option Z := finished_len_ (fin r).
Definition to_finish (r : t) : option FinishReason := to_finish_ (fin r).
Definition grammar (r : t) : option bool := grammar_ (fin r).
Definition surr_offset (r : t) : option Z := surr_offset_ (detok r).
Definition read_offset (r : t) : option Z := read_offset_ (detok r).
Definition decoded_text (r : t) : text := decoded_text_ (detok r).
Definition surr_and_decode_ids (r : t) : list Z := surr_and_decode_ids_ (detok r).
Definition cur_decode_ids_len (r : t) : Z := cur_decode_ids_len_ (detok r).
Definition prefix_indices (r : t) : list Z := prefix_indices_ (prefix r).
Definition extend_input_len (r : t) : Z := extend_input_len_ (prefix r).
Definition extend_logprob_start_len (r : t) : Z := extend_logprob_start_len_ (prefix r).
Definition last_node (r : t) : option nat := last_node_ (prefix r).
Definition host_hit_length (r : t) : Z := host_hit_length_ (prefix r).
Definition last_matched_prefix_len (r : t) : Z := last_matched_prefix_len_ (prefix r).
Definition is_chunked (r : t) : Z := is_chunked_ (prefix r).
Definition is_retracted (r : t) : bool := is_retracted_ (prefix r).
Definition retraction_count (r : t) : Z := retraction_count_ (prefix r).
Definition already_computed (r : t) : Z := already_computed_ (prefix r).
Definition set_rid (r : t) (x : string) : t := mk (mkIo x (origin_input_ids_unpadded r)
  (origin_input_ids r) (output_ids r) (fill_ids r)) (kv r) (args r) (fin r) (detok r) (prefix r).
Definition set_origin_input_ids_unpadded (r : t) (x : list Z) : t := mk (mkIo (rid r) x
  (origin_input_ids r) (output_ids r) (fill_ids r)) (kv r) (args r) (fin r) (detok r) (prefix r).
Definition set_origin_input_ids (r : t) (x : list Z) : t := mk (mkIo (rid r)
  (origin_input_ids_unpadded r) x (output_ids r) (fill_ids r)) (kv r) (args r) (fin r) (detok r)
  (prefix r).
Definition set_output_ids (r : t) (x : list Z) : t := mk (mkIo (rid r) (origin_input_ids_unpadded r)
  (origin_input_ids r) x (fill_ids r)) (kv r) (args r) (fin r) (detok r) (prefix r).
Definition set_fill_ids (r : t) (x : list Z) : t := mk (mkIo (rid r) (origin_input_ids_unpadded r)
  (origin_input_ids r) (output_ids r) x) (kv r) (args r) (fin r) (detok r) (prefix r).
Definition set_kv_committed_len (r : t) (x : Z) : t := mk (io r) (mkKv x (kv_allocated_len r)
  (kv_committed_freed r) (kv_overallocated_freed r) (evicted_seqlen_local r) (req_pool_idx r)) (args
  r) (fin r) (detok r) (prefix r).
Definition set_kv_allocated_len (r : t) (x : Z) : t := mk (io r) (mkKv (kv_committed_len r) x
  (kv_committed_freed r) (kv_overallocated_freed r) (evicted_seqlen_local r) (req_pool_idx r)) (args
  r) (fin r) (detok r) (prefix r).
Definition set_kv_committed_freed (r : t) (x : bool) : t := mk (io r) (mkKv (kv_committed_len r)
  (kv_allocated_len r) x (kv_overallocated_freed r) (evicted_seqlen_local r) (req_pool_idx r)) (args
  r) (fin r) (detok r) (prefix r).
Definition set_kv_overallocated_freed (r : t) (x : bool) : t := mk (io r) (mkKv (kv_committed_len r)
  (kv_allocated_len r) (kv_committed_freed r) x (evicted_seqlen_local r) (req_pool_idx r)) (args r)
  (fin r) (detok r) (prefix r).
Definition set_evicted_seqlen_local (r : t) (x : Z) : t := mk (io r) (mkKv (kv_committed_len r)
  (kv_allocated_len r) (kv_committed_freed r) (kv_overallocated_freed r) x (req_pool_idx r)) (args
  r) (fin r) (detok r) (prefix r).
Definition set_req_pool_idx (r : t) (x : option Z) : t := mk (io r) (mkKv (kv_committed_len r)
  (kv_allocated_len r) (kv_committed_freed r) (kv_overallocated_freed r) (evicted_seqlen_local r) x)
  (args r) (fin r) (detok r) (prefix r).
Definition set_sampling_params (r : t) (x : SamplingParams) : t := mk (io r) (kv r) (mkArgs x
  (extra_key r) (lora_id r) (eos_token_ids r) (vocab_size r) (priority r) (return_logprob r)
  (logprob_start_len r)) (fin r) (detok r) (prefix r).
Definition set_extra_key (r : t) (x : option string) : t := mk (io r) (kv r) (mkArgs
  (sampling_params r) x (lora_id r) (eos_token_ids r) (vocab_size r) (priority r) (return_logprob r)
  (logprob_start_len r)) (fin r) (detok r) (prefix r).
Definition set_lora_id (r : t) (x : option string) : t := mk (io r) (kv r) (mkArgs (sampling_params
  r) (extra_key r) x (eos_token_ids r) (vocab_size r) (priority r) (return_logprob r)
  (logprob_start_len r)) (fin r) (detok r) (prefix r).
Definition set_eos_token_ids (r : t) (x : list Z) : t := mk (io r) (kv r) (mkArgs (sampling_params
  r) (extra_key r) (lora_id r) x (vocab_size r) (priority r) (return_logprob r) (logprob_start_len
  r)) (fin r) (detok r) (prefix r).
Definition set_vocab_size (r : t) (x : option Z) : t := mk (io r) (kv r) (mkArgs (sampling_params r)
  (extra_key r) (lora_id r) (eos_token_ids r) x (priority r) (return_logprob r) (logprob_start_len
  r)) (fin r) (detok r) (prefix r).
Definition set_priority (r : t) (x : option Z) : t := mk (io r) (kv r) (mkArgs (sampling_params r)
  (extra_key r) (lora_id r) (eos_token_ids r) (vocab_size r) x (return_logprob r) (logprob_start_len
  r)) (fin r) (detok r) (prefix r).
Definition set_return_logprob (r : t) (x : bool) : t := mk (io r) (kv r) (mkArgs (sampling_params r)
  (extra_key r) (lora_id r) (eos_token_ids r) (vocab_size r) (priority r) x (logprob_start_len r))
  (fin r) (detok r) (prefix r).
Definition set_logprob_start_len (r : t) (x : Z) : t := mk (io r) (kv r) (mkArgs (sampling_params r)
  (extra_key r) (lora_id r) (eos_token_ids r) (vocab_size r) (priority r) (return_logprob r) x) (fin
  r) (detok r) (prefix r).
Definition set_tokenizer (r : t) (x : option Tokenizer) : t := mk (io r) (kv r) (args r) (mkFin x
  (finished_reason r) (finished_len r) (to_finish r) (grammar r)) (detok r) (prefix r).
Definition set_finished_reason (r : t) (x : option FinishReason) : t := mk (io r) (kv r) (args r)
  (mkFin (tokenizer r) x (finished_len r) (to_finish r) (grammar r)) (detok r) (prefix r).
Definition set_finished_len (r : t) (x : option Z) : t := mk (io r) (kv r) (args r) (mkFin
  (tokenizer r) (finished_reason r) x (to_finish r) (grammar r)) (detok r) (prefix r).
Definition set_to_finish (r : t) (x : option FinishReason) : t := mk (io r) (kv r) (args r) (mkFin
  (tokenizer r) (finished_reason r) (finished_len r) x (grammar r)) (detok r) (prefix r).
Definition set_grammar (r : t) (x : option bool) : t := mk (io r) (kv r) (args r) (mkFin (tokenizer
  r) (finished_reason r) (finished_len r) (to_finish r) x) (detok r) (prefix r).
Definition set_surr_offset (r : t) (x : option Z) : t := mk (io r) (kv r) (args r) (fin r) (mkDetok
  x (read_offset r) (decoded_text r) (surr_and_decode_ids r) (cur_decode_ids_len r)) (prefix r).
Definition set_read_offset (r : t) (x : option Z) : t := mk (io r) (kv r) (args r) (fin r) (mkDetok
  (surr_offset r) x (decoded_text r) (surr_and_decode_ids r) (cur_decode_ids_len r)) (prefix r).
Definition set_decoded_text (r : t) (x : text) : t := mk (io r) (kv r) (args r) (fin r) (mkDetok
  (surr_offset r) (read_offset r) x (surr_and_decode_ids r) (cur_decode_ids_len r)) (prefix r).
Definition set_surr_and_decode_ids (r : t) (x : list Z) : t := mk (io r) (kv r) (args r) (fin r)
  (mkDetok (surr_offset r) (read_offset r) (decoded_text r) x (cur_decode_ids_len r)) (prefix r).
Definition set_cur_decode_ids_len (r : t) (x : Z) : t := mk (io r) (kv r) (args r) (fin r) (mkDetok
  (surr_offset r) (read_offset r) (decoded_text r) (surr_and_decode_ids r) x) (prefix r).
Definition set_prefix_indices (r : t) (x : list Z) : t := mk (io r) (kv r) (args r) (fin r) (detok
  r) (mkPrefix x (extend_input_len r) (extend_logprob_start_len r) (last_node r) (host_hit_length r)
  (last_matched_prefix_len r) (is_chunked r) (is_retracted r) (retraction_count r) (already_computed
  r)).
Definition set_extend_input_len (r : t) (x : Z) : t := mk (io r) (kv r) (args r) (fin r) (detok r)
  (mkPrefix (prefix_indices r) x (extend_logprob_start_len r) (last_node r) (host_hit_length r)
  (last_matched_prefix_len r) (is_chunked r) (is_retracted r) (retraction_count r) (already_computed
  r)).
Definition set_extend_logprob_start_len (r : t) (x : Z) : t := mk (io r) (kv r) (args r) (fin r)
  (detok r) (mkPrefix (prefix_indices r) (extend_input_len r) x (last_node r) (host_hit_length r)
  (last_matched_prefix_len r) (is_chunked r) (is_retracted r) (retraction_count r) (already_computed
  r)).
Definition set_last_node (r : t) (x : option nat) : t := mk (io r) (kv r) (args r) (fin r) (detok r)
  (mkPrefix (prefix_indices r) (extend_input_len r) (extend_logprob_start_len r) x (host_hit_length
  r) (last_matched_prefix_len r) (is_chunked r) (is_retracted r) (retraction_count r)
  (already_computed r)).
Definition set_host_hit_length (r : t) (x : Z) : t := mk (io r) (kv r) (args r) (fin r) (detok r)
  (mkPrefix (prefix_indices r) (extend_input_len r) (extend_logprob_start_len r) (last_node r) x
  (last_matched_prefix_len r) (is_chunked r) (is_retracted r) (retraction_count r) (already_computed
  r)).
Definition set_last_matched_prefix_len (r : t) (x : Z) : t := mk (io r) (kv r) (args r) (fin r)
  (detok r) (mkPrefix (prefix_indices r) (extend_input_len r) (extend_logprob_start_len r)
  (last_node r) (host_hit_length r) x (is_chunked r) (is_retracted r) (retraction_count r)
  (already_computed r)).
Definition set_is_chunked (r : t) (x : Z) : t := mk (io r) (kv r) (args r) (fin r) (detok r)
  (mkPrefix (prefix_indices r) (extend_input_len r) (extend_logprob_start_len r) (last_node r)
  (host_hit_length r) (last_matched_prefix_len r) x (is_retracted r) (retraction_count r)
  (already_computed r)).
Definition set_is_retracted (r : t) (x : bool) : t := mk (io r) (kv r) (args r) (fin r) (detok r)
  (mkPrefix (prefix_indices r) (extend_input_len r) (extend_logprob_start_len r) (last_node r)
  (host_hit_length r) (last_matched_prefix_len r) (is_chunked r) x (retraction_count r)
  (already_computed r)).
Definition set_retraction_count (r : t) (x : Z) : t := mk (io r) (kv r) (args r) (fin r) (detok r)
  (mkPrefix (prefix_indices r) (extend_input_len r) (extend_logprob_start_len r) (last_node r)
  (host_hit_length r) (last_matched_prefix_len r) (is_chunked r) (is_retracted r) x
  (already_computed r)).
Definition set_already_computed (r : t) (x : Z) : t := mk (io r) (kv r) (args r) (fin r) (detok r)
  (mkPrefix (prefix_indices r) (extend_input_len r) (extend_logprob_start_len r) (last_node r)
  (host_hit_length r) (last_matched_prefix_len r) (is_chunked r) (is_retracted r) (retraction_count
  r) x).
End Req.

(** [Req.__init__]. *)
Definition Req_init (rid : string) (origin_input_ids : list Z) (sampling_params : SamplingParams)
    (return_logprob : bool) (origin_input_ids_unpadded : option (list Z)) (lora_id : option string)
    (eos_token_ids : list Z) (vocab_size priority : option Z) (extra_key : option string) : Req.t :=
  let unpadded := match origin_input_ids_unpadded with
                  | Some (_ :: _ as u) => u | _ => origin_input_ids end in
  let extra_key := match lora_id with
                   | Some l => Some (default EmptyString extra_key +:+ l)
                   | None => extra_key end in
  Req.mk (Req.mkIo rid unpadded origin_input_ids [] [])
    (Req.mkKv 0 0 false false 0 None)
    (Req.mkArgs sampling_params extra_key lora_id eos_token_ids vocab_size priority return_logprob 0)
    (Req.mkFin None None None None None)
    (Req.mkDetok None None [] [] 0)
    (Req.mkPrefix [] 0 0 None 0 0 0 false 0 0).

Section req_ops.
Context (decode : list Z → text) (re_search : text → text → bool).
(** The two server arguments that the methods read. *)
Context (speculative_eagle_topk : option Z) (speculative_algorithm : option string).
Implicit Types r : Req.t.
Import Req.

Definition seqlen r : Z := len (origin_input_ids r) + len (output_ids r).

Definition is_prefill_only r : bool :=
  (max_new_tokens (sampling_params r) =? 0) && bool_decide (speculative_algorithm = None).

Definition output_ids_through_stop r : list Z :=
  match finished_len r with Some n => py_upto (output_ids r) n | None => output_ids r end.

Definition pop_committed_kv_cache r : res (Z * t) :=
  let enable_kv_committed_len :=
    match speculative_eagle_topk with None => true | Some topk => topk =? 1 end in
  if enable_kv_committed_len then
    let! _ := py_assert (negb (kv_committed_freed r)) in
    Ok (kv_committed_len r, set_kv_committed_freed r true)
  else Ok (len (origin_input_ids r) + Z.max (len (output_ids r) - 1) 0, r).

Definition pop_overallocated_kv_cache r : res (Z * Z * t) :=
  let! _ := py_assert (negb (kv_overallocated_freed r)) in
  Ok (kv_committed_len r, kv_allocated_len r, set_kv_overallocated_freed r true).

Definition finished r : bool := bool_decide (finished_reason r ≠ None).

Definition INIT_INCREMENTAL_DETOKENIZATION_OFFSET : Z := 5.

Definition init_incremental_detokenize r : (list Z * Z) * t :=
  let output := output_ids_through_stop r in
  match surr_offset r, read_offset r with
  | Some surr, Some read =>
      let r := set_surr_and_decode_ids r (surr_and_decode_ids r ++ py_from output (cur_decode_ids_len r)) in
      let r := set_cur_decode_ids_len r (len output) in
      (surr_and_decode_ids r, read - surr, r)
  | _, _ =>
      let read := len (origin_input_ids_unpadded r) in
      let surr := Z.max (read - INIT_INCREMENTAL_DETOKENIZATION_OFFSET) 0 in
      let r := set_surr_offset (set_read_offset r (Some read)) (Some surr) in
      let r := set_surr_and_decode_ids r (py_from (origin_input_ids_unpadded r) surr ++ output) in
      let r := set_cur_decode_ids_len r (len output) in
      (surr_and_decode_ids r, read - surr, r)
  end.

(** Without stop strings [max_len_tail_str] is not assigned. *)
Definition tail_str r : res text :=
  let sp := sampling_params r in
  if (0 <? len (stop_strs sp)) || (0 <? len (stop_regex_strs sp)) then
    let max_len_tail_str := Z.max (stop_str_max_len sp + 1) (stop_regex_max_len sp + 1) in
    let tail_len := Z.min (max_len_tail_str + 1) (len (output_ids r)) in
    Ok (decode (py_from (output_ids r) (- tail_len)))
  else Err UnboundLocalError.

(** [any(tail_str[-i:] == stop_str[:i] for i in range(1, min_len + 1))]. *)
Definition overlap (tail stop : text) : bool :=
  existsb (λ i, bool_decide (py_from tail (- i) = py_upto stop i))
    (py_range 1 (Z.min (len tail) (len stop) + 1)).

Definition check_match_stop_str_prefix r : res bool :=
  match stop_strs (sampling_params r) with
  | [] => Ok false
  | strs =>
      let! tail := tail_str r in
      match tail with
      | [] => Ok false
      | _ => Ok (existsb (λ stop, match stop with
                                  | [] => false
                                  | _ => text_in stop tail || overlap tail stop
                                  end) strs)
      end
  end.

(** One token against every stop set; [matched_eos] is only or-ed into. *)
Definition stops r (token_id : Z) : bool :=
  bool_decide (token_id ∈ stop_token_ids (sampling_params r)) ||
  bool_decide (token_id ∈ eos_token_ids r) ||
  match tokenizer r with
  | Some tk => (token_id =? eos_token_id tk) || bool_decide (token_id ∈ additional_stop_token_ids tk)
  | None => false
  end.

Fixpoint token_finish_loop r (n_new : Z) (i : Z) (tokens : list Z) : bool * t :=
  match tokens with
  | [] => (false, r)
  | token_id :: rest =>
      if stops r token_id then
        let r' := set_finished_reason r (Some (FINISH_MATCHED_TOKEN token_id)) in
        (true, set_finished_len r' (Some (len (output_ids r) - n_new + i + 1)))
      else token_finish_loop r n_new (i + 1) rest
  end.

Definition _check_token_based_finish r (new_accepted_tokens : list Z) : bool * t :=
  if ignore_eos (sampling_params r) then (false, r)
  else token_finish_loop r (len new_accepted_tokens) 0 new_accepted_tokens.

Definition _check_str_based_finish r : res (bool * t) :=
  let sp := sampling_params r in
  if (0 <? len (stop_strs sp)) || (0 <? len (stop_regex_strs sp)) then
    let! tail := tail_str r in
    match List.find (λ s, text_in s tail || text_in s (decoded_text r)) (stop_strs sp) with
    | Some s => Ok (true, set_finished_reason r (Some (FINISH_MATCHED_STR s)))
    | None =>
        match List.find (λ re, re_search re tail) (stop_regex_strs sp) with
        | Some re => Ok (true, set_finished_reason r (Some (FINISHED_MATCHED_REGEX re)))
        | None => Ok (false, r)
        end
    end
  else Ok (false, r).

(** "NaN happened". *)
Definition nan_happened : text := [78; 97; 78; 32; 104; 97; 112; 112; 101; 110; 101; 100].

(** [l[i] = v] on a list. *)
Definition list_set (l : list Z) (i v : Z) : list Z :=
  <[Z.to_nat (if i <? 0 then len l + i else i) := v]> l.

Fixpoint vocab_finish_loop r (vocab : Z) (n_new : Z) (i : Z) (tokens : list Z) : bool * t :=
  match tokens with
  | [] => (false, r)
  | token_id :: rest =>
      if (vocab <? token_id) || (token_id <? 0) then
        let offset := len (output_ids r) - n_new + i in
        let r := match stop_token_ids (sampling_params r) with
                 | x :: _ => set_output_ids r (list_set (output_ids r) offset x) | [] => r end in
        let r := match eos_token_ids r with
                 | x :: _ => set_output_ids r (list_set (output_ids r) offset x) | [] => r end in
        let r := set_finished_reason r (Some (FINISH_MATCHED_STR nan_happened)) in
        (true, set_finished_len r (Some (offset + 1)))
      else vocab_finish_loop r vocab n_new (i + 1) rest
  end.

(** A missing vocabulary size cannot be compared with. *)
Definition _check_vocab_boundary_finish r (new_accepted_tokens : list Z) : res (bool * t) :=
  match new_accepted_tokens, vocab_size r with
  | [], _ => Ok (false, r)
  | _, None => Err TypeError
  | _, Some v => Ok (vocab_finish_loop r v (len new_accepted_tokens) 0 new_accepted_tokens)
  end.

Definition check_finished r (new_accepted_len : Z) : res t :=
  if finished r then Ok r else
  match to_finish r with
  | Some f => Ok (set_to_finish (set_finished_reason r (Some f)) None)
  | None =>
      let m := max_new_tokens (sampling_params r) in
      if m <=? len (output_ids r) then
        Ok (set_finished_len (set_finished_reason r (Some (FINISH_LENGTH m))) (Some m))
      else
        let! gram :=
          match grammar r with
          | Some true => let! l := py_index (output_ids r) (-1) in
                         Ok (Some (set_finished_reason r (Some (FINISH_MATCHED_TOKEN l))))
          | _ => Ok None
          end in
        match gram with
        | Some r => Ok r
        | None =>
            let new_accepted_tokens := py_from (output_ids r) (- new_accepted_len) in
            let '(b, r) := _check_token_based_finish r new_accepted_tokens in
            if b then Ok r else
            let! '(b, r) := _check_vocab_boundary_finish r new_accepted_tokens in
            if (b : bool) then Ok r else
            let! '(_, r) := _check_str_based_finish r in Ok r
        end
  end.

Definition reset_for_retract r : t :=
  let r := set_retraction_count r (retraction_count r + 1) in
  let r := set_prefix_indices r [] in
  let r := set_last_node r None in
  let r := set_extend_input_len r 0 in
  let r := set_is_retracted r true in
  let r := set_extend_logprob_start_len r 0 in
  let r := set_is_chunked r 0 in
  let r := set_already_computed r 0 in
  let r := set_kv_allocated_len r 0 in
  let r := set_kv_committed_len r 0 in
  let r := set_kv_committed_freed r false in
  set_kv_overallocated_freed r false.

(** [return_logprob] is one of the arguments; the status code is 400. *)
Definition set_finish_with_abort r (error_msg : string) : t :=
  let r := set_grammar r None in
  let r := set_origin_input_ids r [0] in
  let r := set_return_logprob r false in
  set_to_finish r (Some (finish_abort (Some error_msg) (Some 400) (Some "BadRequestError"%string))).
End req_ops.
