(* ===== verification/RequestSpec.v ===== *)
(** * What requests promise

    Stopping, the one-time release of committed KV slots, and incremental
    detokenisation of [Request.v]. *)

From S2P Require Import Prelude Request.

(** ** Committed KV slots are released once *)

(** Release of committed slots: without a draft tree wider than one token,
    [pop_committed_kv_cache] returns the committed length once, a second call
    raises [AssertionError], and after [reset_for_retract] the request can
    commit and release again. *)
Theorem committed_released_once topk r (Htopk : topk = None ∨ topk = Some 1)
    (Hf : Req.kv_committed_freed r = false) :
  ∃ r', pop_committed_kv_cache topk r = Ok (Req.kv_committed_len r, r') ∧
    pop_committed_kv_cache topk r' = Err AssertionError ∧
    ∃ r'', pop_committed_kv_cache topk (reset_for_retract r') = Ok (0, r'').
Proof.
  destruct r as [io [cl al cf of_ ev pi] ar fi de pr]. cbn in Hf. subst cf.
  destruct Htopk as [-> | ->]; eexists; split_and!; [reflexivity|reflexivity|eexists; reflexivity..].
Qed.

Definition demo_params : SamplingParams := mkSampling 4 false [7] [] [] 0 0.
Definition demo_req : Req.t := Req_init "r" [1; 2; 3] demo_params false None None [] (Some 100) None None.

Lemma committed_released_once_witness :
  ∃ r', pop_committed_kv_cache None (Req.set_kv_committed_len demo_req 3) = Ok (3, r') ∧
    pop_committed_kv_cache None r' = Err AssertionError.
Proof.
  destruct (committed_released_once None (Req.set_kv_committed_len demo_req 3) (or_introl eq_refl) eq_refl)
    as (r' & H1 & H2 & _). exists r'. exact (conj H1 H2).
Defined.

(** ** Stopping at a token *)
Lemma token_finish_loop_spec r n_new i tokens :
  match token_finish_loop r n_new i tokens with
  | (false, r') => r' = r ∧ Forall (λ t, stops r t = false) tokens
  | (true, r') => ∃ pre t post, tokens = pre ++ t :: post ∧ stops r t = true ∧
      Forall (λ t, stops r t = false) pre ∧
      r' = Req.set_finished_len (Req.set_finished_reason r (Some (FINISH_MATCHED_TOKEN t)))
             (Some (len (Req.output_ids r) - n_new + i + len pre + 1))
  end.
Proof.
  revert i. induction tokens as [|t tokens IH]; intros i; cbn; [done|].
  destruct (stops r t) eqn:E.
  - exists [], t, tokens. split_and!; try done. rewrite len_nil. f_equal; f_equal; lia.
  - specialize (IH (i + 1)). destruct (token_finish_loop r n_new (i + 1) tokens) as [[] r'].
    + destruct IH as (pre & t' & post & -> & Ht & Hpre & ->). exists (t :: pre), t', post.
      split_and!; [done|done|by constructor|]. rewrite len_cons. f_equal; f_equal; lia.
    + destruct IH as [-> Hall]. split; [done|by constructor].
Qed.

(** Token stops: when the new tokens end the output and stopping is not
    ignored, [_check_token_based_finish] reports a stop exactly when one of them
    is a stop token, and then the output through the stop ends with the first
    one: every token before it is kept and none after it. *)
Theorem token_stop_is_first r old new (Hout : Req.output_ids r = old ++ new)
    (Hig : ignore_eos (Req.sampling_params r) = false) :
  match _check_token_based_finish r new with
  | (false, r') => r' = r ∧ Forall (λ t, stops r t = false) new
  | (true, r') => ∃ pre t post, new = pre ++ t :: post ∧ stops r t = true ∧
      Forall (λ t, stops r t = false) pre ∧
      Req.finished_reason r' = Some (FINISH_MATCHED_TOKEN t) ∧
      output_ids_through_stop r' = old ++ pre ++ [t] ∧ Req.output_ids r' = Req.output_ids r
  end.
Proof.
  unfold _check_token_based_finish. rewrite Hig.
  pose proof (token_finish_loop_spec r (len new) 0 new) as Hl.
  destruct (token_finish_loop r (len new) 0 new) as [[] r']; [|done].
  destruct Hl as (pre & t & post & -> & Ht & Hpre & ->). exists pre, t, post. split_and!; try done.
  unfold output_ids_through_stop. cbn. unfold Req.output_ids in *. cbn. rewrite Hout.
  rewrite !len_app, len_cons, py_upto_take by (unfold len; lia).
  replace (Z.to_nat _) with (length (old ++ pre ++ [t])) by (rewrite !length_app; unfold len; cbn; lia).
  replace (old ++ pre ++ t :: post) with ((old ++ pre ++ [t]) ++ post) by (by rewrite <-!app_assoc).
  apply take_app_length.
Qed.

Lemma token_stop_is_first_witness :
  let r := Req.set_output_ids demo_req [5; 6; 7; 8; 7] in
  ∃ r', _check_token_based_finish r [7; 8; 7] = (true, r') ∧ output_ids_through_stop r' = [5; 6; 7].
Proof.
  intros r. pose proof (token_stop_is_first r [5; 6] [7; 8; 7] eq_refl eq_refl) as Hw.
  destruct (_check_token_based_finish r [7; 8; 7]) as [[] r'] eqn:E.
  - exists r'. split; [reflexivity|]. vm_compute in E. injection E as <-. reflexivity.
  - vm_compute in E. discriminate.
Defined.

(** ** The outcome of [check_finished] *)

(** Finishing is final: a call of [check_finished] that leaves the request
    finished is not undone or changed by any further call, and a request that
    reached its token limit through it outputs exactly [max_new_tokens] tokens. *)
Theorem check_finished_final decode re_search r n r'
    (Hr : check_finished decode re_search r n = Ok r') (Hfin : finished r' = true) :
  (∀ m, check_finished decode re_search r' m = Ok r') ∧
  (finished r = false → Req.to_finish r = None → 0 ≤ max_new_tokens (Req.sampling_params r) →
   max_new_tokens (Req.sampling_params r) ≤ len (Req.output_ids r) →
   len (output_ids_through_stop r') = max_new_tokens (Req.sampling_params r)).
Proof.
  split.
  - intros m. unfold check_finished. by rewrite Hfin.
  - intros Hnf Hto H0 Hm. unfold check_finished in Hr. rewrite Hnf, Hto in Hr.
    destruct (Z.leb_spec (max_new_tokens (Req.sampling_params r)) (len (Req.output_ids r))); [|lia].
    injection Hr as <-. unfold output_ids_through_stop. cbn.
    change (Req.output_ids (Req.set_finished_len _ _)) with (Req.output_ids r).
    rewrite len_py_upto by done. lia.
Qed.

Lemma check_finished_final_witness :
  let r := Req.set_output_ids demo_req [5; 6; 8; 9] in
  ∃ r', check_finished (λ _, []) (λ _ _, false) r 1 = Ok r' ∧
    len (output_ids_through_stop r') = 4 ∧ check_finished (λ _, []) (λ _ _, false) r' 1 = Ok r'.
Proof.
  intros r. destruct (check_finished (λ _, []) (λ _ _, false) r 1) as [r'|] eqn:E; [|vm_compute in E; discriminate].
  assert (finished r' = true) as Hf by (vm_compute in E; injection E as <-; reflexivity).
  destruct (check_finished_final (λ _, []) (λ _ _, false) r 1 r' E Hf) as [H1 H2].
  exists r'. split; [reflexivity|]. split; [|apply H1]. apply H2; reflexivity || (vm_compute; discriminate).
Defined.

(** Vocabulary boundary: the id [vocab_size] itself, which is not a token of
    the vocabulary, passes the boundary check (the comparison is strict); only
    larger and negative ids are caught. *)
Theorem vocab_boundary_off_by_one r v (Hv : Req.vocab_size r = Some v) (H0 : 0 ≤ v) :
  _check_vocab_boundary_finish r [v] = Ok (false, r) ∧
  ∃ r', _check_vocab_boundary_finish r [v + 1] = Ok (true, r').
Proof.
  unfold _check_vocab_boundary_finish. rewrite Hv. cbn.
  destruct (Z.ltb_spec v v); [lia|]. destruct (Z.ltb_spec v 0); [lia|]. split; [done|].
  destruct (Z.ltb_spec v (v + 1)); [|lia]. cbn. eauto.
Qed.

Lemma vocab_boundary_off_by_one_witness :
  _check_vocab_boundary_finish demo_req [100] = Ok (false, demo_req).
Proof. exact (proj1 (vocab_boundary_off_by_one demo_req 100 eq_refl ltac:(lia))). Defined.

(** Accepting no token re-examines everything: with [new_accepted_len = 0]
    the slice [output_ids[-0:]] is the whole output, so [check_finished r 0]
    behaves like a check of all output tokens. *)
Theorem check_finished_zero decode re_search r :
  check_finished decode re_search r 0 = check_finished decode re_search r (len (Req.output_ids r)).
Proof.
  unfold check_finished. assert (py_from (Req.output_ids r) (- 0) = py_from (Req.output_ids r) (- len (Req.output_ids r))) as ->; [|done].
  unfold py_from, slice_bound. pose proof (len_nonneg (Req.output_ids r)). f_equal. case_bools; lia.
Qed.

(** ** Incremental detokenisation *)

(** Appending [chunks] one after the other, with a call after each. *)
Fixpoint detok_run (r : Req.t) (chunks : list (list Z)) : (list Z * Z) * Req.t :=
  match chunks with
  | [] => init_incremental_detokenize r
  | c :: chunks =>
      let '(_, r) := init_incremental_detokenize r in
      detok_run (Req.set_output_ids r (Req.output_ids r ++ c)) chunks
  end.

(** After a call the decode window holds everything since the surrounding offset. *)
Definition detok_ok (r : Req.t) (done_ids : list Z) : Prop :=
  let read := len (Req.origin_input_ids_unpadded r) in
  let surr := Z.max (read - INIT_INCREMENTAL_DETOKENIZATION_OFFSET) 0 in
  Req.surr_offset r = Some surr ∧ Req.read_offset r = Some read ∧
  Req.surr_and_decode_ids r = py_from (Req.origin_input_ids_unpadded r) surr ++ done_ids ∧
  Req.cur_decode_ids_len r = len done_ids.

Lemma detok_first r : Req.surr_offset r = None → Req.finished_len r = None →
  ∃ r', init_incremental_detokenize r = ((Req.surr_and_decode_ids r',
      Z.min INIT_INCREMENTAL_DETOKENIZATION_OFFSET (len (Req.origin_input_ids_unpadded r))), r') ∧
    detok_ok r' (Req.output_ids r) ∧ Req.output_ids r' = Req.output_ids r ∧ Req.finished_len r' = None ∧
    Req.origin_input_ids_unpadded r' = Req.origin_input_ids_unpadded r.
Proof.
  intros Hs Hf. unfold init_incremental_detokenize, output_ids_through_stop. rewrite Hs, Hf.
  eexists. split_and!; [f_equal; f_equal|..]; try reflexivity.
  - unfold INIT_INCREMENTAL_DETOKENIZATION_OFFSET. pose proof (len_nonneg (Req.origin_input_ids_unpadded r)). lia.
  - unfold detok_ok. split_and!; reflexivity.
  - exact Hf.
Qed.

Lemma detok_next r done_ids more : detok_ok r done_ids → Req.output_ids r = done_ids ++ more →
  Req.finished_len r = None →
  ∃ r', init_incremental_detokenize r = ((Req.surr_and_decode_ids r',
      Z.min INIT_INCREMENTAL_DETOKENIZATION_OFFSET (len (Req.origin_input_ids_unpadded r))), r') ∧
    detok_ok r' (done_ids ++ more) ∧ Req.output_ids r' = Req.output_ids r ∧ Req.finished_len r' = None ∧
    Req.origin_input_ids_unpadded r' = Req.origin_input_ids_unpadded r.
Proof.
  intros (Hs & Hr & Hd & Hc) Ho Hf. unfold init_incremental_detokenize, output_ids_through_stop.
  rewrite Hs, Hr, Hf. eexists. split_and!; [f_equal; f_equal|..]; try reflexivity; [| |exact Hf].
  - unfold INIT_INCREMENTAL_DETOKENIZATION_OFFSET. pose proof (len_nonneg (Req.origin_input_ids_unpadded r)). lia.
  - unfold detok_ok. split_and!; [exact Hs|exact Hr| |cbn; by rewrite Ho].
    match goal with |- Req.surr_and_decode_ids ?x = _ => change (Req.surr_and_decode_ids x) with
      (Req.surr_and_decode_ids r ++ py_from (Req.output_ids r) (Req.cur_decode_ids_len r)) end.
    rewrite Hd, Hc, Ho, (py_from_drop (done_ids ++ more)) by (unfold len; lia).
    replace (Z.to_nat (len done_ids)) with (length done_ids) by (unfold len; lia). rewrite drop_app_length.
    by rewrite app_assoc.
Qed.

Lemma detok_run_ok chunks : ∀ r done_ids more, detok_ok r done_ids → Req.output_ids r = done_ids ++ more →
  Req.finished_len r = None →
  fst (detok_run r chunks) =
    (py_from (Req.origin_input_ids_unpadded r)
       (Z.max (len (Req.origin_input_ids_unpadded r) - INIT_INCREMENTAL_DETOKENIZATION_OFFSET) 0) ++
     Req.output_ids r ++ mjoin chunks,
     Z.min INIT_INCREMENTAL_DETOKENIZATION_OFFSET (len (Req.origin_input_ids_unpadded r))).
Proof.
  induction chunks as [|c chunks IH]; intros r done_ids more Hok Ho Hf; cbn [detok_run mjoin list_join].
  - destruct (detok_next r done_ids more Hok Ho Hf) as (r' & -> & (Hs & _ & Hd & _) & _ & _ & Hu). cbn.
    rewrite Hd, Hu, app_nil_r, Ho. done.
  - destruct (detok_next r done_ids more Hok Ho Hf) as (r' & -> & Hok' & Ho' & Hf' & Hu).
    rewrite (IH _ (done_ids ++ more) c); [|exact Hok'| |exact Hf'].
    + change (Req.origin_input_ids_unpadded (Req.set_output_ids r' (Req.output_ids r' ++ c)))
        with (Req.origin_input_ids_unpadded r').
      change (Req.output_ids (Req.set_output_ids r' (Req.output_ids r' ++ c))) with (Req.output_ids r' ++ c).
      rewrite Hu, Ho'. by rewrite <-!app_assoc.
    + change (Req.output_ids (Req.set_output_ids r' (Req.output_ids r' ++ c))) with (Req.output_ids r' ++ c).
      by rewrite Ho', Ho.
Qed.

(** Incremental detokenisation: calling [init_incremental_detokenize] after
    every chunk of new output tokens gives in the end the same ids to decode and
    the same read offset as one call on the complete output. *)
Theorem detokenize_incremental r chunks (Hs : Req.surr_offset r = None) (Hf : Req.finished_len r = None) :
  fst (detok_run r chunks) =
  fst (init_incremental_detokenize (Req.set_output_ids r (Req.output_ids r ++ mjoin chunks))).
Proof.
  destruct (detok_first (Req.set_output_ids r (Req.output_ids r ++ mjoin chunks)) Hs Hf)
    as (r1 & -> & (_ & _ & Hd & _) & _ & _ & Hu). cbn. rewrite Hd, Hu.
  destruct (detok_first r Hs Hf) as (r' & E & Hok & Ho & Hf' & Hu').
  destruct chunks as [|c chunks]; cbn [detok_run].
  - rewrite E. destruct Hok as (_ & _ & Hd' & _). cbn. rewrite Hd', Hu', app_nil_r. done.
  - rewrite E. rewrite (detok_run_ok _ _ (Req.output_ids r) c); [|exact Hok| |exact Hf'].
    + change (Req.origin_input_ids_unpadded (Req.set_output_ids r' (Req.output_ids r' ++ c)))
        with (Req.origin_input_ids_unpadded r').
      change (Req.output_ids (Req.set_output_ids r' (Req.output_ids r' ++ c))) with (Req.output_ids r' ++ c).
      rewrite Hu', Ho. cbn. by rewrite <-!app_assoc.
    + change (Req.output_ids (Req.set_output_ids r' (Req.output_ids r' ++ c))) with (Req.output_ids r' ++ c).
      by rewrite Ho.
Qed.

Lemma detokenize_incremental_witness :
  fst (detok_run demo_req [[10]; [11; 12]]) = ([1; 2; 3; 10; 11; 12], 3).
Proof. rewrite (detokenize_incremental demo_req [[10]; [11; 12]] eq_refl eq_refl). reflexivity. Defined.
