(* ===== verification/PrefixCache.v ===== *)
(** * The interface of prefix caches ([mem_cache/base_prefix_cache.py])

    [PrefixCache] are the operations the scheduler calls; [PrefixCacheLaws] is
    what it relies on.  [Req.init_next_round_input] is written against them. *)

From S2P Require Import Prelude Request RadixTree.

(** [MatchResult]: a cache without a tree has no last node; the host fields are
    the device ones and 0, as no host cache is modelled. *)
Record match_result := mkResult { mr_device_indices : list Z; mr_last_device_node : option nat }.

Class PrefixCache (C : Type) := {
  pc_disable : C → bool;
  pc_page_size : C → Z;
  pc_match_prefix : C → RadixKey → res (match_result * C);
  pc_cache_finished_req : C → Req.t → bool → res (Req.t * C);
  pc_cache_unfinished_req : C → Req.t → res (Req.t * C);
  pc_evict : C → Z → res C;
  pc_inc_lock_ref : C → option nat → res (Z * C);
  pc_dec_lock_ref : C → option nat → res (Z * C);
  pc_evictable_size : C → Z;
  pc_protected_size : C → Z
}.

(** A lookup succeeds, keeps the cache usable and finds at most one slot per token. *)
Class PrefixCacheLaws (C : Type) `{PrefixCache C} := {
  pc_inv : C → Prop;
  pc_match_law : ∀ c k, pc_inv c → ∃ m c', pc_match_prefix c k = Ok (m, c') ∧ pc_inv c' ∧
    len (mr_device_indices m) ≤ len (token_ids k)
}.

Section init_next_round.
Context {C : Type} `{PrefixCache C}.

Definition init_next_round_input (r : Req.t) (tree_cache : option C) : res (Req.t * option C) :=
  let r := Req.set_fill_ids r (Req.origin_input_ids r ++ Req.output_ids r) in
  let input_len := len (Req.fill_ids r) in
  let max_prefix_len := input_len - 1 in
  let max_prefix_len := if Req.return_logprob r then Z.min max_prefix_len (Req.logprob_start_len r)
                        else max_prefix_len in
  let max_prefix_len := Z.max max_prefix_len 0 in
  let token_ids := py_upto (Req.fill_ids r) max_prefix_len in
  let! '(r, tree_cache) :=
    match tree_cache with
    | Some c =>
        let! '(m, c) := pc_match_prefix c (mkKey (TInt <$> token_ids) (Req.extra_key r)) in
        let r := Req.set_prefix_indices r (mr_device_indices m) in
        let r := Req.set_last_node r (mr_last_device_node m) in
        let r := Req.set_host_hit_length r 0 in
        Ok (Req.set_last_matched_prefix_len r (len (mr_device_indices m)), Some c)
    | None => Ok (r, None)
    end in
  Ok (Req.set_extend_input_len r (len (Req.fill_ids r) - len (Req.prefix_indices r)), tree_cache).

(** Preparing a round: against any cache that keeps the laws,
    [init_next_round_input] succeeds; prefix and extension together are the
    whole input, at least one token of a non-empty input is left to run, and
    when logprobs are wanted the prefix does not reach beyond their start. *)
Theorem next_round_extends `{!PrefixCacheLaws C} r c (Hc : pc_inv c)
    (Hlp : Req.return_logprob r = true → 0 ≤ Req.logprob_start_len r) :
  ∃ r' c', init_next_round_input r (Some c) = Ok (r', Some c') ∧ pc_inv c' ∧
    Req.fill_ids r' = Req.origin_input_ids r ++ Req.output_ids r ∧
    len (Req.prefix_indices r') + Req.extend_input_len r' = len (Req.fill_ids r') ∧
    Req.last_matched_prefix_len r' = len (Req.prefix_indices r') ∧
    (Req.fill_ids r' ≠ [] → 1 ≤ Req.extend_input_len r') ∧
    (Req.return_logprob r = true → len (Req.prefix_indices r') ≤ Req.logprob_start_len r).
Proof.
  unfold init_next_round_input. set (fill := Req.origin_input_ids r ++ Req.output_ids r).
  change (Req.fill_ids (Req.set_fill_ids r fill)) with fill.
  change (Req.return_logprob (Req.set_fill_ids r fill)) with (Req.return_logprob r).
  change (Req.logprob_start_len (Req.set_fill_ids r fill)) with (Req.logprob_start_len r).
  set (m0 := if Req.return_logprob r then _ else _). set (key := mkKey _ _).
  destruct (pc_match_law c key Hc) as (m & c' & -> & Hc' & Hlen). cbn [res_bind].
  do 2 eexists. split; [reflexivity|]. split; [done|]. split; [reflexivity|].
  change (Req.prefix_indices _) with (mr_device_indices m).
  match goal with |- context [Req.extend_input_len ?x] =>
    change (Req.extend_input_len x) with (len fill - len (mr_device_indices m));
    change (Req.fill_ids x) with fill end.
  cbn in Hlen. rewrite len_fmap, len_py_upto in Hlen by lia. pose proof (len_nonneg fill).
  split; [lia|]. split; [reflexivity|]. unfold m0 in Hlen. split.
  - intros Hne. assert (len fill ≠ 0) by (by rewrite len_zero_iff). destruct (Req.return_logprob r); lia.
  - intros Hr. specialize (Hlp Hr). rewrite Hr in Hlen. lia.
Qed.
End init_next_round.
