(* ===== verification/RadixReq.v ===== *)
(** * The radix cache and requests

    [cache_finished_req] and [cache_unfinished_req] of [mem_cache/radix_cache.py]
    move the KV slots of a request between the request table, the tree and the
    allocator.  The state is the tree (with its allocator) and the table. *)

From S2P Require Import Prelude KVAllocator KVAllocatorProofs KVAllocatorSpec RadixTree ReqPool Request PrefixCache.

Record radix_state (A : Type) := mkState { tree : cache A; req_pool : ReqToTokenPool.t }.
Arguments mkState {A}.
Arguments tree {A}.
Arguments req_pool {A}.

Section radix_req.
Context {A : Type} `{KVPool A}.
Context (clock : nat → Z) (hash : list token → Z) (cfg : config) (speculative_eagle_topk : option Z).
Implicit Types (s : radix_state A) (req : Req.t).

Definition free_slots s (idx : list Z) : res (radix_state A) :=
  let! a := kv_free (allocator (tree s)) idx in
  Ok (mkState (set_alloc (tree s) a) (req_pool s)).

(** [req_to_token[req.req_pool_idx, :n]]. *)
Definition req_row s req (n : Z) : res (list Z) :=
  let! i := of_opt TypeError (Req.req_pool_idx req) in
  let! row := ReqToTokenPool.row (req_pool s) i in
  Ok (py_upto row n).

Definition dec_node s (node : option nat) : res (radix_state A) :=
  if disable cfg then Ok s else
  let! n := of_opt AttributeError node in
  let! '(_, t) := dec_lock_ref cfg (tree s) n in Ok (mkState t (req_pool s)).
Definition inc_node s (node : option nat) : res (radix_state A) :=
  if disable cfg then Ok s else
  let! n := of_opt AttributeError node in
  let! '(_, t) := inc_lock_ref cfg (tree s) n in Ok (mkState t (req_pool s)).

(** The lengths both operations compute from the number of KV slots. *)
Definition page_aligned (n : Z) : Z :=
  let actual_kv_len := if is_eagle cfg then n - 1 else n in
  if decide (page_size cfg = 1%nat) then actual_kv_len
  else actual_kv_len / Z.of_nat (page_size cfg) * Z.of_nat (page_size cfg).
Definition page_aligned_kv (kv_indices : list Z) (n : Z) : list Z :=
  if decide (page_size cfg = 1%nat) then kv_indices else py_upto kv_indices (page_aligned n).
Definition old_prefix_len req : Z :=
  let n := len (Req.prefix_indices req) in
  if is_eagle cfg && (Req.last_matched_prefix_len req <? n) then n - 1 else n.

Definition cache_finished_req s req (is_insert : bool) : res (Req.t * radix_state A) :=
  let! '(committed_kv_len, req) := pop_committed_kv_cache speculative_eagle_topk req in
  let! idx := of_opt TypeError (Req.req_pool_idx req) in
  if disable cfg then
    let! kv_indices := req_row s req committed_kv_len in
    let! s := free_slots s kv_indices in
    Ok (req, mkState (tree s) (ReqToTokenPool.free1 (req_pool s) idx))
  else
    let token_ids := py_upto (Req.origin_input_ids req ++ Req.output_ids req) committed_kv_len in
    let! kv_indices := req_row s req committed_kv_len in
    let page_aligned_len := page_aligned committed_kv_len in
    let page_aligned_kv_indices := page_aligned_kv kv_indices committed_kv_len in
    let page_aligned_token_len := if is_eagle cfg then page_aligned_len + 1 else page_aligned_len in
    let old := old_prefix_len req in
    let! s :=
      if is_insert then
        let! '(new_prefix_len, t) :=
          insert clock hash cfg (tree s)
            (mkKey (TInt <$> py_upto token_ids page_aligned_token_len) (Req.extra_key req))
            (Some page_aligned_kv_indices) in
        free_slots (mkState t (req_pool s)) (py_slice kv_indices old (Z.of_nat new_prefix_len))
      else free_slots s (py_slice kv_indices old page_aligned_len) in
    let! s := free_slots s (py_from kv_indices page_aligned_len) in
    let s := mkState (tree s) (ReqToTokenPool.free1 (req_pool s) idx) in
    let! s := dec_node s (Req.last_node req) in
    Ok (req, s).

Definition cache_unfinished_req s req : res (Req.t * radix_state A) :=
  if disable cfg then Ok (req, s) else
  let token_ids := Req.fill_ids req in
  let all_token_len := len token_ids in
  let actual_kv_len := if is_eagle cfg then all_token_len - 1 else all_token_len in
  let! idx := of_opt TypeError (Req.req_pool_idx req) in
  let! kv_indices := req_row s req all_token_len in
  let page_aligned_len := page_aligned all_token_len in
  let page_aligned_kv_indices := page_aligned_kv kv_indices all_token_len in
  let page_aligned_token_len := if is_eagle cfg then page_aligned_len + 1 else page_aligned_len in
  let page_aligned_token_ids := py_upto token_ids page_aligned_token_len in
  let key_ := mkKey (TInt <$> page_aligned_token_ids) (Req.extra_key req) in
  let old := old_prefix_len req in
  let! '(new_prefix_len, t) := insert clock hash cfg (tree s) key_ (Some page_aligned_kv_indices) in
  let! s := free_slots (mkState t (req_pool s)) (py_slice kv_indices old (Z.of_nat new_prefix_len)) in
  let! '(m, t) := match_prefix clock hash cfg (tree s) key_ in
  let new_indices := device_indices m in
  let! p := ReqToTokenPool.write (req_pool s) idx old (len new_indices) (py_from new_indices old) in
  let s := mkState t p in
  let req := Req.set_last_matched_prefix_len req (len new_indices) in
  let! s := dec_node s (Req.last_node req) in
  let! s := inc_node s (Some (last_device_node m)) in
  (** [kv_indices] is a view of the row, read again after the write. *)
  let! kv_indices := req_row s req all_token_len in
  let prefix_indices :=
    if decide (page_size cfg = 1%nat) then
      if is_eagle cfg then new_indices ++ py_from kv_indices actual_kv_len else new_indices
    else new_indices ++ py_from kv_indices (len new_indices) in
  let req := Req.set_prefix_indices req prefix_indices in
  let req := Req.set_last_node req (Some (last_device_node m)) in
  Ok (req, s).

#[export] Instance radix_prefix_cache : PrefixCache (radix_state A) := {|
  pc_disable _ := disable cfg;
  pc_page_size _ := Z.of_nat (page_size cfg);
  pc_match_prefix s k :=
    let! '(m, t) := match_prefix clock hash cfg (tree s) k in
    Ok (mkResult (device_indices m) (Some (last_device_node m)), mkState t (req_pool s));
  pc_cache_finished_req := cache_finished_req;
  pc_cache_unfinished_req := cache_unfinished_req;
  pc_evict s n := let! '(_, t) := evict hash cfg (tree s) n in Ok (mkState t (req_pool s));
  pc_inc_lock_ref s node :=
    if disable cfg then Ok (0, s) else
    let! n := of_opt AttributeError node in
    let! '(d, t) := inc_lock_ref cfg (tree s) n in Ok (d, mkState t (req_pool s));
  pc_dec_lock_ref s node :=
    if disable cfg then Ok (0, s) else
    let! n := of_opt AttributeError node in
    let! '(d, t) := dec_lock_ref cfg (tree s) n in Ok (d, mkState t (req_pool s));
  pc_evictable_size s := evictable_size (tree s);
  pc_protected_size s := protected_size (tree s)
|}.
End radix_req.
