(* ===== verification/RadixHeld.v ===== *)
(** * The KV slots a request holds

    A request's row of the request table lists its slots position by position, in
    segments of pages.  They are a prefix it shares with the tree (and has locked)
    and pages of its own, which are neither free nor in the tree.  These are the
    facts about them that caching or freeing them needs. *)

From stdpp Require Import gmultiset.
From S2P Require Import Prelude KVAllocator KVAllocatorProofs KVAllocatorSpec RadixTree RadixInv RadixSplit.
From S2P Require Import RadixMatch RadixInsert RadixLock RadixWalk RadixOwn RadixEvict RadixSpec.
From S2P Require Import ReqPool Request PrefixCache RadixReq.

Section segs.
Context (ps : nat) (Hps : ps ≠ 0%nat).
Implicit Types (pgs : list Z) (i j q m : nat).
Abbreviation slots pgs := (pgs ≫= PagedAlloc.page_slots (Z.of_nat ps)).

Lemma slots_lookup pgs q : slots pgs !! q =
  (λ p, p * Z.of_nat ps + Z.of_nat (q mod ps)) <$> pgs !! (q / ps)%nat.
Proof.
  revert q. induction pgs as [|p pgs IH]; intros q; cbn; [by rewrite lookup_nil|].
  destruct (decide (q < ps)%nat) as [Hlt|Hge].
  - rewrite lookup_app_l by (by rewrite length_page_slots). rewrite Nat.div_small, Nat.mod_small by done. cbn.
    unfold PagedAlloc.page_slots. rewrite list_lookup_fmap. unfold py_range.
    rewrite list_lookup_fmap, lookup_seq_lt by lia. reflexivity.
  - rewrite lookup_app_r, length_page_slots by (rewrite length_page_slots; lia). rewrite IH.
    assert (q mod ps = (q - ps) mod ps)%nat as ->.
    { rewrite <-(Nat.Div0.mod_add (q - ps) 1 ps). f_equal. lia. }
    assert (q / ps = S ((q - ps) / ps))%nat as ->; [|done].
    rewrite <-Nat.add_1_r, <-(Nat.div_add (q - ps) 1 ps) by done. f_equal. lia.
Qed.

Lemma slots_page pgs q x : slots pgs !! q = Some x → pgs !! (q / ps)%nat = Some (x / Z.of_nat ps).
Proof.
  rewrite slots_lookup. destruct (pgs !! (q / ps)%nat) as [p|]; [|done]. cbn. intros [= <-]. f_equal.
  pose proof (Nat.mod_upper_bound q ps Hps). rewrite Z.add_comm, Z.div_add, Z.div_small by lia. lia.
Qed.

Definition ceil (n : nat) : nat := ((n + ps - 1) / ps)%nat.

Lemma ceil_spec n m : (m < ceil n ↔ m * ps < n)%nat.
Proof.
  unfold ceil. pose proof (Nat.div_mod_eq (n + ps - 1) ps). pose proof (Nat.mod_upper_bound (n + ps - 1) ps Hps).
  set (d := ((n + ps - 1) / ps)%nat) in *. split; intros.
  - assert (m * ps + ps ≤ d * ps)%nat by nia. nia.
  - assert (¬ (d ≤ m)%nat); [|lia]. intros Hle. assert (d * ps ≤ m * ps)%nat by nia. nia.
Qed.
Lemma ceil_mul m : ceil (m * ps) = m.
Proof.
  destruct (decide (ceil (m * ps) = m)) as [|Hne]; [done|].
  destruct (decide (m < ceil (m * ps))%nat) as [Hlt|Hge].
  - apply ceil_spec in Hlt. lia.
  - pose proof (ceil_spec (m * ps) (ceil (m * ps))) as Hc. assert (ceil (m * ps) < m)%nat by lia.
    assert (ceil (m * ps) * ps < m * ps)%nat by nia. lia.
Qed.

(** The pages a segment touches. *)
Lemma seg_pages pgs i j : NoDup pgs → (i < j)%nat → (j ≤ length (slots pgs))%nat →
  pages_of (Z.of_nat ps) (drop i (take j (slots pgs))) ≡ₚ drop (i / ps) (take (ceil j) pgs).
Proof.
  intros Hnd Hij Hj. apply NoDup_Permutation; [apply NoDup_torch_unique| |].
  { eapply sublist_NoDup; [exact Hnd|]. etrans; [apply sublist_drop|apply sublist_take]. }
  intros p. rewrite elem_of_pages_of. split.
  - intros (x & Hx & ->). apply list_elem_of_lookup in Hx as [q Hq]. rewrite lookup_drop in Hq.
    apply lookup_take_Some in Hq as [Hq Hlt]. apply slots_page in Hq.
    apply list_elem_of_lookup. exists ((i + q) / ps - i / ps)%nat. rewrite lookup_drop.
    assert (i / ps ≤ (i + q) / ps)%nat by (apply Nat.Div0.div_le_mono; lia).
    rewrite Nat.add_comm, Nat.sub_add by done. rewrite lookup_take_lt; [done|].
    apply ceil_spec. pose proof (Nat.div_mod_eq (i + q) ps). nia.
  - intros Hp. apply list_elem_of_lookup in Hp as [m Hm]. rewrite lookup_drop in Hm.
    apply lookup_take_Some in Hm as [Hm Hlt]. apply ceil_spec in Hlt.
    pose proof (Nat.div_mod_eq i ps) as Hi. pose proof (Nat.mod_upper_bound i ps Hps) as Hi'.
    set (q := Nat.max i ((i / ps + m) * ps)).
    assert (q < j)%nat as Hqj by (unfold q; lia).
    assert (q / ps = i / ps + m)%nat as Hqd.
    { symmetry. apply (Nat.div_unique q ps _ (q - (i / ps + m) * ps)); unfold q.
      - destruct m; nia.
      - nia. }
    destruct (lookup_lt_is_Some_2 (slots pgs) q ltac:(lia)) as [x Hx].
    exists x. split.
    + apply list_elem_of_lookup. exists (q - i)%nat. rewrite lookup_drop.
      replace (i + (q - i))%nat with q by (unfold q; lia). by rewrite lookup_take_lt.
    + apply slots_page in Hx. rewrite Hqd, Hm in Hx. by injection Hx.
Qed.

Lemma NoDup_slots pgs : NoDup pgs → NoDup (slots pgs).
Proof. intros. apply NoDup_bind_page_slots; [lia|done]. Qed.

Lemma whole_seg pgs i j : (ps | i)%nat → (ps | j)%nat → whole ps (drop i (take j (slots pgs))).
Proof.
  intros Hi Hj. assert (whole ps (slots pgs)) as Hw by (by exists pgs).
  apply (whole_cut ps _ i Hps); [|done]. by apply (whole_cut ps _ j Hps).
Qed.
End segs.

Section req_held.
Context {A : Type} `{KVPool A}.
Context (clock : nat → Z) (hash : list token → Z) {cfg : config}.
Context (Hen : disable cfg = false) (Heagle : is_eagle cfg = false).
Implicit Types (st : cache A) (s : radix_state A) (req : Req.t).
Abbreviation ps := (page_size cfg).

(** The slots [kv] of a request with tokens [toks]: the first [P] are those of
    the tree node [last], which it has locked; the pages [pgs] from there on are
    its own, on no node and not free. *)
Record holds (G : ghost) (L : gmultiset nat) st (e : option string) (toks kv : list Z) (P : nat)
    (last : nat) (pgs : list Z) : Prop := {
  ho_nodup : NoDup pgs;
  ho_kv : kv = take (length kv) (pgs ≫= PagedAlloc.page_slots (Z.of_nat ps));
  ho_pgs : length pgs = ceil ps (length kv);
  ho_toks : (length kv ≤ length toks)%nat;
  ho_P : (P ≤ length kv)%nat;
  ho_aligned : (ps | P)%nat;
  ho_node : G !! last = Some (TInt <$> take P toks, take P kv);
  ho_compat : compat (W:=hview (heap st)) (r:=root_node st) last e;
  ho_lock : last ∈ L;
  ho_own : ∀ p, p ∈ drop (P / ps) pgs → 1 ≤ p ≤ kv_limit (allocator st) ∧ p ∉ kv_held (allocator st) ∧
             ∀ x, x ∈ tree_slots G st → x / Z.of_nat ps ≠ p
}.

Arguments ho_nodup {_ _ _ _ _ _ _ _ _} _.
Arguments ho_kv {_ _ _ _ _ _ _ _ _} _.
Arguments ho_pgs {_ _ _ _ _ _ _ _ _} _.
Arguments ho_toks {_ _ _ _ _ _ _ _ _} _.
Arguments ho_P {_ _ _ _ _ _ _ _ _} _.
Arguments ho_aligned {_ _ _ _ _ _ _ _ _} _.
Arguments ho_node {_ _ _ _ _ _ _ _ _} _.
Arguments ho_compat {_ _ _ _ _ _ _ _ _} _.
Arguments ho_lock {_ _ _ _ _ _ _ _ _} _.
Arguments ho_own {_ _ _ _ _ _ _ _ _} _.

(** Pages that are neither free nor in the tree: somebody else's. *)
Definition apart (G : ghost) st (R : list Z) : Prop :=
  NoDup R ∧ ∀ p, p ∈ R → 1 ≤ p ≤ kv_limit (allocator st) ∧ p ∉ kv_held (allocator st) ∧
    ∀ x, x ∈ tree_slots G st → x / Z.of_nat ps ≠ p.

Lemma apart_perm G st R R' : R ≡ₚ R' → apart G st R → apart G st R'.
Proof. intros HP [Hn Hf]. split; [by rewrite <-HP|]. intros p. rewrite <-HP. apply Hf. Qed.

(** Freeing some of them. *)
Lemma apart_free G st X R idx :
  owns cfg G st → apart G st (X ++ R) → NoDup idx → pages_of (Z.of_nat ps) idx ≡ₚ X →
  ∃ a', kv_free (allocator st) idx = Ok a' ∧ owns cfg G (set_alloc st a') ∧ apart G (set_alloc st a') R ∧
    accounted cfg G (set_alloc st a') ≡ₚ X ++ accounted cfg G st ∧ kv_limit a' = kv_limit (allocator st) ∧
    kv_held a' ≡ₚ X ++ kv_held (allocator st).
Proof.
  intros Hown [Hnd Hf] Hni HP. apply NoDup_app in Hnd as (HnX & Hdis & HnR).
  destruct (owns_free_ext cfg G st idx Hown Hni) as (a' & Hfree & Hown' & Hlim & Hheld & Hacc).
  { rewrite HP. apply Forall_forall. intros p Hp. apply Hf. apply elem_of_app. by left. }
  exists a'. split; [done|]. split; [done|]. split; [|by rewrite Hacc, Hheld, HP, Hlim].
  split; [done|]. intros p Hp. cbn [set_alloc allocator]. rewrite Hlim.
  destruct (Hf p ltac:(apply elem_of_app; by right)) as (? & ? & ?). split; [done|]. split; [|done].
  rewrite Hheld, HP, elem_of_app. intros [HpX|]; [|done]. by apply (Hdis p).
Qed.

(** Storing some of them in the tree. *)
Lemma apart_insert G st G' st' X R v :
  apart G st (X ++ R) → allocator st' = allocator st → tree_slots G' st' ≡ₚ v ++ tree_slots G st →
  pages_of (Z.of_nat ps) v ≡ₚ X → apart G' st' R.
Proof.
  intros [Hnd Hf] Ea Hs HP. apply NoDup_app in Hnd as (_ & Hdis & HnR). split; [done|].
  intros p Hp. rewrite Ea. destruct (Hf p ltac:(apply elem_of_app; by right)) as (? & ? & Hno). split; [done|]. split; [done|].
  intros x. rewrite Hs, elem_of_app. intros [Hx|Hx]; [|by apply Hno]. intros <-.
  apply (Hdis (x / Z.of_nat ps)); [|done]. rewrite <-HP. apply elem_of_pages_of. eauto.
Qed.

Lemma list_cut3 {T} (l : list T) i j k : (i ≤ j ≤ k)%nat →
  drop i l = drop i (take j l) ++ drop j (take k l) ++ drop k l.
Proof.
  intros Hijk. rewrite <-(take_drop j l) at 1. rewrite drop_app.
  destruct (decide (j ≤ length l)%nat) as [Hj|Hj].
  - rewrite length_take_le by done. replace (i - j)%nat with 0%nat by lia. cbn. f_equal.
    rewrite <-(take_drop k l) at 1. rewrite drop_app.
    destruct (decide (k ≤ length l)%nat).
    + rewrite length_take_le by done. replace (j - k)%nat with 0%nat by lia. done.
    + rewrite (drop_ge l k), drop_nil by lia. done.
  - rewrite (drop_ge l j), (drop_ge l k), drop_nil by lia.
    rewrite (drop_ge (take k l) j) by (rewrite length_take; lia). done.
Qed.

Lemma page_aligned_eq n : ps ≠ 0%nat → page_aligned cfg (Z.of_nat n) = Z.of_nat (n / ps * ps).
Proof.
  intros Hps. unfold page_aligned. rewrite Heagle. case_decide as E.
  - rewrite E, Nat.div_1_r. lia.
  - rewrite Nat2Z.inj_mul, Nat2Z.inj_div. done.
Qed.

Lemma page_aligned_kv_eq kv : ps ≠ 0%nat →
  page_aligned_kv cfg kv (len kv) = take (length kv / ps * ps) kv.
Proof.
  intros Hps. unfold page_aligned_kv, len. case_decide as E.
  - rewrite E, Nat.div_1_r, Nat.mul_1_r, take_ge; done.
  - rewrite page_aligned_eq, py_upto_take by (done || lia). by rewrite Nat2Z.id.
Qed.

Section held.
Context {G : ghost} {L : gmultiset nat} {st : cache A} {e : option string} {toks kv : list Z} {P last : nat} {pgs : list Z}.
Context (Hinv : cache_wf cfg G L st) (Hown : owns cfg G st) (Hho : holds G L st e toks kv P last pgs).
Let a := (length kv / ps * ps)%nat.

Lemma held_page : ps ≠ 0%nat.
Proof. apply (wf_page (ci_wf Hinv)). Qed.

Lemma held_slots_len : (length kv ≤ length (pgs ≫= PagedAlloc.page_slots (Z.of_nat ps)))%nat.
Proof.
  rewrite length_bind_page_slots, (ho_pgs Hho). pose proof held_page as Hps.
  destruct (decide (length kv ≤ ceil ps (length kv) * ps)%nat) as [|Hgt]; [done|].
  pose proof (proj2 (ceil_spec ps Hps (length kv) (ceil ps (length kv)))). lia.
Qed.

Lemma held_a : (a ≤ length kv)%nat ∧ (ps | a)%nat ∧ (P ≤ a)%nat ∧ (length kv < a + ps)%nat.
Proof.
  pose proof held_page as Hps. unfold a. pose proof (Nat.div_mod_eq (length kv) ps).
  pose proof (Nat.mod_upper_bound (length kv) ps Hps). split_and!; [lia|apply Nat.divide_factor_r| |lia].
  destruct (ho_aligned Hho) as [b Hb]. pose proof (ho_P Hho) as HP.
  rewrite Hb in *. apply Nat.mul_le_mono_r. apply Nat.div_le_lower_bound; [done|lia].
Qed.

(** Segments of the slots are segments of the pages. *)
Lemma held_seg i j : (j ≤ length kv)%nat →
  drop i (take j kv) = drop i (take j (pgs ≫= PagedAlloc.page_slots (Z.of_nat ps))).
Proof. intros Hj. rewrite (ho_kv Hho) at 1. rewrite take_take. by rewrite Nat.min_l. Qed.

Lemma held_seg_pages i j : (i < j)%nat → (j ≤ length kv)%nat →
  pages_of (Z.of_nat ps) (drop i (take j kv)) ≡ₚ drop (i / ps) (take (ceil ps j) pgs).
Proof.
  intros Hij Hj. rewrite held_seg by done. pose proof held_slots_len.
  apply seg_pages; [apply held_page|apply (ho_nodup Hho)|done|lia].
Qed.

Lemma held_nodup i j : (j ≤ length kv)%nat → NoDup (drop i (take j kv)).
Proof.
  intros Hj. rewrite held_seg by done. eapply sublist_NoDup; [|etrans; [apply sublist_drop|apply sublist_take]].
  apply NoDup_slots; [apply held_page|apply (ho_nodup Hho)].
Qed.

(** The slots from position [P] on are on pages of the request's own. *)
Lemma held_fresh i j : (P ≤ i)%nat → (j ≤ length kv)%nat →
  Forall (λ x, x / Z.of_nat ps ∈ drop (i / ps) (take (ceil ps j) pgs) ∧
    1 ≤ x / Z.of_nat ps ≤ kv_limit (allocator st) ∧ x / Z.of_nat ps ∉ kv_held (allocator st) ∧
    ∀ y, y ∈ tree_slots G st → y / Z.of_nat ps ≠ x / Z.of_nat ps) (drop i (take j kv)).
Proof.
  intros Hi Hj. apply Forall_forall. intros x Hx. destruct (decide (i < j)%nat) as [Hij|Hge].
  2: { rewrite drop_ge in Hx by (rewrite length_take; lia). by apply not_elem_of_nil in Hx. }
  assert (x / Z.of_nat ps ∈ drop (i / ps) (take (ceil ps j) pgs)) as Hp.
  { rewrite <-(held_seg_pages i j Hij Hj). apply elem_of_pages_of. eauto. }
  split; [done|]. apply (ho_own Hho).
  assert (drop (i / ps) (take (ceil ps j) pgs) `sublist_of` drop (P / ps) pgs) as Hsub.
  { replace (i / ps)%nat with (P / ps + (i / ps - P / ps))%nat by
      (pose proof (Nat.Div0.div_le_mono P i ps Hi); lia).
    rewrite <-drop_drop. etrans; [apply sublist_drop|]. rewrite skipn_firstn_comm. apply sublist_take. }
  by eapply elem_of_sublist.
Qed.

(** The part shared with the tree is found again by an insertion. *)
Lemma held_cached : P ≠ 0%nat → cached cfg G st e (TInt <$> take P toks) (take P kv).
Proof.
  intros HP. eapply (node_cached cfg G L _ st last _ _ Hinv (ho_node Hho) (ho_compat Hho)).
  intros E. pose proof (ho_node Hho) as Hn. rewrite E in Hn.
  destruct (wf_root (ci_wf Hinv)) as (? & _ & X & _). rewrite Hn in X. injection X as _ X.
  apply (f_equal length) in X. rewrite length_take_le in X by apply (ho_P Hho). cbn in X. lia.
Qed.

(** Inserting the whole pages of the request. *)
Lemma held_insert : ∃ n st' G' I,
  insert clock hash cfg st (mkKey (TInt <$> take a toks) e) (Some (take a kv)) = Ok (n, st') ∧
  cache_wf cfg G' L st' ∧ owns cfg G' st' ∧
  inserted cfg G st e (TInt <$> take a toks) (take a kv) n G' st' I ∧
  (P ≤ n ≤ a)%nat ∧ (ps | n)%nat ∧
  tree_slots G' st' ≡ₚ drop n (take a kv) ++ tree_slots G st ∧
  accounted cfg G' st' ≡ₚ pages_of (Z.of_nat ps) (drop n (take a kv)) ++ accounted cfg G st.
Proof.
  pose proof held_page as Hps. destruct held_a as (Ha & Had & HPa & _). pose proof (ho_toks Hho) as Ht.
  assert (length (TInt <$> take a toks) = a) as Hlt by (rewrite length_fmap, length_take_le; lia).
  assert (key_convert_fn cfg (TInt <$> take a toks) = TInt <$> take a toks) as Hkc
    by (unfold key_convert_fn; by rewrite Heagle).
  destruct (insert_spec clock hash cfg G L st (mkKey (TInt <$> take a toks) e) (take a kv) Hinv Hen)
    as (n & st' & G' & I & Heq & Hinv' & Hins); cbn [token_ids] in *; rewrite ?Hkc, ?Heagle in *.
  { by rewrite Hlt. }
  { by rewrite Hlt, length_take_le. }
  cbn [extra_key] in Hins.
  pose proof (is_bound _ _ _ _ _ _ _ _ _ _ Hins) as Hb. rewrite Hlt in Hb.
  pose proof (is_aligned _ _ _ _ _ _ _ _ _ _ Hins) as Hnd.
  assert (P ≤ n)%nat as HPn.
  { destruct (decide (P = 0%nat)) as [->|HP0]; [lia|].
    pose proof (is_max _ _ _ _ _ _ _ _ _ _ Hins _ _ (held_cached HP0)) as Hm.
    rewrite length_fmap, length_take_le in Hm by (pose proof (ho_P Hho); lia). apply Hm.
    apply take_prefix. rewrite length_fmap, length_take_le by (pose proof (ho_P Hho); lia).
    rewrite <-fmap_take, take_take. do 2 f_equal. lia. }
  destruct (owns_insert cfg G st e _ _ n G' st' I Hps Hown Hins) as [Hown' Hacc].
  - rewrite held_seg by done. by apply whole_seg.
  - apply NoDup_app. split_and!; [by apply held_nodup| |apply (ow_nodup Hown)].
    intros x Hx Hx'. pose proof (held_fresh n a HPn Ha) as Hf. rewrite Forall_forall in Hf.
    destruct (Hf x Hx) as (_ & _ & _ & Hno). by apply (Hno x Hx').
  - eapply Forall_impl; [apply (held_fresh n a HPn Ha)|]. naive_solver.
  - exists n, st', G', I. split_and!; try done. apply (is_slots _ _ _ _ _ _ _ _ _ _ Hins).
Qed.

Lemma held_div i : (ps | i)%nat → ceil ps i = (i / ps)%nat.
Proof. intros [b ->]. rewrite ceil_mul by apply held_page. by rewrite Nat.div_mul by apply held_page. Qed.

(** The pages of the segment from the old prefix to an aligned position. *)
Lemma held_mid_pages o n : (P ≤ o < P + ps)%nat → (P ≤ n ≤ a)%nat → (ps | n)%nat →
  pages_of (Z.of_nat ps) (drop o (take n kv)) ≡ₚ drop (P / ps) (take (n / ps) pgs).
Proof.
  intros Ho Hn Hd. destruct held_a as (Ha & _ & _ & _). pose proof held_page as Hps.
  destruct (decide (o < n)%nat) as [Hlt|Hge].
  - rewrite held_seg_pages, held_div by (done || lia). assert (o / ps = P / ps)%nat as ->; [|done].
    destruct (ho_aligned Hho) as [b Hb]. rewrite Hb in *. rewrite Nat.div_mul by done.
    symmetry. apply (Nat.div_unique o ps b (o - b * ps)); lia.
  - assert (n = P) as ->.
    { destruct (decide (n = P)) as [|Hne]; [done|].
      pose proof (divide_lt_add ps P n Hps (ho_aligned Hho) Hd ltac:(lia)). lia. }
    rewrite !drop_ge by (rewrite length_take; lia). done.
Qed.

Lemma held_new_pages n : (P ≤ n ≤ a)%nat → (ps | n)%nat →
  pages_of (Z.of_nat ps) (drop n (take a kv)) ≡ₚ drop (n / ps) (take (a / ps) pgs).
Proof.
  intros Hn Hd. destruct held_a as (Ha & Had & _ & _). destruct (decide (n < a)%nat) as [Hlt|Hge].
  - by rewrite held_seg_pages, held_div by (done || lia).
  - replace a with n by lia. rewrite !drop_ge by (rewrite length_take; lia). done.
Qed.

Lemma held_tail_pages : pages_of (Z.of_nat ps) (drop a kv) ≡ₚ drop (a / ps) pgs.
Proof.
  destruct held_a as (Ha & Had & _ & _). destruct (decide (a < length kv)%nat) as [Hlt|Hge].
  - rewrite <-(firstn_all kv) at 1. rewrite held_seg_pages by lia.
    rewrite take_ge; [done|]. by rewrite (ho_pgs Hho).
  - assert (length kv = a) as E by lia. rewrite !drop_ge; [done| |lia].
    rewrite (ho_pgs Hho), E, held_div by done. lia.
Qed.

Lemma held_own_cut n : (P ≤ n ≤ a)%nat →
  drop (P / ps) pgs = drop (P / ps) (take (n / ps) pgs) ++ drop (n / ps) (take (a / ps) pgs) ++ drop (a / ps) pgs.
Proof. intros [H1 H2]. apply list_cut3. split; by apply Nat.Div0.div_le_mono. Qed.

Lemma held_apart : apart G st (drop (P / ps) pgs).
Proof.
  split; [|apply (ho_own Hho)]. eapply sublist_NoDup; [apply (ho_nodup Hho)|apply sublist_drop].
Qed.
End held.

Lemma py_slice_nat {T} (l : list T) i j : py_slice l (Z.of_nat i) (Z.of_nat j) = drop i (take j l).
Proof. rewrite py_slice_drop_take by lia. by rewrite !Nat2Z.id. Qed.
Lemma py_from_nat {T} (l : list T) i : py_from l (Z.of_nat i) = drop i l.
Proof. rewrite py_from_drop by lia. by rewrite Nat2Z.id. Qed.
Lemma py_upto_nat {T} (l : list T) i : py_upto l (Z.of_nat i) = take i l.
Proof. rewrite py_upto_take by lia. by rewrite Nat2Z.id. Qed.

Lemma set_alloc_wf G L st a : cache_wf cfg G L st → cache_wf cfg G L (set_alloc st a).
Proof. apply cache_inv_same. done. Qed.


(** ** The slots on the way to a node *)
Lemma chain_slots G W ctr r l : wf ps G W ctr r → ∀ n g, chain W r n l → G !! n = Some g →
  g.2 ≡ₚ mjoin (node_vals W <$> l) ∧ Forall (λ x, is_Some (G !! x)) l ∧ (all_whole ps G W → whole ps g.2).
Proof.
  intros Hwf. induction l as [|x l IH]; intros n g Hch Hg.
  - cbn in Hch. subst n. destruct (wf_root Hwf) as (? & _ & X & _). simplify_eq. cbn.
    split_and!; [done|constructor|]. intros _. apply whole_nil.
  - destruct Hch as (-> & Hr & v & p & Hv & Hp & Hch).
    destruct (wf_linked Hwf n v g Hg Hv Hr) as (p' & pv & pg & vs & Hl).
    assert (p' = p) as -> by (pose proof (lk_par Hl); congruence).
    destruct (IH p pg Hch (lk_pghost Hl)) as (HP & Hall & Hw).
    assert (node_vals W n = vs) as Hvs by (unfold node_vals; rewrite Hv; cbn; by rewrite (lk_val Hl)).
    split_and!.
    + rewrite (lk_idxs Hl), HP. cbn. rewrite Hvs. solve_Permutation.
    + constructor; [eauto|done].
    + intros Haw. rewrite (lk_idxs Hl). apply whole_app; [by apply Hw|]. rewrite <-Hvs. apply Haw. eauto.
Qed.

Lemma path_slots G L d st n g : cache_inv cfg G L d st → owns cfg G st → G !! n = Some g →
  NoDup g.2 ∧ whole ps g.2 ∧ ∀ x, x ∈ g.2 → x ∈ tree_slots G st.
Proof.
  intros Hinv Hown Hg. destruct (chain_exists _ _ _ _ _ _ _ (ci_wf Hinv) Hg) as (l & Hch & Hnd & _).
  destruct (chain_slots _ _ _ _ l (ci_wf Hinv) n g Hch Hg) as (HP & Hall & Hw).
  assert (l ⊆+ elements (dom G)) as Hsub.
  { apply NoDup_submseteq; [done|]. intros x Hx. rewrite Forall_forall in Hall.
    apply elem_of_elements, elem_of_dom. by apply Hall. }
  apply submseteq_Permutation in Hsub as [k Hk].
  assert (tree_slots G st ≡ₚ g.2 ++ mjoin (node_vals (hview (heap st)) <$> k)) as Hts.
  { unfold tree_slots, slots_of. rewrite Hk, fmap_app, join_app. by rewrite HP. }
  split_and!; [|apply Hw, (ow_whole Hown)|].
  - pose proof (ow_nodup Hown) as Hn. rewrite Hts in Hn. by apply NoDup_app in Hn as [? _].
  - intros x Hx. rewrite Hts. apply elem_of_app. by left.
Qed.

(** Whole pages without repetition are the slots of distinct pages. *)
Lemma whole_pages vs : ps ≠ 0%nat → whole ps vs → NoDup vs → ∃ pgs, NoDup pgs ∧
  vs = pgs ≫= PagedAlloc.page_slots (Z.of_nat ps) ∧ length vs = (length pgs * ps)%nat ∧
  ∀ p, p ∈ pgs → ∃ x, x ∈ vs ∧ x / Z.of_nat ps = p.
Proof.
  intros Hps [pgs ->] Hnd. exists pgs.
  assert (∀ p, p * Z.of_nat ps ∈ PagedAlloc.page_slots (Z.of_nat ps) p ∧ p * Z.of_nat ps / Z.of_nat ps = p) as Hp.
  { intros p. rewrite Z.div_mul by lia. split; [|done]. apply elem_of_page_slots; [lia|]. by rewrite Z.div_mul by lia. }
  split_and!; [|done|apply length_bind_page_slots|].
  - induction pgs as [|p pgs IH]; [constructor|]. cbn in Hnd. apply NoDup_app in Hnd as (_ & Hd & Hn).
    constructor; [|by apply IH]. intros Hin. apply (Hd (p * Z.of_nat ps)); [apply Hp|].
    apply list_elem_of_bind. exists p. split; [apply Hp|done].
  - intros p Hin. exists (p * Z.of_nat ps). split; [|apply Hp]. apply list_elem_of_bind. exists p. split; [apply Hp|done].
Qed.

Lemma relocked_compat W W' r n e : relocked W W' → compat (W:=W) (r:=r) n e → compat (W:=W') (r:=r) n e.
Proof.
  intros HR [->|(v & Hv & He)]; [by left|right].
  destruct (relocked_view _ _ _ _ HR Hv) as (v' & Hv' & _ & _ & E & _). exists v'. by rewrite E.
Qed.

Lemma drop_slots pgs b : drop (b * ps) (pgs ≫= PagedAlloc.page_slots (Z.of_nat ps)) =
  drop b pgs ≫= PagedAlloc.page_slots (Z.of_nat ps).
Proof.
  revert b. induction pgs as [|p pgs IH]; intros [|b]; cbn; rewrite ?drop_nil; try done.
  rewrite <-(length_page_slots ps p) at 1. rewrite drop_app_add. apply IH.
Qed.

(** A request whose whole pages are in the tree, at the node [last'] it now has
    locked, holds the slots it finds there and keeps the rest of its own. *)
Lemma held_again G L st e toks kv P last pgs G' L' st' idx last' :
  holds G L st e toks kv P last pgs →
  let a := (length kv / ps * ps)%nat in
  cache_wf cfg G' L' st' → owns cfg G' st' → apart G' st' (drop (a / ps) pgs) → length idx = a →
  G' !! last' = Some (TInt <$> take a toks, idx) →
  compat (W:=hview (heap st')) (r:=root_node st') last' e → last' ∈ L' →
  ∃ pgs', holds G' L' st' e toks (idx ++ drop a kv) a last' pgs' ∧ drop (a / ps) pgs' = drop (a / ps) pgs.
Proof.
  intros Hho a Hinv' Hown' [Hnd Hap] Hlen Hg Hc HL. pose proof (wf_page (ci_wf Hinv')) as Hps.
  destruct (path_slots G' L' _ st' last' _ Hinv' Hown' Hg) as (Hni & Hwi & Hin).
  destruct (whole_pages idx Hps Hwi Hni) as (ip & Hnp & Hip & Hil & Hpx). cbn [snd] in *.
  assert (a ≤ length kv)%nat as Ha.
  { unfold a. pose proof (Nat.div_mod_eq (length kv) ps). lia. }
  assert (length ip = a / ps)%nat as Hl by (rewrite <-Hlen, Hil; by rewrite Nat.div_mul).
  assert (length kv / ps ≤ ceil ps (length kv))%nat as Hce.
  { destruct (decide (length kv / ps ≤ ceil ps (length kv))%nat) as [|Hgt]; [done|].
    pose proof (proj2 (ceil_spec ps Hps (length kv) (ceil ps (length kv)))).
    pose proof (Nat.div_mod_eq (length kv) ps). nia. }
  assert (a / ps = length kv / ps)%nat as Had by (unfold a; by rewrite Nat.div_mul).
  assert (length (idx ++ drop a kv) = length kv) as Hlk by (rewrite length_app, length_drop; lia).
  exists (ip ++ drop (a / ps) pgs).
  assert (drop (a / ps) (ip ++ drop (a / ps) pgs) = drop (a / ps) pgs) as Hdr by (by rewrite <-Hl, drop_app_length).
  split; [|done]. constructor; rewrite ?Hlk, ?Hdr; try done.
  - apply NoDup_app. split_and!; try done. intros p (x & Hx & <-)%Hpx Hp'.
    destruct (Hap _ Hp') as (_ & _ & Hno). by apply (Hno x (Hin x Hx)).
  - rewrite bind_app, <-Hip, <-drop_slots, take_app, Hlen, take_ge by lia. f_equal.
    rewrite (ho_kv Hho) at 1. rewrite skipn_firstn_comm. rewrite Had. done.
  - rewrite length_app, length_drop, (ho_pgs Hho). lia.
  - apply (ho_toks Hho).
  - unfold a. apply Nat.divide_factor_r.
  - by rewrite Hg, (take_app_length' idx) by (by symmetry).
Qed.
End req_held.
Arguments holds {_ _} cfg.
Arguments apart {_ _} cfg.
Arguments ho_nodup {_ _ _ _ _ _ _ _ _ _ _ _} _.
Arguments ho_kv {_ _ _ _ _ _ _ _ _ _ _ _} _.
Arguments ho_pgs {_ _ _ _ _ _ _ _ _ _ _ _} _.
Arguments ho_toks {_ _ _ _ _ _ _ _ _ _ _ _} _.
Arguments ho_P {_ _ _ _ _ _ _ _ _ _ _ _} _.
Arguments ho_aligned {_ _ _ _ _ _ _ _ _ _ _ _} _.
Arguments ho_node {_ _ _ _ _ _ _ _ _ _ _ _} _.
Arguments ho_compat {_ _ _ _ _ _ _ _ _ _ _ _} _.
Arguments ho_lock {_ _ _ _ _ _ _ _ _ _ _ _} _.
Arguments ho_own {_ _ _ _ _ _ _ _ _ _ _ _} _.
