(* ===== verification/RadixReqSpec.v ===== *)
(** * Requests give their KV slots back

    The slots of a request are a prefix it shares with the tree (and has locked)
    and pages of its own.  When the request ends, every page of its own ends up
    either in the tree or in the allocator, exactly once.  A request that goes on
    stores its whole pages and keeps running, unless its unaligned prefix goes on
    into a page that somebody else has cached ([unaligned_prefix_goes_stale]). *)

From stdpp Require Import gmultiset.
From S2P Require Import Prelude KVAllocator KVAllocatorProofs KVAllocatorSpec.
From S2P Require Import RadixTree RadixInv RadixSplit RadixMatch RadixInsert RadixLock RadixWalk RadixOwn RadixEvict RadixSpec.
From S2P Require Import ReqPool Request RequestSpec PrefixCache RadixHeld RadixReq.

Section req_spec.
Context {A : Type} `{KVPool A}.
Context (clock : nat → Z) (hash : list token → Z) (cfg : config) (topk : option Z).
Context (Hen : disable cfg = false) (Heagle : is_eagle cfg = false).
Implicit Types (st : cache A) (s : radix_state A) (req : Req.t).
Abbreviation ps := (page_size cfg).
Abbreviation holds := (holds cfg).
Abbreviation apart := (apart cfg).

(** Freeing the request's copy of what the tree has, and its tail. *)
Lemma finish_free G L s X Y mid tail :
  cache_wf cfg G L (tree s) → owns cfg G (tree s) → apart G (tree s) (X ++ Y) →
  NoDup mid → NoDup tail → pages_of (Z.of_nat ps) mid ≡ₚ X → pages_of (Z.of_nat ps) tail ≡ₚ Y →
  ∃ s', (let! s := free_slots s mid in free_slots s tail) = Ok s' ∧ req_pool s' = req_pool s ∧
    cache_wf cfg G L (tree s') ∧ owns cfg G (tree s') ∧ hview (heap (tree s')) = hview (heap (tree s)) ∧
    root_node (tree s') = root_node (tree s) ∧
    (kv_limit (allocator (tree s')) = kv_limit (allocator (tree s)) ∧
     ∀ P : A → Prop, freeing P → P (allocator (tree s)) → P (allocator (tree s'))) ∧
    accounted cfg G (tree s') ≡ₚ X ++ Y ++ accounted cfg G (tree s).
Proof.
  intros Hinv Hown Hap Hn1 Hn2 HP1 HP2. unfold free_slots.
  destruct (apart_free G (tree s) X Y mid Hown Hap Hn1 HP1) as (a1 & Hf1 & Hown1 & Hap1 & Hacc1 & Hl1 & _). rewrite Hf1. cbn [res_bind].
  destruct (apart_free G (set_alloc (tree s) a1) Y [] tail Hown1) as (a2 & Hf & Hown2 & _ & Hacc2 & Hl2 & _);
    [by rewrite app_nil_r|done|done|].
  cbn [tree]. rewrite Hf. cbn [res_bind]. eexists. split; [reflexivity|]. cbn [tree req_pool].
  split_and!; try done; [by apply set_alloc_wf, set_alloc_wf|by etrans|by intros P HP Ha; eapply HP, HP, Ha|].
  rewrite Hacc2, Hacc1. solve_Permutation.
Qed.

Definition own_tokens req : list Z := Req.origin_input_ids req ++ Req.output_ids req.

(** What is left to do once the slots are freed. *)
Lemma finish_dec G L s i last : cache_wf cfg G L (tree s) → owns cfg G (tree s) → last ∈ L →
  ∃ s', dec_node cfg (mkState (tree s) (ReqToTokenPool.free1 (req_pool s) i)) (Some last) = Ok s' ∧
    req_pool s' = ReqToTokenPool.free1 (req_pool s) i ∧
    cache_wf cfg G (L ∖ {[+ last +]}) (tree s') ∧ owns cfg G (tree s') ∧
    accounted cfg G (tree s') = accounted cfg G (tree s) ∧
    (relocked (hview (heap (tree s))) (hview (heap (tree s'))) ∧ root_node (tree s') = root_node (tree s) ∧
     allocator (tree s') = allocator (tree s)) ∧
    (∀ e t idx, cached cfg G (tree s') e t idx ↔ cached cfg G (tree s) e t idx).
Proof.
  intros Hinv Hown HL. unfold dec_node. rewrite Hen. cbn [of_opt res_bind tree].
  destruct (dec_lock_ref_spec cfg G L (tree s) last Hinv HL Hen) as (l & δ & _ & _ & -> & Hinv'). cbn [res_bind].
  eexists. split; [reflexivity|]. cbn [tree req_pool]. split_and!; try done.
  - by apply owns_relocked.
  - unfold accounted, tree_slots. f_equal. f_equal. apply slots_of_ext. intros n _.
    apply relocked_vals, with_locks_view.
  - apply with_locks_view.
  - intros. apply with_locks_cached.
Qed.

(** A request in the table whose row starts with the slots [kv] it holds. *)
Record running G L s req (toks kv : list Z) (P last : nat) (pgs : list Z) (i : Z) (row : list Z) : Prop := {
  ru_wf : cache_wf cfg G L (tree s);
  ru_owns : owns cfg G (tree s);
  ru_holds : holds G L (tree s) (Req.extra_key req) toks kv P last pgs;
  ru_idx : Req.req_pool_idx req = Some i;
  ru_pos : 0 ≤ i;
  ru_row : ReqToTokenPool.req_to_token (req_pool s) !! Z.to_nat i = Some row;
  ru_kv : kv = take (length kv) row;
  ru_prefix : (P ≤ length (Req.prefix_indices req) < P + ps)%nat;
  ru_last : Req.last_node req = Some last
}.

(** What [cache_finished_req] does for such a request. *)
Lemma finished_eq G L s req is_insert kv P last pgs i row :
  running G L s req (own_tokens req) kv P last pgs i row →
  (topk = None ∨ topk = Some 1) → Req.kv_committed_freed req = false → Req.kv_committed_len req = len kv →
  let a := (length kv / ps * ps)%nat in
  let o := length (Req.prefix_indices req) in
  cache_finished_req clock hash cfg topk s req is_insert =
    let! s :=
      if is_insert then
        let! '(n, t) := insert clock hash cfg (tree s)
          (mkKey (TInt <$> take a (own_tokens req)) (Req.extra_key req)) (Some (take a kv)) in
        free_slots (mkState t (req_pool s)) (drop o (take n kv))
      else free_slots s (drop o (take a kv)) in
    let! s := free_slots s (drop a kv) in
    let! s := dec_node cfg (mkState (tree s) (ReqToTokenPool.free1 (req_pool s) i)) (Some last) in
    Ok (Req.set_kv_committed_freed req true, s).
Proof.
  intros [Hinv Hown Hho Hidx Hi Hrow Hkv Hold Hlast] Htopk Hfreed Hclen a o.
  pose proof (wf_page (ci_wf Hinv)) as Hps. destruct (held_a Hinv Hho) as (Ha & _). fold a in Ha.
  unfold cache_finished_req.
  assert (pop_committed_kv_cache topk req = Ok (len kv, Req.set_kv_committed_freed req true)) as ->.
  { unfold pop_committed_kv_cache. rewrite Hfreed, <-Hclen. by destruct Htopk as [-> | ->]. }
  cbn [res_bind]. change (Req.req_pool_idx (Req.set_kv_committed_freed req true)) with (Req.req_pool_idx req).
  rewrite Hidx. cbn [of_opt res_bind]. rewrite Hen.
  assert (req_row s (Req.set_kv_committed_freed req true) (len kv) = Ok kv) as ->.
  { unfold req_row. change (Req.req_pool_idx (Req.set_kv_committed_freed req true)) with (Req.req_pool_idx req).
    rewrite Hidx. cbn [of_opt res_bind]. rewrite (row_ok _ _ _ Hi Hrow). cbn [res_bind]. f_equal.
    unfold len. rewrite py_upto_nat. by symmetry. }
  cbn [res_bind]. rewrite Heagle.
  assert (page_aligned cfg (len kv) = Z.of_nat a) as -> by (by apply page_aligned_eq).
  rewrite page_aligned_kv_eq by done. fold a.
  assert (py_upto (py_upto (Req.origin_input_ids (Req.set_kv_committed_freed req true) ++
    Req.output_ids (Req.set_kv_committed_freed req true)) (len kv)) (Z.of_nat a) = take a (own_tokens req)) as ->.
  { unfold len. rewrite !py_upto_nat, take_take. by rewrite Nat.min_l. }
  assert (old_prefix_len cfg (Req.set_kv_committed_freed req true) = Z.of_nat o) as ->
    by (unfold old_prefix_len; by rewrite Heagle).
  change (Req.last_node (Req.set_kv_committed_freed req true)) with (Req.last_node req). rewrite Hlast.
  rewrite py_from_nat, py_slice_nat. destruct is_insert; [|done].
  change (Req.extra_key (Req.set_kv_committed_freed req true)) with (Req.extra_key req).
  destruct (insert _ _ _ _ _ _) as [[n t]|]; cbn [res_bind]; [|done]. by rewrite py_slice_nat.
Qed.

(** Dropping the slots of a request that is not cached. *)
Lemma finish_drop G L s req toks kv P last pgs i row :
  running G L s req toks kv P last pgs i row →
  let a := (length kv / ps * ps)%nat in
  let o := length (Req.prefix_indices req) in
  ∃ s', (let! s := free_slots s (drop o (take a kv)) in
         let! s := free_slots s (drop a kv) in
         dec_node cfg (mkState (tree s) (ReqToTokenPool.free1 (req_pool s) i)) (Some last)) = Ok s' ∧
    cache_wf cfg G (L ∖ {[+ last +]}) (tree s') ∧ owns cfg G (tree s') ∧
    accounted cfg G (tree s') ≡ₚ drop (P / ps) pgs ++ accounted cfg G (tree s) ∧
    req_pool s' = ReqToTokenPool.free1 (req_pool s) i ∧
    relocked (hview (heap (tree s))) (hview (heap (tree s'))) ∧ root_node (tree s') = root_node (tree s) ∧
    kv_limit (allocator (tree s')) = kv_limit (allocator (tree s)) ∧
    ∀ Q : A → Prop, freeing Q → Q (allocator (tree s)) → Q (allocator (tree s')).
Proof.
  intros [Hinv Hown Hho Hidx Hi Hrow Hkv Ho Hlast] a o.
  destruct (held_a Hinv Hho) as (Ha & Had & HPa & _). fold a in Ha, Had, HPa. fold o in Ho.
  pose proof (held_apart Hho) as Hap.
  rewrite (held_own_cut (P:=P) (kv:=kv) (pgs:=pgs) a (conj HPa (le_n _))) in Hap |- *. fold a in Hap |- *.
  rewrite (drop_ge (take (a / ps) pgs) (a / ps)) in Hap |- * by (rewrite length_take; lia). rewrite app_nil_l in *.
  destruct (finish_free G L s (drop (P / ps) (take (a / ps) pgs)) (drop (a / ps) pgs)
    (drop o (take a kv)) (drop a kv)) as (s2 & Hs2 & Hp2 & Hinv2 & Hown2 & Hv2 & Hr2 & [Hl2 Hq2] & Hacc2); try done.
  { apply (held_nodup Hinv Hho). lia. }
  { rewrite <-(firstn_all kv). by apply (held_nodup Hinv Hho). }
  { by apply (held_mid_pages Hinv Hho). }
  { by apply (held_tail_pages Hinv Hho). }
  destruct (free_slots s (drop o (take a kv))) as [s1|] eqn:E1; cbn [res_bind] in Hs2 |- *; [|done].
  rewrite Hs2. cbn [res_bind].
  destruct (finish_dec G L s2 i last Hinv2 Hown2 (ho_lock Hho)) as (s3 & -> & Hp3 & Hinv3 & Hown3 & Hacc3 & (Hv3 & Hr3 & Ha3) & _).
  exists s3. split_and!; try done; [|by rewrite Hp3, Hp2|by rewrite <-Hv2|by rewrite Hr3|by rewrite Ha3|rewrite Ha3; exact Hq2].
  rewrite Hacc3, Hacc2. solve_Permutation.
Qed.

(** Storing the whole pages of a request and dropping the rest. *)
Lemma finish_store G L s req toks kv P last pgs i row :
  running G L s req toks kv P last pgs i row →
  let a := (length kv / ps * ps)%nat in
  let o := length (Req.prefix_indices req) in
  ∃ s' G', (let! '(n, t) := insert clock hash cfg (tree s)
              (mkKey (TInt <$> take a toks) (Req.extra_key req)) (Some (take a kv)) in
            let! s := free_slots (mkState t (req_pool s)) (drop o (take n kv)) in
            let! s := free_slots s (drop a kv) in
            dec_node cfg (mkState (tree s) (ReqToTokenPool.free1 (req_pool s) i)) (Some last)) = Ok s' ∧
    cache_wf cfg G' (L ∖ {[+ last +]}) (tree s') ∧ owns cfg G' (tree s') ∧
    accounted cfg G' (tree s') ≡ₚ drop (P / ps) pgs ++ accounted cfg G (tree s) ∧
    req_pool s' = ReqToTokenPool.free1 (req_pool s) i ∧
    (a ≠ 0%nat → ∃ I, cached cfg G' (tree s') (Req.extra_key req) (TInt <$> take a toks) I).
Proof.
  intros [Hinv Hown Hho Hidx Hi Hrow Hkv Ho Hlast] a o.
  destruct (held_a Hinv Hho) as (Ha & Had & HPa & _). fold a in Ha, Had, HPa. fold o in Ho.
  pose proof (held_apart Hho) as Hap.
  destruct (held_insert clock hash Hen Heagle Hinv Hown Hho)
    as (n & t & G' & I & Heq & Hinv' & Hown' & Hins & Hn & Hnd & Hsl & Hacc).
  fold a in Heq, Hins, Hn, Hsl, Hacc. rewrite Heq. cbn [res_bind].
  pose proof (held_new_pages Hinv Hho n Hn Hnd) as Hpg. fold a in Hpg.
  rewrite (held_own_cut (kv:=kv) (pgs:=pgs) n Hn) in Hap |- *. fold a in Hap |- *.
  destruct (finish_free G' L (mkState t (req_pool s)) (drop (P / ps) (take (n / ps) pgs)) (drop (a / ps) pgs)
    (drop o (take n kv)) (drop a kv)) as (s2 & Hs2 & Hp2 & Hinv2 & Hown2 & Hv2 & Hr2 & _ & Hacc2); try done.
  { eapply (apart_insert G (tree s) G' t (drop (n / ps) (take (a / ps) pgs)));
      [|apply (is_alloc _ _ _ _ _ _ _ _ _ _ Hins)|exact Hsl|exact Hpg].
    eapply apart_perm; [|exact Hap]. solve_Permutation. }
  { apply (held_nodup Hinv Hho). lia. }
  { rewrite <-(firstn_all kv). by apply (held_nodup Hinv Hho). }
  { by apply (held_mid_pages Hinv Hho). }
  { by apply (held_tail_pages Hinv Hho). }
  destruct (free_slots (mkState t (req_pool s)) (drop o (take n kv))) as [s1|] eqn:E1; cbn [res_bind] in Hs2 |- *; [|done].
  rewrite Hs2. cbn [res_bind].
  destruct (finish_dec G' L s2 i last Hinv2 Hown2 (ho_lock Hho)) as (s3 & -> & Hp3 & Hinv3 & Hown3 & Hacc3 & _ & Hc3).
  exists s3, G'. split_and!; try done.
  - rewrite Hacc3, Hacc2. cbn [tree]. rewrite Hacc, Hpg. solve_Permutation.
  - by rewrite Hp3, Hp2.
  - intros Ha0. exists (take (length (TInt <$> take a toks)) (I ++ drop n (take a kv))).
    apply Hc3. unfold cached. rewrite Hv2, Hr2. apply (is_cached _ _ _ _ _ _ _ _ _ _ Hins).
    right. assert (length (TInt <$> take a toks) = a) as Hla.
    { rewrite length_fmap, length_take_le; [done|]. pose proof (ho_toks Hho). lia. }
    split_and!; try done; [|by rewrite Hla]. intros E. rewrite E in Hla. cbn in Hla. lia.
Qed.

(** C9. The end of a request: [cache_finished_req] succeeds; the tree keeps its
    invariant with the request's lock given back, every page of the request's
    own is afterwards held by the tree or the allocator, exactly once, the row
    of the request table is free again, and with [is_insert] the whole pages of
    the request's tokens can be found in the cache. *)
Theorem finished_req_returns_slots G L s req is_insert kv P last pgs i row
    (Hrun : running G L s req (own_tokens req) kv P last pgs i row)
    (Htopk : topk = None ∨ topk = Some 1) (Hfreed : Req.kv_committed_freed req = false)
    (Hclen : Req.kv_committed_len req = len kv) :
  let a := (length kv / ps * ps)%nat in
  ∃ s' G', cache_finished_req clock hash cfg topk s req is_insert =
      Ok (Req.set_kv_committed_freed req true, s') ∧
    cache_wf cfg G' (L ∖ {[+ last +]}) (tree s') ∧ owns cfg G' (tree s') ∧
    accounted cfg G' (tree s') ≡ₚ drop (P / ps) pgs ++ accounted cfg G (tree s) ∧
    req_pool s' = ReqToTokenPool.free1 (req_pool s) i ∧
    (is_insert = true → a ≠ 0%nat →
       ∃ I, cached cfg G' (tree s') (Req.extra_key req) (TInt <$> take a (own_tokens req)) I).
Proof.
  intros a. rewrite (finished_eq G L s req is_insert kv P last pgs i row Hrun Htopk Hfreed Hclen). destruct is_insert.
  - destruct (finish_store G L s req _ kv P last pgs i row Hrun) as (s' & G' & Heq & H1 & H2 & H3 & H4 & H5).
    exists s', G'. split; [|by split_and!].
    revert Heq. destruct (insert _ _ _ _ _ _) as [[n t]|]; cbn [res_bind]; [|done].
    destruct (free_slots _ _); cbn [res_bind]; [|done]. destruct (free_slots _ _); cbn [res_bind]; [|done].
    by intros ->.
  - destruct (finish_drop G L s req _ kv P last pgs i row Hrun) as (s' & Heq & H1 & H2 & H3 & H4 & _).
    exists s', G. split; [|by split_and!]. revert Heq. destruct (free_slots _ _); cbn [res_bind]; [|done].
    destruct (free_slots _ _); cbn [res_bind]; [|done]. by intros ->.
Qed.

(** ** Requests that go on *)

(** A change of lock counts alone. *)
Lemma relocked_state G st z l δ R : owns cfg G st → apart G st R →
  let st' := with_locks z l δ st in
  owns cfg G st' ∧ apart G st' R ∧ accounted cfg G st' = accounted cfg G st.
Proof.
  intros Hown [Hnd Hap] st'. assert (tree_slots G st' = tree_slots G st) as Hts.
  { apply slots_of_ext. intros n _. apply relocked_vals, with_locks_view. }
  split_and!; [by apply owns_relocked| |unfold accounted; by rewrite Hts].
  split; [done|]. rewrite Hts. done.
Qed.

(** Moving the request's lock from one node to another. *)
Lemma move_lock G L s R last last' : cache_wf cfg G L (tree s) → owns cfg G (tree s) → apart G (tree s) R →
  last ∈ L → is_Some (G !! last') →
  ∃ s', (let! s := dec_node cfg s (Some last) in inc_node cfg s (Some last')) = Ok s' ∧ req_pool s' = req_pool s ∧
    cache_wf cfg G (L ∖ {[+ last +]} ⊎ {[+ last' +]}) (tree s') ∧ owns cfg G (tree s') ∧ apart G (tree s') R ∧
    accounted cfg G (tree s') = accounted cfg G (tree s) ∧ root_node (tree s') = root_node (tree s) ∧
    (∀ n e, compat (W:=hview (heap (tree s))) (r:=root_node (tree s)) n e →
      compat (W:=hview (heap (tree s'))) (r:=root_node (tree s)) n e) ∧
    allocator (tree s') = allocator (tree s).
Proof.
  intros Hinv Hown Hap HL Hl'. unfold dec_node, inc_node. rewrite Hen. cbn [of_opt res_bind].
  destruct (dec_lock_ref_spec cfg G L (tree s) last Hinv HL Hen) as (l & δ & _ & _ & -> & Hinv1). cbn [res_bind tree req_pool].
  destruct (relocked_state G (tree s) (-1) l δ R Hown Hap) as (Hown1 & Hap1 & Hacc1).
  destruct (inc_lock_ref_spec cfg G _ _ last' Hinv1 Hl' Hen) as (l' & δ' & _ & _ & -> & Hinv2). cbn [res_bind].
  destruct (relocked_state G _ 1 l' δ' R Hown1 Hap1) as (Hown2 & Hap2 & Hacc2).
  eexists. split; [reflexivity|]. cbn [tree req_pool]. split_and!; try done; [by rewrite Hacc2|].
  intros n e Hc. eapply relocked_compat; [apply with_locks_view|]. eapply relocked_compat; [apply with_locks_view|done].
Qed.

(** Looking up stored pages finds all of them. *)
Lemma match_stored G L st e t idx :
  cache_wf cfg G L st → (ps | length t)%nat → (t ≠ [] → cached cfg G st e (TInt <$> t) idx) →
  ∃ m st' G', match_prefix clock hash cfg st (mkKey (TInt <$> t) e) = Ok (m, st') ∧
    cache_wf cfg G' L st' ∧ refines cfg G st G' st' ∧ length (device_indices m) = length t ∧
    G' !! last_device_node m = Some (TInt <$> t, device_indices m) ∧
    compat (W:=hview (heap st')) (r:=root_node st') (last_device_node m) e.
Proof.
  intros Hinv Hd Hc. pose proof (wf_page (ci_wf Hinv)) as Hps.
  destruct (match_prefix_spec clock hash cfg G L st (mkKey (TInt <$> t) e) Hinv Hen)
    as (m & st' & G' & Heq & Hinv' & Hrf & Hk & _ & Hg & Hcm & Hmax).
  assert (lookup_tokens cfg (mkKey (TInt <$> t) e) = TInt <$> t) as Hlk.
  { unfold lookup_tokens, key_convert_fn. rewrite Heagle. cbn. apply aligned_id; [done|]. by rewrite length_fmap. }
  rewrite Hlk, length_fmap in *. cbn [extra_key] in *.
  assert (length (device_indices m) = length t) as Hlen.
  { destruct (decide (t = [])) as [->|Hne]; [cbn in *; lia|].
    pose proof (Hmax _ _ (Hc Hne) ltac:(done)) as Hle. rewrite length_fmap in Hle. lia. }
  exists m, st', G'. split_and!; try done. rewrite Hg, Hlen, take_ge by (by rewrite length_fmap). done.
Qed.

(** Paths that were cached before keep their indices. *)
Lemma path_keeps G L st last toks e idx P kv :
  cache_wf cfg G L st → G !! last = Some (TInt <$> toks, idx) → compat (W:=hview (heap st)) (r:=root_node st) last e →
  (P ≤ length toks)%nat → (ps | P)%nat →
  (P ≠ 0%nat → cached cfg G st e (TInt <$> take P toks) (take P kv)) → take P idx = take P kv.
Proof.
  intros Hinv Hg Hc HP Hd Hcd. destruct (decide (P = 0%nat)) as [->|HP0]; [done|].
  assert (last ≠ root_node st) as Hr.
  { intros ->. destruct (wf_root (ci_wf Hinv)) as (? & _ & X & _). rewrite Hg in X. injection X as X _.
    apply (f_equal length) in X. rewrite length_fmap in X. cbn in X. lia. }
  pose proof (node_cached cfg G L _ st last _ e Hinv Hg Hc Hr) as Hn. cbn [fst snd] in Hn.
  eapply (cached_prefix cfg _ _ _ _ _ (TInt <$> take P toks)) in Hn.
  - rewrite length_fmap, length_take_le in Hn by done.
    eapply (Cached_functional (ci_wf Hinv)); [exact Hn|by apply Hcd].
  - rewrite fmap_take. apply prefix_take.
  - by rewrite length_fmap, length_take_le.
Qed.

Lemma prefix_take_mono {T} (l : list T) i j : (i ≤ j)%nat → take i l `prefix_of` take j l.
Proof. intros Hij. rewrite <-(Nat.min_l i j Hij), <-take_take. apply prefix_take. Qed.

(** The slots that a request finds for its whole pages: those the tree had for the
    first [n] tokens, then its own. *)
Definition stored (n a : nat) (I kv : list Z) : list Z := I ++ drop n (take a kv).

(** Storing the whole pages, freeing from position [o] on what was stored before,
    looking them up. *)
Record stored_as (G : ghost) (L : gmultiset nat) s req (toks kv : list Z) (P : nat) (pgs : list Z) (G2 : ghost) (n : nat) (I : list Z) (m : MatchResult) (t2 : cache A) : Prop := {
  st_bound : (P ≤ n ≤ length kv / ps * ps)%nat ∧ (ps | n)%nat;
  st_old : length I = n ∧ take P I = take P kv;
  st_cached : n ≠ 0%nat → cached cfg G (tree s) (Req.extra_key req) (TInt <$> take n toks) I;
  st_max : ∀ k J, (k ≤ length kv / ps * ps)%nat → cached cfg G (tree s) (Req.extra_key req) (TInt <$> take k toks) J → (k ≤ n)%nat;
  st_idx : device_indices m = stored n (length kv / ps * ps) I kv;
  st_wf : cache_wf cfg G2 L t2;
  st_owns : owns cfg G2 t2;
  st_apart : apart G2 t2 (drop (length kv / ps) pgs);
  st_limit : kv_limit (allocator t2) = kv_limit (allocator (tree s));
  st_held : kv_held (allocator t2) ≡ₚ drop (P / ps) (take (n / ps) pgs) ++ kv_held (allocator (tree s));
  st_node : G2 !! last_device_node m = Some (TInt <$> take (length kv / ps * ps) toks, device_indices m);
  st_compat : compat (W:=hview (heap t2)) (r:=root_node t2) (last_device_node m) (Req.extra_key req);
  st_accounted : accounted cfg G2 t2 ≡ₚ drop (P / ps) (take (length kv / ps) pgs) ++ accounted cfg G (tree s)
}.

Lemma store_and_match G L s req toks kv P last pgs i row :
  running G L s req toks kv P last pgs i row →
  let a := (length kv / ps * ps)%nat in
  let o := length (Req.prefix_indices req) in
  let key_ := mkKey (TInt <$> take a toks) (Req.extra_key req) in
  ∃ n t s1 m t2 G2 I, insert clock hash cfg (tree s) key_ (Some (take a kv)) = Ok (n, t) ∧
    free_slots (mkState t (req_pool s)) (drop o (take n kv)) = Ok s1 ∧ req_pool s1 = req_pool s ∧
    match_prefix clock hash cfg (tree s1) key_ = Ok (m, t2) ∧ stored_as G L s req toks kv P pgs G2 n I m t2.
Proof.
  intros [Hinv Hown Hho Hidx Hi Hrow Hkv Ho Hlast] a o key_. pose proof (wf_page (ci_wf Hinv)) as Hps.
  destruct (held_a Hinv Hho) as (Ha & Had & HPa & _). fold a in Ha, Had, HPa. fold o in Ho.
  assert (length kv / ps = a / ps)%nat as Eps by (unfold a; by rewrite Nat.div_mul).
  pose proof (held_apart Hho) as Hap.
  destruct (held_insert clock hash Hen Heagle Hinv Hown Hho)
    as (n & t & G' & I & Heq & Hinv' & Hown' & Hins & Hn & Hnd & Hsl & Hacc).
  fold a in Heq, Hins, Hn, Hsl, Hacc.
  pose proof (held_new_pages Hinv Hho n Hn Hnd) as Hpg. fold a in Hpg.
  rewrite (held_own_cut (kv:=kv) (pgs:=pgs) n Hn) in Hap. fold a in Hap.
  assert (apart G' t (drop (P / ps) (take (n / ps) pgs) ++ drop (a / ps) pgs)) as Hap'.
  { eapply (apart_insert G (tree s) G' t (drop (n / ps) (take (a / ps) pgs)));
      [|apply (is_alloc _ _ _ _ _ _ _ _ _ _ Hins)|exact Hsl|exact Hpg].
    eapply apart_perm; [|exact Hap]. solve_Permutation. }
  destruct (apart_free G' t (drop (P / ps) (take (n / ps) pgs)) (drop (a / ps) pgs) (drop o (take n kv)) Hown' Hap')
    as (a1 & Hf & Hown1 & Hap1 & Hacc1 & Hlim1 & Hheld1).
  { apply (held_nodup Hinv Hho). lia. }
  { by apply (held_mid_pages Hinv Hho). }
  assert (length (take a toks) = a) as Hla by (rewrite length_take_le; [done|]; pose proof (ho_toks Hho); lia).
  pose proof (is_len _ _ _ _ _ _ _ _ _ _ Hins) as HI.
  assert (length (stored n a I kv) = a) as Hls by (unfold stored; rewrite length_app, length_drop, length_take; lia).
  assert (take a toks ≠ [] → cached cfg G' t (Req.extra_key req) (TInt <$> take a toks) (stored n a I kv)) as Hst.
  { intros Hne. apply (is_cached _ _ _ _ _ _ _ _ _ _ Hins). right. split_and!; try done.
    - by intros E%fmap_nil_inv.
    - by rewrite length_fmap, Hla.
    - rewrite length_fmap, Hla. symmetry. apply take_ge. unfold stored in *. lia. }
  destruct (match_stored G' L (set_alloc t a1) (Req.extra_key req) (take a toks) (stored n a I kv))
    as (m & t2 & G2 & Hm & Hinv2 & Hrf & Hlen & Hg & Hc); [by apply set_alloc_wf|by rewrite Hla|exact Hst|].
  destruct (owns_perm cfg G' (set_alloc t a1) G2 t2 (rf_alloc Hrf) (rf_slots Hrf) (rf_whole Hrf (ow_whole Hown1)) Hown1)
    as [Hown2 Hacc2].
  assert (device_indices m = stored n a I kv) as Hidxs.
  { rewrite Hla in Hlen. assert (take a (device_indices m) = take a (stored n a I kv)) as Etk; [|by rewrite !take_ge in Etk by lia].
    eapply (path_keeps G2 L t2 (last_device_node m) (take a toks) (Req.extra_key req)); [done|exact Hg|done|by rewrite Hla|done|].
    intros Ha0. rewrite take_take, Nat.min_id, (take_ge (stored n a I kv)) by lia. apply (rf_cached Hrf), Hst. by rewrite <-length_zero_iff_nil, Hla. }
  exists n, t, (mkState (set_alloc t a1) (req_pool s)), m, t2, G2, I. unfold free_slots. cbn [tree req_pool].
  rewrite Hf. cbn [res_bind]. split_and!; [done..|]. constructor; fold a; rewrite ?Eps; try done.
  - split; [done|]. destruct (decide (P = 0%nat)) as [->|HP0]; [done|].
    assert (n ≠ 0%nat) as Hn0 by lia. pose proof (is_old _ _ _ _ _ _ _ _ _ _ Hins Hn0) as HcI.
    apply (cached_prefix cfg _ _ _ _ _ (TInt <$> take P toks)) in HcI.
    + rewrite length_fmap, length_take_le in HcI by (pose proof (ho_toks Hho); pose proof (ho_P Hho); lia).
      eapply (Cached_functional (ci_wf Hinv)); [exact HcI|]. by apply (held_cached Hinv Hho).
    + rewrite <-fmap_take, take_take, Nat.min_l by lia. rewrite !fmap_take. apply prefix_take_mono. lia.
    + rewrite length_fmap, length_take_le by (pose proof (ho_toks Hho); pose proof (ho_P Hho); lia). apply (ho_aligned Hho).
  - intros Hn0. pose proof (is_old _ _ _ _ _ _ _ _ _ _ Hins Hn0) as HcI.
    rewrite <-fmap_take, take_take, Nat.min_l in HcI by lia. exact HcI.
  - intros k J Hk HJ. pose proof (is_max _ _ _ _ _ _ _ _ _ _ Hins _ _ HJ) as Hmax.
    rewrite length_fmap, length_take_le in Hmax by (pose proof (ho_toks Hho); lia). apply Hmax.
    rewrite !fmap_take. apply prefix_take_mono. lia.
  - destruct Hap1 as [Hn1 Ha1]. split; [done|]. rewrite (rf_alloc Hrf). intros p Hp.
    destruct (Ha1 p Hp) as (? & ? & Hno). split_and!; [lia|lia|done|]. intros x Hx. apply Hno.
    unfold tree_slots in *. by rewrite <-(rf_slots Hrf).
  - rewrite (rf_alloc Hrf). cbn [set_alloc allocator]. rewrite Hlim1. by rewrite (is_alloc _ _ _ _ _ _ _ _ _ _ Hins).
  - rewrite (rf_alloc Hrf). cbn [set_alloc allocator]. by rewrite Hheld1, (is_alloc _ _ _ _ _ _ _ _ _ _ Hins).
  - rewrite Hacc2, Hacc1, Hacc, Hpg.
    assert (P / ps ≤ n / ps ≤ a / ps)%nat as Hdiv by (split; apply Nat.Div0.div_le_mono; lia).
    rewrite (list_cut3 (take (a / ps) pgs) (P / ps) (n / ps) (a / ps) Hdiv), !take_take.
    rewrite (drop_ge (take (a / ps) pgs) (a / ps)) by (rewrite length_take; lia).
    rewrite Nat.min_l, Nat.min_id by lia. solve_Permutation.
Qed.

(** Writing the indices found from position [o] on into the request's row. *)
Lemma row_rewrite p i row kv a o idx : 0 ≤ i →
  ReqToTokenPool.req_to_token p !! Z.to_nat i = Some row → kv = take (length kv) row →
  (a ≤ length kv)%nat → (o ≤ length kv)%nat → length idx = a → Forall (λ z, - 2 ^ 31 ≤ z < 2 ^ 31) idx →
  ∃ p' row', ReqToTokenPool.write p i (Z.of_nat o) (Z.of_nat a) (drop o idx) = Ok p' ∧
    ReqToTokenPool.req_to_token p' !! Z.to_nat i = Some row' ∧
    take (length kv) row' = take o kv ++ drop o idx ++ drop (Nat.max o a) kv.
Proof.
  intros Hi Hrow Hkv Ha Ho Hlen H32.
  assert (length kv ≤ length row)%nat as Hle by (rewrite Hkv, length_take; lia).
  assert (length (drop o idx) = Nat.max o a - o)%nat as Hld by (rewrite length_drop; lia).
  exists (ReqToTokenPool.set_rows p (<[Z.to_nat i := take o row ++ drop o idx ++ drop (Nat.max o a) row]> (ReqToTokenPool.req_to_token p))).
  exists (take o row ++ drop o idx ++ drop (Nat.max o a) row). split_and!.
  - assert (ReqToTokenPool.write p i (Z.of_nat o) (Z.of_nat a) (drop o idx) =
      ReqToTokenPool.write p i (Z.of_nat o) (Z.of_nat (Nat.max o a)) (drop o idx)) as ->.
    { unfold ReqToTokenPool.write. rewrite row_pos_ok by (apply lookup_lt_Some in Hrow; unfold len; lia). cbn [res_bind].
      rewrite Hrow. cbn [of_opt res_bind]. unfold py_set_slice.
      assert (Z.max (slice_bound (len row) (Z.of_nat o)) (slice_bound (len row) (Z.of_nat a)) =
        Z.max (slice_bound (len row) (Z.of_nat o)) (slice_bound (len row) (Z.of_nat (Nat.max o a)))) as ->; [|done].
      unfold slice_bound, len. case_bools; lia. }
    rewrite (write_ok p i row); [by rewrite !Nat2Z.id|done|done|lia|unfold len; lia|unfold len; lia|by apply Forall_drop].
  - cbn. rewrite list_lookup_insert_eq; [done|]. by apply lookup_lt_Some in Hrow.
  - rewrite !take_app, Hld, length_take_le, (take_ge (drop o idx)) by lia.
    assert (take (length kv) (take o row) = take o kv) as ->.
    { assert (take o kv = take o (take (length kv) row)) as -> by (by rewrite <-Hkv). by rewrite !take_take, Nat.min_comm. }
    do 2 f_equal. replace (length kv - o - (Nat.max o a - o))%nat with (length kv - Nat.max o a)%nat by lia.
    assert (drop (Nat.max o a) kv = drop (Nat.max o a) (take (length kv) row)) as -> by (by rewrite <-Hkv).
    by rewrite skipn_firstn_comm.
Qed.

(** What [cache_unfinished_req] does for a running request. *)
Lemma unfinished_eq G L s req kv P last pgs i row :
  running G L s req (Req.fill_ids req) kv P last pgs i row → length kv = length (Req.fill_ids req) →
  let a := (length kv / ps * ps)%nat in
  let o := length (Req.prefix_indices req) in
  let key_ := mkKey (TInt <$> take a (Req.fill_ids req)) (Req.extra_key req) in
  cache_unfinished_req clock hash cfg s req =
    let! '(n, t) := insert clock hash cfg (tree s) key_ (Some (take a kv)) in
    let! s := free_slots (mkState t (req_pool s)) (drop o (take n kv)) in
    let! '(m, t) := match_prefix clock hash cfg (tree s) key_ in
    let idx := device_indices m in
    let! p := ReqToTokenPool.write (req_pool s) i (Z.of_nat o) (len idx) (drop o idx) in
    let! s := (let! s := dec_node cfg (mkState t p) (Some last) in inc_node cfg s (Some (last_device_node m))) in
    let! kv' := req_row s req (len kv) in
    let pre := if decide (ps = 1%nat) then idx else idx ++ drop (length idx) kv' in
    Ok (Req.set_last_node (Req.set_prefix_indices (Req.set_last_matched_prefix_len req (len idx)) pre)
          (Some (last_device_node m)), s).
Proof.
  intros [Hinv Hown Hho Hidx Hi Hrow Hkv Ho Hlast] Hlen a o key_. pose proof (wf_page (ci_wf Hinv)) as Hps.
  unfold cache_unfinished_req. rewrite Hen, Heagle, Hidx. cbn [of_opt res_bind].
  assert (len (Req.fill_ids req) = len kv) as -> by (unfold len; by rewrite Hlen).
  assert (req_row s req (len kv) = Ok kv) as ->.
  { unfold req_row. rewrite Hidx. cbn [of_opt res_bind]. rewrite (row_ok _ _ _ Hi Hrow). cbn [res_bind]. f_equal.
    unfold len. rewrite py_upto_nat. by symmetry. }
  cbn [res_bind]. rewrite page_aligned_kv_eq by done.
  assert (page_aligned cfg (len kv) = Z.of_nat a) as -> by (by apply page_aligned_eq).
  rewrite py_upto_nat. fold a key_.
  assert (old_prefix_len cfg req = Z.of_nat o) as -> by (unfold old_prefix_len, len; by rewrite Heagle).
  destruct (insert _ _ _ _ _ _) as [[n t]|]; cbn [res_bind]; [|done]. rewrite py_slice_nat.
  destruct (free_slots _ _) as [s1|]; cbn [res_bind]; [|done].
  destruct (match_prefix _ _ _ _ _) as [[m t2]|]; cbn [res_bind]; [|done]. rewrite py_from_nat.
  destruct (ReqToTokenPool.write _ _ _ _ _) as [p|]; cbn [res_bind]; [|done].
  change (Req.last_node (Req.set_last_matched_prefix_len req _)) with (Req.last_node req). rewrite Hlast.
  destruct (dec_node _ _ _) as [s2|]; cbn [res_bind]; [|done]. destruct (inc_node _ _ _) as [s3|]; cbn [res_bind]; [|done].
  change (req_row s3 (Req.set_last_matched_prefix_len req _)) with (req_row s3 req).
  destruct (req_row _ _ _); cbn [res_bind]; [|done]. unfold len at 2. by rewrite py_from_nat.
Qed.

(** The request and the state after [cache_unfinished_req]: [n] tokens were in the tree
    before, in the slots [I]; the row keeps the old slots up to the length [o] of the
    old [prefix_indices]. *)
Record carried_on G L s req kv P last pgs i (n : nat) (I : list Z) req' s' (G' : ghost) (last' : nat) (pgs' row' : list Z) : Prop := {
  co_bound : (P ≤ n ≤ length kv / ps * ps)%nat ∧ (ps | n)%nat;
  co_old : length I = n ∧ take P I = take P kv;
  co_cached : n ≠ 0%nat → cached cfg G (tree s) (Req.extra_key req) (TInt <$> take n (Req.fill_ids req)) I;
  co_max : ∀ k J, (k ≤ length kv / ps * ps)%nat →
    cached cfg G (tree s) (Req.extra_key req) (TInt <$> take k (Req.fill_ids req)) J → (k ≤ n)%nat;
  co_wf : cache_wf cfg G' (L ∖ {[+ last +]} ⊎ {[+ last' +]}) (tree s');
  co_owns : owns cfg G' (tree s');
  co_holds : holds G' (L ∖ {[+ last +]} ⊎ {[+ last' +]}) (tree s') (Req.extra_key req) (Req.fill_ids req)
    (stored n (length kv / ps * ps) I kv ++ drop (length kv / ps * ps) kv) (length kv / ps * ps) last' pgs';
  co_req : Req.fill_ids req' = Req.fill_ids req ∧ Req.extra_key req' = Req.extra_key req ∧
    Req.req_pool_idx req' = Some i ∧ Req.last_node req' = Some last';
  co_prefix : Req.prefix_indices req' = stored n (length kv / ps * ps) I kv ++ drop (length kv / ps * ps) kv;
  co_row : ReqToTokenPool.req_to_token (req_pool s') !! Z.to_nat i = Some row';
  co_kv : let o := length (Req.prefix_indices req) in
    take (length kv) row' = take o kv ++ drop o (stored n (length kv / ps * ps) I kv) ++ drop (Nat.max o (length kv / ps * ps)) kv;
  co_pages : drop (length kv / ps) pgs' = drop (length kv / ps) pgs;
  co_held : kv_held (allocator (tree s')) ≡ₚ drop (P / ps) (take (n / ps) pgs) ++ kv_held (allocator (tree s));
  co_accounted : accounted cfg G' (tree s') ≡ₚ drop (P / ps) (take (length kv / ps) pgs) ++ accounted cfg G (tree s)
}.

Lemma unfinished_result G L s req kv P last pgs i row
    (Hrun : running G L s req (Req.fill_ids req) kv P last pgs i row)
    (Hlen : length kv = length (Req.fill_ids req)) (Hpre : (length (Req.prefix_indices req) ≤ length kv)%nat)
    (Hint32 : (kv_limit (allocator (tree s)) + 1) * Z.of_nat ps ≤ 2 ^ 31) :
  ∃ n I req' s' G' last' pgs' row',
    cache_unfinished_req clock hash cfg s req = Ok (req', s') ∧
    carried_on G L s req kv P last pgs i n I req' s' G' last' pgs' row'.
Proof.
  pose proof Hrun as [Hinv Hown Hho Hidx Hi Hrow Hkv Ho Hlast]. pose proof (wf_page (ci_wf Hinv)) as Hps.
  destruct (held_a Hinv Hho) as (Ha & Had & HPa & Hal). set (a := (length kv / ps * ps)%nat) in *.
  set (o := length (Req.prefix_indices req)) in *.
  destruct (store_and_match G L s req _ kv P last pgs i row Hrun) as (n & t & s1 & m & t2 & G2 & I & Hins & Hfree & Hp1 & Hm & Hst).
  fold a o in Hins, Hfree, Hm. pose proof Hst as [Hb HI HcI Hmax Hidxs Hinv2 Hown2 Hap2 Hlim2 Hheld2 Hg2 Hc2 Hacc2]. fold a in Hb, Hmax, Hidxs, Hg2.
  assert (length (device_indices m) = a) as Hli.
  { rewrite Hidxs. unfold stored. rewrite length_app, length_drop, length_take. lia. }
  assert (length kv / ps = a / ps)%nat as Eps by (unfold a; by rewrite Nat.div_mul).
  assert (Forall (λ z, - 2 ^ 31 ≤ z < 2 ^ 31) (device_indices m)) as H32.
  { apply Forall_forall. intros x Hx. destruct (path_slots G2 L _ t2 _ _ Hinv2 Hown2 Hg2) as (_ & _ & Hts).
    pose proof (ow_pages Hown2) as Hpg. rewrite Forall_forall in Hpg. destruct (Hpg x (Hts x Hx)) as [Hx1 _].
    rewrite Hlim2 in Hx1. pose proof (Z.div_mod x (Z.of_nat ps)). pose proof (Z.mod_pos_bound x (Z.of_nat ps)). nia. }
  destruct (row_rewrite (req_pool s) i row kv a o (device_indices m) Hi Hrow Hkv) as (p & row' & Hw & Hrow' & Hkv'); try done.
  destruct (move_lock G2 L (mkState t2 p) (drop (length kv / ps) pgs) last (last_device_node m) Hinv2 Hown2 Hap2 (ho_lock Hho))
    as (s' & Hmv & Hp' & Hinv' & Hown' & Hap' & Hacc' & Hr' & Hc' & Hal'); [by rewrite Hg2|].
  rewrite Eps in Hap'.
  destruct (held_again G L (tree s) (Req.extra_key req) _ kv P last pgs G2
    (L ∖ {[+ last +]} ⊎ {[+ last_device_node m +]}) (tree s') (device_indices m) (last_device_node m) Hho)
    as (pgs' & Hho' & Hpgs'); try done.
  { rewrite Hr'. by apply Hc'. }
  { apply gmultiset_elem_of_disj_union. right. by apply gmultiset_elem_of_singleton. }
  fold a in Hho', Hpgs'.
  assert (drop a (take (length kv) row') = drop a kv) as Htail.
  { rewrite Hkv'. destruct (decide (o ≤ a)%nat).
    - rewrite Nat.max_r, app_assoc by done. apply drop_app_length'. rewrite length_app, length_take, length_drop. lia.
    - by rewrite Nat.max_l, (drop_ge (device_indices m)), app_nil_l, take_drop by lia. }
  assert (req_row s' req (len kv) = Ok (take (length kv) row')) as Hrr.
  { unfold req_row. rewrite Hidx, Hp'. cbn [of_opt res_bind req_pool]. rewrite (row_ok _ _ _ Hi Hrow'). cbn [res_bind]. f_equal.
    unfold len. by rewrite py_upto_nat. }
  rewrite (unfinished_eq G L s req kv P last pgs i row Hrun Hlen). fold a o.
  rewrite Hins. cbn [res_bind]. rewrite Hfree. cbn [res_bind]. rewrite Hm. cbn [res_bind].
  assert (len (device_indices m) = Z.of_nat a) as Hlz by (unfold len; by rewrite Hli). rewrite Hlz, Hp1, Hw.
  cbn [res_bind]. rewrite Hmv. cbn [res_bind]. rewrite Hrr. cbn [res_bind]. rewrite Hli, Htail.
  exists n, I. do 2 eexists. exists G2, (last_device_node m), pgs', row'. split; [reflexivity|].
  match goal with |- context [if decide (ps = 1%nat) then ?x else ?y] =>
    assert ((if decide (ps = 1%nat) then x else y) = x ++ drop a kv) as -> end.
  { case_decide as E; [|done]. rewrite (drop_ge kv), app_nil_r; [done|]. lia. }
  constructor; fold a o; rewrite <-?Hidxs, ?Eps; try done.
  - by rewrite Hp'.
  - by rewrite Hal'.
  - by rewrite Hacc', <-Eps.
Qed.

(** A shorter whole-page prefix is cached with the shorter slots. *)
Lemma cached_take G st e toks n k I : cached cfg G st e (TInt <$> take n toks) I → (k ≤ n)%nat → (n ≤ length toks)%nat →
  (ps | k)%nat → cached cfg G st e (TInt <$> take k toks) (take k I).
Proof.
  intros Hc Hk Hn Hd. apply (cached_prefix cfg _ _ _ _ _ (TInt <$> take k toks)) in Hc.
  - by rewrite length_fmap, length_take_le in Hc by lia.
  - rewrite !fmap_take. by apply prefix_take_mono.
  - by rewrite length_fmap, length_take_le by lia.
Qed.

(** C10. A request that goes on: [cache_unfinished_req] succeeds; it moves the
    whole pages of the request's own into the tree (or frees them where the tree
    already has them), exchanges its lock for one on the node of those pages,
    and leaves the request running on the slots the tree has for them followed
    by the rest of its own, in its row of the request table as in its
    [prefix_indices].  This holds when [prefix_indices] is the part [P] that the
    request shares with the tree, and also when it goes on into the next page, as
    long as nobody else has cached that page ([unaligned_prefix_goes_stale] is the
    other case). *)
Theorem unfinished_req_keeps_running G L s req kv P last pgs i row
    (Hrun : running G L s req (Req.fill_ids req) kv P last pgs i row)
    (Hlen : length kv = length (Req.fill_ids req)) (Hpre : (length (Req.prefix_indices req) ≤ length kv)%nat)
    (Hnext : length (Req.prefix_indices req) = P ∨
       ∀ J, ¬ cached cfg G (tree s) (Req.extra_key req) (TInt <$> take (P + ps) (Req.fill_ids req)) J)
    (Hint32 : (kv_limit (allocator (tree s)) + 1) * Z.of_nat ps ≤ 2 ^ 31) :
  let a := (length kv / ps * ps)%nat in
  ∃ req' s' G' last' idx pgs' row',
    cache_unfinished_req clock hash cfg s req = Ok (req', s') ∧ length idx = a ∧
    running G' (L ∖ {[+ last +]} ⊎ {[+ last' +]}) s' req' (Req.fill_ids req) (idx ++ drop a kv) a last' pgs' i row' ∧
    Req.prefix_indices req' = idx ++ drop a kv ∧ take P idx = take P kv ∧
    drop (a / ps) pgs' = drop (a / ps) pgs ∧
    accounted cfg G' (tree s') ≡ₚ drop (P / ps) (take (a / ps) pgs) ++ accounted cfg G (tree s).
Proof.
  intros a. pose proof Hrun as [Hinv Hown Hho Hidx Hi Hrow Hkv Ho Hlast]. pose proof (wf_page (ci_wf Hinv)) as Hps.
  destruct (held_a Hinv Hho) as (Ha & Had & HPa & Hal). fold a in Ha, Had, HPa, Hal.
  assert (length kv / ps = a / ps)%nat as Eps by (unfold a; by rewrite Nat.div_mul).
  destruct (unfinished_result G L s req kv P last pgs i row Hrun Hlen Hpre Hint32) as
    (n & I & req' & s' & G' & last' & pgs' & row' & Heq &
     [[Hn Hnd] [HI HPI] HcI Hmax Hwf' Hown' Hho' (Hf' & He' & Hi' & Hl') Hpre' Hrow' Hkv' Hpg' _ Hacc']).
  fold a in Hn, Hmax, Hho', Hpre', Hkv'. set (idx := stored n a I kv) in *. set (o := length (Req.prefix_indices req)) in *.
  assert (length idx = a) as Hli by (unfold idx, stored; rewrite length_app, length_drop, length_take; lia).
  assert (take P idx = take P kv) as HPidx by (unfold idx, stored; rewrite take_app_le by lia; done).
  assert (take (length kv) row' = idx ++ drop a kv) as Hfinal.
  { rewrite Hkv'. destruct Hnext as [Hop|Hno].
    - rewrite Nat.max_r by lia. rewrite Hop, <-HPidx, app_assoc. by rewrite take_drop.
    - assert (n = P) as ->.
      { destruct (decide (n = P)) as [|Hne]; [done|]. exfalso.
        pose proof (divide_lt_add ps P n Hps (ho_aligned Hho) Hnd ltac:(lia)) as Hlt.
        apply (Hno (take (P + ps) I)). apply (cached_take G (tree s) _ (Req.fill_ids req) n); [apply HcI; lia|lia|lia|].
        apply Nat.divide_add_r; [apply (ho_aligned Hho)|done]. }
      assert (idx = take a kv) as Eidx.
      { unfold idx, stored. rewrite <-(take_ge I P), HPI by lia. rewrite <-(take_drop P (take a kv)) at 2.
        by rewrite take_take, Nat.min_l. }
      rewrite Eidx, take_drop. destruct (decide (o ≤ a)%nat).
      + rewrite Nat.max_r by done. rewrite app_assoc. rewrite <-(take_drop a kv) at 4. f_equal.
        rewrite <-(take_drop o (take a kv)) at 2. by rewrite take_take, Nat.min_l.
      + by rewrite Nat.max_l, (drop_ge (take a kv)), app_nil_l, take_drop by (rewrite ?length_take; lia). }
  assert (length (idx ++ drop a kv) = length kv) as Hlk by (rewrite length_app, length_drop; lia).
  exists req', s', G', last', idx, pgs', row'. split_and!; try done.
  - constructor; try done; [by rewrite He'|by rewrite Hlk|rewrite Hpre', Hlk; lia].
  - by rewrite <-!Eps.
  - by rewrite <-Eps.
Qed.

(** C11. An unaligned prefix goes stale: when [prefix_indices] goes on into the page behind
    the shared part (as it does after a chunk that did not end with a page) and another
    request has cached that page meanwhile, [cache_unfinished_req] frees the request's copy
    of the page but rewrites the row of the request table only from the end of
    [prefix_indices] on: the row keeps slots of the freed page, while [prefix_indices] has
    those of the tree. *)
Theorem unaligned_prefix_goes_stale G L s req kv P last pgs i row J
    (Hrun : running G L s req (Req.fill_ids req) kv P last pgs i row)
    (Hlen : length kv = length (Req.fill_ids req))
    (Hpre : (P < length (Req.prefix_indices req))%nat) (Hpage : (P + ps ≤ length kv)%nat)
    (Hnext : cached cfg G (tree s) (Req.extra_key req) (TInt <$> take (P + ps) (Req.fill_ids req)) J)
    (Hint32 : (kv_limit (allocator (tree s)) + 1) * Z.of_nat ps ≤ 2 ^ 31) :
  let o := length (Req.prefix_indices req) in
  ∃ req' s' row', cache_unfinished_req clock hash cfg s req = Ok (req', s') ∧
    ReqToTokenPool.req_to_token (req_pool s') !! Z.to_nat i = Some row' ∧ take o row' = take o kv ∧
    Forall (λ x, x / Z.of_nat ps ∈ kv_held (allocator (tree s'))) (drop P (take o kv)) ∧
    take (P + ps) (Req.prefix_indices req') = J.
Proof.
  intros o. pose proof Hrun as [Hinv Hown Hho Hidx Hi Hrow Hkv Ho Hlast]. pose proof (wf_page (ci_wf Hinv)) as Hps.
  destruct (held_a Hinv Hho) as (Ha & Had & HPa & Hal). fold o in Ho, Hpre.
  destruct (unfinished_result G L s req kv P last pgs i row Hrun Hlen ltac:(fold o; lia) Hint32) as
    (n & I & req' & s' & G' & last' & pgs' & row' & Heq &
     [[Hn Hnd] [HI HPI] HcI Hmax _ _ _ _ Hpre' Hrow' Hkv' _ Hheld _]). fold o in Hkv'.
  set (a := (length kv / ps * ps)%nat) in *. pose proof (ho_aligned Hho) as HPd.
  assert (ps | P + ps)%nat as HPps by (by apply Nat.divide_add_r).
  assert (P + ps ≤ a)%nat as HPpa.
  { destruct HPps as [b Hb]. rewrite Hb in *. apply Nat.mul_le_mono_r, Nat.div_le_lower_bound; lia. }
  pose proof (Hmax _ _ HPpa Hnext) as Hpn.
  exists req', s', row'. split; [done|]. split; [done|]. split; [|split].
  - rewrite <-(Nat.min_l o (length kv)), <-take_take, Hkv', Nat.min_l by lia. rewrite take_app_le by (rewrite length_take; lia).
    by rewrite take_take, Nat.min_id.
  - apply Forall_forall. intros x Hx. rewrite Hheld, elem_of_app. left.
    assert (x ∈ drop P (take (P + ps) kv)) as Hx'.
    { rewrite skipn_firstn_comm in Hx |- *. eapply elem_of_prefix; [exact Hx|]. apply prefix_take_mono. lia. }
    pose proof (held_fresh (P:=P) Hinv Hho P (P + ps) (le_n _) Hpage) as Hf. rewrite Forall_forall in Hf.
    destruct (Hf x Hx') as [Hin _]. rewrite (held_div Hinv _ HPps), skipn_firstn_comm in Hin.
    rewrite skipn_firstn_comm. eapply elem_of_prefix; [exact Hin|]. apply prefix_take_mono.
    pose proof (Nat.Div0.div_le_mono (P + ps) n ps Hpn). lia.
  - rewrite Hpre'. unfold stored. rewrite <-app_assoc, take_app_le by lia.
    eapply (Cached_functional (ci_wf Hinv)); [|exact Hnext].
    apply (cached_take G (tree s) _ (Req.fill_ids req) n); [apply HcI; lia|lia|lia|done].
Qed.
End req_spec.

(** ** A concrete run

    An empty tree, and a request with the tokens 1, 2, 3 in the slots 5, 6, 7. *)
Lemma root_held {A} cfg G L (st : cache A) : cache_wf cfg G L st → cache_wf cfg G (L ⊎ {[+ root_node st +]}) st.
Proof.
  intros [Hwf [Hl Hr Hc] He Hp]. constructor; try done. constructor; try done.
  - intros n [Hn|Hn%gmultiset_elem_of_singleton]%gmultiset_elem_of_disj_union; [by apply Hl|subst n].
    destruct (wf_root Hwf) as (? & _ & -> & _). eauto.
  - intros n v Hg Hn Hv. rewrite multiplicity_disj_union, multiplicity_singleton_ne, Nat.add_0_r by done. by apply Hc.
Qed.

Module ReqDemo.
Definition table : ReqToTokenPool.t := ReqToTokenPool.mk 2 4 [[5; 6; 7; 0]; [0; 0; 0; 0]] [1].
Definition state : radix_state Base.t := mkState Demo.empty table.
Definition req : Req.t :=
  Req.set_fill_ids (Req.set_kv_committed_len (Req.set_last_node (Req.set_req_pool_idx demo_req (Some 0)) (Some 0%nat)) 3)
    [1; 2; 3].

Lemma running_ok : running Demo.cfg (root_ghost 0) ({[+ 0%nat +]}) state req [1; 2; 3] [5; 6; 7] 0 0 [5; 6; 7] 0 [5; 6; 7; 0].
Proof.
  constructor; try done; [|apply Demo.empty_owns| |cbn; lia].
  - pose proof (root_held _ _ _ _ Demo.empty_wf) as Hw. by rewrite (left_id_L ∅ (⊎)) in Hw.
  - constructor; try done; [by_decide|cbn; lia|apply Nat.divide_0_r|by left| |].
    + by apply gmultiset_elem_of_singleton.
    + assert (Forall (λ p, 1 ≤ p ≤ 8 ∧ p ∉ [1; 2; 3; 4; 8]) [5; 6; 7]) as Hf by by_decide.
      intros p Hp. rewrite Forall_forall in Hf. destruct (Hf p Hp) as [Hp1 Hp2]. split; [exact Hp1|]. split; [exact Hp2|].
      assert (tree_slots (root_ghost 0) (tree state) = []) as -> by reflexivity. intros x []%not_elem_of_nil.
Qed.
End ReqDemo.

(** Pages of two slots.  The tree has the tokens 1, 2 in page 1; a request with the
    tokens 1, 2, 3, 4 has computed the first of them in the pages 2 and 3. *)
Module StaleDemo.
Definition cfg : config := mkConfig 2 false false false LRU.
Definition pool : PagedAlloc.t := PagedAlloc.mk (Base.mk 8 2 false [4] [] true []) 4 false 1.
Definition empty : cache PagedAlloc.t := reset Z.of_nat cfg (mkCache ∅ 0 0 0 0 0 [] pool).
Definition full : cache PagedAlloc.t :=
  match insert Z.of_nat Demo.no_hash cfg empty (Demo.k [1; 2]) (Some [2; 3]) with Ok (_, st) => st | Err _ => empty end.
Definition state : radix_state PagedAlloc.t := mkState full (ReqToTokenPool.mk 1 4 [[4; 5; 6; 7]] []).
Definition req : Req.t :=
  Req.set_prefix_indices (Req.set_fill_ids (Req.set_last_node (Req.set_req_pool_idx demo_req (Some 0)) (Some 0%nat)) [1; 2; 3; 4]) [4].

Lemma stale_running : ∃ G, running cfg G ({[+ 0%nat +]}) state req [1; 2; 3; 4] [4; 5; 6; 7] 0 0 [2; 3] 0 [4; 5; 6; 7] ∧
  cached cfg G full None (TInt <$> [1; 2]) [2; 3].
Proof.
  assert (cache_wf cfg (root_ghost 0) ∅ empty) as Hempty.
  { apply (reset_wf Z.of_nat cfg (mkCache ∅ 0 0 0 0 0 [] pool)); [done|]. intros n [x Hx]. done. }
  assert (owns cfg (root_ghost 0) empty) as Howns.
  { apply (reset_owns Z.of_nat cfg (mkCache ∅ 0 0 0 0 0 [] pool)); [|done]. split; [split; [done|]|done]. by_decide. }
  destruct (insert_spec Z.of_nat Demo.no_hash cfg (root_ghost 0) ∅ empty (Demo.k [1; 2]) [2; 3])
    as (n & st' & G & I & Heq & Hinv & Hins); [done|done|by exists 1%nat|done|].
  assert (full = st') as E by (unfold full; by rewrite Heq). rewrite <-E in *.
  pose proof (is_old _ _ _ _ _ _ _ _ _ _ Hins) as Hold.
  assert (n = 0%nat) as ->.
  { destruct n; [done|]. exfalso. apply (reset_cached Z.of_nat cfg (mkCache ∅ 0 0 0 0 0 [] pool) _ _ _ (Hold ltac:(done))). }
  pose proof (is_len _ _ _ _ _ _ _ _ _ _ Hins) as HI. apply nil_length_inv in HI. subst I.
  pose proof (is_slots _ _ _ _ _ _ _ _ _ _ Hins) as Hsl.
  assert (slots_of (hview (heap empty)) (dom (root_ghost 0)) = []) as E0 by reflexivity. rewrite E0, app_nil_r in Hsl. cbn in Hsl.
  assert (owns cfg G full) as Hown.
  { refine (proj1 (owns_insert cfg (root_ghost 0) empty _ _ _ _ _ _ _ _ Howns Hins _ _ _)); [done| | |].
    - exists [1]. reflexivity.
    - assert (tree_slots (root_ghost 0) empty = []) as -> by reflexivity. by_decide.
    - by_decide. }
  exists G. split.
  - constructor; try done; [| |cbn; lia].
    + pose proof (root_held _ _ _ _ Hinv) as Hw. by rewrite (left_id_L ∅ (⊎)) in Hw.
    + constructor; try done; [by_decide|cbn; lia|apply Nat.divide_0_r| |by left| |].
      * destruct (wf_root (ci_wf Hinv)) as (? & _ & X & _). exact X.
      * by apply gmultiset_elem_of_singleton.
      * assert (Forall (λ p, 1 ≤ p ≤ 4 ∧ p ∉ [4] ∧ p ≠ 1) [2; 3]) as Hf by by_decide.
        intros p Hp. rewrite Forall_forall in Hf. destruct (Hf p Hp) as (Hp1 & Hp2 & Hp3). split; [exact Hp1|]. split; [exact Hp2|].
        intros x. unfold tree_slots. rewrite Hsl. intros Hx. assert (x = 2 ∨ x = 3) as [->| ->] by set_solver; by intros <-.
  - apply (is_cached _ _ _ _ _ _ _ _ _ _ Hins). right. split_and!; try done.
Qed.
End StaleDemo.

Lemma unaligned_prefix_goes_stale_witness : ∃ req' s' row',
  cache_unfinished_req Z.of_nat Demo.no_hash StaleDemo.cfg StaleDemo.state StaleDemo.req = Ok (req', s') ∧
  ReqToTokenPool.req_to_token (req_pool s') !! 0%nat = Some row' ∧ take 1 row' = [4] ∧
  Forall (λ x, x / 2 ∈ kv_held (allocator (tree s'))) [4] ∧ take 2 (Req.prefix_indices req') = [2; 3].
Proof.
  destruct StaleDemo.stale_running as (G & Hrun & Hc).
  exact (unaligned_prefix_goes_stale Z.of_nat Demo.no_hash StaleDemo.cfg eq_refl eq_refl G ({[+ 0%nat +]}) StaleDemo.state StaleDemo.req
    [4; 5; 6; 7] 0 0 [2; 3] 0 [4; 5; 6; 7] [2; 3] Hrun eq_refl ltac:(cbn; lia) ltac:(cbn; lia) Hc ltac:(vm_compute; discriminate)).
Defined.

Lemma finished_req_returns_slots_witness : ∃ s' G',
  cache_finished_req Z.of_nat Demo.no_hash Demo.cfg None ReqDemo.state ReqDemo.req true =
    Ok (Req.set_kv_committed_freed ReqDemo.req true, s') ∧
  accounted Demo.cfg G' (tree s') ≡ₚ [5; 6; 7] ++ accounted Demo.cfg (root_ghost 0) Demo.empty ∧
  req_pool s' = ReqToTokenPool.free1 ReqDemo.table 0.
Proof.
  destruct (finished_req_returns_slots Z.of_nat Demo.no_hash Demo.cfg None eq_refl eq_refl (root_ghost 0) ({[+ 0%nat +]})
    ReqDemo.state ReqDemo.req true [5; 6; 7] 0 0 [5; 6; 7] 0 [5; 6; 7; 0] ReqDemo.running_ok (or_introl eq_refl)
    eq_refl eq_refl) as (s' & G' & H1 & _ & _ & H2 & H3 & _).
  exists s', G'. exact (conj H1 (conj H2 H3)).
Defined.

Lemma unfinished_req_keeps_running_witness : ∃ req' s' idx,
  cache_unfinished_req Z.of_nat Demo.no_hash Demo.cfg ReqDemo.state ReqDemo.req = Ok (req', s') ∧ length idx = 3%nat ∧
  Req.prefix_indices req' = idx ++ [].
Proof.
  destruct (unfinished_req_keeps_running Z.of_nat Demo.no_hash Demo.cfg eq_refl eq_refl (root_ghost 0) ({[+ 0%nat +]})
    ReqDemo.state ReqDemo.req [5; 6; 7] 0 0 [5; 6; 7] 0 [5; 6; 7; 0] ReqDemo.running_ok eq_refl
    ltac:(cbn; lia) (or_introl eq_refl) ltac:(vm_compute; discriminate)) as (req' & s' & G' & last' & idx & pgs' & row' & H1 & H2 & _ & H3 & _).
  exists req', s', idx. exact (conj H1 (conj H2 H3)).
Defined.

(** ** The radix cache as a prefix cache *)
Definition radix_inv {A} `{KVPool A} (cfg : config) (s : radix_state A) : Prop :=
  ∃ G L, cache_wf cfg G L (tree s) ∧ owns cfg G (tree s).

Lemma length_bigrams l : (length (bigrams l) ≤ length l)%nat.
Proof. induction l as [|a [|b l] IH]; cbn in *; lia. Qed.
Lemma length_key_convert cfg l : (length (key_convert_fn cfg l) ≤ length l)%nat.
Proof.
  unfold key_convert_fn, _convert_to_bigram_key. destruct (is_eagle cfg); [|done].
  case_match; [cbn; lia|]. destruct l as [|[]]; try done. apply length_bigrams.
Qed.

Lemma radix_match_law {A} `{KVPool A} clock hash cfg topk (s : radix_state A) k :
  disable cfg = false → radix_inv cfg s →
  ∃ m s', pc_match_prefix (PrefixCache:=radix_prefix_cache clock hash cfg topk) s k = Ok (m, s') ∧
    radix_inv cfg s' ∧ len (mr_device_indices m) ≤ len (token_ids k).
Proof.
  intros Hen (G & L & Hinv & Hown). pose proof (wf_page (ci_wf Hinv)) as Hps. cbn.
  destruct (match_prefix_spec clock hash cfg G L (tree s) k Hinv Hen) as (m & t & G' & -> & Hinv' & Hrf & Hk & _).
  cbn [res_bind]. do 2 eexists. split; [reflexivity|]. split.
  - exists G', L. split; [done|]. by destruct (owns_perm cfg G (tree s) G' t (rf_alloc Hrf) (rf_slots Hrf)
      (rf_whole Hrf (ow_whole Hown)) Hown).
  - cbn. etrans; [apply inj_le, Hk|]. unfold lookup_tokens, len. rewrite length_aligned by done.
    apply inj_le. etrans; [|apply (length_key_convert cfg)].
    pose proof (Nat.div_mod_eq (length (key_convert_fn cfg (token_ids k))) (page_size cfg)). lia.
Qed.

#[export] Instance radix_laws {A} `{KVPool A} clock hash cfg topk (Hen : disable cfg = false) :
    @PrefixCacheLaws (radix_state A) (radix_prefix_cache clock hash cfg topk) :=
  @Build_PrefixCacheLaws _ (radix_prefix_cache clock hash cfg topk) (radix_inv cfg)
    (λ s k, radix_match_law clock hash cfg topk s k Hen).

Lemma next_round_extends_witness : ∃ r' c',
  init_next_round_input (H:=radix_prefix_cache Z.of_nat Demo.no_hash Demo.cfg None) ReqDemo.req (Some ReqDemo.state) =
    Ok (r', Some c') ∧ 1 ≤ Req.extend_input_len r'.
Proof.
  destruct (next_round_extends (H:=radix_prefix_cache Z.of_nat Demo.no_hash Demo.cfg None)
    (PrefixCacheLaws0:=radix_laws Z.of_nat Demo.no_hash Demo.cfg None eq_refl) ReqDemo.req ReqDemo.state)
    as (r' & c' & H1 & _ & H2 & _ & _ & H3 & _).
  - exists (root_ghost 0), ∅. exact (conj Demo.empty_wf Demo.empty_owns).
  - discriminate.
  - exists r', c'. split; [exact H1|]. apply H3. rewrite H2. discriminate.
Defined.
