(* ===== verification/ChunkCache.v ===== *)
(** * The cache without a tree ([mem_cache/chunk_cache.py])

    With the radix cache disabled, requests keep all their slots to themselves.
    [ChunkCache] frees them at the end; [SWAChunkCache] also frees, during the
    run, the sliding-window copies of the positions an attention chunk has left
    behind. *)

From S2P Require Import Prelude KVAllocator ReqPool Request RadixTree PrefixCache RequestSpec.

Record chunk_cache (A : Type) := mkChunk {
  ck_pool : ReqToTokenPool.t;
  ck_alloc : A;
  ck_page_size : Z;
  ck_protected : Z
}.
Arguments mkChunk {A}.
Arguments ck_pool {A}.
Arguments ck_alloc {A}.
Arguments ck_page_size {A}.
Arguments ck_protected {A}.

Module ChunkCache.
Section chunk.
(** [free] is the method of the allocator. *)
Context {A : Type} (free : A → list Z → res A) (speculative_eagle_topk : option Z).
Implicit Types (c : chunk_cache A) (req : Req.t).

Definition init (pool : ReqToTokenPool.t) (a : A) (page_size : Z) : chunk_cache A := mkChunk pool a page_size 0.

(** [req_to_token[req.req_pool_idx, a:b]]. *)
Definition row_slice c req (a b : Z) : res (list Z) :=
  let! i := of_opt TypeError (Req.req_pool_idx req) in
  let! row := ReqToTokenPool.row (ck_pool c) i in
  Ok (py_slice row a b).

Definition match_prefix c : match_result := mkResult [] None.

Definition cache_finished_req c req : res (Req.t * chunk_cache A) :=
  let! '(kv_committed_len, req) := pop_committed_kv_cache speculative_eagle_topk req in
  let! kv_indices := row_slice c req 0 kv_committed_len in
  let! i := of_opt TypeError (Req.req_pool_idx req) in
  let pool := ReqToTokenPool.free1 (ck_pool c) i in
  let! a := free (ck_alloc c) kv_indices in
  Ok (req, mkChunk pool a (ck_page_size c) (ck_protected c - len (Req.prefix_indices req))).

Definition cache_unfinished_req c req : res (Req.t * chunk_cache A) :=
  let! kv_indices := row_slice c req 0 (len (Req.fill_ids req)) in
  let c := mkChunk (ck_pool c) (ck_alloc c) (ck_page_size c)
             (ck_protected c + (len kv_indices - len (Req.prefix_indices req))) in
  Ok (Req.set_prefix_indices req kv_indices, c).

#[export] Instance chunk_prefix_cache : PrefixCache (chunk_cache A) := {|
  pc_disable _ := true;
  pc_page_size := ck_page_size;
  pc_match_prefix c _ := Ok (match_prefix c, c);
  pc_cache_finished_req c req _ := cache_finished_req c req;
  pc_cache_unfinished_req := cache_unfinished_req;
  pc_evict c _ := Ok c;
  pc_inc_lock_ref c _ := Ok (0, c);
  pc_dec_lock_ref c _ := Ok (0, c);
  pc_evictable_size _ := 0;
  pc_protected_size := ck_protected
|}.

#[export, refine] Instance chunk_laws : PrefixCacheLaws (chunk_cache A) := {| pc_inv _ := True |}.
Proof. intros c k _. do 2 eexists. split; [reflexivity|]. split; [done|]. cbn. apply len_nonneg. Defined.
End chunk.
End ChunkCache.

Module SWAChunkCache.
Definition evict_swa (c : chunk_cache SWAAlloc.t) (req : Req.t) (prelen attention_chunk_size : Z) :
    res (Req.t * chunk_cache SWAAlloc.t) :=
  if Req.evicted_seqlen_local req + attention_chunk_size <=? prelen then
    let new_evicted_seqlen_local := attention_chunk_size * (prelen / attention_chunk_size) in
    let! free_slots := ChunkCache.row_slice c req (Req.evicted_seqlen_local req) new_evicted_seqlen_local in
    let! a := SWAAlloc.free_swa (ck_alloc c) free_slots in
    Ok (Req.set_evicted_seqlen_local req new_evicted_seqlen_local,
        mkChunk (ck_pool c) a (ck_page_size c) (ck_protected c))
  else Ok (req, c).
End SWAChunkCache.

(** ** Facts *)
Section chunk_facts.
Context {A : Type} (free : A → list Z → res A) (topk : option Z).
Implicit Types (c : chunk_cache A) (req : Req.t).

(** The chunks of a request: each lengthens [fill_ids] and is cached. *)
Fixpoint run_chunks c req (chunks : list (list Z)) : res (Req.t * chunk_cache A) :=
  match chunks with
  | [] => Ok (req, c)
  | f :: chunks =>
      let! '(req, c) := ChunkCache.cache_unfinished_req c (Req.set_fill_ids req f) in run_chunks c req chunks
  end.

(** What [cache_unfinished_req] leaves alone. *)
Record same_base req c req' c' : Prop := {
  sb_idx : Req.req_pool_idx req' = Req.req_pool_idx req;
  sb_len : Req.kv_committed_len req' = Req.kv_committed_len req;
  sb_freed : Req.kv_committed_freed req' = Req.kv_committed_freed req;
  sb_pool : ck_pool c' = ck_pool c;
  sb_alloc : ck_alloc c' = ck_alloc c;
  sb_page : ck_page_size c' = ck_page_size c
}.

Lemma same_base_trans r1 c1 r2 c2 r3 c3 : same_base r1 c1 r2 c2 → same_base r2 c2 r3 c3 → same_base r1 c1 r3 c3.
Proof. intros [] []. constructor; congruence. Qed.

Lemma row_slice_ok c req i row a b : Req.req_pool_idx req = Some i → 0 ≤ i →
  ReqToTokenPool.req_to_token (ck_pool c) !! Z.to_nat i = Some row →
  ChunkCache.row_slice c req a b = Ok (py_slice row a b).
Proof. intros Hi Hp Hr. unfold ChunkCache.row_slice. rewrite Hi. cbn. by rewrite (row_ok _ _ _ Hp Hr). Qed.

Lemma py_slice_0 {T} (l : list T) n : py_slice l 0 n = py_upto l n.
Proof. unfold py_slice, slice_bound. cbn. rewrite Z.min_l by apply len_nonneg. done. Qed.

Lemma run_chunks_ok chunks : ∀ c req i row, Req.req_pool_idx req = Some i → 0 ≤ i →
  ReqToTokenPool.req_to_token (ck_pool c) !! Z.to_nat i = Some row →
  ∃ req' c', run_chunks c req chunks = Ok (req', c') ∧ same_base req c req' c' ∧
    ck_protected c' - len (Req.prefix_indices req') = ck_protected c - len (Req.prefix_indices req) ∧
    Req.prefix_indices req' =
      match last chunks with Some f => py_upto row (len f) | None => Req.prefix_indices req end.
Proof.
  induction chunks as [|f chunks IH]; intros c req i row Hidx Hi Hrow; cbn [run_chunks].
  { exists req, c. split_and!; done. }
  unfold ChunkCache.cache_unfinished_req.
  rewrite (row_slice_ok c (Req.set_fill_ids req f) i row) by done. cbn [res_bind].
  set (req1 := Req.set_prefix_indices _ _). set (c1 := mkChunk _ _ _ _).
  destruct (IH c1 req1 i row Hidx Hi Hrow) as (req' & c' & -> & Hsb & Hp & Hpre).
  exists req', c'. split; [done|]. split; [|split].
  - eapply same_base_trans; [|exact Hsb]. done.
  - rewrite Hp. unfold c1, req1. cbn [ck_protected].
    change (Req.prefix_indices (Req.set_prefix_indices ?a ?b)) with b.
    change (Req.prefix_indices (Req.set_fill_ids req f)) with (Req.prefix_indices req). lia.
  - rewrite Hpre. destruct chunks as [|g chunks]; [cbn; by rewrite py_slice_0|].
    rewrite last_cons_cons. destruct (last (g :: chunks)) eqn:E; [done|]. by apply last_None in E.
Qed.

(** C25. Chunked prefill without a tree: however a request is cut into chunks, its
    [prefix_indices] are a copy of the row up to the last chunk's end, and when
    it finishes its committed slots go back to the allocator in one piece, its
    row becomes free and [protected_size] is what it was before the request. *)
Theorem chunked_request_balanced c req chunks i row a'
    (Hidx : Req.req_pool_idx req = Some i) (Hi : 0 ≤ i)
    (Hrow : ReqToTokenPool.req_to_token (ck_pool c) !! Z.to_nat i = Some row)
    (Hpre : Req.prefix_indices req = []) (Hfreed : Req.kv_committed_freed req = false)
    (Htopk : topk = None ∨ topk = Some 1)
    (Hfree : free (ck_alloc c) (py_upto row (Req.kv_committed_len req)) = Ok a') :
  ∃ req1 c1 req2 c2, run_chunks c req chunks = Ok (req1, c1) ∧
    Req.prefix_indices req1 = match last chunks with Some f => py_upto row (len f) | None => [] end ∧
    ChunkCache.cache_finished_req free topk c1 req1 = Ok (req2, c2) ∧
    c2 = mkChunk (ReqToTokenPool.free1 (ck_pool c) i) a' (ck_page_size c) (ck_protected c).
Proof.
  destruct (run_chunks_ok chunks c req i row Hidx Hi Hrow) as (req1 & c1 & Hrun & [E1 E2 E3 E4 E5 E6] & Hp & Hpi).
  rewrite Hpre in Hp, Hpi. exists req1, c1.
  assert (pop_committed_kv_cache topk req1 =
    Ok (Req.kv_committed_len req, Req.set_kv_committed_freed req1 true)) as Hpop.
  { unfold pop_committed_kv_cache. rewrite E3, Hfreed, E2. by destruct Htopk as [-> | ->]. }
  eexists _, _. split; [done|]. split; [done|]. unfold ChunkCache.cache_finished_req. rewrite Hpop. cbn [res_bind].
  rewrite (row_slice_ok c1 _ i row); [|cbn; congruence|done|by rewrite E4]. cbn [res_bind].
  change (Req.req_pool_idx (Req.set_kv_committed_freed req1 true)) with (Req.req_pool_idx req1).
  rewrite E1, Hidx. cbn [of_opt res_bind]. rewrite py_slice_0, E5, Hfree. cbn [res_bind].
  split; [reflexivity|]. rewrite E4, E6. f_equal.
  change (Req.prefix_indices (Req.set_kv_committed_freed req1 true)) with (Req.prefix_indices req1).
  rewrite len_nil in Hp. lia.
Qed.
End chunk_facts.

Lemma chunked_request_balanced_witness :
  let req := Req.set_kv_committed_len (Req.set_req_pool_idx demo_req (Some 0)) 3 in
  let c := mkChunk (ReqToTokenPool.mk 1 4 [[5; 6; 7; 0]] []) (TokenAlloc.init 8 false) 1 0 in
  ∃ req1 c1 req2 c2, run_chunks c req [[1; 2]; [1; 2; 3]] = Ok (req1, c1) ∧
    Req.prefix_indices req1 = [5; 6; 7] ∧
    ChunkCache.cache_finished_req (λ a idx, Ok (TokenAlloc.free a idx)) None c1 req1 = Ok (req2, c2) ∧
    c2 = mkChunk (ReqToTokenPool.mk 1 4 [[5; 6; 7; 0]] [0]) (TokenAlloc.free (TokenAlloc.init 8 false) [5; 6; 7]) 1 0.
Proof.
  intros req c.
  exact (chunked_request_balanced (λ a idx, Ok (TokenAlloc.free a idx)) None c req [[1; 2]; [1; 2; 3]] 0 [5; 6; 7; 0]
    (TokenAlloc.free (TokenAlloc.init 8 false) [5; 6; 7]) eq_refl ltac:(lia) eq_refl eq_refl eq_refl
    (or_introl eq_refl) eq_refl).
Defined.

(** ** Sliding windows *)

(** Window eviction: when [evict_swa] succeeds, the freed length is a whole
    number of attention chunks behind the current position (the chunk of the
    position itself stays), it never moves back, nothing else of the request
    changes, and repeating the call at the same length frees nothing more. *)
Theorem evict_swa_window c req prelen chunk req' c'
    (Hc : 0 < chunk) (Hinv : 0 ≤ Req.evicted_seqlen_local req ≤ prelen)
    (Hal : (chunk | Req.evicted_seqlen_local req))
    (Heq : SWAChunkCache.evict_swa c req prelen chunk = Ok (req', c')) :
  let e := Req.evicted_seqlen_local req' in
  req' = Req.set_evicted_seqlen_local req e ∧
  Req.evicted_seqlen_local req ≤ e ≤ prelen ∧ prelen < e + chunk ∧ (chunk | e) ∧ ck_pool c' = ck_pool c ∧
  SWAChunkCache.evict_swa c' req' prelen chunk = Ok (req', c').
Proof.
  unfold SWAChunkCache.evict_swa in Heq |- *. destruct Hal as [k Hk].
  pose proof (Z.div_mod prelen chunk ltac:(lia)). pose proof (Z.mod_pos_bound prelen chunk Hc).
  destruct (Z.leb_spec (Req.evicted_seqlen_local req + chunk) prelen).
  - apply res_bind_ok in Heq as (fs & Hfs & Heq). apply res_bind_ok in Heq as (a & Ha & [= <- <-]).
    assert (Req.evicted_seqlen_local (Req.set_evicted_seqlen_local req (chunk * (prelen / chunk))) =
      chunk * (prelen / chunk)) as E by done. rewrite !E. split; [done|]. split; [nia|]. split; [lia|].
    split; [by exists (prelen / chunk); lia|]. split; [done|].
    rewrite (proj2 (Z.leb_gt _ _)) by lia. done.
  - injection Heq as <- <-. split; [destruct req as [? []]; done|]. split; [lia|]. split; [lia|].
    split; [by exists k|]. split; [done|]. rewrite (proj2 (Z.leb_gt _ _)) by lia. done.
Qed.

Lemma evict_swa_window_witness :
  let req := Req.set_req_pool_idx demo_req (Some 0) in
  let swa := SWAAlloc.mk (TokenAlloc.init 8 false) (Base.mk 8 1 false [] [] true []) [0; 1; 2; 3; 4; 5; 6; 7; 8] true [] in
  let c := mkChunk (ReqToTokenPool.mk 1 8 [[1; 2; 3; 4; 5; 6; 7; 8]] []) swa 1 0 in
  ∃ req' c', SWAChunkCache.evict_swa c req 5 2 = Ok (req', c') ∧ Req.evicted_seqlen_local req' = 4 ∧
    SWAChunkCache.evict_swa c' req' 5 2 = Ok (req', c').
Proof.
  intros req swa c. do 2 eexists. split; [vm_compute; reflexivity|]. split; [reflexivity|].
  exact (proj2 (proj2 (proj2 (proj2 (proj2 (evict_swa_window c req 5 2 _ _ ltac:(lia)
    ltac:(split; vm_compute; discriminate) ltac:(by exists 0) eq_refl)))))).
Defined.
