(* ===== verification/CacheCommon.v ===== *)
(** * Allocation for a batch ([mem_cache/common.py])

    The scheduler gets the slots of a batch through these functions: they evict
    from the prefix cache when the allocator is short, allocate, and write the
    slots into the request table.  They are written against [CacheHost], what
    [common.py] uses of a prefix cache, its allocator and its request table. *)

From S2P Require Import Prelude KVAllocator KVAllocatorProofs ReqPool Request RadixTree PrefixCache ChunkCache RadixReq.

(** ** The two Triton kernels and their plain counterparts *)
Section kernels.
Context (masked oob : Z).

(** [tl.cdiv]. *)
Definition cdiv (a b : Z) : Z := (a + b - 1) / b.

(** One block of [BLOCK_SIZE] lanes: [dst[base + offset] = src[offset]] for the
    offsets below [n]; the table holds [int32]. *)
Definition copy_block (src : list Z) (src_base n base BLOCK_SIZE : Z) (dst : list Z) (i : Z) : list Z :=
  let off := i * BLOCK_SIZE in
  tl_store_lanes dst (base + off) BLOCK_SIZE
    (λ o, to_int32 (if off + o <? n then tl_load oob src (src_base + (off + o)) else masked))
    (λ o, off + o <? n).

(** [req_to_token_ptr] is the table in one piece, row after row. *)
Definition write_req_to_token_pool_triton (req_pool_indices : list Z) (prefix_tensors : list (list Z))
    (pre_lens seq_lens extend_lens out_cache_loc : list Z) (req_to_token_ptr_stride : Z)
    (req_to_token_ptr : list Z) (pid : Z) : list Z :=
  let BLOCK_SIZE := 512 in
  let req_pool_index := tl_load oob req_pool_indices pid in
  let pre_len := tl_load oob pre_lens pid in
  let seq_len := tl_load oob seq_lens pid in
  let prefix_tensor := default [] (prefix_tensors !! Z.to_nat pid) in
  let row := req_pool_index * req_to_token_ptr_stride in
  let table := foldl (copy_block prefix_tensor 0 pre_len row BLOCK_SIZE) req_to_token_ptr
                 (py_range 0 (cdiv pre_len BLOCK_SIZE)) in
  let cumsum_start := sum_Z ((λ i, tl_load oob extend_lens i) <$> py_range 0 pid) in
  foldl (copy_block out_cache_loc cumsum_start (seq_len - pre_len) (row + pre_len) BLOCK_SIZE) table
    (py_range 0 (cdiv (seq_len - pre_len) BLOCK_SIZE)).

(** [n] rows of [w] cells out of one piece. *)
Fixpoint rows_of (w n : nat) (flat : list Z) : list (list Z) :=
  match n with 0%nat => [] | S n => take w flat :: rows_of w n (drop w flat) end.

(** The loop of the fallback. *)
Fixpoint write_loop (out_cache_loc : list Z) (pt : Z) (req_pool_indices prefix_lens seq_lens extend_lens : list Z)
    (prefix_tensors : list (list Z)) (p : ReqToTokenPool.t) : res ReqToTokenPool.t :=
  match req_pool_indices, prefix_lens, seq_lens, extend_lens, prefix_tensors with
  | req_idx :: req_pool_indices, prefix_len :: prefix_lens, seq_len :: seq_lens, extend_len :: extend_lens,
    prefix_tensor :: prefix_tensors =>
      let! p := ReqToTokenPool.write p req_idx 0 prefix_len prefix_tensor in
      let! p := ReqToTokenPool.write p req_idx prefix_len seq_len (py_slice out_cache_loc pt (pt + extend_len)) in
      write_loop out_cache_loc (pt + extend_len) req_pool_indices prefix_lens seq_lens extend_lens prefix_tensors p
  | [], _, _, _, _ => Ok p
  | _, _, _, _, _ => Err IndexError
  end.

Definition write_cache_indices (support_triton : bool) (out_cache_loc req_pool_indices prefix_lens seq_lens
    extend_lens : list Z) (prefix_tensors : list (list Z)) (p : ReqToTokenPool.t) : res ReqToTokenPool.t :=
  if support_triton then
    let stride := ReqToTokenPool.max_context_len p in
    let flat := launch (len req_pool_indices)
      (write_req_to_token_pool_triton req_pool_indices prefix_tensors prefix_lens seq_lens extend_lens
         out_cache_loc stride) (mjoin (ReqToTokenPool.req_to_token p)) in
    Ok (ReqToTokenPool.set_rows p
          (rows_of (Z.to_nat stride) (length (ReqToTokenPool.req_to_token p)) flat))
  else write_loop out_cache_loc 0 req_pool_indices prefix_lens seq_lens extend_lens prefix_tensors p.

(** ** The last slot of each prefix *)
Definition get_last_loc_torch (p : ReqToTokenPool.t) (req_pool_indices prefix_lens : list Z) : res (list Z) :=
  let! cells := mapM_res (λ x : Z * Z, ReqToTokenPool.cell p (fst x) (snd x - 1))
                  (zip req_pool_indices prefix_lens) in
  Ok (zip_with (λ n c, if 0 <? n then c else -1) prefix_lens cells).

Definition get_last_loc_kernel (req_to_token req_pool_indices prefix_lens : list Z) (num_tokens stride BLOCK_SIZE : Z)
    (result : list Z) (pid : Z) : list Z :=
  let off := pid * BLOCK_SIZE in
  tl_store_lanes result off BLOCK_SIZE
    (λ o, let prefix_len := if off + o <? num_tokens then tl_load oob prefix_lens (off + o) else 0 in
          let req_pool_index := if off + o <? num_tokens then tl_load oob req_pool_indices (off + o) else 0 in
          if 0 <? prefix_len then tl_load oob req_to_token (req_pool_index * stride + (prefix_len - 1)) else -1)
    (λ o, off + o <? num_tokens).

(** [uninit] is what [torch.empty_like] leaves in the result. *)
Definition get_last_loc_triton (uninit : Z → Z) (p : ReqToTokenPool.t) (req_pool_indices prefix_lens : list Z) : list Z :=
  let BLOCK_SIZE := 256 in
  let num_tokens := len prefix_lens in
  launch (cdiv num_tokens BLOCK_SIZE)
    (get_last_loc_kernel (mjoin (ReqToTokenPool.req_to_token p)) req_pool_indices prefix_lens num_tokens
       (ReqToTokenPool.max_context_len p) BLOCK_SIZE)
    (uninit <$> py_range 0 num_tokens).

Definition get_last_loc (attention_backend : string) (uninit : Z → Z) (p : ReqToTokenPool.t)
    (req_pool_indices prefix_lens : list Z) : res (list Z) :=
  if negb (bool_decide (attention_backend = "ascend"%string)) &&
     negb (bool_decide (attention_backend = "torch_native"%string))
  then Ok (get_last_loc_triton uninit p req_pool_indices prefix_lens)
  else get_last_loc_torch p req_pool_indices prefix_lens.
End kernels.

(** ** Caches with their allocator and request table *)
Class CacheHost (C : Type) := {
  ch_prefix :: PrefixCache C;
  (** [isinstance(tree_cache, (SWAChunkCache, ChunkCache))]. *)
  ch_is_chunk : C → bool;
  (** [evict_swa], of an [SWAChunkCache]. *)
  ch_evict_swa : option (C → Req.t → Z → Z → res (Req.t * C));
  (** The two sizes of a hybrid allocator, and the eviction that goes with it. *)
  ch_hybrid : C → option (Z * Z);
  ch_evict_hybrid : C → Z → Z → res C;
  ch_available_size : C → Z;
  ch_alloc_page_size : C → Z;
  ch_alloc : C → Z → res (option (list Z) * C);
  ch_alloc_extend : C → list Z → list Z → list Z → list Z → list Z → Z → res (option (list Z) * C);
  ch_alloc_decode : C → list Z → list Z → list Z → res (option (list Z) * C);
  ch_free : C → list Z → res C;
  (** [allocator.backup_state()]. *)
  ch_saved : Type;
  ch_backup_state : C → ch_saved;
  ch_pool : C → ReqToTokenPool.t;
  ch_set_pool : C → ReqToTokenPool.t → C;
  (** A [HybridReqToTokenPool]: the free entries of its [mamba_pool], and the
      eviction of a [MambaRadixCache]. *)
  ch_mamba_available : C → option Z;
  ch_evict_mamba : option (C → Z → res C);
  ch_pool_alloc : C → Z → list Req.t → option (list Z) * C
}.

Section common.
Context {C : Type} `{CacheHost C}.
Implicit Types c : C.

Definition evict_from_tree_cache (c : C) (num_tokens : Z) : res C :=
  if ch_is_chunk c then Ok c else
  match ch_hybrid c with
  | Some (full_available_size, swa_available_size) =>
      if (full_available_size <? num_tokens) || (swa_available_size <? num_tokens) then
        ch_evict_hybrid c (Z.max 0 (num_tokens - full_available_size)) (Z.max 0 (num_tokens - swa_available_size))
      else Ok c
  | None => if ch_available_size c <? num_tokens then pc_evict c num_tokens else Ok c
  end.

Definition out_of_memory {T} (x : option (list Z) * T) : res (list Z * T) :=
  match x with (Some out, c) => Ok (out, c) | (None, _) => Err RuntimeError end.

Definition alloc_token_slots c (num_tokens : Z) (backup_state : bool) : res (list Z * option ch_saved * C) :=
  let! c := evict_from_tree_cache c num_tokens in
  let state := if backup_state then Some (ch_backup_state c) else None in
  let! r := ch_alloc c num_tokens in
  let! '(out_cache_loc, c) := out_of_memory r in
  Ok (out_cache_loc, state, c).

Definition alloc_paged_token_slots_extend c (prefix_lens prefix_lens_cpu seq_lens seq_lens_cpu last_loc : list Z)
    (extend_num_tokens : Z) (backup_state : bool) : res (list Z * option ch_saved * C) :=
  let num_tokens := extend_num_tokens + len seq_lens_cpu * ch_alloc_page_size c in
  let! c := evict_from_tree_cache c num_tokens in
  let state := if backup_state then Some (ch_backup_state c) else None in
  let! r := ch_alloc_extend c prefix_lens prefix_lens_cpu seq_lens seq_lens_cpu last_loc extend_num_tokens in
  let! '(out_cache_loc, c) := out_of_memory r in
  Ok (out_cache_loc, state, c).

Definition alloc_paged_token_slots_decode c (seq_lens seq_lens_cpu last_loc : list Z) : res (list Z * C) :=
  let num_tokens := len seq_lens * ch_alloc_page_size c in
  let! c := evict_from_tree_cache c num_tokens in
  let! r := ch_alloc_decode c seq_lens seq_lens_cpu last_loc in
  out_of_memory r.

Definition alloc_req_slots c (num_reqs : Z) (reqs : list Req.t) : res (list Z * C) :=
  let! c :=
    match ch_mamba_available c, ch_evict_mamba with
    | Some mamba_available_size, Some evict_mamba =>
        if mamba_available_size <? num_reqs then evict_mamba c (Z.max 0 (num_reqs - mamba_available_size)) else Ok c
    | _, _ => Ok c
    end in
  out_of_memory (ch_pool_alloc c num_reqs reqs).

(** [for req, pre_len in zip(reqs, prelens): tree_cache.evict_swa(...)]. *)
Fixpoint evict_swa_loop (evict_swa : C → Req.t → Z → Z → res (Req.t * C)) c (reqs : list Req.t) (prelens : list Z)
    (attention_chunk_size : Z) : res (list Req.t * C) :=
  match reqs, prelens with
  | req :: reqs, pre_len :: prelens =>
      let! '(req, c) := evict_swa c req pre_len attention_chunk_size in
      let! '(reqs, c) := evict_swa_loop evict_swa c reqs prelens attention_chunk_size in
      Ok (req :: reqs, c)
  | _, _ => Ok (reqs, c)
  end.

Definition evict_swa_all c (reqs : list Req.t) (prelens : list Z) (attention_chunk_size : Z) : res (list Req.t * C) :=
  match ch_evict_swa with
  | Some evict_swa => evict_swa_loop evict_swa c reqs prelens attention_chunk_size
  | None => Ok (reqs, c)
  end.

(** Writing through the table of a cache. *)
Definition with_pool c (f : ReqToTokenPool.t → res ReqToTokenPool.t) : res C :=
  let! p := f (ch_pool c) in Ok (ch_set_pool c p).

Definition alloc_for_extend (masked oob : Z) (support_triton : bool) c (reqs : list Req.t)
    (prefix_lens extend_lens seq_lens seq_lens_cpu : list Z) (extend_num_tokens attention_chunk_size : Z) :
    res (list Z * list Z * list Req.t * C) :=
  let! '(reqs, c) := evict_swa_all c reqs prefix_lens attention_chunk_size in
  let bs := len reqs in
  let prefix_tensors := Req.prefix_indices <$> reqs in
  let! '(req_pool_indices, c) := alloc_req_slots c bs reqs in
  let! '(out_cache_loc, _, c) :=
    if pc_page_size c =? 1 then alloc_token_slots c extend_num_tokens false
    else
      let last_loc := prefix_tensors ≫= (λ t, if 0 <? len t then py_from t (-1) else [-1]) in
      alloc_paged_token_slots_extend c prefix_lens prefix_lens seq_lens seq_lens_cpu last_loc extend_num_tokens false in
  let! c := with_pool c (write_cache_indices masked oob support_triton out_cache_loc req_pool_indices prefix_lens
              (if support_triton then seq_lens else seq_lens_cpu) extend_lens prefix_tensors) in
  Ok (out_cache_loc, req_pool_indices, reqs, c).

(** [encoder_lens] is given for an encoder-decoder model. *)
Definition alloc_for_decode c (reqs : list Req.t) (req_pool_indices seq_lens seq_lens_cpu : list Z)
    (encoder_lens : option (list Z)) (token_per_req attention_chunk_size : Z) : res (list Z * list Req.t * C) :=
  let! '(reqs, c) := evict_swa_all c reqs ((λ r, seqlen r - 1) <$> reqs) attention_chunk_size in
  let bs := len seq_lens in
  let! '(out_cache_loc, c) :=
    if pc_page_size c =? 1 then
      let! '(out, _, c) := alloc_token_slots c (bs * token_per_req) false in Ok (out, c)
    else
      let! last_loc := mapM_res (λ x : Z * Z, ReqToTokenPool.cell (ch_pool c) (fst x) (snd x - 1))
                         (zip req_pool_indices seq_lens) in
      alloc_paged_token_slots_decode c ((λ s, s + token_per_req) <$> seq_lens)
        ((λ s, s + token_per_req) <$> seq_lens_cpu) last_loc in
  let locs := match encoder_lens with Some e => zip_with Z.add e seq_lens | None => seq_lens end in
  let! c := with_pool c (λ p, ReqToTokenPool.write_cells p req_pool_indices locs (to_int32 <$> out_cache_loc)) in
  Ok (out_cache_loc, reqs, c).

Definition release_kv_cache (page_size : Z) (speculative_algorithm : option string) c (req : Req.t) (is_insert : bool) :
    res (Req.t * C) :=
  let! '(req, c) := pc_cache_finished_req c req is_insert in
  let! '(start_p, end_p, req) := pop_overallocated_kv_cache req in
  let! _ := match speculative_algorithm with None => py_assert (start_p =? end_p) | Some _ => Ok tt end in
  let start_p := if 1 <? page_size then ceil_align start_p page_size else start_p in
  if end_p <=? start_p then Ok (req, c) else
  let! i := of_opt TypeError (Req.req_pool_idx req) in
  let! row := ReqToTokenPool.row (ch_pool c) i in
  let! c := ch_free c (py_slice row start_p end_p) in
  Ok (req, c).
End common.

(** ** The caches as hosts *)
Section hosts.
Context (masked oob : Z) (uninit : Z → Z).
Context (clock : nat → Z) (hash : list token → Z) (cfg : config) (speculative_eagle_topk : option Z).

Definition pool_alloc {C} (get : C → ReqToTokenPool.t) (set : C → ReqToTokenPool.t → C) (c : C) (n : Z)
    (_ : list Req.t) : option (list Z) * C :=
  let '(r, p) := ReqToTokenPool.alloc (get c) n in (r, set c p).

Definition set_req_pool {A} (s : radix_state A) (p : ReqToTokenPool.t) : radix_state A := mkState (tree s) p.
Definition set_tree_alloc {A} (s : radix_state A) (a : A) : radix_state A := mkState (set_alloc (tree s) a) (req_pool s).

(** The radix cache over the token allocator. *)
#[export] Instance radix_token_host : CacheHost (radix_state Base.t) := {|
  ch_prefix := radix_prefix_cache clock hash cfg speculative_eagle_topk;
  ch_is_chunk _ := false;
  ch_evict_swa := None;
  ch_hybrid _ := None;
  ch_evict_hybrid _ _ _ := Err TypeError;
  ch_available_size s := TokenAlloc.available_size (allocator (tree s));
  ch_alloc_page_size s := Base.page_size (allocator (tree s));
  ch_alloc s n := let '(r, a) := TokenAlloc.alloc (allocator (tree s)) n in Ok (r, set_tree_alloc s a);
  ch_alloc_extend _ _ _ _ _ _ _ := Err NotImplementedError;
  ch_alloc_decode _ _ _ _ := Err NotImplementedError;
  ch_free := free_slots;
  ch_saved := list Z * list Z;
  ch_backup_state s := Base.backup_state (allocator (tree s));
  ch_pool := req_pool;
  ch_set_pool := set_req_pool;
  ch_mamba_available _ := None;
  ch_evict_mamba := None;
  ch_pool_alloc := pool_alloc req_pool set_req_pool
|}.

(** The radix cache over the paged allocator. *)
#[export] Instance radix_paged_host : CacheHost (radix_state PagedAlloc.t) := {|
  ch_prefix := radix_prefix_cache clock hash cfg speculative_eagle_topk;
  ch_is_chunk _ := false;
  ch_evict_swa := None;
  ch_hybrid _ := None;
  ch_evict_hybrid _ _ _ := Err TypeError;
  ch_available_size s := Base.available_size (PagedAlloc.base (allocator (tree s)));
  ch_alloc_page_size s := Base.page_size (PagedAlloc.base (allocator (tree s)));
  ch_alloc s n := let! '(r, a) := PagedAlloc.alloc (allocator (tree s)) n in Ok (r, set_tree_alloc s a);
  ch_alloc_extend s pre pre_cpu sl sl_cpu ll n :=
    let! '(r, a) := PagedAlloc.alloc_extend masked oob (allocator (tree s)) uninit pre pre_cpu sl sl_cpu ll n in
    Ok (r, set_tree_alloc s a);
  ch_alloc_decode s sl sl_cpu ll :=
    let! '(r, a) := PagedAlloc.alloc_decode masked oob (allocator (tree s)) uninit sl sl_cpu ll in
    Ok (r, set_tree_alloc s a);
  ch_free := free_slots;
  ch_saved := list Z * list Z;
  ch_backup_state s := Base.backup_state (PagedAlloc.base (allocator (tree s)));
  ch_pool := req_pool;
  ch_set_pool := set_req_pool;
  ch_mamba_available _ := None;
  ch_evict_mamba := None;
  ch_pool_alloc := pool_alloc req_pool set_req_pool
|}.

(** The chunk caches. *)
Definition set_ck_pool {A} (c : chunk_cache A) (p : ReqToTokenPool.t) : chunk_cache A :=
  mkChunk p (ck_alloc c) (ck_page_size c) (ck_protected c).
Definition set_ck_alloc {A} (c : chunk_cache A) (a : A) : chunk_cache A :=
  mkChunk (ck_pool c) a (ck_page_size c) (ck_protected c).

(** The chunk cache over the token allocator. *)
#[export] Instance chunk_token_host : CacheHost (chunk_cache Base.t) := {|
  ch_prefix := ChunkCache.chunk_prefix_cache (λ a idx, Ok (TokenAlloc.free a idx)) speculative_eagle_topk;
  ch_is_chunk _ := true;
  ch_evict_swa := None;
  ch_hybrid _ := None;
  ch_evict_hybrid _ _ _ := Err TypeError;
  ch_available_size c := TokenAlloc.available_size (ck_alloc c);
  ch_alloc_page_size c := Base.page_size (ck_alloc c);
  ch_alloc c n := let '(r, a) := TokenAlloc.alloc (ck_alloc c) n in Ok (r, set_ck_alloc c a);
  ch_alloc_extend _ _ _ _ _ _ _ := Err NotImplementedError;
  ch_alloc_decode _ _ _ _ := Err NotImplementedError;
  ch_free c idx := Ok (set_ck_alloc c (TokenAlloc.free (ck_alloc c) idx));
  ch_saved := list Z * list Z;
  ch_backup_state c := Base.backup_state (ck_alloc c);
  ch_pool := ck_pool;
  ch_set_pool := set_ck_pool;
  ch_mamba_available _ := None;
  ch_evict_mamba := None;
  ch_pool_alloc := pool_alloc ck_pool set_ck_pool
|}.

(** The sliding-window chunk cache. *)
#[export] Instance swa_chunk_host : CacheHost (chunk_cache SWAAlloc.t) := {|
  ch_prefix := ChunkCache.chunk_prefix_cache SWAAlloc.free speculative_eagle_topk;
  ch_is_chunk _ := true;
  ch_evict_swa := Some SWAChunkCache.evict_swa;
  ch_hybrid c := Some (SWAAlloc.full_available_size (ck_alloc c), SWAAlloc.swa_available_size (ck_alloc c));
  ch_evict_hybrid _ _ _ := Err TypeError;
  ch_available_size _ := 0;
  ch_alloc_page_size c := Base.page_size (SWAAlloc.full_attn_allocator (ck_alloc c));
  ch_alloc c n := let! '(r, a) := SWAAlloc.alloc (ck_alloc c) n in Ok (r, set_ck_alloc c a);
  ch_alloc_extend _ _ _ _ _ _ _ := Err NotImplementedError;
  ch_alloc_decode _ _ _ _ := Err NotImplementedError;
  ch_free c idx := let! a := SWAAlloc.free (ck_alloc c) idx in Ok (set_ck_alloc c a);
  ch_saved := (list Z * list Z) * (list Z * list Z);
  ch_backup_state c := SWAAlloc.backup_state (ck_alloc c);
  ch_pool := ck_pool;
  ch_set_pool := set_ck_pool;
  ch_mamba_available _ := None;
  ch_evict_mamba := None;
  ch_pool_alloc := pool_alloc ck_pool set_ck_pool
|}.
End hosts.
