(* ===== verification/CacheWrite.v ===== *)
(** * The request table is written as the plain loop writes it

    The Triton kernels of [mem_cache/common.py] and their fallbacks compute the
    same thing. *)

From S2P Require Import Prelude KVAllocator KVAllocatorProofs ReqPool RadixTree CacheCommon.

(** ** Stores of blocks *)
Lemma tl_store_lanes_ext out base n val val' (mask mask' : Z → bool) :
  (∀ o, 0 ≤ o < n → mask o = mask' o ∧ (mask o = true → val o = val' o)) →
  tl_store_lanes out base n val mask = tl_store_lanes out base n val' mask'.
Proof.
  intros Hf. unfold tl_store_lanes. assert (Forall (λ o, 0 ≤ o < n) (py_range 0 n)) as Hr.
  { apply Forall_forall. intros o. by rewrite elem_of_py_range. }
  revert out. induction Hr as [|o l Ho _ IH]; intros out; [done|]. cbn.
  destruct (Hf o Ho) as [<- Hv]. destruct (mask o); [|done]. cbn. rewrite Hv by done. apply IH.
Qed.

(** A kernel that stores [n] values [f 0], [f 1], ... in blocks of [B] lanes. *)
Section blocks.
Context (B : Z) (HB : 0 < B) (f : Z → Z) (n base : Z) (Hn : 0 ≤ n) (Hbase : 0 ≤ base).
Context (step : list Z → Z → list Z).
Context (Hstep : ∀ dst i, 0 ≤ i → step dst i =
  tl_store_lanes dst (base + i * B) B (λ o, f (i * B + o)) (λ o, i * B + o <? n)).

Lemma block_seg dst i : 0 ≤ i → i * B < n → base + n ≤ len dst →
  step dst i = seg_write dst (Z.to_nat (base + i * B)) (f <$> py_range (i * B) (Z.min n (i * B + B))).
Proof.
  intros Hi Hlt Hd. rewrite Hstep by done. set (m := Z.min B (n - i * B)).
  rewrite (tl_store_lanes_ext _ _ _ _ (λ o, f (i * B + o)) _ (λ o, o <? m)).
  - rewrite store_lanes_seg by (unfold m; nia). f_equal.
    rewrite (py_range_shift (i * B)), <-list_fmap_compose. unfold m.
    replace (Z.min n (i * B + B) - i * B) with (Z.min B (n - i * B)) by lia. done.
  - intros o Ho. split; [|done]. unfold m. case_bools; lia.
Qed.

Lemma blocks_seg (k : nat) dst : base + n ≤ len dst →
  foldl step dst (py_range 0 (Z.of_nat k)) =
  seg_write dst (Z.to_nat base) (f <$> py_range 0 (Z.min n (Z.of_nat k * B))).
Proof.
  intros Hd. induction k as [|k IH].
  { rewrite Z.min_r by lia. cbn. by rewrite seg_write_nil. }
  replace (Z.of_nat (S k)) with (Z.of_nat k + 1) by lia. rewrite py_range_snoc, foldl_app by lia. cbn [foldl].
  rewrite IH. set (m := Z.min n (Z.of_nat k * B)).
  assert (0 ≤ m ≤ n) as Hm by (unfold m; nia).
  assert (length (f <$> py_range 0 m) = Z.to_nat m) as Hlm by (rewrite length_fmap, length_py_range; lia).
  assert (len (seg_write dst (Z.to_nat base) (f <$> py_range 0 m)) = len dst) as Hlen.
  { unfold len in *. rewrite length_seg_write; [done|]. rewrite Hlm. lia. }
  destruct (decide (Z.of_nat k * B < n)) as [Hlt|Hge].
  - rewrite block_seg by (lia || (rewrite Hlen; lia)).
    assert (m = Z.of_nat k * B) as Em by (unfold m; lia).
    replace (Z.to_nat (base + Z.of_nat k * B)) with (Z.to_nat base + length (f <$> py_range 0 m))%nat by lia.
    rewrite seg_write_app, <-fmap_app.
    + rewrite <-Em, <-py_range_split by (unfold m; lia). do 2 f_equal. f_equal. lia.
    + rewrite Hlm, length_fmap, length_py_range. unfold len in Hd. lia.
  - rewrite Hstep by lia. rewrite (tl_store_lanes_ext _ _ _ _ (λ _, 0) _ (λ o, o <? 0)).
    + unfold tl_store_lanes. rewrite foldl_store_skip.
      2: { apply Forall_forall. intros o. rewrite elem_of_py_range. lia. }
      replace (Z.min n ((Z.of_nat k + 1) * B)) with m by (unfold m; nia). done.
    + intros o Ho. split; [case_bools; lia|]. intros E. apply Z.ltb_lt in E. lia.
Qed.

Lemma blocks_all dst : base + n ≤ len dst →
  foldl step dst (py_range 0 (cdiv n B)) = seg_write dst (Z.to_nat base) (f <$> py_range 0 n).
Proof.
  intros Hd. unfold cdiv. pose proof (Z.div_mod (n + B - 1) B). pose proof (Z.mod_pos_bound (n + B - 1) B HB).
  assert (0 ≤ (n + B - 1) / B) by (apply Z.div_pos; lia).
  rewrite <-(Z2Nat.id ((n + B - 1) / B)) by done. rewrite blocks_seg by done. do 3 f_equal. nia.
Qed.
End blocks.

Lemma load_range oob src b n : 0 ≤ b → 0 ≤ n → b + n ≤ len src →
  (λ o, tl_load oob src (b + o)) <$> py_range 0 n = take (Z.to_nat n) (drop (Z.to_nat b) src).
Proof.
  intros Hb Hn Hs. set (l := take _ _).
  assert (len l = n) as Hl by (unfold l, len in *; rewrite length_take, length_drop; lia).
  rewrite <-Hl. apply fmap_py_range_list. intros i x Hx. unfold l in Hx. apply lookup_take_Some in Hx as [Hx Hlt].
  rewrite lookup_drop in Hx. unfold tl_load. case_bools; [lia|].
  replace (Z.to_nat (b + Z.of_nat i)) with (Z.to_nat b + i)%nat by lia. by rewrite Hx.
Qed.

Lemma copy_blocks masked oob src sb n base dst : 0 ≤ sb → 0 ≤ n → 0 ≤ base →
  sb + n ≤ len src → base + n ≤ len dst →
  foldl (copy_block masked oob src sb n base 512) dst (py_range 0 (cdiv n 512)) =
  seg_write dst (Z.to_nat base) (to_int32 <$> take (Z.to_nat n) (drop (Z.to_nat sb) src)).
Proof.
  intros Hsb Hn Hb Hs Hd. rewrite <-(load_range oob) by done. rewrite <-list_fmap_compose.
  apply (blocks_all 512 ltac:(lia) (λ o, to_int32 (tl_load oob src (sb + o))) n base Hn Hb); [|done].
  intros d i Hi. unfold copy_block. apply tl_store_lanes_ext. intros o Ho. split; [done|]. by intros ->.
Qed.

(** ** Rows in one piece *)
Section rows.
Context (w : nat).
Implicit Types rows : list (list Z).

Lemma length_flat rows : Forall (λ r, length r = w) rows → length (mjoin rows) = (length rows * w)%nat.
Proof. induction 1 as [|r rows Hr _ IH]; [done|]. cbn. by rewrite length_app, Hr, <-IH. Qed.

Lemma flat_write rows i r a vs : Forall (λ r, length r = w) rows → rows !! i = Some r →
  (a + length vs ≤ w)%nat →
  mjoin (<[i := seg_write r a vs]> rows) = seg_write (mjoin rows) (i * w + a) vs.
Proof.
  intros Hrows Hi Ha. assert (length r = w) as Hr by (eapply Forall_lookup_1 in Hrows; eauto).
  rewrite <-(take_drop_middle rows i r Hi) at 2.
  rewrite insert_take_drop by eauto using lookup_lt_Some. rewrite !join_app. cbn.
  assert (length (mjoin (take i rows)) = (i * w)%nat) as Hl.
  { rewrite length_flat by (by apply Forall_take). rewrite length_take. apply lookup_lt_Some in Hi. nia. }
  unfold seg_write. rewrite <-Nat.add_assoc, <-Hl, take_app_add, drop_app_add, take_app_le, drop_app_le by lia.
  by rewrite <-!app_assoc.
Qed.

Lemma rows_of_flat rows : Forall (λ r, length r = w) rows → rows_of w (length rows) (mjoin rows) = rows.
Proof.
  induction 1 as [|r rows Hr _ IH]; [done|]. cbn. rewrite take_app_length', drop_app_length' by done. f_equal. exact IH.
Qed.
End rows.

(** ** The rows of a batch *)
Record row_write := mkRow { rw_idx : Z; rw_prefix : list Z; rw_extend : Z }.
Definition rw_seq (x : row_write) : Z := len (rw_prefix x) + rw_extend x.
Definition row_write_ok (p : ReqToTokenPool.t) (x : row_write) : Prop :=
  0 ≤ rw_idx x < len (ReqToTokenPool.req_to_token p) ∧ 0 ≤ rw_extend x ∧
  rw_seq x ≤ ReqToTokenPool.max_context_len p.
(** A table whose rows have the declared length. *)
Definition table_ok (p : ReqToTokenPool.t) : Prop :=
  0 ≤ ReqToTokenPool.max_context_len p ∧
  Forall (λ r, length r = Z.to_nat (ReqToTokenPool.max_context_len p)) (ReqToTokenPool.req_to_token p).

(** The slots a row starts with afterwards. *)
Definition row_slots (out : list Z) (pt : Z) (x : row_write) : list Z :=
  to_int32 <$> rw_prefix x ++ take (Z.to_nat (rw_extend x)) (drop (Z.to_nat pt) out).
Definition write_row (out : list Z) (pt : Z) (x : row_write) (p : ReqToTokenPool.t) : ReqToTokenPool.t :=
  let rows := ReqToTokenPool.req_to_token p in
  let i := Z.to_nat (rw_idx x) in
  ReqToTokenPool.set_rows p (<[i := seg_write (default [] (rows !! i)) 0 (row_slots out pt x)]> rows).
Fixpoint write_rows (out : list Z) (pt : Z) (xs : list row_write) (p : ReqToTokenPool.t) : ReqToTokenPool.t :=
  match xs with [] => p | x :: xs => write_rows out (pt + rw_extend x) xs (write_row out pt x p) end.

Lemma length_row_slots out pt x : 0 ≤ pt → 0 ≤ rw_extend x → pt + rw_extend x ≤ len out →
  length (row_slots out pt x) = Z.to_nat (rw_seq x).
Proof.
  intros. unfold row_slots, rw_seq, len in *. rewrite length_fmap, length_app, length_take, length_drop. lia.
Qed.

Lemma write_row_ok out pt x p : table_ok p → row_write_ok p x → 0 ≤ pt → pt + rw_extend x ≤ len out →
  table_ok (write_row out pt x p) ∧
  len (ReqToTokenPool.req_to_token (write_row out pt x p)) = len (ReqToTokenPool.req_to_token p) ∧
  ReqToTokenPool.max_context_len (write_row out pt x p) = ReqToTokenPool.max_context_len p.
Proof.
  intros [Hw Hrows] (Hi & He & Hs) Hpt Hout. split; [|unfold len; cbn; by rewrite length_insert].
  destruct (lookup_lt_is_Some_2 (ReqToTokenPool.req_to_token p) (Z.to_nat (rw_idx x))) as [r Hr]; [unfold len in Hi; lia|].
  pose proof (Forall_lookup_1 _ _ _ _ Hrows Hr) as Hlr. cbn in Hlr.
  split; [done|]. cbn. rewrite Hr. apply Forall_insert; [done|].
  change (length (seg_write r 0 (row_slots out pt x)) = Z.to_nat (ReqToTokenPool.max_context_len p)).
  rewrite length_seg_write; [done|]. rewrite length_row_slots by done. lia.
Qed.

(** A slice assignment to a row. *)
Lemma write_seg p i r a b v : table_ok p → 0 ≤ i →
  ReqToTokenPool.req_to_token p !! Z.to_nat i = Some r → 0 ≤ a ≤ b → b ≤ ReqToTokenPool.max_context_len p →
  len v = b - a →
  ReqToTokenPool.write p i a b v = Ok (ReqToTokenPool.set_rows p
    (<[Z.to_nat i := seg_write r (Z.to_nat a) (to_int32 <$> v)]> (ReqToTokenPool.req_to_token p))).
Proof.
  intros [Hw Hrows] Hi Hr Hab Hb Hv. pose proof (Forall_lookup_1 _ _ _ _ Hrows Hr) as Hlr. cbn in Hlr.
  unfold ReqToTokenPool.write. rewrite row_pos_ok by (apply lookup_lt_Some in Hr; unfold len; lia). cbn [res_bind].
  rewrite Hr. cbn [of_opt res_bind]. rewrite py_set_slice_ok; [|lia|unfold len; lia|by rewrite len_fmap]. cbn [res_bind].
  unfold seg_write. rewrite length_fmap. do 6 f_equal. unfold len in Hv. lia.
Qed.

(** The fallback loop. *)
Lemma write_loop_rows out xs : ∀ pt p, table_ok p → Forall (row_write_ok p) xs → 0 ≤ pt →
  pt + sum_Z (rw_extend <$> xs) ≤ len out →
  write_loop out pt (rw_idx <$> xs) ((len ∘ rw_prefix) <$> xs) (rw_seq <$> xs) (rw_extend <$> xs) (rw_prefix <$> xs) p =
  Ok (write_rows out pt xs p).
Proof.
  induction xs as [|x xs IH]; intros pt p Hp Hxs Hpt Hout; [done|]. rewrite fmap_cons, sum_Z_cons in Hout.
  inversion Hxs as [|? ? Hx Hxs']; subst. pose proof Hx as (Hi & He & Hs).
  assert (0 ≤ sum_Z (rw_extend <$> xs)) as Hnn.
  { apply sum_Z_nonneg, Forall_fmap. eapply Forall_impl; [exact Hxs'|]. by intros ? (? & ? & ?). }
  destruct (write_row_ok out pt x p Hp Hx Hpt ltac:(lia)) as (Hp' & Hl' & Hm').
  destruct (lookup_lt_is_Some_2 (ReqToTokenPool.req_to_token p) (Z.to_nat (rw_idx x))) as [r Hr]; [unfold len in Hi; lia|].
  pose proof (Forall_lookup_1 _ _ _ _ (proj2 Hp) Hr) as Hlr. cbn in Hlr. pose proof (len_nonneg (rw_prefix x)).
  cbn [write_loop fmap list_fmap compose]. rewrite (write_seg p _ r) by (done || unfold rw_seq in Hs; lia). cbn [res_bind].
  set (r1 := seg_write r _ _). assert (length r1 = length r) as Hr1.
  { apply length_seg_write. rewrite length_fmap. unfold rw_seq, len in *. lia. }
  rewrite (write_seg _ _ r1); [|split; [apply Hp|]|lia| |unfold rw_seq; lia|done| ].
  2: { cbn. apply Forall_insert; [apply Hp|by rewrite Hr1]. }
  2: { cbn. rewrite list_lookup_insert_eq; [done|]. by apply lookup_lt_Some in Hr. }
  2: { rewrite py_slice_drop_take by lia. unfold rw_seq, len in *. rewrite length_drop, length_take. lia. }
  cbn [res_bind ReqToTokenPool.req_to_token ReqToTokenPool.set_rows]. rewrite list_insert_insert_eq.
  assert (seg_write r1 (Z.to_nat (len (rw_prefix x))) (to_int32 <$> py_slice out pt (pt + rw_extend x)) =
    seg_write r 0 (row_slots out pt x)) as ->.
  { unfold r1. assert (Z.to_nat (len (rw_prefix x)) = (0 + length (to_int32 <$> rw_prefix x))%nat) as ->
      by (rewrite length_fmap; unfold len; lia).
    rewrite seg_write_app.
    - unfold row_slots. rewrite fmap_app. do 3 f_equal. rewrite py_slice_drop_take by lia.
      rewrite skipn_firstn_comm. f_equal. lia.
    - rewrite !length_fmap, py_slice_drop_take by lia. rewrite length_drop, length_take. unfold rw_seq, len in *. lia. }
  match goal with |- write_loop _ _ _ _ _ _ _ ?q = _ => assert (q = write_row out pt x p) as -> end.
  { unfold write_row. by rewrite Hr. }
  apply IH; [done| |lia|lia].
  eapply Forall_impl; [exact Hxs'|]. intros y (? & ? & ?). unfold row_write_ok. rewrite Hl', Hm'. done.
Qed.

(** One instance of the kernel. *)
Lemma kernel_row masked oob out l x k p : table_ok p → row_write_ok p x → Forall (λ y, 0 ≤ rw_extend y) l →
  sum_Z (rw_extend <$> l) + rw_extend x ≤ len out →
  let xs := l ++ x :: k in
  write_req_to_token_pool_triton masked oob (rw_idx <$> xs) (rw_prefix <$> xs) ((len ∘ rw_prefix) <$> xs)
    (rw_seq <$> xs) (rw_extend <$> xs) out (ReqToTokenPool.max_context_len p)
    (mjoin (ReqToTokenPool.req_to_token p)) (len l) =
  mjoin (ReqToTokenPool.req_to_token (write_row out (sum_Z (rw_extend <$> l)) x p)).
Proof.
  intros [Hw Hrows] (Hi & He & Hs) Hl Hout xs. unfold write_req_to_token_pool_triton, xs.
  set (w := ReqToTokenPool.max_context_len p) in *. set (rows := ReqToTokenPool.req_to_token p) in *.
  rewrite !fmap_app, !fmap_cons.
  rewrite !tl_load_app by (by rewrite len_fmap). cbn [compose].
  rewrite (list_lookup_middle (rw_prefix <$> l) (rw_prefix <$> k) (rw_prefix x)) by
    (rewrite length_fmap; unfold len; lia). cbn [default].
  assert ((λ i, tl_load oob ((rw_extend <$> l) ++ rw_extend x :: (rw_extend <$> k)) i) <$> py_range 0 (len l) =
    rw_extend <$> l) as ->.
  { rewrite <-(len_fmap rw_extend l). apply fmap_py_range_list. intros i y Hy. unfold tl_load. case_bools; [lia|].
    rewrite Nat2Z.id, lookup_app_l by eauto using lookup_lt_Some. by rewrite Hy. }
  pose proof (len_nonneg (rw_prefix x)) as Hpn. assert (0 ≤ sum_Z (rw_extend <$> l)) as Hsn.
  { apply sum_Z_nonneg. by apply Forall_fmap. }
  destruct (lookup_lt_is_Some_2 rows (Z.to_nat (rw_idx x))) as [r Hr]; [unfold len in Hi; lia|].
  assert (len (mjoin rows) = len rows * w) as Hlf.
  { unfold len. rewrite (length_flat (Z.to_nat w)) by done. lia. }
  unfold rw_seq in *. replace (len (rw_prefix x) + rw_extend x - len (rw_prefix x)) with (rw_extend x) by lia.
  assert (0 ≤ rw_idx x * w ∧ rw_idx x * w + w ≤ len rows * w) as [Hb1 Hb2] by nia.
  rewrite (copy_blocks masked oob (rw_prefix x) 0) by (try rewrite Hlf; lia). change (Z.to_nat 0) with 0%nat. rewrite drop_0, take_ge by (unfold len; lia).
  set (v := to_int32 <$> rw_prefix x).
  assert (length v = length (rw_prefix x)) as Hlv by (unfold v; by rewrite length_fmap).
  rewrite copy_blocks; [|done|done|lia|done|].
  2: { unfold len. rewrite length_seg_write; fold (len (mjoin rows)); unfold len in *; nia. }
  replace (Z.to_nat (rw_idx x * w + len (rw_prefix x))) with (Z.to_nat (rw_idx x * w) + length v)%nat
    by (rewrite Hlv; unfold len in *; nia).
  set (v2 := to_int32 <$> take _ _). assert (length v2 = Z.to_nat (rw_extend x)) as Hl2.
  { unfold v2. rewrite length_fmap, length_take, length_drop. unfold len in *. lia. }
  rewrite seg_write_app by (rewrite Hlv, Hl2; unfold len in *; nia).
  unfold write_row. fold rows. rewrite Hr. cbn [ReqToTokenPool.req_to_token ReqToTokenPool.set_rows default].
  rewrite (flat_write (Z.to_nat w) rows _ r 0 _ Hrows Hr).
  - rewrite Nat.add_0_r, <-Z2Nat.inj_mul by lia. unfold row_slots, v, v2. by rewrite fmap_app.
  - unfold row_slots. rewrite fmap_app, length_app. fold v v2. rewrite Hlv, Hl2. unfold len in *. lia.
Qed.

(** The whole grid. *)
Lemma launch_rows masked oob out k : ∀ l p, table_ok p → Forall (row_write_ok p) k → Forall (λ y, 0 ≤ rw_extend y) l →
  sum_Z (rw_extend <$> l) + sum_Z (rw_extend <$> k) ≤ len out →
  let xs := l ++ k in
  foldl (write_req_to_token_pool_triton masked oob (rw_idx <$> xs) (rw_prefix <$> xs) ((len ∘ rw_prefix) <$> xs)
    (rw_seq <$> xs) (rw_extend <$> xs) out (ReqToTokenPool.max_context_len p))
    (mjoin (ReqToTokenPool.req_to_token p)) (py_range (len l) (len xs)) =
  mjoin (ReqToTokenPool.req_to_token (write_rows out (sum_Z (rw_extend <$> l)) k p)) ∧
  table_ok (write_rows out (sum_Z (rw_extend <$> l)) k p) ∧
  ReqToTokenPool.set_rows p (ReqToTokenPool.req_to_token (write_rows out (sum_Z (rw_extend <$> l)) k p)) =
    write_rows out (sum_Z (rw_extend <$> l)) k p ∧
  length (ReqToTokenPool.req_to_token (write_rows out (sum_Z (rw_extend <$> l)) k p)) =
    length (ReqToTokenPool.req_to_token p).
Proof.
  induction k as [|x k IH]; intros l p Hp Hk Hl Hout xs.
  { unfold xs. rewrite app_nil_r, py_range_nil by lia. cbn. split_and!; try done. by destruct p. }
  inversion Hk as [|? ? Hx Hk']; subst. rewrite fmap_cons, sum_Z_cons in Hout.
  assert (0 ≤ sum_Z (rw_extend <$> k)) as Hkn.
  { apply sum_Z_nonneg, Forall_fmap. eapply Forall_impl; [exact Hk'|]. by intros ? (? & ? & ?). }
  assert (0 ≤ sum_Z (rw_extend <$> l)) as Hsn by (apply sum_Z_nonneg; by apply Forall_fmap).
  pose proof Hx as (_ & He & _). set (pt := sum_Z (rw_extend <$> l)) in *.
  destruct (write_row_ok out pt x p Hp Hx Hsn ltac:(lia)) as (Hp' & Hl' & Hm').
  destruct (IH (l ++ [x]) (write_row out pt x p) Hp') as (H1 & H2 & H3 & H4).
  { eapply Forall_impl; [exact Hk'|]. intros y (? & ? & ?). unfold row_write_ok. by rewrite Hl', Hm'. }
  { apply Forall_app. split; [done|]. by repeat constructor. }
  { rewrite fmap_app, sum_Z_app. cbn. fold pt. lia. }
  assert (sum_Z (rw_extend <$> l ++ [x]) = pt + rw_extend x) as Es.
  { rewrite fmap_app, sum_Z_app. cbn. fold pt. lia. }
  rewrite Es, <-app_assoc in *. cbn [app] in *. cbn [write_rows]. split_and!; [| done | |].
  - unfold xs. rewrite (py_range_split _ (len l + 1)) by (rewrite len_app, len_cons; pose proof (len_nonneg k); lia).
    rewrite py_range_snoc, (py_range_nil (len l) (len l)), foldl_app by lia. cbn [app foldl].
    rewrite (kernel_row masked oob out l x k p Hp Hx Hl ltac:(lia)). fold pt.
    rewrite Hm', len_app in H1. exact H1.
  - rewrite <-H3 at 2. done.
  - rewrite H4. unfold len in Hl'. lia.
Qed.

Lemma write_cache_indices_rows masked oob triton out xs p : table_ok p → Forall (row_write_ok p) xs →
  sum_Z (rw_extend <$> xs) ≤ len out →
  write_cache_indices masked oob triton out (rw_idx <$> xs) ((len ∘ rw_prefix) <$> xs) (rw_seq <$> xs)
    (rw_extend <$> xs) (rw_prefix <$> xs) p = Ok (write_rows out 0 xs p).
Proof.
  intros Hp Hxs Hout. unfold write_cache_indices.
  destruct triton; [|by apply (write_loop_rows out xs 0 p Hp Hxs)].
  destruct (launch_rows masked oob out xs [] p Hp Hxs ltac:(constructor)) as (H1 & H2 & H3 & H4); [cbn; lia|].
  cbn [app fmap list_fmap sum_Z fold_right] in *. unfold launch. rewrite len_fmap.
  change (len []) with 0 in H1. rewrite H1, <-H4, rows_of_flat; [by rewrite H3|].
  rewrite <-H3 in H2 |- *. apply H2.
Qed.

(** Writing the slots of a prefill batch: the Triton kernel and the fallback
    loop leave the same request table, and both succeed, on any batch whose rows
    exist and are long enough. *)
Theorem triton_write_is_loop masked oob out xs p (Hp : table_ok p) (Hxs : Forall (row_write_ok p) xs)
    (Hout : sum_Z (rw_extend <$> xs) ≤ len out) :
  let run b := write_cache_indices masked oob b out (rw_idx <$> xs) ((len ∘ rw_prefix) <$> xs) (rw_seq <$> xs)
                 (rw_extend <$> xs) (rw_prefix <$> xs) p in
  run true = run false ∧ run false = Ok (write_rows out 0 xs p).
Proof. intros run. unfold run. by rewrite !write_cache_indices_rows. Qed.

Definition demo_table : ReqToTokenPool.t := ReqToTokenPool.mk 2 4 [[0; 0; 0; 9]; [0; 0; 0; 9]] [].
Definition demo_rows : list row_write := [mkRow 1 [5] 2; mkRow 0 [] 1].

Lemma triton_write_is_loop_witness :
  write_cache_indices 0 0 true [7; 8; 3] [1; 0] [1; 0] [3; 1] [2; 1] [[5]; []] demo_table =
    Ok (ReqToTokenPool.mk 2 4 [[3; 0; 0; 9]; [5; 7; 8; 9]] []).
Proof.
  assert (table_ok demo_table) as Hp by (split; [vm_compute; discriminate|by_decide]).
  assert (Forall (row_write_ok demo_table) demo_rows) as Hxs.
  { repeat constructor; vm_compute; discriminate. }
  destruct (triton_write_is_loop 0 0 [7; 8; 3] demo_rows demo_table Hp Hxs ltac:(vm_compute; discriminate)) as [H1 H2].
  etrans; [exact H1|]. etrans; [exact H2|]. vm_compute. reflexivity.
Defined.

(** ** What the rows hold afterwards *)
Lemma write_rows_other out xs : ∀ pt p j, j ∉ rw_idx <$> xs → 0 ≤ j → Forall (λ x, 0 ≤ rw_idx x) xs →
  ReqToTokenPool.req_to_token (write_rows out pt xs p) !! Z.to_nat j =
  ReqToTokenPool.req_to_token p !! Z.to_nat j.
Proof.
  induction xs as [|x xs IH]; intros pt p j Hj Hj0 Hxs; [done|]. rewrite fmap_cons, not_elem_of_cons in Hj.
  inversion Hxs; subst. cbn [write_rows]. rewrite IH by naive_solver. cbn. rewrite list_lookup_insert_ne; [done|].
  destruct Hj as [Hne _]. intros E. apply Hne. lia.
Qed.

Lemma write_rows_row out l x k : ∀ pt p, table_ok p → Forall (row_write_ok p) l → row_write_ok p x →
  NoDup ((rw_idx <$> l) ++ rw_idx x :: (rw_idx <$> k)) → Forall (λ x, 0 ≤ rw_idx x) k → 0 ≤ pt →
  let pt' := pt + sum_Z (rw_extend <$> l) in
  pt' + rw_extend x ≤ len out →
  ∃ row, ReqToTokenPool.req_to_token p !! Z.to_nat (rw_idx x) = Some row ∧
    ReqToTokenPool.req_to_token (write_rows out pt (l ++ x :: k) p) !! Z.to_nat (rw_idx x) =
      Some ((to_int32 <$> rw_prefix x ++ py_slice out pt' (pt' + rw_extend x)) ++ drop (Z.to_nat (rw_seq x)) row).
Proof.
  induction l as [|y l IH]; intros pt p Hp Hl Hx Hnd Hk Hpt pt' Hout.
  - cbn [app write_rows]. destruct Hx as (Hi & He & Hs). apply NoDup_cons in Hnd as [Hnk _].
    destruct (lookup_lt_is_Some_2 (ReqToTokenPool.req_to_token p) (Z.to_nat (rw_idx x))) as [r Hr]; [unfold len in Hi; lia|].
    exists r. split; [done|]. rewrite write_rows_other by (done || lia). cbn [write_row ReqToTokenPool.req_to_token ReqToTokenPool.set_rows].
    rewrite list_lookup_insert_eq by (by apply lookup_lt_Some in Hr). rewrite Hr. cbn [default]. f_equal.
    assert (pt' = pt) as -> by (unfold pt'; cbn; lia).
    unfold seg_write. rewrite take_0, length_row_slots by lia. cbn [app]. f_equal. unfold row_slots. do 2 f_equal.
    rewrite py_slice_drop_take, skipn_firstn_comm by lia. f_equal. lia.
  - inversion Hl as [|? ? Hy Hl']; subst. rewrite fmap_cons in Hnd. apply NoDup_cons in Hnd as [Hny Hnd].
    unfold pt' in *. rewrite fmap_cons, sum_Z_cons in *. pose proof Hy as (Hyi & Hye & _).
    assert (0 ≤ sum_Z (rw_extend <$> l)) as Hsn.
    { apply sum_Z_nonneg, Forall_fmap. eapply Forall_impl; [exact Hl'|]. by intros ? (? & ? & ?). }
    destruct (write_row_ok out pt y p Hp Hy Hpt) as (Hp' & Hlen & Hm).
    { destruct Hx as (_ & ? & _). lia. }
    assert (∀ z, row_write_ok p z → row_write_ok (write_row out pt y p) z) as Hok.
    { intros z. unfold row_write_ok. by rewrite Hlen, Hm. }
    destruct (IH (pt + rw_extend y) (write_row out pt y p) Hp') as (row & Hr & E);
      [eapply Forall_impl; eauto|by apply Hok|done|done|lia|lia|].
    exists row. split.
    + cbn in Hr. rewrite list_lookup_insert_ne in Hr; [done|]. intros E'. apply Hny. rewrite elem_of_app. right.
      destruct Hx as ((? & _) & _). replace (rw_idx y) with (rw_idx x) by lia. left.
    + cbn [app write_rows]. rewrite E. do 4 f_equal; f_equal; lia.
Qed.

(** The table after a prefill: with distinct rows, the row of every request
    of the batch starts with its cached prefix followed by its own part of the
    newly allocated slots, in the order of the batch; rows of other requests and
    the rest of each row are untouched. *)
Theorem extend_rows_written masked oob triton out l x k p
    (Hp : table_ok p) (Hxs : Forall (row_write_ok p) (l ++ x :: k)) (Hnd : NoDup (rw_idx <$> l ++ x :: k))
    (Hout : sum_Z (rw_extend <$> l ++ x :: k) ≤ len out) :
  let xs := l ++ x :: k in
  let pt := sum_Z (rw_extend <$> l) in
  ∃ p', write_cache_indices masked oob triton out (rw_idx <$> xs) ((len ∘ rw_prefix) <$> xs) (rw_seq <$> xs)
          (rw_extend <$> xs) (rw_prefix <$> xs) p = Ok p' ∧
    (∃ row, ReqToTokenPool.req_to_token p !! Z.to_nat (rw_idx x) = Some row ∧
       ReqToTokenPool.row p' (rw_idx x) =
         Ok ((to_int32 <$> rw_prefix x ++ py_slice out pt (pt + rw_extend x)) ++ drop (Z.to_nat (rw_seq x)) row)) ∧
    (∀ j, 0 ≤ j → j ∉ rw_idx <$> xs →
       ReqToTokenPool.req_to_token p' !! Z.to_nat j = ReqToTokenPool.req_to_token p !! Z.to_nat j).
Proof.
  intros xs pt. exists (write_rows out 0 xs p).
  assert (Forall (λ x, 0 ≤ rw_idx x) xs) as Hpos.
  { eapply Forall_impl; [exact Hxs|]. by intros y ((? & ?) & _). }
  split; [|split].
  - by apply write_cache_indices_rows.
  - destruct (Forall_app (row_write_ok p) l (x :: k)) as [[Hl Hk]%(λ f, f Hxs) _].
    inversion Hk as [|? ? Hx Hk']; subst. destruct (write_rows_row out l x k 0 p Hp Hl Hx) as (row & Hr & E).
    + unfold xs in Hnd. by rewrite fmap_app, fmap_cons in Hnd.
    + eapply Forall_impl; [exact Hk'|]. by intros ? ((? & ?) & _).
    + lia.
    + rewrite fmap_app, fmap_cons, sum_Z_app, sum_Z_cons in Hout. 
      assert (0 ≤ sum_Z (rw_extend <$> k)); [|lia].
      apply sum_Z_nonneg, Forall_fmap. eapply Forall_impl; [exact Hk'|]. by intros ? (? & ? & ?).
    + exists row. split; [done|]. cbn in E. apply row_ok; [apply Hx|]. exact E.
  - intros j Hj Hn. by apply write_rows_other.
Qed.

Lemma extend_rows_written_witness : ∃ p',
  write_cache_indices 0 0 true [7; 8; 3] [1; 0] [1; 0] [3; 1] [2; 1] [[5]; []] demo_table = Ok p' ∧
  ReqToTokenPool.row p' 0 = Ok [3; 0; 0; 9].
Proof.
  assert (table_ok demo_table) as Hp by (split; [vm_compute; discriminate|by_decide]).
  assert (Forall (row_write_ok demo_table) ([mkRow 1 [5] 2] ++ mkRow 0 [] 1 :: [])) as Hxs.
  { repeat constructor; vm_compute; discriminate. }
  destruct (extend_rows_written 0 0 true [7; 8; 3] [mkRow 1 [5] 2] (mkRow 0 [] 1) [] demo_table Hp Hxs
    ltac:(by_decide) ltac:(vm_compute; discriminate)) as (p' & H1 & (row & Hr & H2) & _).
  exists p'. split; [exact H1|]. etrans; [exact H2|]. vm_compute in Hr. injection Hr as <-. reflexivity.
Defined.

(** ** The last slot of each prefix *)
Lemma flat_lookup w (rows : list (list Z)) i r j : Forall (λ r, length r = w) rows → rows !! i = Some r → (j < w)%nat →
  mjoin rows !! (i * w + j)%nat = r !! j.
Proof.
  intros Hrows Hi Hj. assert (length r = w) as Hr by (eapply Forall_lookup_1 in Hrows; eauto).
  rewrite <-(take_drop_middle rows i r Hi), join_app. cbn.
  assert (length (mjoin (take i rows)) = (i * w)%nat) as Hl.
  { rewrite (length_flat w) by (by apply Forall_take). rewrite length_take. apply lookup_lt_Some in Hi. nia. }
  rewrite lookup_app_r by lia. rewrite Hl. replace (i * w + j - i * w)%nat with j by lia.
  rewrite lookup_app_l by lia. done.
Qed.

Definition last_loc_ok (p : ReqToTokenPool.t) (x : Z * Z) : Prop :=
  0 ≤ fst x < len (ReqToTokenPool.req_to_token p) ∧ 0 ≤ snd x ≤ ReqToTokenPool.max_context_len p.

Lemma last_loc_cell oob p x : table_ok p → 0 < ReqToTokenPool.max_context_len p → last_loc_ok p x →
  ∃ c, ReqToTokenPool.cell p (fst x) (snd x - 1) = Ok c ∧
    (0 < snd x → tl_load oob (mjoin (ReqToTokenPool.req_to_token p))
                   (fst x * ReqToTokenPool.max_context_len p + (snd x - 1)) = c).
Proof.
  intros [Hw Hrows] Hpos (Hi & Hn). set (w := ReqToTokenPool.max_context_len p) in *.
  destruct (lookup_lt_is_Some_2 (ReqToTokenPool.req_to_token p) (Z.to_nat (fst x))) as [r Hr]; [unfold len in Hi; lia|].
  pose proof (Forall_lookup_1 _ _ _ _ Hrows Hr) as Hlr. cbn in Hlr.
  unfold ReqToTokenPool.cell. rewrite (row_ok _ _ _ (proj1 Hi) Hr). cbn [res_bind]. unfold py_index.
  set (j := if snd x - 1 <? 0 then len r + (snd x - 1) else snd x - 1).
  assert (0 ≤ j < w) as Hj by (unfold j, len; case_bools; lia).
  destruct (lookup_lt_is_Some_2 r (Z.to_nat j)) as [c Hc]; [lia|]. exists c.
  rewrite (proj2 (Z.ltb_ge j 0)) by lia. rewrite Hc. split; [done|]. intros Hp.
  assert (j = snd x - 1) as Ej by (unfold j; case_bools; lia). unfold tl_load.
  rewrite (proj2 (Z.ltb_ge _ 0)) by nia.
  replace (Z.to_nat (fst x * w + (snd x - 1))) with (Z.to_nat (fst x) * Z.to_nat w + Z.to_nat j)%nat by nia.
  rewrite (flat_lookup (Z.to_nat w) _ _ r) by (done || lia). by rewrite Hc.
Qed.

Lemma last_loc_blocks oob uninit p (xs : list (Z * Z)) :
  get_last_loc_triton oob uninit p (fst <$> xs) (snd <$> xs) =
  (λ x, if 0 <? snd x then tl_load oob (mjoin (ReqToTokenPool.req_to_token p))
          (fst x * ReqToTokenPool.max_context_len p + (snd x - 1)) else -1) <$> xs.
Proof.
  unfold get_last_loc_triton, launch. rewrite len_fmap.
  set (g := λ x : Z * Z, if 0 <? snd x then _ else _).
  set (f := λ o, g (tl_load oob (fst <$> xs) o, tl_load oob (snd <$> xs) o)).
  pose proof (len_nonneg xs) as Hn.
  rewrite (blocks_all 256 ltac:(lia) f (len xs) 0 Hn ltac:(lia)).
  - unfold seg_write. rewrite length_fmap, length_py_range. cbn [Z.to_nat Nat.add].
    rewrite take_0, drop_ge, app_nil_r by (rewrite length_fmap, length_py_range; lia). cbn [app].
    rewrite <-(len_fmap g xs). apply fmap_py_range_list. intros i y Hy. rewrite list_lookup_fmap in Hy.
    destruct (xs !! i) as [x|] eqn:Hx; [|done]. cbn in Hy. injection Hy as <-. unfold f, tl_load.
    rewrite (proj2 (Z.ltb_ge (Z.of_nat i) 0)) by lia. rewrite Nat2Z.id, !list_lookup_fmap, Hx. cbn. by destruct x.
  - intros dst i Hi. unfold get_last_loc_kernel. rewrite Z.add_0_l. apply tl_store_lanes_ext.
    intros o Ho. split; [done|]. intros ->. done.
  - rewrite len_fmap, len_py_range by done. lia.
Qed.

(** The last slot of each prefix: the Triton kernel and the indexed torch
    expression agree, and both give the slot of position [prefix_len - 1], or
    [-1] for an empty prefix. *)
Theorem get_last_loc_equiv oob uninit p (xs : list (Z * Z)) (Hp : table_ok p)
    (Hw : 0 < ReqToTokenPool.max_context_len p) (Hxs : Forall (last_loc_ok p) xs) :
  get_last_loc oob "triton" uninit p (fst <$> xs) (snd <$> xs) =
    get_last_loc oob "torch_native" uninit p (fst <$> xs) (snd <$> xs) ∧
  ∃ locs, get_last_loc oob "torch_native" uninit p (fst <$> xs) (snd <$> xs) = Ok locs ∧
    Forall2 (λ x c, if 0 <? snd x then ReqToTokenPool.cell p (fst x) (snd x - 1) = Ok c else c = -1) xs locs.
Proof.
  set (g := λ x, match ReqToTokenPool.cell p (fst x) (snd x - 1) with Ok c => c | Err _ => 0 end).
  assert (get_last_loc oob "torch_native" uninit p (fst <$> xs) (snd <$> xs) =
    Ok ((λ x, if 0 <? snd x then g x else -1) <$> xs)) as E.
  { unfold get_last_loc. cbn [negb andb bool_decide]. unfold get_last_loc_torch.
    rewrite zip_with_fmap_l, zip_with_fmap_r, zip_with_diag.
    rewrite (mapM_res_ok _ g).
    - cbn [res_bind]. f_equal. clear. induction xs as [|x xs IH]; [done|]. destruct x. cbn. f_equal. exact IH.
    - apply Forall_fmap. eapply Forall_impl; [exact Hxs|]. intros [a b] Hx. cbn.
      destruct (last_loc_cell oob p (a, b) Hp Hw Hx) as (c & Hc & _). unfold g. cbn in *. by rewrite Hc. }
  rewrite E. split.
  - change (get_last_loc oob "triton" uninit p (fst <$> xs) (snd <$> xs)) with
      (Ok (get_last_loc_triton oob uninit p (fst <$> xs) (snd <$> xs))).
    rewrite last_loc_blocks. f_equal. apply Forall_fmap_ext_1. eapply Forall_impl; [exact Hxs|]. intros x Hx. cbn.
    case_if; [|done]. destruct (last_loc_cell oob p x Hp Hw Hx) as (c & Hc & Hl). unfold g. rewrite Hc. by apply Hl.
  - eexists. split; [reflexivity|]. apply Forall2_fmap_r, Forall_Forall2_diag.
    eapply Forall_impl; [exact Hxs|]. intros x Hx. cbn. case_if; [|done].
    destruct (last_loc_cell oob p x Hp Hw Hx) as (c & Hc & _). unfold g. by rewrite Hc.
Qed.

Lemma get_last_loc_equiv_witness :
  get_last_loc 0 "triton" (λ _, 0) (ReqToTokenPool.mk 2 4 [[3; 0; 0; 9]; [5; 7; 8; 9]] []) [1; 0] [3; 0] = Ok [8; -1].
Proof.
  assert (table_ok (ReqToTokenPool.mk 2 4 [[3; 0; 0; 9]; [5; 7; 8; 9]] [])) as Hp
    by (split; [vm_compute; discriminate|by_decide]).
  etrans; [exact (proj1 (get_last_loc_equiv 0 (λ _, 0) _ [(1, 3); (0, 0)] Hp ltac:(vm_compute; reflexivity)
    ltac:(repeat constructor; vm_compute; discriminate)))|]. vm_compute. reflexivity.
Defined.
