(* ===== verification/RadixAlloc.v ===== *)
(** * Allocation with eviction

    When the allocator is short, [common.py] evicts from the radix tree and
    allocates again.  The slots of the tree and its two size counters agree, so
    what eviction frees is what becomes available. *)

From stdpp Require Import gmultiset.
From S2P Require Import Prelude KVAllocator KVAllocatorProofs KVAllocatorSpec.
From S2P Require Import RadixTree RadixInv RadixSplit RadixMatch RadixInsert RadixLock RadixWalk RadixOwn RadixEvict RadixSpec.
From S2P Require Import ReqPool Request PrefixCache RadixHeld RadixReq ChunkCache CacheCommon.

Section sizes.
Context {A : Type} `{KVPool A}.
Context (cfg : config).
Implicit Types st : cache A.
Abbreviation ps := (page_size cfg).

Lemma len_join {T} (l : list (list T)) : len (mjoin l) = sum_Z (len <$> l).
Proof. induction l as [|x l IH]; [done|].
  change (len (x ++ mjoin l) = len x + sum_Z (len <$> l)). by rewrite len_app, IH. Qed.

(** The slots of the tree are counted by the two sizes. *)
Lemma tree_slots_len G L d st : cache_inv cfg G L d st →
  len (tree_slots G st) = evictable_size_ st + protected_size_ st.
Proof.
  intros [Hwf _ He Hp]. rewrite He, Hp, <-set_sum_add. unfold tree_slots, slots_of, set_sum.
  rewrite len_join, <-list_fmap_compose. f_equal. apply list_fmap_ext. intros i n Hn%list_elem_of_lookup_2.
  apply elem_of_elements, elem_of_dom in Hn. destruct (wf_live_view Hwf n Hn) as [v Hv]. destruct Hn as [g Hg].
  cbn. unfold node_vals, sel_len. rewrite Hv. cbn. destruct (decide (n = root_node st)) as [->|Hr].
  - destruct (wf_root Hwf) as (v' & Hv' & _ & _ & _ & Hval). simplify_eq. rewrite Hval. done.
  - destruct (wf_linked Hwf n v g Hg Hv Hr) as (p & pv & pg & vs & Hl). rewrite (lk_val Hl). cbn.
    unfold len. rewrite (lk_len Hl). destruct (vlock v =? 0); cbn; lia.
Qed.

Lemma pages_of_len vs : ps ≠ 0%nat → whole ps vs → NoDup vs →
  len (pages_of (Z.of_nat ps) vs) * Z.of_nat ps = len vs.
Proof.
  intros Hps Hw Hnd. destruct (whole_pages (cfg:=cfg) vs Hps Hw Hnd) as (pgs & Hn & Hv & Hl & Hp).
  assert (pages_of (Z.of_nat ps) vs ≡ₚ pgs) as HP.
  { apply NoDup_Permutation; [apply NoDup_torch_unique|done|]. intros p. rewrite elem_of_pages_of. split.
    - intros (x & Hx & ->). rewrite Hv in Hx. apply list_elem_of_bind in Hx as (q & Hx & Hq).
      apply elem_of_page_slots in Hx; [|lia]. by rewrite Hx.
    - intros (x & Hx & <-)%Hp. eauto. }
  unfold len. rewrite (Permutation_length HP), Hl. lia.
Qed.

Lemma tree_slots_whole G L d st : cache_inv cfg G L d st → owns cfg G st → whole ps (tree_slots G st).
Proof.
  intros _ Hown. unfold tree_slots, slots_of.
  assert (Forall (λ n, is_Some (G !! n)) (elements (dom G))) as Hall.
  { apply Forall_forall. intros n. by rewrite elem_of_elements, elem_of_dom. }
  induction Hall as [|n l Hn _ IH]; [apply whole_nil|]. cbn. apply whole_app; [by apply (ow_whole Hown)|exact IH].
Qed.

(** Eviction of [n] tokens makes [n] slots available. *)
Lemma evicted_held G L st G' st' n : cache_wf cfg G L st → owns cfg G st → evicted_to cfg G L st G' st' n →
  len (kv_held (allocator st')) * Z.of_nat ps = len (kv_held (allocator st)) * Z.of_nat ps + n.
Proof.
  intros Hinv Hown Hev. pose proof (wf_page (ci_wf Hinv)) as Hps.
  pose proof (Permutation_length (ev_accounted _ _ _ _ _ _ _ Hev)) as Hl. unfold accounted in Hl. rewrite !length_app in Hl.
  pose proof (pages_of_len _ Hps (tree_slots_whole _ _ _ _ Hinv Hown) (ow_nodup Hown)) as H1.
  pose proof (ev_wf _ _ _ _ _ _ _ Hev) as Hinv'. pose proof (ev_owns _ _ _ _ _ _ _ Hev) as Hown'.
  pose proof (pages_of_len _ Hps (tree_slots_whole _ _ _ _ Hinv' Hown') (ow_nodup Hown')) as H2.
  rewrite (tree_slots_len _ _ _ _ Hinv) in H1. rewrite (tree_slots_len _ _ _ _ Hinv') in H2.
  rewrite (ev_evictable _ _ _ _ _ _ _ Hev), (ev_protected _ _ _ _ _ _ _ Hev) in H2. unfold len in *. nia.
Qed.

(** Taking pages out of the allocator. *)
Lemma owns_alloc G st a' taken : owns cfg G st → kv_ok a' → kv_page_size a' = kv_page_size (allocator st) →
  kv_limit a' = kv_limit (allocator st) → taken ++ kv_held a' ≡ₚ kv_held (allocator st) →
  owns cfg G (set_alloc st a') ∧ taken ++ accounted cfg G (set_alloc st a') ≡ₚ accounted cfg G st.
Proof.
  intros [H1 H2 H3 H4 H5] Hok Hps Hlim HP. split.
  - constructor; try done; [by cbn; rewrite Hps|]. cbn [set_alloc allocator]. rewrite Hlim.
    eapply Forall_impl; [exact H5|]. intros x [Hx Hn]. split; [done|]. rewrite <-HP, elem_of_app in Hn. naive_solver.
  - unfold accounted. cbn [set_alloc allocator]. by rewrite app_assoc, HP.
Qed.
End sizes.

(** ** The radix cache as an allocator of slots *)
Section alloc.
Context (masked oob : Z) (uninit : Z → Z).
Context (clock : nat → Z) (hash : list token → Z) (cfg : config) (topk : option Z) (Hen : disable cfg = false).

(** [evict_from_tree_cache] leaves [n] slots available, or the tree has nothing
    more to evict. *)
Lemma evict_for {A} `{KVPool A} (Host : CacheHost (radix_state A)) G L (s : radix_state A) n :
  cache_wf cfg G L (tree s) → owns cfg G (tree s) →
  ch_is_chunk s = false → ch_hybrid s = None →
  ch_available_size s = len (kv_held (allocator (tree s))) * Z.of_nat (page_size cfg) →
  (∀ k, pc_evict s k = let! '(_, t) := evict hash cfg (tree s) k in Ok (mkState t (req_pool s))) →
  n ≤ ch_available_size s + evictable_size_ (tree s) →
  ∃ t G' m, evict_from_tree_cache s n = Ok (mkState t (req_pool s)) ∧ evicted_to cfg G L (tree s) G' t m ∧
    n ≤ len (kv_held (allocator t)) * Z.of_nat (page_size cfg).
Proof.
  intros Hinv Hown Hck Hhy Hav Hpe Hn. unfold evict_from_tree_cache. rewrite Hck, Hhy.
  destruct (Z.ltb_spec (ch_available_size s) n) as [Hlt|Hge].
  - rewrite Hpe. destruct (evict_spec hash cfg G L (tree s) n Hinv Hown Hen) as (m & t & G' & -> & Hev & Hend).
    cbn [res_bind]. exists t, G', m. split; [done|]. split; [done|].
    rewrite (evicted_held cfg G L (tree s) G' t m Hinv Hown Hev), <-Hav.
    pose proof (len_nonneg (kv_held (allocator (tree s)))). pose proof (ev_evictable _ _ _ _ _ _ _ Hev).
    destruct Hend; nia.
  - exists (tree s), G, 0. split; [by destruct s|]. split; [by apply evicted_refl|]. lia.
Qed.

(** Slots for a batch: with the token allocator, [alloc_token_slots] never
    runs out of memory while the free and the evictable slots together suffice.
    It then returns [n] distinct slots; what was accounted for before is the
    returned slots plus what is accounted for now, locked entries are untouched
    and the cache keeps its invariants. *)
Theorem alloc_token_slots_never_oom G L (s : radix_state Base.t) n backup
    (Hinv : cache_wf cfg G L (tree s)) (Hown : owns cfg G (tree s)) (Hn : 0 ≤ n)
    (Henough : n ≤ TokenAlloc.available_size (allocator (tree s)) + evictable_size (tree s)) :
  ∃ out saved s' G', alloc_token_slots (H:=radix_token_host clock hash cfg topk) s n backup = Ok (out, saved, s') ∧
    len out = n ∧ NoDup out ∧ cache_wf cfg G' L (tree s') ∧ owns cfg G' (tree s') ∧
    out ++ accounted cfg G' (tree s') ≡ₚ accounted cfg G (tree s) ∧
    protected_size (tree s') = protected_size (tree s) ∧ req_pool s' = req_pool s.
Proof.
  assert (page_size cfg = 1%nat) as Hps by (pose proof (ow_ps Hown) as E; cbn in E; lia).
  destruct (evict_for (radix_token_host clock hash cfg topk) G L s n Hinv Hown) as (t & G' & m & Hev1 & Hev & Hav);
    [done|done| |done|exact Henough|].
  { cbn. unfold TokenAlloc.available_size. fold (held (allocator (tree s))). rewrite <-len_app, Hps. unfold held. lia. }
  unfold alloc_token_slots. rewrite Hev1. cbn [res_bind]. cbn [ch_alloc radix_token_host tree].
  pose proof (ev_owns _ _ _ _ _ _ _ Hev) as Hown'. destruct (ow_ok Hown') as [Hwf Hg].
  rewrite (token_alloc_cases (allocator t) n _ Hwf Hn). rewrite Hps in Hav. cbn in Hav.
  destruct (Z.ltb_spec (len (held (allocator t))) n); [lia|].
  set (b := ready (allocator t) n). set (out := take _ _). set (b' := Base.set_pages _ _ _).
  cbn [out_of_memory res_bind]. exists out. eexists. exists (set_tree_alloc (mkState t (req_pool s)) b'), G'. split; [reflexivity|].
  assert (out ++ held b' ≡ₚ held (allocator t)) as HP.
  { etrans; [apply (take_front_perm b)|]. apply ready_held. }
  assert (len out = n) as Hlo.
  { pose proof (ready_short (allocator t) n _ Hwf). unfold out, b, len in *. rewrite length_take. lia. }
  pose proof (pool_wf_ready _ _ n Hwf) as Hwr. fold b in Hwr.
  assert (pool_wf (Base.size (allocator t)) b') as Hwb.
  { eapply (pool_wf_perm _ b b' out); [done|done|apply (take_front_perm b)|done]. }
  destruct (ready_fields (allocator t) n) as (_ & Hsz & _ & Hgr & _).
  destruct (owns_alloc cfg G' t b' out Hown') as [Ho Ha]; [|done|exact Hsz|done|].
  { split; [|by rewrite <-Hg, <-Hgr]. change (Base.size b') with (Base.size (ready (allocator t) n)). by rewrite Hsz. }
  cbn [tree set_tree_alloc req_pool]. split_and!; try done.
  - destruct Hwf as (Hnd & _). rewrite <-HP in Hnd. by apply NoDup_app in Hnd as [? _].
  - eapply cache_inv_same; [|exact (ev_wf _ _ _ _ _ _ _ Hev)]. done.
  - by rewrite Ha, (ev_accounted _ _ _ _ _ _ _ Hev).
  - apply (ev_protected _ _ _ _ _ _ _ Hev).
Qed.

(** A merge leaves enough free pages if the pool has them. *)
Lemma ready_enough b n k m : pool_wf m b → k ≤ n → k ≤ len (held b) → k ≤ len (Base.free_pages (ready b n)).
Proof.
  intros (_ & _ & Hrel) Hkn Hk. unfold ready, held in *. rewrite len_app in Hk.
  destruct (Base.need_sort b) eqn:Es; cbn [andb].
  - destruct (Z.ltb_spec (len (Base.free_pages b)) n); [rewrite merge_free_len|]; lia.
  - rewrite Hrel, len_nil in Hk by done. lia.
Qed.

Lemma new_pages_bound ps rs : 0 < ps → Forall shape_ok rs → total_new_pages ps rs * ps ≤ total_extend rs + len rs * ps.
Proof.
  intros Hps. induction 1 as [|r rs Hr _ IH]; [done|]. unfold total_new_pages, total_extend in *.
  rewrite !fmap_cons, !sum_Z_cons, len_cons. destruct Hr. unfold new_pages in *.
  pose proof (ceil_div_bounds (r_seq r) ps Hps). pose proof (ceil_div_bounds (r_pre r) ps Hps). nia.
Qed.

(** Eviction changes the allocator by [free] alone. *)
Lemma evict_loop_alloc_inv {A} `{KVPool A} (P : A → Prop) fuel : ∀ (st : cache A) h num k m st',
  (∀ a idx a', P a → kv_free a idx = Ok a' → P a') → P (allocator st) →
  evict_loop hash cfg fuel st h num k = Ok (m, st') → P (allocator st').
Proof.
  induction fuel as [|fuel IH]; intros st h num k m st' Hf HP Heq; [done|]. cbn [evict_loop] in Heq.
  destruct h as [|e es]; [by injection Heq as <- <-|]. destruct (num <=? k); [by injection Heq as <- <-|].
  destruct (pop_min _ _ _) as [[pr x] h']. inv_ok. eapply IH; [exact Hf| |exact Heq].
  match goal with H1 : kv_free _ _ = Ok ?a, H2 : _delete_leaf _ _ = Ok ?t, H3 : _record_remove_event _ _ _ _ = Ok ?t' |- _ =>
    assert (P a) as HPa by eauto; assert (allocator t = a) as Ha1 by (unfold _delete_leaf in H2; by inv_ok);
    assert (allocator t' = allocator t) as Ha2 by
      (unfold _record_remove_event in H3; destruct (enable_kv_cache_events cfg); by inv_ok) end.
  congruence.
Qed.

Lemma evict_for_alloc_inv (P : PagedAlloc.t → Prop) s n s' :
  (∀ a idx a', P a → PagedAlloc.free a idx = Ok a' → P a') →
  evict_from_tree_cache (H:=radix_paged_host masked oob uninit clock hash cfg topk) s n = Ok s' →
  P (allocator (tree s)) → P (allocator (tree s')).
Proof.
  intros Hf Heq HP. unfold evict_from_tree_cache in Heq. cbn in Heq. destruct (_ <? _); [|by injection Heq as <-].
  destruct (evict hash cfg (tree s) n) as [[m t]|] eqn:E; [|done]. cbn in Heq. injection Heq as <-. cbn.
  unfold evict in E. rewrite Hen in E. inv_ok. eapply evict_loop_alloc_inv; [exact Hf|exact HP|eassumption].
Qed.

Lemma paged_free_debug a idx a' : PagedAlloc.debug_mode a = false → PagedAlloc.free a idx = Ok a' →
  PagedAlloc.debug_mode a' = false.
Proof.
  intros Hd. unfold PagedAlloc.free. case_if; [by intros [= <-]|]. rewrite Hd. cbn [res_bind]. by intros [= <-].
Qed.

(** The books after a paged prefill allocation. *)
Lemma extend_state_owns G (t : cache PagedAlloc.t) rs : owns cfg G t → Forall shape_ok rs →
  let ps := Z.of_nat (page_size cfg) in
  let pages := Base.free_pages (ready (PagedAlloc.base (allocator t)) (total_extend rs / ps + len rs + 1)) in
  let k := Z.to_nat (total_new_pages ps rs) in
  total_new_pages ps rs ≤ len pages →
  owns cfg G (set_alloc t (extend_state (allocator t) rs k)) ∧
  take k pages ++ accounted cfg G (set_alloc t (extend_state (allocator t) rs k)) ≡ₚ accounted cfg G t.
Proof.
  intros Hown Hok ps pages k Hen1. destruct (ow_ok Hown) as [[Hps Hwf] Hg]. pose proof (ow_ps Hown) as Hpg. cbn in Hpg.
  unfold extend_state. rewrite Hpg. fold ps. unfold pages in *. set (need := total_extend rs / ps + len rs + 1) in *.
  pose proof (take_front_perm (ready (PagedAlloc.base (allocator t)) need) k) as HP.
  pose proof (ready_held (PagedAlloc.base (allocator t)) need) as Hh.
  pose proof (pool_wf_ready _ _ need Hwf) as Hwr.
  destruct (ready_fields (PagedAlloc.base (allocator t)) need) as (_ & _ & Hp & Hgr & _).
  set (b := ready _ _) in *. set (b' := Base.set_pages _ _ _) in *.
  apply owns_alloc; [done| | |done|etrans; [exact HP|exact Hh]].
  - split; [split; cbn; [by rewrite Hp|]|by cbn; rewrite Hgr].
    by eapply (pool_wf_perm _ b b' (take k (Base.free_pages b))).
  - cbn. by rewrite Hp.
Qed.

(** C12. Slots for a paged prefill: [alloc_paged_token_slots_extend] never runs
    out of memory while the free and the evictable slots cover its own estimate,
    one extra page per request.  It returns the slots of the reference
    allocation on the pages it takes, one per token of the batch; those pages
    are exactly what leaves the books, and the cache keeps its invariants. *)
Theorem alloc_extend_never_oom G L (s : radix_state PagedAlloc.t) rs (backup : bool)
    (Hinv : cache_wf cfg G L (tree s)) (Hown : owns cfg G (tree s)) (Hok : Forall shape_ok rs)
    (Hdbg : PagedAlloc.debug_mode (allocator (tree s)) = false)
    (Henough : total_extend rs + len rs * Z.of_nat (page_size cfg) ≤
               Base.available_size (PagedAlloc.base (allocator (tree s))) + evictable_size (tree s)) :
  let ps := Z.of_nat (page_size cfg) in
  ∃ out saved s' G' pages,
    alloc_paged_token_slots_extend (H:=radix_paged_host masked oob uninit clock hash cfg topk) s
      (r_pre <$> rs) (r_pre <$> rs) (r_seq <$> rs) (r_seq <$> rs) (r_last <$> rs) (total_extend rs) backup =
      Ok (out, saved, s') ∧
    out = ref_extend ps rs pages ∧ len out = total_extend rs ∧ total_new_pages ps rs ≤ len pages ∧
    cache_wf cfg G' L (tree s') ∧ owns cfg G' (tree s') ∧
    take (Z.to_nat (total_new_pages ps rs)) pages ++ accounted cfg G' (tree s') ≡ₚ accounted cfg G (tree s) ∧
    protected_size (tree s') = protected_size (tree s) ∧ req_pool s' = req_pool s.
Proof.
  intros ps. assert (0 < ps) as Hps by (unfold ps; pose proof (wf_page (ci_wf Hinv)); lia).
  pose proof (ow_ps Hown) as Hpg. cbn in Hpg.
  unfold alloc_paged_token_slots_extend. cbn [ch_alloc_page_size radix_paged_host]. rewrite len_fmap, Hpg.
  destruct (evict_for (radix_paged_host masked oob uninit clock hash cfg topk) G L s
    (total_extend rs + len rs * Z.of_nat (page_size cfg)) Hinv Hown) as (t & G' & m & Hev1 & Hev & Hav);
    [done|done| |done|exact Henough|].
  { cbn. unfold Base.available_size. rewrite Hpg, <-len_app. done. }
  rewrite Hev1. cbn [res_bind]. cbn [ch_alloc_extend radix_paged_host tree].
  pose proof (ev_owns _ _ _ _ _ _ _ Hev) as Hown'. destruct (ow_ok Hown') as [[Hps' Hwf] Hg].
  pose proof (ow_ps Hown') as Hpg'. cbn in Hpg'.
  assert (PagedAlloc.debug_mode (allocator t) = false) as Hdbg'.
  { exact (evict_for_alloc_inv (λ a, PagedAlloc.debug_mode a = false) s _ _ paged_free_debug Hev1 Hdbg). }
  rewrite (alloc_extend_eq masked oob uninit (allocator t) rs Hps' Hdbg' Hok). rewrite Hpg'. fold ps.
  set (need := total_extend rs / ps + len rs + 1). set (b := ready (PagedAlloc.base (allocator t)) need).
  pose proof (new_pages_bound ps rs Hps Hok) as Hnb. fold ps in Hav.
  assert (total_new_pages ps rs ≤ len (Base.free_pages b)) as Hen1.
  { eapply ready_enough; [exact Hwf| |].
    - unfold need. enough (total_new_pages ps rs - len rs ≤ total_extend rs / ps) by lia.
      apply Z.div_le_lower_bound; lia.
    - cbn in Hav. nia. }
  rewrite (proj2 (Z.ltb_ge _ _)) by done. cbn [out_of_memory res_bind].
  set (a' := extend_state _ _ _). exists (ref_extend ps rs (Base.free_pages b)). eexists.
  exists (set_tree_alloc (mkState t (req_pool s)) a'), G', (Base.free_pages b). split; [reflexivity|].
  destruct (extend_state_owns G' t rs Hown' Hok Hen1) as [Ho Ha]. fold ps in Ho, Ha.
  cbn [tree set_tree_alloc req_pool]. split_and!; try done.
  - by apply length_ref_extend.
  - eapply cache_inv_same; [|exact (ev_wf _ _ _ _ _ _ _ Hev)]. done.
  - etrans; [exact Ha|]. apply (ev_accounted _ _ _ _ _ _ _ Hev).
  - apply (ev_protected _ _ _ _ _ _ _ Hev).
Qed.
End alloc.

(** ** Concrete runs *)
Lemma alloc_token_slots_never_oom_witness : ∃ out saved s',
  alloc_token_slots (H:=radix_token_host Z.of_nat Demo.no_hash Demo.cfg None)
    (mkState Demo.full (ReqToTokenPool.init 2 4)) 7 true = Ok (out, saved, s') ∧ len out = 7 ∧ NoDup out.
Proof.
  destruct Demo.full_ok as (G & Hinv & Hown & _).
  destruct (alloc_token_slots_never_oom Z.of_nat Demo.no_hash Demo.cfg None eq_refl G ∅
    (mkState Demo.full (ReqToTokenPool.init 2 4)) 7 true Hinv Hown ltac:(lia) ltac:(vm_compute; discriminate))
    as (out & saved & s' & G' & H1 & H2 & H3 & _).
  exists out, saved, s'. exact (conj H1 (conj H2 H3)).
Defined.

Module PagedDemo.
Definition cfg : config := mkConfig 2 false false false LRU.
Definition pool : PagedAlloc.t := PagedAlloc.init 12 2 false false.
Definition state : radix_state PagedAlloc.t :=
  mkState (reset Z.of_nat cfg (mkCache ∅ 0 0 0 0 0 [] pool)) (ReqToTokenPool.init 2 8).
Lemma wf : cache_wf cfg (root_ghost 0) ∅ (tree state).
Proof. apply (reset_wf Z.of_nat cfg (mkCache ∅ 0 0 0 0 0 [] pool)); [done|]. intros n [x Hx]. done. Qed.
Lemma owned : owns cfg (root_ghost 0) (tree state).
Proof.
  apply (reset_owns Z.of_nat cfg (mkCache ∅ 0 0 0 0 0 [] pool)); [|done].
  split; [|done]. split; [done|by_decide].
Qed.
End PagedDemo.

Lemma alloc_extend_never_oom_witness : ∃ out saved s',
  alloc_paged_token_slots_extend (H:=radix_paged_host 0 0 (λ _, 0) Z.of_nat Demo.no_hash PagedDemo.cfg None)
    PagedDemo.state [0; 0] [0; 0] [3; 2] [3; 2] [-1; -1] 5 false = Ok (out, saved, s') ∧ len out = 5.
Proof.
  destruct (alloc_extend_never_oom 0 0 (λ _, 0) Z.of_nat Demo.no_hash PagedDemo.cfg None eq_refl (root_ghost 0) ∅
    PagedDemo.state [ {| r_pre := 0; r_seq := 3; r_last := -1 |}; {| r_pre := 0; r_seq := 2; r_last := -1 |} ] false
    PagedDemo.wf PagedDemo.owned ltac:(repeat constructor; cbn; lia) eq_refl ltac:(vm_compute; discriminate))
    as (out & saved & s' & G' & pages & H1 & _ & H2 & _).
  exists out, saved, s'. exact (conj H1 H2).
Defined.
