(* ===== verification/SchedulePolicy.v ===== *)
(** * The order of the waiting queue ([SchedulePolicy] of [managers/schedule_policy.py])

    Before a prefill batch is formed the waiting queue is reordered: by arrival
    and priority, by the longest prefix the radix cache has for a request, by a
    weighted depth-first walk of the tree, by the output limit, or at random.
    [wait_queue_entry_time] of a request's [time_stats] is a parameter, as is the
    permutation [random.shuffle] applies; the two thresholds come from the
    environment. *)

From S2P Require Import Prelude KVAllocator KVAllocatorSpec RadixTree Request.

(** ** Policies *)
Inductive CacheAwarePolicy := LPM | DFS_WEIGHT.
Inductive CacheAgnosticPolicy := FCFS | LOF | RANDOM.
Inductive Policy := Aware (p : CacheAwarePolicy) | Agnostic (p : CacheAgnosticPolicy).
#[global] Instance Policy_eq_dec : EqDecision Policy.
Proof. intros [[]|[]] [[]|[]]; try (by left); by right. Defined.

(** [CacheAwarePolicy(policy)] and [CacheAgnosticPolicy(policy)]. *)
Definition aware_of_string (s : string) : option CacheAwarePolicy :=
  if bool_decide (s = "lpm"%string) then Some LPM
  else if bool_decide (s = "dfs-weight"%string) then Some DFS_WEIGHT else None.
Definition agnostic_of_string (s : string) : option CacheAgnosticPolicy :=
  if bool_decide (s = "fcfs"%string) then Some FCFS
  else if bool_decide (s = "lof"%string) then Some LOF
  else if bool_decide (s = "random"%string) then Some RANDOM else None.

Definition _validate_and_adjust_policy (policy : string) (tree_cache_disable : bool) : res Policy :=
  match aware_of_string policy with
  | Some p => Ok (if tree_cache_disable then Agnostic FCFS else Aware p)
  | None =>
      match agnostic_of_string policy with
      | Some p => Ok (Agnostic p)
      | None => Err ValueError
      end
  end.

(** ** Sorting with a key

    [l.sort(key=f)]: the keys are computed first and compared by [ltb]. *)
Definition sort_on {K A} (ltb : K → K → bool) (keys : list K) (l : list A) : list A :=
  snd <$> py_sort (λ x y : K * A, ltb (fst x) (fst y)) (zip keys l).

(** Pairs in lexicographic order. *)
Definition pair_ltb (x y : Z * Z) : bool :=
  (fst x <? fst y) || ((fst x =? fst y) && (snd x <? snd y)).
(** Numbers with [float("inf")], written [None], above them. *)
Definition inf_ltb (x y : option Z) : bool :=
  match x, y with
  | Some a, Some b => a <? b
  | Some _, None => true
  | None, _ => false
  end.

(** Priorities as the first part of a key.  [-None] raises; [None] compares with
    itself but not with a number, and any sort of a mixed list comes to compare
    the two kinds. *)
Definition negated_priorities (l : list Req.t) : res (list Z) :=
  mapM_res (λ r, let! p := of_opt TypeError (Req.priority r) in Ok (- p)) l.
Definition plain_priorities (l : list Req.t) : res (list Z) :=
  if forallb (λ r, bool_decide (Req.priority r = None)) l then Ok ((λ _, 0) <$> l)
  else mapM_res (λ r, of_opt TypeError (Req.priority r)) l.
Definition priorities (low_first : bool) (l : list Req.t) : res (list Z) :=
  if low_first then plain_priorities l else negated_priorities l.

(** The queue's own radix tree has no allocator: it is never evicted from. *)
#[global, refine] Instance no_pool : KVPool unit := {|
  kv_free a idx := match idx with [] => Ok a | _ => Err AttributeError end;
  kv_page_size _ := 1;
  kv_limit _ := 0;
  kv_held _ := [];
  kv_ok _ := False
|}.
Proof. - done. - done. Defined.

Definition queue_cfg : config := mkConfig 1 false false false LRU.

Record schedule_policy := mkPolicy {
  policy : Policy;
  enable_priority_scheduling : bool;
  schedule_low_priority_values_first : bool;
  waiting_queue_radix_tree : cache unit
}.
Definition set_queue_tree (s : schedule_policy) (t : cache unit) : schedule_policy :=
  mkPolicy (policy s) (enable_priority_scheduling s) (schedule_low_priority_values_first s) t.

Section schedule.
Context {A : Type} `{KVPool A}.
Context (clock : nat → Z) (hash : list token → Z) (cfg : config).
Context (wait_queue_entry_time : Req.t → Z) (shuffle : list Req.t → list Req.t) (uninit : Z → Z).
Context (IN_BATCH_PREFIX_CACHING_CHECK_THRESHOLD IN_BATCH_PREFIX_CACHING_DEPRIORITIZE_THRESHOLD : Z).
Implicit Types (st : cache A) (s : schedule_policy) (waiting_queue : list Req.t).

Definition SchedulePolicy_init (policy : string) (tree_cache_disable enable_priority low_first : bool) :
    res schedule_policy :=
  let! p := _validate_and_adjust_policy policy tree_cache_disable in
  let! '(_, t) := RadixCache_init clock tt 1 false false "lru" false in
  Ok (mkPolicy p enable_priority low_first t).

Definition _determine_active_policy s waiting_queue : Policy :=
  if bool_decide (policy s = Aware LPM) && (128 <? len waiting_queue) then Agnostic FCFS else policy s.

Definition _sort_by_priority_and_fcfs (low_first : bool) waiting_queue : res (list Req.t) :=
  let! ps := priorities low_first waiting_queue in
  Ok (sort_on pair_ltb (zip ps (wait_queue_entry_time <$> waiting_queue)) waiting_queue).

Definition _sort_by_longest_output (enable_priority low_first : bool) waiting_queue : res (list Req.t) :=
  let out r := - max_new_tokens (Req.sampling_params r) in
  if enable_priority then
    let! ps := priorities low_first waiting_queue in
    Ok (sort_on pair_ltb (zip ps (out <$> waiting_queue)) waiting_queue)
  else Ok (sort_on Z.ltb (out <$> waiting_queue) waiting_queue).

(** [temporary_deprioritized] is a set of request ids. *)
Definition _sort_by_longest_prefix (temporary_deprioritized : list string) waiting_queue : list Req.t :=
  sort_on inf_ltb
    ((λ r, if bool_decide (Req.rid r ∈ temporary_deprioritized) then None
           else Some (- len (Req.prefix_indices r))) <$> waiting_queue) waiting_queue.

(** One request of the loop of [_compute_prefix_matches]. *)
Definition match_one st (wt : cache unit) (dep : list string) (r : Req.t) :
    res (Req.t * cache A * cache unit * list string) :=
  let prefix_ids := Req.origin_input_ids r ++ Req.output_ids r in
  let key_ := mkKey (TInt <$> prefix_ids) (Req.extra_key r) in
  let! '(m, st) := match_prefix clock hash cfg st key_ in
  let r := Req.set_prefix_indices r (device_indices m) in
  let r := Req.set_last_node r (Some (last_device_node m)) in
  let r := Req.set_host_hit_length r 0 in
  if len (Req.prefix_indices r) <=? IN_BATCH_PREFIX_CACHING_CHECK_THRESHOLD then
    let! '(m, wt) := match_prefix clock hash queue_cfg wt key_ in
    if IN_BATCH_PREFIX_CACHING_DEPRIORITIZE_THRESHOLD <=? len (device_indices m) then
      Ok (r, st, wt, dep ++ [Req.rid r])
    else
      let! '(_, wt) := insert clock hash queue_cfg wt key_ (Some (uninit <$> py_range 0 (len prefix_ids))) in
      Ok (r, st, wt, dep)
  else Ok (r, st, wt, dep).

Fixpoint match_all st (wt : cache unit) (dep : list string) waiting_queue :
    res (list Req.t * cache A * cache unit * list string) :=
  match waiting_queue with
  | [] => Ok ([], st, wt, dep)
  | r :: rest =>
      let! '(r, st, wt, dep) := match_one st wt dep r in
      let! '(rest, st, wt, dep) := match_all st wt dep rest in
      Ok (r :: rest, st, wt, dep)
  end.

Definition _compute_prefix_matches s st waiting_queue : res (list Req.t * cache A * schedule_policy * list string) :=
  let wt := reset clock queue_cfg (waiting_queue_radix_tree s) in
  let! '(waiting_queue, st, wt, dep) := match_all st wt [] waiting_queue in
  Ok (waiting_queue, st, set_queue_tree s wt, dep).

(** ** Depth-first weights *)

(** [defaultdict] lookups, and [node_to_weight[k] += n]. *)
Definition weight_of (w : gmap nat Z) (n : nat) : Z := default 0 (w !! n).
Definition reqs_of (d : list (option nat * list Req.t)) (n : option nat) : list Req.t := default [] (dict_get n d).

Definition group_by_last_node waiting_queue : list (option nat * list Req.t) :=
  foldl (λ d r, dict_set (Req.last_node r) (reqs_of d (Req.last_node r) ++ [r]) d) [] waiting_queue.

(** The fuel bounds the depth of the tree. *)
Fixpoint _calc_weight (fuel : nat) st (cur_node : nat) (node_to_weight : gmap nat Z) : res (gmap nat Z) :=
  match fuel with
  | O => Err OutOfFuel
  | S fuel =>
      let! n := get_node st cur_node in
      (fix children_loop (cs : list nat) (w : gmap nat Z) : res (gmap nat Z) :=
         match cs with
         | [] => Ok w
         | child :: cs =>
             let! w := _calc_weight fuel st child w in
             children_loop cs (<[cur_node := weight_of w cur_node + weight_of w child]> w)
         end) (children n).*2 node_to_weight
  end.

Fixpoint _get_dfs_priority (fuel : nat) st (cur_node : nat) (node_to_priority : gmap nat Z)
    (last_node_to_reqs : list (option nat * list Req.t)) (q : list Req.t) : res (list Req.t) :=
  match fuel with
  | O => Err OutOfFuel
  | S fuel =>
      let! n := get_node st cur_node in
      let childs := (children n).*2 in
      let childs := sort_on Z.ltb ((λ x, - weight_of node_to_priority x) <$> childs) childs in
      let! q := (fix childs_loop (cs : list nat) (q : list Req.t) : res (list Req.t) :=
         match cs with
         | [] => Ok q
         | child :: cs =>
             let! q := _get_dfs_priority fuel st child node_to_priority last_node_to_reqs q in
             childs_loop cs q
         end) childs q in
      Ok (q ++ reqs_of last_node_to_reqs (Some cur_node))
  end.

Definition _sort_by_dfs_weight st waiting_queue : res (list Req.t) :=
  let last_node_to_reqs := group_by_last_node waiting_queue in
  let node_to_weight : gmap nat Z :=
    foldl (λ w e, match fst e with Some n => <[n := len (snd e)]> w | None => w end) ∅ last_node_to_reqs in
  let fuel := S (size (heap st)) in
  let! node_to_weight := _calc_weight fuel st (root_node st) node_to_weight in
  _get_dfs_priority fuel st (root_node st) node_to_weight last_node_to_reqs [].

(** ** The whole step: whether prefixes were computed, and the new states *)
Definition calc_priority s st waiting_queue : res (bool * schedule_policy * cache A * list Req.t) :=
  if decide (policy s = Agnostic FCFS) then
    let! q := if enable_priority_scheduling s
              then _sort_by_priority_and_fcfs (schedule_low_priority_values_first s) waiting_queue
              else Ok waiting_queue in
    Ok (false, s, st, q)
  else
    match _determine_active_policy s waiting_queue with
    | Aware p =>
        let! '(q, st, s, temporary_deprioritized) := _compute_prefix_matches s st waiting_queue in
        match p with
        | LPM => Ok (true, s, st, _sort_by_longest_prefix temporary_deprioritized q)
        | DFS_WEIGHT => let! q := _sort_by_dfs_weight st q in Ok (true, s, st, q)
        end
    | Agnostic FCFS => Ok (false, s, st, waiting_queue)
    | Agnostic LOF =>
        let! q := _sort_by_longest_output (enable_priority_scheduling s)
                    (schedule_low_priority_values_first s) waiting_queue in
        Ok (false, s, st, q)
    | Agnostic RANDOM => Ok (false, s, st, shuffle waiting_queue)
    end.
End schedule.
