(* ===== verification/SchedulePolicySpec.v ===== *)
(** * What ordering the waiting queue promises

    The recursive walks over the tree return within the size of the heap; every
    policy reorders the queue without losing or duplicating a request; and a
    request is only put off when an earlier request of the queue, which is not
    put off itself, shares a long prefix with it. *)

From stdpp Require Import gmultiset.
From S2P Require Import Prelude KVAllocator KVAllocatorProofs KVAllocatorSpec.
From S2P Require Import RadixTree RadixInv RadixSplit RadixMatch RadixInsert RadixWalk RadixSpec.
From S2P Require Import Request RequestSpec SchedulePolicy.

(** ** Sorting with keys *)
Lemma sort_on_perm {K T} (ltb : K → K → bool) keys (l : list T) :
  length keys = length l → sort_on ltb keys l ≡ₚ l.
Proof.
  intros Hl. unfold sort_on. rewrite (fmap_Permutation _ _ _ (py_sort_perm _ _)).
  rewrite snd_zip; [done|lia].
Qed.

Lemma sort_on_fmap_perm {K T} (ltb : K → K → bool) (f : T → K) l : sort_on ltb (f <$> l) l ≡ₚ l.
Proof. apply sort_on_perm. apply length_fmap. Qed.

Lemma zip_fmap_fst {K T} (f : T → K) l : zip (f <$> l) l = (λ x, (f x, x)) <$> l.
Proof. induction l as [|x l IH]; [done|]. cbn. f_equal. exact IH. Qed.

(** Sorting by the key [f] gives ascending keys and keeps the order of equals. *)
Section sort_on.
Context {K T : Type} (ltb : K → K → bool) (f : T → K).
Context (Ha : ∀ a b, ltb a b = true → ltb b a = false)
        (Hc : ∀ a b c, ltb a c = true → ltb a b = true ∨ ltb b c = true).
Let pairs (l : list T) := py_sort (λ x y : K * T, ltb x.1 y.1) ((λ x, (f x, x)) <$> l).

Lemma sort_on_pairs l : sort_on ltb (f <$> l) l = snd <$> pairs l.
Proof. unfold sort_on. by rewrite zip_fmap_fst. Qed.

Lemma pairs_keys l : Forall (λ p : K * T, p.1 = f p.2) (pairs l).
Proof. unfold pairs. rewrite py_sort_perm. apply Forall_fmap, Forall_forall. done. Qed.

Lemma sort_on_sorted l : StronglySorted (λ x y, ltb (f y) (f x) = false) (sort_on ltb (f <$> l) l).
Proof.
  rewrite sort_on_pairs. pose proof (pairs_keys l) as HF.
  assert (StronglySorted (not_after (λ x y : K * T, ltb x.1 y.1)) (pairs l)) as HS.
  { apply py_sort_sorted; [intros ??; apply Ha|intros ???; apply Hc]. }
  induction HS as [|p ps _ IH Hp]; cbn; [constructor|]. apply Forall_cons in HF as [E HF].
  constructor; [by apply IH|]. apply Forall_fmap. rewrite Forall_forall in Hp, HF |- *.
  intros q Hq. specialize (Hp q Hq). unfold not_after in Hp. rewrite E, (HF q Hq) in Hp. exact Hp.
Qed.

Lemma sort_on_stable (eqv : K → bool) l :
  (∀ x y, eqv x = true → eqv y = true → ltb x y = false) →
  List.filter (λ x, eqv (f x)) (sort_on ltb (f <$> l) l) = List.filter (λ x, eqv (f x)) l.
Proof.
  intros He. rewrite sort_on_pairs.
  transitivity (snd <$> List.filter (λ p : K * T, eqv p.1) (pairs l)).
  { pose proof (pairs_keys l) as HF. induction HF as [|p ps E _ IH]; [done|]. cbn in *. rewrite <-E.
    destruct (eqv p.1); cbn; [f_equal|]; exact IH. }
  unfold pairs. rewrite py_sort_stable by (intros ??; apply He).
  clear. induction l as [|x l IH]; [done|]. cbn in *. destruct (eqv (f x)); cbn; [f_equal|]; exact IH.
Qed.
End sort_on.

(** ** Grouping requests by their node *)
Lemma reqs_of_set d k rs k' : reqs_of (dict_set k rs d) k' = if decide (k = k') then rs else reqs_of d k'.
Proof.
  unfold reqs_of. case_decide as E; [subst; by rewrite dict_get_set_eq|by rewrite dict_get_set_ne].
Qed.

Lemma reqs_of_group q n : reqs_of (group_by_last_node q) n = filter (λ r, Req.last_node r = n) q.
Proof.
  unfold group_by_last_node. induction q as [|r q IH] using rev_ind; [done|].
  rewrite foldl_app, filter_app. cbn [foldl]. rewrite reqs_of_set, !filter_cons, filter_nil.
  case_decide as E; [subst; by rewrite <-IH|rewrite app_nil_r; exact IH].
Qed.

Lemma bind_single {T} (f g : nat → list T) n x D : NoDup D → n ∈ D →
  (∀ m, m ≠ n → g m = f m) → g n = x :: f n → (D ≫= g) ≡ₚ x :: (D ≫= f).
Proof.
  intros HD Hn Hne Hx.
  assert (∀ l, n ∉ l → (l ≫= g) = (l ≫= f)) as Hl.
  { induction l as [|m l IH]; [done|]. intros [Hm Hl]%not_elem_of_cons. cbn. rewrite Hne by done.
    f_equal. by apply IH. }
  apply list_elem_of_split in Hn as (D1 & D2 & ->).
  apply NoDup_app in HD as (_ & H1 & [H2 _]%NoDup_cons).
  assert (n ∉ D1) as H3 by (intros X; apply (H1 n X), elem_of_cons; by left).
  pose proof (Hl D1 H3) as E1. pose proof (Hl D2 H2) as E2.
  rewrite !bind_app, !bind_cons, E1, E2, Hx, <-app_comm_cons. symmetry. apply Permutation_middle.
Qed.

(** Every request is in the group of exactly one of the nodes [D]. *)
Lemma groups_perm q D : NoDup D → Forall (λ r, ∃ n, n ∈ D ∧ Req.last_node r = Some n) q →
  (D ≫= λ n, filter (λ r, Req.last_node r = Some n) q) ≡ₚ q.
Proof.
  intros HD. induction 1 as [|r q (n & Hn & E) _ IH].
  - clear. induction D; [done|]. done.
  - etrans; [apply (bind_single (λ n, filter (λ r, Req.last_node r = Some n) q) _ n r D HD Hn)|by rewrite IH].
    + intros m Hm. rewrite filter_cons, decide_False; [done|congruence].
    + by rewrite filter_cons, decide_True.
Qed.

(** ** The recursive walks *)
Section dfs.
Context {A : Type} `{KVPool A}.
Context (cfg : config) (G : ghost) (L : gmultiset nat) (st : cache A) (Hinv : cache_wf cfg G L st).

Lemma frontier_node S n X : frontier (G:=G) (W:=hview (heap st)) (S ++ [n]) X →
  ∃ nd, get_node st n = Ok nd ∧ n ∈ X ∧ (size (X ∖ {[n]}) < size X)%nat ∧
    frontier (G:=G) (W:=hview (heap st)) (S ++ (children nd).*2) (X ∖ {[n]}).
Proof.
  intros HF. assert (n ∈ X) as Hn by (apply (fr_in _ _ HF); set_solver).
  destruct (wf_live_view (ci_wf Hinv) n (fr_live _ _ HF n Hn)) as [v Hv].
  destruct (frontier_pop (ci_wf Hinv) S n v X HF Hv) as [HF' _].
  rewrite hview_lookup in Hv. destruct (heap st !! n) as [nd|] eqn:Hnd; [|done]. injection Hv as <-.
  exists nd. split_and!; [by apply get_node_ok|done|apply subset_size; set_solver|exact HF'].
Qed.

(** [D] is what a walk from the last node of a stack visits: the rest of the
    stack has the other nodes left. *)
Definition visits (S : list nat) (X : gset nat) (D : list nat) : Prop :=
  NoDup D ∧ (∀ m, m ∈ D → m ∈ X) ∧ frontier (G:=G) (W:=hview (heap st)) S (X ∖ list_to_set D).

Lemma visits_app S S' X D D' : visits S' X D → visits S (X ∖ list_to_set D) D' → visits S X (D ++ D').
Proof.
  intros (H1 & H2 & _) (H3 & H4 & H5). split_and!.
  - apply NoDup_app. split_and!; [done| |done]. intros m Hm Hm'%H4. set_solver.
  - intros m [|]%elem_of_app; [auto|]. specialize (H4 m). set_solver.
  - rewrite list_to_set_app_L, <-difference_difference_l_L. exact H5.
Qed.

Lemma visits_nil S X : frontier (G:=G) (W:=hview (heap st)) S X → visits S X [].
Proof. intros HF. split_and!; [constructor|set_solver|]. cbn. by rewrite difference_empty_L. Qed.

Lemma visits_snoc S n X D : n ∈ X → visits S (X ∖ {[n]}) D → visits S X (D ++ [n]).
Proof.
  intros HnX (H1 & H2 & H3). split_and!.
  - apply NoDup_app. split_and!; [done| |apply NoDup_singleton]. intros m Hm%H2. set_solver.
  - intros m. specialize (H2 m). set_solver.
  - rewrite list_to_set_app_L. cbn. rewrite union_empty_r_L, (union_comm_L (list_to_set D)), <-difference_difference_l_L. exact H3.
Qed.

Lemma dfs_priority_spec w d fuel : ∀ S n X q,
  frontier (G:=G) (W:=hview (heap st)) (S ++ [n]) X → (size X ≤ fuel)%nat →
  ∃ D, _get_dfs_priority fuel st n w d q = Ok (q ++ (D ≫= λ m, reqs_of d (Some m))) ∧ visits S X D.
Proof.
  induction fuel as [|fuel IH]; intros S n X q HF Hf.
  { destruct (frontier_node _ _ _ HF) as (? & _ & _ & ? & _). lia. }
  destruct (frontier_node _ _ _ HF) as (nd & Hnd & HnX & Hsz & HF').
  cbn [_get_dfs_priority]. rewrite Hnd. cbn [res_bind].
  set (cs := sort_on _ _ _).
  assert (frontier (G:=G) (W:=hview (heap st)) (S ++ reverse cs) (X ∖ {[n]})) as HF2.
  { eapply frontier_perm; [|exact HF']. apply Permutation_app_head. rewrite reverse_Permutation.
    unfold cs. by rewrite sort_on_fmap_perm. }
  clearbody cs. clear HF'. set (Y := X ∖ {[n]}) in *.
  set (loop := fix childs_loop (cs : list nat) (q : list Req.t) : res (list Req.t) := _).
  assert (∀ cs q Y, frontier (G:=G) (W:=hview (heap st)) (S ++ reverse cs) Y → (size Y ≤ fuel)%nat →
    ∃ D, loop cs q = Ok (q ++ (D ≫= λ m, reqs_of d (Some m))) ∧ visits S Y D) as Hloop.
  { clear -IH Hinv. induction cs as [|c cs IHc]; intros q Y HF Hf; cbn [loop].
    - exists []. rewrite app_nil_r in HF |- *. split; [done|by apply visits_nil].
    - rewrite reverse_cons, app_assoc in HF. destruct (IH _ _ _ q HF Hf) as (D & -> & HD). cbn [res_bind].
      destruct (IHc (q ++ (D ≫= λ m, reqs_of d (Some m))) (Y ∖ list_to_set D)) as (D' & -> & HD').
      { apply HD. }
      { pose proof (subseteq_size (Y ∖ list_to_set D) Y ltac:(set_solver)). lia. }
      exists (D ++ D'). rewrite bind_app, app_assoc. split; [done|by eapply visits_app]. }
  destruct (Hloop cs q Y HF2 ltac:(lia)) as (D & -> & HD). cbn [res_bind].
  exists (D ++ [n]). rewrite bind_app. cbn. rewrite app_nil_r, app_assoc. split; [done|].
  by apply visits_snoc.
Qed.

Lemma weight_of_insert w n x m : weight_of (<[n := x]> w) m = if decide (n = m) then x else weight_of w m.
Proof. unfold weight_of. rewrite lookup_insert. by case_decide. Qed.

Lemma weights_ext (w w' : gmap nat Z) D : (∀ m, m ∈ D → weight_of w' m = weight_of w m) →
  sum_Z (weight_of w' <$> D) = sum_Z (weight_of w <$> D).
Proof. intros E. f_equal. apply list_fmap_ext. intros i m Hm%list_elem_of_lookup_2. by apply E. Qed.

(** A walk leaves in a node the sum of the weights it found at and below it. *)
Lemma calc_weight_spec fuel : ∀ S n X w,
  frontier (G:=G) (W:=hview (heap st)) (S ++ [n]) X → (size X ≤ fuel)%nat →
  ∃ D w', _calc_weight fuel st n w = Ok w' ∧ visits S X D ∧
    (∀ m, m ∉ D → weight_of w' m = weight_of w m) ∧ weight_of w' n = sum_Z (weight_of w <$> D).
Proof.
  induction fuel as [|fuel IH]; intros S n X w HF Hf;
    destruct (frontier_node _ _ _ HF) as (nd & Hnd & HnX & Hsz & HF'); [lia|].
  cbn [_calc_weight]. rewrite Hnd. cbn [res_bind].
  set (loop := fix children_loop (cs : list nat) (w : gmap nat Z) : res (gmap nat Z) := _).
  assert (∀ cs w Y, frontier (G:=G) (W:=hview (heap st)) (S ++ reverse cs) Y → (size Y ≤ fuel)%nat → n ∉ Y →
    ∃ D w', loop cs w = Ok w' ∧ visits S Y D ∧ (∀ m, m ∉ D → m ≠ n → weight_of w' m = weight_of w m) ∧
      weight_of w' n = weight_of w n + sum_Z (weight_of w <$> D)) as Hloop.
  { clear -IH Hinv. induction cs as [|c cs IHc]; intros w Y HF Hf Hn; cbn [loop].
    - exists [], w. rewrite app_nil_r in HF. split_and!; [done|by apply visits_nil|done|cbn; lia].
    - rewrite reverse_cons, app_assoc in HF. destruct (IH _ _ _ w HF Hf) as (D & w1 & -> & HD & Hk & Hs).
      cbn [res_bind]. set (w2 := <[n := _]> w1).
      pose proof (subseteq_size (Y ∖ list_to_set D) Y ltac:(set_solver)).
      destruct (IHc w2 (Y ∖ list_to_set D)) as (D' & w' & -> & HD' & Hk' & Hs'); [apply HD|lia|set_solver|].
      assert (n ∉ D) as HnD by (intros ?%(proj1 (proj2 HD)); done).
      assert (∀ m, m ∈ D' → m ≠ n ∧ m ∉ D) as Hdis.
      { intros m Hm%(proj1 (proj2 HD')). set_solver. }
      exists (D ++ D'), w'. split_and!; [done|by eapply visits_app| |].
      + intros m [H1 H2]%not_elem_of_app Hm. rewrite Hk' by done. unfold w2.
        rewrite weight_of_insert, decide_False by done. by apply Hk.
      + rewrite Hs', fmap_app, sum_Z_app. unfold w2 at 1. rewrite weight_of_insert, decide_True by done.
        rewrite Hs, (Hk n HnD), (weights_ext w w2 D'); [lia|]. intros m Hm. destruct (Hdis m Hm).
        unfold w2. rewrite weight_of_insert, decide_False by done. by apply Hk. }
  destruct (Hloop (children nd).*2 w (X ∖ {[n]})) as (D & w' & -> & HD & Hk & Hs).
  { eapply frontier_perm; [|exact HF']. by rewrite reverse_Permutation. }
  { lia. } { set_solver. }
  exists (D ++ [n]), w'. split_and!; [done|by apply visits_snoc| |].
  - intros m [H1 H2]%not_elem_of_app. apply Hk; set_solver.
  - rewrite Hs, fmap_app, sum_Z_app. cbn. lia.
Qed.

Lemma visits_all D : visits [] (dom G) D → D ≡ₚ elements (dom G).
Proof.
  intros (H1 & H2 & H3%(frontier_nil (ci_wf Hinv))). apply NoDup_Permutation; [done|apply NoDup_elements|].
  intros m. rewrite elem_of_elements. split; [apply H2|]. intros Hm.
  destruct (decide (m ∈ D)); [done|]. set_solver.
Qed.

(** The result of the depth-first policy: for each node of the tree, in some
    order, the requests that ended there, in the order they arrived. *)
Lemma sort_by_dfs_spec q : ∃ D, D ≡ₚ elements (dom G) ∧
  _sort_by_dfs_weight st q = Ok (D ≫= λ n, filter (λ r, Req.last_node r = Some n) q).
Proof.
  unfold _sort_by_dfs_weight. pose proof (dom_ghost_size _ _ _ _ _ Hinv) as Hs.
  pose proof (frontier_root (ci_wf Hinv)) as HF.
  set (w0 := foldl _ _ _).
  destruct (calc_weight_spec (S (size (heap st))) [] (root_node st) (dom G) w0 HF) as (_ & w & -> & _); [lia|].
  cbn [res_bind].
  destruct (dfs_priority_spec w (group_by_last_node q) (S (size (heap st))) [] (root_node st) (dom G) [] HF)
    as (D & -> & HD); [lia|]. exists D. split; [by apply visits_all|]. cbn [app]. f_equal.
  apply list_bind_ext; [|done]. intros m. apply reqs_of_group.
Qed.
End dfs.

(** ** Matching the queue against the tree *)
Definition tokens (r : Req.t) : list token := TInt <$> Req.origin_input_ids r ++ Req.output_ids r.

(** [r'] is [r] with the result of the lookup of its tokens. *)
Definition found (r : Req.t) (idx : list Z) (n : nat) : Req.t :=
  Req.set_host_hit_length (Req.set_last_node (Req.set_prefix_indices r idx) (Some n)) 0.

(** The first [k] tokens of both requests are the same, under the same extra key. *)
Definition shares (k : nat) (r0 r : Req.t) : Prop :=
  Req.extra_key r0 = Req.extra_key r ∧ (k ≤ length (tokens r))%nat ∧ take k (tokens r) `prefix_of` tokens r0.

(** The queue's tree only holds prefixes of the requests in [seen]. *)
Definition covers (seen : list Req.t) (Gw : ghost) (wt : cache unit) : Prop :=
  ∀ e t i, cached queue_cfg Gw wt e t i → t ≠ [] →
    ∃ r0, r0 ∈ seen ∧ Req.extra_key r0 = e ∧ t `prefix_of` tokens r0.

Section queue.
Context {A : Type} `{KVPool A}.
Context (clock : nat → Z) (hash : list token → Z) (cfg : config) (uninit : Z → Z) (check threshold : Z).
Context (Hen : disable cfg = false) (Hth : 0 < threshold).
Implicit Types (st : cache A) (wt : cache unit).
Abbreviation match_one := (match_one clock hash cfg uninit check threshold).
Abbreviation match_all := (match_all clock hash cfg uninit check threshold).

(** [r'] is [r] with the longest prefix that [st] has for it, at a node of the
    tree [G']. *)
Definition looked_up (G : ghost) st (G' : ghost) (r r' : Req.t) : Prop :=
  ∃ idx n, r' = found r idx n ∧ is_Some (G' !! n) ∧
    let toks := lookup_tokens cfg (mkKey (tokens r) (Req.extra_key r)) in
    (idx ≠ [] → cached cfg G st (Req.extra_key r) (take (length idx) toks) idx) ∧
    ∀ t i, cached cfg G st (Req.extra_key r) t i → t `prefix_of` toks → (length t ≤ length idx)%nat.

Lemma looked_up_mono G st G1 st1 G' G'' r r' :
  refines cfg G st G1 st1 → G' ⊆ G'' → looked_up G1 st1 G' r r' → looked_up G st G'' r r'.
Proof.
  intros Hrf HG (idx & n & -> & [g Hn] & Hc & Hm). exists idx, n. split; [done|]. split.
  { exists g. by eapply lookup_weaken. }
  intros toks. split.
  - intros Hi. apply (rf_cached Hrf). by apply Hc.
  - intros t i Ht%(rf_cached Hrf). by apply (Hm t i).
Qed.

Lemma queue_lookup_tokens k : lookup_tokens queue_cfg k = token_ids k.
Proof. unfold lookup_tokens. rewrite aligned_1 by done. done. Qed.

(** One lookup in the queue's tree. *)
Lemma queue_match Gw wt seen r : cache_wf queue_cfg Gw ∅ wt → covers seen Gw wt →
  ∃ m wt' Gw', match_prefix clock hash queue_cfg wt (mkKey (tokens r) (Req.extra_key r)) = Ok (m, wt') ∧
    cache_wf queue_cfg Gw' ∅ wt' ∧ covers seen Gw' wt' ∧
    (threshold ≤ len (device_indices m) → ∃ r0, r0 ∈ seen ∧ shares (Z.to_nat threshold) r0 r).
Proof.
  intros Hw Hcov. set (key_ := mkKey _ _).
  destruct (match_prefix_spec clock hash queue_cfg Gw ∅ wt key_ Hw eq_refl) as (m & wt' & Gw' & E & Hw' & Hrf & Hm).
  exists m, wt', Gw'. split_and!; [done|done| |].
  - intros e t i Ht%(rf_cached Hrf). by apply (Hcov e t i).
  - intros Hlen. destruct (matched_facts _ _ _ _ _ _ _ _ _ Hw Hw' Hrf Hm) as [Hc _].
    destruct Hm as (Hk & _). rewrite queue_lookup_tokens in *. cbn [token_ids extra_key key_] in *.
    unfold len in Hlen. set (k := length (device_indices m)) in *.
    assert (k ≠ 0%nat) as Hk0 by lia. destruct (Hcov _ _ _ (Hc Hk0)) as (r0 & Hr0 & He & Hp).
    { intros E0%(f_equal length). rewrite length_take_le in E0 by done. cbn in E0. lia. }
    exists r0. split; [done|]. split_and!; [done|lia|]. etrans; [|exact Hp].
    exists (drop (Z.to_nat threshold) (take k (tokens r))).
    rewrite <-(take_drop (Z.to_nat threshold) (take k (tokens r))) at 1. f_equal. rewrite take_take. f_equal. lia.
Qed.

Lemma queue_insert Gw wt seen r v : cache_wf queue_cfg Gw ∅ wt → covers seen Gw wt → length v = length (tokens r) →
  ∃ k wt' Gw', insert clock hash queue_cfg wt (mkKey (tokens r) (Req.extra_key r)) (Some v) = Ok (k, wt') ∧
    cache_wf queue_cfg Gw' ∅ wt' ∧ covers (seen ++ [r]) Gw' wt'.
Proof.
  intros Hw Hcov Hv. set (key_ := mkKey _ _).
  destruct (insert_spec clock hash queue_cfg Gw ∅ wt key_ v Hw eq_refl) as (k & wt' & Gw' & I & E & Hw' & Hins);
    [apply Nat.divide_1_l|done|]. exists k, wt', Gw'. split_and!; [done..|].
  intros e t i [Ht|(_ & -> & Hp & _)]%(is_cached _ _ _ _ _ _ _ _ _ _ Hins) Hne.
  - destruct (Hcov e t i Ht Hne) as (r0 & ? & ?). exists r0. split; [set_solver|done].
  - exists r. split; [set_solver|]. done.
Qed.

(** What a step does: the tree keeps its content, the request gets its lookup,
    and it is put off, remembered in the queue's tree, or neither. *)
Lemma match_one_spec G L st Gw wt seen dep r :
  cache_wf cfg G L st → cache_wf queue_cfg Gw ∅ wt → covers seen Gw wt →
  ∃ r' st' G' wt' Gw' dep' seen', match_one st wt dep r = Ok (r', st', wt', dep') ∧
    cache_wf cfg G' L st' ∧ refines cfg G st G' st' ∧ looked_up G st G' r r' ∧
    cache_wf queue_cfg Gw' ∅ wt' ∧ covers seen' Gw' wt' ∧
    ((dep' = dep ++ [Req.rid r] ∧ seen' = seen ∧ ∃ r0, r0 ∈ seen ∧ shares (Z.to_nat threshold) r0 r) ∨
     (dep' = dep ∧ (seen' = seen ∨ seen' = seen ++ [r]))).
Proof.
  intros Hinv Hw Hcov. unfold SchedulePolicy.match_one. fold (tokens r). set (key_ := mkKey (tokens r) _).
  destruct (match_prefix_spec clock hash cfg G L st key_ Hinv Hen) as (m & st' & G' & -> & Hinv' & Hrf & Hm).
  cbn [res_bind]. fold (found r (device_indices m) (last_device_node m)).
  change (len (Req.prefix_indices _)) with (len (device_indices m)). set (r' := found _ _ _).
  assert (looked_up G st G' r r') as Hlk.
  { destruct (matched_facts cfg _ _ _ _ _ _ _ _ Hinv Hinv' Hrf Hm) as [Hc _]. destruct Hm as (_ & _ & Hl & _ & Hmax).
    exists (device_indices m), (last_device_node m). split; [done|]. split; [eauto|]. intros toks. split.
    - intros Hi. apply Hc. intros ?%nil_length_inv. done.
    - exact Hmax. }
  assert (∀ dep' wt' Gw' seen', cache_wf queue_cfg Gw' ∅ wt' → covers seen' Gw' wt' →
    ((dep' = dep ++ [Req.rid r] ∧ seen' = seen ∧ ∃ r0, r0 ∈ seen ∧ shares (Z.to_nat threshold) r0 r) ∨
     (dep' = dep ∧ (seen' = seen ∨ seen' = seen ++ [r]))) →
    ∃ r1 st1 G1 wt1 Gw1 dep1 seen1, Ok (r', st', wt', dep') = Ok (r1, st1, wt1, dep1) ∧
      cache_wf cfg G1 L st1 ∧ refines cfg G st G1 st1 ∧ looked_up G st G1 r r1 ∧
      cache_wf queue_cfg Gw1 ∅ wt1 ∧ covers seen1 Gw1 wt1 ∧
      ((dep1 = dep ++ [Req.rid r] ∧ seen1 = seen ∧ ∃ r0, r0 ∈ seen ∧ shares (Z.to_nat threshold) r0 r) ∨
       (dep1 = dep ∧ (seen1 = seen ∨ seen1 = seen ++ [r])))) as Hdone.
  { intros dep' wt' Gw' seen' ? ? ?. exists r', st', G', wt', Gw', dep', seen'. split_and!; done. }
  subst key_. case_if; [|apply (Hdone dep wt Gw seen); try done; right; by eauto].
  destruct (queue_match Gw wt seen r Hw Hcov) as (mw & wt1 & Gw1 & -> & Hw1 & Hcov1 & Hsh). cbn [res_bind].
  destruct (Z.leb_spec threshold (len (device_indices mw))) as [Hle|_].
  - apply (Hdone _ wt1 Gw1 seen); [done..|]. left. eauto.
  - destruct (queue_insert Gw1 wt1 seen r (uninit <$> py_range 0 (len (Req.origin_input_ids r ++ Req.output_ids r))) Hw1 Hcov1)
      as (k & wt2 & Gw2 & -> & Hw2 & Hcov2).
    { unfold tokens. rewrite !length_fmap, length_py_range. unfold len. lia. }
    cbn [res_bind]. apply (Hdone dep wt2 Gw2 (seen ++ [r])); [done..|]. right. eauto.
Qed.

(** Over the whole queue: [off] are put off, [kept] are not. *)
Lemma match_all_spec q : ∀ G L st Gw wt seen dep,
  cache_wf cfg G L st → cache_wf queue_cfg Gw ∅ wt → covers seen Gw wt →
  ∃ q' st' G' wt' off kept, match_all st wt dep q = Ok (q', st', wt', dep ++ (Req.rid <$> off)) ∧
    cache_wf cfg G' L st' ∧ refines cfg G st G' st' ∧ Forall2 (looked_up G st G') q q' ∧
    kept ++ off ≡ₚ q ∧
    ∀ r, r ∈ off → ∃ q1 q2 r0, q = q1 ++ r :: q2 ∧ (r0 ∈ seen ∨ r0 ∈ kept ∧ r0 ∈ q1) ∧
      shares (Z.to_nat threshold) r0 r.
Proof.
  induction q as [|r q IH]; intros G L st Gw wt seen dep Hinv Hw Hcov; cbn [SchedulePolicy.match_all].
  { exists [], st, G, wt, [], []. rewrite app_nil_r. split_and!; [done|done|apply refines_refl|done|done|set_solver]. }
  destruct (match_one_spec G L st Gw wt seen dep r Hinv Hw Hcov)
    as (r' & st1 & G1 & wt1 & Gw1 & dep1 & seen1 & -> & Hinv1 & Hrf1 & Hlk & Hw1 & Hcov1 & Hcase). cbn [res_bind].
  destruct (IH G1 L st1 Gw1 wt1 seen1 dep1 Hinv1 Hw1 Hcov1)
    as (q' & st2 & G2 & wt2 & off & kept & -> & Hinv2 & Hrf2 & Hq & Hsub & Hoff). cbn [res_bind].
  assert (Forall2 (looked_up G st G2) (r :: q) (r' :: q')) as Hq2.
  { constructor.
    - eapply looked_up_mono; [apply refines_refl|apply (rf_ghost Hrf2)|done].
    - eapply Forall2_impl; [exact Hq|]. intros x x'. by apply looked_up_mono. }
  assert (refines cfg G st G2 st2) as Hrf by by eapply refines_trans.
  exists (r' :: q'), st2, G2, wt2.
  destruct Hcase as [(-> & -> & r0 & Hr0 & Hsh)|(-> & Hseen)].
  - exists (r :: off), kept. rewrite <-app_assoc. split_and!; try done.
    + by rewrite <-Permutation_middle, Hsub.
    + intros x [->|Hx]%elem_of_cons; [exists [], q, r0; eauto|].
      destruct (Hoff x Hx) as (q1 & q2 & x0 & -> & Hx0 & ?). exists (r :: q1), q2, x0. split_and!; [done| |done].
      set_solver.
  - exists off, (r :: kept). split_and!; try done.
    + cbn. by rewrite Hsub.
    + intros x Hx. destruct (Hoff x Hx) as (q1 & q2 & x0 & -> & Hx0 & ?). exists (r :: q1), q2, x0.
      split_and!; [done| |done]. destruct Hseen; subst; set_solver.
Qed.
End queue.

(** ** The theorems *)
Section policy.
Context {A : Type} `{KVPool A}.
Context (clock : nat → Z) (hash : list token → Z) (cfg : config).
Context (entry_time : Req.t → Z) (shuffle : list Req.t → list Req.t) (uninit : Z → Z) (check threshold : Z).
Context (Hen : disable cfg = false) (Hth : 0 < threshold) (Hsh : ∀ l, shuffle l ≡ₚ l).
Implicit Types (st : cache A) (s : schedule_policy).

(** Node numbers of the queue's tree are below its counter. *)
Definition queue_fresh s : Prop :=
  ∀ n, is_Some (heap (waiting_queue_radix_tree s) !! n) → (n < counter (waiting_queue_radix_tree s))%nat.
Definition prioritised s (q : list Req.t) : Prop :=
  enable_priority_scheduling s = true → Forall (λ r, is_Some (Req.priority r)) q.

Lemma compute_prefix_matches_spec G L st s q : cache_wf cfg G L st → queue_fresh s →
  ∃ q' st' G' wt off kept,
    _compute_prefix_matches clock hash cfg uninit check threshold s st q =
      Ok (q', st', set_queue_tree s wt, Req.rid <$> off) ∧
    cache_wf cfg G' L st' ∧ refines cfg G st G' st' ∧ Forall2 (looked_up cfg G st G') q q' ∧ kept ++ off ≡ₚ q ∧
    ∀ r, r ∈ off → ∃ q1 q2 r0, q = q1 ++ r :: q2 ∧ r0 ∈ kept ∧ r0 ∈ q1 ∧ shares (Z.to_nat threshold) r0 r.
Proof.
  intros Hinv Hf. unfold _compute_prefix_matches.
  pose proof (reset_wf clock queue_cfg _ ltac:(done) Hf) as Hw.
  destruct (match_all_spec clock hash cfg uninit check threshold Hen Hth q G L st _ _ [] [] Hinv Hw)
    as (q' & st' & G' & wt & off & kept & -> & ? & ? & ? & ? & Hoff).
  { intros e t i []%reset_cached. }
  cbn [res_bind app]. exists q', st', G', wt, off, kept. split_and!; [done..|].
  intros r Hr. destruct (Hoff r Hr) as (q1 & q2 & r0 & -> & [?%not_elem_of_nil|[? ?]] & ?); [done|].
  exists q1, q2, r0. done.
Qed.

Lemma mapM_priorities (f : Req.t → Z → Z) q : Forall (λ r, is_Some (Req.priority r)) q →
  ∃ ps, mapM_res (λ r, let! p := of_opt TypeError (Req.priority r) in Ok (f r p)) q = Ok ps ∧ length ps = length q.
Proof.
  induction 1 as [|r q [p E] _ (ps & IH & Hl)]; [by exists []|]. cbn [mapM_res]. rewrite E. cbn [of_opt res_bind].
  rewrite IH. cbn [res_bind]. exists (f r p :: ps). cbn. by rewrite Hl.
Qed.

Lemma priorities_ok low q : Forall (λ r, is_Some (Req.priority r)) q →
  ∃ ps, priorities low q = Ok ps ∧ length ps = length q.
Proof.
  intros HF. unfold priorities, plain_priorities, negated_priorities. destruct low.
  - destruct (forallb _ q); [eexists; split; [done|apply length_fmap]|].
    destruct (mapM_priorities (λ _ p, p) q HF) as (ps & E & Hl). exists ps. split; [|done]. rewrite <-E.
    clear. induction q as [|r q IH]; [done|]. cbn. rewrite IH. by destruct (Req.priority r).
  - apply (mapM_priorities (λ _ p, - p) q HF).
Qed.

Lemma zip_length {X Y} (l : list X) (k : list Y) : length l = length k → length (zip l k) = length k.
Proof. intros E. rewrite length_zip_with. lia. Qed.

Lemma sort_priority_ok low q : Forall (λ r, is_Some (Req.priority r)) q →
  ∃ q', _sort_by_priority_and_fcfs entry_time low q = Ok q' ∧ q' ≡ₚ q.
Proof.
  intros HF. destruct (priorities_ok low q HF) as (ps & E & Hl). unfold _sort_by_priority_and_fcfs.
  rewrite E. cbn [res_bind]. eexists. split; [done|]. apply sort_on_perm.
  rewrite zip_length; rewrite length_fmap; done.
Qed.

Lemma sort_output_ok prio low q : (prio = true → Forall (λ r, is_Some (Req.priority r)) q) →
  ∃ q', _sort_by_longest_output prio low q = Ok q' ∧ q' ≡ₚ q.
Proof.
  intros HF. unfold _sort_by_longest_output. destruct prio.
  - destruct (priorities_ok low q (HF eq_refl)) as (ps & E & Hl). rewrite E. cbn [res_bind]. eexists.
    split; [done|]. apply sort_on_perm. rewrite zip_length; rewrite length_fmap; done.
  - eexists. split; [done|]. apply sort_on_fmap_perm.
Qed.

(** The nodes of the lookups are nodes of the tree, so that the walk finds all
    requests. *)
Lemma sort_by_dfs_perm G st G' L st' q q' : cache_wf cfg G' L st' → Forall2 (looked_up cfg G st G') q q' →
  ∃ q2, _sort_by_dfs_weight st' q' = Ok q2 ∧ q2 ≡ₚ q'.
Proof.
  intros Hinv HF. destruct (sort_by_dfs_spec cfg G' L st' Hinv q') as (D & HD & ->).
  eexists. split; [done|]. apply groups_perm; [rewrite HD; apply NoDup_elements|].
  rewrite Forall_forall. intros r' Hr'. apply list_elem_of_lookup in Hr' as [i Hi].
  destruct (Forall2_lookup_r _ _ _ _ _ HF Hi) as (r & _ & idx & n & -> & Hn & _).
  exists n. split; [|done]. rewrite HD. apply elem_of_elements. by apply elem_of_dom.
Qed.
End policy.

(** C17. Ordering the waiting queue loses and duplicates nothing: whatever the
    policy, [calc_priority] returns (the recursive walks over the radix tree
    included), the new queue is a permutation of the old one, in which, when it
    says that prefixes were computed, every request has got the longest prefix
    the cache holds for it, and the cache keeps its content and its locks. *)
Theorem calc_priority_permutes {A} `{KVPool A} clock hash cfg entry_time shuffle uninit check threshold
    G L (st : cache A) s q
    (Hen : disable cfg = false) (Hth : 0 < threshold) (Hsh : ∀ l, shuffle l ≡ₚ l)
    (Hinv : cache_wf cfg G L st) (Hf : queue_fresh s) (Hp : prioritised s q) :
  ∃ computed s' st' G' q1 q', calc_priority clock hash cfg entry_time shuffle uninit check threshold s st q =
      Ok (computed, s', st', q') ∧ q' ≡ₚ q1 ∧
    (if computed : bool then Forall2 (looked_up cfg G st G') q q1 else q1 = q) ∧
    cache_wf cfg G' L st' ∧ refines cfg G st G' st' ∧ policy s' = policy s.
Proof.
  unfold calc_priority.
  assert (∀ q', q' ≡ₚ q → ∃ computed s' st' G' q1 q'',
    Ok (false, s, st, q') = Ok (computed, s', st', q'') ∧ q'' ≡ₚ q1 ∧
    (if computed : bool then Forall2 (looked_up cfg G st G') q q1 else q1 = q) ∧
    cache_wf cfg G' L st' ∧ refines cfg G st G' st' ∧ policy s' = policy s) as Hplain.
  { intros q' HP. exists false, s, st, G, q, q'. split_and!; done || apply refines_refl. }
  case_decide as Epol.
  { destruct (enable_priority_scheduling s) eqn:Ee; [|by apply Hplain].
    destruct (sort_priority_ok entry_time (schedule_low_priority_values_first s) q (Hp Ee)) as (q' & -> & HP).
    by apply Hplain. }
  destruct (_determine_active_policy s q) as [p|[]]; [|by apply Hplain| |exact (Hplain _ (Hsh q))].
  2: { destruct (sort_output_ok (enable_priority_scheduling s) (schedule_low_priority_values_first s) q Hp)
         as (q' & -> & HP). by apply Hplain. }
  destruct (compute_prefix_matches_spec clock hash cfg uninit check threshold Hen Hth G L st s q Hinv Hf)
    as (q1 & st' & G' & wt & off & kept & -> & Hinv' & Hrf & Hq & _). cbn [res_bind]. destruct p.
  - do 6 eexists. split; [done|]. split_and!; [apply sort_on_fmap_perm|done..].
  - destruct (sort_by_dfs_perm cfg G st G' L st' q q1 Hinv' Hq) as (q2 & -> & HP).
    do 6 eexists. split; [done|]. split_and!; [exact HP|done..].
Qed.

(** Distinct ids identify the requests. *)
Lemma rid_inj (q : list Req.t) : NoDup (Req.rid <$> q) → ∀ x y, x ∈ q → y ∈ q → Req.rid x = Req.rid y → x = y.
Proof.
  intros Hnd x y [i Hi]%list_elem_of_lookup [j Hj]%list_elem_of_lookup E.
  assert (i = j) as ->; [|congruence]. eapply (NoDup_lookup _ i j (Req.rid x) Hnd); rewrite list_lookup_fmap.
  - by rewrite Hi.
  - by rewrite Hj, E.
Qed.

(** In-batch prefix caching puts a request off only for the sake of another:
    each request that [_compute_prefix_matches] marks shares at least
    [IN_BATCH_PREFIX_CACHING_DEPRIORITIZE_THRESHOLD] leading tokens, under the
    same extra key, with a request that comes earlier in the queue and is not
    marked, so that the shared prefix is about to be computed. *)
Theorem put_off_shares_prefix {A} `{KVPool A} clock hash cfg uninit check threshold G L (st : cache A) s q
    (Hen : disable cfg = false) (Hth : 0 < threshold) (Hinv : cache_wf cfg G L st) (Hf : queue_fresh s)
    (Hnd : NoDup (Req.rid <$> q)) :
  ∃ q' st' s' dep, _compute_prefix_matches clock hash cfg uninit check threshold s st q = Ok (q', st', s', dep) ∧
    ∀ r, r ∈ q → Req.rid r ∈ dep → ∃ q1 q2 r0, q = q1 ++ r :: q2 ∧ r0 ∈ q1 ∧ Req.rid r0 ∉ dep ∧
      shares (Z.to_nat threshold) r0 r.
Proof.
  destruct (compute_prefix_matches_spec clock hash cfg uninit check threshold Hen Hth G L st s q Hinv Hf)
    as (q' & st' & G' & wt & off & kept & -> & _ & _ & _ & HP & Hoff).
  do 4 eexists. split; [done|]. intros r Hr Hdep.
  pose proof (rid_inj q Hnd) as Hinj.
  apply list_elem_of_fmap in Hdep as (r' & E & Hr'). assert (r' ∈ q) by (rewrite <-HP; set_solver).
  assert (r' = r) as -> by auto. destruct (Hoff r Hr') as (q1 & q2 & r0 & Eq & Hk & H1 & ?).
  exists q1, q2, r0. split_and!; [done..| |done]. intros (r1 & E1 & Hr1)%list_elem_of_fmap.
  assert (r1 = r0) as -> by (apply Hinj; [rewrite <-HP; set_solver|rewrite <-HP; set_solver|done]).
  rewrite <-HP, fmap_app in Hnd. apply NoDup_app in Hnd as (_ & Hd & _).
  apply (Hd (Req.rid r0)); apply list_elem_of_fmap; eauto.
Qed.

(** The longest-prefix order: a request that is not put off comes before
    those that are, and before those with a shorter cached prefix; requests with
    equally long prefixes, and those put off, keep the order of the queue. *)
Theorem longest_prefix_order (dep : list string) q :
  let off r := bool_decide (Req.rid r ∈ dep) in
  StronglySorted (λ x y, off y = false → off x = false ∧ len (Req.prefix_indices y) ≤ len (Req.prefix_indices x))
    (_sort_by_longest_prefix dep q) ∧
  (∀ k, List.filter (λ r, negb (off r) && (len (Req.prefix_indices r) =? k)) (_sort_by_longest_prefix dep q) =
     List.filter (λ r, negb (off r) && (len (Req.prefix_indices r) =? k)) q) ∧
  List.filter off (_sort_by_longest_prefix dep q) = List.filter off q.
Proof.
  intros off. set (f r := if off r then None else Some (- len (Req.prefix_indices r))).
  change (_sort_by_longest_prefix dep q) with (sort_on inf_ltb (f <$> q) q). split_and!.
  - assert (StronglySorted (λ x y, inf_ltb (f y) (f x) = false) (sort_on inf_ltb (f <$> q) q)) as HS.
    { apply sort_on_sorted.
      - intros [a|] [b|]; cbn; [rewrite Z.ltb_lt, Z.ltb_ge; lia|done..].
      - intros [a|] [b|] [c|]; cbn; rewrite ?Z.ltb_lt; try (by left); try (by right); try done. lia. }
    eapply StronglySorted_ind with (P := λ l, StronglySorted _ l); [constructor| |exact HS].
    intros x l _ IH Hx. constructor; [done|]. eapply Forall_impl; [exact Hx|].
    intros y. cbn. unfold f. destruct (off x), (off y); cbn; try done. rewrite Z.ltb_ge. lia.
  - intros k. pose proof (sort_on_stable inf_ltb f (λ o, match o with Some a => a =? - k | None => false end) q) as Hst.
    assert (∀ r, (match f r with Some a => a =? - k | None => false end) =
      negb (off r) && (len (Req.prefix_indices r) =? k)) as Ef.
    { intros r. unfold f. destruct (off r); [done|]. cbn. apply eq_iff_eq_true. rewrite !Z.eqb_eq. lia. }
    rewrite (List.filter_ext _ _ Ef), (List.filter_ext _ _ Ef) in Hst. apply Hst.
    intros [a|] [b|]; try done. rewrite !Z.eqb_eq. cbn. rewrite Z.ltb_ge. lia.
  - pose proof (sort_on_stable inf_ltb f (λ o, match o with Some a => false | None => true end) q) as Hst.
    assert (∀ r, (match f r with Some a => false | None => true end) = off r) as Ef.
    { intros r. unfold f. by destruct (off r). }
    rewrite (List.filter_ext _ _ Ef), (List.filter_ext _ _ Ef) in Hst. apply Hst.
    by intros [a|] [b|].
Qed.

(** ** Witnesses: the cache of [Demo], which holds 11, 12, 13, and two requests *)
Module QueueDemo.
Definition req (id : string) (toks : list Z) : Req.t :=
  Req_init id toks demo_params false None None [] (Some 100) None None.
Definition queue : list Req.t := [req "a" [11; 30; 31]; req "b" [11; 12; 32]; req "c" [11; 30; 33]].
Definition no_nodes : cache unit := mkCache ∅ 0 0 0 0 0 [] tt.
Definition dfs : schedule_policy := mkPolicy (Aware DFS_WEIGHT) false false no_nodes.
Definition run := calc_priority Z.of_nat Demo.no_hash Demo.cfg (λ _, 0) id id 8 2 dfs Demo.full queue.

Lemma fresh : queue_fresh dfs.
Proof. intros n [x Hx]. done. Qed.
End QueueDemo.

Lemma calc_priority_permutes_witness :
  (match QueueDemo.run with Ok (_, _, _, q) => Req.rid <$> q | Err _ => [] end) = ["b"; "a"; "c"]%string ∧
  ∃ computed s' st' q', QueueDemo.run = Ok (computed, s', st', q') ∧ length q' = 3%nat.
Proof.
  split; [vm_compute; reflexivity|]. destruct Demo.full_ok as (G & Hinv & _ & _).
  destruct (calc_priority_permutes Z.of_nat Demo.no_hash Demo.cfg (λ _, 0) id id 8 2 G ∅ Demo.full
    QueueDemo.dfs QueueDemo.queue eq_refl eq_refl (λ l, Permutation_refl l) Hinv QueueDemo.fresh
    ltac:(intros E; discriminate E))
    as (computed & s' & st' & G' & q1 & q' & Heq & HP & Hq & _).
  exists computed, s', st', q'. split; [exact Heq|]. rewrite HP.
  destruct computed; [|by rewrite Hq]. by rewrite <-(Forall2_length _ _ _ Hq).
Defined.

Lemma put_off_shares_prefix_witness :
  (match _compute_prefix_matches Z.of_nat Demo.no_hash Demo.cfg id 8 2 QueueDemo.dfs Demo.full QueueDemo.queue with
   | Ok (_, _, _, dep) => dep | Err _ => [] end) = ["c"]%string ∧
  ∃ q1 q2 r0, QueueDemo.queue = q1 ++ QueueDemo.req "c" [11; 30; 33] :: q2 ∧ r0 ∈ q1.
Proof.
  split; [vm_compute; reflexivity|].
  assert (match _compute_prefix_matches Z.of_nat Demo.no_hash Demo.cfg id 8 2 QueueDemo.dfs Demo.full QueueDemo.queue with
   | Ok (_, _, _, dep) => dep | Err _ => [] end = ["c"]%string) as Hdep by (vm_compute; reflexivity).
  destruct Demo.full_ok as (G & Hinv & _ & _).
  destruct (put_off_shares_prefix Z.of_nat Demo.no_hash Demo.cfg id 8 2 G ∅ Demo.full QueueDemo.dfs QueueDemo.queue
    eq_refl eq_refl Hinv QueueDemo.fresh ltac:(by_decide)) as (q' & st' & s' & dep & Heq & Hsh).
  rewrite Heq in Hdep. subst dep.
  destruct (Hsh (QueueDemo.req "c" [11; 30; 33])) as (q1 & q2 & r0 & H1 & H2 & _).
  - unfold QueueDemo.queue. rewrite !elem_of_cons. right; right; left. reflexivity.
  - by_decide.
  - exists q1, q2, r0. exact (conj H1 H2).
Defined.
