(* ===== verification/ScheduleBatch.v ===== *)
(** * Batches of the scheduler ([ScheduleBatch] of [managers/schedule_batch.py])

    A batch keeps its requests and, in parallel, the tensors the model runner
    reads: one entry per request in each of them.  The cache, its allocator and
    the request table are a [CacheHost] that the operations thread through.
    Tensors that are [None] until a batch is prepared are options; using one
    raises [TypeError].  The attributes of a request that only the batch copies
    ([stream], [return_hidden_states], [top_logprobs_num], [token_ids_logprob]
    and the [num_image_tokens] of its multimodal inputs) are parameters.
    Speculative decoding is off; the sampling tensors, input embeddings and the
    usage counter [cached_tokens] are left out. *)

From Stdlib Require Import QArith.QArith_base.
From S2P Require Import Prelude KVAllocator ReqPool Request RadixTree PrefixCache RadixReq ChunkCache CacheCommon.
#[local] Open Scope Z_scope.

(** ** [ForwardMode] of [model_executor/forward_batch_info.py] *)
Inductive ForwardMode :=
  | EXTEND | DECODE | MIXED | IDLE | TARGET_VERIFY | DRAFT_EXTEND | DRAFT_EXTEND_V2 | PREBUILT | SPLIT_PREFILL.
#[global] Instance ForwardMode_eq_dec : EqDecision ForwardMode.
Proof. solve_decision. Defined.

(** ** The state *)
Module Batch.
#[projections(primitive)] Record t := mk {
  reqs : list Req.t;
  is_hybrid : bool;
  forward_mode : option ForwardMode;
  enable_overlap : bool;
  input_ids : option (list Z);
  req_pool_indices : option (list Z);
  seq_lens : option (list Z);
  seq_lens_cpu : option (list Z);
  out_cache_loc : option (list Z);
  output_ids : option (list Z);
  multimodal_inputs : option (list (option (option Z)));
  seq_lens_sum : option Z;
  orig_seq_lens : option (list Z);
  return_logprob : bool;
  top_logprobs_nums : option (list Z);
  token_ids_logprobs : option (list (option (list Z)));
  prefix_lens : option (list Z);
  extend_lens : option (list Z);
  extend_num_tokens : option Z;
  extend_logprob_start_lens : option (list Z);
  extend_input_logprob_token_ids : option (list Z);
  encoder_cached : option (list bool);
  encoder_lens : option (list Z);
  encoder_lens_cpu : option (list Z);
  encoder_out_cache_loc : option (list Z);
  has_stream : bool;
  has_grammar : bool;
  return_hidden_states : bool;
  is_prefill_only : bool
}.
Definition set_reqs (b : t) (x : list Req.t) : t := mk x (is_hybrid b) (forward_mode b) (enable_overlap b)
  (input_ids b) (req_pool_indices b) (seq_lens b) (seq_lens_cpu b) (out_cache_loc b) (output_ids b)
  (multimodal_inputs b) (seq_lens_sum b) (orig_seq_lens b) (return_logprob b) (top_logprobs_nums b)
  (token_ids_logprobs b) (prefix_lens b) (extend_lens b) (extend_num_tokens b) (extend_logprob_start_lens b)
  (extend_input_logprob_token_ids b) (encoder_cached b) (encoder_lens b) (encoder_lens_cpu b)
  (encoder_out_cache_loc b) (has_stream b) (has_grammar b) (return_hidden_states b) (is_prefill_only b).
Definition set_forward_mode (b : t) (x : option ForwardMode) : t := mk (reqs b) (is_hybrid b) x
  (enable_overlap b) (input_ids b) (req_pool_indices b) (seq_lens b) (seq_lens_cpu b) (out_cache_loc b)
  (output_ids b) (multimodal_inputs b) (seq_lens_sum b) (orig_seq_lens b) (return_logprob b)
  (top_logprobs_nums b) (token_ids_logprobs b) (prefix_lens b) (extend_lens b) (extend_num_tokens b)
  (extend_logprob_start_lens b) (extend_input_logprob_token_ids b) (encoder_cached b) (encoder_lens b)
  (encoder_lens_cpu b) (encoder_out_cache_loc b) (has_stream b) (has_grammar b) (return_hidden_states b)
  (is_prefill_only b).
Definition set_input_ids (b : t) (x : option (list Z)) : t := mk (reqs b) (is_hybrid b) (forward_mode b)
  (enable_overlap b) x (req_pool_indices b) (seq_lens b) (seq_lens_cpu b) (out_cache_loc b) (output_ids b)
  (multimodal_inputs b) (seq_lens_sum b) (orig_seq_lens b) (return_logprob b) (top_logprobs_nums b)
  (token_ids_logprobs b) (prefix_lens b) (extend_lens b) (extend_num_tokens b) (extend_logprob_start_lens b)
  (extend_input_logprob_token_ids b) (encoder_cached b) (encoder_lens b) (encoder_lens_cpu b)
  (encoder_out_cache_loc b) (has_stream b) (has_grammar b) (return_hidden_states b) (is_prefill_only b).
Definition set_req_pool_indices (b : t) (x : option (list Z)) : t := mk (reqs b) (is_hybrid b) (forward_mode
  b) (enable_overlap b) (input_ids b) x (seq_lens b) (seq_lens_cpu b) (out_cache_loc b) (output_ids b)
  (multimodal_inputs b) (seq_lens_sum b) (orig_seq_lens b) (return_logprob b) (top_logprobs_nums b)
  (token_ids_logprobs b) (prefix_lens b) (extend_lens b) (extend_num_tokens b) (extend_logprob_start_lens b)
  (extend_input_logprob_token_ids b) (encoder_cached b) (encoder_lens b) (encoder_lens_cpu b)
  (encoder_out_cache_loc b) (has_stream b) (has_grammar b) (return_hidden_states b) (is_prefill_only b).
Definition set_seq_lens (b : t) (x : option (list Z)) : t := mk (reqs b) (is_hybrid b) (forward_mode b)
  (enable_overlap b) (input_ids b) (req_pool_indices b) x (seq_lens_cpu b) (out_cache_loc b) (output_ids b)
  (multimodal_inputs b) (seq_lens_sum b) (orig_seq_lens b) (return_logprob b) (top_logprobs_nums b)
  (token_ids_logprobs b) (prefix_lens b) (extend_lens b) (extend_num_tokens b) (extend_logprob_start_lens b)
  (extend_input_logprob_token_ids b) (encoder_cached b) (encoder_lens b) (encoder_lens_cpu b)
  (encoder_out_cache_loc b) (has_stream b) (has_grammar b) (return_hidden_states b) (is_prefill_only b).
Definition set_seq_lens_cpu (b : t) (x : option (list Z)) : t := mk (reqs b) (is_hybrid b) (forward_mode b)
  (enable_overlap b) (input_ids b) (req_pool_indices b) (seq_lens b) x (out_cache_loc b) (output_ids b)
  (multimodal_inputs b) (seq_lens_sum b) (orig_seq_lens b) (return_logprob b) (top_logprobs_nums b)
  (token_ids_logprobs b) (prefix_lens b) (extend_lens b) (extend_num_tokens b) (extend_logprob_start_lens b)
  (extend_input_logprob_token_ids b) (encoder_cached b) (encoder_lens b) (encoder_lens_cpu b)
  (encoder_out_cache_loc b) (has_stream b) (has_grammar b) (return_hidden_states b) (is_prefill_only b).
Definition set_out_cache_loc (b : t) (x : option (list Z)) : t := mk (reqs b) (is_hybrid b) (forward_mode b)
  (enable_overlap b) (input_ids b) (req_pool_indices b) (seq_lens b) (seq_lens_cpu b) x (output_ids b)
  (multimodal_inputs b) (seq_lens_sum b) (orig_seq_lens b) (return_logprob b) (top_logprobs_nums b)
  (token_ids_logprobs b) (prefix_lens b) (extend_lens b) (extend_num_tokens b) (extend_logprob_start_lens b)
  (extend_input_logprob_token_ids b) (encoder_cached b) (encoder_lens b) (encoder_lens_cpu b)
  (encoder_out_cache_loc b) (has_stream b) (has_grammar b) (return_hidden_states b) (is_prefill_only b).
Definition set_output_ids (b : t) (x : option (list Z)) : t := mk (reqs b) (is_hybrid b) (forward_mode b)
  (enable_overlap b) (input_ids b) (req_pool_indices b) (seq_lens b) (seq_lens_cpu b) (out_cache_loc b) x
  (multimodal_inputs b) (seq_lens_sum b) (orig_seq_lens b) (return_logprob b) (top_logprobs_nums b)
  (token_ids_logprobs b) (prefix_lens b) (extend_lens b) (extend_num_tokens b) (extend_logprob_start_lens b)
  (extend_input_logprob_token_ids b) (encoder_cached b) (encoder_lens b) (encoder_lens_cpu b)
  (encoder_out_cache_loc b) (has_stream b) (has_grammar b) (return_hidden_states b) (is_prefill_only b).
Definition set_multimodal_inputs (b : t) (x : option (list (option (option Z)))) : t := mk (reqs b) (is_hybrid
  b) (forward_mode b) (enable_overlap b) (input_ids b) (req_pool_indices b) (seq_lens b) (seq_lens_cpu b)
  (out_cache_loc b) (output_ids b) x (seq_lens_sum b) (orig_seq_lens b) (return_logprob b) (top_logprobs_nums
  b) (token_ids_logprobs b) (prefix_lens b) (extend_lens b) (extend_num_tokens b) (extend_logprob_start_lens
  b) (extend_input_logprob_token_ids b) (encoder_cached b) (encoder_lens b) (encoder_lens_cpu b)
  (encoder_out_cache_loc b) (has_stream b) (has_grammar b) (return_hidden_states b) (is_prefill_only b).
Definition set_seq_lens_sum (b : t) (x : option Z) : t := mk (reqs b) (is_hybrid b) (forward_mode b)
  (enable_overlap b) (input_ids b) (req_pool_indices b) (seq_lens b) (seq_lens_cpu b) (out_cache_loc b)
  (output_ids b) (multimodal_inputs b) x (orig_seq_lens b) (return_logprob b) (top_logprobs_nums b)
  (token_ids_logprobs b) (prefix_lens b) (extend_lens b) (extend_num_tokens b) (extend_logprob_start_lens b)
  (extend_input_logprob_token_ids b) (encoder_cached b) (encoder_lens b) (encoder_lens_cpu b)
  (encoder_out_cache_loc b) (has_stream b) (has_grammar b) (return_hidden_states b) (is_prefill_only b).
Definition set_orig_seq_lens (b : t) (x : option (list Z)) : t := mk (reqs b) (is_hybrid b) (forward_mode b)
  (enable_overlap b) (input_ids b) (req_pool_indices b) (seq_lens b) (seq_lens_cpu b) (out_cache_loc b)
  (output_ids b) (multimodal_inputs b) (seq_lens_sum b) x (return_logprob b) (top_logprobs_nums b)
  (token_ids_logprobs b) (prefix_lens b) (extend_lens b) (extend_num_tokens b) (extend_logprob_start_lens b)
  (extend_input_logprob_token_ids b) (encoder_cached b) (encoder_lens b) (encoder_lens_cpu b)
  (encoder_out_cache_loc b) (has_stream b) (has_grammar b) (return_hidden_states b) (is_prefill_only b).
Definition set_return_logprob (b : t) (x : bool) : t := mk (reqs b) (is_hybrid b) (forward_mode b)
  (enable_overlap b) (input_ids b) (req_pool_indices b) (seq_lens b) (seq_lens_cpu b) (out_cache_loc b)
  (output_ids b) (multimodal_inputs b) (seq_lens_sum b) (orig_seq_lens b) x (top_logprobs_nums b)
  (token_ids_logprobs b) (prefix_lens b) (extend_lens b) (extend_num_tokens b) (extend_logprob_start_lens b)
  (extend_input_logprob_token_ids b) (encoder_cached b) (encoder_lens b) (encoder_lens_cpu b)
  (encoder_out_cache_loc b) (has_stream b) (has_grammar b) (return_hidden_states b) (is_prefill_only b).
Definition set_top_logprobs_nums (b : t) (x : option (list Z)) : t := mk (reqs b) (is_hybrid b) (forward_mode
  b) (enable_overlap b) (input_ids b) (req_pool_indices b) (seq_lens b) (seq_lens_cpu b) (out_cache_loc b)
  (output_ids b) (multimodal_inputs b) (seq_lens_sum b) (orig_seq_lens b) (return_logprob b) x
  (token_ids_logprobs b) (prefix_lens b) (extend_lens b) (extend_num_tokens b) (extend_logprob_start_lens b)
  (extend_input_logprob_token_ids b) (encoder_cached b) (encoder_lens b) (encoder_lens_cpu b)
  (encoder_out_cache_loc b) (has_stream b) (has_grammar b) (return_hidden_states b) (is_prefill_only b).
Definition set_token_ids_logprobs (b : t) (x : option (list (option (list Z)))) : t := mk (reqs b) (is_hybrid
  b) (forward_mode b) (enable_overlap b) (input_ids b) (req_pool_indices b) (seq_lens b) (seq_lens_cpu b)
  (out_cache_loc b) (output_ids b) (multimodal_inputs b) (seq_lens_sum b) (orig_seq_lens b) (return_logprob b)
  (top_logprobs_nums b) x (prefix_lens b) (extend_lens b) (extend_num_tokens b) (extend_logprob_start_lens b)
  (extend_input_logprob_token_ids b) (encoder_cached b) (encoder_lens b) (encoder_lens_cpu b)
  (encoder_out_cache_loc b) (has_stream b) (has_grammar b) (return_hidden_states b) (is_prefill_only b).
Definition set_prefix_lens (b : t) (x : option (list Z)) : t := mk (reqs b) (is_hybrid b) (forward_mode b)
  (enable_overlap b) (input_ids b) (req_pool_indices b) (seq_lens b) (seq_lens_cpu b) (out_cache_loc b)
  (output_ids b) (multimodal_inputs b) (seq_lens_sum b) (orig_seq_lens b) (return_logprob b)
  (top_logprobs_nums b) (token_ids_logprobs b) x (extend_lens b) (extend_num_tokens b)
  (extend_logprob_start_lens b) (extend_input_logprob_token_ids b) (encoder_cached b) (encoder_lens b)
  (encoder_lens_cpu b) (encoder_out_cache_loc b) (has_stream b) (has_grammar b) (return_hidden_states b)
  (is_prefill_only b).
Definition set_extend_lens (b : t) (x : option (list Z)) : t := mk (reqs b) (is_hybrid b) (forward_mode b)
  (enable_overlap b) (input_ids b) (req_pool_indices b) (seq_lens b) (seq_lens_cpu b) (out_cache_loc b)
  (output_ids b) (multimodal_inputs b) (seq_lens_sum b) (orig_seq_lens b) (return_logprob b)
  (top_logprobs_nums b) (token_ids_logprobs b) (prefix_lens b) x (extend_num_tokens b)
  (extend_logprob_start_lens b) (extend_input_logprob_token_ids b) (encoder_cached b) (encoder_lens b)
  (encoder_lens_cpu b) (encoder_out_cache_loc b) (has_stream b) (has_grammar b) (return_hidden_states b)
  (is_prefill_only b).
Definition set_extend_num_tokens (b : t) (x : option Z) : t := mk (reqs b) (is_hybrid b) (forward_mode b)
  (enable_overlap b) (input_ids b) (req_pool_indices b) (seq_lens b) (seq_lens_cpu b) (out_cache_loc b)
  (output_ids b) (multimodal_inputs b) (seq_lens_sum b) (orig_seq_lens b) (return_logprob b)
  (top_logprobs_nums b) (token_ids_logprobs b) (prefix_lens b) (extend_lens b) x (extend_logprob_start_lens b)
  (extend_input_logprob_token_ids b) (encoder_cached b) (encoder_lens b) (encoder_lens_cpu b)
  (encoder_out_cache_loc b) (has_stream b) (has_grammar b) (return_hidden_states b) (is_prefill_only b).
Definition set_extend_logprob_start_lens (b : t) (x : option (list Z)) : t := mk (reqs b) (is_hybrid b)
  (forward_mode b) (enable_overlap b) (input_ids b) (req_pool_indices b) (seq_lens b) (seq_lens_cpu b)
  (out_cache_loc b) (output_ids b) (multimodal_inputs b) (seq_lens_sum b) (orig_seq_lens b) (return_logprob b)
  (top_logprobs_nums b) (token_ids_logprobs b) (prefix_lens b) (extend_lens b) (extend_num_tokens b) x
  (extend_input_logprob_token_ids b) (encoder_cached b) (encoder_lens b) (encoder_lens_cpu b)
  (encoder_out_cache_loc b) (has_stream b) (has_grammar b) (return_hidden_states b) (is_prefill_only b).
Definition set_extend_input_logprob_token_ids (b : t) (x : option (list Z)) : t := mk (reqs b) (is_hybrid b)
  (forward_mode b) (enable_overlap b) (input_ids b) (req_pool_indices b) (seq_lens b) (seq_lens_cpu b)
  (out_cache_loc b) (output_ids b) (multimodal_inputs b) (seq_lens_sum b) (orig_seq_lens b) (return_logprob b)
  (top_logprobs_nums b) (token_ids_logprobs b) (prefix_lens b) (extend_lens b) (extend_num_tokens b)
  (extend_logprob_start_lens b) x (encoder_cached b) (encoder_lens b) (encoder_lens_cpu b)
  (encoder_out_cache_loc b) (has_stream b) (has_grammar b) (return_hidden_states b) (is_prefill_only b).
Definition set_encoder_cached (b : t) (x : option (list bool)) : t := mk (reqs b) (is_hybrid b) (forward_mode
  b) (enable_overlap b) (input_ids b) (req_pool_indices b) (seq_lens b) (seq_lens_cpu b) (out_cache_loc b)
  (output_ids b) (multimodal_inputs b) (seq_lens_sum b) (orig_seq_lens b) (return_logprob b)
  (top_logprobs_nums b) (token_ids_logprobs b) (prefix_lens b) (extend_lens b) (extend_num_tokens b)
  (extend_logprob_start_lens b) (extend_input_logprob_token_ids b) x (encoder_lens b) (encoder_lens_cpu b)
  (encoder_out_cache_loc b) (has_stream b) (has_grammar b) (return_hidden_states b) (is_prefill_only b).
Definition set_encoder_lens (b : t) (x : option (list Z)) : t := mk (reqs b) (is_hybrid b) (forward_mode b)
  (enable_overlap b) (input_ids b) (req_pool_indices b) (seq_lens b) (seq_lens_cpu b) (out_cache_loc b)
  (output_ids b) (multimodal_inputs b) (seq_lens_sum b) (orig_seq_lens b) (return_logprob b)
  (top_logprobs_nums b) (token_ids_logprobs b) (prefix_lens b) (extend_lens b) (extend_num_tokens b)
  (extend_logprob_start_lens b) (extend_input_logprob_token_ids b) (encoder_cached b) x (encoder_lens_cpu b)
  (encoder_out_cache_loc b) (has_stream b) (has_grammar b) (return_hidden_states b) (is_prefill_only b).
Definition set_encoder_lens_cpu (b : t) (x : option (list Z)) : t := mk (reqs b) (is_hybrid b) (forward_mode
  b) (enable_overlap b) (input_ids b) (req_pool_indices b) (seq_lens b) (seq_lens_cpu b) (out_cache_loc b)
  (output_ids b) (multimodal_inputs b) (seq_lens_sum b) (orig_seq_lens b) (return_logprob b)
  (top_logprobs_nums b) (token_ids_logprobs b) (prefix_lens b) (extend_lens b) (extend_num_tokens b)
  (extend_logprob_start_lens b) (extend_input_logprob_token_ids b) (encoder_cached b) (encoder_lens b) x
  (encoder_out_cache_loc b) (has_stream b) (has_grammar b) (return_hidden_states b) (is_prefill_only b).
Definition set_encoder_out_cache_loc (b : t) (x : option (list Z)) : t := mk (reqs b) (is_hybrid b)
  (forward_mode b) (enable_overlap b) (input_ids b) (req_pool_indices b) (seq_lens b) (seq_lens_cpu b)
  (out_cache_loc b) (output_ids b) (multimodal_inputs b) (seq_lens_sum b) (orig_seq_lens b) (return_logprob b)
  (top_logprobs_nums b) (token_ids_logprobs b) (prefix_lens b) (extend_lens b) (extend_num_tokens b)
  (extend_logprob_start_lens b) (extend_input_logprob_token_ids b) (encoder_cached b) (encoder_lens b)
  (encoder_lens_cpu b) x (has_stream b) (has_grammar b) (return_hidden_states b) (is_prefill_only b).
Definition set_has_stream (b : t) (x : bool) : t := mk (reqs b) (is_hybrid b) (forward_mode b) (enable_overlap
  b) (input_ids b) (req_pool_indices b) (seq_lens b) (seq_lens_cpu b) (out_cache_loc b) (output_ids b)
  (multimodal_inputs b) (seq_lens_sum b) (orig_seq_lens b) (return_logprob b) (top_logprobs_nums b)
  (token_ids_logprobs b) (prefix_lens b) (extend_lens b) (extend_num_tokens b) (extend_logprob_start_lens b)
  (extend_input_logprob_token_ids b) (encoder_cached b) (encoder_lens b) (encoder_lens_cpu b)
  (encoder_out_cache_loc b) x (has_grammar b) (return_hidden_states b) (is_prefill_only b).
Definition set_has_grammar (b : t) (x : bool) : t := mk (reqs b) (is_hybrid b) (forward_mode b)
  (enable_overlap b) (input_ids b) (req_pool_indices b) (seq_lens b) (seq_lens_cpu b) (out_cache_loc b)
  (output_ids b) (multimodal_inputs b) (seq_lens_sum b) (orig_seq_lens b) (return_logprob b)
  (top_logprobs_nums b) (token_ids_logprobs b) (prefix_lens b) (extend_lens b) (extend_num_tokens b)
  (extend_logprob_start_lens b) (extend_input_logprob_token_ids b) (encoder_cached b) (encoder_lens b)
  (encoder_lens_cpu b) (encoder_out_cache_loc b) (has_stream b) x (return_hidden_states b) (is_prefill_only
  b).
Definition set_return_hidden_states (b : t) (x : bool) : t := mk (reqs b) (is_hybrid b) (forward_mode b)
  (enable_overlap b) (input_ids b) (req_pool_indices b) (seq_lens b) (seq_lens_cpu b) (out_cache_loc b)
  (output_ids b) (multimodal_inputs b) (seq_lens_sum b) (orig_seq_lens b) (return_logprob b)
  (top_logprobs_nums b) (token_ids_logprobs b) (prefix_lens b) (extend_lens b) (extend_num_tokens b)
  (extend_logprob_start_lens b) (extend_input_logprob_token_ids b) (encoder_cached b) (encoder_lens b)
  (encoder_lens_cpu b) (encoder_out_cache_loc b) (has_stream b) (has_grammar b) x (is_prefill_only b).
Definition set_is_prefill_only (b : t) (x : bool) : t := mk (reqs b) (is_hybrid b) (forward_mode b)
  (enable_overlap b) (input_ids b) (req_pool_indices b) (seq_lens b) (seq_lens_cpu b) (out_cache_loc b)
  (output_ids b) (multimodal_inputs b) (seq_lens_sum b) (orig_seq_lens b) (return_logprob b)
  (top_logprobs_nums b) (token_ids_logprobs b) (prefix_lens b) (extend_lens b) (extend_num_tokens b)
  (extend_logprob_start_lens b) (extend_input_logprob_token_ids b) (encoder_cached b) (encoder_lens b)
  (encoder_lens_cpu b) (encoder_out_cache_loc b) (has_stream b) (has_grammar b) (return_hidden_states b) x.
End Batch.

(** [t[indices]]. *)
Definition select {T} (o : option (list T)) (indices : list Z) : res (option (list T)) :=
  let! l := of_opt TypeError o in
  let! r := mapM_res (py_index l) indices in Ok (Some r).
(** [torch.cat([a, b])], [a.extend(b)] and [a + b]. *)
Definition cat {T} (a b : option (list T)) : res (option (list T)) :=
  let! x := of_opt TypeError a in
  let! y := of_opt TypeError b in Ok (Some (x ++ y)).
Definition add_opt (a b : option Z) : res (option Z) :=
  let! x := of_opt TypeError a in
  let! y := of_opt TypeError b in Ok (Some (x + y)).
(** [t + 1] and [t.add_(1)]. *)
Definition incr (o : option (list Z)) : res (option (list Z)) :=
  let! l := of_opt TypeError o in Ok (Some (Z.succ <$> l)).

Section batch.
Context {C : Type} `{CacheHost C}.
Context (stream return_hidden_states : Req.t → bool) (top_logprobs_num : Req.t → Z)
  (token_ids_logprob : Req.t → option (list Z)) (multimodal_inputs : Req.t → option (option Z)).
(** [model_config.is_encoder_decoder] and [attention_chunk_size]. *)
Context (is_encoder_decoder : bool) (attention_chunk_size : Z).
(** What a masked or out-of-range lane of a kernel reads, and whether Triton is used. *)
Context (masked oob : Z) (support_triton : bool).
Context (speculative_algorithm : option string) (RETRACT_DECODE_STEPS : Z).
Implicit Types (c : C) (b : Batch.t).

Definition init_new (reqs : list Req.t) c (enable_overlap : bool) : Batch.t :=
  Batch.mk reqs (bool_decide (is_Some (ch_hybrid c))) None enable_overlap
    None None None None None None None None None
    (existsb Req.return_logprob reqs) None None None None None None None None None None None
    (existsb stream reqs) (existsb (λ r, bool_decide (is_Some (Req.grammar r))) reqs)
    (existsb return_hidden_states reqs) (forallb (is_prefill_only speculative_algorithm) reqs).

Definition batch_size b : Z := len (Batch.reqs b).
Definition is_empty b : bool := len (Batch.reqs b) =? 0.

(** ** Encoder-decoder models *)

(** One request: its part of the slots starts at [pt]. *)
Definition encoder_step (out_cache_loc : list Z) (req : Req.t) (pt encoder_len extend_len prefix_len : Z) (ids : list Z) :
    res (list Z * list Z * list Z * Z * Z) :=
  if len (Req.prefix_indices req) <? encoder_len then
    let! _ := py_assert (len (Req.prefix_indices req) =? 0) in
    Ok (py_from ids encoder_len, py_slice out_cache_loc pt (pt + encoder_len),
        py_slice out_cache_loc (pt + encoder_len) (pt + Req.extend_input_len req), extend_len - encoder_len, prefix_len)
  else
    Ok (ids, [], py_slice out_cache_loc pt (pt + Req.extend_input_len req), extend_len, prefix_len - encoder_len).

(** The results are the tokens, the encoder slots, the decoder slots, and the
    adjusted extension and prefix lengths. *)
Fixpoint encoder_loop (out_cache_loc : list Z) (reqs : list Req.t) (pt : Z)
    (encoder_lens extend_lens prefix_lens : list Z) (input_ids : list (list Z)) :
    res (list Z * list Z * list Z * list Z * list Z) :=
  match reqs, encoder_lens, extend_lens, prefix_lens, input_ids with
  | req :: reqs, e :: encoder_lens, x :: extend_lens, p :: prefix_lens, ids :: input_ids =>
      let! '(ids, enc, dec, x, p) := encoder_step out_cache_loc req pt e x p ids in
      let! '(idss, encs, decs, xs, ps) := encoder_loop out_cache_loc reqs (pt + Req.extend_input_len req)
                                            encoder_lens extend_lens prefix_lens input_ids in
      Ok (ids ++ idss, enc ++ encs, dec ++ decs, x :: xs, p :: ps)
  | [], _, _, _, _ => Ok ([], [], [], [], [])
  | _, _, _, _, _ => Err IndexError
  end.

Definition prepare_encoder_info_extend b (input_ids : list (list Z)) (seq_lens : list Z) : res Batch.t :=
  let image_tokens req := default 0 (mjoin (multimodal_inputs req)) in
  let encoder_lens_cpu := image_tokens <$> Batch.reqs b in
  let is_decode := bool_decide (Batch.forward_mode b = Some DECODE) in
  let encoder_cached := (λ req, match mjoin (multimodal_inputs req) with
                                | None => true
                                | Some n => is_decode || (n <=? len (Req.prefix_indices req))
                                end) <$> Batch.reqs b in
  let! out_cache_loc := of_opt TypeError (Batch.out_cache_loc b) in
  let! extend_lens := of_opt TypeError (Batch.extend_lens b) in
  let! prefix_lens := of_opt TypeError (Batch.prefix_lens b) in
  let! extend_num_tokens := of_opt TypeError (Batch.extend_num_tokens b) in
  let! '(ids, enc, dec, xs, ps) :=
    encoder_loop out_cache_loc (Batch.reqs b) 0 encoder_lens_cpu extend_lens prefix_lens input_ids in
  let seq_lens := zip_with Z.sub seq_lens encoder_lens_cpu in
  let stripped := zip_with (λ req e, if len (Req.prefix_indices req) <? e then e else 0) (Batch.reqs b) encoder_lens_cpu in
  let extend_num_tokens := extend_num_tokens - sum_Z stripped in
  let b := Batch.set_encoder_lens (Batch.set_encoder_lens_cpu b (Some encoder_lens_cpu)) (Some encoder_lens_cpu) in
  let b := Batch.set_encoder_cached b (Some encoder_cached) in
  let b := Batch.set_extend_num_tokens (Batch.set_prefix_lens (Batch.set_extend_lens b (Some xs)) (Some ps))
             (Some extend_num_tokens) in
  let b := Batch.set_seq_lens_cpu (Batch.set_seq_lens (Batch.set_input_ids b (Some ids)) (Some seq_lens)) (Some seq_lens) in
  let b := Batch.set_encoder_out_cache_loc (Batch.set_out_cache_loc b (Some dec)) (Some enc) in
  let! _ := py_assert (len dec =? extend_num_tokens) in
  Ok b.

(** ** Preparing a prefill *)

(** The loop body for one request: its new fields and the token ids whose
    logprobs are wanted. *)
Definition extend_req b (req : Req.t) (req_pool_idx seq_len pre_len : Z) : res (Req.t * list Z) :=
  let req := Req.set_req_pool_idx req (Some req_pool_idx) in
  let! _ := py_assert (seq_len - pre_len =? Req.extend_input_len req) in
  let req := Req.set_kv_allocated_len (Req.set_kv_committed_len req seq_len) seq_len in
  let req := Req.set_is_retracted (Req.set_already_computed req seq_len) false in
  let start :=
    if pre_len <=? Req.logprob_start_len req then
      if Batch.is_prefill_only b && (Req.logprob_start_len req =? len (Req.origin_input_ids req))
      then Req.extend_input_len req
      else Z.min (Z.min (Req.logprob_start_len req - pre_len) (Req.extend_input_len req)) (seqlen req - 1)
    else 0 in
  let req := Req.set_extend_logprob_start_len req start in
  let ids :=
    if Batch.return_logprob b then
      let global_start_idx := Z.max (len (Req.prefix_indices req)) (Req.logprob_start_len req) in
      let global_end_idx := len (Req.fill_ids req) in
      let logprob_token_ids := py_slice (Req.origin_input_ids req) (global_start_idx + 1) (global_end_idx + 1) in
      logprob_token_ids ++
        replicate (Z.to_nat (Req.extend_input_len req - Req.extend_logprob_start_len req - len logprob_token_ids)) 0
    else [] in
  Ok (req, ids).

Fixpoint extend_reqs b (reqs : list Req.t) (req_pool_indices seq_lens prefix_lens : list Z) : res (list Req.t * list Z) :=
  match reqs, seq_lens, prefix_lens with
  | req :: reqs, seq_len :: seq_lens, pre_len :: prefix_lens =>
      let! i := py_index req_pool_indices 0 in
      let! '(req, ids) := extend_req b req i seq_len pre_len in
      let! '(reqs, idss) := extend_reqs b reqs (tail req_pool_indices) seq_lens prefix_lens in
      Ok (req :: reqs, ids ++ idss)
  | _, _, _ => Ok ([], [])
  end.

Definition prepare_for_extend b c : res (Batch.t * C) :=
  let b := Batch.set_forward_mode b (Some EXTEND) in
  let reqs := Batch.reqs b in
  let input_ids := (λ r, py_from (Req.fill_ids r) (len (Req.prefix_indices r))) <$> reqs in
  let extend_num_tokens := sum_Z (len <$> input_ids) in
  let seq_lens := (λ r, len (Req.fill_ids r)) <$> reqs in
  let orig_seq_lens := (λ r, Z.max (len (Req.fill_ids r)) (len (Req.origin_input_ids r))) <$> reqs in
  let prefix_lens := (λ r, len (Req.prefix_indices r)) <$> reqs in
  let extend_lens := Req.extend_input_len <$> reqs in
  let b := Batch.set_extend_lens (Batch.set_prefix_lens b (Some prefix_lens)) (Some extend_lens) in
  let b := Batch.set_seq_lens_cpu (Batch.set_seq_lens b (Some seq_lens)) (Some seq_lens) in
  let b := Batch.set_extend_num_tokens b (Some extend_num_tokens) in
  let! '(out_cache_loc, req_pool_indices, reqs, c) :=
    alloc_for_extend masked oob support_triton c reqs prefix_lens extend_lens seq_lens seq_lens
      extend_num_tokens attention_chunk_size in
  let! '(reqs, logprob_ids) := extend_reqs b reqs req_pool_indices seq_lens prefix_lens in
  let b := Batch.set_reqs b reqs in
  let b := Batch.set_req_pool_indices (Batch.set_input_ids b (Some (mjoin input_ids))) (Some req_pool_indices) in
  let b := Batch.set_out_cache_loc (Batch.set_orig_seq_lens b (Some orig_seq_lens)) (Some out_cache_loc) in
  let b := Batch.set_multimodal_inputs b (Some (multimodal_inputs <$> reqs)) in
  let b := Batch.set_seq_lens_sum b (Some (sum_Z seq_lens)) in
  let b := if Batch.return_logprob b then
             Batch.set_token_ids_logprobs (Batch.set_top_logprobs_nums b (Some (top_logprobs_num <$> reqs)))
               (Some (token_ids_logprob <$> reqs))
           else b in
  let b := Batch.set_extend_logprob_start_lens b (Some (Req.extend_logprob_start_len <$> reqs)) in
  let b := Batch.set_extend_input_logprob_token_ids b (if Batch.return_logprob b then Some logprob_ids else None) in
  let! b := if is_encoder_decoder then prepare_encoder_info_extend b input_ids seq_lens else Ok b in
  Ok (b, c).

Definition prepare_for_split_prefill b c : res (Batch.t * C) :=
  let! '(b, c) := prepare_for_extend b c in
  Ok (Batch.set_forward_mode b (Some SPLIT_PREFILL), c).

(** ** Merging and filtering *)
Definition merge_logprobs b (other : Batch.t) : res Batch.t :=
  if Batch.return_logprob b && Batch.return_logprob other then
    let! t := cat (Batch.top_logprobs_nums b) (Batch.top_logprobs_nums other) in
    let! i := cat (Batch.token_ids_logprobs b) (Batch.token_ids_logprobs other) in
    Ok (Batch.set_token_ids_logprobs (Batch.set_top_logprobs_nums b t) i)
  else if Batch.return_logprob b then
    let! t := cat (Batch.top_logprobs_nums b) (Some ((λ _, 0) <$> Batch.reqs other)) in
    let! i := cat (Batch.token_ids_logprobs b) (Some ((λ _, None) <$> Batch.reqs other)) in
    Ok (Batch.set_token_ids_logprobs (Batch.set_top_logprobs_nums b t) i)
  else if Batch.return_logprob other then
    let! t := cat (Some ((λ _, 0) <$> Batch.reqs b)) (Batch.top_logprobs_nums other) in
    let! i := cat (Some ((λ _, None) <$> Batch.reqs b)) (Batch.token_ids_logprobs other) in
    Ok (Batch.set_token_ids_logprobs (Batch.set_top_logprobs_nums b t) i)
  else Ok b.

Definition merge_batch b (other : Batch.t) : res Batch.t :=
  let! b :=
    if is_encoder_decoder then
      let! e := cat (Batch.encoder_lens b) (Batch.encoder_lens other) in
      let! ec := cat (Batch.encoder_lens_cpu b) (Batch.encoder_lens_cpu other) in
      Ok (Batch.set_encoder_lens_cpu (Batch.set_encoder_lens b e) ec)
    else Ok b in
  let! i := cat (Batch.req_pool_indices b) (Batch.req_pool_indices other) in
  let! sl := cat (Batch.seq_lens b) (Batch.seq_lens other) in
  let! slc := cat (Batch.seq_lens_cpu b) (Batch.seq_lens_cpu other) in
  let! ol := cat (Batch.orig_seq_lens b) (Batch.orig_seq_lens other) in
  let! ss := add_opt (Batch.seq_lens_sum b) (Batch.seq_lens_sum other) in
  let b := Batch.set_seq_lens_cpu (Batch.set_seq_lens (Batch.set_req_pool_indices b i) sl) slc in
  let b := Batch.set_seq_lens_sum (Batch.set_out_cache_loc (Batch.set_orig_seq_lens b ol) None) ss in
  let! b := match Batch.output_ids b with
            | Some _ => let! o := cat (Batch.output_ids b) (Batch.output_ids other) in Ok (Batch.set_output_ids b o)
            | None => Ok b
            end in
  let! b := merge_logprobs b other in
  let b := Batch.set_reqs b (Batch.reqs b ++ Batch.reqs other) in
  let! b := match Batch.multimodal_inputs b with
            | Some _ => let! m := cat (Batch.multimodal_inputs b) (Batch.multimodal_inputs other) in
                        Ok (Batch.set_multimodal_inputs b m)
            | None => Ok b
            end in
  let b := Batch.set_return_logprob b (Batch.return_logprob b || Batch.return_logprob other) in
  let b := Batch.set_has_stream b (Batch.has_stream b || Batch.has_stream other) in
  let b := Batch.set_has_grammar b (Batch.has_grammar b || Batch.has_grammar other) in
  Ok (Batch.set_return_hidden_states b (Batch.return_hidden_states b || Batch.return_hidden_states other)).

(** The requests a batch goes on with when no indices are given; a request is
    excluded by identity, for which its id stands. *)
Definition unfinished_indices b (chunked_req_to_exclude : list Req.t) : list Z :=
  List.filter (λ i, match Batch.reqs b !! Z.to_nat i with
                    | Some r => negb (finished r) && negb (bool_decide (Req.rid r ∈ Req.rid <$> chunked_req_to_exclude))
                    | None => false
                    end) (py_range 0 (len (Batch.reqs b))).

Definition filter_batch b (chunked_req_to_exclude : list Req.t) (keep_indices : option (list Z)) : res Batch.t :=
  let keep_indices := match keep_indices with
                      | Some k => k
                      | None => unfinished_indices b chunked_req_to_exclude
                      end in
  if len keep_indices =? 0 then Ok (Batch.set_reqs b [])
  else if len keep_indices =? len (Batch.reqs b) then Ok b
  else
    let! b :=
      if is_encoder_decoder then
        let! e := select (Batch.encoder_lens b) keep_indices in
        let! ec := select (Batch.encoder_lens_cpu b) keep_indices in
        Ok (Batch.set_encoder_lens_cpu (Batch.set_encoder_lens b e) ec)
      else Ok b in
    let! reqs := mapM_res (py_index (Batch.reqs b)) keep_indices in
    let b := Batch.set_reqs b reqs in
    let! b := match Batch.multimodal_inputs b with
              | Some _ => let! m := select (Batch.multimodal_inputs b) keep_indices in
                          Ok (Batch.set_multimodal_inputs b m)
              | None => Ok b
              end in
    let! i := select (Batch.req_pool_indices b) keep_indices in
    let! sl := select (Batch.seq_lens b) keep_indices in
    let! slc := select (Batch.seq_lens_cpu b) keep_indices in
    let! ol := select (Batch.orig_seq_lens b) keep_indices in
    let! o := select (Batch.output_ids b) keep_indices in
    let b := Batch.set_seq_lens_cpu (Batch.set_seq_lens (Batch.set_req_pool_indices b i) sl) slc in
    let b := Batch.set_seq_lens_sum (Batch.set_out_cache_loc (Batch.set_orig_seq_lens b ol) None) (sum_Z <$> sl) in
    let b := Batch.set_return_logprob (Batch.set_output_ids b o) (existsb Req.return_logprob reqs) in
    let! b :=
      if Batch.return_logprob b then
        let! t := select (Batch.top_logprobs_nums b) keep_indices in
        let! l := select (Batch.token_ids_logprobs b) keep_indices in
        Ok (Batch.set_token_ids_logprobs (Batch.set_top_logprobs_nums b t) l)
      else Ok (Batch.set_token_ids_logprobs (Batch.set_top_logprobs_nums b None) None) in
    let b := Batch.set_has_stream b (existsb stream reqs) in
    Ok (Batch.set_has_grammar b (existsb (λ r, bool_decide (is_Some (Req.grammar r))) reqs)).

(** A prefill that takes the running decode batch along, one token each.  The
    result is the batch and the running batch, whose requests are shared. *)
Definition mix_with_running b (running_batch : Batch.t) : res (Batch.t * Batch.t) :=
  let b := Batch.set_forward_mode b (Some MIXED) in
  let running_bs := batch_size running_batch in
  let running_batch := Batch.set_reqs running_batch
    ((λ r, Req.set_extend_input_len (Req.set_fill_ids r (Req.origin_input_ids r ++ Req.output_ids r)) 1)
       <$> Batch.reqs running_batch) in
  let! input_ids := cat (Batch.input_ids b) (Batch.input_ids running_batch) in
  let! out_cache_loc := cat (Batch.out_cache_loc b) (Batch.out_cache_loc running_batch) in
  let! b := merge_batch b running_batch in
  let b := Batch.set_out_cache_loc (Batch.set_input_ids b input_ids) out_cache_loc in
  let delta := if Batch.enable_overlap b then 0 else -1 in
  let! p := cat (Batch.prefix_lens b)
              (Some ((λ r, len (Req.origin_input_ids r) + len (Req.output_ids r) + delta) <$> Batch.reqs running_batch)) in
  let! x := cat (Batch.extend_lens b) (Some ((λ _, 1) <$> Batch.reqs running_batch)) in
  let! n := add_opt (Batch.extend_num_tokens b) (Some running_bs) in
  let! l := cat (Batch.extend_logprob_start_lens b) (Some ((λ _, 0) <$> Batch.reqs running_batch)) in
  let b := Batch.set_extend_num_tokens (Batch.set_extend_lens (Batch.set_prefix_lens b p) x) n in
  Ok (Batch.set_is_prefill_only (Batch.set_extend_logprob_start_lens b l) false, running_batch).

(** ** Memory for the next decode step *)
Definition new_page_count_next_decode b c (selected_indices : option (list Z)) : res Z :=
  let page_size := ch_alloc_page_size c in
  let! requests := match selected_indices with
                   | None => Ok (Batch.reqs b)
                   | Some idx => mapM_res (py_index (Batch.reqs b)) idx
                   end in
  if page_size =? 1 then Ok (len requests)
  else if Batch.enable_overlap b then Ok (len (List.filter (λ r, seqlen r mod page_size =? 0) requests))
  else Ok (len (List.filter (λ r, (seqlen r - 1) mod page_size =? 0) requests)).

Definition _is_available_size_sufficient b c (num_tokens : Z) : res bool :=
  if Batch.is_hybrid b then
    let! '(full, swa) := of_opt AttributeError (ch_hybrid c) in
    Ok ((num_tokens <=? full) && (num_tokens <=? swa))
  else Ok (num_tokens <=? ch_available_size c).

Definition check_decode_mem b c (buf_multiplier : Z) (selected_indices : option (list Z)) : res (bool * C) :=
  let! pages := new_page_count_next_decode b c selected_indices in
  let num_tokens := pages * buf_multiplier * ch_alloc_page_size c in
  let! c := evict_from_tree_cache c num_tokens in
  let! ok := _is_available_size_sufficient b c num_tokens in
  Ok (ok, c).

(** Outside the decode role of disaggregated serving. *)
Definition release_req b c (idx remaing_req_count : Z) : res (Batch.t * C) :=
  let! req := py_index (Batch.reqs b) idx in
  let! '(req, c) := release_kv_cache (pc_page_size c) speculative_algorithm c req false in
  let num_tokens := remaing_req_count * RETRACT_DECODE_STEPS in
  let! c := evict_from_tree_cache c num_tokens in
  Ok (Batch.set_reqs b (<[Z.to_nat idx := reset_for_retract req]> (Batch.reqs b)), c).

(** The order in which requests are kept: those with the most output first,
    among equals those with the shorter input.  [reverse=True] keeps the order
    of equals. *)
Definition retract_key (r : Req.t) : Z * Z := (len (Req.output_ids r), - len (Req.origin_input_ids r)).
Definition key_gtb (x y : Z * Z) : bool :=
  (fst y <? fst x) || ((fst y =? fst x) && (snd y <? snd x)).
Definition retract_order b : list Z :=
  let indices := py_range 0 (len (Batch.reqs b)) in
  match speculative_algorithm with
  | Some _ => indices
  | None => snd <$> py_sort (λ x y : (Z * Z) * Z, key_gtb (fst x) (fst y))
                      (zip (retract_key <$> Batch.reqs b) indices)
  end.

(** [assert ... > 0] when a single request is left. *)
Definition space_for_one b c : res unit :=
  if Batch.is_hybrid b then
    let! '(full, swa) := of_opt AttributeError (ch_hybrid c) in py_assert ((0 <? full) && (0 <? swa))
  else py_assert (0 <? ch_available_size c).

(** The loop, on [sorted_indices] in reverse: its head is what [pop] returns.
    The results are the indices kept, again in reverse, and those retracted. *)
Fixpoint retract_loop b c (first_iter : bool) (rev_indices retracted : list Z) :
    res (list Z * list Z * Batch.t * C) :=
  let! '(enough, c) := if first_iter then Ok (false, c)
                       else check_decode_mem b c 1 (Some (reverse rev_indices)) in
  if enough : bool then Ok (rev_indices, retracted, b, c) else
  match rev_indices with
  | [] => Err IndexError
  | idx :: rest =>
      match rest with
      | [] => let! _ := space_for_one b c in Ok (rev_indices, retracted, b, c)
      | _ => let! '(b, c) := release_req b c idx (len rest) in
             retract_loop b c false rest (retracted ++ [idx])
      end
  end.

(** The requests retracted and the new estimate of [new_token_ratio], exact. *)
Definition retract_decode b c : res (list Req.t * Q * Batch.t * C) :=
  let! '(rev_indices, retracted, b, c) := retract_loop b c true (reverse (retract_order b)) [] in
  let! retracted_reqs := mapM_res (py_index (Batch.reqs b)) retracted in
  let! b := filter_batch b [] (Some (reverse rev_indices)) in
  let total_decoded_tokens := sum_Z ((λ r, len (Req.output_ids r)) <$> Batch.reqs b) in
  let total_max_new_tokens := sum_Z ((λ r, max_new_tokens (Req.sampling_params r)) <$> Batch.reqs b) in
  let! d := if total_max_new_tokens + 1 =? 0 then Err ZeroDivisionError else Ok (total_max_new_tokens + 1) in
  let n := total_decoded_tokens + RETRACT_DECODE_STEPS * len (Batch.reqs b) in
  let ratio := (inject_Z n / inject_Z d)%Q in
  Ok (retracted_reqs, if Qle_bool 1 ratio then 1%Q else ratio, b, c).

(** ** Idle and decode batches *)
Definition prepare_for_idle b : Batch.t :=
  let b := Batch.set_input_ids (Batch.set_forward_mode b (Some IDLE)) (Some []) in
  let b := Batch.set_seq_lens_cpu (Batch.set_seq_lens b (Some [])) (Some []) in
  let b := Batch.set_out_cache_loc (Batch.set_orig_seq_lens b (Some [])) (Some []) in
  let b := Batch.set_seq_lens_sum (Batch.set_req_pool_indices b (Some [])) (Some 0) in
  Batch.set_extend_num_tokens b (Some 0).

Definition prepare_for_decode b c : res (Batch.t * C) :=
  let b := Batch.set_forward_mode b (Some DECODE) in
  let bs := len (Batch.reqs b) in
  let b := Batch.set_output_ids (Batch.set_input_ids b (Batch.output_ids b)) None in
  let b := if is_encoder_decoder then Batch.set_encoder_cached b (Some ((λ _, true) <$> Batch.reqs b)) else b in
  let! i := of_opt TypeError (Batch.req_pool_indices b) in
  let! sl := of_opt TypeError (Batch.seq_lens b) in
  let! slc := of_opt TypeError (Batch.seq_lens_cpu b) in
  let! e := if is_encoder_decoder then let! e := of_opt TypeError (Batch.encoder_lens b) in Ok (Some e) else Ok None in
  let! '(out_cache_loc, reqs, c) :=
    alloc_for_decode c (Batch.reqs b) i sl slc e 1 attention_chunk_size in
  let b := Batch.set_out_cache_loc b (Some out_cache_loc) in
  let b := Batch.set_reqs b
    ((λ r, Req.set_kv_allocated_len (Req.set_kv_committed_len r (Req.kv_committed_len r + 1))
             (Req.kv_allocated_len r + 1)) <$> reqs) in
  let! ol := incr (Batch.orig_seq_lens b) in
  let! ss := add_opt (Batch.seq_lens_sum b) (Some bs) in
  let b := Batch.set_seq_lens_cpu (Batch.set_seq_lens b (Some (Z.succ <$> sl))) (Some (Z.succ <$> slc)) in
  Ok (Batch.set_seq_lens_sum (Batch.set_orig_seq_lens b ol) ss, c).
End batch.
