(* ===== verification/ScheduleBatchSpec.v ===== *)
(** * What the batch operations do

    A batch represents a list of rows, one per request, and the operations are
    list operations on the rows: merging appends, filtering selects, a decode
    step adds one to the lengths.  Retracting requests ends, keeps the requests
    that have got furthest and leaves room for the next step. *)

From Stdlib Require Import QArith.QArith_base.
From S2P Require Import Prelude KVAllocator ReqPool Request RadixTree PrefixCache RadixReq ChunkCache CacheCommon.
From S2P Require Import RequestSpec SchedulePolicy SchedulePolicySpec ScheduleBatch.
#[local] Open Scope Z_scope.

(** ** Selecting by indices *)
Definition pick {T} (l : list T) (idx : list Z) : list T := omap (λ i, l !! Z.to_nat i) idx.
Definition in_range {T} (l : list T) (idx : list Z) : Prop := Forall (λ i, 0 ≤ i < len l) idx.

Lemma pick_fmap {T U} (f : T → U) l idx : pick (f <$> l) idx = f <$> pick l idx.
Proof.
  unfold pick. induction idx as [|i idx IH]; [done|]. cbn. rewrite list_lookup_fmap.
  destruct (l !! Z.to_nat i); cbn; [f_equal|]; exact IH.
Qed.

Lemma py_index_range {T} (l : list T) i : 0 ≤ i < len l → ∃ x, l !! Z.to_nat i = Some x ∧ py_index l i = Ok x.
Proof.
  intros Hi. unfold len in Hi. destruct (lookup_lt_is_Some_2 l (Z.to_nat i)) as [x Hx]; [lia|].
  exists x. split; [done|]. unfold py_index. rewrite (proj2 (Z.ltb_ge i 0)) by lia. cbn.
  unfold len. case_if; [exfalso; lia|]. by rewrite Hx.
Qed.

Lemma pick_cons {T} (l : list T) i idx x : l !! Z.to_nat i = Some x → pick l (i :: idx) = x :: pick l idx.
Proof. intros Hx. unfold pick. cbn. by rewrite Hx. Qed.

Lemma mapM_index {T} (l : list T) idx : in_range l idx → mapM_res (py_index l) idx = Ok (pick l idx).
Proof.
  induction 1 as [|i idx Hi _ IH]; [done|]. destruct (py_index_range l i Hi) as (x & Hx & E).
  cbn [mapM_res]. rewrite E. cbn [res_bind]. rewrite IH. cbn [res_bind]. by rewrite (pick_cons _ _ _ x).
Qed.

Lemma length_pick {T} (l : list T) idx : in_range l idx → length (pick l idx) = length idx.
Proof.
  induction 1 as [|i idx Hi _ IH]; [done|]. destruct (py_index_range l i Hi) as (x & Hx & _).
  rewrite (pick_cons _ _ _ x) by done. cbn. by rewrite IH.
Qed.

Lemma pick_app {T} (l : list T) a b : pick l (a ++ b) = pick l a ++ pick l b.
Proof. apply omap_app. Qed.

#[global] Instance pick_perm {T} (l : list T) : Proper ((≡ₚ) ==> (≡ₚ)) (pick l).
Proof. intros a b E. unfold pick. by rewrite E. Qed.

Lemma pick_all {T} (l : list T) : pick l (py_range 0 (len l)) = l.
Proof.
  induction l as [|x l IH] using rev_ind; [done|].
  assert (len (l ++ [x]) = len l + 1) as -> by (rewrite len_app; done).
  rewrite py_range_snoc by apply len_nonneg.
  rewrite pick_app. f_equal.
  - etrans; [|exact IH]. unfold pick. apply list_omap_ext. apply Forall2_same_length_lookup_2; [done|].
    intros i a b Ha Hb. rewrite Ha in Hb. injection Hb as <-.
    apply list_elem_of_lookup_2, elem_of_py_range in Ha. apply lookup_app_l. unfold len in Ha. lia.
  - rewrite (pick_cons _ _ _ x); [done|]. unfold len. by rewrite Nat2Z.id, list_lookup_middle.
Qed.

Lemma in_range_fmap {T U} (f : T → U) l idx : in_range l idx → in_range (f <$> l) idx.
Proof. unfold in_range. by rewrite len_fmap. Qed.

Lemma select_fmap {T U} (f : T → U) l idx o : o = Some (f <$> l) → in_range l idx →
  select o idx = Ok (Some (f <$> pick l idx)).
Proof.
  intros -> Hr. unfold select. cbn [of_opt res_bind]. rewrite mapM_index by by apply in_range_fmap.
  cbn. by rewrite pick_fmap.
Qed.

Lemma cat_fmap {T U} (f : T → U) l k a b : a = Some (f <$> l) → b = Some (f <$> k) → cat a b = Ok (Some (f <$> l ++ k)).
Proof. intros -> ->. unfold cat. cbn. by rewrite fmap_app. Qed.

(** ** Rows *)
Record Row := mkRow {
  row_req : Req.t; row_idx : Z; row_seq : Z; row_seq_cpu : Z; row_orig : Z; row_out : Z;
  row_mm : option (option Z); row_top : Z; row_ids : option (list Z); row_enc : Z; row_enc_cpu : Z
}.
Definition set_row_req (r : Row) (x : Req.t) : Row :=
  mkRow x (row_idx r) (row_seq r) (row_seq_cpu r) (row_orig r) (row_out r) (row_mm r) (row_top r) (row_ids r)
    (row_enc r) (row_enc_cpu r).
(** A row without logprob settings. *)
Definition quiet (r : Row) : Row :=
  mkRow (row_req r) (row_idx r) (row_seq r) (row_seq_cpu r) (row_orig r) (row_out r) (row_mm r) 0 None
    (row_enc r) (row_enc_cpu r).

Definition logprob_rows (rl : bool) (top : option (list Z)) (ids : option (list (option (list Z)))) (l : list Row) : Prop :=
  if rl then top = Some (row_top <$> l) ∧ ids = Some (row_ids <$> l) else quiet <$> l = l.

Record represents (enc : bool) (b : Batch.t) (l : list Row) : Prop := {
  rp_reqs : Batch.reqs b = row_req <$> l;
  rp_idx : Batch.req_pool_indices b = Some (row_idx <$> l);
  rp_seq : Batch.seq_lens b = Some (row_seq <$> l);
  rp_seq_cpu : Batch.seq_lens_cpu b = Some (row_seq_cpu <$> l);
  rp_orig : Batch.orig_seq_lens b = Some (row_orig <$> l);
  rp_sum : Batch.seq_lens_sum b = Some (sum_Z (row_seq <$> l));
  rp_out : Batch.output_ids b ≠ None → Batch.output_ids b = Some (row_out <$> l);
  rp_mm : Batch.multimodal_inputs b ≠ None → Batch.multimodal_inputs b = Some (row_mm <$> l);
  rp_logprob : logprob_rows (Batch.return_logprob b) (Batch.top_logprobs_nums b) (Batch.token_ids_logprobs b) l;
  rp_enc : enc = true → Batch.encoder_lens b = Some (row_enc <$> l) ∧ Batch.encoder_lens_cpu b = Some (row_enc_cpu <$> l)
}.

Lemma quiet_fmap {T} (f : Row → T) (l : list Row) : (∀ r, f (quiet r) = f r) → f <$> (quiet <$> l) = f <$> l.
Proof. intros E. rewrite <-list_fmap_compose. apply list_fmap_ext. intros; apply E. Qed.

Lemma quiet_top (l : list Row) : quiet <$> l = l → row_top <$> l = (λ _, 0) <$> l ∧ row_ids <$> l = (λ _, None) <$> l.
Proof. intros E. rewrite <-E, <-!list_fmap_compose. done. Qed.

Lemma quiet_app (l k : list Row) : quiet <$> l = l → quiet <$> k = k → quiet <$> l ++ k = l ++ k.
Proof. intros E1 E2. by rewrite fmap_app, E1, E2. Qed.

Lemma const_fmap {T U V} (x : V) (f : T → U) (l : list T) : (λ _, x) <$> (f <$> l) = (λ _, x) <$> l.
Proof. by rewrite <-list_fmap_compose. Qed.

Lemma merge_logprobs_rows b other l k :
  Batch.reqs b = row_req <$> l → Batch.reqs other = row_req <$> k →
  logprob_rows (Batch.return_logprob b) (Batch.top_logprobs_nums b) (Batch.token_ids_logprobs b) l →
  logprob_rows (Batch.return_logprob other) (Batch.top_logprobs_nums other) (Batch.token_ids_logprobs other) k →
  ∃ t i, merge_logprobs b other = Ok (Batch.set_token_ids_logprobs (Batch.set_top_logprobs_nums b t) i) ∧
    logprob_rows (Batch.return_logprob b || Batch.return_logprob other) t i (l ++ k).
Proof.
  intros Hb Ho Hl Hk. unfold merge_logprobs. destruct (Batch.return_logprob b), (Batch.return_logprob other); cbn [andb orb] in *.
  - destruct Hl as [-> ->], Hk as [-> ->]. cbn. do 2 eexists. split; [done|]. by rewrite !fmap_app.
  - destruct Hl as [-> ->]. destruct (quiet_top _ Hk) as [E1 E2]. rewrite Ho, !const_fmap, <-E1, <-E2. cbn.
    do 2 eexists. split; [done|]. by rewrite !fmap_app.
  - destruct Hk as [-> ->]. destruct (quiet_top _ Hl) as [E1 E2]. rewrite Hb, !const_fmap, <-E1, <-E2. cbn.
    do 2 eexists. split; [done|]. by rewrite !fmap_app.
  - exists (Batch.top_logprobs_nums b), (Batch.token_ids_logprobs b). split; [by destruct b|]. by apply quiet_app.
Qed.

(** Merging appends: when both batches represent rows, [merge_batch] succeeds
    and the result represents the rows of the first followed by those of the
    second, in every tensor, with the flags or-ed. *)
Theorem merge_batch_refines (is_encoder_decoder : bool) b other l k
    (Hb : represents is_encoder_decoder b l) (Ho : represents is_encoder_decoder other k)
    (Hout : Batch.output_ids b ≠ None → Batch.output_ids other ≠ None)
    (Hmm : Batch.multimodal_inputs b ≠ None → Batch.multimodal_inputs other ≠ None) :
  ∃ b', merge_batch is_encoder_decoder b other = Ok b' ∧ represents is_encoder_decoder b' (l ++ k) ∧
    Batch.out_cache_loc b' = None ∧ Batch.forward_mode b' = Batch.forward_mode b ∧
    Batch.return_logprob b' = Batch.return_logprob b || Batch.return_logprob other ∧
    Batch.has_stream b' = Batch.has_stream b || Batch.has_stream other ∧
    Batch.has_grammar b' = Batch.has_grammar b || Batch.has_grammar other.
Proof.
  destruct Hb as [Hr Hi Hs Hsc Ho' Hsum Hou Hm Hlp He], Ho as [Kr Ki Ks Ksc Ko Ksum Kou Km Klp Ke].
  unfold merge_batch.
  assert (∃ e ec, (if is_encoder_decoder then
      let! e := cat (Batch.encoder_lens b) (Batch.encoder_lens other) in
      let! ec := cat (Batch.encoder_lens_cpu b) (Batch.encoder_lens_cpu other) in
      Ok (Batch.set_encoder_lens_cpu (Batch.set_encoder_lens b e) ec)
    else Ok b) = Ok (Batch.set_encoder_lens_cpu (Batch.set_encoder_lens b e) ec) ∧
    (is_encoder_decoder = true → e = Some (row_enc <$> l ++ k) ∧ ec = Some (row_enc_cpu <$> l ++ k)))
    as (e & ec & -> & Henc).
  { destruct is_encoder_decoder.
    - destruct (He eq_refl) as [E1 E2], (Ke eq_refl) as [F1 F2].
      rewrite (cat_fmap row_enc l k _ _ E1 F1), (cat_fmap row_enc_cpu l k _ _ E2 F2). cbn. eauto.
    - exists (Batch.encoder_lens b), (Batch.encoder_lens_cpu b). split; [by destruct b|done]. }
  destruct b as [? ? ? ? ? ? ? ? ? out mm], other as [? ? ? ? ? ? ? ? ? out' mm'].
  cbn -[merge_logprobs fmap] in *. subst. cbn -[merge_logprobs fmap].
  assert (∃ o, match out with Some _ => cat out out' | None => Ok None end = Ok o ∧
    (o ≠ None → o = Some (row_out <$> l ++ k))) as (o & Eo & Ho).
  { destruct out; [|by exists None]. rewrite (cat_fmap row_out l k); [by eauto|by apply Hou|]. apply Kou, Hout. done. }
  assert (∃ m, match mm with Some _ => cat mm mm' | None => Ok None end = Ok m ∧
    (m ≠ None → m = Some (row_mm <$> l ++ k))) as (m & Em & Hm').
  { destruct mm; [|by exists None]. rewrite (cat_fmap row_mm l k); [by eauto|by apply Hm|]. apply Km, Hmm. done. }
  destruct out; [rewrite Eo|injection Eo as <-]; cbn -[merge_logprobs fmap];
    match goal with |- context [merge_logprobs ?x ?y] =>
      destruct (merge_logprobs_rows x y l k) as (t & i & -> & Hrows); [done..|] end;
    (destruct mm; [cbn -[fmap cat] in *; rewrite Em|injection Em as <-]); cbn -[fmap];
    eexists; (split; [done|]); split_and!; try done;
    constructor; cbn -[fmap]; first [done | by rewrite ?fmap_app, ?sum_Z_app].
Qed.

(** ** Filtering *)
Section filter.
Context (stream : Req.t → bool) (is_encoder_decoder : bool).

(** The rows a filter leaves: those selected, without logprob settings when no
    request that is left wants logprobs. *)
Definition kept_rows (l : list Row) (keep : list Z) : list Row :=
  if existsb Req.return_logprob (row_req <$> pick l keep) then pick l keep else quiet <$> pick l keep.

Lemma filter_batch_rows b l excl keep : represents is_encoder_decoder b l → Batch.output_ids b ≠ None →
  (existsb Req.return_logprob (row_req <$> pick l keep) = true → Batch.return_logprob b = true) →
  in_range l keep → keep ≠ [] → length keep ≠ length l →
  ∃ b', filter_batch stream is_encoder_decoder b excl (Some keep) = Ok b' ∧
    represents is_encoder_decoder b' (kept_rows l keep) ∧ Batch.out_cache_loc b' = None ∧
    Batch.forward_mode b' = Batch.forward_mode b ∧ Batch.is_hybrid b' = Batch.is_hybrid b ∧
    Batch.enable_overlap b' = Batch.enable_overlap b ∧
    Batch.has_stream b' = existsb stream (Batch.reqs b') ∧ Batch.return_logprob b' = existsb Req.return_logprob (Batch.reqs b').
Proof.
  intros [Hr Hi Hs Hsc Ho' Hsum Hou Hm Hlp He] Hne Hrl Hrange Hk Hlen. unfold filter_batch.
  destruct (Z.eqb_spec (len keep) 0) as [E|_]; [by apply len_zero_iff in E|].
  destruct (Z.eqb_spec (len keep) (len (Batch.reqs b))) as [E|_].
  { exfalso. rewrite Hr, len_fmap in E. unfold len in E. lia. }
  assert (∃ e ec, (if is_encoder_decoder then
      let! e := select (Batch.encoder_lens b) keep in
      let! ec := select (Batch.encoder_lens_cpu b) keep in
      Ok (Batch.set_encoder_lens_cpu (Batch.set_encoder_lens b e) ec)
    else Ok b) = Ok (Batch.set_encoder_lens_cpu (Batch.set_encoder_lens b e) ec) ∧
    (is_encoder_decoder = true → e = Some (row_enc <$> pick l keep) ∧ ec = Some (row_enc_cpu <$> pick l keep)))
    as (e & ec & -> & Henc).
  { destruct is_encoder_decoder.
    - destruct (He eq_refl) as [E1 E2].
      rewrite (select_fmap row_enc l keep _ E1), (select_fmap row_enc_cpu l keep _ E2) by done. cbn. eauto.
    - exists (Batch.encoder_lens b), (Batch.encoder_lens_cpu b). split; [by destruct b|done]. }
  destruct b as [? ? ? ? ? ? ? ? ? out mm]. cbn -[fmap] in *. specialize (Hou Hne). subst.
  cbn -[fmap select mapM_res existsb]. rewrite mapM_index by by apply in_range_fmap. cbn -[fmap select mapM_res existsb].
  assert (∃ m, match mm with Some _ => select mm keep | None => Ok None end = Ok m ∧
    (m ≠ None → m = Some (row_mm <$> pick l keep))) as (m & Em & Hm').
  { destruct mm; [|by exists None]. rewrite (select_fmap row_mm l keep); [by eauto|by apply Hm|done]. }
  rewrite pick_fmap.
  pose proof (λ T (f : Row → T), select_fmap f l keep _ eq_refl Hrange) as Hsel.
  destruct mm; [rewrite Em|injection Em as <-]; cbn -[fmap select existsb]; rewrite !Hsel;
    cbn -[fmap select existsb]; unfold kept_rows;
    destruct (existsb Req.return_logprob (row_req <$> pick l keep)) eqn:Erl;
    (try (rewrite (Hrl eq_refl) in Hlp; destruct Hlp as [-> ->]; rewrite !Hsel)); cbn -[fmap existsb];
    eexists; (split; [done|]); (split; [|split_and!; done]).
  all: constructor; cbn -[fmap]; rewrite ?quiet_fmap by done; done.
Qed.

(** Selecting the indices at which [P] holds is filtering. *)
Lemma pick_filter {T} (P : T → bool) (l : list T) :
  pick l (List.filter (λ i, match l !! Z.to_nat i with Some x => P x | None => false end) (py_range 0 (len l))) =
    List.filter P l.
Proof.
  unfold pick. transitivity (List.filter P (pick l (py_range 0 (len l)))); [|by rewrite pick_all].
  unfold pick. induction (py_range 0 (len l)) as [|i idx IH]; [done|]. cbn.
  destruct (l !! Z.to_nat i) as [x|] eqn:E; [|exact IH]. cbn. destruct (P x); [|exact IH]. cbn. rewrite E. f_equal. exact IH.
Qed.

Definition goes_on (excl : list Req.t) (r : Req.t) : bool :=
  negb (finished r) && negb (bool_decide (Req.rid r ∈ Req.rid <$> excl)).

Lemma length_filter_all {T} (P : T → bool) l : length (List.filter P l) = length l → List.filter P l = l.
Proof.
  induction l as [|x l IH]; [done|]. cbn. destruct (P x); cbn; intros E; [f_equal; apply IH; lia|].
  pose proof (List.filter_length_le P l). lia.
Qed.
End filter.

(** Filtering keeps exactly the unfinished requests: without explicit indices,
    [filter_batch] succeeds, the requests left are those neither finished nor
    excluded, in their order, and if any is left every tensor holds exactly
    their entries (the logprob settings are dropped when none of them wants
    logprobs). *)
Theorem filter_batch_keeps_unfinished stream (is_encoder_decoder : bool) b l excl
    (Hb : represents is_encoder_decoder b l) (Hout : Batch.output_ids b ≠ None)
    (Hrl : Batch.return_logprob b = existsb Req.return_logprob (Batch.reqs b)) :
  ∃ b', filter_batch stream is_encoder_decoder b excl None = Ok b' ∧
    Batch.reqs b' = List.filter (goes_on excl) (Batch.reqs b) ∧
    (Batch.reqs b' ≠ [] → ∃ l', represents is_encoder_decoder b' l' ∧
       let rows := List.filter (λ r, goes_on excl (row_req r)) l in l' = rows ∨ l' = quiet <$> rows).
Proof.
  set (keep := unfinished_indices b excl).
  change (filter_batch _ _ b excl None) with (filter_batch stream is_encoder_decoder b excl (Some keep)).
  assert (pick (Batch.reqs b) keep = List.filter (goes_on excl) (Batch.reqs b)) as Hp by apply pick_filter.
  assert (pick l keep = List.filter (λ r, goes_on excl (row_req r)) l) as Hpl.
  { unfold keep, unfinished_indices. rewrite (rp_reqs _ _ _ Hb), len_fmap.
    etrans; [|apply pick_filter]. unfold pick. f_equal. apply List.filter_ext. intros i. rewrite list_lookup_fmap. by destruct (l !! Z.to_nat i). }
  assert (in_range l keep) as Hrange.
  { apply Forall_forall. intros i Hi. apply list_elem_of_In, List.filter_In in Hi as [Hi _].
    apply list_elem_of_In, elem_of_py_range in Hi. rewrite (rp_reqs _ _ _ Hb), len_fmap in Hi. done. }
  pose proof (length_pick l keep Hrange) as Hlen.
  destruct (decide (keep = [])) as [E|Hne].
  { rewrite E. cbn. eexists. split; [done|]. cbn. rewrite <-Hp, E. done. }
  destruct (decide (length keep = length l)) as [E|Hn].
  { assert (List.filter (λ r, goes_on excl (row_req r)) l = l) as Hall.
    { apply length_filter_all. by rewrite <-Hpl, Hlen. }
    exists b. split_and!.
    - unfold filter_batch. rewrite (rp_reqs _ _ _ Hb), len_fmap. unfold len. rewrite E.
      destruct (Z.eqb_spec (Z.of_nat (length l)) 0) as [X|_]; [|by rewrite Z.eqb_refl].
      destruct keep; [done|]. cbn in E. lia.
    - rewrite <-Hp, (rp_reqs _ _ _ Hb), pick_fmap, Hpl, Hall. done.
    - intros _. exists l. split; [done|]. left. by rewrite Hall. }
  destruct (filter_batch_rows stream is_encoder_decoder b l excl keep Hb Hout) as (b' & Heq & Hrep & _); try done.
  { intros Hex. rewrite Hrl, (rp_reqs _ _ _ Hb). apply existsb_exists in Hex as (r & Hr & E).
    apply existsb_exists. exists r. split; [|done]. rewrite <-pick_fmap in Hr.
    apply list_elem_of_In. apply list_elem_of_In in Hr. unfold pick in Hr. apply list_elem_of_omap in Hr as (i & _ & Hi).
    by eapply list_elem_of_lookup_2. }
  exists b'. split; [done|]. split.
  - rewrite (rp_reqs _ _ _ Hrep), <-Hp, (rp_reqs _ _ _ Hb), pick_fmap. unfold kept_rows.
    destruct (existsb Req.return_logprob (row_req <$> pick l keep)); [reflexivity|apply quiet_fmap; done].
  - intros _. exists (kept_rows l keep). split; [done|]. cbv zeta. unfold kept_rows. rewrite Hpl. case_match; eauto.
Qed.

(** ** Retracting requests *)

(** What releasing does not touch. *)
Definition same_input (r r' : Req.t) : Prop := Req.io r' = Req.io r ∧ Req.args r' = Req.args r.

(** A request ready to be scheduled from scratch. *)
Record retracted (r r' : Req.t) : Prop := {
  rd_input : same_input r r';
  rd_flag : Req.is_retracted r' = true;
  rd_prefix : Req.prefix_indices r' = [] ∧ Req.last_node r' = None;
  rd_kv : Req.kv_committed_len r' = 0 ∧ Req.kv_allocated_len r' = 0;
  rd_freed : Req.kv_committed_freed r' = false ∧ Req.kv_overallocated_freed r' = false
}.
Lemma reset_retracted r r' : same_input r r' → retracted r (reset_for_retract r').
Proof. intros [H1 H2]. constructor; done. Qed.

(** What retraction relies on: [rt_inv c l] says that [l] are the requests that
    hold memory of [c].  Releasing one of them succeeds; the slots it gives back
    may stay in the cache, but a single request left is never all there is, so
    that some memory is free or evictable.  Evicting never loses free memory and
    turns evictable memory into free memory, in whole pages. *)
Class RetractLaws (C : Type) `{CacheHost C} (speculative_algorithm : option string) := {
  rt_inv : C → list Req.t → Prop;
  rt_perm c l l' : l ≡ₚ l' → rt_inv c l → rt_inv c l';
  rt_release c r l : rt_inv c (r :: l) →
    ∃ r' c', release_kv_cache (pc_page_size c) speculative_algorithm c r false = Ok (r', c') ∧
      rt_inv c' l ∧ same_input r r';
  rt_room c r : rt_inv c [r] → 0 < ch_available_size c + pc_evictable_size c;
  rt_pages c l : rt_inv c l → 0 < ch_alloc_page_size c ∧ (ch_alloc_page_size c | ch_available_size c);
  rt_evict c l n : rt_inv c l →
    ∃ c', evict_from_tree_cache c n = Ok c' ∧ rt_inv c' l ∧ ch_available_size c ≤ ch_available_size c' ∧
      ch_alloc_page_size c' = ch_alloc_page_size c ∧
      (0 < n → 0 < ch_available_size c + pc_evictable_size c → 0 < ch_available_size c')
}.

Section retract.
Context {C : Type} `{Hlaws : RetractLaws C None}.
Context (is_encoder_decoder : bool) (STEPS : Z).
Implicit Types (b : Batch.t) (c : C).
Abbreviation release_req := (release_req None STEPS).
Abbreviation retract_loop := (retract_loop None STEPS).

Lemma release_req_spec b c i n l live : represents is_encoder_decoder b l → 0 ≤ i →
  (∃ r, l !! Z.to_nat i = Some r ∧ rt_inv c (row_req r :: live)) →
  ∃ c' r r', release_req b c i n = Ok (Batch.set_reqs b (row_req <$> <[Z.to_nat i := set_row_req r r']> l), c') ∧
    l !! Z.to_nat i = Some r ∧ rt_inv c' live ∧ retracted (row_req r) r' ∧
    (0 < n * STEPS → length live = 1%nat → 0 < ch_available_size c').
Proof.
  intros Hb Hi (r & Hr & Hinv). unfold ScheduleBatch.release_req.
  assert (py_index (Batch.reqs b) i = Ok (row_req r)) as ->.
  { rewrite (rp_reqs _ _ _ Hb). unfold py_index. rewrite (proj2 (Z.ltb_ge i 0)) by lia. cbn.
    rewrite (proj2 (Z.ltb_ge i 0)) by lia. by rewrite list_lookup_fmap, Hr. }
  cbn [res_bind]. destruct (rt_release c (row_req r) live Hinv) as (r' & c1 & -> & Hinv1 & Hs). cbn [res_bind].
  destruct (rt_evict c1 live (n * STEPS) Hinv1) as (c2 & -> & Hinv2 & _ & _ & Hav). cbn [res_bind].
  exists c2, r, (reset_for_retract r'). split_and!; [|done|done|by apply reset_retracted|].
  - rewrite (rp_reqs _ _ _ Hb), list_fmap_insert. done.
  - intros Hn Hl. apply Hav; [done|]. destruct live as [|x [|]]; try done. by apply (rt_room c1 x).
Qed.

(** The sizes [check_decode_mem] compares. *)
Definition next_pages b c (idx : list Z) : Z :=
  let ps := ch_alloc_page_size c in
  let reqs := pick (Batch.reqs b) idx in
  if ps =? 1 then len reqs
  else len (List.filter (λ r, (if Batch.enable_overlap b then seqlen r else seqlen r - 1) mod ps =? 0) reqs).

Lemma check_decode_mem_spec b c idx live : in_range (Batch.reqs b) idx → Batch.is_hybrid b = false → rt_inv c live →
  ∃ c', check_decode_mem b c 1 (Some idx) =
      Ok (next_pages b c idx * ch_alloc_page_size c <=? ch_available_size c', c') ∧
    rt_inv c' live ∧ ch_available_size c ≤ ch_available_size c' ∧ ch_alloc_page_size c' = ch_alloc_page_size c.
Proof.
  intros Hr Hh Hinv. unfold check_decode_mem, new_page_count_next_decode. rewrite mapM_index by done. cbn [res_bind].
  assert ((if ch_alloc_page_size c =? 1 then Ok (len (pick (Batch.reqs b) idx))
    else if Batch.enable_overlap b then Ok (len (List.filter (λ r, seqlen r mod ch_alloc_page_size c =? 0) (pick (Batch.reqs b) idx)))
    else Ok (len (List.filter (λ r, (seqlen r - 1) mod ch_alloc_page_size c =? 0) (pick (Batch.reqs b) idx)))) =
    Ok (next_pages b c idx)) as ->.
  { unfold next_pages. destruct (_ =? 1); [done|]. by destruct (Batch.enable_overlap b). }
  cbn [res_bind]. rewrite Z.mul_1_r. set (n := next_pages b c idx * _).
  destruct (rt_evict c live n Hinv) as (c' & -> & Hinv' & Hav & Hps & _). cbn [res_bind].
  unfold _is_available_size_sufficient. rewrite Hh. cbn [res_bind]. eauto.
Qed.

(** The loop with the indices [rev] left, in reverse, and [out] released, of a
    batch that had the rows [l0] in the order [order]. *)
Record retracting (order : list Z) (l0 : list Row) b c (rev out : list Z) : Prop := {
  rg_order : order = reverse rev ++ reverse out;
  rg_nodup : NoDup order;
  rg_range : in_range l0 order;
  rg_rows : ∃ l, represents is_encoder_decoder b l ∧ length l = length l0 ∧
    (∀ i, i ∈ rev → l !! Z.to_nat i = l0 !! Z.to_nat i) ∧
    Forall2 retracted (row_req <$> pick l0 out) (row_req <$> pick l out);
  rg_live : rt_inv c (row_req <$> pick l0 rev)
}.

Lemma in_range_sub {T U} (l : list T) (l' : list U) idx idx' :
  in_range l idx → length l' = length l → (∀ i, i ∈ idx' → i ∈ idx) → in_range l' idx'.
Proof.
  intros Hr Hl Hs. apply Forall_forall. intros i Hi%Hs. unfold in_range in Hr. rewrite Forall_forall in Hr.
  specialize (Hr i Hi). unfold len in *. lia.
Qed.

Lemma pick_insert_ne {T} (l : list T) i x idx : 0 ≤ i → (∀ j, j ∈ idx → 0 ≤ j ∧ j ≠ i) →
  pick (<[Z.to_nat i := x]> l) idx = pick l idx.
Proof.
  intros Hi Hne. unfold pick. apply list_omap_ext. apply Forall2_same_length_lookup_2; [done|].
  intros k j j' Hj Hj'. assert (j' = j) as -> by congruence. apply list_elem_of_lookup_2, Hne in Hj as [Hj Hij].
  apply list_lookup_insert_ne. lia.
Qed.

(** One request released. *)
Lemma retracting_step n order l0 b c i rest out : retracting order l0 b c (i :: rest) out →
  ∃ b' c', release_req b c i n = Ok (b', c') ∧ retracting order l0 b' c' rest (out ++ [i]) ∧
    (0 < n * STEPS → length rest = 1%nat → 0 < ch_available_size c') ∧ Batch.is_hybrid b' = Batch.is_hybrid b ∧ Batch.output_ids b' = Batch.output_ids b ∧
    Batch.enable_overlap b' = Batch.enable_overlap b ∧ Batch.return_logprob b' = Batch.return_logprob b.
Proof.
  intros [Ho Hnd Hr (l & Hb & Hlen & Hsame & HF) Hlive].
  rewrite reverse_cons, <-app_assoc in Ho. cbn [app] in Ho.
  assert (∀ j, j ∈ order → 0 ≤ j < len l0) as Hin by (by apply Forall_forall).
  assert (i ∈ order) as Hi by (rewrite Ho; set_solver). pose proof (Hin i Hi) as Hir.
  destruct (py_index_range l0 i Hir) as (r0 & Hr0 & _).
  rewrite (pick_cons _ _ _ r0) in Hlive by done.
  destruct (release_req_spec b c i n l (row_req <$> pick l0 rest) Hb) as (c' & r & r' & Heq & Hli & Hlive' & Hret & Hav).
  { lia. } { exists r0. rewrite Hsame by set_solver. done. }
  assert (r = r0) as -> by (rewrite Hsame in Hli by set_solver; congruence).
  rewrite Ho in Hnd. apply NoDup_app in Hnd as (Hnd1 & Hdis & [Hni Hnd2]%NoDup_cons).
  eexists _, c'. split; [exact Heq|]. split; [|split; [|done]].
  2: { intros Hn Hone. apply Hav; [done|]. rewrite length_fmap, length_pick; [done|].
    apply Forall_forall. intros j Hj. apply Hin. rewrite Ho. set_solver. }
  constructor; [| | | |done].
  - rewrite reverse_snoc. by rewrite Ho.
  - rewrite Ho. apply NoDup_app. split_and!; [done..|by constructor].
  - done.
  - exists (<[Z.to_nat i := set_row_req r0 r']> l). split_and!.
    + assert (∀ T (f : Row → T), (∀ x y, f (set_row_req x y) = f x) → f <$> <[Z.to_nat i := set_row_req r0 r']> l = f <$> l) as Hf.
      { intros T f Hf. rewrite list_fmap_insert, Hf. apply list_insert_id. by rewrite list_lookup_fmap, Hli. }
      destruct Hb as [? ? ? ? ? ? ? ? Hlp ?]. constructor; cbn; rewrite ?Hf by done; try done.
      unfold logprob_rows in *. cbn. destruct (Batch.return_logprob b); [by rewrite !Hf by done|].
      rewrite list_fmap_insert, Hlp. f_equal. assert (quiet r0 = r0) as E.
      { assert ((quiet <$> l) !! Z.to_nat i = Some (quiet r0)) as E by (by rewrite list_lookup_fmap, Hli).
        rewrite Hlp, Hli in E. by injection E. }
      destruct r0. unfold quiet in *. cbn in *. by injection E as -> ->.
    + by rewrite length_insert.
    + intros j Hj. rewrite list_lookup_insert_ne; [apply Hsame; set_solver|]. intros E.
      assert (i = j) as -> by (pose proof (Hin j ltac:(rewrite Ho; set_solver)); lia).
      apply (Hdis j); set_solver.
    + rewrite !pick_app, !fmap_app. apply Forall2_app.
      * rewrite pick_insert_ne; [done|lia|]. intros j Hj. split; [|intros ->; set_solver].
        pose proof (Hin j ltac:(rewrite Ho; set_solver)). lia.
      * rewrite (pick_cons _ _ _ r0), (pick_cons _ _ _ (set_row_req r0 r')); [|apply list_lookup_insert_eq; by eapply lookup_lt_Some|done].
        repeat constructor; try apply Hret.
Qed.

Definition roomy b c (idx : list Z) : Prop := next_pages b c idx * ch_alloc_page_size c ≤ ch_available_size c.

Lemma retracting_range order l0 b c rev out : retracting order l0 b c rev out → in_range (Batch.reqs b) (reverse rev).
Proof.
  intros [Ho _ Hr (l & Hb & Hl & _) _]. rewrite (rp_reqs _ _ _ Hb). apply in_range_fmap.
  eapply in_range_sub; [exact Hr|done|]. intros i Hi. rewrite Ho. set_solver.
Qed.

(** One request needs at most one page. *)
Lemma one_page b c i : next_pages b c [i] ≤ 1.
Proof.
  unfold next_pages, pick. cbn. destruct (Batch.reqs b !! _) as [r|]; cbn; [|by destruct (_ =? 1)].
  destruct (_ =? 1); [done|]. by destruct (_ =? 0).
Qed.
Lemma roomy_one b c live i : rt_inv c live → 0 < ch_available_size c → roomy b c [i].
Proof.
  intros Hinv Hav. destruct (rt_pages c live Hinv) as [Hps [k Hk]]. pose proof (one_page b c i). unfold roomy.
  assert (1 ≤ k) by nia. nia.
Qed.

Lemma retract_loop_spec order l0 : 0 < STEPS → ∀ rev b c first out, retracting order l0 b c rev out → rev ≠ [] →
  Batch.is_hybrid b = false →
  (if first : bool then (2 ≤ length rev)%nat else (length rev = 1%nat → 0 < ch_available_size c) ∧ out ≠ []) →
  ∃ rev' out' b' c', retract_loop b c first rev out = Ok (rev', out', b', c') ∧
    retracting order l0 b' c' rev' out' ∧ rev' ≠ [] ∧ out' ≠ [] ∧ Batch.output_ids b' = Batch.output_ids b ∧
    Batch.return_logprob b' = Batch.return_logprob b ∧ roomy b' c' (reverse rev').
Proof.
  intros Hsteps. induction rev as [|i rest IH]; intros b c first out Hg Hne Hh Hf; [done|]. cbn [ScheduleBatch.retract_loop].
  assert (∃ enough c1, (if first then Ok (false, c) else check_decode_mem b c 1 (Some (reverse (i :: rest)))) = Ok (enough, c1) ∧
    retracting order l0 b c1 (i :: rest) out ∧ (if enough : bool then roomy b c1 (reverse (i :: rest)) ∧ out ≠ [] else rest ≠ []))
    as (enough & c1 & -> & Hg1 & Hen).
  { destruct first; [exists false, c; split; [done|split; [done|]]; intros ->; cbn in Hf; lia|].
    destruct (check_decode_mem_spec b c (reverse (i :: rest)) _ (retracting_range _ _ _ _ _ _ Hg) Hh (rg_live _ _ _ _ _ _ Hg))
      as (c1 & -> & Hlive & Ha & Hps). do 2 eexists. split; [done|]. destruct Hg, Hf as [Hav Hout]. split; [by constructor|].
    unfold next_pages. rewrite <-Hps. fold (next_pages b c1 (reverse (i :: rest))). case_bool; [done|].
    intros ->. specialize (Hav eq_refl). pose proof (roomy_one b c1 _ i Hlive ltac:(lia)) as X. unfold roomy in X.
    change (reverse [i]) with [i] in *. lia. }
  cbn [res_bind]. destruct enough.
  { destruct Hen as [Hroom Hout]. by exists (i :: rest), out, b, c1. }
  destruct rest as [|j rest]; [done|].
  destruct (retracting_step (len (j :: rest)) order l0 b c1 i (j :: rest) out Hg1) as (b2 & c2 & -> & Hg2 & Hav2 & Hh2 & Ho2 & _ & Hr2).
  cbn [res_bind]. destruct (IH b2 c2 false (out ++ [i]) Hg2) as (rev' & out' & b' & c' & -> & ? & ? & ? & ? & ? & ?); [done|congruence| |].
  { split; [|by destruct out]. apply Hav2. unfold len. cbn [length]. lia. }
  exists rev', out', b', c'. split_and!; congruence || done.
Qed.

(** The order in which requests are kept. *)
Lemma key_gtb_order : (∀ x y, key_gtb x y = true → key_gtb y x = false) ∧
  (∀ x y z, key_gtb x z = true → key_gtb x y = true ∨ key_gtb y z = true).
Proof.
  unfold key_gtb. split.
  - intros [a1 a2] [b1 b2]. cbn. rewrite orb_true_iff, orb_false_iff, !andb_true_iff, !andb_false_iff.
    rewrite !Z.ltb_lt, !Z.eqb_eq, !Z.ltb_ge, !Z.eqb_neq. lia.
  - intros [a1 a2] [b1 b2] [c1 c2]. cbn. rewrite !orb_true_iff, !andb_true_iff, !Z.ltb_lt, !Z.eqb_eq. lia.
Qed.

Definition index_key b (i : Z) : Z * Z := default (0, 0) (retract_key <$> Batch.reqs b !! Z.to_nat i).

Lemma retract_order_spec b : retract_order None b ≡ₚ py_range 0 (len (Batch.reqs b)) ∧
  StronglySorted (λ i j, key_gtb (index_key b j) (index_key b i) = false) (retract_order None b).
Proof.
  assert (retract_key <$> Batch.reqs b = index_key b <$> py_range 0 (len (Batch.reqs b))) as E.
  { rewrite <-(pick_all (Batch.reqs b)) at 1. unfold index_key.
    assert (in_range (Batch.reqs b) (py_range 0 (len (Batch.reqs b)))) as Hr.
    { apply Forall_forall. intros i. apply elem_of_py_range. }
    induction Hr as [|i idx Hi _ IH]; [done|]. destruct (py_index_range _ _ Hi) as (x & Hx & _).
    rewrite (pick_cons _ _ _ x), !fmap_cons, Hx by done. cbn. f_equal. exact IH. }
  change (retract_order None b) with (sort_on key_gtb (retract_key <$> Batch.reqs b) (py_range 0 (len (Batch.reqs b)))).
  rewrite E. split; [apply sort_on_fmap_perm|]. apply sort_on_sorted; apply key_gtb_order.
Qed.

Lemma retracting_start b c l : represents is_encoder_decoder b l → rt_inv c (Batch.reqs b) →
  retracting (retract_order None b) l b c (reverse (retract_order None b)) [].
Proof.
  intros Hb Hinv. destruct (retract_order_spec b) as [HP _].
  assert (len (Batch.reqs b) = len l) as El by (by rewrite (rp_reqs _ _ _ Hb), len_fmap). rewrite El in HP. constructor.
  - by rewrite reverse_involutive, app_nil_r.
  - rewrite HP. apply NoDup_py_range.
  - apply Forall_forall. intros i. rewrite HP. apply elem_of_py_range.
  - exists l. split_and!; done.
  - eapply rt_perm; [|exact Hinv]. rewrite (rp_reqs _ _ _ Hb), reverse_Permutation, HP, pick_all. done.
Qed.

(** What the requests kept and released have to do with each other. *)
Lemma retracting_split b l b' c' rev out : represents is_encoder_decoder b l →
  retracting (retract_order None b) l b' c' rev out →
  let kept := row_req <$> pick l (reverse rev) in
  let gone := row_req <$> pick l out in
  kept ++ gone ≡ₚ Batch.reqs b ∧ ∀ x y, x ∈ kept → y ∈ gone → key_gtb (retract_key y) (retract_key x) = false.
Proof.
  intros Hb Hg kept gone. destruct (retract_order_spec b) as [HP HS]. pose proof (rg_order _ _ _ _ _ _ Hg) as Ho. split.
  - unfold kept, gone. rewrite <-fmap_app, <-pick_app, (rp_reqs _ _ _ Hb). f_equiv.
    rewrite <-(pick_all l) at 2. f_equiv. rewrite (rp_reqs _ _ _ Hb), len_fmap in HP. rewrite <-HP, Ho.
    by rewrite (reverse_Permutation out).
  - assert (∀ x idx, x ∈ row_req <$> pick l idx → ∃ i, i ∈ idx ∧ index_key b i = retract_key x) as Hix.
    { intros x idx (row & -> & (i & Hi & Hrow)%list_elem_of_omap)%list_elem_of_fmap. exists i. split; [done|].
      unfold index_key. by rewrite (rp_reqs _ _ _ Hb), list_lookup_fmap, Hrow. }
    intros x y (i & Hi & <-)%Hix (j & Hj & <-)%Hix. rewrite Ho in HS.
    apply (StronglySorted_app_1_elem_of _ _ _ i j HS); set_solver.
Qed.
End retract.

Lemma clip_le q : ((if Qle_bool 1 q then 1 else q) <= 1)%Q.
Proof.
  destruct (Qle_bool 1 q) eqn:E; [apply Qle_refl|].
  destruct (Qlt_le_dec 1 q) as [Hq|Hq]; [|exact Hq]. apply Qlt_le_weak, Qle_bool_iff in Hq. congruence.
Qed.

Lemma retract_order_length enc b l : represents enc b l → length (reverse (retract_order None b)) = length l.
Proof.
  intros Hb. rewrite length_reverse, (Permutation_length (proj1 (retract_order_spec b))), length_py_range, (rp_reqs _ _ _ Hb), len_fmap.
  unfold len. lia.
Qed.
Lemma pick_same {T} (l l' : list T) idx : (∀ i, i ∈ idx → l' !! Z.to_nat i = l !! Z.to_nat i) → pick l' idx = pick l idx.
Proof.
  intros Hsame. unfold pick. apply list_omap_ext, Forall2_same_length_lookup_2; [done|].
  intros k i j Hi Hj. assert (j = i) as -> by congruence. by eapply Hsame, list_elem_of_lookup_2.
Qed.
(** Room for the requests kept is room for the next step of the filtered batch. *)
Lemma roomy_next_decode {C} `{CacheHost C} b b' (c : C) idx : Batch.reqs b' = pick (Batch.reqs b) idx →
  Batch.enable_overlap b' = Batch.enable_overlap b → roomy b c idx →
  ∃ n, new_page_count_next_decode b' c None = Ok n ∧ n * ch_alloc_page_size c ≤ ch_available_size c.
Proof.
  intros Hr Ho Hroom. exists (next_pages b c idx). split; [|exact Hroom].
  unfold new_page_count_next_decode, next_pages. rewrite Ho, <-Hr. cbn [res_bind].
  destruct (_ =? 1); [done|]. by destruct (Batch.enable_overlap b).
Qed.

(** C16. Retraction makes room: with at least two requests [retract_decode]
    returns (its loop ends and no assertion fails), releases some requests and
    keeps at least one, loses none, only releases requests that are not ahead of
    those kept (fewer output tokens, or as many and a longer input), resets the
    released ones completely, and leaves enough free memory for the next decode
    step of those kept; the estimated ratio is at most one.  This holds for every
    cache that keeps [RetractLaws], whose only demand on the sizes is that a single
    request does not hold the whole cache: the radix cache does with pages of any
    size (RadixRetract.v), the chunk cache with pages of one slot.  The allocator is
    not hybrid and speculative decoding is off. *)
Theorem retract_decode_makes_room {C} `{RetractLaws C None} stream is_encoder_decoder STEPS b c l
    (Hb : represents is_encoder_decoder b l) (Hinv : rt_inv c (Batch.reqs b)) (Hh : Batch.is_hybrid b = false)
    (Hout : Batch.output_ids b ≠ None) (Hrl : Batch.return_logprob b = existsb Req.return_logprob (Batch.reqs b))
    (Hlen : (2 ≤ length l)%nat) (Hsteps : 0 < STEPS) (Hmax : Forall (λ r, 0 ≤ max_new_tokens (Req.sampling_params r)) (Batch.reqs b)) :
  ∃ gone' ratio b' c', retract_decode stream is_encoder_decoder None STEPS b c = Ok (gone', ratio, b', c') ∧
    ∃ gone, gone ≠ [] ∧ Forall2 retracted gone gone' ∧ Batch.reqs b' ≠ [] ∧ Batch.reqs b' ++ gone ≡ₚ Batch.reqs b ∧
    (∀ x y, x ∈ Batch.reqs b' → y ∈ gone → key_gtb (retract_key y) (retract_key x) = false) ∧
    rt_inv c' (Batch.reqs b') ∧
    (∃ n, new_page_count_next_decode b' c' None = Ok n ∧ n * ch_alloc_page_size c' ≤ ch_available_size c') ∧
    (ratio <= 1)%Q.
Proof.
  unfold retract_decode. pose proof (retracting_start is_encoder_decoder b c l Hb Hinv) as Hg0.
  pose proof (retract_order_length is_encoder_decoder b l Hb) as Ho.
  destruct (retract_loop_spec is_encoder_decoder STEPS _ _ Hsteps _ b c true [] Hg0) as
    (rev & out & b1 & c1 & -> & Hg & Hrev & Hout' & Eo & Er & Hroom); [|done|lia|].
  { intros E. rewrite E in Ho. cbn in Ho. lia. }
  cbn [res_bind]. destruct (retracting_split _ _ _ _ _ _ _ Hb Hg) as [HP Hkey].
  pose proof (retracting_range _ _ _ _ _ _ _ Hg) as Hrange.
  destruct Hg as [Horder Hnd Hr0 (l' & Hb1 & Hl' & Hsame & HF) Hlive].
  assert (in_range l' (reverse rev)) as Hr1.
  { eapply in_range_sub; [exact Hr0|done|]. intros i Hi. rewrite Horder. set_solver. }
  assert (in_range l' out) as Hr2.
  { eapply in_range_sub; [exact Hr0|done|]. intros i Hi. rewrite Horder. set_solver. }
  assert (pick l' (reverse rev) = pick l (reverse rev)) as Hpk.
  { apply pick_same. intros i Hi. apply Hsame. set_solver. }
  rewrite mapM_index by (rewrite (rp_reqs _ _ _ Hb1); by apply in_range_fmap). cbn [res_bind].
  destruct (filter_batch_rows stream is_encoder_decoder b1 l' [] (reverse rev) Hb1) as (b2 & -> & Hb2 & _ & _ & _ & Eov & _).
  { by rewrite Eo. }
  { intros Hex. rewrite Er, Hrl, (rp_reqs _ _ _ Hb). rewrite Hpk in Hex. apply existsb_exists in Hex as (r & Hr & E).
    apply existsb_exists. exists r. split; [|done]. apply list_elem_of_In. apply list_elem_of_In in Hr.
    rewrite <-(rp_reqs _ _ _ Hb), <-HP. set_solver. }
  { done. }
  { intros E%(f_equal reverse). rewrite reverse_involutive in E. done. }
  { rewrite Hl', <-Ho, length_reverse, length_reverse, Horder, length_app, !length_reverse.
    destruct out; [done|]. cbn. lia. }
  cbn [res_bind].
  assert (Batch.reqs b2 = row_req <$> pick l (reverse rev)) as Ereqs.
  { rewrite (rp_reqs _ _ _ Hb2). unfold kept_rows. rewrite Hpk. case_match; [done|by apply quiet_fmap]. }
  set (d := sum_Z ((λ r, max_new_tokens (Req.sampling_params r)) <$> Batch.reqs b2)).
  assert (0 ≤ d) as Hd.
  { apply sum_Z_nonneg, Forall_fmap. rewrite <-HP, Forall_app in Hmax. rewrite Ereqs. apply Hmax. }
  destruct (Z.eqb_spec (d + 1) 0) as [E|_]; [lia|]. cbn [res_bind].
  do 4 eexists. split; [reflexivity|]. exists (row_req <$> pick l out). rewrite Ereqs, (rp_reqs _ _ _ Hb1), pick_fmap.
  assert (length (pick l (reverse rev)) = length rev) as Hlr by (by rewrite <-Hpk, length_pick, length_reverse).
  split_and!; try done.
  - intros E%(f_equal length). rewrite length_fmap, length_pick in E; [by destruct out|].
    by eapply in_range_sub; [exact Hr2|..].
  - intros E%(f_equal length). rewrite length_fmap, Hlr in E. by destruct rev.
  - eapply rt_perm; [|exact Hlive]. by rewrite (reverse_Permutation rev).
  - eapply roomy_next_decode; [|exact Eov|exact Hroom]. by rewrite Ereqs, (rp_reqs _ _ _ Hb1), pick_fmap, Hpk.
  - apply clip_le.
Qed.

(** ** The chunk cache keeps the laws *)
Section chunk_retract.
Context (topk : option Z) (Htopk : topk = None ∨ topk = Some 1).
#[local] Instance chunk_host : CacheHost (chunk_cache Base.t) := chunk_token_host topk.

(** A request whose memory can be released: a row of the table with at least
    one committed slot, nothing freed and nothing allocated beyond. *)
Record releasable (c : chunk_cache Base.t) (r : Req.t) : Prop := {
  rl_row : ∃ i row, Req.req_pool_idx r = Some i ∧ 0 ≤ i ∧
    ReqToTokenPool.req_to_token (ck_pool c) !! Z.to_nat i = Some row ∧ 0 < Req.kv_committed_len r ∧ 0 < len row;
  rl_once : Req.kv_committed_freed r = false ∧ Req.kv_overallocated_freed r = false;
  rl_exact : Req.kv_allocated_len r = Req.kv_committed_len r
}.

Lemma chunk_release c r : releasable c r → Base.is_not_in_free_group (ck_alloc c) = true → ck_page_size c = 1 →
  ∃ r' c', release_kv_cache (pc_page_size c) None c r false = Ok (r', c') ∧ same_input r r' ∧
    0 < ch_available_size c' ∧ Base.is_not_in_free_group (ck_alloc c') = true ∧ ck_page_size c' = 1 ∧
    Base.page_size (ck_alloc c') = Base.page_size (ck_alloc c) ∧
    ReqToTokenPool.req_to_token (ck_pool c') = ReqToTokenPool.req_to_token (ck_pool c).
Proof.
  intros [(i & row & Hi & Hi0 & Hrow & Hk & Hlen) [Hf1 Hf2] Hex] Hg Hps.
  unfold release_kv_cache. cbn [pc_cache_finished_req ch_prefix chunk_host chunk_token_host ChunkCache.chunk_prefix_cache].
  unfold ChunkCache.cache_finished_req.
  assert (pop_committed_kv_cache topk r = Ok (Req.kv_committed_len r, Req.set_kv_committed_freed r true)) as ->.
  { unfold pop_committed_kv_cache. rewrite Hf1. by destruct Htopk as [-> | ->]. }
  cbn [res_bind]. rewrite (row_slice_ok c _ i row) by done. cbn [res_bind]. change (Req.req_pool_idx (Req.set_kv_committed_freed r true)) with (Req.req_pool_idx r).
  rewrite Hi. cbn [of_opt res_bind]. unfold pop_overallocated_kv_cache.
  change (Req.kv_overallocated_freed (Req.set_kv_committed_freed r true)) with (Req.kv_overallocated_freed r).
  rewrite Hf2. cbn [negb py_assert res_bind].
  change (Req.kv_committed_len (Req.set_kv_committed_freed r true)) with (Req.kv_committed_len r).
  change (Req.kv_allocated_len (Req.set_kv_committed_freed r true)) with (Req.kv_allocated_len r).
  rewrite Hex, Z.eqb_refl. cbn [py_assert res_bind].
  change (pc_page_size c) with (ck_page_size c). rewrite Hps, Z.leb_refl.
  do 2 eexists. split; [reflexivity|]. split; [done|]. cbn [ck_alloc ck_pool ck_page_size].
  split; [|split; [|split; [done|split; [|done]]]].
  - change (ch_available_size _) with (TokenAlloc.available_size (TokenAlloc.free (ck_alloc c) (py_slice row 0 (Req.kv_committed_len r)))).
    assert (0 < len (py_slice row 0 (Req.kv_committed_len r))) as Hfree.
    { rewrite py_slice_0, len_py_upto by lia. lia. }
    unfold TokenAlloc.free. rewrite (proj2 (Z.eqb_neq _ 0)), Hg by lia. unfold TokenAlloc.available_size.
    destruct (Base.need_sort (ck_alloc c)); cbn [Base.free_pages Base.release_pages Base.set_pages]; rewrite len_app;
      pose proof (len_nonneg (Base.free_pages (ck_alloc c))); pose proof (len_nonneg (Base.release_pages (ck_alloc c))); lia.
  - unfold TokenAlloc.free. rewrite Hg. by destruct (_ =? _), (Base.need_sort (ck_alloc c)).
  - unfold TokenAlloc.free. rewrite Hg. by destruct (_ =? _), (Base.need_sort (ck_alloc c)).
Qed.

Lemma releasable_pool c c' r : ReqToTokenPool.req_to_token (ck_pool c') = ReqToTokenPool.req_to_token (ck_pool c) →
  releasable c r → releasable c' r.
Proof. intros E [H1 H2 H3]. constructor; [|done..]. by rewrite E. Qed.

(** What a request releases is free at once; only a request that is alone from
    the start needs a free slot. *)
#[export, refine] Instance chunk_retract_laws : RetractLaws (chunk_cache Base.t) None := {|
  rt_inv c l := Forall (releasable c) l ∧ Base.is_not_in_free_group (ck_alloc c) = true ∧ ck_page_size c = 1 ∧
    Base.page_size (ck_alloc c) = 1 ∧ (length l = 1%nat → 0 < ch_available_size c)
|}.
Proof.
  - intros c l l' HP (Hl & Hg & Hps & Hpa & Hav). split; [by rewrite <-HP|]. split_and!; [exact Hg|exact Hps|exact Hpa|].
    intros Hone. apply Hav. rewrite <-Hone. by apply Permutation_length.
  - intros c r l ([Hr Hl]%Forall_cons & Hg & Hps & Hpa & _).
    destruct (chunk_release c r Hr Hg Hps) as (r' & c' & Heq & Hs & Hav & Hg' & Hps' & Hpa' & Hp).
    exists r', c'. split; [exact Heq|]. split; [|done]. split_and!; try done; [|congruence].
    eapply Forall_impl; [exact Hl|]. intros x. by apply releasable_pool.
  - intros c r (_ & _ & _ & _ & Hav). change (pc_evictable_size c) with 0. specialize (Hav eq_refl). lia.
  - intros c l (_ & _ & _ & Hpa & _). change (ch_alloc_page_size c) with (Base.page_size (ck_alloc c)). rewrite Hpa.
    split; [done|]. apply Z.divide_1_l.
  - intros c l n Hinv. exists c. split; [reflexivity|]. split; [exact Hinv|]. split; [apply Z.le_refl|].
    split; [reflexivity|]. intros _. change (pc_evictable_size c) with 0. lia.
Defined.
End chunk_retract.

(** ** Witnesses *)
Module BatchDemo.
(** Two requests in rows 0 and 1; no slot is free. *)
Definition req (id : string) (toks out : list Z) (row : Z) : Req.t :=
  let r := Req.set_output_ids (Req.set_req_pool_idx (Req_init id toks demo_params false None None [] (Some 100) None None) (Some row)) out in
  Req.set_kv_allocated_len (Req.set_kv_committed_len r 3) 3.
Definition a : Req.t := req "a" [1; 2; 3] [7] 0.
Definition z : Req.t := req "z" [4; 5] [8; 9] 1.
Definition row (r : Req.t) (i : Z) (o : Z) : Row := mkRow r i 3 3 3 o None 0 None 0 0.
Definition rows : list Row := [row a 0 7; row z 1 9].
Definition batch : Batch.t :=
  Batch.mk [a; z] false (Some DECODE) false None (Some [0; 1]) (Some [3; 3]) (Some [3; 3]) None (Some [7; 9]) None
    (Some 6) (Some [3; 3]) false None None None None None None None None None None None false false false false.
Definition full : chunk_cache Base.t :=
  mkChunk (ReqToTokenPool.mk 2 4 [[1; 2; 3; 0]; [4; 5; 6; 0]] []) (Base.mk 6 1 false [] [] true []) 1 0.
#[local] Instance host : CacheHost (chunk_cache Base.t) := chunk_token_host None.
Definition stream (_ : Req.t) : bool := false.

Lemma batch_rows : represents false batch rows.
Proof. by constructor. Qed.

(** The request with less output is retracted; its three slots are free. *)
Lemma run : ∃ r q b' c', retract_decode stream false None 20 batch full = Ok ([r], q, b', c') ∧ Batch.reqs b' = [z] ∧
  TokenAlloc.available_size (ck_alloc c') = 3.
Proof. do 4 eexists. split; [vm_compute; reflexivity|]. split; reflexivity. Qed.
End BatchDemo.
#[local] Existing Instance BatchDemo.host.

Lemma merge_batch_refines_witness : ∃ b', merge_batch false BatchDemo.batch BatchDemo.batch = Ok b' ∧
  Batch.seq_lens b' = Some [3; 3; 3; 3] ∧ Batch.req_pool_indices b' = Some [0; 1; 0; 1].
Proof.
  destruct (merge_batch_refines false BatchDemo.batch BatchDemo.batch BatchDemo.rows BatchDemo.rows BatchDemo.batch_rows
    BatchDemo.batch_rows (λ h, h) (λ h, h)) as (b' & Heq & Hrep & _).
  exists b'. exact (conj Heq (conj (rp_seq _ _ _ Hrep) (rp_idx _ _ _ Hrep))).
Defined.

Lemma filter_batch_keeps_unfinished_witness : ∃ b',
  filter_batch BatchDemo.stream false BatchDemo.batch [BatchDemo.a] None = Ok b' ∧ Batch.reqs b' = [BatchDemo.z].
Proof.
  destruct (filter_batch_keeps_unfinished BatchDemo.stream false BatchDemo.batch BatchDemo.rows [BatchDemo.a] BatchDemo.batch_rows
    ltac:(discriminate) eq_refl) as (b' & Heq & Hreqs & _).
  exists b'. exact (conj Heq Hreqs).
Defined.

(** ** Preparing batches *)
Section prepare.
Context {C : Type} `{CacheHost C}.
Context (return_hidden_states : Req.t → bool) (top_logprobs_num : Req.t → Z)
  (token_ids_logprob : Req.t → option (list Z)) (multimodal_inputs : Req.t → option (option Z)).
Context (attention_chunk_size masked oob : Z) (support_triton : bool).
Implicit Types (b : Batch.t) (c : C).

(** A request as [prepare_for_extend] leaves it: it has the row [i] and all of its tokens count as computed. *)
Record extended (r : Req.t) (i : Z) (r' : Req.t) : Prop := {
  ex_input : same_input r r';
  ex_row : Req.req_pool_idx r' = Some i;
  ex_kv : Req.kv_committed_len r' = len (Req.fill_ids r) ∧ Req.kv_allocated_len r' = len (Req.fill_ids r);
  ex_prefix : Req.prefix_indices r' = Req.prefix_indices r ∧ Req.extend_input_len r' = Req.extend_input_len r;
  ex_computed : Req.already_computed r' = len (Req.fill_ids r) ∧ Req.is_retracted r' = false;
  ex_logprob : 0 ≤ Req.logprob_start_len r → 0 ≤ Req.extend_input_len r → Req.origin_input_ids r ++ Req.output_ids r ≠ [] →
    0 ≤ Req.extend_logprob_start_len r' ≤ Req.extend_input_len r
}.

Definition consistent (r : Req.t) : Prop := len (Req.fill_ids r) - len (Req.prefix_indices r) = Req.extend_input_len r.

Lemma extend_req_spec b r i : consistent r →
  ∃ r' ids, extend_req b r i (len (Req.fill_ids r)) (len (Req.prefix_indices r)) = Ok (r', ids) ∧ extended r i r' ∧
    (Batch.return_logprob b = false → ids = []).
Proof.
  intros Hc. unfold extend_req. change (Req.extend_input_len (Req.set_req_pool_idx r (Some i))) with (Req.extend_input_len r).
  rewrite (proj2 (Z.eqb_eq _ _) Hc). cbn [py_assert res_bind]. do 2 eexists. split; [reflexivity|].
  split; [|by intros ->]. constructor; try done. intros Hs He Hne.
  assert (1 ≤ seqlen r) as Hseq.
  { unfold seqlen. rewrite <-len_app. pose proof (len_nonneg (Req.origin_input_ids r ++ Req.output_ids r)).
    assert (len (Req.origin_input_ids r ++ Req.output_ids r) ≠ 0) by (by rewrite len_zero_iff). lia. }
  match goal with |- context [Req.extend_logprob_start_len (Req.set_extend_logprob_start_len ?a ?x)] =>
    change (Req.extend_logprob_start_len (Req.set_extend_logprob_start_len a x)) with x end.
  repeat match goal with |- context [Req.logprob_start_len ?a] => lazymatch a with r => fail | _ =>
    change (Req.logprob_start_len a) with (Req.logprob_start_len r) end end.
  repeat match goal with |- context [Req.extend_input_len ?a] => lazymatch a with r => fail | _ =>
    change (Req.extend_input_len a) with (Req.extend_input_len r) end end.
  repeat match goal with |- context [seqlen ?a] => lazymatch a with r => fail | _ =>
    change (seqlen a) with (seqlen r) end end.
  case_bool; [|lia]. destruct (_ && _); lia.
Qed.

Lemma extend_reqs_spec b reqs : ∀ idx, Forall consistent reqs → length idx = length reqs →
  ∃ reqs' ids, extend_reqs b reqs idx ((λ r, len (Req.fill_ids r)) <$> reqs) ((λ r, len (Req.prefix_indices r)) <$> reqs) =
      Ok (reqs', ids) ∧ length reqs' = length reqs ∧
    (∀ k r i, reqs !! k = Some r → idx !! k = Some i → ∃ r', reqs' !! k = Some r' ∧ extended r i r').
Proof.
  induction reqs as [|r reqs IH]; intros [|i idx] HF Hl; try done; [by exists [], []|].
  apply Forall_cons in HF as [Hc HF]. injection Hl as Hl. cbn [extend_reqs fmap list_fmap].
  change (py_index (i :: idx) 0) with (Ok i). cbn [res_bind].
  destruct (extend_req_spec b r i Hc) as (r' & ids & -> & Hx & _). cbn [res_bind tail].
  destruct (IH idx HF Hl) as (reqs' & idss & E & Hl' & Hall). change (list_fmap _ _ ?f reqs) with (f <$> reqs). rewrite E. cbn [res_bind].
  exists (r' :: reqs'), (ids ++ idss). split_and!; [done|by cbn; rewrite Hl'|].
  intros [|k] r0 i0 H1 H2; cbn in *; [injection H1 as <-; injection H2 as <-; eauto|by eapply Hall].
Qed.

Lemma fmap_zip_fst {X Y Z0} (f : X → Y → Z0) (g : Z0 → X) xs ys : (∀ x y, g (f x y) = x) → length ys = length xs →
  g <$> zip_with f xs ys = xs.
Proof. revert ys. induction xs as [|x xs IH]; intros [|y ys] Hg Hl; try done. cbn. rewrite Hg. f_equal. apply IH; [done|]. by injection Hl. Qed.
Lemma fmap_zip_snd {X Y Z0} (f : X → Y → Z0) (g : Z0 → Y) xs ys : (∀ x y, g (f x y) = y) → length ys = length xs →
  g <$> zip_with f xs ys = ys.
Proof. revert ys. induction xs as [|x xs IH]; intros [|y ys] Hg Hl; try done. cbn. rewrite Hg. f_equal. apply IH; [done|]. by injection Hl. Qed.

(** The rows of a prepared prefill. *)
Definition extend_row (rl : bool) (r : Req.t) (i : Z) : Row :=
  mkRow r i (len (Req.fill_ids r)) (len (Req.fill_ids r)) (Z.max (len (Req.fill_ids r)) (len (Req.origin_input_ids r))) 0
    (multimodal_inputs r) (if rl then top_logprobs_num r else 0) (if rl then token_ids_logprob r else None) 0 0.

Lemma extended_fmap {T} (f : Req.t → T) reqs reqs' (idx : list Z) :
  (∀ r r', same_input r r' → f r' = f r) → length idx = length reqs → length reqs' = length reqs →
  (∀ k r i, reqs !! k = Some r → idx !! k = Some i → ∃ r', reqs' !! k = Some r' ∧ extended r i r') →
  f <$> reqs' = f <$> reqs.
Proof.
  intros Hf Hi Hl Hall. apply list_eq_same_length with (n := length reqs); [by rewrite length_fmap..|].
  intros k x y Hk Hx Hy. rewrite list_lookup_fmap in Hx, Hy.
  destruct (reqs !! k) as [r|] eqn:E; [|done]. destruct (lookup_lt_is_Some_2 idx k ltac:(lia)) as [i Hii].
  destruct (Hall k r i E Hii) as (r' & E' & [Hs _ _ _ _ _]). rewrite E' in Hx. cbn in Hx, Hy. rewrite (Hf r r' Hs) in Hx. congruence.
Qed.
End prepare.

Lemma len_mjoin {T} (ls : list (list T)) : len (mjoin ls) = sum_Z (len <$> ls).
Proof. induction ls as [|l ls IH]; [done|]. change (mjoin (l :: ls)) with (l ++ mjoin ls). by rewrite len_app, IH, fmap_cons, sum_Z_cons. Qed.

(** Preparing a prefill: once the memory is allocated, [prepare_for_extend]
    succeeds on requests whose extension is the uncached part of [fill_ids]; the
    input tokens are exactly the uncached tokens, request after request, as many
    as [extend_num_tokens]; every tensor has one entry per request; and each
    request has its row of the table, counts all its tokens as computed, and
    gets a logprob start within its extension. *)
Theorem prepare_for_extend_rows {C} `{CacheHost C} top_logprobs_num token_ids_logprob multimodal_inputs
    attention_chunk_size masked oob support_triton b (c c' : C) out idx
    (Hcons : Forall consistent (Batch.reqs b)) (Hnone : Batch.output_ids b = None)
    (Hidx : length idx = length (Batch.reqs b)) :
  let reqs := Batch.reqs b in
  let fresh := (λ r, py_from (Req.fill_ids r) (len (Req.prefix_indices r))) <$> reqs in
  alloc_for_extend masked oob support_triton c reqs ((λ r, len (Req.prefix_indices r)) <$> reqs) (Req.extend_input_len <$> reqs)
    ((λ r, len (Req.fill_ids r)) <$> reqs) ((λ r, len (Req.fill_ids r)) <$> reqs) (sum_Z (len <$> fresh))
    attention_chunk_size = Ok (out, idx, reqs, c') →
  ∃ b' l, prepare_for_extend top_logprobs_num token_ids_logprob multimodal_inputs false attention_chunk_size masked oob
      support_triton b c = Ok (b', c') ∧
    represents false b' l ∧ Batch.forward_mode b' = Some EXTEND ∧
    Batch.input_ids b' = Some (mjoin fresh) ∧ Batch.extend_num_tokens b' = Some (len (mjoin fresh)) ∧
    Batch.out_cache_loc b' = Some out ∧ Batch.req_pool_indices b' = Some idx ∧
    length (Batch.reqs b') = length reqs ∧
    ∀ k r i, reqs !! k = Some r → idx !! k = Some i → ∃ r', Batch.reqs b' !! k = Some r' ∧ extended r i r'.
Proof.
  intros reqs fresh Halloc. unfold prepare_for_extend.
  set (b1 := Batch.set_extend_num_tokens _ _). change (Batch.reqs (Batch.set_forward_mode b (Some EXTEND))) with reqs.
  fold fresh. rewrite Halloc. cbn [res_bind].
  destruct (extend_reqs_spec b1 reqs idx Hcons Hidx) as (reqs' & ids & -> & Hl & Hall). cbn [res_bind].
  set (row := extend_row top_logprobs_num token_ids_logprob multimodal_inputs (Batch.return_logprob b)).
  assert (length idx = length reqs') as Hli by (by rewrite Hl).
  assert (∀ T (f : Row → T) (g : Req.t → T), (∀ r i, f (row r i) = g r) → f <$> zip_with row reqs' idx = g <$> reqs') as Hrow.
  { intros T f g Hfg. rewrite <-(fmap_zip_fst row row_req reqs' idx) at 2 by done. rewrite <-list_fmap_compose.
    apply list_fmap_ext. intros k x Hx. apply lookup_zip_with_Some in Hx as (r & i & -> & _). apply Hfg. }
  assert (∀ T (f : Req.t → T), (∀ r r', same_input r r' → f r' = f r) → f <$> reqs' = f <$> reqs) as Hsame.
  { intros T f Hf. by apply (extended_fmap f reqs reqs' idx). }
  eexists. exists (zip_with row reqs' idx). split; [reflexivity|]. unfold b1, reqs in *. clear b1.
  split; [|destruct b as [? ? ? ? ? ? ? ? ? ? ? ? ? []]; cbn -[fmap sum_Z fresh] in *; split_and!; try done].
  - constructor; destruct b as [? ? ? ? ? ? ? ? ? ? ? ? ? []]; cbn -[fmap sum_Z fresh row zip_with] in *; try done.
    all: try (symmetry; f_equal; try f_equal; first [by apply fmap_zip_fst|by apply fmap_zip_snd]).
    all: try (f_equal; try f_equal; etrans; [symmetry; apply Hsame|symmetry; by apply Hrow]; intros ? ? [E _]; unfold Req.fill_ids, Req.origin_input_ids; by rewrite E).
    1-2: intros _; f_equal; symmetry; by apply Hrow.
    + split; f_equal; symmetry; by apply Hrow.
    + etrans; [|apply list_fmap_id]. apply list_fmap_ext.
      intros k x Hx. apply lookup_zip_with_Some in Hx as (r & i & -> & _). done.
  - f_equal. symmetry. apply len_mjoin.
  - f_equal. symmetry. apply len_mjoin.
Qed.

(** ** The estimate for the next decode step *)
Lemma next_page_mod ps n : 1 < ps → (n mod ps =? 0) = ((n + 1) mod ps =? 1).
Proof.
  intros Hps. apply eq_iff_eq_true. rewrite !Z.eqb_eq. split; intros E.
  - rewrite Z.add_mod, E by lia. rewrite Z.add_0_l, Z.mod_mod by lia. apply Z.mod_small. lia.
  - replace n with ((n + 1) - 1) by lia. rewrite Zminus_mod, E, (Z.mod_small 1) by lia. apply Z.mod_0_l. lia.
Qed.

Lemma sum_indicator {T} (P : T → bool) (l : list T) : sum_Z ((λ x, if P x then 1 else 0) <$> l) = len (List.filter P l).
Proof.
  induction l as [|x l IH]; [done|]. rewrite fmap_cons, sum_Z_cons, IH. cbn [List.filter].
  destruct (P x); [rewrite len_cons|]; lia.
Qed.

Definition next_lens (b : Batch.t) : list Z :=
  (λ r, if Batch.enable_overlap b then seqlen r + 1 else seqlen r) <$> Batch.reqs b.

Lemma page_count_decode (b : Batch.t) ps : 1 < ps →
  get_num_new_pages (next_lens b) ps None true =
    Ok (len (List.filter (λ r, (if Batch.enable_overlap b then seqlen r else seqlen r - 1) mod ps =? 0) (Batch.reqs b))).
Proof.
  intros Hps. unfold get_num_new_pages, next_lens. cbn [py_assert res_bind]. f_equal.
  rewrite <-sum_indicator, <-list_fmap_compose. f_equal. apply list_fmap_ext. intros i r _. unfold compose.
  destruct (Batch.enable_overlap b); [by rewrite (next_page_mod ps)|].
  rewrite (next_page_mod ps (seqlen r - 1)) by done. by rewrite Z.sub_add.
Qed.

(** The memory check for a decode step is exact: with pages of more than one
    slot, [new_page_count_next_decode] is the number of pages the allocator
    takes for the lengths after the step, so when the free memory covers it, as
    [check_decode_mem] tests, [alloc_decode] does not run out. *)
Theorem decode_estimate_exact masked oob uninit clock hash cfg topk (b : Batch.t) (s : radix_state PagedAlloc.t) last_loc n
    (Hps : 1 < Base.page_size (PagedAlloc.base (allocator (tree s)))) (Hdbg : PagedAlloc.debug_mode (allocator (tree s)) = false)
    (Hrel : Base.need_sort (PagedAlloc.base (allocator (tree s))) = false →
            Base.release_pages (PagedAlloc.base (allocator (tree s))) = []) :
  let H := radix_paged_host masked oob uninit clock hash cfg topk in
  new_page_count_next_decode b s None = Ok n →
  get_num_new_pages (next_lens b) (ch_alloc_page_size s) None true = Ok n ∧
  (n * ch_alloc_page_size s ≤ ch_available_size s →
   ∃ out a', PagedAlloc.alloc_decode masked oob (allocator (tree s)) uninit (next_lens b) (next_lens b) last_loc = Ok (Some out, a')).
Proof.
  intros H. unfold new_page_count_next_decode. cbn [res_bind].
  change (ch_alloc_page_size s) with (Base.page_size (PagedAlloc.base (allocator (tree s)))).
  change (ch_available_size s) with (Base.available_size (PagedAlloc.base (allocator (tree s)))).
  set (a := allocator (tree s)) in *. set (ps := Base.page_size (PagedAlloc.base a)) in *.
  rewrite (proj2 (Z.eqb_neq ps 1)) by lia. intros Hn.
  assert (get_num_new_pages (next_lens b) ps None true = Ok n) as Hpages.
  { rewrite page_count_decode by done. rewrite <-Hn. by destruct (Batch.enable_overlap b). }
  split; [done|]. intros Hav. unfold PagedAlloc.alloc_decode. rewrite Hdbg. cbn [res_bind].
  set (base := if _ && _ then _ else _). fold ps. cbn [PagedAlloc.debug_mode PagedAlloc.with_base]. rewrite Hdbg. cbn [res_bind].
  rewrite Hpages. cbn [res_bind].
  enough (n ≤ len (Base.free_pages base)) as Hle.
  { rewrite (proj2 (Z.ltb_ge _ _) Hle). eauto. }
  assert (n ≤ len (next_lens b)) as Hbs.
  { rewrite page_count_decode in Hpages by done. injection Hpages as <-. unfold next_lens. rewrite len_fmap.
    unfold len. pose proof (List.filter_length_le (λ r, (if Batch.enable_overlap b then seqlen r else seqlen r - 1) mod ps =? 0) (Batch.reqs b)). lia. }
  assert (n ≤ len (Base.free_pages (PagedAlloc.base a)) + len (Base.release_pages (PagedAlloc.base a))) as Htot.
  { unfold Base.available_size in Hav. fold ps in Hav. nia. }
  unfold base. destruct (Base.need_sort (PagedAlloc.base a)) eqn:Es; cbn [andb].
  - destruct (Z.ltb_spec (len (Base.free_pages (PagedAlloc.base a))) (len (next_lens b))); [|lia].
    unfold Base.merge_and_sort_free. destruct (Z.ltb_spec 0 (len (Base.release_pages (PagedAlloc.base a)))).
    + cbn [Base.free_pages Base.set_pages]. unfold len at 1. rewrite (Permutation_length (torch_sort_perm _)).
      fold (len (Base.free_pages (PagedAlloc.base a) ++ Base.release_pages (PagedAlloc.base a))). rewrite len_app. lia.
    + pose proof (len_nonneg (Base.release_pages (PagedAlloc.base a))). lia.
  - rewrite (Hrel eq_refl), len_nil in Htot. lia.
Qed.

(** ** Witnesses *)
Module ExtendDemo.
Definition prep (r : Req.t) (toks : list Z) : Req.t := Req.set_extend_input_len (Req.set_fill_ids r toks) (len toks).
Definition reqs : list Req.t :=
  [prep (Req_init "a" [1; 2; 3] demo_params false None None [] (Some 100) None None) [1; 2; 3];
   prep (Req_init "z" [4; 5] demo_params false None None [] (Some 100) None None) [4; 5]].
Definition empty : chunk_cache Base.t :=
  mkChunk (ReqToTokenPool.mk 2 4 [[0; 0; 0; 0]; [0; 0; 0; 0]] [0; 1]) (Base.mk 6 1 false [1; 2; 3; 4; 5; 6] [] true []) 1 0.
Definition batch : Batch.t := init_new BatchDemo.stream BatchDemo.stream None reqs empty false.
Definition prepared : chunk_cache Base.t :=
  mkChunk (ReqToTokenPool.mk 2 4 [[1; 2; 3; 0]; [4; 5; 0; 0]] []) (Base.mk 6 1 false [6] [] true []) 1 0.

(** Pages of two slots: two free pages, both requests at the end of a page. *)
Definition paged : radix_state PagedAlloc.t :=
  mkState (mkCache ∅ 0 0 0 0 0 [] (PagedAlloc.mk (Base.mk 8 2 false [3; 4] [] true []) 4 false 1))
    (ReqToTokenPool.mk 2 4 [] []).
End ExtendDemo.

Lemma prepare_for_extend_rows_witness : ∃ b',
  prepare_for_extend (λ _, 0) (λ _, None) (λ _, None) false 0 0 0 false ExtendDemo.batch ExtendDemo.empty =
    Ok (b', ExtendDemo.prepared) ∧ Batch.input_ids b' = Some [1; 2; 3; 4; 5] ∧ Batch.extend_num_tokens b' = Some 5.
Proof.
  destruct (prepare_for_extend_rows (λ _, 0) (λ _, None) (λ _, None) 0 0 0 false ExtendDemo.batch ExtendDemo.empty
    ExtendDemo.prepared [1; 2; 3; 4; 5] [0; 1] ltac:(repeat constructor) eq_refl eq_refl ltac:(vm_compute; reflexivity))
    as (b' & l & Heq & _ & _ & H1 & H2 & _).
  exists b'. exact (conj Heq (conj H1 H2)).
Defined.

Lemma decode_estimate_exact_witness : ∃ out a',
  PagedAlloc.alloc_decode 0 0 (allocator (tree ExtendDemo.paged)) id [5; 3] [5; 3] [7; 5] = Ok (Some out, a').
Proof.
  destruct (decode_estimate_exact 0 0 id Z.of_nat (λ _, 0) (mkConfig 2 false false false LRU) None
    (Batch.set_reqs ExtendDemo.batch
       [Req.set_output_ids BatchDemo.a [7; 8]; Req.set_output_ids BatchDemo.z [7]]) ExtendDemo.paged [7; 5] 2
    eq_refl eq_refl (λ _, eq_refl) eq_refl) as [_ Hok].
  apply Hok. vm_compute. discriminate.
Defined.
