(* ===== verification/RadixRetract.v ===== *)
(** * Retraction from the radix cache

    The radix cache keeps what retraction relies on ([RetractLaws] of
    ScheduleBatchSpec.v).  A released request gives the pages of its own back to
    the allocator and its lock on the shared prefix back to the tree, so that
    the prefix can be evicted unless another request has it locked.  What a
    single request holds, its pages and the locked prefix, is less than the
    whole pool, so something is free or evictable when it is alone. *)

From stdpp Require Import gmultiset.
From S2P Require Import Prelude KVAllocator KVAllocatorProofs KVAllocatorSpec.
From S2P Require Import RadixTree RadixInv RadixSplit RadixMatch RadixInsert RadixLock RadixWalk RadixOwn RadixEvict RadixSpec.
From S2P Require Import ReqPool Request RequestSpec PrefixCache RadixHeld RadixReq RadixReqSpec ChunkCache CacheCommon RadixAlloc.
From S2P Require Import ScheduleBatch ScheduleBatchSpec.
#[local] Open Scope Z_scope.

(** ** What one lock protects *)
Section one_lock.
Context {A : Type} `{KVPool A} {cfg : config}.
Implicit Types st : cache A.
Abbreviation ps := (page_size cfg).

(** A locked node is on the way from a lock holder to the root. *)
Lemma locked_above G L st n v : cache_wf cfg G L st → is_Some (G !! n) → n ≠ root_node st →
  hview (heap st) !! n = Some v → vlock v ≠ 0 →
  ∃ m, m ∈ L ∧ anc (ps:=ps) (G:=G) (W:=hview (heap st)) (r:=root_node st) n m.
Proof.
  intros [Hwf Hlo _ _]. set (W := hview (heap st)) in *. set (r := root_node st) in *.
  set (M := max_list ((λ m, length (default ([], []) (G !! m)).1) <$> elements (dom G))).
  assert (∀ m g, G !! m = Some g → (length g.1 ≤ M)%nat) as HM.
  { intros m g Hg. apply max_list_elem_of_le, list_elem_of_fmap. exists m. rewrite Hg. split; [done|].
    apply elem_of_elements, elem_of_dom. eauto. }
  intros [g Hg]. remember (M - length g.1)%nat as k eqn:Hk. revert n v g Hk Hg.
  induction (lt_wf k) as [k _ IH]; intros n v g -> Hg Hr Hv Hlock.
  destruct (decide (n ∈ L)) as [HL|HL]; [exists n; split; [done|]; constructor; eauto|].
  destruct (lo_count Hlo n v ltac:(eauto) Hr Hv) as [_ E].
  assert (multiplicity n L = 0%nat) as Em by (apply not_elem_of_multiplicity; done).
  assert (∃ c, c ∈ (vch v).*2 ∧ lock_of W c ≠ 0) as (c & Hc & Hlc).
  { rewrite Em in E. clear -E Hlock.
    assert (sum_Z (lock_of W <$> (vch v).*2) ≠ 0) as Hs by lia. clear E Hlock.
    induction (vch v).*2 as [|x l IH]; [done|]. rewrite fmap_cons, sum_Z_cons in Hs.
    destruct (decide (lock_of W x = 0)) as [E|E]; [|exists x; split; [left|done]].
    destruct IH as (c & ? & ?); [lia|]. exists c. split; [by right|done]. }
  apply list_elem_of_fmap in Hc as ([ck c'] & -> & Hin). cbn in Hlc.
  destruct (wf_children Hwf n v ltac:(eauto) Hv) as [Hnd _].
  destruct (wf_child Hwf n v ck c' ltac:(eauto) Hv) as (Hcr & cv & cg & pg & vs & Hcv & Hl & _);
    [by apply dict_get_elem|].
  assert (pg = g) as -> by (pose proof (lk_pghost Hl); congruence).
  destruct (linked_below _ _ _ _ _ _ _ Hl) as (Hb & _). pose proof (wf_page Hwf).
  pose proof (HM c' cg (lk_ghost Hl)).
  destruct (IH (M - length cg.1)%nat ltac:(lia) c' cv cg eq_refl (lk_ghost Hl) Hcr Hcv) as (m & Hm & Ha).
  { unfold lock_of in Hlc. by rewrite Hcv in Hlc. }
  exists m. split; [done|]. eapply anc_trans; [|exact Ha]. eapply anc_step; [constructor; eauto|done|done|exact Hl].
Qed.

(** The slots of the locked nodes. *)
Definition locked_vals (W : views) (r n : nat) : list Z :=
  match W !! n with
  | Some v => if decide (n = r) then [] else if vlock v =? 0 then [] else node_vals W n
  | None => []
  end.

Lemma locked_vals_node W r n : locked_vals W r n = node_vals W n ∨ locked_vals W r n = [].
Proof. unfold locked_vals. destruct (W !! n); [|by right]. case_decide; [by right|]. destruct (_ =? 0); [by right|by left]. Qed.

Lemma locked_vals_sub W r l : mjoin (locked_vals W r <$> l) `sublist_of` mjoin (node_vals W <$> l).
Proof.
  induction l as [|n l IH]; [done|]. rewrite !fmap_cons. cbn [mjoin list_join].
  apply sublist_app; [|exact IH]. destruct (locked_vals_node W r n) as [-> | ->]; [done|apply sublist_nil_l].
Qed.

Lemma protected_len G L st : cache_wf cfg G L st →
  protected_size_ st = len (mjoin (locked_vals (hview (heap st)) (root_node st) <$> elements (dom G))).
Proof.
  intros [Hwf _ _ ->]. rewrite len_join, <-list_fmap_compose. unfold set_sum. f_equal. apply list_fmap_ext.
  intros i n Hn%list_elem_of_lookup_2. apply elem_of_elements, elem_of_dom in Hn as [g Hg]. cbn.
  destruct (wf_live_view Hwf n ltac:(eauto)) as [v Hv]. unfold sel_len, locked_vals, node_vals. rewrite Hv.
  destruct (decide (n = root_node st)) as [|Hr]; [done|].
  destruct (wf_linked Hwf n v g Hg Hv Hr) as (p & pv & pg & vs & Hl). cbn. rewrite (lk_val Hl). cbn.
  destruct (vlock v =? 0); [done|]. cbn. unfold len. by rewrite (lk_len Hl).
Qed.

(** With a single holder, the protected slots are some of those on its path. *)
Lemma protected_one G st last g : cache_wf cfg G {[+ last +]} st → owns cfg G st → G !! last = Some g →
  protected_size_ st ≤ len g.2.
Proof.
  intros Hinv Hown Hg. rewrite (protected_len _ _ _ Hinv).
  set (l := mjoin _). apply inj_le, submseteq_length, NoDup_submseteq.
  - eapply sublist_NoDup; [exact (ow_nodup Hown)|apply (locked_vals_sub (hview (heap st)) (root_node st))].
  - intros x (vs & Hx & (n & -> & Hn)%list_elem_of_fmap)%list_elem_of_join.
    apply elem_of_elements, elem_of_dom in Hn as [gn Hgn].
    unfold locked_vals in Hx. destruct (hview (heap st) !! n) as [v|] eqn:Hv; [|by apply not_elem_of_nil in Hx].
    case_decide as Hr; [by apply not_elem_of_nil in Hx|].
    destruct (Z.eqb_spec (vlock v) 0) as [_|Hl]; [by apply not_elem_of_nil in Hx|].
    destruct (locked_above G _ st n v Hinv ltac:(eauto) Hr Hv Hl) as (m & ->%gmultiset_elem_of_singleton & Ha).
    destruct (anc_prefix _ _ _ _ Ha Hgn Hg) as (_ & [k Hp] & _). rewrite Hp. apply elem_of_app. left.
    destruct (wf_linked (ci_wf Hinv) n v gn Hgn Hv Hr) as (p & pv & pg & vs & Hk).
    rewrite (lk_idxs Hk). apply elem_of_app. right. unfold node_vals in Hx. rewrite Hv in Hx. cbn in Hx.
    by rewrite (lk_val Hk) in Hx.
Qed.
End one_lock.

(** ** The requests of a batch *)
Section batch.
Context {A : Type} `{KVPool A}.
Context (cfg : config).
Implicit Types (st : cache A) (s : radix_state A).
Abbreviation ps := (page_size cfg).

(** A request and what it holds: its slots, the length and the node of the
    prefix it has locked, its pages and its row. *)
Record share := mkShare {
  sh_req : Req.t; sh_kv : list Z; sh_P : nat; sh_last : nat; sh_pgs : list Z; sh_idx : Z; sh_row : list Z
}.
(** The pages that are the request's alone. *)
Definition own (x : share) : list Z := drop (sh_P x / ps) (sh_pgs x).
Definition locks (xs : list share) : gmultiset nat := list_to_set_disj (sh_last <$> xs).

Record share_ok G L s (x : share) : Prop := {
  so_run : running cfg G L s (sh_req x) (own_tokens (sh_req x)) (sh_kv x) (sh_P x) (sh_last x) (sh_pgs x) (sh_idx x) (sh_row x);
  so_freed : Req.kv_committed_freed (sh_req x) = false ∧ Req.kv_overallocated_freed (sh_req x) = false;
  so_committed : Req.kv_committed_len (sh_req x) = len (sh_kv x);
  so_exact : Req.kv_allocated_len (sh_req x) = Req.kv_committed_len (sh_req x)
}.

(** The requests [xs] hold all that is not accounted for by the tree and the
    allocator, and none of them holds all [N] pages. *)
Record batch_holds (N : nat) G s (xs : list share) : Prop := {
  bh_wf : cache_wf cfg G (locks xs) (tree s);
  bh_owns : owns cfg G (tree s);
  bh_run : Forall (share_ok G (locks xs) s) xs;
  bh_apart : apart cfg G (tree s) (xs ≫= own);
  bh_pages : (length (accounted cfg G (tree s)) + length (xs ≫= own) = N)%nat;
  bh_fit : Forall (λ x, (length (sh_pgs x) < N)%nat) xs
}.
Definition batch_inv s (l : list Req.t) : Prop := ∃ N G xs, sh_req <$> xs = l ∧ batch_holds N G s xs.

Lemma locks_perm xs ys : xs ≡ₚ ys → locks xs = locks ys.
Proof. intros HP. unfold locks. apply list_to_set_disj_perm. by rewrite HP. Qed.

Lemma batch_inv_perm s l l' : l ≡ₚ l' → batch_inv s l → batch_inv s l'.
Proof.
  intros HP (N & G & xs & <- & [H1 H2 H3 H4 H5 H6]). symmetry in HP.
  destruct (Permutation_map_inv _ _ HP) as (ys & -> & HP'). exists N, G, ys. split; [done|].
  pose proof (locks_perm _ _ HP') as EL. pose proof (bind_Permutation own _ _ HP') as HB.
  constructor; rewrite <-?EL; try done; rewrite <-?HP', <-?HB; try done.
  eapply apart_perm; [|exact H4]. done.
Qed.

(** A request keeps what it holds as long as its node, its row and the pages of
    its own are left alone. *)
Lemma share_frame G L s G' L' s' x : share_ok G L s x → cache_wf cfg G' L' (tree s') → owns cfg G' (tree s') →
  G' !! sh_last x = G !! sh_last x → sh_last x ∈ L' → root_node (tree s') = root_node (tree s) →
  (∀ v, hview (heap (tree s)) !! sh_last x = Some v → ∃ v', hview (heap (tree s')) !! sh_last x = Some v' ∧ vkey v' = vkey v) →
  apart cfg G' (tree s') (own x) → ReqToTokenPool.req_to_token (req_pool s') = ReqToTokenPool.req_to_token (req_pool s) →
  share_ok G' L' s' x.
Proof.
  intros [[_ _ [? ? ? ? ? ? Hg Hc _ _] ? ? Hrow ? ? ?] ? ? ?] Hinv Hown EG HL Er Hv [_ Hap] Ep.
  constructor; [|done..]. constructor; try done; [|by rewrite Ep]. constructor; try done; [by rewrite EG|].
  rewrite Er. destruct Hc as [Hc|(v & Hv' & He)]; [by left|right].
  destruct (Hv v Hv') as (v' & ? & E). exists v'. by rewrite E.
Qed.

Lemma apart_own G st xs x : x ∈ xs → apart cfg G st (xs ≫= own) → apart cfg G st (own x).
Proof.
  intros (l1 & l2 & ->)%list_elem_of_split [Hnd Hf]. rewrite bind_app, bind_cons in *. split.
  - apply NoDup_app in Hnd as (_ & _ & Hnd). by apply NoDup_app in Hnd as [? _].
  - intros p Hp. apply Hf. rewrite !elem_of_app. tauto.
Qed.
Lemma locks_elem xs x : x ∈ xs → sh_last x ∈ locks xs.
Proof. intros Hx. unfold locks. apply elem_of_list_to_set_disj, list_elem_of_fmap. eauto. Qed.
Lemma locks_cons x xs : locks (x :: xs) ∖ {[+ sh_last x +]} = locks xs.
Proof. unfold locks. rewrite fmap_cons, list_to_set_disj_cons. multiset_solver. Qed.

(** Evicting. *)
Lemma batch_evicted N G s xs G' t n : batch_holds N G s xs → evicted_to cfg G (locks xs) (tree s) G' t n →
  batch_holds N G' (mkState t (req_pool s)) xs.
Proof.
  intros [Hwf Hown Hxs Hap Hpages Hfit] [Hwf' Hown' HG Hr Hacc _ _ _ Hk _ Hl _ Hsl].
  assert (apart cfg G' t (xs ≫= own)) as Hap'.
  { destruct Hap as [Hnd Hf]. split; [done|]. intros p Hp. rewrite Hl. destruct (Hf p Hp) as (H1 & H2 & H3).
    split; [done|]. split; [|by intros y Hy; apply H3, Hsl]. intros Hin.
    assert (p ∈ accounted cfg G (tree s)) as [?|(y & Hy & ->)%elem_of_pages_of]%elem_of_app; [|done|by apply (H3 y)].
    rewrite <-Hacc. apply elem_of_app. by left. }
  constructor; try done; [|by etrans; [|exact Hpages]; f_equal; apply Permutation_length].
  apply Forall_forall. intros y Hy. rewrite Forall_forall in Hxs. pose proof (locks_elem _ _ Hy) as HL.
  apply (share_frame G (locks xs) s); try done.
  - by apply Hxs.
  - destruct (lo_live (ci_locks Hwf') _ HL) as [g Hg]. by rewrite Hg, (lookup_weaken _ _ _ _ Hg HG).
  - intros v Hv. specialize (Hk (sh_last y)). cbn [tree]. rewrite Hv in Hk.
    destruct (hview (heap t) !! sh_last y) as [v'|]; [|done]. exists v'. split; [done|]. by injection Hk.
  - by eapply apart_own.
Qed.

(** One request alone does not hold everything. *)
Lemma batch_room N G s x : batch_holds N G s [x] →
  0 < len (kv_held (allocator (tree s))) * Z.of_nat ps + evictable_size_ (tree s).
Proof.
  intros [Hwf Hown [Hx _]%Forall_cons Hap Hpages [Hfit _]%Forall_cons]. destruct Hx as [[_ _ Hho _ _ _ _ _ _] _ _ _].
  pose proof (wf_page (ci_wf Hwf)) as Hps.
  assert (locks [x] = {[+ sh_last x +]}) as EL by (unfold locks; rewrite fmap_cons, list_to_set_disj_cons, fmap_nil, list_to_set_disj_nil; multiset_solver). rewrite EL in Hwf, Hho.
  pose proof (protected_one G (tree s) _ _ Hwf Hown (ho_node Hho)) as Hprot. cbn [snd] in Hprot.
  pose proof (pages_of_len cfg _ Hps (tree_slots_whole _ _ _ _ _ Hwf Hown) (ow_nodup Hown)) as Hlen.
  rewrite (tree_slots_len _ _ _ _ _ Hwf) in Hlen.
  assert (len (take (sh_P x) (sh_kv x)) = Z.of_nat (sh_P x)) as EP.
  { unfold len. rewrite length_take. pose proof (ho_P Hho). lia. }
  destruct (ho_aligned Hho) as [k Hk].
  assert (length (own x) = length (sh_pgs x) - k)%nat as Eo.
  { unfold own. rewrite length_drop, Hk, Nat.div_mul by done. done. }
  change ([x] ≫= own) with (own x ++ []) in Hpages. rewrite app_nil_r, Eo in Hpages. unfold accounted in Hpages. rewrite length_app in Hpages.
  assert (k ≤ length (sh_pgs x))%nat as Hkp.
  { pose proof (held_slots_len Hwf Hho) as X. rewrite length_bind_page_slots in X. pose proof (ho_P Hho). nia. }
  set (h := length (kv_held _)) in *. set (t := length (pages_of _ _)) in *.
  assert (0 < (Z.of_nat h + Z.of_nat t - Z.of_nat k) * Z.of_nat ps) as Hpos by (apply Z.mul_pos_pos; lia).
  unfold len in *. fold h. fold t in Hlen. rewrite !Z.mul_sub_distr_r, Z.mul_add_distr_r, Hlen in Hpos. lia.
Qed.
Context (clock : nat → Z) (hash : list token → Z) (topk : option Z).
Context (Hen : disable cfg = false) (Heagle : is_eagle cfg = false) (Htopk : topk = None ∨ topk = Some 1).

(** Releasing one of them. *)
Lemma batch_finish N G s x xs : batch_holds N G s (x :: xs) →
  ∃ s', cache_finished_req clock hash cfg topk s (sh_req x) false = Ok (Req.set_kv_committed_freed (sh_req x) true, s') ∧
    batch_holds N G s' xs ∧
    ∀ Q : A → Prop, freeing Q → Q (allocator (tree s)) → Q (allocator (tree s')).
Proof.
  intros [Hwf Hown [Hx Hxs]%Forall_cons Hap Hpages [_ Hfit]%Forall_cons]. destruct Hx as [Hrun [Hf1 _] Hc _].
  rewrite (finished_eq clock hash cfg topk Hen Heagle G _ s _ false _ _ _ _ _ _ Hrun Htopk Hf1 Hc).
  destruct (finish_drop cfg Hen G _ s _ _ _ _ _ _ _ _ Hrun) as (s' & Heq & Hwf' & Hown' & Hacc & Hp & Hv & Hr & Hl & Hq).
  cbn beta zeta iota in *. destruct (free_slots _ _) as [s1|]; cbn [res_bind] in *; [|done].
  destruct (free_slots _ _) as [s2|]; cbn [res_bind] in *; [|done]. rewrite Heq. cbn [res_bind].
  exists s'. split; [done|]. split; [|exact Hq]. rewrite locks_cons in Hwf'.
  assert (tree_slots G (tree s') = tree_slots G (tree s)) as Hsl.
  { unfold tree_slots. apply slots_of_ext. intros n _. by apply relocked_vals. }
  assert (kv_held (allocator (tree s')) ≡ₚ own x ++ kv_held (allocator (tree s))) as Hheld.
  { unfold accounted in Hacc. rewrite Hsl, app_assoc in Hacc. by apply Permutation_app_inv_r in Hacc. }
  rewrite bind_cons in Hap, Hpages. destruct Hap as [Hnd Hfree]. apply NoDup_app in Hnd as (Hn1 & Hdis & Hn2).
  assert (apart cfg G (tree s') (xs ≫= own)) as Hap'.
  { split; [done|]. intros p Hin. rewrite Hl, Hheld, Hsl, elem_of_app.
    destruct (Hfree p ltac:(apply elem_of_app; by right)) as (? & ? & ?). split; [done|]. split; [|done].
    intros [Ho|]; [|done]. by apply (Hdis p). }
  constructor; try done.
  - apply Forall_forall. intros y Hy. rewrite Forall_forall in Hxs.
    apply (share_frame G (locks (x :: xs)) s); try done.
    + by apply Hxs.
    + by apply locks_elem.
    + intros v Hv'. destruct (relocked_view _ _ _ _ Hv Hv') as (v' & ? & _ & _ & ? & _). eauto.
    + by eapply apart_own.
    + by rewrite Hp.
  - rewrite (Permutation_length Hacc), length_app. rewrite length_app in Hpages. unfold own in *. lia.
Qed.
End batch.

(** ** The two radix hosts *)
Section host.
Context {A : Type} `{KVPool A} (Host : CacheHost (radix_state A)) (alloc_page_size : A → Z).
Context (clock : nat → Z) (hash : list token → Z) (cfg : config) (topk : option Z).
Context (Hen : disable cfg = false) (Heagle : is_eagle cfg = false) (Htopk : topk = None ∨ topk = Some 1).
Implicit Types s : radix_state A.
Abbreviation ps := (Z.of_nat (page_size cfg)).

(** What the two hosts have in common. *)
Record radix_host : Prop := {
  rh_prefix : ch_prefix = radix_prefix_cache clock hash cfg topk;
  rh_chunk s : ch_is_chunk s = false;
  rh_hybrid s : ch_hybrid s = None;
  rh_pages s : ch_alloc_page_size s = alloc_page_size (allocator (tree s));
  rh_available s : kv_page_size (allocator (tree s)) = ps → alloc_page_size (allocator (tree s)) = ps →
    ch_available_size s = len (kv_held (allocator (tree s))) * ps;
  rh_free : freeing (λ a, alloc_page_size a = ps)
}.
Context (HR : radix_host).

Definition radix_retract_inv s (l : list Req.t) : Prop :=
  batch_inv cfg s l ∧ alloc_page_size (allocator (tree s)) = ps.

Lemma radix_available s l : radix_retract_inv s l → ch_available_size s = len (kv_held (allocator (tree s))) * ps.
Proof. intros [(N & G & xs & _ & Hb) Hps]. apply (rh_available HR); [|done]. exact (ow_ps (bh_owns _ _ _ _ _ Hb)). Qed.

Lemma ceil_align_ge x p : 0 < p → x ≤ ceil_align x p.
Proof. intros Hp. unfold ceil_align, ceil_div. pose proof (Z.div_mod (x + p - 1) p ltac:(lia)). pose proof (Z.mod_pos_bound (x + p - 1) p Hp). lia. Qed.

Lemma radix_release s r l : radix_retract_inv s (r :: l) →
  ∃ r' s', release_kv_cache (pc_page_size s) None s r false = Ok (r', s') ∧ radix_retract_inv s' l ∧ same_input r r'.
Proof.
  intros [(N & G & [|x xs] & E & Hb) Hps]; [done|]. injection E as <- <-.
  destruct (batch_finish cfg clock hash topk Hen Heagle Htopk N G s x xs Hb) as (s' & Heq & Hb' & Hq).
  destruct Hb as [_ _ [[_ [_ Hf] _ Hex] _]%Forall_cons _ _ _].
  unfold release_kv_cache. rewrite (rh_prefix HR). cbn [pc_cache_finished_req pc_page_size radix_prefix_cache].
  rewrite Heq. cbn [res_bind]. unfold pop_overallocated_kv_cache.
  change (Req.kv_overallocated_freed (Req.set_kv_committed_freed ?r true)) with (Req.kv_overallocated_freed r).
  rewrite Hf. cbn [negb py_assert res_bind].
  change (Req.kv_committed_len (Req.set_kv_committed_freed ?r true)) with (Req.kv_committed_len r).
  change (Req.kv_allocated_len (Req.set_kv_committed_freed ?r true)) with (Req.kv_allocated_len r).
  rewrite Hex, Z.eqb_refl. cbn [py_assert res_bind]. rewrite (proj2 (Z.leb_le _ _)).
  - do 2 eexists. split; [reflexivity|]. split; [|done]. split; [by exists N, G, xs|]. by apply Hq; [apply (rh_free HR)|].
  - destruct (Z.ltb_spec 1 ps); [apply ceil_align_ge; lia|lia].
Qed.

Lemma radix_evict s l n : radix_retract_inv s l →
  ∃ s', evict_from_tree_cache s n = Ok s' ∧ radix_retract_inv s' l ∧ ch_available_size s ≤ ch_available_size s' ∧
    (0 < n → 0 < ch_available_size s + pc_evictable_size s → 0 < ch_available_size s').
Proof.
  intros Hinv. pose proof (radix_available s l Hinv) as Hav. destruct Hinv as [(N & G & xs & E & Hb) Hps].
  unfold evict_from_tree_cache. rewrite (rh_chunk HR), (rh_hybrid HR).
  destruct (Z.ltb_spec (ch_available_size s) n) as [Hlt|Hge].
  2: { exists s. split_and!; [done|split; [by exists N, G, xs|done]|lia|lia]. }
  rewrite (rh_prefix HR). cbn [pc_evict pc_evictable_size radix_prefix_cache].
  pose proof (bh_wf _ _ _ _ _ Hb) as Hwf. pose proof (bh_owns _ _ _ _ _ Hb) as Hown.
  destruct (evict_spec hash cfg G (locks xs) (tree s) n Hwf Hown Hen) as (m & t & G' & -> & Hev & Hend). cbn [res_bind].
  assert (radix_retract_inv (mkState t (req_pool s)) l) as Hinv'.
  { split; [exists N, G', xs; split; [done|]; by eapply batch_evicted|].
    apply (ev_alloc _ _ _ _ _ _ _ Hev (λ a, alloc_page_size a = ps)); [apply (rh_free HR)|done]. }
  pose proof (radix_available _ l Hinv') as Hav'. cbn [tree] in Hav'.
  rewrite (evicted_held cfg G _ (tree s) G' t m Hwf Hown Hev), <-Hav in Hav'.
  pose proof (ev_evictable _ _ _ _ _ _ _ Hev). pose proof (ev_nonneg _ _ _ _ _ _ _ Hev).
  assert (0 ≤ ch_available_size s) by (rewrite Hav; pose proof (len_nonneg (kv_held (allocator (tree s)))); nia).
  exists (mkState t (req_pool s)). split_and!; [done|done|lia|]. unfold evictable_size. destruct Hend; lia.
Qed.

#[export, refine] Instance radix_retract_laws : RetractLaws (radix_state A) None := {| rt_inv := radix_retract_inv |}.
Proof.
  - intros s l l' HP [Hb Hps]. split; [by eapply batch_inv_perm|done].
  - apply radix_release.
  - intros s r Hinv. rewrite (radix_available s _ Hinv), (rh_prefix HR). cbn [pc_evictable_size radix_prefix_cache].
    destruct Hinv as [(N & G & [|x [|]] & E & Hb) _]; try done. by eapply batch_room.
  - intros s l Hinv. rewrite (radix_available s _ Hinv), (rh_pages HR). destruct Hinv as [(N & G & xs & _ & Hb) ->].
    pose proof (wf_page (ci_wf (bh_wf _ _ _ _ _ Hb))). split; [lia|]. apply Z.divide_factor_r.
  - intros s l n Hinv. destruct (radix_evict s l n Hinv) as (s' & ? & Hinv' & ? & ?). exists s'. split_and!; try done.
    rewrite !(rh_pages HR). destruct Hinv as [_ ->], Hinv' as [_ ->]. done.
Defined.
End host.

Section hosts.
Context (masked oob : Z) (uninit : Z → Z).
Context (clock : nat → Z) (hash : list token → Z) (cfg : config) (topk : option Z).

Lemma token_radix_host : radix_host (radix_token_host clock hash cfg topk) Base.page_size clock hash cfg topk.
Proof.
  constructor; try done.
  - intros s Hps _. cbn in *. unfold TokenAlloc.available_size, held. rewrite <-Hps, len_app. lia.
  - intros a idx a' Hf. assert (a' = TokenAlloc.free a idx) as -> by (cbn in Hf; congruence). unfold TokenAlloc.free. destruct (_ =? _); [done|].
    destruct (Base.is_not_in_free_group a); [by destruct (Base.need_sort a)|done].
Qed.

Lemma paged_radix_host : radix_host (radix_paged_host masked oob uninit clock hash cfg topk)
  (λ a, Base.page_size (PagedAlloc.base a)) clock hash cfg topk.
Proof.
  constructor; try done.
  - intros s Hps _. cbn in *. unfold Base.available_size, held. rewrite <-Hps, len_app. lia.
  - intros a idx a' Hf. change (PagedAlloc.free a idx = Ok a') in Hf. unfold PagedAlloc.free in Hf.
    destruct (len idx =? 0); [congruence|]. revert Hf. set (b := if Base.is_not_in_free_group _ then _ else _).
    assert (Base.page_size b = Base.page_size (PagedAlloc.base a)) as Hb.
    { unfold b. destruct (Base.is_not_in_free_group _); [by destruct (Base.need_sort _)|done]. }
    clearbody b. destruct (if PagedAlloc.debug_mode a then _ else _); cbn [res_bind]; [|done].
    intros E. assert (a' = PagedAlloc.with_base a b) as -> by congruence. cbn. by rewrite Hb.
Qed.
End hosts.

(** ** A concrete run

    Pages of two slots, all of them held by two requests; nothing is free. *)
Module RetractDemo.
Definition cfg : config := mkConfig 2 false false false LRU.
Definition pool : PagedAlloc.t := PagedAlloc.mk (Base.mk 8 2 false [] [] true []) 4 false 1.
Definition empty : cache PagedAlloc.t := reset Z.of_nat cfg (mkCache ∅ 0 0 0 0 0 [] pool).
Definition state : radix_state PagedAlloc.t := mkState empty (ReqToTokenPool.mk 2 4 [[2; 3; 4; 0]; [6; 7; 8; 0]] []).
Definition a : Req.t := Req.set_last_node BatchDemo.a (Some 0%nat).
Definition z : Req.t := Req.set_last_node BatchDemo.z (Some 0%nat).
Definition rows : list Row := [BatchDemo.row a 0 7; BatchDemo.row z 1 9].
Definition batch : Batch.t := Batch.set_reqs BatchDemo.batch [a; z].
Definition shares : list share :=
  [mkShare a [2; 3; 4] 0 0 [1; 2] 0 [2; 3; 4; 0]; mkShare z [6; 7; 8] 0 0 [3; 4] 1 [6; 7; 8; 0]].
Definition host : CacheHost (radix_state PagedAlloc.t) := radix_paged_host 0 0 (λ _, 0) Z.of_nat Demo.no_hash cfg None.
Definition laws : @RetractLaws (radix_state PagedAlloc.t) host None :=
  radix_retract_laws host (λ a, Base.page_size (PagedAlloc.base a)) Z.of_nat Demo.no_hash cfg None eq_refl eq_refl
    (or_introl eq_refl) (paged_radix_host 0 0 (λ _, 0) Z.of_nat Demo.no_hash cfg None).

Lemma retract_rows : represents false batch rows.
Proof. by constructor. Qed.

Lemma empty_slots : tree_slots (root_ghost 0) empty = [].
Proof. reflexivity. Qed.
Lemma empty_apart l : NoDup l → Forall (λ p, 1 ≤ p ≤ 4) l → apart cfg (root_ghost 0) empty l.
Proof.
  intros Hnd Hf. split; [done|]. intros p Hp. rewrite Forall_forall in Hf. split; [by apply Hf|].
  split; [apply not_elem_of_nil|]. rewrite empty_slots. by intros x ?%not_elem_of_nil.
Qed.
Lemma retract_wf : cache_wf cfg (root_ghost 0) (locks shares) empty.
Proof.
  assert (cache_wf cfg (root_ghost 0) ∅ empty) as Hw.
  { apply (reset_wf Z.of_nat cfg (mkCache ∅ 0 0 0 0 0 [] pool)); [done|]. intros n [x Hx]. done. }
  apply root_held, root_held in Hw. assert (locks shares = ∅ ⊎ {[+ 0%nat +]} ⊎ {[+ 0%nat +]}) as -> by (unfold locks; cbn; multiset_solver).
  exact Hw.
Qed.
Lemma retract_owned : owns cfg (root_ghost 0) empty.
Proof. apply (reset_owns Z.of_nat cfg (mkCache ∅ 0 0 0 0 0 [] pool)); [|done]. split; [split; [done|]|done]. by_decide. Qed.

Lemma retract_share x : x ∈ shares → share_ok cfg (root_ghost 0) (locks shares) state x.
Proof.
  intros Hx. pose proof (locks_elem _ _ Hx) as HL.
  unfold shares in Hx. rewrite !elem_of_cons in Hx. destruct Hx as [->|[->|[]%not_elem_of_nil]].
  all: constructor; [|done..]; constructor; try done; [apply retract_wf|apply retract_owned|].
  all: constructor; try done; [by_decide|cbn; lia|cbn; lia|apply Nat.divide_0_r|by left|].
  all: apply empty_apart; by_decide.
Qed.

Lemma retract_inv : @rt_inv _ host None laws state (Batch.reqs batch).
Proof.
  split; [|done]. exists 4%nat, (root_ghost 0), shares. split; [done|].
  constructor; [apply retract_wf|apply retract_owned| |apply empty_apart; by_decide|done|repeat constructor; cbn; lia].
  apply Forall_forall. apply retract_share.
Qed.
End RetractDemo.

Lemma retract_decode_makes_room_witness :
  (∃ q b' c', retract_decode (H:=RetractDemo.host) BatchDemo.stream false None 20 RetractDemo.batch RetractDemo.state =
     Ok ([reset_for_retract (Req.set_kv_committed_freed RetractDemo.a true)], q, b', c') ∧
     Batch.reqs b' = [RetractDemo.z] ∧ kv_held (allocator (tree c')) = [2; 1]) ∧
  ∃ gone' q b' c', retract_decode (H:=RetractDemo.host) BatchDemo.stream false None 20 RetractDemo.batch RetractDemo.state =
    Ok (gone', q, b', c') ∧ Batch.reqs b' ≠ [].
Proof.
  split; [do 3 eexists; split; [vm_compute; reflexivity|split; reflexivity]|].
  destruct (@retract_decode_makes_room _ RetractDemo.host RetractDemo.laws BatchDemo.stream false 20 RetractDemo.batch RetractDemo.state
    RetractDemo.rows RetractDemo.retract_rows RetractDemo.retract_inv eq_refl ltac:(discriminate) eq_refl (le_n 2) eq_refl ltac:(by_decide))
    as (gone' & q & b' & c' & Heq & gone & _ & _ & Hne & _).
  exists gone', q, b', c'. exact (conj Heq Hne).
Defined.
