(* ===== verification/PrefillAdder.v ===== *)
(** * Filling a prefill batch ([PrefillAdder] of [managers/schedule_policy.py])

    The adder takes requests from the waiting queue while its token budgets
    last: what is free or evictable, less what the running requests are
    expected to need, the input tokens and the chunk size.  [new_token_ratio]
    and what is computed from it are floats in the code and exact rationals
    here.  The loads of a host cache ([init_load_back]) and the time a request
    entered the queue are parameters; the lock token of a sliding-window tree is
    not kept.  Requests are compared by identity, for which their ids stand. *)

From Stdlib Require Import QArith.QArith_base.
From S2P Require Import Prelude KVAllocator ReqPool Request RadixTree PrefixCache RadixReq ChunkCache CacheCommon.
From S2P Require Import SchedulePolicy ScheduleBatch.
#[local] Open Scope Z_scope.

Inductive AddReqResult := CONTINUE | NO_TOKEN | OTHER.
#[global] Instance AddReqResult_eq_dec : EqDecision AddReqResult.
Proof. solve_decision. Defined.

Definition IGNORE_EOS_RESERVE_TOKENS : Z := 1.

(** Numbers: [int(q)] truncates; comparisons of an integer with a rational. *)
Definition int_of_Q (q : Q) : Z := Z.quot (Qnum q) (Zpos (Qden q)).
Definition Qlt_bool (x y : Q) : bool := negb (Qle_bool y x).
Definition Qmin_ (x y : Q) : Q := if Qle_bool x y then x else y.

(** The sizes of a hybrid cache and of a [MambaRadixCache]. *)
Class AdderHost (C : Type) := {
  ah_host :: CacheHost C;
  ah_full_evictable_size : C → Z;
  ah_swa_evictable_size : C → Z;
  ah_is_gdn : C → bool;
  ah_init_load_back : C → Req.t → Z → res (list Z * option nat * C)
}.

Record PrefillAdder := mkAdder {
  pa_page_size : Z;
  running_batch : option Batch.t;
  new_token_ratio : Q;
  rem_input_tokens : Z;
  rem_chunk_tokens : option Z;
  rem_total_token_offset : Q;
  cur_rem_token_offset : Z;
  req_states : option (list (Q * Z));
  can_run_list : list Req.t;
  preempt_list : list Req.t;
  new_chunked_req : option Req.t;
  log_hit_tokens : Z;
  log_input_tokens : Z;
  is_hybrid : bool;
  is_hybrid_gdn_cache : bool;
  priority_scheduling_preemption_threshold : Z
}.

Definition set_running (a : PrefillAdder) (rb : option Batch.t) (off : Q) (preempted : list Req.t) : PrefillAdder :=
  mkAdder (pa_page_size a) rb (new_token_ratio a) (rem_input_tokens a) (rem_chunk_tokens a) off
    (cur_rem_token_offset a) (req_states a) (can_run_list a) preempted (new_chunked_req a) (log_hit_tokens a)
    (log_input_tokens a) (is_hybrid a) (is_hybrid_gdn_cache a) (priority_scheduling_preemption_threshold a).
Definition set_req_states (a : PrefillAdder) (s : option (list (Q * Z))) : PrefillAdder :=
  mkAdder (pa_page_size a) (running_batch a) (new_token_ratio a) (rem_input_tokens a) (rem_chunk_tokens a)
    (rem_total_token_offset a) (cur_rem_token_offset a) s (can_run_list a) (preempt_list a) (new_chunked_req a)
    (log_hit_tokens a) (log_input_tokens a) (is_hybrid a) (is_hybrid_gdn_cache a) (priority_scheduling_preemption_threshold a).
(** [can_run_list.append(req)]; a chunked request is also kept apart. *)
Definition append_req (a : PrefillAdder) (r : Req.t) (chunked : bool) : PrefillAdder :=
  mkAdder (pa_page_size a) (running_batch a) (new_token_ratio a) (rem_input_tokens a) (rem_chunk_tokens a)
    (rem_total_token_offset a) (cur_rem_token_offset a) (req_states a) (can_run_list a ++ [r]) (preempt_list a)
    (if chunked then Some r else new_chunked_req a) (log_hit_tokens a) (log_input_tokens a) (is_hybrid a)
    (is_hybrid_gdn_cache a) (priority_scheduling_preemption_threshold a).

Section adder.
Context {C : Type} `{AdderHost C}.
Context (CLIP_MAX_NEW_TOKENS : Z) (wait_queue_entry_time : Req.t → Z).
Context (stream : Req.t → bool) (is_encoder_decoder : bool) (speculative_algorithm : option string) (RETRACT_DECODE_STEPS : Z).
Implicit Types (c : C) (a : PrefillAdder) (req : Req.t).

Definition running_offset (ratio : Q) req : Q :=
  (inject_Z (Z.min (max_new_tokens (Req.sampling_params req) - len (Req.output_ids req)) CLIP_MAX_NEW_TOKENS) * ratio)%Q.
Definition _get_running_request_total_token_offset a req : Q := running_offset (new_token_ratio a) req.

Definition sum_Q (l : list Q) : Q := fold_right Qplus 0%Q l.

Definition PrefillAdder_init (page_size : Z) c (running_batch : option Batch.t) (ratio : Q) (rem_input : Z)
    (rem_chunk : option Z) (mixed_with_decode_tokens threshold : Z) : PrefillAdder :=
  let offset := match running_batch with
                | Some b => (inject_Z mixed_with_decode_tokens + sum_Q (running_offset ratio <$> Batch.reqs b))%Q
                | None => inject_Z mixed_with_decode_tokens
                end in
  mkAdder page_size running_batch ratio (rem_input - mixed_with_decode_tokens)
    ((λ n, n - mixed_with_decode_tokens) <$> rem_chunk) offset mixed_with_decode_tokens None [] [] None 0 0
    (bool_decide (is_Some (ch_hybrid c))) (ah_is_gdn c) threshold.

Definition available_and_evictable a c : res Z :=
  if is_hybrid a then
    let! '(full, swa) := of_opt AttributeError (ch_hybrid c) in
    Ok (Z.min (full + ah_full_evictable_size c) (swa + ah_swa_evictable_size c))
  else if is_hybrid_gdn_cache a then Ok (ch_available_size c + ah_full_evictable_size c)
  else Ok (ch_available_size c + pc_evictable_size c).

Definition rem_total_tokens a c : res Q :=
  let! n := available_and_evictable a c in Ok (inject_Z n - rem_total_token_offset a)%Q.
Definition cur_rem_tokens a c : res Z :=
  let! n := available_and_evictable a c in Ok (n - cur_rem_token_offset a).

Definition ceil_paged_tokens a (tokens : Z) : Z := - (- tokens / pa_page_size a) * pa_page_size a.

Definition budget_state a c : res AddReqResult :=
  let! total := rem_total_tokens a c in
  let! cur := cur_rem_tokens a c in
  if Qle_bool total 0 || (cur <=? 0) then Ok NO_TOKEN
  else if (rem_input_tokens a <=? 0) || match rem_chunk_tokens a with Some n => n <=? 0 | None => false end then Ok OTHER
  else Ok CONTINUE.

Definition _update_prefill_budget a (prefix_len extend_input_len max_new_tokens : Z) : PrefillAdder :=
  let extend_input_len := ceil_paged_tokens a extend_input_len in
  mkAdder (pa_page_size a) (running_batch a) (new_token_ratio a) (rem_input_tokens a - extend_input_len)
    ((λ n, n - extend_input_len) <$> rem_chunk_tokens a)
    (rem_total_token_offset a + inject_Z (extend_input_len + max_new_tokens))%Q
    (cur_rem_token_offset a + extend_input_len) (req_states a) (can_run_list a) (preempt_list a) (new_chunked_req a)
    (log_hit_tokens a + prefix_len) (log_input_tokens a + extend_input_len) (is_hybrid a) (is_hybrid_gdn_cache a)
    (priority_scheduling_preemption_threshold a).

Definition clipped_new_tokens req : Z := Z.min (max_new_tokens (Req.sampling_params req)) CLIP_MAX_NEW_TOKENS.

(** The result is the request if its prefill goes on after this chunk. *)
Definition add_chunked_req a c req : res (option Req.t * PrefillAdder) :=
  let! chunk := of_opt TypeError (rem_chunk_tokens a) in
  let! total := rem_total_tokens a c in
  let _rem_tokens := Z.min chunk (int_of_Q total) in
  let truncated := _rem_tokens <? Req.extend_input_len req in
  let req := Req.set_extend_input_len req (Z.min (Req.extend_input_len req) _rem_tokens) in
  let req := Req.set_fill_ids req (py_upto (Req.fill_ids req) (len (Req.prefix_indices req) + Req.extend_input_len req)) in
  let a := append_req a req false in
  let a := _update_prefill_budget a 0 (Req.extend_input_len req) (if truncated then 0 else clipped_new_tokens req) in
  Ok (if truncated then Some req else None, a).

(** ** Requests that ignore the end token *)
Definition req_state a req : option (Q * Z) :=
  let ratio := if ignore_eos (Req.sampling_params req) then 1%Q else new_token_ratio a in
  let tokens_left := (inject_Z (max_new_tokens (Req.sampling_params req)) * ratio - inject_Z (len (Req.output_ids req)))%Q in
  if Qle_bool tokens_left 0 then None
  else Some (tokens_left, len (Req.origin_input_ids req) + len (Req.output_ids req)).

(** The loop variable keeps its last value when the loop is not broken off. *)
Fixpoint insert_index (tokens_left : Q) (i : nat) (states : list (Q * Z)) : nat :=
  match states with
  | [] => pred i
  | (t, _) :: states => if Qle_bool tokens_left t then i else insert_index tokens_left (S i) states
  end.
Definition list_insert {T} (l : list T) (i : nat) (x : T) : list T := take i l ++ x :: drop i l.

(** [add_req_state(r)] and [add_req_state(r, insert_sort=True)]. *)
Definition add_req_state a (states : list (Q * Z)) req (insert_sort : bool) : list (Q * Z) :=
  match req_state a req with
  | None => states
  | Some s => if insert_sort then list_insert states (insert_index (fst s) 0 states) s else states ++ [s]
  end.

Definition next_req_states a req : list (Q * Z) :=
  match req_states a with
  | None =>
      let rs := req :: match running_batch a with Some b => Batch.reqs b | None => [] end ++ can_run_list a in
      py_sort (λ x y : Q * Z, Qlt_bool (fst x) (fst y)) (foldl (λ l r, add_req_state a l r false) [] rs)
  | Some states => add_req_state a states req true
  end.

(** Whether every moment at which a request ends leaves enough free tokens. *)
Fixpoint enough_at_ends (cur_rem tokens_freed : Z) (states : list (Q * Z)) : bool :=
  match states with
  | [] => true
  | (tokens_left, tokens_occupied) :: rest =>
      let bs := len states in
      let min_free_tokens := (inject_Z (cur_rem + tokens_freed) - tokens_left * inject_Z bs)%Q in
      if Qle_bool min_free_tokens (inject_Z (IGNORE_EOS_RESERVE_TOKENS * bs)) then false
      else enough_at_ends cur_rem (tokens_freed + tokens_occupied) rest
  end.

Definition add_one_req_ignore_eos a c req : res (AddReqResult * Req.t * PrefillAdder) :=
  let! cur := cur_rem_tokens a c in
  let! total := rem_total_tokens a c in
  let input := ceil_paged_tokens a (Req.extend_input_len req) in
  if negb (Qle_bool (inject_Z input) (Qmin_ (inject_Z cur) total)) then Ok (NO_TOKEN, req, a) else
  let a := set_req_states a (Some (next_req_states a req)) in
  if negb (is_hybrid a) && negb (enough_at_ends (cur - input) 0 (default [] (req_states a))) then Ok (NO_TOKEN, req, a) else
  let finish req a := let! r := budget_state a c in Ok (r, req, a) in
  let whole := finish req (_update_prefill_budget (append_req a req false) 0 (Req.extend_input_len req) (clipped_new_tokens req)) in
  match rem_chunk_tokens a with
  | None => whole
  | Some chunk =>
      if Req.extend_input_len req <=? chunk then whole
      else if chunk =? 0 then Ok (OTHER, req, a)
      else
        let req := Req.set_fill_ids (Req.set_extend_input_len req chunk) (py_upto (Req.fill_ids req) chunk) in
        finish req (_update_prefill_budget (append_req a req true) 0 chunk 0)
  end.

(** ** The general case *)

(** [init_load_back] of a host cache extends the prefix that is on the device. *)
Definition load_back c req : res (Req.t * C) :=
  if 0 <? Req.host_hit_length req then
    let! '(new_indices, last_node, c) := ah_init_load_back c req (Req.host_hit_length req) in
    let req := Req.set_last_node req last_node in
    let req := Req.set_prefix_indices req (Req.prefix_indices req ++ new_indices) in
    let req := Req.set_extend_input_len req (len (Req.fill_ids req) - len (Req.prefix_indices req)) in
    Ok (Req.set_last_matched_prefix_len req (len (Req.prefix_indices req)), c)
  else Ok (req, c).

(** The length of a chunk; [None] if the request has to wait. *)
Definition chunk_len a (chunk : Z) (truncation_align_size : option Z) : option Z :=
  let trunc_len := chunk / pa_page_size a * pa_page_size a in
  if trunc_len <=? 0 then None
  else match truncation_align_size with
       | None => Some trunc_len
       | Some n => if trunc_len <? n then None else Some (n * (trunc_len / n))
       end.

(** The body of [with self._lock_node(...)]: [None] if it returns early. *)
Definition add_locked a c req (total_tokens : Z) (truncation_align_size : option Z) :
    res (option AddReqResult * Req.t * PrefillAdder * C) :=
  let! total := rem_total_tokens a c in
  if Qle_bool total (inject_Z total_tokens) then Ok (Some NO_TOKEN, req, a, c) else
  let! '(req, c) := load_back c req in
  let prefix_len := len (Req.prefix_indices req) in
  let input_tokens := ceil_paged_tokens a (Req.extend_input_len req) in
  if (rem_input_tokens a <=? input_tokens) && negb (len (can_run_list a) =? 0) then Ok (Some OTHER, req, a, c) else
  if match rem_chunk_tokens a with None => true | Some chunk => input_tokens <=? chunk end then
    let a := append_req a req false in
    let! '(_, c) := pc_inc_lock_ref c (Req.last_node req) in
    Ok (None, req, _update_prefill_budget a prefix_len input_tokens (clipped_new_tokens req), c)
  else
    match chunk_len a (default 0 (rem_chunk_tokens a)) truncation_align_size with
    | None => Ok (Some OTHER, req, a, c)
    | Some trunc_len =>
        let req := Req.set_extend_input_len req trunc_len in
        let req := Req.set_fill_ids req (py_upto (Req.fill_ids req) (len (Req.prefix_indices req) + trunc_len)) in
        let a := append_req a req true in
        let! '(_, c) := pc_inc_lock_ref c (Req.last_node req) in
        Ok (None, req, _update_prefill_budget a prefix_len trunc_len 0, c)
    end.

Definition add_one_req a c req (truncation_align_size : option Z) : res (AddReqResult * Req.t * PrefillAdder * C) :=
  if ignore_eos (Req.sampling_params req) && pc_disable c then
    let! '(r, req, a) := add_one_req_ignore_eos a c req in Ok (r, req, a, c)
  else
  let total_tokens := Req.extend_input_len req +
    Z.min (Z.max (max_new_tokens (Req.sampling_params req) - len (Req.output_ids req)) 0) CLIP_MAX_NEW_TOKENS in
  let real_input_tokens := ceil_paged_tokens a (Req.extend_input_len req - Req.host_hit_length req) in
  let! total := rem_total_tokens a c in
  if Qle_bool total (inject_Z total_tokens) then Ok (NO_TOKEN, req, a, c) else
  if (rem_input_tokens a <=? real_input_tokens) && negb (len (can_run_list a) =? 0) then Ok (OTHER, req, a, c) else
  let last_node := Req.last_node req in
  let! '(_, c) := pc_inc_lock_ref c last_node in
  let! '(early, req, a, c) := add_locked a c req total_tokens truncation_align_size in
  let! '(_, c) := pc_dec_lock_ref c last_node in
  match early with
  | Some r => Ok (r, req, a, c)
  | None => let! r := budget_state a c in Ok (r, req, a, c)
  end.

(** ** Preemption *)
Definition preemptible a (low_first : bool) req (running_req : Req.t) : res bool :=
  if bool_decide (Req.rid running_req ∈ Req.rid <$> preempt_list a) then Ok false else
  let! p := of_opt TypeError (Req.priority req) in
  let! q := of_opt TypeError (Req.priority running_req) in
  let priority_diff := if low_first then (p - q) * -1 else p - q in
  Ok (priority_scheduling_preemption_threshold a <? priority_diff).

Fixpoint preemptible_reqs a (low_first : bool) req (sorted : list Req.t) : res (list Req.t) :=
  match sorted with
  | [] => Ok []
  | r :: sorted => let! b := preemptible a low_first req r in
                   let! rs := preemptible_reqs a low_first req sorted in
                   Ok (if b : bool then r :: rs else rs)
  end.

(** The loop over the running batch, from index [i] on: those not chosen are
    kept. *)
Fixpoint preempt_loop (b : Batch.t) c (chosen : list string) (reqs : list Req.t) (i release_counter : Z)
    (keep gone : list Z) : res (list Z * list Z * Batch.t * C) :=
  match reqs with
  | [] => Ok (keep, gone, b, c)
  | r :: reqs =>
      if bool_decide (Req.rid r ∈ chosen) then
        let release_counter := release_counter + 1 in
        let! '(b, c) := release_req speculative_algorithm RETRACT_DECODE_STEPS b c i (len (Batch.reqs b) - release_counter) in
        preempt_loop b c chosen reqs (i + 1) release_counter keep (gone ++ [i])
      else preempt_loop b c chosen reqs (i + 1) release_counter (keep ++ [i]) gone
  end.

(** The order in which a set of requests is appended to [preempt_list] is not
    specified; here it is that of the batch. *)
Definition preempt_to_schedule a c req (low_first : bool) : res (bool * PrefillAdder * C) :=
  let! b := of_opt AttributeError (running_batch a) in
  let! ps := priorities (negb low_first) (Batch.reqs b) in
  let sorted := sort_on pair_ltb (zip ps ((λ r, - wait_queue_entry_time r) <$> Batch.reqs b)) (Batch.reqs b) in
  let! total := rem_total_tokens a c in
  let! chosen := preemptible_reqs a low_first req sorted in
  let needed := (inject_Z (Req.extend_input_len req + clipped_new_tokens req) - total)%Q in
  let min_tokens_to_remove := foldl (λ q r, (q - _get_running_request_total_token_offset a r)%Q) needed chosen in
  if (len chosen =? 0) || negb (Qle_bool min_tokens_to_remove 0) then Ok (false, a, c) else
  let! '(keep, gone, b, c) := preempt_loop b c (Req.rid <$> chosen) (Batch.reqs b) 0 0 [] [] in
  let offset := foldl (λ q (_ : Z), (q - _get_running_request_total_token_offset a req)%Q) (rem_total_token_offset a) gone in
  let! preempted := mapM_res (py_index (Batch.reqs b)) gone in
  let! b := filter_batch stream is_encoder_decoder b [] (Some keep) in
  Ok (true, set_running a (Some b) offset (preempt_list a ++ preempted), c).
End adder.
