(* ===== verification/PrefillAdderSpec.v ===== *)
(** * What filling a prefill batch promises

    Admission of a request is all or nothing, the budgets always count exactly
    what was admitted, and what is admitted, without preemption, fits into the memory
    that is free or evictable, up to the last page. *)

From Stdlib Require Import QArith.QArith_base Qround.
From stdpp Require Import gmultiset.
From S2P Require Import Prelude KVAllocator KVAllocatorProofs KVAllocatorSpec ReqPool Request RadixTree PrefixCache RadixReq ChunkCache CacheCommon.
From S2P Require Import RadixInv RadixSpec RequestSpec SchedulePolicy SchedulePolicySpec ScheduleBatch ScheduleBatchSpec PrefillAdder.
#[local] Open Scope Z_scope.

(** ** Rounding to pages *)
Lemma ceil_ge a t : 0 < pa_page_size a → t ≤ ceil_paged_tokens a t < t + pa_page_size a.
Proof.
  intros Hp. unfold ceil_paged_tokens. pose proof (Z.div_mod (- t) (pa_page_size a) ltac:(lia)).
  pose proof (Z.mod_pos_bound (- t) (pa_page_size a) Hp). lia.
Qed.

Lemma ceil_multiple a k : 0 < pa_page_size a → ceil_paged_tokens a (k * pa_page_size a) = k * pa_page_size a.
Proof. intros Hp. unfold ceil_paged_tokens. rewrite <-Z.mul_opp_l, Z.div_mul by lia. lia. Qed.

Lemma ceil_idem a t : 0 < pa_page_size a → ceil_paged_tokens a (ceil_paged_tokens a t) = ceil_paged_tokens a t.
Proof. intros Hp. unfold ceil_paged_tokens at 2 3. by apply ceil_multiple. Qed.

Lemma ceil_nonneg a t : 0 < pa_page_size a → 0 ≤ t → 0 ≤ ceil_paged_tokens a t.
Proof. intros Hp Ht. pose proof (ceil_ge a t Hp). lia. Qed.

(** ** Accounting *)

(** What the inputs of [can_run_list] cost in whole pages. *)
Definition cost (a : PrefillAdder) : Z := sum_Z ((λ r, ceil_paged_tokens a (Req.extend_input_len r)) <$> can_run_list a).

(** The budgets of an adder that started with [mixed] decode tokens, [inputs]
    input tokens and the chunk size [chunk]. *)
Record accounts (mixed inputs : Z) (chunk : option Z) (a : PrefillAdder) : Prop := {
  ac_page : 0 < pa_page_size a;
  ac_log : log_input_tokens a = cost a;
  ac_cur : cur_rem_token_offset a = mixed + cost a;
  ac_input : rem_input_tokens a = inputs - mixed - cost a;
  ac_chunk : rem_chunk_tokens a = (λ n, n - mixed - cost a) <$> chunk
}.

Lemma accounts_update mixed inputs chunk a r ch p x m :
  accounts mixed inputs chunk a → ceil_paged_tokens a x = ceil_paged_tokens a (Req.extend_input_len r) →
  accounts mixed inputs chunk (_update_prefill_budget (append_req a r ch) p x m).
Proof.
  intros [Hp Hl Hc Hi Hk] Hx.
  assert (cost (_update_prefill_budget (append_req a r ch) p x m) = cost a + ceil_paged_tokens a x) as Hcost.
  { unfold cost. cbn. rewrite fmap_app, sum_Z_app. cbn. rewrite Z.add_0_r, Hx. done. }
  constructor; rewrite ?Hcost; cbn; [done|..]; change (ceil_paged_tokens (append_req a r ch) x) with (ceil_paged_tokens a x);
    [lia|lia|lia|]. rewrite Hk. destruct chunk as [n|]; [|done]. cbn. f_equal. lia.
Qed.

Lemma accounts_states mixed inputs chunk a s : accounts mixed inputs chunk a → accounts mixed inputs chunk (set_req_states a s).
Proof. intros [? ? ? ? ?]. by constructor. Qed.
Lemma accounts_running mixed inputs chunk a rb q l : accounts mixed inputs chunk a → accounts mixed inputs chunk (set_running a rb q l).
Proof. intros [? ? ? ? ?]. by constructor. Qed.

(** ** Steps *)
Section adder_steps.
Context {C : Type} `{AdderHost C}.
Context (CLIP : Z) (entry_time : Req.t → Z) (stream : Req.t → bool) (enc : bool) (spec : option string) (STEPS : Z).
Implicit Types (a : PrefillAdder) (c : C) (req : Req.t).

(** What the scheduler calls while it fills a batch. *)
Inductive adder_step : PrefillAdder * C → PrefillAdder * C → Prop :=
  | step_chunked a c req out a' : add_chunked_req CLIP a c req = Ok (out, a') → adder_step (a, c) (a', c)
  | step_one a c req align r req' a' c' :
      add_one_req CLIP a c req align = Ok (r, req', a', c') → adder_step (a, c) (a', c')
  | step_preempt a c req low b a' c' :
      preempt_to_schedule CLIP entry_time stream enc spec STEPS a c req low = Ok (b, a', c') → adder_step (a, c) (a', c').

(** What adding a request does to the budgets: nothing, or one request is appended
    and its extension, in whole pages, and what it may still generate are booked. *)
Inductive changes req a : PrefillAdder → Prop :=
  | changes_states a1 : (a1 = a ∨ ∃ l, a1 = set_req_states a l) → changes req a a1
  | changes_add a1 r chunked p x m : (a1 = a ∨ ∃ l, a1 = set_req_states a l) → (m = 0 ∨ m = clipped_new_tokens CLIP req) →
      ceil_paged_tokens a x = ceil_paged_tokens a (Req.extend_input_len r) →
      changes req a (_update_prefill_budget (append_req a1 r chunked) p x m).

Lemma changes_same req a : changes req a a.
Proof. apply changes_states. by left. Qed.
Lemma changes_once req a r chunked p x m : (m = 0 ∨ m = clipped_new_tokens CLIP req) →
  ceil_paged_tokens a x = ceil_paged_tokens a (Req.extend_input_len r) →
  changes req a (_update_prefill_budget (append_req a r chunked) p x m).
Proof. apply changes_add. by left. Qed.

Lemma changes_accounts mixed inputs chunk req a a' : changes req a a' → accounts mixed inputs chunk a → accounts mixed inputs chunk a'.
Proof.
  intros Hc Ha.
  assert (∀ a1, (a1 = a ∨ ∃ l, a1 = set_req_states a l) → accounts mixed inputs chunk a1) as Hstates.
  { intros a1 [->|[l ->]]; [done|]. by apply accounts_states. }
  destruct Hc as [a1 H1|a1 r ch p x m H1 _ Hx]; [auto|]. apply accounts_update; [auto|]. by destruct H1 as [->|[l ->]].
Qed.

Lemma ignore_eos_changes a c req r req' a' : add_one_req_ignore_eos CLIP a c req = Ok (r, req', a') → changes req a a'.
Proof.
  unfold add_one_req_ignore_eos. intros Heq.
  destruct (cur_rem_tokens a c) as [cur|]; [cbn [res_bind] in Heq|done].
  destruct (rem_total_tokens a c) as [total|]; [cbn [res_bind] in Heq|done].
  destruct (negb (Qle_bool _ _)); [injection Heq as <- <- <-; apply changes_same|].
  set (l := Some (next_req_states a req)) in *. set (a1 := set_req_states a l) in *.
  assert (a1 = a ∨ ∃ l, a1 = set_req_states a l) as H1 by (right; by exists l).
  destruct (_ && _); [injection Heq as <- <- <-; by apply changes_states|].
  destruct (rem_chunk_tokens a1) as [n|].
  - destruct (_ <=? n).
    + destruct (budget_state _ c); [|done]. cbn [res_bind] in Heq. injection Heq as <- <- <-. apply changes_add; auto.
    + destruct (n =? 0); [injection Heq as <- <- <-; by apply changes_states|]. destruct (budget_state _ c); [|done].
      cbn [res_bind] in Heq. injection Heq as <- <- <-. apply changes_add; auto.
  - destruct (budget_state _ c); [|done]. cbn [res_bind] in Heq. injection Heq as <- <- <-. apply changes_add; auto.
Qed.

Lemma load_back_params c req req1 c1 : load_back c req = Ok (req1, c1) → Req.sampling_params req1 = Req.sampling_params req.
Proof.
  unfold load_back. destruct (0 <? _); [|by intros [= <- <-]].
  destruct (ah_init_load_back c req _) as [[[idx n] c2]|]; [|done]. cbn. by intros [= <- <-].
Qed.

Lemma locked_changes a c req t align early req' a' c' : 0 < pa_page_size a →
  add_locked CLIP a c req t align = Ok (early, req', a', c') → changes req a a'.
Proof.
  intros Hp. unfold add_locked. intros Heq.
  destruct (rem_total_tokens a c) as [total|]; [cbn [res_bind] in Heq|done].
  destruct (Qle_bool _ _); [injection Heq as <- <- <- <-; apply changes_same|].
  destruct (load_back c req) as [[req1 c1]|] eqn:El; [cbn [res_bind] in Heq|done].
  assert (clipped_new_tokens CLIP req1 = clipped_new_tokens CLIP req) as Em by (unfold clipped_new_tokens; by rewrite (load_back_params _ _ _ _ El)).
  destruct (_ && _); [injection Heq as <- <- <- <-; apply changes_same|].
  destruct (match rem_chunk_tokens a with None => true | Some n => _ end).
  - destruct (pc_inc_lock_ref c1 _) as [[d c2]|]; [|done]. cbn [res_bind] in Heq. injection Heq as <- <- <- <-.
    apply changes_once; [auto|]. by apply ceil_idem.
  - destruct (chunk_len _ _ _) as [n|]; [|injection Heq as <- <- <- <-; apply changes_same].
    destruct (pc_inc_lock_ref c1 _) as [[d c2]|]; [|done]. cbn [res_bind] in Heq. injection Heq as <- <- <- <-.
    apply changes_once; auto.
Qed.

Lemma one_req_changes a c req align r req' a' c' : 0 < pa_page_size a →
  add_one_req CLIP a c req align = Ok (r, req', a', c') → changes req a a'.
Proof.
  intros Hp. unfold add_one_req. intros Heq. destruct (_ && pc_disable c).
  { destruct (add_one_req_ignore_eos CLIP a c req) as [[[r1 req1] a1]|] eqn:E; [|done]. cbn [res_bind] in Heq.
    injection Heq as <- <- <- <-. by eapply ignore_eos_changes. }
  destruct (rem_total_tokens a c) as [total|]; [cbn [res_bind] in Heq|done].
  destruct (Qle_bool _ _); [injection Heq as <- <- <- <-; apply changes_same|].
  destruct (_ && _); [injection Heq as <- <- <- <-; apply changes_same|].
  destruct (pc_inc_lock_ref c _) as [[d c1]|]; [cbn [res_bind] in Heq|done].
  destruct (add_locked CLIP a c1 req _ align) as [[[[early req1] a1] c2]|] eqn:E; [cbn [res_bind] in Heq|done].
  destruct (pc_dec_lock_ref c2 _) as [[e c3]|]; [cbn [res_bind] in Heq|done].
  pose proof (locked_changes _ _ _ _ _ _ _ _ _ Hp E) as Ha1.
  destruct early; [by injection Heq as <- <- <- <-|]. destruct (budget_state a1 c3); [|done].
  cbn [res_bind] in Heq. by injection Heq as <- <- <- <-.
Qed.

Lemma chunked_changes a c req out a' : add_chunked_req CLIP a c req = Ok (out, a') → changes req a a'.
Proof.
  unfold add_chunked_req. intros Heq. destruct (rem_chunk_tokens a) as [n|]; [cbn [of_opt res_bind] in Heq|done].
  destruct (rem_total_tokens a c) as [total|]; [cbn [res_bind] in Heq|done]. injection Heq as _ <-.
  apply changes_once; [|done]. destruct (_ <? _); auto.
Qed.

Lemma preempt_accounts mixed inputs chunk a c req low b a' c' : accounts mixed inputs chunk a →
  preempt_to_schedule CLIP entry_time stream enc spec STEPS a c req low = Ok (b, a', c') → accounts mixed inputs chunk a'.
Proof.
  intros Ha. unfold preempt_to_schedule. intros Heq. destruct (running_batch a) as [rb|]; [cbn [of_opt res_bind] in Heq|done].
  destruct (priorities _ _) as [ps|]; [cbn [res_bind] in Heq|done].
  destruct (rem_total_tokens a c) as [total|]; [cbn [res_bind] in Heq|done].
  destruct (preemptible_reqs _ _ _ _) as [chosen|]; [cbn [res_bind] in Heq|done].
  destruct (_ || _); [by injection Heq as <- <- <-|].
  destruct (preempt_loop _ _ _ _ _ _ _ _ _ _) as [[[[keep gone] b1] c1]|]; [cbn [res_bind] in Heq|done].
  destruct (mapM_res _ gone); [cbn [res_bind] in Heq|done].
  destruct (filter_batch _ _ _ _ _); [|done]. cbn [res_bind] in Heq. injection Heq as <- <- <-. by apply accounts_running.
Qed.

Lemma steps_accounts mixed inputs chunk s s' : rtc adder_step s s' → accounts mixed inputs chunk (fst s) →
  accounts mixed inputs chunk (fst s').
Proof.
  induction 1 as [|s1 s2 s3 Hstep _ IH]; [done|]. intros Ha. apply IH.
  destruct Hstep; cbn in *; [| |by eapply preempt_accounts]; (eapply changes_accounts; [|exact Ha]).
  - by eapply chunked_changes.
  - by eapply one_req_changes; [apply (ac_page _ _ _ _ Ha)|].
Qed.
End adder_steps.

(** C18. The budgets count exactly what is admitted: whatever the scheduler calls
    while it fills a batch ([add_chunked_req], [add_one_req] in both its modes,
    [preempt_to_schedule]), the input and chunk budgets and the offset of the
    current batch differ from their start by the sum of the admitted extensions,
    each rounded up to whole pages. *)
Theorem prefill_budget_invariant {C} `{AdderHost C} CLIP entry_time stream enc spec STEPS page_size (c c' : C) rb ratio
    inputs chunk mixed threshold a
    (Hp : 0 < page_size)
    (Hsteps : rtc (adder_step CLIP entry_time stream enc spec STEPS)
      (PrefillAdder_init CLIP page_size c rb ratio inputs chunk mixed threshold, c) (a, c')) :
  log_input_tokens a = cost a ∧ cur_rem_token_offset a = mixed + cost a ∧
  rem_input_tokens a = inputs - mixed - cost a ∧ rem_chunk_tokens a = (λ n, n - mixed - cost a) <$> chunk.
Proof.
  destruct (steps_accounts _ _ _ _ _ _ mixed inputs chunk _ _ Hsteps) as [_ ? ? ? ?]; [|done].
  constructor; cbn; try done; unfold cost; cbn; try lia. destruct chunk; [|done]. cbn. f_equal. lia.
Qed.

(** ** Admission *)

(** Locking a node succeeds, and unlocking it takes the lock back. *)
Class LockLaws (C : Type) `{PrefixCache C} := {
  lk_ok : C → option nat → Prop;
  lk_inc c n : lk_ok c n → ∃ d c', pc_inc_lock_ref c n = Ok (d, c') ∧ lk_ok c' n ∧ ∃ e, pc_dec_lock_ref c' n = Ok (e, c)
}.

(** The request [req'] that is admitted for [req], whole or as a chunk. *)
Record admitted (CLIP : Z) (a : PrefillAdder) (req req' : Req.t) (a' : PrefillAdder) : Prop := {
  ad_list : can_run_list a' = can_run_list a ++ [req'];
  ad_same : Req.prefix_indices req' = Req.prefix_indices req ∧ Req.last_node req' = Req.last_node req;
  ad_whole : (req' = req ∧ new_chunked_req a' = new_chunked_req a) ∨
    (new_chunked_req a' = Some req' ∧ 0 < Req.extend_input_len req' < Req.extend_input_len req ∧
     Req.fill_ids req' = py_upto (Req.fill_ids req) (len (Req.prefix_indices req) + Req.extend_input_len req'));
  ad_cur : cur_rem_token_offset a' = cur_rem_token_offset a + ceil_paged_tokens a (Req.extend_input_len req');
  ad_total : ∃ m, (m = 0 ∨ m = clipped_new_tokens CLIP req) ∧
    rem_total_token_offset a' = (rem_total_token_offset a + inject_Z (ceil_paged_tokens a (Req.extend_input_len req') + m))%Q;
  ad_fixed : pa_page_size a' = pa_page_size a ∧ is_hybrid a' = is_hybrid a ∧ is_hybrid_gdn_cache a' = is_hybrid_gdn_cache a
}.

Section admission.
Context {C : Type} `{AdderHost C} `{!LockLaws C}.
Context (CLIP : Z).
Implicit Types (a : PrefillAdder) (c : C) (req : Req.t).

(** The tokens a request may come to need. *)
Definition total_tokens req : Z := Req.extend_input_len req +
  Z.min (Z.max (max_new_tokens (Req.sampling_params req) - len (Req.output_ids req)) 0) CLIP.

Lemma available_ok a c : is_hybrid a = false → ∃ n, available_and_evictable a c = Ok n.
Proof. intros Hh. unfold available_and_evictable. rewrite Hh. destruct (is_hybrid_gdn_cache a); eauto. Qed.

Lemma budget_state_ok a c : is_hybrid a = false → ∃ r, budget_state a c = Ok r.
Proof.
  intros Hh. destruct (available_ok a c Hh) as [n Hn]. unfold budget_state, rem_total_tokens, cur_rem_tokens. rewrite Hn.
  cbn [res_bind]. destruct (_ || _); [by eexists|]. destruct (_ || _); by eexists.
Qed.

Lemma chunk_len_spec a chunk align n x : 0 < pa_page_size a → match align with Some k => 0 < k | None => True end →
  chunk < ceil_paged_tokens a x → chunk_len a chunk align = Some n → 0 < n < x.
Proof.
  intros Hp Hal Hlt. unfold chunk_len. set (t := chunk / pa_page_size a * pa_page_size a).
  assert (t ≤ chunk) as Ht by (unfold t; pose proof (Z.mul_div_le chunk (pa_page_size a) Hp); lia).
  assert (t < x) as Htx.
  { pose proof (ceil_ge a x Hp) as Hc. unfold ceil_paged_tokens, t in *. set (ps := pa_page_size a) in *.
    assert (chunk / ps < - (- x / ps)) by (apply Z.div_lt_upper_bound; lia). nia. }
  destruct (Z.leb_spec t 0) as [|H0]; [done|]. destruct align as [k|]; [|intros [= <-]; lia].
  destruct (Z.ltb_spec t k) as [|Hk]; [done|]. intros [= <-].
  pose proof (Z.mul_div_le t k Hal). assert (0 < t / k) by (apply Z.div_str_pos; lia). nia.
Qed.

(** The body under the lock: nothing, or one request admitted and its node
    locked once more. *)
Lemma add_locked_spec a c req align : 0 < pa_page_size a → is_hybrid a = false → Req.host_hit_length req = 0 →
  match align with Some k => 0 < k | None => True end → lk_ok c (Req.last_node req) →
  ∃ n, available_and_evictable a c = Ok n ∧
  ((∃ r, add_locked CLIP a c req (total_tokens req) align = Ok (Some r, req, a, c) ∧ r ≠ CONTINUE) ∨
   ∃ d c' req' a', add_locked CLIP a c req (total_tokens req) align = Ok (None, req', a', c') ∧
     pc_inc_lock_ref c (Req.last_node req) = Ok (d, c') ∧ admitted CLIP a req req' a' ∧
     (rem_total_token_offset a + inject_Z (total_tokens req) < inject_Z n)%Q).
Proof.
  intros Hp Hh Hhit Hal Hlk. destruct (available_ok a c Hh) as [n Hn]. exists n. split; [done|].
  unfold add_locked, rem_total_tokens. rewrite Hn. cbn [res_bind].
  destruct (Qle_bool _ _) eqn:Eq; [left; by eexists|].
  assert (rem_total_token_offset a + inject_Z (total_tokens req) < inject_Z n)%Q as Hfit.
  { apply Qnot_le_lt. intros Hle. rewrite <-not_true_iff_false, Qle_bool_iff in Eq. apply Eq.
    unfold Qminus. apply (Qplus_le_l _ _ (rem_total_token_offset a)). rewrite <-Qplus_assoc, (Qplus_comm (- _)), Qplus_opp_r, Qplus_0_r.
    by rewrite (Qplus_comm (inject_Z (total_tokens req))). }
  unfold load_back. rewrite Hhit. cbn [Z.ltb res_bind Z.compare].
  destruct (_ && _); [left; by eexists|].
  destruct (lk_inc c (Req.last_node req) Hlk) as (d & c' & Hinc & _).
  destruct (match rem_chunk_tokens a with None => true | Some m => _ end) eqn:Ech.
  - right. rewrite Hinc. cbn [res_bind]. do 4 eexists. split; [done|]. split; [done|]. split; [|done]. constructor; try done.
    + by left.
    + cbn. change (ceil_paged_tokens (append_req a req false)) with (ceil_paged_tokens a). by rewrite ceil_idem.
    + exists (clipped_new_tokens CLIP req). split; [by right|]. cbn.
      change (ceil_paged_tokens (append_req a req false)) with (ceil_paged_tokens a). by rewrite ceil_idem.
  - destruct (rem_chunk_tokens a) as [chunk|]; [|done]. change (default 0 (Some chunk)) with chunk. apply Z.leb_gt in Ech.
    destruct (chunk_len a chunk align) as [k|] eqn:Ek; [|left; by eexists].
    pose proof (chunk_len_spec a chunk align k _ Hp Hal Ech Ek) as Hk. right.
    change (Req.last_node (Req.set_fill_ids _ _)) with (Req.last_node req). rewrite Hinc. cbn [res_bind].
    do 4 eexists. split; [done|]. split; [done|]. split; [|done]. constructor; try done.
    + right. split; [done|]. split; [exact Hk|done].
    + exists 0. split; [by left|done].
Qed.
End admission.

(** Either nothing happens or one request is admitted. *)
Lemma add_one_req_spec {C} `{AdderHost C} `{!LockLaws C} CLIP a (c : C) req align :
  0 < pa_page_size a → is_hybrid a = false → Req.host_hit_length req = 0 →
  ignore_eos (Req.sampling_params req) && pc_disable c = false →
  match align with Some k => 0 < k | None => True end → lk_ok c (Req.last_node req) →
  ∃ r req' a' c', add_one_req CLIP a c req align = Ok (r, req', a', c') ∧
    ((r ≠ CONTINUE ∧ req' = req ∧ a' = a ∧ c' = c) ∨
     (admitted CLIP a req req' a' ∧ (∃ d, pc_inc_lock_ref c (Req.last_node req) = Ok (d, c')) ∧
      ∃ n, available_and_evictable a c' = Ok n ∧
        (rem_total_token_offset a + inject_Z (total_tokens CLIP req) < inject_Z n)%Q)).
Proof.
  intros Hp Hh Hhit Heos Hal Hlk.
  unfold add_one_req. rewrite Heos. clear Heos. destruct (available_ok a c Hh) as [n Hn].
  assert (rem_total_tokens a c = Ok (inject_Z n - rem_total_token_offset a)%Q) as -> by (unfold rem_total_tokens; by rewrite Hn).
  cbn [res_bind]. fold (total_tokens CLIP req).
  destruct (Qle_bool _ _); [do 4 eexists; split; [reflexivity|left; split_and!; done]|].
  destruct (_ && _); [do 4 eexists; split; [reflexivity|left; split_and!; done]|].
  destruct (lk_inc c (Req.last_node req) Hlk) as (d & c1 & Hinc & Hlk1 & e & Hdec). rewrite Hinc. cbn [res_bind].
  destruct (add_locked_spec CLIP a c1 req align Hp Hh Hhit Hal Hlk1) as (m & Hm & [(r & -> & Hr)|(d2 & c2 & req' & a' & -> & Hinc2 & Had & Hfit)]).
  - cbn [res_bind]. rewrite Hdec. cbn [res_bind]. do 4 eexists. split; [reflexivity|left; split_and!; done].
  - cbn [res_bind]. destruct (lk_inc c1 (Req.last_node req) Hlk1) as (d3 & c3 & Hinc3 & _ & e3 & Hdec3).
    rewrite Hinc2 in Hinc3. injection Hinc3 as <- <-. rewrite Hdec3. cbn [res_bind].
    assert (is_hybrid a' = false) as Hh' by (destruct (ad_fixed _ _ _ _ _ Had) as (_ & -> & _); done).
    destruct (budget_state_ok a' c1 Hh') as [r ->]. cbn [res_bind].
    do 4 eexists. split; [reflexivity|]. right. split; [exact Had|]. split; [by eexists|by exists m].
Qed.

(** Admission is all or nothing: outside the [ignore_eos] mode [add_one_req]
    never raises; either it turns the request down and leaves the request, the
    budgets and the cache, locks included, as they were, or it appends exactly
    one request, whole or cut to a chunk that is shorter, takes exactly one lock
    on its node, and the tokens the request may need in all were below what is
    free or evictable once the lock is held, less what is reserved. *)
Theorem add_one_req_all_or_nothing {C} `{AdderHost C} `{!LockLaws C} CLIP a (c : C) req align
    (Hp : 0 < pa_page_size a) (Hh : is_hybrid a = false) (Hhit : Req.host_hit_length req = 0)
    (Heos : ignore_eos (Req.sampling_params req) && pc_disable c = false)
    (Hal : match align with Some k => 0 < k | None => True end) (Hlk : lk_ok c (Req.last_node req)) :
  ∃ r req' a' c', add_one_req CLIP a c req align = Ok (r, req', a', c') ∧
    ((r ≠ CONTINUE ∧ req' = req ∧ a' = a ∧ c' = c) ∨
     (admitted CLIP a req req' a' ∧ (∃ d, pc_inc_lock_ref c (Req.last_node req) = Ok (d, c')) ∧
      ∃ n, available_and_evictable a c' = Ok n ∧
        (rem_total_token_offset a + inject_Z (total_tokens CLIP req) < inject_Z n)%Q)).
Proof. by apply add_one_req_spec. Qed.

(** Reserved tokens cover the tokens of the current batch. *)
Definition dominated (a : PrefillAdder) : Prop := (inject_Z (cur_rem_token_offset a) <= rem_total_token_offset a)%Q.

Lemma available_fixed {C} `{AdderHost C} CLIP a req req' a' (c : C) : admitted CLIP a req req' a' →
  available_and_evictable a' c = available_and_evictable a c.
Proof. intros Had. destruct (ad_fixed _ _ _ _ _ Had) as (_ & E1 & E2). unfold available_and_evictable. by rewrite E1, E2. Qed.

Lemma admitted_len CLIP a req req' a' : admitted CLIP a req req' a' → Req.extend_input_len req' ≤ Req.extend_input_len req.
Proof. intros Had. destruct (ad_whole _ _ _ _ _ Had) as [[-> _]|(_ & ? & _)]; lia. Qed.

(** What a batch is filled with when nothing is preempted. *)
Inductive fill_step {C} `{AdderHost C} (CLIP : Z) : PrefillAdder * C → PrefillAdder * C → Prop :=
  | fill_chunked a c req out a' : 0 ≤ max_new_tokens (Req.sampling_params req) →
      add_chunked_req CLIP a c req = Ok (out, a') → fill_step CLIP (a, c) (a', c)
  | fill_one a c req align r req' a' c' : 0 ≤ max_new_tokens (Req.sampling_params req) →
      add_one_req CLIP a c req align = Ok (r, req', a', c') → fill_step CLIP (a, c) (a', c').

Record reserved (page_size : Z) (a : PrefillAdder) : Prop := {
  rv_page : pa_page_size a = page_size;
  rv_hybrid : is_hybrid a = false;
  rv_dominated : dominated a
}.

Lemma changes_reserved CLIP page_size req a a' : changes CLIP req a a' → 0 ≤ CLIP → 0 ≤ max_new_tokens (Req.sampling_params req) →
  reserved page_size a → reserved page_size a'.
Proof.
  intros Hc Hclip Hm Ha.
  assert (∀ a1, (a1 = a ∨ ∃ l, a1 = set_req_states a l) → reserved page_size a1) as Hstates.
  { intros a1 [->|[l ->]]; [done|]. by destruct Ha. }
  destruct Hc as [a1 H1|a1 r ch p x m H1 Hx _]; [auto|]. destruct (Hstates a1 H1) as [Hp Hh Hd]. split; [done|done|].
  unfold dominated in *. cbn. rewrite inject_Z_plus. apply Qplus_le_compat; [done|]. rewrite <-Zle_Qle.
  unfold clipped_new_tokens in Hx. lia.
Qed.

Lemma fill_reserved {C} `{AdderHost C} CLIP page_size s s' : 0 < page_size → 0 ≤ CLIP → rtc (fill_step (C:=C) CLIP) s s' →
  reserved page_size (fst s) → reserved page_size (fst s').
Proof.
  intros Hp Hclip. induction 1 as [|s1 s2 s3 Hstep _ IH]; [done|]. intros Ha. apply IH.
  destruct Hstep as [a c req out a' Hm E|a c req align r req' a' c' Hm E];
    (apply (changes_reserved CLIP page_size req a); [|done..]).
  - by eapply chunked_changes.
  - eapply one_req_changes; [|exact E]. cbn in Ha. by rewrite (rv_page _ _ Ha).
Qed.

Lemma sum_Q_nonneg l : Forall (λ q, (0 <= q)%Q) l → (0 <= sum_Q l)%Q.
Proof. induction 1 as [|q l Hq _ IH]; [apply Qle_refl|]. cbn. change 0%Q with (0 + 0)%Q. by apply Qplus_le_compat. Qed.

Lemma init_reserved {C} `{AdderHost C} CLIP page_size (c : C) rb ratio inputs chunk mixed threshold :
  ch_hybrid c = None → 0 ≤ CLIP → (0 <= ratio)%Q →
  match rb with Some b => Forall (λ r, len (Req.output_ids r) ≤ max_new_tokens (Req.sampling_params r)) (Batch.reqs b) | None => True end →
  reserved page_size (PrefillAdder_init CLIP page_size c rb ratio inputs chunk mixed threshold).
Proof.
  intros Hh Hclip Hratio Hrb. split; [done|cbn; by rewrite Hh|]. unfold dominated. cbn. destruct rb as [b|]; [|apply Qle_refl].
  rewrite <-(Qplus_0_r (inject_Z mixed)) at 1. apply Qplus_le_compat; [apply Qle_refl|].
  apply sum_Q_nonneg, Forall_fmap, (Forall_impl _ _ _ Hrb). intros r Hr. unfold running_offset. cbn.
  apply Qmult_le_0_compat; [|done]. change 0%Q with (inject_Z 0). rewrite <-Zle_Qle. lia.
Qed.

(** C19. What is admitted fits.  In a prefill batch that was filled from its start by
    [add_chunked_req] and [add_one_req], without preemption and without a hybrid
    cache, every request that [add_one_req] admits next, with nothing to load from a
    host cache and not in the mode for [ignore_eos], leaves the inputs of the batch, in
    whole pages, below what is free or evictable with the request's prefix locked, by
    less than a page over at most, and with room to spare for pages of one slot.
    Running requests have at most their [max_new_tokens] outputs.
    ([preempt_to_schedule] gives back the new request's share instead of that of the
    preempted ones, so after it the reservation need not cover the batch.) *)
Theorem admitted_fits {C} `{AdderHost C} `{!LockLaws C} CLIP page_size (c0 c : C) rb ratio inputs chunk mixed threshold a req align
    (Hp : 0 < page_size) (Hh : ch_hybrid c0 = None) (Hclip : 0 ≤ CLIP) (Hratio : (0 <= ratio)%Q)
    (Hrb : match rb with
           | Some b => Forall (λ r, len (Req.output_ids r) ≤ max_new_tokens (Req.sampling_params r)) (Batch.reqs b)
           | None => True
           end)
    (Hfill : rtc (fill_step CLIP) (PrefillAdder_init CLIP page_size c0 rb ratio inputs chunk mixed threshold, c0) (a, c))
    (Hhit : Req.host_hit_length req = 0) (Heos : ignore_eos (Req.sampling_params req) && pc_disable c = false)
    (Hal : match align with Some k => 0 < k | None => True end) (Hlk : lk_ok c (Req.last_node req)) :
  ∃ r req' a' c', add_one_req CLIP a c req align = Ok (r, req', a', c') ∧
    (can_run_list a' ≠ can_run_list a →
       ∃ k, cur_rem_tokens a' c' = Ok k ∧ 0 < k + page_size ∧ (page_size = 1 → 0 < k)).
Proof.
  destruct (fill_reserved CLIP page_size _ _ Hp Hclip Hfill) as [Hpage Hhyb Hd]; [by apply init_reserved|].
  cbn [fst] in Hpage, Hhyb, Hd. assert (0 < pa_page_size a) as Hp' by (by rewrite Hpage).
  destruct (add_one_req_spec CLIP a c req align Hp' Hhyb Hhit Heos Hal Hlk)
    as (r & req' & a' & c' & Heq & [(_ & _ & -> & _)|(Had & _ & n & Hn & Hfit)]); exists r, req'.
  { exists a, c'. split; [done|]. by intros []. }
  exists a', c'. split; [done|]. intros _.
  exists (n - cur_rem_token_offset a'). unfold cur_rem_tokens. rewrite (available_fixed _ _ _ _ _ _ Had), Hn. split; [done|].
  rewrite (ad_cur _ _ _ _ _ Had). pose proof (admitted_len _ _ _ _ _ Had) as Hlen. pose proof (ceil_ge a (Req.extend_input_len req') Hp').
  assert (cur_rem_token_offset a + total_tokens CLIP req < n) as Hlt.
  { rewrite Zlt_Qlt, inject_Z_plus. eapply Qle_lt_trans; [|exact Hfit]. apply Qplus_le_compat; [done|apply Qle_refl]. }
  unfold total_tokens in Hlt. rewrite <-Hpage. split; [lia|]. intros E. rewrite E in *. lia.
Qed.

(** ** Preemption *)

(** The indices from [i] on at which the request is chosen, and the others. *)
Fixpoint split_idx (chosen : list string) (reqs : list Req.t) (i : Z) : list Z * list Z :=
  match reqs with
  | [] => ([], [])
  | r :: reqs =>
      let '(g, k) := split_idx chosen reqs (i + 1) in
      if bool_decide (Req.rid r ∈ chosen) then (i :: g, k) else (g, i :: k)
  end.

Lemma split_idx_perm chosen reqs : ∀ i, let '(g, k) := split_idx chosen reqs i in k ++ g ≡ₚ py_range i (i + len reqs).
Proof.
  induction reqs as [|r reqs IH]; intros i; cbn [split_idx]; [by rewrite len_nil, Z.add_0_r, py_range_nil|].
  specialize (IH (i + 1)). destruct (split_idx chosen reqs (i + 1)) as [g k].
  assert (py_range i (i + len (r :: reqs)) = i :: py_range (i + 1) (i + 1 + len reqs)) as ->.
  { rewrite len_cons, (py_range_split i (i + 1)) by (pose proof (len_nonneg reqs); lia).
    rewrite py_range_snoc, py_range_nil by lia. cbn. f_equal. f_equal. lia. }
  case_bool_decide; rewrite <-IH; [symmetry; apply Permutation_middle|done].
Qed.

Lemma split_idx_pick chosen (all : list Req.t) : ∀ pre reqs, all = pre ++ reqs →
  let '(g, k) := split_idx chosen reqs (len pre) in
  pick all g = List.filter (λ r, bool_decide (Req.rid r ∈ chosen)) reqs ∧
  pick all k = List.filter (λ r, negb (bool_decide (Req.rid r ∈ chosen))) reqs.
Proof.
  intros pre reqs. revert pre. induction reqs as [|r reqs IH]; intros pre Hall; cbn [split_idx]; [done|].
  specialize (IH (pre ++ [r])). rewrite <-app_assoc in IH. specialize (IH Hall).
  assert (len (pre ++ [r]) = len pre + 1) as E by (rewrite len_app; done). rewrite E in IH.
  destruct (split_idx chosen reqs (len pre + 1)) as [g k]. destruct IH as [IHg IHk].
  assert (all !! Z.to_nat (len pre) = Some r) as Hr.
  { rewrite Hall. unfold len. by rewrite Nat2Z.id, list_lookup_middle. }
  cbn [List.filter]. case_bool_decide; cbn [negb]; rewrite (pick_cons _ _ _ r) by done; by rewrite ?IHg, ?IHk.
Qed.

Section preempt.
Context {C : Type} `{AdderHost C} `{!RetractLaws C None}.
Context (is_encoder_decoder : bool) (STEPS : Z).
Implicit Types (b : Batch.t) (c : C).

Lemma preempt_loop_spec order l0 chosen reqs : ∀ i cnt keep gone b c,
  let '(g, k) := split_idx chosen reqs i in
  retracting is_encoder_decoder order l0 b c (g ++ reverse (keep ++ k)) gone →
  ∃ b' c', preempt_loop None STEPS b c chosen reqs i cnt keep gone = Ok (keep ++ k, gone ++ g, b', c') ∧
    retracting is_encoder_decoder order l0 b' c' (reverse (keep ++ k)) (gone ++ g) ∧
    Batch.output_ids b' = Batch.output_ids b ∧ Batch.return_logprob b' = Batch.return_logprob b.
Proof.
  induction reqs as [|r reqs IH]; intros i cnt keep gone b c; cbn [split_idx preempt_loop].
  { intros Hg. exists b, c. rewrite !app_nil_r in *. done. }
  destruct (split_idx chosen reqs (i + 1)) as [g k] eqn:Es. case_bool_decide.
  - intros Hg. cbn [app] in Hg.
    destruct (retracting_step is_encoder_decoder STEPS (len (Batch.reqs b) - (cnt + 1)) order l0 b c i _ gone Hg)
      as (b1 & c1 & -> & Hg1 & _ & _ & Ho & _ & Hr). cbn [res_bind].
    specialize (IH (i + 1) (cnt + 1) keep (gone ++ [i]) b1 c1). rewrite Es in IH.
    destruct (IH Hg1) as (b' & c' & -> & Hg' & Ho' & Hr'). exists b', c'. rewrite <-app_assoc in *. cbn [app] in *.
    split_and!; [done|done|congruence|congruence].
  - intros Hg. specialize (IH (i + 1) cnt (keep ++ [i]) gone b c). rewrite Es, <-!app_assoc in IH. cbn [app] in IH. by apply IH.
Qed.
End preempt.

(** The priority of [req] exceeds that of [r] by more than the threshold. *)
Definition outranks (a : PrefillAdder) (low_first : bool) (req r : Req.t) : Prop :=
  ∃ p q, Req.priority req = Some p ∧ Req.priority r = Some q ∧
    priority_scheduling_preemption_threshold a < (if low_first then q - p else p - q).

Lemma preemptible_reqs_spec a low req sorted : is_Some (Req.priority req) → Forall (λ r, is_Some (Req.priority r)) sorted →
  ∃ chosen, preemptible_reqs a low req sorted = Ok chosen ∧
    ∀ r, r ∈ chosen → r ∈ sorted ∧ outranks a low req r ∧ Req.rid r ∉ Req.rid <$> preempt_list a.
Proof.
  intros [p Hp]. induction 1 as [|r sorted [q Hq] _ (chosen & IH & Hin)]; cbn [preemptible_reqs].
  { exists []. split; [done|]. by intros r ?%not_elem_of_nil. }
  unfold preemptible at 1. case_bool_decide as Hd; cbn [res_bind].
  { rewrite IH. cbn [res_bind]. exists chosen. split; [done|]. intros x Hx. destruct (Hin x Hx) as (? & ?). split; [set_solver|done]. }
  rewrite Hp, Hq. cbn [of_opt res_bind]. rewrite IH. cbn [res_bind]. eexists. split; [done|]. intros x.
  destruct (Z.ltb_spec (priority_scheduling_preemption_threshold a) (if low then (p - q) * -1 else p - q)) as [Hlt|_].
  - intros [->|Hx]%elem_of_cons; [|destruct (Hin x Hx) as (? & ?); split; [set_solver|done]].
    split; [set_solver|]. split; [|done]. exists p, q. split_and!; try done. destruct low; lia.
  - intros Hx. destruct (Hin x Hx) as (? & ?). split; [set_solver|done].
Qed.

Lemma preempt_start {C} `{AdderHost C} `{!RetractLaws C None} enc b (c : C) l chosen :
  represents enc b l → rt_inv c (Batch.reqs b) →
  let '(g, k) := split_idx chosen (Batch.reqs b) 0 in
  retracting enc (k ++ reverse g) l b c (g ++ reverse k) [].
Proof.
  intros Hb Hinv. pose proof (split_idx_perm chosen (Batch.reqs b) 0) as HP.
  destruct (split_idx chosen (Batch.reqs b) 0) as [g k]. rewrite Z.add_0_l, (rp_reqs _ _ _ Hb), len_fmap in HP.
  assert (k ++ reverse g ≡ₚ py_range 0 (len l)) as HP' by (by rewrite reverse_Permutation). constructor.
  - by rewrite reverse_app, reverse_involutive, app_nil_r.
  - rewrite HP'. apply NoDup_py_range.
  - apply Forall_forall. intros i. rewrite HP'. apply elem_of_py_range.
  - exists l. split_and!; done.
  - eapply rt_perm; [|exact Hinv]. rewrite (rp_reqs _ _ _ Hb), (reverse_Permutation k), (Permutation_app_comm g k), HP, pick_all. done.
Qed.

(** What the batch is afterwards. *)
Lemma preempt_filter {C} `{AdderHost C} `{!RetractLaws C None} stream enc b l order b1 (c1 : C) g k :
  represents enc b l → Batch.output_ids b ≠ None → Batch.return_logprob b = existsb Req.return_logprob (Batch.reqs b) →
  retracting enc order l b1 c1 (reverse k) g → Batch.output_ids b1 = Batch.output_ids b →
  Batch.return_logprob b1 = Batch.return_logprob b → (length k < length l)%nat →
  ∃ b2 gone', mapM_res (py_index (Batch.reqs b1)) g = Ok gone' ∧ Forall2 retracted (pick (Batch.reqs b) g) gone' ∧
    filter_batch stream enc b1 [] (Some k) = Ok b2 ∧ Batch.reqs b2 = pick (Batch.reqs b) k ∧ rt_inv c1 (Batch.reqs b2).
Proof.
  intros Hb Hout Hrl [Horder Hnd Hr0 (l' & Hb1 & Hl' & Hsame & HF) Hlive] Eo Er Hlen. rewrite reverse_involutive in Horder.
  assert (in_range l' k) as Hr1.
  { eapply in_range_sub; [exact Hr0|done|]. intros i Hi. rewrite Horder. set_solver. }
  assert (in_range l' g) as Hr2.
  { eapply in_range_sub; [exact Hr0|done|]. intros i Hi. rewrite Horder. set_solver. }
  assert (pick l' k = pick l k) as Hpk.
  { unfold pick. apply list_omap_ext, Forall2_same_length_lookup_2; [done|].
    intros j x y Hx Hy. assert (y = x) as -> by congruence. apply Hsame. apply list_elem_of_lookup_2 in Hx. set_solver. }
  rewrite mapM_index by (rewrite (rp_reqs _ _ _ Hb1); by apply in_range_fmap).
  assert (∀ b2, Batch.reqs b2 = pick (Batch.reqs b) k → rt_inv c1 (Batch.reqs b2)) as Hinv.
  { intros b2 ->. eapply rt_perm; [|exact Hlive]. by rewrite (rp_reqs _ _ _ Hb), pick_fmap, (reverse_Permutation k). }
  rewrite (rp_reqs _ _ _ Hb), (rp_reqs _ _ _ Hb1), !pick_fmap in *.
  destruct (decide (k = [])) as [->|Hk].
  { eexists _, _. split; [done|]. split; [done|]. split; [done|]. split; [done|]. apply Hinv. done. }
  destruct (filter_batch_rows stream enc b1 l' [] k Hb1) as (b2 & Heq & Hb2 & _); try done.
  { by rewrite Eo. }
  { intros Hex. rewrite Er, Hrl. rewrite Hpk in Hex. apply existsb_exists in Hex as (r & Hr & E).
    apply existsb_exists. exists r. split; [|done]. apply list_elem_of_In. apply list_elem_of_In in Hr.
    apply list_elem_of_fmap in Hr as (row & -> & (i & _ & Hi)%list_elem_of_omap). apply list_elem_of_fmap.
    exists row. split; [done|]. by eapply list_elem_of_lookup_2. }
  { lia. }
  assert (Batch.reqs b2 = row_req <$> pick l k) as Ereqs.
  { rewrite (rp_reqs _ _ _ Hb2). unfold kept_rows. rewrite Hpk. case_match; [done|by apply quiet_fmap]. }
  eexists b2, _. split; [done|]. split; [done|]. split; [done|]. split; [done|]. by apply Hinv.
Qed.

(** Preemption: [preempt_to_schedule] returns; if it says no, nothing has
    changed; if it says yes, some running requests are gone, all of them of a
    priority that the new request outranks by more than the threshold, released
    and reset and added to [preempt_list], and the running batch is what is left,
    in its order. *)
Theorem preempt_releases_outranked {C} `{AdderHost C} `{!RetractLaws C None} CLIP entry_time stream enc STEPS a (c : C) req low b l
    (Hrb : running_batch a = Some b) (Hb : represents enc b l) (Hinv : rt_inv c (Batch.reqs b)) (Hh : is_hybrid a = false)
    (Hout : Batch.output_ids b ≠ None) (Hrl : Batch.return_logprob b = existsb Req.return_logprob (Batch.reqs b))
    (Hpr : is_Some (Req.priority req)) (Hprs : Forall (λ r, is_Some (Req.priority r)) (Batch.reqs b))
    (Hnd : NoDup (Req.rid <$> Batch.reqs b)) :
  ∃ ok a' c', preempt_to_schedule CLIP entry_time stream enc None STEPS a c req low = Ok (ok, a', c') ∧
    if ok : bool then
      ∃ b' gone gone', running_batch a' = Some b' ∧ gone ≠ [] ∧ Batch.reqs b' ++ gone ≡ₚ Batch.reqs b ∧
        Batch.reqs b' `sublist_of` Batch.reqs b ∧ (∀ r, r ∈ gone → outranks a low req r) ∧
        Forall2 retracted gone gone' ∧ preempt_list a' = preempt_list a ++ gone' ∧ rt_inv c' (Batch.reqs b')
    else a' = a ∧ c' = c.
Proof.
  unfold preempt_to_schedule. rewrite Hrb. cbn [of_opt res_bind].
  destruct (priorities_ok (negb low) (Batch.reqs b) Hprs) as (ps & -> & Hps). cbn [res_bind].
  set (sorted := sort_on _ _ _).
  assert (sorted ≡ₚ Batch.reqs b) as Hsort.
  { apply sort_on_perm. rewrite length_zip_with, length_fmap. lia. }
  destruct (available_ok a c Hh) as [n Hn]. unfold rem_total_tokens at 1. rewrite Hn. cbn [res_bind].
  destruct (preemptible_reqs_spec a low req sorted Hpr ltac:(by rewrite Hsort)) as (chosen & -> & Hch). cbn [res_bind].
  destruct (Z.eqb_spec (len chosen) 0) as [_|Hne]; cbn [orb]; [do 3 eexists; by split; [done|]|].
  destruct (negb (Qle_bool _ 0)); [do 3 eexists; by split; [done|]|].
  pose proof (preempt_start enc b c l (Req.rid <$> chosen) Hb Hinv) as Hstart.
  pose proof (preempt_loop_spec enc STEPS) as Hloop.
  pose proof (split_idx_pick (Req.rid <$> chosen) (Batch.reqs b) [] (Batch.reqs b) eq_refl) as Hpick.
  pose proof (split_idx_perm (Req.rid <$> chosen) (Batch.reqs b) 0) as HP. rewrite len_nil in Hpick.
  destruct (split_idx (Req.rid <$> chosen) (Batch.reqs b) 0) as [g k] eqn:Es. destruct Hpick as [Hg Hk].
  specialize (Hloop (k ++ reverse g) l (Req.rid <$> chosen) (Batch.reqs b) 0 0 [] [] b c). rewrite Es in Hloop.
  destruct (Hloop Hstart) as (b1 & c1 & -> & Hret & Eo & Er). cbn [res_bind app] in *.
  rewrite Z.add_0_l in HP.
  assert (pick (Batch.reqs b) k ++ pick (Batch.reqs b) g ≡ₚ Batch.reqs b) as Hsplit.
  { rewrite <-pick_app, HP, pick_all. done. }
  assert (pick (Batch.reqs b) g ≠ []) as Hgne.
  { destruct chosen as [|x chosen]; [done|]. intros E. destruct (Hch x ltac:(set_solver)) as (Hx & _). rewrite Hsort in Hx.
    rewrite Hg in E. assert (x ∈ List.filter (λ r, bool_decide (Req.rid r ∈ Req.rid <$> x :: chosen)) (Batch.reqs b)) as X.
    { apply list_elem_of_In, List.filter_In. split; [by apply list_elem_of_In|]. apply bool_decide_eq_true. set_solver. }
    rewrite E in X. by apply not_elem_of_nil in X. }
  assert (length k < length l)%nat as Hlen.
  { apply Permutation_length in HP. rewrite length_app, length_py_range, (rp_reqs _ _ _ Hb), len_fmap in HP. unfold len in HP.
    destruct g; [done|]. cbn in HP. lia. }
  destruct (preempt_filter stream enc b l _ b1 c1 g k Hb Hout Hrl Hret Eo Er Hlen) as (b2 & gone' & -> & HF & Hfil & Ereqs & Hinv').
  cbn [res_bind]. rewrite Hfil. cbn [res_bind]. do 3 eexists. split; [done|]. exists b2, (pick (Batch.reqs b) g), gone'.
  rewrite Ereqs in *. split_and!; try done.
  - rewrite Hk. clear. induction (Batch.reqs b) as [|r rs IH]; [done|]. cbn. destruct (negb _); [by apply sublist_skip|by apply sublist_cons].
  - intros r Hr. rewrite Hg in Hr. apply list_elem_of_In, List.filter_In in Hr as [Hr Hd].
    apply list_elem_of_In in Hr. apply bool_decide_eq_true, list_elem_of_fmap in Hd as (x & E & Hx).
    destruct (Hch x Hx) as (Hxs & Hout' & _). rewrite Hsort in Hxs. by rewrite (rid_inj _ Hnd r x Hr Hxs E).
Qed.

(** ** The caches as hosts of the adder *)
Section adder_hosts.
Context (clock : nat → Z) (hash : list token → Z) (cfg : config) (topk : option Z).

#[export] Instance radix_adder_host : AdderHost (radix_state Base.t) := {|
  ah_host := radix_token_host clock hash cfg topk;
  ah_full_evictable_size _ := 0;
  ah_swa_evictable_size _ := 0;
  ah_is_gdn _ := false;
  ah_init_load_back _ _ _ := Err AttributeError
|}.

#[export] Instance chunk_adder_host : AdderHost (chunk_cache Base.t) := {|
  ah_host := chunk_token_host topk;
  ah_full_evictable_size _ := 0;
  ah_swa_evictable_size _ := 0;
  ah_is_gdn _ := false;
  ah_init_load_back _ _ _ := Err AttributeError
|}.

(** The radix cache keeps the lock laws on the nodes of its tree. *)
#[export, refine] Instance radix_lock_laws : @LockLaws (radix_state Base.t) (radix_prefix_cache clock hash cfg topk) := {|
  lk_ok s node := disable cfg = false ∧ ∃ G L n, node = Some n ∧ cache_wf cfg G L (tree s) ∧ is_Some (G !! n)
|}.
Proof.
  intros s node (Hen & G & L & n & -> & Hinv & Hn).
  destruct (lock_undo cfg G L (tree s) n Hinv Hen Hn) as (d & t & E1 & E2 & Hinv').
  exists d, (mkState t (req_pool s)). cbn [pc_inc_lock_ref pc_dec_lock_ref radix_prefix_cache tree req_pool]. rewrite Hen. cbn [of_opt res_bind].
  rewrite E1. split; [done|]. split; [|exists (- d); rewrite E2; by destruct s]. split; [done|]. by exists G, (L ⊎ {[+ n +]}), n.
Defined.
End adder_hosts.

(** ** Witnesses *)
Module AdderDemo.
Definition cfg : config := Demo.cfg.
#[local] Instance host : AdderHost (radix_state Base.t) := radix_adder_host Z.of_nat Demo.no_hash cfg None.
#[local] Instance locks : LockLaws (radix_state Base.t) := radix_lock_laws Z.of_nat Demo.no_hash cfg None.
Definition state : radix_state Base.t := mkState Demo.full (ReqToTokenPool.mk 2 4 [] []).
(** Two tokens to compute, on top of node 1; three free and three evictable slots. *)
Definition req : Req.t :=
  Req.set_extend_input_len (Req.set_last_node (Req_init "a" [11; 12; 13; 20; 21] demo_params false None None [] (Some 100) None None) (Some 1%nat)) 2.
Definition adder : PrefillAdder := PrefillAdder_init 4 1 state None 1 100 None 0 0.

Lemma locked : lk_ok state (Req.last_node req).
Proof.
  split; [done|]. destruct Demo.full_ok as (G & Hinv & _ & Hc). exists G, ∅, 1%nat. split; [done|]. split; [done|].
  by apply Demo.full_node.
Qed.
End AdderDemo.
#[local] Existing Instances AdderDemo.host AdderDemo.locks.

Lemma add_one_req_all_or_nothing_witness :
  (match add_one_req 1 AdderDemo.adder AdderDemo.state AdderDemo.req None with
   | Ok (_, _, a, _) => Req.rid <$> can_run_list a | Err _ => [] end) = ["a"]%string ∧
  ∃ r req' a' c', add_one_req 1 AdderDemo.adder AdderDemo.state AdderDemo.req None = Ok (r, req', a', c').
Proof.
  split; [vm_compute; reflexivity|].
  destruct (add_one_req_all_or_nothing 1 AdderDemo.adder AdderDemo.state AdderDemo.req None eq_refl eq_refl eq_refl eq_refl I
    AdderDemo.locked) as (r & req' & a' & c' & Heq & _).
  exists r, req', a', c'. exact Heq.
Defined.

Lemma admitted_fits_witness : ∃ r req' a' c', add_one_req 1 AdderDemo.adder AdderDemo.state AdderDemo.req None = Ok (r, req', a', c') ∧
  (can_run_list a' ≠ can_run_list AdderDemo.adder → ∃ k, cur_rem_tokens a' c' = Ok k ∧ 0 < k).
Proof.
  destruct (@admitted_fits _ AdderDemo.host AdderDemo.locks 1 1 AdderDemo.state AdderDemo.state None 1 100 None 0 0 AdderDemo.adder AdderDemo.req None
    ltac:(lia) ltac:(reflexivity) ltac:(lia) ltac:(vm_compute; discriminate) I ltac:(apply rtc_refl) ltac:(reflexivity) ltac:(reflexivity) I
    AdderDemo.locked) as (r & req' & a' & c' & Heq & Hfit).
  exists r, req', a', c'. split; [exact Heq|]. intros Hne. destruct (Hfit Hne) as (k & Hk & _ & H1).
  exists k. exact (conj Hk (H1 eq_refl)).
Defined.

Lemma prefill_budget_invariant_witness : ∃ a c', rtc (adder_step 1 (λ _, 0) BatchDemo.stream false None 20)
    (AdderDemo.adder, AdderDemo.state) (a, c') ∧ rem_input_tokens a = 98 ∧ cost a = 2.
Proof.
  destruct (add_one_req 1 AdderDemo.adder AdderDemo.state AdderDemo.req None) as [[[[r req'] a] c']|] eqn:E;
    [|exfalso; revert E; vm_compute; discriminate].
  assert (rtc (adder_step 1 (λ _, 0) BatchDemo.stream false None 20) (AdderDemo.adder, AdderDemo.state) (a, c')) as Hs.
  { eapply rtc_once, step_one. exact E. }
  exists a, c'. split; [exact Hs|].
  assert (rem_input_tokens a = 98) as Hr.
  { assert (match add_one_req 1 AdderDemo.adder AdderDemo.state AdderDemo.req None with
      | Ok (_, _, a, _) => rem_input_tokens a | Err _ => 0 end = 98) as X by (vm_compute; reflexivity).
    rewrite E in X. exact X. }
  destruct (prefill_budget_invariant 1 (λ _, 0) BatchDemo.stream false None 20 1 AdderDemo.state c' None 1 100 None 0 0 a
    eq_refl Hs) as (_ & _ & Hi & _).
  split; [exact Hr|]. rewrite Hr in Hi. lia.
Defined.

Module PreemptDemo.
#[local] Instance host : AdderHost (chunk_cache Base.t) := chunk_adder_host None.
#[local] Instance laws : RetractLaws (chunk_cache Base.t) None := chunk_retract_laws None (or_introl eq_refl).
Definition low : Req.t := Req.set_priority BatchDemo.a (Some 1).
Definition high : Req.t := Req.set_priority BatchDemo.z (Some 5).
Definition batch : Batch.t := Batch.set_reqs BatchDemo.batch [low; high].
Definition rows : list Row := [BatchDemo.row low 0 7; BatchDemo.row high 1 9].
Definition cache : chunk_cache Base.t :=
  mkChunk (ReqToTokenPool.mk 3 4 [[1; 2; 3; 0]; [4; 5; 6; 0]; [0; 0; 0; 0]] [2]) (Base.mk 14 1 false (py_range 7 15) [] true []) 1 0.
Definition req : Req.t :=
  Req.set_extend_input_len (Req_init "n" [30; 31] demo_params false None None [] (Some 100) (Some 9) None) 2.
Definition adder : PrefillAdder := PrefillAdder_init 4 1 cache (Some batch) 0 100 None 0 5.

Lemma preempt_batch_rows : represents false batch rows.
Proof. by constructor. Qed.
Lemma cache_inv : rt_inv cache (Batch.reqs batch).
Proof.
  split_and!; try done. repeat constructor.
  - exists 0, [1; 2; 3; 0]. done.
  - exists 1, [4; 5; 6; 0]. done.
Qed.
End PreemptDemo.
#[local] Existing Instances PreemptDemo.host PreemptDemo.laws.

Lemma preempt_releases_outranked_witness :
  (match preempt_to_schedule 4 (λ _, 0) BatchDemo.stream false None 20 PreemptDemo.adder PreemptDemo.cache PreemptDemo.req false with
   | Ok (ok, a, _) => (ok, Req.rid <$> preempt_list a) | Err _ => (false, []) end) = (true, ["a"]%string) ∧
  ∃ ok a' c', preempt_to_schedule 4 (λ _, 0) BatchDemo.stream false None 20 PreemptDemo.adder PreemptDemo.cache PreemptDemo.req false =
    Ok (ok, a', c').
Proof.
  split; [vm_compute; reflexivity|].
  destruct (@preempt_releases_outranked _ PreemptDemo.host PreemptDemo.laws 4 (λ _, 0) BatchDemo.stream false 20
    PreemptDemo.adder PreemptDemo.cache PreemptDemo.req false PreemptDemo.batch PreemptDemo.rows eq_refl PreemptDemo.preempt_batch_rows
    PreemptDemo.cache_inv eq_refl ltac:(discriminate) eq_refl ltac:(by_decide) ltac:(by_decide) ltac:(by_decide))
    as (ok & a' & c' & Heq & _).
  exists ok, a', c'. exact Heq.
Defined.

Lemma insert_index_end t i states : Forall (λ s : Q * Z, Qle_bool t (fst s) = false) states →
  insert_index t i states = pred (i + length states).
Proof.
  intros HF. revert i. induction HF as [|[u v] states E _ IH]; intros i; cbn in *; [by rewrite Nat.add_0_r|].
  rewrite E, IH. lia.
Qed.

(** Insertion into the sorted list misplaces the largest: a request that has
    more tokens left than all others goes before the last entry instead of after
    it (the loop variable ends at the last index when the loop is not broken
    off), so [req_states] is no longer ascending. *)
Theorem insert_sort_misplaces_largest a req states last s
    (Hs : req_state a req = Some s) (Hmax : Forall (λ x : Q * Z, (fst x < fst s)%Q) (states ++ [last])) :
  add_req_state a (states ++ [last]) req true = states ++ [s; last] ∧
  ¬ StronglySorted (λ x y : Q * Z, (fst x <= fst y)%Q) (states ++ [s; last]).
Proof.
  split.
  - unfold add_req_state. rewrite Hs, insert_index_end.
    + cbn [plus]. rewrite length_app. cbn [length]. rewrite Nat.add_1_r. cbn [pred]. unfold list_insert.
      by rewrite take_app_length, drop_app_length.
    + eapply Forall_impl; [exact Hmax|]. intros x Hx. apply not_true_iff_false. rewrite Qle_bool_iff. by apply Qlt_not_le.
  - intros HS. apply StronglySorted_app_1_r in HS. apply StronglySorted_inv in HS as [_ [Hle _]%Forall_cons].
    apply Forall_app in Hmax as [_ [Hlt _]%Forall_cons]. by apply (Qlt_not_le _ _ Hlt).
Qed.

Lemma insert_sort_misplaces_largest_witness :
  let req := Req.set_output_ids PreemptDemo.req [] in
  let a := PrefillAdder_init 4 1 PreemptDemo.cache None 1 100 None 0 5 in
  add_req_state a [(1%Q, 5); (2%Q, 6)] req true = [(1%Q, 5); (4%Q, 2); (2%Q, 6)].
Proof.
  cbv zeta. apply (insert_sort_misplaces_largest _ _ [(1%Q, 5)] (2%Q, 6) (4%Q, 2)); [vm_compute; reflexivity|].
  repeat constructor.
Defined.
