(* ===== verification/RWLock.v ===== *)
(** * The reader-writer lock ([utils/aio_rwlock.py])

    Tasks of one event loop share the lock.  The internal [asyncio.Lock] is only
    given up in [Condition.wait], so the code between two waits is one step:
    each step of the relation below is such a stretch of one task.  A task in
    [wait] is either still blocked or has been notified and is about to test its
    condition again.  A task may also be cancelled while it waits, which in
    [Condition.wait] before Python 3.13 does not pass a notification on. *)

From S2P Require Import Prelude.

Record RWLock := mkRW { _readers : Z; _writer_active : bool; _waiting_writers : Z }.
Definition RWLock_init : RWLock := mkRW 0 false 0.

(** The tests of the two [while] loops, with what follows when they end. *)
Definition try_reader (s : RWLock) : option RWLock :=
  if _writer_active s || (0 <? _waiting_writers s) then None
  else Some (mkRW (_readers s + 1) (_writer_active s) (_waiting_writers s)).
Definition try_writer (s : RWLock) : option RWLock :=
  if _writer_active s || (0 <? _readers s) then None
  else Some (mkRW (_readers s) true (_waiting_writers s - 1)).
Definition announce_writer (s : RWLock) : RWLock := mkRW (_readers s) (_writer_active s) (_waiting_writers s + 1).

(** The new state and whether all waiters are notified. *)
Definition release_reader (s : RWLock) : RWLock * bool :=
  let s := mkRW (_readers s - 1) (_writer_active s) (_waiting_writers s) in (s, _readers s =? 0).
Definition release_writer (s : RWLock) : RWLock * bool :=
  (mkRW (_readers s) false (_waiting_writers s), true).
(** The [finally] of [acquire_writer] when the task is cancelled. *)
Definition cancel_writer (s : RWLock) : RWLock := mkRW (_readers s) (_writer_active s) (_waiting_writers s - 1).

(** ** Tasks *)
Inductive phase := Outside | ReaderBlocked | ReaderNotified | Reading | WriterBlocked | WriterNotified | Writing.
#[global] Instance phase_eq_dec : EqDecision phase.
Proof. solve_decision. Defined.

Definition notify (p : phase) : phase :=
  match p with ReaderBlocked => ReaderNotified | WriterBlocked => WriterNotified | p => p end.
Definition notify_if (b : bool) (ts : list phase) : list phase := if b then notify <$> ts else ts.

Definition system : Type := RWLock * list phase.

(** The outcome of a test: in the lock, or (again) blocked. *)
Definition enter (s : RWLock) (o : option RWLock) (inside blocked : phase) : RWLock * phase :=
  match o with Some s' => (s', inside) | None => (s, blocked) end.

(** [cancellable] says whether waiting tasks may be cancelled. *)
Inductive step (cancellable : bool) : system → system → Prop :=
  | acquire_reader s ts i p s' p' : ts !! i = Some p → p = Outside ∨ p = ReaderNotified →
      enter s (try_reader s) Reading ReaderBlocked = (s', p') → step cancellable (s, ts) (s', <[i := p']> ts)
  | acquire_writer s ts i s' p' : ts !! i = Some Outside →
      enter (announce_writer s) (try_writer (announce_writer s)) Writing WriterBlocked = (s', p') →
      step cancellable (s, ts) (s', <[i := p']> ts)
  | retry_writer s ts i s' p' : ts !! i = Some WriterNotified →
      enter s (try_writer s) Writing WriterBlocked = (s', p') → step cancellable (s, ts) (s', <[i := p']> ts)
  | leave_reader s ts i s' b : ts !! i = Some Reading → release_reader s = (s', b) →
      step cancellable (s, ts) (s', notify_if b (<[i := Outside]> ts))
  | leave_writer s ts i s' b : ts !! i = Some Writing → release_writer s = (s', b) →
      step cancellable (s, ts) (s', notify_if b (<[i := Outside]> ts))
  | cancel_waiting_reader s ts i p : cancellable = true → ts !! i = Some p → p = ReaderBlocked ∨ p = ReaderNotified →
      step cancellable (s, ts) (s, <[i := Outside]> ts)
  | cancel_waiting_writer s ts i p : cancellable = true → ts !! i = Some p → p = WriterBlocked ∨ p = WriterNotified →
      step cancellable (s, ts) (cancel_writer s, <[i := Outside]> ts).

Definition start (n : nat) : system := (RWLock_init, replicate n Outside).
Definition reachable (cancellable : bool) (n : nat) (x : system) : Prop := rtc (step cancellable) (start n) x.

(** ** Counting tasks *)
Definition is_reading (p : phase) : bool := match p with Reading => true | _ => false end.
Definition is_writing (p : phase) : bool := match p with Writing => true | _ => false end.
Definition waits_to_write (p : phase) : bool := match p with WriterBlocked | WriterNotified => true | _ => false end.
Definition waits (p : phase) : bool :=
  match p with ReaderBlocked | ReaderNotified | WriterBlocked | WriterNotified => true | _ => false end.

Definition bit (b : bool) : Z := if b then 1 else 0.
Definition count (P : phase → bool) (ts : list phase) : Z := sum_Z ((λ p, bit (P p)) <$> ts).
Arguments count : simpl never.

Lemma count_cons P t ts : count P (t :: ts) = bit (P t) + count P ts.
Proof. unfold count. rewrite fmap_cons. apply sum_Z_cons. Qed.
Lemma count_nonneg P ts : 0 ≤ count P ts.
Proof. apply sum_Z_nonneg, Forall_fmap, Forall_forall. intros p _. cbn. destruct (P p); cbn; lia. Qed.
Lemma count_insert P ts i p q : ts !! i = Some p → count P (<[i := q]> ts) = count P ts - bit (P p) + bit (P q).
Proof.
  revert i. induction ts as [|t ts IH]; intros [|i] Hi; try done.
  - injection Hi as ->. change (<[0%nat := q]> (p :: ts)) with (q :: ts). rewrite !count_cons. lia.
  - change (<[S i := q]> (t :: ts)) with (t :: <[i := q]> ts). rewrite !count_cons, (IH i Hi). lia.
Qed.
Lemma count_notify P ts : (∀ p, P (notify p) = P p) → count P (notify <$> ts) = count P ts.
Proof. intros HP. induction ts as [|t ts IH]; [done|]. rewrite fmap_cons, !count_cons, IH, HP. done. Qed.
Lemma count_notify_if P b ts : (∀ p, P (notify p) = P p) → count P (notify_if b ts) = count P ts.
Proof. intros HP. destruct b; [by apply count_notify|done]. Qed.
Lemma count_pos P ts p : p ∈ ts → P p = true → 0 < count P ts.
Proof.
  intros Hp HP. induction ts as [|t ts IH]; [by apply not_elem_of_nil in Hp|].
  rewrite count_cons. pose proof (count_nonneg P ts). apply elem_of_cons in Hp as [<-|Hp].
  - rewrite HP. cbn. lia.
  - specialize (IH Hp). destruct (P t); cbn; lia.
Qed.
Lemma count_pos_inv P ts : 0 < count P ts → ∃ i p, ts !! i = Some p ∧ P p = true.
Proof.
  induction ts as [|t ts IH]; [done|]. rewrite count_cons. intros Hc. destruct (P t) eqn:E.
  - by exists 0%nat, t.
  - destruct (IH Hc) as (i & p & ? & ?). by exists (S i), p.
Qed.
Lemma count_replicate P p n : P p = false → count P (replicate n p) = 0.
Proof. intros HP. induction n as [|n IH]; [done|]. cbn [replicate]. by rewrite count_cons, IH, HP. Qed.

(** ** Invariants *)

(** The counters count the tasks in each phase, and a writer is alone. *)
Record rw_inv (x : system) : Prop := {
  inv_readers : _readers x.1 = count is_reading x.2;
  inv_writer : bit (_writer_active x.1) = count is_writing x.2;
  inv_waiting : _waiting_writers x.1 = count waits_to_write x.2;
  inv_exclusive : _writer_active x.1 = true → _readers x.1 = 0 }.

(** The three kinds of tests as case distinctions. *)
Lemma enter_reader s s' p' : enter s (try_reader s) Reading ReaderBlocked = (s', p') →
  (_writer_active s = false ∧ _waiting_writers s ≤ 0 ∧ p' = Reading ∧
     s' = mkRW (_readers s + 1) (_writer_active s) (_waiting_writers s)) ∨
  ((_writer_active s = true ∨ 0 < _waiting_writers s) ∧ p' = ReaderBlocked ∧ s' = s).
Proof.
  unfold try_reader. destruct (_writer_active s) eqn:Ew, (0 <? _waiting_writers s) eqn:Et; cbn; intros [= <- <-];
    rewrite ?Z.ltb_lt, ?Z.ltb_ge in Et; auto 10.
Qed.
Lemma enter_writer s s' p' : enter s (try_writer s) Writing WriterBlocked = (s', p') →
  (_writer_active s = false ∧ _readers s ≤ 0 ∧ p' = Writing ∧ s' = mkRW (_readers s) true (_waiting_writers s - 1)) ∨
  ((_writer_active s = true ∨ 0 < _readers s) ∧ p' = WriterBlocked ∧ s' = s).
Proof.
  unfold try_writer. destruct (_writer_active s) eqn:Ew, (0 <? _readers s) eqn:Et; cbn; intros [= <- <-];
    rewrite ?Z.ltb_lt, ?Z.ltb_ge in Et; auto 10.
Qed.

Ltac counts := rewrite ?count_notify_if, ?count_notify by (by intros []);
  repeat match goal with H : ?ts !! _ = Some _ |- _ => rewrite !(count_insert _ _ _ _ _ H) end.

Lemma rw_inv_step c x y : rw_inv x → step c x y → rw_inv y.
Proof.
  intros [Hr Hw Ht Hx] Hs. pose proof (count_nonneg is_reading x.2). pose proof (count_nonneg is_writing x.2).
  destruct Hs as [s ts i p s' p' Hi Hp He|s ts i s' p' Hi He|s ts i s' p' Hi He|s ts i s' b Hi He|s ts i s' b Hi He|s ts i p _ Hi Hp|s ts i p _ Hi Hp];
    cbn in *.
  - destruct Hp as [-> | ->]; apply enter_reader in He as [(Ew & _ & -> & ->)|(_ & -> & ->)];
      split; cbn; counts; cbn; try rewrite Ew in *; cbn in *; try lia; auto; try done.
  - apply enter_writer in He as [(Ew & Er & -> & ->)|(_ & -> & ->)]; split; cbn in *; counts; cbn;
      try rewrite Ew in *; cbn in *; try lia; auto.
  - apply enter_writer in He as [(Ew & Er & -> & ->)|(_ & -> & ->)]; split; cbn in *; counts; cbn;
      try rewrite Ew in *; cbn in *; try lia; auto.
  - injection He as <- <-. pose proof (count_pos is_reading ts Reading ltac:(by eapply list_elem_of_lookup_2) eq_refl).
    split; cbn; counts; cbn; try lia. intros Ew. specialize (Hx Ew). lia.
  - injection He as <- <-. pose proof (count_pos is_writing ts Writing ltac:(by eapply list_elem_of_lookup_2) eq_refl).
    split; cbn; counts; cbn; try lia; try done. destruct (_writer_active s); cbn in *; lia.
  - destruct Hp as [-> | ->]; split; cbn; counts; cbn; try lia; auto.
  - destruct Hp as [-> | ->]; split; cbn; counts; cbn; try lia; auto.
Qed.

Lemma rw_inv_reachable c n x : reachable c n x → rw_inv x.
Proof.
  unfold reachable. revert x. apply rtc_ind_r.
  - split; cbn; rewrite ?count_replicate; done.
  - intros y z _ Hs Hy. by eapply rw_inv_step.
Qed.

(** Without cancellation no task sleeps on a condition that has become true. *)
Record no_lost_wakeup (x : system) : Prop := {
  reader_has_reason : ReaderBlocked ∈ x.2 → _writer_active x.1 = true ∨ 0 < _waiting_writers x.1;
  writer_has_reason : WriterBlocked ∈ x.2 → _writer_active x.1 = true ∨ 0 < _readers x.1 }.

Lemma elem_of_insert_phase (ts : list phase) i q p : p ∈ <[i := q]> ts → p = q ∨ p ∈ ts.
Proof.
  intros [j Hj]%list_elem_of_lookup. apply list_lookup_insert_Some in Hj as [(_ & -> & _)|[_ Hj]]; [by left|].
  right. by eapply list_elem_of_lookup_2.
Qed.
Lemma notify_unblocks (ts : list phase) : ReaderBlocked ∉ notify <$> ts ∧ WriterBlocked ∉ notify <$> ts.
Proof. split; intros (p & Hp & _)%list_elem_of_fmap; by destruct p. Qed.

Lemma no_lost_wakeup_step x y : rw_inv x → no_lost_wakeup x → step false x y → no_lost_wakeup y.
Proof.
  intros [Hr Hw Ht Hx] [HR HW] Hs. pose proof (count_nonneg is_reading x.2). pose proof (count_nonneg waits_to_write x.2).
  destruct Hs as [s ts i p s' p' Hi Hp He|s ts i s' p' Hi He|s ts i s' p' Hi He|s ts i s' b Hi He|s ts i s' b Hi He|s ts i p E|s ts i p E];
    cbn in *; try discriminate E.
  - apply enter_reader in He as [(Ew & Et & -> & ->)|(Hb & -> & ->)]; split; cbn; intros [?|Hin]%elem_of_insert_phase; try done; auto.
    destruct (HW Hin) as [|]; [by left|right; lia].
  - apply enter_writer in He as [(Ew & Er & -> & ->)|(Hb & -> & ->)]; split; cbn; intros [?|Hin]%elem_of_insert_phase; try done; auto.
    right. lia.
  - apply enter_writer in He as [(Ew & Er & -> & ->)|(Hb & -> & ->)]; split; cbn; intros [?|Hin]%elem_of_insert_phase; try done; auto.
  - injection He as <- <-. destruct (_readers s - 1 =? 0) eqn:E.
    { destruct (notify_unblocks (<[i := Outside]> ts)). split; cbn; done. }
    pose proof (count_pos is_reading ts Reading ltac:(by eapply list_elem_of_lookup_2) eq_refl).
    split; cbn; intros [?|Hin]%elem_of_insert_phase; try done; auto. right. apply Z.eqb_neq in E. lia.
  - injection He as <- <-. destruct (notify_unblocks (<[i := Outside]> ts)). split; cbn; done.
Qed.

Lemma no_lost_wakeup_reachable n x : reachable false n x → no_lost_wakeup x.
Proof.
  intros Hr. enough (rw_inv x ∧ no_lost_wakeup x) by tauto. revert x Hr. unfold reachable.
  apply rtc_ind_r.
  - split; [by apply (rw_inv_reachable false n), rtc_refl|].
    split; cbn; intros [? _]%elem_of_replicate; done.
  - intros y z _ Hs [Hi Hy]. split; [by eapply rw_inv_step|by eapply no_lost_wakeup_step].
Qed.

(** ** Properties *)

(** C23. Mutual exclusion.  In every state that tasks can reach, with tasks
    cancelled while they wait or not, a writer inside the lock is the only task
    inside it: no second writer and no reader. *)
Theorem writer_excludes c n s ts i j p : reachable c n (s, ts) → ts !! i = Some Writing → ts !! j = Some p →
  i ≠ j → ¬ (p = Reading ∨ p = Writing).
Proof.
  intros [Hr Hw _ Hx]%rw_inv_reachable Hi Hj Hne Hp. cbn in *.
  assert (Hj' : <[i := Outside]> ts !! j = Some p) by (by rewrite list_lookup_insert_ne).
  pose proof (count_insert is_writing _ _ _ Outside Hi) as Cw. pose proof (count_nonneg is_writing (<[i := Outside]> ts)).
  assert (_writer_active s = true) as Ha by (destruct (_writer_active s); cbn in *; lia).
  rewrite Ha in *. specialize (Hx eq_refl). destruct Hp as [-> | ->].
  - pose proof (count_pos is_reading ts Reading ltac:(by eapply list_elem_of_lookup_2) eq_refl). lia.
  - pose proof (count_pos is_writing (<[i := Outside]> ts) Writing ltac:(by eapply list_elem_of_lookup_2) eq_refl).
    cbn in *. lia.
Qed.

(** No lost wake-up.  When tasks are not cancelled and the lock is free
    while some task waits for it, then a task that has been notified enters
    the lock at its next step: the system is never stuck with a free lock. *)
Theorem free_lock_is_taken n s ts : reachable false n (s, ts) → _writer_active s = false → _readers s = 0 →
  Exists (λ p, waits p = true) ts →
  ∃ i s' p', step false (s, ts) (s', <[i := p']> ts) ∧
    ((ts !! i = Some WriterNotified ∧ p' = Writing) ∨ (ts !! i = Some ReaderNotified ∧ p' = Reading)).
Proof.
  intros Hr Hw Hn Hex. pose proof (rw_inv_reachable _ _ _ Hr) as Hinv. pose proof (no_lost_wakeup_reachable _ _ Hr) as [HR HW].
  cbn in *. rewrite Hw in *. rewrite Hn in *.
  destruct (decide (0 < _waiting_writers s)) as [Hpos|Hno].
  - pose proof (inv_waiting _ Hinv) as Hq. cbn in Hq. rewrite Hq in Hpos. apply count_pos_inv in Hpos as (i & p & Hi & Hp).
    destruct p; try discriminate Hp.
    { exfalso. destruct HW as [|]; [by eapply list_elem_of_lookup_2|done|lia]. }
    exists i, (mkRW (_readers s) true (_waiting_writers s - 1)), Writing. split; [|by left].
    eapply retry_writer; [done|]. unfold try_writer. by rewrite Hw, Hn.
  - apply Exists_exists in Hex as (p & [i Hi]%list_elem_of_lookup & Hp).
    pose proof (inv_waiting _ Hinv) as Hq. cbn in Hq. destruct p; try discriminate Hp.
    + exfalso. destruct HR as [|]; [by eapply list_elem_of_lookup_2|done|lia].
    + exists i, (mkRW (_readers s + 1) (_writer_active s) (_waiting_writers s)), Reading. split; [|by right].
      eapply acquire_reader; [done|by right|]. unfold try_reader. rewrite Hw. by apply Z.ltb_nlt in Hno as ->.
    + pose proof (count_pos waits_to_write ts WriterBlocked ltac:(by eapply list_elem_of_lookup_2) eq_refl). lia.
    + pose proof (count_pos waits_to_write ts WriterNotified ltac:(by eapply list_elem_of_lookup_2) eq_refl). lia.
Qed.

(** A run: a writer holds the lock, a reader and a second writer queue, and
    (in the second lemma) the writer leaves. *)
Lemma queued c : reachable c 3 (mkRW 0 true 1, [Writing; ReaderBlocked; WriterBlocked]).
Proof.
  eapply rtc_l; [eapply (acquire_writer _ _ _ 0%nat); reflexivity|].
  eapply rtc_l; [eapply (acquire_reader _ _ _ 1%nat); [reflexivity|by left|reflexivity]|].
  eapply rtc_l; [eapply (acquire_writer _ _ _ 2%nat); reflexivity|]. apply rtc_refl.
Qed.
Lemma queue_notified c : reachable c 3 (mkRW 0 false 1, [Outside; ReaderNotified; WriterNotified]).
Proof. eapply rtc_r; [apply queued|]. by apply (leave_writer c (mkRW 0 true 1) [Writing; ReaderBlocked; WriterBlocked] 0 (mkRW 0 false 1) true). Qed.

(** With cancellation the same does not hold.  A writer leaves and notifies a
    waiting reader and a waiting writer; the reader wakes first, sees the waiting
    writer and blocks again; the waiting writer is cancelled, and the [finally] of
    [acquire_writer] takes it off the count without a notification.  The lock is
    free, no writer waits, every other task is outside, and the reader sleeps. *)
Theorem cancelled_writer_strands_reader :
  reachable true 3 (RWLock_init, [Outside; ReaderBlocked; Outside]).
Proof.
  unfold reachable. etrans; [apply queue_notified|].
  eapply rtc_l; [eapply (acquire_reader _ _ _ 1%nat); [reflexivity|by right|reflexivity]|].
  eapply rtc_l; [eapply (cancel_waiting_writer _ _ _ 2%nat); [done|reflexivity|by right]|]. apply rtc_refl.
Qed.

Lemma writer_excludes_witness : ¬ (ReaderBlocked = Reading ∨ ReaderBlocked = Writing).
Proof.
  apply (writer_excludes false 3 (mkRW 0 true 1) [Writing; ReaderBlocked; WriterBlocked] 0 1);
    [apply queued|reflexivity|reflexivity|done].
Defined.

Lemma free_lock_is_taken_witness :
  let ts := [Outside; ReaderNotified; WriterNotified] in
  ∃ i s' p', step false (mkRW 0 false 1, ts) (s', <[i := p']> ts) ∧
    ((ts !! i = Some WriterNotified ∧ p' = Writing) ∨ (ts !! i = Some ReaderNotified ∧ p' = Reading)).
Proof.
  apply (free_lock_is_taken 3); [apply queue_notified|reflexivity|reflexivity|].
  apply Exists_cons_tl, Exists_cons_hd. reflexivity.
Defined.
