(* ===== verification/InputControl.v ===== *)
(** * The gate for incoming requests

    [managers/scheduler_input_blocker.py], the barrier of [utils/poll_based_barrier.py]
    it uses and [managers/scheduler_recv_skipper.py].  Between a BLOCK and an UNBLOCK
    message requests are held back, and they are let go when all the processes
    that receive messages have seen the UNBLOCK.  The reduction over the
    processes, [torch.distributed.all_reduce] with [MIN], is a parameter of one
    process and is computed for a group of processes. *)

From S2P Require Import Prelude ScheduleBatch.

(** ** The barrier *)
Record PollBasedBarrier := mkBarrier { bar_noop : bool; _local_arrived : bool }.
Definition PollBasedBarrier_init (noop : bool) : PollBasedBarrier := mkBarrier noop false.

Definition local_arrive (b : PollBasedBarrier) : res PollBasedBarrier :=
  let! _ := py_assert (negb (_local_arrived b)) in
  Ok (mkBarrier (bar_noop b) true).

(** What a process contributes to the reduction. *)
Definition contribution (b : PollBasedBarrier) : bool := bar_noop b || _local_arrived b.
Definition _compute_global_arrived (all_reduce : bool → bool) (b : PollBasedBarrier) : bool :=
  all_reduce (contribution b).
Definition poll_global_arrived (all_reduce : bool → bool) (b : PollBasedBarrier) : bool * PollBasedBarrier :=
  let global_arrived := _compute_global_arrived all_reduce b in
  let output := _local_arrived b && global_arrived in
  (output, if output then mkBarrier (bar_noop b) false else b).

(** ** The blocker *)
Inductive BlockReqType := BLOCK | UNBLOCK.
Inductive _State := UNBLOCKED | BLOCKED | GLOBAL_UNBLOCK_BARRIER.
#[global] Instance _State_eq_dec : EqDecision _State.
Proof. solve_decision. Defined.

Section blocker.
Context {Req : Type}.

(** A message is a [BlockReqInput] or any other request. *)
Inductive message := BlockReqInput (type : BlockReqType) | OtherReq (r : Req).

Record InputBlocker := mkBlocker {
  _state : _State;
  _pending_reqs : list Req;
  _noop : bool;
  _global_unblock_barrier : PollBasedBarrier
}.
Definition InputBlocker_init (noop : bool) : InputBlocker :=
  mkBlocker UNBLOCKED [] noop (PollBasedBarrier_init noop).

Definition _change_state (s : InputBlocker) (original target : _State) : res InputBlocker :=
  let! _ := py_assert (bool_decide (_state s = original)) in
  Ok (mkBlocker target (_pending_reqs s) (_noop s) (_global_unblock_barrier s)).

Definition _execute_block_req (s : InputBlocker) : res InputBlocker := _change_state s UNBLOCKED BLOCKED.

Definition _execute_unblock_req (s : InputBlocker) : res InputBlocker :=
  let! s := _change_state s BLOCKED GLOBAL_UNBLOCK_BARRIER in
  let! b := local_arrive (_global_unblock_barrier s) in
  Ok (mkBlocker (_state s) (_pending_reqs s) (_noop s) b).

Definition _handle_arrive_unblock_barrier (s : InputBlocker) : res (list Req * InputBlocker) :=
  let! s := _change_state s GLOBAL_UNBLOCK_BARRIER UNBLOCKED in
  Ok (_pending_reqs s, mkBlocker (_state s) [] (_noop s) (_global_unblock_barrier s)).

Definition _handle_recv_req (s : InputBlocker) (recv_req : message) : res (list Req * InputBlocker) :=
  match recv_req with
  | BlockReqInput BLOCK => let! s := _execute_block_req s in Ok ([], s)
  | BlockReqInput UNBLOCK => let! s := _execute_unblock_req s in Ok ([], s)
  | OtherReq r =>
      if decide (_state s = UNBLOCKED) then Ok ([r], s)
      else Ok ([], mkBlocker (_state s) (_pending_reqs s ++ [r]) (_noop s) (_global_unblock_barrier s))
  end.

Fixpoint recv_loop (s : InputBlocker) (recv_reqs : list message) : res (list Req * InputBlocker) :=
  match recv_reqs with
  | [] => Ok ([], s)
  | m :: ms =>
      let! '(out, s) := _handle_recv_req s m in
      let! '(outs, s) := recv_loop s ms in
      Ok (out ++ outs, s)
  end.

(** [handle] up to the poll of the barrier: [None] stands for a variable that
    has no value. *)
Definition handle_messages (s : InputBlocker) (recv_reqs : option (list message)) :
    res (option (list Req) * InputBlocker) :=
  let! _ := py_assert (eqb (bool_decide (recv_reqs = None)) (_noop s)) in
  match recv_reqs with
  | Some ms => let! '(out, s) := recv_loop s ms in Ok (Some out, s)
  | None => Ok (None, s)
  end.

Definition handle (all_reduce : bool → bool) (s : InputBlocker) (recv_reqs : option (list message)) :
    res (option (list Req) * InputBlocker) :=
  let! '(output_reqs, s) := handle_messages s recv_reqs in
  let '(global_arrived_unblock_barrier, b) := poll_global_arrived all_reduce (_global_unblock_barrier s) in
  let s := mkBlocker (_state s) (_pending_reqs s) (_noop s) b in
  if bool_decide (_state s = GLOBAL_UNBLOCK_BARRIER) && global_arrived_unblock_barrier then
    let! output_reqs := of_opt UnboundLocalError output_reqs in
    let! '(out, s) := _handle_arrive_unblock_barrier s in
    Ok (Some (output_reqs ++ out), s)
  else Ok (output_reqs, s).

(** One process over a sequence of calls, each with its messages and the answer
    of the reduction. *)
Fixpoint handle_all (s : InputBlocker) (calls : list (list message * (bool → bool))) : res (list Req * InputBlocker) :=
  match calls with
  | [] => Ok ([], s)
  | (ms, all_reduce) :: calls =>
      let! '(out, s) := handle all_reduce s (Some ms) in
      let! '(outs, s) := handle_all s calls in
      Ok (default [] out ++ outs, s)
  end.

(** A group of processes makes one call each: the reduction is the conjunction
    of what they contribute when they reach it. *)
Definition group_handle (group : list (InputBlocker * option (list message))) :
    res (list (option (list Req) * InputBlocker)) :=
  let! before := mapM_res (λ '(s, ms), handle_messages s ms) group in
  let all_arrived := forallb (λ r, contribution (_global_unblock_barrier r.2)) before in
  mapM_res (λ '(s, ms), handle (λ _, all_arrived) s ms) group.

Definition group_step (ss ss' : list InputBlocker) : Prop :=
  ∃ mss outs, length mss = length ss ∧ group_handle (zip ss mss) = Ok outs ∧ ss' = outs.*2.

(** ** The invariant of a process *)
Record gate_ok (s : InputBlocker) : Prop := {
  gate_bar_noop : bar_noop (_global_unblock_barrier s) = _noop s;
  gate_arrived : _local_arrived (_global_unblock_barrier s) = bool_decide (_state s = GLOBAL_UNBLOCK_BARRIER);
  gate_noop : _noop s = true → _state s = UNBLOCKED;
  gate_open : _state s = UNBLOCKED → _pending_reqs s = [] }.

Definition reqs_of (ms : list message) : list Req :=
  ms ≫= λ m, match m with OtherReq r => [r] | BlockReqInput _ => [] end.

Lemma gate_ok_init noop : gate_ok (InputBlocker_init noop).
Proof. by split. Qed.

(** Handling a message keeps the order: what is let go comes before what is
    held back. *)
Lemma handle_recv_req_spec s m out s' : gate_ok s → _noop s = false → _handle_recv_req s m = Ok (out, s') →
  gate_ok s' ∧ _noop s' = false ∧ out ++ _pending_reqs s' = _pending_reqs s ++ reqs_of [m].
Proof.
  intros [Hb Ha Hn Ho] Hno. destruct s as [st pend no [bn la]]. cbn in *. subst bn no la.
  destruct m as [[]|r], st; cbn; intros [= <- <-]; try rewrite (Ho eq_refl); repeat split; cbn; rewrite ?app_nil_r; auto; try done.
Qed.

Lemma recv_loop_spec ms : ∀ s out s', gate_ok s → _noop s = false → recv_loop s ms = Ok (out, s') →
  gate_ok s' ∧ _noop s' = false ∧ out ++ _pending_reqs s' = _pending_reqs s ++ reqs_of ms.
Proof.
  induction ms as [|m ms IH]; intros s out s' Hs Hn; cbn [recv_loop].
  - intros [= <- <-]. by rewrite app_nil_r.
  - destruct (_handle_recv_req s m) as [[o1 s1]|] eqn:E1; [|done]. cbn.
    destruct (recv_loop s1 ms) as [[o2 s2]|] eqn:E2; [|done]. cbn. intros [= <- <-].
    apply handle_recv_req_spec in E1 as (Hs1 & Hn1 & Eq1); [|done..].
    apply IH in E2 as (Hs2 & Hn2 & Eq2); [|done..]. split_and!; [done..|].
    rewrite <-app_assoc, Eq2, app_assoc, Eq1. unfold reqs_of. cbn. by rewrite app_nil_r, <-app_assoc.
Qed.

Lemma handle_messages_spec s ms out s' : gate_ok s → handle_messages s ms = Ok (out, s') →
  gate_ok s' ∧ _noop s' = _noop s ∧ (_noop s = true → out = None ∧ s' = s) ∧
  default [] out ++ _pending_reqs s' = _pending_reqs s ++ reqs_of (default [] ms) ∧ (_noop s = false → is_Some out).
Proof.
  intros Hs. unfold handle_messages. destruct ms as [ms|]; destruct (_noop s) eqn:Hn; cbn; try done.
  - destruct (recv_loop s ms) as [[o s1]|] eqn:E; [|done]. intros [= <- <-].
    apply recv_loop_spec in E as (? & ? & ?); [|done..]. by split_and!.
  - intros [= <- <-]. by rewrite app_nil_r.
Qed.

(** The poll opens the gate exactly when the process waits at the barrier and
    the reduction says that all have arrived. *)
Lemma handle_spec all_reduce s ms out s' : gate_ok s → handle all_reduce s ms = Ok (out, s') →
  ∃ out0 s0, handle_messages s ms = Ok (out0, s0) ∧ gate_ok s0 ∧ gate_ok s' ∧ _noop s' = _noop s ∧
    default [] out ++ _pending_reqs s' = _pending_reqs s ++ reqs_of (default [] ms) ∧
    _state s' = (if bool_decide (_state s0 = GLOBAL_UNBLOCK_BARRIER) && all_reduce true then UNBLOCKED else _state s0).
Proof.
  intros Hs. unfold handle. destruct (handle_messages s ms) as [[o0 s0]|] eqn:E; [|done]. cbn.
  pose proof (handle_messages_spec _ _ _ _ Hs E) as (H0 & Hn0 & Hnoop & Heq & Hsome). intros Hh.
  exists o0, s0. split; [done|]. split; [done|]. destruct H0 as [Hb Ha Hn Ho].
  destruct s0 as [st pend no [bn la]]. cbn in *. subst bn la. unfold poll_global_arrived, _compute_global_arrived, contribution in Hh. cbn in Hh.
  destruct (bool_decide (st = GLOBAL_UNBLOCK_BARRIER)) eqn:Est; cbn in Hh.
  - apply bool_decide_eq_true in Est as ->. destruct no; [by specialize (Hn eq_refl)|]. cbn in Hh.
    destruct (all_reduce true); cbn in Hh; [|injection Hh as <- <-; by split_and!].
    destruct (Hsome (eq_sym Hn0)) as [x ->]. cbn in Hh. injection Hh as <- <-. cbn in *. split_and!; try done.
    by rewrite app_nil_r.
  - injection Hh as <- <-. split_and!; try done.
Qed.

(** Each member of a group handles its own messages with the common answer. *)
Lemma group_handle_lookup group outs : group_handle group = Ok outs →
  ∃ before, mapM_res (λ '(s, ms), handle_messages s ms) group = Ok before ∧
    let all_arrived := forallb (λ r, contribution (_global_unblock_barrier r.2)) before in
    Forall2 (λ x y, handle (λ _, all_arrived) x.1 x.2 = Ok y) group outs.
Proof.
  unfold group_handle. destruct (mapM_res _ group) as [before|]; [|done]. cbn. intros Ho%mapM_res_inv.
  exists before. split; [done|]. eapply Forall2_impl; [exact Ho|]. by intros [] ?.
Qed.

Lemma group_step_ok ss ss' : Forall gate_ok ss → group_step ss ss' → Forall gate_ok ss'.
Proof.
  intros Hok (mss & outs & Hl & (before & _ & Hf)%group_handle_lookup & ->). cbn in Hf.
  apply Forall_fmap, Forall_forall. intros [o t] [j Hj]%list_elem_of_lookup.
  eapply Forall2_lookup_r in Hf as ([s ms] & Hz & Hh); [|exact Hj]. apply lookup_zip_Some in Hz as [Hs _].
  eapply Forall_lookup_1 in Hok; [|exact Hs]. by apply handle_spec in Hh as (? & ? & _ & _ & ? & _).
Qed.

Lemma group_reachable_ok noops ss : rtc group_step (InputBlocker_init <$> noops) ss → Forall gate_ok ss.
Proof.
  revert ss. apply rtc_ind_r.
  - apply Forall_fmap, Forall_forall. intros b _. apply gate_ok_init.
  - intros x y _ Hs IH. by eapply group_step_ok.
Qed.

(** A process that contributes to the reduction and has messages handled is
    open after a successful reduction. *)
Lemma arrived_opens s ms o0 s0 out s' : gate_ok s → handle_messages s ms = Ok (o0, s0) →
  contribution (_global_unblock_barrier s0) = true → handle (λ _, true) s ms = Ok (out, s') →
  _state s' = UNBLOCKED.
Proof.
  intros Hs H0 Hc (o1 & s1 & H1 & Hok & Hok' & Hno & _ & Hst)%handle_spec; [|done].
  rewrite H0 in H1. injection H1 as <- <-.
  unfold contribution in Hc. rewrite (gate_bar_noop _ Hok), (gate_arrived _ Hok) in Hc. rewrite andb_true_r in Hst.
  case_bool_decide; [done|]. rewrite orb_false_r in Hc.
  apply handle_messages_spec in H0 as (_ & Hn0 & _); [|done]. apply (gate_noop _ Hok'). congruence.
Qed.

(** ** Properties *)

(** C20. The gate keeps requests and their order.  Over any sequence of calls
    of one process, with whatever the reductions answer, what was let through
    followed by what is held back is all the requests received, in order; and
    while the gate is open nothing is held back. *)
Theorem requests_in_order calls outs s : handle_all (InputBlocker_init false) calls = Ok (outs, s) →
  outs ++ _pending_reqs s = reqs_of (calls ≫= fst) ∧
  (_state s = UNBLOCKED → outs = reqs_of (calls ≫= fst)).
Proof.
  assert (∀ s0, gate_ok s0 → _noop s0 = false → handle_all s0 calls = Ok (outs, s) →
    gate_ok s ∧ outs ++ _pending_reqs s = _pending_reqs s0 ++ reqs_of (calls ≫= fst)) as Hgen.
  { revert outs. induction calls as [|[ms ar] calls IH]; intros outs s0 Hok Hn; cbn [handle_all].
    - intros [= <- <-]. by rewrite app_nil_r.
    - destruct (handle ar s0 (Some ms)) as [[o1 s1]|] eqn:E; [|done]. cbn.
      destruct (handle_all s1 calls) as [[o2 s2]|] eqn:E2; [|done]. cbn. intros [= <- <-].
      apply handle_spec in E as (_ & _ & _ & _ & Hok1 & Hn1 & Heq & _); [|done].
      destruct (IH o2 s1 Hok1 ltac:(congruence) E2) as [? Heq2]. split; [done|].
      rewrite <-app_assoc, Heq2, app_assoc, Heq. unfold reqs_of. cbn. by rewrite bind_app, app_assoc. }
  intros [Hok Heq]%Hgen; [|apply gate_ok_init|done]. split; [done|].
  intros Hst. rewrite (gate_open _ Hok Hst), app_nil_r in Heq. done.
Qed.

(** The gate opens everywhere at once.  In every group of processes that
    started together, when one process that held requests back lets them go in
    a round, all the processes of the group are open and hold nothing back at
    the end of that round. *)
Theorem gate_opens_together noops ss mss outs i s ms o0 s0 out s' :
  rtc group_step (InputBlocker_init <$> noops) ss → group_handle (zip ss mss) = Ok outs →
  ss !! i = Some s → mss !! i = Some ms → handle_messages s ms = Ok (o0, s0) → _state s0 ≠ UNBLOCKED →
  outs !! i = Some (out, s') → _state s' = UNBLOCKED →
  Forall (λ t, _state t = UNBLOCKED ∧ _pending_reqs t = []) outs.*2.
Proof.
  intros Hok%group_reachable_ok (before & Hb & Hf)%group_handle_lookup Hs Hms H0 Hne Ho Hst.
  set (arr := forallb _ before) in Hf. cbn in Hf.
  assert (arr = true) as Harr.
  { eapply Forall2_lookup_r in Hf as ([? ?] & Hz & Hh); [|exact Ho]. apply lookup_zip_Some in Hz as [? ?]. simplify_eq/=.
    eapply Forall_lookup_1 in Hok; [|exact Hs]. apply handle_spec in Hh as (? & ? & H1 & _ & _ & _ & _ & He); [|done].
    rewrite H0 in H1. injection H1 as <- <-. destruct arr; [done|]. rewrite andb_false_r in He. congruence. }
  rewrite Harr in Hf. apply Forall_fmap, Forall_forall. intros [o t] [j Hj]%list_elem_of_lookup. cbn.
  eapply Forall2_lookup_r in Hf as ([sj mj] & Hz & Hh); [|exact Hj].
  apply mapM_res_inv in Hb. eapply Forall2_lookup_l in Hb as ([oj tj] & Hbj & Hmj); [|exact Hz].
  apply lookup_zip_Some in Hz as [Hsj _]. eapply Forall_lookup_1 in Hok; [|exact Hsj]. cbn in *.
  apply Is_true_true_2, forallb_True in Harr. eapply Forall_lookup_1 in Harr; [|exact Hbj].
  pose proof (arrived_opens _ _ _ _ _ _ Hok Hmj ltac:(by apply Is_true_true) Hh) as Hopen. split; [done|].
  apply handle_spec in Hh as (_ & _ & _ & _ & Hok' & _); [|done]. by apply (gate_open _ Hok').
Qed.
End blocker.
Arguments message : clear implicits.
Arguments InputBlocker : clear implicits.

(** Two receiving processes and one that does not receive; the first two have
    seen BLOCK, the first has passed its UNBLOCK and holds a request. *)
Definition demo_gates : list (InputBlocker nat) :=
  [mkBlocker GLOBAL_UNBLOCK_BARRIER [7%nat] false (mkBarrier false true);
   mkBlocker BLOCKED [] false (mkBarrier false false); InputBlocker_init true].

Lemma demo_gates_reachable : rtc group_step (InputBlocker_init <$> [false; false; true]) demo_gates.
Proof.
  eapply rtc_l; [|apply rtc_refl].
  exists [Some [BlockReqInput BLOCK; OtherReq 7%nat; BlockReqInput UNBLOCK]; Some [BlockReqInput BLOCK]; None].
  eexists. split; [reflexivity|]. split; [vm_compute; reflexivity|]. reflexivity.
Qed.

Lemma requests_in_order_witness :
  let calls := [([OtherReq 1%nat; BlockReqInput BLOCK; OtherReq 2%nat], id); ([BlockReqInput UNBLOCK; OtherReq 3%nat], λ _, true)] in
  ∃ s, handle_all (InputBlocker_init false) calls = Ok ([1; 2; 3]%nat, s) ∧
    [1; 2; 3]%nat ++ _pending_reqs s = reqs_of (calls ≫= fst).
Proof.
  intros calls. eexists. split; [reflexivity|].
  apply (requests_in_order calls). reflexivity.
Defined.

Lemma gate_opens_together_witness :
  let mss := [Some []; Some [OtherReq 9%nat; BlockReqInput UNBLOCK]; None] in
  ∃ outs, group_handle (zip demo_gates mss) = Ok outs ∧ (default [] ∘ fst <$> outs) = [[7]; [9]; []]%nat ∧
    Forall (λ t, _state t = UNBLOCKED ∧ _pending_reqs t = []) outs.*2.
Proof.
  intros mss. eexists. split; [vm_compute; reflexivity|]. split; [reflexivity|].
  eapply (gate_opens_together [false; false; true] demo_gates mss _ 0); try reflexivity.
  - apply demo_gates_reachable.
  - done.
Defined.

(** ** Skipping receives

    The code's table gives the forward modes of a decode step and [None] the
    weight 1, every other mode the default. *)
Record RecvSkipper := mkSkipper { _counter : Z; _threshold : Z }.
Definition _DEFAULT_WEIGHT : Z := 1000.
Definition _WEIGHT_OF_FORWARD_MODE (m : option ForwardMode) : option Z :=
  match m with Some DECODE | Some TARGET_VERIFY | None => Some 1 | _ => None end.

Definition RecvSkipper_init (scheduler_recv_interval : Z) (enable_dp_attention : bool) : res RecvSkipper :=
  let! _ := py_assert (negb enable_dp_attention) in Ok (mkSkipper 0 scheduler_recv_interval).
Definition maybe_create (scheduler_recv_interval : Z) (enable_dp_attention : bool) : res (option RecvSkipper) :=
  if scheduler_recv_interval <=? 1 then Ok None
  else let! s := RecvSkipper_init scheduler_recv_interval enable_dp_attention in Ok (Some s).

Definition skipper_handle (s : RecvSkipper) (last_forward_mode : option ForwardMode) : bool * RecvSkipper :=
  let last_weight := default _DEFAULT_WEIGHT (_WEIGHT_OF_FORWARD_MODE last_forward_mode) in
  let s := mkSkipper (_counter s + last_weight) (_threshold s) in
  if _threshold s <=? _counter s then (true, mkSkipper 0 (_threshold s)) else (false, s).

Fixpoint skipper_run (s : RecvSkipper) (modes : list (option ForwardMode)) : list bool * RecvSkipper :=
  match modes with
  | [] => ([], s)
  | m :: ms => let '(b, s) := skipper_handle s m in let '(bs, s) := skipper_run s ms in (b :: bs, s)
  end.

Lemma weight_pos m : 1 ≤ default _DEFAULT_WEIGHT (_WEIGHT_OF_FORWARD_MODE m).
Proof. by destruct m as [[]|]. Qed.

(** The counter never reaches the interval after a call. *)
Lemma skipper_bounds s m b s' : 0 ≤ _counter s → skipper_handle s m = (b, s') → 1 < _threshold s →
  0 ≤ _counter s' < _threshold s' ∧ _threshold s' = _threshold s ∧ (b = false → _counter s < _counter s').
Proof.
  intros Hc. pose proof (weight_pos m). unfold skipper_handle. cbn [_threshold _counter].
  destruct (_ <=? _) eqn:E; intros [= <- <-] Ht; cbn; [split_and!; lia || done|]. apply Z.leb_gt in E. lia.
Qed.

Lemma skipper_run_bounds modes : ∀ s, 0 ≤ _counter s < _threshold s → 1 < _threshold s →
  let s' := (skipper_run s modes).2 in 0 ≤ _counter s' < _threshold s' ∧ _threshold s' = _threshold s.
Proof.
  induction modes as [|m ms IH]; intros s Hc Ht; [done|]. cbn.
  destruct (skipper_handle s m) as [b s1] eqn:E. apply skipper_bounds in E as (Hc1 & Ht1 & _); [|lia..].
  specialize (IH s1 Hc1 ltac:(lia)). destruct (skipper_run s1 ms) as [bs s2]. cbn in *. lia.
Qed.

(** While no call receives, the counter grows with every call. *)
Lemma skipper_silent modes : ∀ s, 0 ≤ _counter s < _threshold s → 1 < _threshold s →
  true ∉ (skipper_run s modes).1 → _counter s + len modes < _threshold s.
Proof.
  induction modes as [|m ms IH]; intros s Hc Ht; [rewrite len_nil; lia|]. cbn.
  destruct (skipper_handle s m) as [b s1] eqn:E. apply skipper_bounds in E as (Hc1 & Ht1 & Hb); [|lia..].
  specialize (IH s1 Hc1 ltac:(lia)). destruct (skipper_run s1 ms) as [bs s2]. cbn in *.
  rewrite not_elem_of_cons, len_cons. intros [Hne Hin]. destruct b; [done|]. specialize (Hb eq_refl). specialize (IH Hin). lia.
Qed.

(** The scheduler is never deaf for longer than its interval: of any
    [scheduler_recv_interval] calls in a row, whatever ran before them and
    whatever the batches were, at least one lets the scheduler receive. *)
Theorem receives_within_interval interval dp s0 before modes :
  maybe_create interval dp = Ok (Some s0) → interval ≤ len modes →
  let s := (skipper_run s0 before).2 in true ∈ (skipper_run s modes).1.
Proof.
  unfold maybe_create, RecvSkipper_init. destruct (interval <=? 1) eqn:Ei; [done|]. apply Z.leb_gt in Ei.
  destruct dp; [done|]. cbn. intros [= <-] Hl.
  pose proof (skipper_run_bounds before (mkSkipper 0 interval) ltac:(cbn; lia) Ei) as [Hc Ht]. cbn in *.
  destruct (decide (true ∈ (skipper_run (skipper_run (mkSkipper 0 interval) before).2 modes).1)) as [|Hn]; [done|].
  apply skipper_silent in Hn; [|lia..]. lia.
Qed.

Lemma receives_within_interval_witness :
  true ∈ (skipper_run (skipper_run (mkSkipper 0 3) [Some DECODE; Some DECODE]).2 [Some DECODE; None; Some DECODE]).1.
Proof. apply (receives_within_interval 3 false (mkSkipper 0 3) [Some DECODE; Some DECODE]); [reflexivity|vm_compute; discriminate]. Defined.
