(* ===== verification/Session.v ===== *)
(** * Sessions ([managers/session_controller.py])

    The requests of a session form a tree: a request continues an earlier one, or
    replaces everything that continued it.  Nodes are shared objects with parent
    and child references, so they live in a heap; [req_nodes] maps the ids of the
    requests that are still known to their nodes.  The requests are the
    objects of [Request.v]. *)

From S2P Require Import Prelude Request.

Record SessionReqNode := mkNode { node_req : Req.t; parent : option nat; childs : list nat }.
Abbreviation heap := (gmap nat SessionReqNode).
Abbreviation req_dict := (list (string * nat)).

Definition get_node (h : heap) (i : nat) : res SessionReqNode := of_opt AttributeError (h !! i).

(** [if req.finished_reason is None: req.to_finish = FINISH_ABORT()]. *)
Definition abort_req (r : Req.t) : Req.t :=
  match Req.finished_reason r with
  | None => Req.set_to_finish r (Some (finish_abort None None None))
  | Some _ => r
  end.
Definition abort_node (n : SessionReqNode) : SessionReqNode := mkNode (abort_req (node_req n)) (parent n) (childs n).
Definition abort (h : heap) (i : nat) : res heap :=
  let! n := get_node h i in Ok (<[i := abort_node n]> h).

(** [SessionReqNode.__init__]: the new node is number [i]. *)
Definition SessionReqNode_init (h : heap) (i : nat) (req : Req.t) (parent_ : option nat) : res heap :=
  let! h := match parent_ with
            | Some p => let! n := get_node h p in Ok (<[p := mkNode (node_req n) (parent n) (childs n ++ [i])]> h)
            | None => Ok h
            end in
  Ok (<[i := mkNode req parent_ []]> h).

(** [del req_dict[rid]]. *)
Definition del_key (d : req_dict) (rid : string) : res req_dict :=
  match dict_get rid d with Some _ => Ok (dict_del rid d) | None => Err KeyError end.

(** [for req_node in nodes: req_node.clear(req_dict)]. *)
Fixpoint for_clear (clear : heap * req_dict → nat → res (heap * req_dict)) (st : heap * req_dict) (nodes : list nat) :
    res (heap * req_dict) :=
  match nodes with
  | [] => Ok st
  | c :: cs => let! st := clear st c in for_clear clear st cs
  end.

Fixpoint clear (fuel : nat) (st : heap * req_dict) (i : nat) : res (heap * req_dict) :=
  match fuel with
  | O => Err OutOfFuel
  | S fuel =>
      let! n := get_node st.1 i in
      let! '(h, d) := for_clear (clear fuel) st (childs n) in
      let! h := abort h i in
      let! d := del_key d (Req.rid (node_req n)) in
      Ok (h, d)
  end.

Definition clear_childs (fuel : nat) (st : heap * req_dict) (i : nat) : res (heap * req_dict) :=
  let! n := get_node st.1 i in
  let! '(h, d) := for_clear (clear fuel) st (childs n) in
  let! n := get_node h i in
  Ok (<[i := mkNode (node_req n) (parent n) []]> h, d).

(** ** The session *)
Record Session := mkSession {
  session_id : string;
  capacity_of_str_len : Z;
  req_nodes : req_dict;
  nodes : heap;
  next_node : nat
}.
Definition Session_init (capacity_of_str_len : Z) (session_id : string) : Session :=
  mkSession session_id capacity_of_str_len [] ∅ 0.

Record SessionParams := mkParams {
  sp_rid : option string;
  sp_offset : option Z;
  sp_replace : option bool;
  sp_drop_previous_output : option bool
}.
Record TokenizedGenerateReqInput := mkInput {
  in_rid : string;
  in_input_ids : list Z;
  in_sampling_params : SamplingParams;
  in_lora_id : option string;
  in_return_logprob : bool;
  in_session_params : option SessionParams
}.
(** What the session reads of a tokenizer. *)
Record SessionTokenizer := mkTok { tok : Tokenizer; bos_token_id : Z; tok_vocab_size : Z }.

(** [for _, req_node in self.req_nodes.items(): req_node.clear(self.req_nodes)]:
    the iterator raises [RuntimeError] when the size of the dictionary is no
    longer the one it started with. *)
Fixpoint clear_all_loop (fuel : nat) (size : nat) (items : req_dict) (st : heap * req_dict) : res (heap * req_dict) :=
  let! _ := guard_raise (negb (bool_decide (length st.2 = size))) RuntimeError in
  match items with
  | [] => Ok st
  | (_, i) :: items => let! st := clear fuel st i in clear_all_loop fuel size items st
  end.
Definition clear_all (fuel : nat) (st : heap * req_dict) : res (heap * req_dict) :=
  clear_all_loop fuel (length st.2) st.2 st.

(** The first part of [create_req]: the node to continue and whether to abort. *)
Definition find_node (s : Session) (p : SessionParams) : res (option nat * bool * heap * req_dict) :=
  let fuel := S (next_node s) in
  let st := (nodes s, req_nodes s) in
  if default false (sp_replace p) then
    match sp_rid p with
    | None => let! '(h, d) := clear_all fuel st in Ok (None, false, h, d)
    | Some rid =>
        match dict_get rid (req_nodes s) with
        | None => Ok (None, true, nodes s, req_nodes s)
        | Some i =>
            let! h := abort (nodes s) i in
            let! '(h, d) := clear_childs fuel (h, req_nodes s) i in
            Ok (Some i, false, h, d)
        end
    end
  else
    match sp_rid p with
    | None => Ok (None, false, nodes s, req_nodes s)
    | Some rid =>
        match dict_get rid (req_nodes s) with
        | None => Ok (None, true, nodes s, req_nodes s)
        | Some i =>
            let! n := get_node (nodes s) i in
            Ok (Some i, negb (finished (node_req n)), nodes s, req_nodes s)
        end
    end.

(** [ids[:offset] + input] for a non-zero offset, [ids + input] otherwise. *)
Definition append_at (offset : option Z) (ids input : list Z) : list Z :=
  match offset with
  | Some o => if decide (o = 0) then ids ++ input else py_upto ids o ++ input
  | None => ids ++ input
  end.

(** The tokens of a request that continues [last_req]: padded and unpadded. *)
Definition continued_ids (p : SessionParams) (last_req : Req.t) (input : list Z) : list Z * list Z :=
  let out := py_upto (Req.output_ids last_req) (max_new_tokens (Req.sampling_params last_req)) in
  let drop_out := default false (sp_drop_previous_output p) in
  let base ids := if drop_out then ids else ids ++ out in
  (append_at (sp_offset p) (base (Req.origin_input_ids last_req)) input,
   append_at (sp_offset p) (base (Req.origin_input_ids_unpadded last_req)) input).

(** [if tokenizer is not None and req.input_ids[0] == tokenizer.bos_token_id]. *)
Definition trim_bos (tokenizer : option SessionTokenizer) (input : list Z) : res (list Z) :=
  match tokenizer with
  | None => Ok input
  | Some t => let! x := py_index input 0 in Ok (if decide (x = bos_token_id t) then py_from input 1 else input)
  end.

Definition create_req (s : Session) (req : TokenizedGenerateReqInput) (tokenizer : option SessionTokenizer) :
    res (Req.t * Session) :=
  let! p := of_opt AssertionError (in_session_params req) in
  let! '(last_req_node, abort_, h, d) := find_node s p in
  let! '(ids, unpadded) := match last_req_node with
    | Some i =>
        let! n := get_node h i in
        let! input := trim_bos tokenizer (in_input_ids req) in
        Ok (continued_ids p (node_req n) input)
    | None => Ok (in_input_ids req, in_input_ids req)
    end in
  let! t := of_opt AttributeError tokenizer in
  let new_req := Req_init (in_rid req) ids (in_sampling_params req) (in_return_logprob req) (Some unpadded)
                   (in_lora_id req) [] (Some (tok_vocab_size t)) None None in
  let new_req := Req.set_tokenizer new_req (Some (tok t)) in
  if (abort_ : bool) then
    Ok (set_finish_with_abort new_req "Invalid request session id"%string,
        mkSession (session_id s) (capacity_of_str_len s) d h (next_node s))
  else
    let i := next_node s in
    let! h := SessionReqNode_init h i new_req last_req_node in
    Ok (new_req, mkSession (session_id s) (capacity_of_str_len s) (dict_set (in_rid req) i d) h (S i)).
