(* ===== verification/SessionSpec.v ===== *)
(** * What sessions promise

    Clearing walks over a tree whose nodes are numbered in the order of their
    creation, so it ends and forgets exactly the nodes below its start; creating
    requests keeps the tree and the dictionary consistent. *)

From S2P Require Import Prelude Request Session.

(** ** The tree *)
Definition child (h : heap) (a x : nat) : Prop := ∃ n, h !! a = Some n ∧ x ∈ childs n.
Definition shape (n : SessionReqNode) : string * option nat * list nat := (Req.rid (node_req n), parent n, childs n).
Definition same_shape (h h' : heap) : Prop := ∀ i, shape <$> h !! i = shape <$> h' !! i.

#[global] Instance same_shape_equiv : Equivalence same_shape.
Proof. split; [by intros h i|by intros h h' H i|intros h1 h2 h3 H1 H2 i; by rewrite H1]. Qed.

Lemma abort_req_rid r : Req.rid (abort_req r) = Req.rid r.
Proof. unfold abort_req. by destruct (Req.finished_reason r). Qed.
Lemma abort_node_shape n : shape (abort_node n) = shape n.
Proof. unfold shape. cbn. by rewrite abort_req_rid. Qed.

Lemma same_shape_lookup h h' i n : same_shape h h' → h !! i = Some n → ∃ n', h' !! i = Some n' ∧ shape n' = shape n.
Proof. intros H Hi. specialize (H i). rewrite Hi in H. destruct (h' !! i) as [n'|]; [|done]. exists n'. apply (inj Some) in H. done. Qed.
Lemma same_shape_insert h i n n' : h !! i = Some n → shape n' = shape n → same_shape h (<[i := n']> h).
Proof.
  intros Hi Hs j. destruct (decide (i = j)) as [<-|]; [rewrite lookup_insert_eq, Hi; cbn; by rewrite Hs|by rewrite lookup_insert_ne].
Qed.
Lemma child_shape h h' a x : same_shape h h' → child h a x → child h' a x.
Proof.
  intros H (n & Hn & Hx). destruct (same_shape_lookup _ _ _ _ H Hn) as (n' & Hn' & Hs). exists n'. split; [done|].
  unfold shape in Hs. congruence.
Qed.

Lemma tc_first {A} (R : relation A) x y : tc R x y ↔ ∃ z, R x z ∧ rtc R z y.
Proof.
  split.
  - destruct 1 as [a b Hab|a b c Hab Hbc]; exists b; split; try done. by apply tc_rtc.
  - intros (z & Hz & Hr). eapply tc_rtc_r; [by apply tc_once|done].
Qed.

(** Children are younger than their parent and know it. *)
Record forest (h : heap) (N : nat) : Prop := {
  forest_child a x : child h a x → (a < x < N)%nat ∧ ∃ m, h !! x = Some m ∧ parent m = Some a;
  forest_node i n : h !! i = Some n → NoDup (childs n) ∧ (i < N)%nat }.

Section forest.
Context (h : heap) (N : nat) (Hf : forest h N).

Lemma parent_unique a b x : child h a x → child h b x → a = b.
Proof. intros (_ & m & Hm & Ha)%(forest_child _ _ Hf) (_ & m' & Hm' & Hb)%(forest_child _ _ Hf). congruence. Qed.
Lemma below_le i j : rtc (child h) i j → (i ≤ j)%nat.
Proof. induction 1 as [|a b c Hab _ IH]; [done|]. apply (forest_child _ _ Hf) in Hab. lia. Qed.
(** The ancestors of a node form a chain. *)
Lemma ancestors_chain a b x : rtc (child h) a x → rtc (child h) b x → rtc (child h) a b ∨ rtc (child h) b a.
Proof.
  revert x. apply (rtc_ind_r (λ x, rtc (child h) b x → _)); [by right|].
  intros y z Hay Hyz IH Hbz. apply rtc_inv_r in Hbz as [<-|(y' & Hby & Hy')].
  - left. by eapply rtc_r.
  - rewrite (parent_unique _ _ _ Hyz Hy') in IH. auto.
Qed.
Lemma siblings_disjoint i c1 c2 j : child h i c1 → child h i c2 → c1 ≠ c2 →
  rtc (child h) c1 j → rtc (child h) c2 j → False.
Proof.
  assert (∀ c1 c2, child h i c1 → child h i c2 → c1 ≠ c2 → rtc (child h) c1 c2 → False) as Hone.
  { intros a b Ha Hb Hne Hab. apply rtc_inv_r in Hab as [?|(p & Hap & Hp)]; [done|].
    rewrite (parent_unique _ _ _ Hp Hb) in Hap. apply below_le in Hap. apply (forest_child _ _ Hf) in Ha. lia. }
  intros H1 H2 Hne Hj1 Hj2. destruct (ancestors_chain _ _ _ Hj1 Hj2) as [H|H]; [by eapply Hone, H|].
  by eapply (Hone c2 c1), H.
Qed.
End forest.

(** ** Clearing *)

(** [post P] holds of a heap and a dictionary after clearing the nodes in [P]. *)
Record post (h : heap) (d : req_dict) (P : nat → Prop) (h' : heap) (d' : req_dict) : Prop := {
  post_shape : same_shape h h';
  post_in j : P j → h' !! j = abort_node <$> h !! j;
  post_out j : ¬ P j → h' !! j = h !! j;
  post_nodup : NoDup d'.*1;
  post_sub : d' `sublist_of` d;
  post_get k j : dict_get k d' = Some j ↔ dict_get k d = Some j ∧ ¬ P j }.

Lemma post_iff h d (P Q : nat → Prop) h' d' : (∀ j, P j ↔ Q j) → post h d P h' d' → post h d Q h' d'.
Proof.
  intros Hpq [H1 H2 H3 H4 H5 H6]. split; try done.
  - intros j ?. by apply H2, Hpq.
  - intros j HQ. apply H3. by rewrite Hpq.
  - intros k j. by rewrite H6, Hpq.
Qed.
Lemma post_refl h d : NoDup d.*1 → post h d (λ _, False) h d.
Proof. split; try done. tauto. Qed.
Lemma post_trans h d (P Q : nat → Prop) h1 d1 h2 d2 : (∀ j, P j → ¬ Q j) → post h d P h1 d1 → post h1 d1 Q h2 d2 →
  post h d (λ j, P j ∨ Q j) h2 d2.
Proof.
  intros Hdis [A1 A2 A3 A4 A5 A6] [B1 B2 B3 B4 B5 B6]. split; try done.
  - by etrans.
  - intros j [Hj|Hj]; [rewrite B3 by auto; auto|]. rewrite B2 by done. rewrite A3; [done|]. intros ?. by eapply Hdis.
  - intros j Hj. rewrite B3 by tauto. apply A3. tauto.
  - by etrans.
  - intros k j. rewrite B6, A6. tauto.
Qed.

(** The keys of the dictionary are the ids of the requests. *)
Definition keyed (h : heap) (d : req_dict) : Prop :=
  ∀ k j, dict_get k d = Some j → ∃ n, h !! j = Some n ∧ Req.rid (node_req n) = k.
(** All nodes of [P] are in the dictionary. *)
Definition known (h : heap) (d : req_dict) (P : nat → Prop) : Prop :=
  ∀ j n, P j → h !! j = Some n → dict_get (Req.rid (node_req n)) d = Some j.

Lemma keyed_post h0 h d P h' d' : keyed h0 d → post h d P h' d' → keyed h0 d'.
Proof. intros Hk Hp k j [Hg _]%(post_get _ _ _ _ _ Hp). by apply Hk. Qed.
Lemma known_post h0 h d P Q h' d' : (∀ j, Q j → ¬ P j) → known h0 d Q → post h d P h' d' → known h0 d' Q.
Proof. intros Hdis Hk Hp j n Hj Hn. apply (post_get _ _ _ _ _ Hp). split; [by apply Hk|by apply Hdis]. Qed.
Lemma known_mono h0 d (P Q : nat → Prop) : (∀ j, Q j → P j) → known h0 d P → known h0 d Q.
Proof. intros HPQ Hk j n Hj. by apply Hk, HPQ. Qed.

(** What [clear] does to a node that is in the tree [h0], up to the marks that
    earlier calls have left. *)
Definition clears (h0 : heap) (f : heap * req_dict → nat → res (heap * req_dict)) (i : nat) : Prop :=
  ∀ h d, same_shape h0 h → NoDup d.*1 → keyed h0 d → known h0 d (rtc (child h0) i) →
  ∃ h' d', f (h, d) i = Ok (h', d') ∧ post h d (rtc (child h0) i) h' d'.

Section clear.
Context (h0 : heap) (N : nat) (Hf : forest h0 N).

Lemma for_clear_spec f i cs : (∀ c, c ∈ cs → child h0 i c) → NoDup cs → (∀ c, c ∈ cs → clears h0 f c) →
  ∀ h d, same_shape h0 h → NoDup d.*1 → keyed h0 d → known h0 d (λ j, ∃ c, c ∈ cs ∧ rtc (child h0) c j) →
  ∃ h' d', for_clear f (h, d) cs = Ok (h', d') ∧ post h d (λ j, ∃ c, c ∈ cs ∧ rtc (child h0) c j) h' d'.
Proof.
  induction cs as [|c cs IH]; intros Hc Hnd Hcl h d Hs Hd Hk Hkn; cbn.
  - exists h, d. split; [done|]. eapply post_iff; [|by apply post_refl]. set_solver.
  - apply NoDup_cons in Hnd as [Hnot Hnd].
    assert (∀ j, (∃ c', c' ∈ cs ∧ rtc (child h0) c' j) → ¬ rtc (child h0) c j) as Hdis.
    { intros j (c' & Hc' & Hj') Hj. eapply (siblings_disjoint h0 N Hf i c c' j); [set_solver..|done|done]. }
    destruct (Hcl c ltac:(set_solver) h d Hs Hd Hk) as (h1 & d1 & -> & Hp1).
    { eapply known_mono; [|exact Hkn]. intros j Hj. exists c. set_solver. }
    destruct (IH ltac:(set_solver) Hnd ltac:(set_solver) h1 d1) as (h2 & d2 & E2 & Hp2).
    + etrans; [done|apply Hp1].
    + apply Hp1.
    + by eapply keyed_post.
    + eapply known_post; [exact Hdis| |exact Hp1]. eapply known_mono; [|exact Hkn]. intros j (c' & ? & ?). exists c'. set_solver.
    + exists h2, d2. split; [done|]. eapply post_iff; [|eapply post_trans; [|exact Hp1|exact Hp2]]; [set_solver|].
      intros j Hj Hj'. by eapply Hdis.
Qed.

(** A node's children, with the premises of [for_clear_spec]. *)
Lemma childs_clear fuel i n : h0 !! i = Some n → (∀ c, child h0 i c → clears h0 (clear fuel) c) →
  ∀ h d, same_shape h0 h → NoDup d.*1 → keyed h0 d → known h0 d (tc (child h0) i) →
  ∃ h' d', for_clear (clear fuel) (h, d) (childs n) = Ok (h', d') ∧ post h d (tc (child h0) i) h' d'.
Proof.
  intros Hi Hcl h d Hs Hd Hk Hkn.
  assert (∀ j, (∃ c, c ∈ childs n ∧ rtc (child h0) c j) ↔ tc (child h0) i j) as Hiff.
  { intros j. rewrite tc_first. split; intros (c & H1 & H2); exists c; split; try done; [by exists n|].
    destruct H1 as (n' & ? & ?). by simplify_eq. }
  destruct (for_clear_spec (clear fuel) i (childs n)) with (h := h) (d := d) as (h' & d' & E & Hp); try done.
  - intros c Hc. by exists n.
  - by apply (forest_node _ _ Hf) in Hi as [? _].
  - intros c Hc. apply Hcl. by exists n.
  - eapply known_mono; [|exact Hkn]. intros j. apply Hiff.
  - exists h', d'. split; [done|]. eapply post_iff; [exact Hiff|done].
Qed.

Lemma not_below_self i : ¬ tc (child h0) i i.
Proof. intros (c & Hc & Hr)%tc_first. apply (below_le _ _ Hf) in Hr. apply (forest_child _ _ Hf) in Hc. lia. Qed.

(** Marking and forgetting one node. *)
Lemma post_single h d i n : same_shape h0 h → h !! i = Some n → NoDup d.*1 → keyed h0 d →
  dict_get (Req.rid (node_req n)) d = Some i →
  post h d (λ j, j = i) (<[i := abort_node n]> h) (dict_del (Req.rid (node_req n)) d).
Proof.
  intros Hs Hi Hd Hk Hg. split.
  - by apply (same_shape_insert _ _ n), abort_node_shape.
  - intros j ->. by rewrite lookup_insert_eq, Hi.
  - intros j Hj. by rewrite lookup_insert_ne.
  - by apply dict_del_NoDup.
  - apply dict_del_sublist.
  - intros k j. destruct (decide (Req.rid (node_req n) = k)) as [<-|Hne].
    + rewrite dict_get_del_eq by done. rewrite Hg. naive_solver.
    + rewrite dict_get_del_ne by done. split; [|tauto]. intros Hj. split; [done|]. intros ->.
      destruct (Hk _ _ Hj) as (n0 & Hn0 & <-). destruct (same_shape_lookup _ _ _ _ Hs Hn0) as (n' & Hn' & Hsh).
      unfold shape in Hsh. congruence.
Qed.

Lemma clear_spec fuel : ∀ i n, h0 !! i = Some n → (N < fuel + i)%nat → clears h0 (clear fuel) i.
Proof.
  induction fuel as [|fuel IH]; intros i n0 Hi Hfuel h d Hs Hd Hk Hkn.
  { apply (forest_node _ _ Hf) in Hi. lia. }
  destruct (same_shape_lookup _ _ _ _ Hs Hi) as (n & Hn & Hsh). cbn [clear fst]. unfold get_node. rewrite Hn. cbn [of_opt res_bind].
  assert (childs n = childs n0 ∧ Req.rid (node_req n) = Req.rid (node_req n0)) as [-> Hrid] by (unfold shape in Hsh; split; congruence).
  destruct (childs_clear fuel i n0 Hi) with (h := h) (d := d) as (h1 & d1 & -> & Hp); try done.
  { intros c Hc. destruct (forest_child _ _ Hf _ _ Hc) as (? & m & Hm & _). eapply IH; [exact Hm|lia]. }
  { eapply known_mono; [|exact Hkn]. intros j. apply tc_rtc. }
  pose proof (not_below_self i) as Hirr. cbn [res_bind]. unfold abort, get_node.
  rewrite (post_out _ _ _ _ _ Hp i Hirr), Hn. cbn [of_opt res_bind]. unfold del_key.
  assert (dict_get (Req.rid (node_req n)) d1 = Some i) as Hg.
  { apply (post_get _ _ _ _ _ Hp). split; [|done]. rewrite Hrid. apply (Hkn i n0); [apply rtc_refl|done]. }
  rewrite Hg. cbn. eexists _, _. split; [done|]. eapply post_iff; [|eapply post_trans; [|exact Hp|apply post_single]].
  - intros j. split; [intros [?| ->]; [by apply tc_rtc|apply rtc_refl]|]. intros Hr. apply rtc_inv in Hr as [?|(c & ? & ?)]; [by right|].
    left. apply tc_first. eauto.
  - intros j Hj ->. done.
  - etrans; [exact Hs|apply Hp].
  - by rewrite (post_out _ _ _ _ _ Hp i Hirr).
  - apply Hp.
  - by eapply keyed_post.
  - done.
Qed.

Lemma clear_childs_spec fuel i n h d : h0 !! i = Some n → (N < fuel)%nat → same_shape h0 h → NoDup d.*1 → keyed h0 d →
  known h0 d (tc (child h0) i) →
  ∃ h' d' n', clear_childs fuel (h, d) i = Ok (<[i := mkNode (node_req n') (parent n') []]> h', d') ∧ h !! i = Some n' ∧
    post h d (tc (child h0) i) h' d'.
Proof.
  intros Hi Hfuel Hs Hd Hk Hkn. destruct (same_shape_lookup _ _ _ _ Hs Hi) as (n' & Hn' & Hsh).
  unfold clear_childs, get_node. cbn [fst]. rewrite Hn'. cbn [of_opt res_bind].
  assert (childs n' = childs n) as -> by (unfold shape in Hsh; congruence).
  destruct (childs_clear fuel i n Hi) with (h := h) (d := d) as (h1 & d1 & -> & Hp); try done.
  { intros c Hc. destruct (forest_child _ _ Hf _ _ Hc) as (? & m & Hm & _). eapply clear_spec; [exact Hm|lia]. }
  exists h1, d1, n'. cbn [res_bind]. rewrite (post_out _ _ _ _ _ Hp i (not_below_self i)), Hn'. done.
Qed.
End clear.

(** ** The invariant of a session *)
Record tree_ok (h : heap) (d : req_dict) (N : nat) : Prop := {
  tree_forest : forest h N;
  tree_nodup : NoDup d.*1;
  tree_keyed : keyed h d;
  tree_closed k i x : dict_get k d = Some i → child h i x → ∃ k', dict_get k' d = Some x }.
Definition session_ok (s : Session) : Prop := tree_ok (nodes s) (req_nodes s) (next_node s).

Lemma forest_shape h h' N : same_shape h h' → forest h N → forest h' N.
Proof.
  intros Hs [Hc Hn]. symmetry in Hs. split.
  - intros a x [Hlt (m & Hm & Hp)]%(child_shape _ _ _ _ Hs)%Hc. split; [done|]. symmetry in Hs.
    destruct (same_shape_lookup _ _ _ _ Hs Hm) as (m' & Hm' & Hsh). exists m'. split; [done|]. unfold shape in Hsh. congruence.
  - intros i n Hi. destruct (same_shape_lookup _ _ _ _ Hs Hi) as (n' & Hn' & Hsh). apply Hn in Hn'. unfold shape in Hsh. injection Hsh as _ _ <-. done.
Qed.
Lemma keyed_shape h h' d : same_shape h h' → keyed h d → keyed h' d.
Proof.
  intros Hs Hk k j (n & Hn & <-)%Hk. destruct (same_shape_lookup _ _ _ _ Hs Hn) as (n' & Hn' & Hsh). exists n'. split; [done|].
  unfold shape in Hsh. congruence.
Qed.
Lemma tree_ok_shape h h' d N : same_shape h h' → tree_ok h d N → tree_ok h' d N.
Proof.
  intros Hs [Hf Hd Hk Hc]. split; [by eapply forest_shape|done|by eapply keyed_shape|].
  intros k i x Hi Hx. eapply Hc; [done|]. symmetry in Hs. by eapply child_shape.
Qed.

Lemma live_below h d N k i j : tree_ok h d N → dict_get k d = Some i → rtc (child h) i j → ∃ k', dict_get k' d = Some j.
Proof. intros Hok Hi Hr. revert k Hi. induction Hr as [i|i x j Hix _ IH]; [eauto|]. intros k Hi. destruct (tree_closed _ _ _ Hok _ _ _ Hi Hix). eauto. Qed.
Lemma live_known h d N k i : tree_ok h d N → dict_get k d = Some i → known h d (tc (child h) i).
Proof.
  intros Hok Hi j n Hj%tc_rtc Hn. destruct (live_below _ _ _ _ _ _ Hok Hi Hj) as [k' Hk'].
  destruct (tree_keyed _ _ _ Hok _ _ Hk') as (n' & Hn' & <-). congruence.
Qed.

(** Dropping the references to cleared children keeps the invariant. *)
Lemma tree_ok_cleared h d N k i n h' d' : tree_ok h d N → dict_get k d = Some i → h !! i = Some n →
  post h d (tc (child h) i) h' d' → tree_ok (<[i := mkNode (node_req n) (parent n) []]> h') d' N.
Proof.
  intros Hok Hi Hn Hp. pose proof (tree_forest _ _ _ Hok) as Hf. set (h2 := <[i := _]> h').
  assert (∀ a x, child h2 a x → a ≠ i ∧ child h a x) as Hsub.
  { intros a x (m & Hm & Hx). unfold h2 in Hm. destruct (decide (a = i)) as [->|Hne]; [rewrite lookup_insert_eq in Hm; simplify_eq/=; set_solver|].
    rewrite lookup_insert_ne in Hm by done. split; [done|]. eapply child_shape; [symmetry; apply Hp|]. by exists m. }
  assert (∀ j, j ≠ i → h2 !! j = h' !! j) as Hne by (intros j ?; unfold h2; by rewrite lookup_insert_ne).
  pose proof (forest_shape _ _ _ (post_shape _ _ _ _ _ Hp) Hf) as Hf'. split.
  - split.
    + intros a x [Ha Hx]%Hsub. apply (child_shape _ h') in Hx; [|apply Hp].
      destruct (forest_child _ _ Hf' _ _ Hx) as (? & m & Hm & Hpar). split; [done|]. destruct (decide (x = i)) as [->|].
      * eexists. split; [apply lookup_insert_eq|]. cbn. rewrite (post_out _ _ _ _ _ Hp i) in Hm by (by eapply not_below_self). by simplify_eq.
      * exists m. by rewrite Hne.
    + intros j m Hm. unfold h2 in Hm. apply lookup_insert_Some in Hm as [[<- <-]|[_ Hm]].
      * split; [apply NoDup_nil_2|]. by apply (forest_node _ _ Hf) in Hn as [].
      * by apply (forest_node _ _ Hf') in Hm.
  - apply Hp.
  - intros k' j Hj. destruct (keyed_post _ _ _ _ _ _ (tree_keyed _ _ _ Hok) Hp _ _ Hj) as (m & Hm & <-).
    destruct (decide (j = i)) as [->|]; [rewrite Hn in Hm; simplify_eq; eexists; by split; [apply lookup_insert_eq|]|].
    destruct (same_shape_lookup _ _ _ _ (post_shape _ _ _ _ _ Hp) Hm) as (m' & Hm' & Hsh).
    exists m'. rewrite Hne by done. split; [done|]. unfold shape in Hsh. congruence.
  - intros k' a x [Ha Hnb]%(post_get _ _ _ _ _ Hp) [Hai Hax]%Hsub.
    destruct (tree_closed _ _ _ Hok _ _ _ Ha Hax) as [k2 Hk2]. exists k2. apply (post_get _ _ _ _ _ Hp). split; [done|].
    intros Hix. apply tc_first in Hix as (c & Hic & Hcx). apply rtc_inv_r in Hcx as [<-|(b & Hcb & Hbx)].
    + apply Hai. exact (parent_unique _ _ Hf _ _ _ Hax Hic).
    + rewrite (parent_unique _ _ Hf _ _ _ Hbx Hax) in Hcb. apply Hnb, tc_first. eauto.
Qed.

(** Hanging a new node below a known one, or as a root. *)
Definition grow (N : nat) (par : option nat) (j : nat) (n : SessionReqNode) : SessionReqNode :=
  mkNode (node_req n) (parent n) (childs n ++ (if decide (par = Some j) then [N] else [])).

Lemma init_lookup h N req par : (∀ p, par = Some p → is_Some (h !! p)) →
  ∃ h', SessionReqNode_init h N req par = Ok h' ∧
    ∀ j, h' !! j = if decide (j = N) then Some (mkNode req par []) else grow N par j <$> h !! j.
Proof.
  intros Hpar. unfold SessionReqNode_init, grow, get_node.
  assert (∀ j, par ≠ Some j → h !! j = (λ n, mkNode (node_req n) (parent n) (childs n ++ (if decide (par = Some j) then [N] else []))) <$> h !! j) as Hsame.
  { intros j Hj. destruct (h !! j) as [[]|]; [|done]. cbn. by rewrite decide_False, app_nil_r. }
  destruct par as [p|]; cbn.
  - destruct (Hpar p eq_refl) as [n Hn]. rewrite Hn. cbn. eexists. split; [done|]. intros j.
    destruct (decide (j = N)) as [->|]; [apply lookup_insert_eq|]. rewrite lookup_insert_ne by done.
    destruct (decide (j = p)) as [->|]; [rewrite lookup_insert_eq, Hn; cbn; by rewrite decide_True|].
    rewrite lookup_insert_ne by done. apply Hsame. congruence.
  - eexists. split; [done|]. intros j. destruct (decide (j = N)) as [->|]; [apply lookup_insert_eq|].
    rewrite lookup_insert_ne by done. by apply Hsame.
Qed.

Lemma tree_ok_add h d N req par : tree_ok h d N → (∀ p, par = Some p → ∃ k, dict_get k d = Some p) →
  dict_get (Req.rid req) d = None →
  ∃ h', SessionReqNode_init h N req par = Ok h' ∧ tree_ok h' (dict_set (Req.rid req) N d) (S N) ∧
    ∀ j, h' !! j = if decide (j = N) then Some (mkNode req par []) else grow N par j <$> h !! j.
Proof.
  intros Hok Hpar Hfresh. pose proof (tree_forest _ _ _ Hok) as Hf. pose proof (tree_keyed _ _ _ Hok) as Hk.
  destruct (init_lookup h N req par) as (h' & E & Hl).
  { intros p Hp. destruct (Hpar p Hp) as [k (n & Hn & _)%Hk]. done. }
  exists h'. split; [done|]. split; [|done].
  assert (∀ a x, child h' a x → child h a x ∨ (par = Some a ∧ x = N)) as Hchild.
  { intros a x (m & Hm & Hx). rewrite Hl in Hm. destruct (decide (a = N)); [simplify_eq/=; set_solver|].
    destruct (h !! a) as [m0|] eqn:Ha; [|done]. simplify_eq/=. apply elem_of_app in Hx as [Hx|Hx]; [left; by exists m0|].
    right. case_decide; set_solver. }
  assert (∀ j n, h !! j = Some n → (j < N)%nat ∧ h' !! j = Some (grow N par j n)) as Hold.
  { intros j n Hj. pose proof (forest_node _ _ Hf _ _ Hj) as [_ Hlt]. split; [done|]. rewrite Hl, decide_False by lia. by rewrite Hj. }
  split.
  - split.
    + intros a x [Hx|[Hp ->]]%Hchild.
      * destruct (forest_child _ _ Hf _ _ Hx) as (? & m & Hm & Hpm). split; [lia|]. exists (grow N par x m). split; [by apply Hold|done].
      * destruct (Hpar a Hp) as [k (n & Hn & _)%Hk]. destruct (Hold _ _ Hn). split; [lia|]. eexists. rewrite Hl, decide_True by done. done.
    + intros j m Hm. rewrite Hl in Hm. case_decide; [simplify_eq/=; split; [apply NoDup_nil_2|lia]|].
      destruct (h !! j) as [n|] eqn:Hj; [|done]. simplify_eq/=. destruct (forest_node _ _ Hf _ _ Hj) as [Hnd Hlt]. split; [|lia].
      apply NoDup_app. split_and!; [done| |case_decide; [apply NoDup_singleton|apply NoDup_nil_2]].
      intros x Hx. case_decide; [|set_solver]. intros ->%list_elem_of_singleton.
      destruct (forest_child _ _ Hf j N) as [? _]; [by exists n|]. lia.
  - apply dict_set_NoDup, Hok.
  - intros k j Hj. destruct (decide (Req.rid req = k)) as [<-|].
    + rewrite dict_get_set_eq in Hj. simplify_eq. eexists. rewrite Hl, decide_True by done. done.
    + rewrite dict_get_set_ne in Hj by done. destruct (Hk _ _ Hj) as (m0 & Hn & <-). exists (grow N par j m0). split; [by apply Hold|done].
  - intros k i x Hi [Hx|[_ ->]]%Hchild.
    + assert (i ≠ N) by (apply (forest_child _ _ Hf) in Hx; lia).
      destruct (decide (Req.rid req = k)) as [<-|]; [rewrite dict_get_set_eq in Hi; congruence|]. rewrite dict_get_set_ne in Hi by done.
      destruct (tree_closed _ _ _ Hok _ _ _ Hi Hx) as [k' Hk']. exists k'. rewrite dict_get_set_ne; [done|]. congruence.
    + exists (Req.rid req). apply dict_get_set_eq.
Qed.

(** Replacing a request: its node is marked, everything below it forgotten. *)
Lemma find_node_replace s p rid i n : session_ok s → sp_replace p = Some true → sp_rid p = Some rid →
  dict_get rid (req_nodes s) = Some i → nodes s !! i = Some n →
  ∃ h1 h d, h1 = <[i := abort_node n]> (nodes s) ∧
    find_node s p = Ok (Some i, false, <[i := mkNode (abort_req (node_req n)) (parent n) []]> h, d) ∧
    post h1 (req_nodes s) (tc (child (nodes s)) i) h d ∧
    tree_ok (<[i := mkNode (abort_req (node_req n)) (parent n) []]> h) d (next_node s).
Proof.
  intros Hok Hr Hrid Hi Hn. pose proof (tree_forest _ _ _ Hok) as Hf. unfold find_node. rewrite Hr, Hrid. cbn [default from_option id].
  rewrite Hi. unfold abort, get_node. rewrite Hn. cbn [of_opt res_bind]. set (h1 := <[i := abort_node n]> (nodes s)).
  assert (same_shape (nodes s) h1) as Hs by (by apply (same_shape_insert _ _ n), abort_node_shape).
  destruct (clear_childs_spec (nodes s) (next_node s) Hf (S (next_node s)) i n h1 (req_nodes s)) as (h & d & n' & E & Hn' & Hp); try done.
  { lia. }
  { apply Hok. }
  { apply Hok. }
  { by eapply live_known. }
  unfold h1 in Hn'. rewrite lookup_insert_eq in Hn'. injection Hn' as <-. rewrite E. cbn.
  exists h1, h, d. split_and!; try done.
  eapply (tree_ok_cleared h1 (req_nodes s) _ rid i (abort_node n) h d); [by eapply tree_ok_shape|done|apply lookup_insert_eq|].
  eapply post_iff; [|exact Hp]. intros j.
  assert (∀ a b, child (nodes s) a b ↔ child h1 a b) as Hc by (intros a b; split; apply child_shape; done).
  split; apply (tc_congruence id); intros; by apply Hc.
Qed.

(** Forgetting all requests in one loop: after the first the dictionary has
    another size. *)
Lemma sublist_shorter {A} (l k : list A) : l `sublist_of` k → length l = length k → l = k.
Proof.
  induction 1 as [|x l k Hs IH|x l k Hs IH]; cbn; intros Hl; [done|f_equal; auto|]. apply sublist_length in Hs. lia.
Qed.
Lemma clear_all_raises s : session_ok s → req_nodes s ≠ [] →
  clear_all (S (next_node s)) (nodes s, req_nodes s) = Err RuntimeError.
Proof.
  intros Hok Hne. unfold clear_all. cbn [snd]. destruct (req_nodes s) as [|[k i] d0] eqn:Ed; [done|]. rewrite <-Ed. clear Hne.
  assert (dict_get k (req_nodes s) = Some i) as Hi by (rewrite Ed; cbn; by rewrite decide_True).
  rewrite Ed at 2. cbn [clear_all_loop snd]. rewrite bool_decide_true by done. cbn [negb guard_raise res_bind].
  destruct (tree_keyed _ _ _ Hok _ _ Hi) as (n & Hn & _).
  destruct (clear_spec (nodes s) (next_node s) (tree_forest _ _ _ Hok) (S (next_node s)) i n Hn ltac:(lia) (nodes s) (req_nodes s))
    as (h' & d' & -> & Hp); [done|apply Hok|apply Hok| |].
  { intros j m Hj Hm. destruct (live_below _ _ _ _ _ _ Hok Hi Hj) as [k' Hk'].
    destruct (tree_keyed _ _ _ Hok _ _ Hk') as (m' & Hm' & <-). congruence. }
  cbn [res_bind]. assert (length d' ≠ length (req_nodes s)) as Hlen.
  { intros He. apply sublist_shorter in He; [|apply Hp]. rewrite <-He in Hi. apply (post_get _ _ _ _ _ Hp) in Hi as [_ []]. apply rtc_refl. }
  destruct d0 as [|[? ?] d0]; cbn [clear_all_loop snd]; by rewrite bool_decide_false.
Qed.

(** Whatever it finds, [find_node] leaves a consistent tree. *)
Lemma find_node_ok s p last ab h d : session_ok s → find_node s p = Ok (last, ab, h, d) →
  tree_ok h d (next_node s) ∧ (∀ i, last = Some i → ∃ k, dict_get k d = Some i) ∧
  (∀ k, dict_get k (req_nodes s) = None → dict_get k d = None).
Proof.
  intros Hok Hfind. destruct (default false (sp_replace p)) eqn:Er.
  - destruct (sp_rid p) as [rid|] eqn:Erid.
    + destruct (dict_get rid (req_nodes s)) as [i|] eqn:Ei.
      * destruct (tree_keyed _ _ _ Hok _ _ Ei) as (n & Hn & _).
        destruct (find_node_replace s p rid i n Hok) as (h1 & h' & d' & -> & E & Hp & Hok'); try done.
        { destruct (sp_replace p) as [[]|]; done. }
        rewrite E in Hfind. injection Hfind as <- <- <- <-. split; [done|]. split.
        -- intros i' [= <-]. exists rid. apply (post_get _ _ _ _ _ Hp). split; [done|]. eapply not_below_self, Hok.
        -- intros k Hk. destruct (dict_get k d') as [j|] eqn:Ej; [|done]. apply (post_get _ _ _ _ _ Hp) in Ej as [Ej _]. congruence.
      * unfold find_node in Hfind. rewrite Er, Erid, Ei in Hfind. by injection Hfind as <- <- <- <-.
    + unfold find_node in Hfind. rewrite Er, Erid in Hfind. destruct (decide (req_nodes s = [])) as [Hnil|Hne].
      * rewrite Hnil in Hfind. cbn in Hfind. injection Hfind as <- <- <- <-. rewrite <-Hnil. by split.
      * by rewrite (clear_all_raises s Hok Hne) in Hfind.
  - unfold find_node in Hfind. rewrite Er in Hfind. destruct (sp_rid p) as [rid|]; [|by injection Hfind as <- <- <- <-].
    destruct (dict_get rid (req_nodes s)) as [i|] eqn:Ei; [|by injection Hfind as <- <- <- <-].
    destruct (get_node (nodes s) i) as [n|]; [|done]. injection Hfind as <- <- <- <-. split; [done|]. split; [|done].
    intros i' [= <-]. eauto.
Qed.

(** The request that [create_req] builds from its tokens. *)
Definition new_request (req : TokenizedGenerateReqInput) (t : SessionTokenizer) (ids unpadded : list Z) : Req.t :=
  Req.set_tokenizer (Req_init (in_rid req) ids (in_sampling_params req) (in_return_logprob req) (Some unpadded)
    (in_lora_id req) [] (Some (tok_vocab_size t)) None None) (Some (tok t)).

Lemma create_req_continue s req t p i n h d input : in_session_params req = Some p →
  find_node s p = Ok (Some i, false, h, d) → h !! i = Some n → tree_ok h d (next_node s) → (∃ k, dict_get k d = Some i) →
  dict_get (in_rid req) d = None → trim_bos (Some t) (in_input_ids req) = Ok input →
  let new := new_request req t (continued_ids p (node_req n) input).1 (continued_ids p (node_req n) input).2 in
  ∃ h', create_req s req (Some t) =
      Ok (new, mkSession (session_id s) (capacity_of_str_len s) (dict_set (in_rid req) (next_node s) d) h' (S (next_node s))) ∧
    tree_ok h' (dict_set (in_rid req) (next_node s) d) (S (next_node s)) ∧
    ∀ j, h' !! j = if decide (j = next_node s) then Some (mkNode new (Some i) []) else grow (next_node s) (Some i) j <$> h !! j.
Proof.
  intros Hp Hfind Hi Hok Hlive Hfresh Htrim new. unfold create_req. rewrite Hp. cbn [of_opt res_bind]. rewrite Hfind. cbn [res_bind].
  unfold get_node. rewrite Hi. cbn [of_opt res_bind]. rewrite Htrim. cbn [res_bind of_opt].
  destruct (tree_ok_add h d (next_node s) new (Some i) Hok) as (h' & E & Hok' & Hl); [by intros ? [= <-]|done|].
  destruct (continued_ids p (node_req n) input) as [ids unp] eqn:Ec. exists h'. unfold new, new_request in E. cbn [fst snd] in E.
  rewrite E. done.
Qed.

Lemma continued_ids_abort p r input : continued_ids p (abort_req r) input = continued_ids p r input.
Proof. unfold abort_req. by destruct (Req.finished_reason r). Qed.
Lemma grow_id N par j n : par ≠ Some j → grow N par j n = n.
Proof. intros Hne. unfold grow. rewrite decide_False, app_nil_r by done. by destruct n. Qed.

Lemma grow_self N i n : grow N (Some i) i <$> Some n = Some (mkNode (node_req n) (parent n) (childs n ++ [N])).
Proof. cbn [fmap option_fmap option_map]. unfold grow. by rewrite decide_True. Qed.

(** ** Runs of a session *)

(** A session creates requests with new ids, and between two calls the
    scheduler works on the requests. *)
Inductive session_step (s : Session) : Session → Prop :=
  | step_create req t new s' : create_req s req t = Ok (new, s') → dict_get (in_rid req) (req_nodes s) = None → session_step s s'
  | step_scheduler i n r : nodes s !! i = Some n → Req.rid r = Req.rid (node_req n) →
      session_step s (mkSession (session_id s) (capacity_of_str_len s) (req_nodes s)
                        (<[i := mkNode r (parent n) (childs n)]> (nodes s)) (next_node s)).

Lemma session_ok_init c id : session_ok (Session_init c id).
Proof.
  split; [split|apply NoDup_nil_2|done|done].
  - intros a x (n & Hn & _). done.
  - done.
Qed.
Lemma create_req_ok s req t new s' : session_ok s → dict_get (in_rid req) (req_nodes s) = None →
  create_req s req t = Ok (new, s') → session_ok s'.
Proof.
  intros Hok Hfresh. unfold create_req. destruct (in_session_params req) as [p|]; [|done]. cbn [of_opt res_bind].
  destruct (find_node s p) as [[[[last ab] h] d]|] eqn:Ef; [|done]. cbn [res_bind].
  apply find_node_ok in Ef as (Htree & Hlive & Hkeys); [|done].
  destruct (match last with Some _ => _ | None => _ end) as [[ids unp]|]; [|done]. cbn [res_bind].
  destruct t as [t|]; [|done]. cbn [of_opt res_bind]. destruct ab; [by intros [= <- <-]|].
  set (r := Req.set_tokenizer _ _). destruct (tree_ok_add h d (next_node s) r last Htree Hlive) as (h' & E & Hok' & _); [by apply Hkeys|].
  rewrite E. cbn. by intros [= <- <-].
Qed.
Lemma session_step_ok s s' : session_ok s → session_step s s' → session_ok s'.
Proof.
  intros Hok [req t new s1 Hc Hfresh|i n r Hn Hr]; [by eapply create_req_ok|].
  eapply tree_ok_shape; [|exact Hok]. apply (same_shape_insert _ _ n); [done|]. unfold shape. cbn. by rewrite Hr.
Qed.

(** The tree and the dictionary of a session are consistent in every run. *)
Theorem sessions_consistent c id s : rtc session_step (Session_init c id) s → session_ok s.
Proof. revert s. apply rtc_ind_r; [apply session_ok_init|]. intros x y _ Hs IH. by eapply session_step_ok. Qed.

(** ** Properties *)

(** A request that has not finished is told to abort; a finished one is left alone. *)
Definition told_to_abort (r r' : Req.t) : Prop :=
  match Req.finished_reason r with
  | None => r' = Req.set_to_finish r (Some (finish_abort None None None))
  | Some _ => r' = r
  end.

Lemma abort_req_told r : told_to_abort r (abort_req r).
Proof. unfold told_to_abort, abort_req. by destruct (Req.finished_reason r). Qed.

(** C21. Replacing rewinds the session.  When a request replaces what
    continued an earlier request, it is created from the earlier request's tokens
    and becomes its only child.  The earlier request stays known, and is told to
    abort if it has not finished; exactly the requests below it are forgotten, and
    those of them that have not finished are told to abort too; all other requests
    and their nodes stay as they are.  The session stays consistent. *)
Theorem replace_rewinds s req t p rid i n input :
  session_ok s → in_session_params req = Some p → sp_replace p = Some true → sp_rid p = Some rid →
  dict_get rid (req_nodes s) = Some i → nodes s !! i = Some n → dict_get (in_rid req) (req_nodes s) = None →
  trim_bos (Some t) (in_input_ids req) = Ok input →
  ∃ new s', create_req s req (Some t) = Ok (new, s') ∧ session_ok s' ∧
    Req.origin_input_ids new = (continued_ids p (node_req n) input).1 ∧
    nodes s' !! next_node s = Some (mkNode new (Some i) []) ∧
    (∃ r, nodes s' !! i = Some (mkNode r (parent n) [next_node s]) ∧ told_to_abort (node_req n) r) ∧
    (∀ k j, dict_get k (req_nodes s') = Some j ↔
       (k = in_rid req ∧ j = next_node s) ∨ (dict_get k (req_nodes s) = Some j ∧ ¬ tc (child (nodes s)) i j)) ∧
    (∀ j m, tc (child (nodes s)) i j → nodes s !! j = Some m →
       ∃ r, nodes s' !! j = Some (mkNode r (parent m) (childs m)) ∧ told_to_abort (node_req m) r) ∧
    (∀ j m, j ≠ i → ¬ tc (child (nodes s)) i j → nodes s !! j = Some m → nodes s' !! j = Some m).
Proof.
  intros Hok Hp Hrep Hrid Hi Hn Hfresh Htrim.
  destruct (find_node_replace s p rid i n Hok Hrep Hrid Hi Hn) as (h1 & h & d & -> & Ef & Hpost & Htree).
  assert (¬ tc (child (nodes s)) i i) as Hirr by (eapply not_below_self, Hok).
  assert (∀ k, dict_get k (req_nodes s) = None → dict_get k d = None) as Hkeys.
  { intros k Hk. destruct (dict_get k d) as [j|] eqn:Ej; [|done]. apply (post_get _ _ _ _ _ Hpost) in Ej as [Ej _]. congruence. }
  destruct (create_req_continue s req t p i _ _ d input Hp Ef (lookup_insert_eq _ _ _) Htree) as (h' & Ec & Hok' & Hl).
  { exists rid. by apply (post_get _ _ _ _ _ Hpost). }
  { by apply Hkeys. }
  { done. }
  cbn [node_req] in Ec, Hl. rewrite continued_ids_abort in Ec, Hl. eexists _, _. split; [exact Ec|]. cbn [nodes req_nodes].
  assert (∀ j m, nodes s !! j = Some m → j ≠ next_node s) as Hlt.
  { intros j m Hj. apply (forest_node _ _ (tree_forest _ _ _ Hok)) in Hj. lia. }
  assert (∀ j m, j ≠ i → nodes s !! j = Some m → h' !! j = h !! j) as Hother.
  { intros j m Hj Hm. rewrite Hl, decide_False by (by eapply Hlt). rewrite lookup_insert_ne by done.
    destruct (h !! j) as [x|]; [|done]. cbn. by rewrite grow_id by congruence. }
  split_and!.
  - exact Hok'.
  - done.
  - by rewrite Hl, decide_True.
  - exists (abort_req (node_req n)). split; [|apply abort_req_told].
    rewrite Hl, decide_False by (by eapply Hlt). by rewrite lookup_insert_eq, grow_self.
  - intros k j. destruct (decide (in_rid req = k)) as [<-|Hne].
    + rewrite dict_get_set_eq, Hfresh. naive_solver.
    + rewrite dict_get_set_ne by done. rewrite (post_get _ _ _ _ _ Hpost). naive_solver.
  - intros j m Hj Hm. assert (j ≠ i) by (by intros ->). exists (abort_req (node_req m)). split; [|apply abort_req_told].
    rewrite (Hother j m), (post_in _ _ _ _ _ Hpost) by done. by rewrite lookup_insert_ne, Hm.
  - intros j m Hji Hj Hm. rewrite (Hother j m) by done. rewrite (post_out _ _ _ _ _ Hpost) by done. by rewrite lookup_insert_ne.
Qed.

(** Appending continues the tokens.  Without offset and dropping, a
    request that continues a finished request of the session starts from that
    request's input, its output up to the limit, and the new input without its
    beginning-of-sequence token; it becomes a further child, and nothing else
    in the session changes. *)
Theorem append_continues s req t rid i n x rest :
  session_ok s → in_session_params req = Some (mkParams (Some rid) None None None) →
  dict_get rid (req_nodes s) = Some i → nodes s !! i = Some n → finished (node_req n) = true →
  dict_get (in_rid req) (req_nodes s) = None → in_input_ids req = x :: rest →
  ∃ new s', create_req s req (Some t) = Ok (new, s') ∧ session_ok s' ∧
    Req.origin_input_ids new = Req.origin_input_ids (node_req n) ++
      py_upto (Req.output_ids (node_req n)) (max_new_tokens (Req.sampling_params (node_req n))) ++
      (if decide (x = bos_token_id t) then rest else x :: rest) ∧
    req_nodes s' = req_nodes s ++ [(in_rid req, next_node s)] ∧
    nodes s' !! i = Some (mkNode (node_req n) (parent n) (childs n ++ [next_node s])) ∧
    nodes s' !! next_node s = Some (mkNode new (Some i) []) ∧
    (∀ j m, j ≠ i → nodes s !! j = Some m → nodes s' !! j = Some m).
Proof.
  intros Hok Hp Hi Hn Hfin Hfresh Hin.
  assert (∀ j m, nodes s !! j = Some m → j ≠ next_node s) as Hlt.
  { intros j m Hj. apply (forest_node _ _ (tree_forest _ _ _ Hok)) in Hj. lia. }
  assert (trim_bos (Some t) (in_input_ids req) = Ok (if decide (x = bos_token_id t) then rest else x :: rest)) as Htrim.
  { rewrite Hin. unfold trim_bos. change (py_index (x :: rest) 0) with (Ok x). cbn [res_bind].
    rewrite py_from_drop by lia. done. }
  assert (find_node s (mkParams (Some rid) None None None) = Ok (Some i, false, nodes s, req_nodes s)) as Ef.
  { unfold find_node. cbn [sp_replace sp_rid default from_option]. rewrite Hi. unfold get_node. rewrite Hn. cbn. by rewrite Hfin. }
  destruct (create_req_continue s req t _ i n _ _ _ Hp Ef Hn Hok (ex_intro _ _ Hi) Hfresh Htrim) as (h' & Ec & Hok' & Hl).
  eexists _, _. split; [exact Ec|]. cbn [nodes req_nodes]. split_and!.
  - exact Hok'.
  - cbn. by rewrite <-app_assoc.
  - apply dict_set_new. by apply dict_get_None.
  - rewrite Hl, decide_False, Hn by (by eapply Hlt). apply grow_self.
  - by rewrite Hl, decide_True.
  - intros j m Hj Hm. rewrite Hl, decide_False, Hm by (by eapply Hlt). cbn. by rewrite grow_id by congruence.
Qed.

(** Starting over does not work on a session that has requests: the loop
    that forgets all requests removes entries of the dictionary it iterates over,
    so asking to replace everything raises [RuntimeError] in every consistent
    session with at least one request. *)
Theorem replace_all_raises s req t p : session_ok s → req_nodes s ≠ [] →
  in_session_params req = Some p → sp_replace p = Some true → sp_rid p = None →
  create_req s req t = Err RuntimeError.
Proof.
  intros Hok Hne Hp Hrep Hrid. unfold create_req. rewrite Hp. cbn [of_opt res_bind]. unfold find_node.
  rewrite Hrep, Hrid. cbn [default from_option id]. by rewrite clear_all_raises.
Qed.

(** ** A session: [a] is continued by [b] and [b] by [c] *)
Definition demo_input (rid : string) (ids : list Z) (p : SessionParams) : TokenizedGenerateReqInput :=
  mkInput rid ids (mkSampling 4 false [] [] [] 0 0) None false (Some p).
Definition demo_tok : SessionTokenizer := mkTok (mkTokenizer 2 []) 1 100.
Definition continue_ (rid : option string) : SessionParams := mkParams rid None None None.
Definition replace_ (rid : option string) : SessionParams := mkParams rid None (Some true) None.

Definition create_or_stay (s : Session) (req : TokenizedGenerateReqInput) : Session :=
  match create_req s req (Some demo_tok) with Ok (_, s') => s' | Err _ => s end.
(** The scheduler finishes a request with some output. *)
Definition finish (s : Session) (i : nat) (out : list Z) : Session :=
  match nodes s !! i with
  | Some n =>
      let r := Req.set_finished_reason (Req.set_output_ids (node_req n) out) (Some (FINISH_LENGTH (len out))) in
      mkSession (session_id s) (capacity_of_str_len s) (req_nodes s) (<[i := mkNode r (parent n) (childs n)]> (nodes s)) (next_node s)
  | None => s
  end.

Lemma create_or_stay_ok s req : session_ok s → dict_get (in_rid req) (req_nodes s) = None → session_ok (create_or_stay s req).
Proof. intros Hok Hf. unfold create_or_stay. destruct (create_req s req _) as [[new s']|] eqn:E; [|done]. by eapply create_req_ok. Qed.
Lemma finish_ok s i out : session_ok s → session_ok (finish s i out).
Proof.
  intros Hok. unfold finish. destruct (nodes s !! i) as [n|] eqn:E; [|done].
  eapply session_step_ok; [exact Hok|]. by apply step_scheduler.
Qed.

Definition demo_a : Session := finish (create_or_stay (Session_init 0 "s") (demo_input "a" [1; 5; 6] (continue_ None))) 0 [7; 8].
Definition demo_b : Session := finish (create_or_stay demo_a (demo_input "b" [1; 9] (continue_ (Some "a"%string)))) 1 [10].
Definition demo_c : Session := create_or_stay demo_b (demo_input "c" [11] (continue_ (Some "b"%string))).

Lemma demo_a_ok : session_ok demo_a.
Proof. apply finish_ok, create_or_stay_ok; [apply session_ok_init|reflexivity]. Qed.
Lemma demo_b_ok : session_ok demo_b.
Proof. apply finish_ok, create_or_stay_ok; [apply demo_a_ok|reflexivity]. Qed.
Lemma demo_c_ok : session_ok demo_c.
Proof. apply create_or_stay_ok; [apply demo_b_ok|reflexivity]. Qed.

Lemma replace_rewinds_witness : ∃ new s', 
  create_req demo_c (demo_input "d" [1; 12] (replace_ (Some "a"%string))) (Some demo_tok) = Ok (new, s') ∧
  session_ok s' ∧ Req.origin_input_ids new = [1; 5; 6; 7; 8; 12] ∧ req_nodes s' = [("a"%string, 0%nat); ("d"%string, 3%nat)].
Proof.
  destruct (replace_rewinds demo_c (demo_input "d" [1; 12] (replace_ (Some "a"%string))) demo_tok (replace_ (Some "a"%string)) "a" 0
    (mkNode (default (new_request (demo_input "a" [] (continue_ None)) demo_tok [] []) (node_req <$> nodes demo_c !! 0%nat)) None [1%nat]) [12])
    as (new & s' & Hc & Hok & Ho & _); [apply demo_c_ok|reflexivity..|].
  exists new, s'. split; [exact Hc|]. split; [exact Hok|]. split; [rewrite Ho; reflexivity|].
  vm_compute in Hc. injection Hc as _ <-. reflexivity.
Defined.

Lemma append_continues_witness : ∃ new s',
  create_req demo_a (demo_input "b" [1; 9] (continue_ (Some "a"%string))) (Some demo_tok) = Ok (new, s') ∧
  session_ok s' ∧ Req.origin_input_ids new = [1; 5; 6; 7; 8; 9].
Proof.
  destruct (append_continues demo_a (demo_input "b" [1; 9] (continue_ (Some "a"%string))) demo_tok "a" 0
    (mkNode (default (new_request (demo_input "a" [] (continue_ None)) demo_tok [] []) (node_req <$> nodes demo_a !! 0%nat)) None []) 1 [9])
    as (new & s' & Hc & Hok & Ho & _); [apply demo_a_ok|reflexivity..|].
  exists new, s'. split; [exact Hc|]. split; [exact Hok|]. rewrite Ho. reflexivity.
Defined.

Lemma replace_all_raises_witness :
  create_req demo_a (demo_input "b" [1; 9] (replace_ None)) (Some demo_tok) = Err RuntimeError.
Proof.
  apply (replace_all_raises demo_a _ _ (replace_ None)); [apply demo_a_ok|discriminate|reflexivity..].
Defined.
