(* ===== verification/MultimodalCache.v ===== *)
(** * The cache of multimodal embeddings ([mem_cache/multimodal_cache.py])

    [MultiModalStaticCache] keeps embeddings in an [OrderedDict] from the least to
    the most recently used, and their total size in a counter.  Python's [hash]
    of a tuple is a parameter. *)

From S2P Require Import Prelude.

Record Tensor := mkTensor { element_size : Z; contents : list Z }.
Definition numel (t : Tensor) : Z := len (contents t).
Definition _get_tensor_size (embedding : Tensor) : Z := element_size embedding * numel embedding.

Record MultiModalStaticCache := mkMM {
  max_size : Z;
  mm_cache : list (Z * Tensor);
  current_size : Z
}.
Definition MultiModalStaticCache_init (max_size : Z) : MultiModalStaticCache := mkMM max_size [] 0.

(** [OrderedDict.move_to_end]. *)
Definition move_to_end (k : Z) (d : list (Z * Tensor)) : list (Z * Tensor) :=
  match dict_get k d with Some v => dict_del k d ++ [(k, v)] | None => d end.

Section cache.
Context (hash_tuple : list Z → Z).

Definition combine_hashes (mm_hashes : list Z) : option Z :=
  match mm_hashes with [] => None | _ => Some (hash_tuple mm_hashes) end.

Definition get (s : MultiModalStaticCache) (mm_hashes : list Z) : option Tensor * MultiModalStaticCache :=
  match combine_hashes mm_hashes with
  | None => (None, s)
  | Some combined_hash =>
      match dict_get combined_hash (mm_cache s) with
      | None => (None, s)
      | Some embedding => (Some embedding, mkMM (max_size s) (move_to_end combined_hash (mm_cache s)) (current_size s))
      end
  end.
End cache.

(** The loop of [set]: pop the oldest entry until the new one fits. *)
Fixpoint make_room (max_size data_size : Z) (d : list (Z * Tensor)) (current_size : Z) :
    bool * list (Z * Tensor) * Z :=
  if max_size <? current_size + data_size then
    match d with
    | [] => (false, [], current_size)
    | (_, lru_embedding) :: d' => make_room max_size data_size d' (current_size - _get_tensor_size lru_embedding)
    end
  else (true, d, current_size).

Definition set (s : MultiModalStaticCache) (mm_hash : Z) (embedding : Tensor) : bool * MultiModalStaticCache :=
  match dict_get mm_hash (mm_cache s) with
  | Some _ => (true, mkMM (max_size s) (move_to_end mm_hash (mm_cache s)) (current_size s))
  | None =>
      let data_size := _get_tensor_size embedding in
      let '(fits, d, cur) := make_room (max_size s) data_size (mm_cache s) (current_size s) in
      if fits then (true, mkMM (max_size s) (dict_set mm_hash embedding d) (cur + data_size))
      else (false, mkMM (max_size s) d cur)
  end.

Definition has (s : MultiModalStaticCache) (mm_hash : Z) : bool := bool_decide (is_Some (dict_get mm_hash (mm_cache s))).

Definition free (s : MultiModalStaticCache) (mm_hash : Z) : bool * MultiModalStaticCache :=
  match dict_get mm_hash (mm_cache s) with
  | None => (false, s)
  | Some old_embedding =>
      (true, mkMM (max_size s) (dict_del mm_hash (mm_cache s)) (current_size s - _get_tensor_size old_embedding))
  end.

Definition clear (s : MultiModalStaticCache) : MultiModalStaticCache := mkMM (max_size s) [] 0.
Definition mm_len (s : MultiModalStaticCache) : Z := len (mm_cache s).
Definition available_size (s : MultiModalStaticCache) : Z := mm_len s.

(** ** The invariant *)
Definition total (d : list (Z * Tensor)) : Z := sum_Z (_get_tensor_size <$> d.*2).
Arguments total : simpl never.
Record mm_ok (s : MultiModalStaticCache) : Prop := {
  mm_keys : NoDup (mm_cache s).*1;
  mm_sizes : Forall (λ t, 0 ≤ element_size t) (mm_cache s).*2;
  mm_total : current_size s = total (mm_cache s);
  mm_bound : current_size s ≤ max_size s }.

Lemma size_nonneg t : 0 ≤ element_size t → 0 ≤ _get_tensor_size t.
Proof. intros. apply Z.mul_nonneg_nonneg; [done|apply len_nonneg]. Qed.
Lemma total_nonneg d : Forall (λ t, 0 ≤ element_size t) d.*2 → 0 ≤ total d.
Proof. intros H. apply sum_Z_nonneg, Forall_fmap. eapply Forall_impl; [exact H|]. intros t. apply size_nonneg. Qed.
Lemma total_app d e : total (d ++ e) = total d + total e.
Proof. unfold total. by rewrite !fmap_app, sum_Z_app. Qed.

Lemma dict_del_perm (d : list (Z * Tensor)) k v : dict_get k d = Some v → dict_del k d ++ [(k, v)] ≡ₚ d.
Proof.
  induction d as [|[k0 v0] d IH]; cbn; [done|]. case_decide; intros; simplify_eq/=.
  - symmetry. apply Permutation_cons_append.
  - by rewrite IH.
Qed.
Lemma move_to_end_perm k d : move_to_end k d ≡ₚ d.
Proof. unfold move_to_end. destruct (dict_get k d) eqn:E; [by apply dict_del_perm|done]. Qed.

Lemma mm_ok_empty mx : 0 ≤ mx → mm_ok (mkMM mx [] 0).
Proof. intros. split; [apply NoDup_nil_2|constructor|done|done]. Qed.

(** Only the order of the entries may change. *)
Lemma mm_ok_perm s d : mm_ok s → d ≡ₚ mm_cache s → mm_ok (mkMM (max_size s) d (current_size s)).
Proof.
  intros [Hk Hs Ht Hb] Hp. split; cbn; [by rewrite Hp..| |done]. rewrite Ht. unfold total. apply sum_Z_perm. by rewrite Hp.
Qed.

(** The loop drops the shortest front of the list that makes room. *)
Lemma make_room_spec mx ds d : 0 ≤ ds → Forall (λ t, 0 ≤ element_size t) d.*2 →
  ∃ k, make_room mx ds d (total d) = (ds <=? mx, drop k d, total (drop k d)) ∧
    (∀ j, (j < k)%nat → mx < total (drop j d) + ds) ∧
    (ds ≤ mx → total (drop k d) + ds ≤ mx) ∧ (mx < ds → drop k d = []).
Proof.
  intros Hds. induction d as [|[h e] d IH]; intros Hd.
  - exists 0%nat. cbn. change (total []) with 0. split_and!; [|lia|lia|done].
    destruct (mx <? 0 + ds) eqn:E; [apply Z.ltb_lt in E|apply Z.ltb_ge in E]; repeat f_equal; lia.
  - inversion_clear Hd as [|? ? He Hd']. pose proof (total_nonneg d Hd'). pose proof (size_nonneg e He).
    assert (total ((h, e) :: d) = _get_tensor_size e + total d) as Et by apply sum_Z_cons.
    cbn [make_room]. destruct (mx <? total ((h, e) :: d) + ds) eqn:E.
    + apply Z.ltb_lt in E. destruct (IH Hd') as (k & Hr & Hj & Hle & Hgt). exists (S k). cbn [drop].
      replace (total ((h, e) :: d) - _get_tensor_size e) with (total d) by lia. split_and!; [done| |done..].
      intros [|j] Hlt; [done|]. cbn. apply Hj. lia.
    + apply Z.ltb_ge in E. exists 0%nat. cbn [drop]. split_and!; [|lia|lia|intros; exfalso; lia]. repeat f_equal. symmetry. apply Z.leb_le. lia.
Qed.

Lemma set_evicts s mm_hash e : mm_ok s → 0 ≤ element_size e → 0 ≤ max_size s →
  dict_get mm_hash (mm_cache s) = None →
  ∃ k, let fits := _get_tensor_size e <=? max_size s in let '(ok, s') := set s mm_hash e in
    ok = fits ∧ mm_cache s' = drop k (mm_cache s) ++ (if fits then [(mm_hash, e)] else []) ∧
    (∀ j, (j < k)%nat → max_size s < total (drop j (mm_cache s)) + _get_tensor_size e) ∧
    (fits = false → mm_cache s' = []) ∧ mm_ok s'.
Proof.
  intros [Hk Hs Ht Hb] He Hm Hn. destruct (make_room_spec (max_size s) _ _ (size_nonneg e He) Hs) as (k & Hr & Hj & Hle & Hgt).
  exists k. unfold set. rewrite Hn, Ht, Hr. cbn zeta. apply dict_get_None in Hn.
  assert (drop k (mm_cache s) `sublist_of` mm_cache s) as Hsub by apply sublist_drop.
  assert (mm_hash ∉ (drop k (mm_cache s)).*1) as Hn'.
  { intros Hin. apply Hn. eapply sublist_subseteq; [|exact Hin]. by apply fmap_sublist. }
  assert (NoDup (drop k (mm_cache s)).*1) as Hk' by (eapply sublist_NoDup; [exact Hk|by apply fmap_sublist]).
  assert (Forall (λ t, 0 ≤ element_size t) (drop k (mm_cache s)).*2) as Hs' by (rewrite fmap_drop; by apply Forall_drop).
  destruct (_ <=? _) eqn:E.
  - apply Z.leb_le in E. rewrite (dict_set_new _ _ _ Hn'). split_and!; try done.
    split; cbn; rewrite ?fmap_app, ?total_app.
    + apply NoDup_app. split_and!; [done| |apply NoDup_singleton]. intros x Hx ->%list_elem_of_singleton. done.
    + apply Forall_app_2; [done|]. by repeat constructor.
    + assert (total [(mm_hash, e)] = _get_tensor_size e + 0) as -> by reflexivity. lia.
    + by apply Hle.
  - apply Z.leb_gt in E. specialize (Hgt E). split_and!; cbn; rewrite ?app_nil_r; try done.
    split; cbn; try done. rewrite Hgt. done.
Qed.

(** The operations of a run. *)
Inductive mm_step (hash_tuple : list Z → Z) (s : MultiModalStaticCache) : MultiModalStaticCache → Prop :=
  | step_get hs : mm_step hash_tuple s (get hash_tuple s hs).2
  | step_set h e : 0 ≤ element_size e → mm_step hash_tuple s (set s h e).2
  | step_free h : mm_step hash_tuple s (free s h).2
  | step_clear : mm_step hash_tuple s (clear s).

Lemma mm_ok_set s h e : 0 ≤ max_size s → mm_ok s → 0 ≤ element_size e → mm_ok (set s h e).2 ∧ max_size (set s h e).2 = max_size s.
Proof.
  intros Hm Hok He. destruct (dict_get h (mm_cache s)) as [v|] eqn:E.
  - unfold set. rewrite E. split; [|done]. apply mm_ok_perm; [done|apply move_to_end_perm].
  - destruct (set_evicts s h e Hok He Hm E) as [k Hk]. split.
    + destruct (set s h e) as [ok s']. naive_solver.
    + unfold set. rewrite E. destruct (make_room _ _ _ _) as [[[] ?] ?]; done.
Qed.
Lemma mm_ok_free s h : mm_ok s → mm_ok (free s h).2 ∧ max_size (free s h).2 = max_size s.
Proof.
  intros Hok. unfold free. destruct (dict_get h (mm_cache s)) as [v|] eqn:E; [|done]. split; [|done]. destruct Hok as [Hk Hs Ht Hb].
  assert (0 ≤ _get_tensor_size v).
  { apply size_nonneg. apply dict_get_Some_elem in E. rewrite Forall_fmap, Forall_forall in Hs. by apply (Hs (h, v)). }
  split; cbn.
  - by apply dict_del_NoDup.
  - rewrite Forall_fmap in *. rewrite Forall_forall in *. intros x Hx. eapply Hs, sublist_subseteq; [apply dict_del_sublist|done].
  - unfold total in *. rewrite (dict_del_sum _ _ _ _ E). lia.
  - lia.
Qed.
Lemma mm_ok_step hash s s' : 0 ≤ max_size s → mm_ok s → mm_step hash s s' → mm_ok s' ∧ max_size s' = max_size s.
Proof.
  intros Hm Hok []; [|by apply mm_ok_set|by apply mm_ok_free|split; [by apply mm_ok_empty|done]].
  unfold get. destruct (combine_hashes hash hs) as [h|]; [|done]. destruct (dict_get h (mm_cache s)); [|done].
  split; [|done]. apply mm_ok_perm; [done|apply move_to_end_perm].
Qed.

(** ** Properties *)

(** C22. Inserting evicts the least recently used and no more.  For a new
    key the oldest entries are dropped, as few as make room; the new entry
    becomes the most recent one and the call succeeds exactly when the entry fits
    into the empty cache (if it does not, everything has been evicted).  The size
    counter stays exact and within the limit. *)
Theorem set_evicts_least_recent s mm_hash e : mm_ok s → 0 ≤ element_size e → 0 ≤ max_size s →
  dict_get mm_hash (mm_cache s) = None →
  ∃ k, let fits := _get_tensor_size e <=? max_size s in let '(ok, s') := set s mm_hash e in
    ok = fits ∧ mm_cache s' = drop k (mm_cache s) ++ (if fits then [(mm_hash, e)] else []) ∧
    (∀ j, (j < k)%nat → max_size s < total (drop j (mm_cache s)) + _get_tensor_size e) ∧
    (fits = false → mm_cache s' = []) ∧ mm_ok s'.
Proof. apply set_evicts. Qed.

(** The counter is exact and within the limit after any sequence of operations. *)
Theorem mm_size_bounded hash mx s : 0 ≤ mx → rtc (mm_step hash) (MultiModalStaticCache_init mx) s →
  current_size s = total (mm_cache s) ∧ current_size s ≤ mx.
Proof.
  intros Hm Hr. enough (mm_ok s ∧ max_size s = mx) as [[] <-] by done. revert s Hr. apply rtc_ind_r.
  - split; [by apply mm_ok_empty|done].
  - intros y z _ Hs [Hok <-]. by eapply mm_ok_step.
Qed.

Definition demo_mm : MultiModalStaticCache := mkMM 10 [(1, mkTensor 2 [0; 0]); (2, mkTensor 4 [5]); (3, mkTensor 1 [1])] 9.
Lemma demo_mm_ok : mm_ok demo_mm.
Proof. split; [by_decide|by repeat constructor|reflexivity|done]. Qed.

Lemma set_evicts_least_recent_witness :
  set demo_mm 4 (mkTensor 1 [1; 1; 1; 1]) = (true, mkMM 10 [(2, mkTensor 4 [5]); (3, mkTensor 1 [1]); (4, mkTensor 1 [1; 1; 1; 1])] 9) ∧
  mm_ok (set demo_mm 4 (mkTensor 1 [1; 1; 1; 1])).2.
Proof.
  split; [reflexivity|].
  destruct (set_evicts_least_recent demo_mm 4 (mkTensor 1 [1; 1; 1; 1]) demo_mm_ok ltac:(done) ltac:(done) ltac:(reflexivity)) as [k Hk].
  apply Hk.
Defined.
