(* ===== verification/Scheduler.v ===== *)
(** * The scheduler ([managers/scheduler.py], [managers/scheduler_output_processor_mixin.py])

    One iteration of the scheduler takes in requests, decides on the next batch,
    runs it and processes its result.  It composes the waiting queue, the policy,
    the prefill adder, the batches and the cache.  Requests are objects shared
    between the queue, the batches and [chunked_req]: [objs] is the store of these
    objects, and a request in a list is a reference, of which the id counts and
    whose other fields may be out of date; [refresh] reads the objects, [publish]
    writes them back.  [last_batch] and [cur_batch] may be the same object as
    [running_batch].

    The model is the scheduler of one process for generation: without
    speculative decoding, disaggregation, pipeline or data parallelism, adapters,
    a host cache and the grammar queue.  The forward pass is the list of tokens it
    samples.  Sending to the tokenizer process appends to [sent]; logprobs, hidden
    states, metrics and traces are left out. *)

From Stdlib Require Import QArith.QArith_base.
From S2P Require Import Prelude KVAllocator ReqPool Request RadixTree PrefixCache RadixReq ChunkCache CacheCommon.
From S2P Require Import SchedulePolicy ScheduleBatch PrefillAdder.
#[local] Open Scope Z_scope.

(** What the scheduler itself asks of the cache, beyond the adder: the policy
    applied to it, and the grouping of frees of its allocator. *)
Class SchedHost (C : Type) := {
  sh_adder :: AdderHost C;
  sh_calc_priority : schedule_policy → C → list Req.t → res (schedule_policy * C * list Req.t);
  sh_free_group_begin : C → C;
  sh_free_group_end : C → C
}.

(** ** State *)

(** A batch with the fields that only the scheduler uses. *)
Record SBatch := mkSB {
  sb : Batch.t;
  sb_chunked_req : option Req.t;
  sb_decoding_reqs : option (list Req.t);
  batch_is_full : bool
}.
Definition sb_reqs (b : SBatch) : list Req.t := Batch.reqs (sb b).
Definition sb_set (b : SBatch) (x : Batch.t) : SBatch := mkSB x (sb_chunked_req b) (sb_decoding_reqs b) (batch_is_full b).
Definition sb_set_full (b : SBatch) (full : bool) : SBatch := mkSB (sb b) (sb_chunked_req b) (sb_decoding_reqs b) full.
Definition sb_is_empty (b : SBatch) : bool := is_empty (sb b).

(** [ScheduleBatch(reqs=[], batch_is_full=...)]. *)
Definition no_batch : Batch.t :=
  Batch.mk [] false None false None None None None None None None None None false None None None None None None None
    None None None None false false false false.
Definition empty_batch (full : bool) : SBatch := mkSB no_batch None None full.

(** [running_batch] itself or another batch. *)
Inductive batch_ref := IsRunning | Own (b : SBatch).

Inductive Output := AbortReq (rid : string).

Record SchedConfig := mkConf {
  server_page_size : Z;
  max_prefill_tokens : Z;
  chunked_prefill_size : option Z;
  is_mixed_chunk : bool;
  enable_overlap : bool;
  enable_priority_scheduling : bool;
  schedule_low_priority_values_first : bool;
  abort_on_priority_when_disabled : bool;
  max_queued_requests : option Z;
  preemption_threshold : Z;
  pp_max_micro_batch_size : Z;
  truncation_align_size : option Z;
  new_token_ratio_decay : Q;
  min_new_token_ratio : Q
}.
(** [self.try_preemption = self.enable_priority_scheduling]. *)
Definition try_preemption (cf : SchedConfig) : bool := enable_priority_scheduling cf.

Record Sched (C : Type) := mkSched {
  objs : gmap string Req.t;
  waiting_queue : list Req.t;
  running_batch : SBatch;
  last_batch : option batch_ref;
  cur_batch : option batch_ref;
  chunked_req : option Req.t;
  new_token_ratio : Q;
  sched_policy : schedule_policy;
  tree_cache : C;
  sent : list Output
}.
Arguments mkSched {C}.
Arguments objs {C}.
Arguments waiting_queue {C}.
Arguments running_batch {C}.
Arguments last_batch {C}.
Arguments cur_batch {C}.
Arguments chunked_req {C}.
Arguments new_token_ratio {C}.
Arguments sched_policy {C}.
Arguments tree_cache {C}.
Arguments sent {C}.

(** ** The request objects *)
Definition fetch (m : gmap string Req.t) (r : Req.t) : Req.t := default r (m !! Req.rid r).
Definition refresh (m : gmap string Req.t) (l : list Req.t) : list Req.t := fetch m <$> l.
Definition publish (m : gmap string Req.t) (l : list Req.t) : gmap string Req.t := foldl (λ m r, <[Req.rid r := r]> m) m l.
Definition load (m : gmap string Req.t) (b : SBatch) : SBatch := sb_set b (Batch.set_reqs (sb b) (refresh m (sb_reqs b))).

Section setters.
Context {C : Type}.
Implicit Types s : Sched C.
Definition set_objs s x : Sched C := mkSched x (waiting_queue s) (running_batch s) (last_batch s) (cur_batch s) (chunked_req s)
  (new_token_ratio s) (sched_policy s) (tree_cache s) (sent s).
Definition set_waiting s x : Sched C := mkSched (objs s) x (running_batch s) (last_batch s) (cur_batch s) (chunked_req s)
  (new_token_ratio s) (sched_policy s) (tree_cache s) (sent s).
Definition set_running_batch s x : Sched C := mkSched (objs s) (waiting_queue s) x (last_batch s) (cur_batch s) (chunked_req s)
  (new_token_ratio s) (sched_policy s) (tree_cache s) (sent s).
Definition set_last s x : Sched C := mkSched (objs s) (waiting_queue s) (running_batch s) x (cur_batch s) (chunked_req s)
  (new_token_ratio s) (sched_policy s) (tree_cache s) (sent s).
Definition set_cur s x : Sched C := mkSched (objs s) (waiting_queue s) (running_batch s) (last_batch s) x (chunked_req s)
  (new_token_ratio s) (sched_policy s) (tree_cache s) (sent s).
Definition set_chunked s x : Sched C := mkSched (objs s) (waiting_queue s) (running_batch s) (last_batch s) (cur_batch s) x
  (new_token_ratio s) (sched_policy s) (tree_cache s) (sent s).
Definition set_ratio s x : Sched C := mkSched (objs s) (waiting_queue s) (running_batch s) (last_batch s) (cur_batch s) (chunked_req s)
  x (sched_policy s) (tree_cache s) (sent s).
Definition set_cache s x : Sched C := mkSched (objs s) (waiting_queue s) (running_batch s) (last_batch s) (cur_batch s) (chunked_req s)
  (new_token_ratio s) (sched_policy s) x (sent s).
Definition set_policy s x : Sched C := mkSched (objs s) (waiting_queue s) (running_batch s) (last_batch s) (cur_batch s) (chunked_req s)
  (new_token_ratio s) x (tree_cache s) (sent s).
Definition send_output s x : Sched C := mkSched (objs s) (waiting_queue s) (running_batch s) (last_batch s) (cur_batch s) (chunked_req s)
  (new_token_ratio s) (sched_policy s) (tree_cache s) (sent s ++ [x]).
(** Writing objects back. *)
Definition put s (l : list Req.t) : Sched C := set_objs s (publish (objs s) l).
End setters.

Section scheduler.
Context {C : Type} `{SchedHost C} (cf : SchedConfig).
(** The environment variables and the parameters of the parts. *)
Context (CLIP_MAX_NEW_TOKENS RETRACT_DECODE_STEPS attention_chunk_size : Z) (wait_queue_entry_time : Req.t → Z).
Context (stream return_hidden_states : Req.t → bool) (top_logprobs_num : Req.t → Z)
  (token_ids_logprob : Req.t → option (list Z)) (multimodal_inputs : Req.t → option (option Z)) (is_encoder_decoder : bool).
Context (masked oob : Z) (support_triton : bool).
Context (decode : list Z → text) (re_search : text → text → bool).
(** [grammar.accept_token]: whether the grammar has terminated, [None] if it raises [ValueError]. *)
Context (accept_token : Req.t → Z → option bool).
Implicit Types (s : Sched C) (r : Req.t).

(** ** The waiting queue *)

(** [sys.maxsize]. *)
Definition maxsize : Z := 2 ^ 63 - 1.

(** The request with its priority, or [None] if it is rejected. *)
Definition _set_or_validate_priority s r : option Req.t * Sched C :=
  match Req.priority r with
  | None =>
      if enable_priority_scheduling cf then
        let r := Req.set_priority r (Some (if schedule_low_priority_values_first cf then maxsize else - maxsize - 1)) in
        (Some r, put s [r])
      else (Some r, s)
  | Some _ =>
      if negb (enable_priority_scheduling cf) && abort_on_priority_when_disabled cf
      then (None, send_output s (AbortReq (Req.rid r)))
      else (Some r, s)
  end.

(** [max] with a key: the first of the largest; the empty maximum raises. *)
Fixpoint max_on (key : Req.t → Z * Z) (best : nat * Req.t) (i : nat) (l : list Req.t) : nat * Req.t :=
  match l with
  | [] => best
  | x :: l => max_on key (if pair_ltb (key best.2) (key x) then (i, x) else best) (S i) l
  end.

Definition direction : Z := if schedule_low_priority_values_first cf then 1 else -1.

(** The result is whether the incoming request is aborted. *)
Definition _abort_on_queued_limit s r : res (bool * Sched C) :=
  let room := match max_queued_requests cf with
              | None => true
              | Some n => len (waiting_queue s) + 1 <=? n
              end in
  if room then Ok (false, s) else
  if enable_priority_scheduling cf then
    let q := refresh (objs s) (waiting_queue s) in
    let! _ := mapM_res (λ x, of_opt TypeError (Req.priority x)) q in
    let! p := of_opt TypeError (Req.priority r) in
    match q with
    | [] => Err ValueError
    | x :: rest =>
        let prio y := direction * default 0 (Req.priority y) in
        let '(idx, candidate) := max_on (λ y, (prio y, wait_queue_entry_time y)) (0%nat, x) 1 rest in
        if direction * p <? prio candidate then
          let s := set_waiting s (take idx (waiting_queue s) ++ drop (S idx) (waiting_queue s)) in
          Ok (bool_decide (Req.rid candidate = Req.rid r), send_output s (AbortReq (Req.rid candidate)))
        else Ok (true, send_output s (AbortReq (Req.rid r)))
    end
  else Ok (true, send_output s (AbortReq (Req.rid r))).

Definition _add_request_to_queue s r : res (Sched C) :=
  match _set_or_validate_priority s (fetch (objs s) r) with
  | (None, s) => Ok s
  | (Some r, s) =>
      let! '(aborted, s) := _abort_on_queued_limit s r in
      Ok (if aborted : bool then s else set_waiting s (waiting_queue s ++ [r]))
  end.

Fixpoint add_all_to_queue s (l : list Req.t) : res (Sched C) :=
  match l with
  | [] => Ok s
  | r :: l => let! s := _add_request_to_queue s r in add_all_to_queue s l
  end.

(** ** Building a prefill batch *)
Definition get_num_allocatable_reqs (running_bs : Z) : Z := pp_max_micro_batch_size cf - running_bs.

(** The loop over the waiting queue.  The results are the flag [batch_is_full],
    the adder, the cache and the objects that the loop has written. *)
Fixpoint admit_loop (full : bool) (a : PrefillAdder) (c : C) (queue : list Req.t) :
    res (bool * PrefillAdder * C * list Req.t) :=
  match queue with
  | [] => Ok (full, a, c, [])
  | req :: queue =>
      let running_bs := len (from_option Batch.reqs [] (PrefillAdder.running_batch a)) - len (preempt_list a) in
      let full := full || (get_num_allocatable_reqs running_bs <=? len (can_run_list a)) in
      let! '(go, a, c) :=
        if full : bool then
          if negb (try_preemption cf) then Ok (false, a, c)
          else preempt_to_schedule CLIP_MAX_NEW_TOKENS wait_queue_entry_time stream is_encoder_decoder None
                 RETRACT_DECODE_STEPS a c req (schedule_low_priority_values_first cf)
        else Ok (true, a, c) in
      if negb (go : bool) then Ok (full, a, c, []) else
      let! '(req, oc) := init_next_round_input req (Some c) in
      let! '(result, req, a, c) := add_one_req CLIP_MAX_NEW_TOKENS a (default c oc) req (truncation_align_size cf) in
      match result with
      | CONTINUE =>
          let! '(full, a, c, touched) := admit_loop full a c queue in Ok (full, a, c, req :: touched)
      | NO_TOKEN => Ok (true, a, c, [req])
      | OTHER => Ok (full, a, c, [req])
      end
  end.

(** A prefill batch that takes the running batch along. *)
Definition mix_batches s (nb : Batch.t) : res (SBatch * Sched C) :=
  let rb := load (objs s) (running_batch s) in
  if is_mixed_chunk cf && negb (sb_is_empty rb) && negb (Batch.return_logprob nb || Batch.return_logprob (sb rb)) then
    let! rb' := filter_batch stream is_encoder_decoder (sb rb) [] None in
    let! '(nb, decoding, s) :=
      if is_empty rb' then Ok (nb, None, s) else
      let! '(rb', c) := prepare_for_decode is_encoder_decoder attention_chunk_size rb' (tree_cache s) in
      let! '(nb, rb') := mix_with_running is_encoder_decoder nb rb' in
      Ok (nb, Some (Batch.reqs rb'), put (set_cache s c) (Batch.reqs rb')) in
    Ok (mkSB nb (chunked_req s) decoding false, set_running_batch s (empty_batch (batch_is_full rb)))
  else Ok (mkSB nb (chunked_req s) None false, s).

(** The last part of [get_new_batch_prefill], once there are requests to run. *)
Definition form_prefill_batch s (a : PrefillAdder) (chunked : option Req.t) : res (SBatch * Sched C) :=
  let can_run := Req.rid <$> can_run_list a in
  let s := set_waiting s (List.filter (λ x, negb (bool_decide (Req.rid x ∈ can_run))) (waiting_queue s)) in
  let! s := add_all_to_queue s (preempt_list a) in
  let! chunked := match new_chunked_req a with
                  | Some r => let! _ := py_assert (bool_decide (chunked = None)) in Ok (Some r)
                  | None => Ok chunked
                  end in
  let chunked := (λ r, let r := fetch (objs s) r in Req.set_is_chunked r (Req.is_chunked r + 1)) <$> chunked in
  let s := set_chunked (put s (option_list chunked)) chunked in
  let b := init_new stream return_hidden_states None (refresh (objs s) (can_run_list a)) (tree_cache s) (enable_overlap cf) in
  let! '(b, c) := prepare_for_extend top_logprobs_num token_ids_logprob multimodal_inputs is_encoder_decoder
                    attention_chunk_size masked oob support_triton b (tree_cache s) in
  mix_batches (put (set_cache s c) (Batch.reqs b)) b.

Definition get_new_batch_prefill s : res (option SBatch * Sched C) :=
  let rb := load (objs s) (running_batch s) in
  let rb := if try_preemption cf then sb_set_full rb false else rb in
  let s := set_running_batch s rb in
  let has_chunked := bool_decide (is_Some (chunked_req s)) in
  if (batch_is_full rb || (len (waiting_queue s) =? 0)) && negb has_chunked then Ok (None, s) else
  let running_bs := len (sb_reqs rb) in
  if (get_num_allocatable_reqs running_bs <=? 0) && negb has_chunked && negb (try_preemption cf)
  then Ok (None, set_running_batch s (sb_set_full rb true)) else
  let! '(policy, c, queue) := sh_calc_priority (sched_policy s) (tree_cache s) (refresh (objs s) (waiting_queue s)) in
  let s := put (set_waiting (set_cache (set_policy s policy) c) queue) queue in
  let a := PrefillAdder_init CLIP_MAX_NEW_TOKENS (server_page_size cf) (tree_cache s) (Some (sb rb)) (new_token_ratio s)
             (max_prefill_tokens cf) (chunked_prefill_size cf) (if is_mixed_chunk cf then running_bs else 0)
             (preemption_threshold cf) in
  let! '(chunked, a) :=
    match chunked_req s with
    | Some r =>
        let! '(r, _) := init_next_round_input (C:=C) (fetch (objs s) r) None in
        add_chunked_req CLIP_MAX_NEW_TOKENS a (tree_cache s) r
    | None => Ok (None, a)
    end in
  let! '(full, a, c, touched) := admit_loop (batch_is_full rb) a (tree_cache s) (refresh (objs s) (waiting_queue s)) in
  let rb := sb_set_full (sb_set rb (default (sb rb) (PrefillAdder.running_batch a))) full in
  let s := set_cache (set_running_batch (set_chunked s chunked) rb) c in
  let s := put s (touched ++ can_run_list a ++ preempt_list a ++ sb_reqs rb) in
  if len (can_run_list a) =? 0 then Ok (None, s) else
  let! '(b, s) := form_prefill_batch s a chunked in
  Ok (Some b, s).

(** ** Decoding *)
Definition Qmax_ (x y : Q) : Q := if Qle_bool x y then y else x.

Definition update_running_batch s : res (Sched C) :=
  let rb := load (objs s) (running_batch s) in
  let initial_bs := batch_size (sb rb) in
  let! b := filter_batch stream is_encoder_decoder (sb rb) [] None in
  if is_empty b then Ok (set_running_batch s (sb_set_full (sb_set rb b) false)) else
  let! '(ok, c) := check_decode_mem b (tree_cache s) 1 None in
  let! '(b, s) :=
    if negb (ok : bool) then
      let! '(retracted, ratio, b, c) := retract_decode stream is_encoder_decoder None RETRACT_DECODE_STEPS b c in
      let s := put (set_ratio (set_cache s c) ratio) (retracted ++ Batch.reqs b) in
      let! s := add_all_to_queue s retracted in Ok (b, s)
    else
      Ok (b, set_ratio (set_cache s c)
               (Qmax_ (new_token_ratio s - new_token_ratio_decay cf)%Q (min_new_token_ratio cf))) in
  let full := if batch_size b <? initial_bs then false else batch_is_full rb in
  let! '(b, c) := prepare_for_decode is_encoder_decoder attention_chunk_size b (tree_cache s) in
  Ok (put (set_running_batch (set_cache s c) (sb_set_full (sb_set rb b) full)) (Batch.reqs b)).

(** ** The next batch *)
Definition is_extend (m : option ForwardMode) : bool :=
  match m with Some EXTEND | Some MIXED | Some DRAFT_EXTEND | Some TARGET_VERIFY | Some SPLIT_PREFILL => true | _ => false end.

(** A request whose prefill goes on leaves its batch and its row of the table. *)
Definition stash_chunked_req s : res (list Req.t * Sched C) :=
  match chunked_req s with
  | None => Ok ([], s)
  | Some r =>
      let! '(r, c) := pc_cache_unfinished_req (tree_cache s) (fetch (objs s) r) in
      let! i := of_opt TypeError (Req.req_pool_idx r) in
      let c := ch_set_pool c (ReqToTokenPool.free1 (ch_pool c) i) in
      Ok ([r], put (set_cache s c) [r])
  end.

Definition resolve s (b : batch_ref) : SBatch := match b with IsRunning => running_batch s | Own b => b end.

(** The finished requests of the last prefill batch are dropped, the others join
    the running batch. *)
Definition merge_last_batch s (chunked_req_to_exclude : list Req.t) : res (Sched C) :=
  match last_batch s with
  | None => Ok s
  | Some ref =>
      let lb := load (objs s) (resolve s ref) in
      if negb (is_extend (Batch.forward_mode (sb lb))) then Ok s else
      let exclude := chunked_req_to_exclude ++ option_list (sb_chunked_req lb) in
      let! b := filter_batch stream is_encoder_decoder (sb lb) exclude None in
      let lb' := sb_set lb b in
      let rb := match ref with IsRunning => lb' | Own _ => load (objs s) (running_batch s) end in
      let rb := if batch_size b <? batch_size (sb lb) then sb_set_full rb false else rb in
      if is_empty b || Batch.is_prefill_only b then Ok (set_running_batch s rb)
      else if sb_is_empty rb then Ok (set_running_batch s lb')
      else let! m := merge_batch is_encoder_decoder (sb rb) b in Ok (set_running_batch s (sb_set rb m))
  end.

Definition get_next_batch_to_run s : res (option batch_ref * Sched C) :=
  let! '(exclude, s) := stash_chunked_req s in
  let! s := merge_last_batch s exclude in
  let! '(new_batch, s) := get_new_batch_prefill s in
  match new_batch with
  | Some b => Ok (Some (Own b), s)
  | None =>
      if sb_is_empty (running_batch s) then Ok (None, s) else
      let! s := update_running_batch s in
      Ok (if sb_is_empty (running_batch s) then None else Some IsRunning, s)
  end.

(** ** Aborting *)
Definition aborts (abort_all : bool) (rid : string) r : bool := abort_all || String.prefix rid (Req.rid r).

Definition abort_request s (abort_all : bool) (rid : string) : Sched C :=
  let gone := List.filter (aborts abort_all rid) (waiting_queue s) in
  let s := set_waiting s (List.filter (λ r, negb (aborts abort_all rid r)) (waiting_queue s)) in
  let s := foldl (λ s r, send_output s (AbortReq (Req.rid r))) s (reverse gone) in
  let reqs := sb_reqs (running_batch s) ++
              match cur_batch s with Some (Own b) => sb_reqs b | _ => [] end in
  let marked := List.filter (λ r, negb (finished r) && aborts abort_all rid r) (refresh (objs s) reqs) in
  put s ((λ r, Req.set_to_finish r (Some (finish_abort None None None))) <$> marked).

(** ** Results *)

(** [req.grammar.accept_token(next_token_id)]. *)
Definition step_grammar s r (token : Z) : Sched C :=
  match Req.grammar r with
  | None => s
  | Some _ =>
      match accept_token r token with
      | Some terminated => put s [Req.set_grammar r (Some terminated)]
      | None => abort_request s false (Req.rid r)
      end
  end.

(** One request of [process_batch_result_prefill]. *)
Definition prefill_result (b : SBatch) s r (next_token_id : Z) : res (Sched C) :=
  let r := fetch (objs s) r in
  if finished r || Req.is_retracted r then Ok s else
  if Req.is_chunked r <=? 0 then
    let! r := check_finished decode re_search (Req.set_output_ids r (Req.output_ids r ++ [next_token_id])) 1 in
    let! '(r, c) :=
      if finished r then release_kv_cache (server_page_size cf) None (tree_cache s) r true
      else if bool_decide (Req.rid r ∈ Req.rid <$> default [] (sb_decoding_reqs b)) then Ok (r, tree_cache s)
      else pc_cache_unfinished_req (tree_cache s) r in
    Ok (step_grammar (put (set_cache s c) [r]) r next_token_id)
  else Ok (put s [Req.set_is_chunked r (Req.is_chunked r - 1)]).

Fixpoint results_loop (step : Sched C → Req.t → Z → res (Sched C)) s (reqs : list Req.t) (next_token_ids : list Z) :
    res (Sched C) :=
  match reqs, next_token_ids with
  | r :: reqs, t :: next_token_ids => let! s := step s r t in results_loop step s reqs next_token_ids
  | _, _ => Ok s
  end.

Definition process_batch_result_prefill s (b : SBatch) (next_token_ids : list Z) : res (Sched C) :=
  results_loop (prefill_result b) s (sb_reqs b) next_token_ids.

(** One request of [process_batch_result_decode]. *)
Definition decode_result s r (next_token_id : Z) : res (Sched C) :=
  let r := fetch (objs s) r in
  if enable_overlap cf && (finished r || Req.is_retracted r) then Ok s else
  let! r := check_finished decode re_search (Req.set_output_ids r (Req.output_ids r ++ [next_token_id])) 1 in
  let! '(r, c) := if finished r then release_kv_cache (server_page_size cf) None (tree_cache s) r true
                  else Ok (r, tree_cache s) in
  Ok (step_grammar (put (set_cache s c) [r]) r next_token_id).

Definition process_batch_result_decode s (b : SBatch) (next_token_ids : list Z) : res (Sched C) :=
  let s := set_cache s (sh_free_group_begin (tree_cache s)) in
  let! s := results_loop decode_result s (sb_reqs b) next_token_ids in
  Ok (set_cache s (sh_free_group_end (tree_cache s))).

Definition process_batch_result s (b : SBatch) (next_token_ids : list Z) : res (Sched C) :=
  let m := Batch.forward_mode (sb b) in
  if bool_decide (m = Some DECODE) then process_batch_result_decode s b next_token_ids
  else if is_extend m then process_batch_result_prefill s b next_token_ids
  else Ok s.

(** ** Iterations of the event loops *)

(** [batch.output_ids = ...] of [run_batch], for the sampled tokens or, with
    overlap, the future indices. *)
Definition set_batch_output s (ref : batch_ref) (ids : list Z) : batch_ref * Sched C :=
  match ref with
  | IsRunning => (IsRunning, set_running_batch s (sb_set (running_batch s) (Batch.set_output_ids (sb (running_batch s)) (Some ids))))
  | Own b => (Own (sb_set b (Batch.set_output_ids (sb b) (Some ids))), s)
  end.

(** One iteration of [event_loop_normal] after the input has been taken in; the
    model samples [forward b]. *)
Definition event_loop_normal (forward : SBatch → list Z) s : res (Sched C) :=
  let! '(batch, s) := get_next_batch_to_run s in
  match batch with
  | None => Ok (set_last (set_cur s None) None)
  | Some ref =>
      let ids := forward (resolve s ref) in
      let '(ref, s) := set_batch_output (set_cur s batch) ref ids in
      let s := set_cur s (Some ref) in
      let! s := process_batch_result s (resolve s ref) ids in
      Ok (set_last s (Some ref))
  end.

(** ** Flushing *)
Definition ref_is_empty s (o : option batch_ref) : bool :=
  match o with None => true | Some ref => sb_is_empty (resolve s ref) end.
Definition _is_no_request s : bool :=
  (len (waiting_queue s) =? 0) && sb_is_empty (running_batch s) && ref_is_empty s (last_batch s) && ref_is_empty s (cur_batch s).

(** [reset] is that of the cache and of its allocator and table. *)
Definition flush_cache (reset : C → C) s : bool * Sched C :=
  if _is_no_request s then (true, set_cache (set_last (set_cur s None) None) (reset (tree_cache s)))
  else (false, s).
End scheduler.
