(* ===== verification/SchedulerTags.v ===== *)
(** * What scheduling does not change about a request

    The operations between two forward passes change where a request is and what
    it holds, not which request it is and whether it has finished: its [tag].
    These are the facts about each of the parts; they hold of every call that
    returns. *)

From Stdlib Require Import QArith.QArith_base.
From S2P Require Import Prelude KVAllocator ReqPool Request RadixTree PrefixCache RadixReq ChunkCache CacheCommon.
From S2P Require Import SchedulePolicy SchedulePolicySpec ScheduleBatch ScheduleBatchSpec PrefillAdder PrefillAdderSpec Scheduler.
#[local] Open Scope Z_scope.

Definition tag (r : Req.t) : string * option FinishReason := (Req.rid r, Req.finished_reason r).
Definition tags (l : list Req.t) : list (string * option FinishReason) := tag <$> l.

Lemma tag_rid r r' : tag r' = tag r → Req.rid r' = Req.rid r.
Proof. unfold tag. congruence. Qed.
Lemma tag_finished r r' : tag r' = tag r → finished r' = finished r.
Proof. unfold tag, finished. intros [= _ ->]. done. Qed.
Lemma tags_rids l l' : tags l' = tags l → Req.rid <$> l' = Req.rid <$> l.
Proof.
  intros E. assert (∀ l, Req.rid <$> l = fst <$> tags l) as Hr by (intros k; unfold tags; by rewrite <-list_fmap_compose).
  by rewrite !Hr, E.
Qed.

(** What the scheduler relies on of a cache and its policy. *)
Class TagLaws (C : Type) `{SchedHost C} := {
  tl_finished c r b r' c' : pc_cache_finished_req c r b = Ok (r', c') → tag r' = tag r;
  tl_unfinished c r r' c' : pc_cache_unfinished_req c r = Ok (r', c') → tag r' = tag r;
  tl_evict_swa c r a b r' c' : from_option (λ f, f c r a b) (Err TypeError) ch_evict_swa = Ok (r', c') → tag r' = tag r;
  tl_policy : schedule_policy → Prop;
  tl_priority p c q p' c' q' : tl_policy p → sh_calc_priority p c q = Ok (p', c', q') → tags q' ≡ₚ tags q ∧ tl_policy p'
}.

(** Follow a computation that returned: open the binds, tuples and tests. *)
Ltac follow1 H :=
  match type of H with
  | res_bind _ ?m = Ok _ => let E := fresh "E" in destruct m eqn:E; cbn beta iota delta [res_bind] in H; [|discriminate H]
  | match ?x with _ => _ end = Ok _ => first [is_var x; destruct x | let E := fresh "E" in destruct x eqn:E]
  | Ok _ = Ok _ => injection H as H; try subst
  | Err _ = Ok _ => discriminate H
  end.
Ltac follow := repeat match goal with H : _ = Ok _ |- _ => progress (follow1 H) end.
(** The same for one hypothesis only. *)
Ltac follows H := repeat (follow1 H; cbn beta iota in H).

(** ** Batches *)
Section batch.
Context (stream : Req.t → bool) (enc : bool).

Lemma full_index {T} (l : list T) keep : NoDup keep → in_range l keep → len keep = len l → keep ≡ₚ py_range 0 (len l).
Proof.
  intros Hnd Hr Hl. apply submseteq_length_Permutation.
  - apply NoDup_submseteq; [done|]. intros i Hi. apply elem_of_py_range. unfold in_range in Hr. rewrite Forall_forall in Hr. by apply Hr.
  - rewrite length_py_range. unfold len in *. lia.
Qed.

(** A batch with its tensors selected has the requests selected. *)
Lemma filter_some b keep excl b' : filter_batch stream enc b excl (Some keep) = Ok b' → in_range (Batch.reqs b) keep →
  Batch.is_prefill_only b' = Batch.is_prefill_only b ∧
  Batch.reqs b' = (if len keep =? 0 then [] else if len keep =? len (Batch.reqs b) then Batch.reqs b else pick (Batch.reqs b) keep).
Proof.
  intros H Hr. unfold filter_batch in H. destruct (len keep =? 0); [by follow|]. destruct (len keep =? len (Batch.reqs b)); [by follow|].
  follow1 H. assert (Batch.reqs a = Batch.reqs b ∧ Batch.is_prefill_only a = Batch.is_prefill_only b) as [Er Ep].
  { destruct enc; follow; done. }
  rewrite Er, (mapM_index _ _ Hr) in H. cbn [res_bind] in H. follow; (split; [exact Ep|done]).
Qed.

(** The requests left after filtering, for a call that returns. *)
Lemma filter_keep b keep excl b' : filter_batch stream enc b excl (Some keep) = Ok b' → NoDup keep → in_range (Batch.reqs b) keep →
  Batch.reqs b' ≡ₚ pick (Batch.reqs b) keep.
Proof.
  intros H Hnd Hr. destruct (filter_some _ _ _ _ H Hr) as [_ ->].
  destruct (Z.eqb_spec (len keep) 0) as [E|E]; [by apply len_zero_iff in E as ->|].
  destruct (Z.eqb_spec (len keep) (len (Batch.reqs b))) as [E'|E']; [|done].
  by rewrite (full_index _ _ Hnd Hr E'), pick_all.
Qed.

Lemma filter_unfinished b excl b' : filter_batch stream enc b excl None = Ok b' →
  Batch.reqs b' = List.filter (goes_on excl) (Batch.reqs b) ∧ Batch.is_prefill_only b' = Batch.is_prefill_only b.
Proof.
  intros H. set (keep := unfinished_indices b excl).
  assert (in_range (Batch.reqs b) keep) as Hr.
  { apply Forall_forall. intros i Hi%list_elem_of_In. unfold keep, unfinished_indices in Hi.
    apply List.filter_In in Hi as [Hi%list_elem_of_In _]. by apply elem_of_py_range in Hi. }
  assert (pick (Batch.reqs b) keep = List.filter (goes_on excl) (Batch.reqs b)) as Hp by apply pick_filter.
  destruct (filter_some b keep excl b' H Hr) as [-> ->]. split; [|done].
  pose proof (length_pick _ _ Hr) as Hlp. rewrite Hp in Hlp.
  destruct (Z.eqb_spec (len keep) 0) as [E|E]; [apply len_zero_iff in E; rewrite <-Hp, E; done|].
  destruct (Z.eqb_spec (len keep) (len (Batch.reqs b))) as [E'|E']; [|done].
  symmetry. apply length_filter_all. unfold len in E'. lia.
Qed.

Lemma merge_reqs b other b' : merge_batch enc b other = Ok b' → Batch.reqs b' = Batch.reqs b ++ Batch.reqs other.
Proof.
  intros H. unfold merge_batch, merge_logprobs in H. destruct enc; cbn in H; follow; done.
Qed.
End batch.

(** Appending to a list under [tags], and lists of the same tags. *)
Lemma tags_app l k : tags (l ++ k) = tags l ++ tags k.
Proof. apply fmap_app. Qed.
Lemma tags_fmap (f : Req.t → Req.t) l : (∀ r, tag (f r) = tag r) → tags (f <$> l) = tags l.
Proof. intros Hf. unfold tags. rewrite <-list_fmap_compose. apply list_fmap_ext. intros i r _. apply Hf. Qed.
Lemma tags_length l l' : tags l' = tags l → length l' = length l.
Proof. intros E. apply (f_equal length) in E. unfold tags in E. by rewrite !length_fmap in E. Qed.
Lemma tags_pick l l' idx : tags l' = tags l → tags (pick l' idx) = tags (pick l idx).
Proof. intros E. unfold tags. rewrite <-!pick_fmap. by f_equal. Qed.
Lemma tags_insert l i r x : l !! i = Some x → tag r = tag x → tags (<[i := r]> l) = tags l.
Proof. intros Hx E. unfold tags. rewrite list_fmap_insert, E. apply list_insert_id. by rewrite list_lookup_fmap, Hx. Qed.

(** [py_index] gives an element. *)
Lemma py_index_elem {T} (l : list T) i x : py_index l i = Ok x → x ∈ l.
Proof.
  unfold py_index. case_if; [discriminate|]. destruct (l !! _) eqn:E; [|discriminate].
  intros [= <-]. by eapply list_elem_of_lookup_2.
Qed.
Lemma py_index_nonneg {T} (l : list T) i x : 0 ≤ i → py_index l i = Ok x → l !! Z.to_nat i = Some x ∧ i < len l.
Proof.
  intros Hi H. unfold py_index in H. rewrite (proj2 (Z.ltb_ge i 0) Hi) in H. cbv beta iota zeta in H.
  rewrite (proj2 (Z.ltb_ge i 0) Hi) in H.
  destruct (l !! Z.to_nat i) eqn:E; [injection H as ->|discriminate]. split; [done|].
  apply lookup_lt_Some in E. unfold len. lia.
Qed.
Lemma mapM_length {X Y} (f : X → res Y) l k : mapM_res f l = Ok k → length k = length l.
Proof. intros H%mapM_res_inv. symmetry. by eapply Forall2_length. Qed.

Section ops.
Context {C : Type} `{TagLaws C}.
Context (CLIP RETRACT_DECODE_STEPS attention_chunk_size : Z) (entry_time : Req.t → Z) (masked oob : Z) (support_triton : bool).
Context (stream return_hidden_states : Req.t → bool) (top_logprobs_num : Req.t → Z)
  (token_ids_logprob : Req.t → option (list Z)) (mm : Req.t → option (option Z)) (enc : bool).
Implicit Types (c : C) (b : Batch.t) (r : Req.t).

(** ** Preparing batches *)

Lemma evict_swa_all_tags c reqs pre k reqs' c' : evict_swa_all c reqs pre k = Ok (reqs', c') → tags reqs' = tags reqs.
Proof.
  unfold evict_swa_all. pose proof tl_evict_swa as Hl. destruct ch_evict_swa as [f|]; [|by intros [= -> ->]]. cbn in Hl.
  revert c pre reqs' c'. induction reqs as [|r reqs IH]; intros c pre reqs' c' E; [by injection E as <- _|].
  destruct pre as [|p pre]; cbn in E; [by injection E as <- _|]. follow. unfold tags. cbn. f_equal; [by eapply Hl|by eapply IH].
Qed.

Lemma alloc_for_extend_tags c reqs pl xl sl slc n k out idx reqs' c' :
  alloc_for_extend masked oob support_triton c reqs pl xl sl slc n k = Ok (out, idx, reqs', c') → tags reqs' = tags reqs.
Proof.
  intros E. unfold alloc_for_extend in E. follows E. by eapply evict_swa_all_tags.
Qed.

Lemma extend_reqs_tags b reqs : ∀ idx sl pl reqs' ids, extend_reqs b reqs idx sl pl = Ok (reqs', ids) →
  length sl = length reqs → length pl = length reqs → tags reqs' = tags reqs.
Proof.
  induction reqs as [|r reqs IH]; intros idx sl pl reqs' ids E Hs Hp; [by injection E as <- _|].
  destruct sl as [|s sl]; [done|]. destruct pl as [|p pl]; [done|]. cbn -[py_index extend_req] in E.
  follows E. unfold tags. cbn. f_equal; [|by eapply IH; [done|cbn in Hs; lia|cbn in Hp; lia]].
  unfold extend_req in *. follow. done.
Qed.

Lemma encoder_info_tags b ids sl b' : prepare_encoder_info_extend mm b ids sl = Ok b' →
  Batch.reqs b' = Batch.reqs b ∧ Batch.forward_mode b' = Batch.forward_mode b ∧ Batch.is_prefill_only b' = Batch.is_prefill_only b.
Proof. intros E. unfold prepare_encoder_info_extend in E. follows E. done. Qed.

Lemma prepare_for_extend_tags b c b' c' :
  prepare_for_extend top_logprobs_num token_ids_logprob mm enc attention_chunk_size masked oob support_triton b c = Ok (b', c') →
  tags (Batch.reqs b') = tags (Batch.reqs b) ∧ Batch.forward_mode b' = Some EXTEND ∧ Batch.is_prefill_only b' = Batch.is_prefill_only b.
Proof.
  intros E. unfold prepare_for_extend in E. follow1 E. destruct a as [[[out idx] rs] c1]. follow1 E. destruct a as [rs' lp].
  pose proof (alloc_for_extend_tags _ _ _ _ _ _ _ _ _ _ _ _ E0) as Et.
  apply extend_reqs_tags in E1; [|rewrite length_fmap; symmetry; by apply tags_length..].
  follow1 E. injection E as <- <-. cbn in Et. set (b1 := if enc then _ else _) in E2.
  assert (Batch.reqs a = rs' ∧ Batch.forward_mode a = Some EXTEND ∧ Batch.is_prefill_only a = Batch.is_prefill_only b) as (-> & -> & ->); [|by rewrite E1].
  unfold b1 in E2. destruct enc; [apply encoder_info_tags in E2 as (-> & -> & ->)|injection E2 as <-]; cbn; destruct (Batch.return_logprob b); done.
Qed.

Lemma prepare_for_decode_tags b c b' c' : prepare_for_decode enc attention_chunk_size b c = Ok (b', c') →
  tags (Batch.reqs b') = tags (Batch.reqs b) ∧ Batch.forward_mode b' = Some DECODE.
Proof.
  intros E. unfold prepare_for_decode in E. follow1 E. follow1 E. follow1 E. follow1 E. follow1 E. destruct a3 as [[out rs] c1].
  assert (tags rs = tags (Batch.reqs b)) as Et.
  { unfold alloc_for_decode in E4. follow1 E4. destruct a3 as [rs' c2]. apply evict_swa_all_tags in E5. follows E4; destruct enc; done. }
  follows E; cbn; (split; [rewrite tags_fmap by done; exact Et|destruct enc; done]).
Qed.

Lemma mix_tags nb rb nb' rb' : mix_with_running enc nb rb = Ok (nb', rb') →
  tags (Batch.reqs rb') = tags (Batch.reqs rb) ∧ Batch.reqs nb' = Batch.reqs nb ++ Batch.reqs rb' ∧
  Batch.forward_mode nb' = Some MIXED ∧ Batch.is_prefill_only nb' = false.
Proof.
  intros E. unfold mix_with_running in E. follows E. rename E2 into Hm. pose proof (merge_reqs _ _ _ _ Hm) as Em. cbn in Em |- *.
  split; [by apply tags_fmap|]. split; [exact Em|]. split; [|done]. unfold merge_batch, merge_logprobs in Hm.
  clear Em. destruct enc; cbn in Hm; follow; done.
Qed.

(** ** Releasing requests *)
Lemma release_kv_cache_tags ps spec c r i r' c' : release_kv_cache ps spec c r i = Ok (r', c') → tag r' = tag r.
Proof.
  intros E. unfold release_kv_cache in E. follow1 E. destruct a as [r1 c1]. apply tl_finished in E0. rewrite <-E0. clear E0.
  unfold pop_overallocated_kv_cache in E. follow; done.
Qed.

Lemma release_req_tags b c i n b' c' : release_req None RETRACT_DECODE_STEPS b c i n = Ok (b', c') → 0 ≤ i →
  tags (Batch.reqs b') = tags (Batch.reqs b) ∧ Batch.is_prefill_only b' = Batch.is_prefill_only b ∧
  Batch.forward_mode b' = Batch.forward_mode b.
Proof.
  intros E Hi. unfold release_req in E. follow1 E. follow1 E. destruct a0 as [r c1]. follow1 E. injection E as <- <-.
  split; [|done]. apply py_index_nonneg in E0 as [Hx _]; [|done]. cbn. eapply tags_insert; [exact Hx|].
  apply release_kv_cache_tags in E1. exact E1.
Qed.

Lemma filter_mode b excl keep b' : filter_batch stream enc b excl keep = Ok b' → Batch.forward_mode b' = Batch.forward_mode b.
Proof.
  intros E. unfold filter_batch in E. follow1 E; [by follow|]. follow1 E; [by follow|]. follow1 E.
  assert (Batch.forward_mode a = Batch.forward_mode b) as <- by (destruct enc; follow; done). follow; done.
Qed.

Lemma retract_loop_tags b0 rev : ∀ b c first gone rev' gone' b' c',
  retract_loop None RETRACT_DECODE_STEPS b c first rev gone = Ok (rev', gone', b', c') → Forall (Z.le 0) rev →
  tags (Batch.reqs b) = tags (Batch.reqs b0) →
  tags (Batch.reqs b') = tags (Batch.reqs b0) ∧ rev' ++ gone' ≡ₚ rev ++ gone.
Proof.
  induction rev as [|i rev IH]; intros b c first gone rev' gone' b' c' E Hf Hb; cbn in E; follow1 E; destruct a as [[] c1].
  1: by injection E as <- <- <- <-. 2: by injection E as <- <- <- <-.
  { discriminate. }
  destruct rev as [|j rev]; [by follows E|]. follow1 E. destruct a as [b1 c2]. apply Forall_cons_1 in Hf as [Hi Hf].
  apply release_req_tags in E1 as (Hb1 & _ & _); [|done]. apply IH in E as [E1 E2]; [|done|by rewrite Hb1]. split; [done|].
  rewrite E2. rewrite app_assoc, (Permutation_app_comm (j :: rev)), <-app_assoc. cbn. solve_Permutation.
Qed.

(** Selecting two sets of indices that make up the whole. *)
Lemma pick_split l l' keep gone : tags l' = tags l → keep ++ gone ≡ₚ py_range 0 (len l) →
  tags (pick l' keep) ++ tags (pick l' gone) ≡ₚ tags l ∧ in_range l' keep ∧ in_range l' gone ∧ NoDup keep.
Proof.
  intros Ht Hp. pose proof (tags_length _ _ Ht) as Hl.
  assert (in_range l' (keep ++ gone)) as [Hk Hg]%Forall_app.
  { unfold in_range. rewrite Hp. apply Forall_forall. intros i Hi%elem_of_py_range. unfold len in *. lia. }
  split; [|split_and!; [done..|]].
  - rewrite <-tags_app, <-pick_app. rewrite <-Ht. unfold tags. rewrite Hp.
    assert (len l = len l') as -> by (unfold len; by rewrite Hl). by rewrite pick_all.
  - assert (NoDup (keep ++ gone)) as Hn by (rewrite Hp; apply NoDup_py_range). apply NoDup_app in Hn. tauto.
Qed.

Lemma retract_decode_tags b c gone q b' c' :
  retract_decode stream enc None RETRACT_DECODE_STEPS b c = Ok (gone, q, b', c') →
  tags (Batch.reqs b') ++ tags gone ≡ₚ tags (Batch.reqs b).
Proof.
  intros E. unfold retract_decode in E. follow1 E. destruct a as [[[rev idx] b1] c1].
  destruct (retract_order_spec b) as [Ho _].
  apply retract_loop_tags with (b0:=b) in E0 as [Ht Hp]; [|rewrite Forall_reverse, Ho; apply Forall_forall; by intros i ?%elem_of_py_range; lia|done].
  rewrite app_nil_r, !reverse_Permutation, Ho in Hp. rewrite <-(reverse_Permutation rev) in Hp.
  destruct (pick_split _ _ _ _ Ht Hp) as (Hs & Hk & Hg & Hn).
  rewrite (mapM_index _ _ Hg) in E. cbn [res_bind] in E. follow1 E. pose proof (filter_keep _ _ _ _ _ _ E0 Hn Hk) as Hf.
  follows E; unfold tags at 1; rewrite Hf; exact Hs.
Qed.

(** ** The adder *)
Lemma preempt_loop_tags b0 chosen reqs : ∀ i cnt keep gone b c keep' gone' b' c',
  preempt_loop None RETRACT_DECODE_STEPS b c chosen reqs i cnt keep gone = Ok (keep', gone', b', c') → 0 ≤ i →
  tags (Batch.reqs b) = tags (Batch.reqs b0) →
  tags (Batch.reqs b') = tags (Batch.reqs b0) ∧ keep' ++ gone' ≡ₚ keep ++ gone ++ py_range i (i + len reqs).
Proof.
  induction reqs as [|r reqs IH]; intros i cnt keep gone b c keep' gone' b' c' E Hi Hb; cbn in E.
  { injection E as <- <- <- <-. by rewrite len_nil, py_range_nil, app_nil_r by lia. }
  assert (py_range i (i + len (r :: reqs)) = [i] ++ py_range (i + 1) (i + 1 + len reqs)) as ->.
  { pose proof (len_nonneg reqs). rewrite len_cons, (py_range_split i (i + 1)) by lia. f_equal; [|f_equal; lia].
    rewrite py_range_snoc by lia. by rewrite py_range_nil by lia. }
  follow1 E.
  - follow1 E. destruct a as [b1 c1]. apply release_req_tags in E1 as (Hb1 & _ & _); [|done].
    apply IH in E as [E1 E2]; [|lia|by rewrite Hb1]. split; [done|]. rewrite E2. solve_Permutation.
  - apply IH in E as [E1 E2]; [|lia|done]. split; [done|]. rewrite E2. solve_Permutation.
Qed.

(** The requests the adder knows of, other than those it has admitted. *)
Definition adder_running (a : PrefillAdder) : list Req.t := from_option Batch.reqs [] (PrefillAdder.running_batch a).

Lemma preempt_tags a c r low (ok : bool) a' c' :
  preempt_to_schedule CLIP entry_time stream enc None RETRACT_DECODE_STEPS a c r low = Ok (ok, a', c') →
  tags (adder_running a') ++ tags (preempt_list a') ≡ₚ tags (adder_running a) ++ tags (preempt_list a) ∧
  can_run_list a' = can_run_list a ∧ new_chunked_req a' = new_chunked_req a ∧
  (PrefillAdder.running_batch a' = None ↔ PrefillAdder.running_batch a = None).
Proof.
  intros E. unfold preempt_to_schedule in E. follow1 E. unfold of_opt in E0. follow1 E0; [|done]. injection E0 as ->.
  follow1 E. follow1 E. follow1 E. follow1 E; [injection E as <- <- <-; split_and!; done || by rewrite E1|]. follow1 E. destruct a4 as [[[keep idx] b1] c1].
  apply preempt_loop_tags with (b0:=a0) in E5 as [Ht Hp]; [|lia|done]. cbn [app] in Hp. rewrite Z.add_0_l in Hp.
  destruct (pick_split _ _ _ _ Ht Hp) as (Hs & Hk & Hg & Hn).
  rewrite (mapM_index _ _ Hg) in E. cbn [res_bind] in E. follow1 E. pose proof (filter_keep _ _ _ _ _ _ E5 Hn Hk) as Hf.
  injection E as <- <- <-. unfold adder_running. cbn. rewrite E1. cbn. split_and!; [|done..].
  rewrite tags_app. unfold tags at 1. rewrite Hf. fold (tags (pick (Batch.reqs b1) keep)). rewrite <-Hs. solve_Permutation.
Qed.

Lemma init_next_round_tags r oc r' oc' : init_next_round_input (C:=C) r oc = Ok (r', oc') → tag r' = tag r.
Proof. intros E. unfold init_next_round_input in E. follow; done. Qed.

(** Admitting a request leaves the others alone. *)
Definition admits (a : PrefillAdder) (r' : Req.t) (a' : PrefillAdder) : Prop :=
  adder_running a' = adder_running a ∧ PrefillAdder.running_batch a' = PrefillAdder.running_batch a ∧
  preempt_list a' = preempt_list a ∧
  ((can_run_list a' = can_run_list a ∧ new_chunked_req a' = new_chunked_req a) ∨
   (can_run_list a' = can_run_list a ++ [r'] ∧ (new_chunked_req a' = new_chunked_req a ∨ new_chunked_req a' = Some r'))).

Lemma ignore_eos_tags a c r x r' a' : add_one_req_ignore_eos CLIP a c r = Ok (x, r', a') → tag r' = tag r ∧ admits a r' a'.
Proof.
  intros E. unfold add_one_req_ignore_eos in E. cbv zeta in E. follow1 E. follow1 E. follow1 E; [injection E as <- <- <-; split; [done|by split_and!; auto]|].
  follow1 E; [injection E as <- <- <-; split; [done|by split_and!; auto]|].
  follow; (split; [done|]); (split_and!; [done..|]); cbn; eauto.
Qed.

Lemma add_locked_tags a c r n al x r' a' c' : add_locked CLIP a c r n al = Ok (x, r', a', c') → tag r' = tag r ∧ admits a r' a'.
Proof.
  intros E. unfold add_locked, load_back in E. cbv zeta in E. follow1 E. follow1 E; [injection E as <- <- <- <-; split; [done|by split_and!; auto]|].
  follow1 E. destruct a1 as [r1 c1]. assert (tag r1 = tag r) as Hr by (follow; done). clear E2.
  follows E; (split; [done|]); (split_and!; [done..|]); cbn; eauto.
Qed.

Lemma add_one_req_tags a c r al x r' a' c' : add_one_req CLIP a c r al = Ok (x, r', a', c') → tag r' = tag r ∧ admits a r' a'.
Proof.
  intros E. unfold add_one_req in E. follow1 E.
  { follow1 E. destruct a0 as [[x1 r1] a1]. injection E as <- <- <- <-. by eapply ignore_eos_tags. }
  follow1 E. follow1 E; [injection E as <- <- <- <-; split; [done|by split_and!; auto]|].
  follow1 E; [injection E as <- <- <- <-; split; [done|by split_and!; auto]|].
  follow1 E. destruct a1 as [? c1]. follow1 E. destruct a1 as [[[early r1] a1] c2].
  match goal with Hl : add_locked _ _ _ _ _ _ = Ok _ |- _ => apply add_locked_tags in Hl end. follows E; done.
Qed.

Lemma add_chunked_tags a c r o a' : add_chunked_req CLIP a c r = Ok (o, a') →
  ∃ r', tag r' = tag r ∧ admits a r' a' ∧ can_run_list a' = can_run_list a ++ [r'] ∧ new_chunked_req a' = new_chunked_req a ∧
    (o = None ∨ o = Some r').
Proof.
  intros E. unfold add_chunked_req in E. follow1 E. follow1 E. injection E as <- <-. eexists. split_and!; cycle 2.
  - reflexivity. - done. - case_match; [by right|by left]. - done. - split_and!; [done..|]. right. split; [reflexivity|by left].
Qed.
End ops.

(** ** The store of request objects

    [tracks m ts]: for each of these tags there is an object that has it. *)
Definition stored (m : gmap string Req.t) (i : string) : Prop := ∃ r, m !! i = Some r ∧ Req.rid r = i.
Definition tracks (m : gmap string Req.t) (ts : list (string * option FinishReason)) : Prop :=
  Forall (λ t, tag <$> m !! t.1 = Some t) ts.
(** Objects change, but neither their ids nor whether they are finished. *)
Definition same_objs (m m' : gmap string Req.t) : Prop := ∀ i, tag <$> m' !! i = tag <$> m !! i.
Definition ids (l : list Req.t) : list string := Req.rid <$> l.

#[export] Instance same_objs_preorder : PreOrder same_objs.
Proof. split; [by intros m i|]. intros m1 m2 m3 E1 E2 i. by rewrite E2. Qed.
#[export] Instance tracks_perm m : Proper ((≡ₚ) ==> iff) (tracks m).
Proof. intros a b E. unfold tracks. by rewrite E. Qed.

Lemma ids_tags l : ids l = fst <$> tags l.
Proof. unfold ids, tags. by rewrite <-list_fmap_compose. Qed.
Lemma ids_same l l' : tags l' = tags l → ids l' = ids l.
Proof. intros E. by rewrite !ids_tags, E. Qed.
Lemma ids_app l k : ids (l ++ k) = ids l ++ ids k.
Proof. apply fmap_app. Qed.

Lemma stored_same m m' i : same_objs m m' → stored m i → stored m' i.
Proof.
  intros E (r & Hr & Hi). specialize (E i). rewrite Hr in E. cbn in E. destruct (m' !! i) as [r'|] eqn:E'; [|done].
  exists r'. split; [done|]. rewrite <-Hi. apply (f_equal (default (tag r))) in E. by apply tag_rid.
Qed.
Lemma all_stored_same m m' l : same_objs m m' → Forall (stored m) l → Forall (stored m') l.
Proof. intros E Hl. eapply Forall_impl; [exact Hl|]. intros i. by apply stored_same. Qed.
Lemma tracks_same m m' ts : same_objs m m' → tracks m ts → tracks m' ts.
Proof. intros E Hl. eapply Forall_impl; [exact Hl|]. intros t Ht. cbn in *. by rewrite E. Qed.
Lemma tracks_app m a b : tracks m (a ++ b) ↔ tracks m a ∧ tracks m b.
Proof. apply Forall_app. Qed.
Lemma tracks_sub m a b : a ⊆ b → tracks m b → tracks m a.
Proof. unfold tracks. rewrite !Forall_forall. intros Hs Hb x Hx. by apply Hb, Hs. Qed.
Lemma tracks_stored m l : tracks m (tags l) → Forall (stored m) (ids l).
Proof.
  rewrite ids_tags. intros Hl. apply Forall_fmap. eapply Forall_impl; [exact Hl|]. intros t Ht. cbn in *.
  destruct (m !! t.1) as [r|] eqn:E; [|done]. injection Ht as Ht. exists r. split; [done|]. by rewrite <-Ht.
Qed.

Lemma fetch_rid m r : stored m (Req.rid r) → Req.rid (fetch m r) = Req.rid r.
Proof. intros (o & Ho & E). unfold fetch. by rewrite Ho. Qed.
Lemma fetch_tracks m r : stored m (Req.rid r) → tracks m [tag (fetch m r)].
Proof.
  intros Hs. apply Forall_singleton. cbn. rewrite fetch_rid by done. destruct Hs as (o & Ho & E). unfold fetch. by rewrite Ho.
Qed.
Lemma refresh_ids m l : Forall (stored m) (ids l) → ids (refresh m l) = ids l.
Proof.
  unfold ids, refresh. rewrite Forall_fmap, <-list_fmap_compose. intros Hl. apply list_fmap_ext. intros i r Hr. cbn. apply fetch_rid.
  rewrite Forall_lookup in Hl. by apply (Hl i).
Qed.
Lemma refresh_tracks m l : Forall (stored m) (ids l) → tracks m (tags (refresh m l)).
Proof.
  unfold ids, refresh, tags, tracks. rewrite !Forall_fmap. intros Hl. eapply Forall_impl; [exact Hl|]. intros r Hr. cbn.
  pose proof (fetch_tracks m r Hr) as Hf. unfold tracks in Hf. rewrite Forall_singleton in Hf. exact Hf.
Qed.

Lemma publish_same m l : tracks m (tags l) → same_objs m (publish m l).
Proof.
  revert m. induction l as [|r l IH]; intros m Hl; [by intros i|]. apply Forall_cons in Hl as [Hr Hl]. cbn in Hr.
  assert (same_objs m (<[Req.rid r := r]> m)) as E.
  { intros i. destruct (decide (Req.rid r = i)) as [<-|]; [|by rewrite lookup_insert_ne].
    rewrite lookup_insert_eq. by rewrite Hr. }
  etrans; [exact E|]. apply (IH (<[Req.rid r := r]> m)). by eapply tracks_same.
Qed.
(** Objects with the same tags have the same ids and are finished together. *)
Lemma tracks_finished m l r o : tracks m (tags l) → r ∈ l → m !! Req.rid r = Some o → finished o = finished r.
Proof.
  intros Hl Hr Ho. unfold tracks, tags in Hl. rewrite Forall_fmap, Forall_forall in Hl. specialize (Hl r Hr). cbn in Hl.
  rewrite Ho in Hl. injection Hl as Hl1 Hl2. unfold finished. by rewrite Hl2.
Qed.

(** ** Permutations by counting

    Lists of ids made of appends: a permutation holds if every id occurs equally
    often, which is arithmetic. *)
Definition occurs (x : string) (l : list string) : nat := count_occ String.string_dec l x.
Lemma occurs_app x l k : occurs x (l ++ k) = (occurs x l + occurs x k)%nat.
Proof. apply count_occ_app. Qed.
Lemma occurs_nil x : occurs x [] = 0%nat.
Proof. done. Qed.
Lemma perm_occurs l k : l ≡ₚ k ↔ ∀ x, occurs x l = occurs x k.
Proof. apply (Permutation_count_occ String.string_dec). Qed.
Lemma nodup_occurs l : NoDup l ↔ ∀ x, (occurs x l ≤ 1)%nat.
Proof. rewrite NoDup_ListNoDup. apply (NoDup_count_occ String.string_dec). Qed.
Ltac perm_lia :=
  first [apply perm_occurs | apply nodup_occurs]; let x := fresh "x" in intros x;
  repeat match goal with
  | H : NoDup (A:=string) _ |- _ => rewrite nodup_occurs in H; specialize (H x)
  | H : @Permutation string _ _ |- _ => rewrite perm_occurs in H; specialize (H x)
  | H : @eq (list string) _ _ |- _ => apply (f_equal (occurs x)) in H
  end;
  rewrite ?occurs_app, ?occurs_nil in *; lia.
