(* ===== verification/SchedulerHosts.v ===== *)
(** * Caches the scheduler runs with

    The radix cache and the chunk cache, each over the token allocator, as
    [SchedHost]s, and the facts about them that the scheduler relies on: their
    operations on requests keep the tag of the request, and the policy permutes the
    queue. *)

From Stdlib Require Import QArith.QArith_base.
From S2P Require Import Prelude KVAllocator ReqPool Request RadixTree PrefixCache RadixReq ChunkCache CacheCommon.
From S2P Require Import SchedulePolicy SchedulePolicySpec ScheduleBatch PrefillAdder PrefillAdderSpec Scheduler SchedulerTags.
#[local] Open Scope Z_scope.

(** ** The policy keeps tags *)
Section policy.
Context {A : Type} `{KVAllocatorSpec.KVPool A} (clock : nat → Z) (hash : list token → Z) (cfg : config).
Context (wait_queue_entry_time : Req.t → Z) (shuffle : list Req.t → list Req.t) (uninit : Z → Z) (check threshold : Z).
Context (shuffle_perm : ∀ l, shuffle l ≡ₚ l).

Lemma match_all_tags q : ∀ (st : cache A) wt dep q' st' wt' dep',
  match_all clock hash cfg uninit check threshold st wt dep q = Ok (q', st', wt', dep') → tags q' = tags q.
Proof.
  induction q as [|r q IH]; intros st wt dep q' st' wt' dep' E; cbn in E; [by injection E as <- _ _ _|].
  follow1 E. destruct a as [[[r1 st1] wt1] dep1]. follow1 E. destruct a as [[[q1 st2] wt2] dep2]. injection E as <- _ _ _.
  apply IH in E1. unfold tags in *. cbn. rewrite E1. f_equal. clear -E0. unfold match_one in E0. follow; done.
Qed.

Lemma sort_on_tags {K} (ltb : K → K → bool) keys q : length keys = length q → tags (sort_on ltb keys q) ≡ₚ tags q.
Proof. intros Hl. unfold tags. by rewrite sort_on_perm. Qed.

Lemma priorities_length low q ps : priorities low q = Ok ps → length ps = length q.
Proof.
  unfold priorities, plain_priorities, negated_priorities. intros E. destruct low; [|by eapply mapM_length].
  follow1 E; [injection E as <-; by rewrite length_fmap|by eapply mapM_length].
Qed.

Lemma calc_priority_tags (s : schedule_policy) (st : cache A) q computed s' st' q' : SchedulePolicy.policy s ≠ Aware DFS_WEIGHT →
  calc_priority clock hash cfg wait_queue_entry_time shuffle uninit check threshold s st q = Ok (computed, s', st', q') →
  tags q' ≡ₚ tags q ∧ SchedulePolicy.policy s' = SchedulePolicy.policy s.
Proof.
  intros Hp E. unfold calc_priority in E. destruct (decide (policy s = Agnostic FCFS)).
  { follow1 E. injection E as _ <- _ <-. split; [|done]. follow1 E0; [|by injection E0 as <-].
    unfold _sort_by_priority_and_fcfs in E0. follow1 E0. injection E0 as <-. apply sort_on_tags.
    match goal with Hl : priorities _ _ = Ok _ |- _ => apply priorities_length in Hl end. rewrite zip_length; rewrite length_fmap; congruence. }
  assert (_determine_active_policy s q = policy s ∨ _determine_active_policy s q = Agnostic FCFS) as Hd.
  { unfold _determine_active_policy. destruct (_ && _); auto. }
  destruct (_determine_active_policy s q) as [[]|[]]; try (by injection E as _ <- _ <-).
  - follow1 E. destruct a as [[[q1 st1] s1] dep]. injection E as _ <- _ <-. unfold _compute_prefix_matches in E0. follow1 E0.
    destruct a as [[[q2 st2] wt2] dep2]. injection E0 as <- _ <- _. apply match_all_tags in E. split; [|done].
    unfold _sort_by_longest_prefix. rewrite sort_on_tags by (by rewrite length_fmap). by rewrite E.
  - destruct Hd as [Hd|Hd]; [by rewrite <-Hd in Hp|done].
  - follow1 E. injection E as _ <- _ <-. split; [|done]. unfold _sort_by_longest_output in E0. cbv zeta in E0. follow1 E0.
    + follow1 E0. injection E0 as <-. apply sort_on_tags.
      match goal with Hl : priorities _ _ = Ok _ |- _ => apply priorities_length in Hl end. rewrite zip_length; rewrite length_fmap; congruence.
    + injection E0 as <-. apply sort_on_tags. by rewrite length_fmap.
  - injection E as _ <- _ <-. split; [|done]. unfold tags. by rewrite shuffle_perm.
Qed.
End policy.

Section hosts.
Context (clock : nat → Z) (hash : list token → Z) (cfg : config) (topk : option Z).
Context (wait_queue_entry_time : Req.t → Z) (shuffle : list Req.t → list Req.t) (uninit : Z → Z) (check threshold : Z).
Context (shuffle_perm : ∀ l, shuffle l ≡ₚ l).

(** The radix cache, with the policies of [SchedulePolicy] on its tree. *)
#[export] Instance radix_sched_host : SchedHost (radix_state Base.t) := {|
  sh_adder := radix_adder_host clock hash cfg topk;
  sh_calc_priority p s q :=
    let! '(_, p, t, q) := calc_priority clock hash cfg wait_queue_entry_time shuffle uninit check threshold p (tree s) q in
    Ok (p, mkState t (req_pool s), q);
  sh_free_group_begin s := set_tree_alloc s (Base.free_group_begin (allocator (tree s)));
  sh_free_group_end s := set_tree_alloc s (Base.free_group_end TokenAlloc.free (allocator (tree s)))
|}.

#[export, refine] Instance radix_tag_laws : @TagLaws (radix_state Base.t) radix_sched_host := {|
  tl_policy p := SchedulePolicy.policy p ≠ Aware DFS_WEIGHT
|}.
Proof.
  - intros c r b r' c' E. cbn in E. unfold RadixReq.cache_finished_req, pop_committed_kv_cache in E. follow; done.
  - intros c r r' c' E. cbn in E. unfold RadixReq.cache_unfinished_req in E. follow; done.
  - done.
  - intros p c q p' c' q' Hp E. cbn in E. follow1 E. destruct a as [[[x p1] t] q1]. injection E as <- <- <-.
    apply (calc_priority_tags _ _ _ _ _ _ _ _ shuffle_perm _ _ _ _ _ _ _ Hp) in E0 as [H1 H2]. by rewrite H2.
Defined.

(** The chunk caches know no prefixes: with them [SchedulePolicy.__init__] has
    replaced a policy that is aware of the cache by [FCFS], so that the policy only
    looks at the queue. *)
#[export] Instance chunk_sched_host : SchedHost (chunk_cache Base.t) := {|
  sh_adder := chunk_adder_host topk;
  sh_calc_priority p c q :=
    match SchedulePolicy.policy p with
    | Aware _ => Err AttributeError
    | Agnostic _ =>
        let! '(_, p, _, q) := calc_priority clock hash queue_cfg wait_queue_entry_time shuffle uninit check threshold p
                                (waiting_queue_radix_tree p) q in
        Ok (p, c, q)
    end;
  sh_free_group_begin c := set_ck_alloc c (Base.free_group_begin (ck_alloc c));
  sh_free_group_end c := set_ck_alloc c (Base.free_group_end TokenAlloc.free (ck_alloc c))
|}.

#[export, refine] Instance chunk_tag_laws : @TagLaws (chunk_cache Base.t) chunk_sched_host := {|
  tl_policy p := ∃ a, SchedulePolicy.policy p = Agnostic a
|}.
Proof.
  - intros c r b r' c' E. cbn in E. unfold ChunkCache.cache_finished_req, pop_committed_kv_cache in E. follow; done.
  - intros c r r' c' E. cbn in E. unfold ChunkCache.cache_unfinished_req in E. follow; done.
  - done.
  - intros p c q p' c' q' [a Hp] E. cbn in E. rewrite Hp in E. follow1 E. destruct a0 as [[[x p1] t] q1]. injection E as <- <- <-.
    apply (calc_priority_tags _ _ _ _ _ _ _ _ shuffle_perm) in E0 as [H1 H2]; [|by rewrite Hp]. split; [done|]. exists a. by rewrite H2.
Defined.
End hosts.
