(* ===== verification/SchedulerSpec.v ===== *)
(** * What the scheduler does with its requests

    No request is lost: an iteration moves requests between the waiting queue, the
    running batch and the last prefill batch, drops those that have finished, and
    tells the client about those it aborts.  The two exceptions are named:
    preemption without an admission (a run of SchedulerDemo.v), and an unfinished
    request left in a batch that only prefills ([prefill_leftover]). *)

From Stdlib Require Import QArith.QArith_base.
From S2P Require Import Prelude KVAllocator ReqPool Request RadixTree PrefixCache RadixReq ChunkCache CacheCommon.
From S2P Require Import SchedulePolicy SchedulePolicySpec ScheduleBatch ScheduleBatchSpec PrefillAdder PrefillAdderSpec Scheduler SchedulerTags.
#[local] Open Scope Z_scope.

Definition queued {C} (s : Sched C) : list string := ids (waiting_queue s).

Section spec.
Context {C : Type} `{TagLaws C} (cf : SchedConfig).
Context (CLIP_MAX_NEW_TOKENS RETRACT_DECODE_STEPS attention_chunk_size : Z) (wait_queue_entry_time : Req.t → Z).
Context (stream return_hidden_states : Req.t → bool) (top_logprobs_num : Req.t → Z)
  (token_ids_logprob : Req.t → option (list Z)) (multimodal_inputs : Req.t → option (option Z)) (is_encoder_decoder : bool).
Context (masked oob : Z) (support_triton : bool).
Context (decode : list Z → text) (re_search : text → text → bool) (accept_token : Req.t → Z → option bool).
Implicit Types (s : Sched C) (r : Req.t).

(** ** The waiting queue *)

(** Only the queue and the output change; [gone] are the requests aborted. *)
Record queue_step s s' (gone : list string) : Prop := {
  qs_objs : same_objs (objs s) (objs s');
  qs_sent : sent s' = sent s ++ (AbortReq <$> gone);
  qs_running : running_batch s' = running_batch s;
  qs_last : last_batch s' = last_batch s;
  qs_cur : cur_batch s' = cur_batch s;
  qs_chunked : chunked_req s' = chunked_req s;
  qs_policy : sched_policy s' = sched_policy s
}.

Lemma queue_step_refl s : queue_step s s [].
Proof. split; [done| |done..]. by rewrite app_nil_r. Qed.
Lemma queue_step_trans s1 s2 s3 g1 g2 : queue_step s1 s2 g1 → queue_step s2 s3 g2 → queue_step s1 s3 (g1 ++ g2).
Proof. intros [] []. split; [by etrans|congruence || (rewrite fmap_app, app_assoc; congruence)|congruence..]. Qed.

Lemma set_priority_step s r o s' : _set_or_validate_priority cf s r = (o, s') → tracks (objs s) [tag r] →
  waiting_queue s' = waiting_queue s ∧
  ((∃ r', o = Some r' ∧ tag r' = tag r ∧ queue_step s s' []) ∨ (o = None ∧ queue_step s s' [Req.rid r])).
Proof.
  intros E Hr. unfold _set_or_validate_priority in E. destruct (Req.priority r).
  - destruct (negb _ && _); injection E as <- <-; (split; [done|]); [right|left]; [by split|]. exists r. split_and!; [done..|apply queue_step_refl].
  - destruct (enable_priority_scheduling cf); injection E as <- <-; (split; [done|]); left; eexists; (split; [reflexivity|]); (split; [done|]).
    + split; cbn; [|by rewrite app_nil_r|done..]. by apply (publish_same _ [_]).
    + apply queue_step_refl.
Qed.

Lemma max_on_lookup key l : ∀ best i (q : list Req.t), (∀ j x, l !! j = Some x → q !! (i + j)%nat = Some x) → q !! best.1 = Some best.2 →
  q !! (max_on key best i l).1 = Some (max_on key best i l).2.
Proof.
  induction l as [|x l IH]; intros best i q Hl Hb; [done|]. cbn. apply IH.
  - intros j y Hj. specialize (Hl (S j) y Hj). by replace (S i + j)%nat with (i + S j)%nat by lia.
  - destruct (pair_ltb _ _); [|done]. cbn. specialize (Hl 0%nat x eq_refl). by rewrite Nat.add_0_r in Hl.
Qed.

Lemma queued_limit_step s r ab s' : _abort_on_queued_limit cf wait_queue_entry_time s r = Ok (ab, s') →
  Forall (stored (objs s)) (queued s) → Req.rid r ∉ queued s → ∃ gone, queue_step s s' gone ∧
  queued s ++ [Req.rid r] ≡ₚ (if ab : bool then queued s' else queued s' ++ [Req.rid r]) ++ gone.
Proof.
  intros E Hs Hn. unfold _abort_on_queued_limit in E. cbv zeta in E.
  follow1 E; [injection E as <- <-; exists []; split; [apply queue_step_refl|by rewrite app_nil_r]|].
  assert (queue_step s (send_output s (AbortReq (Req.rid r))) [Req.rid r]) as Hrej by (split; done).
  follow1 E; [|injection E as <- <-; by exists [Req.rid r]].
  follow1 E. follow1 E. destruct (refresh (objs s) (waiting_queue s)) as [|x rest] eqn:Eq; [done|].
  destruct (max_on _ _ _ _) as [i cand] eqn:Em. follow1 E; [|injection E as <- <-; by exists [Req.rid r]]. injection E as <- <-.
  match type of Em with max_on ?k ?b ?n ?l = _ => pose proof (max_on_lookup k l b n (x :: rest)) as Hm end.
  rewrite Em in Hm. cbn [fst snd] in Hm. specialize (Hm ltac:(by intros j y) eq_refl). rewrite <-Eq in Hm.
  assert (queued s !! i = Some (Req.rid cand)) as Hi.
  { unfold queued. rewrite <-(refresh_ids (objs s)) by done. unfold ids. by rewrite list_lookup_fmap, Hm. }
  rewrite bool_decide_false by (intros Ec; apply Hn; rewrite <-Ec; by eapply list_elem_of_lookup_2).
  exists [Req.rid cand]. split; [by split|]. rewrite <-(take_drop_middle _ _ _ Hi) at 1.
  unfold queued. cbn. rewrite ids_app. unfold ids. rewrite fmap_take, fmap_drop. solve_Permutation.
Qed.

Lemma add_request_step s r s' : _add_request_to_queue cf wait_queue_entry_time s r = Ok s' →
  Forall (stored (objs s)) (queued s ++ [Req.rid r]) → Req.rid r ∉ queued s →
  ∃ gone, queue_step s s' gone ∧ queued s ++ [Req.rid r] ≡ₚ queued s' ++ gone.
Proof.
  intros E Hs Hn. apply Forall_app in Hs as [Hs Hr]. rewrite Forall_singleton in Hr. unfold _add_request_to_queue in E.
  destruct (_set_or_validate_priority _ _ _) as [o s1] eqn:E1.
  apply set_priority_step in E1; [|by apply fetch_tracks]. destruct E1 as [Hq [(r' & -> & Ht & H1)|[-> H1]]].
  2: { injection E as <-. rewrite fetch_rid in H1 by done. exists [Req.rid r]. split; [done|]. unfold queued. by rewrite Hq. }
  assert (Req.rid r' = Req.rid r) as Hr' by (rewrite (tag_rid _ _ Ht); by apply fetch_rid).
  assert (queued s1 = queued s) as Hq1 by (unfold queued; by rewrite Hq).
  follow1 E. destruct a as [ab s2]. apply queued_limit_step in E0 as (gone & H2 & Hp);
    [|rewrite Hq1; eapply all_stored_same; [apply H1|done]|by rewrite Hr', Hq1].
  rewrite Hq1, Hr' in Hp. exists gone. injection E as <-. split.
  - pose proof (queue_step_trans _ _ _ _ _ H1 H2) as []. destruct ab; by split.
  - rewrite Hp. destruct ab; [done|]. unfold queued. cbn. by rewrite ids_app, <-Hr'.
Qed.

Lemma add_all_step l : ∀ s s', add_all_to_queue cf wait_queue_entry_time s l = Ok s' →
  Forall (stored (objs s)) (queued s ++ ids l) → NoDup (queued s ++ ids l) →
  ∃ gone, queue_step s s' gone ∧ queued s ++ ids l ≡ₚ queued s' ++ gone.
Proof.
  induction l as [|r l IH]; intros s s' E Hs Hn; cbn in E.
  { injection E as <-. exists []. split; [apply queue_step_refl|done]. }
  follow1 E. change (ids (r :: l)) with ([Req.rid r] ++ ids l) in Hs, Hn |- *. rewrite app_assoc in Hs, Hn |- *.
  apply Forall_app in Hs as [Hs1 Hs2]. pose proof Hn as (Hn1 & Hn2 & Hn3)%NoDup_app.
  apply add_request_step in E0 as (g1 & H1 & P1); [|done|apply NoDup_app in Hn1 as (_ & Hn1 & _); intros Hin; by apply (Hn1 _ Hin), list_elem_of_singleton].
  apply IH in E as (g2 & H2 & P2).
  - exists (g1 ++ g2). split; [by eapply queue_step_trans|]. rewrite P1. rewrite <-app_assoc, (Permutation_app_comm g1), app_assoc, P2. solve_Permutation.
  - eapply all_stored_same; [apply H1|]. rewrite P1 in Hs1. apply Forall_app in Hs1 as [Hs1 _]. by apply Forall_app.
  - rewrite P1 in Hn. rewrite <-app_assoc, (Permutation_app_comm g1), app_assoc in Hn. by apply NoDup_app in Hn as (? & _).
Qed.

(** ** Forming a prefill batch *)

(** What the loop over the queue does to the adder. *)
Record admitted_from (queue : list Req.t) (a a' : PrefillAdder) : Prop := {
  af_new : ∃ new, can_run_list a' = can_run_list a ++ new ∧ tags new `sublist_of` tags queue ∧
    (new_chunked_req a' = new_chunked_req a ∨ ∃ r, r ∈ new ∧ new_chunked_req a' = Some r);
  af_running : tags (adder_running a') ++ tags (preempt_list a') ≡ₚ tags (adder_running a) ++ tags (preempt_list a);
  af_none : PrefillAdder.running_batch a' = None ↔ PrefillAdder.running_batch a = None;
  af_preempt : try_preemption cf = false → preempt_list a' = preempt_list a
}.

Lemma admitted_from_refl queue a : admitted_from queue a a.
Proof. split; [|done..]. exists []. rewrite app_nil_r. split_and!; [done|apply sublist_nil_l|by left]. Qed.

Lemma admitted_from_trans r queue a1 a2 a3 : admitted_from [r] a1 a2 → admitted_from queue a2 a3 → admitted_from (r :: queue) a1 a3.
Proof.
  intros [(n1 & E1 & S1 & C1) R1 N1 P1] [(n2 & E2 & S2 & C2) R2 N2 P2]. split.
  - exists (n1 ++ n2). split; [by rewrite E2, E1, app_assoc|]. split.
    + rewrite tags_app. change (tags (r :: queue)) with (tags [r] ++ tags queue). by apply sublist_app.
    + destruct C2 as [->|(r2 & Hr2 & ->)]; [|right; exists r2; split; [apply elem_of_app; by right|done]].
      destruct C1 as [->|(r1 & Hr1 & ->)]; [by left|right; exists r1; split; [apply elem_of_app; by left|done]].
  - by rewrite R2.
  - by rewrite N2.
  - intros Hp. by rewrite P2, P1.
Qed.

(** Steps that admit nothing. *)
Lemma admitted_from_more queue a a' : admitted_from [] a a' → admitted_from queue a a'.
Proof.
  intros [(n & E & Sn & Cn) R N P]. split; [|done..]. exists n. split_and!; [done|etrans; [exact Sn|apply sublist_nil_l]|done].
Qed.
Lemma admitted_from_pre queue a1 a2 a3 : admitted_from [] a1 a2 → admitted_from queue a2 a3 → admitted_from queue a1 a3.
Proof.
  intros [(n & E & Sn & Cn) R N P] [(n' & E' & Sn' & Cn') R' N' P']. apply sublist_nil_r, fmap_nil_inv in Sn as ->. rewrite app_nil_r in E.
  split; [|by rewrite R'|by rewrite N'|intros; by rewrite P', P]. exists n'. rewrite E', E. split_and!; [done..|].
  destruct Cn as [Cn|(? & []%not_elem_of_nil & _)]. by rewrite <-Cn.
Qed.

Lemma admits_from r r' a a' : admits a r' a' → tag r' = tag r → admitted_from [r] a a'.
Proof.
  intros (Hr & Hb & Hp & Hc) Ht. split; [|by rewrite Hr, Hp|by rewrite Hb|done].
  destruct Hc as [[-> ->]|[-> Hn]].
  - exists []. rewrite app_nil_r. split_and!; [done|apply sublist_nil_l|by left].
  - exists [r']. split_and!; [done|unfold tags; cbn; by rewrite Ht|]. destruct Hn as [->| ->]; [by left|right; exists r'; split; [by apply list_elem_of_singleton|done]].
Qed.

Lemma preempt_from r queue a c low (ok : bool) a' c' :
  preempt_to_schedule CLIP_MAX_NEW_TOKENS wait_queue_entry_time stream is_encoder_decoder None RETRACT_DECODE_STEPS a c r low = Ok (ok, a', c') →
  try_preemption cf = true → admitted_from queue a a'.
Proof.
  intros (Hp & Hc & Hn & Hb)%preempt_tags Htp. split; [|done|done|congruence].
  exists []. rewrite app_nil_r. split_and!; [done|apply sublist_nil_l|by left].
Qed.

Lemma admit_loop_spec queue : ∀ full a c full' a' c' touched,
  admit_loop cf CLIP_MAX_NEW_TOKENS RETRACT_DECODE_STEPS wait_queue_entry_time stream is_encoder_decoder full a c queue = Ok (full', a', c', touched) →
  admitted_from queue a a' ∧ tags touched `sublist_of` tags queue.
Proof.
  induction queue as [|r queue IH]; intros full a c full' a' c' touched E; cbn -[preempt_to_schedule add_one_req init_next_round_input] in E.
  { injection E as <- <- <- <-. split; [apply admitted_from_refl|done]. }
  follow1 E. destruct a0 as [[go a1] c1]. assert (admitted_from [] a a1) as H1.
  { follow1 E0; [|injection E0 as <- <- <-; apply admitted_from_refl].
    follow1 E0; [injection E0 as <- <- <-; apply admitted_from_refl|]. eapply preempt_from; [exact E0|]. by apply negb_false_iff. }
  follow1 E; [injection E as <- <- <- <-; split; [by eapply admitted_from_more|apply sublist_nil_l]|].
  follow1 E. destruct a0 as [r1 oc]. apply init_next_round_tags in E2. follow1 E. destruct a0 as [[[x r2] a2] c2].
  apply add_one_req_tags in E3 as [Ht Hadm]. rewrite E2 in Ht. pose proof (admits_from r r2 a1 a2 Hadm Ht) as H2.
  pose proof (admitted_from_pre _ _ _ _ H1 H2) as H3.
  assert (∀ a3 t, admitted_from queue a2 a3 → tags t `sublist_of` tags queue → admitted_from (r :: queue) a a3 ∧ tags (r2 :: t) `sublist_of` tags (r :: queue)) as Hfin.
  { intros a3 t Ha Hs. split; [by eapply admitted_from_trans|]. unfold tags. cbn. rewrite Ht. by apply sublist_skip. }
  destruct x.
  - follow1 E. destruct a0 as [[[f a3] c3] t]. injection E as <- <- <- <-. 
    match goal with Hl : admit_loop _ _ _ _ _ _ _ _ _ _ = Ok _ |- _ => apply IH in Hl as [H4 Hs] end. by apply Hfin.
  - injection E as <- <- <- <-. apply Hfin; [apply admitted_from_refl|apply sublist_nil_l].
  - injection E as <- <- <- <-. apply Hfin; [apply admitted_from_refl|apply sublist_nil_l].
Qed.

(** Finished, as the objects say. *)
Definition done_in (m : gmap string Req.t) (i : string) : Prop := ∃ r, m !! i = Some r ∧ finished r = true.

Lemma done_same m m' l : same_objs m m' → Forall (done_in m) l → Forall (done_in m') l.
Proof.
  intros E Hl. eapply Forall_impl; [exact Hl|]. intros i (r & Hr & Hf). specialize (E i). rewrite Hr in E.
  destruct (m' !! i) as [r'|] eqn:Hr'; [|done]. exists r'. split; [done|]. rewrite <-Hf. apply tag_finished.
  by apply (f_equal (default (tag r))) in E.
Qed.

Lemma filter_split (P : Req.t → bool) l : ids l ≡ₚ ids (List.filter P l) ++ ids (List.filter (λ r, negb (P r)) l).
Proof.
  induction l as [|r l IH]; [done|]. cbn. destruct (P r); cbn; rewrite IH; [done|]. by rewrite Permutation_middle.
Qed.

(** The requests a filter drops: the excluded ones, and finished ones. *)
Lemma filter_drops m excl l : tracks m (tags l) → ∃ done,
  ids l ≡ₚ ids (List.filter (goes_on excl) l) ++ done ++ ids (List.filter (λ r, bool_decide (Req.rid r ∈ ids excl)) l) ∧
  Forall (done_in m) done.
Proof.
  intros Hl. exists (ids (List.filter (λ r, finished r && negb (bool_decide (Req.rid r ∈ ids excl))) l)). split.
  - clear Hl. induction l as [|r l IH]; [done|]. unfold goes_on in *. cbn.
    fold (ids excl). destruct (finished r), (bool_decide (Req.rid r ∈ ids excl)); cbn; rewrite IH; solve_Permutation.
  - apply Forall_fmap, Forall_forall. intros r Hr%list_elem_of_In%List.filter_In. destruct Hr as [Hr%list_elem_of_In [Hf _]%andb_prop].
    pose proof (tracks_stored _ _ Hl) as Hs. unfold ids in Hs. rewrite Forall_fmap, Forall_forall in Hs.
    destruct (Hs r Hr) as (o & Ho & Hi). exists o. split; [exact Ho|]. rewrite <-Hf. by eapply tracks_finished.
Qed.

(** Filtering a batch that has been loaded. *)
Lemma load_ids m b : Forall (stored m) (ids (sb_reqs b)) → ids (sb_reqs (load m b)) = ids (sb_reqs b).
Proof. intros Hs. by apply (refresh_ids m). Qed.

Lemma filter_live m b b' : filter_batch stream is_encoder_decoder (sb (load m b)) [] None = Ok b' → Forall (stored m) (ids (sb_reqs b)) →
  ∃ done, ids (sb_reqs b) ≡ₚ ids (Batch.reqs b') ++ done ∧ Forall (done_in m) done ∧ tracks m (tags (Batch.reqs b')).
Proof.
  intros [E _]%filter_unfinished Hs. pose proof (refresh_tracks m (sb_reqs b) Hs) as Ht.
  destruct (filter_drops m [] _ Ht) as (done & Hp & Hd). exists done. split; [|split; [done|]].
  - rewrite refresh_ids in Hp by done. rewrite Hp, E. cbn [Batch.reqs sb load sb_set Batch.set_reqs].
    assert (∀ l : list Req.t, List.filter (λ r, bool_decide (Req.rid r ∈ ids [])) l = []) as ->; [|by rewrite app_nil_r].
    induction l as [|r l IH]; [done|]. cbn. by rewrite bool_decide_false by apply not_elem_of_nil.
  - rewrite E. revert Ht. unfold tracks. rewrite !Forall_forall. intros Ht x Hx. apply Ht. unfold tags in *.
    apply list_elem_of_fmap in Hx as (r & -> & Hr). apply list_elem_of_fmap_2.
    apply list_elem_of_In, List.filter_In in Hr as [Hr _]. by apply list_elem_of_In.
Qed.

(** Steps that leave the queue alone. *)
Record still s s' : Prop := {
  st_objs : same_objs (objs s) (objs s');
  st_queue : waiting_queue s' = waiting_queue s;
  st_sent : sent s' = sent s;
  st_last : last_batch s' = last_batch s;
  st_cur : cur_batch s' = cur_batch s;
  st_policy : sched_policy s' = sched_policy s
}.

Lemma still_put s l : tracks (objs s) (tags l) → still s (put s l).
Proof. intros Hl. by split; [apply publish_same|..]. Qed.

Lemma mix_spec s nb b s' : mix_batches cf attention_chunk_size stream is_encoder_decoder s nb = Ok (b, s') →
  Forall (stored (objs s)) (ids (sb_reqs (running_batch s))) → Batch.forward_mode nb = Some EXTEND →
  ∃ done mixed, still s s' ∧ chunked_req s' = chunked_req s ∧ sb_chunked_req b = chunked_req s ∧ is_extend (Batch.forward_mode (sb b)) = true ∧
    ids (sb_reqs b) = ids (Batch.reqs nb) ++ mixed ∧
    ids (sb_reqs (running_batch s)) ≡ₚ ids (sb_reqs (running_batch s')) ++ mixed ++ done ∧ Forall (done_in (objs s)) done.
Proof.
  intros E Hs Hm. unfold mix_batches in E. cbv zeta in E. follow1 E.
  2: { injection E as <- <-. exists [], []. rewrite !app_nil_r. split_and!; try done. cbn. by rewrite Hm. }
  follow1 E. follow1 E. destruct a0 as [[nb1 dec] s1]. injection E as <- <-.
  destruct (filter_live _ _ _ E1 Hs) as (done & Hp & Hd & Ht). exists done, (ids (Batch.reqs a)).
  follow1 E2.
  - injection E2 as <- <- <-. unfold is_empty in E. apply Z.eqb_eq, len_zero_iff in E. rewrite E in *.
    split_and!; try done; cbn; [by rewrite Hm|by rewrite app_nil_r].
  - follow1 E2. destruct a0 as [rb1 c1]. follow1 E2. destruct a0 as [nb2 rb2]. injection E2 as <- <- <-.
    apply prepare_for_decode_tags in E3 as [Ht1 _]. apply mix_tags in E4 as (Ht2 & Hr2 & Hm2 & _). rewrite Ht1 in Ht2.
    split_and!; try done.
    + split; cbn; [apply publish_same; by rewrite Ht2|done..].
    + cbn. by rewrite Hm2.
    + cbn. unfold sb_reqs. cbn. by rewrite Hr2, ids_app, (ids_same _ _ Ht2).
Qed.

(** Taking the admitted requests out of the queue. *)
Lemma take_admitted q (ch new : list string) : NoDup (ids q) → new ⊆+ ids q → (∀ i, i ∈ ch → i ∉ ids q) →
  ids q ≡ₚ ids (List.filter (λ x, negb (bool_decide (Req.rid x ∈ ch ++ new))) q) ++ new.
Proof.
  intros Hnd Hs Hch. apply NoDup_Permutation; [done|..].
  - apply NoDup_app. split_and!.
    + eapply sublist_NoDup; [exact Hnd|]. clear. induction q as [|r q IH]; [done|]. cbn. destruct (negb _); by constructor.
    + intros i Hi%list_elem_of_fmap Hn. destruct Hi as (r & -> & Hr%list_elem_of_In%List.filter_In). destruct Hr as [_ Hr].
      apply negb_true_iff, bool_decide_eq_false in Hr. apply Hr, elem_of_app. by right.
    + apply submseteq_Permutation in Hs as [k Hk]. rewrite Hk in Hnd. by apply NoDup_app in Hnd as [? _].
  - intros i. rewrite elem_of_app. unfold ids. rewrite !list_elem_of_fmap. split.
    + intros (r & -> & Hr). destruct (decide (Req.rid r ∈ new)) as [Hn|Hn]; [by right|left]. exists r. split; [done|].
      apply list_elem_of_In, List.filter_In. split; [by apply list_elem_of_In|]. apply negb_true_iff, bool_decide_eq_false.
      intros [Hc|Hc]%elem_of_app; [|done]. apply (Hch _ Hc). by apply list_elem_of_fmap_2.
    + intros [(r & -> & Hr%list_elem_of_In%List.filter_In)|Hn]; [destruct Hr as [Hr%list_elem_of_In _]; by exists r|].
      apply (elem_of_submseteq _ _ _ Hn) in Hs as Hn'. by apply list_elem_of_fmap in Hn'.
Qed.

Lemma form_spec s a chunked b s' ch new :
  form_prefill_batch cf attention_chunk_size wait_queue_entry_time stream return_hidden_states top_logprobs_num token_ids_logprob
    multimodal_inputs is_encoder_decoder masked oob support_triton s a chunked = Ok (b, s') →
  ids (can_run_list a) = ch ++ new → new ⊆+ queued s →
  NoDup (queued s ++ ids (preempt_list a) ++ ch) →
  Forall (stored (objs s)) (queued s ++ ids (sb_reqs (running_batch s)) ++ ids (preempt_list a) ++ ch) →
  (∀ r, chunked = Some r ∨ new_chunked_req a = Some r → Req.rid r ∈ ids (can_run_list a)) →
  ∃ done gone,
    same_objs (objs s) (objs s') ∧ sent s' = sent s ++ (AbortReq <$> gone) ∧ last_batch s' = last_batch s ∧
    cur_batch s' = cur_batch s ∧ sched_policy s' = sched_policy s ∧
    queued s ++ ids (sb_reqs (running_batch s)) ++ ids (preempt_list a) ++ ch ≡ₚ
      queued s' ++ ids (sb_reqs (running_batch s')) ++ ids (sb_reqs b) ++ done ++ gone ∧
    Forall (done_in (objs s)) done ∧ is_extend (Batch.forward_mode (sb b)) = true ∧ sb_chunked_req b = chunked_req s' ∧
    ids (option_list (chunked_req s')) ⊆ ids (sb_reqs b) ∧
    ∃ mixed, ids (sb_reqs b) = ids (can_run_list a) ++ mixed ∧
      ids (sb_reqs (running_batch s)) ≡ₚ ids (sb_reqs (running_batch s')) ++ mixed ++ done.
Proof.
  intros E Hcr Hnew Hnd Hst Hch. unfold form_prefill_batch in E. cbv zeta in E. follow1 E. rename a0 into s1.
  set (q1 := List.filter _ (waiting_queue s)) in E0.
  assert (queued s ≡ₚ ids q1 ++ new) as Hq.
  { unfold q1. fold (ids (can_run_list a)). rewrite Hcr. apply take_admitted; [by apply NoDup_app in Hnd as [? _]|done|].
    intros i Hi Hiq. apply NoDup_app in Hnd as (_ & Hnd & _). apply (Hnd i Hiq), elem_of_app. by right. }
  apply Forall_app in Hst as [Hs1 [Hs2 [Hs3 Hs4]%Forall_app]%Forall_app].
  assert (Forall (stored (objs s)) (ids q1) ∧ Forall (stored (objs s)) new) as [Hs5 Hs6] by (rewrite Hq in Hs1; by apply Forall_app in Hs1).
  rewrite app_assoc in Hnd. pose proof Hnd as (Hnd1 & _ & _)%NoDup_app.
  apply add_all_step in E0 as (gone & [Ho1 Hsent1 Hr1 Hl1 Hc1 Hk1 Hp1] & Hp); cbn [queued waiting_queue set_waiting] in *;
    [|by apply Forall_app|rewrite Hq in Hnd1; rewrite <-app_assoc, (Permutation_app_comm new), app_assoc in Hnd1; by apply NoDup_app in Hnd1 as [? _]].
  change (queued (set_waiting s q1)) with (ids q1) in Hp. cbn in Ho1, Hsent1, Hr1, Hl1, Hc1, Hp1.
  follow1 E. rename a0 into o. assert (o = chunked ∨ o = new_chunked_req a) as Ho by (destruct (new_chunked_req a); follow; auto). clear E0.
  assert (∀ r, o = Some r → Req.rid r ∈ ids (can_run_list a)) as Hor by (intros r ->; apply Hch; destruct Ho as [<-|<-]; auto).
  assert (Forall (stored (objs s1)) (ids (can_run_list a))) as Hcan by (rewrite Hcr; apply Forall_app; split; eapply all_stored_same; done).
  set (o' := (λ r, _) <$> o) in E.
  assert (tracks (objs s1) (tags (option_list o')) ∧ ids (option_list o') ⊆ ids (can_run_list a)) as [Hto Hio].
  { unfold o'. destruct o as [r|]; cbn; [|split; [constructor|apply list_subseteq_nil]].
    assert (stored (objs s1) (Req.rid r)) as Hsr by (rewrite Forall_forall in Hcan; by apply Hcan, Hor).
    split; [exact (fetch_tracks _ _ Hsr)|]. intros i Hi. apply list_elem_of_singleton in Hi as ->.
    change (Req.rid (fetch (objs s1) r) ∈ ids (can_run_list a)). rewrite fetch_rid by done. by apply Hor. }
  clearbody o'. set (s2 := set_chunked (put s1 (option_list o')) o') in E.
  assert (same_objs (objs s1) (objs s2)) as Ho2 by (apply (publish_same _ _ Hto)).
  assert (Forall (stored (objs s2)) (ids (can_run_list a))) as Hcan2 by (by eapply all_stored_same).
  follow1 E. destruct a0 as [b1 c1]. apply prepare_for_extend_tags in E0 as (Ht & Hm & _). cbn [init_new Batch.reqs] in Ht.
  assert (same_objs (objs s) (objs (put (set_cache s2 c1) (Batch.reqs b1)))) as Hos.
  { etrans; [exact Ho1|]. etrans; [exact Ho2|]. apply publish_same. cbn. rewrite Ht. by apply refresh_tracks. }
  apply mix_spec in E as (dn & mixed & [Ho3 Hq3 Hsent3 Hl3 Hc3 Hp3] & Hk3 & Hb3 & He3 & Hr3 & Hrun & Hd); [|cbn; rewrite Hr1; by eapply all_stored_same|done].
  cbn in Hq3, Hsent3, Hl3, Hc3, Hp3, Hk3, Hb3, Hrun.
  assert (ids (sb_reqs b) = ch ++ new ++ mixed) as Hbr.
  { rewrite Hr3, (ids_same _ _ Ht), (refresh_ids (objs s2)), Hcr, app_assoc by done. done. }
  exists dn, gone. split; [etrans; [exact Hos|exact Ho3]|]. split; [congruence|]. split; [congruence|]. split; [congruence|]. split; [congruence|].
  split_and!.
  - assert (queued s' = queued s1) as -> by (unfold queued; by rewrite Hq3). rewrite Hr1 in Hrun. clear -Hp Hq Hrun Hbr. perm_lia.
  - eapply done_same; [|exact Hd]. intros i. symmetry. apply Hos.
  - done.
  - congruence.
  - rewrite Hk3, Hbr. etrans; [exact Hio|]. rewrite Hcr, app_assoc. intros i Hi. apply elem_of_app. by left.
  - exists mixed. rewrite Hbr, Hcr, app_assoc, <-Hr1. by split.
Qed.

Lemma sublist_ids l k : tags l `sublist_of` tags k → ids l ⊆+ ids k.
Proof. intros Hs%sublist_submseteq. rewrite !ids_tags. apply submseteq_Permutation in Hs as [x Hx]. rewrite Hx, fmap_app. apply submseteq_inserts_r, reflexivity. Qed.
Lemma tracks_sublist m l k : tags l `sublist_of` tags k → tracks m (tags k) → tracks m (tags l).
Proof. intros Hs. apply tracks_sub. intros x Hx. by eapply elem_of_submseteq, sublist_submseteq. Qed.

(** The request whose prefill goes on comes first. *)
Lemma start_adder s a0 c chunked a1 : Forall (stored (objs s)) (ids (option_list (chunked_req s))) →
  match chunked_req s with
  | Some r =>
      let! '(r, _) := init_next_round_input (C:=C) (fetch (objs s) r) None in
      add_chunked_req CLIP_MAX_NEW_TOKENS a0 c r
  | None => Ok (None, a0)
  end = Ok (chunked, a1) → can_run_list a0 = [] → new_chunked_req a0 = None →
  ids (can_run_list a1) = ids (option_list (chunked_req s)) ∧ tracks (objs s) (tags (can_run_list a1)) ∧
  new_chunked_req a1 = None ∧ adder_running a1 = adder_running a0 ∧ preempt_list a1 = preempt_list a0 ∧
  PrefillAdder.running_batch a1 = PrefillAdder.running_batch a0 ∧ (∀ r, chunked = Some r → r ∈ can_run_list a1).
Proof.
  intros Hs E Hc Hn. destruct (chunked_req s) as [r|].
  - cbn in Hs. apply Forall_cons in Hs as [Hs _]. follow1 E. destruct a as [r1 oc]. apply init_next_round_tags in E0.
    apply add_chunked_tags in E as (r' & Ht & (Hr & Hb & Hp & _) & Hc1 & Hn1 & Ho). rewrite Hc in Hc1. rewrite E0 in Ht.
    pose proof (fetch_tracks _ _ Hs) as Hf. rewrite Hc1, Hn1. split_and!; try done.
    + cbn. rewrite (tag_rid _ _ Ht). by rewrite fetch_rid.
    + cbn. by rewrite Ht.
    + intros r2 ->. destruct Ho as [|[= ->]]; [done|by apply list_elem_of_singleton].
  - injection E as <- <-. rewrite Hc, Hn. split_and!; try done. constructor.
Qed.

Lemma start_len (o : option Req.t) (m : gmap string Req.t) a0 c chunked a1 :
  match o with
  | Some r =>
      let! '(r, _) := init_next_round_input (C:=C) (fetch m r) None in
      add_chunked_req CLIP_MAX_NEW_TOKENS a0 c r
  | None => Ok (None, a0)
  end = Ok (chunked, a1) →
  len (can_run_list a1) = len (can_run_list a0) + len (option_list o) ∧ adder_running a1 = adder_running a0 ∧ preempt_list a1 = preempt_list a0.
Proof.
  intros E. destruct o as [r|]; [|injection E as _ <-; cbn; rewrite len_nil; split_and!; [lia|done..]].
  follow1 E. destruct a as [r1 oc]. apply add_chunked_tags in E as (r' & _ & (Hr & _ & Hp & _) & Hc1 & _). by rewrite Hc1, len_app.
Qed.

(** What becomes of requests in a step that returns a batch or not. *)
Record conserves (before after : list string) s s' (done gone lost : list string) : Prop := {
  cv_objs : same_objs (objs s) (objs s');
  cv_sent : sent s' = sent s ++ (AbortReq <$> gone);
  cv_ids : before ≡ₚ after ++ done ++ gone ++ lost;
  cv_done : Forall (done_in (objs s)) done
}.

Definition running_ids s : list string := ids (sb_reqs (running_batch s)).
Definition chunked_ids s : list string := ids (option_list (chunked_req s)).

(** A prefill batch that has been formed. *)
Definition prefilled s' (b : SBatch) : Prop :=
  is_extend (Batch.forward_mode (sb b)) = true ∧ sb_chunked_req b = chunked_req s' ∧ chunked_ids s' ⊆ ids (sb_reqs b).
Definition batch_ids (o : option SBatch) : list string := from_option (λ b, ids (sb_reqs b)) [] o.

(** The state once the loop has chosen requests. *)
Definition chosen s0 s (a : PrefillAdder) (chunked : option Req.t) : Prop :=
  same_objs (objs s0) (objs s) ∧ queued s ≡ₚ queued s0 ∧ sent s = sent s0 ∧ last_batch s = last_batch s0 ∧ cur_batch s = cur_batch s0 ∧
  tl_policy (sched_policy s) ∧ running_ids s ++ ids (preempt_list a) ≡ₚ running_ids s0 ∧
  (∃ new, ids (can_run_list a) = chunked_ids s0 ++ new ∧ new ⊆+ queued s) ∧
  (try_preemption cf = false → preempt_list a = []) ∧ chunked_req s = chunked ∧
  (∀ r, chunked = Some r ∨ new_chunked_req a = Some r → Req.rid r ∈ ids (can_run_list a)).

Lemma form_chosen s0 s a chunked b s' : chosen s0 s a chunked →
  form_prefill_batch cf attention_chunk_size wait_queue_entry_time stream return_hidden_states top_logprobs_num token_ids_logprob
    multimodal_inputs is_encoder_decoder masked oob support_triton s a chunked = Ok (b, s') →
  NoDup (queued s0 ++ running_ids s0 ++ chunked_ids s0) →
  Forall (stored (objs s0)) (queued s0 ++ running_ids s0 ++ chunked_ids s0) →
  ∃ done gone, conserves (queued s0 ++ running_ids s0 ++ chunked_ids s0) (queued s' ++ running_ids s' ++ batch_ids (Some b)) s0 s' done gone [] ∧
    last_batch s' = last_batch s0 ∧ cur_batch s' = cur_batch s0 ∧ tl_policy (sched_policy s') ∧ prefilled s' b ∧
    ∃ mixed, ids (sb_reqs b) = ids (can_run_list a) ++ mixed ∧ running_ids s ≡ₚ running_ids s' ++ mixed ++ done.
Proof.
  intros (Ho & Hq & Hsent & Hl & Hc & Hpol & Hr & (new & Hcr & Hnew) & Hpr & Hk & Hch) E Hnd Hst.
  assert (NoDup (queued s ++ ids (preempt_list a) ++ chunked_ids s0) ∧
    Forall (stored (objs s)) (queued s ++ ids (sb_reqs (running_batch s)) ++ ids (preempt_list a) ++ chunked_ids s0)) as [Hnd' Hst'].
  { rewrite <-Hq, <-Hr in Hst. split; [unfold running_ids in *; clear -Hnd Hq Hr; perm_lia|].
    eapply all_stored_same; [exact Ho|]. by rewrite <-app_assoc in Hst. }
  apply (form_spec s a chunked b s' (chunked_ids s0) new) in E as (dn & gone & Ho' & Hsent' & Hl' & Hc' & Hp' & Hperm & Hd & He & Hbk & Hkb & mixed & Hbm & Hrm); [|done..].
  exists dn, gone. split.
  - split; [by etrans|by rewrite Hsent', Hsent| |eapply done_same; [|exact Hd]; intros i; symmetry; apply Ho].
    cbn [batch_ids from_option]. unfold running_ids in *. perm_lia.
  - rewrite Hl', Hc', Hp'. split_and!; try done. by exists mixed.
Qed.

(** The part that chooses, from the policy to the end of the loop. *)
Lemma choose_spec s rb policy c queue chunked a1 full a2 c' touched :
  sh_calc_priority (sched_policy s) (tree_cache s) (refresh (objs s) (waiting_queue s)) = Ok (policy, c, queue) →
  let s1 := put (set_waiting (set_cache (set_policy s policy) c) queue) queue in
  let a0 := PrefillAdder_init CLIP_MAX_NEW_TOKENS (server_page_size cf) (tree_cache s1) (Some (sb rb)) (new_token_ratio s1)
    (max_prefill_tokens cf) (chunked_prefill_size cf) (if is_mixed_chunk cf then len (sb_reqs rb) else 0) (preemption_threshold cf) in
  match chunked_req s1 with
  | Some r =>
      let! '(r, _) := init_next_round_input (C:=C) (fetch (objs s1) r) None in
      add_chunked_req CLIP_MAX_NEW_TOKENS a0 (tree_cache s1) r
  | None => Ok (None, a0)
  end = Ok (chunked, a1) →
  admit_loop cf CLIP_MAX_NEW_TOKENS RETRACT_DECODE_STEPS wait_queue_entry_time stream is_encoder_decoder (batch_is_full rb) a1 (tree_cache s1)
    (refresh (objs s1) (waiting_queue s1)) = Ok (full, a2, c', touched) →
  tl_policy (sched_policy s) → Forall (stored (objs s)) (queued s ++ running_ids s ++ chunked_ids s) →
  ids (sb_reqs rb) = running_ids s → tracks (objs s) (tags (sb_reqs rb)) →
  let rb' := sb_set_full (sb_set rb (default (sb rb) (PrefillAdder.running_batch a2))) full in
  let s2 := set_cache (set_running_batch (set_chunked s1 chunked) rb') c' in
  chosen s (put s2 (touched ++ can_run_list a2 ++ preempt_list a2 ++ sb_reqs rb')) a2 chunked.
Proof.
  intros Epol s1 a0 Ea1 Ea2 Hpol Hst Hrb Htr rb' s2. apply (tl_priority _ _ _ _ _ _ Hpol) in Epol as [Hq Hpol'].
  apply Forall_app in Hst as [Hs1 [Hs2 Hs3]%Forall_app]. pose proof (refresh_tracks _ _ Hs1) as Hqt.
  assert (same_objs (objs s) (objs s1)) as Ho1 by (apply publish_same; unfold set_waiting, set_cache, set_policy; cbn; by rewrite Hq).
  assert (queued s1 ≡ₚ queued s) as Hq1 by (unfold queued, s1; cbn; rewrite ids_tags, Hq, <-ids_tags; by rewrite refresh_ids).
  assert (Forall (stored (objs s1)) (queued s1)) as Hs1' by (rewrite Hq1; by eapply all_stored_same).
  apply start_adder in Ea1 as (Hch & Hct & Hn1 & Hr1 & Hp1 & Hb1 & Hck); [|by eapply all_stored_same|done..].
  apply admit_loop_spec in Ea2 as [[(new & Hcan & Hsub & Hnc) Hrun Hnone Hpre] Htou].
  rewrite Hr1, Hp1 in Hrun. cbn in Hrun. rewrite app_nil_r in Hrun. fold (sb_reqs rb) in Hrun.
  assert (∃ b2, PrefillAdder.running_batch a2 = Some b2) as [b2 Hb2].
  { destruct (PrefillAdder.running_batch a2) eqn:Eb; [by eexists|]. destruct Hnone as [Hnone _]. specialize (Hnone eq_refl). by rewrite Hb1 in Hnone. }
  assert (sb_reqs rb' = adder_running a2) as Hrb' by (unfold rb', adder_running; by rewrite Hb2). rewrite <-Hrb' in Hrun.
  pose proof (refresh_tracks _ _ Hs1') as Hqt1.
  assert (same_objs (objs s1) (objs (put s2 (touched ++ can_run_list a2 ++ preempt_list a2 ++ sb_reqs rb')))) as Ho2.
  { apply publish_same. cbn. rewrite !tags_app, Hcan, !tags_app, !tracks_app. split_and!; [by eapply tracks_sublist|done|by eapply tracks_sublist|..].
    all: apply (tracks_same _ _ _ Ho1) in Htr; rewrite <-Hrun, tracks_app in Htr; tauto. }
  split; [by etrans|]. split; [exact Hq1|]. split; [done|]. split; [done|]. split; [done|]. split; [exact Hpol'|].
  split; [change (running_ids (put s2 _)) with (ids (sb_reqs rb')); rewrite <-Hrb, <-ids_app, !ids_tags, tags_app; by rewrite Hrun|].
  split.
  { exists (ids new). rewrite Hcan, ids_app. split; [by rewrite Hch|]. apply sublist_ids in Hsub. by rewrite refresh_ids in Hsub. }
  split; [intros Hp; by rewrite Hpre, Hp1|]. split; [done|].
  intros r Hr. rewrite Hcan, ids_app. apply elem_of_app. destruct Hr as [Hr|Hr].
  - left. by apply list_elem_of_fmap_2, Hck.
  - destruct Hnc as [Hnc|(r' & Hr' & Hnc)]; [congruence|]. right. rewrite Hnc in Hr. injection Hr as <-. by apply list_elem_of_fmap_2.
Qed.

Definition new_batch_result s o s' : Prop :=
  ∃ done gone lost, conserves (queued s ++ running_ids s ++ chunked_ids s) (queued s' ++ running_ids s' ++ batch_ids o) s s' done gone lost ∧
    last_batch s' = last_batch s ∧ cur_batch s' = cur_batch s ∧ tl_policy (sched_policy s') ∧
    (lost ≠ [] → try_preemption cf = true ∧ o = None) ∧
    match o with Some b => prefilled s' b | None => chunked_req s' = None end.

Lemma no_new_batch s b' o s' : Ok (None, set_running_batch s b') = Ok (o, s') → ids (sb_reqs b') = running_ids s →
  bool_decide (is_Some (chunked_req s)) = false → tl_policy (sched_policy s) → new_batch_result s o s'.
Proof.
  intros [= <- <-] Hb' Hc%bool_decide_eq_false Hp. assert (chunked_req s = None) as Hc' by (destruct (chunked_req s); [by destruct Hc|done]).
  exists [], [], []. split; [|done]. unfold running_ids in *. unfold chunked_ids. cbn. rewrite Hc'. split; cbn; [done|by rewrite app_nil_r| |done].
  by rewrite Hb', !app_nil_r.
Qed.

Lemma new_batch_spec s o s' :
  get_new_batch_prefill cf CLIP_MAX_NEW_TOKENS RETRACT_DECODE_STEPS attention_chunk_size wait_queue_entry_time stream
    return_hidden_states top_logprobs_num token_ids_logprob multimodal_inputs is_encoder_decoder masked oob support_triton s = Ok (o, s') →
  tl_policy (sched_policy s) → NoDup (queued s ++ running_ids s ++ chunked_ids s) →
  Forall (stored (objs s)) (queued s ++ running_ids s ++ chunked_ids s) →
  new_batch_result s o s'.
Proof.
  intros E Hpol Hnd Hst. unfold get_new_batch_prefill in E. cbv zeta in E.
  set (rb := if try_preemption cf then _ else _) in E.
  pose proof Hst as [Hs1 [Hs2 Hs3]%Forall_app]%Forall_app.
  assert (sb_reqs rb = refresh (objs s) (sb_reqs (running_batch s))) as Hrq by (unfold rb; by destruct (try_preemption cf)).
  assert (ids (sb_reqs rb) = running_ids s) as Hrb by (rewrite Hrq; by apply refresh_ids).
  change (chunked_req (set_running_batch s rb)) with (chunked_req s) in E.
  follow1 E. { apply andb_prop in E0 as [_ Hc%negb_true_iff]. by eapply no_new_batch. }
  follow1 E. { apply andb_prop in E1 as [[_ Hc%negb_true_iff]%andb_prop _]. by eapply (no_new_batch s (sb_set_full rb true)). }
  follow1 E. destruct a as [[pol c] queue]. follow1 E. destruct a as [chunked a1]. follow1 E. destruct a as [[[full a2] c'] touched].
  pose proof (choose_spec (set_running_batch s rb) rb pol c queue chunked a1 full a2 c' touched) as Hch. cbv zeta in Hch.
  specialize (Hch ltac:(assumption) ltac:(assumption) ltac:(assumption)).
  set (s0 := set_running_batch s rb) in *. assert (running_ids s0 = running_ids s) as Hr0 by exact Hrb.
  assert (queued s0 ++ running_ids s0 ++ chunked_ids s0 = queued s ++ running_ids s ++ chunked_ids s) as Hb0 by by rewrite Hr0.
  rewrite Hb0 in Hch. specialize (Hch Hpol Hst eq_refl ltac:(rewrite Hrq; by apply refresh_tracks)).
  set (s2 := put _ _) in Hch, E. destruct (Z.eqb_spec (len (can_run_list a2)) 0) as [En|_].
  - injection E as <- <-. apply len_zero_iff in En. destruct Hch as (Ho & Hq & Hsent & Hl & Hc & Hp & Hr & (new & Hcan & _) & Hpre & Hk & Hkc).
    rewrite En in Hcan. symmetry in Hcan. apply app_eq_nil in Hcan as [Hcan _]. exists [], [], (ids (preempt_list a2)).
    split; [split; [exact Ho|by rewrite app_nil_r| |done]|split_and!; [done..| |]].
    + rewrite <-Hb0, Hcan. cbn [batch_ids from_option]. perm_lia.
    + intros Hne. split; [|done]. destruct (try_preemption cf); [done|]. by rewrite Hpre in Hne.
    + rewrite Hk. destruct chunked as [r|]; [|done]. specialize (Hkc r (or_introl eq_refl)). rewrite En in Hkc. by apply not_elem_of_nil in Hkc.
  - follow1 E. destruct a as [b s3]. injection E as <- <-. 
    match goal with Hf : form_prefill_batch _ _ _ _ _ _ _ _ _ _ _ _ _ _ _ = Ok _ |- _ => apply (form_chosen _ _ _ _ _ _ Hch) in Hf; [rename Hf into Hfm|by rewrite Hb0..] end.
    destruct Hfm as (dn & gone & Hcv & Hl & Hc & Hp & Hpf & _). exists dn, gone, []. rewrite Hb0 in Hcv. split; [|by split_and!].
    by destruct Hcv.
Qed.

(** Without preemption the loop stops at the size limit. *)
Lemma admit_loop_bound queue : ∀ full a c full' a' c' touched,
  admit_loop cf CLIP_MAX_NEW_TOKENS RETRACT_DECODE_STEPS wait_queue_entry_time stream is_encoder_decoder full a c queue = Ok (full', a', c', touched) →
  try_preemption cf = false → preempt_list a = [] →
  len (can_run_list a') ≤ Z.max (len (can_run_list a)) (pp_max_micro_batch_size cf - len (adder_running a)).
Proof.
  induction queue as [|r queue IH]; intros full a c full' a' c' touched E Hp Hnil; cbn -[preempt_to_schedule add_one_req init_next_round_input] in E.
  { injection E as <- <- <- <-. lia. }
  rewrite Hp, Hnil in E. cbn [negb] in E. destruct (full || _) eqn:Ef; cbn [res_bind negb] in E; [injection E as <- <- <- <-; lia|].
  apply orb_false_iff in Ef as [_ Ef%Z.leb_gt]. unfold get_num_allocatable_reqs in Ef. change (from_option Batch.reqs [] (PrefillAdder.running_batch a)) with (adder_running a) in Ef.
  rewrite len_nil in Ef. follow1 E. destruct a0 as [r1 oc]. follow1 E. destruct a0 as [[[x r2] a2] c2].
  apply add_one_req_tags in E1 as [_ (Hr & _ & Hp2 & Hc)]. rewrite Hnil in Hp2.
  assert (len (can_run_list a2) ≤ pp_max_micro_batch_size cf - len (adder_running a)) as Hle.
  { destruct Hc as [[-> _]|[-> _]]; rewrite ?len_app; unfold len in *; cbn in *; lia. }
  destruct x; [|injection E as <- <- <- <-; lia..]. follow1 E. destruct a0 as [[[f a3] c3] t]. injection E as <- <- <- <-.
  match goal with Hl : admit_loop _ _ _ _ _ _ _ _ _ _ = Ok _ |- _ => apply IH in Hl; [|done..] end. rewrite Hr in *. lia.
Qed.

(** ** Decoding *)

(** Retraction, or lowering the estimate of what the requests will need. *)
Lemma retract_or_go_on s b (ok : bool) c b1 s1 : tracks (objs s) (tags (Batch.reqs b)) →
  (if negb ok then
     let! '(retracted, ratio, b, c) := retract_decode stream is_encoder_decoder None RETRACT_DECODE_STEPS b c in
     let s := put (set_ratio (set_cache s c) ratio) (retracted ++ Batch.reqs b) in
     let! s := add_all_to_queue cf wait_queue_entry_time s retracted in Ok (b, s)
   else Ok (b, set_ratio (set_cache s c) (Qmax_ (new_token_ratio s - new_token_ratio_decay cf)%Q (min_new_token_ratio cf)))) = Ok (b1, s1) →
  Forall (stored (objs s)) (queued s) → NoDup (queued s ++ ids (Batch.reqs b)) →
  ∃ gone, queue_step s s1 gone ∧ queued s ++ ids (Batch.reqs b) ≡ₚ queued s1 ++ ids (Batch.reqs b1) ++ gone ∧
    tracks (objs s1) (tags (Batch.reqs b1)).
Proof.
  intros Ht E Hs Hnd. destruct ok; cbn [negb] in E.
  { injection E as <- <-. exists []. split; [split; [done|by rewrite app_nil_r|done..]|]. rewrite app_nil_r. by split. }
  follow1 E. destruct a as [[[gone q] b2] c2]. cbv zeta in E. follow1 E. injection E as <- <-.
  apply retract_decode_tags in E0. set (s0 := put _ _) in E1.
  assert (tracks (objs s) (tags (gone ++ Batch.reqs b2))) as Ht2 by (by rewrite tags_app, (Permutation_app_comm (tags gone)), E0).
  assert (same_objs (objs s) (objs s0)) as Ho by (by apply publish_same).
  assert (ids (Batch.reqs b) ≡ₚ ids (Batch.reqs b2) ++ ids gone) as Hp by (rewrite !ids_tags, <-fmap_app; by rewrite E0).
  change (queued s) with (queued s0) in Hs, Hnd |- *.
  pose proof (tracks_stored _ _ Ht2) as Hst. rewrite ids_app in Hst.
  apply add_all_step in E1 as (g & Hq & Hq2).
  - destruct Hq as [Ho' ? ? ? ? ? ?]. exists g. split; [split; [by etrans|done..]|]. split; [clear -Hp Hq2; perm_lia|].
    rewrite tags_app, tracks_app in Ht2. eapply tracks_same; [etrans; [exact Ho|exact Ho']|apply Ht2].
  - eapply all_stored_same; [exact Ho|]. apply Forall_app in Hst as [Hst _]. by apply Forall_app.
  - clear -Hnd Hp. perm_lia.
Qed.

Lemma update_running_spec s s' :
  update_running_batch cf RETRACT_DECODE_STEPS attention_chunk_size wait_queue_entry_time stream is_encoder_decoder s = Ok s' →
  NoDup (queued s ++ running_ids s) → Forall (stored (objs s)) (queued s ++ running_ids s) →
  ∃ done gone, conserves (queued s ++ running_ids s) (queued s' ++ running_ids s') s s' done gone [] ∧
    last_batch s' = last_batch s ∧ cur_batch s' = cur_batch s ∧ chunked_req s' = chunked_req s ∧ sched_policy s' = sched_policy s ∧
    (sb_is_empty (running_batch s') = false → is_extend (Batch.forward_mode (sb (running_batch s'))) = false).
Proof.
  intros E Hnd [Hs1 Hs2]%Forall_app. unfold update_running_batch in E. cbv zeta in E. follow1 E.
  destruct (filter_live _ _ _ E0 Hs2) as (dn & Hp & Hd & Ht). exists dn. fold (running_ids s) in Hp. follow1 E.
  - injection E as <-. exists []. split; [|split_and!; try done; cbn; unfold sb_is_empty; cbn; congruence].
    split; [done|by rewrite app_nil_r| |done]. 
    change (queued (set_running_batch s _)) with (queued s). change (running_ids (set_running_batch s _)) with (ids (Batch.reqs a)). perm_lia.
  - follow1 E. destruct a0 as [ok c]. follow1 E. destruct a0 as [b1 s1].
    apply retract_or_go_on in E3 as (gone & [Ho Hsent Hr Hl Hc Hk Hpol] & Hq & Ht1); [|done..|clear -Hnd Hp; perm_lia].
    follow1 E. destruct a0 as [b2 c2]. injection E as <-. apply prepare_for_decode_tags in E3 as [Ht2 Hm].
    exists gone. split; [|split_and!; try done; intros _; cbn; by rewrite Hm].
    split; [etrans; [exact Ho|]; apply publish_same; cbn; by rewrite Ht2|exact Hsent| |done].
    change (queued (put _ _)) with (queued s1). change (running_ids (put _ _)) with (ids (Batch.reqs b2)).
    rewrite (ids_same _ _ Ht2). perm_lia.
Qed.

(** ** The last batch *)

(** The requests of the last batch, as long as they have not joined the running batch. *)
Definition last_ids s : list string :=
  match last_batch s with
  | Some (Own b) => if is_extend (Batch.forward_mode (sb b)) then ids (sb_reqs b) else []
  | _ => []
  end.
(** The chunked request is in the last batch, which knows of it. *)
Definition last_ok s : Prop :=
  match last_batch s with
  | None => chunked_req s = None
  | Some IsRunning => chunked_req s = None ∧ is_extend (Batch.forward_mode (sb (running_batch s))) = false
  | Some (Own b) =>
      if is_extend (Batch.forward_mode (sb b)) then ids (option_list (sb_chunked_req b)) = chunked_ids s ∧ chunked_ids s ⊆ ids (sb_reqs b)
      else chunked_req s = None
  end.
(** The last batch only prefills, as its requests want no tokens, and one of them
    has not finished and is not the chunked one either. *)
Definition prefill_leftover s : Prop := ∃ b i, last_batch s = Some (Own b) ∧ Batch.is_prefill_only (sb b) = true ∧
  i ∈ ids (sb_reqs b) ∧ i ∉ chunked_ids s ∧ ¬ done_in (objs s) i.

Lemma goes_on_leftover m excl l r : r ∈ List.filter (goes_on excl) (refresh m l) → Forall (stored m) (ids l) →
  Req.rid r ∈ ids l ∧ Req.rid r ∉ ids excl ∧ ¬ done_in m (Req.rid r).
Proof.
  intros Hr%list_elem_of_In%List.filter_In Hs. destruct Hr as [Hr%list_elem_of_In [Hf%negb_true_iff Hx%negb_true_iff]%andb_prop].
  apply list_elem_of_fmap in Hr as (r0 & -> & Hr). rewrite Forall_forall in Hs.
  assert (Req.rid r0 ∈ ids l) as Hi by by apply list_elem_of_fmap_2.
  rewrite fetch_rid by by apply Hs. split; [done|]. rewrite fetch_rid in Hx by by apply Hs.
  split; [by apply bool_decide_eq_false in Hx|]. intros (o & Ho & Hfo). unfold fetch in Hf. rewrite Ho in Hf. cbn in Hf. congruence.
Qed.

Lemma stash_spec s excl s' : stash_chunked_req s = Ok (excl, s') → Forall (stored (objs s)) (chunked_ids s) →
  still s s' ∧ ids excl = chunked_ids s ∧ running_batch s' = running_batch s ∧ chunked_req s' = chunked_req s.
Proof.
  intros E Hs. unfold stash_chunked_req in E. unfold chunked_ids in *. destruct (chunked_req s) as [r|] eqn:Ec.
  - cbn in Hs. apply Forall_cons in Hs as [Hs _]. follow1 E. destruct a as [r1 c1]. follow1 E. injection E as <- <-.
    apply tl_unfinished in E0. pose proof (fetch_tracks _ _ Hs) as Ht. rewrite <-E0 in Ht.
    split_and!; try done. { split; [by apply (publish_same _ [r1])|done..]. }
    cbn. by rewrite (tag_rid _ _ E0), fetch_rid.
  - injection E as <- <-. by split_and!.
Qed.

Lemma kept_chunked (excl ch : list string) l : NoDup (ids l) → NoDup ch → ch ⊆ ids l → (∀ i, i ∈ excl ↔ i ∈ ch) →
  ids (List.filter (λ r, bool_decide (Req.rid r ∈ excl)) l) ≡ₚ ch.
Proof.
  intros Hl Hn Hs He. apply NoDup_Permutation; [|done|].
  - eapply sublist_NoDup; [exact Hl|]. clear. induction l as [|r l IH]; [done|]. cbn. destruct (bool_decide _); by constructor.
  - intros i. unfold ids. rewrite list_elem_of_fmap. split.
    + intros (r & -> & Hr%list_elem_of_In%List.filter_In). destruct Hr as [_ Hr%bool_decide_eq_true]. by apply He.
    + intros Hi. pose proof (Hs i Hi) as (r & -> & Hr)%list_elem_of_fmap. exists r. split; [done|].
      apply list_elem_of_In, List.filter_In. split; [by apply list_elem_of_In|]. by apply bool_decide_eq_true, He.
Qed.

Lemma chunked_nodup s : NoDup (chunked_ids s).
Proof. unfold chunked_ids. destruct (chunked_req s); cbn; [apply NoDup_singleton|apply NoDup_nil_2]. Qed.

Lemma merge_spec s excl s' : merge_last_batch stream is_encoder_decoder s excl = Ok s' → last_ok s → ids excl = chunked_ids s →
  Forall (stored (objs s)) (running_ids s ++ last_ids s) → NoDup (last_ids s) →
  ∃ done lost, running_ids s ++ last_ids s ≡ₚ running_ids s' ++ chunked_ids s ++ done ++ lost ∧ Forall (done_in (objs s)) done ∧
    (lost ≠ [] → prefill_leftover s) ∧ still s s' ∧ chunked_req s' = chunked_req s.
Proof.
  intros E Hok Hex Hst Hnd. unfold merge_last_batch in E. unfold last_ok, last_ids in *.
  assert (chunked_req s = None → ∃ done lost, running_ids s ++ [] ≡ₚ running_ids s ++ chunked_ids s ++ done ++ lost ∧ Forall (done_in (objs s)) done ∧
    (lost ≠ [] → prefill_leftover s) ∧ still s s ∧ chunked_req s = chunked_req s) as Hsame.
  { intros Hc. exists [], []. unfold chunked_ids. rewrite Hc. split_and!; by rewrite ?app_nil_r. }
  destruct (last_batch s) as [[|lb]|] eqn:El; [| |injection E as <-; by apply Hsame].
  { destruct Hok as [Hc Hm]. cbn in E. rewrite Hm in E. injection E as <-. by apply Hsame. }
  cbn in E. destruct (is_extend (Batch.forward_mode (sb lb))) eqn:Em; cbn [negb] in E; [|injection E as <-; by apply Hsame].
  clear Hsame. destruct Hok as [Hlc Hsub]. apply Forall_app in Hst as [Hs1 Hs2]. follow1 E.
  apply filter_unfinished in E0 as [Hb Hpo]. cbn [Batch.reqs sb load sb_set Batch.set_reqs Batch.is_prefill_only] in Hb, Hpo.
  set (ex := excl ++ _) in Hb.
  destruct (filter_drops (objs s) ex _ (refresh_tracks _ _ Hs2)) as (dn & Hp & Hd). rewrite <-Hb in Hp.
  rewrite (kept_chunked (ids ex) (chunked_ids s)), refresh_ids in Hp.
  2: done. 2: by rewrite refresh_ids. 2: apply chunked_nodup. 2: by rewrite refresh_ids.
  2: { intros i. unfold ex. rewrite ids_app, Hex. change (sb_chunked_req (load _ lb)) with (sb_chunked_req lb). rewrite Hlc, elem_of_app. tauto. }
  exists dn. set (rb := if _ <? _ then _ else _) in E.
  assert (ids (sb_reqs rb) = running_ids s) as Hrb by (unfold rb; destruct (batch_size a <? _); by apply (load_ids _ (running_batch s))).
  clearbody rb. follow1 E.
  - injection E as <-. exists (ids (Batch.reqs a)). split_and!; try done.
    + change (running_ids (set_running_batch s _)) with (ids (sb_reqs rb)). rewrite Hrb. perm_lia.
    + intros Hne. apply orb_true_iff in E0 as [He|He]; [apply Z.eqb_eq, len_zero_iff in He; by rewrite He in Hne|].
      destruct (Batch.reqs a) as [|r rest] eqn:Ea; [done|].
      destruct (goes_on_leftover (objs s) ex (sb_reqs lb) r) as (Hi & Hx & Hnd'); [rewrite <-Hb; by left|done|].
      exists lb, (Req.rid r). split_and!; try done; [congruence|]. intros Hc. apply Hx. unfold ex. rewrite ids_app, Hex. apply elem_of_app. by left.
  - exists []. follow1 E.
    + injection E as <-. split_and!; try done. change (running_ids (set_running_batch s _)) with (ids (Batch.reqs a)).
      assert (running_ids s = []) as Hr by (rewrite <-Hrb; apply Z.eqb_eq, len_zero_iff in E1; unfold sb_reqs; by rewrite E1).
      rewrite Hr. perm_lia.
    + follow1 E. injection E as <-. apply merge_reqs in E2. split_and!; try done.
      change (running_ids (set_running_batch s _)) with (ids (Batch.reqs a0)). rewrite E2, ids_app. fold (sb_reqs rb). rewrite Hrb. perm_lia.
Qed.

(** ** One iteration *)

(** The requests the scheduler has to do with, between two iterations. *)
Definition live s : list string := queued s ++ running_ids s ++ last_ids s.

Definition cur_ids s : list string := match cur_batch s with Some (Own b) => ids (sb_reqs b) | _ => [] end.

Record sched_ok s : Prop := {
  so_policy : tl_policy (sched_policy s);
  so_stored : Forall (stored (objs s)) (live s);
  so_nodup : NoDup (live s);
  so_last : last_ok s;
  so_cur : Forall (stored (objs s)) (cur_ids s)
}.

Lemma chunked_last s : last_ok s → chunked_ids s ⊆ last_ids s.
Proof.
  unfold last_ok, last_ids. destruct (last_batch s) as [[|b]|].
  - intros [Hc _]. unfold chunked_ids. rewrite Hc. apply list_subseteq_nil.
  - destruct (is_extend _); [tauto|]. intros Hc. unfold chunked_ids. rewrite Hc. apply list_subseteq_nil.
  - intros Hc. unfold chunked_ids. rewrite Hc. apply list_subseteq_nil.
Qed.

(** Requests that are dropped without having finished and without a message:
    those of a batch that only prefills, and those preempted in vain. *)
Definition may_lose s (ret : option batch_ref) : Prop :=
  prefill_leftover s ∨ (try_preemption cf = true ∧ ∀ b, ret ≠ Some (Own b)).

(** The batch that was taken, the last one from now on. *)
Definition taken s' (ret : option batch_ref) : Sched C := set_last s' ret.

Definition next_batch s := get_next_batch_to_run cf CLIP_MAX_NEW_TOKENS RETRACT_DECODE_STEPS attention_chunk_size wait_queue_entry_time
  stream return_hidden_states top_logprobs_num token_ids_logprob multimodal_inputs is_encoder_decoder masked oob support_triton s.

Lemma conserves_trans a b c s1 s2 s3 d1 g1 l1 d2 g2 l2 : conserves a b s1 s2 d1 g1 l1 → conserves b c s2 s3 d2 g2 l2 →
  conserves a c s1 s3 (d1 ++ d2) (g1 ++ g2) (l1 ++ l2).
Proof.
  intros [O1 S1 I1 D1] [O2 S2 I2 D2]. split; [by etrans|by rewrite S2, S1, fmap_app, app_assoc|perm_lia|].
  apply Forall_app. split; [done|]. eapply done_same; [|exact D2]. intros i. symmetry. apply O1.
Qed.

(** Up to the new prefill batch. *)
Lemma merged_spec s excl s1 s2 : stash_chunked_req s = Ok (excl, s1) → merge_last_batch stream is_encoder_decoder s1 excl = Ok s2 → sched_ok s →
  ∃ done lost, conserves (live s) (queued s2 ++ running_ids s2 ++ chunked_ids s2) s s2 done [] lost ∧ (lost ≠ [] → prefill_leftover s) ∧
    last_batch s2 = last_batch s ∧ cur_batch s2 = cur_batch s ∧ sched_policy s2 = sched_policy s.
Proof.
  intros E1 E2 [Hpol Hst Hnd Hl _]. pose proof (chunked_last _ Hl) as Hcl.
  assert (Forall (stored (objs s)) (queued s) ∧ Forall (stored (objs s)) (running_ids s) ∧ Forall (stored (objs s)) (last_ids s)) as (Hs1 & Hs2 & Hs3).
  { unfold live in Hst. by rewrite !Forall_app in Hst. }
  assert (Forall (stored (objs s)) (chunked_ids s)) as Hs4 by (rewrite Forall_forall in Hs3 |- *; auto).
  apply stash_spec in E1 as ([Ho1 Hq1 Hse1 Hl1 Hc1 Hp1] & Hex & Hr1 & Hk1); [|done].
  assert (running_ids s1 = running_ids s ∧ last_ids s1 = last_ids s ∧ chunked_ids s1 = chunked_ids s) as (Er & Ei & Ek).
  { unfold running_ids, last_ids, chunked_ids. by rewrite Hr1, Hl1, Hk1. }
  apply merge_spec in E2 as (dn & lost & Hp & Hd & Hlost & [Ho2 Hq2 Hse2 Hl2 Hc2 Hp2] & Hk2).
  - exists dn, lost. split; [|split_and!; [|congruence..]].
    + split; [by etrans|by rewrite Hse2, Hse1, app_nil_r| |eapply done_same; [|exact Hd]; intros i; symmetry; apply Ho1].
      assert (queued s2 = queued s ∧ chunked_ids s2 = chunked_ids s) as [-> ->] by (unfold queued, chunked_ids; by rewrite Hq2, Hq1, Hk2, Hk1).
      unfold live. rewrite Er, Ei, Ek in Hp. perm_lia.
    + intros Hne. destruct (Hlost Hne) as (b & i & Hb & Hpo & Hi & Hc & Hnd'). exists b, i. rewrite Hl1 in Hb. rewrite Ek in Hc.
      split_and!; try done. intros Hdi. apply Hnd'. pose proof (done_same _ _ [i] Ho1) as Hx. rewrite !Forall_singleton in Hx. by apply Hx.
  - unfold last_ok in *. by rewrite Hl1, Hk1, Hr1, Ek.
  - by rewrite Ek.
  - rewrite Er, Ei. eapply all_stored_same; [exact Ho1|]. by apply Forall_app.
  - rewrite Ei. unfold live in Hnd. clear -Hnd. perm_lia.
Qed.

Lemma conserves_keeps before after s s' d g l : conserves before after s s' d g l → Forall (stored (objs s)) before → NoDup before →
  Forall (stored (objs s')) after ∧ NoDup after.
Proof.
  intros [Ho _ Hi _] Hs Hn. split; [|perm_lia]. rewrite Hi in Hs. apply Forall_app in Hs as [Hs _]. by eapply all_stored_same.
Qed.

Lemma taken_prefill s b : prefilled s b → live (taken s (Some (Own b))) = queued s ++ running_ids s ++ ids (sb_reqs b) ∧
  last_ok (taken s (Some (Own b))).
Proof. intros (He & Hb & Hc). unfold live, last_ids, last_ok. cbn. rewrite He, Hb. done. Qed.

Lemma taken_no_prefill s ret : ret = None ∨ (ret = Some IsRunning ∧ is_extend (Batch.forward_mode (sb (running_batch s))) = false) →
  chunked_req s = None → live (taken s ret) = queued s ++ running_ids s ∧ last_ok (taken s ret).
Proof.
  intros Hr Hc. destruct Hr as [->|[-> Hm]]; unfold live, last_ids, last_ok; cbn; rewrite app_nil_r; done.
Qed.

Lemma next_batch_spec s ret s' : sched_ok s → next_batch s = Ok (ret, s') →
  sched_ok (taken s' ret) ∧ (∀ b, ret = Some (Own b) → is_extend (Batch.forward_mode (sb b)) = true) ∧ ∃ done gone lost, conserves (live s) (live (taken s' ret)) s s' done gone lost ∧
    (lost ≠ [] → may_lose s ret) ∧ cur_batch s' = cur_batch s.
Proof.
  intros Hok E. unfold next_batch, get_next_batch_to_run in E. follow1 E. destruct a as [excl s1]. follow1 E. rename a into s2.
  destruct (merged_spec _ _ _ _ E0 E1 Hok) as (d1 & l1 & C1 & L1 & Hl2 & Hc2 & Hp2). destruct Hok as [Hpol Hst Hnd _ Hcu].
  destruct (conserves_keeps _ _ _ _ _ _ _ C1 Hst Hnd) as [Hst2 Hnd2].
  follow1 E. destruct a as [o s3]. apply new_batch_spec in E2 as (d2 & g2 & l2 & C2 & Hl3 & Hc3 & Hp3 & L2 & Hcase); [|congruence|done..].
  destruct (conserves_keeps _ _ _ _ _ _ _ C2 Hst2 Hnd2) as [Hst3 Hnd3]. pose proof (conserves_trans _ _ _ _ _ _ _ _ _ _ _ _ C1 C2) as Cc.
  assert (∀ r : option batch_ref, Forall (stored (objs s3)) (cur_ids (taken s3 r))) as Hcu3.
  { intros r. unfold cur_ids. cbn. rewrite Hc3, Hc2. eapply all_stored_same; [apply Cc|exact Hcu]. }
  destruct o as [b|].
  - injection E as <- <-. destruct (taken_prefill _ _ Hcase) as [Hlv Hlk]. split; [split; [done|rewrite Hlv; done..|done|apply Hcu3]|].
    split; [intros b' [= <-]; apply Hcase|]. exists (d1 ++ d2), ([] ++ g2), (l1 ++ l2). rewrite Hlv. split; [done|]. split; [|congruence]. intros Hne.
    destruct (decide (l2 = [])) as [->|H2]; [rewrite app_nil_r in Hne; left; auto|by destruct (L2 H2)].
  - cbn [batch_ids from_option] in *. rewrite app_nil_r in Hst3, Hnd3, Cc.
    assert (∀ r : option batch_ref, (∀ b, r ≠ Some (Own b)) → l1 ++ l2 ≠ [] → may_lose s r) as Hlose.
    { intros r Hr Hne. destruct (decide (l2 = [])) as [->|H2]; [rewrite app_nil_r in Hne; left; auto|right; split; [by apply L2|done]]. }
    follow1 E; [|follow1 E].
    + injection E as <- <-. destruct (taken_no_prefill s3 None (or_introl eq_refl) Hcase) as [Hlv Hlk].
      split; [split; [done|rewrite Hlv; done..|done|apply Hcu3]|]. split; [done|].
      exists (d1 ++ d2), ([] ++ g2), (l1 ++ l2). rewrite Hlv. split; [done|]. split; [by apply Hlose|congruence].
    + rename a into s4. apply update_running_spec in E3 as (d3 & g3 & C3 & Hl4 & Hc4 & Hk4 & Hp4 & Hm4); [|done..].
      destruct (conserves_keeps _ _ _ _ _ _ _ C3 Hst3 Hnd3) as [Hst4 Hnd4]. injection E as <- <-. set (r := if sb_is_empty _ then _ else _).
      destruct (taken_no_prefill s4 r) as [Hlv Hlk]; [unfold r; destruct (sb_is_empty (running_batch s4)); [by left|right; by split; [|apply Hm4]]|congruence|].
      split.
      { split; [cbn; by rewrite Hp4|by rewrite Hlv|by rewrite Hlv|done|]. unfold cur_ids. cbn. rewrite Hc4. eapply all_stored_same; [apply C3|apply (Hcu3 None)]. }
      split; [intros b Hb; unfold r in Hb; by destruct (sb_is_empty (running_batch s4))|].
      exists ((d1 ++ d2) ++ d3), (([] ++ g2) ++ g3), ((l1 ++ l2) ++ []). rewrite Hlv. split; [by eapply conserves_trans|].
      rewrite app_nil_r. split; [apply Hlose; intros b; unfold r; by destruct (sb_is_empty (running_batch s4))|congruence].
Qed.

(** ** Results *)

(** Objects may finish; requests may be aborted; nothing else moves. *)
Record settles s s' (gone : list string) : Prop := {
  se_stored i : stored (objs s) i → stored (objs s') i;
  se_done i : done_in (objs s) i → done_in (objs s') i;
  se_queue : queued s ≡ₚ queued s' ++ gone;
  se_sent : sent s' = sent s ++ (AbortReq <$> gone);
  se_running : running_batch s' = running_batch s;
  se_last : last_batch s' = last_batch s;
  se_cur : cur_batch s' = cur_batch s;
  se_chunked : chunked_req s' = chunked_req s;
  se_policy : sched_policy s' = sched_policy s
}.

Lemma settles_refl s : settles s s [].
Proof. split; try done; by rewrite app_nil_r. Qed.
Lemma settles_trans s1 s2 s3 g1 g2 : settles s1 s2 g1 → settles s2 s3 g2 → settles s1 s3 (g1 ++ g2).
Proof.
  intros [S1 D1 Q1 E1 R1 L1 C1 K1 P1] [S2 D2 Q2 E2 R2 L2 C2 K2 P2]. split; try congruence; [auto|auto| |].
  - perm_lia.
  - by rewrite E2, E1, fmap_app, app_assoc.
Qed.

Lemma settles_put s r : (done_in (objs s) (Req.rid r) → finished r = true) → settles s (put s [r]) [].
Proof.
  intros Hr. split; try done; try (by rewrite app_nil_r); intros i; unfold stored, done_in; cbn;
    (destruct (decide (Req.rid r = i)) as [<-|E]; [rewrite lookup_insert_eq|by rewrite lookup_insert_ne]); [by eexists|].
  intros Hd. exists r. split; [done|by apply Hr].
Qed.
Lemma settles_same s l : tracks (objs s) (tags l) → settles s (put s l) [].
Proof.
  intros Hl%publish_same. split; try done; try (by rewrite app_nil_r).
  - intros i. by apply (stored_same _ _ i Hl).
  - intros i Hd. pose proof (done_same _ _ [i] Hl) as Hs. rewrite !Forall_singleton in Hs. by apply Hs.
Qed.

Lemma settles_cache s s' c g : settles s s' g → settles s (set_cache s' c) g.
Proof. intros []. by split. Qed.
Lemma settles_from_cache s s' c g : settles (set_cache s c) s' g → settles s s' g.
Proof. intros []. by split. Qed.

(** ** Aborting *)
Definition abort := abort_request (C:=C).

Lemma send_all l : ∀ s, let s' := foldl (λ s r, send_output s (AbortReq (Req.rid r))) s l in
  objs s' = objs s ∧ waiting_queue s' = waiting_queue s ∧ sent s' = sent s ++ (AbortReq <$> ids l) ∧ running_batch s' = running_batch s ∧
  last_batch s' = last_batch s ∧ cur_batch s' = cur_batch s ∧ chunked_req s' = chunked_req s ∧ sched_policy s' = sched_policy s ∧
  tree_cache s' = tree_cache s ∧ new_token_ratio s' = new_token_ratio s.
Proof.
  induction l as [|r l IH]; intros s; cbn; [by rewrite app_nil_r|].
  destruct (IH (send_output s (AbortReq (Req.rid r)))) as (H1 & H2 & H3 & H4). rewrite H1, H2, H3. split_and!; try done; [|apply H4..].
  cbn. by rewrite <-app_assoc.
Qed.

Lemma tracks_filter m P l : tracks m (tags l) → tracks m (tags (List.filter P l)).
Proof.
  apply tracks_sub. intros x (r & -> & Hr%list_elem_of_In%List.filter_In)%list_elem_of_fmap. destruct Hr as [Hr%list_elem_of_In _].
  by apply list_elem_of_fmap_2.
Qed.

Lemma abort_settles s all rid : Forall (stored (objs s)) (running_ids s ++ cur_ids s) →
  settles s (abort_request s all rid) (ids (reverse (List.filter (aborts all rid) (waiting_queue s)))).
Proof.
  intros Hst. unfold abort_request. cbv zeta. set (s1 := foldl _ _ _).
  destruct (send_all (reverse (List.filter (aborts all rid) (waiting_queue s)))
    (set_waiting s (List.filter (λ r, negb (aborts all rid r)) (waiting_queue s)))) as (Ho & Hq & Hs & Hr & Hl & Hc & Hk & Hp & _).
  fold s1 in Ho, Hq, Hs, Hr, Hl, Hc, Hk, Hp. cbn in Ho, Hq, Hs, Hr, Hl, Hc, Hk, Hp.
  assert (settles s s1 (ids (reverse (List.filter (aborts all rid) (waiting_queue s))))) as H1.
  { split; rewrite ?Ho; try done. unfold queued. rewrite Hq, (filter_split (aborts all rid)). rewrite Permutation_app_comm.
    apply Permutation_app; [done|]. unfold ids. by rewrite reverse_Permutation. }
  rewrite <-(app_nil_r (ids _)). eapply settles_trans; [exact H1|]. apply settles_same. rewrite tags_fmap by done.
  apply tracks_filter, refresh_tracks. rewrite Hr, Hc, Ho. revert Hst. unfold running_ids, cur_ids. rewrite ids_app.
  destruct (cur_batch s) as [[|]|]; done.
Qed.

(** ** The results of a batch *)
Lemma step_grammar_settles s r t : Forall (stored (objs s)) (running_ids s ++ cur_ids s) → objs s !! Req.rid r = Some r →
  ∃ gone, settles s (step_grammar accept_token s r t) gone.
Proof.
  intros Hst Hr. unfold step_grammar. destruct (Req.grammar r); [|eexists; apply settles_refl].
  destruct (accept_token r t); [|eexists; by apply abort_settles]. exists []. apply settles_put. intros (o & Ho & Hf).
  pose proof (eq_trans (eq_sym Hr) Ho) as [= <-]. exact Hf.
Qed.

Lemma token_loop_rid r n tokens : ∀ i, Req.rid (token_finish_loop r n i tokens).2 = Req.rid r.
Proof. induction tokens as [|t tokens IH]; intros i; [done|]. cbn. destruct (stops r t); [done|apply IH]. Qed.
Lemma vocab_loop_rid r v n tokens : ∀ i, Req.rid (vocab_finish_loop r v n i tokens).2 = Req.rid r.
Proof.
  induction tokens as [|t tokens IH]; intros i; [done|]. cbn. destruct (_ || _); [|apply IH]. cbn.
  destruct (stop_token_ids _); cbn; by destruct (Req.eos_token_ids _).
Qed.

Lemma check_finished_keeps r n r' : check_finished decode re_search r n = Ok r' → Req.rid r' = Req.rid r ∧ (finished r = true → finished r' = true).
Proof.
  intros E. unfold check_finished in E. destruct (finished r) eqn:Ef; [by injection E as <-|]. split; [|done].
  follow1 E; [by injection E as <-|]. cbv zeta in E. follow1 E; [by injection E as <-|]. follow1 E.
  assert (∀ x, a = Some x → Req.rid x = Req.rid r) as Ha by (intros x ->; destruct (Req.grammar r) as [[]|]; follow; simplify_eq; done).
  destruct a as [x|]; [injection E as <-; by apply Ha|]. clear Ha E2.
  set (new := py_from _ _) in E. destruct (_check_token_based_finish r new) as [b1 r1] eqn:E1t.
  assert (Req.rid r1 = Req.rid r) as H1.
  { unfold _check_token_based_finish in E1t. destruct (ignore_eos _); [by injection E1t as _ <-|].
    pose proof (token_loop_rid r (len new) new 0) as Ht. by rewrite E1t in Ht. }
  destruct b1; [by injection E as <-|]. follow1 E. destruct a as [b2 r2].
  assert (Req.rid r2 = Req.rid r1) as H2.
  { unfold _check_vocab_boundary_finish in E2. destruct new as [|t new']; [by injection E2 as _ <-|]. destruct (Req.vocab_size r1) as [v|]; [|done].
    apply (f_equal (λ x, match x with Ok y => y.2 | Err _ => r2 end)) in E2.
    etrans; [symmetry; apply (f_equal Req.rid E2)|apply vocab_loop_rid]. }
  destruct b2; [injection E as <-; congruence|]. follow1 E. destruct a as [b3 r3]. injection E as <-. rewrite <-H1, <-H2. clear -E3.
  unfold _check_str_based_finish in E3. follow; done.
Qed.

(** What a token does to the request it belongs to. *)
Definition releases (go_on : Req.t → res (Req.t * C)) s r : res (Req.t * C) :=
  if finished r then release_kv_cache (server_page_size cf) None (tree_cache s) r true else go_on r.

Lemma token_settles go_on s r t r1 r2 c : Forall (stored (objs s)) (Req.rid r :: running_ids s ++ cur_ids s) →
  (∀ r r' c', go_on r = Ok (r', c') → tag r' = tag r) →
  check_finished decode re_search (Req.set_output_ids (fetch (objs s) r) (Req.output_ids (fetch (objs s) r) ++ [t])) 1 = Ok r1 →
  releases go_on s r1 = Ok (r2, c) →
  ∃ gone, settles s (step_grammar accept_token (put (set_cache s c) [r2]) r2 t) gone.
Proof.
  intros [Hr Hst]%Forall_cons Hgo [Hi Hf]%check_finished_keeps E.
  assert (tag r2 = tag r1) as Ht by (unfold releases in E; destruct (finished r1); [by eapply release_kv_cache_tags|by eapply Hgo]). clear E.
  assert (settles s (put (set_cache s c) [r2]) []) as H1.
  { apply settles_from_cache with c, settles_put. intros (o & Ho & Hfo). rewrite (tag_finished _ _ Ht). apply Hf.
    rewrite (tag_rid _ _ Ht), Hi in Ho. cbn in Ho. unfold finished in *. cbn. unfold fetch in Ho |- *.
    destruct Hr as (o' & Ho' & Hi'). rewrite Ho' in Ho |- *. cbn in *. change (Req.rid (Req.set_output_ids o' _)) with (Req.rid o') in Ho.
    rewrite Hi', Ho' in Ho. by injection Ho as <-. }
  destruct (step_grammar_settles (put (set_cache s c) [r2]) r2 t) as [gone H2].
  - eapply Forall_impl; [exact Hst|]. apply H1.
  - cbn. apply lookup_insert_eq.
  - exists ([] ++ gone). by eapply settles_trans.
Qed.

Lemma prefill_result_settles b s r t s' : prefill_result cf decode re_search accept_token b s r t = Ok s' →
  Forall (stored (objs s)) (Req.rid r :: running_ids s ++ cur_ids s) → ∃ gone, settles s s' gone.
Proof.
  intros E Hst. unfold prefill_result in E. cbv zeta in E. follow1 E; [injection E as <-; eexists; apply settles_refl|].
  follow1 E.
  - follow1 E. follow1 E. destruct a0 as [r2 c]. injection E as <-.
    eapply (token_settles (λ r, if bool_decide (Req.rid r ∈ Req.rid <$> default [] (sb_decoding_reqs b)) then Ok (r, tree_cache s) else pc_cache_unfinished_req (tree_cache s) r));
      [exact Hst| |eassumption|unfold releases; eassumption].
    cbv beta. intros r0 r' c' Eg. follow1 Eg; [by injection Eg as <- _|by eapply tl_unfinished].
  - injection E as <-. exists []. apply Forall_cons in Hst as [Hr _]. apply settles_same. exact (fetch_tracks _ _ Hr).
Qed.

Lemma decode_result_settles s r t s' : decode_result cf decode re_search accept_token s r t = Ok s' →
  Forall (stored (objs s)) (Req.rid r :: running_ids s ++ cur_ids s) → ∃ gone, settles s s' gone.
Proof.
  intros E Hst. unfold decode_result in E. cbv zeta in E. follow1 E; [injection E as <-; eexists; apply settles_refl|].
  follow1 E. follow1 E. destruct a0 as [r2 c]. injection E as <-.
  eapply (token_settles (λ r, Ok (r, tree_cache s))); [exact Hst|by intros ??? [= <- _]|eassumption|unfold releases; eassumption].
Qed.

Lemma results_loop_settles step : (∀ s r t s', step s r t = Ok s' → Forall (stored (objs s)) (Req.rid r :: running_ids s ++ cur_ids s) →
    ∃ gone, settles s s' gone) →
  ∀ reqs tokens s s', results_loop step s reqs tokens = Ok s' → Forall (stored (objs s)) (ids reqs ++ running_ids s ++ cur_ids s) →
  ∃ gone, settles s s' gone.
Proof.
  intros Hstep reqs. induction reqs as [|r reqs IH]; intros tokens s s' E Hst; cbn in E.
  { injection E as <-. eexists. apply settles_refl. }
  destruct tokens as [|t tokens]; [injection E as <-; eexists; apply settles_refl|]. follow1 E.
  apply Forall_cons in Hst as [Hr Hst]. apply Hstep in E0 as [g1 H1]; [|apply Forall_app in Hst as [_ Hst]; by constructor].
  apply IH in E as [g2 H2]; [by exists (g1 ++ g2); eapply settles_trans|].
  assert (running_ids a = running_ids s ∧ cur_ids a = cur_ids s) as [-> ->] by (unfold running_ids, cur_ids; by rewrite (se_running _ _ _ H1), (se_cur _ _ _ H1)).
  eapply Forall_impl; [exact Hst|]. apply H1.
Qed.

Lemma process_settles s b tokens s' : process_batch_result cf decode re_search accept_token s b tokens = Ok s' →
  Forall (stored (objs s)) (ids (sb_reqs b) ++ running_ids s ++ cur_ids s) → ∃ gone, settles s s' gone.
Proof.
  intros E Hst. unfold process_batch_result in E. cbv zeta in E. follow1 E; [|follow1 E].
  - unfold process_batch_result_decode in E. cbv zeta in E. follow1 E. injection E as <-.
    apply (results_loop_settles _ decode_result_settles) in E1 as [g Hg]; [|done].
    exists g. apply settles_cache. by eapply settles_from_cache.
  - by apply (results_loop_settles _ (prefill_result_settles b)) in E.
  - injection E as <-. eexists. apply settles_refl.
Qed.

(** Sampled tokens are kept in the batch, which stays the same otherwise. *)
Lemma output_same s ref tokens ref' s' : set_batch_output (set_cur s (Some ref)) ref tokens = (ref', s') → sched_ok (set_last s (Some ref)) →
  (∀ b, ref = Own b → is_extend (Batch.forward_mode (sb b)) = true) →
  let s1 := set_cur s' (Some ref') in
  sched_ok (set_last s1 (Some ref')) ∧ live (set_last s1 (Some ref')) = live (set_last s (Some ref)) ∧ objs s1 = objs s ∧ sent s1 = sent s ∧
  Forall (stored (objs s1)) (ids (sb_reqs (resolve s1 ref')) ++ running_ids s1 ++ cur_ids s1).
Proof.
  intros E [Hp Hs Hn Hl Hc] He. pose proof Hs as Hs'. unfold live in Hs'. rewrite !Forall_app in Hs'. destruct Hs' as (H1 & H2 & H3).
  destruct ref as [|b]; cbn in E; injection E as <- <-; cbv zeta.
  - split; [split; done || constructor|]. split_and!; try done. rewrite !Forall_app. split_and!; [done|done|constructor].
  - specialize (He b eq_refl). unfold last_ids in H3. cbn in H3. rewrite He in H3.
    split; [split; done|]. split_and!; try done. rewrite !Forall_app. by split_and!.
Qed.

Lemma settles_last s s' g x : settles s s' g → settles (set_last s x) (set_last s' x) g.
Proof. intros []. by split. Qed.

Lemma settles_ok s s' g : settles s s' g → sched_ok s → sched_ok s' ∧ live s ≡ₚ live s' ++ g.
Proof.
  intros [S D Q E R L Cu K P] [Hp Hs Hn Hl Hc].
  assert (live s ≡ₚ live s' ++ g) as Hlive by (unfold live, running_ids, last_ids in *; rewrite R, L; perm_lia).
  split; [|done]. split.
  - by rewrite P.
  - rewrite Hlive in Hs. apply Forall_app in Hs as [Hs _]. eapply Forall_impl; [exact Hs|exact S].
  - clear -Hn Hlive. perm_lia.
  - unfold last_ok, chunked_ids in *. by rewrite R, K, L.
  - unfold cur_ids in *. rewrite Cu. eapply Forall_impl; [exact Hc|exact S].
Qed.

Definition iteration := event_loop_normal cf CLIP_MAX_NEW_TOKENS RETRACT_DECODE_STEPS attention_chunk_size wait_queue_entry_time stream
  return_hidden_states top_logprobs_num token_ids_logprob multimodal_inputs is_encoder_decoder masked oob support_triton decode re_search accept_token.

Lemma iteration_spec forward s s' : iteration forward s = Ok s' → sched_ok s →
  sched_ok s' ∧ (∀ i, stored (objs s) i → stored (objs s') i) ∧ (∀ i, done_in (objs s) i → done_in (objs s') i) ∧
  ∃ done gone lost, live s ≡ₚ live s' ++ done ++ gone ++ lost ∧ sent s' = sent s ++ (AbortReq <$> gone) ∧
    Forall (done_in (objs s')) done ∧ (lost ≠ [] → prefill_leftover s ∨ try_preemption cf = true).
Proof.
  intros E Hok. unfold iteration, event_loop_normal in E. follow1 E. destruct a as [ret s1].
  apply (next_batch_spec _ _ _ Hok) in E0 as (Hok1 & Hext & dn & gone & lost & [Ho Hs Hi Hd] & Hlost & Hc).
  assert ((∀ i, stored (objs s) i → stored (objs s1) i) ∧ (∀ i, done_in (objs s) i → done_in (objs s1) i)) as [Hst1 Hdn1].
  { split; intros i; [by apply stored_same|]. intros Hdi. pose proof (done_same _ _ [i] Ho) as Hx. rewrite !Forall_singleton in Hx. by apply Hx. }
  assert (lost ≠ [] → prefill_leftover s ∨ try_preemption cf = true) as Hlost' by (intros Hne; destruct (Hlost Hne) as [|[]]; auto).
  destruct ret as [ref|].
  - destruct (set_batch_output _ _ _) as [ref' s2] eqn:E2. follow1 E. rename a into s3. injection E as <-.
    apply output_same in E2 as (Hok2 & Hlv2 & Ho2 & Hs2 & Hst2); [|done|intros b ->; by apply Hext]. cbv zeta in *. set (s2' := set_cur s2 (Some ref')) in *.
    apply process_settles in E0 as [g Hg]; [|done]. destruct (settles_ok _ _ _ (settles_last _ _ _ (Some ref') Hg) Hok2) as [Hok3 Hlv3].
    destruct Hg as [S D Q Es _ _ _ _ _]. rewrite Ho2 in S, D. split; [done|]. split; [auto|]. split; [auto|].
    exists dn, (gone ++ g), lost. rewrite Hlv2 in Hlv3. split; [change (live (taken s1 (Some ref))) with (live (set_last s1 (Some ref))) in Hi; perm_lia|].
    split; [by cbn; rewrite Es, Hs2, Hs, fmap_app, app_assoc|]. split; [|done]. eapply Forall_impl; [exact Hd|]. auto.
  - injection E as <-. destruct Hok1 as [Hp1 Hs1 Hn1 Hl1 Hc1]. split; [split; try done; constructor|]. split; [done|]. split; [done|].
    exists dn, gone, lost. split; [exact Hi|]. split; [exact Hs|]. split; [|done]. eapply Forall_impl; [exact Hd|]. auto.
Qed.

(** ** Runs of the scheduler *)

(** A new request, an order to abort, or an iteration; the label lists the ids
    received.  Iterations start without a leftover of a batch that only prefills,
    which is not run on. *)
Inductive sched_step : list string → Sched C → Sched C → Prop :=
  | step_receive s r s' : objs s !! Req.rid r = None →
      _add_request_to_queue cf wait_queue_entry_time (put s [r]) r = Ok s' → sched_step [Req.rid r] s s'
  | step_abort s abort_all rid : sched_step [] s (abort_request s abort_all rid)
  | step_iteration forward s s' : ¬ prefill_leftover s → iteration forward s = Ok s' → sched_step [] s s'.
Inductive run : list string → Sched C → Sched C → Prop :=
  | run_start s : run [] s s
  | run_step received1 received2 s1 s2 s3 : run received1 s1 s2 → sched_step received2 s2 s3 → run (received1 ++ received2) s1 s3.

(** A request is still with the scheduler, has finished, or its client has been
    told that it is aborted. *)
Definition accounted s (i : string) : Prop := i ∈ live s ∨ done_in (objs s) i ∨ AbortReq i ∈ sent s.

Lemma accounted_mono s s' done gone : (∀ i, done_in (objs s) i → done_in (objs s') i) → sent s' = sent s ++ (AbortReq <$> gone) →
  Forall (done_in (objs s')) done → ∀ new, live s ++ new ≡ₚ live s' ++ done ++ gone → (∀ i, accounted s i ∨ i ∈ new → accounted s' i).
Proof.
  intros Hd Hs Hdn new Hp i Hi. assert (i ∈ live s ++ new → accounted s' i) as Hin.
  { rewrite Hp, !elem_of_app. intros [?|[Hi'|Hi']]; [by left|right; left; rewrite Forall_forall in Hdn; by apply Hdn|].
    right. right. rewrite Hs. apply elem_of_app. right. by apply list_elem_of_fmap_2. }
  destruct Hi as [[Hi|[Hi|Hi]]|Hi]; [apply Hin, elem_of_app; by left|right; left; auto| |apply Hin, elem_of_app; by right].
  right. right. rewrite Hs. apply elem_of_app. by left.
Qed.

Lemma receive_spec s r s' : objs s !! Req.rid r = None → _add_request_to_queue cf wait_queue_entry_time (put s [r]) r = Ok s' → sched_ok s →
  sched_ok s' ∧ (∀ i, accounted s i ∨ i ∈ [Req.rid r] → accounted s' i).
Proof.
  intros Hf E [Hp Hs Hn Hl Hc].
  assert (settles s (put s [r]) []) as [S D _ _ _ _ _ _ _] by (apply settles_put; intros (o & Ho & _); congruence).
  assert (Req.rid r ∉ live s) as Hnin by (intros Hin; rewrite Forall_forall in Hs; destruct (Hs _ Hin) as (o & Ho & _); congruence).
  assert (stored (objs (put s [r])) (Req.rid r)) as Hr by (exists r; split; [apply lookup_insert_eq|done]).
  assert (Forall (stored (objs (put s [r]))) (live s)) as Hs1 by (eapply Forall_impl; [exact Hs|exact S]).
  apply add_request_step in E as (gone & [Ho Hsent Hrun Hla Hcu Hck Hpol] & Hq).
  2: { apply Forall_app. split; [|by apply Forall_singleton]. unfold live in Hs1. by apply Forall_app in Hs1 as [? _]. }
  2: { intros Hin. apply Hnin, elem_of_app. by left. }
  assert (running_ids s' = running_ids s ∧ last_ids s' = last_ids s ∧ cur_ids s' = cur_ids s) as (Er & Ei & Eu).
  { unfold running_ids, last_ids, cur_ids. by rewrite Hrun, Hla, Hcu. }
  assert (live s ++ [Req.rid r] ≡ₚ live s' ++ gone) as Hlive.
  { unfold live. rewrite Er, Ei. change (queued (put s [r])) with (queued s) in Hq. perm_lia. }
  split.
  - assert (Forall (stored (objs s')) (live s' ++ gone)) as Hs' by (rewrite <-Hlive; apply (all_stored_same _ _ _ Ho), Forall_app; split; [done|by apply Forall_singleton]).
    split; [by rewrite Hpol|by apply Forall_app in Hs' as [? _]| | |].
    + assert (NoDup (live s ++ [Req.rid r])) as Hn' by (apply NoDup_app; split_and!; [done|by intros i Hi ->%list_elem_of_singleton|apply NoDup_singleton]).
      clear -Hn' Hlive. perm_lia.
    + unfold last_ok, chunked_ids in *. rewrite Hla, Hck, Hrun. exact Hl.
    + rewrite Eu. eapply all_stored_same; [exact Ho|]. eapply Forall_impl; [exact Hc|exact S].
  - apply (accounted_mono s s' [] gone); [|done|constructor|done]. intros i Hi%D. pose proof (done_same _ _ [i] Ho) as Hx.
    rewrite !Forall_singleton in Hx. by apply Hx.
Qed.

Lemma abort_spec s all rid : sched_ok s → sched_ok (abort_request s all rid) ∧ (∀ i, accounted s i → accounted (abort_request s all rid) i).
Proof.
  intros Hok. pose proof Hok as [_ Hs _ _ Hc]. unfold live in Hs. rewrite !Forall_app in Hs. destruct Hs as (_ & Hs & _).
  pose proof (abort_settles s all rid) as Hse. rewrite Forall_app in Hse. specialize (Hse (conj Hs Hc)). set (s' := abort_request s all rid) in *.
  destruct (settles_ok _ _ _ Hse Hok) as [Hok' Hlv]. split; [done|]. destruct Hse as [_ D _ Sn _ _ _ _ _]. intros i Hi.
  eapply (accounted_mono s s' [] _ D Sn); [constructor| |left; exact Hi]. rewrite app_nil_r. exact Hlv.
Qed.

Lemma step_spec received s s' : sched_step received s s' → try_preemption cf = false → sched_ok s →
  sched_ok s' ∧ (∀ i, accounted s i ∨ i ∈ received → accounted s' i).
Proof.
  intros [s0 r s1 Hf E|s0 all rid|forward s0 s1 Hpo E] Hp Hok.
  - by apply receive_spec.
  - destruct (abort_spec s0 all rid Hok) as [H1 H2]. split; [done|]. intros i [Hi|[]%not_elem_of_nil]. auto.
  - destruct (iteration_spec _ _ _ E Hok) as (H1 & _ & Hd & dn & gone & lost & Hi & Hs & Hdn & Hl). split; [done|].
    assert (lost = []) as -> by (destruct lost; [done|]; destruct Hl; [done..|congruence]).
    apply (accounted_mono s0 s1 dn gone Hd Hs Hdn). by rewrite app_nil_r in Hi |- *.
Qed.

(** C1. No request is lost: without priority scheduling, in any run of receiving
    requests, aborting them and iterations of the event loop, whatever tokens are
    sampled and whenever memory runs out, every request that was there at the
    start or was received is in the waiting queue, the running batch or the last
    prefill batch (in one of them, once), or it has finished, or its client has been
    told that it is aborted.

    One restriction: no iteration of the run starts with a leftover of a batch
    that only prefills ([prefill_leftover]), that is, while the last batch is one
    whose requests all have [max_new_tokens = 0] and one of them has neither
    finished nor is the chunked one.  [merge_last_batch] drops such a request;
    the code relies on the first token finishing it, which reaches the limit of 0. *)
Theorem no_request_lost received s0 s (Hstart : sched_ok s0) (Hprio : try_preemption cf = false) (Hrun : run received s0 s) :
  NoDup (live s) ∧ ∀ i, i ∈ live s0 ++ received → i ∈ live s ∨ done_in (objs s) i ∨ AbortReq i ∈ sent s.
Proof.
  assert (sched_ok s ∧ ∀ i, i ∈ live s0 ++ received → accounted s i) as [[_ _ Hn _ _] Ha]; [|by split].
  induction Hrun as [s|received1 received2 s1 s2 s3 _ IH Hstep].
  - split; [done|]. intros i Hi. rewrite app_nil_r in Hi. by left.
  - destruct (IH Hstart) as [Hok Hacc]. destruct (step_spec _ _ _ Hstep Hprio Hok) as [Hok' H']. split; [done|].
    intros i. rewrite app_assoc, elem_of_app. intros [Hi|Hi]; apply H'; auto.
Qed.

(** C2. What one scheduling decision does to the requests, with or without priority
    scheduling: those of the waiting queue, the running batch and the last prefill
    batch are afterwards in the queue, the running batch or the new batch, each
    once, except for those that have finished, those aborted with a message, and
    those that are lost; none is lost unless the last batch was one that only
    prefills and has an unfinished request left, or preemption is on and no prefill
    batch was formed. *)
Theorem next_batch_conserves s ret s' (Hok : sched_ok s) (E : next_batch s = Ok (ret, s')) :
  ∃ done gone lost,
    live s ≡ₚ live (taken s' ret) ++ done ++ gone ++ lost ∧
    Forall (done_in (objs s)) done ∧
    sent s' = sent s ++ (AbortReq <$> gone) ∧
    (lost ≠ [] → prefill_leftover s ∨ (try_preemption cf = true ∧ ∀ b, ret ≠ Some (Own b))).
Proof.
  destruct (next_batch_spec _ _ _ Hok E) as (_ & _ & dn & gone & lost & [Ho Hs Hi Hd] & Hl & _).
  by exists dn, gone, lost.
Qed.

(** The limit on running requests: a prefill batch and the running batch that is
    left beside it have at most [pp_max_micro_batch_size] requests together; only
    a request whose prefill goes on is admitted beyond the limit.  (Preemption
    off.) *)
Theorem prefill_batch_bounded s b s' (Hprio : try_preemption cf = false) (Hpol : tl_policy (sched_policy s))
    (Hnd : NoDup (queued s ++ running_ids s ++ chunked_ids s)) (Hst : Forall (stored (objs s)) (queued s ++ running_ids s ++ chunked_ids s))
    (E : get_new_batch_prefill cf CLIP_MAX_NEW_TOKENS RETRACT_DECODE_STEPS attention_chunk_size wait_queue_entry_time stream
      return_hidden_states top_logprobs_num token_ids_logprob multimodal_inputs is_encoder_decoder masked oob support_triton s = Ok (Some b, s')) :
  len (sb_reqs b) + len (sb_reqs (running_batch s')) ≤
    Z.max (pp_max_micro_batch_size cf) (len (sb_reqs (running_batch s)) + len (option_list (chunked_req s))).
Proof.
  unfold get_new_batch_prefill in E. cbv zeta in E. rewrite Hprio in E. set (rb := load _ _) in E.
  assert (sb_reqs rb = refresh (objs s) (sb_reqs (running_batch s))) as Hrq by done.
  assert (ids (sb_reqs rb) = running_ids s) as Hrb by (rewrite Hrq; apply refresh_ids; rewrite !Forall_app in Hst; apply Hst).
  follow1 E; [done|]. follow1 E; [done|]. follow1 E. destruct a as [[pol c] queue]. follow1 E. destruct a as [chunked a1]. follow1 E.
  destruct a as [[[full a2] c'] touched]. pose proof (choose_spec (set_running_batch s rb) rb pol c queue chunked a1 full a2 c' touched) as Hch.
  cbv zeta in Hch. specialize (Hch ltac:(assumption) ltac:(assumption) ltac:(assumption)).
  set (s0 := set_running_batch s rb) in *. assert (running_ids s0 = running_ids s) as Hr0 by exact Hrb.
  assert (queued s0 ++ running_ids s0 ++ chunked_ids s0 = queued s ++ running_ids s ++ chunked_ids s) as Hb0 by by rewrite Hr0.
  rewrite Hb0 in Hch. specialize (Hch Hpol Hst eq_refl ltac:(rewrite Hrq; by apply refresh_tracks; rewrite !Forall_app in Hst; apply Hst)).
  set (s2 := put _ _) in Hch, E. destruct (len (can_run_list a2) =? 0); [done|].
  match goal with Ha : match chunked_req _ with _ => _ end = Ok _ |- _ => apply start_len in Ha as (Hc1 & Hr1 & Hp1) end.
  match goal with Hl : admit_loop _ _ _ _ _ _ _ _ _ _ = Ok _ |- _ => apply admit_loop_bound in Hl; [rename Hl into Hle|done..] end.
  follow1 E. destruct a as [b' s3]. injection E as <- <-.
  match goal with Hf : form_prefill_batch _ _ _ _ _ _ _ _ _ _ _ _ _ _ _ = Ok _ |- _ => apply (form_chosen _ _ _ _ _ _ Hch) in Hf; [rename Hf into Hfm|by rewrite Hb0..] end.
  destruct Hfm as (dn & gone & _ & _ & _ & _ & _ & mixed & Hbm & Hrm).
  rewrite Hc1, Hr1 in Hle. change (adder_running _) with (sb_reqs rb) in Hle. change (can_run_list (PrefillAdder_init _ _ _ _ _ _ _ _ _)) with (@nil Req.t) in Hle.
  destruct Hch as (_ & _ & _ & _ & _ & _ & Hrp & _ & Hpre & _). rewrite Hpre, app_nil_r in Hrp by done. rewrite Hrp, Hr0 in Hrm.
  assert (∀ l, len (ids l) = len l) as Hlen by (intros l; apply len_fmap).
  apply Permutation_length in Hrm. apply (f_equal length) in Hbm, Hrb. rewrite !length_app in *. unfold running_ids in *.
  rewrite <-(Hlen (sb_reqs b')), <-(Hlen (sb_reqs (running_batch s3))), <-(Hlen (sb_reqs (running_batch s))).
  rewrite <-(Hlen (can_run_list a2)), <-(Hlen (sb_reqs rb)) in Hle. change (chunked_req (put _ _)) with (chunked_req s) in Hle.
  rewrite len_nil in Hle. unfold len in *. lia.
Qed.
End spec.
