(* ===== verification/SchedulerDemo.v ===== *)
(** * Runs of the scheduler on a small cache

    The theorems of [SchedulerSpec] at concrete runs, and the run in which
    preemption loses a request. *)

From Stdlib Require Import QArith.QArith_base.
From S2P Require Import Prelude KVAllocator ReqPool Request RadixTree PrefixCache RadixReq ChunkCache CacheCommon.
From S2P Require Import RadixSpec RequestSpec SchedulePolicy SchedulePolicySpec ScheduleBatch ScheduleBatchSpec PrefillAdder PrefillAdderSpec.
From S2P Require Import Scheduler SchedulerTags SchedulerHosts SchedulerSpec.
#[local] Open Scope Z_scope.

Module SchedDemo.
Definition state : Type := Sched (chunk_cache Base.t).
Definition params_host : SchedHost (chunk_cache Base.t) := chunk_sched_host Z.of_nat Demo.no_hash None (λ _, 0) id id 8 2.
#[local] Existing Instance params_host.
#[local] Instance laws : TagLaws (chunk_cache Base.t) := chunk_tag_laws Z.of_nat Demo.no_hash None (λ _, 0) id id 8 2 (λ l, Permutation_refl l).

(** Chunks of eight tokens; [bs] requests at most. *)
Definition conf (prio : bool) (bs : Z) : SchedConfig :=
  mkConf 1 100 (Some 8) false false prio false false None 0 bs None (1 # 1000) (1 # 10).
Definition start (slots : Z) : state :=
  mkSched ∅ [] (empty_batch false) None None None (1 # 2) (mkPolicy (Agnostic FCFS) false false QueueDemo.no_nodes)
    (mkChunk (ReqToTokenPool.init 4 16) (TokenAlloc.init slots false) 1 0) [].
Definition new (id : string) (toks : list Z) (p : option Z) : Req.t := Req_init id toks demo_params false None None [] (Some 100) p None.

Definition receive cf (s : state) r : res state := _add_request_to_queue cf (λ _, 0) (put s [r]) r.
Definition no_mm (_ : Req.t) : option (option Z) := None.
Definition next cf (s : state) := next_batch cf 4 20 8 (λ _, 0) (λ _, false) (λ _, false) (λ _, 0) (λ _, None) no_mm false (-7) (-9) false s.
(** The model samples token 50 for every request. *)
Definition iter cf (s : state) : res state :=
  iteration cf 4 20 8 (λ _, 0) (λ _, false) (λ _, false) (λ _, 0) (λ _, None) no_mm false (-7) (-9) false (λ _, []) (λ _ _, false) (λ _ _, None)
    (λ b, (λ _, 50) <$> sb_reqs b) s.
Definition or_start (x : res state) : state := match x with Ok s => s | Err _ => start 0 end.

(** Two requests; the second is prefilled in two chunks while the first waits. *)
Definition one : state := or_start (receive (conf false 4) (start 20) (new "a" [1; 2; 3] None)).
Definition two : state := or_start (receive (conf false 4) one (new "b" [1; 2; 3; 4; 5; 6; 7; 8; 9; 10] None)).
Definition two_1 : state := or_start (iter (conf false 4) two).
Definition two_2 : state := or_start (iter (conf false 4) two_1).

(** "a", of low priority, and "b" run; "n" outranks "a" but is too long for what
    preempting "a" makes room for. *)
Definition full : state :=
  let cf := conf true 2 in
  let s := or_start (receive cf (start 14) (new "a" [1; 2; 3] (Some 1))) in
  let s := or_start (receive cf s (new "b" [1; 2; 3; 4] (Some 9))) in
  let s := or_start (iter cf s) in
  let s := or_start (iter cf s) in
  or_start (receive cf s (new "n" [1; 2; 3; 4; 5; 6; 7; 8] (Some 8))).
Definition after : state := match next (conf true 2) full with Ok (_, s) => s | Err _ => start 0 end.

Lemma next_after : match next (conf true 2) full with Ok (Some IsRunning, _) => true | _ => false end = true →
  next (conf true 2) full = Ok (Some IsRunning, after).
Proof. unfold after. by destruct (next (conf true 2) full) as [[[[]|] s]|]. Qed.

Lemma start_ok n : sched_ok (start n).
Proof. split; try constructor. by exists FCFS. Qed.

(** The invariant as a test. *)
Definition storedb (s : state) (i : string) : bool :=
  match objs s !! i with Some r => bool_decide (Req.rid r = i) | None => false end.
Definition last_okb (s : state) : bool :=
  match last_batch s with
  | None => bool_decide (chunked_ids s = [])
  | Some IsRunning => bool_decide (chunked_ids s = []) && negb (is_extend (Batch.forward_mode (sb (running_batch s))))
  | Some (Own b) =>
      if is_extend (Batch.forward_mode (sb b))
      then bool_decide (ids (option_list (sb_chunked_req b)) = chunked_ids s) && forallb (λ i, bool_decide (i ∈ ids (sb_reqs b))) (chunked_ids s)
      else bool_decide (chunked_ids s = [])
  end.
Definition sched_okb (s : state) : bool :=
  match SchedulePolicy.policy (sched_policy s) with Agnostic _ => true | _ => false end &&
  forallb (storedb s) (live s ++ cur_ids s) && bool_decide (NoDup (live s)) && last_okb s.

Lemma sched_okb_ok s : sched_okb s = true → sched_ok s.
Proof.
  unfold sched_okb. intros [[[Hp Hs]%andb_prop Hn]%andb_prop Hl]%andb_prop.
  assert (Forall (stored (objs s)) (live s ++ cur_ids s)) as [H1 H2]%Forall_app.
  { apply Forall_forall. intros i Hi. rewrite forallb_forall in Hs. specialize (Hs i (proj1 (list_elem_of_In _ _) Hi)). unfold storedb in Hs.
    destruct (objs s !! i) as [r|] eqn:E; [|done]. exists r. split; [done|]. by apply bool_decide_eq_true in Hs. }
  assert (chunked_ids s = [] → chunked_req s = None) as Hc by (unfold chunked_ids; by destruct (chunked_req s)).
  split; [|done|by apply bool_decide_eq_true in Hn| |done].
  - cbn. destruct (SchedulePolicy.policy _); [done|by eexists].
  - unfold last_ok, last_okb in *. destruct (last_batch s) as [[|b]|].
    + apply andb_prop in Hl as [Hl%bool_decide_eq_true Hm]. split; [auto|by apply negb_true_iff].
    + destruct (is_extend _); [|apply bool_decide_eq_true in Hl; auto]. apply andb_prop in Hl as [Hl%bool_decide_eq_true Hm].
      split; [done|]. intros i Hi. rewrite forallb_forall in Hm. apply list_elem_of_In, Hm, bool_decide_eq_true in Hi. done.
    + apply bool_decide_eq_true in Hl. auto.
Qed.

Definition is_ok (x : res state) : bool := match x with Ok _ => true | Err _ => false end.
Lemma or_start_ok x : is_ok x = true → x = Ok (or_start x).
Proof. by destruct x. Qed.

Definition prefill_only (s : state) : bool :=
  match last_batch s with Some (Own b) => Batch.is_prefill_only (sb b) | _ => false end.
Lemma not_prefill_only s : prefill_only s = false → ¬ prefill_leftover s.
Proof. intros Hp (b & i & Hb & Hpo & _). unfold prefill_only in Hp. rewrite Hb in Hp. congruence. Qed.

Definition runs := run (conf false 4) 4 20 8 (λ _, 0) (λ _, false) (λ _, false) (λ _, 0) (λ _, None) no_mm false (-7) (-9) false
  (λ _, []) (λ _ _, false) (λ _ _, None).
Lemma runs_receive h s r : runs h (start 20) s → objs s !! Req.rid r = None → is_ok (receive (conf false 4) s r) = true →
  runs (h ++ [Req.rid r]) (start 20) (or_start (receive (conf false 4) s r)).
Proof. intros Hr Hn Hok. eapply run_step; [exact Hr|]. apply step_receive; [done|]. by apply or_start_ok. Qed.
Lemma runs_iter h s : runs h (start 20) s → prefill_only s = false → is_ok (iter (conf false 4) s) = true →
  runs h (start 20) (or_start (iter (conf false 4) s)).
Proof.
  intros Hr Hn Hok. rewrite <-(app_nil_r h). eapply run_step; [exact Hr|]. eapply step_iteration; [by apply not_prefill_only|]. by apply or_start_ok.
Qed.
Lemma two_run : runs ["a"; "b"]%string (start 20) two_2.
Proof.
  refine (runs_iter _ two_1 (runs_iter _ two _ _ _) _ _); [|vm_compute; reflexivity..].
  apply (runs_receive ["a"]%string one (new "b" [1; 2; 3; 4; 5; 6; 7; 8; 9; 10] None)); [|vm_compute; reflexivity..].
  apply (runs_receive [] (start 20) (new "a" [1; 2; 3] None)); [constructor|vm_compute; reflexivity..].
Qed.
End SchedDemo.
#[local] Existing Instances SchedDemo.params_host SchedDemo.laws.


Lemma no_request_lost_witness :
  (queued SchedDemo.two_2, running_ids SchedDemo.two_2, last_ids SchedDemo.two_2) = ([], ["a"], ["b"])%string ∧
  NoDup (live SchedDemo.two_2) ∧ ∀ i, i ∈ ["a"; "b"]%string → i ∈ live SchedDemo.two_2 ∨ done_in (objs SchedDemo.two_2) i ∨ AbortReq i ∈ sent SchedDemo.two_2.
Proof.
  split; [vm_compute; reflexivity|].
  exact (no_request_lost (SchedDemo.conf false 4) 4 20 8 (λ _, 0) (λ _, false) (λ _, false) (λ _, 0) (λ _, None) SchedDemo.no_mm false (-7) (-9) false
    (λ _, []) (λ _ _, false) (λ _ _, None) ["a"; "b"]%string (SchedDemo.start 20) SchedDemo.two_2 (SchedDemo.start_ok 20) eq_refl SchedDemo.two_run).
Defined.

(** One run: with priority scheduling a request can be lost.  Here "a" and "b" run and
    "n", which outranks "a", waits; the batch is full, so "a" is preempted for "n",
    which then does not fit after all.  No prefill batch is formed and
    [get_new_batch_prefill] returns before it puts the preempted requests back into
    the queue: afterwards "a" is neither queued nor running nor finished, its client
    is told nothing, and its slots are free. *)
Theorem preemption_loses_request :
  let cf := SchedDemo.conf true 2 in
  sched_ok SchedDemo.full ∧
  queued SchedDemo.full = ["n"]%string ∧ running_ids SchedDemo.full ++ last_ids SchedDemo.full = ["a"; "b"]%string ∧
  ∃ s', SchedDemo.next cf SchedDemo.full = Ok (Some IsRunning, s') ∧
    live (taken s' (Some IsRunning)) = ["n"; "b"]%string ∧ ¬ done_in (objs s') "a" ∧ sent s' = [].
Proof.
  split; [apply SchedDemo.sched_okb_ok; vm_compute; reflexivity|]. split; [vm_compute; reflexivity|]. split; [vm_compute; reflexivity|].
  exists SchedDemo.after. split; [|split; [vm_compute; reflexivity|split; [|vm_compute; reflexivity]]].
  - apply SchedDemo.next_after. vm_compute. reflexivity.
  - intros (r & Hr & Hf). assert (finished <$> objs SchedDemo.after !! "a"%string = Some false) as Hn by (vm_compute; reflexivity).
    rewrite Hr in Hn. cbn in Hn. congruence.
Qed.

Lemma next_batch_conserves_witness : ∃ done gone lost,
  live SchedDemo.full ≡ₚ live (taken SchedDemo.after (Some IsRunning)) ++ done ++ gone ++ lost ∧ sent SchedDemo.after = AbortReq <$> gone.
Proof.
  destruct (next_batch_conserves (SchedDemo.conf true 2) 4 20 8 (λ _, 0) (λ _, false) (λ _, false) (λ _, 0) (λ _, None) SchedDemo.no_mm false (-7) (-9) false
    SchedDemo.full (Some IsRunning) SchedDemo.after ltac:(apply SchedDemo.sched_okb_ok; vm_compute; reflexivity)
    ltac:(apply SchedDemo.next_after; vm_compute; reflexivity)) as (dn & gone & lost & Hp & _ & Hs & _).
  exists dn, gone, lost. exact (conj Hp Hs).
Defined.
