(* ===== verification/SchedulerOps.v ===== *)
(** * The scheduler's single operations

    The limit on the waiting queue, the size of a batch, aborting, and flushing the
    cache. *)

From Stdlib Require Import QArith.QArith_base.
From S2P Require Import Prelude KVAllocator ReqPool Request RadixTree PrefixCache RadixReq ChunkCache CacheCommon.
From S2P Require Import SchedulePolicy SchedulePolicySpec ScheduleBatch ScheduleBatchSpec PrefillAdder PrefillAdderSpec.
From S2P Require Import Scheduler SchedulerTags SchedulerHosts SchedulerSpec SchedulerDemo.
#[local] Open Scope Z_scope.

(** ** The limit on the queue *)
Section queue.
Context {C : Type} `{TagLaws C} (cf : SchedConfig) (wait_queue_entry_time : Req.t → Z).
Implicit Types (s : Sched C) (r : Req.t).

(** The priority as a cost: the larger, the less preferred. *)
Definition cost_of s r : Z := direction cf * default 0 (Req.priority (fetch (objs s) r)).

Lemma pair_ge_trans a b c : pair_ltb a b = false → pair_ltb b c = false → pair_ltb a c = false.
Proof.
  unfold pair_ltb. destruct a, b, c. cbn. rewrite !orb_false_iff, !andb_false_iff, !Z.ltb_ge, !Z.eqb_neq. lia.
Qed.
Lemma pair_lt_ge a b : pair_ltb a b = true → pair_ltb b a = false.
Proof.
  unfold pair_ltb. destruct a, b. cbn. rewrite orb_true_iff, orb_false_iff, andb_true_iff, andb_false_iff, !Z.ltb_ge, !Z.ltb_lt, Z.eqb_eq, Z.eqb_neq. lia.
Qed.
Lemma pair_ge_refl a : pair_ltb a a = false.
Proof. unfold pair_ltb. by rewrite !Z.ltb_irrefl, Z.eqb_refl. Qed.

(** [max] finds a largest element. *)
Lemma max_on_spec key l : ∀ best i x, x = best.2 ∨ x ∈ l → pair_ltb (key (max_on key best i l).2) (key x) = false.
Proof.
  induction l as [|y l IH]; intros best i x Hx; cbn.
  - destruct Hx as [->|[]%not_elem_of_nil]. apply pair_ge_refl.
  - destruct (pair_ltb (key best.2) (key y)) eqn:E.
    + destruct Hx as [->|[->|Hx]%elem_of_cons]; [|by apply IH; left|by apply IH; right].
      eapply pair_ge_trans; [apply IH; by left|by apply pair_lt_ge].
    + destruct Hx as [->|[->|Hx]%elem_of_cons]; [by apply IH; left| |by apply IH; right].
      eapply pair_ge_trans; [apply IH; by left|exact E].
Qed.

(** C8. When the waiting queue is full, exactly one request is turned away, with a
    message: the incoming one, or, with priority scheduling, a waiting request
    that the incoming one is strictly preferred to.  The one chosen is a least
    preferred request of the queue, and the others keep their order. *)
Theorem queue_limit_aborts_one s r ab s' n (Hmax : max_queued_requests cf = Some n) (Hfull : n < len (waiting_queue s) + 1)
    (Hs : Forall (stored (objs s)) (queued s)) (Hr : Req.rid r ∉ queued s)
    (E : _abort_on_queued_limit cf wait_queue_entry_time s r = Ok (ab, s')) :
  objs s' = objs s ∧
  ((ab = true ∧ waiting_queue s' = waiting_queue s ∧ sent s' = sent s ++ [AbortReq (Req.rid r)] ∧
    (enable_priority_scheduling cf = true → ∃ p, Req.priority r = Some p ∧ ∃ y, y ∈ waiting_queue s ∧
       (∀ z, z ∈ waiting_queue s → cost_of s z ≤ cost_of s y) ∧ cost_of s y ≤ direction cf * p)) ∨
   (ab = false ∧ enable_priority_scheduling cf = true ∧ ∃ l1 x l2 p, waiting_queue s = l1 ++ x :: l2 ∧ waiting_queue s' = l1 ++ l2 ∧
    sent s' = sent s ++ [AbortReq (Req.rid x)] ∧ Req.priority r = Some p ∧ direction cf * p < cost_of s x ∧
    ∀ y, y ∈ waiting_queue s → cost_of s y ≤ cost_of s x)).
Proof.
  unfold _abort_on_queued_limit in E. rewrite Hmax in E. cbv zeta in E. rewrite (proj2 (Z.leb_gt _ _)) in E by lia.
  destruct (enable_priority_scheduling cf) eqn:Ep; [|injection E as <- <-; split; [done|]; left; by split_and!].
  follow1 E. follow1 E. unfold of_opt in E1. destruct (Req.priority r) as [p|] eqn:Er; [injection E1 as <-|done].
  destruct (refresh (objs s) (waiting_queue s)) as [|x0 rest] eqn:Eq; [done|].
  match type of E with context [max_on ?k _ _ _] => set (key := k) in E end.
  pose proof (max_on_lookup key rest (0%nat, x0) 1 (x0 :: rest)) as Hlk. pose proof (max_on_spec key rest (0%nat, x0) 1) as Hsp.
  destruct (max_on key (0%nat, x0) 1 rest) as [i cand]. cbn [fst snd] in Hlk, Hsp.
  specialize (Hlk ltac:(by intros j y) eq_refl). rewrite <-Eq in Hlk. unfold refresh in Hlk. rewrite list_lookup_fmap in Hlk.
  destruct (waiting_queue s !! i) as [x|] eqn:Ex; [|done]. injection Hlk as Hx.
  assert (∀ y, y ∈ waiting_queue s → cost_of s y ≤ cost_of s x) as Hmaxc.
  { intros y Hy. assert (fetch (objs s) y ∈ x0 :: rest) as Hin by (rewrite <-Eq; by apply list_elem_of_fmap_2).
    apply elem_of_cons in Hin. specialize (Hsp _ Hin). rewrite <-Hx in Hsp. unfold key, pair_ltb in Hsp. cbn in Hsp.
    apply orb_false_iff in Hsp as [Hsp _]. apply Z.ltb_ge in Hsp. exact Hsp. }
  assert (cost_of s x = direction cf * default 0 (Req.priority cand)) as Hc by (unfold cost_of; by rewrite Hx).
  rewrite <-Hc in E. assert (x ∈ waiting_queue s) as Hxin by (by eapply list_elem_of_lookup_2).
  destruct (Z.ltb_spec (direction cf * p) (cost_of s x)) as [Hlt|Hge]; injection E as <- <-.
  - assert (Req.rid cand = Req.rid x) as Hid by (rewrite <-Hx; apply fetch_rid; unfold queued, ids in Hs; rewrite Forall_fmap, Forall_forall in Hs; by apply Hs).
    split; [done|]. right. split; [apply bool_decide_eq_false; rewrite Hid; intros Hxr; apply Hr; rewrite <-Hxr; by apply list_elem_of_fmap_2|].
    split; [done|]. exists (take i (waiting_queue s)), x, (drop (S i) (waiting_queue s)), p. rewrite Hid. split_and!; try done. by rewrite take_drop_middle.
  - split; [done|]. left. split_and!; try done. intros _. exists p. split; [done|]. by exists x.
Qed.
End queue.

(** ** Aborting *)
Section aborting.
Context {C : Type}.
Implicit Types (s : Sched C) (r : Req.t).

Lemma publish_lookup l : ∀ (m : gmap string Req.t) i,
  (∀ r r', r ∈ l → r' ∈ l → Req.rid r = Req.rid r' → r = r') →
  publish m l !! i = match List.find (λ r, bool_decide (Req.rid r = i)) l with Some r => Some r | None => m !! i end.
Proof.
  induction l as [|r l IH]; intros m i Hinj; [done|]. change (publish m (r :: l)) with (publish (<[Req.rid r := r]> m) l).
  rewrite IH by (intros; apply Hinj; [by right..|done]). cbn [List.find].
  destruct (bool_decide_reflect (Req.rid r = i)) as [<-|Hne]; [rewrite lookup_insert_eq|by rewrite lookup_insert_ne].
  destruct (List.find _ l) as [r'|] eqn:E; [|done]. apply List.find_some in E as [Hin%list_elem_of_In Hi%bool_decide_eq_true].
  f_equal. apply Hinj; [by right|by left|congruence].
Qed.

(** The objects selected among those of a list of references. *)
Lemma selected (m : gmap string Req.t) l (P : Req.t → bool) : Forall (stored m) (ids l) →
  ∀ r, r ∈ List.filter P (refresh m l) → m !! Req.rid r = Some r ∧ Req.rid r ∈ ids l ∧ P r = true.
Proof.
  intros Hst r [Hin%list_elem_of_In Hp]%list_elem_of_In%List.filter_In. apply list_elem_of_fmap in Hin as (x & -> & Hx).
  unfold ids in Hst. rewrite Forall_fmap, Forall_forall in Hst. destruct (Hst x Hx) as (o & Hox & Hid). unfold fetch in *. rewrite Hox in *.
  cbn in *. rewrite Hid. split_and!; try done. by apply list_elem_of_fmap_2.
Qed.

(** What an order to abort does to an object. *)
Definition marked (all : bool) (rid : string) (here : list string) (i : string) r : Req.t :=
  if bool_decide (i ∈ here) && (negb (finished r) && aborts all rid r)
  then Req.set_to_finish r (Some (finish_abort None None None)) else r.

(** Aborting is exact: the waiting requests concerned are removed, each with a
    message, and the rest of the queue keeps its order; among the requests of the
    running and the current batch exactly those concerned that have not finished are
    marked to finish at their next token; no other object changes, no batch and no
    slot. *)
Theorem abort_request_exact s all rid (Hst : Forall (stored (objs s)) (running_ids s ++ cur_ids s)) :
  let s' := abort_request s all rid in
  waiting_queue s' = List.filter (λ r, negb (aborts all rid r)) (waiting_queue s) ∧
  sent s' = sent s ++ (AbortReq <$> ids (reverse (List.filter (aborts all rid) (waiting_queue s)))) ∧
  (∀ i, objs s' !! i = marked all rid (running_ids s ++ cur_ids s) i <$> objs s !! i) ∧
  running_batch s' = running_batch s ∧ last_batch s' = last_batch s ∧ cur_batch s' = cur_batch s ∧ tree_cache s' = tree_cache s.
Proof.
  cbv zeta. unfold abort_request. cbv zeta.
  set (s0 := set_waiting s _). set (gone := reverse _). destruct (send_all gone s0) as (Ho & Hq & Hs & Hr & Hl & Hc & _ & _ & Ht & _).
  set (s1 := foldl _ s0 gone) in *. rewrite Hr, Hc. cbn [set_waiting running_batch cur_batch s0].
  set (rs := sb_reqs (running_batch s) ++ _). assert (ids rs = running_ids s ++ cur_ids s) as Hrs.
  { unfold rs, running_ids, cur_ids. rewrite ids_app. by destruct (cur_batch s) as [[|]|]. }
  split_and!; try done. intros i. cbn [put set_objs objs]. rewrite Ho. cbn [set_waiting objs s0].
  set (mk := λ r, Req.set_to_finish r _). set (sel := List.filter _ _).
  pose proof (selected (objs s) rs (λ r, negb (finished r) && aborts all rid r) ltac:(by rewrite Hrs)) as Hsel. fold sel in Hsel.
  rewrite publish_lookup.
  2: { intros r r' (x & -> & Hx)%list_elem_of_fmap (y & -> & Hy)%list_elem_of_fmap Hid. f_equal. destruct (Hsel x Hx) as [H1 _], (Hsel y Hy) as [H2 _].
       change (Req.rid x = Req.rid y) in Hid. congruence. }
  destruct (List.find _ _) as [r|] eqn:E.
  - apply List.find_some in E as [Hin%list_elem_of_In Hi%bool_decide_eq_true]. apply list_elem_of_fmap in Hin as (x & -> & Hx).
    change (Req.rid x = i) in Hi. destruct (Hsel x Hx) as (H1 & H2 & H3). subst i. rewrite H1. cbn. unfold marked.
    by rewrite <-Hrs, bool_decide_true, H3 by done.
  - destruct (objs s !! i) as [o|] eqn:Eo; [|done]. cbn. f_equal. unfold marked.
    destruct (bool_decide_reflect (i ∈ running_ids s ++ cur_ids s)) as [Hin|]; [|done].
    destruct (negb (finished o) && aborts all rid o) eqn:Ec; [|done]. exfalso.
    assert (Req.rid o = i) as Hid by (rewrite Forall_forall in Hst; destruct (Hst i Hin) as (o' & Ho' & ?); congruence).
    rewrite <-Hrs in Hin. apply list_elem_of_fmap in Hin as (x & Hxi & Hx).
    eapply List.find_none in E; [|apply list_elem_of_In, (list_elem_of_fmap_2 mk); apply list_elem_of_In, List.filter_In; split; [|exact Ec];
      apply list_elem_of_In, list_elem_of_fmap; exists x; split; [|exact Hx]; unfold fetch; cbn; by rewrite <-Hxi, Eo].
    apply bool_decide_eq_false in E. by apply E.
Qed.

(** C7. A token that a request's grammar does not take aborts that request, but by
    a prefix of its id: every waiting request whose id only starts with that id is
    thrown out of the queue as well, and its client is told that it is aborted. *)
Theorem grammar_failure_aborts_others accept_token s r t q (Hg : Req.grammar r ≠ None) (Ht : accept_token r t = None)
    (Hq : q ∈ waiting_queue s) (Hp : String.prefix (Req.rid r) (Req.rid q) = true) :
  let s' := step_grammar accept_token s r t in Req.rid q ∉ queued s' ∧ AbortReq (Req.rid q) ∈ sent s'.
Proof.
  cbv zeta. unfold step_grammar. destruct (Req.grammar r); [|done]. rewrite Ht. unfold abort_request. cbv zeta.
  set (s0 := set_waiting s _). set (gone := reverse _). destruct (send_all gone s0) as (_ & Hw & Hs & _).
  set (s1 := foldl _ s0 gone) in *. unfold queued. cbn. rewrite Hw, Hs. cbn [s0 set_waiting waiting_queue sent]. split.
  - intros (x & Hx & Hin%list_elem_of_In%List.filter_In)%list_elem_of_fmap. destruct Hin as [_ Hn%negb_true_iff].
    unfold aborts in Hn. cbn in Hn. congruence.
  - apply elem_of_app. right. apply list_elem_of_fmap_2, list_elem_of_fmap_2. unfold gone. apply elem_of_reverse, list_elem_of_In, List.filter_In.
    split; [by apply list_elem_of_In|done].
Qed.

(** ** Flushing *)

(** The cache is only flushed when no request would notice: if [flush_cache]
    succeeds, the scheduler is left with the cache reset, no last and no current
    batch, the objects and the output as they were, and there was no live request;
    otherwise nothing changes. *)
Theorem flush_only_when_idle (reset : C → C) s ok s' (E : flush_cache reset s = (ok, s')) :
  if (ok : bool) then live s = [] ∧ live s' = [] ∧ tree_cache s' = reset (tree_cache s) ∧ last_batch s' = None ∧ cur_batch s' = None ∧
    objs s' = objs s ∧ sent s' = sent s
  else s' = s.
Proof.
  unfold flush_cache in E. destruct (_is_no_request s) eqn:Ei; injection E as <- <-; [|done].
  unfold _is_no_request in Ei. rewrite !andb_true_iff, Z.eqb_eq, len_zero_iff in Ei. destruct Ei as [[[Hw Hr] Hl] _].
  apply Z.eqb_eq, len_zero_iff in Hr. unfold live, queued, running_ids, last_ids, sb_reqs, set_cache, set_last, set_cur. cbn. rewrite Hw, Hr.
  split_and!; try done. cbn. unfold ref_is_empty in Hl. destruct (last_batch s) as [[|b]|]; [done| |done]. cbn in Hl.
  apply Z.eqb_eq, len_zero_iff in Hl. unfold sb_reqs. rewrite Hl. by destruct (is_extend _).
Qed.
End aborting.

(** ** Witnesses *)
#[local] Existing Instances SchedDemo.params_host SchedDemo.laws.

(** The first iteration of [SchedDemo.two]. *)
Lemma prefill_batch_bounded_witness : ∃ b (s' : SchedDemo.state),
  len (sb_reqs b) + len (sb_reqs (running_batch s')) ≤ 4.
Proof.
  destruct (get_new_batch_prefill (SchedDemo.conf false 4) 4 20 8 (λ _, 0) (λ _, false) (λ _, false) (λ _, 0) (λ _, None) SchedDemo.no_mm
    false (-7) (-9) false SchedDemo.two) as [[[b|] s']|] eqn:E; [|exfalso; revert E; vm_compute; discriminate..].
  exists b, s'.
  pose proof (SchedDemo.sched_okb_ok SchedDemo.two ltac:(vm_compute; reflexivity)) as [Hpol Hst Hnd _ _].
  pose proof (prefill_batch_bounded (SchedDemo.conf false 4) 4 20 8 (λ _, 0) (λ _, false) (λ _, false) (λ _, 0) (λ _, None) SchedDemo.no_mm
    false (-7) (-9) false SchedDemo.two b s' eq_refl Hpol Hnd Hst E) as Hle.
  assert (Z.max (pp_max_micro_batch_size (SchedDemo.conf false 4))
    (len (sb_reqs (running_batch SchedDemo.two)) + len (option_list (chunked_req SchedDemo.two))) = 4) as Hm by (vm_compute; reflexivity).
  rewrite Hm in Hle. exact Hle.
Defined.

Module LimitDemo.
(** A queue for one request, with priorities. *)
Definition cf : SchedConfig :=
  mkConf 1 100 (Some 8) false false true false false (Some 1) 0 4 None (1 # 1000) (1 # 10).
Definition s : SchedDemo.state := SchedDemo.or_start (SchedDemo.receive cf (SchedDemo.start 20) (SchedDemo.new "a" [1; 2; 3] (Some 1))).
Definition r : Req.t := SchedDemo.new "b" [4] (Some 5).
Lemma stored_a : Forall (stored (objs s)) (queued s).
Proof. constructor; [|constructor]. eexists. split; vm_compute; reflexivity. Qed.
End LimitDemo.

Lemma queue_limit_aborts_one_witness : ∃ ab s', _abort_on_queued_limit LimitDemo.cf (λ _, 0) LimitDemo.s LimitDemo.r = Ok (ab, s') ∧
  objs s' = objs LimitDemo.s ∧ sent s' = [AbortReq "a"].
Proof.
  destruct (_abort_on_queued_limit LimitDemo.cf (λ _, 0) LimitDemo.s LimitDemo.r) as [[ab s']|] eqn:E; [|exfalso; revert E; vm_compute; discriminate].
  exists ab, s'. split; [reflexivity|].
  split; [exact (proj1 (queue_limit_aborts_one LimitDemo.cf (λ _, 0) LimitDemo.s LimitDemo.r ab s' 1 eq_refl eq_refl LimitDemo.stored_a ltac:(by_decide) E))|].
  assert (match _abort_on_queued_limit LimitDemo.cf (λ _, 0) LimitDemo.s LimitDemo.r with Ok (_, s') => sent s' | _ => [] end = [AbortReq "a"]) as Hs
    by (vm_compute; reflexivity).
  rewrite E in Hs. exact Hs.
Defined.

Module AbortDemo.
Lemma here s : sched_ok s → Forall (stored (objs s)) (running_ids s ++ cur_ids s).
Proof.
  intros [_ Hst _ _ Hcu]. unfold live in Hst. rewrite !Forall_app in Hst. apply Forall_app. tauto.
Qed.
End AbortDemo.

Lemma abort_request_exact_witness : queued SchedDemo.full = ["n"]%string ∧
  waiting_queue (abort_request SchedDemo.full false "n") = List.filter (λ r, negb (aborts false "n" r)) (waiting_queue SchedDemo.full).
Proof.
  split; [vm_compute; reflexivity|]. exact (proj1 (abort_request_exact SchedDemo.full false "n"
    (AbortDemo.here SchedDemo.full (SchedDemo.sched_okb_ok SchedDemo.full ltac:(vm_compute; reflexivity))))).
Defined.

Module GrammarDemo.
Definition r : Req.t := Req.set_grammar (SchedDemo.new "1" [1] None) (Some false).
Definition other : Req.t := SchedDemo.new "10" [2] None.
Definition s : SchedDemo.state := SchedDemo.or_start (SchedDemo.receive (SchedDemo.conf false 4) (SchedDemo.start 20) other).
End GrammarDemo.

Lemma grammar_failure_aborts_others_witness :
  let s' := step_grammar (λ _ _, None) GrammarDemo.s GrammarDemo.r 7 in "10"%string ∉ queued s' ∧ AbortReq "10" ∈ sent s'.
Proof.
  apply (grammar_failure_aborts_others (λ _ _, None) GrammarDemo.s GrammarDemo.r 7 GrammarDemo.other); [discriminate|reflexivity| |reflexivity].
  vm_compute. left.
Defined.

Lemma flush_only_when_idle_witness : ∃ s', flush_cache id (SchedDemo.start 20) = (true, s') ∧ live (SchedDemo.start 20) = [] ∧
  fst (flush_cache id SchedDemo.full) = false.
Proof.
  destruct (flush_cache id (SchedDemo.start 20)) as [ok s'] eqn:E. pose proof (flush_only_when_idle id (SchedDemo.start 20) ok s' E) as Hf.
  assert (ok = true) as -> by (apply (f_equal fst) in E; vm_compute in E; congruence).
  exists s'. split; [reflexivity|]. split; [exact (proj1 Hf)|vm_compute; reflexivity].
Defined.
