(* ===== verification/Tensor.v ===== *)
(** * Integer tensors as lists

    The expert balancer computes on small integer tensors with [gather],
    [scatter_], [view] and [unflatten].  A vector is a list, a matrix the list of
    its rows.  Bounds are checked as PyTorch does on the CPU: an index outside
    raises.  The lemmas read a tensor at an integer index with [zat] and say what
    the operations do to permutations. *)

From S2P Require Import Prelude.

(** ** The operations *)

(** Element [i], for [0 ≤ i < len l]. *)
Definition zat {A} (l : list A) (i : Z) : option A :=
  if i <? 0 then None else l !! Z.to_nat i.

(** [l[i] = x] with Python's negative indices. *)
Definition py_set_index {A} (l : list A) (i : Z) (x : A) : res (list A) :=
  let j := if i <? 0 then len l + i else i in
  if (j <? 0) || (len l <=? j) then Err IndexError else Ok (<[Z.to_nat j := x]> l).

(** [l.gather(-1, idx)] of one row. *)
Definition torch_gather {A} (l : list A) (idx : list Z) : res (list A) :=
  mapM_res (λ i, of_opt RuntimeError (zat l i)) idx.

(** [l.scatter_(-1, idx, src)] of one row: [l[idx[k]] = src[k]]. *)
Fixpoint torch_scatter {A} (l : list A) (idx : list Z) (src : list A) : res (list A) :=
  match idx, src with
  | [], _ => Ok l
  | i :: idx', x :: src' =>
      if (i <? 0) || (len l <=? i) then Err RuntimeError
      else torch_scatter (<[Z.to_nat i := x]> l) idx' src'
  | _ :: _, [] => Err RuntimeError
  end.

(** [n] consecutive pieces of [k] elements. *)
Fixpoint chunks {A} (n k : nat) (l : list A) : list (list A) :=
  match n with
  | O => []
  | S n' => take k l :: chunks n' k (drop k l)
  end.

(** [m.view(n, -1)] and [m.view(-1, k)] in row-major order: the missing size is
    computed, and an ambiguous or uneven one raises. *)
Definition view_rows {A} (n : Z) (m : list (list A)) : res (list (list A)) :=
  let flat := concat m in
  let! _ := guard_raise ((n <=? 0) || negb (len flat mod n =? 0)) RuntimeError in
  Ok (chunks (Z.to_nat n) (Z.to_nat (len flat / n)) flat).

Definition view_cols {A} (k : Z) (m : list (list A)) : res (list (list A)) :=
  let flat := concat m in
  let! _ := guard_raise ((k <=? 0) || negb (len flat mod k =? 0)) RuntimeError in
  Ok (chunks (Z.to_nat (len flat / k)) (Z.to_nat k) flat).

(** A row operation on the rows of two and of three matrices. *)
Definition map2_res {A B C} (f : A → B → res C) (l : list A) (k : list B) : res (list C) :=
  mapM_res (λ p : A * B, f p.1 p.2) (zip l k).

(** A loop whose body may raise. *)
Fixpoint fold_res {A S} (f : S → A → res S) (s : S) (l : list A) : res S :=
  match l with
  | [] => Ok s
  | x :: l' => let! s' := f s x in fold_res f s' l'
  end.

Lemma fold_res_app {A S} (f : S → A → res S) s l k :
  fold_res f s (l ++ k) = let! s' := fold_res f s l in fold_res f s' k.
Proof. revert s. induction l as [|x l IH]; intros s; simpl; [done|]. by destruct (f s x); simpl. Qed.

(** ** Reading at an index *)

Lemma zat_Some_bound {A} (l : list A) i x : zat l i = Some x → 0 ≤ i < len l.
Proof.
  unfold zat, len. destruct (Z.ltb_spec i 0); [done|]. intros Hi%lookup_lt_Some. lia.
Qed.

Lemma zat_in {A} (l : list A) i : 0 ≤ i < len l → ∃ x, zat l i = Some x.
Proof.
  unfold zat, len. intros. case_bool; [lia|]. apply lookup_lt_is_Some. lia.
Qed.

Lemma zat_nat {A} (l : list A) (i : nat) : zat l (Z.of_nat i) = l !! i.
Proof. unfold zat. case_bool; [lia|]. by rewrite Nat2Z.id. Qed.

Lemma zat_elem {A} (l : list A) i x : zat l i = Some x → x ∈ l.
Proof. unfold zat. case_bool; [done|]. apply list_elem_of_lookup_2. Qed.

Lemma elem_zat {A} (l : list A) x : x ∈ l → ∃ i, zat l i = Some x.
Proof. intros [i Hi]%list_elem_of_lookup. exists (Z.of_nat i). by rewrite zat_nat. Qed.

Lemma zat_py_index {A} (l : list A) i x : zat l i = Some x → py_index l i = Ok x.
Proof.
  intros Hx. pose proof (zat_Some_bound _ _ _ Hx) as Hb. unfold zat in Hx. unfold py_index.
  destruct (Z.ltb_spec i 0); [lia|]. destruct (Z.ltb_spec i 0); [lia|]. by rewrite Hx.
Qed.

Lemma py_set_index_ok {A} (l : list A) i x :
  0 ≤ i < len l → py_set_index l i x = Ok (<[Z.to_nat i := x]> l).
Proof.
  intros. unfold py_set_index. destruct (Z.ltb_spec i 0); [lia|].
  destruct (Z.ltb_spec i 0); [lia|]. destruct (Z.leb_spec (len l) i); [lia|]. done.
Qed.

Lemma zat_insert {A} (l : list A) i x j :
  0 ≤ i < len l → zat (<[Z.to_nat i := x]> l) j = if i =? j then Some x else zat l j.
Proof.
  unfold zat, len. intros. destruct (Z.ltb_spec j 0).
  { destruct (Z.eqb_spec i j); [lia|done]. }
  destruct (Z.eqb_spec i j) as [->|].
  - rewrite list_lookup_insert_eq; [done|]. lia.
  - rewrite list_lookup_insert_ne; [done|]. lia.
Qed.

Lemma zat_insert_eq {A} (l : list A) i x : 0 ≤ i < len l → zat (<[Z.to_nat i := x]> l) i = Some x.
Proof. intros. rewrite zat_insert by done. by rewrite Z.eqb_refl. Qed.

Lemma zat_insert_ne {A} (l : list A) i x j :
  0 ≤ i < len l → i ≠ j → zat (<[Z.to_nat i := x]> l) j = zat l j.
Proof. intros. rewrite zat_insert by done. destruct (Z.eqb_spec i j); [lia|done]. Qed.

Lemma len_insert {A} (l : list A) (i : nat) x : len (<[i := x]> l) = len l.
Proof. unfold len. by rewrite length_insert. Qed.

Lemma len_replicate {A} n (x : A) : len (replicate n x) = Z.of_nat n.
Proof. unfold len. by rewrite length_replicate. Qed.

Lemma zat_replicate {A} n (x : A) i : 0 ≤ i < Z.of_nat n → zat (replicate n x) i = Some x.
Proof. intros. unfold zat. case_bool; [lia|]. apply lookup_replicate_2. lia. Qed.

Lemma zat_app_l {A} (l k : list A) i : i < len l → zat (l ++ k) i = zat l i.
Proof. unfold zat, len. intros. case_bool; [done|]. rewrite lookup_app_l by lia. done. Qed.

Lemma zat_app_r {A} (l k : list A) i : len l ≤ i → zat (l ++ k) i = zat k (i - len l).
Proof.
  unfold zat, len. intros. destruct (Z.ltb_spec i 0); [lia|].
  destruct (Z.ltb_spec (i - Z.of_nat (length l)) 0); [lia|].
  rewrite lookup_app_r by lia. f_equal. lia.
Qed.

Lemma zat_fmap {A B} (f : A → B) (l : list A) i : zat (f <$> l) i = f <$> zat l i.
Proof. unfold zat. case_bool; [done|]. apply list_lookup_fmap. Qed.

Lemma zat_py_range a n i : 0 ≤ i < n → zat (py_range a (a + n)) i = Some (a + i).
Proof.
  intros. unfold zat, py_range. case_bool; [lia|].
  rewrite list_lookup_fmap, lookup_seq_lt by lia. simpl. f_equal. lia.
Qed.

Lemma zat_range0 n i x : zat (py_range 0 n) i = Some x ↔ 0 ≤ i < n ∧ x = i.
Proof.
  split.
  - intros H. pose proof (zat_Some_bound _ _ _ H) as Hb.
    unfold len in Hb. rewrite length_py_range in Hb.
    pose proof (zat_py_range 0 n i ltac:(lia)) as H'. rewrite Z.add_0_l in H'.
    rewrite H' in H. simplify_eq. lia.
  - intros [H ->]. by apply (zat_py_range 0 n i).
Qed.

Lemma zat_zip {A B} (l : list A) (k : list B) i x y :
  zat (zip l k) i = Some (x, y) ↔ zat l i = Some x ∧ zat k i = Some y.
Proof.
  unfold zat. case_bool; [naive_solver|]. rewrite lookup_zip_with_Some. naive_solver.
Qed.

Lemma list_eq_zat {A} (l k : list A) : (∀ i, zat l i = zat k i) → l = k.
Proof. intros H. apply list_eq. intros i. rewrite <- !zat_nat. apply H. Qed.

Lemma zat_take {A} (l : list A) n i : i < Z.of_nat n → zat (take n l) i = zat l i.
Proof. intros. unfold zat. case_bool; [done|]. apply lookup_take_lt. lia. Qed.

(** The same element twice means the same index in a list without repetition. *)
Lemma zat_NoDup {A} (l : list A) i j x : NoDup l → zat l i = Some x → zat l j = Some x → i = j.
Proof.
  unfold zat. intros Hn. do 2 case_bool; try done. intros Hi Hj.
  pose proof (NoDup_lookup _ _ _ _ Hn Hi Hj). lia.
Qed.

(** Two digits in base [G]. *)
Lemma mixed_radix G p r : 0 ≤ r < G → (p * G + r) / G = p ∧ (p * G + r) mod G = r.
Proof.
  intros. rewrite (Z.add_comm (p * G) r), Z.div_add, Z.div_small, Z.mod_add, Z.mod_small by lia.
  lia.
Qed.

Lemma mixed_radix_inj G p p' r r' :
  0 ≤ r < G → 0 ≤ r' < G → p * G + r = p' * G + r' → p = p' ∧ r = r'.
Proof.
  intros Hr Hr' E. destruct (mixed_radix G p r Hr), (mixed_radix G p' r' Hr').
  rewrite E in *. lia.
Qed.

(** ** Permutations of [0 .. n) *)

Definition is_perm (n : Z) (l : list Z) : Prop := l ≡ₚ py_range 0 n.

Lemma is_perm_len n l : 0 ≤ n → is_perm n l → len l = n.
Proof. unfold is_perm, len. intros ? ->. rewrite length_py_range. lia. Qed.

Lemma is_perm_NoDup n l : is_perm n l → NoDup l.
Proof. intros H. rewrite H. apply NoDup_py_range. Qed.

Lemma is_perm_elem n l i : is_perm n l → i ∈ l ↔ 0 ≤ i < n.
Proof. intros H. rewrite H. apply elem_of_py_range. Qed.

Lemma perm_of_incl n (l : list Z) :
  len l = n → (∀ i, 0 ≤ i < n → i ∈ l) → is_perm n l.
Proof.
  intros Hl Hi. unfold is_perm. symmetry. apply submseteq_length_Permutation.
  - apply NoDup_submseteq; [apply NoDup_py_range|]. intros i ?%elem_of_py_range. auto.
  - rewrite length_py_range. unfold len in Hl. lia.
Qed.

Lemma perm_of_NoDup n (l : list Z) :
  len l = n → NoDup l → Forall (λ i, 0 ≤ i < n) l → is_perm n l.
Proof.
  intros Hl Hn Hi. apply submseteq_length_Permutation.
  - apply NoDup_submseteq; [done|]. intros i Hi'. apply elem_of_py_range.
    by apply (proj1 (Forall_forall _ _) Hi).
  - rewrite length_py_range. unfold len in Hl. lia.
Qed.

Lemma is_perm_range n : is_perm n (py_range 0 n).
Proof. unfold is_perm. done. Qed.

(** [inv] is the inverse of [p]. *)
Definition inverse_of (p inv : list Z) : Prop :=
  ∀ i j, zat p i = Some j ↔ zat inv j = Some i.

Lemma inverse_of_sym p inv : inverse_of p inv → inverse_of inv p.
Proof. intros H i j. by rewrite (H j i). Qed.

(** ** [gather] *)

Lemma gather_inv {A} (l : list A) idx r :
  torch_gather l idx = Ok r → Forall2 (λ i x, zat l i = Some x) idx r.
Proof.
  intros H%mapM_res_inv. eapply Forall2_impl; [exact H|]. intros i x.
  simpl. destruct (zat l i); simpl; [|done]. by intros [= ->].
Qed.

Lemma gather_len {A} (l : list A) idx r : torch_gather l idx = Ok r → len r = len idx.
Proof. intros H%gather_inv%Forall2_length. unfold len. lia. Qed.

Lemma gather_ok {A} (l : list A) idx :
  Forall (λ i, 0 ≤ i < len l) idx → ∃ r, torch_gather l idx = Ok r.
Proof.
  intros H. induction H as [|i idx Hi _ IH]; [by exists []|].
  destruct IH as [r Hr]. destruct (zat_in l i Hi) as [x Hx].
  exists (x :: r). unfold torch_gather in *. simpl. by rewrite Hx, Hr.
Qed.

Lemma gather_zat {A} (l : list A) idx r k :
  torch_gather l idx = Ok r → zat r k = (i ← zat idx k; zat l i).
Proof.
  intros H%gather_inv. unfold zat at 1 3. destruct (Z.ltb_spec k 0); [done|].
  destruct (idx !! Z.to_nat k) as [i|] eqn:Ei.
  - destruct (Forall2_lookup_l _ _ _ _ _ H Ei) as (x & Hx1 & Hx).
    rewrite Hx1. simpl. done.
  - apply lookup_ge_None in Ei. simpl. apply lookup_ge_None.
    apply Forall2_length in H. lia.
Qed.

Lemma gather_omap {A} (l : list A) idx r : torch_gather l idx = Ok r → r = omap (zat l) idx.
Proof.
  intros H%gather_inv. induction H as [|i x idx r Hx _ IH]; [done|].
  rewrite IH at 1. simpl. by rewrite Hx.
Qed.

Lemma omap_zat_range {A} (l : list A) : omap (zat l) (py_range 0 (len l)) = l.
Proof.
  induction l as [|x l IH] using rev_ind; [done|].
  assert (E : len (l ++ [x]) = len l + 1) by (rewrite len_app; done).
  rewrite E, py_range_snoc by apply len_nonneg. rewrite omap_app. simpl.
  rewrite zat_app_r by lia. rewrite Z.sub_diag. simpl. f_equal.
  etrans; [|exact IH]. apply list_omap_ext, Forall_Forall2_diag, Forall_forall.
  intros i Hi%elem_of_py_range. apply zat_app_l. lia.
Qed.

(** Reading along a permutation permutes. *)
Lemma gather_perm {A} (l : list A) idx r :
  is_perm (len l) idx → torch_gather l idx = Ok r → r ≡ₚ l.
Proof.
  intros Hp ->%gather_omap. etrans; [by apply omap_Permutation, Hp|].
  by rewrite omap_zat_range.
Qed.

Lemma gather_zip {A B} (l : list A) (k : list B) idx r s :
  torch_gather l idx = Ok r → torch_gather k idx = Ok s →
  torch_gather (zip l k) idx = Ok (zip r s).
Proof.
  intros Hr%gather_inv Hs%gather_inv. revert s Hs.
  induction Hr as [|i x idx r Hx _ IH]; intros s Hs; inversion Hs; subst; [done|].
  unfold torch_gather in *. simpl.
  match goal with H : zat k i = Some ?y |- _ =>
    rewrite (proj2 (zat_zip l k i x y) (conj Hx H)) end.
  simpl. by erewrite IH.
Qed.

(** ** [scatter] *)

Lemma scatter_ok {A} (l : list A) idx (src : list A) :
  NoDup idx → Forall (λ i, 0 ≤ i < len l) idx → (length idx ≤ length src)%nat →
  ∃ r, torch_scatter l idx src = Ok r ∧ len r = len l ∧
    (∀ k i x, zat idx k = Some i → zat src k = Some x → zat r i = Some x) ∧
    (∀ i, i ∉ idx → zat r i = zat l i).
Proof.
  revert l src. induction idx as [|i idx IH]; intros l src Hn Hb Hl.
  { exists l. split_and!; try done. intros k i x Hk%zat_Some_bound. unfold len in Hk. simpl in Hk. lia. }
  destruct src as [|x src]; [simpl in Hl; lia|].
  apply NoDup_cons in Hn as [Hi Hn]. apply Forall_cons in Hb as [Hbi Hb].
  destruct (IH (<[Z.to_nat i := x]> l) src) as (r & Hr & Hlr & Hw & Ho).
  { done. } { by rewrite len_insert. } { simpl in Hl. lia. }
  rewrite len_insert in Hlr. exists r. simpl.
  destruct (Z.ltb_spec i 0); [lia|]. destruct (Z.leb_spec (len l) i); [lia|].
  split_and!; [done|done|..].
  - intros k j y Hk Hy. pose proof (zat_Some_bound _ _ _ Hk) as Hkb.
    destruct (decide (k = 0)) as [->|Hk0].
    + unfold zat in Hk, Hy. simpl in Hk, Hy. simplify_eq.
      rewrite Ho by done. by apply zat_insert_eq.
    + change (i :: idx) with ([i] ++ idx) in Hk. change (x :: src) with ([x] ++ src) in Hy.
      rewrite zat_app_r in Hk by (rewrite len_cons, len_nil; lia).
      rewrite zat_app_r in Hy by (rewrite len_cons, len_nil; lia). by apply (Hw _ _ _ Hk Hy).
  - intros j Hj. apply not_elem_of_cons in Hj as [Hj1 Hj2]. rewrite Ho by done.
    apply zat_insert_ne; [lia|done].
Qed.

(** ** [view] *)

Lemma length_chunks {A} n k (l : list A) : length (chunks n k l) = n.
Proof. revert l. induction n; intros l; simpl; [done|]. by rewrite IHn. Qed.

Lemma concat_chunks {A} n k (l : list A) : length l = (n * k)%nat → concat (chunks n k l) = l.
Proof.
  revert l. induction n as [|n IH]; intros l Hl; simpl in *.
  - by destruct l.
  - rewrite IH by (rewrite length_drop; lia). apply take_drop.
Qed.

Lemma chunks_concat {A} k (m : list (list A)) :
  Forall (λ r, length r = k) m → chunks (length m) k (concat m) = m.
Proof.
  induction 1 as [|r m Hr _ IH]; [done|]. simpl.
  rewrite take_app_length' by done. rewrite drop_app_length' by done. by rewrite IH.
Qed.

Lemma length_concat_rows {A} k (m : list (list A)) :
  Forall (λ r, length r = k) m → length (concat m) = (length m * k)%nat.
Proof. induction 1 as [|r m Hr _ IH]; [done|]. simpl. rewrite length_app. lia. Qed.

Lemma Forall_chunks {A} (P : A → Prop) n k l : Forall P l → Forall (Forall P) (chunks n k l).
Proof.
  revert l. induction n as [|n IH]; intros l H; simpl; constructor.
  - by apply Forall_take.
  - by apply IH, Forall_drop.
Qed.

Lemma Forall_chunks_length {A} n k (l : list A) :
  length l = (n * k)%nat → Forall (λ r, length r = k) (chunks n k l).
Proof.
  revert l. induction n as [|n IH]; intros l Hl; simpl in *; constructor.
  - rewrite length_take. lia.
  - apply IH. rewrite length_drop. lia.
Qed.

Lemma concat_concat_fmap {A} (G : list (list (list A))) :
  concat (concat G) = concat (concat (A := A) <$> G).
Proof. induction G as [|g G IH]; [done|]. simpl. by rewrite concat_app, IH. Qed.

Lemma view_cols_ok {A} (n k : nat) (m : list (list A)) :
  (0 < k)%nat → length (concat m) = (n * k)%nat →
  view_cols (Z.of_nat k) m = Ok (chunks n k (concat m)).
Proof.
  intros Hk Hl. unfold view_cols, guard_raise, len. rewrite Hl, Nat2Z.inj_mul, Z.mod_mul by lia.
  rewrite Z.div_mul, !Nat2Z.id by lia. simpl.
  destruct (Z.leb_spec (Z.of_nat k) 0); [lia|done].
Qed.

Lemma view_rows_ok {A} (n k : nat) (m : list (list A)) :
  (0 < n)%nat → length (concat m) = (n * k)%nat →
  view_rows (Z.of_nat n) m = Ok (chunks n k (concat m)).
Proof.
  intros Hn Hl. unfold view_rows, guard_raise, len.
  rewrite Hl, Nat2Z.inj_mul, (Z.mul_comm (Z.of_nat n)), Z.mod_mul by lia.
  rewrite Z.div_mul, !Nat2Z.id by lia. simpl.
  destruct (Z.leb_spec (Z.of_nat n) 0); [lia|done].
Qed.

(** Regrouping [L * N] rows of [k] elements into [L] rows concatenates the groups. *)
Lemma view_rows_groups {A} (L N k : nat) (m : list (list A)) :
  (0 < L)%nat → length m = (L * N)%nat → Forall (λ r, length r = k) m →
  view_rows (Z.of_nat L) m = Ok (concat (A := A) <$> chunks L N m).
Proof.
  intros HL Hm Hk. rewrite (view_rows_ok L (N * k)).
  2: done. 2: { rewrite (length_concat_rows k) by done. rewrite Hm. lia. }
  f_equal. rewrite <- (concat_chunks L N m Hm) at 1.
  assert (Hg : Forall (λ g : list (list A), length (concat g) = (N * k)%nat) (chunks L N m)).
  { pose proof (Forall_chunks_length L N m Hm) as H1.
    pose proof (Forall_chunks _ L N m Hk) as H2.
    apply Forall_forall. intros g Hg. rewrite Forall_forall in H1, H2.
    rewrite (length_concat_rows k) by auto. by rewrite (H1 g Hg). }
  revert Hg. generalize (length_chunks L N m). generalize (chunks L N m) as G. clear.
  intros G HG Hg. subst L. rewrite concat_concat_fmap.
  rewrite <- (length_fmap (concat (A := A)) G) at 1. apply chunks_concat. by apply Forall_fmap.
Qed.

(** The same at integer sizes. *)
Lemma view_cols_Z {A} (n : nat) k (m : list (list A)) :
  0 < k → len (concat m) = Z.of_nat n * k →
  view_cols k m = Ok (chunks n (Z.to_nat k) (concat m)).
Proof.
  intros Hk Hl. rewrite <- (Z2Nat.id k) at 1 by lia. apply view_cols_ok; [lia|].
  unfold len in Hl. nia.
Qed.

Lemma len_concat_rows {A} k (m : list (list A)) :
  Forall (λ r, len r = k) m → len (concat m) = len m * k.
Proof.
  induction 1 as [|r m Hr _ IH]; [done|]. simpl. rewrite len_app, len_cons. lia.
Qed.

Lemma fmap_chunks {A B} (f : A → B) n k (l : list A) :
  (λ g : list A, f <$> g) <$> chunks n k l = chunks n k (f <$> l).
Proof.
  revert l. induction n as [|n IH]; intros l; simpl; [done|].
  by rewrite IH, fmap_take, fmap_drop.
Qed.

Lemma map2_res_exists {A B C} (f : A → B → res C) (Q : A → B → C → Prop) l k :
  Forall2 (λ x y, ∃ z, f x y = Ok z ∧ Q x y z) l k → ∃ r, map2_res f l k = Ok r ∧ Forall3 Q l k r.
Proof.
  unfold map2_res. induction 1 as [|x y l k (z & Hz & Hq) _ (r & Hr & HQ)]; [exists []; split; [done|constructor]|].
  exists (z :: r). simpl. rewrite Hz, Hr. split; [done|]. by constructor.
Qed.

Lemma py_range_cons a n : 0 ≤ n → py_range a (a + (1 + n)) = a :: py_range (a + 1) (a + 1 + n).
Proof.
  intros. unfold py_range.
  replace (Z.to_nat (a + (1 + n) - a)) with (S (Z.to_nat n)) by lia.
  replace (Z.to_nat (a + 1 + n - (a + 1))) with (Z.to_nat n) by lia.
  rewrite <- cons_seq, fmap_cons, <- fmap_S_seq, <- list_fmap_compose. f_equal; [lia|].
  apply list_fmap_ext. intros i x _. simpl. lia.
Qed.
