(* ===== verification/ExpertLoad.v ===== *)
(** * The expert load balancer ([eplb/eplb_algorithms/deepseek.py])

    A layer of a mixture of experts has [num_logical_experts] experts, and the
    balancer places [num_replicas] physical copies of them on the devices so that
    the observed load is spread: groups of experts are packed onto nodes
    ([balanced_packing]), the busiest experts of a node get more replicas
    ([replicate_experts]), the replicas are packed onto the devices of the node,
    and the result is the pair of maps between logical and physical experts.

    Matrices are lists of rows, a row per layer.  The arithmetic on the float
    loads is a parameter, the class [TorchFloat]; [TorchLaws] has what the
    placement relies on. *)

From S2P Require Import Prelude Tensor.

(** ** PyTorch's operations on loads

    [fadd], [fltb] and [fdiv] are addition, comparison and division by a count;
    [fsum] is the sum of a row; [sort_desc] the indices of a descending sort and
    [argmax] the index [max(dim=-1)] returns; [empty_like n] the content of
    [torch.empty] of size [n]. *)
Class TorchFloat (W : Type) := {
  fzero : W;
  fadd : W → W → W;
  fltb : W → W → bool;
  fdiv : W → Z → W;
  fsum : list W → W;
  sort_desc : list W → list Z;
  argmax : list W → Z;
  empty_like : Z → list Z;
}.

Class TorchLaws (W : Type) `{TorchFloat W} := {
  sort_desc_perm : ∀ w : list W, is_perm (len w) (sort_desc w);
  argmax_in : ∀ w : list W, w ≠ [] → 0 ≤ argmax w < len w;
  empty_like_len : ∀ n, 0 ≤ n → len (empty_like n) = n;
}.

Section expert_load.
Context {W : Type} `{TorchFloat W}.

(** [weight.shape[1]]. *)
Definition ncols {A} (m : list (list A)) : Z :=
  match m with [] => 0 | r :: _ => len r end.

(** Python's [//], [%] and their error. *)
Definition py_div (a b : Z) : res Z := if b =? 0 then Err ZeroDivisionError else Ok (a / b).
Definition py_divides (b a : Z) : res bool := if b =? 0 then Err ZeroDivisionError else Ok (a mod b =? 0).

(** ** [balanced_packing] *)

Record packing := Packing {
  pack_index : list Z; rank_in_pack : list Z;
  pack_weights : list W; pack_items : list Z;
}.

(** [min(candidates, key=pack_weights.__getitem__)]: the first smallest. *)
Fixpoint min_by_weight (pack_weights : list W) (best : Z) (kb : W) (cands : list Z) : res Z :=
  match cands with
  | [] => Ok best
  | i :: cands' =>
      let! k := py_index pack_weights i in
      if fltb k kb then min_by_weight pack_weights i k cands'
      else min_by_weight pack_weights best kb cands'
  end.

Definition min_pack (pack_weights : list W) (cands : list Z) : res Z :=
  match cands with
  | [] => Err ValueError
  | i :: cands' =>
      let! k := py_index pack_weights i in
      min_by_weight pack_weights i k cands'
  end.

(** The packs of [range(num_packs)] with room. *)
Definition open_packs (num_packs groups_per_pack : Z) (pack_items : list Z) : list Z :=
  List.filter (λ i, match py_index pack_items i with
                    | Ok n => n <? groups_per_pack | Err _ => false end)
    (py_range 0 num_packs).

Definition pack_group (weight : list W) (num_packs groups_per_pack : Z) (s : packing) (group : Z)
    : res packing :=
  let! pack := min_pack (pack_weights s) (open_packs num_packs groups_per_pack (pack_items s)) in
  let! n := py_index (pack_items s) pack in
  let! _ := py_assert (n <? groups_per_pack) in
  let! pidx := py_set_index (pack_index s) group pack in
  let! rnk := py_set_index (rank_in_pack s) group n in
  let! w := py_index (pack_weights s) pack in
  let! wg := py_index weight group in
  let! ws := py_set_index (pack_weights s) pack (fadd w wg) in
  let! items := py_set_index (pack_items s) pack (n + 1) in
  Ok (Packing pidx rnk ws items).

(** One row of the loop over the layers. *)
Definition pack_row (num_packs groups_per_pack : Z) (weight : list W) : res (list Z * list Z) :=
  let n := length weight in
  let! s := fold_res (pack_group weight num_packs groups_per_pack)
    (Packing (replicate n (-1)) (replicate n (-1))
       (replicate (Z.to_nat num_packs) fzero) (replicate (Z.to_nat num_packs) 0))
    (sort_desc weight) in
  Ok (pack_index s, rank_in_pack s).

Definition balanced_packing (weight : list (list W)) (num_packs : Z)
    : res (list (list Z) * list (list Z)) :=
  let num_groups := ncols weight in
  let! d := py_divides num_packs num_groups in
  let! _ := py_assert d in
  let! groups_per_pack := py_div num_groups num_packs in
  if groups_per_pack =? 1 then
    Ok ((λ _, py_range 0 num_groups) <$> weight, (λ w : list W, replicate (length w) 0) <$> weight)
  else
    let! rows := mapM_res (pack_row num_packs groups_per_pack) weight in
    Ok (rows.*1, rows.*2).

(** ** [replicate_experts] *)

Record replicas := Replicas { phy2log : list Z; rank : list Z; logcnt : list Z }.

(** The busiest expert by load per replica gets replica [i]. *)
Definition replicate_row (weight : list W) (i : Z) (s : replicas) : res replicas :=
  let redundant := argmax (zip_with fdiv weight (logcnt s)) in
  let! p := py_set_index (phy2log s) i redundant in
  let! c := py_index (logcnt s) redundant in
  let! r := py_set_index (rank s) i c in
  let! l := py_set_index (logcnt s) redundant (c + 1) in
  Ok (Replicas p r l).

Definition replicate_step (weight : list (list W)) (rows : list replicas) (i : Z) : res (list replicas) :=
  let! _ := guard_raise (ncols weight =? 0) IndexError in
  map2_res (λ w s, replicate_row w i s) weight rows.

Definition replicate_experts (weight : list (list W)) (num_phy : Z)
    : res (list (list Z) * list (list Z) * list (list Z)) :=
  let num_log := ncols weight in
  let num_redundant := num_phy - num_log in
  let! _ := py_assert (0 <=? num_redundant) in
  let init := Replicas (py_range 0 num_phy) (replicate (Z.to_nat num_phy) 0)
                (replicate (Z.to_nat num_log) 1) in
  let! rows := fold_res (replicate_step weight) ((λ _, init) <$> weight) (py_range num_log num_phy) in
  Ok (phy2log <$> rows, rank <$> rows, logcnt <$> rows).

(** ** [rebalance_experts_hierarchical] *)

Definition inverse (perm : list Z) : res (list Z) :=
  torch_scatter (empty_like (len perm)) perm (py_range 0 (len perm)).

(** The flattened sum of an outer column and [arange(group_size)]. *)
Definition spread (group_size : Z) (base : list Z) : list Z :=
  concat ((λ b, (λ j, b + j) <$> py_range 0 group_size) <$> base).

(** [torch.arange(0, stop, step)] for a non-negative stop. *)
Definition arange_step (stop step : Z) : res (list Z) :=
  if step <=? 0 then Err RuntimeError
  else Ok ((λ k, k * step) <$> py_range 0 ((stop + step - 1) / step)).

(** Row [k] of a layer gets offset [offsets[k]]. *)
Definition add_offsets (offsets : list Z) (rows : list (list Z)) : res (list Z) :=
  if negb (len offsets =? len rows) then Err RuntimeError
  else Ok (concat (zip_with (λ o row, (λ x, x + o) <$> row) offsets rows)).

Definition rebalance_experts_hierarchical (weight : list (list W))
    (num_physical_experts num_groups num_nodes num_gpus : Z)
    : res (list (list Z) * list (list Z) * list (list Z)) :=
  let num_layers := len weight in
  let num_logical_experts := ncols weight in
  let! d1 := py_divides num_groups num_logical_experts in
  let! _ := py_assert d1 in
  let! group_size := py_div num_logical_experts num_groups in
  let! d2 := py_divides num_nodes num_groups in
  let! _ := py_assert d2 in
  let! groups_per_node := py_div num_groups num_nodes in
  let! d3 := py_divides num_nodes num_gpus in
  let! _ := py_assert d3 in
  let! d4 := py_divides num_gpus num_physical_experts in
  let! _ := py_assert d4 in
  let! phy_experts_per_gpu := py_div num_physical_experts num_gpus in
  (* Step 1: pack groups to nodes *)
  let tokens_per_group :=
    (λ w, fsum <$> chunks (Z.to_nat num_groups) (Z.to_nat group_size) w) <$> weight in
  let! '(group_pack_index, group_rank_in_pack) := balanced_packing tokens_per_group num_nodes in
  let log2mlog := zip_with (λ p r, spread group_size
      (zip_with (λ x y, (x * groups_per_node + y) * group_size) p r))
    group_pack_index group_rank_in_pack in
  let! mlog2log := mapM_res inverse log2mlog in
  (* Step 2: construct redundant experts within nodes *)
  let! gathered := map2_res torch_gather weight mlog2log in
  let! tokens_per_mlog := view_cols (num_logical_experts / num_nodes) gathered in
  let! '(phy2mlog, phyrank, mlogcnt) :=
    replicate_experts tokens_per_mlog (num_physical_experts / num_nodes) in
  (* Step 3: pack physical experts to GPUs *)
  let! tokens_per_phy := map2_res torch_gather
    (zip_with (zip_with fdiv) tokens_per_mlog mlogcnt) phy2mlog in
  let! '(pack_index, rank_in_pack) := balanced_packing tokens_per_phy (num_gpus / num_nodes) in
  let phy2pphy := zip_with (zip_with (λ x y, x * phy_experts_per_gpu + y)) pack_index rank_in_pack in
  let! pphy2phy := mapM_res inverse phy2pphy in
  let! pphy2mlog0 := map2_res torch_gather phy2mlog pphy2phy in
  let! offsets := arange_step num_logical_experts (num_logical_experts / num_nodes) in
  let! layered := view_rows num_layers pphy2mlog0 in
  let! _ := guard_raise (negb (ncols layered mod num_nodes =? 0)) RuntimeError in
  let! pphy2mlog := mapM_res (λ r, add_offsets offsets
      (chunks (Z.to_nat num_nodes) (Z.to_nat (ncols layered / num_nodes)) r)) layered in
  let! pphy2log := map2_res torch_gather mlog2log pphy2mlog in
  let! pphyrank0 := map2_res torch_gather phyrank pphy2phy in
  let! pphyrank := view_rows num_layers pphyrank0 in
  let! mlogcnt_layers := view_rows num_layers mlogcnt in
  let! lcnt := map2_res torch_gather mlogcnt_layers log2mlog in
  Ok (pphy2log, pphyrank, lcnt).

(** ** [rebalance_experts] *)

(** [logcnt.max().item()]; an empty tensor has no maximum. *)
Definition max_item (m : list (list Z)) : res Z :=
  match concat m with
  | [] => Err RuntimeError
  | x :: l => Ok (fold_left Z.max l x)
  end.

(** A layer of [log2phy]: the replicas of each expert by rank, [-1] elsewhere. *)
Definition log2phy_row (num_logical_experts maxlogcnt num_replicas : Z) (phy2log phyrank : list Z)
    : res (list (list Z)) :=
  let cells := replicate (Z.to_nat (num_logical_experts * maxlogcnt)) (-1) in
  let! flat := torch_scatter cells
    (zip_with (λ e r, e * maxlogcnt + r) phy2log phyrank) (py_range 0 num_replicas) in
  Ok (chunks (Z.to_nat num_logical_experts) (Z.to_nat maxlogcnt) flat).

Definition rebalance_experts (weight : list (list W))
    (num_replicas num_groups num_nodes num_gpus : Z) (enable_hierarchical : bool)
    : res (list (list Z) * list (list (list Z)) * list (list Z)) :=
  let! '(phy2log, phyrank, logcnt) :=
    (if enable_hierarchical
     then rebalance_experts_hierarchical weight num_replicas num_groups num_nodes num_gpus
     else rebalance_experts_hierarchical weight num_replicas 1 1 num_gpus) in
  let! maxlogcnt := max_item logcnt in
  let! log2phy := map2_res (log2phy_row (ncols weight) maxlogcnt num_replicas) phy2log phyrank in
  Ok (phy2log, log2phy, logcnt).

End expert_load.
Arguments packing W : clear implicits.
