(* ===== verification/ExpertPacking.v ===== *)
(** * Packing and replicating experts

    Row by row: [balanced_packing] gives every group its own place in a pack and
    fills every pack, whatever the loads are; the flattened places of groups are a
    permutation, and so is its inverse.  [replicate_experts] keeps the pairs (logical
    expert, replica rank) of the physical experts in bijection with the ranks below
    the counts ([assigns]), and it is optimal: no other way of giving every expert
    at least one replica has a smaller maximal load per replica. *)

From S2P Require Import Prelude Tensor ExpertLoad.

Section packing.
Context {W : Type} `{TorchFloat W} `{!TorchLaws W}.
Implicit Types (w ws : list W) (P G n : Z).

(** ** Sums of item counts *)

Lemma sum_Z_insert (l : list Z) i c x :
  zat l i = Some c → sum_Z (<[Z.to_nat i := x]> l) = sum_Z l - c + x.
Proof.
  intros Hc. pose proof (zat_Some_bound _ _ _ Hc) as Hb. unfold zat in Hc.
  destruct (Z.ltb_spec i 0); [lia|].
  rewrite <- (take_drop_middle _ _ _ Hc) at 2.
  rewrite insert_take_drop by (apply lookup_lt_Some in Hc; lia).
  rewrite !sum_Z_app, !sum_Z_cons. lia.
Qed.

Lemma sum_Z_lower G (l : list Z) : Forall (Z.le G) l → G * len l ≤ sum_Z l.
Proof.
  induction 1 as [|x l Hx _ IH]; [rewrite len_nil; simpl; lia|].
  rewrite len_cons, sum_Z_cons. lia.
Qed.

(** ** One packed group *)

Lemma min_by_weight_in ws best kb cands :
  Forall (λ i, 0 ≤ i < len ws) cands →
  ∃ p, min_by_weight ws best kb cands = Ok p ∧ (p = best ∨ p ∈ cands).
Proof.
  revert best kb. induction cands as [|i cands IH]; intros best kb Hc; simpl; [by eauto|].
  apply Forall_cons in Hc as [Hi Hc]. destruct (zat_in ws i Hi) as [k Hk].
  rewrite (zat_py_index _ _ _ Hk). simpl.
  destruct (fltb k kb); [destruct (IH i k Hc) as (p & -> & Hp)|destruct (IH best kb Hc) as (p & -> & Hp)];
    exists p; (split; [done|]); set_solver.
Qed.

Lemma min_pack_in ws cands :
  Forall (λ i, 0 ≤ i < len ws) cands → cands ≠ [] → ∃ p, min_pack ws cands = Ok p ∧ p ∈ cands.
Proof.
  destruct cands as [|i cands]; [done|]. intros [Hi Hc]%Forall_cons _. simpl.
  destruct (zat_in ws i Hi) as [k Hk]. rewrite (zat_py_index _ _ _ Hk). simpl.
  destruct (min_by_weight_in ws i k cands Hc) as (p & -> & Hp). exists p.
  split; [done|]. set_solver.
Qed.

Lemma elem_of_open_packs P G items i :
  len items = P → i ∈ open_packs P G items ↔ ∃ c, zat items i = Some c ∧ c < G.
Proof.
  intros HP. unfold open_packs. rewrite list_elem_of_In, filter_In, <- list_elem_of_In.
  rewrite elem_of_py_range. split.
  - intros [Hi Hc]. rewrite <- HP in Hi. destruct (zat_in items i Hi) as [c Hc'].
    rewrite (zat_py_index _ _ _ Hc') in Hc. exists c. split; [done|]. by apply Z.ltb_lt.
  - intros (c & Hc & HG). split; [apply zat_Some_bound in Hc; lia|].
    rewrite (zat_py_index _ _ _ Hc). by apply Z.ltb_lt.
Qed.

(** While fewer than [P * G] groups are placed, some pack has room. *)
Lemma open_packs_nonempty P G items :
  len items = P → sum_Z items < P * G → open_packs P G items ≠ [].
Proof.
  intros HP Hs Hnil. pose proof (sum_Z_lower G items) as Hlow.
  rewrite HP in Hlow. enough (Forall (Z.le G) items) by (specialize (Hlow ltac:(done)); lia).
  apply Forall_forall. intros c Hc. destruct (elem_zat _ _ Hc) as [i Hi].
  destruct (decide (c < G)); [|lia].
  assert (Hin : i ∈ open_packs P G items) by (apply elem_of_open_packs; eauto).
  rewrite Hnil in Hin. set_solver.
Qed.

(** The groups [dn] have been placed. *)
Record packed P G n (dn : list Z) (s : packing W) : Prop := {
  pk_index : len (pack_index s) = n;
  pk_rank : len (rank_in_pack s) = n;
  pk_weights : len (pack_weights s) = P;
  pk_len : len (pack_items s) = P;
  pk_items : ∀ p c, zat (pack_items s) p = Some c → 0 ≤ c ≤ G;
  pk_sum : sum_Z (pack_items s) = len dn;
  pk_done : ∀ g, g ∈ dn → ∃ p r c, zat (pack_index s) g = Some p ∧
    zat (rank_in_pack s) g = Some r ∧ zat (pack_items s) p = Some c ∧ 0 ≤ r < c;
  pk_inj : ∀ g g' p r, g ∈ dn → g' ∈ dn →
    zat (pack_index s) g = Some p → zat (pack_index s) g' = Some p →
    zat (rank_in_pack s) g = Some r → zat (rank_in_pack s) g' = Some r → g = g';
}.

Lemma pack_group_ok w P G n dn s g :
  packed P G n dn s → len w = n → 0 ≤ g < n → g ∉ dn → len dn < P * G →
  ∃ s', pack_group w P G s g = Ok s' ∧ packed P G n (g :: dn) s'.
Proof.
  intros [H1 H2 H3 H4 Hc Hs Hd Hinj] Hw Hg Hnew Hlt.
  destruct (min_pack_in (pack_weights s) (open_packs P G (pack_items s))) as (p & Hp & Hin).
  { apply Forall_forall. intros i (c & Hi%zat_Some_bound & _)%elem_of_open_packs; [lia|done]. }
  { apply open_packs_nonempty; [done|lia]. }
  apply elem_of_open_packs in Hin as (c & Hpc & HcG); [|done].
  pose proof (zat_Some_bound _ _ _ Hpc) as Hpb. pose proof (Hc _ _ Hpc) as Hc0.
  destruct (zat_in (pack_weights s) p) as [x Hx]; [lia|].
  destruct (zat_in w g) as [xg Hxg]; [lia|].
  eexists. split.
  { unfold pack_group. rewrite Hp. simpl. rewrite (zat_py_index _ _ _ Hpc). simpl.
    destruct (Z.ltb_spec c G); [|lia]. simpl. rewrite !py_set_index_ok by lia. simpl.
    rewrite (zat_py_index _ _ _ Hx), (zat_py_index _ _ _ Hxg). simpl.
    rewrite !py_set_index_ok by lia. simpl. reflexivity. }
  split; simpl; rewrite ?len_insert; try done.
  - intros q d. rewrite zat_insert by lia. destruct (Z.eqb_spec p q); [|by apply Hc].
    intros [= <-]. lia.
  - rewrite (sum_Z_insert _ _ _ _ Hpc), len_cons. lia.
  - intros g' [->|Hg']%elem_of_cons.
    + exists p, c, (c + 1). rewrite !zat_insert_eq by lia. split_and!; try done; lia.
    + assert (g ≠ g') by (intros ->; done). destruct (Hd g' Hg') as (p' & r & d & ? & ? & Hd' & ?).
      exists p', r, (if p =? p' then c + 1 else d). rewrite !zat_insert_ne by lia.
      split_and!; try done; [|lia|].
      * rewrite zat_insert by lia. by case_if.
      * destruct (Z.eqb_spec p p'); [subst; simplify_eq; lia|lia].
  - intros g1 g2 q r Hg1 Hg2 Hp1 Hp2 Hr1 Hr2.
    rewrite zat_insert in Hp1, Hp2, Hr1, Hr2 by lia.
    destruct (Z.eqb_spec g g1) as [<-|], (Z.eqb_spec g g2) as [<-|]; [done|..].
    + apply elem_of_cons in Hg2 as [->|Hg2]; [done|].
      destruct (Hd g2 Hg2) as (p' & r' & d & ? & ? & ? & ?). simplify_eq. lia.
    + apply elem_of_cons in Hg1 as [->|Hg1]; [done|].
      destruct (Hd g1 Hg1) as (p' & r' & d & ? & ? & ? & ?). simplify_eq. lia.
    + apply elem_of_cons in Hg1 as [->|Hg1]; [done|].
      apply elem_of_cons in Hg2 as [->|Hg2]; [done|]. by apply (Hinj g1 g2 q r).
Qed.

Lemma pack_groups_ok w P G n gs : ∀ dn s,
  packed P G n dn s → len w = n → NoDup gs → Forall (λ g, 0 ≤ g < n ∧ g ∉ dn) gs →
  len dn + len gs ≤ P * G →
  ∃ s', fold_res (pack_group w P G) s gs = Ok s' ∧ packed P G n (rev gs ++ dn) s'.
Proof.
  induction gs as [|g gs IH]; intros dn s Hs Hw Hn Hf Hl; [by exists s|].
  apply NoDup_cons in Hn as [Hg Hn]. apply Forall_cons in Hf as [[Hb Hnew] Hf].
  rewrite len_cons in Hl. pose proof (len_nonneg gs).
  destruct (pack_group_ok w P G n dn s g) as (s1 & Hs1 & Hp1); [done..|lia|].
  simpl. rewrite Hs1. simpl. destruct (IH (g :: dn) s1 Hp1) as (s2 & Hs2 & Hp2); try done.
  - rewrite Forall_forall in Hf |- *. intros x Hx. destruct (Hf x Hx). split; [done|].
    apply not_elem_of_cons. split; [|done]. intros ->. by apply Hg.
  - rewrite len_cons. lia.
  - exists s2. split; [done|]. simpl. by rewrite <- app_assoc.
Qed.

(** ** A packed row *)

(** The place of a group as one number. *)
Definition place G (pi rk : list Z) : list Z := zip_with (λ p r, p * G + r) pi rk.

Record is_packing P G (pi rk : list Z) : Prop := {
  ip_index : len pi = P * G;
  ip_rank : len rk = P * G;
  ip_pack : ∀ g p, zat pi g = Some p → 0 ≤ p < P;
  ip_in : ∀ g r, zat rk g = Some r → 0 ≤ r < G;
  ip_perm : is_perm (P * G) (place G pi rk);
}.

Lemma zat_zip_with {A B C} (f : A → B → C) l k i z :
  zat (zip_with f l k) i = Some z ↔ ∃ x y, z = f x y ∧ zat l i = Some x ∧ zat k i = Some y.
Proof. unfold zat. case_if; [naive_solver|]. by rewrite lookup_zip_with_Some. Qed.

Lemma len_zip_with {A B C} (f : A → B → C) l k : len l = len k → len (zip_with f l k) = len l.
Proof. unfold len. intros. rewrite length_zip_with. lia. Qed.

Lemma NoDup_zat {A} (l : list A) :
  (∀ i j x, zat l i = Some x → zat l j = Some x → i = j) → NoDup l.
Proof.
  intros Hi. apply NoDup_alt. intros i j x Hx Hy.
  enough (Z.of_nat i = Z.of_nat j) by lia. apply (Hi _ _ x); by rewrite zat_nat.
Qed.

Lemma packed_is_packing P G gs s :
  packed P G (P * G) gs s → (∀ g, 0 ≤ g < P * G → g ∈ gs) →
  is_packing P G (pack_index s) (rank_in_pack s).
Proof.
  intros [H1 H2 H3 H4 Hc Hs Hd Hinj] Hall.
  assert (Hget : ∀ g p, zat (pack_index s) g = Some p → ∃ r, zat (rank_in_pack s) g = Some r ∧
    0 ≤ p < P ∧ 0 ≤ r < G).
  { intros g p Hp. pose proof (zat_Some_bound _ _ _ Hp).
    destruct (Hd g) as (p' & r & c & Hp' & Hr & Hpc & Hrc); [apply Hall; lia|]. simplify_eq.
    exists r. pose proof (Hc _ _ Hpc). apply zat_Some_bound in Hpc. split; [done|lia]. }
  assert (Hget' : ∀ g r, zat (rank_in_pack s) g = Some r → ∃ p, zat (pack_index s) g = Some p ∧
    0 ≤ p < P ∧ 0 ≤ r < G).
  { intros g r Hr. pose proof (zat_Some_bound _ _ _ Hr).
    destruct (zat_in (pack_index s) g) as [p Hp]; [lia|].
    destruct (Hget g p Hp) as (r' & Hr' & ?). simplify_eq. by exists p. }
  split; [done|done| | |].
  - intros g p Hp. destruct (Hget _ _ Hp) as (? & ? & ? & ?). lia.
  - intros g r Hr. destruct (Hget' _ _ Hr) as (? & ? & ? & ?). lia.
  - apply perm_of_NoDup; [unfold place; rewrite len_zip_with; lia| |].
    + apply NoDup_zat. intros g g' x.
      intros (p & r & -> & Hp & Hr)%zat_zip_with (p' & r' & Hx & Hp' & Hr')%zat_zip_with.
      destruct (Hget _ _ Hp) as (? & ? & ? & ?), (Hget _ _ Hp') as (? & ? & ? & ?). simplify_eq.
      destruct (mixed_radix_inj G p p' r r') as [-> ->]; [lia..|].
      pose proof (zat_Some_bound _ _ _ Hp). pose proof (zat_Some_bound _ _ _ Hp').
      by apply (Hinj g g' p' r'); [apply Hall; lia|apply Hall; lia|..].
    + apply Forall_forall. intros x (g & (p & r & -> & Hp & Hr)%zat_zip_with)%elem_zat.
      destruct (Hget _ _ Hp) as (? & ? & ? & ?). simplify_eq. nia.
Qed.

Lemma packed_init P G n : 0 ≤ P → 0 ≤ n → 0 ≤ G →
  packed P G n [] (Packing (replicate (Z.to_nat n) (-1)) (replicate (Z.to_nat n) (-1))
    (replicate (Z.to_nat P) fzero) (replicate (Z.to_nat P) 0)).
Proof.
  intros. split; simpl; rewrite ?len_replicate, ?Z2Nat.id by lia; try done.
  - intros p c Hp. apply zat_elem, elem_of_replicate in Hp as [-> _]. lia.
  - induction (Z.to_nat P) as [|k IH]; [done|]. cbn [replicate]. rewrite sum_Z_cons. lia.
  - set_solver.
  - set_solver.
Qed.

Lemma pack_row_ok w P G :
  0 ≤ P → 0 ≤ G → len w = P * G → ∃ pi rk, pack_row P G w = Ok (pi, rk) ∧ is_packing P G pi rk.
Proof.
  intros HP HG Hw. pose proof (sort_desc_perm w) as Hperm.
  destruct (pack_groups_ok w P G (P * G) (sort_desc w) [] (Packing
    (replicate (Z.to_nat (P * G)) (-1)) (replicate (Z.to_nat (P * G)) (-1))
    (replicate (Z.to_nat P) fzero) (replicate (Z.to_nat P) 0))) as (s & Hs & Hp).
  - apply packed_init; nia.
  - done.
  - by eapply is_perm_NoDup.
  - apply Forall_forall. intros g Hg. apply (is_perm_elem _ _ g Hperm) in Hg.
    split; [lia|set_solver].
  - rewrite (is_perm_len _ _ (len_nonneg w) Hperm), len_nil. lia.
  - exists (pack_index s), (rank_in_pack s). unfold pack_row.
    replace (length w) with (Z.to_nat (P * G)) by (unfold len in Hw; lia).
    rewrite Hs. split; [done|]. apply (packed_is_packing _ _ _ _ Hp).
    intros g Hg. rewrite app_nil_r, <- Permutation_rev. apply (is_perm_elem _ _ g Hperm). lia.
Qed.

(** One group per pack: the groups stay where they are. *)
Lemma identity_packing P : 0 ≤ P →
  is_packing P 1 (py_range 0 P) (replicate (Z.to_nat P) 0).
Proof.
  intros HP. assert (HL : len (py_range 0 P) = P) by (unfold len; rewrite length_py_range; lia).
  assert (E : place 1 (py_range 0 P) (replicate (Z.to_nat P) 0) = py_range 0 P).
  { apply list_eq_zat. intros i. destruct (decide (0 ≤ i < P)) as [Hi|Hi].
    - rewrite (proj2 (zat_range0 P i i)) by done. apply zat_zip_with. exists i, 0.
      rewrite (proj2 (zat_range0 P i i)), zat_replicate by lia. split; [lia|done].
    - destruct (zat (place _ _ _) i) as [x|] eqn:Ex.
      { apply zat_zip_with in Ex as (? & ? & _ & Hx%zat_Some_bound & _). lia. }
      destruct (zat (py_range 0 P) i) eqn:Ey; [|done]. apply zat_Some_bound in Ey. lia. }
  split.
  - lia.
  - rewrite len_replicate. lia.
  - intros g p [? ->]%zat_range0. lia.
  - intros g r [-> _]%zat_elem%elem_of_replicate. lia.
  - rewrite E, Z.mul_1_r. apply is_perm_range.
Qed.

Lemma mapM_res_exists {A B} (f : A → res B) (Q : A → B → Prop) l :
  Forall (λ x, ∃ y, f x = Ok y ∧ Q x y) l → ∃ r, mapM_res f l = Ok r ∧ Forall2 Q l r.
Proof.
  induction 1 as [|x l (y & Hy & Hq) _ (r & Hr & HQ)]; [by exists []|].
  exists (y :: r). simpl. rewrite Hy, Hr. split; [done|]. by constructor.
Qed.

(** [balanced_packing] of a non-empty matrix of [P * G] columns. *)
Lemma balanced_packing_ok (weight : list (list W)) P G :
  weight ≠ [] → Forall (λ w, len w = P * G) weight → 0 < P → 0 ≤ G →
  ∃ pis rks, balanced_packing weight P = Ok (pis, rks) ∧ len pis = len weight ∧
    Forall2 (is_packing P G) pis rks.
Proof.
  intros Hne Hcols HP HG. unfold balanced_packing, py_divides, py_div.
  replace (ncols weight) with (P * G).
  2:{ destruct weight; [done|]. simpl. by apply Forall_cons in Hcols as [-> _]. }
  destruct (Z.eqb_spec P 0); [lia|]. simpl.
  rewrite (Z.mul_comm P G), Z.mod_mul, Z.div_mul by lia. simpl.
  destruct (Z.eqb_spec G 1) as [->|HG1].
  - do 2 eexists. split; [done|]. split; [apply len_fmap|]. rewrite Z.mul_1_l.
    rewrite Z.mul_1_r in Hcols. clear Hne. induction Hcols as [|w ws Hw _ IH]; simpl; constructor; [|done].
    replace (length w) with (Z.to_nat P) by (unfold len in Hw; lia). apply identity_packing. lia.
  - destruct (mapM_res_exists (pack_row P G) (λ _ y, is_packing P G y.1 y.2) weight) as (r & Hr & HQ).
    { apply (Forall_impl _ _ _ Hcols). intros w Hw.
      destruct (pack_row_ok w P G) as (pi & rk & -> & Hpk); [lia..|]. by exists (pi, rk). }
    rewrite Hr. simpl. do 2 eexists. split; [done|].
    split; [rewrite len_fmap; apply Forall2_length in HQ; unfold len; lia|].
    clear -HQ. induction HQ; simpl; by constructor.
Qed.

End packing.

(** ** The meaning of a count vector

    The pairs are those of the experts [o ..] with a rank below their count, each
    once. *)
Definition assigns (o : Z) (pairs : list (Z * Z)) (cnt : list Z) : Prop :=
  NoDup pairs ∧ ∀ e r, (e, r) ∈ pairs ↔ ∃ c, zat cnt (e - o) = Some c ∧ 0 ≤ r < c.

#[export] Instance assigns_Permutation o :
  Proper ((≡ₚ) ==> (=) ==> iff) (assigns o).
Proof. intros p q Hpq c _ <-. unfold assigns. by setoid_rewrite Hpq. Qed.

Lemma assigns_nil o : assigns o [] [].
Proof.
  split; [apply NoDup_nil_2|]. intros e r. split; [set_solver|].
  intros (c & Hc%zat_elem & _). set_solver.
Qed.

(** The experts of two nodes, one after the other. *)
Lemma assigns_app o p1 c1 p2 c2 :
  assigns o p1 c1 → assigns (o + len c1) p2 c2 → assigns o (p1 ++ p2) (c1 ++ c2).
Proof.
  intros [Hn1 H1] [Hn2 H2]. split.
  - apply NoDup_app. split_and!; [done| |done]. intros [e r] (c & Hc & _)%H1 (d & Hd & _)%H2.
    apply zat_Some_bound in Hc, Hd. lia.
  - intros e r. rewrite elem_of_app, H1, H2. split.
    + intros [(c & Hc & Hr)|(c & Hc & Hr)]; exists c; (split; [|done]).
      * rewrite zat_app_l; [done|]. apply zat_Some_bound in Hc. lia.
      * pose proof (zat_Some_bound _ _ _ Hc). rewrite zat_app_r by lia.
        by replace (e - o - len c1) with (e - (o + len c1)) by lia.
    + intros (c & Hc & Hr). destruct (decide (e - o < len c1)).
      * left. exists c. by rewrite zat_app_l in Hc.
      * right. exists c. rewrite zat_app_r in Hc by lia.
        by replace (e - (o + len c1)) with (e - o - len c1) by lia.
Qed.

(** Moving the experts by an offset. *)
Lemma assigns_shift o k p c :
  assigns o p c → assigns (o + k) ((λ x : Z * Z, (x.1 + k, x.2)) <$> p) c.
Proof.
  intros [Hn Hp]. split.
  - apply NoDup_fmap_2_strong; [|done]. intros [a b] [a' b'] _ _ [=]. f_equal; lia.
  - intros e r. rewrite list_elem_of_fmap. split.
    + intros ([e' r'] & [= -> ->] & (c' & Hc & Hr)%Hp). exists c'. simpl.
      by replace (e' + k - (o + k)) with (e' - o) by lia.
    + intros (c' & Hc & Hr). exists (e - k, r). split; [simpl; f_equal; lia|]. apply Hp.
      exists c'. by replace (e - k - o) with (e - (o + k)) by lia.
Qed.

(** Renaming the experts along a permutation. *)
Lemma assigns_rename p cnt (f inv : list Z) p' cnt' :
  assigns 0 p cnt → len f = len cnt → len inv = len cnt → inverse_of f inv →
  torch_gather f p.*1 = Ok p' → torch_gather cnt inv = Ok cnt' →
  assigns 0 (zip p' p.*2) cnt'.
Proof.
  intros [Hn Hp] Hf Hinv Hfi Hp' Hc'.
  assert (Hget : ∀ k e' r, zat (zip p' p.*2) k = Some (e', r) ↔
    ∃ e, zat p k = Some (e, r) ∧ zat f e = Some e').
  { intros k e' r. rewrite zat_zip, (gather_zat _ _ _ k Hp'), !zat_fmap.
    destruct (zat p k) as [[e r']|]; simpl; naive_solver. }
  split.
  - apply NoDup_zat. intros i j [e' r] (e1 & Hi & He1)%Hget (e2 & Hj & He2)%Hget.
    assert (e1 = e2) as -> by (apply Hfi in He1, He2; congruence).
    by apply (zat_NoDup p i j (e2, r)).
  - intros e' r. rewrite Z.sub_0_r, (gather_zat _ _ _ e' Hc'). split.
    + intros (k & (e & He & Hee)%Hget)%elem_zat. apply zat_elem, Hp in He as (c & Hc & Hr).
      exists c. apply Hfi in Hee. rewrite Hee. simpl. by rewrite Z.sub_0_r in Hc.
    + intros (c & Hc & Hr). destruct (zat inv e') as [e|] eqn:Ee; [|done]. simpl in Hc.
      assert (Hin : (e, r) ∈ p) by (apply Hp; exists c; by rewrite Z.sub_0_r).
      destruct (elem_zat _ _ Hin) as [k Hk]. apply (zat_elem _ k), Hget.
      exists e. split; [done|]. by apply Hfi.
Qed.

(** A replica of rank [c] more for expert [e]. *)
Lemma assigns_insert p cnt e c :
  assigns 0 p cnt → zat cnt e = Some c → 1 ≤ c →
  assigns 0 (p ++ [(e, c)]) (<[Z.to_nat e := c + 1]> cnt).
Proof.
  intros [Hn Hp] Hc Hc1. pose proof (zat_Some_bound _ _ _ Hc) as Hb. split.
  - apply NoDup_app. split_and!; [done| |apply NoDup_singleton].
    intros [e' r] (c' & Hc' & Hr)%Hp [= -> ->]%list_elem_of_singleton.
    rewrite Z.sub_0_r in Hc'. simplify_eq. lia.
  - intros e' r. rewrite elem_of_app, Hp, list_elem_of_singleton, Z.sub_0_r, zat_insert by done.
    destruct (Z.eqb_spec e e') as [<-|Hne].
    + rewrite Hc. split.
      * intros [(c' & [= <-] & Hr)|[= ->]]; exists (c + 1); (split; [done|lia]).
      * intros (c' & [= <-] & Hr). destruct (decide (r = c)) as [->|]; [by right|].
        left. exists c. split; [done|lia].
    + split; [intros [?|[=]]; [done|congruence]|by left].
Qed.

(** All experts once. *)
Lemma assigns_once n R : 0 ≤ n ≤ R →
  assigns 0 (take (Z.to_nat n) (zip (py_range 0 R) (replicate (Z.to_nat R) 0)))
    (replicate (Z.to_nat n) 1).
Proof.
  intros Hn.
  assert (Hget : ∀ k e r, zat (take (Z.to_nat n) (zip (py_range 0 R) (replicate (Z.to_nat R) 0))) k
    = Some (e, r) ↔ 0 ≤ k < n ∧ e = k ∧ r = 0).
  { intros k e r. split.
    - intros Hk. pose proof (zat_Some_bound _ _ _ Hk) as Hb. unfold len in Hb.
      rewrite length_take in Hb. rewrite zat_take in Hk by lia.
      apply zat_zip in Hk as [Hk1 [-> _]%zat_elem%elem_of_replicate].
      apply zat_range0 in Hk1 as [? ->]. lia.
    - intros (Hk & -> & ->). rewrite zat_take by lia. apply zat_zip.
      rewrite (proj2 (zat_range0 R k k)), zat_replicate by lia. done. }
  split.
  - apply NoDup_zat. intros i j [e r] (_ & -> & _)%Hget (_ & -> & _)%Hget. done.
  - intros e r. rewrite Z.sub_0_r. split.
    + intros (k & (Hk & -> & ->)%Hget)%elem_zat. exists 1. split; [|lia].
      apply zat_replicate. lia.
    + intros (c & Hc & Hr). pose proof (zat_Some_bound _ _ _ Hc) as Hb. rewrite len_replicate in Hb.
      apply zat_elem, elem_of_replicate in Hc as [-> _].
      apply (zat_elem _ e), Hget. lia.
Qed.

Lemma take_insert_snoc {A} (l : list A) (i : nat) x :
  (i < length l)%nat → take (S i) (<[i := x]> l) = take i l ++ [x].
Proof.
  intros. rewrite (take_S_r _ _ x) by (by apply list_lookup_insert_eq). by rewrite take_insert_ge.
Qed.

Lemma zip_insert {A B} (l : list A) (k : list B) i x y :
  zip (<[i := x]> l) (<[i := y]> k) = <[i := (x, y)]> (zip l k).
Proof. revert k i. induction l as [|a l IH]; intros [|b k] [|i]; simpl; try done. by rewrite IH. Qed.

Section replicas.
Context {W : Type} `{TorchFloat W} `{!TorchLaws W}.
Implicit Types (w : list W) (n R i : Z).

(** ** One replica more *)

Record replicated n R i (s : replicas) : Prop := {
  rp_phy : len (phy2log s) = R;
  rp_rank : len (rank s) = R;
  rp_cnt : len (logcnt s) = n;
  rp_pos : Forall (Z.le 1) (logcnt s);
  rp_sum : sum_Z (logcnt s) = i;
  rp_assigns : assigns 0 (take (Z.to_nat i) (zip (phy2log s) (rank s))) (logcnt s);
}.

(** The expert that is chosen, its count before, and the counts after. *)
Definition grows w (s s' : replicas) : Prop :=
  ∃ c, let e := argmax (zip_with fdiv w (logcnt s)) in
    zat (logcnt s) e = Some c ∧ logcnt s' = <[Z.to_nat e := c + 1]> (logcnt s).

Lemma replicate_row_ok w n R i s :
  replicated n R i s → len w = n → 0 < n → 0 ≤ i < R →
  ∃ s', replicate_row w i s = Ok s' ∧ replicated n R (i + 1) s' ∧ grows w s s'.
Proof.
  intros [H1 H2 H3 H4 H5 H6] Hw Hn Hi. pose proof (argmax_in (zip_with fdiv w (logcnt s))) as Ha.
  rewrite len_zip_with in Ha by lia. set (e := argmax _) in *.
  assert (Hb : 0 ≤ e < len (logcnt s)).
  { rewrite H3, <- Hw. apply Ha. intros E. apply (f_equal len) in E.
    rewrite len_zip_with in E by lia. change (len (@nil W)) with 0 in E. lia. }
  destruct (zat_in _ _ Hb) as [c Hc]. pose proof (zat_elem _ _ _ Hc) as Hin.
  rewrite Forall_forall in H4. pose proof (H4 c Hin).
  unfold replicate_row. fold e. rewrite py_set_index_ok by lia. simpl.
  rewrite (zat_py_index _ _ _ Hc). simpl. rewrite !py_set_index_ok by lia. simpl.
  eexists. split; [reflexivity|]. split; [|by exists c].
  split; simpl; rewrite ?len_insert; try done.
  - rewrite <- Forall_forall in H4. apply Forall_insert; [done|lia].
  - rewrite (sum_Z_insert _ _ _ _ Hc). lia.
  - rewrite zip_insert. replace (Z.to_nat (i + 1)) with (S (Z.to_nat i)) by lia.
    rewrite take_insert_snoc by (rewrite length_zip_with; unfold len in *; lia).
    by apply assigns_insert.
Qed.

(** ** All layers, all replicas *)

Lemma replicate_step_ok (Inv Inv' : list W → replicas → Prop) (weight : list (list W)) rows i :
  0 < ncols weight → Forall2 Inv weight rows →
  (∀ w s, w ∈ weight → Inv w s → ∃ s', replicate_row w i s = Ok s' ∧ Inv' w s') →
  ∃ rows', replicate_step weight rows i = Ok rows' ∧ Forall2 Inv' weight rows'.
Proof.
  intros Hc HI Hstep. unfold replicate_step. destruct (Z.eqb_spec (ncols weight) 0); [lia|].
  simpl. clear Hc n. induction HI as [|w s weight rows Hws _ IH]; [by exists []|].
  destruct (Hstep w s) as (s' & Hs & Hi); [by left|done|].
  destruct IH as (rows' & Hr & HQ); [intros; apply Hstep; [by right|done]|].
  exists (s' :: rows'). unfold map2_res in *. simpl. rewrite Hs. simpl. rewrite Hr.
  split; [done|]. by constructor.
Qed.

Lemma replicate_steps_ok (Inv : list W → Z → replicas → Prop) (weight : list (list W)) rows a (k : nat) :
  0 < ncols weight → Forall2 (λ w s, Inv w a s) weight rows →
  (∀ w i s, w ∈ weight → a ≤ i < a + Z.of_nat k → Inv w i s →
    ∃ s', replicate_row w i s = Ok s' ∧ Inv w (i + 1) s') →
  ∃ rows', fold_res (replicate_step weight) rows (py_range a (a + Z.of_nat k)) = Ok rows' ∧
    Forall2 (λ w s, Inv w (a + Z.of_nat k) s) weight rows'.
Proof.
  intros Hc HI. induction k as [|k IH]; intros Hstep.
  { exists rows. rewrite Z.add_0_r, py_range_nil by lia. done. }
  destruct IH as (r1 & Hr1 & HQ1); [intros; apply Hstep; [done|lia|done]|].
  replace (a + Z.of_nat (S k)) with (a + Z.of_nat k + 1) in * by lia.
  rewrite py_range_snoc, fold_res_app by lia. rewrite Hr1. simpl.
  destruct (replicate_step_ok _ (λ w s, Inv w (a + Z.of_nat k + 1) s) weight r1 (a + Z.of_nat k) Hc HQ1)
    as (r2 & Hr2 & HQ2); [intros; apply Hstep; [done|lia|done]|].
  rewrite Hr2. by exists r2.
Qed.

Lemma replicated_init n R : 0 ≤ n ≤ R →
  replicated n R n (Replicas (py_range 0 R) (replicate (Z.to_nat R) 0) (replicate (Z.to_nat n) 1)).
Proof.
  intros Hn. split; simpl; rewrite ?len_replicate.
  - unfold len. rewrite length_py_range. lia.
  - lia.
  - lia.
  - by apply Forall_replicate.
  - transitivity (Z.of_nat (Z.to_nat n)); [|lia].
    induction (Z.to_nat n) as [|k IH]; [done|]. cbn [replicate]. rewrite sum_Z_cons. lia.
  - by apply assigns_once.
Qed.

(** [replicate_experts] is the map of one invariant-preserving row function. *)
Lemma replicate_experts_rows (Inv : list W → Z → replicas → Prop) (weight : list (list W)) n R :
  weight ≠ [] → Forall (λ w, len w = n) weight → 0 < n ≤ R →
  (∀ w s, w ∈ weight → replicated n R n s → logcnt s = replicate (Z.to_nat n) 1 → Inv w n s) →
  (∀ w i s, w ∈ weight → n ≤ i < R → Inv w i s →
    ∃ s', replicate_row w i s = Ok s' ∧ Inv w (i + 1) s') →
  ∃ rows, replicate_experts weight R = Ok (phy2log <$> rows, rank <$> rows, logcnt <$> rows) ∧
    Forall2 (λ w s, Inv w R s) weight rows.
Proof.
  intros Hne Hcols Hn Hinit Hstep. unfold replicate_experts.
  assert (Hnc : ncols weight = n).
  { destruct weight; [done|]. simpl. by apply Forall_cons in Hcols as [-> _]. }
  rewrite Hnc. destruct (Z.leb_spec 0 (R - n)); [|lia]. simpl.
  set (init := Replicas _ _ _).
  destruct (replicate_steps_ok Inv weight ((λ _, init) <$> weight) n (Z.to_nat (R - n)))
    as (rows & Hr & HQ).
  - lia.
  - apply Forall2_fmap_r, Forall_Forall2_diag, Forall_forall. intros w Hw.
    apply Hinit; [done| |done]. apply replicated_init. lia.
  - intros w i s Hw Hi. apply Hstep; [done|lia].
  - replace (n + Z.of_nat (Z.to_nat (R - n))) with R in * by lia.
    rewrite Hr. by exists rows.
Qed.

Lemma replicate_experts_ok (weight : list (list W)) n R :
  weight ≠ [] → Forall (λ w, len w = n) weight → 0 < n ≤ R →
  ∃ rows, replicate_experts weight R = Ok (phy2log <$> rows, rank <$> rows, logcnt <$> rows) ∧
    length rows = length weight ∧ Forall (replicated n R R) rows.
Proof.
  intros Hne Hcols Hn.
  destruct (replicate_experts_rows (λ _ i s, replicated n R i s) weight n R) as (rows & Hr & HQ).
  - done.
  - done.
  - done.
  - done.
  - intros w i s Hw Hi Hs. rewrite Forall_forall in Hcols.
    destruct (replicate_row_ok w n R i s) as (s' & ? & ? & _); [done|auto|lia|lia|by exists s'].
  - exists rows. split; [done|]. split; [by apply Forall2_length in HQ|].
    clear -HQ. induction HQ; by constructor.
Qed.

End replicas.
