(* ===== verification/ExpertOptimal.v ===== *)
(** * The replicas minimise the maximal load

    The docstring of [replicate_experts] promises that "the maximum load of all
    replicas is minimized".  With loads that are ordered, a division by counts that
    is monotone (as the rounded division of floats is) and an [argmax] that returns
    a maximum, the greedy loop keeps the promise. *)

From S2P Require Import Prelude Tensor ExpertLoad ExpertPacking.

(** The order of the loads. *)
Class LoadOrder (W : Type) `{TorchFloat W} := {
  fle : W → W → Prop;
  fle_preorder :: PreOrder fle;
  fdiv_mono : ∀ w c c', fle fzero w → 1 ≤ c ≤ c' → fle (fdiv w c') (fdiv w c);
  argmax_max : ∀ (l : list W) i x m,
    zat l i = Some x → zat l (argmax l) = Some m → fle x m;
}.

Section optimal.
Context {W : Type} `{TorchFloat W} `{!TorchLaws W} `{!LoadOrder W}.

(** Every replica that was added was needed: before it, its expert had a load per
    replica at least as large as any load is now. *)
Definition needed (w : list W) (s : replicas) : Prop :=
  ∀ j wj cj e we ce,
    zat w j = Some wj → zat (logcnt s) j = Some cj → 1 < cj →
    zat w e = Some we → zat (logcnt s) e = Some ce →
    fle (fdiv we ce) (fdiv wj (cj - 1)).

Lemma needed_grows w s s' :
  len w = len (logcnt s) → Forall (Z.le 1) (logcnt s) → Forall (fle fzero) w →
  needed w s → grows w s s' → needed w s'.
Proof.
  intros Hlen Hpos Hw Hn (c & Hc & Hcnt). set (m := argmax _) in *.
  rewrite Forall_forall in Hpos. rewrite Forall_forall in Hw.
  pose proof (zat_Some_bound _ _ _ Hc) as Hmb.
  destruct (zat_in w m) as [wm Hwm]; [lia|]. pose proof (Hpos c (zat_elem _ _ _ Hc)) as Hc1.
  assert (Hmax : ∀ e we ce, zat w e = Some we → zat (logcnt s) e = Some ce →
    fle (fdiv we ce) (fdiv wm c)).
  { intros e we ce He Hce. apply (argmax_max (zip_with fdiv w (logcnt s)) e).
    - apply zat_zip_with. eauto.
    - apply zat_zip_with. eauto. }
  assert (Hmore : fle (fdiv wm (c + 1)) (fdiv wm c)).
  { apply fdiv_mono; [by apply Hw, (zat_elem _ m)|lia]. }
  intros j wj cj e we ce Hj Hcj Hcj1 He Hce.
  rewrite Hcnt, zat_insert in Hcj, Hce by done.
  assert (Hupper : ∀ z, fle (fdiv wm c) z → (∀ ce', zat (logcnt s) e = Some ce' → fle (fdiv we ce') z)
    → fle (fdiv we ce) z).
  { intros z Hz Hall. destruct (Z.eqb_spec m e) as [<-|]; [|by apply Hall].
    simplify_eq. by etrans. }
  destruct (Z.eqb_spec m j) as [<-|Hmj].
  - simplify_eq. replace (c + 1 - 1) with c by lia. apply Hupper; [done|].
    intros ce' Hce'. by apply (Hmax e).
  - apply Hupper; [by apply (Hn j wj cj m wm c)|]. intros ce' Hce'. by apply (Hn j wj cj e we ce').
Qed.

Lemma needed_once w s k : logcnt s = replicate k 1 → needed w s.
Proof.
  intros Hs j wj cj e we ce _ Hcj Hcj1. rewrite Hs in Hcj.
  apply zat_elem, elem_of_replicate in Hcj as [-> _]. lia.
Qed.

(** Counts with the same sum: where one is larger, another is smaller. *)
Lemma sum_Z_exchange (a b : list Z) e x y :
  len a = len b → sum_Z a ≤ sum_Z b → zat a e = Some x → zat b e = Some y → y < x →
  ∃ j x' y', zat a j = Some x' ∧ zat b j = Some y' ∧ x' < y'.
Proof.
  intros Hlen Hsum Hx Hy Hlt.
  destruct (decide (Forall (λ p : Z * Z, p.2 ≤ p.1) (zip a b))) as [Hall|Hex].
  - enough (a = b) by (subst; simplify_eq; lia). clear Hx Hy Hlt.
    revert b Hlen Hsum Hall. induction a as [|x0 a IH]; intros [|y0 b] Hlen Hsum Hall; try done.
    rewrite !len_cons in Hlen. rewrite !sum_Z_cons in Hsum.
    apply Forall_cons in Hall as [Hxy Hall]. simpl in Hxy.
    assert (Hle : sum_Z b ≤ sum_Z a).
    { clear -Hall Hlen. assert (Hl : len a = len b) by lia. clear Hlen.
      revert b Hl Hall. induction a as [|x1 a IH]; intros [|y1 b] Hl Hall; try done.
      apply Forall_cons in Hall as [H1 Hall]. rewrite !len_cons in Hl. rewrite !sum_Z_cons.
      simpl in H1. specialize (IH b ltac:(lia) Hall). lia. }
    rewrite (IH b) by (done || lia). f_equal. lia.
  - apply not_Forall_Exists, Exists_exists in Hex as ([x' y'] & Hin & Hlt'); [|apply _].
    destruct (elem_zat _ _ Hin) as [j Hj]. apply zat_zip in Hj as [Hj1 Hj2].
    exists j, x', y'. simpl in Hlt'. split_and!; [done|done|lia].
Qed.

(** Counts reached by needed replicas are at least as good as any other. *)
Lemma needed_optimal w s (alt : list Z) :
  len w = len (logcnt s) → Forall (Z.le 1) (logcnt s) → Forall (fle fzero) w → needed w s →
  len alt = len w → Forall (Z.le 1) alt → sum_Z alt = sum_Z (logcnt s) →
  ∀ x, x ∈ zip_with fdiv w (logcnt s) → ∃ y, y ∈ zip_with fdiv w alt ∧ fle x y.
Proof.
  intros Hlen Hpos Hw Hn Hla Hapos Hsum x (e & (we & ce & -> & He & Hce)%zat_zip_with)%elem_zat.
  rewrite Forall_forall in Hpos. rewrite Forall_forall in Hw. rewrite Forall_forall in Hapos.
  pose proof (zat_Some_bound _ _ _ He). destruct (zat_in alt e) as [ae Hae]; [lia|].
  destruct (decide (ae ≤ ce)) as [Hle|Hgt].
  - exists (fdiv we ae). split; [by apply (zat_elem _ e), zat_zip_with; eauto|].
    apply fdiv_mono; [by apply Hw, (zat_elem _ e)|]. pose proof (Hapos ae (zat_elem _ _ _ Hae)). lia.
  - destruct (sum_Z_exchange alt (logcnt s) e ae ce) as (j & aj & cj & Hj & Hcj & Hlt); [lia..|done|done|lia|].
    pose proof (zat_Some_bound _ _ _ Hj). destruct (zat_in w j) as [wj Hwj]; [lia|].
    pose proof (Hapos aj (zat_elem _ _ _ Hj)).
    exists (fdiv wj aj). split; [by apply (zat_elem _ j), zat_zip_with; eauto|].
    transitivity (fdiv wj (cj - 1)); [apply (Hn j wj cj e we ce); try done; lia|].
    apply fdiv_mono; [by apply Hw, (zat_elem _ j)|lia].
Qed.

(** [cnt] gives each of [n] experts at least one of [R] replicas, with a maximal
    load per replica that no other such counts improve. *)
Definition minimal_load (n R : Z) (w : list W) (cnt : list Z) : Prop :=
  len cnt = n ∧ Forall (Z.le 1) cnt ∧ sum_Z cnt = R ∧
  ∀ alt, len alt = n → Forall (Z.le 1) alt → sum_Z alt = R →
    ∀ x, x ∈ zip_with fdiv w cnt → ∃ y, y ∈ zip_with fdiv w alt ∧ fle x y.

(** C28. [replicate_experts] minimises the maximal load: it returns, for every
    layer, counts that sum to [num_phy], and whatever counts of at least one per
    expert with the same sum are tried, some expert then has a load per replica at
    least as large as every load per replica under the returned counts. *)
Theorem replicate_experts_optimal (weight : list (list W)) (n num_phy : Z) :
  weight ≠ [] → Forall (λ w, len w = n ∧ Forall (fle fzero) w) weight → 0 < n ≤ num_phy →
  ∃ phy rk cnts, replicate_experts weight num_phy = Ok (phy, rk, cnts) ∧
    Forall2 (minimal_load n num_phy) weight cnts.
Proof.
  intros Hne Hrows Hn. rewrite Forall_forall in Hrows.
  destruct (replicate_experts_rows (λ w i s, w ∈ weight ∧ replicated n num_phy i s ∧ needed w s)
    weight n num_phy) as (rows & Hr & HQ).
  - done.
  - apply Forall_forall. intros w Hw. by apply Hrows.
  - done.
  - intros w s Hw Hs Hone. split_and!; [done|done|]. by eapply needed_once.
  - intros w i s Hw Hi (_ & Hs & Hneed). destruct (Hrows w Hw) as [Hlw Hnn].
    destruct (replicate_row_ok w n num_phy i s) as (s' & Hs' & Hrep & Hg); [done|done|lia|lia|].
    exists s'. split; [done|]. split_and!; [done|done|]. destruct Hs.
    apply (needed_grows w s s'); [lia|done..].
  - rewrite Hr. do 3 eexists. split; [done|]. apply Forall2_fmap_r.
    eapply Forall2_impl; [exact HQ|]. intros w s (Hw & [_ _ H3 H4 H5 _] & Hneed).
    destruct (Hrows w Hw) as [Hlw Hnn]. simpl. split_and!; [done..|].
    intros alt Hla Hap Hsum. apply (needed_optimal w s alt); [lia|done..|lia|done|lia].
Qed.

End optimal.

(** ** Integer loads

    A concrete instance: natural-number loads, divided with rounding down. *)
Section integer_loads.

Definition sort_indices (w : list Z) : list Z :=
  py_sort (λ i j, default 0 (zat w j) <? default 0 (zat w i)) (py_range 0 (len w)).

#[global] Instance integer_loads : TorchFloat Z := {|
  fzero := 0; fadd := Z.add; fltb := Z.ltb; fdiv := Z.div; fsum := sum_Z;
  sort_desc := sort_indices; argmax := λ w, default 0 (head (sort_indices w));
  empty_like := λ n, replicate (Z.to_nat n) 0;
|}.

Lemma sort_indices_perm w : is_perm (len w) (sort_indices w).
Proof. apply py_sort_perm. Qed.

Lemma head_sort_indices w : w ≠ [] →
  ∃ m l, sort_indices w = m :: l ∧ 0 ≤ m < len w.
Proof.
  intros Hw. pose proof (sort_indices_perm w) as Hp.
  destruct (sort_indices w) as [|m l] eqn:E.
  - apply (is_perm_len _ _ (len_nonneg w)) in Hp. destruct w; [done|]. unfold len in Hp. simpl in Hp. lia.
  - exists m, l. split; [done|]. apply (is_perm_elem _ _ m Hp). by left.
Qed.

#[global] Instance integer_laws : TorchLaws Z.
Proof.
  split.
  - apply sort_indices_perm.
  - intros w Hw. destruct (head_sort_indices w Hw) as (m & l & E & Hm). simpl. by rewrite E.
  - intros k Hk. cbn. rewrite len_replicate. lia.
Qed.

#[global] Program Instance integer_order : LoadOrder Z := {| fle := Z.le |}.
Next Obligation. simpl. intros. apply Z.div_le_compat_l; lia. Qed.
Next Obligation.
  simpl. intros l i x m Hi Hm.
  destruct (head_sort_indices l) as (k & ks & E & Hk).
  { intros ->. by apply zat_Some_bound in Hi. }
  rewrite E in Hm. simpl in Hm.
  assert (Hs : StronglySorted (not_after (λ i j, default 0 (zat l j) <? default 0 (zat l i)))
    (sort_indices l)) by (apply py_sort_sorted; intros *; lia).
  assert (Hin : i ∈ sort_indices l).
  { apply (is_perm_elem _ _ _ (sort_indices_perm l)). by apply zat_Some_bound in Hi. }
  rewrite E in Hs, Hin. apply StronglySorted_inv in Hs as [_ Hs].
  apply elem_of_cons in Hin as [->|Hin]; [simplify_eq; lia|].
  rewrite Forall_forall in Hs. specialize (Hs i Hin). unfold not_after in Hs.
  rewrite Hi, Hm in Hs. simpl in Hs. lia.
Qed.
End integer_loads.

Lemma replicate_experts_optimal_witness :
  replicate_experts [[5; 1; 9]; [2; 2; 8]] 5 =
    Ok ([[0; 1; 2; 2; 0]; [0; 1; 2; 2; 2]], [[0; 0; 0; 1; 1]; [0; 0; 0; 1; 2]], [[2; 1; 2]; [1; 1; 3]]) ∧
  ∃ phy rk cnts, replicate_experts [[5; 1; 9]; [2; 2; 8]] 5 = Ok (phy, rk, cnts) ∧
    Forall2 (minimal_load 3 5) [[5; 1; 9]; [2; 2; 8]] cnts.
Proof.
  split; [vm_compute; reflexivity|]. apply replicate_experts_optimal; [done| |lia].
  repeat constructor; simpl; lia.
Defined.
