(* ===== verification/ExpertLoadSpec.v ===== *)
(** * The placement of experts is consistent

    For every configuration the assertions allow, whatever the loads are,
    [rebalance_experts] succeeds, and its maps describe one placement: every
    expert has at least one replica, [log2phy] lists the replicas of each expert and
    nothing else, and [phy2log] is its inverse.  The experts of a group are on one
    node. *)

From S2P Require Import Prelude Tensor ExpertLoad ExpertPacking ExpertOptimal.

Section placement.
Context {W : Type} `{TorchFloat W} `{!TorchLaws W}.

(** ** Permutations of groups and of experts *)

Lemma elem_of_spread gs base x :
  x ∈ spread gs base ↔ ∃ b j, b ∈ base ∧ 0 ≤ j < gs ∧ x = b + j.
Proof.
  unfold spread. rewrite list_elem_of_In, in_concat. setoid_rewrite <- list_elem_of_In.
  setoid_rewrite list_elem_of_fmap. split.
  - intros (r & (b & -> & Hb) & (j & -> & Hj%elem_of_py_range)%list_elem_of_fmap). eauto.
  - intros (b & j & Hb & Hj & ->). eexists. split; [by exists b|].
    apply list_elem_of_fmap. exists j. split; [done|]. by apply elem_of_py_range.
Qed.

Lemma len_spread gs base : 0 ≤ gs → len (spread gs base) = len base * gs.
Proof.
  intros. unfold spread. rewrite (len_concat_rows gs), len_fmap; [done|].
  apply Forall_fmap, Forall_true. intros b. simpl. rewrite len_fmap.
  unfold len. rewrite length_py_range. lia.
Qed.

Lemma spread_perm n gs c :
  0 ≤ n → 0 < gs → is_perm n c → is_perm (n * gs) (spread gs ((λ x, x * gs) <$> c)).
Proof.
  intros Hn Hgs Hc. apply perm_of_incl.
  - rewrite len_spread, len_fmap by lia. by rewrite (is_perm_len n c).
  - intros i Hi. apply elem_of_spread. exists (i / gs * gs), (i mod gs).
    pose proof (Z.mod_pos_bound i gs ltac:(lia)). pose proof (Z.div_mod i gs ltac:(lia)).
    split; [|split; [done|lia]]. apply list_elem_of_fmap. exists (i / gs). split; [done|].
    apply (is_perm_elem n c _ Hc). split; [apply Z.div_pos; lia|].
    apply Z.div_lt_upper_bound; lia.
Qed.

Lemma zat_spread gs base x m : 0 < gs →
  zat (spread gs base) x = Some m → ∃ b, zat base (x / gs) = Some b ∧ m = b + x mod gs.
Proof.
  intros Hgs. revert x. induction base as [|b base IH]; intros x Hx.
  { apply zat_elem in Hx. by apply not_elem_of_nil in Hx. }
  assert (Hl : len ((λ j, b + j) <$> py_range 0 gs) = gs).
  { rewrite len_fmap. unfold len. rewrite length_py_range. lia. }
  unfold spread in Hx. simpl in Hx. pose proof (zat_Some_bound _ _ _ Hx) as Hb.
  destruct (decide (x < gs)) as [Hlt|Hge].
  - rewrite zat_app_l, zat_fmap in Hx by lia.
    destruct (zat (py_range 0 gs) x) as [j|] eqn:Ej; [|done]. apply zat_range0 in Ej as [? ->].
    simpl in Hx. simplify_eq. exists b. rewrite Z.div_small, Z.mod_small by lia. done.
  - rewrite zat_app_r, Hl in Hx by lia. apply IH in Hx as (b' & Hb' & ->). exists b'.
    replace (x / gs) with (1 + (x - gs) / gs) by (rewrite <- Z.div_add_l by lia; f_equal; lia).
    replace (x mod gs) with ((x - gs) mod gs) by (rewrite <- (Z.mod_add (x - gs) 1) by lia; f_equal; lia).
    split; [|done]. change (b :: base) with ([b] ++ base).
    assert (0 ≤ (x - gs) / gs) by (apply Z.div_pos; lia).
    rewrite zat_app_r by (unfold len; simpl; lia). rewrite <- Hb'. f_equal. unfold len. simpl. lia.
Qed.

Lemma inverse_ok n p :
  0 ≤ n → is_perm n p → ∃ inv, inverse p = Ok inv ∧ is_perm n inv ∧ inverse_of p inv.
Proof.
  intros Hn Hp. pose proof (is_perm_len n p Hn Hp) as Hl. unfold inverse. rewrite Hl.
  pose proof (empty_like_len n Hn) as He.
  destruct (scatter_ok (empty_like n) p (py_range 0 n)) as (inv & Hi & Hli & Hw & _).
  - by eapply is_perm_NoDup.
  - apply Forall_forall. intros i Hi. rewrite He. by apply (is_perm_elem n p).
  - rewrite length_py_range. unfold len in Hl. lia.
  - assert (Hfor : ∀ i j, zat p i = Some j → zat inv j = Some i).
    { intros i j Hj. apply (Hw i j i Hj). apply zat_range0.
      apply zat_Some_bound in Hj. lia. }
    exists inv. split_and!; [done| |].
    + apply perm_of_incl; [lia|]. intros i Hi'. destruct (zat_in p i) as [j Hj]; [lia|].
      by eapply zat_elem, Hfor.
    + intros i j. split; [apply Hfor|]. intros Hj. pose proof (zat_Some_bound _ _ _ Hj) as Hb.
      assert (Hjp : j ∈ p) by (apply (is_perm_elem n p j Hp); lia).
      destruct (elem_zat _ _ Hjp) as [i' Hi']. pose proof (Hfor _ _ Hi'). congruence.
Qed.

(** ** Step 1: groups to nodes *)

(** A renaming of the experts of a layer that keeps the groups on nodes of [K]
    experts. *)
Definition renaming (n K gs : Z) (l2m m2l : list Z) : Prop :=
  is_perm n l2m ∧ is_perm n m2l ∧ inverse_of l2m m2l ∧
  ∃ node : Z → Z, ∀ e m, zat l2m e = Some m → m / K = node (e / gs).

Lemma group_renaming N gpn gs pi rk :
  0 < N → 0 < gpn → 0 < gs → is_packing N gpn pi rk →
  let l2m := spread gs (zip_with (λ x y, (x * gpn + y) * gs) pi rk) in
  ∃ m2l, inverse l2m = Ok m2l ∧ renaming (N * gpn * gs) (gpn * gs) gs l2m m2l.
Proof.
  intros HN Hg Hgs [H1 H2 H3 H4 H5] l2m.
  assert (Hpos : 0 < N * gpn * gs) by (repeat apply Z.mul_pos_pos; done).
  assert (Hp : is_perm (N * gpn * gs) l2m).
  { replace l2m with (spread gs ((λ x, x * gs) <$> place gpn pi rk)).
    - apply spread_perm; [apply Z.lt_le_incl, Z.mul_pos_pos; done|done|done].
    - unfold l2m, place. f_equal. clear. revert rk.
      induction pi as [|p pi IH]; intros [|r rk]; simpl; try done. by rewrite IH. }
  destruct (inverse_ok (N * gpn * gs) l2m ltac:(lia) Hp) as (m2l & Hi & Hpi & Hinv).
  exists m2l. split; [done|]. split_and!; [done..|].
  exists (λ g, default 0 (zat pi g)). intros e m Hm.
  apply (zat_spread gs _ _ _ Hgs) in Hm as (b & (p & r & -> & Hpg & Hrg)%zat_zip_with & ->).
  rewrite Hpg. simpl. pose proof (H4 _ _ Hrg). pose proof (Z.mod_pos_bound e gs Hgs).
  replace ((p * gpn + r) * gs + e mod gs) with (p * (gpn * gs) + (r * gs + e mod gs)) by ring.
  apply mixed_radix. nia.
Qed.

(** Step 1 on all layers. *)
Lemma group_renamings N gpn gs pis rks :
  0 < N → 0 < gpn → 0 < gs → Forall2 (is_packing N gpn) pis rks →
  let l2ms := zip_with (λ p r, spread gs (zip_with (λ x y, (x * gpn + y) * gs) p r)) pis rks in
  ∃ m2ls, mapM_res inverse l2ms = Ok m2ls ∧ len l2ms = len pis ∧
    Forall2 (renaming (N * gpn * gs) (gpn * gs) gs) l2ms m2ls.
Proof.
  intros HN Hg Hgs HF l2ms.
  destruct (mapM_res_exists inverse (renaming (N * gpn * gs) (gpn * gs) gs) l2ms) as (m2ls & Hm & HQ).
  - unfold l2ms. clear l2ms. induction HF as [|pi rk pis rks Hp _ IH]; simpl; constructor; [|done].
    by apply group_renaming.
  - exists m2ls. split_and!; [done| |done]. apply len_zip_with.
    apply Forall2_length in HF. unfold len. lia.
Qed.

(** ** Steps 2 and 3: replicas of a node and their devices *)

(** The replicas of [K] experts in [M] places. *)
Record node_ok K M (s : replicas) : Prop := {
  no_phy : len (phy2log s) = M;
  no_rank : len (rank s) = M;
  no_cnt : len (logcnt s) = K;
  no_pos : Forall (Z.le 1) (logcnt s);
  no_assigns : assigns 0 (zip (phy2log s) (rank s)) (logcnt s);
}.

Lemma replicated_node_ok K M s : replicated K M M s → node_ok K M s.
Proof.
  intros [H1 H2 H3 H4 _ H6]. split; [done..|].
  rewrite take_ge in H6; [done|]. rewrite length_zip_with. unfold len in *. lia.
Qed.

Lemma node_phy_bound K M s k e : node_ok K M s → zat (phy2log s) k = Some e → 0 ≤ e < K.
Proof.
  intros [H1 H2 H3 _ [_ Ha]] He. pose proof (zat_Some_bound _ _ _ He).
  destruct (zat_in (rank s) k) as [r Hr]; [lia|].
  assert (Hin : (e, r) ∈ zip (phy2log s) (rank s)) by (by eapply zat_elem, zat_zip).
  apply Ha in Hin as (c & Hc%zat_Some_bound & _). lia.
Qed.

(** Moving the replicas of a node to their devices. *)
Lemma node_permute K M s perm :
  0 ≤ M → node_ok K M s → is_perm M perm →
  ∃ s', torch_gather (phy2log s) perm = Ok (phy2log s') ∧
    torch_gather (rank s) perm = Ok (rank s') ∧ logcnt s = logcnt s' ∧ node_ok K M s'.
Proof.
  intros HM [H1 H2 H3 H4 H5] Hp.
  assert (Hin : Forall (λ i, 0 ≤ i < M) perm).
  { apply Forall_forall. intros i. by apply (is_perm_elem M perm). }
  destruct (gather_ok (phy2log s) perm) as [a Ha]; [by rewrite H1|].
  destruct (gather_ok (rank s) perm) as [b Hb]; [by rewrite H2|].
  exists (Replicas a b (logcnt s)). simpl. split_and!; [done..|].
  pose proof (gather_len _ _ _ Ha). pose proof (gather_len _ _ _ Hb).
  pose proof (is_perm_len M perm HM Hp). split; simpl; [lia|lia|done|done|].
  rewrite (gather_perm (zip (phy2log s) (rank s)) perm); [done| |by apply gather_zip].
  rewrite len_zip_with by lia. by rewrite H1.
Qed.

Lemma nodes_permute K M rows perms :
  0 ≤ M → Forall (node_ok K M) rows → Forall (is_perm M) perms → length rows = length perms →
  ∃ T, map2_res torch_gather (phy2log <$> rows) perms = Ok (phy2log <$> T) ∧
    map2_res torch_gather (rank <$> rows) perms = Ok (rank <$> T) ∧
    logcnt <$> rows = logcnt <$> T ∧ length T = length rows ∧ Forall (node_ok K M) T.
Proof.
  intros HM Hrows. revert perms. unfold map2_res.
  induction Hrows as [|s rows Hs _ IH]; intros [|perm perms] Hp Hl; try done.
  { by exists []. }
  apply Forall_cons in Hp as [Hp Hps]. destruct (IH perms Hps) as (T & E1 & E2 & E3 & E4 & E5).
  { simpl in Hl. lia. }
  destruct (node_permute K M s perm HM Hs Hp) as (s' & F1 & F2 & F3 & F4).
  exists (s' :: T). rewrite !fmap_cons. cbn [zip_with mapM_res res_bind fst snd].
  rewrite F1, F2, F3, E3. cbn [res_bind]. rewrite E1, E2. cbn [res_bind length]. rewrite E4.
  split_and!; [done..|by constructor].
Qed.

(** The devices of the replicas, from the loads. *)
Lemma device_perms (tokens : list (list W)) rows K gp pe :
  0 < gp → 0 < pe → rows ≠ [] → length tokens = length rows →
  Forall (λ w, len w = K) tokens → Forall (node_ok K (gp * pe)) rows →
  ∃ tp pis rks perms,
    map2_res torch_gather (zip_with (zip_with fdiv) tokens (logcnt <$> rows)) (phy2log <$> rows) = Ok tp ∧
    balanced_packing tp gp = Ok (pis, rks) ∧
    mapM_res inverse (zip_with (zip_with (λ x y, x * pe + y)) pis rks) = Ok perms ∧
    length perms = length rows ∧ Forall (is_perm (gp * pe)) perms.
Proof.
  intros Hgp Hpe Hne Hl Htok Hrows.
  assert (HF : ∃ tp, map2_res torch_gather (zip_with (zip_with fdiv) tokens (logcnt <$> rows))
    (phy2log <$> rows) = Ok tp ∧ length tp = length rows ∧ Forall (λ w, len w = gp * pe) tp).
  { clear Hne. revert tokens Hl Htok. unfold map2_res.
    induction Hrows as [|s rows Hs _ IH]; intros [|w tokens] Hl Htok; try done; [by exists []|].
    apply Forall_cons in Htok as [Hw Htok]. simpl in Hl.
    destruct (IH tokens) as (tp & E1 & E2 & E3); [lia|done|].
    destruct (gather_ok (zip_with fdiv w (logcnt s)) (phy2log s)) as [t Ht].
    { apply Forall_forall. intros e (k & Hk)%elem_zat. rewrite len_zip_with by (destruct Hs; lia).
      rewrite Hw. by apply (node_phy_bound K (gp * pe) s k). }
    exists (t :: tp). rewrite !fmap_cons. cbn [zip_with mapM_res res_bind fst snd].
    rewrite Ht. cbn [res_bind]. rewrite E1. split_and!; [done|simpl; lia|].
    constructor; [|done]. rewrite (gather_len _ _ _ Ht). by destruct Hs. }
  destruct HF as (tp & Htp & Hltp & Hcols).
  destruct (balanced_packing_ok tp gp pe) as (pis & rks & Hb & Hlp & HP); [|done|done|lia|].
  { intros ->. by destruct rows. }
  destruct (mapM_res_exists inverse (λ _ inv, is_perm (gp * pe) inv)
    (zip_with (zip_with (λ x y, x * pe + y)) pis rks)) as (perms & Hm & HQ).
  { clear -HP Hgp Hpe TorchLaws0. induction HP as [|pi rk pis rks Hp _ IH]; simpl; constructor; [|done].
    destruct Hp as [_ _ _ _ Hperm]. destruct (inverse_ok (gp * pe) _ ltac:(nia) Hperm) as (inv & ? & ? & _).
    by exists inv. }
  exists tp, pis, rks, perms. split_and!; [done..| |].
  - apply Forall2_length in HQ, HP. rewrite length_zip_with in HQ. unfold len in Hlp. lia.
  - clear -HQ. induction HQ; by constructor.
Qed.

(** ** The nodes of a layer together *)

Definition layer_from (K k : Z) (g : list replicas) : list Z :=
  concat (zip_with (λ o row, (λ x, x + o) <$> row)
    ((λ j, j * K) <$> py_range k (k + len g)) (phy2log <$> g)).

Lemma layer_from_nil K k : layer_from K k [] = [].
Proof. unfold layer_from. by destruct ((λ j, j * K) <$> _). Qed.

Lemma layer_from_cons K k s g :
  layer_from K k (s :: g) = ((λ x, x + k * K) <$> phy2log s) ++ layer_from K (k + 1) g.
Proof.
  unfold layer_from. rewrite len_cons, py_range_cons by apply len_nonneg. done.
Qed.

Lemma zip_fmap_left {A B C} (f : A → C) (l : list A) (k : list B) :
  zip (f <$> l) k = (λ x : A * B, (f x.1, x.2)) <$> zip l k.
Proof. revert k. induction l as [|x l IH]; intros [|y k]; simpl; try done. f_equal. apply IH. Qed.

Lemma layer_from_ok K M g : 0 < K → 0 < M → Forall (node_ok K M) g → ∀ k,
  len (layer_from K k g) = len g * M ∧
  (∀ p x, zat (layer_from K k g) p = Some x → k * K ≤ x < (k + len g) * K ∧ x / K = k + p / M) ∧
  assigns (k * K) (zip (layer_from K k g) (concat (rank <$> g))) (concat (logcnt <$> g)).
Proof.
  intros HK HM Hg. induction Hg as [|s g Hs _ IH]; intros k.
  { rewrite layer_from_nil. split_and!; [done| |apply assigns_nil]. intros p x Hx%zat_elem. by apply not_elem_of_nil in Hx. }
  destruct (IH (k + 1)) as (IH1 & IH2 & IH3). rewrite layer_from_cons.
  assert (Hlen : len ((λ x, x + k * K) <$> phy2log s) = M) by (rewrite len_fmap; by destruct Hs).
  rewrite len_app, Hlen, len_cons, IH1. pose proof (len_nonneg g). split_and!.
  - lia.
  - intros p x Hx. destruct (decide (p < M)) as [Hp|Hp].
    + rewrite zat_app_l, zat_fmap in Hx by lia.
      destruct (zat (phy2log s) p) as [y|] eqn:Ey; [|done]. injection Hx as <-.
      pose proof (zat_Some_bound _ _ _ Ey) as Hb. rewrite len_fmap in Hlen. pose proof (node_phy_bound K M s p y Hs Ey).
      rewrite Z.div_add, !Z.div_small by lia. nia.
    + rewrite zat_app_r, Hlen in Hx by lia. destruct (IH2 _ _ Hx) as [? ->]. split; [nia|].
      replace (p / M) with (1 + (p - M) / M); [lia|].
      rewrite <- Z.div_add_l by lia. f_equal. lia.
  - rewrite !fmap_cons. cbn [concat]. rewrite zip_with_app by (unfold len in *; destruct Hs; unfold len in *; lia).
    apply assigns_app.
    + rewrite zip_fmap_left. apply (assigns_shift 0 (k * K)). by destruct Hs.
    + replace (k * K + len (logcnt s)) with ((k + 1) * K) by (destruct Hs; lia). done.
Qed.

Lemma arange_step_ok N K : 0 < N → 0 < K →
  arange_step (N * K) K = Ok ((λ j, j * K) <$> py_range 0 N).
Proof.
  intros HN HK. unfold arange_step. destruct (Z.leb_spec K 0); [lia|].
  replace (N * K + K - 1) with (N * K + (K - 1)) by lia.
  rewrite Z.div_add_l, (Z.div_small (K - 1)) by lia. by rewrite Z.add_0_r.
Qed.

Lemma add_offsets_ok N K g : len g = N → 0 ≤ N →
  add_offsets ((λ j, j * K) <$> py_range 0 N) (phy2log <$> g) = Ok (layer_from K 0 g).
Proof.
  intros Hg HN. unfold add_offsets, layer_from. rewrite !len_fmap, Hg.
  replace (len (py_range 0 N)) with N by (unfold len; rewrite length_py_range; lia).
  by rewrite Z.eqb_refl.
Qed.

(** ** The layers *)

(** A layer's placement: [assigns] for its experts, and a node for every group. *)
Record placement (n R N gs : Z) (s : replicas) : Prop := {
  pl_phy : len (phy2log s) = R;
  pl_rank : len (rank s) = R;
  pl_cnt : len (logcnt s) = n;
  pl_pos : Forall (Z.le 1) (logcnt s);
  pl_assigns : assigns 0 (zip (phy2log s) (rank s)) (logcnt s);
  pl_node : ∃ node : Z → Z, ∀ p e, zat (phy2log s) p = Some e → p / (R / N) = node (e / gs);
}.

Lemma layer_placement N gpn gs M g l2m m2l :
  0 < N → 0 < gpn → 0 < gs → 0 < M → len g = N → Forall (node_ok (gpn * gs) M) g →
  renaming (N * gpn * gs) (gpn * gs) gs l2m m2l →
  ∃ s, torch_gather m2l (layer_from (gpn * gs) 0 g) = Ok (phy2log s) ∧
    rank s = concat (rank <$> g) ∧
    torch_gather (concat (logcnt <$> g)) l2m = Ok (logcnt s) ∧
    placement (N * gpn * gs) (N * M) N gs s.
Proof.
  intros HN Hgpn Hgs HM Hlg Hg (Hl2m & Hm2l & Hinv & node & Hnode).
  set (K := gpn * gs) in *. assert (HK : 0 < K) by (unfold K; nia).
  assert (HNK : N * gpn * gs = N * K) by (unfold K; ring). rewrite HNK in *.
  destruct (layer_from_ok K M g HK HM Hg 0) as (HL1 & HL2 & HL3). rewrite Hlg in *.
  pose proof (is_perm_len (N * K) l2m ltac:(nia) Hl2m) as Hll. pose proof (is_perm_len (N * K) m2l ltac:(nia) Hm2l) as Hlm.
  assert (Hcnt : len (concat (logcnt <$> g)) = N * K).
  { rewrite (len_concat_rows K), len_fmap, Hlg; [done|]. apply Forall_fmap.
    apply (Forall_impl _ _ _ Hg). intros s Hs. by destruct Hs. }
  assert (Hrk : len (concat (rank <$> g)) = N * M).
  { rewrite (len_concat_rows M), len_fmap, Hlg; [done|]. apply Forall_fmap.
    apply (Forall_impl _ _ _ Hg). intros s Hs. by destruct Hs. }
  destruct (gather_ok m2l (layer_from K 0 g)) as [phy Hphy].
  { apply Forall_forall. intros x (p & Hp)%elem_zat. destruct (HL2 _ _ Hp). lia. }
  destruct (gather_ok (concat (logcnt <$> g)) l2m) as [cnt Hc].
  { apply Forall_forall. intros x Hx. apply (is_perm_elem _ _ x Hl2m) in Hx. lia. }
  exists (Replicas phy (concat (rank <$> g)) cnt). simpl. split_and!; [done..|].
  pose proof (gather_len _ _ _ Hphy) as Hlp. pose proof (gather_len _ _ _ Hc) as Hlc.
  split; simpl; [lia|lia|lia| | |].
  - rewrite (gather_perm _ _ _ ltac:(rewrite Hcnt; exact Hl2m) Hc).
    apply Forall_concat, Forall_fmap. apply (Forall_impl _ _ _ Hg). intros s Hs. by destruct Hs.
  - pose proof (assigns_rename (zip (layer_from K 0 g) (concat (rank <$> g))) (concat (logcnt <$> g))
      m2l l2m phy cnt) as Hren.
    rewrite fst_zip, snd_zip in Hren by (unfold len in *; lia).
    apply Hren; [by rewrite Z.mul_0_l in HL3|lia|lia|by apply inverse_of_sym|done|done].
  - exists node. intros p e He. rewrite (gather_zat _ _ _ p Hphy) in He.
    destruct (zat (layer_from K 0 g) p) as [x|] eqn:Ex; [|done]. simpl in He.
    destruct (HL2 _ _ Ex) as [_ Hx]. apply Hinv in He. rewrite <- (Hnode _ _ He), Hx.
    rewrite (Z.mul_comm N M), Z.div_mul by lia. lia.
Qed.
End placement.
