(* ===== verification/ExpertBalance.v ===== *)
(** * The entry point of the expert balancer

    [rebalance_experts] succeeds on every valid configuration and returns maps that
    are inverse to each other; the global policy is the hierarchical one with one
    group and one node. *)

From S2P Require Import Prelude Tensor ExpertLoad ExpertPacking ExpertOptimal ExpertLoadSpec.

(** The sizes the assertions ask for, with room for one replica per expert. *)
Record balancer_config (n R groups nodes gpus : Z) : Prop := {
  bc_experts : 0 < n ≤ R;
  bc_groups : 0 < groups ∧ n mod groups = 0;
  bc_nodes : 0 < nodes ∧ groups mod nodes = 0;
  bc_gpus : 0 < gpus ∧ gpus mod nodes = 0;
  bc_replicas : R mod gpus = 0;
}.

Section balance.
Context {W : Type} `{TorchFloat W} `{!TorchLaws W}.

(** ** All layers *)

Lemma layers_ok N gpn gs M l2ms m2ls Gs :
  0 < N → 0 < gpn → 0 < gs → 0 < M →
  Forall2 (renaming (N * gpn * gs) (gpn * gs) gs) l2ms m2ls → length Gs = length l2ms →
  Forall (λ g, len g = N ∧ Forall (node_ok (gpn * gs) M) g) Gs →
  ∃ T, map2_res torch_gather m2ls (layer_from (gpn * gs) 0 <$> Gs) = Ok (phy2log <$> T) ∧
    (λ g, concat (rank <$> g)) <$> Gs = rank <$> T ∧
    map2_res torch_gather ((λ g, concat (logcnt <$> g)) <$> Gs) l2ms = Ok (logcnt <$> T) ∧
    length T = length Gs ∧ Forall (placement (N * gpn * gs) (N * M) N gs) T.
Proof.
  intros HN Hgpn Hgs HM HF. revert Gs. unfold map2_res.
  induction HF as [|l2m m2l l2ms m2ls Hr _ IH]; intros [|g Gs] Hl HG; try done; [by exists []|].
  apply Forall_cons in HG as [[Hg1 Hg2] HG].
  destruct (IH Gs) as (T & E1 & E2 & E3 & E4 & E5); [simpl in Hl; lia|done|].
  destruct (layer_placement N gpn gs M g l2m m2l) as (s & F1 & F2 & F3 & F4); [done..|].
  exists (s :: T). rewrite !fmap_cons, E2, F2. cbn [zip_with mapM_res res_bind fst snd].
  rewrite F1, F3. cbn [res_bind]. rewrite E1, E3. cbn [res_bind length]. rewrite E4.
  split_and!; [done..|by constructor].
Qed.

(** The regrouping of the nodes of all layers. *)
Lemma regroup N K M (rows : list replicas) (L : nat) :
  0 < N → (0 < L)%nat → length rows = (L * Z.to_nat N)%nat → Forall (node_ok K M) rows →
  let Gs := chunks L (Z.to_nat N) rows in
  Forall (λ g, len g = N ∧ Forall (node_ok K M) g) Gs ∧
  (∀ (f : replicas → list Z) z, Forall (λ s, len (f s) = z) rows →
    view_rows (Z.of_nat L) (f <$> rows) = Ok ((λ g, concat (f <$> g)) <$> Gs)).
Proof.
  intros HN HL Hl Hok Gs. split.
  - pose proof (Forall_chunks_length L (Z.to_nat N) rows Hl) as H1.
    pose proof (Forall_chunks _ L (Z.to_nat N) rows Hok) as H2.
    apply Forall_forall. intros g Hg. rewrite Forall_forall in H1. rewrite Forall_forall in H2.
    split; [|by apply H2]. unfold len. rewrite (H1 g Hg). lia.
  - intros f z Hz. rewrite (view_rows_groups L (Z.to_nat N) (Z.to_nat z)).
    + f_equal. rewrite <- fmap_chunks, <- list_fmap_compose. done.
    + done.
    + by rewrite length_fmap.
    + apply Forall_fmap. apply (Forall_impl _ _ _ Hz). intros s Hs. simpl. unfold len in Hs. lia.
Qed.

(** The nodes' rows come apart again, and get the offset of their node. *)
Lemma add_offsets_layers N K M Gs :
  0 < N → 0 < M → Forall (λ g, len g = N ∧ Forall (node_ok K M) g) Gs →
  mapM_res (λ r, add_offsets ((λ j, j * K) <$> py_range 0 N) (chunks (Z.to_nat N) (Z.to_nat M) r))
    ((λ g, concat (phy2log <$> g)) <$> Gs) = Ok (layer_from K 0 <$> Gs).
Proof.
  intros HN HM. induction 1 as [|g Gs [Hg Hok] _ IH]; [done|].
  rewrite !fmap_cons. cbn [mapM_res]. rewrite IH.
  replace (chunks (Z.to_nat N) (Z.to_nat M) (concat (phy2log <$> g))) with (phy2log <$> g).
  - rewrite (add_offsets_ok N K g) by lia. done.
  - replace (Z.to_nat N) with (length (phy2log <$> g)) by (rewrite length_fmap; unfold len in Hg; lia).
    symmetry. apply chunks_concat, Forall_fmap. apply (Forall_impl _ _ _ Hok).
    intros s [Hs _ _ _ _]. simpl. unfold len in Hs. lia.
Qed.

Lemma py_divides_mul b k : 0 < b → py_divides b (b * k) = Ok true ∧ py_div (b * k) b = Ok k.
Proof.
  intros Hb. unfold py_divides, py_div. destruct (Z.eqb_spec b 0); [lia|].
  rewrite Z.mul_comm, Z.mod_mul, Z.div_mul by lia. done.
Qed.

(** ** The hierarchical policy *)

Lemma step1_ok (weight : list (list W)) N gpn gs :
  weight ≠ [] → 0 < N → 0 < gpn → 0 < gs →
  ∃ pis rks m2ls,
    let l2ms := zip_with (λ p r, spread gs (zip_with (λ x y, (x * gpn + y) * gs) p r)) pis rks in
    balanced_packing ((λ w, fsum <$> chunks (Z.to_nat (N * gpn)) (Z.to_nat gs) w) <$> weight) N
      = Ok (pis, rks) ∧
    mapM_res inverse l2ms = Ok m2ls ∧ length l2ms = length weight ∧
    Forall2 (renaming (N * gpn * gs) (gpn * gs) gs) l2ms m2ls.
Proof.
  intros Hne HN Hgpn Hgs.
  destruct (balanced_packing_ok ((λ w, fsum <$> chunks (Z.to_nat (N * gpn)) (Z.to_nat gs) w) <$> weight)
    N gpn) as (pis & rks & Hb & Hl & HP); [by destruct weight| |done|lia|].
  { apply Forall_fmap, Forall_true. intros w. simpl. unfold len.
    rewrite length_fmap, length_chunks. lia. }
  destruct (group_renamings N gpn gs pis rks) as (m2ls & Hm & Hlm & HR); [done..|].
  exists pis, rks, m2ls. split_and!; [done|done| |done].
  rewrite len_fmap in Hl. unfold len in *. lia.
Qed.

Lemma gather_layers (weight : list (list W)) l2ms m2ls n K gs :
  0 ≤ n → Forall (λ w, len w = n) weight → length l2ms = length weight →
  Forall2 (renaming n K gs) l2ms m2ls →
  ∃ gathered, map2_res torch_gather weight m2ls = Ok gathered ∧
    length gathered = length weight ∧ Forall (λ r, len r = n) gathered.
Proof.
  intros Hn Hcols Hl HR. revert weight Hcols Hl. unfold map2_res.
  induction HR as [|l2m m2l l2ms m2ls (_ & Hp & _) _ IH]; intros [|w weight] Hcols Hl; try done;
    [by exists []|].
  apply Forall_cons in Hcols as [Hw Hcols]. destruct (IH weight Hcols) as (r & E1 & E2 & E3).
  { by injection Hl. }
  destruct (gather_ok w m2l) as [x Hx].
  { apply Forall_forall. intros i Hi. rewrite Hw. by apply (is_perm_elem _ m2l). }
  exists (x :: r). cbn [zip_with mapM_res res_bind fst snd]. rewrite Hx. cbn [res_bind].
  rewrite E1. split_and!; [done|simpl; lia|]. constructor; [|done].
  rewrite (gather_len _ _ _ Hx). by apply is_perm_len.
Qed.

Lemma step2_ok (weight : list (list W)) l2ms m2ls N gpn gs M :
  weight ≠ [] → 0 < N → 0 < gpn → 0 < gs → gpn * gs ≤ M →
  Forall (λ w, len w = N * gpn * gs) weight → length l2ms = length weight →
  Forall2 (renaming (N * gpn * gs) (gpn * gs) gs) l2ms m2ls →
  ∃ gathered tokens rows, map2_res torch_gather weight m2ls = Ok gathered ∧
    view_cols (gpn * gs) gathered = Ok tokens ∧
    replicate_experts tokens M = Ok (phy2log <$> rows, rank <$> rows, logcnt <$> rows) ∧
    length tokens = length rows ∧ length rows = (length weight * Z.to_nat N)%nat ∧
    Forall (λ w, len w = gpn * gs) tokens ∧ Forall (node_ok (gpn * gs) M) rows.
Proof.
  intros Hne HN Hgpn Hgs HM Hcols Hl HR.
  destruct (gather_layers weight l2ms m2ls (N * gpn * gs) (gpn * gs) gs) as (gathered & Hga & Hlg & Hgc);
    [repeat apply Z.mul_nonneg_nonneg; lia|done..|].
  rewrite <- Z.mul_assoc in Hgc. set (K := gpn * gs) in *. assert (HK : 0 < K) by (unfold K; nia).
  set (L := length weight) in *.
  assert (Hflat : len (concat gathered) = Z.of_nat (L * Z.to_nat N) * K).
  { rewrite (len_concat_rows (N * K)) by done. unfold len. rewrite Hlg. nia. }
  assert (Hv := view_cols_Z (L * Z.to_nat N) K gathered HK Hflat).
  set (tokens := chunks _ _ _) in Hv.
  assert (Htl : length tokens = (L * Z.to_nat N)%nat) by apply length_chunks.
  assert (Htc : Forall (λ w, len w = K) tokens).
  { eapply Forall_impl; [apply Forall_chunks_length|].
    - unfold len in Hflat. nia.
    - intros w Hw. unfold len. cbn in Hw. lia. }
  destruct (replicate_experts_ok tokens K M) as (rows & Hr & Hlr & Hrows); [|done|lia|].
  { intros E. rewrite E in Htl. destruct weight; [done|]. cbn in Htl. lia. }
  exists gathered, tokens, rows. split_and!; [done..|lia|lia|done|].
  apply (Forall_impl _ _ _ Hrows). intros s. apply replicated_node_ok.
Qed.

Lemma step3_ok (tokens : list (list W)) rows K gp pe :
  0 < gp → 0 < pe → rows ≠ [] → length tokens = length rows →
  Forall (λ w, len w = K) tokens → Forall (node_ok K (gp * pe)) rows →
  ∃ tp pis rks perms T,
    map2_res torch_gather (zip_with (zip_with fdiv) tokens (logcnt <$> rows)) (phy2log <$> rows) = Ok tp ∧
    balanced_packing tp gp = Ok (pis, rks) ∧
    mapM_res inverse (zip_with (zip_with (λ x y, x * pe + y)) pis rks) = Ok perms ∧
    map2_res torch_gather (phy2log <$> rows) perms = Ok (phy2log <$> T) ∧
    map2_res torch_gather (rank <$> rows) perms = Ok (rank <$> T) ∧
    logcnt <$> rows = logcnt <$> T ∧ length T = length rows ∧ Forall (node_ok K (gp * pe)) T.
Proof.
  intros Hgp Hpe Hne Hl Htok Hrows.
  destruct (device_perms tokens rows K gp pe) as (tp & pis & rks & perms & E1 & E2 & E3 & E4 & E5);
    [done..|].
  destruct (nodes_permute K (gp * pe) rows perms) as (T & F); [nia|done..|].
  exists tp, pis, rks, perms, T. naive_solver.
Qed.

(** The views of step 3, from the nodes to the layers. *)
Lemma step4_ok l2ms m2ls (rows : list replicas) N gpn gs M (L : nat) :
  0 < N → 0 < gpn → 0 < gs → 0 < M → (0 < L)%nat → length rows = (L * Z.to_nat N)%nat →
  length l2ms = L → Forall (node_ok (gpn * gs) M) rows →
  Forall2 (renaming (N * gpn * gs) (gpn * gs) gs) l2ms m2ls →
  ∃ layered layers rks cnts T, view_rows (Z.of_nat L) (phy2log <$> rows) = Ok layered ∧
    ncols layered = N * M ∧
    mapM_res (λ r, add_offsets ((λ j, j * (gpn * gs)) <$> py_range 0 N)
      (chunks (Z.to_nat N) (Z.to_nat M) r)) layered = Ok layers ∧
    map2_res torch_gather m2ls layers = Ok (phy2log <$> T) ∧
    view_rows (Z.of_nat L) (rank <$> rows) = Ok rks ∧ rks = rank <$> T ∧
    view_rows (Z.of_nat L) (logcnt <$> rows) = Ok cnts ∧
    map2_res torch_gather cnts l2ms = Ok (logcnt <$> T) ∧
    length T = L ∧ Forall (placement (N * gpn * gs) (N * M) N gs) T.
Proof.
  intros HN Hgpn Hgs HM HL Hlr Hll Hok HR. set (K := gpn * gs) in *.
  destruct (regroup N K M rows L HN HL Hlr Hok) as [HG Hview]. set (Gs := chunks _ _ _) in *.
  assert (HlG : length Gs = L) by apply length_chunks.
  destruct (layers_ok N gpn gs M l2ms m2ls Gs) as (T & E1 & E2 & E3 & E4 & E5); [done..|lia|done|].
  exists ((λ g, concat (phy2log <$> g)) <$> Gs), (layer_from K 0 <$> Gs), (rank <$> T),
    ((λ g, concat (logcnt <$> g)) <$> Gs), T. split_and!.
  - apply (Hview phy2log M). apply (Forall_impl _ _ _ Hok). by intros s [? _ _ _ _].
  - destruct Gs as [|g Gs']; [simpl in HlG; lia|]. apply Forall_cons in HG as [[Hg1 Hg2] _].
    simpl. rewrite (len_concat_rows M), len_fmap, Hg1; [done|]. apply Forall_fmap.
    apply (Forall_impl _ _ _ Hg2). by intros s [? _ _ _ _].
  - by apply add_offsets_layers.
  - done.
  - rewrite <- E2. apply (Hview rank M). apply (Forall_impl _ _ _ Hok). by intros s [_ ? _ _ _].
  - done.
  - apply (Hview logcnt K). apply (Forall_impl _ _ _ Hok). by intros s [_ _ ? _ _].
  - done.
  - lia.
  - done.
Qed.

Lemma hierarchical_products (weight : list (list W)) N gpn gs gp pe :
  weight ≠ [] → 0 < N → 0 < gpn → 0 < gs → 0 < gp → 0 < pe → gpn * gs ≤ gp * pe →
  Forall (λ w, len w = N * gpn * gs) weight →
  ∃ T, rebalance_experts_hierarchical weight (N * gp * pe) (N * gpn) N (N * gp) =
      Ok (phy2log <$> T, rank <$> T, logcnt <$> T) ∧
    length T = length weight ∧ Forall (placement (N * gpn * gs) (N * (gp * pe)) N gs) T.
Proof.
  intros Hne HN Hgpn Hgs Hgp Hpe Hle Hcols. unfold rebalance_experts_hierarchical.
  assert (Hnc : ncols weight = N * gpn * gs).
  { destruct weight; [done|]. simpl. by apply Forall_cons in Hcols as [-> _]. }
  assert (HL : (0 < length weight)%nat) by (destruct weight; [done|simpl; lia]).
  rewrite Hnc. destruct (py_divides_mul (N * gpn) gs ltac:(nia)) as [-> ->]. cbn [res_bind py_assert].
  destruct (py_divides_mul N gpn HN) as [-> ->]. cbn [res_bind py_assert].
  destruct (py_divides_mul N gp HN) as [-> _]. cbn [res_bind py_assert].
  destruct (py_divides_mul (N * gp) pe ltac:(nia)) as [-> ->]. cbn [res_bind py_assert].
  destruct (step1_ok weight N gpn gs) as (pis & rks & m2ls & E1 & E2 & E3 & HR); [done..|].
  rewrite E1. cbn [res_bind]. rewrite E2. cbn [res_bind].
  replace (N * gpn * gs / N) with (gpn * gs) by (rewrite <- Z.mul_assoc, (Z.mul_comm N), Z.div_mul; lia).
  replace (N * gp * pe / N) with (gp * pe) by (rewrite <- Z.mul_assoc, (Z.mul_comm N), Z.div_mul; lia).
  replace (N * gp / N) with gp by (rewrite (Z.mul_comm N), Z.div_mul; lia).
  set (l2ms := zip_with _ pis rks) in *.
  destruct (step2_ok weight l2ms m2ls N gpn gs (gp * pe)) as (ga & tk & rows & F1 & F2 & F3 & F4 & F5 & F6 & F7);
    [done..|].
  rewrite F1. cbn [res_bind]. rewrite F2. cbn [res_bind]. rewrite F3. cbn [res_bind].
  destruct (step3_ok tk rows (gpn * gs) gp pe) as (tp & p2 & r2 & perms & T0 & G1 & G2 & G3 & G4 & G5 & G6 & G7 & G8);
    [done|done| |done..|].
  { intros ->. cbn in F5. nia. }
  rewrite G1. cbn [res_bind]. rewrite G2. cbn [res_bind]. rewrite G3. cbn [res_bind].
  rewrite G4. cbn [res_bind]. rewrite <- Z.mul_assoc, arange_step_ok, Z.mul_assoc by nia. cbn [res_bind].
  destruct (step4_ok l2ms m2ls T0 N gpn gs (gp * pe) (length weight))
    as (ly & lys & rk & cn & T & J1 & J2 & J3 & J4 & J5 & J6 & J7 & J8 & J9 & J10);
    [done..|nia|done|lia|done|done|done|].
  change (len weight) with (Z.of_nat (length weight)). rewrite J1. cbn [res_bind]. rewrite J2, (Z.mul_comm N (gp * pe)), Z.mod_mul, Z.div_mul by lia.
  cbn [guard_raise negb Z.eqb res_bind]. rewrite J3. cbn [res_bind]. rewrite J4, G5. cbn [res_bind].
  rewrite J5, J6. cbn [res_bind]. rewrite G6, J7. cbn [res_bind]. rewrite J8. cbn [res_bind].
  exists T. rewrite (Z.mul_comm (gp * pe) N). done.
Qed.

(** ** Valid configurations *)

Lemma hierarchical_ok (weight : list (list W)) n R groups nodes gpus :
  weight ≠ [] → Forall (λ w, len w = n) weight → balancer_config n R groups nodes gpus →
  ∃ T, rebalance_experts_hierarchical weight R groups nodes gpus =
      Ok (phy2log <$> T, rank <$> T, logcnt <$> T) ∧
    length T = length weight ∧ Forall (placement n R nodes (n / groups)) T.
Proof.
  intros Hne Hcols [[Hn HR] [Hg0 Hg] [Hd0 Hd] [Hu0 Hu] Hr].
  apply Z.div_exact in Hg, Hd, Hu, Hr; [|lia..].
  set (gs := n / groups) in *. set (gpn := groups / nodes) in *.
  set (gp := gpus / nodes) in *. set (pe := R / gpus) in *. clearbody gs gpn gp pe.
  subst groups gpus. assert (0 < gpn) by nia. assert (0 < gp) by nia.
  assert (0 < gs) by nia. assert (0 < pe) by nia. subst n R.
  destruct (hierarchical_products weight nodes gpn gs gp pe) as (T & HT & Hl & HP); [done..|nia|done|].
  exists T. split_and!; [done|done|]. by replace (nodes * gp * pe) with (nodes * (gp * pe)) by ring.
Qed.

(** ** The inverse map *)

Lemma zat_chunks {A} (n k : nat) (l : list A) e :
  length l = (n * k)%nat → 0 ≤ e < Z.of_nat n →
  ∃ row, zat (chunks n k l) e = Some row ∧ len row = Z.of_nat k ∧
    ∀ r, 0 ≤ r < Z.of_nat k → zat row r = zat l (e * Z.of_nat k + r).
Proof.
  revert l e. induction n as [|n IH]; intros l e Hl He; [lia|]. cbn [chunks].
  change (take k l :: chunks n k (drop k l)) with ([take k l] ++ chunks n k (drop k l)).
  destruct (decide (e = 0)) as [->|He0].
  - exists (take k l). split_and!; [done|unfold len; rewrite length_take; lia|].
    intros r Hr. rewrite zat_take by lia. done.
  - destruct (IH (drop k l) (e - 1)) as (row & E1 & E2 & E3); [rewrite length_drop; lia|lia|].
    exists row. rewrite zat_app_r by (unfold len; simpl; lia). split_and!; [done|done|].
    intros r Hr. rewrite E3 by done. rewrite <- (take_drop k l) at 2.
    assert (Hk : len (take k l) = Z.of_nat k) by (unfold len; rewrite length_take; lia).
    rewrite zat_app_r by nia. f_equal. nia.
Qed.

Lemma fold_max_ge (l : list Z) x : x ≤ fold_left Z.max l x ∧ Forall (λ y, y ≤ fold_left Z.max l x) l.
Proof.
  revert x. induction l as [|y l IH]; intros x; simpl; [split; [lia|constructor]|].
  destruct (IH (Z.max x y)) as [H1 H2]. split; [lia|]. constructor; [lia|done].
Qed.

Lemma max_item_ok (m : list (list Z)) :
  concat m ≠ [] → ∃ x, max_item m = Ok x ∧ ∀ y, y ∈ concat m → y ≤ x.
Proof.
  unfold max_item. destruct (concat m) as [|x l]; [done|]. intros _. eexists. split; [done|].
  destruct (fold_max_ge l x) as [H1 H2]. rewrite Forall_forall in H2.
  intros y [->|Hy]%elem_of_cons; [done|by apply H2].
Qed.

(** The three maps of a layer describe one placement of [n] experts in [R] places,
    with rows of [M] entries. *)
Record maps_consistent (n R M : Z) (phy2log : list Z) (log2phy : list (list Z)) (logcnt : list Z) : Prop := {
  mc_phy : len phy2log = R;
  mc_log : len log2phy = n;
  mc_cnt : len logcnt = n;
  mc_rows : ∀ e, 0 ≤ e < n → ∃ c row, zat logcnt e = Some c ∧ zat log2phy e = Some row ∧
    1 ≤ c ≤ M ∧ len row = M ∧ NoDup (take (Z.to_nat c) row) ∧
    (∀ r, 0 ≤ r < c → ∃ p, zat row r = Some p ∧ zat phy2log p = Some e) ∧
    (∀ r, c ≤ r < M → zat row r = Some (-1));
  mc_inv : ∀ p e, zat phy2log p = Some e → ∃ row c r, zat log2phy e = Some row ∧
    zat logcnt e = Some c ∧ 0 ≤ r < c ∧ zat row r = Some p;
}.

(** The cells of the scatter are distinct and inside. *)
Lemma cells_ok n R N gs M s :
  placement n R N gs s → (∀ c, c ∈ logcnt s → c ≤ M) →
  let idx := zip_with (λ e r, e * M + r) (phy2log s) (rank s) in
  NoDup idx ∧ Forall (λ i, 0 ≤ i < n * M) idx ∧ len idx = R.
Proof.
  intros [H1 H2 H3 H4 [Hn Ha] _] HM idx.
  assert (Hget : ∀ k e r, zat (phy2log s) k = Some e → zat (rank s) k = Some r →
    0 ≤ e < n ∧ 0 ≤ r < M).
  { intros k e r He Hr. assert (Hin : (e, r) ∈ zip (phy2log s) (rank s)).
    { apply (zat_elem _ k). by apply zat_zip. }
    apply Ha in Hin as (c & Hc & Hrc). rewrite Z.sub_0_r in Hc.
    pose proof (HM c (zat_elem _ _ _ Hc)). apply zat_Some_bound in Hc. lia. }
  split_and!.
  - apply NoDup_zat. intros i j x (e & r & -> & He & Hr)%zat_zip_with (e' & r' & Hx & He' & Hr')%zat_zip_with.
    destruct (Hget _ _ _ He Hr), (Hget _ _ _ He' Hr').
    destruct (mixed_radix_inj M e e' r r') as [-> ->]; [lia..|].
    apply (zat_NoDup (zip (phy2log s) (rank s)) i j (e', r')); [done|by apply zat_zip..].
  - apply Forall_forall. intros x (k & (e & r & -> & He & Hr)%zat_zip_with)%elem_zat.
    destruct (Hget _ _ _ He Hr). nia.
  - unfold idx. rewrite len_zip_with; lia.
Qed.

(** A pair of [assigns] is at some place. *)
Lemma place_of n R N gs s e r c :
  placement n R N gs s → zat (logcnt s) e = Some c → 0 ≤ r < c →
  ∃ p, zat (phy2log s) p = Some e ∧ zat (rank s) p = Some r.
Proof.
  intros [_ _ _ _ [_ Ha] _] Hc Hr. assert (Hi : (e, r) ∈ zip (phy2log s) (rank s)).
  { apply Ha. exists c. by rewrite Z.sub_0_r. }
  destruct (elem_zat _ _ Hi) as [p Hp]. exists p. by apply zat_zip in Hp.
Qed.

Lemma rank_of n R N gs s p e :
  placement n R N gs s → zat (phy2log s) p = Some e →
  ∃ r c, zat (rank s) p = Some r ∧ zat (logcnt s) e = Some c ∧ 0 ≤ r < c.
Proof.
  intros [H1 H2 _ _ [_ Ha] _] He. pose proof (zat_Some_bound _ _ _ He).
  destruct (zat_in (rank s) p) as [r Hr]; [lia|]. exists r.
  assert (Hin : (e, r) ∈ zip (phy2log s) (rank s)) by (by eapply zat_elem, zat_zip).
  apply Ha in Hin as (c & Hc & Hrc). rewrite Z.sub_0_r in Hc. by exists c.
Qed.

(** Reading the cells by rows. *)
Lemma maps_of_flat n R N gs M s flat :
  0 < n → placement n R N gs s → (∀ c, c ∈ logcnt s → c ≤ M) → 1 ≤ M → len flat = n * M →
  (∀ p e r, zat (phy2log s) p = Some e → zat (rank s) p = Some r → zat flat (e * M + r) = Some p) →
  (∀ e c r, zat (logcnt s) e = Some c → c ≤ r < M → zat flat (e * M + r) = Some (-1)) →
  maps_consistent n R M (phy2log s) (chunks (Z.to_nat n) (Z.to_nat M) flat) (logcnt s).
Proof.
  intros Hn Hs HcM HM Hlf Hplace Hrest.
  assert (Hrow : ∀ e, 0 ≤ e < n → ∃ row, zat (chunks (Z.to_nat n) (Z.to_nat M) flat) e = Some row ∧
    len row = M ∧ ∀ r, 0 ≤ r < M → zat row r = zat flat (e * M + r)).
  { intros e He. destruct (zat_chunks (Z.to_nat n) (Z.to_nat M) flat e) as (row & ? & ? & Hr);
      [unfold len in Hlf; nia|lia|]. exists row. rewrite Z2Nat.id in * by lia. done. }
  pose proof (pl_cnt _ _ _ _ _ Hs) as Hlc. pose proof (pl_pos _ _ _ _ _ Hs) as Hpos.
  rewrite Forall_forall in Hpos. split.
  - by apply (pl_phy _ _ _ _ _ Hs).
  - unfold len. rewrite length_chunks. lia.
  - done.
  - intros e He. destruct (zat_in (logcnt s) e) as [c Hc]; [lia|].
    destruct (Hrow e He) as (row & E1 & E2 & E3). pose proof (zat_elem _ _ _ Hc) as Hin.
    pose proof (HcM c Hin). pose proof (Hpos c Hin).
    assert (Hget : ∀ r, 0 ≤ r < c → ∃ p, zat row r = Some p ∧ zat (phy2log s) p = Some e ∧ zat (rank s) p = Some r).
    { intros r Hr. destruct (place_of n R N gs s e r c Hs Hc Hr) as (p & Hp & Hq). exists p.
      rewrite E3 by lia. split; [by apply Hplace|done]. }
    exists c, row. split_and!; [done|done|lia|lia|done| |..].
    + apply NoDup_zat. intros i j p Hi Hj.
      assert (Hb : 0 ≤ i < c ∧ 0 ≤ j < c).
      { apply zat_Some_bound in Hi, Hj. unfold len in Hi, Hj. rewrite length_take in Hi, Hj. lia. }
      rewrite zat_take in Hi, Hj by lia.
      destruct (Hget i) as (p1 & ? & ? & ?); [lia|]. destruct (Hget j) as (p2 & ? & ? & ?); [lia|]. congruence.
    + intros r Hr. destruct (Hget r Hr) as (p & ? & ? & _). by exists p.
    + intros r Hr. rewrite E3 by lia. by apply (Hrest e c).
  - intros p e He. destruct (rank_of n R N gs s p e Hs He) as (r & c & Hr & Hc & Hrc).
    destruct (Hrow e) as (row & E1 & E2 & E3); [by apply zat_Some_bound in Hc; lia|].
    pose proof (HcM c (zat_elem _ _ _ Hc)). exists row, c, r. rewrite E3 by lia.
    split_and!; [done|done|lia|lia|by apply Hplace].
Qed.

Lemma log2phy_row_ok n R N gs M s :
  0 < n → 0 ≤ R → placement n R N gs s → (∀ c, c ∈ logcnt s → c ≤ M) → 1 ≤ M →
  ∃ l2p, log2phy_row n M R (phy2log s) (rank s) = Ok l2p ∧ maps_consistent n R M (phy2log s) l2p (logcnt s).
Proof.
  intros Hn HR Hs HcM HM. destruct (cells_ok _ _ _ _ M s Hs HcM) as (Hnd & Hin & Hlen).
  set (idx := zip_with _ _ _) in *.
  assert (Hcell : len (replicate (Z.to_nat (n * M)) (-1)) = n * M) by (rewrite len_replicate; nia).
  destruct (scatter_ok (replicate (Z.to_nat (n * M)) (-1)) idx (py_range 0 R)) as (flat & Hf & Hlf & Hw & Ho).
  { done. } { by rewrite Hcell. } { rewrite length_py_range. unfold len in Hlen. lia. }
  rewrite Hcell in Hlf. unfold log2phy_row. fold idx. rewrite Hf. cbn [res_bind].
  eexists. split; [done|]. apply (maps_of_flat n R N gs); try done.
  - intros p e r He Hr. apply (Hw p).
    + apply zat_zip_with. eauto.
    + apply zat_range0. destruct Hs. apply zat_Some_bound in He. lia.
  - intros e c r Hc Hr. pose proof (zat_Some_bound _ _ _ Hc) as Hb. rewrite (pl_cnt _ _ _ _ _ Hs) in Hb.
    pose proof (pl_pos _ _ _ _ _ Hs) as Hpos. rewrite Forall_forall in Hpos.
    pose proof (Hpos c (zat_elem _ _ _ Hc)). rewrite Ho; [apply zat_replicate; nia|].
    intros (k & (e' & r' & Hx & He' & Hr')%zat_zip_with)%elem_zat.
    destruct (rank_of n R N gs s k e' Hs He') as (r2 & c' & Hr2 & Hc' & Hrc). simplify_eq.
    pose proof (HcM c' (zat_elem _ _ _ Hc')).
    destruct (mixed_radix_inj M e e' r r') as [-> ->]; [lia..|]. simplify_eq. lia.
Qed.

Lemma log2phy_rows_ok n R N gs M T :
  0 < n → 0 ≤ R → 1 ≤ M → Forall (placement n R N gs) T →
  (∀ s c, s ∈ T → c ∈ logcnt s → c ≤ M) →
  ∃ l2p, map2_res (log2phy_row n M R) (phy2log <$> T) (rank <$> T) = Ok l2p ∧
    Forall3 (maps_consistent n R M) (phy2log <$> T) l2p (logcnt <$> T).
Proof.
  intros Hn HR HM HT. unfold map2_res. induction HT as [|s T Hs _ IH]; intros Hmax.
  { exists []. split; [done|constructor]. }
  destruct IH as (l2p & E1 & E2); [intros s' c Hs'; apply Hmax; by right|].
  destruct (log2phy_row_ok n R N gs M s) as (l & F1 & F2); [done..|intros c; apply Hmax; by left|done|].
  exists (l :: l2p). rewrite !fmap_cons. cbn [zip_with mapM_res res_bind fst snd].
  rewrite F1. cbn [res_bind]. rewrite E1. split; [done|]. by constructor.
Qed.

Lemma rebalance_ok (weight : list (list W)) n R groups nodes gpus (h : bool) :
  weight ≠ [] → Forall (λ w, len w = n) weight →
  balancer_config n R (if h then groups else 1) (if h then nodes else 1) gpus →
  ∃ T l2p M, rebalance_experts weight R groups nodes gpus h = Ok (phy2log <$> T, l2p, logcnt <$> T) ∧
    length T = length weight ∧
    Forall (placement n R (if h then nodes else 1) (n / if h then groups else 1)) T ∧
    Forall3 (maps_consistent n R M) (phy2log <$> T) l2p (logcnt <$> T).
Proof.
  intros Hne Hcols Hcfg. pose proof (hierarchical_ok weight n R _ _ gpus Hne Hcols Hcfg) as (T & HT & Hl & HP).
  unfold rebalance_experts.
  replace (if h then rebalance_experts_hierarchical weight R groups nodes gpus
    else rebalance_experts_hierarchical weight R 1 1 gpus) with
    (rebalance_experts_hierarchical weight R (if h then groups else 1) (if h then nodes else 1) gpus)
    by (by destruct h).
  rewrite HT. cbn [res_bind]. destruct Hcfg as [Hn _ _ _ _].
  assert (Hnc : ncols weight = n).
  { destruct weight; [done|]. simpl. by apply Forall_cons in Hcols as [-> _]. }
  assert (Hcat : ∀ s c, s ∈ T → c ∈ logcnt s → c ∈ concat (logcnt <$> T)).
  { intros s c Hs Hc. apply list_elem_of_In, in_concat. exists (logcnt s).
    split; [|by apply list_elem_of_In]. apply list_elem_of_In, list_elem_of_fmap. eauto. }
  assert (Hone : ∃ c, c ∈ concat (logcnt <$> T) ∧ 1 ≤ c).
  { destruct T as [|s T]; [by destruct weight|]. pose proof (Forall_inv HP) as [_ _ H3 H4 _ _].
    destruct (zat_in (logcnt s) 0) as [c Hc]; [lia|]. apply zat_elem in Hc. exists c.
    rewrite Forall_forall in H4. split; [apply (Hcat s); [by left|done]|by apply H4]. }
  destruct Hone as (c1 & Hc1 & Hc1').
  destruct (max_item_ok (logcnt <$> T)) as (M & HM & Hmax).
  { intros E. rewrite E in Hc1. by apply not_elem_of_nil in Hc1. }
  rewrite HM, Hnc. cbn [res_bind]. pose proof (Hmax c1 Hc1).
  edestruct (log2phy_rows_ok n R) as (l2p & E1 & E2); [lia|lia| |exact HP| |].
  { transitivity c1; [done|exact (Hmax c1 Hc1)]. }
  { intros s c Hs Hc. apply Hmax. by apply (Hcat s). }
  rewrite E1. cbn [res_bind]. exists T, l2p, M. done.
Qed.

(** ** The theorems *)

(** C27. [rebalance_experts] never fails on a valid configuration, whatever the
    loads are, and its three maps describe one placement of every layer: each
    expert has between one and [M] replicas, [log2phy] lists them by rank without
    repetition and is [-1] beyond, and [phy2log] is the inverse of [log2phy]. *)
Theorem rebalance_experts_consistent (weight : list (list W)) n R groups nodes gpus (h : bool) :
  weight ≠ [] → Forall (λ w, len w = n) weight →
  balancer_config n R (if h then groups else 1) (if h then nodes else 1) gpus →
  ∃ phy2logs log2phys logcnts M,
    rebalance_experts weight R groups nodes gpus h = Ok (phy2logs, log2phys, logcnts) ∧
    length phy2logs = length weight ∧
    Forall3 (maps_consistent n R M) phy2logs log2phys logcnts.
Proof.
  intros Hne Hcols Hcfg.
  destruct (rebalance_ok weight n R groups nodes gpus h Hne Hcols Hcfg) as (T & l2p & M & E & Hl & _ & H3).
  do 4 eexists. split; [exact E|]. split; [by rewrite length_fmap|exact H3].
Qed.

(** Under the hierarchical policy the replicas of the experts of one group are
    all on one node: the physical experts of a node are [R / nodes] consecutive
    ones, a group is [n / groups] consecutive logical experts. *)
Theorem groups_share_node (weight : list (list W)) n R groups nodes gpus :
  weight ≠ [] → Forall (λ w, len w = n) weight → balancer_config n R groups nodes gpus →
  ∃ phy2logs log2phys logcnts,
    rebalance_experts weight R groups nodes gpus true = Ok (phy2logs, log2phys, logcnts) ∧
    Forall (λ phy, ∀ p q e f, zat phy p = Some e → zat phy q = Some f →
      e / (n / groups) = f / (n / groups) → p / (R / nodes) = q / (R / nodes)) phy2logs.
Proof.
  intros Hne Hcols Hcfg.
  destruct (rebalance_ok weight n R groups nodes gpus true Hne Hcols Hcfg) as (T & l2p & M & E & Hl & HP & _).
  do 3 eexists. split; [exact E|]. apply Forall_fmap. apply (Forall_impl _ _ _ HP).
  intros s [_ _ _ _ _ [node Hnode]] p q e f He Hf Hef. by rewrite (Hnode p e He), (Hnode q f Hf), Hef.
Qed.
End balance.

(** ** A concrete run *)

Definition example_loads : list (list Z) :=
  [[90; 132; 40; 61; 104; 165; 39; 4; 73; 56; 183; 86];
   [20; 107; 104; 64; 19; 197; 187; 157; 172; 86; 16; 27]].

Lemma example_config : balancer_config 12 16 4 2 8.
Proof. split; vm_compute; done. Qed.

Lemma rebalance_experts_consistent_witness :
  ∃ phy2logs log2phys logcnts M,
    rebalance_experts example_loads 16 4 2 8 true = Ok (phy2logs, log2phys, logcnts) ∧
    length phy2logs = 2%nat ∧ Forall3 (maps_consistent 12 16 M) phy2logs log2phys logcnts.
Proof.
  apply (rebalance_experts_consistent example_loads 12 16 4 2 8 true); [done|by repeat constructor|].
  exact example_config.
Defined.

Lemma groups_share_node_witness :
  (∃ l2p cnt, rebalance_experts example_loads 16 4 2 8 true =
    Ok ([[5; 6; 5; 7; 8; 4; 3; 4; 10; 9; 10; 2; 0; 1; 11; 1];
         [7; 10; 6; 8; 6; 11; 8; 9; 2; 4; 5; 1; 5; 0; 3; 1]], l2p, cnt)) ∧
  ∃ phy2logs log2phys logcnts,
    rebalance_experts example_loads 16 4 2 8 true = Ok (phy2logs, log2phys, logcnts) ∧
    Forall (λ phy, ∀ p q e f, zat phy p = Some e → zat phy q = Some f →
      e / (12 / 4) = f / (12 / 4) → p / (16 / 2) = q / (16 / 2)) phy2logs.
Proof.
  split; [vm_compute; do 2 eexists; reflexivity|].
  apply (groups_share_node example_loads 12 16 4 2 8); [done|by repeat constructor|].
  exact example_config.
Defined.
