(* ===== verification/DataParallel.v ===== *)
(** * The data-parallel controller ([managers/data_parallel_controller.py])

    The controller receives every message of the tokenizer process and sends it to
    one or several of the [dp_size] schedulers.  Requests go round the workers, or,
    with the load balance method [SHORTEST_QUEUE], to the workers that the last
    load report calls for ([DPBudget]).  A worker is the list of the objects that
    were sent to it. *)

From S2P Require Import Prelude Tensor.

(** ** Load balance methods *)

Inductive LoadBalanceMethod := ROUND_ROBIN | SHORTEST_QUEUE | MINIMUM_TOKENS.

(** [str.upper] on ASCII letters. *)
Definition upper_char (c : Ascii.ascii) : Ascii.ascii :=
  let n := Ascii.nat_of_ascii c in
  if (97 <=? n)%nat && (n <=? 122)%nat then Ascii.ascii_of_nat (n - 32) else c.

Fixpoint upper (s : string) : string :=
  match s with
  | EmptyString => EmptyString
  | String c s' => String (upper_char c) (upper s')
  end.

Definition from_str (method : string) : res LoadBalanceMethod :=
  let method := upper method in
  if String.eqb method "ROUND_ROBIN" then Ok ROUND_ROBIN
  else if String.eqb method "SHORTEST_QUEUE" then Ok SHORTEST_QUEUE
  else if String.eqb method "MINIMUM_TOKENS" then Ok MINIMUM_TOKENS
  else Err ValueError.

(** ** [DPBudget] *)

Record Load := { dp_rank : Z; num_reqs : Z; num_waiting_reqs : Z; num_tokens : Z }.

(** [min] and [max] of a sequence; the empty one raises. *)
Definition py_min (l : list Z) : res Z :=
  match l with [] => Err ValueError | x :: l' => Ok (fold_left Z.min l' x) end.
Definition py_max (l : list Z) : res Z :=
  match l with [] => Err ValueError | x :: l' => Ok (fold_left Z.max l' x) end.

(** [for idx in indices: l[idx] = v]. *)
Definition set_all (l : list Z) (indices : list Z) (v : Z) : list Z :=
  fold_left (λ l i, <[Z.to_nat i := v]> l) indices l.

Definition indices_of (v : Z) (l : list Z) : list Z :=
  List.filter (λ i, match zat l i with Some x => x =? v | None => false end) (py_range 0 (len l)).

(** [l * n]. *)
Definition py_repeat {A} (l : list A) (n : Z) : list A := concat (replicate (Z.to_nat n) l).

Fixpoint budget_loop (fuel : nat) (loads : list Load) (reqs : list Z) (budget_queue : list Z)
    : res (list Z) :=
  match reqs with
  | [] => Ok budget_queue
  | x0 :: _ =>
      if forallb (λ x, x =? x0) reqs then Ok budget_queue
      else match fuel with
      | O => Err OutOfFuel
      | S fuel' =>
          let! min_load := py_min reqs in
          let min_indices := indices_of min_load reqs in
          let! second_min_load := py_min (List.filter (λ x, min_load <? x) reqs) in
          let! ranks := mapM_res (λ i, let! l := py_index loads i in Ok (dp_rank l)) min_indices in
          budget_loop fuel' loads (set_all reqs min_indices second_min_load)
            (budget_queue ++ py_repeat ranks (second_min_load - min_load))
      end
  end.

(** The new queue; the old one is cleared first. *)
Definition update_budget (loads : list Load) : res (list Z) :=
  let reqs := num_reqs <$> loads in
  match reqs with
  | [] => Ok []
  | _ =>
      let! max_num_reqs := py_max reqs in
      if forallb (λ x, x =? max_num_reqs) reqs then Ok []
      else budget_loop (length reqs) loads reqs []
  end.

(** [popleft] of a non-empty queue. *)
Definition dispatch (budget_queue : list Z) : option Z * list Z :=
  match budget_queue with [] => (None, []) | x :: q => (Some x, q) end.

(** ** The controller *)

Record TokenizedReq := {
  rid : string;
  is_embedding : bool;
  data_parallel_rank : option Z;
  room : option Z;
}.

(** Embedding requests have no attribute [bootstrap_room]. *)
Definition bootstrap_room (r : TokenizedReq) : res (option Z) :=
  if is_embedding r then Err AttributeError else Ok (room r).

Inductive message :=
  | Tokenized (r : TokenizedReq)            (* a single generate or embedding request *)
  | BatchTokenized (l : list TokenizedReq)  (* a batch of them *)
  | BlockReqInput (block : bool)
  | WatchLoadUpdateReq (loads : list Load)
  | Control (id : Z).                       (* every other request of the tokenizer *)

Record DataParallelController := {
  load_balance_method : LoadBalanceMethod;
  disaggregated : bool;                     (* [disaggregation_mode != "null"] *)
  control_message_step : Z;
  round_robin_counter : Z;
  dp_budget : list Z;
  workers : list (list message);
}.

Definition with_workers (s : DataParallelController) (ws : list (list message)) : DataParallelController :=
  {| load_balance_method := load_balance_method s; disaggregated := disaggregated s;
     control_message_step := control_message_step s;
     round_robin_counter := round_robin_counter s; dp_budget := dp_budget s; workers := ws |}.

Definition with_counter (s : DataParallelController) (c : Z) : DataParallelController :=
  {| load_balance_method := load_balance_method s; disaggregated := disaggregated s;
     control_message_step := control_message_step s;
     round_robin_counter := c; dp_budget := dp_budget s; workers := workers s |}.

Definition with_budget (s : DataParallelController) (q : list Z) : DataParallelController :=
  {| load_balance_method := load_balance_method s; disaggregated := disaggregated s;
     control_message_step := control_message_step s;
     round_robin_counter := round_robin_counter s; dp_budget := q; workers := workers s |}.

(** [self.workers[i].send_pyobj(obj)]. *)
Definition send_to (s : DataParallelController) (i : Z) (obj : message) : res DataParallelController :=
  let! w := py_index (workers s) i in
  let! ws := py_set_index (workers s) i (w ++ [obj]) in
  Ok (with_workers s ws).

Definition send_to_all_workers (s : DataParallelController) (obj : message) : DataParallelController :=
  with_workers s ((λ w, w ++ [obj]) <$> workers s).

(** To [self.workers[:: self.control_message_step]]. *)
Definition send_control_message (s : DataParallelController) (obj : message) : res DataParallelController :=
  let! _ := guard_raise (control_message_step s =? 0) ValueError in
  Ok (with_workers s (imap (λ i w, if Z.of_nat i mod control_message_step s =? 0 then w ++ [obj] else w)
    (workers s))).

Definition handle_load_update_req (s : DataParallelController) (loads : list Load)
    : res DataParallelController :=
  let! q := update_budget loads in Ok (with_budget s q).

Definition maybe_external_dp_rank_routing (s : DataParallelController) (req : TokenizedReq)
    : res (bool * DataParallelController) :=
  match data_parallel_rank req with
  | Some rank => let! s' := send_to s rank (Tokenized req) in Ok (true, s')
  | None => Ok (false, s)
  end.

Definition round_robin_scheduler (s : DataParallelController) (req : TokenizedReq)
    : res DataParallelController :=
  let! '(routed, s) := maybe_external_dp_rank_routing s req in
  if (routed : bool) then Ok s
  else if negb (disaggregated s) then
    let! s := send_to s (round_robin_counter s) (Tokenized req) in
    let n := len (workers s) in
    let! _ := guard_raise (n =? 0) ZeroDivisionError in
    Ok (with_counter s ((round_robin_counter s + 1) mod n))
  else
    let! room := bootstrap_room req in
    match room with
    | None => Err AssertionError
    | Some b =>
        let n := len (workers s) in
        let! _ := guard_raise (n =? 0) ZeroDivisionError in
        send_to s (b mod n) (Tokenized req)
    end.

Definition shortest_queue_scheduler (s : DataParallelController) (req : TokenizedReq)
    : res DataParallelController :=
  let! '(routed, s) := maybe_external_dp_rank_routing s req in
  if (routed : bool) then Ok s
  else
    let '(target_worker, q) := dispatch (dp_budget s) in
    let s := with_budget s q in
    match target_worker with
    | None => round_robin_scheduler s req
    | Some i => send_to s i (Tokenized req)
    end.

Definition minimum_tokens_scheduler (s : DataParallelController) (req : TokenizedReq)
    : res DataParallelController :=
  let! '(routed, s) := maybe_external_dp_rank_routing s req in
  if (routed : bool) then Ok s else round_robin_scheduler s req.

(** [self.dispatching(req)]. *)
Definition dispatching (s : DataParallelController) (req : TokenizedReq) : res DataParallelController :=
  match load_balance_method s with
  | ROUND_ROBIN => round_robin_scheduler s req
  | SHORTEST_QUEUE => shortest_queue_scheduler s req
  | MINIMUM_TOKENS => minimum_tokens_scheduler s req
  end.

(** The type dispatcher and its fallback. *)
Definition request_dispatcher (s : DataParallelController) (obj : message) : res DataParallelController :=
  match obj with
  | Tokenized r => dispatching s r
  | BlockReqInput _ => Ok (send_to_all_workers s obj)
  | WatchLoadUpdateReq loads => handle_load_update_req s loads
  | BatchTokenized _ | Control _ => send_control_message s obj
  end.

(** The messages received, in order. *)
Definition event_loop (s : DataParallelController) (objs : list message) : res DataParallelController :=
  fold_res request_dispatcher s objs.

(** The controller after [__init__]. *)
Definition init (method : string) (dp_attention disagg : bool) (dp_size tp_size : Z)
    : res DataParallelController :=
  let! m := from_str method in
  Ok {| load_balance_method := m; disaggregated := disagg;
        control_message_step := if dp_attention then tp_size else 1;
        round_robin_counter := 0; dp_budget := [];
        workers := replicate (Z.to_nat dp_size) [] |}.
