(* ===== verification/DataParallelSpec.v ===== *)
(** * The controller dispatches fairly

    The load report's queue is a greedy join-the-shortest-queue schedule that ends
    with all workers at the largest load; the controller hands requests out along
    it; without one it goes round the workers.  A batch of requests, which the
    type dispatcher does not know, goes to every worker. *)

From S2P Require Import Prelude Tensor DataParallel.

(** ** The specification: join the shortest queue

    From the loads [f], one request after the other goes to a worker (an index)
    whose load ix minimal; the loads are [f'] at the end. *)
Inductive least_loaded : list Z → list Z → list Z → Prop :=
  | ll_done f : least_loaded f [] f
  | ll_next f i x ix f' :
      zat f i = Some x → Forall (Z.le x) f →
      least_loaded (<[Z.to_nat i := x + 1]> f) ix f' → least_loaded f (i :: ix) f'.

Lemma least_loaded_app f ix f1 js f2 :
  least_loaded f ix f1 → least_loaded f1 js f2 → least_loaded f (ix ++ js) f2.
Proof. induction 1 as [|f i x ix f' Hi Hx _ IH]; intros Hj; [done|]. simpl. econstructor; eauto. Qed.

(** The first requests of a schedule are a schedule. *)
Lemma least_loaded_take f ix f' k :
  least_loaded f ix f' → ∃ f1, least_loaded f (take k ix) f1.
Proof.
  intros Hl. revert k. induction Hl as [|f i x ix f' Hi Hx _ IH]; intros [|k]; simpl;
    try (eexists; constructor).
  destruct (IH k) as [f1 Hf1]. exists f1. by econstructor.
Qed.

(** ** Raising the least loaded workers together *)

Lemma len_set_all l idx v : len (set_all l idx v) = len l.
Proof.
  revert l. induction idx as [|i idx IH]; intros l; [done|]. unfold set_all in *. simpl.
  by rewrite IH, len_insert.
Qed.

Lemma zat_set_all l idx v j : Forall (λ i, 0 ≤ i < len l) idx →
  zat (set_all l idx v) j = if decide (j ∈ idx) then Some v else zat l j.
Proof.
  revert l. induction idx as [|i idx IH]; intros l Hb.
  { destruct (decide (j ∈ [])) as [Hj|]; [by apply not_elem_of_nil in Hj|done]. }
  apply Forall_cons in Hb as [Hi Hb]. unfold set_all in *. simpl.
  rewrite IH by (by rewrite len_insert). rewrite zat_insert by done.
  destruct (decide (j ∈ idx)), (decide (j ∈ i :: idx)), (Z.eqb_spec i j); set_solver.
Qed.

Lemma elem_of_set_all l idx v y : Forall (λ i, 0 ≤ i < len l) idx →
  y ∈ set_all l idx v → y = v ∨ ∃ j, j ∉ idx ∧ zat l j = Some y.
Proof.
  intros Hb (j & Hj)%elem_zat. rewrite zat_set_all in Hj by done.
  destruct (decide (j ∈ idx)); [left; congruence|right; eauto].
Qed.

(** One request for each of the workers in [idx], all at the least load [v]. *)
Lemma raise_once f idx v :
  NoDup idx → (∀ i, i ∈ idx → zat f i = Some v) → Forall (Z.le v) f →
  least_loaded f idx (set_all f idx (v + 1)).
Proof.
  intros Hn. revert f. induction Hn as [|i idx Hi Hn IH]; intros f Hv Hmin; [constructor|].
  assert (Hb : 0 ≤ i < len f) by (eapply zat_Some_bound, Hv; by left).
  econstructor; [apply Hv; by left|done|]. apply IH.
  - intros j Hj. rewrite zat_insert_ne; [apply Hv; by right|done|]. by intros ->.
  - apply Forall_insert; [done|lia].
Qed.

(** The same [k] times: they stay the least loaded as long as the others have at
    least [v + k]. *)
Lemma raise_by f idx v (k : nat) :
  NoDup idx → (∀ i, i ∈ idx → zat f i = Some v) →
  (∀ j y, j ∉ idx → zat f j = Some y → v + Z.of_nat k ≤ y) →
  least_loaded f (concat (replicate k idx)) (set_all f idx (v + Z.of_nat k)).
Proof.
  intros Hn. revert f v. induction k as [|k IH]; intros f v Hv Ho; simpl.
  - change (Z.of_nat 0) with 0. rewrite Z.add_0_r.
    replace (set_all f idx v) with f; [constructor|].
    assert (Hb : Forall (λ i, 0 ≤ i < len f) idx).
    { apply Forall_forall. intros i Hi. by eapply zat_Some_bound, Hv. }
    apply list_eq_zat. intros j. rewrite zat_set_all by done.
    destruct (decide (j ∈ idx)) as [Hj|]; [by apply Hv|done].
  - assert (Hb : Forall (λ i, 0 ≤ i < len f) idx).
    { apply Forall_forall. intros i Hi. by eapply zat_Some_bound, Hv. }
    apply (least_loaded_app _ _ (set_all f idx (v + 1))).
    + apply raise_once; [done|done|]. apply Forall_forall. intros y (j & Hj)%elem_zat.
      destruct (decide (j ∈ idx)) as [Hi|Hi]; [rewrite (Hv j Hi) in Hj; simplify_eq; lia|].
      pose proof (Ho j y Hi Hj). lia.
    + replace (set_all f idx (v + Z.of_nat (S k)))
        with (set_all (set_all f idx (v + 1)) idx (v + 1 + Z.of_nat k)).
      * apply IH.
        { intros i Hi. rewrite zat_set_all by done. by rewrite decide_True. }
        { intros j y Hj Hy. rewrite zat_set_all in Hy by done. rewrite decide_False in Hy by done.
          pose proof (Ho j y Hj Hy). lia. }
      * apply list_eq_zat. intros j.
        rewrite !zat_set_all by (rewrite ?len_set_all; done).
        destruct (decide (j ∈ idx)); [f_equal; lia|done].
Qed.

(** ** One round of [update_budget] *)

Lemma py_min_spec l m : py_min l = Ok m → m ∈ l ∧ Forall (Z.le m) l.
Proof.
  destruct l as [|x l]; [done|]. simpl. intros [= <-]. revert x.
  induction l as [|y l IH]; intros x; simpl.
  - split; [by left|]. repeat constructor. lia.
  - destruct (IH (Z.min x y)) as [H1 H2]. apply Forall_cons in H2 as [H2 H3]. split.
    + apply elem_of_cons in H1 as [->|H1]; [|by do 2 right].
      destruct (Z.min_spec x y) as [[_ ->]|[_ ->]]; [by left|by right; left].
    + repeat (constructor; [lia|]). done.
Qed.

Lemma py_min_ok l : l ≠ [] → ∃ m, py_min l = Ok m.
Proof. destruct l; [done|]. by eexists. Qed.

Lemma elem_of_indices v l i : i ∈ indices_of v l ↔ zat l i = Some v.
Proof.
  unfold indices_of. rewrite list_elem_of_In, filter_In, <- list_elem_of_In, elem_of_py_range.
  split.
  - intros [_ Hi]. destruct (zat l i); [|done]. by apply Z.eqb_eq in Hi as ->.
  - intros Hi. pose proof (zat_Some_bound _ _ _ Hi). rewrite Hi. split; [lia|apply Z.eqb_refl].
Qed.

Lemma NoDup_indices v l : NoDup (indices_of v l).
Proof. apply NoDup_ListNoDup, List.NoDup_filter, NoDup_ListNoDup, NoDup_py_range. Qed.

Definition bump (m s x : Z) : Z := if x =? m then s else x.

Lemma set_all_bump l m s : set_all l (indices_of m l) s = bump m s <$> l.
Proof.
  apply list_eq_zat. intros j. rewrite zat_set_all, zat_fmap.
  - unfold bump. destruct (decide (j ∈ indices_of m l)) as [Hj|Hj].
    + apply elem_of_indices in Hj. rewrite Hj. simpl. by rewrite Z.eqb_refl.
    + destruct (zat l j) as [x|] eqn:E; [|done]. simpl.
      destruct (Z.eqb_spec x m) as [->|]; [|done]. by apply elem_of_indices in E.
  - apply Forall_forall. intros i Hi%elem_of_indices. by apply zat_Some_bound in Hi.
Qed.

(** The number of loads above a bound, the measure of the loop. *)
Definition above (m : Z) (l : list Z) : nat := length (List.filter (λ x, m <? x) l).

Lemma above_bump_le l m s : m < s → Forall (λ x, x = m ∨ s ≤ x) l →
  (above s (bump m s <$> l) ≤ above m l)%nat.
Proof.
  intros Hms. unfold above. induction 1 as [|x l Hx _ IH]; [done|]. cbn. unfold bump at 1.
  destruct (Z.eqb_spec x m), (Z.ltb_spec s s), (Z.ltb_spec m x), (Z.ltb_spec s x); simpl; lia.
Qed.

Lemma above_bump l m s : m < s → Forall (λ x, x = m ∨ s ≤ x) l → s ∈ l →
  (above s (bump m s <$> l) < above m l)%nat.
Proof.
  intros Hms. induction 1 as [|x l Hx Hl IH]; intros Hin; [by apply not_elem_of_nil in Hin|].
  pose proof (above_bump_le l m s Hms Hl) as Hle. unfold above in *. cbn. unfold bump at 1.
  apply elem_of_cons in Hin as [<-|Hin].
  - destruct (Z.eqb_spec s m), (Z.ltb_spec s s), (Z.ltb_spec m s); simpl; lia.
  - specialize (IH Hin).
    destruct (Z.eqb_spec x m), (Z.ltb_spec s s), (Z.ltb_spec m x), (Z.ltb_spec s x); simpl; lia.
Qed.

(** The worker a load is reported for. *)
Definition rank_at (loads : list Load) (i : Z) : Z :=
  match zat loads i with Some l => dp_rank l | None => 0 end.

Lemma ranks_ok loads idx : Forall (λ i, 0 ≤ i < len loads) idx →
  mapM_res (λ i, let! l := py_index loads i in Ok (dp_rank l)) idx = Ok (rank_at loads <$> idx).
Proof.
  induction 1 as [|i idx Hi _ IH]; [done|]. destruct (zat_in loads i Hi) as [l Hl].
  cbn [mapM_res fmap list_fmap]. rewrite (zat_py_index _ _ _ Hl). cbn [res_bind]. rewrite IH.
  cbn [res_bind]. unfold rank_at at 2. by rewrite Hl.
Qed.

Lemma fmap_py_repeat {A B} (f : A → B) l n : f <$> py_repeat l n = py_repeat (f <$> l) n.
Proof.
  unfold py_repeat. induction (Z.to_nat n) as [|k IH]; [done|]. simpl. by rewrite fmap_app, IH.
Qed.

(** When the loads differ, the smallest is below the largest. *)
Lemma not_all_equal (x0 : Z) l m M :
  forallb (λ x, x =? x0) (x0 :: l) = false → Forall (Z.le m) (x0 :: l) →
  Forall (λ x, x ≤ M) (x0 :: l) → m ∈ x0 :: l → m < M.
Proof.
  intros Hf Hm HM Hin. destruct (decide (m < M)) as [|Hge]; [done|]. exfalso.
  assert (Hall : Forall (λ x, x = m) (x0 :: l)).
  { rewrite Forall_forall in Hm. rewrite Forall_forall in HM. apply Forall_forall. intros x Hx.
    pose proof (Hm x Hx). pose proof (HM x Hx). lia. }
  assert (Hx0 : x0 = m) by (by apply Forall_inv in Hall).
  enough (forallb (λ x, x =? x0) (x0 :: l) = true) by congruence.
  apply forallb_forall. intros x Hx%list_elem_of_In. rewrite Forall_forall in Hall.
  rewrite Hx0, (Hall x Hx). apply Z.eqb_refl.
Qed.

Lemma forallb_eq x0 (l : list Z) : forallb (λ x, x =? x0) l = true → l = replicate (length l) x0.
Proof.
  induction l as [|x l IH]; [done|]. simpl. intros [->%Z.eqb_eq H]%andb_prop. by rewrite <- IH.
Qed.

Lemma py_min_intro l m : m ∈ l → Forall (Z.le m) l → py_min l = Ok m.
Proof.
  intros Hin Hall. destruct (py_min_ok l) as [m' Hm']; [by intros ->; apply not_elem_of_nil in Hin|].
  rewrite Hm'. destruct (py_min_spec _ _ Hm') as [Hin' Hall'].
  rewrite Forall_forall in Hall. rewrite Forall_forall in Hall'.
  pose proof (Hall m' Hin'). pose proof (Hall' m Hin). f_equal. lia.
Qed.

(** One round, from the least load [m] to the second least [s]. *)
Lemma round_ok f m M :
  py_min f = Ok m → m < M → M ∈ f → Forall (λ x, x ≤ M) f →
  ∃ s, py_min (List.filter (λ x, m <? x) f) = Ok s ∧ m < s ∧
    least_loaded f (py_repeat (indices_of m f) (s - m)) (bump m s <$> f) ∧
    py_min (bump m s <$> f) = Ok s ∧ (above s (bump m s <$> f) < above m f)%nat ∧
    Forall (λ x, x ≤ M) (bump m s <$> f) ∧ M ∈ bump m s <$> f.
Proof.
  intros [Hmin Hle]%py_min_spec HmM HMin HM.
  assert (Hflt : ∀ x, x ∈ List.filter (λ x, m <? x) f ↔ x ∈ f ∧ m < x).
  { intros x. by rewrite list_elem_of_In, filter_In, <- list_elem_of_In, Z.ltb_lt. }
  destruct (py_min_ok (List.filter (λ x, m <? x) f)) as [s Hs].
  { intros E. assert (HMf : M ∈ List.filter (λ x, m <? x) f) by by apply Hflt.
    rewrite E in HMf. by apply not_elem_of_nil in HMf. }
  pose proof Hs as [[Hsin Hms]%Hflt Hsle]%py_min_spec.
  rewrite Forall_forall in Hsle. rewrite Forall_forall in HM. rewrite Forall_forall in Hle.
  assert (Hcase : Forall (λ x, x = m ∨ s ≤ x) f).
  { apply Forall_forall. intros x Hx. destruct (decide (m < x)).
    - right. apply Hsle. by apply Hflt.
    - left. pose proof (Hle x Hx). lia. }
  exists s. split_and!; [done|done| | |by apply above_bump| |].
  - rewrite <- set_all_bump. replace s with (m + Z.of_nat (Z.to_nat (s - m))) at 2 by lia.
    apply raise_by; [apply NoDup_indices|intros i; apply elem_of_indices|].
    intros j y Hj Hy. destruct (proj1 (Forall_forall _ _) Hcase y (zat_elem _ _ _ Hy)) as [->|]; [|lia].
    by apply elem_of_indices in Hy.
  - apply py_min_intro.
    + apply list_elem_of_fmap. exists m. split; [|done]. unfold bump. by rewrite Z.eqb_refl.
    + apply Forall_fmap. apply (Forall_impl _ _ _ Hcase). intros x Hx. simpl. unfold bump.
      destruct (Z.eqb_spec x m); lia.
  - apply Forall_fmap, Forall_forall. intros x Hx. simpl. unfold bump.
    destruct (Z.eqb_spec x m); [by apply HM|by apply HM].
  - apply list_elem_of_fmap. exists M. split; [|done]. unfold bump.
    destruct (Z.eqb_spec M m); [lia|done].
Qed.

(** The whole loop: from the loads [f] to all at the largest load. *)
Lemma budget_loop_ok loads M : ∀ fuel f q m,
  len f = len loads → py_min f = Ok m → (above m f ≤ fuel)%nat →
  Forall (λ x, x ≤ M) f → M ∈ f →
  ∃ ix, budget_loop fuel loads f q = Ok (q ++ (rank_at loads <$> ix)) ∧
    least_loaded f ix (replicate (length f) M).
Proof.
  induction fuel as [fuel IH] using lt_wf_ind. intros f q m Hlen Hm Hfuel HM Hin.
  destruct f as [|x0 f]; [by apply not_elem_of_nil in Hin|]. set (f0 := x0 :: f) in *.
  assert (Hunf : budget_loop fuel loads f0 q = if forallb (λ x, x =? x0) f0 then Ok q else
    match fuel with O => Err OutOfFuel | S fuel' =>
      let! min_load := py_min f0 in let min_indices := indices_of min_load f0 in
      let! second_min_load := py_min (List.filter (λ x, min_load <? x) f0) in
      let! ranks := mapM_res (λ i, let! l := py_index loads i in Ok (dp_rank l)) min_indices in
      budget_loop fuel' loads (set_all f0 min_indices second_min_load)
        (q ++ py_repeat ranks (second_min_load - min_load)) end) by (by destruct fuel).
  rewrite Hunf. clear Hunf. destruct (forallb (λ x, x =? x0) f0) eqn:Eeq.
  { exists []. rewrite app_nil_r. split; [done|]. apply forallb_eq in Eeq.
    assert (M = x0) as ->. { rewrite Eeq in Hin. by apply elem_of_replicate in Hin as [-> _]. }
    rewrite <- Eeq. constructor. }
  pose proof (py_min_spec _ _ Hm) as [Hmin Hle].
  pose proof (not_all_equal x0 f m M Eeq Hle HM Hmin) as HmM.
  destruct (round_ok f0 m M Hm HmM Hin HM) as (s & Hs & Hms & Hll & Hm' & Hab & HM' & Hin').
  destruct fuel as [|fuel]; [lia|]. rewrite Hm. cbn [res_bind]. rewrite Hs. cbn [res_bind].
  rewrite ranks_ok; cbn [res_bind].
  2:{ apply Forall_forall. intros i Hi%elem_of_indices%zat_Some_bound. lia. }
  rewrite set_all_bump.
  destruct (IH fuel ltac:(lia) (bump m s <$> f0) (q ++ py_repeat (rank_at loads <$> indices_of m f0) (s - m)) s)
    as (ix & E & Hix); [by rewrite len_fmap|done|lia|done|done|].
  exists (py_repeat (indices_of m f0) (s - m) ++ ix). rewrite E.
  rewrite fmap_app, fmap_py_repeat, <- app_assoc. split; [done|].
  rewrite length_fmap in Hix. by apply (least_loaded_app _ _ (bump m s <$> f0)).
Qed.

Lemma py_max_spec l M : py_max l = Ok M → M ∈ l ∧ Forall (λ x, x ≤ M) l.
Proof.
  destruct l as [|x l]; [done|]. simpl. intros [= <-]. revert x.
  induction l as [|y l IH]; intros x; simpl.
  - split; [by left|]. repeat constructor. lia.
  - destruct (IH (Z.max x y)) as [H1 H2]. apply Forall_cons in H2 as [H2 H3]. split.
    + apply elem_of_cons in H1 as [->|H1]; [|by do 2 right].
      destruct (Z.max_spec x y) as [[_ ->]|[_ ->]]; [by right; left|by left].
    + repeat (constructor; [lia|]). done.
Qed.

Lemma above_length m l : (above m l ≤ length l)%nat.
Proof. unfold above. induction l as [|x l IH]; [done|]. simpl. destruct (m <? x); simpl; lia. Qed.

Lemma update_budget_greedy loads M :
  py_max (num_reqs <$> loads) = Ok M →
  ∃ ix, update_budget loads = Ok (rank_at loads <$> ix) ∧
    least_loaded (num_reqs <$> loads) ix (replicate (length loads) M).
Proof.
  intros HM. unfold update_budget. rewrite <- (length_fmap num_reqs loads).
  set (f := num_reqs <$> loads) in *. pose proof (py_max_spec _ _ HM) as [Hin Hle].
  destruct (py_min_ok f) as [m Hm]; [by intros E; rewrite E in Hin; apply not_elem_of_nil in Hin|].
  destruct f as [|x0 f0] eqn:Ef; [by apply not_elem_of_nil in Hin|]. rewrite HM. cbn [res_bind].
  destruct (forallb (λ x, x =? M) (x0 :: f0)) eqn:Eeq.
  - exists []. split; [done|]. apply forallb_eq in Eeq. rewrite <- Eeq. constructor.
  - destruct (budget_loop_ok loads M (length (x0 :: f0)) (x0 :: f0) [] m) as (ix & E & Hix).
    + rewrite <- Ef. unfold f. apply len_fmap.
    + done.
    + apply above_length.
    + done.
    + done.
    + rewrite E. by exists ix.
Qed.

(** C31. The load report is turned into a join-the-shortest-queue schedule: the new
    queue names, in order, workers that are least loaded when their turn comes, and
    at its end every worker has the largest load of the report.  In particular the
    loop ends. *)
Theorem update_budget_refines (loads : list Load) (M : Z) :
  py_max (num_reqs <$> loads) = Ok M →
  ∃ ix, update_budget loads = Ok (rank_at loads <$> ix) ∧
    least_loaded (num_reqs <$> loads) ix (replicate (length loads) M).
Proof. apply update_budget_greedy. Qed.

(** ** Sending *)

(** What arrives at the workers when the requests are sent to these indices. *)
Definition deliver (ws : list (list message)) (sent : list (Z * TokenizedReq)) : list (list message) :=
  fold_left (λ ws p, alter (λ w, w ++ [Tokenized p.2]) (Z.to_nat p.1) ws) sent ws.

Lemma send_to_ok s i obj : 0 ≤ i < len (workers s) →
  send_to s i obj = Ok (with_workers s (alter (λ w, w ++ [obj]) (Z.to_nat i) (workers s))).
Proof.
  intros Hi. unfold send_to. destruct (zat_in (workers s) i Hi) as [w Hw].
  rewrite (zat_py_index _ _ _ Hw). cbn [res_bind]. rewrite py_set_index_ok by done. cbn [res_bind].
  do 2 f_equal. unfold zat in Hw. destruct (Z.ltb_spec i 0); [lia|].
  apply list_eq. intros j. destruct (decide (Z.to_nat i = j)) as [<-|].
  - rewrite list_lookup_insert_eq by (apply lookup_lt_Some in Hw; done).
    by rewrite list_lookup_alter_eq, Hw.
  - rewrite list_lookup_insert_ne by done. by rewrite list_lookup_alter_ne.
Qed.

Lemma len_deliver ws sent : len (deliver ws sent) = len ws.
Proof.
  revert ws. induction sent as [|p sent IH]; intros ws; [done|]. unfold deliver in *. simpl.
  rewrite IH. unfold len. by rewrite length_alter.
Qed.

(** ** Requests along the queue *)

Lemma shortest_queue_step s r i q :
  load_balance_method s = SHORTEST_QUEUE → data_parallel_rank r = None →
  dp_budget s = i :: q → 0 ≤ i < len (workers s) →
  request_dispatcher s (Tokenized r) = Ok (with_workers (with_budget s q) (deliver (workers s) [(i, r)])).
Proof.
  intros Hm Hr Hq Hi. cbn. unfold dispatching. rewrite Hm. unfold shortest_queue_scheduler,
    maybe_external_dp_rank_routing. rewrite Hr. cbn [res_bind]. rewrite Hq. cbn [dispatch].
  by rewrite send_to_ok.
Qed.

Lemma shortest_queue_run reqs : ∀ s (sent : list Z) q,
  load_balance_method s = SHORTEST_QUEUE → Forall (λ r, data_parallel_rank r = None) reqs →
  dp_budget s = sent ++ q → length sent = length reqs → Forall (λ i, 0 ≤ i < len (workers s)) sent →
  event_loop s (Tokenized <$> reqs) =
    Ok (with_workers (with_budget s q) (deliver (workers s) (zip sent reqs))).
Proof.
  induction reqs as [|r reqs IH]; intros s [|i sent] q Hm Hr Hq Hl Hb; try done.
  { cbn in Hq. subst q. by destruct s. }
  apply Forall_cons in Hr as [Hr0 Hr]. apply Forall_cons in Hb as [Hi Hb].
  cbn [fmap list_fmap event_loop fold_res]. unfold event_loop in *.
  cbn [fold_res]. rewrite (shortest_queue_step s r i (sent ++ q)) by done. cbn [res_bind].
  rewrite (IH _ sent q); try done; [by injection Hl|].
  cbn [workers with_workers]. by rewrite len_deliver.
Qed.

(** After a load report, the next requests (as many as the schedule has) go to
    the workers it names: together with the reported loads, each request joins a
    shortest queue. *)
Theorem shortest_queue_dispatch (s : DataParallelController) (loads : list Load) (reqs : list TokenizedReq) M ix :
  load_balance_method s = SHORTEST_QUEUE → Forall (λ r, data_parallel_rank r = None) reqs →
  dp_rank <$> loads = py_range 0 (len (workers s)) → py_max (num_reqs <$> loads) = Ok M →
  update_budget loads = Ok ix → (length reqs ≤ length ix)%nat →
  ∃ f, least_loaded (num_reqs <$> loads) (take (length reqs) ix) f ∧
    event_loop s (WatchLoadUpdateReq loads :: (Tokenized <$> reqs)) =
      Ok (with_workers (with_budget s (drop (length reqs) ix))
        (deliver (workers s) (zip (take (length reqs) ix) reqs))).
Proof.
  intros Hm Hr Hranks HM Hq Hl. destruct (update_budget_greedy loads M HM) as (jx & E & Hll).
  rewrite Hq in E. injection E as E.
  assert (Hn : len loads = len (workers s)).
  { apply (f_equal len) in Hranks. rewrite len_fmap in Hranks. rewrite Hranks.
    unfold len. rewrite length_py_range. lia. }
  assert (Hin : ∀ f i g, least_loaded f i g → Forall (λ j, 0 ≤ j < len f) i).
  { clear. intros f i g. induction 1 as [|f i x ix f' Hi Hx _ IH]; constructor.
    - by eapply zat_Some_bound.
    - by rewrite len_insert in IH. }
  pose proof (Hin _ _ _ Hll) as Hjx. rewrite len_fmap, Hn in Hjx.
  assert (Hid : rank_at loads <$> jx = jx).
  { rewrite <- (list_fmap_id jx) at 2. apply list_fmap_ext. intros k j Hk%list_elem_of_lookup_2.
    rewrite Forall_forall in Hjx. pose proof (Hjx j Hk) as Hj.
    assert (Hz : zat (dp_rank <$> loads) j = Some j) by (rewrite Hranks; by apply zat_range0).
    rewrite zat_fmap in Hz. unfold rank_at. destruct (zat loads j); simpl in *; congruence. }
  rewrite Hid in E. subst jx. destruct (least_loaded_take _ _ _ (length reqs) Hll) as [f Hf].
  exists f. split; [done|]. unfold event_loop. cbn [fold_res request_dispatcher].
  unfold handle_load_update_req. rewrite Hq. cbn [res_bind].
  etrans; [apply (shortest_queue_run reqs _ (take (length reqs) ix) (drop (length reqs) ix))|].
  - done.
  - done.
  - cbn. by rewrite take_drop.
  - rewrite length_take. lia.
  - cbn [workers with_budget]. by apply Forall_take.
  - done.
Qed.

(** ** Round robin *)

Definition turns (c n : Z) (k : nat) : list Z := (λ j, (c + j) mod n) <$> py_range 0 (Z.of_nat k).

Lemma round_robin_run reqs : ∀ s,
  load_balance_method s = ROUND_ROBIN → disaggregated s = false →
  Forall (λ r, data_parallel_rank r = None) reqs → 0 ≤ round_robin_counter s < len (workers s) →
  event_loop s (Tokenized <$> reqs) =
    Ok (with_counter (with_workers s
          (deliver (workers s) (zip (turns (round_robin_counter s) (len (workers s)) (length reqs)) reqs)))
        ((round_robin_counter s + len reqs) mod len (workers s))).
Proof.
  induction reqs as [|r reqs IH]; intros s Hm Hd Hr Hc.
  { cbn. rewrite Z.add_0_r, Z.mod_small by lia. by destruct s. }
  apply Forall_cons in Hr as [Hr0 Hr]. unfold event_loop in *. rewrite fmap_cons.
  cbn [fold_res request_dispatcher]. unfold dispatching. rewrite Hm.
  unfold round_robin_scheduler, maybe_external_dp_rank_routing. rewrite Hr0. cbn [res_bind].
  rewrite Hd. cbn [negb]. rewrite send_to_ok by done. cbn [res_bind workers with_workers].
  set (n := len (workers s)) in *. set (c := round_robin_counter s) in *.
  assert (Hn : len (alter (λ w, w ++ [Tokenized r]) (Z.to_nat c) (workers s)) = n).
  { unfold len. by rewrite length_alter. }
  rewrite Hn. destruct (Z.eqb_spec n 0); [lia|]. cbn [guard_raise res_bind].
  pose proof (Z.mod_pos_bound (c + 1) n ltac:(lia)) as Hmod.
  rewrite IH; [|done|done|done|cbn [workers with_workers with_counter round_robin_counter]; by rewrite Hn].
  cbn [workers with_workers with_counter round_robin_counter]. rewrite Hn, len_cons.
  assert (Ht : turns c n (S (length reqs)) = c :: turns ((c + 1) mod n) n (length reqs)).
  { unfold turns. rewrite Nat2Z.inj_succ. replace (Z.succ _) with (0 + (1 + Z.of_nat (length reqs))) by lia.
    rewrite py_range_cons by lia. rewrite fmap_cons, Z.add_0_r, Z.mod_small by lia. f_equal.
    rewrite (py_range_shift (0 + 1)), <- list_fmap_compose. replace (0 + 1 + _ - (0 + 1)) with (Z.of_nat (length reqs)) by lia.
    apply list_fmap_ext. intros _ j _. simpl. rewrite Z.add_mod_idemp_l by lia. f_equal. lia. }
  cbn [length]. rewrite Ht. f_equal. unfold with_counter, with_workers. cbn. f_equal.
  rewrite Z.add_mod_idemp_l by lia. f_equal. lia.
Qed.

(** Without a load schedule requests take turns: request [j] of a run goes to
    worker [(c + j) % n], where [c] is the counter at its start. *)
Theorem round_robin_turns (s : DataParallelController) (reqs : list TokenizedReq) :
  load_balance_method s = ROUND_ROBIN → disaggregated s = false →
  Forall (λ r, data_parallel_rank r = None) reqs → 0 ≤ round_robin_counter s < len (workers s) →
  ∃ s', event_loop s (Tokenized <$> reqs) = Ok s' ∧
    workers s' = deliver (workers s)
      (zip (turns (round_robin_counter s) (len (workers s)) (length reqs)) reqs) ∧
    0 ≤ round_robin_counter s' < len (workers s').
Proof.
  intros Hm Hd Hr Hc. eexists. split; [by apply round_robin_run|]. cbn.
  split; [done|]. rewrite len_deliver. apply Z.mod_pos_bound. lia.
Qed.

(** ** Every request to exactly one worker *)

Definition single_requests (l : list message) : list TokenizedReq :=
  omap (λ m, match m with Tokenized r => Some r | _ => None end) l.

(** All single requests the workers were sent. *)
Definition delivered (s : DataParallelController) : list TokenizedReq := concat (single_requests <$> workers s).

(** One message is appended to the list of one worker. *)
Definition appends (m : message) (ws ws' : list (list message)) : Prop :=
  ∃ j w, ws !! j = Some w ∧ ws' = <[j := w ++ [m]]> ws.

Lemma send_appends s i m s' : send_to s i m = Ok s' → appends m (workers s) (workers s').
Proof.
  unfold send_to. intros Hs. inv_ok.
  match goal with E1 : py_index _ _ = Ok ?w, E2 : py_set_index _ _ _ = Ok ?ws |- _ =>
    rename E1 into Hi, E2 into Hset end.
  unfold py_index in Hi. unfold py_set_index in Hset.
  set (j := if i <? 0 then len (workers s) + i else i) in *.
  destruct (Z.ltb_spec j 0); [done|]. destruct (Z.leb_spec (len (workers s)) j); [done|].
  cbn [orb] in Hset. inv_ok.
  match goal with E : workers s !! _ = Some ?w |- _ => by exists (Z.to_nat j), w end.
Qed.

Lemma appends_delivered r s s' : appends (Tokenized r) (workers s) (workers s') → delivered s' ≡ₚ delivered s ++ [r].
Proof.
  intros (j & w & Hw & E). unfold delivered. rewrite E.
  rewrite <- (take_drop_middle _ _ _ Hw) at 2. rewrite insert_take_drop by (apply lookup_lt_Some in Hw; done).
  rewrite !fmap_app, !fmap_cons, !concat_app. cbn [concat]. unfold single_requests at 2.
  rewrite omap_app. cbn [omap list_omap]. rewrite <- !app_assoc. apply Permutation_app_head.
  cbn [app]. unfold single_requests at 3. apply Permutation_app_head. apply Permutation_cons_append.
Qed.

Lemma delivered_broadcast s (f : nat → list message → list message) :
  (∀ i w, single_requests (f i w) = single_requests w) →
  delivered (with_workers s (imap f (workers s))) = delivered s.
Proof.
  intros Hf. unfold delivered. cbn [workers with_workers]. f_equal.
  apply list_eq. intros i. rewrite !list_lookup_fmap, list_lookup_imap.
  destruct (workers s !! i); cbn; [by rewrite Hf|done].
Qed.

Lemma single_requests_snoc w m :
  single_requests (w ++ [m]) = single_requests w ++ single_requests [m].
Proof. apply omap_app. Qed.

Lemma round_robin_appends s r s' : round_robin_scheduler s r = Ok s' → appends (Tokenized r) (workers s) (workers s').
Proof.
  unfold round_robin_scheduler, maybe_external_dp_rank_routing.
  destruct (data_parallel_rank r) as [k|]; intros Hs.
  - destruct (send_to s k (Tokenized r)) as [s1|] eqn:E; [|done]. cbn in Hs. inv_ok. by eapply send_appends.
  - cbn [res_bind] in Hs. destruct (disaggregated s); cbn [negb] in Hs.
    + destruct (bootstrap_room r) as [[b|]|]; [|done..]. cbn [res_bind] in Hs.
      destruct (len (workers s) =? 0); [done|]. cbn in Hs. by eapply send_appends.
    + destruct (send_to s _ _) as [s1|] eqn:E; [|done]. cbn [res_bind] in Hs.
      destruct (len (workers s1) =? 0); [done|]. cbn in Hs. inv_ok. apply send_appends in E. exact E.
Qed.

Lemma dispatching_appends s r s' : dispatching s r = Ok s' → appends (Tokenized r) (workers s) (workers s').
Proof.
  assert (Hext : ∀ k s1, send_to s k (Tokenized r) = Ok s1 → appends (Tokenized r) (workers s) (workers s1))
    by (intros; by eapply send_appends).
  unfold dispatching. destruct (load_balance_method s); [apply round_robin_appends|..].
  - unfold shortest_queue_scheduler, maybe_external_dp_rank_routing.
    destruct (data_parallel_rank r) as [k|] eqn:Er; intros Hs.
    + destruct (send_to s k (Tokenized r)) eqn:E; [|done]. cbn in Hs. inv_ok. eauto.
    + cbn [res_bind] in Hs. destruct (dispatch (dp_budget s)) as [[i|] q].
      * by apply send_appends in Hs.
      * by apply round_robin_appends in Hs.
  - unfold minimum_tokens_scheduler, maybe_external_dp_rank_routing.
    destruct (data_parallel_rank r) as [k|] eqn:Er; intros Hs.
    + destruct (send_to s k (Tokenized r)) eqn:E; [|done]. cbn in Hs. inv_ok. eauto.
    + cbn [res_bind] in Hs. by apply round_robin_appends.
Qed.

Lemma delivered_step s m s' :
  request_dispatcher s m = Ok s' → delivered s' ≡ₚ delivered s ++ single_requests [m].
Proof.
  assert (Hb : ∀ m', single_requests [m'] = [] → ∀ c : nat → bool,
    delivered (with_workers s (imap (λ i w, if c i then w ++ [m'] else w) (workers s))) = delivered s).
  { intros m' Hm' c. apply delivered_broadcast. intros i w. destruct (c i); [|done].
    by rewrite single_requests_snoc, Hm', app_nil_r. }
  destruct m as [r|l|b|loads|k]; cbn [request_dispatcher single_requests omap list_omap];
    rewrite ?app_nil_r; intros Hs.
  - by apply appends_delivered, dispatching_appends.
  - unfold send_control_message in Hs. destruct (control_message_step s =? 0); [done|].
    cbn in Hs. inv_ok. by rewrite Hb.
  - inv_ok. unfold send_to_all_workers. rewrite <- (Hb (BlockReqInput b) eq_refl (λ _, true)).
    unfold delivered. cbn [workers with_workers]. apply reflexive_eq. do 2 f_equal.
    apply list_eq. intros i. by rewrite list_lookup_fmap, list_lookup_imap.
  - unfold handle_load_update_req in Hs. destruct (update_budget loads); [|done]. cbn in Hs. by inv_ok.
  - unfold send_control_message in Hs. destruct (control_message_step s =? 0); [done|].
    cbn in Hs. inv_ok. by rewrite Hb.
Qed.

(** Every worker keeps what it was sent and gets some of the messages, in their order. *)
Definition sent_in_order (objs : list message) (ws ws' : list (list message)) : Prop :=
  Forall2 (λ w w', ∃ d, w' = w ++ d ∧ d `sublist_of` objs) ws ws'.

Lemma in_order_map m ws (f : nat → list message → list message) :
  (∀ i w, f i w = w ∨ f i w = w ++ [m]) → sent_in_order [m] ws (imap f ws).
Proof.
  intros Hf. apply Forall2_same_length_lookup_2; [by rewrite length_imap|]. intros i w w' Hw Hw'.
  rewrite list_lookup_imap, Hw in Hw'. injection Hw' as <-.
  destruct (Hf i w) as [-> | ->]; [exists []|exists [m]]; rewrite ?app_nil_r; by repeat constructor.
Qed.

Lemma in_order_appends m ws ws' : appends m ws ws' → sent_in_order [m] ws ws'.
Proof.
  intros (j & w & Hw & ->).
  replace (<[j := w ++ [m]]> ws) with (imap (λ i v, if decide (i = j) then v ++ [m] else v) ws).
  - apply in_order_map. intros i v. case_decide; auto.
  - apply list_eq. intros i. rewrite list_lookup_imap. destruct (decide (i = j)) as [->|Hne].
    + by rewrite list_lookup_insert_eq, Hw by (by eapply lookup_lt_Some).
    + rewrite list_lookup_insert_ne by done. by destruct (ws !! i).
Qed.

Lemma in_order_nil objs ws : sent_in_order objs ws ws.
Proof.
  apply Forall2_same_length_lookup_2; [done|]. intros i w w' Hw Hw'. rewrite Hw in Hw'. injection Hw' as <-.
  exists []. by rewrite app_nil_r; split; [|apply sublist_nil_l].
Qed.

Lemma in_order_trans a b ws1 ws2 ws3 : sent_in_order a ws1 ws2 → sent_in_order b ws2 ws3 → sent_in_order (a ++ b) ws1 ws3.
Proof.
  intros H1. revert ws3. induction H1 as [|w1 w2 ws1 ws2 (d1 & -> & Hd1) _ IH]; intros ws3 H2; inv H2; [constructor|].
  match goal with H : ∃ d, _ |- _ => destruct H as (d2 & -> & Hd2) end. constructor; [|by apply IH].
  exists (d1 ++ d2). rewrite <- app_assoc. split; [done|]. by apply sublist_app.
Qed.

Lemma in_order_step s m s' : request_dispatcher s m = Ok s' → sent_in_order [m] (workers s) (workers s').
Proof.
  assert (Hcontrol : send_control_message s m = Ok s' → sent_in_order [m] (workers s) (workers s')).
  { unfold send_control_message. destruct (control_message_step s =? 0); [done|]. cbn. intros [= <-].
    apply in_order_map. intros i w. destruct (_ =? 0); auto. }
  destruct m as [r|l|b|loads|k]; cbn [request_dispatcher]; intros Hs; [by apply in_order_appends, dispatching_appends|by apply Hcontrol| | |by apply Hcontrol].
  - inv_ok. unfold send_to_all_workers. cbn [workers with_workers].
    replace (_ <$> workers s) with (imap (λ _ w, w ++ [BlockReqInput b]) (workers s)); [apply in_order_map; auto|].
    apply list_eq. intros i. by rewrite list_lookup_fmap, list_lookup_imap.
  - unfold handle_load_update_req in Hs. destruct (update_budget loads); [|done]. cbn in Hs. inv_ok. apply in_order_nil.
Qed.

(** C32. Whatever the load balance method and whatever other messages come between,
    every single request the controller handled was sent to exactly one worker:
    none is lost and none is sent twice.  Each worker got its messages behind those it
    had before, and in the order in which the controller received them. *)
Theorem each_request_sent_once (objs : list message) (s s' : DataParallelController) :
  event_loop s objs = Ok s' →
  delivered s' ≡ₚ delivered s ++ single_requests objs ∧
  Forall2 (λ w w', ∃ d, w' = w ++ d ∧ d `sublist_of` objs) (workers s) (workers s').
Proof.
  revert s. unfold event_loop. induction objs as [|m objs IH]; intros s Hs.
  { cbn in Hs. inv_ok. split; [by rewrite app_nil_r|apply in_order_nil]. }
  cbn [fold_res] in Hs. destruct (request_dispatcher s m) as [s1|] eqn:E; [|done]. cbn [res_bind] in Hs.
  destruct (IH _ Hs) as [H1 H2]. split; [|exact (in_order_trans [m] objs _ _ _ (in_order_step _ _ _ E) H2)].
  rewrite H1, (delivered_step _ _ _ E), <- app_assoc. apply Permutation_app_head.
  unfold single_requests at 3. change (m :: objs) with ([m] ++ objs). by rewrite omap_app.
Qed.

(** ** What does not balance *)

(** The requests the workers will run. *)
Definition requests_of (m : message) : list TokenizedReq :=
  match m with Tokenized r => [r] | BatchTokenized l => l | _ => [] end.

Definition to_run (ws : list (list message)) : list TokenizedReq :=
  concat ((λ w, concat (requests_of <$> w)) <$> ws).

Lemma to_run_broadcast ws batch :
  to_run ((λ w, w ++ [BatchTokenized batch]) <$> ws) ≡ₚ to_run ws ++ concat (replicate (length ws) batch).
Proof.
  induction ws as [|w ws IH]; [done|]. unfold to_run in *. cbn. rewrite fmap_app, concat_app. cbn.
  rewrite IH, app_nil_r. solve_Permutation.
Qed.

(** C33. A batch of requests is not a type the dispatcher knows, so it is sent as a
    control message: without DP attention every worker gets the whole batch, and
    each of its requests will run once per worker. *)
Theorem batch_goes_everywhere (s : DataParallelController) (batch : list TokenizedReq) :
  control_message_step s = 1 →
  ∃ s', request_dispatcher s (BatchTokenized batch) = Ok s' ∧
    workers s' = (λ w, w ++ [BatchTokenized batch]) <$> workers s ∧
    to_run (workers s') ≡ₚ to_run (workers s) ++ concat (replicate (length (workers s)) batch).
Proof.
  intros Hstep. unfold request_dispatcher, send_control_message. rewrite Hstep. cbn.
  set (ws := imap _ _). assert (Hws : ws = (λ w, w ++ [BatchTokenized batch]) <$> workers s).
  { apply list_eq. intros i. unfold ws. rewrite list_lookup_imap, list_lookup_fmap.
    destruct (workers s !! i); [|done]. cbn. by rewrite Z.mod_1_r. }
  eexists. split; [done|]. cbn. rewrite Hws. split; [done|apply to_run_broadcast].
Qed.

(** A request that asks for a worker that does not exist ends the controller:
    [IndexError] leaves the event loop, the messages behind it are not handled. *)
Theorem external_rank_out_of_range (s : DataParallelController) (r : TokenizedReq) (k : Z) (objs : list message) :
  data_parallel_rank r = Some k → k < - len (workers s) ∨ len (workers s) ≤ k →
  event_loop s (Tokenized r :: objs) = Err IndexError.
Proof.
  intros Hr Hk. unfold event_loop. cbn [fold_res request_dispatcher].
  assert (Hs : send_to s k (Tokenized r) = Err IndexError).
  { unfold send_to, py_index. destruct (Z.ltb_spec k 0).
    - destruct (Z.ltb_spec (len (workers s) + k) 0); [done|lia].
    - destruct (Z.ltb_spec k 0); [lia|]. rewrite lookup_ge_None_2 by (unfold len in Hk; lia). done. }
  unfold dispatching, round_robin_scheduler, shortest_queue_scheduler, minimum_tokens_scheduler,
    maybe_external_dp_rank_routing.
  rewrite Hr, Hs. by destruct (load_balance_method s).
Qed.

(** ** Concrete runs *)

Definition four_loads : list Load :=
  [ {| dp_rank := 0; num_reqs := 3; num_waiting_reqs := 0; num_tokens := 0 |};
    {| dp_rank := 1; num_reqs := 1; num_waiting_reqs := 0; num_tokens := 0 |};
    {| dp_rank := 2; num_reqs := 5; num_waiting_reqs := 0; num_tokens := 0 |};
    {| dp_rank := 3; num_reqs := 1; num_waiting_reqs := 0; num_tokens := 0 |} ].

Definition plain (name : string) : TokenizedReq :=
  {| rid := name; is_embedding := false; data_parallel_rank := None; room := None |}.

Definition four_workers (m : LoadBalanceMethod) : DataParallelController :=
  {| load_balance_method := m; disaggregated := false; control_message_step := 1;
     round_robin_counter := 2; dp_budget := []; workers := replicate 4 [] |}.

Lemma update_budget_refines_witness :
  update_budget four_loads = Ok [1; 3; 1; 3; 0; 1; 3; 0; 1; 3] ∧
  ∃ ix, update_budget four_loads = Ok (rank_at four_loads <$> ix) ∧
    least_loaded [3; 1; 5; 1] ix (replicate 4 5).
Proof. split; [reflexivity|]. apply (update_budget_refines four_loads 5). reflexivity. Defined.

Lemma shortest_queue_dispatch_witness :
  ∃ f, least_loaded [3; 1; 5; 1] [1; 3; 1] f ∧
    event_loop (four_workers SHORTEST_QUEUE)
      (WatchLoadUpdateReq four_loads :: (Tokenized <$> [plain "a"; plain "b"; plain "c"])) =
    Ok (with_workers (with_budget (four_workers SHORTEST_QUEUE) [3; 0; 1; 3; 0; 1; 3])
      [[]; [Tokenized (plain "a"); Tokenized (plain "c")]; []; [Tokenized (plain "b")]]).
Proof.
  apply (shortest_queue_dispatch (four_workers SHORTEST_QUEUE) four_loads
    [plain "a"; plain "b"; plain "c"] 5 [1; 3; 1; 3; 0; 1; 3; 0; 1; 3]);
    [reflexivity|by repeat constructor|reflexivity|reflexivity|reflexivity|simpl; lia].
Defined.

Lemma round_robin_turns_witness :
  ∃ s', event_loop (four_workers ROUND_ROBIN) (Tokenized <$> [plain "a"; plain "b"; plain "c"]) = Ok s' ∧
    workers s' = [[Tokenized (plain "c")]; []; [Tokenized (plain "a")]; [Tokenized (plain "b")]] ∧
    0 ≤ round_robin_counter s' < len (workers s').
Proof.
  apply (round_robin_turns (four_workers ROUND_ROBIN) [plain "a"; plain "b"; plain "c"]);
    [reflexivity|reflexivity|by repeat constructor|vm_compute; done].
Defined.

Definition mixed_messages : list message :=
  [Tokenized (plain "a"); Control 7; WatchLoadUpdateReq four_loads; Tokenized (plain "b")].

Definition after_mixed : DataParallelController :=
  match event_loop (four_workers SHORTEST_QUEUE) mixed_messages with Ok s => s | Err _ => four_workers SHORTEST_QUEUE end.

Lemma each_request_sent_once_witness :
  event_loop (four_workers SHORTEST_QUEUE) mixed_messages = Ok after_mixed ∧
  delivered after_mixed ≡ₚ [plain "a"; plain "b"] ∧
  Forall2 (λ w w', ∃ d, w' = w ++ d ∧ d `sublist_of` mixed_messages) (replicate 4 []) (workers after_mixed).
Proof. split; [reflexivity|]. by apply (each_request_sent_once mixed_messages (four_workers SHORTEST_QUEUE)). Defined.

Lemma batch_goes_everywhere_witness :
  ∃ s', request_dispatcher (four_workers ROUND_ROBIN) (BatchTokenized [plain "a"; plain "b"]) = Ok s' ∧
    workers s' = (λ w, w ++ [BatchTokenized [plain "a"; plain "b"]]) <$> workers (four_workers ROUND_ROBIN) ∧
    to_run (workers s') ≡ₚ to_run (workers (four_workers ROUND_ROBIN)) ++
      concat (replicate (length (workers (four_workers ROUND_ROBIN))) [plain "a"; plain "b"]).
Proof. apply batch_goes_everywhere. reflexivity. Defined.

Lemma external_rank_out_of_range_witness :
  event_loop (four_workers ROUND_ROBIN)
    [Tokenized {| rid := "x"; is_embedding := false; data_parallel_rank := Some 4; room := None |};
     Tokenized (plain "a")] = Err IndexError.
Proof. apply (external_rank_out_of_range _ _ 4); [reflexivity|right; vm_compute; done]. Defined.
