(* ===== verification/FutureMapSpec.v ===== *)
(** * Running with futures is running with the tokens

    The refinement theorem for [FutureMap.v], and the schedules that break its bound. *)

From S2P Require Import Prelude Tensor FutureMap.

(** ** Schedules

    A batch is a number of requests, the inputs of its forward pass and the model's
    function for it.  An input is a token that is known when the batch is
    prepared, or output [j] of batch [k]. *)
Inductive source := Tok (z : Z) | Out (k j : nat).

Record job := Job { job_bs : Z; job_inputs : list source; job_forward : list Z → list Z }.

(** The value of a source, given what the batches returned so far. *)
Definition input_of (outs : list (list Z)) (s : source) : res Z :=
  match s with
  | Tok z => Ok z
  | Out k j => of_opt IndexError (l ← outs !! k; l !! j)
  end.

(** The schedule without overlap: every batch waits for the tokens of the last. *)
Fixpoint run_direct (outs : list (list Z)) (jobs : list job) : res (list (list Z)) :=
  match jobs with
  | [] => Ok outs
  | b :: jobs' =>
      let! ids := mapM_res (input_of outs) (job_inputs b) in
      run_direct (outs ++ [job_forward b ids]) jobs'
  end.

(** The schedule with overlap: inputs are taken from the futures. *)
Fixpoint run_overlap {E} (m : FutureMap E) (futures outs : list (list Z)) (jobs : list job)
    : res (list (list Z)) :=
  match jobs with
  | [] => Ok outs
  | b :: jobs' =>
      let! ids := mapM_res (input_of futures) (job_inputs b) in
      let! '(tokens, fs, m') := run_batch_overlap (job_forward b) m (job_bs b) ids in
      run_overlap m' (futures ++ [fs]) (outs ++ [tokens]) jobs'
  end.

(** Slots allocated before batch [k]. *)
Definition allocated (jobs : list job) (k : nat) : Z := sum_Z (job_bs <$> take k jobs).

(** An input of batch [n] is usable: a token is not negative, and between an output
    and its use at most [L] slots are allocated, its own batch included. *)
Definition usable (L : Z) (jobs : list job) (n : nat) (s : source) : Prop :=
  match s with
  | Tok z => 0 ≤ z
  | Out k j => ∃ b, (k < n)%nat ∧ jobs !! k = Some b ∧ Z.of_nat j < job_bs b ∧
      allocated jobs n - allocated jobs k ≤ L
  end.

(** A valid schedule for [max_running_requests = M]. *)
Definition valid_schedule (M : Z) (jobs : list job) : Prop :=
  ∀ n b, jobs !! n = Some b →
    0 ≤ job_bs b ≤ 2 * M ∧ (∀ ids, len (job_forward b ids) = job_bs b) ∧
    Forall (usable (3 * M) jobs n) (job_inputs b).

(** ** Circular intervals *)

Lemma circular_disjoint L v1 b1 v2 b2 x :
  0 < L → 0 ≤ b1 → 0 ≤ b2 → v1 + b1 ≤ v2 → v2 + b2 ≤ v1 + L →
  v1 mod L ≤ x < v1 mod L + b1 → ¬ (v2 mod L ≤ x < v2 mod L + b2).
Proof.
  intros HL Hb1 Hb2 H12 H21 Hx Hx2.
  pose proof (Z.div_mod v1 L ltac:(lia)). pose proof (Z.div_mod v2 L ltac:(lia)).
  pose proof (Z.mod_pos_bound v1 L HL). pose proof (Z.mod_pos_bound v2 L HL).
  assert (Hq : v2 / L = v1 / L ∨ v2 / L = v1 / L + 1) by nia.
  destruct Hq as [Hq|Hq]; rewrite Hq in *; nia.
Qed.

(** A slice assignment of full length. *)
Lemma py_set_slice_zat {A} (l : list A) a b (v : list A) :
  0 ≤ a → a ≤ b ≤ len l → len v = b - a →
  ∃ l', py_set_slice l a b v = Ok l' ∧ len l' = len l ∧
    (∀ j x, zat v j = Some x → zat l' (a + j) = Some x) ∧
    (∀ i, ¬ (a ≤ i < b) → zat l' i = zat l i).
Proof.
  intros Ha Hb Hv. unfold py_set_slice, slice_bound.
  destruct (Z.ltb_spec a 0); [lia|]. destruct (Z.ltb_spec b 0); [lia|].
  rewrite !Z.min_l, Z.max_r by lia.
  assert (Hvv : match v with [x] => replicate (Z.to_nat (b - a)) x | _ => v end = v).
  { destruct v as [|x [|y v]]; try done. rewrite <- Hv. done. }
  rewrite Hvv, Hv, Z.eqb_refl. eexists. split; [done|].
  assert (Ht : len (take (Z.to_nat a) l) = a) by (unfold len; rewrite length_take; unfold len in Hb; lia).
  split_and!.
  - rewrite !len_app, Ht, Hv. unfold len. rewrite length_drop. unfold len in Hb. lia.
  - intros j x Hj. pose proof (zat_Some_bound _ _ _ Hj).
    rewrite zat_app_r, Ht, zat_app_l by lia. by replace (a + j - a) with j by lia.
  - intros i Hi. destruct (decide (i < a)) as [Hia|Hia].
    + rewrite zat_app_l by lia. rewrite zat_take by lia. done.
    + rewrite zat_app_r, Ht, zat_app_r by lia.
      destruct (decide (len l ≤ i)) as [Hil|Hil].
      * rewrite <- (take_drop (Z.to_nat b) l) at 2.
        assert (Htb : len (take (Z.to_nat b) l) = b) by (unfold len; rewrite length_take; unfold len in Hb; lia).
        rewrite zat_app_r, Htb by lia. f_equal. lia.
      * rewrite <- (take_drop (Z.to_nat b) l) at 2.
        assert (Htb : len (take (Z.to_nat b) l) = b) by (unfold len; rewrite length_take; unfold len in Hb; lia).
        rewrite zat_app_r, Htb by lia. f_equal. lia.
Qed.

(** ** Slots allocated by a schedule *)

Lemma allocated_app past b k : (k ≤ length past)%nat → allocated (past ++ [b]) k = allocated past k.
Proof. intros. unfold allocated. by rewrite take_app_le. Qed.

Lemma allocated_snoc past b :
  allocated (past ++ [b]) (length (past ++ [b])) = allocated past (length past) + job_bs b.
Proof.
  unfold allocated. rewrite !take_ge by lia. rewrite fmap_app, sum_Z_app. simpl. lia.
Qed.

Lemma allocated_le jobs i k : Forall (λ b, 0 ≤ job_bs b) jobs → (i ≤ k)%nat → allocated jobs i ≤ allocated jobs k.
Proof.
  intros Hall Hik. unfold allocated. rewrite <- (take_drop i (take k jobs)), fmap_app, sum_Z_app.
  rewrite take_take, Nat.min_l by done.
  enough (0 ≤ sum_Z (job_bs <$> drop i (take k jobs))) by lia. apply sum_Z_nonneg, Forall_fmap.
  apply Forall_drop, Forall_take. apply (Forall_impl _ _ _ Hall). done.
Qed.

Lemma allocated_S jobs k b : jobs !! k = Some b → allocated jobs (S k) = allocated jobs k + job_bs b.
Proof.
  intros Hb. unfold allocated. rewrite (take_S_r _ _ _ Hb), fmap_app, sum_Z_app. simpl. lia.
Qed.

(** ** The invariant *)

Section refinement.
Context {E : Type} (M : Z).
Let L := 3 * M.

(** After the batches [past], whose futures and tokens are [fs] and [outs]: the
    pointer is where the allocations put it, and the outputs of the recent batches
    are in their slots. *)
Record tracks (past : list job) (fs outs : list (list Z)) (m : FutureMap E) : Prop := {
  tr_algo : spec_algo m = NONE;
  tr_limit : future_limit m = L;
  tr_ct : future_ct m = allocated past (length past) mod L;
  tr_buf : ∃ buf, token_ids_buf m = Some buf ∧ len buf = 5 * M ∧
    ∀ k b, past !! k = Some b → 0 ≤ job_bs b ≤ 2 * M ∧
      ∃ f o, fs !! k = Some f ∧ outs !! k = Some o ∧ len o = job_bs b ∧
        f = Z.opp <$> py_range (allocated past k mod L + 1) (allocated past k mod L + 1 + job_bs b) ∧
        (allocated past (length past) - allocated past k ≤ L →
          ∀ j, 0 ≤ j < job_bs b → zat buf (allocated past k mod L + 1 + j) = zat o j);
  tr_len : length fs = length past ∧ length outs = length past;
}.

Lemma tracks_nonneg past fs outs m : tracks past fs outs m → Forall (λ b, 0 ≤ job_bs b) past.
Proof.
  intros [_ _ _ (buf & _ & _ & Hk) _]. apply Forall_forall. intros b [k Hb]%list_elem_of_lookup.
  destruct (Hk k b Hb) as [? _]. lia.
Qed.

(** A usable source has the same value through the map. *)
Lemma resolve_source past fs outs m buf s :
  0 < M → tracks past fs outs m → token_ids_buf m = Some buf →
  usable L past (length past) s →
  ∃ id z, input_of fs s = Ok id ∧ input_of outs s = Ok z ∧
    (let! t := py_index buf (Z.max 0 (- id)) in Ok (if id <? 0 then t else id)) = Ok z.
Proof.
  intros HM [_ _ _ (buf' & Hbuf & Hlen & Hk) _] Hb Hs. rewrite Hbuf in Hb. injection Hb as ->.
  destruct s as [z|k j]; simpl in Hs.
  - exists z, z. split_and!; [done|done|]. rewrite Z.max_l by lia.
    destruct (zat_in buf 0) as [t Ht]; [lia|]. rewrite (zat_py_index _ _ _ Ht). cbn [res_bind].
    destruct (Z.ltb_spec z 0); [lia|done].
  - destruct Hs as (b & Hkn & Hb & Hj & Hwin).
    destruct (Hk k b Hb) as (_ & f & o & Hf & Ho & Hlo & Hfeq & Hslots).
    set (v := allocated past k mod L) in *.
    assert (0 ≤ v) by (apply Z.mod_pos_bound; unfold L; lia).
    destruct (zat_in o (Z.of_nat j)) as [z Hz]; [lia|].
    exists (- (v + 1 + Z.of_nat j)), z. simpl. rewrite Hf, Ho. simpl. split_and!.
    + rewrite Hfeq, list_lookup_fmap. unfold py_range. rewrite list_lookup_fmap, lookup_seq_lt by lia. done.
    + rewrite zat_nat in Hz. by rewrite Hz.
    + rewrite Z.opp_involutive, Z.max_r by lia.
      rewrite (zat_py_index buf _ z) by (rewrite Hslots by lia; done). cbn [res_bind].
      destruct (Z.ltb_spec (- (v + 1 + Z.of_nat j)) 0); [done|lia].
Qed.

Lemma resolve_sources past fs outs m buf srcs :
  0 < M → tracks past fs outs m → token_ids_buf m = Some buf →
  Forall (usable L past (length past)) srcs →
  ∃ ids zs, mapM_res (input_of fs) srcs = Ok ids ∧ mapM_res (input_of outs) srcs = Ok zs ∧
    _resolve_future_token_ids ids buf = Ok zs.
Proof.
  intros HM Htr Hbuf. induction 1 as [|s srcs Hs _ (ids & zs & E1 & E2 & E3)].
  { exists [], []. done. }
  destruct (resolve_source past fs outs m buf s HM Htr Hbuf Hs) as (id & z & F1 & F2 & F3).
  exists (id :: ids), (z :: zs). unfold _resolve_future_token_ids in *. cbn [mapM_res].
  rewrite F1, F2, E1, E2. cbn [res_bind]. rewrite F3. cbn [res_bind]. by rewrite E3.
Qed.

(** The map after a batch that starts at slot [v + 1] and stores its tokens. *)
Definition stored_map (m : FutureMap E) (v bs : Z) (buf : list Z) : FutureMap E :=
  with_tokens (with_ct m ((v + bs) mod L)) buf.

(** One batch with resolved inputs [zs]: its tokens are stored behind the pointer. *)
Lemma overlap_batch past fs outs m buf forward bs ids zs :
  0 < M → tracks past fs outs m → token_ids_buf m = Some buf → 0 ≤ bs ≤ 2 * M → len (forward zs) = bs →
  _resolve_future_token_ids ids buf = Ok zs →
  let v := allocated past (length past) mod L in
  ∃ buf', run_batch_overlap forward m bs ids =
      Ok (forward zs, Z.opp <$> py_range (v + 1) (v + 1 + bs), stored_map m v bs buf') ∧ len buf' = len buf ∧
    (∀ j x, zat (forward zs) j = Some x → zat buf' (v + 1 + j) = Some x) ∧
    (∀ i, ¬ (v + 1 ≤ i < v + 1 + bs) → zat buf' i = zat buf i).
Proof.
  intros HM [Halg Hlim Hct (buf0 & Hbuf0 & Hlen & _) _] Hbuf Hbs Hfw E3 v. rewrite Hbuf in Hbuf0. injection Hbuf0 as <-.
  assert (HL : 0 < L) by (unfold L; lia). pose proof (Z.mod_pos_bound (allocated past (length past)) L HL) as Hv. fold v in Hv.
  destruct (py_set_slice_zat buf (v + 1) (v + 1 + bs) (forward zs)) as (buf' & Hset & Hlb & Hnew & Hold).
  { lia. } { rewrite Hlen. unfold L in Hv. lia. } { rewrite Hfw. lia. }
  exists buf'. split_and!; [|lia|done|done].
  unfold run_batch_overlap, alloc_future_indices. rewrite Hlim, Hct. fold v.
  destruct (Z.eqb_spec L 0); [lia|]. cbn [guard_raise res_bind].
  unfold resolve_future, store_to_map. cbn [spec_algo with_ct token_ids_buf]. rewrite Halg, Hbuf.
  cbn [is_eagle of_opt res_bind]. rewrite E3. cbn [res_bind interval fst snd spec_algo with_ct token_ids_buf].
  rewrite Hset. done.
Qed.

(** One batch of a valid schedule. *)
Lemma overlap_step past fs outs m b :
  0 < M → tracks past fs outs m → 0 ≤ job_bs b ≤ 2 * M → (∀ ids, len (job_forward b ids) = job_bs b) →
  Forall (usable L past (length past)) (job_inputs b) →
  ∃ ids zs f m', mapM_res (input_of fs) (job_inputs b) = Ok ids ∧
    mapM_res (input_of outs) (job_inputs b) = Ok zs ∧
    run_batch_overlap (job_forward b) m (job_bs b) ids = Ok (job_forward b zs, f, m') ∧
    tracks (past ++ [b]) (fs ++ [f]) (outs ++ [job_forward b zs]) m'.
Proof.
  intros HM Htr Hbs Hfw Hin. pose proof Htr as [Halg Hlim Hct (buf & Hbuf & Hlen & Hk) [Hlf Hlo]].
  pose proof (tracks_nonneg _ _ _ _ Htr) as Hnn.
  destruct (resolve_sources past fs outs m buf (job_inputs b) HM Htr Hbuf Hin) as (ids & zs & E1 & E2 & E3).
  destruct (overlap_batch past fs outs m buf (job_forward b) (job_bs b) ids zs HM Htr Hbuf Hbs (Hfw zs) E3)
    as (buf' & Erun & Hlb & Hnew & Hold).
  set (V := allocated past (length past)) in *. assert (HL : 0 < L) by (unfold L; lia).
  pose proof (Z.mod_pos_bound V L HL) as Hv. set (v := V mod L) in *.
  exists ids, zs, (Z.opp <$> py_range (v + 1) (v + 1 + job_bs b)), (stored_map m v (job_bs b) buf').
  split_and!; [done|done|exact Erun|].
  - unfold stored_map. split; cbn [spec_algo future_limit future_ct token_ids_buf with_ct with_tokens].
    + done.
    + done.
    + rewrite allocated_snoc. unfold v. by rewrite Z.add_mod_idemp_l by lia.
    + exists buf'. split; [done|]. split; [lia|]. intros k c Hc. rewrite allocated_snoc.
      destruct (decide (k < length past)%nat) as [Hkp|Hkp].
      * rewrite lookup_app_l in Hc by done. destruct (Hk k c Hc) as (Hcb & f & o & Hf & Ho & Hlno & Hfe & Hslots).
        split; [done|]. exists f, o. rewrite !lookup_app_l by lia. rewrite allocated_app by lia.
        split_and!; [done..|]. intros Hw j Hj. rewrite <- Hslots by lia. apply Hold.
        intros Hj2. pose proof (allocated_le past (S k) (length past) Hnn ltac:(lia)) as Hle.
        rewrite (allocated_S _ _ _ Hc) in Hle.
        apply (circular_disjoint L (allocated past k) (job_bs c) V (job_bs b) (allocated past k mod L + j));
          [lia..|fold v; lia].
      * assert (k = length past) as ->.
        { apply lookup_lt_Some in Hc. rewrite length_app in Hc. simpl in Hc. lia. }
        rewrite lookup_app_r, Nat.sub_diag in Hc by lia. injection Hc as <-.
        split; [done|]. do 2 eexists. rewrite allocated_app by lia. fold V v.
        rewrite <- Hlf at 1. rewrite lookup_app_r, Nat.sub_diag by lia.
        rewrite <- Hlo at 1. rewrite lookup_app_r, Nat.sub_diag by lia. cbn.
        split_and!; [done|done|by rewrite Hfw|done|]. intros _ j Hj.
        destruct (zat_in (job_forward b zs) j) as [x Hx]; [rewrite Hfw; lia|].
        rewrite Hx. by apply Hnew.
    + rewrite !length_app. simpl. lia.
Qed.

Lemma usable_prefix past b rest s :
  usable L (past ++ b :: rest) (length past) s → usable L past (length past) s.
Proof.
  destruct s as [z|k j]; simpl; [done|]. intros (c & Hk & Hc & Hj & Hw). exists c.
  rewrite lookup_app_l in Hc by done. split_and!; [done..|].
  unfold allocated in *. rewrite !take_app_le in Hw by lia. done.
Qed.

Lemma run_direct_app jobs rest : ∀ outs, run_direct outs (jobs ++ rest) = let! outs := run_direct outs jobs in run_direct outs rest.
Proof.
  induction jobs as [|b jobs IH]; intros outs; [done|]. cbn [app run_direct].
  destruct (mapM_res _ _); [|done]. cbn [res_bind]. apply IH.
Qed.

(** A valid schedule runs, and whatever comes behind it starts from a map that tracks it. *)
Lemma overlap_run jobs : ∀ past fs outs m,
  0 < M → tracks past fs outs m → valid_schedule M (past ++ jobs) →
  ∃ tokens fs' m', run_direct outs jobs = Ok tokens ∧ tracks (past ++ jobs) fs' tokens m' ∧
    ∀ rest, run_overlap m fs outs (jobs ++ rest) = run_overlap m' fs' tokens rest.
Proof.
  induction jobs as [|b jobs IH]; intros past fs outs m HM Htr Hval; [exists outs, fs, m; by rewrite app_nil_r|].
  destruct (Hval (length past) b) as (Hbs & Hfw & Hin).
  { by rewrite lookup_app_r, Nat.sub_diag by lia. }
  destruct (overlap_step past fs outs m b HM Htr Hbs Hfw) as (ids & zs & f & m1 & E1 & E2 & E3 & Htr').
  { apply (Forall_impl _ _ _ Hin). intros s. apply usable_prefix. }
  destruct (IH (past ++ [b]) (fs ++ [f]) (outs ++ [job_forward b zs]) m1 HM Htr') as (tokens & fs' & m' & F1 & F2 & F3).
  { by rewrite <- app_assoc. }
  exists tokens, fs', m'. rewrite <- app_assoc in F2. split_and!; [|exact F2|].
  - cbn [run_direct]. rewrite E2. exact F1.
  - intros rest. cbn [app run_overlap]. rewrite E1. cbn [res_bind]. rewrite E3. apply F3.
Qed.

(** A source whose slot was used again since then resolves to the newer token. *)
Lemma reused_slot past fs outs m k j b k' j' b' bs f :
  0 < M → tracks past fs outs m → past !! k = Some b → past !! k' = Some b' →
  Z.of_nat j < job_bs b → Z.of_nat j' < job_bs b' →
  allocated past k mod L + Z.of_nat j = allocated past k' mod L + Z.of_nat j' →
  allocated past (length past) - allocated past k' ≤ L → 0 ≤ bs ≤ 2 * M → (∀ ids, len (f ids) = bs) →
  ∃ z z', (outs !! k ≫= (.!! j)) = Some z ∧ (outs !! k' ≫= (.!! j')) = Some z' ∧
    run_direct outs [Job bs [Out k j] f] = Ok (outs ++ [f [z]]) ∧
    run_overlap m fs outs [Job bs [Out k j] f] = Ok (outs ++ [f [z']]).
Proof.
  intros HM Htr Hb Hb' Hj Hj' Hslot Hwin Hbs Hf. pose proof Htr as [_ _ _ (buf & Hbuf & Hlen & Hk) _].
  destruct (Hk k b Hb) as (_ & fk & o & Hfk & Ho & Hlo & Hfeq & _). destruct (Hk k' b' Hb') as (_ & _ & o' & _ & Ho' & Hlo' & _ & Hslots).
  set (v := allocated past k mod L) in *. set (v' := allocated past k' mod L) in *.
  assert (0 ≤ v) by (apply Z.mod_pos_bound; unfold L; lia).
  destruct (zat_in o (Z.of_nat j)) as [z Hz]; [lia|]. destruct (zat_in o' (Z.of_nat j')) as [z' Hz']; [lia|].
  rewrite zat_nat in Hz. exists z, z'. rewrite Ho, Ho'. cbn [mbind option_bind]. rewrite <- (zat_nat o' j'). split_and!; [done|done| |].
  - cbn [run_direct job_inputs mapM_res input_of job_forward]. rewrite Ho. cbn [mbind option_bind]. by rewrite Hz.
  - destruct (overlap_batch past fs outs m buf f bs [- (v + 1 + Z.of_nat j)] [z'] HM Htr Hbuf Hbs (Hf _)) as (buf' & Erun & _).
    { unfold _resolve_future_token_ids. cbn [mapM_res]. rewrite Z.opp_involutive, Z.max_r by lia.
      rewrite (zat_py_index buf _ z'); [|replace (v + 1 + Z.of_nat j) with (v' + 1 + Z.of_nat j') by lia; by rewrite Hslots by lia].
      cbn [res_bind]. by destruct (Z.ltb_spec (- (v + 1 + Z.of_nat j)) 0); [|lia]. }
    cbn [run_overlap job_inputs mapM_res input_of job_forward job_bs]. rewrite Hfk. cbn [mbind option_bind].
    assert (fk !! j = Some (- (v + 1 + Z.of_nat j))) as ->.
    { rewrite Hfeq, list_lookup_fmap. unfold py_range. rewrite list_lookup_fmap, lookup_seq_lt by lia. done. }
    cbn [of_opt res_bind]. by rewrite Erun.
Qed.

(** The map before the first batch. *)
Lemma init_tracks (torch_empty : Z → list Z) : (∀ n, 0 ≤ n → len (torch_empty n) = n) → 0 < M → tracks [] [] [] (init torch_empty M NONE).
Proof.
  intros Hempty HM.
  split; cbn [spec_algo future_limit future_ct token_ids_buf init is_none]; [done|unfold L; lia|done| |done].
  eexists. split; [done|]. split; [rewrite Hempty; lia|]. intros k b Hb. by rewrite lookup_nil in Hb.
Qed.
End refinement.

(** C34. Overlap scheduling refines the schedule that waits: on a valid schedule both
    run to the end, every forward pass gets the same inputs, and the batches return
    the same tokens.  Valid means: at most [2 * M] requests in a batch, and at most
    [3 * M] slots allocated from an output to its use, for [M =
    max_running_requests]. *)
Theorem overlap_refines_direct {E : Type} (torch_empty : Z → list Z) (M : Z) (jobs : list job) :
  (∀ n, 0 ≤ n → len (torch_empty n) = n) → 0 < M → valid_schedule M jobs →
  ∃ tokens, run_direct [] jobs = Ok tokens ∧
    run_overlap (E := E) (init torch_empty M NONE) [] [] jobs = Ok tokens.
Proof.
  intros Hempty HM Hval. destruct (overlap_run (E := E) M jobs [] [] [] _ HM (init_tracks M torch_empty Hempty HM) Hval)
    as (tokens & fs & m & E1 & _ & E2). exists tokens. split; [done|]. specialize (E2 []). by rewrite app_nil_r in E2.
Qed.

(** ** A prefill in many chunks *)

(** A running request got the token [first]; its next decode step comes after [n]
    chunks of other prompts, one request each, that return [chunk 0], [chunk 1], ... *)
Definition chunk_jobs (chunk : nat → Z) (n : nat) : list job := (λ i, Job 1 [Tok (Z.of_nat i)] (λ _, [chunk i])) <$> seq 0 n.

Definition first_then_chunks (first : Z) (chunk : nat → Z) (n : nat) : list job :=
  Job 1 [Tok 0] (λ _, [first]) :: chunk_jobs chunk n.

Definition decode_after_chunks (first : Z) (chunk : nat → Z) (n : nat) (decode : list Z → list Z) : list job :=
  first_then_chunks first chunk n ++ [Job 1 [Out 0 0] decode].

Lemma first_then_chunks_lookup first chunk n k b : first_then_chunks first chunk n !! k = Some b →
  job_bs b = 1 ∧ (∃ i, job_inputs b = [Tok (Z.of_nat i)]) ∧ ∃ t, job_forward b = (λ _, [t]).
Proof.
  destruct k as [|k]; [intros [= <-]; split_and!; [done|by exists 0%nat|by eexists]|].
  intros (i & -> & _)%list_lookup_fmap_Some. split_and!; [done|by eexists|by eexists].
Qed.

Lemma first_then_chunks_valid M first chunk n : 0 < M → valid_schedule M (first_then_chunks first chunk n).
Proof.
  intros HM k b (Hbs & (i & Hi) & t & Ht)%first_then_chunks_lookup. rewrite Hbs, Hi, Ht.
  split_and!; [lia|lia|done|]. constructor; [cbn; lia|constructor].
Qed.

Lemma first_then_chunks_allocated first chunk n k : (k ≤ S n)%nat → allocated (first_then_chunks first chunk n) k = Z.of_nat k.
Proof.
  induction k as [|k IH]; intros Hk; [done|].
  destruct (lookup_lt_is_Some_2 (first_then_chunks first chunk n) k) as [b Hb].
  { unfold first_then_chunks, chunk_jobs. cbn. rewrite length_fmap, length_seq. lia. }
  rewrite (allocated_S _ _ _ Hb), IH by lia. destruct (first_then_chunks_lookup _ _ _ _ _ Hb) as [-> _]. lia.
Qed.

Lemma first_then_chunks_direct first chunk n :
  run_direct [] (first_then_chunks first chunk n) = Ok ([first] :: ((λ i, [chunk i]) <$> seq 0 n)).
Proof.
  assert (H : ∀ l outs, run_direct outs ((λ i, Job 1 [Tok (Z.of_nat i)] (λ _, [chunk i])) <$> l) = Ok (outs ++ ((λ i, [chunk i]) <$> l))).
  { induction l as [|i l IH]; intros outs; [cbn; by rewrite app_nil_r|]. cbn. rewrite IH. by rewrite <- app_assoc. }
  unfold first_then_chunks. cbn. apply H.
Qed.

(** C35. The bound is needed, and the scheduler does not keep it: chunks of long
    prompts run one after the other while the running requests wait for their next
    decode step.  With [M = max_running_requests], [3 * M] chunks or more use the
    running request's slot again, and its decode step is fed the token of the last
    chunk that did, instead of its own. *)
Theorem long_prefill_overwrites {E : Type} (torch_empty : Z → list Z) (M : Z) first chunk n decode :
  (∀ k, 0 ≤ k → len (torch_empty k) = k) → 0 < M → 3 * M ≤ Z.of_nat n → (∀ ids, len (decode ids) = 1) →
  let jobs := decode_after_chunks first chunk n decode in
  let outs := [first] :: ((λ i, [chunk i]) <$> seq 0 n) in
  let last := Z.to_nat (3 * M * (Z.of_nat n / (3 * M)) - 1) in
  run_direct [] jobs = Ok (outs ++ [decode [first]]) ∧
  run_overlap (E := E) (init torch_empty M NONE) [] [] jobs = Ok (outs ++ [decode [chunk last]]).
Proof.
  intros Hempty HM Hn Hdec jobs outs last. set (past := first_then_chunks first chunk n).
  assert (Hlen : length past = S n) by (unfold past, first_then_chunks, chunk_jobs; cbn; by rewrite length_fmap, length_seq).
  destruct (overlap_run (E := E) M past [] [] [] _ HM (init_tracks M torch_empty Hempty HM) (first_then_chunks_valid M first chunk n HM))
    as (tokens & fs & m & E1 & Htr & E2).
  unfold past in E1. rewrite first_then_chunks_direct in E1. injection E1 as <-.
  pose proof (Z.div_mod (Z.of_nat n) (3 * M) ltac:(lia)) as Hdm. pose proof (Z.mod_pos_bound (Z.of_nat n) (3 * M) ltac:(lia)).
  set (q := Z.of_nat n / (3 * M)) in *. assert (Hq : 1 ≤ q) by nia.
  assert (Hlast : Z.of_nat last = 3 * M * q - 1) by (unfold last; nia). clearbody last.
  destruct (lookup_lt_is_Some_2 past (S last)) as [b' Hb']; [rewrite Hlen; nia|].
  destruct (reused_slot M past fs _ m 0 0 (Job 1 [Tok 0] (λ _, [first])) (S last) 0 b' 1 decode HM Htr) as (z & z' & Hz & Hz' & F1 & F2);
    [done|done|done|by destruct (first_then_chunks_lookup _ _ _ _ _ Hb') as [-> _]| | |lia|done|].
  - unfold past. rewrite !first_then_chunks_allocated by nia. rewrite Z.mod_0_l by lia.
    replace (Z.of_nat (S last)) with (q * (3 * M)) by lia. by rewrite Z.mod_mul by lia.
  - rewrite Hlen. unfold past. rewrite !first_then_chunks_allocated by nia. lia.
  - cbn in Hz. injection Hz as <-. change ((((λ i, [chunk i]) <$> seq 0 n) !! last ≫= (.!! 0%nat)) = Some z') in Hz'.
    rewrite list_lookup_fmap, lookup_seq_lt in Hz' by nia. injection Hz' as <-.
    unfold jobs, decode_after_chunks. fold past. rewrite run_direct_app. unfold past at 1. rewrite first_then_chunks_direct, E2.
    split; [exact F1|exact F2].
Qed.

(** Six chunks are enough for two running requests. *)
Lemma long_prefill_overwrites_witness :
  let jobs := decode_after_chunks 100 (λ i, 200 + Z.of_nat i) 6 (λ ids, [default 0 (head ids)]) in
  run_direct [] jobs = Ok [[100]; [200]; [201]; [202]; [203]; [204]; [205]; [100]] ∧
  run_overlap (E := unit) (init (λ n, replicate (Z.to_nat n) 0) 2 NONE) [] [] jobs =
    Ok [[100]; [200]; [201]; [202]; [203]; [204]; [205]; [205]].
Proof.
  apply (long_prefill_overwrites (λ n, replicate (Z.to_nat n) 0) 2 100 (λ i, 200 + Z.of_nat i) 6 (λ ids, [default 0 (head ids)]));
    [intros k Hk; rewrite len_replicate; lia|lia|lia|done].
Defined.

Lemma overlap_refines_direct_witness :
  ∃ tokens, run_direct [] (decode_after_chunks 100 (λ i, 200 + Z.of_nat i) 5 (λ ids, [default 0 (head ids)])) = Ok tokens ∧
    run_overlap (E := unit) (init (λ n, replicate (Z.to_nat n) 0) 2 NONE) [] [] (decode_after_chunks 100 (λ i, 200 + Z.of_nat i) 5 (λ ids, [default 0 (head ids)])) = Ok tokens.
Proof.
  apply overlap_refines_direct; [intros n Hn; rewrite len_replicate; lia|lia|].
  intros n b Hb. assert (Hin : (n < 7)%nat) by (apply lookup_lt_Some in Hb; done).
  do 7 (destruct n as [|n]; [injection Hb as <-; cbn; split; [lia|]; split; [intros; try done|];
    repeat constructor; cbn; try lia; try (eexists; split_and!; [|reflexivity|..]; cbn; lia)|]).
  lia.
Defined.
