(* ===== verification/ExpertUpdate.v ===== *)
(** * Moving experts between devices ([eplb/expert_location_updater.py])

    When the balancer has chosen a new placement, every rank runs
    [update_expert_weights_single_layer] with the same two maps: it finds out which
    experts it lacks, from whom it gets each of them, and to whom it sends the ones
    it has; all ranks then exchange the weights point to point, and copy what
    arrived from the buffers over their old weights.  The ranks do not talk to each
    other about the plan, so their computations have to agree.

    The weights of a layer are [num_tensors] tensors with a row per local physical
    expert; [A] is the type of a row.  The exchange is a parameter, the class
    [P2P]. *)

From S2P Require Import Prelude Tensor ExpertLoad.

(** ** [_ChunkUtils] *)

Record _ChunkUtils := { chunk_values : list Z; element_values : list Z }.

Definition py_divmod (a b : Z) : res (Z * Z) :=
  if b =? 0 then Err ZeroDivisionError else Ok (a / b, a mod b).

(** [list.index]. *)
Fixpoint py_list_index (l : list Z) (x : Z) : res Z :=
  match l with
  | [] => Err ValueError
  | y :: l' => if y =? x then Ok 0 else let! i := py_list_index l' x in Ok (1 + i)
  end.

Definition _chunk_index_from_element_index (num_elements num_chunks element_index : Z) : res Z :=
  let! '(short_chunk_size, num_long_chunks) := py_divmod num_elements num_chunks in
  let num_elements_for_long_chunks := num_long_chunks * (short_chunk_size + 1) in
  if element_index <? num_elements_for_long_chunks then
    py_div element_index (short_chunk_size + 1)
  else
    let! q := py_div (element_index - num_elements_for_long_chunks) short_chunk_size in
    Ok (num_long_chunks + q).

Definition _element_slice_from_chunk_index (num_elements num_chunks chunk_index : Z) : res (Z * Z) :=
  let! '(short_chunk_size, num_long_chunks) := py_divmod num_elements num_chunks in
  let start := chunk_index * short_chunk_size + Z.min chunk_index num_long_chunks in
  Ok (start, start + short_chunk_size + (if chunk_index <? num_long_chunks then 1 else 0)).

Definition chunk_value_from_element_value (c : _ChunkUtils) (element_value : Z) : res Z :=
  let! i := py_list_index (element_values c) element_value in
  let! chunk_index := _chunk_index_from_element_index (len (element_values c)) (len (chunk_values c)) i in
  py_index (chunk_values c) chunk_index.

Definition element_values_from_chunk_value (c : _ChunkUtils) (chunk_value : Z) : res (list Z) :=
  if len (element_values c) =? 0 then Ok []
  else
    let! i := py_list_index (chunk_values c) chunk_value in
    let! '(start, stop) :=
      _element_slice_from_chunk_index (len (element_values c)) (len (chunk_values c)) i in
    Ok (py_slice (element_values c) start stop).

(** Equal neighbours become one. *)
Fixpoint _deduplicate_ordered (arr : list Z) : list Z :=
  match arr with
  | x :: (y :: _) as l => if x =? y then _deduplicate_ordered l else x :: _deduplicate_ordered l
  | _ => arr
  end.

(** ** Who needs an expert from whom *)

(** The arguments of the call that do not change. *)
Record ctx := {
  old_physical_to_logical_map : list Z;
  new_physical_to_logical_map : list Z;
  num_local_physical_experts : Z;
  num_gpu_per_node : Z;
  rank : Z;
  num_tensors : Z;
}.

Definition num_physical_experts (c : ctx) : Z := len (old_physical_to_logical_map c).
Definition self_node_id (c : ctx) : Z := rank c / num_gpu_per_node c.
Definition local_range (c : ctx) : list Z :=
  py_range (rank c * num_local_physical_experts c) ((rank c + 1) * num_local_physical_experts c).

(** [[x for x in range(n) if m[x] == e]]. *)
Definition locations_of (m : list Z) (n e : Z) : res (list Z) :=
  let! vs := mapM_res (py_index m) (py_range 0 n) in
  Ok (List.filter (λ p : Z * Z, p.2 =? e) (zip (py_range 0 n) vs)).*1.

Definition mem (x : Z) (l : list Z) : bool := existsb (Z.eqb x) l.

Definition _compute_comm_info (c : ctx) (logical_expert_id : Z)
    : res (_ChunkUtils * _ChunkUtils * list Z) :=
  let rank_of x := x / num_local_physical_experts c in
  let node_of x := x / num_gpu_per_node c in
  let! src_locations := locations_of (old_physical_to_logical_map c) (num_physical_experts c) logical_expert_id in
  let all_src_ranks := _deduplicate_ordered (rank_of <$> src_locations) in
  let all_src_nodes := node_of <$> all_src_ranks in
  let self_node_src_ranks := List.filter (λ x, node_of x =? self_node_id c) all_src_ranks in
  let! dst_locations := locations_of (new_physical_to_logical_map c) (num_physical_experts c) logical_expert_id in
  let need_comm_dst_ranks := _deduplicate_ordered
    (rank_of <$> List.filter (λ x, negb (mem (rank_of x) all_src_ranks)) dst_locations) in
  let need_comm_self_node_dst_ranks :=
    if 0 <? len self_node_src_ranks
    then List.filter (λ x, node_of x =? self_node_id c) need_comm_dst_ranks else [] in
  let need_comm_cross_node_dst_ranks :=
    List.filter (λ x, negb (mem (node_of x) all_src_nodes)) need_comm_dst_ranks in
  Ok ({| chunk_values := self_node_src_ranks; element_values := need_comm_self_node_dst_ranks |},
      {| chunk_values := all_src_ranks; element_values := need_comm_cross_node_dst_ranks |},
      need_comm_self_node_dst_ranks).

(** ** Tensors and operations *)

Section weights.
Context {A : Type}.

Definition _get_local_expert_location (c : ctx) (expert_location : Z) : res Z :=
  let! _ := py_assert ((rank c * num_local_physical_experts c <=? expert_location) &&
                       (expert_location <? (rank c + 1) * num_local_physical_experts c)) in
  Ok (expert_location mod num_local_physical_experts c).

Definition _get_tensor (c : ctx) (tensors : list (list A)) (i expert_location : Z) : res A :=
  let! t := py_index tensors i in
  let! l := _get_local_expert_location c expert_location in
  py_index t l.

(** [_get_tensor(tensors, i, loc).copy_(x)]. *)
Definition copy_to (c : ctx) (tensors : list (list A)) (i expert_location : Z) (x : A) : res (list (list A)) :=
  let! t := py_index tensors i in
  let! l := _get_local_expert_location c expert_location in
  let! t' := py_set_index t l x in
  py_set_index tensors i t'.

(** A send of a row of the weights, a receive into a row of the buffers. *)
Inductive P2POp :=
  | isend (i expert_location peer : Z)
  | irecv (i expert_location peer : Z).

(** What [_handle_recv] and [_create_isend_ops] fill in. *)
Record plan := {
  temp_buffers : list (list A);
  buffer2weight_copy_infos : list (Z * Z);
  p2p_op_infos : list (Z * list P2POp);
}.

(** The first location of a range with expert [e] in a map. *)
Fixpoint find_location (m : list Z) (range : list Z) (e : Z) : res (option Z) :=
  match range with
  | [] => Ok None
  | x :: range' => let! v := py_index m x in if v =? e then Ok (Some x) else find_location m range' e
  end.

Definition _create_p2p_recv_and_buffer2weight_copy (c : ctx) (p : plan)
    (logical_expert_id src_rank dst_expert_location : Z) : plan :=
  {| temp_buffers := temp_buffers p;
     p2p_op_infos := p2p_op_infos p ++
       [(logical_expert_id, (λ i, irecv i dst_expert_location src_rank) <$> py_range 0 (num_tensors c))];
     buffer2weight_copy_infos := buffer2weight_copy_infos p ++ [(dst_expert_location, dst_expert_location)] |}.

Definition _handle_recv_of_dst_expert_location (c : ctx) (weights : list (list A)) (p : plan)
    (dst_expert_location : Z) : res plan :=
  let! logical_expert_id := py_index (new_physical_to_logical_map c) dst_expert_location in
  let! old_id := py_index (old_physical_to_logical_map c) dst_expert_location in
  (* case 1: unchanged *)
  if old_id =? logical_expert_id then Ok p
  else
  (* case 2: same-gpu *)
  let! same_gpu := find_location (old_physical_to_logical_map c) (local_range c) logical_expert_id in
  match same_gpu with
  | Some src_expert_location =>
      let! temp := fold_res (λ temp i,
          let! x := _get_tensor c weights i src_expert_location in
          copy_to c temp i dst_expert_location x)
        (temp_buffers p) (py_range 0 (num_tensors c)) in
      Ok {| temp_buffers := temp; p2p_op_infos := p2p_op_infos p;
            buffer2weight_copy_infos :=
              buffer2weight_copy_infos p ++ [(dst_expert_location, dst_expert_location)] |}
  | None =>
  (* case 3: free-rider *)
  let! rider := find_location (new_physical_to_logical_map c)
    (py_range (rank c * num_local_physical_experts c) dst_expert_location) logical_expert_id in
  match rider with
  | Some src_expert_location =>
      Ok {| temp_buffers := temp_buffers p; p2p_op_infos := p2p_op_infos p;
            buffer2weight_copy_infos :=
              buffer2weight_copy_infos p ++ [(src_expert_location, dst_expert_location)] |}
  | None =>
  let! '(same_node_mapping, cross_node_mapping, need_comm_self_node_dst_ranks) :=
    _compute_comm_info c logical_expert_id in
  (* case 4: same-node, case 5: cross-node *)
  let! chosen_src_rank :=
    (if mem (rank c) need_comm_self_node_dst_ranks
     then chunk_value_from_element_value same_node_mapping (rank c)
     else chunk_value_from_element_value cross_node_mapping (rank c)) in
  Ok (_create_p2p_recv_and_buffer2weight_copy c p logical_expert_id chosen_src_rank dst_expert_location)
  end
  end.

Definition _handle_recv (c : ctx) (weights : list (list A)) (p : plan) : res plan :=
  fold_res (_handle_recv_of_dst_expert_location c weights) p (local_range c).

Definition _create_isend_ops_of_logical_expert_id (c : ctx) (p : plan) (logical_expert_id src_expert_location : Z)
    : res plan :=
  let! '(same_node_mapping, cross_node_mapping, _) := _compute_comm_info c logical_expert_id in
  let! same_node_dst_ranks := element_values_from_chunk_value same_node_mapping (rank c) in
  let! cross_node_dst_ranks := element_values_from_chunk_value cross_node_mapping (rank c) in
  let all_dst_ranks := same_node_dst_ranks ++ cross_node_dst_ranks in
  Ok {| temp_buffers := temp_buffers p; buffer2weight_copy_infos := buffer2weight_copy_infos p;
        p2p_op_infos := p2p_op_infos p ++
          [(logical_expert_id,
            concat ((λ dst_rank, (λ i, isend i src_expert_location dst_rank) <$> py_range 0 (num_tensors c))
                    <$> all_dst_ranks))] |}.

Definition _create_isend_ops (c : ctx) (p : plan) : res plan :=
  let! '(p, _) := fold_res (λ '(p, handled) src_expert_location,
      let! logical_expert_id := py_index (old_physical_to_logical_map c) src_expert_location in
      if mem logical_expert_id handled then Ok (p, handled)
      else
        let! p := _create_isend_ops_of_logical_expert_id c p logical_expert_id src_expert_location in
        Ok (p, logical_expert_id :: handled))
    (p, []) (local_range c) in
  Ok p.

(** The operations of a rank in the order they are issued. *)
Definition issued_ops (p : plan) : list P2POp :=
  concat (py_sort (λ a b : Z * list P2POp, a.1 <? b.1) (p2p_op_infos p)).*2.

(** Everything before the exchange. *)
Definition prepare (c : ctx) (weights temp : list (list A)) : res plan :=
  let! _ := py_assert (forallb (λ t, len t =? num_local_physical_experts c) weights) in
  let! _ := guard_raise (num_gpu_per_node c =? 0) ZeroDivisionError in
  let! p := _handle_recv c weights
    {| temp_buffers := temp; buffer2weight_copy_infos := []; p2p_op_infos := [] |} in
  _create_isend_ops c p.

(** ** The exchange

    An operation on the wire: a value to a peer, or a receive from a peer.
    [batch_isend_irecv] gets the operations of all ranks and returns for every rank
    the values of its receives in order, or nothing when it never completes. *)
Inductive wire := Send (v : A) (peer : Z) | Recv (peer : Z).

Definition on_wire (c : ctx) (weights : list (list A)) (op : P2POp) : res wire :=
  match op with
  | isend i loc peer => let! v := _get_tensor c weights i loc in Ok (Send v peer)
  | irecv _ _ peer => Ok (Recv peer)
  end.

(** Received rows go to the buffers. *)
Fixpoint store_received (c : ctx) (temp : list (list A)) (ops : list P2POp) (vals : list A) : res (list (list A)) :=
  match ops with
  | [] => Ok temp
  | isend _ _ _ :: ops' => store_received c temp ops' vals
  | irecv i loc _ :: ops' =>
      match vals with
      | [] => Err RuntimeError
      | v :: vals' => let! temp := copy_to c temp i loc v in store_received c temp ops' vals'
      end
  end.

Definition _execute_buffer2weight_copies (c : ctx) (weights temp : list (list A)) (copies : list (Z * Z))
    : res (list (list A)) :=
  fold_res (λ weights '(temp_buffers_expert_location, routed_experts_weights_expert_location),
    fold_res (λ weights i,
        let! x := _get_tensor c temp i temp_buffers_expert_location in
        copy_to c weights i routed_experts_weights_expert_location x)
      weights (py_range 0 (num_tensors c)))
    weights copies.

(** The end of a rank's call, with the values it received: the weights and what is
    left in the buffers. *)
Definition finish (c : ctx) (weights : list (list A)) (p : plan) (vals : list A)
    : res (list (list A) * list (list A)) :=
  let! temp := store_received c (temp_buffers p) (issued_ops p) vals in
  let! weights := _execute_buffer2weight_copies c weights temp (buffer2weight_copy_infos p) in
  Ok (weights, temp).

End weights.
Arguments plan A : clear implicits.
Arguments wire A : clear implicits.

(** ** All ranks

    The values sent by a rank to a peer, and the values received from a peer, in
    order. *)
Definition sent_to {A} (d : Z) (ops : list (wire A)) : list A :=
  omap (λ w, match w with Send v peer => if peer =? d then Some v else None | _ => None end) ops.

Definition recv_peers {A} (ops : list (wire A)) : list Z :=
  omap (λ w, match w with Recv peer => Some peer | _ => None end) ops.

Definition received_from {A} (s : Z) (ops : list (wire A)) (vals : list A) : list A :=
  (List.filter (λ p : Z * A, p.1 =? s) (zip (recv_peers ops) vals)).*2.

Class P2P := batch_isend_irecv : ∀ A : Type, list (list (wire A)) → option (list (list A)).

Definition send_peers {A} (ops : list (wire A)) : list Z :=
  omap (λ w, match w with Send _ peer => Some peer | _ => None end) ops.

(** Messages between two ranks arrive in the order of the sends: when every rank
    receives from every other as often as that one sends to it, all complete. *)
Class P2PLaws `{P2P} : Prop := exchange_matched : ∀ A (ops : list (list (wire A))),
  (∀ s d os od, zat ops s = Some os → zat ops d = Some od →
    length (sent_to d os) = length (List.filter (λ p, p =? s) (recv_peers od))) →
  (∀ d od, zat ops d = Some od →
    Forall (λ p, 0 ≤ p < len ops) (recv_peers od) ∧ Forall (λ p, 0 ≤ p < len ops) (send_peers od)) →
  ∃ vals, batch_isend_irecv A ops = Some vals ∧ len vals = len ops ∧
    ∀ d od vd, zat ops d = Some od → zat vals d = Some vd →
      length vd = length (recv_peers od) ∧
      ∀ s os, zat ops s = Some os → received_from s od vd = sent_to d os.

Section all_ranks.
Context {A : Type} `{P2P}.

Definition ctx_of (old new : list Z) (num_local num_gpus num_tensors r : Z) : ctx :=
  {| old_physical_to_logical_map := old; new_physical_to_logical_map := new;
     num_local_physical_experts := num_local; num_gpu_per_node := num_gpus; rank := r;
     num_tensors := num_tensors |}.

(** The call of [update_expert_weights_single_layer] on every rank, with the
    arguments of each; the weights and buffers that they leave. *)
Definition update_expert_weights_single_layer (cs : list ctx) (weights temps : list (list (list A)))
    : res (list (list (list A) * list (list A))) :=
  let! plans := mapM_res (λ '(c, (w, t)), prepare c w t) (zip cs (zip weights temps)) in
  let! wires := mapM_res (λ '(c, (w, p)), mapM_res (on_wire c w) (issued_ops p))
    (zip cs (zip weights plans)) in
  let! vals := of_opt RuntimeError (batch_isend_irecv A wires) in
  mapM_res (λ '(c, (w, (p, v))), finish c w p v) (zip cs (zip weights (zip plans vals))).

End all_ranks.
