(* ===== verification/ExpertUpdateChunks.v ===== *)
(** * The ranks agree on the transfers

    [_ChunkUtils] cuts the list of destinations into as many consecutive chunks as
    there are sources, of sizes that differ by at most one.  Every rank computes
    sources and destinations on its own; [comm_agree]: rank [s] sends expert [e] to
    rank [d] exactly when [d] needs [e] and expects it from [s]. *)

From S2P Require Import Prelude Tensor ExpertLoad ExpertPacking ExpertUpdate.

(** ** Slices and indices *)

Lemma py_list_index_ok l x : x ∈ l → ∃ i, py_list_index l x = Ok i ∧ zat l i = Some x.
Proof.
  induction l as [|y l IH]; intros Hx; [by apply not_elem_of_nil in Hx|]. simpl.
  destruct (Z.eqb_spec y x) as [->|Hne]; [by exists 0|].
  apply elem_of_cons in Hx as [->|Hx]; [done|]. destruct (IH Hx) as (i & -> & Hi).
  exists (1 + i). split; [done|]. pose proof (zat_Some_bound _ _ _ Hi).
  change (y :: l) with ([y] ++ l). rewrite zat_app_r by (unfold len; simpl; lia).
  rewrite <- Hi. f_equal. unfold len. simpl. lia.
Qed.

Lemma elem_of_py_slice {A} (l : list A) a b x : 0 ≤ a ≤ b → b ≤ len l →
  x ∈ py_slice l a b ↔ ∃ i, a ≤ i < b ∧ zat l i = Some x.
Proof.
  intros Ha Hb. rewrite py_slice_drop_take by lia. split.
  - intros [i Hi]%list_elem_of_lookup. rewrite lookup_drop in Hi.
    apply lookup_take_Some in Hi as [Hi Hlt]. exists (a + Z.of_nat i). split; [lia|].
    rewrite <- (Z2Nat.id a), <- Nat2Z.inj_add, zat_nat by lia. done.
  - intros (i & Hi & Hx). apply list_elem_of_lookup. exists (Z.to_nat (i - a)).
    rewrite lookup_drop. rewrite <- (Z2Nat.id i), zat_nat in Hx by lia.
    replace (Z.to_nat a + Z.to_nat (i - a))%nat with (Z.to_nat i) by lia.
    apply lookup_take_Some. split; [done|]. lia.
Qed.

Lemma NoDup_py_slice {A} (l : list A) a b : NoDup l → NoDup (py_slice l a b).
Proof.
  intros Hl. unfold py_slice, py_upto. eapply sublist_NoDup; [apply Hl|].
  etrans; [apply sublist_drop|apply sublist_take].
Qed.

(** ** The arithmetic of chunks *)

Definition chunk_start (n k c : Z) : Z := c * (n / k) + Z.min c (n mod k).

Lemma chunk_start_S n k c : 0 < k → 0 ≤ n → 0 ≤ c →
  chunk_start n k (c + 1) = chunk_start n k c + n / k + (if c <? n mod k then 1 else 0).
Proof. intros. unfold chunk_start. destruct (Z.ltb_spec c (n mod k)); lia. Qed.

Lemma chunk_start_mono n k c c' : 0 < k → 0 ≤ n → 0 ≤ c ≤ c' → chunk_start n k c ≤ chunk_start n k c'.
Proof.
  intros Hk Hn Hc. unfold chunk_start. pose proof (Z.div_pos n k Hn Hk). nia.
Qed.

Lemma chunk_start_end n k : 0 < k → 0 ≤ n → chunk_start n k k = n.
Proof.
  intros Hk Hn. unfold chunk_start. pose proof (Z.mod_pos_bound n k Hk).
  rewrite Z.min_r by lia. pose proof (Z.div_mod n k ltac:(lia)). lia.
Qed.

(** The chunk that an element is in. *)
Lemma chunk_index_ok n k i : 0 < k → 0 ≤ i < n →
  ∃ c, _chunk_index_from_element_index n k i = Ok c ∧ 0 ≤ c < k ∧
    chunk_start n k c ≤ i < chunk_start n k (c + 1).
Proof.
  intros Hk Hi. unfold _chunk_index_from_element_index, py_divmod, py_div.
  destruct (Z.eqb_spec k 0); [lia|]. cbn [res_bind].
  pose proof (Z.div_mod n k ltac:(lia)) as Hdm. pose proof (Z.mod_pos_bound n k Hk) as Hr.
  pose proof (Z.div_pos n k ltac:(lia) Hk) as Hq.
  set (q := n / k) in *. set (r := n mod k) in *.
  destruct (Z.ltb_spec i (r * (q + 1))) as [Hlt|Hge].
  - destruct (Z.eqb_spec (q + 1) 0); [lia|]. exists (i / (q + 1)).
    pose proof (Z.div_mod i (q + 1) ltac:(lia)). pose proof (Z.mod_pos_bound i (q + 1) ltac:(lia)).
    pose proof (Z.div_pos i (q + 1) ltac:(lia) ltac:(lia)).
    assert (i / (q + 1) < r) by (apply Z.div_lt_upper_bound; lia).
    split; [done|]. split; [lia|]. rewrite chunk_start_S by lia. unfold chunk_start. fold q r.
    destruct (Z.ltb_spec (i / (q + 1)) r); [|lia]. rewrite Z.min_l by lia. lia.
  - assert (0 < q) by nia. destruct (Z.eqb_spec q 0); [lia|]. cbn [res_bind].
    set (j := i - r * (q + 1)) in *. exists (r + j / q).
    pose proof (Z.div_mod j q ltac:(lia)). pose proof (Z.mod_pos_bound j q ltac:(lia)).
    pose proof (Z.div_pos j q ltac:(lia) ltac:(lia)).
    assert (j / q < k - r) by (apply Z.div_lt_upper_bound; nia).
    split; [done|]. split; [lia|]. rewrite chunk_start_S by lia. unfold chunk_start. fold q r.
    destruct (Z.ltb_spec (r + j / q) r); [lia|]. rewrite Z.min_r by lia. lia.
Qed.

Lemma chunk_unique n k i c c' : 0 < k → 0 ≤ n → 0 ≤ c → 0 ≤ c' →
  chunk_start n k c ≤ i < chunk_start n k (c + 1) →
  chunk_start n k c' ≤ i < chunk_start n k (c' + 1) → c = c'.
Proof.
  intros Hk Hn Hc Hc' H1 H2. destruct (Z.lt_total c c') as [Hlt|[Heq|Hlt]]; [|done|].
  - pose proof (chunk_start_mono n k (c + 1) c' Hk Hn ltac:(lia)). lia.
  - pose proof (chunk_start_mono n k (c' + 1) c Hk Hn ltac:(lia)). lia.
Qed.

(** ** Sources and destinations agree *)

Lemma chunks_agree (c : _ChunkUtils) :
  NoDup (chunk_values c) → NoDup (element_values c) → chunk_values c ≠ [] →
  ∃ f : Z → Z,
    (∀ d, d ∈ element_values c → chunk_value_from_element_value c d = Ok (f d) ∧ f d ∈ chunk_values c) ∧
    (∀ s, s ∈ chunk_values c → ∃ l, element_values_from_chunk_value c s = Ok l ∧ NoDup l ∧
      ∀ d, d ∈ l ↔ d ∈ element_values c ∧ f d = s).
Proof.
  destruct c as [cv ev]. cbn. intros Hcv Hev Hne. set (n := len ev). set (k := len cv).
  assert (Hk : 0 < k) by (unfold k, len; destruct cv; [done|simpl; lia]).
  assert (Hn : 0 ≤ n) by apply len_nonneg.
  assert (Hval : ∀ d, d ∈ ev → ∃ i ci s, zat ev i = Some d ∧ 0 ≤ ci < k ∧
    chunk_start n k ci ≤ i < chunk_start n k (ci + 1) ∧ zat cv ci = Some s ∧
    chunk_value_from_element_value {| chunk_values := cv; element_values := ev |} d = Ok s).
  { intros d Hd. destruct (py_list_index_ok ev d Hd) as (i & Hi & Hz).
    destruct (chunk_index_ok n k i Hk) as (ci & Hci & Hb & Hs); [by apply zat_Some_bound in Hz|].
    destruct (zat_in cv ci Hb) as [s Hs']. exists i, ci, s. split_and!; try done; try lia.
    unfold chunk_value_from_element_value. cbn. rewrite Hi. cbn [res_bind]. fold n k. rewrite Hci.
    cbn [res_bind]. by apply zat_py_index. }
  set (f d := match chunk_value_from_element_value {| chunk_values := cv; element_values := ev |} d with
              | Ok s => s | Err _ => 0 end).
  exists f. split.
  - intros d Hd. destruct (Hval d Hd) as (i & ci & s & _ & _ & _ & Hs & E). unfold f. rewrite E.
    split; [done|]. by eapply zat_elem.
  - intros s Hs. unfold element_values_from_chunk_value. cbn. fold n.
    destruct (Z.eqb_spec n 0) as [Hn0|Hn0].
    { exists []. split_and!; [done|apply NoDup_nil_2|]. intros d. split; [set_solver|].
      intros [Hd _]. destruct ev; [set_solver|]. unfold n, len in Hn0. simpl in Hn0. lia. }
    destruct (py_list_index_ok cv s Hs) as (cs & -> & Hcs). cbn [res_bind].
    pose proof (zat_Some_bound _ _ _ Hcs) as Hcb. fold k in Hcb |- *.
    unfold _element_slice_from_chunk_index, py_divmod. destruct (Z.eqb_spec k 0); [lia|]. cbn [res_bind].
    fold (chunk_start n k cs). rewrite <- chunk_start_S by lia.
    eexists. split; [done|]. split; [by apply NoDup_py_slice|]. intros d.
    assert (Hstart : 0 ≤ chunk_start n k cs ≤ chunk_start n k (cs + 1)).
    { split; [|apply chunk_start_mono; lia].
      pose proof (chunk_start_mono n k 0 cs Hk Hn ltac:(lia)) as H0. unfold chunk_start at 1 in H0.
      pose proof (Z.mod_pos_bound n k Hk). lia. }
    assert (Hend : chunk_start n k (cs + 1) ≤ len ev).
    { fold n. rewrite <- (chunk_start_end n k) at 2 by lia. apply chunk_start_mono; lia. }
    rewrite elem_of_py_slice by done. split.
    + intros (i & Hi & Hz). pose proof (zat_elem _ _ _ Hz) as Hd. split; [done|].
      destruct (Hval d Hd) as (i' & ci & s' & Hz' & Hcb' & Hb & Hs' & E).
      rewrite (zat_NoDup ev i' i d Hev Hz' Hz) in Hb.
      assert (ci = cs) as -> by (apply (chunk_unique n k i); lia).
      unfold f. rewrite E. congruence.
    + intros [Hd Hf]. destruct (Hval d Hd) as (i & ci & s' & Hz & Hcb' & Hb & Hs' & E).
      unfold f in Hf. rewrite E in Hf. subst s'.
      rewrite (zat_NoDup cv ci cs s Hcv Hs' Hcs) in Hb. by exists i.
Qed.

(** ** Ranks in order *)

Lemma dedup_cons x y l : _deduplicate_ordered (x :: y :: l) =
  if x =? y then _deduplicate_ordered (y :: l) else x :: _deduplicate_ordered (y :: l).
Proof. done. Qed.

Lemma dedup_elem l x : x ∈ _deduplicate_ordered l ↔ x ∈ l.
Proof.
  induction l as [|y [|z l] IH]; [done|done|]. rewrite dedup_cons.
  destruct (Z.eqb_spec y z) as [->|]; [rewrite IH; set_solver|].
  rewrite !elem_of_cons, IH. set_solver.
Qed.

Lemma dedup_sorted l : Sorted Z.le l → StronglySorted Z.lt (_deduplicate_ordered l).
Proof.
  intros Hs. apply Sorted_StronglySorted in Hs; [|intros ???; lia].
  induction Hs as [|y l Hl IH Hy]; [constructor|]. destruct l as [|z l]; [repeat constructor|].
  rewrite dedup_cons. destruct (Z.eqb_spec y z) as [->|Hne]; [done|].
  constructor; [done|]. apply Forall_forall. intros x Hx. rewrite dedup_elem in Hx.
  assert (Hyz : y < z). { apply Forall_inv in Hy. lia. }
  apply elem_of_cons in Hx as [->|Hx]; [done|]. apply StronglySorted_inv in Hl as [_ Hl].
  rewrite Forall_forall in Hl. pose proof (Hl x Hx). lia.
Qed.

(** Locations of an expert, in order. *)
Lemma locations_of_ok m n e : 0 ≤ n ≤ len m →
  ∃ l, locations_of m n e = Ok l ∧ StronglySorted Z.lt l ∧
    ∀ x, x ∈ l ↔ 0 ≤ x < n ∧ zat m x = Some e.
Proof.
  intros Hn. unfold locations_of.
  assert (Hv : mapM_res (py_index m) (py_range 0 n) = Ok (take (Z.to_nat n) m)).
  { destruct (mapM_res_exists (py_index m) (λ x y, zat m x = Some y) (py_range 0 n)) as (r & Hr & HQ).
    { apply Forall_forall. intros x Hx%elem_of_py_range. destruct (zat_in m x) as [y Hy]; [lia|].
      exists y. split; [by apply zat_py_index|done]. }
    rewrite Hr. f_equal. apply list_eq. intros i. destruct (decide (i < Z.to_nat n)%nat) as [Hi|Hi].
    - rewrite lookup_take_lt by done.
      assert (Hpi : py_range 0 n !! i = Some (Z.of_nat i)).
      { unfold py_range. rewrite list_lookup_fmap, lookup_seq_lt by lia. done. }
      destruct (Forall2_lookup_l _ _ _ _ _ HQ Hpi) as (y & -> & Hy). by rewrite zat_nat in Hy.
    - rewrite lookup_take_ge by lia. apply lookup_ge_None. apply Forall2_length in HQ.
      rewrite length_py_range in HQ. lia. }
  rewrite Hv. cbn [res_bind]. eexists. split; [done|].
  assert (Hmem : ∀ p : Z * Z, p ∈ List.filter (λ p : Z * Z, p.2 =? e) (zip (py_range 0 n) (take (Z.to_nat n) m)) ↔
    p.2 = e ∧ 0 ≤ p.1 < n ∧ zat m p.1 = Some p.2).
  { intros [x v]. rewrite list_elem_of_In, filter_In, <- list_elem_of_In. cbn. rewrite Z.eqb_eq. split.
    - intros [(i & [Hi1%zat_range0 Hi2]%zat_zip)%elem_zat ->]. destruct Hi1 as [Hi ->].
      rewrite zat_take in Hi2 by lia. done.
    - intros (-> & Hx & Hz). split; [|done]. apply (zat_elem _ x), zat_zip.
      rewrite zat_take by lia. split; [by apply zat_range0|done]. }
  split.
  - assert (Hs : StronglySorted (λ p q : Z * Z, p.1 < q.1) (zip (py_range 0 n) (take (Z.to_nat n) m))).
    { clear. generalize (take (Z.to_nat n) m). unfold py_range. rewrite Z.sub_0_r.
      generalize 0%nat as a. induction (Z.to_nat n) as [|k IH]; intros a [|y l]; cbn; try constructor.
      - apply IH.
      - apply Forall_forall. intros [x v] Hx. apply elem_of_zip_l in Hx.
        apply list_elem_of_fmap in Hx as (b & -> & Hb%elem_of_seq). cbn. lia. }
    clear Hmem Hv. induction Hs as [|p l Hl IH Hp]; [constructor|]. cbn.
    destruct (p.2 =? e); [|done]. cbn. constructor; [done|].
    apply Forall_forall. intros x ([a b] & -> & Hin)%list_elem_of_fmap. rewrite Forall_forall in Hp.
    apply list_elem_of_In, filter_In in Hin as [Hin _]. by apply Hp, list_elem_of_In.
  - intros x. rewrite list_elem_of_fmap. split.
    + intros ([a b] & -> & (E & Hx & Hz)%Hmem). cbn in *. by subst.
    + intros [Hx Hz]. exists (x, e). split; [done|]. by apply Hmem.
Qed.

Section comm.
Context (old new : list Z) (nl G R nt : Z).
Context (Hnl : 0 < nl) (HG : 0 < G) (HR : 0 ≤ R).
Context (Hold : len old = R * nl) (Hnew : len new = R * nl).

Definition has (m : list Z) (r e : Z) : Prop := ∃ x, r * nl ≤ x < (r + 1) * nl ∧ zat m x = Some e.

Lemma has_div m r e : has m r e ↔ ∃ x, x / nl = r ∧ zat m x = Some e.
Proof.
  split; intros (x & Hx & Hz); exists x; (split; [|done]).
  - symmetry. apply (Z.div_unique x nl r (x - r * nl)); lia.
  - pose proof (Z.div_mod x nl ltac:(lia)). pose proof (Z.mod_pos_bound x nl Hnl). nia.
Qed.

Lemma has_rank m r e : len m = R * nl → has m r e → 0 ≤ r < R.
Proof. intros Hm (x & Hx & Hz%zat_Some_bound). nia. Qed.

(** ** The lists of ranks *)

Definition locs (m : list Z) (e : Z) : list Z :=
  match locations_of m (len old) e with Ok l => l | Err _ => [] end.

Lemma locs_ok m e : len m = len old →
  locations_of m (len old) e = Ok (locs m e) ∧ StronglySorted Z.lt (locs m e) ∧
  ∀ x, x ∈ locs m e ↔ zat m x = Some e.
Proof.
  intros Hm. destruct (locations_of_ok m (len old) e) as (l & Hl & Hs & Hx).
  { pose proof (len_nonneg old). lia. }
  unfold locs. rewrite Hl. split_and!; [done|done|]. intros x. rewrite Hx, <- Hm.
  split; [by intros [_ ?]|]. intros Hz. by pose proof (zat_Some_bound _ _ _ Hz).
Qed.

Definition src_ranks (e : Z) : list Z := _deduplicate_ordered ((λ x, x / nl) <$> locs old e).
Definition need_ranks (e : Z) : list Z := _deduplicate_ordered
  ((λ x, x / nl) <$> List.filter (λ x, negb (mem (x / nl) (src_ranks e))) (locs new e)).
Definition node_srcs (nd e : Z) : list Z := List.filter (λ x, x / G =? nd) (src_ranks e).
Definition node_need (nd e : Z) : list Z :=
  if 0 <? len (node_srcs nd e) then List.filter (λ x, x / G =? nd) (need_ranks e) else [].
Definition cross_need (e : Z) : list Z :=
  List.filter (λ x, negb (mem (x / G) ((λ x, x / G) <$> src_ranks e))) (need_ranks e).

Definition same_node (nd e : Z) : _ChunkUtils :=
  {| chunk_values := node_srcs nd e; element_values := node_need nd e |}.
Definition cross_node (e : Z) : _ChunkUtils :=
  {| chunk_values := src_ranks e; element_values := cross_need e |}.

Lemma comm_info_eq r e :
  _compute_comm_info (ctx_of old new nl G nt r) e =
    Ok (same_node (r / G) e, cross_node e, node_need (r / G) e).
Proof.
  unfold _compute_comm_info, num_physical_experts. cbn.
  destruct (locs_ok old e eq_refl) as (-> & _). cbn [res_bind].
  destruct (locs_ok new e ltac:(lia)) as (-> & _). done.
Qed.

Lemma mem_true x l : mem x l = true ↔ x ∈ l.
Proof.
  unfold mem. rewrite existsb_exists, list_elem_of_In. split.
  - intros (y & Hy & ->%Z.eqb_eq). done.
  - intros Hx. exists x. split; [done|apply Z.eqb_refl].
Qed.

Lemma mem_negb x l : negb (mem x l) = true ↔ x ∉ l.
Proof. rewrite negb_true_iff, <- not_true_iff_false. by rewrite mem_true. Qed.

Lemma elem_of_filter_bool {A} (f : A → bool) l x : x ∈ List.filter f l ↔ x ∈ l ∧ f x = true.
Proof. by rewrite !list_elem_of_In, filter_In. Qed.

Lemma StronglySorted_lt_filter (f : Z → bool) l :
  StronglySorted Z.lt l → StronglySorted Z.lt (List.filter f l).
Proof.
  induction 1 as [|x l Hl IH Hx]; [constructor|]. cbn. destruct (f x); [|done].
  constructor; [done|]. rewrite Forall_forall in Hx. apply Forall_forall.
  intros y [Hy _]%elem_of_filter_bool. auto.
Qed.

Lemma ranks_sorted l : StronglySorted Z.lt l → StronglySorted Z.lt (_deduplicate_ordered ((λ x, x / nl) <$> l)).
Proof.
  intros Hl. apply dedup_sorted, StronglySorted_Sorted.
  induction Hl as [|x l Hl IH Hx]; [constructor|]. cbn. constructor; [done|].
  rewrite Forall_forall in Hx. apply Forall_forall. intros y (z & -> & Hz)%list_elem_of_fmap.
  apply Z.div_le_mono; [lia|]. pose proof (Hx z Hz). lia.
Qed.

Lemma elem_of_src_ranks s e : s ∈ src_ranks e ↔ has old s e.
Proof.
  unfold src_ranks. rewrite dedup_elem, has_div, list_elem_of_fmap.
  destruct (locs_ok old e eq_refl) as (_ & _ & Hl). setoid_rewrite Hl. naive_solver.
Qed.

Lemma elem_of_need_ranks d e : d ∈ need_ranks e ↔ has new d e ∧ ¬ has old d e.
Proof.
  unfold need_ranks. rewrite dedup_elem, has_div, list_elem_of_fmap.
  setoid_rewrite elem_of_filter_bool. setoid_rewrite mem_negb. setoid_rewrite elem_of_src_ranks.
  destruct (locs_ok new e ltac:(lia)) as (_ & _ & Hl). setoid_rewrite Hl. naive_solver.
Qed.

Lemma src_ranks_NoDup e : NoDup (src_ranks e).
Proof. apply StronglySorted_lt_NoDup, ranks_sorted. by destruct (locs_ok old e eq_refl) as (_ & ? & _). Qed.

Lemma need_ranks_NoDup e : NoDup (need_ranks e).
Proof.
  apply StronglySorted_lt_NoDup, ranks_sorted, StronglySorted_lt_filter.
  by destruct (locs_ok new e ltac:(lia)) as (_ & ? & _).
Qed.

Lemma NoDup_filter_bool {A} (f : A → bool) (l : list A) : NoDup l → NoDup (List.filter f l).
Proof. intros Hl. by apply NoDup_ListNoDup, List.NoDup_filter, NoDup_ListNoDup. Qed.

Lemma elem_of_node_srcs nd e s : s ∈ node_srcs nd e ↔ s ∈ src_ranks e ∧ s / G = nd.
Proof. unfold node_srcs. by rewrite elem_of_filter_bool, Z.eqb_eq. Qed.

Lemma elem_of_node_need nd e d :
  d ∈ node_need nd e ↔ d ∈ need_ranks e ∧ d / G = nd ∧ node_srcs nd e ≠ [].
Proof.
  unfold node_need. destruct (Z.ltb_spec 0 (len (node_srcs nd e))) as [Hl|Hl].
  - rewrite elem_of_filter_bool, Z.eqb_eq. split; [|naive_solver]. intros [? ?].
    split_and!; [done..|]. intros E. rewrite E in Hl. done.
  - split; [intros H; by apply not_elem_of_nil in H|]. intros (_ & _ & Hne).
    destruct (node_srcs nd e); [done|]. unfold len in Hl. simpl in Hl. lia.
Qed.

Lemma elem_of_cross_need e d : d ∈ cross_need e ↔ d ∈ need_ranks e ∧ node_srcs (d / G) e = [].
Proof.
  unfold cross_need. rewrite elem_of_filter_bool, mem_negb, list_elem_of_fmap. split.
  - intros [Hd Hn]. split; [done|]. destruct (node_srcs (d / G) e) as [|s l] eqn:E; [done|].
    exfalso. apply Hn. assert (Hs : s ∈ node_srcs (d / G) e) by (rewrite E; by left).
    apply elem_of_node_srcs in Hs as [Hs Hsd]. by exists s.
  - intros [Hd Hn]. split; [done|]. intros (s & Hs1 & Hs2).
    assert (Hs : s ∈ node_srcs (d / G) e) by (by apply elem_of_node_srcs).
    rewrite Hn in Hs. by apply not_elem_of_nil in Hs.
Qed.

(** ** The agreement *)

(** The rank that [d] expects expert [e] from. *)
Definition chosen (d e : Z) : res Z :=
  if mem d (node_need (d / G) e) then chunk_value_from_element_value (same_node (d / G) e) d
  else chunk_value_from_element_value (cross_node e) d.

Definition source_of (d e : Z) : Z := match chosen d e with Ok s => s | Err _ => 0 end.

Lemma same_agree nd e : node_srcs nd e ≠ [] → ∃ f : Z → Z,
  (∀ d, d ∈ node_need nd e → chunk_value_from_element_value (same_node nd e) d = Ok (f d) ∧ f d ∈ node_srcs nd e) ∧
  (∀ s, s ∈ node_srcs nd e → ∃ l, element_values_from_chunk_value (same_node nd e) s = Ok l ∧ NoDup l ∧
    ∀ d, d ∈ l ↔ d ∈ node_need nd e ∧ f d = s).
Proof.
  intros Hne. apply (chunks_agree (same_node nd e)); [|cbn|done].
  - apply NoDup_filter_bool, src_ranks_NoDup.
  - unfold node_need. case_match; [apply NoDup_filter_bool, need_ranks_NoDup|apply NoDup_nil_2].
Qed.

Lemma cross_agree e : src_ranks e ≠ [] → ∃ f : Z → Z,
  (∀ d, d ∈ cross_need e → chunk_value_from_element_value (cross_node e) d = Ok (f d) ∧ f d ∈ src_ranks e) ∧
  (∀ s, s ∈ src_ranks e → ∃ l, element_values_from_chunk_value (cross_node e) s = Ok l ∧ NoDup l ∧
    ∀ d, d ∈ l ↔ d ∈ cross_need e ∧ f d = s).
Proof.
  intros Hne. apply (chunks_agree (cross_node e)); [apply src_ranks_NoDup| |done].
  apply NoDup_filter_bool, need_ranks_NoDup.
Qed.

Lemma chosen_same d e : d ∈ node_need (d / G) e →
  chosen d e = chunk_value_from_element_value (same_node (d / G) e) d.
Proof. intros Hd. unfold chosen. by rewrite (proj2 (mem_true _ _) Hd). Qed.

Lemma chosen_cross d e : d ∈ cross_need e → chosen d e = chunk_value_from_element_value (cross_node e) d.
Proof.
  intros [Hd Hn]%elem_of_cross_need. unfold chosen.
  destruct (mem d (node_need (d / G) e)) eqn:E; [|done].
  by apply mem_true, elem_of_node_need in E as (_ & _ & ?).
Qed.

(** A rank that needs an expert of the old placement finds a source. *)
Lemma chosen_ok d e : d ∈ need_ranks e → src_ranks e ≠ [] →
  chosen d e = Ok (source_of d e) ∧ source_of d e ∈ src_ranks e.
Proof.
  intros Hd Hne. unfold source_of. destruct (decide (node_srcs (d / G) e = [])) as [Hn|Hn].
  - assert (Hc : d ∈ cross_need e) by (by apply elem_of_cross_need).
    rewrite (chosen_cross d e Hc). destruct (cross_agree e Hne) as (f & Hf & _).
    by destruct (Hf d Hc) as [-> ?].
  - assert (Hc : d ∈ node_need (d / G) e) by (by apply elem_of_node_need).
    rewrite (chosen_same d e Hc). destruct (same_agree (d / G) e Hn) as (f & Hf & _).
    destruct (Hf d Hc) as [-> Hs]. split; [done|]. by apply elem_of_node_srcs in Hs as [? _].
Qed.

(** A source sends to exactly the ranks that expect the expert from it. *)
Lemma comm_agree s e : s ∈ src_ranks e → ∃ l1 l2,
  element_values_from_chunk_value (same_node (s / G) e) s = Ok l1 ∧
  element_values_from_chunk_value (cross_node e) s = Ok l2 ∧ NoDup (l1 ++ l2) ∧
  ∀ d, d ∈ l1 ++ l2 ↔ d ∈ need_ranks e ∧ source_of d e = s.
Proof.
  intros Hs. assert (Hne : src_ranks e ≠ []) by (intros E; rewrite E in Hs; by apply not_elem_of_nil in Hs).
  assert (Hsn : s ∈ node_srcs (s / G) e) by (by apply elem_of_node_srcs).
  assert (Hnn : node_srcs (s / G) e ≠ []) by (intros E; rewrite E in Hsn; by apply not_elem_of_nil in Hsn).
  destruct (same_agree (s / G) e Hnn) as (f & Hf & Hfs). destruct (Hfs s Hsn) as (l1 & E1 & N1 & M1).
  destruct (cross_agree e Hne) as (g & Hg & Hgs). destruct (Hgs s Hs) as (l2 & E2 & N2 & M2).
  exists l1, l2. split_and!; [done|done| |].
  - apply NoDup_app. split_and!; [done| |done]. intros d [Hd _]%M1 [Hc _]%M2.
    apply elem_of_node_need in Hd as (_ & Hdn & _). apply elem_of_cross_need in Hc as [_ Hc].
    by rewrite Hdn in Hc.
  - intros d. rewrite elem_of_app, M1, M2. unfold source_of. split.
    + intros [[Hd Hv]|[Hd Hv]].
      * pose proof Hd as (Hn & Hdn & _)%elem_of_node_need. split; [done|]. rewrite chosen_same by (by rewrite Hdn).
        rewrite Hdn. by destruct (Hf d Hd) as [-> _].
      * pose proof Hd as [Hn _]%elem_of_cross_need. split; [done|]. rewrite chosen_cross by done.
        by destruct (Hg d Hd) as [-> _].
    + intros [Hd Hv]. destruct (decide (node_srcs (d / G) e = [])) as [Hn|Hn].
      * right. assert (Hc : d ∈ cross_need e) by (by apply elem_of_cross_need).
        split; [done|]. rewrite chosen_cross in Hv by done. by destruct (Hg d Hc) as [E _]; rewrite E in Hv.
      * left. assert (Hc : d ∈ node_need (d / G) e) by (by apply elem_of_node_need).
        rewrite chosen_same in Hv by done. destruct (same_agree (d / G) e Hn) as (f' & Hf' & _).
        destruct (Hf' d Hc) as [E Hin]. rewrite E in Hv. subst s.
        apply elem_of_node_srcs in Hin as [_ Hin]. rewrite Hin. split; [done|].
        rewrite Hin in Hf. destruct (Hf d Hc) as [E' _]. congruence.
Qed.
End comm.
