(* ===== verification/ExpertUpdatePlan.v ===== *)
(** * The plan of one rank

    What [prepare] leaves behind on a rank: the receives and sends of the rank as
    lists computed from the two maps, buffers that already hold the experts found
    on the rank itself, and copies that cover every changed row. *)

From S2P Require Import Prelude Tensor ExpertLoad ExpertPacking ExpertUpdate ExpertUpdateChunks.

Lemma fold_res_inv {S B} (f : S → B → res S) (I : list B → S → Prop) (l : list B) s :
  I [] s →
  (∀ dn x rest s, l = dn ++ x :: rest → I dn s → ∃ s', f s x = Ok s' ∧ I (dn ++ [x]) s') →
  ∃ s', fold_res f s l = Ok s' ∧ I l s'.
Proof.
  intros H0 Hstep. assert (Hgen : ∀ rest dn s, l = dn ++ rest → I dn s →
    ∃ s', fold_res f s rest = Ok s' ∧ I l s').
  { induction rest as [|x rest IH]; intros dn s0 Hl HI.
    - rewrite app_nil_r in Hl. subst. by exists s0.
    - destruct (Hstep dn x rest s0 Hl HI) as (s1 & Hs1 & HI1). cbn [fold_res]. rewrite Hs1. cbn [res_bind].
      apply (IH (dn ++ [x])); [by rewrite <- app_assoc|done]. }
  by apply (Hgen l []).
Qed.

(** The elements before an element of a range. *)
Lemma py_range_prefix a b dn x rest :
  py_range a b = dn ++ x :: rest → a ≤ x < b ∧ dn = py_range a x.
Proof.
  intros E. assert (Hx : x ∈ py_range a b) by (rewrite E; set_solver).
  apply elem_of_py_range in Hx. split; [done|].
  assert (Hl : py_range a b !! length dn = Some x).
  { rewrite E, lookup_app_r, Nat.sub_diag by lia. done. }
  assert (Hd : dn = take (length dn) (py_range a b)) by (by rewrite E, take_app_length).
  rewrite Hd. unfold py_range in Hl. rewrite list_lookup_fmap in Hl.
  destruct (seq 0 (Z.to_nat (b - a)) !! length dn) as [k|] eqn:Ek; [|done].
  apply lookup_seq in Ek as [-> Hk]. cbn in Hl. injection Hl as Hl.
  replace (length dn) with (Z.to_nat (x - a)) by lia. apply py_range_take. lia.
Qed.

Section plan.
Context {A : Type} (content : Z → Z → A).
Context (old new : list Z) (nl G R nt : Z).
Context (Hnl : 0 < nl) (HG : 0 < G) (HR : 0 ≤ R) (Hnt : 0 ≤ nt).
Context (Hold : len old = R * nl) (Hnew : len new = R * nl).
Context (r : Z) (Hr : 0 ≤ r < R).

Local Notation has := (has nl).
Local Notation src_ranks := (src_ranks old nl).
Local Notation need_ranks := (need_ranks old new nl).
Local Notation source_of := (source_of old new nl G).
Local Notation c := (ctx_of old new nl G nt r).

Definition local (x : Z) : Prop := r * nl ≤ x < (r + 1) * nl.

Lemma local_old x : local x → ∃ e, zat old x = Some e.
Proof. unfold local. intros. apply zat_in. nia. Qed.
Lemma local_new x : local x → ∃ e, zat new x = Some e.
Proof. unfold local. intros. apply zat_in. nia. Qed.

(** ** Tensors *)

Definition shape (w : list (list A)) : Prop := len w = nt ∧ Forall (λ t, len t = nl) w.

Definition cell (w : list (list A)) (i x : Z) : option A := t ← zat w i; zat t (x mod nl).

Lemma cell_in w i x : shape w → 0 ≤ i < nt → ∃ v, cell w i x = Some v.
Proof.
  intros [H1 H2] Hi. unfold cell. destruct (zat_in w i) as [t Ht]; [lia|]. rewrite Ht. cbn.
  rewrite Forall_forall in H2. apply zat_in. rewrite (H2 t (zat_elem _ _ _ Ht)).
  by apply Z.mod_pos_bound.
Qed.

Lemma local_index x : local x → _get_local_expert_location c x = Ok (x mod nl).
Proof.
  unfold local, _get_local_expert_location. cbn. intros [H1 H2].
  destruct (Z.leb_spec (r * nl) x); [|lia]. destruct (Z.ltb_spec x ((r + 1) * nl)); [done|lia].
Qed.

Lemma get_tensor_ok w i x v : local x → cell w i x = Some v → _get_tensor c w i x = Ok v.
Proof.
  intros Hx. unfold cell, _get_tensor. destruct (zat w i) as [t|] eqn:Et; [|done]. cbn.
  intros Hv. rewrite (zat_py_index _ _ _ Et). cbn [res_bind]. rewrite local_index by done. cbn [res_bind].
  by apply zat_py_index.
Qed.

Lemma local_mod_inj x y : local x → local y → x mod nl = y mod nl → x = y.
Proof.
  unfold local. intros Hx Hy E. pose proof (Z.div_mod x nl ltac:(lia)). pose proof (Z.div_mod y nl ltac:(lia)).
  assert (x / nl = r) by (symmetry; apply (Z.div_unique x nl r (x - r * nl)); lia).
  assert (y / nl = r) by (symmetry; apply (Z.div_unique y nl r (y - r * nl)); lia). lia.
Qed.

Lemma copy_to_ok w i x v : shape w → 0 ≤ i < nt → local x →
  ∃ w', copy_to c w i x v = Ok w' ∧ shape w' ∧
    ∀ j y, local y → cell w' j y = if decide (i = j ∧ x = y) then Some v else cell w j y.
Proof.
  intros Hsh Hi Hx. pose proof Hsh as [H1 H2]. rewrite Forall_forall in H2.
  destruct (zat_in w i) as [t Ht]; [lia|]. pose proof (H2 t (zat_elem _ _ _ Ht)) as Hlt.
  pose proof (Z.mod_pos_bound x nl Hnl) as Hm.
  unfold copy_to. rewrite (zat_py_index _ _ _ Ht). cbn [res_bind]. rewrite local_index by done. cbn [res_bind].
  rewrite py_set_index_ok by lia. cbn [res_bind]. rewrite py_set_index_ok by lia. eexists. split; [done|].
  split.
  - split; [by rewrite len_insert|]. apply Forall_insert; [by apply Forall_forall|]. by rewrite len_insert.
  - intros j y Hy. unfold cell. rewrite zat_insert by lia. destruct (Z.eqb_spec i j) as [<-|Hij].
    + cbn. rewrite zat_insert by lia. rewrite Ht. cbn. destruct (Z.eqb_spec (x mod nl) (y mod nl)) as [E|E].
      * rewrite decide_True; [done|]. split; [done|]. by apply local_mod_inj.
      * rewrite decide_False; [done|]. intros [_ ->]. done.
    + rewrite decide_False; [done|]. by intros [-> _].
Qed.

(** A row holds expert [e]. *)
Definition row_is (w : list (list A)) (x e : Z) : Prop := ∀ i, 0 ≤ i < nt → cell w i x = Some (content i e).

(** A row is as the new map wants it. *)
Definition good (w : list (list A)) (x : Z) : Prop := ∀ e, zat new x = Some e → row_is w x e.

(** Copying a row of one tensor list over one of another. *)
Lemma copy_row_ok (src dst : list (list A)) x y e :
  shape src → shape dst → local x → local y → row_is src x e →
  ∃ dst', fold_res (λ d i, let! v := _get_tensor c src i x in copy_to c d i y v) dst (py_range 0 nt) = Ok dst' ∧
    shape dst' ∧ row_is dst' y e ∧ ∀ i z, local z → z ≠ y → cell dst' i z = cell dst i z.
Proof.
  intros Hs Hd Hx Hy He.
  destruct (fold_res_inv (λ d i, let! v := _get_tensor c src i x in copy_to c d i y v)
    (λ dn d, shape d ∧ (∀ i, i ∈ dn → cell d i y = Some (content i e)) ∧
      ∀ i z, local z → z ≠ y → cell d i z = cell dst i z) (py_range 0 nt) dst) as (d' & E & H1 & H2 & H3).
  - split_and!; [done| |done]. intros i Hi. by apply not_elem_of_nil in Hi.
  - intros dn i rest d El (H1 & H2 & H3). apply py_range_prefix in El as [Hi _].
    rewrite (get_tensor_ok src i x (content i e)) by (try done; apply He; lia). cbn [res_bind].
    destruct (copy_to_ok d i y (content i e) H1 Hi Hy) as (d1 & Hd1 & Hs1 & Hc1). exists d1.
    split; [done|]. split_and!; [done| |].
    + intros j Hj. rewrite Hc1 by done. apply elem_of_app in Hj as [Hj|Hj].
      * case_decide as Hd2; [by destruct Hd2 as [-> _]|by apply H2].
      * apply list_elem_of_singleton in Hj as ->. by rewrite decide_True.
    + intros j z Hz Hne. rewrite Hc1 by done. rewrite decide_False; [by apply H3|]. by intros [_ ->].
  - exists d'. split_and!; [done|done| |done]. intros i Hi. apply H2. by apply elem_of_py_range.
Qed.

(** ** Searching *)

Lemma find_location_ok m a b e : (∀ x, a ≤ x < b → ∃ v, zat m x = Some v) →
  ∃ o, find_location m (py_range a b) e = Ok o ∧
    match o with
    | Some x => a ≤ x < b ∧ zat m x = Some e ∧ ∀ y, a ≤ y < x → zat m y ≠ Some e
    | None => ∀ y, a ≤ y < b → zat m y ≠ Some e
    end.
Proof.
  intros Hin. destruct (decide (a ≤ b)) as [Hab|Hab].
  2:{ exists None. rewrite py_range_nil by lia. split; [done|]. intros y Hy. lia. }
  replace b with (a + Z.of_nat (Z.to_nat (b - a))) in * by lia. clear Hab.
  generalize dependent (Z.to_nat (b - a)). intros k. revert a. induction k as [|k IH]; intros a Hin.
  { exists None. rewrite py_range_nil by lia. split; [done|]. intros y Hy. lia. }
  replace (a + Z.of_nat (S k)) with (a + (1 + Z.of_nat k)) in * by lia.
  rewrite py_range_cons by lia. cbn [find_location]. destruct (Hin a) as [v Hv]; [lia|].
  rewrite (zat_py_index _ _ _ Hv). cbn [res_bind]. destruct (Z.eqb_spec v e) as [->|Hne].
  - exists (Some a). split; [done|]. split_and!; [lia|lia|done|]. intros y Hy. lia.
  - destruct (IH (a + 1)) as (o & E & Ho); [intros x Hx; apply Hin; lia|]. exists o. split; [done|].
    assert (Ha : zat m a ≠ Some e) by congruence. destruct o as [x|].
    + destruct Ho as (H1 & H2 & H3). split_and!; [lia|lia|done|]. intros y Hy.
      destruct (decide (y = a)) as [->|]; [done|apply H3; lia].
    + intros y Hy. destruct (decide (y = a)) as [->|]; [done|apply Ho; lia].
Qed.

(** No location of the rank before [x] has [e]. *)
Definition fresh (m : list Z) (x e : Z) : bool :=
  forallb (λ y, negb (bool_decide (zat m y = Some e))) (py_range (r * nl) x).

Lemma fresh_spec m x e : fresh m x e = true ↔ ∀ y, r * nl ≤ y < x → zat m y ≠ Some e.
Proof.
  unfold fresh. rewrite forallb_forall. setoid_rewrite <- list_elem_of_In.
  setoid_rewrite elem_of_py_range. setoid_rewrite negb_true_iff.
  setoid_rewrite bool_decide_eq_false. done.
Qed.

(** ** Receives *)

(** The rows that are received: of an expert that the rank does not have, and that
    no earlier row asks for. *)
Definition receives (x : Z) : bool :=
  match zat new x with
  | Some e => negb (mem r (src_ranks e)) && fresh new x e
  | None => false
  end.

Definition recv_info (x : Z) : Z * list P2POp :=
  let e := default 0 (zat new x) in
  (e, (λ i, irecv i x (source_of r e)) <$> py_range 0 nt).

Lemma receives_spec x e : zat new x = Some e →
  receives x = true ↔ ¬ has old r e ∧ ∀ y, r * nl ≤ y < x → zat new y ≠ Some e.
Proof.
  intros He. unfold receives. rewrite He, andb_true_iff, mem_negb, fresh_spec.
  by rewrite (elem_of_src_ranks old nl G Hnl HG).
Qed.

(** The state of the receive loop after the rows [dn]. *)
Record planned (dn : list Z) (p : plan A) : Prop := {
  pn_shape : shape (temp_buffers p);
  pn_infos : p2p_op_infos p = recv_info <$> List.filter receives dn;
  pn_copies : ∀ tb rw, (tb, rw) ∈ buffer2weight_copy_infos p →
    local tb ∧ local rw ∧ zat new tb = zat new rw ∧
    (good (temp_buffers p) tb ∨ tb ∈ List.filter receives dn);
  pn_cover : ∀ x, x ∈ dn → zat old x = zat new x ∨ ∃ tb, (tb, x) ∈ buffer2weight_copy_infos p;
}.

Lemma filter_snoc (f : Z → bool) l x : List.filter f (l ++ [x]) = List.filter f l ++ (if f x then [x] else []).
Proof. rewrite List.filter_app. cbn. by destruct (f x). Qed.

(** The buffers only change at row [x], which becomes good. *)
Lemma good_update temp temp' x y : (∀ i z, local z → z ≠ x → cell temp' i z = cell temp i z) →
  good temp' x → local y → good temp y → good temp' y.
Proof.
  intros Hc Hx Hy Hg. destruct (decide (y = x)) as [->|Hne]; [done|].
  intros e He i Hi. rewrite Hc by done. by apply Hg.
Qed.

Context (w : list (list A)) (Hw : shape w).
Context (Hcontent : ∀ x e, local x → zat old x = Some e → row_is w x e).
Context (Hsrc : ∀ e x, zat new x = Some e → src_ranks e ≠ []).

Lemma recv_step dn x rest p :
  py_range (r * nl) ((r + 1) * nl) = dn ++ x :: rest → planned dn p →
  ∃ p', _handle_recv_of_dst_expert_location c w p x = Ok p' ∧ planned (dn ++ [x]) p'.
Proof.
  intros El [H1 H2 H3 H4]. apply py_range_prefix in El as [Hx Hdn].
  destruct (local_new x Hx) as [e He]. destruct (local_old x Hx) as [o Ho].
  pose proof (receives_spec x e He) as Hrec. unfold _handle_recv_of_dst_expert_location, local_range.
  cbn [ctx_of old_physical_to_logical_map new_physical_to_logical_map num_local_physical_experts rank num_tensors].
  rewrite (zat_py_index _ _ _ He), (zat_py_index _ _ _ Ho). cbn [res_bind].
  assert (Hno : has old r e → List.filter receives (dn ++ [x]) = List.filter receives dn).
  { intros Hh. rewrite filter_snoc. destruct (receives x); [|by rewrite app_nil_r].
    by destruct (proj1 Hrec eq_refl). }
  destruct (Z.eqb_spec o e) as [->|Hne].
  { exists p. split; [done|]. rewrite <- Hno in H2, H3 by (by exists x). split; [done..|].
    intros y [Hy|Hy]%elem_of_app; [by apply H4|]. apply list_elem_of_singleton in Hy as ->. left. congruence. }
  destruct (find_location_ok old (r * nl) ((r + 1) * nl) e) as (so & -> & Hso); [apply local_old|].
  cbn [res_bind]. destruct so as [src|].
  - destruct Hso as (Hsl & Hse & _). assert (Hh : has old r e) by (by exists src).
    destruct (copy_row_ok w (temp_buffers p) src x e Hw H1 Hsl Hx (Hcontent src e Hsl Hse))
      as (t & Et & Hts & Htx & Hto). rewrite Et. cbn [res_bind]. eexists. split; [done|].
    assert (Hgx : good t x) by (intros e' He'; rewrite He in He'; by injection He' as <-).
    split; cbn; rewrite ?Hno by done; [done|done| |].
    + intros tb rw [Hin|Hin]%elem_of_app.
      * destruct (H3 tb rw Hin) as (? & ? & ? & Hg). split_and!; [done..|].
        destruct Hg as [Hg|Hg]; [left|by right]. by apply (good_update (temp_buffers p) t x).
      * apply list_elem_of_singleton in Hin as [= -> ->]. split_and!; [done..|]. by left.
    + intros y [Hy|Hy]%elem_of_app.
      * destruct (H4 y Hy) as [?|[tb Htb]]; [by left|right]. exists tb. apply elem_of_app. by left.
      * apply list_elem_of_singleton in Hy as ->. right. exists x. apply elem_of_app. right. by left.
  - assert (Hh : ¬ has old r e) by (intros (y & Hy & Hz); by apply (Hso y)).
    destruct (find_location_ok new (r * nl) x e) as (ro & -> & Hro).
    { intros y Hy. apply local_new. unfold local. lia. }
    cbn [res_bind]. destruct ro as [src|].
    + destruct Hro as (Hsl & Hse & Hfirst). assert (Hslo : local src) by (unfold local; lia).
      assert (Hrx : receives x = false).
      { destruct (receives x); [|done]. destruct (proj1 Hrec eq_refl) as [_ Hf]. by destruct (Hf src Hsl). }
      eexists. split; [done|]. split; cbn; rewrite ?filter_snoc, ?Hrx, ?app_nil_r; [done|done| |].
      * intros tb rw [Hin|Hin]%elem_of_app; [by apply H3|].
        apply list_elem_of_singleton in Hin as [= -> ->]. split_and!; [done|done|congruence|]. right.
        apply elem_of_filter_bool. split; [rewrite Hdn; by apply elem_of_py_range|].
        by apply (receives_spec src e Hse).
      * intros y [Hy|Hy]%elem_of_app.
        { destruct (H4 y Hy) as [?|[tb Htb]]; [by left|right]. exists tb. apply elem_of_app. by left. }
        apply list_elem_of_singleton in Hy as ->. right. exists src. apply elem_of_app. right. by left.
    + assert (Hrx : receives x = true) by (by apply Hrec).
      rewrite (comm_info_eq old new nl G R nt Hold Hnew r e). cbn [res_bind].
      destruct (chosen_ok old new nl G R Hnl Hold Hnew r e) as [Hch _].
      { apply (elem_of_need_ranks old new nl G R); [done..|]. split; [by exists x|done]. }
      { by apply (Hsrc e x). }
      unfold chosen in Hch. rewrite Hch. cbn [res_bind]. eexists. split; [done|].
      split; cbn; rewrite ?filter_snoc, ?Hrx; [done| | |].
      * rewrite fmap_app, H2. cbn. unfold recv_info at 3. by rewrite He.
      * intros tb rw [Hin|Hin]%elem_of_app.
        { destruct (H3 tb rw Hin) as (? & ? & ? & Hg). split_and!; [done..|].
          destruct Hg as [Hg|Hg]; [by left|right]. apply elem_of_app. by left. }
        apply list_elem_of_singleton in Hin as [= -> ->]. split_and!; [done..|]. right.
        apply elem_of_app. right. by left.
      * intros y [Hy|Hy]%elem_of_app.
        { destruct (H4 y Hy) as [?|[tb Htb]]; [by left|right]. exists tb. apply elem_of_app. by left. }
        apply list_elem_of_singleton in Hy as ->. right. exists x. apply elem_of_app. right. by left.
Qed.

Definition local_locations : list Z := py_range (r * nl) ((r + 1) * nl).

(** ** Sends *)

(** The destinations of expert [e] on this rank. *)
Definition dests (e : Z) : list Z :=
  match element_values_from_chunk_value (same_node old new nl G (r / G) e) r,
        element_values_from_chunk_value (cross_node old new nl G e) r with
  | Ok l1, Ok l2 => l1 ++ l2
  | _, _ => []
  end.

(** A row is sent when it is the first of its expert. *)
Definition sends (x : Z) : bool :=
  match zat old x with Some e => fresh old x e | None => false end.

Definition send_info (x : Z) : Z * list P2POp :=
  let e := default 0 (zat old x) in
  (e, concat ((λ d, (λ i, isend i x d) <$> py_range 0 nt) <$> dests e)).

Lemma dests_ok e : has old r e →
  NoDup (dests e) ∧ ∀ d, d ∈ dests e ↔ d ∈ need_ranks e ∧ source_of d e = r.
Proof.
  intros Hh. apply (elem_of_src_ranks old nl G Hnl HG) in Hh.
  destruct (comm_agree old new nl G R Hnl Hold Hnew r e Hh) as (l1 & l2 & E1 & E2 & HN & HM).
  unfold dests. by rewrite E1, E2.
Qed.

Lemma isend_ok (p : plan A) x e : local x → zat old x = Some e →
  _create_isend_ops_of_logical_expert_id c p e x =
    Ok {| temp_buffers := temp_buffers p; buffer2weight_copy_infos := buffer2weight_copy_infos p;
          p2p_op_infos := p2p_op_infos p ++ [send_info x] |}.
Proof.
  intros Hx He. assert (Hh : has old r e) by (by exists x).
  apply (elem_of_src_ranks old nl G Hnl HG) in Hh.
  destruct (comm_agree old new nl G R Hnl Hold Hnew r e Hh) as (l1 & l2 & E1 & E2 & _).
  unfold _create_isend_ops_of_logical_expert_id.
  rewrite (comm_info_eq old new nl G R nt Hold Hnew r e). cbn [res_bind rank ctx_of].
  rewrite E1, E2. cbn [res_bind]. unfold send_info, dests. rewrite He. change (default 0 (Some e)) with e.
  by rewrite E1, E2.
Qed.

Lemma isend_loop (p : plan A) : ∃ p', _create_isend_ops c p = Ok p' ∧ temp_buffers p' = temp_buffers p ∧
  buffer2weight_copy_infos p' = buffer2weight_copy_infos p ∧
  p2p_op_infos p' = p2p_op_infos p ++ (send_info <$> List.filter sends local_locations).
Proof.
  unfold _create_isend_ops, local_range.
  cbn [ctx_of old_physical_to_logical_map num_local_physical_experts rank]. fold local_locations.
  set (f := λ '(p, handled) (x : Z), _).
  destruct (fold_res_inv f (λ dn (q : plan A * list Z),
    temp_buffers q.1 = temp_buffers p ∧ buffer2weight_copy_infos q.1 = buffer2weight_copy_infos p ∧
    p2p_op_infos q.1 = p2p_op_infos p ++ (send_info <$> List.filter sends dn) ∧
    ∀ e, e ∈ q.2 ↔ ∃ y, y ∈ dn ∧ zat old y = Some e) local_locations (p, [])) as ([p' h] & E & H1 & H2 & H3 & H4).
  - cbn. split_and!; [done|done|by rewrite app_nil_r|]. intros e. split; [intros H; by apply not_elem_of_nil in H|].
    intros (y & Hy & _). by apply not_elem_of_nil in Hy.
  - intros dn x rest [q h] El (H1 & H2 & H3 & H4). apply py_range_prefix in El as [Hx Hdn]. cbn in *.
    destruct (local_old x Hx) as [e He]. unfold f. rewrite (zat_py_index _ _ _ He). cbn [res_bind].
    assert (Hs : sends x = true ↔ e ∉ h).
    { unfold sends. rewrite He, fresh_spec, H4. rewrite Hdn. setoid_rewrite elem_of_py_range. naive_solver. }
    assert (Hh : ∀ e', (∃ y, y ∈ dn ++ [x] ∧ zat old y = Some e') ↔ (∃ y, y ∈ dn ∧ zat old y = Some e') ∨ e' = e).
    { intros e'. setoid_rewrite elem_of_app. setoid_rewrite list_elem_of_singleton. split.
      - intros (y & [Hy| ->] & Hz); [left; eauto|right; congruence].
      - intros [(y & Hy & Hz)| ->]; eauto. }
    destruct (mem e h) eqn:Em.
    + exists (q, h). split; [done|]. cbn. apply mem_true in Em.
      assert (sends x = false) as Hsx by (destruct (sends x); [by destruct (proj1 Hs eq_refl)|done]).
      rewrite filter_snoc, Hsx, app_nil_r. split_and!; [done..|]. intros e'. rewrite Hh, <- H4.
      split; [by left|]. by intros [?| ->].
    + rewrite (isend_ok q x e Hx He). cbn [res_bind]. eexists. split; [done|]. cbn.
      assert (Hsx : sends x = true).
      { apply Hs. intros Hin. apply mem_true in Hin. congruence. }
      rewrite filter_snoc, Hsx, fmap_app, H3, <- app_assoc. split_and!; [done..|].
      intros e'. rewrite Hh, elem_of_cons, H4. naive_solver.
  - rewrite E. cbn [res_bind]. cbn in H1, H2, H3. by exists p'.
Qed.

(** ** Before the exchange *)

Definition recv_locations : list Z := List.filter receives local_locations.
Definition send_locations : list Z := List.filter sends local_locations.

Lemma prepare_ok temp : shape temp →
  ∃ p, prepare c w temp = Ok p ∧
    p2p_op_infos p = (recv_info <$> recv_locations) ++ (send_info <$> send_locations) ∧
    shape (temp_buffers p) ∧
    (∀ tb rw, (tb, rw) ∈ buffer2weight_copy_infos p →
      local tb ∧ local rw ∧ zat new tb = zat new rw ∧ (good (temp_buffers p) tb ∨ tb ∈ recv_locations)) ∧
    (∀ x, local x → zat old x = zat new x ∨ ∃ tb, (tb, x) ∈ buffer2weight_copy_infos p).
Proof.
  intros Ht. unfold prepare. cbn [num_local_physical_experts num_gpu_per_node ctx_of].
  assert (Hsh : forallb (λ t, len t =? nl) w = true).
  { destruct Hw as [_ Hf]. rewrite Forall_forall in Hf. apply forallb_forall.
    intros t Hin%list_elem_of_In. by apply Z.eqb_eq, Hf. }
  rewrite Hsh. cbn [py_assert res_bind]. destruct (Z.eqb_spec G 0); [lia|]. cbn [guard_raise res_bind].
  unfold _handle_recv, local_range. cbn [ctx_of num_local_physical_experts rank].
  destruct (fold_res_inv (_handle_recv_of_dst_expert_location c w) planned (py_range (r * nl) ((r + 1) * nl))
    {| temp_buffers := temp; buffer2weight_copy_infos := []; p2p_op_infos := [] |}) as (p & E & [P1 P2 P3 P4]).
  - split; cbn; [done|done| |]; intros * Hin; by apply not_elem_of_nil in Hin.
  - intros dn x rest q. apply recv_step.
  - rewrite E. cbn [res_bind]. destruct (isend_loop p) as (p' & E' & I1 & I2 & I3).
    exists p'. rewrite E', I1, I2, I3, P2. split_and!; [done|done|done|done|].
    intros x Hx. apply P4. by apply elem_of_py_range.
Qed.
End plan.
