(* ===== verification/ExpertUpdateMatch.v ===== *)
(** * Sends and receives match

    For every pair of ranks the values sent, in the order of the sends, are the
    values expected, in the order of the receives: both ranks sort their operations
    by expert, and the experts concerned are the same.  So the received rows and the
    planned copies leave every row with the expert of the new map. *)

From S2P Require Import Prelude Tensor ExpertLoad ExpertPacking ExpertUpdate ExpertUpdateChunks.
From S2P Require Import ExpertUpdatePlan.

(** ** Sorted contributions *)

Definition key_le {B} (a b : Z * B) : Prop := a.1 ≤ b.1.

Lemma issue_sorted {B} (l : list (Z * B)) :
  StronglySorted key_le (py_sort (λ a b : Z * B, a.1 <? b.1) l).
Proof.
  assert (H : StronglySorted (not_after (λ a b : Z * B, a.1 <? b.1)) (py_sort (λ a b : Z * B, a.1 <? b.1) l)).
  { apply py_sort_sorted; intros *; lia. }
  induction H as [|x k _ IH Hx]; constructor; [done|]. apply (Forall_impl _ _ _ Hx).
  unfold not_after, key_le. intros y. simpl. lia.
Qed.

Lemma StronglySorted_filter {B} (Q : B → B → Prop) (f : B → bool) l :
  StronglySorted Q l → StronglySorted Q (List.filter f l).
Proof.
  induction 1 as [|x l Hl IH Hx]; [constructor|]. cbn. destruct (f x); [|done].
  constructor; [done|]. rewrite Forall_forall in Hx. apply Forall_forall.
  intros y [Hy _]%elem_of_filter_bool. auto.
Qed.

(** What a list of infos contributes when only those that satisfy [f] do, by key. *)
Lemma contributions {B C} (l : list (Z * B)) (g : Z * B → list C) (f : Z * B → bool) (h : Z → list C) :
  (∀ p, p ∈ l → g p = if f p then h p.1 else []) →
  concat (g <$> l) = concat (h <$> (List.filter f l).*1).
Proof.
  induction l as [|p l IH]; intros Hg; [done|]. cbn.
  rewrite (Hg p) by (by left). change (list_fmap _ _ g l) with (g <$> l).
  rewrite IH by (intros q Hq; apply Hg; by right). by destruct (f p).
Qed.

Lemma filter_bool_perm {B} (f : B → bool) l k : l ≡ₚ k → List.filter f l ≡ₚ List.filter f k.
Proof.
  induction 1; cbn; [done| | |by etrans].
  - destruct (f x); [by constructor|done].
  - destruct (f x), (f y); [by constructor|done..].
Qed.

Lemma sorted_keys {B} (l : list (Z * B)) (f : Z * B → bool) :
  NoDup (List.filter f l).*1 →
  StronglySorted Z.lt (List.filter f (py_sort (λ a b : Z * B, a.1 <? b.1) l)).*1.
Proof.
  intros Hn. set (k := py_sort _ l).
  assert (Hp : (List.filter f k).*1 ≡ₚ (List.filter f l).*1).
  { apply fmap_Permutation, filter_bool_perm, py_sort_perm. }
  assert (Hn' : NoDup (List.filter f k).*1) by (by rewrite Hp).
  pose proof (StronglySorted_filter key_le f k (issue_sorted l)) as Hs. clear -Hn' Hs.
  induction Hs as [|p m Hm IH Hx]; [constructor|]. cbn in *. apply NoDup_cons in Hn' as [Hne Hn'].
  constructor; [by apply IH|]. rewrite Forall_forall in Hx. apply Forall_forall.
  intros e (q & -> & Hq)%list_elem_of_fmap. pose proof (Hx q Hq) as Hle. unfold key_le in Hle.
  enough (p.1 ≠ q.1) by lia. intros E. apply Hne. rewrite E. by apply list_elem_of_fmap_2.
Qed.

Lemma sorted_lt_ext (l k : list Z) :
  StronglySorted Z.lt l → StronglySorted Z.lt k → (∀ x, x ∈ l ↔ x ∈ k) → l = k.
Proof.
  intros Hl. revert k. induction Hl as [|x l Hl IH Hx]; intros k Hk Hm.
  { destruct k as [|y k]; [done|]. exfalso. apply (not_elem_of_nil y), Hm. by left. }
  destruct Hk as [|y k Hk Hy]; [exfalso; apply (not_elem_of_nil x), Hm; by left|].
  rewrite Forall_forall in Hx. rewrite Forall_forall in Hy.
  assert (x = y) as ->.
  { destruct (proj1 (elem_of_cons _ _ _) (proj1 (Hm x) ltac:(by left))) as [|Hxk]; [done|].
    destruct (proj1 (elem_of_cons _ _ _) (proj2 (Hm y) ltac:(by left))) as [|Hyl]; [done|].
    pose proof (Hy _ Hxk). pose proof (Hx _ Hyl). lia. }
  f_equal. apply IH; [done|]. intros z. specialize (Hm z). rewrite !elem_of_cons in Hm. split; intros Hz.
  - destruct (proj1 Hm (or_intror Hz)) as [->|]; [|done]. pose proof (Hx _ Hz). lia.
  - destruct (proj2 Hm (or_intror Hz)) as [->|]; [|done]. pose proof (Hy _ Hz). lia.
Qed.

#[export] Instance P2POp_eq_dec : EqDecision P2POp.
Proof. solve_decision. Defined.

(** The contributions of the infos in [S] to the sorted list, by increasing key. *)
Lemma keyed_contributions {C} (l S : list (Z * list P2POp)) (g : Z * list P2POp → list C) (h : Z → list C) :
  (∀ p, p ∈ l → p ∈ S → g p = h p.1) → (∀ p, p ∈ l → p ∉ S → g p = []) → NoDup l.*1 →
  ∃ K, concat (g <$> py_sort (λ a b : Z * list P2POp, a.1 <? b.1) l) = concat (h <$> K) ∧
    StronglySorted Z.lt K ∧ ∀ e, e ∈ K ↔ ∃ p, p ∈ l ∧ p ∈ S ∧ p.1 = e.
Proof.
  intros Hin Hout Hn. set (f p := bool_decide (p ∈ S)).
  exists (List.filter f (py_sort (λ a b : Z * list P2POp, a.1 <? b.1) l)).*1. split_and!.
  - apply contributions. intros p Hp. rewrite py_sort_perm in Hp. unfold f.
    case_bool_decide; auto.
  - apply sorted_keys. clear -Hn. induction l as [|p l IH]; [done|]. cbn in *.
    apply NoDup_cons in Hn as [Hp Hn]. destruct (f p); [|by apply IH]. cbn. apply NoDup_cons.
    split; [|by apply IH]. intros (q & E & [Hq _]%elem_of_filter_bool)%list_elem_of_fmap.
    apply Hp. rewrite E. by apply list_elem_of_fmap_2.
  - intros e. rewrite list_elem_of_fmap. setoid_rewrite elem_of_filter_bool.
    setoid_rewrite py_sort_perm. unfold f. setoid_rewrite bool_decide_eq_true. naive_solver.
Qed.

Lemma omap_concat_map {B C D} (f : B → option C) (g : D → list B) (l : list D) :
  omap f (concat (g <$> l)) = concat ((λ x, omap f (g x)) <$> l).
Proof. induction l as [|x l IH]; [done|]. cbn. by rewrite omap_app, IH. Qed.

(** One element of a list without repetition contributes [v], the others nothing. *)
Lemma concat_pick {C} (d : Z) (v : list C) (g : Z → list C) l :
  NoDup l → (∀ x, g x = if x =? d then v else []) → concat (g <$> l) = if mem d l then v else [].
Proof.
  intros Hn Hg. induction Hn as [|x l Hx Hn IH]; [done|]. rewrite fmap_cons. cbn [concat].
  rewrite IH, Hg. cbn [mem existsb]. destruct (Z.eqb_spec x d) as [->|Hne].
  - rewrite Z.eqb_refl. cbn. destruct (mem d l) eqn:E; [by apply mem_true in E|]. by rewrite app_nil_r.
  - destruct (Z.eqb_spec d x); [congruence|]. done.
Qed.

Section matching.
Context {A : Type} (content : Z → Z → A).
Context (old new : list Z) (nl G R nt : Z).
Context (Hnl : 0 < nl) (HG : 0 < G) (HR : 0 ≤ R) (Hnt : 0 ≤ nt).
Context (Hold : len old = R * nl) (Hnew : len new = R * nl).
Context (Hsrc : ∀ e x, zat new x = Some e → src_ranks old nl e ≠ []).

Local Notation has := (has nl).
Local Notation need_ranks := (need_ranks old new nl).
Local Notation source_of := (source_of old new nl G).
Local Notation recv_info := (recv_info old new nl G nt).
Local Notation send_info := (send_info old new nl G nt).
Local Notation recv_locations := (recv_locations old new nl).
Local Notation send_locations := (send_locations old nl).
Local Notation dests := (dests old new nl G).

Definition infos (r : Z) : list (Z * list P2POp) :=
  (recv_info r <$> recv_locations r) ++ (send_info r <$> send_locations r).

Definition issued (r : Z) : list P2POp := concat (py_sort (λ a b : Z * list P2POp, a.1 <? b.1) (infos r)).*2.

Lemma elem_of_issued r op : op ∈ issued r ↔ ∃ info, info ∈ infos r ∧ op ∈ info.2.
Proof.
  unfold issued. rewrite list_elem_of_In, in_concat. setoid_rewrite <- list_elem_of_In. split.
  - intros (l & (info & -> & Hi)%list_elem_of_fmap & Ho). rewrite py_sort_perm in Hi. eauto.
  - intros (info & Hi & Ho). exists info.2. split; [|done]. apply list_elem_of_fmap_2. by rewrite py_sort_perm.
Qed.

(** ** The locations of the experts *)

Lemma first_location m r e : len m = R * nl → has m r e →
  ∃ x, local nl r x ∧ zat m x = Some e ∧ ∀ y, r * nl ≤ y < x → zat m y ≠ Some e.
Proof.
  intros Hm Hh. pose proof (has_rank nl R Hnl m r e Hm Hh) as Hr.
  destruct (find_location_ok m (r * nl) ((r + 1) * nl) e) as (o & _ & Ho).
  { intros x Hx. apply zat_in. nia. }
  destruct o as [x|]; [by exists x|]. destruct Hh as (x & Hx & Hz). by destruct (Ho x Hx).
Qed.

Lemma elem_of_recv_locations r x : 0 ≤ r < R → x ∈ recv_locations r ↔
  local nl r x ∧ ∃ e, zat new x = Some e ∧ ¬ has old r e ∧ ∀ y, r * nl ≤ y < x → zat new y ≠ Some e.
Proof.
  intros Hr. unfold recv_locations, local_locations. rewrite elem_of_filter_bool, elem_of_py_range.
  split; intros [Hx Hrec]; (split; [done|]).
  - destruct (zat_in new x) as [e He]; [nia|]. exists e. split; [done|].
    by apply (receives_spec old new nl G Hnl HG r x e He).
  - destruct Hrec as (e & He & Hrec). by apply (receives_spec old new nl G Hnl HG r x e He).
Qed.

Lemma elem_of_send_locations r x : 0 ≤ r < R → x ∈ send_locations r ↔
  local nl r x ∧ ∃ e, zat old x = Some e ∧ ∀ y, r * nl ≤ y < x → zat old y ≠ Some e.
Proof.
  intros Hr. unfold send_locations, local_locations. rewrite elem_of_filter_bool, elem_of_py_range.
  split; intros [Hx Hs]; (split; [done|]).
  - destruct (zat_in old x) as [e He]; [nia|]. exists e. split; [done|].
    unfold sends in Hs. rewrite He in Hs. by apply fresh_spec.
  - destruct Hs as (e & He & Hs). unfold sends. rewrite He. by apply fresh_spec.
Qed.

(** First locations of different rows are of different experts. *)
Lemma firsts_NoDup m (l : list Z) r : NoDup l →
  (∀ x, x ∈ l → local nl r x ∧ ∃ e, zat m x = Some e ∧ ∀ y, r * nl ≤ y < x → zat m y ≠ Some e) →
  NoDup ((λ x, default 0 (zat m x)) <$> l).
Proof.
  intros Hl Hf. apply NoDup_fmap_2_strong; [|done]. intros x y Hx Hy E.
  destruct (Hf x Hx) as (Hxl & e & He & Hxf). destruct (Hf y Hy) as (Hyl & e' & He' & Hyf).
  rewrite He, He' in E. cbn in E. subst e'. unfold local in *.
  destruct (Z.lt_total x y) as [Hlt|[|Hlt]]; [|done|].
  - by destruct (Hyf x ltac:(lia)).
  - by destruct (Hxf y ltac:(lia)).
Qed.

Lemma NoDup_local r (f : Z → bool) : NoDup (List.filter f (local_locations nl r)).
Proof. apply NoDup_filter_bool, NoDup_py_range. Qed.

Lemma infos_keys_NoDup r : 0 ≤ r < R → NoDup (infos r).*1.
Proof.
  intros Hr. unfold infos. rewrite fmap_app, <- !list_fmap_compose. apply NoDup_app. split_and!.
  - apply (firsts_NoDup new _ r); [apply NoDup_local|].
    intros x (Hx & e & He & _ & Hf)%elem_of_recv_locations; [|done]. split; [done|]. by exists e.
  - intros k Hk1 Hk2.
    apply list_elem_of_fmap in Hk1 as (x & -> & Hx). apply list_elem_of_fmap in Hk2 as (y & E & Hy).
    apply elem_of_recv_locations in Hx as (Hx & e & He & Hno & _); [|done].
    apply elem_of_send_locations in Hy as (Hy & e' & He' & _); [|done].
    cbn in E. rewrite He, He' in E. cbn in E. subst e'. apply Hno. by exists y.
  - apply (firsts_NoDup old _ r); [apply NoDup_local|].
    intros x (Hx & e & He & Hf)%elem_of_send_locations; [|done]. split; [done|]. by exists e.
Qed.

(** ** Sent and expected values *)

Definition values (e : Z) : list A := (λ i, content i e) <$> py_range 0 nt.

Definition sent_op (d : Z) (op : P2POp) : option A :=
  match op with
  | isend i x peer => if peer =? d then Some (content i (default 0 (zat old x))) else None
  | irecv _ _ _ => None
  end.

Definition expected_op (s : Z) (op : P2POp) : option A :=
  match op with
  | irecv i x peer => if peer =? s then Some (content i (default 0 (zat new x))) else None
  | isend _ _ _ => None
  end.

Lemma omap_const_none {B C} (f : B → option C) (l : list B) : (∀ x, x ∈ l → f x = None) → omap f l = [].
Proof.
  induction l as [|x l IH]; intros Hf; [done|]. cbn. rewrite (Hf x) by (by left).
  apply IH. intros y Hy. apply Hf. by right.
Qed.

Lemma omap_fmap_some {B C D} (f : C → option D) (g : B → C) (h : B → D) (l : list B) :
  (∀ x, x ∈ l → f (g x) = Some (h x)) → omap f (g <$> l) = h <$> l.
Proof.
  induction l as [|x l IH]; intros Hf; [done|]. cbn. rewrite (Hf x) by (by left). f_equal.
  apply IH. intros y Hy. apply Hf. by right.
Qed.

Lemma sent_send_info s d x : NoDup (dests s (default 0 (zat old x))) →
  omap (sent_op d) (send_info s x).2 =
    if mem d (dests s (default 0 (zat old x))) then values (send_info s x).1 else [].
Proof.
  intros Hn. cbn [send_info snd fst]. unfold send_info. cbn [fst snd].
  rewrite omap_concat_map. apply concat_pick; [done|]. intros d'.
  destruct (Z.eqb_spec d' d) as [->|Hne].
  - apply omap_fmap_some. intros i _. cbn. by rewrite Z.eqb_refl.
  - apply omap_const_none. intros op (i & -> & _)%list_elem_of_fmap. cbn.
    destruct (Z.eqb_spec d' d); [done|done].
Qed.

Lemma sent_recv_info r d x : omap (sent_op d) (recv_info r x).2 = [].
Proof. apply omap_const_none. by intros op (i & -> & _)%list_elem_of_fmap. Qed.

Lemma expected_recv_info r s x : omap (expected_op s) (recv_info r x).2 =
  if source_of r (default 0 (zat new x)) =? s then values (recv_info r x).1 else [].
Proof.
  unfold recv_info. cbn [fst snd]. set (e := default 0 (zat new x)).
  destruct (Z.eqb_spec (source_of r e) s) as [E|Hne].
  - apply omap_fmap_some. intros i _. cbn. by rewrite E, Z.eqb_refl.
  - apply omap_const_none. intros op (i & -> & _)%list_elem_of_fmap. cbn.
    destruct (Z.eqb_spec (source_of r e) s); [done|done].
Qed.

Lemma expected_send_info r s x : omap (expected_op s) (send_info r x).2 = [].
Proof.
  apply omap_const_none. unfold send_info. cbn [snd].
  intros op (l & Hl & Hop)%list_elem_of_In%in_concat.
  apply list_elem_of_In, list_elem_of_fmap in Hl as (d & -> & _).
  by apply list_elem_of_In, list_elem_of_fmap in Hop as (i & -> & _).
Qed.

Lemma omap_issued {C} (f : P2POp → option C) r :
  omap f (issued r) = concat ((λ p : Z * list P2POp, omap f p.2) <$>
    py_sort (λ a b : Z * list P2POp, a.1 <? b.1) (infos r)).
Proof. unfold issued. by rewrite omap_concat_map. Qed.

(** The values rank [s] sends to rank [d] are those [d] expects from [s]. *)
Lemma sends_match s d : 0 ≤ s < R → 0 ≤ d < R →
  omap (sent_op d) (issued s) = omap (expected_op s) (issued d).
Proof.
  intros Hs Hd. rewrite !omap_issued.
  set (S1 := send_info s <$> List.filter (λ x, mem d (dests s (default 0 (zat old x)))) (send_locations s)).
  set (S2 := recv_info d <$> List.filter (λ x, source_of d (default 0 (zat new x)) =? s) (recv_locations d)).
  destruct (keyed_contributions (infos s) S1 (λ p, omap (sent_op d) p.2) values) as (K1 & -> & HK1 & HM1).
  { intros p Hp (x & -> & [Hx Hm]%elem_of_filter_bool)%list_elem_of_fmap.
    pose proof Hx as (Hxl & e & He & _)%elem_of_send_locations; [|done].
    rewrite sent_send_info, Hm; [done|]. rewrite He. cbn.
    apply (dests_ok old new nl G R Hnl HG Hold Hnew s e). by exists x. }
  { intros p [(x & -> & Hx)%list_elem_of_fmap|(x & -> & Hx)%list_elem_of_fmap]%elem_of_app Hp.
    - apply sent_recv_info.
    - pose proof Hx as (Hxl & e & He & _)%elem_of_send_locations; [|done].
      rewrite sent_send_info.
      2:{ rewrite He. cbn. apply (dests_ok old new nl G R Hnl HG Hold Hnew s e). by exists x. }
      destruct (mem d (dests s (default 0 (zat old x)))) eqn:Em; [|done]. exfalso. apply Hp.
      apply list_elem_of_fmap_2. by apply elem_of_filter_bool. }
  { by apply infos_keys_NoDup. }
  destruct (keyed_contributions (infos d) S2 (λ p, omap (expected_op s) p.2) values) as (K2 & -> & HK2 & HM2).
  { intros p Hp (x & -> & [Hx Hm]%elem_of_filter_bool)%list_elem_of_fmap. by rewrite expected_recv_info, Hm. }
  { intros p [(x & -> & Hx)%list_elem_of_fmap|(x & -> & Hx)%list_elem_of_fmap]%elem_of_app Hp.
    - rewrite expected_recv_info.
      destruct (source_of d (default 0 (zat new x)) =? s) eqn:Em; [|done]. exfalso. apply Hp.
      apply list_elem_of_fmap_2. by apply elem_of_filter_bool.
    - apply expected_send_info. }
  { by apply infos_keys_NoDup. }
  f_equal. f_equal. apply sorted_lt_ext; [done..|]. intros e. rewrite HM1, HM2. split.
  - intros (p & _ & (x & -> & [Hx Hm]%elem_of_filter_bool)%list_elem_of_fmap & <-).
    pose proof Hx as (Hxl & e & He & _)%elem_of_send_locations; [|done]. cbn. rewrite He in Hm |- *. cbn in Hm |- *.
    apply mem_true, (dests_ok old new nl G R Hnl HG Hold Hnew s e) in Hm as [Hneed Hsrc']; [|by exists x].
    apply (elem_of_need_ranks old new nl G R Hnl HG Hold Hnew) in Hneed as [Hh Hno].
    destruct (first_location new d e Hnew Hh) as (y & Hy & Hye & Hyf).
    assert (Hyr : y ∈ recv_locations d) by (apply elem_of_recv_locations; [done|]; split; [done|by exists e]).
    exists (recv_info d y). split_and!.
    + apply elem_of_app. left. by apply list_elem_of_fmap_2.
    + apply list_elem_of_fmap_2, elem_of_filter_bool. split; [done|]. rewrite Hye. by apply Z.eqb_eq.
    + cbn. by rewrite Hye.
  - intros (p & _ & (x & -> & [Hx Hm]%elem_of_filter_bool)%list_elem_of_fmap & <-).
    pose proof Hx as (Hxl & e & He & Hno & _)%elem_of_recv_locations; [|done].
    cbn. rewrite He in Hm |- *. cbn in Hm |- *. apply Z.eqb_eq in Hm.
    assert (Hneed : d ∈ need_ranks e).
    { apply (elem_of_need_ranks old new nl G R Hnl HG Hold Hnew). split; [by exists x|done]. }
    destruct (chosen_ok old new nl G R Hnl Hold Hnew d e Hneed (Hsrc e x He)) as [_ Hin].
    rewrite Hm in Hin. apply (elem_of_src_ranks old nl G Hnl HG) in Hin.
    destruct (first_location old s e Hold Hin) as (y & Hy & Hye & Hyf).
    assert (Hys : y ∈ send_locations s) by (apply elem_of_send_locations; [done|]; split; [done|by exists e]).
    exists (send_info s y). split_and!.
    + apply elem_of_app. right. by apply list_elem_of_fmap_2.
    + apply list_elem_of_fmap_2, elem_of_filter_bool. split; [done|]. rewrite Hye. cbn.
      apply mem_true. by apply (dests_ok old new nl G R Hnl HG Hold Hnew s e Hin).
    + cbn. by rewrite Hye.
Qed.
End matching.

(** Values received from the same peers, and equal peer by peer, are equal. *)
Lemma values_by_peer {A} (ps : list Z) (v v' : list A) :
  length v = length ps → length v' = length ps →
  (∀ s, s ∈ ps → List.filter (λ p : Z * A, p.1 =? s) (zip ps v) = List.filter (λ p : Z * A, p.1 =? s) (zip ps v')) →
  v = v'.
Proof.
  revert v v'. induction ps as [|p ps IH]; intros [|x v] [|x' v'] H1 H2 Hf; try done. cbn in H1, H2.
  pose proof (Hf p ltac:(by left)) as Hp. cbn in Hp. rewrite Z.eqb_refl in Hp. injection Hp as -> Hp.
  f_equal. apply IH; [lia|lia|]. intros s Hs. destruct (decide (p = s)) as [->|Hne]; [done|].
  pose proof (Hf s ltac:(by right)) as Hfs. cbn in Hfs. by destruct (Z.eqb_spec p s).
Qed.

Lemma filter_zip_snd {A} (ps : list Z) (v v' : list A) s :
  (List.filter (λ p : Z * A, p.1 =? s) (zip ps v)).*2 = (List.filter (λ p : Z * A, p.1 =? s) (zip ps v')).*2 →
  List.filter (λ p : Z * A, p.1 =? s) (zip ps v) = List.filter (λ p : Z * A, p.1 =? s) (zip ps v').
Proof.
  set (l := List.filter _ (zip ps v)). set (k := List.filter _ (zip ps v')). intros E.
  assert (H : ∀ w : list A, (λ p : Z * A, (s, p.2)) <$> List.filter (λ p : Z * A, p.1 =? s) (zip ps w) =
    List.filter (λ p : Z * A, p.1 =? s) (zip ps w)).
  { intros w. induction (zip ps w) as [|[a b] m IH]; [done|]. cbn. destruct (Z.eqb_spec a s) as [->|]; [|done].
    cbn. by rewrite IH. }
  unfold l, k. rewrite <- (H v), <- (H v'). fold l k.
  trans (pair s <$> l.*2); [by rewrite <- list_fmap_compose|]. rewrite E. by rewrite <- list_fmap_compose.
Qed.

Section exchange.
Context {A : Type} (content : Z → Z → A).
Context (old new : list Z) (nl G R nt : Z).
Context (Hnl : 0 < nl) (HG : 0 < G) (HR : 0 ≤ R) (Hnt : 0 ≤ nt).
Context (Hold : len old = R * nl) (Hnew : len new = R * nl).
Context (Hsrc : ∀ e x, zat new x = Some e → src_ranks old nl e ≠ []).

Local Notation has := (has nl).
Local Notation need_ranks := (need_ranks old new nl).
Local Notation source_of := (source_of old new nl G).
Local Notation recv_locations := (recv_locations old new nl).
Local Notation send_locations := (send_locations old nl).
Local Notation issued := (issued old new nl G nt).
Local Notation local := (local nl).
Local Notation cell := (cell nl).
Local Notation shape := (shape nl nt).
Local Notation row_is := (row_is content nl nt).
Local Notation good := (good content new nl nt).
Local Notation ctx r := (ctx_of old new nl G nt r).

(** ** On the wire *)

Definition wire_op (op : P2POp) : wire A :=
  match op with
  | isend i x peer => Send (content i (default 0 (zat old x))) peer
  | irecv _ _ peer => Recv peer
  end.

Lemma issued_isend r i x d : 0 ≤ r < R → isend i x d ∈ issued r →
  local r x ∧ 0 ≤ i < nt ∧ 0 ≤ d < R ∧ ∃ e, zat old x = Some e.
Proof.
  intros Hr (info & [Hi|Hi]%elem_of_app & Ho)%elem_of_issued.
  { apply list_elem_of_fmap in Hi as (y & -> & _). by apply list_elem_of_fmap in Ho as (j & [=] & _). }
  apply list_elem_of_fmap in Hi as (y & -> & Hy). cbn [send_info snd] in Ho.
  apply (elem_of_send_locations old nl R Hnl Hold) in Hy as (Hl & e & He & _); [|done].
  unfold send_info in Ho. cbn [snd] in Ho. rewrite He in Ho. cbn [default from_option] in Ho.
  apply list_elem_of_In, in_concat in Ho as (l & Hl' & Ho). apply list_elem_of_In in Hl', Ho.
  apply list_elem_of_fmap in Hl' as (d' & -> & Hd). apply list_elem_of_fmap in Ho as (j & [= -> -> ->] & Hj).
  apply elem_of_py_range in Hj. split_and!; [done|lia|lia| | |by exists e].
  all: apply (dests_ok old new nl G R Hnl HG Hold Hnew r e) in Hd as [Hd _]; [|by exists y].
  all: apply (elem_of_need_ranks old new nl G R Hnl HG Hold Hnew) in Hd as [Hd _].
  all: pose proof (has_rank nl R Hnl new d' e Hnew Hd); lia.
Qed.

Lemma recv_source r x e : 0 ≤ r < R → x ∈ recv_locations r → zat new x = Some e → 0 ≤ source_of r e < R.
Proof.
  intros Hr (Hx & e' & He' & Hno & _)%(elem_of_recv_locations old new nl G R Hnl HG Hnew) He; [|done].
  assert (e' = e) as -> by congruence.
  destruct (chosen_ok old new nl G R Hnl Hold Hnew r e) as [_ Hin].
  { apply (elem_of_need_ranks old new nl G R Hnl HG Hold Hnew). split; [by exists x|done]. }
  { by apply (Hsrc e x). }
  apply (elem_of_src_ranks old nl G Hnl HG) in Hin. by apply (has_rank nl R Hnl old _ e).
Qed.

Lemma issued_irecv r i x s : 0 ≤ r < R →
  irecv i x s ∈ issued r ↔ 0 ≤ i < nt ∧ x ∈ recv_locations r ∧ s = source_of r (default 0 (zat new x)).
Proof.
  intros Hr. rewrite elem_of_issued. split.
  - intros (info & [Hi|Hi]%elem_of_app & Ho).
    + apply list_elem_of_fmap in Hi as (y & -> & Hy). cbn [recv_info snd] in Ho.
      apply list_elem_of_fmap in Ho as (j & [= -> -> ->] & Hj%elem_of_py_range). done.
    + apply list_elem_of_fmap in Hi as (y & -> & _). cbn [send_info snd] in Ho.
      apply list_elem_of_In, in_concat in Ho as (l & Hl & Ho). apply list_elem_of_In in Hl, Ho.
      apply list_elem_of_fmap in Hl as (d' & -> & _). by apply list_elem_of_fmap in Ho as (j & [=] & _).
  - intros (Hi & Hx & ->). exists (recv_info old new nl G nt r x). split.
    + apply elem_of_app. left. by apply list_elem_of_fmap_2.
    + cbn [recv_info snd]. unfold recv_info. cbn [snd].
      apply (list_elem_of_fmap_2 (λ i, irecv i x _)). by apply elem_of_py_range.
Qed.

Lemma issued_irecv_source r i x s : 0 ≤ r < R → irecv i x s ∈ issued r → 0 ≤ s < R.
Proof.
  intros Hr (_ & Hx & ->)%issued_irecv; [|done].
  pose proof Hx as (_ & e & He & _)%(elem_of_recv_locations old new nl G R Hnl HG Hnew); [|done].
  rewrite He. cbn. by apply (recv_source r x e).
Qed.

Lemma wires_ok r (w : list (list A)) : 0 ≤ r < R →
  (∀ x e, local r x → zat old x = Some e → row_is w x e) →
  mapM_res (on_wire (ctx r) w) (issued r) = Ok (wire_op <$> issued r).
Proof.
  intros Hr Hw. apply mapM_res_ok, Forall_forall. intros [i x d|i x s] Hop; [|done]. cbn.
  apply issued_isend in Hop as (Hx & Hi & _ & e & He); [|done]. rewrite He. cbn.
  rewrite (get_tensor_ok old new nl G nt r w i x (content i e)); [done|done|]. by apply (Hw x e).
Qed.

Lemma sent_to_wire d l : sent_to d (wire_op <$> l) = omap (sent_op content old d) l.
Proof.
  induction l as [|[i x p|i x p] l IH]; [done| |done]. cbn in *. destruct (p =? d); [|done]. by f_equal.
Qed.

(** The values a rank expects, in the order of its receives. *)
Definition expected (l : list P2POp) : list A :=
  omap (λ op, match op with irecv i x _ => Some (content i (default 0 (zat new x))) | _ => None end) l.

Lemma length_expected l : length (expected l) = length (recv_peers (wire_op <$> l)).
Proof. induction l as [|[i x p|i x p] l IH]; [done|done|]. cbn in *. by f_equal. Qed.

Lemma expected_by_peer s l :
  received_from s (wire_op <$> l) (expected l) = omap (expected_op content new s) l.
Proof.
  unfold received_from. induction l as [|[i x p|i x p] l IH]; [done|done|]. cbn in *.
  destruct (p =? s); [|done]. cbn. by f_equal.
Qed.

Lemma length_recv_from s l :
  length (List.filter (λ p, p =? s) (recv_peers (wire_op <$> l))) = length (omap (expected_op content new s) l).
Proof. induction l as [|[i x p|i x p] l IH]; [done|done|]. cbn in *. destruct (p =? s); [|done]. cbn. by f_equal. Qed.

Lemma peers_in_range r : 0 ≤ r < R →
  Forall (λ p, 0 ≤ p < R) (recv_peers (wire_op <$> issued r)) ∧
  Forall (λ p, 0 ≤ p < R) (send_peers (wire_op <$> issued r)).
Proof.
  intros Hr. split; apply Forall_forall; intros p (o & Ho & E)%list_elem_of_omap;
    apply list_elem_of_fmap in Ho as (op & -> & Hop); destruct op as [i x d|i x d]; cbn in E; simplify_eq.
  - by apply issued_irecv_source in Hop.
  - by apply issued_isend in Hop as (_ & _ & ? & _).
Qed.

(** All ranks complete and each receives what it expects. *)
Lemma exchange_ok `{P2PLaws} :
  ∃ vals, batch_isend_irecv A ((λ r, wire_op <$> issued r) <$> py_range 0 R) = Some vals ∧ len vals = R ∧
    ∀ r v, zat vals r = Some v → v = expected (issued r).
Proof.
  set (ops := (λ r, wire_op <$> issued r) <$> py_range 0 R).
  assert (Hlen : len ops = R) by (unfold ops; rewrite len_fmap, len_py_range by lia; lia).
  assert (Hops : ∀ r o, zat ops r = Some o → 0 ≤ r < R ∧ o = wire_op <$> issued r).
  { intros r o Ho. unfold ops in Ho. rewrite zat_fmap in Ho.
    destruct (zat (py_range 0 R) r) as [r'|] eqn:E; [|done]. apply zat_range0 in E as [Hr ->].
    by injection Ho as <-. }
  destruct (exchange_matched A ops) as (vals & E & Hv & Hrecv).
  - intros s d os od [Hs ->]%Hops [Hd ->]%Hops. rewrite sent_to_wire, length_recv_from.
    f_equal. by apply (sends_match content old new nl G R nt).
  - intros d od [Hd ->]%Hops. rewrite Hlen. by apply peers_in_range.
  - exists vals. split_and!; [done|lia|]. intros r v Hz. pose proof (zat_Some_bound _ _ _ Hz) as Hr.
    destruct (zat_in ops r) as [o Ho]; [lia|]. destruct (Hrecv r o v Ho Hz) as [Hl Hf].
    apply Hops in Ho as [Hr' ->]. apply (values_by_peer (recv_peers (wire_op <$> issued r))); [done|apply length_expected|].
    intros s Hs. apply filter_zip_snd.
    destruct (peers_in_range r Hr') as [Hp _]. rewrite Forall_forall in Hp. specialize (Hp s Hs).
    change (received_from s (wire_op <$> issued r) v = received_from s (wire_op <$> issued r) (expected (issued r))).
    destruct (zat_in ops s) as [os Hos]; [lia|]. rewrite (Hf s os Hos). apply Hops in Hos as [_ ->].
    rewrite sent_to_wire, expected_by_peer. by apply (sends_match content old new nl G R nt).
Qed.
End exchange.
