(* ===== verification/ExpertUpdateSpec.v ===== *)
(** * Correctness of the expert weight transfer

    [update_expert_weights_ok]: when every rank runs
    [update_expert_weights_single_layer] with the same maps, the exchange completes
    and every rank ends with the weights of the new map. *)

From S2P Require Import Prelude Tensor ExpertLoad ExpertPacking ExpertUpdate ExpertUpdateChunks.
From S2P Require Import ExpertUpdatePlan ExpertUpdateMatch.

(** ** The end of one rank *)

Section finish.
Context {A : Type} (content : Z → Z → A).
Context (old new : list Z) (nl G R nt : Z).
Context (Hnl : 0 < nl) (HG : 0 < G) (HR : 0 ≤ R) (Hnt : 0 ≤ nt).
Context (Hold : len old = R * nl) (Hnew : len new = R * nl).
Context (Hsrc : ∀ e x, zat new x = Some e → src_ranks old nl e ≠ []).
Context (r : Z) (Hr : 0 ≤ r < R).

Local Notation local := (local nl r).
Local Notation cell := (cell nl).
Local Notation shape := (shape nl nt).
Local Notation row_is := (row_is content nl nt).
Local Notation good := (good content new nl nt).
Local Notation recv_locations := (recv_locations old new nl).
Local Notation issued := (issued old new nl G nt).
Local Notation c := (ctx_of old new nl G nt r).

(** The value the new map wants in a cell. *)
Definition wanted (temp : list (list A)) (i x : Z) : Prop :=
  cell temp i x = Some (content i (default 0 (zat new x))).

Lemma good_wanted temp x : local x → good temp x ↔ ∀ i, 0 ≤ i < nt → wanted temp i x.
Proof.
  intros Hx. destruct (zat_in new x) as [e He]; [unfold ExpertUpdatePlan.local in Hx; nia|].
  unfold wanted. rewrite He. split.
  - intros Hg i Hi. by apply (Hg e He).
  - intros Hw e' He' i Hi. rewrite He in He'. injection He' as <-. by apply Hw.
Qed.

Lemma store_received_ok ops temp : shape temp →
  (∀ i x s, irecv i x s ∈ ops → local x ∧ 0 ≤ i < nt) →
  ∃ temp', store_received c temp ops (expected content new ops) = Ok temp' ∧ shape temp' ∧
    ∀ i x, local x → wanted temp i x ∨ (∃ s, irecv i x s ∈ ops) → wanted temp' i x.
Proof.
  revert temp. induction ops as [|op ops IH]; intros temp Ht Hops.
  { exists temp. split_and!; [done|done|]. intros i x _ [?|[s Hs]]; [done|]. by apply not_elem_of_nil in Hs. }
  assert (Hops' : ∀ i x s, irecv i x s ∈ ops → local x ∧ 0 ≤ i < nt) by (intros i x s Hi; apply (Hops i x s); by right).
  destruct op as [i x d|i x s]; cbn.
  - destruct (IH temp Ht Hops') as (t' & E & Hs & Hw). exists t'. split_and!; [done|done|].
    intros j y Hy [?|[s Hin]]; apply Hw; [done|by left|done|]. right. exists s.
    by apply elem_of_cons in Hin as [[=]|].
  - destruct (Hops i x s ltac:(by left)) as [Hx Hi].
    destruct (copy_to_ok old new nl G nt Hnl r temp i x (content i (default 0 (zat new x))) Ht Hi Hx)
      as (t1 & -> & Ht1 & Hc). cbn [res_bind]. destruct (IH t1 Ht1 Hops') as (t' & E & Hs & Hw).
    exists t'. split_and!; [done|done|]. intros j y Hy Hor. apply Hw; [done|].
    destruct (decide (i = j ∧ x = y)) as [[-> ->]|Hne].
    + left. unfold wanted. rewrite Hc by done. by rewrite decide_True.
    + destruct Hor as [Hw'|[s' Hin]]; [left|right].
      * unfold wanted. rewrite Hc by done. by rewrite decide_False.
      * exists s'. apply elem_of_cons in Hin as [[= -> -> ->]|]; [|done]. by destruct Hne.
Qed.

(** The copies make their rows good and leave the others alone. *)
Lemma copies_ok (w temp : list (list A)) copies : shape w → shape temp →
  (∀ tb rw, (tb, rw) ∈ copies → local tb ∧ local rw ∧ zat new tb = zat new rw ∧ good temp tb) →
  ∃ w', _execute_buffer2weight_copies c w temp copies = Ok w' ∧ shape w' ∧
    ∀ x, local x → good w x ∨ (∃ tb, (tb, x) ∈ copies) → good w' x.
Proof.
  intros Hw Ht Hc. unfold _execute_buffer2weight_copies.
  destruct (fold_res_inv (λ weights '(tb, rw), fold_res (λ weights i,
        let! x := _get_tensor c temp i tb in copy_to c weights i rw x)
      weights (py_range 0 (num_tensors c)))
    (λ dn v, shape v ∧ ∀ x, local x → good w x ∨ (∃ tb, (tb, x) ∈ dn) → good v x) copies w)
    as (w' & E & H1 & H2); [| |by exists w'].
  - split; [done|]. intros x _ [?|[tb Htb]]; [done|]. by apply not_elem_of_nil in Htb.
  - intros dn [tb rw] rest v El [Hv Hg]. destruct (Hc tb rw) as (Hl1 & Hl2 & Enew & Hgood).
    { rewrite El. apply elem_of_app. right. by left. }
    destruct (zat_in new tb) as [e He]; [unfold ExpertUpdatePlan.local in Hl1; nia|].
    destruct (copy_row_ok content old new nl G nt Hnl r temp v tb rw e Ht Hv Hl1 Hl2 (Hgood e He))
      as (v' & Ev & Hv' & Hrow & Hoth).
    exists v'. cbn [num_tensors ctx_of]. rewrite Ev. split_and!; [done|done|]. intros x Hx Hor.
    assert (Hgrw : good v' rw).
    { intros e' He'. rewrite <- Enew, He in He'. by injection He' as <-. }
    destruct (decide (x = rw)) as [->|Hne]; [done|].
    apply (good_update content new nl nt r v v' rw x); [done|done|done|]. apply Hg; [done|].
    destruct Hor as [?|[tb' Hin]]; [by left|right]. exists tb'.
    apply elem_of_app in Hin as [|Hin]; [done|]. by apply list_elem_of_singleton in Hin as [= _ ->].
Qed.

Lemma rank_finish_ok (w temp : list (list A)) (p : plan A) : shape w →
  (∀ x e, local x → zat old x = Some e → row_is w x e) → shape temp → prepare c w temp = Ok p →
  issued_ops p = issued r ∧
  ∃ w' t', finish c w p (expected content new (issued r)) = Ok (w', t') ∧ shape w' ∧ shape t' ∧
    ∀ x e, local x → zat new x = Some e → row_is w' x e.
Proof.
  intros Hw Hrows Ht Hp.
  destruct (prepare_ok content old new nl G R nt Hnl HG Hold Hnew r Hr w Hw Hrows Hsrc temp Ht)
    as (p' & E & Hinfos & Hsh & Hcopies & Hcover).
  rewrite Hp in E. injection E as <-.
  assert (Hissued : issued_ops p = issued r) by (unfold issued_ops; by rewrite Hinfos).
  split; [done|]. unfold finish. rewrite Hissued.
  destruct (store_received_ok (issued r) (temp_buffers p) Hsh) as (t & -> & Hts & Htw).
  { intros i x s (Hi & Hx & _)%(issued_irecv old new nl G R nt); [|done].
    apply (elem_of_recv_locations old new nl G R Hnl HG Hnew) in Hx as (Hx & _); [|done]. done. }
  cbn [res_bind].
  destruct (copies_ok w t (buffer2weight_copy_infos p) Hw Hts) as (w' & E & Hws & Hwg).
  - intros tb rw Hin. destruct (Hcopies tb rw Hin) as (Hl1 & Hl2 & En & Hg). split_and!; [done..|].
    apply good_wanted; [done|]. intros i Hi. apply Htw; [done|]. destruct Hg as [Hg|Hg].
    + left. by apply (proj1 (good_wanted _ _ Hl1) Hg).
    + right. eexists. by apply (issued_irecv old new nl G R nt).
  - rewrite E. cbn [res_bind]. exists w', t. split_and!; [done|done|done|]. intros x e Hx He.
    enough (Hg : good w' x) by (by apply Hg). apply Hwg; [done|].
    destruct (Hcover x Hx) as [Eo|Hc]; [left|by right].
    intros e' He'. apply Hrows; [done|congruence].
Qed.
End finish.

(** ** All ranks *)

(** Rank [r] holds the experts that map [m] gives it. *)
Definition holds {A} (content : Z → Z → A) (m : list Z) (nl nt r : Z) (w : list (list A)) : Prop :=
  shape nl nt w ∧ ∀ x e, local nl r x → zat m x = Some e → row_is content nl nt w x e.

Lemma mapM_ranks {B C D} (g : D * B → res C) (f : Z → D) (Q : Z → B → C → Prop) n (l : list B) : len l = n →
  (∀ r x, zat l r = Some x → ∃ y, g (f r, x) = Ok y ∧ Q r x y) →
  ∃ ys, mapM_res g (zip (f <$> py_range 0 n) l) = Ok ys ∧ len ys = n ∧
    ∀ r x y, zat l r = Some x → zat ys r = Some y → g (f r, x) = Ok y ∧ Q r x y.
Proof.
  intros Hn Hf. pose proof (len_nonneg l) as H0.
  assert (Hzip : ∀ i d x, zat (zip (f <$> py_range 0 n) l) i = Some (d, x) → d = f i ∧ zat l i = Some x).
  { intros i d x [Hd Hx]%zat_zip. split; [|done]. rewrite zat_fmap in Hd.
    destruct (zat (py_range 0 n) i) as [i'|] eqn:E; [|done]. apply zat_range0 in E as [_ ->].
    by injection Hd as <-. }
  destruct (mapM_res_exists g (λ p y, g p = Ok y) (zip (f <$> py_range 0 n) l)) as (ys & E & HF).
  { apply Forall_forall. intros [d x] (i & [-> Hx]%Hzip)%elem_zat.
    destruct (Hf i x Hx) as (y & Hy & _). by exists y. }
  exists ys. split; [done|]. split.
  - apply Forall2_length in HF. unfold len. rewrite <- HF, length_zip_with, length_fmap, length_py_range.
    unfold len in Hn. lia.
  - intros r x y Hx Hy. pose proof (zat_Some_bound _ _ _ Hx).
    assert (Hz : zat (zip (f <$> py_range 0 n) l) r = Some (f r, x)).
    { apply zat_zip. rewrite zat_fmap, (proj2 (zat_range0 n r r)) by lia. done. }
    destruct (Hf r x Hx) as (y' & Hy' & HQ). unfold zat in Hz, Hy. destruct (Z.ltb_spec r 0); [lia|].
    pose proof (Forall2_lookup_lr _ _ _ _ _ _ HF Hz Hy) as E'. rewrite E' in Hy'. by injection Hy' as <-.
Qed.

Lemma zip_inv {B C} (l : list B) (k : list C) r x : zat (zip l k) r = Some x →
  zat l r = Some x.1 ∧ zat k r = Some x.2.
Proof. destruct x as [a b]. by intros ?%zat_zip. Qed.

Lemma len_zip_eq {B C} (l : list B) (k : list C) : len l = len k → len (zip l k) = len k.
Proof. unfold len. rewrite length_zip_with. lia. Qed.

Section all_ranks.
Context {A : Type} (content : Z → Z → A).
Context (old new : list Z) (nl G R nt : Z) (weights temps : list (list (list A))).
Context (Hnl : 0 < nl) (HG : 0 < G).
Context (Hold : len old = R * nl) (Hnew : len new = R * nl).
Context (Hsrc : ∀ e x, zat new x = Some e → src_ranks old nl e ≠ []).
Context (Hweights : len weights = R) (Htemps : len temps = R) (Hshapes : ∀ t, t ∈ temps → shape nl nt t).
Context (Hholds : ∀ r w, zat weights r = Some w → holds content old nl nt r w).

Local Notation ctx := (ctx_of old new nl G nt).
Local Notation ctxs := (ctx <$> py_range 0 R).
Local Notation issued := (issued old new nl G nt).
Local Notation wires r := (wire_op content old <$> issued r).

Lemma rank_bound r (w : list (list A)) : zat weights r = Some w → 0 ≤ r < R.
Proof. intros Hw%zat_Some_bound. lia. Qed.

(** Every rank makes its plan, and whatever it has issued, its end is known. *)
Lemma plans_ok : ∃ plans,
  mapM_res (λ '(c, (w, t)), prepare c w t) (zip ctxs (zip weights temps)) = Ok plans ∧
  len plans = R ∧ ∀ r w p, zat weights r = Some w → zat plans r = Some p →
    issued_ops p = issued r ∧ ∃ w' t', finish (ctx r) w p (expected content new (issued r)) = Ok (w', t') ∧
      holds content new nl nt r w' ∧ shape nl nt t'.
Proof.
  destruct (mapM_ranks (λ '(c, (w, t)), prepare c w t) ctx (λ _ _ _, True) R (zip weights temps))
    as (plans & E & Hlp & Hplans); [rewrite len_zip_eq; lia| |].
  { intros r [w t] [Hw Ht]%zip_inv. destruct (Hholds r w Hw) as [Hsh Hrows].
    destruct (prepare_ok content old new nl G R nt Hnl HG Hold Hnew r (rank_bound r w Hw) w Hsh Hrows Hsrc t)
      as (p & Hp & _); [by apply Hshapes, (zat_elem _ r)|]. by exists p. }
  exists plans. split_and!; [done|done|]. intros r w p Hw Hp. destruct (Hholds r w Hw) as [Hsh Hrows].
  destruct (zat_in temps r) as [t Ht]; [rewrite Htemps; by apply rank_bound in Hw|].
  destruct (Hplans r (w, t) p) as [Ep _]; [by apply zat_zip|done|].
  destruct (rank_finish_ok content old new nl G R nt Hnl HG Hold Hnew Hsrc r (rank_bound r w Hw) w t p)
    as (? & w' & t' & E' & H1 & H2 & H3); [done|done|by apply Hshapes, (zat_elem _ r)|done|].
  split; [done|]. by exists w', t'.
Qed.

(** The operations on the wire are those computed from the two maps. *)
Lemma wires_all (plans : list (plan A)) : len plans = R →
  (∀ r w p, zat weights r = Some w → zat plans r = Some p → issued_ops p = issued r) →
  mapM_res (λ '(c, (w, p)), mapM_res (on_wire c w) (issued_ops p)) (zip ctxs (zip weights plans)) = Ok ((λ r, wires r) <$> py_range 0 R).
Proof.
  intros Hlp Hplans.
  destruct (mapM_ranks (λ '(c, (w, p)), mapM_res (on_wire c w) (issued_ops p)) ctx
    (λ r _ o, o = wires r) R (zip weights plans)) as (ws & E & Hlw & Hw); [rewrite len_zip_eq; lia| |].
  - intros r [w p] [Hw Hp]%zip_inv. cbn in Hw, Hp. rewrite (Hplans r w p Hw Hp).
    rewrite (wires_ok content old new nl G R nt Hnl HG Hold Hnew r w); [by eexists|by apply rank_bound in Hw|].
    by apply Hholds.
  - rewrite E. f_equal. apply list_eq_zat. intros r. rewrite zat_fmap.
    destruct (decide (0 ≤ r < R)) as [Hr|Hr].
    + destruct (zat_in ws r) as [o Ho]; [lia|]. destruct (zat_in (zip weights plans) r) as [x Hx].
      { rewrite len_zip_eq; lia. }
      rewrite (proj2 (zat_range0 R r r)) by done. cbn. rewrite Ho. f_equal. by destruct (Hw r x o Hx Ho) as [_ ->].
    + destruct (zat ws r) eqn:E1; [by apply zat_Some_bound in E1; lia|].
      destruct (zat (py_range 0 R) r) eqn:E2; [by apply zat_range0 in E2 as [? _]|]. done.
Qed.
End all_ranks.

Lemma single_layer_ok `{P2PLaws} {A} (content : Z → Z → A) (old new : list Z)
    (nl G nt : Z) (weights temps : list (list (list A))) :
  0 < nl → 0 < G → len old = len weights * nl → len new = len weights * nl →
  len temps = len weights → Forall (shape nl nt) temps → (∀ e, e ∈ new → e ∈ old) →
  (∀ r w, zat weights r = Some w → holds content old nl nt r w) →
  ∃ out, update_expert_weights_single_layer (ctx_of old new nl G nt <$> py_range 0 (len weights)) weights temps =
      Ok out ∧ len out = len weights ∧
    ∀ r w t, zat out r = Some (w, t) → holds content new nl nt r w ∧ shape nl nt t.
Proof.
  intros Hnl HG Hold Hnew Htemps Hshapes Hincl Hholds. rewrite Forall_forall in Hshapes.
  assert (Hsrc : ∀ e x, zat new x = Some e → src_ranks old nl e ≠ []).
  { intros e x Hx E. destruct (elem_zat old e) as [y Hy]; [apply Hincl; by eapply zat_elem|].
    assert (Hin : y / nl ∈ src_ranks old nl e).
    { apply (elem_of_src_ranks old nl G Hnl HG), (has_div nl G Hnl HG). by exists y. }
    rewrite E in Hin. by apply not_elem_of_nil in Hin. }
  unfold update_expert_weights_single_layer.
  destruct (plans_ok content old new nl G (len weights) nt weights temps) as (plans & -> & Hlp & Hfin); [done..|].
  cbn [res_bind]. rewrite (wires_all content old new nl G (len weights) nt weights); [|done..|].
  2:{ intros r w p Hw Hp. by destruct (Hfin r w p Hw Hp). }
  cbn [res_bind].
  destruct (exchange_ok content old new nl G (len weights) nt Hnl HG (len_nonneg _) Hold Hnew Hsrc)
    as (vals & -> & Hlv & Hvals).
  cbn [of_opt res_bind].
  destruct (mapM_ranks (λ '(c, (w, (p, v))), finish c w p v) (ctx_of old new nl G nt)
    (λ r _ o, holds content new nl nt r o.1 ∧ shape nl nt o.2) (len weights) (zip weights (zip plans vals))) as (ws & -> & Hlws & Hws).
  - rewrite !len_zip_eq; rewrite ?len_zip_eq; lia.
  - intros r [w [p v]] [Hw [Hp Hv]%zip_inv]%zip_inv. cbn in *. rewrite (Hvals r v Hv).
    by destruct (Hfin r w p Hw Hp) as [_ (w' & t' & ? & ? & ?)]; exists (w', t').
  - exists ws. split_and!; [done|done|]. intros r w' t' Hw'.
    destruct (zat_in (zip weights (zip plans vals)) r) as [x Hx].
    { rewrite !len_zip_eq; rewrite ?len_zip_eq; try lia. apply zat_Some_bound in Hw'. lia. }
    by destruct (Hws r x (w', t') Hx Hw') as [_ ?].
Qed.

(** C26.  When all ranks run [update_expert_weights_single_layer] with the same old
    and new maps, every rank holding the experts of the old map, and every expert of
    the new map is in the old one, the ranks' separately computed sends and receives
    match: the exchange completes, no rank fails, and every row of every tensor of
    every rank holds the expert that the new map puts there. *)
Theorem update_expert_weights_ok `{P2PLaws} {A} (content : Z → Z → A) (old new : list Z)
    (nl G nt : Z) (weights temps : list (list (list A))) :
  0 < nl → 0 < G → len old = len weights * nl → len new = len weights * nl →
  len temps = len weights → Forall (shape nl nt) temps → (∀ e, e ∈ new → e ∈ old) →
  (∀ r w, zat weights r = Some w → holds content old nl nt r w) →
  ∃ out, update_expert_weights_single_layer (ctx_of old new nl G nt <$> py_range 0 (len weights)) weights temps =
      Ok out ∧ len out = len weights ∧
    ∀ r w t, zat out r = Some (w, t) → holds content new nl nt r w ∧ shape nl nt t.
Proof. apply single_layer_ok. Qed.

(** ** An exchange in order

    Each receive from a peer takes the next value of that peer. *)

Definition count (s : Z) (l : list Z) : nat := length (List.filter (λ p, p =? s) l).

Fixpoint fifo_rank {A} (ops : list (list (wire A))) (d : Z) (seen : list Z) (od : list (wire A)) : option (list A) :=
  match od with
  | [] => Some []
  | Send _ _ :: od' => fifo_rank ops d seen od'
  | Recv p :: od' =>
      os ← zat ops p; v ← sent_to d os !! count p seen; vs ← fifo_rank ops d (p :: seen) od'; Some (v :: vs)
  end.

#[export] Instance fifo : P2P := λ A ops,
  mapM (λ '(d, od), fifo_rank ops d [] od) (zip (py_range 0 (len ops)) ops).

Lemma count_from_cons s p l : count s (p :: l) = ((if (p =? s)%Z then 1 else 0) + count s l)%nat.
Proof. unfold count. cbn. by destruct (p =? s). Qed.

Lemma fifo_rank_ok {A} (ops : list (list (wire A))) d od seen :
  Forall (λ p, 0 ≤ p < len ops) (recv_peers od) →
  (∀ s os, zat ops s = Some os → length (sent_to d os) = (count s seen + count s (recv_peers od))%nat) →
  ∃ vs, fifo_rank ops d seen od = Some vs ∧ length vs = length (recv_peers od) ∧
    ∀ s os, zat ops s = Some os → received_from s od vs = drop (count s seen) (sent_to d os).
Proof.
  revert seen. induction od as [|[v p|p] od IH]; intros seen Hp Hc.
  - exists []. split_and!; [done|done|]. intros s os Hs. cbn. rewrite drop_ge; [done|].
    rewrite (Hc s os Hs). cbn. lia.
  - by destruct (IH seen Hp Hc) as (vs & E & Hl & Hr); exists vs.
  - cbn in Hp. apply Forall_cons in Hp as [Hp0 Hp]. destruct (zat_in ops p Hp0) as [os Hos].
    destruct (IH (p :: seen) Hp) as (vs & E & Hl & Hr).
    { intros s os' Hs. rewrite (Hc s os' Hs). change (recv_peers (Recv p :: od)) with (p :: recv_peers od).
      rewrite !count_from_cons. lia. }
    pose proof (Hc p os Hos) as Hcp. change (recv_peers (Recv p :: od)) with (p :: recv_peers od) in Hcp.
    rewrite count_from_cons, Z.eqb_refl in Hcp.
    destruct (lookup_lt_is_Some_2 (sent_to d os) (count p seen)) as [v Hv]; [lia|].
    exists (v :: vs). cbn [fifo_rank]. rewrite Hos. cbn [mbind option_bind]. rewrite Hv.
    cbn [mbind option_bind]. rewrite E. split; [done|].
    change (recv_peers (Recv p :: od)) with (p :: recv_peers od). split; [cbn [length]; by rewrite Hl|].
    intros s os' Hs. unfold received_from in *. specialize (Hr s os' Hs). rewrite count_from_cons in Hr.
    change (recv_peers (Recv p :: od)) with (p :: recv_peers od). cbn [zip_with List.filter fst].
    destruct (Z.eqb_spec p s) as [->|Hne]; [|done]. rewrite fmap_cons, Hr.
    assert (os' = os) as -> by congruence. cbn [snd]. by rewrite (drop_S _ _ _ Hv).
Qed.

#[export] Instance fifo_laws : P2PLaws.
Proof.
  intros A ops Hlen Hpeers. pose proof (len_nonneg ops).
  assert (Hall : ∀ d od, zat ops d = Some od → ∃ vs, fifo_rank ops d [] od = Some vs ∧
    length vs = length (recv_peers od) ∧ ∀ s os, zat ops s = Some os → received_from s od vs = sent_to d os).
  { intros d od Hd. destruct (fifo_rank_ok ops d od []) as (vs & E & Hl & Hr).
    - by destruct (Hpeers d od Hd).
    - intros s os Hs. by apply Hlen.
    - exists vs. split_and!; [done|done|]. intros s os Hs. by apply Hr. }
  destruct (mapM_is_Some_2 (λ '(d, od), fifo_rank ops d [] od) (zip (py_range 0 (len ops)) ops)) as [vals Hv].
  { apply Forall_forall. intros [d od] (i & [[_ ->]%zat_range0 Hd]%zat_zip)%elem_zat.
    destruct (Hall i od Hd) as (vs & E & _). by exists vs. }
  exists vals. split; [exact Hv|]. apply mapM_Some in Hv.
  assert (Hlv : len vals = len ops).
  { apply Forall2_length in Hv. rewrite length_zip_with, length_py_range in Hv. unfold len in *. lia. }
  split; [done|]. intros d od vd Hd Hvd. destruct (Hall d od Hd) as (vs & E & Hl & Hr).
  assert (Hz : zat (zip (py_range 0 (len ops)) ops) d = Some (d, od)).
  { apply zat_zip. split; [apply zat_range0|done]. by apply zat_Some_bound in Hd. }
  unfold zat in Hz, Hvd. destruct (d <? 0); [done|].
  pose proof (Forall2_lookup_lr _ _ _ _ _ _ Hv Hz Hvd) as Ev. cbn in Ev. rewrite E in Ev. by injection Ev as <-.
Qed.

(** Two nodes of two ranks with two experts each; rank 0 keeps expert 0 and gets
    expert 2, rank 1 gets expert 5 twice, rank 2 swaps its rows, rank 3 gets
    experts 0 and 1 from the other node. *)
Lemma update_expert_weights_ok_witness :
  ∃ out, update_expert_weights_single_layer
      (ctx_of [0; 1; 2; 3; 4; 5; 2; 5] [0; 2; 5; 5; 5; 4; 0; 1] 2 2 2 <$> py_range 0 4)
      [[[0; 1]; [100; 101]]; [[2; 3]; [102; 103]]; [[4; 5]; [104; 105]]; [[2; 5]; [102; 105]]]
      (replicate 4 (replicate 2 [0; 0])) = Ok out ∧ len out = 4 ∧
    ∀ r w t, zat out r = Some (w, t) →
      holds (λ i e, 100 * i + e) [0; 2; 5; 5; 5; 4; 0; 1] 2 2 r w ∧ shape 2 2 t.
Proof.
  apply (update_expert_weights_ok (λ i e, 100 * i + e) [0; 1; 2; 3; 4; 5; 2; 5] [0; 2; 5; 5; 5; 4; 0; 1] 2 2 2
    [[[0; 1]; [100; 101]]; [[2; 3]; [102; 103]]; [[4; 5]; [104; 105]]; [[2; 5]; [102; 105]]]
    (replicate 4 (replicate 2 [0; 0]))); [lia|lia|done|done|done| | |].
  - repeat constructor.
  - intros e He. repeat (apply elem_of_cons in He as [->|He]; [set_solver|]). by apply not_elem_of_nil in He.
  - intros r w Hw. pose proof (zat_Some_bound _ _ _ Hw) as Hr. unfold len in Hr. cbn in Hr.
    assert (r = 0 ∨ r = 1 ∨ r = 2 ∨ r = 3) as Hr' by lia.
    destruct_or! Hr'; subst r; injection Hw as <-; (split; [by repeat constructor|]);
      intros x e Hx He i Hi; unfold local in Hx;
      assert (i = 0 ∨ i = 1) as Hi' by lia;
      match type of Hx with ?a ≤ x < ?b =>
        assert (x = Z.succ a - 1 ∨ x = Z.succ a) as Hx' by lia end;
      destruct_or! Hi'; destruct_or! Hx'; subst i x; cbn in He; injection He as <-; done.
Defined.

Example update_expert_weights_run :
  (let! out := update_expert_weights_single_layer
      (ctx_of [0; 1; 2; 3; 4; 5; 2; 5] [0; 2; 5; 5; 5; 4; 0; 1] 2 2 2 <$> py_range 0 4)
      [[[0; 1]; [100; 101]]; [[2; 3]; [102; 103]]; [[4; 5]; [104; 105]]; [[2; 5]; [102; 105]]]
      (replicate 4 (replicate 2 [0; 0])) in Ok out.*1) =
  Ok [[[0; 2]; [100; 102]]; [[5; 5]; [105; 105]]; [[5; 4]; [105; 104]]; [[0; 1]; [100; 101]]].
Proof. vm_compute. reflexivity. Qed.
