(* ===== verification/ExpertElasticSpec.v ===== *)
(** * The balancer avoids failed ranks

    The renumbering inserts a slice of places for every inactive rank; the
    invariant relates the places before and after by an increasing function. *)

From S2P Require Import Prelude Tensor ExpertLoad ExpertPacking ExpertLoadSpec ExpertBalance.
From S2P Require Import ExpertElastic.

(** ** Inserting slices *)

Lemma zat_concat_insert {A} (ss : list (list A)) nl i x (z : list A) :
  0 < nl → Forall (λ s, len s = nl) ss → len z = nl → 0 ≤ i ≤ len ss → 0 ≤ x →
  zat (concat (py_insert ss i z)) (if i * nl <=? x then x + nl else x) = zat (concat ss) x.
Proof.
  intros Hnl Hss Hz Hi Hx. unfold py_insert. rewrite concat_app. cbn [concat].
  assert (Ht : len (concat (take (Z.to_nat i) ss)) = i * nl).
  { rewrite (len_concat_rows nl) by (by apply Forall_take). unfold len in *. rewrite length_take. f_equal. lia. }
  rewrite <- (take_drop (Z.to_nat i) ss) at 3. rewrite concat_app. destruct (Z.leb_spec (i * nl) x).
  - rewrite zat_app_r by lia. rewrite zat_app_r by lia. rewrite (zat_app_r (concat (take _ _))) by lia.
    f_equal. lia.
  - by rewrite !zat_app_l by lia.
Qed.

(** The number of zeros. *)
Definition inactive (act : list Z) : Z := len (List.filter (λ a, a =? 0) act).

Lemma inactive_snoc act a : inactive (act ++ [a]) = inactive act + (if a =? 0 then 1 else 0).
Proof. unfold inactive. rewrite List.filter_app. cbn. destruct (a =? 0); unfold len; rewrite length_app; cbn; lia. Qed.

Lemma active_count act : Forall (λ a, a = 0 ∨ a = 1) act → sum_Z act + inactive act = len act.
Proof.
  induction 1 as [|a act Ha _ IH]; [done|]. rewrite sum_Z_cons. unfold inactive, len in *. cbn [List.filter].
  destruct Ha as [-> | ->]; cbn in *; lia.
Qed.

Section skip.
Context (phy : list Z) (l2p : list (list Z)) (nl A : Z) (act : list Z).
Context (Hnl : 0 < nl) (HA : 0 < A) (Hphy : len phy = nl * A).
Context (Hact : Forall (λ a, a = 0 ∨ a = 1) act) (Hsum : sum_Z act = A).

(** After the ranks [done]: [h] renumbers the places. *)
Record skipped (dn : list Z) (h : Z → Z) (s : list (list Z) * list (list Z)) : Prop := {
  sk_len : len s.1 = A + inactive dn;
  sk_slices : Forall (λ x, len x = nl) s.1;
  sk_map : s.2 = (λ row : list Z, h <$> row) <$> l2p;
  sk_minus : h (-1) = -1;
  sk_mono : ∀ x y, x < y → h x < h y;
  sk_zat : ∀ p, 0 ≤ p < nl * A → zat (concat s.1) (h p) = zat phy p;
  sk_active : ∀ p, 0 ≤ p < nl * A → h p / nl < len dn → ∃ a, zat dn (h p / nl) = Some a ∧ a ≠ 0;
  sk_elems : ∀ v, v ∈ concat s.1 → v = 0 ∨ v ∈ phy;
}.

Lemma skipped_nonneg dn h s p : skipped dn h s → 0 ≤ p → 0 ≤ h p.
Proof. intros Hs Hp. pose proof (sk_mono _ _ _ Hs (-1) p ltac:(lia)). pose proof (sk_minus _ _ _ Hs). lia. Qed.

Lemma skip_step dn a rest h s : act = dn ++ a :: rest → skipped dn h s →
  ∃ s' h', skip_rank nl s (len dn, a) = Ok s' ∧ skipped (dn ++ [a]) h' s'.
Proof.
  intros Eact Hs. pose proof Hs as [H1 H2 H3 H4 H5 H6 H7 H8]. destruct s as [ss l]. cbn in *.
  assert (Hld : len (dn ++ [a]) = len dn + 1) by (unfold len; rewrite length_app; cbn; lia).
  destruct (Z.eqb_spec a 0) as [->|Ha].
  - assert (Hle : len dn ≤ len ss).
    { rewrite H1. rewrite Eact in Hact. apply Forall_app in Hact as [Hd Hr].
      pose proof (active_count dn Hd). rewrite Eact, sum_Z_app in Hsum.
      assert (0 ≤ sum_Z (0 :: rest)).
      { apply sum_Z_nonneg. eapply Forall_impl; [exact Hr|]. intros b. cbn. lia. } lia. }
    destruct ss as [|s0 ss'].
    { cbn in H1. pose proof (len_nonneg (List.filter (λ a, a =? 0) dn)). unfold inactive in H1.
      unfold len in *. cbn in *. lia. }
    cbn [py_index]. set (ss := s0 :: ss') in *. change (py_index ss 0) with (Ok s0). cbn [res_bind].
    assert (Hs0 : len s0 = nl) by (by apply Forall_inv in H2).
    do 2 eexists. split; [done|].
    set (g := λ p, if len dn * nl <=? p then p + nl else p).
    assert (Hg : ∀ x y, x < y → g x < g y).
    { intros x y Hxy. unfold g. destruct (Z.leb_spec (len dn * nl) x), (Z.leb_spec (len dn * nl) y); lia. }
    assert (Hz : len (replicate (length s0) 0) = nl) by (rewrite len_replicate; exact Hs0).
    apply (Build_skipped _ (λ p, g (h p))); cbn.
    + rewrite inactive_snoc. unfold py_insert, len in *. rewrite length_app, length_take. cbn.
      rewrite length_drop. cbn in *. lia.
    + unfold py_insert. apply Forall_app. split; [by apply Forall_take|]. constructor; [done|by apply Forall_drop].
    + rewrite H3, <- list_fmap_compose. apply list_fmap_ext. intros _ row _. cbn.
      by rewrite <- list_fmap_compose.
    + rewrite H4. unfold g. pose proof (len_nonneg dn). destruct (Z.leb_spec (len dn * nl) (-1)); [nia|done].
    + intros x y Hxy. by apply Hg, H5.
    + intros p Hp. rewrite <- (H6 p Hp). unfold g.
      apply (zat_concat_insert ss nl); [done|done|done| |apply (skipped_nonneg dn h (ss, l)); [done|lia]].
      pose proof (len_nonneg dn). lia.
    + intros p Hp Hlt. unfold g in *. rewrite Hld in Hlt. destruct (Z.leb_spec (len dn * nl) (h p)) as [Hge|Hlt'].
      * exfalso. replace (h p + nl) with (h p + 1 * nl) in Hlt by lia. rewrite Z.div_add in Hlt by lia.
        pose proof (Z.div_le_lower_bound (h p) nl (len dn) Hnl ltac:(lia)). lia.
      * destruct (H7 p Hp) as (b & Hb & Hb0); [apply Z.div_lt_upper_bound; lia|].
        exists b. split; [|done]. rewrite zat_app_l; [done|apply zat_Some_bound in Hb; lia].
    + intros v Hv. unfold py_insert in Hv. rewrite concat_app in Hv. cbn [concat] in Hv.
      rewrite !elem_of_app in Hv. destruct Hv as [Hv|[Hv|Hv]].
      * apply H8. rewrite <- (take_drop (Z.to_nat (len dn)) ss), concat_app, elem_of_app. by left.
      * apply elem_of_replicate in Hv as [-> _]. by left.
      * apply H8. rewrite <- (take_drop (Z.to_nat (len dn)) ss), concat_app, elem_of_app. by right.
  - do 2 eexists. split; [done|]. apply (Build_skipped _ h); cbn; try done.
    + rewrite inactive_snoc. destruct (Z.eqb_spec a 0); [done|lia].
    + intros p Hp Hlt. rewrite Hld in Hlt. destruct (decide (h p / nl < len dn)) as [Hd|Hd].
      * destruct (H7 p Hp Hd) as (b & Hb & Hb0). exists b. split; [|done].
        rewrite zat_app_l; [done|apply zat_Some_bound in Hb; lia].
      * exists a. split; [|done]. rewrite zat_app_r by lia. replace (h p / nl - len dn) with 0 by lia. done.
Qed.

Lemma skip_inactive_ok : ∃ phy' h, skip_inactive nl A act phy l2p = Ok (phy', (λ row : list Z, h <$> row) <$> l2p) ∧
  len phy' = len act * nl ∧ h (-1) = -1 ∧ (∀ x y, x < y → h x < h y) ∧
  (∀ p, 0 ≤ p < nl * A → zat phy' (h p) = zat phy p ∧ ∃ a, zat act (h p / nl) = Some a ∧ a ≠ 0) ∧
  ∀ v, v ∈ phy' → v = 0 ∨ v ∈ phy.
Proof.
  unfold skip_inactive. destruct (Z.leb_spec A 0); [lia|]. cbn [guard_raise res_bind].
  rewrite Hphy, Z.mod_mul by lia. cbn [Z.eqb negb guard_raise res_bind]. rewrite Z.div_mul by lia.
  set (ss0 := chunks (Z.to_nat A) (Z.to_nat nl) phy).
  assert (Hc : concat ss0 = phy) by (apply concat_chunks; unfold len in Hphy; lia).
  assert (Hloop : ∀ rest dn h s, act = dn ++ rest → skipped dn h s →
    ∃ s' h', fold_res (skip_rank nl) s (zip (py_range (len dn) (len act)) rest) = Ok s' ∧ skipped act h' s').
  { induction rest as [|a rest IH]; intros dn h s E Hs.
    - rewrite app_nil_r in E. subst dn. exists s, h. split; [|done]. by destruct (py_range _ _).
    - destruct (skip_step dn a rest h s E Hs) as (s1 & h1 & E1 & Hs1).
      assert (Hla : len act = len dn + (1 + len rest)).
      { rewrite E. unfold len. rewrite length_app. cbn. lia. }
      rewrite Hla, py_range_cons by (apply len_nonneg). cbn [zip_with fold_res]. rewrite E1. cbn [res_bind].
      destruct (IH (dn ++ [a]) h1 s1) as (s' & h' & E' & Hs'); [by rewrite <- app_assoc|done|].
      exists s', h'. split; [|done]. rewrite <- E', Hla. do 3 f_equal; unfold len; rewrite ?length_app; cbn; lia. }
  destruct (Hloop act [] id (ss0, l2p)) as (s' & h & E & Hs); [done| |].
  { apply Build_skipped; cbn.
    - unfold inactive, ss0, len. rewrite length_chunks. cbn. lia.
    - unfold ss0. apply Forall_forall. intros x Hx. unfold len.
      assert (Hf : Forall (λ y : list Z, length y = Z.to_nat nl) (chunks (Z.to_nat A) (Z.to_nat nl) phy)).
      { apply Forall_chunks_length. unfold len in Hphy. lia. }
      rewrite Forall_forall in Hf. rewrite (Hf x Hx). lia.
    - symmetry. etrans; [|apply list_fmap_id]. apply list_fmap_ext. intros _ row _. apply list_fmap_id.
    - done.
    - done.
    - intros p _. by rewrite Hc.
    - intros p [Hp _] Hlt. pose proof (Z.div_pos p nl Hp Hnl). unfold len in Hlt. cbn in Hlt. unfold id in Hlt. lia.
    - intros v Hv. right. by rewrite Hc in Hv. }
  change (len []) with 0 in E. rewrite E. destruct s' as [ss l]. cbn [res_bind].
  pose proof Hs as [H1 H2 H3 H4 H5 H6 H7 H8]. cbn in *.
  assert (Hlen : len (concat ss) = len act * nl).
  { rewrite (len_concat_rows nl ss H2), H1, <- (active_count act Hact), Hsum. done. }
  exists (concat ss), h. rewrite H3. split_and!; [done|done|done|done| |done]. intros p Hp. split; [by apply H6|].
  apply H7; [done|]. destruct (zat_in phy p) as [v Hv]; [lia|]. rewrite <- H6 in Hv by done.
  apply zat_Some_bound in Hv. apply Z.div_lt_upper_bound; lia.
Qed.
End skip.

(** ** The maps *)

(** The three maps of a layer describe one placement of [n] experts in the [R]
    places, [nl] per rank, of the active ranks. *)
Record maps_active (n R nl M : Z) (act : list Z) (phy2log : list Z) (log2phy : list (list Z)) (logcnt : list Z) : Prop := {
  ma_phy : len phy2log = R;
  ma_log : len log2phy = n;
  ma_cnt : len logcnt = n;
  ma_range : ∀ e, e ∈ phy2log → 0 ≤ e < n;
  ma_rows : ∀ e, 0 ≤ e < n → ∃ c row, zat logcnt e = Some c ∧ zat log2phy e = Some row ∧
    1 ≤ c ≤ M ∧ len row = M ∧ NoDup (take (Z.to_nat c) row) ∧
    (∀ r, 0 ≤ r < c → ∃ p a, zat row r = Some p ∧ zat phy2log p = Some e ∧
      zat act (p / nl) = Some a ∧ a ≠ 0) ∧
    (∀ r, c ≤ r < M → zat row r = Some (-1));
}.

(** A place of a consistent placement holds an expert. *)
Lemma maps_range n R M phy l2p cnt : maps_consistent n R M phy l2p cnt → ∀ e, e ∈ phy → 0 ≤ e < n.
Proof.
  intros [C1 C2 C3 C4 C5] e (p & Hp)%elem_zat. destruct (C5 p e Hp) as (row & c & r & He & _).
  apply zat_Some_bound in He. lia.
Qed.

Lemma skip_maps n nl A M act phy l2p cnt : 0 < n → 0 < nl → 0 < A → Forall (λ a, a = 0 ∨ a = 1) act → sum_Z act = A →
  maps_consistent n (nl * A) M phy l2p cnt →
  ∃ out, skip_inactive nl A act phy l2p = Ok out ∧ maps_active n (len act * nl) nl M act out.1 out.2 cnt.
Proof.
  intros Hn Hnl HA Hact Hsum Hmaps. pose proof Hmaps as [C1 C2 C3 C4 _].
  destruct (skip_inactive_ok phy l2p nl A act Hnl HA C1 Hact Hsum) as (phy' & h & E & Hl & Hm & Hmono & Hp & Hv).
  assert (Hinj : Inj (=) (=) h).
  { intros x y Exy. destruct (Z.lt_total x y) as [Hlt|[|Hlt]]; [|done|]; apply Hmono in Hlt; lia. }
  eexists. split; [exact E|]. split; cbn; [done|by rewrite len_fmap|done| |].
  { intros e [->|He]%Hv; [lia|]. by apply (maps_range n (nl * A) M phy l2p cnt). }
  intros e He. destruct (C4 e He) as (c & row & Hc & Hrow & Hb & Hlr & Hnd & Hin & Hout).
  exists c, (h <$> row). rewrite zat_fmap, Hrow. split_and!; [done|done|lia|lia|by rewrite len_fmap| | |].
  - rewrite <- fmap_take. by apply NoDup_fmap_2.
  - intros r Hr. destruct (Hin r Hr) as (p & Hrp & Hpe). pose proof (zat_Some_bound _ _ _ Hpe) as Hpb.
    destruct (Hp p) as (Hz & a & Ha & Ha0); [lia|]. exists (h p), a. rewrite zat_fmap, Hrp, Hz. done.
  - intros r Hr. rewrite zat_fmap, (Hout r Hr). cbn. by rewrite Hm.
Qed.

Lemma maps_all_active n nl M act phy l2p cnt : 0 < nl → Forall (λ a, a ≠ 0) act →
  maps_consistent n (nl * len act) M phy l2p cnt → maps_active n (len act * nl) nl M act phy l2p cnt.
Proof.
  intros Hnl Hact Hmaps. pose proof Hmaps as [C1 C2 C3 C4 _]. split; [lia|done|done| |].
  { by apply (maps_range n (nl * len act) M phy l2p cnt). }
  intros e He.
  destruct (C4 e He) as (c & row & Hc & Hrow & Hb & Hlr & Hnd & Hin & Hout). exists c, row.
  split_and!; [done..|lia|lia|done|done| |done]. intros r Hr. destruct (Hin r Hr) as (p & Hrp & Hpe).
  pose proof (zat_Some_bound _ _ _ Hpe) as Hpb.
  destruct (zat_in act (p / nl)) as [a Ha].
  { split; [apply Z.div_pos; lia|apply Z.div_lt_upper_bound; lia]. }
  exists p, a. split_and!; [done..|]. rewrite Forall_forall in Hact. by apply Hact, (zat_elem _ (p / nl)).
Qed.

Section elastic_spec.
Context {W : Type} `{TorchFloat W} `{!TorchLaws W}.

(** With inactive ranks the result is that of the global policy on the active ones,
    renumbered. *)
Lemma elastic_global (weight : list (list W)) nl gpus groups nodes h act : 0 < gpus → sum_Z act < gpus →
  rebalance_experts_elastic weight (nl * gpus) groups nodes gpus h act =
    let! '(phys, l2ps, cnts) := rebalance_experts weight (nl * sum_Z act) 1 1 (sum_Z act) false in
    let! rows := map2_res (skip_inactive nl (sum_Z act) act) phys l2ps in Ok (rows.*1, rows.*2, cnts).
Proof.
  intros Hg Hlt. unfold rebalance_experts_elastic, rebalance_experts, py_div.
  destruct (Z.eqb_spec gpus 0); [lia|]. rewrite Z.div_mul by lia. cbn [res_bind].
  rewrite (proj2 (Z.ltb_lt _ _)) by done.
  destruct (rebalance_experts_hierarchical _ _ _ _ _) as [[[a b] c]|]; [|done]. cbn [res_bind].
  destruct (max_item c); [|done]. cbn [res_bind]. by destruct (map2_res _ a b).
Qed.

Lemma elastic_full (weight : list (list W)) nl gpus groups nodes h act : 0 < gpus → sum_Z act = gpus →
  rebalance_experts_elastic weight (nl * gpus) groups nodes gpus h act =
    rebalance_experts weight (nl * gpus) groups nodes gpus h.
Proof.
  intros Hg Heq. unfold rebalance_experts_elastic, rebalance_experts, py_div.
  destruct (Z.eqb_spec gpus 0); [lia|]. rewrite Z.div_mul by lia. cbn [res_bind].
  rewrite Heq, Z.ltb_irrefl. done.
Qed.

Lemma skip_rows n nl A M act phys l2ps cnts : 0 < n → 0 < nl → 0 < A → Forall (λ a, a = 0 ∨ a = 1) act → sum_Z act = A →
  Forall3 (maps_consistent n (nl * A) M) phys l2ps cnts →
  ∃ rows, map2_res (skip_inactive nl A act) phys l2ps = Ok rows ∧ length rows = length phys ∧
    Forall3 (maps_active n (len act * nl) nl M act) rows.*1 rows.*2 cnts.
Proof.
  intros Hn Hnl HA Hact Hsum. unfold map2_res. induction 1 as [|phy l2p cnt phys l2ps cnts Hc _ IH].
  { exists []. split_and!; [done|done|constructor]. }
  destruct (skip_maps n nl A M act phy l2p cnt) as (out & E & Ho); [done..|].
  destruct IH as (rows & E' & Hlr & Hr). exists (out :: rows). cbn [zip_with mapM_res fst snd]. rewrite E. cbn [res_bind].
  rewrite E'. split_and!; [done|cbn; by rewrite Hlr|]. by constructor.
Qed.

Lemma elastic_ok (weight : list (list W)) n nl groups nodes (h : bool) (act : list Z) :
  weight ≠ [] → Forall (λ w, len w = n) weight → 0 < nl → Forall (λ a, a = 0 ∨ a = 1) act →
  0 < n ≤ nl * sum_Z act →
  (sum_Z act = len act →
    balancer_config n (nl * len act) (if h then groups else 1) (if h then nodes else 1) (len act)) →
  ∃ phys l2ps cnts M,
    rebalance_experts_elastic weight (nl * len act) groups nodes (len act) h act = Ok (phys, l2ps, cnts) ∧
    length phys = length weight ∧ Forall3 (maps_active n (len act * nl) nl M act) phys l2ps cnts.
Proof.
  intros Hne Hcols Hnl Hact Hn Hcfg. pose proof (active_count act Hact) as Hcount.
  assert (HA : 0 < sum_Z act) by nia. assert (0 ≤ inactive act) by apply len_nonneg.
  destruct (decide (sum_Z act = len act)) as [Heq|Hlt].
  - rewrite elastic_full by lia.
    destruct (rebalance_ok weight n (nl * len act) groups nodes (len act) h Hne Hcols (Hcfg Heq))
      as (T & l2p & M & E & Hl & _ & H3).
    do 4 eexists. split; [exact E|]. split; [by rewrite length_fmap|].
    eapply Forall3_impl; [exact H3|]. intros phy l cnt. apply maps_all_active; [done|].
    assert (Hz : inactive act = 0) by lia. unfold inactive, len in Hz. apply Forall_forall. intros a Ha ->.
    assert (Hin : 0 ∈ List.filter (λ a, a =? 0) act) by (apply list_elem_of_In, filter_In; split; [by apply list_elem_of_In|done]).
    destruct (List.filter _ act); [by apply not_elem_of_nil in Hin|cbn in Hz; lia].
  - rewrite elastic_global by lia.
    destruct (rebalance_ok weight n (nl * sum_Z act) 1 1 (sum_Z act) false Hne Hcols) as (T & l2p & M & E & Hl & _ & H3).
    { split; [lia|by rewrite Z.mod_1_r|by rewrite Z.mod_1_r|by rewrite Z.mod_1_r|by apply Z.mod_mul; lia]. }
    rewrite E. cbn [res_bind].
    destruct (skip_rows n nl (sum_Z act) M act _ _ _ (proj1 Hn) Hnl HA Hact eq_refl H3) as (rows & E' & Hlr & Hr).
    rewrite E'. cbn [res_bind]. do 4 eexists. split; [done|]. split; [|exact Hr].
    rewrite length_fmap, Hlr, length_fmap. done.
Qed.

(** C30. The elastic balancer succeeds whenever the active ranks have room for one
    replica of every expert: every expert then has between one and [M] distinct
    replicas, all on active ranks, and the two maps agree about them, although the
    places of the failed ranks stay in the numbering. *)
Theorem elastic_uses_active_ranks (weight : list (list W)) n nl groups nodes (h : bool) (act : list Z) :
  weight ≠ [] → Forall (λ w, len w = n) weight → 0 < nl → Forall (λ a, a = 0 ∨ a = 1) act →
  0 < n ≤ nl * sum_Z act →
  (sum_Z act = len act →
    balancer_config n (nl * len act) (if h then groups else 1) (if h then nodes else 1) (len act)) →
  ∃ phys l2ps cnts M,
    rebalance_experts_elastic weight (nl * len act) groups nodes (len act) h act = Ok (phys, l2ps, cnts) ∧
    length phys = length weight ∧ Forall3 (maps_active n (len act * nl) nl M act) phys l2ps cnts.
Proof. apply elastic_ok. Qed.
End elastic_spec.

(** Rank 1 of four has failed: its places 5 to 9 hold expert 0 by default and are
    named by no expert. *)
Lemma elastic_uses_active_ranks_witness :
  ∃ phys l2ps cnts M,
    rebalance_experts_elastic example_loads (5 * len [1; 0; 1; 1]) 4 2 (len [1; 0; 1; 1]) true [1; 0; 1; 1] =
      Ok (phys, l2ps, cnts) ∧
    length phys = 2%nat ∧
    Forall3 (maps_active 12 (len [1; 0; 1; 1] * 5) 5 M [1; 0; 1; 1]) phys l2ps cnts.
Proof.
  apply (elastic_uses_active_ranks example_loads 12 5 4 2 true [1; 0; 1; 1]).
  - done.
  - by repeat constructor.
  - lia.
  - repeat constructor; lia.
  - vm_compute. split; [done|by intros [=]].
  - vm_compute. discriminate.
Defined.

Example elastic_run :
  (let! '(phys, _, _) := rebalance_experts_elastic example_loads 20 4 2 4 true [1; 0; 1; 1] in Ok phys) =
  Ok [[4; 5; 1; 1; 7; 0; 0; 0; 0; 0; 10; 0; 8; 3; 2; 10; 11; 5; 9; 6];
      [7; 6; 9; 11; 4; 0; 0; 0; 0; 0; 1; 5; 8; 8; 10; 2; 5; 6; 3; 0]].
Proof. vm_compute. reflexivity. Qed.
