(* ===== verification/ExpertVec.v ===== *)
(** * The vectorised balancer ([eplb/eplb_algorithms/deepseek_vec.py])

    Like the balancer of [deepseek.py], but the loads of several steps are kept
    apart: a replica goes to the expert for which the sum over the steps of the
    largest remaining load is smallest.  The experts of a layer are cut into chunks
    (nodes, or everything), which get the same number of redundant replicas each.

    A tensor of shape (steps, layers, experts) is a list of matrices; the code works
    on all layers and chunks at once, the model on each in turn. *)

From S2P Require Import Prelude Tensor ExpertLoad.

(** [feps i] is [i * 1e-4]; [argmin] the index of [argmin(-1)]. *)
Class TorchVec (W : Type) := {
  feps : Z → W;
  argmin : list W → Z;
}.

Section vec.
Context {W : Type} `{TorchFloat W} `{TorchVec W}.

(** ** [pack_groups] *)

(** The key of a node: [None] when it is full. *)
Definition key_lt (a b : option W) : bool :=
  match a, b with
  | Some x, Some y => fltb x y
  | Some _, None => true
  | None, _ => false
  end.

Fixpoint min_by_key (keys : list (option W)) (i best : Z) (kb : option W) : Z :=
  match keys with
  | [] => best
  | k :: keys' => if key_lt k kb then min_by_key keys' (i + 1) i k else min_by_key keys' (i + 1) best kb
  end.

(** [min(range(n), key=key_func)]. *)
Definition min_key (keys : list (option W)) : res Z :=
  match keys with [] => Err ValueError | k :: keys' => Ok (min_by_key keys' 1 0 k) end.

Record nodes_state := { ret : list Z; node_tokens : list W; node_groups : list Z }.

Definition pack_group_vec (tokens : list W) (groups_per_rank : Z) (s : nodes_state) (group : Z) : res nodes_state :=
  let! rank := min_key (zip_with (λ n t, if groups_per_rank <=? n then None else Some t)
    (node_groups s) (node_tokens s)) in
  let! n := py_index (node_groups s) rank in
  let! _ := py_assert (n <? groups_per_rank) in
  let! r := py_set_index (ret s) group (rank * groups_per_rank + n) in
  let! t := py_index (node_tokens s) rank in
  let! w := py_index tokens group in
  let! ts := py_set_index (node_tokens s) rank (fadd t w) in
  let! ns := py_set_index (node_groups s) rank (n + 1) in
  Ok {| ret := r; node_tokens := ts; node_groups := ns |}.

Definition pack_groups (tokens_per_group : list (list W)) (num_nodes : Z) : res (list (list Z)) :=
  let num_groups := ncols tokens_per_group in
  let! d := py_divides num_nodes num_groups in
  let! _ := py_assert d in
  let! groups_per_rank := py_div num_groups num_nodes in
  mapM_res (λ row,
    let! s := fold_res (pack_group_vec row groups_per_rank)
      {| ret := replicate (length row) (-1); node_tokens := replicate (Z.to_nat num_nodes) fzero;
         node_groups := replicate (Z.to_nat num_nodes) 0 |} (sort_desc row) in
    Ok (ret s)) tokens_per_group.

(** ** [make_redundant_experts_chunkwise] *)

(** [x.sum(0)] of a matrix given by its rows. *)
Definition sum0 (rows : list (list W)) (n : Z) : list W :=
  (λ j, fsum (omap (λ r : list W, zat r j) rows)) <$> py_range 0 n.

(** The rows of one layer, a row per step. *)
Definition layer_rows (tokens : list (list (list W))) (layer : Z) : list (list W) :=
  omap (λ m : list (list W), zat m layer) tokens.

Record chunk := { c_phy : list Z; c_l2p : list (list Z); c_count : list Z }.

(** [values] of one step: the largest score, but for the largest expert itself what
    would be the largest if it had one more replica. *)
Definition step_values (tokens all_diff : list W) (count : list Z) : res (list W) :=
  let score := zip_with fdiv all_diff count in
  let score1 := zip_with (λ t c, fdiv t (c + 1)) tokens count in
  let! _ := guard_raise (len score =? 0) IndexError in
  let indices := argmax score in
  let! value := py_index score indices in
  let values := replicate (length score) value in
  let! score := (let! s1 := py_index score1 indices in py_set_index score indices s1) in
  let! value := py_index score (argmax score) in
  py_set_index values indices value.

(** One redundant replica for chunk [k]: [rows] are the loads of its experts, a row
    per step, [diff] the same with the tie-breaking term. *)
Definition redundant_step (k npg Pc : Z) (rows diff : list (list W)) (c : chunk) (i : Z) : res chunk :=
  let! values := map2_res (λ t d, step_values t d (c_count c)) rows diff in
  let redundancy := argmin (sum0 values npg) in
  let! phy := py_set_index (c_phy c) (npg + i) (redundancy + k * npg) in
  let! cnt := py_index (c_count c) redundancy in
  let! row := py_index (c_l2p c) redundancy in
  let! row := py_set_index row cnt (k * Pc + npg + i) in
  let! l2p := py_set_index (c_l2p c) redundancy row in
  let! count := py_set_index (c_count c) redundancy (cnt + 1) in
  Ok {| c_phy := phy; c_l2p := l2p; c_count := count |}.

Definition init_chunk (k npg Pc num_redundancy_experts : Z) : chunk :=
  {| c_phy := ((λ j, k * npg + j) <$> py_range 0 npg) ++ drop (Z.to_nat npg) (empty_like Pc);
     c_l2p := (λ j, (j + k * Pc) :: replicate (Z.to_nat num_redundancy_experts) (-1)) <$> py_range 0 npg;
     c_count := replicate (Z.to_nat npg) 1 |}.

(** Columns [k * npg .. (k + 1) * npg) of each row. *)
Definition columns (k npg : Z) (rows : list (list W)) : list (list W) :=
  (λ r, py_slice r (k * npg) ((k + 1) * npg)) <$> rows.

Definition chunk_experts (npg rpg Pc num_redundancy_experts : Z) (rows diff : list (list W)) (k : Z) : res chunk :=
  fold_res (redundant_step k npg Pc (columns k npg rows) (columns k npg diff))
    (init_chunk k npg Pc num_redundancy_experts) (py_range 0 rpg).

(** [argsort(-1)] of distinct integers. *)
Definition argsort (l : list Z) : list Z :=
  (py_sort (λ a b : Z * Z, a.1 <? b.1) (zip l (py_range 0 (len l)))).*2.

(** [x.transpose(-2, -1)] of a matrix with [k] columns. *)
Definition transpose {A} (k : Z) (m : list (list A)) : list (list A) :=
  (λ j, omap (λ r : list A, zat r j) m) <$> py_range 0 k.

(** The order of the replicas of a chunk over its devices: sorted by load, dealt out
    to the devices back and forth. *)
Definition deal (num_local num_groups : Z) (indices : list Z) : list Z :=
  let rows := chunks (Z.to_nat num_local) (Z.to_nat num_groups) indices in
  let rows := imap (λ i r, if Nat.odd i then rev r else r) rows in
  concat (transpose num_groups rows).

Definition balance_devices (P Pc num_local : Z) (totals : list W)
    (phy : list Z) (l2p : list (list Z)) (count : list Z) : res (list Z * list (list Z)) :=
  let! counts := torch_gather count phy in
  let! score := torch_gather totals phy in
  let score := zip_with fdiv score counts in
  let! d := py_divides num_local Pc in
  let! _ := py_assert d in
  let num_local_groups := Pc / num_local in
  let indices := concat (imap (λ k c,
    deal num_local num_local_groups ((λ x, x + Z.of_nat k * Pc) <$> sort_desc c))
    (chunks (Z.to_nat (P / Pc)) (Z.to_nat Pc) score)) in
  let! phy := torch_gather phy indices in
  let place := argsort indices in
  let! l2p := mapM_res (λ row : list Z,
    let! ps := torch_gather place ((λ x, if x =? -1 then 0 else x) <$> row) in
    Ok (zip_with (λ x p, if x =? -1 then -1 else p) row ps)) l2p in
  Ok (phy, l2p).

Definition layer_experts (E P Pc num_local : Z) (rows : list (list W)) : res (list Z * list (list Z) * list Z) :=
  let num_chunks := P / Pc in
  let num_redundancy_experts := P - E in
  let npg := E / num_chunks in
  let diff := (λ r, zip_with fadd r (feps <$> py_range 0 E)) <$> rows in
  let! cs := mapM_res (chunk_experts npg (num_redundancy_experts / num_chunks) Pc num_redundancy_experts rows diff)
    (py_range 0 num_chunks) in
  let phy := concat (c_phy <$> cs) in
  let l2p := concat (c_l2p <$> cs) in
  let count := concat (c_count <$> cs) in
  if 1 <? num_local then
    let! '(phy, l2p) := balance_devices P Pc num_local (sum0 rows E) phy l2p count in
    Ok (phy, l2p, count)
  else Ok (phy, l2p, count).

Definition unzip3 {A B C} (l : list (A * B * C)) : list A * list B * list C := (l.*1.*1, l.*1.*2, l.*2).

Definition make_redundant_experts_chunkwise (tokens : list (list (list W)))
    (num_physical_experts num_local_physical_experts num_physical_experts_per_chunk : Z)
    : res (list (list Z) * list (list (list Z)) * list (list Z)) :=
  let! first := of_opt ValueError (head tokens) in
  let E := ncols first in
  let num_redundancy_experts := num_physical_experts - E in
  let! _ := guard_raise (num_redundancy_experts + 1 <? 0) RuntimeError in
  let! d := py_divides num_physical_experts_per_chunk num_physical_experts in
  let! _ := py_assert d in
  let num_chunks := num_physical_experts / num_physical_experts_per_chunk in
  let! d := py_divides num_chunks E in
  let! _ := py_assert d in
  let! d := py_divides num_chunks num_redundancy_experts in
  let! _ := py_assert d in
  let! _ := guard_raise (num_redundancy_experts <? 0) IndexError in
  let! layers := mapM_res (λ l, layer_experts E num_physical_experts num_physical_experts_per_chunk
      num_local_physical_experts (layer_rows tokens l)) (py_range 0 (len first)) in
  Ok (unzip3 layers).

(** ** The entry points *)

Definition decode_rebalance_experts (tokens : list (list (list W)))
    (num_physical_experts num_local_physical_experts : Z) :=
  make_redundant_experts_chunkwise tokens num_physical_experts num_local_physical_experts num_physical_experts.

Definition prefill_rebalance_experts (tokens : list (list (list W)))
    (num_physical_experts num_local_physical_experts num_groups num_nodes : Z)
    : res (list (list Z) * list (list (list Z)) * list (list Z)) :=
  let! first := of_opt ValueError (head tokens) in
  let E := ncols first in
  let layers := py_range 0 (len first) in
  let! d := py_divides num_groups E in
  let! _ := py_assert d in
  let group_size := E / num_groups in
  let! d := py_divides num_nodes num_groups in
  let! _ := py_assert d in
  let tokens_per_group := (λ l,
    fsum <$> chunks (Z.to_nat num_groups) (Z.to_nat group_size) (sum0 (layer_rows tokens l) E)) <$> layers in
  let! group_perm := pack_groups tokens_per_group num_nodes in
  let log2mlog := (λ perm, spread group_size ((λ g, g * group_size) <$> perm)) <$> group_perm in
  let! mlog2log := mapM_res inverse log2mlog in
  let! tokens_per_mlog := mapM_res (λ m, map2_res torch_gather m mlog2log) tokens in
  let! '(phy2mlog, mlog2phy, mlog_count) := make_redundant_experts_chunkwise tokens_per_mlog
    num_physical_experts num_local_physical_experts (num_physical_experts / num_nodes) in
  let! phy2log := map2_res torch_gather mlog2log phy2mlog in
  let! log2phy := map2_res torch_gather mlog2phy log2mlog in
  let! log_count := map2_res torch_gather mlog_count log2mlog in
  Ok (phy2log, log2phy, log_count).

Definition rebalance_experts_vec (tokens_per_expert : list (list (list W)))
    (num_physical_experts num_local_physical_experts : Z) (num_groups : option Z) (num_nodes : Z)
    (enable_hierarchical : bool) : res (list (list Z) * list (list (list Z)) * list (list Z)) :=
  if enable_hierarchical then
    let! num_groups := of_opt TypeError num_groups in
    prefill_rebalance_experts tokens_per_expert num_physical_experts num_local_physical_experts num_groups num_nodes
  else decode_rebalance_experts tokens_per_expert num_physical_experts num_local_physical_experts.

End vec.
Arguments nodes_state W : clear implicits.
