(* ===== verification/ExpertVecSpec.v ===== *)
(** * The vectorised balancer: its parts and its maps

    [pack_groups] returns a permutation; the loop over the redundant replicas keeps
    the two maps of a chunk inverse to each other; the chunks of a layer make up one
    placement; dealing the replicas to the devices renames the places. *)

From S2P Require Import Prelude Tensor ExpertLoad ExpertPacking ExpertLoadSpec ExpertBalance.
From S2P Require Import ExpertVec.
From S2P Require Import ExpertUpdate ExpertUpdateChunks ExpertUpdatePlan ExpertUpdateMatch.

Class TorchVecLaws (W : Type) `{TorchVec W} : Prop :=
  argmin_in : ∀ l : list W, l ≠ [] → 0 ≤ argmin l < len l.

Section vec_spec.
Context {W : Type} `{TorchFloat W} `{!TorchLaws W} `{TorchVec W} `{!TorchVecLaws W}.

(** ** Groups to nodes *)

(** The smallest key is not that of a full node when some node has room. *)
Lemma min_by_key_open (keys : list (option W)) i best kb all :
  drop (Z.to_nat i) all = keys → 0 ≤ i → zat all best = Some kb →
  ∃ k, zat all (min_by_key keys i best kb) = Some k ∧ (k = None → kb = None ∧ Forall (λ k, k = None) keys).
Proof.
  revert i best kb. induction keys as [|k keys IH]; intros i best kb Hd Hi Hb; [by exists kb|]. cbn.
  assert (Hk : zat all i = Some k).
  { unfold zat. destruct (Z.ltb_spec i 0); [lia|]. rewrite <- (Nat.add_0_r (Z.to_nat i)), <- lookup_drop, Hd. done. }
  assert (Hd' : drop (Z.to_nat (i + 1)) all = keys).
  { replace (Z.to_nat (i + 1)) with (Z.to_nat i + 1)%nat by lia. by rewrite <- drop_drop, Hd. }
  destruct (key_lt k kb) eqn:E.
  - destruct (IH (i + 1) i k Hd' ltac:(lia) Hk) as (k' & E' & Hn). exists k'. split; [done|].
    intros Hk'. destruct (Hn Hk') as [-> _]. by destruct kb.
  - destruct (IH (i + 1) best kb Hd' ltac:(lia) Hb) as (k' & E' & Hn). exists k'. split; [done|].
    intros Hk'. destruct (Hn Hk') as [-> Hf]. split; [done|]. constructor; [|done]. by destruct k.
Qed.

Lemma min_key_open (keys : list (option W)) k0 x : zat keys k0 = Some (Some x) →
  ∃ p y, min_key keys = Ok p ∧ zat keys p = Some (Some y).
Proof.
  destruct keys as [|k keys]; [intros Hx%zat_Some_bound; unfold len in Hx; cbn in Hx; lia|]. intros Hx. cbn.
  destruct (min_by_key_open keys 1 0 k (k :: keys)) as (o & E & Hn); [done..|].
  destruct o as [y|]; [by exists (min_by_key keys 1 0 k), y|].
  destruct (Hn eq_refl) as [-> Hf]. exfalso. apply zat_elem in Hx.
  apply elem_of_cons in Hx as [|Hx]; [done|]. rewrite Forall_forall in Hf. by apply Hf in Hx.
Qed.

Record packed_vec P G n (dn : list Z) (s : nodes_state W) : Prop := {
  pv_ret : len (ret s) = n;
  pv_tokens : len (node_tokens s) = P;
  pv_groups : len (node_groups s) = P;
  pv_bound : ∀ p c, zat (node_groups s) p = Some c → 0 ≤ c ≤ G;
  pv_sum : sum_Z (node_groups s) = len dn;
  pv_done : ∀ g, g ∈ dn → ∃ p r c, zat (ret s) g = Some (p * G + r) ∧ zat (node_groups s) p = Some c ∧ 0 ≤ r < c;
  pv_inj : ∀ g g' x, g ∈ dn → g' ∈ dn → zat (ret s) g = Some x → zat (ret s) g' = Some x → g = g';
}.

Lemma pack_group_vec_ok w P G n dn s g :
  packed_vec P G n dn s → len w = n → 0 ≤ g < n → g ∉ dn → len dn < P * G →
  ∃ s', pack_group_vec w G s g = Ok s' ∧ packed_vec P G n (g :: dn) s'.
Proof.
  intros [H1 H2 H3 Hc Hs Hd Hinj] Hw Hg Hnew Hlt.
  destruct (open_packs P G (node_groups s)) as [|q0 qs] eqn:Eo; [by apply open_packs_nonempty in Eo; [|lia..]|].
  assert (Hq : q0 ∈ open_packs P G (node_groups s)) by (rewrite Eo; by left).
  apply elem_of_open_packs in Hq as (c0 & Hq0 & Hc0); [|done].
  set (keys := zip_with (λ n t, if G <=? n then None else Some t) (node_groups s) (node_tokens s)).
  destruct (zat_in (node_tokens s) q0) as [t0 Ht0]; [apply zat_Some_bound in Hq0; lia|].
  destruct (min_key_open keys q0 t0) as (p & y & Hp & Hpk).
  { apply zat_zip_with. exists c0, t0. split_and!; [|done|done]. by destruct (Z.leb_spec G c0); [lia|]. }
  apply zat_zip_with in Hpk as (c & t & Ey & Hpc & Hpt). destruct (Z.leb_spec G c) as [|HcG]; [done|].
  pose proof (zat_Some_bound _ _ _ Hpc) as Hpb. pose proof (Hc _ _ Hpc) as Hc1.
  destruct (zat_in w g) as [xg Hxg]; [lia|].
  eexists. split.
  { unfold pack_group_vec. fold keys. rewrite Hp. cbn [res_bind]. rewrite (zat_py_index _ _ _ Hpc). cbn [res_bind].
    destruct (Z.ltb_spec c G); [|lia]. cbn [py_assert res_bind]. rewrite py_set_index_ok by lia. cbn [res_bind].
    rewrite (zat_py_index _ _ _ Hpt), (zat_py_index _ _ _ Hxg). cbn [res_bind].
    rewrite !py_set_index_ok by lia. cbn [res_bind]. reflexivity. }
  assert (Hold : ∀ g' x, g' ∈ dn → zat (ret s) g' = Some x → x ≠ p * G + c).
  { intros g' x Hg' Hx ->. destruct (Hd g' Hg') as (p' & r & d & Hr & Hd' & Hrd). rewrite Hx in Hr.
    injection Hr as Hr. pose proof (Hc _ _ Hd').
    destruct (mixed_radix_inj G p p' c r) as [-> ->]; [lia..|]. simplify_eq. lia. }
  split; cbn; rewrite ?len_insert; try done.
  - intros q d. rewrite zat_insert by lia. destruct (Z.eqb_spec p q); [|by apply Hc]. intros [= <-]. lia.
  - rewrite (sum_Z_insert _ _ _ _ Hpc), len_cons. lia.
  - intros g' [->|Hg']%elem_of_cons.
    + exists p, c, (c + 1). rewrite !zat_insert_eq by lia. split_and!; try done; lia.
    + assert (g ≠ g') by (intros ->; done). destruct (Hd g' Hg') as (p' & r & d & ? & Hd' & ?).
      exists p', r, (if p =? p' then c + 1 else d). rewrite zat_insert_ne by lia. rewrite zat_insert by lia.
      destruct (Z.eqb_spec p p') as [->|]; simplify_eq; split_and!; try done; lia.
  - intros g1 g2 x Hg1 Hg2 Hx1 Hx2. rewrite zat_insert in Hx1, Hx2 by lia.
    destruct (Z.eqb_spec g g1) as [<-|Hn1], (Z.eqb_spec g g2) as [<-|Hn2]; [done|..].
    + apply elem_of_cons in Hg2 as [->|Hg2]; [done|]. injection Hx1 as <-. by destruct (Hold g2 _ Hg2 Hx2).
    + apply elem_of_cons in Hg1 as [->|Hg1]; [done|]. injection Hx2 as <-. by destruct (Hold g1 _ Hg1 Hx1).
    + apply elem_of_cons in Hg1 as [->|Hg1]; [done|]. apply elem_of_cons in Hg2 as [->|Hg2]; [done|].
      by apply (Hinj g1 g2 x).
Qed.

Lemma pack_groups_vec_loop w P G n gs : ∀ dn s,
  packed_vec P G n dn s → len w = n → NoDup gs → Forall (λ g, 0 ≤ g < n ∧ g ∉ dn) gs →
  len dn + len gs ≤ P * G →
  ∃ s', fold_res (pack_group_vec w G) s gs = Ok s' ∧ packed_vec P G n (rev gs ++ dn) s'.
Proof.
  induction gs as [|g gs IH]; intros dn s Hs Hw Hn Hf Hl; [by exists s|].
  apply NoDup_cons in Hn as [Hg Hn]. apply Forall_cons in Hf as [[Hb Hnew] Hf].
  rewrite len_cons in Hl. pose proof (len_nonneg gs).
  destruct (pack_group_vec_ok w P G n dn s g) as (s1 & Hs1 & Hp1); [done..|lia|].
  cbn [fold_res]. rewrite Hs1. cbn [res_bind]. destruct (IH (g :: dn) s1 Hp1) as (s2 & Hs2 & Hp2); try done.
  - rewrite Forall_forall in Hf |- *. intros x Hx. destruct (Hf x Hx). split; [done|].
    apply not_elem_of_cons. split; [|done]. intros ->. by apply Hg.
  - rewrite len_cons. lia.
  - exists s2. split; [done|]. cbn [rev]. by rewrite <- app_assoc.
Qed.

(** Every row of [pack_groups] is a permutation of the places. *)
Lemma pack_row_vec_ok w P G : 0 ≤ P → 0 ≤ G → len w = P * G →
  ∃ s, fold_res (pack_group_vec w G)
    {| ret := replicate (length w) (-1); node_tokens := replicate (Z.to_nat P) fzero;
       node_groups := replicate (Z.to_nat P) 0 |} (sort_desc w) = Ok s ∧ is_perm (P * G) (ret s).
Proof.
  intros HP HG Hw. pose proof (sort_desc_perm w) as Hperm. rewrite Hw in Hperm.
  destruct (pack_groups_vec_loop w P G (P * G) (sort_desc w) [] {| ret := replicate (length w) (-1);
    node_tokens := replicate (Z.to_nat P) fzero; node_groups := replicate (Z.to_nat P) 0 |}) as (s & E & Hs).
  - split; cbn; rewrite ?len_replicate; [done|lia|lia| | | |].
    + intros p c Hp. apply zat_elem, elem_of_replicate in Hp as [-> _]. lia.
    + clear. induction (Z.to_nat P) as [|k IH]; [done|exact IH].
    + intros g Hg. by apply not_elem_of_nil in Hg.
    + intros g g' x Hg. by apply not_elem_of_nil in Hg.
  - done.
  - by eapply is_perm_NoDup.
  - apply Forall_forall. intros g Hg. apply (is_perm_elem _ _ g Hperm) in Hg.
    split; [done|]. apply not_elem_of_nil.
  - pose proof (is_perm_len (P * G) (sort_desc w) ltac:(nia) Hperm). rewrite len_nil. lia.
  - exists s. split; [exact E|]. destruct Hs as [H1 H2 H3 Hc Hsum Hd Hinj].
    assert (Hall : ∀ g, 0 ≤ g < P * G → g ∈ rev (sort_desc w) ++ []).
    { intros g Hg. rewrite app_nil_r. apply list_elem_of_In. rewrite <- in_rev. apply list_elem_of_In.
      by apply (is_perm_elem _ _ g Hperm). }
    apply perm_of_NoDup; [done| |].
    + apply NoDup_zat. intros i j x Hi Hj. pose proof (zat_Some_bound _ _ _ Hi). pose proof (zat_Some_bound _ _ _ Hj).
      by apply (Hinj i j x); [apply Hall; lia|apply Hall; lia|..].
    + apply Forall_forall. intros x (g & Hx)%elem_zat. pose proof (zat_Some_bound _ _ _ Hx).
      destruct (Hd g) as (p & r & c & Hr & Hpc & Hrc); [apply Hall; lia|]. rewrite Hx in Hr. injection Hr as ->.
      pose proof (Hc _ _ Hpc). apply zat_Some_bound in Hpc. nia.
Qed.

(** ** Redundant replicas *)

Lemma step_values_ok tokens diff count : len tokens = len count → len diff = len count → 0 < len count →
  ∃ v, step_values tokens diff count = Ok v ∧ len v = len count.
Proof.
  intros Ht Hd Hc. unfold step_values. set (score := zip_with fdiv diff count).
  set (score1 := zip_with _ tokens count).
  assert (Hs : len score = len count) by (unfold score; rewrite len_zip_with; lia).
  assert (Hs1 : len score1 = len count) by (unfold score1; rewrite len_zip_with; lia).
  destruct (Z.eqb_spec (len score) 0); [lia|]. cbn [guard_raise res_bind].
  assert (Hne : ∀ l : list W, len l = len count → l ≠ []) by (intros l Hl ->; rewrite len_nil in Hl; lia).
  pose proof (argmax_in score (Hne _ Hs)) as Ha. destruct (zat_in score (argmax score) Ha) as [x Hx].
  destruct (zat_in score1 (argmax score)) as [y Hy]; [lia|].
  rewrite (zat_py_index _ _ _ Hx), (zat_py_index _ _ _ Hy). cbn [res_bind]. rewrite py_set_index_ok by done. cbn [res_bind].
  set (score2 := <[_ := y]> score). assert (Hs2 : len score2 = len count) by (unfold score2; rewrite len_insert; lia).
  pose proof (argmax_in score2 (Hne _ Hs2)) as Ha2. destruct (zat_in score2 _ Ha2) as [z Hz].
  rewrite (zat_py_index _ _ _ Hz). cbn [res_bind].
  assert (Hlr : len (replicate (length score) x) = len score) by (rewrite len_replicate; done).
  rewrite py_set_index_ok by lia. eexists. split; [done|]. rewrite len_insert. lia.
Qed.

Lemma len_sum0 (rows : list (list W)) n : 0 ≤ n → len (sum0 rows n) = n.
Proof. intros. unfold sum0. rewrite len_fmap. unfold len. rewrite length_py_range. lia. Qed.

(** Row [j] of the map of chunk [k], with [n] replicas among the first [lim] places. *)
Definition row_ok (k npg Pc X lim : Z) (phy : list Z) (j n : Z) (row : list Z) : Prop :=
  len row = X ∧ 1 ≤ n ≤ X ∧ NoDup (take (Z.to_nat n) row) ∧
  (∀ r, 0 ≤ r < n → ∃ q, 0 ≤ q < lim ∧ zat row r = Some (k * Pc + q) ∧ zat phy q = Some (k * npg + j)) ∧
  (∀ r, n ≤ r < X → zat row r = Some (-1)).

Record chunk_ok (k npg Pc X lim : Z) (c : chunk) : Prop := {
  ck_phy : len (c_phy c) = Pc;
  ck_l2p : len (c_l2p c) = npg;
  ck_count : len (c_count c) = npg;
  ck_bound : ∀ j n, zat (c_count c) j = Some n → n ≤ lim - npg + 1;
  ck_rows : ∀ j, 0 ≤ j < npg → ∃ n row, zat (c_count c) j = Some n ∧ zat (c_l2p c) j = Some row ∧
    row_ok k npg Pc X lim (c_phy c) j n row;
  ck_inv : ∀ q, 0 ≤ q < lim → ∃ j n row r, zat (c_phy c) q = Some (k * npg + j) ∧ 0 ≤ j < npg ∧
    zat (c_count c) j = Some n ∧ zat (c_l2p c) j = Some row ∧ 0 ≤ r < n ∧ zat row r = Some (k * Pc + q);
}.

Lemma init_chunk_ok k npg Pc red : 0 ≤ npg ≤ Pc → 0 ≤ red → chunk_ok k npg Pc (red + 1) npg (init_chunk k npg Pc red).
Proof.
  intros Hn Hr. pose proof (empty_like_len Pc ltac:(lia)) as He.
  assert (Hlr : len ((λ j, k * npg + j) <$> py_range 0 npg) = npg).
  { rewrite len_fmap. unfold len. rewrite length_py_range. lia. }
  assert (Hphy : ∀ q, 0 ≤ q < npg → zat (c_phy (init_chunk k npg Pc red)) q = Some (k * npg + q)).
  { intros q Hq. cbn. rewrite zat_app_l by lia. rewrite zat_fmap, (proj2 (zat_range0 npg q q)) by done. done. }
  assert (Hcnt : ∀ j, 0 ≤ j < npg → zat (c_count (init_chunk k npg Pc red)) j = Some 1).
  { intros j Hj. cbn. apply zat_replicate. lia. }
  assert (Hl2p : ∀ j, 0 ≤ j < npg → zat (c_l2p (init_chunk k npg Pc red)) j =
    Some ((j + k * Pc) :: replicate (Z.to_nat red) (-1))).
  { intros j Hj. cbn. rewrite zat_fmap, (proj2 (zat_range0 npg j j)) by done. done. }
  split.
  - cbn. unfold len in *. rewrite length_app, length_drop. lia.
  - cbn. rewrite len_fmap. unfold len. rewrite length_py_range. lia.
  - cbn. rewrite len_replicate. lia.
  - intros j n Hj. cbn in Hj. apply zat_elem, elem_of_replicate in Hj as [-> _]. lia.
  - intros j Hj. do 2 eexists. split; [by apply Hcnt|]. split; [by apply Hl2p|].
    split_and!; [rewrite len_cons, len_replicate; lia|lia|lia|by apply NoDup_singleton| |].
    + intros r Hr'. exists j. replace r with 0 by lia. split_and!; [lia|lia| |by apply Hphy].
      cbn. apply (f_equal Some). lia.
    + intros r Hr'. assert (len [j + k * Pc] = 1) by done.
      change (?x :: ?l) with ([x] ++ l). rewrite zat_app_r by lia.
      apply zat_replicate. lia.
  - intros q Hq. do 4 eexists. split; [by apply Hphy|]. split; [done|]. split; [by apply Hcnt|].
    split; [by apply Hl2p|]. split; [apply (conj (Z.le_refl 0)); lia|]. cbn. apply (f_equal Some). lia.
Qed.

(** A new replica in place [lim] of the expert [j]. *)
Lemma row_ok_add k npg Pc X lim phy j n row : 0 ≤ lim < len phy → n < X →
  row_ok k npg Pc X lim phy j n row →
  row_ok k npg Pc X (lim + 1) (<[Z.to_nat lim := k * npg + j]> phy) j (n + 1)
    (<[Z.to_nat n := k * Pc + lim]> row).
Proof.
  intros Hl Hn (H1 & H2 & H3 & H4 & H5). split_and!; [by rewrite len_insert|lia|lia| | |].
  - replace (Z.to_nat (n + 1)) with (S (Z.to_nat n)) by lia.
    rewrite take_insert_snoc by (unfold len in *; lia). apply NoDup_app. split_and!; [done| |apply NoDup_singleton].
    intros x (i & Hi)%elem_zat ->%list_elem_of_singleton. pose proof (zat_Some_bound _ _ _ Hi) as Hb.
    unfold len in Hb. rewrite length_take in Hb. rewrite zat_take in Hi by lia.
    destruct (H4 i) as (q & Hq & Hr & _); [lia|]. rewrite Hi in Hr. injection Hr as Hr. lia.
  - intros r Hr. destruct (decide (r = n)) as [->|Hne].
    + exists lim. rewrite !zat_insert_eq by lia. split_and!; [lia|lia|done|done].
    + destruct (H4 r) as (q & Hq & Hz & Hp); [lia|]. exists q.
      rewrite !zat_insert_ne by lia. split_and!; [lia|lia|done|done].
  - intros r Hr. rewrite zat_insert_ne by lia. apply H5. lia.
Qed.

Lemma row_ok_keep k npg Pc X lim phy x j n row : 0 ≤ lim < len phy →
  row_ok k npg Pc X lim phy j n row → row_ok k npg Pc X (lim + 1) (<[Z.to_nat lim := x]> phy) j n row.
Proof.
  intros Hl (H1 & H2 & H3 & H4 & H5). split_and!; [done|lia|lia|done| |done].
  intros r Hr. destruct (H4 r Hr) as (q & Hq & Hz & Hp). exists q. rewrite zat_insert_ne by lia.
  split_and!; [lia|lia|done|done].
Qed.

Lemma redundant_step_ok k npg Pc X rows diff c i :
  0 < npg → 0 ≤ i → npg + i < Pc → i + 1 < X →
  Forall (λ r, len r = npg) rows → Forall (λ r, len r = npg) diff → length rows = length diff →
  chunk_ok k npg Pc X (npg + i) c →
  ∃ c', redundant_step k npg Pc rows diff c i = Ok c' ∧ chunk_ok k npg Pc X (npg + (i + 1)) c'.
Proof.
  intros Hn Hi Hlt HX Hrows Hdiff Hlen Hc. pose proof Hc as [H1 H2 H3 Hb H4 H5].
  unfold redundant_step.
  destruct (map2_res_exists (λ t d, step_values t d (c_count c)) (λ _ _ v, len v = npg) rows diff) as (values & -> & _).
  { clear -Hrows Hdiff Hlen H3 Hn TorchLaws0. revert diff Hdiff Hlen.
    induction Hrows as [|r rows Hr _ IH]; intros [|d diff] Hdiff Hlen; try done; constructor.
    - apply Forall_cons in Hdiff as [Hd _]. destruct (step_values_ok r d (c_count c)) as (v & E & Hv); [lia..|].
      exists v. split; [done|lia].
    - apply Forall_cons in Hdiff as [_ Hd]. apply IH; [done|]. cbn in Hlen. lia. }
  cbn [res_bind]. set (red := argmin (sum0 values npg)).
  assert (Hred : 0 ≤ red < npg).
  { pose proof (len_sum0 values npg ltac:(lia)) as Hl. pose proof (argmin_in (sum0 values npg)) as Ha.
    rewrite Hl in Ha. apply Ha. intros E. rewrite E, len_nil in Hl. lia. }
  destruct (H4 red Hred) as (n & row & Hcn & Hrow & Hok). pose proof Hok as (R1 & R2 & _).
  pose proof (Hb red n Hcn) as Hbn.
  rewrite py_set_index_ok by lia. cbn [res_bind].
  rewrite (zat_py_index _ _ _ Hcn), (zat_py_index _ _ _ Hrow). cbn [res_bind].
  rewrite !py_set_index_ok by lia. cbn [res_bind]. rewrite !py_set_index_ok by lia. cbn [res_bind].
  eexists. split; [done|]. replace (red + k * npg) with (k * npg + red) by lia.
  replace (k * Pc + npg + i) with (k * Pc + (npg + i)) by lia. rewrite Z.add_assoc.
  split; cbn; rewrite ?len_insert; [done..| | |].
  - intros j m. rewrite zat_insert by lia. destruct (Z.eqb_spec red j) as [<-|]; [intros [= <-]; lia|].
    intros Hj. pose proof (Hb j m Hj). lia.
  - intros j Hj. rewrite !zat_insert by lia. destruct (Z.eqb_spec red j) as [<-|Hne].
    + do 2 eexists. split; [done|]. split; [done|]. apply row_ok_add; [lia|lia|done].
    + destruct (H4 j Hj) as (m & row' & Hm & Hr' & Hok'). exists m, row'. split_and!; [done..|].
      apply row_ok_keep; [lia|done].
  - intros q Hq. destruct (decide (q = npg + i)) as [->|Hne].
    + exists red, (n + 1), (<[Z.to_nat n := k * Pc + (npg + i)]> row), n. rewrite !zat_insert_eq by lia.
      split_and!; try done; lia.
    + destruct (H5 q) as (j & m & row' & r & Hq1 & Hj & Hm & Hr' & Hr & Hz); [lia|].
      rewrite zat_insert_ne by lia. destruct (decide (red = j)) as [<-|Hrj].
      * rewrite Hcn in Hm. rewrite Hrow in Hr'. injection Hm as <-. injection Hr' as <-.
        exists red, (n + 1), (<[Z.to_nat n := k * Pc + (npg + i)]> row), r.
        rewrite !zat_insert_eq by lia. rewrite zat_insert_ne by lia. split_and!; try done; lia.
      * exists j, m, row', r. rewrite !zat_insert_ne by lia. done.
Qed.

Lemma chunk_experts_ok npg rpg Pc red (rows diff : list (list W)) k :
  0 < npg → 0 ≤ rpg ≤ red → Pc = npg + rpg → 0 ≤ k → length rows = length diff →
  Forall (λ r, (k + 1) * npg ≤ len r) rows → Forall (λ r, (k + 1) * npg ≤ len r) diff →
  ∃ c, chunk_experts npg rpg Pc red rows diff k = Ok c ∧ chunk_ok k npg Pc (red + 1) Pc c.
Proof.
  intros Hn Hr HP Hk Hlen Hrows Hdiff. unfold chunk_experts.
  assert (Hcols : ∀ l : list (list W), Forall (λ r, (k + 1) * npg ≤ len r) l →
    Forall (λ r, len r = npg) (columns k npg l)).
  { intros l Hl. apply Forall_fmap. apply (Forall_impl _ _ _ Hl). intros r Hlr. cbn.
    rewrite py_slice_drop_take by nia. unfold len in *. rewrite length_drop, length_take. nia. }
  assert (Hgen : ∀ m i c, Z.of_nat m = rpg - i → 0 ≤ i → chunk_ok k npg Pc (red + 1) (npg + i) c →
    ∃ c', fold_res (redundant_step k npg Pc (columns k npg rows) (columns k npg diff)) c (py_range i rpg) = Ok c' ∧
      chunk_ok k npg Pc (red + 1) (npg + rpg) c').
  { induction m as [|m IH]; intros i c Hm Hi Hc.
    - rewrite py_range_nil by lia. exists c. split; [done|]. by replace (npg + rpg) with (npg + i) by lia.
    - pose proof (py_range_cons i (rpg - i - 1) ltac:(lia)) as Er.
      replace (i + (1 + (rpg - i - 1))) with rpg in Er by lia.
      replace (i + 1 + (rpg - i - 1)) with rpg in Er by lia. rewrite Er. cbn [fold_res].
      destruct (redundant_step_ok k npg Pc (red + 1) (columns k npg rows) (columns k npg diff) c i)
        as (c1 & -> & Hc1); [lia..|by apply Hcols|by apply Hcols|by unfold columns; rewrite !length_fmap|done|].
      cbn [res_bind]. destruct (IH (i + 1) c1) as (c2 & E2 & Hc2); [lia|lia|done|]. by exists c2. }
  rewrite <- HP in Hgen. apply (Hgen (Z.to_nat rpg) 0); [lia|lia|]. rewrite Z.add_0_r. apply init_chunk_ok; lia.
Qed.
End vec_spec.

(** ** Reading a flattened matrix *)

Lemma zat_concat {A} w (m : list (list A)) i : 0 < w → 0 ≤ i → Forall (λ r, len r = w) m →
  zat (concat m) i = (r ← zat m (i / w); zat r (i mod w)).
Proof.
  intros Hw Hi Hm. revert i Hi. induction Hm as [|r m Hr _ IH]; intros i Hi.
  { cbn. destruct (zat [] i) eqn:E; [by apply zat_elem, not_elem_of_nil in E|].
    destruct (zat [] (i / w)) eqn:E'; [by apply zat_elem, not_elem_of_nil in E'|done]. }
  cbn [concat]. pose proof (Z.div_pos i w Hi Hw). destruct (decide (i < w)) as [Hlt|Hge].
  - rewrite Z.div_small, Z.mod_small by lia. rewrite zat_app_l by lia. done.
  - rewrite zat_app_r, IH by lia. rewrite Hr.
    replace (i / w) with (1 + (i - w) / w) by (rewrite <- Z.div_add_l by lia; f_equal; lia).
    replace (i mod w) with ((i - w) mod w) by (rewrite <- (Z.mod_add (i - w) 1) by lia; f_equal; lia).
    pose proof (Z.div_pos (i - w) w ltac:(lia) Hw).
    change (r :: m) with ([r] ++ m). rewrite (zat_app_r [r]) by (unfold len; cbn [length]; lia).
    do 2 f_equal. unfold len. cbn [length]. lia.
Qed.

Lemma len_range n : 0 ≤ n → len (py_range 0 n) = n.
Proof. intros. unfold len. rewrite length_py_range. lia. Qed.

(** ** A layer *)

Lemma layer_maps NC npg Pc X cs : 0 < NC → 0 < npg ≤ Pc → len cs = NC →
  (∀ k c, zat cs k = Some c → chunk_ok k npg Pc X Pc c) →
  maps_consistent (npg * NC) (Pc * NC) X (concat (c_phy <$> cs)) (concat (c_l2p <$> cs)) (concat (c_count <$> cs)).
Proof.
  intros HNC Hn Hl Hcs.
  assert (Hrows : ∀ (B : Type) (f : chunk → list B) w, (∀ k c, chunk_ok k npg Pc X Pc c → len (f c) = w) →
    Forall (λ r, len r = w) (f <$> cs)).
  { intros B f w Hf. apply Forall_fmap, Forall_forall. intros c Hc. destruct (elem_zat _ _ Hc) as [k Hk].
    by apply (Hf k), Hcs. }
  assert (H1 : Forall (λ r, len r = Pc) (c_phy <$> cs)) by (eapply Hrows; intros k c [? _ _ _ _ _]; done).
  assert (H2 : Forall (λ r, len r = npg) (c_l2p <$> cs)) by (eapply Hrows; intros k c [_ ? _ _ _ _]; done).
  assert (H3 : Forall (λ r, len r = npg) (c_count <$> cs)) by (eapply Hrows; intros k c [_ _ ? _ _ _]; done).
  assert (Hk : ∀ e w, 0 < w → 0 ≤ e < w * NC → ∃ c, zat cs (e / w) = Some c ∧ 0 ≤ e mod w < w).
  { intros e w Hw He. destruct (zat_in cs (e / w)) as [c Hc].
    - rewrite Hl. split; [apply Z.div_pos; lia|apply Z.div_lt_upper_bound; lia].
    - exists c. split; [done|]. apply Z.mod_pos_bound; lia. }
  split; rewrite ?(len_concat_rows _ _ H1), ?(len_concat_rows _ _ H2), ?(len_concat_rows _ _ H3), ?len_fmap; [lia..| |].
  - intros e He. destruct (Hk e npg ltac:(lia) He) as (c & Hc & Hj).
    pose proof (Hcs _ _ Hc) as Hok. destruct (ck_rows _ _ _ _ _ _ Hok (e mod npg) Hj) as (n & row & Hcn & Hrow & R1 & R2 & R3 & R4 & R5).
    exists n, row. rewrite (zat_concat npg _ e), (zat_concat npg _ e), !zat_fmap, Hc by (try done; lia). cbn.
    split_and!; [done|done|lia|lia|done|done| |done]. intros r Hr. destruct (R4 r Hr) as (q & Hq & Hz & Hp).
    exists (e / npg * Pc + q). split; [done|]. destruct (mixed_radix Pc (e / npg) q Hq) as [Hd Hm].
    assert (0 ≤ e / npg) by (apply Z.div_pos; lia).
    rewrite (zat_concat Pc) by (try done; nia). rewrite Hd, Hm, zat_fmap, Hc. cbn. rewrite Hp. f_equal.
    pose proof (Z.div_mod e npg ltac:(lia)). lia.
  - intros p e Hp. pose proof (zat_Some_bound _ _ _ Hp) as Hb.
    rewrite (len_concat_rows _ _ H1), len_fmap, Hl in Hb. destruct (Hk p Pc ltac:(lia) ltac:(lia)) as (c & Hc & Hq).
    rewrite (zat_concat Pc), zat_fmap, Hc in Hp by (try done; lia). cbn in Hp.
    destruct (ck_inv _ _ _ _ _ _ (Hcs _ _ Hc) (p mod Pc) Hq) as (j & n & row & r & Hpj & Hj & Hn' & Hrow & Hr & Hz).
    rewrite Hp in Hpj. injection Hpj as ->. destruct (mixed_radix npg (p / Pc) j Hj) as [Hd Hm].
    assert (0 ≤ p / Pc) by (apply Z.div_pos; lia). exists row, n, r.
    rewrite !(zat_concat npg) by (try done; nia). rewrite Hd, Hm, !zat_fmap, Hc. cbn.
    split_and!; [done|done|lia|lia|]. rewrite Hz. f_equal. pose proof (Z.div_mod p Pc ltac:(lia)). lia.
Qed.

(** ** Renaming places *)

Lemma maps_rename n R M phy l2p cnt idx place phy' l2p' :
  maps_consistent n R M phy l2p cnt → is_perm R idx → inverse_of idx place → 0 ≤ R →
  torch_gather phy idx = Ok phy' →
  Forall2 (λ row row', len row' = len row ∧ ∀ r x, zat row r = Some x →
    zat row' r = if x =? -1 then Some (-1) else zat place x) l2p l2p' →
  maps_consistent n R M phy' l2p' cnt.
Proof.
  intros [C1 C2 C3 C4 C5] Hidx Hinv HR Hphy Hrows. pose proof (is_perm_len R idx HR Hidx) as Hli.
  assert (Hplace : ∀ x, 0 ≤ x < R → ∃ y, zat place x = Some y ∧ zat phy' y = zat phy x).
  { intros x Hx. destruct (elem_zat idx x) as [y Hy]; [by apply (is_perm_elem R)|]. exists y.
    split; [by apply Hinv|]. by rewrite (gather_zat _ _ _ y Hphy), Hy. }
  assert (Hinj : ∀ x x' y, zat place x = Some y → zat place x' = Some y → x = x').
  { intros x x' y Hx Hx'. apply Hinv in Hx, Hx'. congruence. }
  assert (Hrow : ∀ e row, zat l2p e = Some row → ∃ row', zat l2p' e = Some row' ∧ len row' = len row ∧
    ∀ r x, zat row r = Some x → zat row' r = if x =? -1 then Some (-1) else zat place x).
  { intros e row He. unfold zat in He |- *. destruct (e <? 0); [done|].
    destruct (Forall2_lookup_l _ _ _ _ _ Hrows He) as (row' & ? & ? & ?). by exists row'. }
  split.
  - by rewrite (gather_len _ _ _ Hphy), Hli.
  - rewrite <- C2. apply Forall2_length in Hrows. unfold len. lia.
  - done.
  - intros e He. destruct (C4 e He) as (c & row & Hc & Hr & Hb & Hl & Hnd & Hin & Hout).
    destruct (Hrow e row Hr) as (row' & Hr' & Hl' & Hz). exists c, row'. split_and!; [done|done|lia|lia|lia| | |].
    + apply NoDup_zat. intros i j y Hi Hj.
      assert (Hread : ∀ i y, zat (take (Z.to_nat c) row') i = Some y → 0 ≤ i < c ∧
        ∃ p, zat row i = Some p ∧ zat place p = Some y).
      { clear -Hz Hin Hb Hl Hl' C1. intros i y Hi. pose proof (zat_Some_bound _ _ _ Hi) as Hib.
        unfold len in Hib. rewrite length_take in Hib. rewrite zat_take in Hi by lia.
        destruct (Hin i ltac:(lia)) as (p & Hp & Hpe). split; [lia|]. exists p. split; [done|].
        rewrite (Hz i p Hp) in Hi. destruct (Z.eqb_spec p (-1)) as [Ep|]; [|done].
        apply zat_Some_bound in Hpe. lia. }
      destruct (Hread i y Hi) as (Hib & p & Hp & Hpy). destruct (Hread j y Hj) as (Hjb & p' & Hp' & Hpy').
      assert (p' = p) as -> by (by apply (Hinj _ _ y)).
      apply (zat_NoDup (take (Z.to_nat c) row) i j p Hnd); rewrite zat_take by lia; done.
    + intros r Hr0. destruct (Hin r Hr0) as (p & Hp & Hpe). pose proof (zat_Some_bound _ _ _ Hpe).
      destruct (Hplace p ltac:(lia)) as (y & Hy & Hpy). exists y. rewrite (Hz r p Hp).
      destruct (Z.eqb_spec p (-1)); [lia|]. split; [done|congruence].
    + intros r Hr0. by rewrite (Hz r _ (Hout r Hr0)).
  - intros p e Hp. rewrite (gather_zat _ _ _ p Hphy) in Hp.
    destruct (zat idx p) as [x|] eqn:Ex; [|done]. cbn in Hp.
    destruct (C5 x e Hp) as (row & c & r & Hr & Hc & Hrc & Hz0). destruct (Hrow e row Hr) as (row' & Hr' & _ & Hz).
    exists row', c, r. split_and!; [done|done|lia|lia|]. rewrite (Hz r x Hz0).
    apply zat_Some_bound in Hp. destruct (Z.eqb_spec x (-1)); [lia|]. by apply Hinv.
Qed.

(** Renaming experts. *)
Lemma maps_relabel n R M phy l2p cnt l2m m2l phy' l2p' cnt' :
  maps_consistent n R M phy l2p cnt → is_perm n l2m → inverse_of l2m m2l → 0 ≤ n →
  torch_gather m2l phy = Ok phy' → torch_gather l2p l2m = Ok l2p' → torch_gather cnt l2m = Ok cnt' →
  maps_consistent n R M phy' l2p' cnt'.
Proof.
  intros [C1 C2 C3 C4 C5] Hperm Hinv Hn Hphy Hl2p Hcnt. pose proof (is_perm_len n l2m Hn Hperm) as Hl.
  split; rewrite ?(gather_len _ _ _ Hphy), ?(gather_len _ _ _ Hl2p), ?(gather_len _ _ _ Hcnt); [done..| |].
  - intros e He. destruct (zat_in l2m e) as [m Hm]; [lia|]. destruct (C4 m) as (c & row & Hc & Hr & Hb & Hlr & Hnd & Hin & Hout).
    { apply (is_perm_elem n l2m m Hperm). by eapply zat_elem. }
    exists c, row. rewrite (gather_zat _ _ _ e Hcnt), (gather_zat _ _ _ e Hl2p), Hm. cbn.
    split_and!; [done|done|lia|lia|done|done| |done]. intros r Hr0. destruct (Hin r Hr0) as (p & Hp & Hpm).
    exists p. split; [done|]. rewrite (gather_zat _ _ _ p Hphy), Hpm. cbn. by apply Hinv.
  - intros p e Hp. rewrite (gather_zat _ _ _ p Hphy) in Hp. destruct (zat phy p) as [m|] eqn:Em; [|done]. cbn in Hp.
    destruct (C5 p m Em) as (row & c & r & Hr & Hc & Hrc & Hz). exists row, c, r.
    apply Hinv in Hp. rewrite (gather_zat _ _ _ e Hl2p), (gather_zat _ _ _ e Hcnt), Hp. done.
Qed.

(** ** Dealing *)

Lemma concat_zip_app {B C} (f g : B → list C) (l : list B) :
  concat ((λ x, f x ++ g x) <$> l) ≡ₚ concat (f <$> l) ++ concat (g <$> l).
Proof. induction l as [|x l IH]; [done|]. cbn. rewrite IH. solve_Permutation. Qed.

Lemma concat_omap {B C} (f : B → option C) (l : list B) :
  concat ((λ x, match f x with Some y => [y] | None => [] end) <$> l) = omap f l.
Proof. induction l as [|x l IH]; [done|]. cbn. destruct (f x); cbn; by rewrite IH. Qed.

Lemma transpose_perm {A} k (m : list (list A)) : 0 ≤ k → Forall (λ r, len r = k) m → concat (transpose k m) ≡ₚ concat m.
Proof.
  intros Hk. induction 1 as [|r m Hr _ IH].
  - unfold transpose. cbn. by induction (py_range 0 k).
  - unfold transpose. etrans; [|cbn [concat]; apply Permutation_app; [|exact IH]; reflexivity].
    assert (E : (λ j, omap (λ r0 : list A, zat r0 j) (r :: m)) <$> py_range 0 k =
      (λ j, match zat r j with Some y => [y] | None => [] end ++ omap (λ r0 : list A, zat r0 j) m) <$> py_range 0 k).
    { apply list_fmap_ext. intros _ j _. cbn. by destruct (zat r j). }
    rewrite E, concat_zip_app, concat_omap. rewrite <- Hr at 1. by rewrite omap_zat_range.
Qed.

Lemma imap_rev_perm (m : list (list Z)) (f : nat → bool) :
  concat (imap (λ i r, if f i then rev r else r) m) ≡ₚ concat m.
Proof.
  revert f. induction m as [|r m IH]; intros f; [done|]. cbn. rewrite (IH (f ∘ S)).
  apply Permutation_app_tail. destruct (f 0%nat); [symmetry; apply Permutation_rev|done].
Qed.

Lemma deal_perm nl G l : 0 ≤ nl → 0 ≤ G → len l = nl * G → deal nl G l ≡ₚ l.
Proof.
  intros Hnl HG Hl. unfold deal. set (rows := chunks _ _ l).
  assert (Hlen : length l = (Z.to_nat nl * Z.to_nat G)%nat) by (unfold len in Hl; nia).
  rewrite transpose_perm; [|done|].
  - rewrite imap_rev_perm. unfold rows. by rewrite concat_chunks.
  - apply Forall_forall. intros r (i & x & -> & Hx)%elem_of_lookup_imap.
    assert (Hf : Forall (λ y : list Z, length y = Z.to_nat G) rows) by (by apply Forall_chunks_length).
    rewrite Forall_forall in Hf. apply list_elem_of_lookup_2, Hf in Hx. unfold len.
    destruct (Nat.odd i); rewrite ?length_rev; lia.
Qed.

Lemma argsort_inverse n l : 0 ≤ n → is_perm n l → inverse_of l (argsort l).
Proof.
  intros Hn Hl. pose proof (is_perm_len n l Hn Hl) as Hlen. pose proof (is_perm_NoDup n l Hl) as Hnd.
  unfold argsort. set (z := zip l (py_range 0 (len l))). set (s := py_sort _ z).
  assert (Hp : s ≡ₚ z) by apply py_sort_perm.
  assert (Hz1 : z.*1 = l).
  { unfold z. apply fst_zip. rewrite length_py_range. unfold len. lia. }
  assert (Hs1 : s.*1 = py_range 0 n).
  { apply sorted_lt_ext.
    - pose proof (sorted_keys z (λ _, true)) as Hk.
      assert (Ht : ∀ m : list (Z * Z), List.filter (λ _, true) m = m) by (intros m; induction m; cbn; congruence).
      rewrite !Ht in Hk. apply Hk. by rewrite Hz1.
    - clear. unfold py_range. rewrite Z.sub_0_r. generalize 0%nat. induction (Z.to_nat n) as [|k IH]; intros a; [constructor|].
      cbn [seq fmap list_fmap]. constructor; [apply IH|]. apply Forall_forall.
      intros x (b & -> & Hb%elem_of_seq)%list_elem_of_fmap. lia.
    - intros x. rewrite (fmap_Permutation fst s z Hp), Hz1. by rewrite (is_perm_elem n l x Hl), elem_of_py_range. }
  assert (Hfor : ∀ v i, zat s.*2 v = Some i → zat l i = Some v).
  { intros v i Hv. assert (Hlv : 0 ≤ v < len s) by (apply zat_Some_bound in Hv; by rewrite len_fmap in Hv).
    destruct (zat_in s v Hlv) as [[v' i'] Hs]. rewrite zat_fmap, Hs in Hv. cbn in Hv. injection Hv as ->.
    assert (Hv' : zat s.*1 v = Some v') by (by rewrite zat_fmap, Hs). rewrite Hs1 in Hv'.
    apply zat_range0 in Hv' as [_ ->]. apply zat_elem in Hs. rewrite Hp in Hs.
    apply elem_zat in Hs as (j & [Hj1 Hj2]%zat_zip). apply zat_range0 in Hj2 as [_ ->]. done. }
  intros i j. split; [|apply Hfor]. intros Hij.
  assert (Hj : 0 ≤ j < len s.*2).
  { rewrite len_fmap. unfold len. rewrite Hp. rewrite <- (length_fmap fst z), Hz1. fold (len l). rewrite Hlen.
    apply (is_perm_elem n l j Hl). by eapply zat_elem. }
  destruct (zat_in s.*2 j Hj) as [i' Hi']. rewrite Hi'. f_equal. apply (zat_NoDup l i' i j Hnd); [by apply Hfor|done].
Qed.

Section vec_maps.
Context {W : Type} `{TorchFloat W} `{!TorchLaws W} `{TorchVec W} `{!TorchVecLaws W}.

(** The order in which the replicas of a layer go to the places. *)
Lemma dealt_perm NC Pc nl (score : list W) : 0 ≤ NC → 0 < Pc → 0 < nl → Pc mod nl = 0 → len score = Pc * NC →
  is_perm (Pc * NC) (concat (imap (λ k c, deal nl (Pc / nl) ((λ x, x + Z.of_nat k * Pc) <$> sort_desc c))
    (chunks (Z.to_nat NC) (Z.to_nat Pc) score))).
Proof.
  intros HNC HP Hnl Hd Hl. set (cs := chunks _ _ score).
  assert (Hcs : length cs = Z.to_nat NC) by apply length_chunks.
  assert (Hrow : ∀ k c, cs !! k = Some c → is_perm Pc (sort_desc c)).
  { intros k c Hc. assert (Hf : Forall (λ y : list W, length y = Z.to_nat Pc) cs).
    { apply Forall_chunks_length. unfold len in Hl. nia. }
    rewrite Forall_forall in Hf. apply list_elem_of_lookup_2, Hf in Hc.
    replace Pc with (len c) by (unfold len; lia). apply sort_desc_perm. }
  assert (Hdeal : ∀ k c, cs !! k = Some c →
    deal nl (Pc / nl) ((λ x, x + Z.of_nat k * Pc) <$> sort_desc c) ≡ₚ (λ x, x + Z.of_nat k * Pc) <$> sort_desc c).
  { intros k c Hc. pose proof (Z.div_mod Pc nl ltac:(lia)). pose proof (Z.div_pos Pc nl ltac:(lia) Hnl).
    apply deal_perm; [lia|lia|]. rewrite len_fmap, (is_perm_len Pc (sort_desc c)); [lia|lia|by apply (Hrow k)]. }
  apply perm_of_incl.
  - rewrite (len_concat_rows Pc).
    + unfold len. rewrite length_imap, Hcs. lia.
    + apply Forall_forall. intros r (k & c & -> & Hc)%elem_of_lookup_imap. unfold len. rewrite (Hdeal k c Hc).
      rewrite length_fmap. pose proof (is_perm_len Pc (sort_desc c) ltac:(lia) (Hrow k c Hc)) as E. unfold len in E. lia.
  - intros x Hx. assert (Hk : 0 ≤ x / Pc < NC).
    { split; [apply Z.div_pos; lia|apply Z.div_lt_upper_bound; lia]. }
    destruct (lookup_lt_is_Some_2 cs (Z.to_nat (x / Pc))) as [c Hc]; [lia|].
    apply list_elem_of_In, in_concat. eexists. split.
    + apply list_elem_of_In, elem_of_lookup_imap. exists (Z.to_nat (x / Pc)), c. split; [reflexivity|done].
    + apply list_elem_of_In. rewrite (Hdeal _ c Hc). apply list_elem_of_fmap. exists (x mod Pc). split.
      * pose proof (Z.div_mod x Pc ltac:(lia)). lia.
      * apply (is_perm_elem Pc _ _ (Hrow _ c Hc)). apply Z.mod_pos_bound. lia.
Qed.

Lemma balance_devices_ok NC n Pc nl X (totals : list W) phy l2p cnt :
  0 < NC → 0 < Pc → 0 < nl → Pc mod nl = 0 → len totals = n → maps_consistent n (Pc * NC) X phy l2p cnt →
  ∃ phy' l2p', balance_devices (Pc * NC) Pc nl totals phy l2p cnt = Ok (phy', l2p') ∧
    maps_consistent n (Pc * NC) X phy' l2p' cnt.
Proof.
  intros HNC HP Hnl Hd Ht Hmaps. pose proof Hmaps as [C1 C2 C3 C4 C5]. unfold balance_devices.
  assert (Hphy : Forall (λ i, 0 ≤ i < n) phy).
  { apply Forall_forall. intros e (p & Hp)%elem_zat. destruct (C5 p e Hp) as (row & c & r & He & _).
    apply zat_Some_bound in He. lia. }
  destruct (gather_ok cnt phy) as [counts Ec]; [by rewrite C3|]. rewrite Ec. cbn [res_bind].
  destruct (gather_ok totals phy) as [score Es]; [by rewrite Ht|]. rewrite Es. cbn [res_bind].
  unfold py_divides. destruct (Z.eqb_spec nl 0); [lia|]. cbn [res_bind]. rewrite Hd. cbn [Z.eqb py_assert res_bind].
  rewrite (Z.mul_comm Pc NC), Z.div_mul, (Z.mul_comm NC Pc) by lia.
  set (sc := zip_with fdiv score counts). set (idx := concat _).
  assert (Hsc : len sc = Pc * NC).
  { unfold sc. rewrite len_zip_with; rewrite ?(gather_len _ _ _ Es), ?(gather_len _ _ _ Ec); lia. }
  assert (Hidx : is_perm (Pc * NC) idx) by (by apply dealt_perm; [lia|..]).
  destruct (gather_ok phy idx) as [phy' Ep].
  { rewrite C1. apply Forall_forall. intros i Hi. by apply (is_perm_elem _ _ i Hidx). }
  rewrite Ep. cbn [res_bind]. pose proof (argsort_inverse (Pc * NC) idx ltac:(lia) Hidx) as Hinv.
  set (place := argsort idx) in *.
  assert (Hlp : len place = Pc * NC).
  { unfold place, argsort. rewrite len_fmap. unfold len. rewrite (py_sort_perm _). 
    rewrite length_zip_with, length_py_range. pose proof (is_perm_len (Pc * NC) idx ltac:(nia) Hidx) as E.
    unfold len in E |- *. lia. }
  set (f := λ row : list Z, let! ps := _ in _).
  destruct (mapM_res_exists f (λ row row', len row' = len row ∧ ∀ r x, zat row r = Some x →
    zat row' r = if x =? -1 then Some (-1) else zat place x) l2p) as (l2p' & E & HF).
  { apply Forall_forall. intros row (e & He)%elem_zat. destruct (C4 e) as (c & row' & Hc & Hr & Hb & Hl & Hnd & Hin & Hout).
    { apply zat_Some_bound in He. lia. }
    rewrite He in Hr. injection Hr as <-. unfold f.
    destruct (gather_ok place ((λ x, if x =? -1 then 0 else x) <$> row)) as [ps Eps].
    { rewrite Hlp. apply Forall_fmap, Forall_forall. intros x (r & Hx)%elem_zat. pose proof (zat_Some_bound _ _ _ Hx) as Hrb.
      cbn. destruct (Z.eqb_spec x (-1)) as [|Hne]; [lia|]. destruct (decide (r < c)) as [Hrc|Hrc].
      - destruct (Hin r) as (p & Hp & Hpe); [lia|]. rewrite Hx in Hp. injection Hp as ->.
        apply zat_Some_bound in Hpe. lia.
      - rewrite (Hout r) in Hx by lia. by injection Hx as <-. }
    rewrite Eps. cbn [res_bind]. eexists. split; [done|].
    pose proof (gather_len _ _ _ Eps) as Hlps. rewrite len_fmap in Hlps. split; [by rewrite len_zip_with|].
    intros r x Hx. destruct (zat_in ps r) as [p Hp]; [apply zat_Some_bound in Hx; lia|].
    assert (Hz : zat (zip_with (λ x p, if x =? -1 then -1 else p) row ps) r = Some (if x =? -1 then -1 else p)).
    { apply zat_zip_with. by exists x, p. }
    rewrite Hz. rewrite (gather_zat _ _ _ r Eps), zat_fmap, Hx in Hp. cbn in Hp. by destruct (x =? -1). }
  rewrite E. cbn [res_bind]. do 2 eexists. split; [done|].
  by apply (maps_rename n (Pc * NC) X phy l2p cnt idx place); [..|lia| |].
Qed.
End vec_maps.
