(* ===== verification/ExpertVecBalance.v ===== *)
(** * The entry points of the vectorised balancer

    [rebalance_experts_vec] succeeds on every valid configuration and its maps
    describe one placement of every layer, under both policies. *)

From S2P Require Import Prelude Tensor ExpertLoad ExpertPacking ExpertOptimal ExpertLoadSpec ExpertBalance.
From S2P Require Import ExpertVec ExpertVecSpec.

(** The loads: a matrix of [L] layers and [n] experts per step. *)
Definition loads_shape {W} (L : nat) (n : Z) (tokens : list (list (list W))) : Prop :=
  tokens ≠ [] ∧ Forall (λ m : list (list W), length m = L ∧ Forall (λ r, len r = n) m) tokens.

(** The sizes the assertions ask for, with room for one replica per expert: chunks
    of [Pc] places, [nl] places per device. *)
Record chunk_config (n P Pc nl : Z) : Prop := {
  cc_experts : 0 < n ≤ P;
  cc_chunks : 0 < Pc ∧ P mod Pc = 0;
  cc_split : n mod (P / Pc) = 0;
  cc_local : 1 < nl → Pc mod nl = 0;
}.

Lemma chunk_config_sizes n P Pc nl : chunk_config n P Pc nl → ∃ NC npg rpg,
  0 < NC ∧ 0 < npg ∧ 0 ≤ rpg ∧ P = Pc * NC ∧ n = npg * NC ∧ Pc = npg + rpg ∧ P / Pc = NC.
Proof.
  intros [Hn [HP Hd] Hs _]. pose proof (Z.div_mod P Pc ltac:(lia)) as HP'. rewrite Hd in HP'.
  set (NC := P / Pc) in *. assert (HNC : 0 < NC) by nia.
  pose proof (Z.div_mod n NC ltac:(lia)) as Hn'. rewrite Hs in Hn'.
  exists NC, (n / NC), (Pc - n / NC). split_and!; nia.
Qed.

Section vec_balance.
Context {W : Type} `{TorchFloat W} `{!TorchLaws W} `{TorchVec W} `{!TorchVecLaws W}.

Lemma layer_experts_ok n P Pc nl (rows : list (list W)) :
  chunk_config n P Pc nl → Forall (λ r, len r = n) rows →
  ∃ phy l2p cnt, layer_experts n P Pc nl rows = Ok (phy, l2p, cnt) ∧ maps_consistent n P (P - n + 1) phy l2p cnt.
Proof.
  intros Hcfg Hrows. destruct (chunk_config_sizes n P Pc nl Hcfg) as (NC & npg & rpg & H1 & H2 & H3 & HP & Hn & HPc & HNC).
  unfold layer_experts. rewrite HNC. replace (n / NC) with npg by (rewrite Hn, Z.div_mul; lia).
  replace ((P - n) / NC) with rpg.
  2:{ replace (P - n) with (rpg * NC) by (rewrite HP, Hn, HPc; lia). rewrite Z.div_mul; lia. }
  set (diff := (λ r, zip_with fadd r (feps <$> py_range 0 n)) <$> rows).
  assert (Hdiff : Forall (λ r, len r = n) diff).
  { unfold diff. apply Forall_fmap. apply (Forall_impl _ _ _ Hrows). intros r Hr. cbn.
    rewrite len_zip_with; [done|]. rewrite len_fmap, len_range; lia. }
  destruct (mapM_res_exists (chunk_experts npg rpg Pc (P - n) rows diff)
    (λ k c, chunk_ok k npg Pc (P - n + 1) Pc c) (py_range 0 NC)) as (cs & E & HF).
  { apply Forall_forall. intros k Hk%elem_of_py_range. apply chunk_experts_ok; [done|nia|done|lia| | |].
    - unfold diff. by rewrite length_fmap.
    - apply (Forall_impl _ _ _ Hrows). intros r Hr. nia.
    - apply (Forall_impl _ _ _ Hdiff). intros r Hr. nia. }
  rewrite E. cbn [res_bind].
  assert (Hmaps : maps_consistent n P (P - n + 1) (concat (c_phy <$> cs)) (concat (c_l2p <$> cs)) (concat (c_count <$> cs))).
  { rewrite HP at 1. rewrite Hn at 1. apply layer_maps; [done|lia| |].
    - apply Forall2_length in HF. rewrite length_py_range in HF. unfold len. lia.
    - intros k c Hk. pose proof (zat_Some_bound _ _ _ Hk) as Hb. unfold zat in Hk. destruct (Z.ltb_spec k 0); [lia|].
      destruct (Forall2_lookup_r _ _ _ _ _ HF Hk) as (k' & Hk' & Hok).
      assert (Hr : zat (py_range 0 NC) k = Some k') by (unfold zat; by destruct (Z.ltb_spec k 0); [lia|]).
      by apply zat_range0 in Hr as [_ ->]. }
  destruct (Z.ltb_spec 1 nl) as [Hnl|]; [|by do 3 eexists].
  destruct (balance_devices_ok NC n Pc nl (P - n + 1) (sum0 rows n) (concat (c_phy <$> cs))
    (concat (c_l2p <$> cs)) (concat (c_count <$> cs))) as (phy' & l2p' & E' & Hm').
  - done.
  - lia.
  - lia.
  - by apply Hcfg.
  - apply len_sum0. lia.
  - by rewrite <- HP.
  - rewrite <- HP in E', Hm'. rewrite E'. cbn [res_bind]. by do 3 eexists.
Qed.

Lemma layer_rows_ok L n (tokens : list (list (list W))) l : loads_shape L n tokens → 0 ≤ l < Z.of_nat L →
  Forall (λ r, len r = n) (layer_rows tokens l).
Proof.
  intros [_ Ht] Hl. apply Forall_forall. intros r (m & Hm & Hr)%list_elem_of_omap.
  rewrite Forall_forall in Ht. destruct (Ht m Hm) as [_ Hf]. rewrite Forall_forall in Hf.
  by apply Hf, (zat_elem _ l).
Qed.

Lemma head_ok L n (tokens : list (list (list W))) : loads_shape L n tokens → (0 < L)%nat →
  ∃ first, head tokens = Some first ∧ ncols first = n ∧ len first = Z.of_nat L.
Proof.
  intros [Hne Ht] HL. destruct tokens as [|first tokens]; [done|]. exists first. split; [done|].
  apply Forall_inv in Ht as [Hl Hf]. split; [|unfold len; lia]. destruct first as [|r first]; [cbn in Hl; lia|].
  by apply Forall_inv in Hf.
Qed.

Lemma chunkwise_ok L n P Pc nl (tokens : list (list (list W))) :
  chunk_config n P Pc nl → loads_shape L n tokens → (0 < L)%nat →
  ∃ phys l2ps cnts, make_redundant_experts_chunkwise tokens P nl Pc = Ok (phys, l2ps, cnts) ∧
    length phys = L ∧ Forall3 (maps_consistent n P (P - n + 1)) phys l2ps cnts.
Proof.
  intros Hcfg Hshape HL. destruct (head_ok L n tokens Hshape HL) as (first & Hh & Hc & Hlf).
  destruct (chunk_config_sizes n P Pc nl Hcfg) as (NC & npg & rpg & H1 & H2 & H3 & HP & Hn & HPc & HNC).
  unfold make_redundant_experts_chunkwise. rewrite Hh. cbn [of_opt res_bind]. rewrite Hc, Hlf.
  destruct (Z.ltb_spec (P - n + 1) 0); [nia|]. cbn [guard_raise res_bind]. unfold py_divides.
  destruct (Z.eqb_spec Pc 0); [lia|]. cbn [res_bind].
  replace (P mod Pc) with 0 by (by destruct Hcfg as [_ [_ ->] _ _]). cbn [Z.eqb py_assert res_bind]. rewrite HNC.
  destruct (Z.eqb_spec NC 0); [lia|]. cbn [res_bind].
  replace (n mod NC) with 0 by (rewrite Hn, Z.mod_mul; lia). cbn [Z.eqb py_assert res_bind].
  replace ((P - n) mod NC) with 0.
  2:{ replace (P - n) with (rpg * NC) by (rewrite HP, Hn, HPc; lia). rewrite Z.mod_mul; lia. }
  cbn [Z.eqb py_assert res_bind]. destruct (Z.ltb_spec (P - n) 0); [nia|]. cbn [guard_raise res_bind].
  destruct (mapM_res_exists (λ l, layer_experts n P Pc nl (layer_rows tokens l))
    (λ _ o, maps_consistent n P (P - n + 1) o.1.1 o.1.2 o.2) (py_range 0 (Z.of_nat L))) as (layers & E & HF).
  { apply Forall_forall. intros l Hl%elem_of_py_range.
    destruct (layer_experts_ok n P Pc nl (layer_rows tokens l)) as (phy & l2p & cnt & E & Hm);
      [done|by apply (layer_rows_ok L)|]. by exists (phy, l2p, cnt). }
  rewrite E. cbn [res_bind]. do 3 eexists. split; [reflexivity|]. split.
  - rewrite !length_fmap. apply Forall2_length in HF. rewrite length_py_range in HF. lia.
  - clear -HF. induction HF; cbn; constructor; done.
Qed.

Lemma pack_groups_vec_ok P G (rows : list (list W)) : 0 < P → 0 ≤ G → rows ≠ [] → Forall (λ r, len r = P * G) rows →
  ∃ perms, pack_groups rows P = Ok perms ∧ length perms = length rows ∧ Forall (is_perm (P * G)) perms.
Proof.
  intros HP HG Hne Hrows. unfold pack_groups.
  assert (Hc : ncols rows = P * G) by (destruct rows; [done|]; by apply Forall_inv in Hrows).
  rewrite Hc. unfold py_divides, py_div. destruct (Z.eqb_spec P 0); [lia|]. cbn [res_bind].
  rewrite (Z.mul_comm P G), Z.mod_mul by lia. cbn [Z.eqb py_assert res_bind]. rewrite Z.div_mul by lia. cbn [res_bind].
  set (f := λ row : list W, let! s := _ in _).
  destruct (mapM_res_exists f (λ _ perm, is_perm (P * G) perm) rows) as (perms & E & HF).
  { apply (Forall_impl _ _ _ Hrows). intros row Hrow. unfold f.
    destruct (pack_row_vec_ok row P G) as (s & -> & Hs); [lia|lia|done|]. cbn [res_bind]. by exists (ret s). }
  exists perms. split; [done|]. split; [apply Forall2_length in HF; lia|].
  clear -HF Hrows. rewrite (Z.mul_comm G P). induction HF; constructor; [done|]. apply Forall_cons in Hrows as [_ ?]. auto.
Qed.

(** The hierarchical configuration: groups of experts on nodes. *)
Record prefill_config (n P nl groups nodes : Z) : Prop := {
  pc_groups : 0 < groups ∧ n mod groups = 0;
  pc_nodes : 0 < nodes ∧ groups mod nodes = 0;
  pc_chunk : chunk_config n P (P / nodes) nl;
}.

Lemma gather_tokens L n (tokens : list (list (list W))) (m2ls : list (list Z)) :
  loads_shape L n tokens → 0 ≤ n → length m2ls = L → Forall (is_perm n) m2ls →
  ∃ t, mapM_res (λ m, map2_res torch_gather m m2ls) tokens = Ok t ∧ loads_shape L n t.
Proof.
  intros [Hne Ht] Hn Hl Hm.
  destruct (mapM_res_exists (λ m, map2_res torch_gather m m2ls)
    (λ _ m' : list (list W), length m' = L ∧ Forall (λ r, len r = n) m') tokens) as (t & E & HF).
  { apply (Forall_impl _ _ _ Ht). intros m [Hlm Hf].
    destruct (map2_res_exists torch_gather (λ _ _ (r : list W), len r = n) m m2ls) as (m' & E & H3).
    - apply Forall2_same_length_lookup_2; [by rewrite Hlm|]. intros i r p Hr Hp.
      rewrite Forall_forall in Hf. rewrite Forall_forall in Hm. apply list_elem_of_lookup_2 in Hr, Hp.
      pose proof (Hm _ Hp) as Hperm. destruct (gather_ok r p) as [x Hx].
      { apply Forall_forall. intros j Hj. rewrite (Hf r Hr). by apply (is_perm_elem n p j Hperm). }
      exists x. split; [done|]. rewrite (gather_len _ _ _ Hx). by apply is_perm_len.
    - exists m'. split; [done|]. clear -H3 Hlm. split.
      + rewrite <- Hlm. by apply Forall3_length_lr in H3.
      + clear Hlm. induction H3; constructor; done. }
  exists t. split; [done|]. split.
  - intros ->. apply Forall2_length in HF. by destruct tokens.
  - clear -HF. induction HF as [|x y l k Hy _ IH]; constructor; done.
Qed.

Lemma prefill_ok L n P nl groups nodes (tokens : list (list (list W))) :
  prefill_config n P nl groups nodes → loads_shape L n tokens → (0 < L)%nat →
  ∃ phys l2ps cnts, prefill_rebalance_experts tokens P nl groups nodes = Ok (phys, l2ps, cnts) ∧
    length phys = L ∧ Forall3 (maps_consistent n P (P - n + 1)) phys l2ps cnts.
Proof.
  intros [[Hg Hg'] [Hno Hno'] Hcc] Hshape HL. destruct (head_ok L n tokens Hshape HL) as (first & Hh & Hc & Hlf).
  pose proof (cc_experts _ _ _ _ Hcc) as Hn.
  unfold prefill_rebalance_experts. rewrite Hh. cbn [of_opt res_bind]. rewrite Hc, Hlf. unfold py_divides.
  destruct (Z.eqb_spec groups 0); [lia|]. cbn [res_bind]. rewrite Hg'. cbn [Z.eqb py_assert res_bind].
  destruct (Z.eqb_spec nodes 0); [lia|]. cbn [res_bind]. rewrite Hno'. cbn [Z.eqb py_assert res_bind].
  pose proof (Z.div_mod n groups ltac:(lia)) as En. pose proof (Z.div_mod groups nodes ltac:(lia)) as Eg.
  set (gs := n / groups) in *. set (gpn := groups / nodes) in *.
  assert (Hgs : 0 < gs) by nia. assert (Hgpn : 0 < gpn) by nia.
  set (tpg := _ <$> py_range 0 (Z.of_nat L)).
  destruct (pack_groups_vec_ok nodes gpn tpg) as (perms & -> & Hlp & Hperms); [done|lia| | |].
  { unfold tpg. intros E. apply (f_equal length) in E. rewrite length_fmap, length_py_range in E. cbn in E. lia. }
  { unfold tpg. apply Forall_fmap, Forall_forall. intros l _. cbn. rewrite len_fmap. unfold len.
    rewrite length_chunks. lia. }
  cbn [res_bind]. unfold tpg in Hlp. rewrite length_fmap, length_py_range in Hlp. clear tpg.
  set (l2ms := _ <$> perms).
  assert (Hl2m : Forall (is_perm n) l2ms).
  { unfold l2ms. apply Forall_fmap. apply (Forall_impl _ _ _ Hperms). intros p Hp. cbn.
    replace n with (nodes * gpn * gs) by lia. apply spread_perm; [nia|done|done]. }
  assert (Hll : length l2ms = L) by (unfold l2ms; rewrite length_fmap; lia). clearbody l2ms.
  destruct (mapM_res_exists inverse (λ l2m m2l, is_perm n m2l ∧ inverse_of l2m m2l) l2ms) as (m2ls & -> & Hinv).
  { apply (Forall_impl _ _ _ Hl2m). intros p Hp. destruct (inverse_ok n p ltac:(lia) Hp) as (inv & E & ? & ?). by exists inv. }
  cbn [res_bind].
  assert (Hm2l : Forall (is_perm n) m2ls) by (clear -Hinv; induction Hinv as [|????[??]]; constructor; done).
  destruct (gather_tokens L n tokens m2ls Hshape ltac:(lia)) as (t & -> & Ht); [|done|].
  { apply Forall2_length in Hinv. lia. }
  cbn [res_bind]. destruct (chunkwise_ok L n P (P / nodes) nl t Hcc Ht HL) as (phys & l2ps & cnts & -> & Hlph & Hmaps).
  cbn [res_bind].
  assert (Hfin : ∃ phys' l2ps' cnts', map2_res torch_gather m2ls phys = Ok phys' ∧
    map2_res torch_gather l2ps l2ms = Ok l2ps' ∧ map2_res torch_gather cnts l2ms = Ok cnts' ∧
    length phys' = length phys ∧ Forall3 (maps_consistent n P (P - n + 1)) phys' l2ps' cnts').
  { assert (Hlen : length l2ms = length phys) by lia. clear -Hinv Hl2m Hmaps Hlen Hn. revert phys l2ps cnts Hmaps Hlen.
    induction Hinv as [|l2m m2l l2ms m2ls [Hp Hi] _ IH]; intros phys l2ps cnts Hmaps Hlen.
    { destruct Hmaps; [|done]. exists [], [], []. split_and!; [done..|constructor]. }
    destruct Hmaps as [|phy l2p cnt phys l2ps cnts Hm Hmaps]; [done|].
    apply Forall_cons in Hl2m as [Hl2m Hl2ms]. cbn in Hlen.
    destruct (IH Hl2ms phys l2ps cnts Hmaps ltac:(lia)) as (a & b & c & Ea & Eb & Ec & Hla & H3).
    pose proof Hm as [C1 C2 C3 C4 C5].
    destruct (gather_ok m2l phy) as [phy' E1].
    { rewrite (is_perm_len n) by (done || lia). apply Forall_forall. intros e (p & Hpe)%elem_zat.
      destruct (C5 p e Hpe) as (row & ? & ? & He & _). apply zat_Some_bound in He. lia. }
    assert (Hidx : Forall (λ i, 0 ≤ i < n) l2m).
    { apply Forall_forall. intros i Hi'. by apply (is_perm_elem n l2m i Hl2m). }
    destruct (gather_ok l2p l2m) as [l2p' E2]; [by rewrite C2|].
    destruct (gather_ok cnt l2m) as [cnt' E3]; [by rewrite C3|].
    exists (phy' :: a), (l2p' :: b), (cnt' :: c). unfold map2_res in *. cbn [zip_with mapM_res fst snd].
    rewrite E1, E2, E3. cbn [res_bind]. rewrite Ea, Eb, Ec. cbn [res_bind]. split_and!; [done..|cbn; lia|].
    constructor; [|done]. by apply (maps_relabel n P (P - n + 1) phy l2p cnt l2m m2l); [..|lia| | |]. }
  destruct Hfin as (a & b & c & -> & -> & -> & Hla & H3). cbn [res_bind]. exists a, b, c.
  split_and!; [done|lia|done].
Qed.

(** C29. The vectorised balancer never fails on a valid configuration, whatever the
    loads of the steps are, and its maps describe one placement of every layer. *)
Theorem rebalance_vec_consistent L (tokens : list (list (list W))) n P nl groups nodes (h : bool) :
  loads_shape L n tokens → (0 < L)%nat →
  (if h then prefill_config n P nl groups nodes else chunk_config n P P nl) →
  ∃ phys l2ps cnts, rebalance_experts_vec tokens P nl (Some groups) nodes h = Ok (phys, l2ps, cnts) ∧
    length phys = L ∧ Forall3 (maps_consistent n P (P - n + 1)) phys l2ps cnts.
Proof.
  intros Hshape HL Hcfg. unfold rebalance_experts_vec. destruct h; cbn [of_opt res_bind].
  - by apply prefill_ok.
  - by apply chunkwise_ok.
Qed.
End vec_balance.

(** ** A concrete run

    Loads in units of [1e-4]. *)

Definition argmin_Z (l : list Z) : Z := default 0 (head (sort_indices (Z.opp <$> l))).

#[export] Instance integer_vec : TorchVec Z := {| feps i := i; argmin := argmin_Z |}.

#[export] Instance integer_vec_laws : TorchVecLaws Z.
Proof.
  intros l Hl. cbn. unfold argmin_Z.
  pose proof (argmax_in (Z.opp <$> l)) as Ha. rewrite len_fmap in Ha. apply Ha. by destruct l.
Qed.

Definition example_steps : list (list (list Z)) := [example_loads; rev example_loads].

Lemma rebalance_vec_consistent_witness :
  ∃ phys l2ps cnts, rebalance_experts_vec example_steps 16 2 (Some 4) 2 true = Ok (phys, l2ps, cnts) ∧
    length phys = 2%nat ∧ Forall3 (maps_consistent 12 16 (16 - 12 + 1)) phys l2ps cnts.
Proof.
  apply (rebalance_vec_consistent 2 example_steps 12 16 2 4 2 true).
  - split; [done|]. repeat constructor.
  - lia.
  - split; [by vm_compute|by vm_compute|]. split; vm_compute; done.
Defined.

Example vec_run :
  (let! '(phys, _, _) := rebalance_experts_vec example_steps 16 2 (Some 4) 2 true in Ok (head phys)) =
  Ok (Some [8; 10; 7; 10; 9; 6; 6; 11; 5; 0; 5; 1; 2; 1; 3; 4]).
Proof. vm_compute. reflexivity. Qed.
