(* ===== verification/ExpertLocation.v ===== *)
(** * Expert locations ([eplb/expert_location.py], [eplb/expert_location_dispatch.py])

    The metadata of a placement: which logical expert every place of every layer
    holds, the places of every logical expert, how many they are, and, with static
    dispatch, the place this rank sends the tokens of each expert to.

    Copies of the maps in CPU memory hold the same values as the maps and are left
    out.  The random generator of the fair choice is a parameter, the class
    [Random], with the methods [sample] and [shuffle] of [random.Random]. *)

From S2P Require Import Prelude Tensor ExpertLoad ExpertElastic ExpertVec.

Class Random (S : Type) := {
  seeded : Z → S;
  sample : S → list Z → Z → list Z * S;
  shuffle : S → list Z → list Z * S;
}.

(** [sample] takes [k] elements at different positions, [shuffle] permutes. *)
Class RandomLaws (S : Type) `{Random S} : Prop := {
  sample_sub : ∀ s l k, 0 ≤ k ≤ len l → ∃ rest, l ≡ₚ (sample s l k).1 ++ rest ∧ len (sample s l k).1 = k;
  shuffle_perm : ∀ s l, (shuffle s l).1 ≡ₚ l;
}.

(** ** The arguments *)

Record ServerArgs := {
  ep_size : Z;
  nnodes : Z;
  ep_num_redundant_experts : Z;
  eplb_algorithm : string;
  ep_dispatch_algorithm : option string;
}.

Record ModelConfigForExpertLocation := { num_layers : Z; num_logical_experts : Z; num_groups : option Z }.

Record ExpertLocationMetadata := {
  physical_to_logical_map : list (list Z);
  logical_to_all_physical_map : list (list (list Z));
  logical_to_all_physical_map_num_valid : list (list Z);
  logical_to_rank_dispatch_physical_map : option (list (list Z));
}.

Definition num_physical_experts (m : ExpertLocationMetadata) : Z := ncols (physical_to_logical_map m).

(** ** The nearest replica *)

(** [[x for x in l if f(x)]] with a test that may raise. *)
Definition filter_res (f : Z → res bool) (l : list Z) : res (list Z) :=
  let! bs := mapM_res f l in
  Ok (List.filter snd (zip l bs)).*1.

Definition on_device (size device : Z) (physical_expert_id : Z) : res bool :=
  let! q := py_div physical_expert_id size in Ok (q =? device).

Definition _find_nearest_expert (candidates : list Z)
    (num_local_gpu_physical_experts moe_ep_rank num_gpus_per_node num_local_node_physical_experts : Z) : res Z :=
  match candidates with
  | [x] => Ok x
  | _ =>
      let! same_gpu := filter_res (on_device num_local_gpu_physical_experts moe_ep_rank) candidates in
      match same_gpu with
      | x :: _ => Ok x
      | [] =>
          let! node_rank := py_div moe_ep_rank num_gpus_per_node in
          let! same_node := filter_res (on_device num_local_node_physical_experts node_rank) candidates in
          match same_node with x :: _ => Ok x | [] => Ok (-1) end
      end
  end.

(** ** The places of every expert *)

(** The places of one layer by expert, in increasing order. *)
Definition collect_physical (num_logical : Z) (phy2log : list Z) : res (list (list Z)) :=
  fold_res (λ rows (p : Z * Z),
    let! row := py_index rows p.2 in py_set_index rows p.2 (row ++ [p.1]))
    (replicate (Z.to_nat num_logical) []) (zip (py_range 0 (len phy2log)) phy2log).

(** An expert with a near replica is sent there only. *)
Definition use_nearest (a : ServerArgs) (P ep rank : Z) (row : list Z) : res (list Z) :=
  let! num_gpus_per_node := py_div (ep_size a) (nnodes a) in
  let! num_local := py_div P ep in
  let! nearest := _find_nearest_expert row num_local rank num_gpus_per_node (num_local * num_gpus_per_node) in
  Ok (if nearest =? -1 then row else [nearest]).

(** [max(len(inner) for outer in arr for inner in outer)] and the padding to it. *)
Definition _pad_nested_array (arr : list (list (list Z))) (pad_value : Z) : res (list (list (list Z))) :=
  match len <$> concat arr with
  | [] => Err ValueError
  | x :: l =>
      let max_len := fold_left Z.max l x in
      Ok ((λ outer : list (list Z), (λ inner, inner ++ replicate (Z.to_nat (max_len - len inner)) pad_value) <$> outer) <$> arr)
  end.

Definition _compute_logical_to_all_physical_map (a : ServerArgs) (physical_to_logical_map : list (list Z))
    (num_logical ep : Z) (moe_ep_rank : option Z) : res (list (list (list Z))) :=
  let P := ncols physical_to_logical_map in
  let! rows := mapM_res (collect_physical num_logical) physical_to_logical_map in
  let! rows := match moe_ep_rank with
    | None => Ok rows
    | Some rank => mapM_res (mapM_res (use_nearest a P ep rank)) rows
    end in
  _pad_nested_array rows (-1).

(** [[x for x in row if x != -1]]. *)
Definition valid_ids (row : list Z) : list Z := List.filter (λ x, negb (x =? -1)) row.

Definition _logical_to_all_physical_raw (m : list (list (list Z))) (layer_id logical_expert_id : Z) : res (list Z) :=
  let! l := py_index m layer_id in
  let! row := py_index l logical_expert_id in
  Ok (valid_ids row).

Definition logical_to_all_physical (m : ExpertLocationMetadata) (layer_id logical_expert_id : Z) : res (list Z) :=
  _logical_to_all_physical_raw (logical_to_all_physical_map m) layer_id logical_expert_id.

(** ** Static dispatch *)

Section location.
Context {S : Type} `{Random S}.

Definition _fair_choices (arr : list Z) (k : Z) (r : S) : res (list Z * S) :=
  let! _ := guard_raise (len arr =? 0) ZeroDivisionError in
  let quotient := k / len arr in
  let remainder := k mod len arr in
  let '(extra, r) := sample r arr remainder in
  Ok (shuffle r (concat (replicate (Z.to_nat quotient) arr) ++ extra)).

(** [l[l == -1] = vals]. *)
Fixpoint fill_missing (l vals : list Z) : res (list Z) :=
  match l with
  | [] => match vals with [] => Ok [] | _ => Err RuntimeError end
  | x :: l' =>
      if x =? -1 then
        match vals with
        | [] => Err RuntimeError
        | v :: vals' => let! r := fill_missing l' vals' in Ok (v :: r)
        end
      else let! r := fill_missing l' vals in Ok (x :: r)
  end.

(** The choices of all ranks for one expert. *)
Definition dispatch_expert (a : ServerArgs) (ep P : Z) (candidates : list Z) (r : S) : res (list Z * S) :=
  let! num_local := py_div P ep in
  let! num_gpus_per_node := py_div (ep_size a) (nnodes a) in
  let! partial := mapM_res (λ rank,
    _find_nearest_expert candidates num_local rank num_gpus_per_node (num_local * num_gpus_per_node))
    (py_range 0 ep) in
  let num_remain := len (List.filter (λ x, x =? -1) partial) in
  let! '(choices, r) := _fair_choices candidates num_remain r in
  let! partial := fill_missing partial choices in
  Ok (partial, r).

Definition dispatch_layer (a : ServerArgs) (ep P : Z) (rows : list (list Z)) (r : S) : res (list (list Z) * S) :=
  fold_res (λ '(out, r) row,
    let! '(partial, r) := dispatch_expert a ep P (valid_ids row) r in Ok (out ++ [partial], r)) ([], r) rows.

Definition compute_logical_to_rank_dispatch_physical_map (a : ServerArgs) (m : list (list (list Z)))
    (ep P ep_rank seed : Z) : res (list (list Z)) :=
  let! _ := guard_raise (ep =? 0) ZeroDivisionError in
  let! _ := guard_raise (nnodes a =? 0) ZeroDivisionError in
  let! '(table, _) := fold_res (λ '(out, r) rows,
    let! '(layer, r) := dispatch_layer a ep P rows r in Ok (out ++ [layer], r)) ([], seeded seed) m in
  let! _ := py_assert (forallb (forallb (forallb (λ x, negb (x =? -1)))) table) in
  mapM_res (mapM_res (λ ranks : list Z, py_index ranks ep_rank)) table.

(** ** Construction *)

(** [F.pad(row, (0, n), value=-1)]; a negative amount crops. *)
Definition pad_row (n : Z) (row : list Z) : list Z :=
  if 0 <=? n then row ++ replicate (Z.to_nat n) (-1) else take (Z.to_nat (len row + n)) row.

(** The assertions of [__post_init__] on the shapes. *)
Definition post_init (m : ExpertLocationMetadata) : res ExpertLocationMetadata :=
  let! _ := py_assert ((len (physical_to_logical_map m) =? len (logical_to_all_physical_map m)) &&
    (len (physical_to_logical_map m) =? len (logical_to_all_physical_map_num_valid m))) in
  let! _ := py_assert (forallb (λ p : list (list Z) * list Z, len p.1 =? len p.2)
    (zip (logical_to_all_physical_map m) (logical_to_all_physical_map_num_valid m))) in
  let! _ := py_assert (forallb (λ rows : list (list Z), forallb (λ row, len row =? num_physical_experts m) rows)
    (logical_to_all_physical_map m)) in
  Ok m.

Definition _init_raw (a : ServerArgs) (ep rank : Z) (p2l : list (list Z)) (l2p : list (list (list Z)))
    : res ExpertLocationMetadata :=
  let P := ncols p2l in
  let padded := (λ rows : list (list Z), (λ row, pad_row (P - len row) row) <$> rows) <$> l2p in
  let! _ := guard_raise (ep =? 0) ZeroDivisionError in
  let! dispatch := match ep_dispatch_algorithm a with
    | Some alg => if String.eqb alg "static" then
        let! d := compute_logical_to_rank_dispatch_physical_map a l2p ep P (rank mod ep) 42 in Ok (Some d)
        else Ok None
    | None => Ok None
    end in
  post_init {| physical_to_logical_map := p2l; logical_to_all_physical_map := padded;
    logical_to_all_physical_map_num_valid := (λ rows : list (list Z), (λ row, len (valid_ids row)) <$> rows) <$> l2p;
    logical_to_rank_dispatch_physical_map := dispatch |}.

(** The number of places, after the check that it divides by the ranks. *)
Definition _init_common (a : ServerArgs) (mc : ModelConfigForExpertLocation) : res Z :=
  let P := num_logical_experts mc + ep_num_redundant_experts a in
  let! d := py_divides (ep_size a) P in
  let! _ := py_assert d in
  Ok P.

Definition init_by_mapping (a : ServerArgs) (mc : option ModelConfigForExpertLocation) (rank : Z)
    (p2l : list (list Z)) (moe_ep_rank : option Z) : res (option ExpertLocationMetadata) :=
  match mc with
  | None => Ok None
  | Some mc =>
      let! _ := _init_common a mc in
      let! l2p := _compute_logical_to_all_physical_map a p2l (num_logical_experts mc) (ep_size a) moe_ep_rank in
      let! m := _init_raw a (ep_size a) rank p2l l2p in
      Ok (Some m)
  end.

Definition init_trivial (a : ServerArgs) (mc : option ModelConfigForExpertLocation) (rank moe_ep_rank : Z)
    : res (option ExpertLocationMetadata) :=
  match mc with
  | None => Ok None
  | Some c =>
      let! P := _init_common a c in
      let! _ := guard_raise (num_logical_experts c =? 0) RuntimeError in
      let p2l := replicate (Z.to_nat (num_layers c)) ((λ p, p mod num_logical_experts c) <$> py_range 0 P) in
      init_by_mapping a mc rank p2l (Some moe_ep_rank)
  end.

(** ** The choice of an algorithm ([eplb_algorithms/__init__.py]) *)

Inductive EplbAlgorithm :=
  deepseek | deepseek_hierarchical | deepseek_vec | deepseek_vec_hierarchical | elasticity_aware.

Definition algorithm_of_name (s : string) : res EplbAlgorithm :=
  if String.eqb s "deepseek" then Ok deepseek
  else if String.eqb s "deepseek_hierarchical" then Ok deepseek_hierarchical
  else if String.eqb s "deepseek_vec" then Ok deepseek_vec
  else if String.eqb s "deepseek_vec_hierarchical" then Ok deepseek_vec_hierarchical
  else if String.eqb s "elasticity_aware" then Ok elasticity_aware
  else Err KeyError.

Definition compute_algorithm (raw_algorithm : string) (num_groups : option Z) (num_nodes : Z) : res EplbAlgorithm :=
  if negb (String.eqb raw_algorithm "auto") then algorithm_of_name raw_algorithm
  else match num_groups with
  | None => Ok deepseek
  | Some g => let! d := py_divides num_nodes g in Ok (if d : bool then deepseek_hierarchical else deepseek)
  end.

Section balance.
Context {W : Type} `{TorchFloat W} `{TorchVec W}.

(** [tokens_per_expert.sum(dim=0)]. *)
Definition sum_steps (tokens : list (list (list W))) : list (list W) :=
  match tokens with
  | [] => []
  | first :: _ => (λ l, sum0 (layer_rows tokens l) (ncols first)) <$> py_range 0 (len first)
  end.

(** [active_ranks] is the state of the elastic group, all ones without one. *)
Definition rebalance_experts (tokens : list (list (list W))) (P num_local : Z) (num_groups : option Z) (num_nodes : Z)
    (active_ranks : list Z) (algorithm : EplbAlgorithm) : res (list (list Z) * list (list (list Z)) * list (list Z)) :=
  match algorithm with
  | deepseek =>
      let! num_gpus := py_div P num_local in
      ExpertLoad.rebalance_experts (sum_steps tokens) P (default 0 num_groups) num_nodes num_gpus false
  | deepseek_hierarchical =>
      let! num_gpus := py_div P num_local in
      let! g := of_opt TypeError num_groups in
      ExpertLoad.rebalance_experts (sum_steps tokens) P g num_nodes num_gpus true
  | deepseek_vec => rebalance_experts_vec tokens P num_local num_groups num_nodes false
  | deepseek_vec_hierarchical => rebalance_experts_vec tokens P num_local num_groups num_nodes true
  | elasticity_aware =>
      let! num_gpus := py_div P num_local in
      let! g := (if sum_Z active_ranks <? num_gpus then Ok 1 else of_opt TypeError num_groups) in
      rebalance_experts_elastic (sum_steps tokens) P g num_nodes num_gpus true active_ranks
  end.

Definition init_by_eplb (a : ServerArgs) (mc : option ModelConfigForExpertLocation) (rank : Z)
    (logical_count : list (list (list W))) (active_ranks : list Z) : res (option ExpertLocationMetadata) :=
  match mc with
  | None => Ok None
  | Some c =>
      let! P := _init_common a c in
      let! algorithm := compute_algorithm (eplb_algorithm a) (num_groups c) (nnodes a) in
      let! num_local := py_div P (ep_size a) in
      let! '(p2l, l2p, _) := rebalance_experts logical_count P num_local (num_groups c) (nnodes a)
        active_ranks algorithm in
      let! m := _init_raw a (ep_size a) rank p2l l2p in
      Ok (Some m)
  end.

End balance.
End location.

(** ** Replacing layers *)

(** [torch.where(mask_update, other, self)] by layer, written back into [self]; a
    tensor with one layer stands for as many as needed.  The layers of the two have
    the same shape. *)
Definition where_layers {B} (ids : list Z) (self other : list B) : res (list B) :=
  let other := match other with [x] => replicate (length self) x | _ => other end in
  if negb (len self =? len other) then Err RuntimeError
  else Ok (imap (λ i p, if existsb (Z.eqb (Z.of_nat i)) ids then p.2 else p.1) (zip self other)).

Definition update (self other : ExpertLocationMetadata) (update_layer_ids : list Z) : res ExpertLocationMetadata :=
  let! p2l := where_layers update_layer_ids (physical_to_logical_map self) (physical_to_logical_map other) in
  let! l2p := where_layers update_layer_ids (logical_to_all_physical_map self) (logical_to_all_physical_map other) in
  let! nv := where_layers update_layer_ids (logical_to_all_physical_map_num_valid self)
    (logical_to_all_physical_map_num_valid other) in
  let! d := match logical_to_rank_dispatch_physical_map self, logical_to_rank_dispatch_physical_map other with
    | None, None => Ok None
    | Some s, Some o => let! d := where_layers update_layer_ids s o in Ok (Some d)
    | _, _ => Err AssertionError
    end in
  Ok {| physical_to_logical_map := p2l; logical_to_all_physical_map := l2p;
        logical_to_all_physical_map_num_valid := nv; logical_to_rank_dispatch_physical_map := d |}.

(** ** Dispatching tokens *)

Record ExpertLocationDispatchInfo := {
  info_algorithm : string;
  partial_logical_to_rank_dispatch_physical_map : option (list Z);
  partial_logical_to_all_physical_map : list (list Z);
  partial_logical_to_all_physical_map_num_valid : list Z;
}.

Definition init_new (a : ServerArgs) (m : ExpertLocationMetadata) (layer_id : Z) : res (option ExpertLocationDispatchInfo) :=
  match ep_dispatch_algorithm a with
  | None => Ok None
  | Some alg =>
      let! d := match logical_to_rank_dispatch_physical_map m with
        | Some d => let! row := py_index d layer_id in Ok (Some row)
        | None => Ok None
        end in
      let! l2p := py_index (logical_to_all_physical_map m) layer_id in
      let! nv := py_index (logical_to_all_physical_map_num_valid m) layer_id in
      Ok (Some {| info_algorithm := alg; partial_logical_to_rank_dispatch_physical_map := d;
                  partial_logical_to_all_physical_map := l2p;
                  partial_logical_to_all_physical_map_num_valid := nv |})
  end.

(** [draws] are the numbers of [torch.randint(0, 65536, ...)]. *)
Definition _topk_ids_logical_to_physical_dynamic (topk_ids draws : list Z) (info : ExpertLocationDispatchInfo)
    : res (list Z) :=
  map2_res (λ id draw,
    let! n := py_index (partial_logical_to_all_physical_map_num_valid info) id in
    let! _ := guard_raise (n =? 0) RuntimeError in
    let! row := py_index (partial_logical_to_all_physical_map info) id in
    py_index row (draw mod n)) topk_ids draws.

Definition _topk_ids_logical_to_physical_static (topk_ids : list Z) (info : ExpertLocationDispatchInfo) : res (list Z) :=
  let! m := of_opt TypeError (partial_logical_to_rank_dispatch_physical_map info) in
  mapM_res (py_index m) topk_ids.

Definition topk_ids_logical_to_physical (topk_ids draws : list Z) (info : option ExpertLocationDispatchInfo)
    : res (list Z) :=
  match info with
  | None => Ok topk_ids
  | Some i =>
      if String.eqb (info_algorithm i) "static" then _topk_ids_logical_to_physical_static topk_ids i
      else if String.eqb (info_algorithm i) "dynamic" || String.eqb (info_algorithm i) "fake"
      then _topk_ids_logical_to_physical_dynamic topk_ids draws i
      else Err NotImplementedError
  end.
