(* ===== verification/ExpertLocationSpec.v ===== *)
(** * Dispatch reaches a replica

    The static choice of places is near when it can be and fair when it cannot; the
    metadata that the constructors make and [update] mixes always send a token to a
    place that holds its expert. *)

From S2P Require Import Prelude Tensor ExpertLoad ExpertPacking ExpertLoadSpec ExpertBalance.
From S2P Require Import ExpertElastic ExpertVec ExpertLocation.

(** ** Filters that do not raise *)

Lemma filter_res_ok (f : Z → res bool) (g : Z → bool) l : (∀ x, x ∈ l → f x = Ok (g x)) →
  filter_res f l = Ok (List.filter g l).
Proof.
  intros Hf. unfold filter_res. rewrite (mapM_res_ok f g) by (by apply Forall_forall). cbn [res_bind]. f_equal.
  clear Hf. induction l as [|x l IH]; [done|]. cbn. destruct (g x); cbn; congruence.
Qed.

Lemma on_device_ok size dev x : 0 < size → on_device size dev x = Ok (x / size =? dev).
Proof. intros. unfold on_device, py_div. destruct (Z.eqb_spec size 0); [lia|done]. Qed.

Lemma filter_nil_none (g : Z → bool) l : List.filter g l = [] ↔ ∀ x, x ∈ l → g x = false.
Proof.
  split.
  - intros E x Hx. destruct (g x) eqn:Hg; [|done]. exfalso.
    assert (Hin : x ∈ List.filter g l) by (apply list_elem_of_In, filter_In; split; [by apply list_elem_of_In|done]).
    rewrite E in Hin. by apply not_elem_of_nil in Hin.
  - induction l as [|x l IH]; intros Hg; [done|]. cbn. rewrite (Hg x) by (by left). apply IH. intros y Hy. apply Hg. by right.
Qed.

(** ** The nearest replica *)

(** No candidate is on the node of [rank]. *)
Definition far (cands : list Z) (size gpn rank : Z) : bool :=
  negb (len cands =? 1) && forallb (λ p, negb (p / (size * gpn) =? rank / gpn)) cands.

Lemma device_on_node size gpn p rank : 0 < size → 0 < gpn → p / size = rank → p / (size * gpn) = rank / gpn.
Proof. intros Hs Hg <-. by rewrite Z.div_div by lia. Qed.

(** The nearest replica is on the device of the rank, or else on its node, if there
    is one there. *)
Definition nearest_ok (cands : list Z) (size gpn rank x : Z) : Prop :=
  ((∃ p, p ∈ cands ∧ p / size = rank) → x / size = rank) ∧
  ((∃ p, p ∈ cands ∧ p / (size * gpn) = rank / gpn) → x / (size * gpn) = rank / gpn).

Lemma nearest_spec cands size gpn rank : 0 < size → 0 < gpn →
  ∃ x, _find_nearest_expert cands size rank gpn (size * gpn) = Ok x ∧
    if far cands size gpn rank then x = -1
    else x ∈ cands ∧ nearest_ok cands size gpn rank x.
Proof.
  intros Hs Hg. assert (Hsg : 0 < size * gpn) by nia.
  set (same := List.filter (λ x, x / size =? rank) cands).
  set (node := List.filter (λ x, x / (size * gpn) =? rank / gpn) cands).
  assert (E1 : filter_res (on_device size rank) cands = Ok same).
  { apply filter_res_ok. intros x _. by apply on_device_ok. }
  assert (E2 : filter_res (on_device (size * gpn) (rank / gpn)) cands = Ok node).
  { apply filter_res_ok. intros x _. by apply on_device_ok. }
  assert (Hin : ∀ (g : Z → bool) x l, List.filter g cands = x :: l → x ∈ cands ∧ g x = true).
  { intros g x l E. assert (Hx : x ∈ List.filter g cands) by (rewrite E; by left).
    apply list_elem_of_In, filter_In in Hx as [Hx ?]. by apply list_elem_of_In in Hx. }
  assert (Hfar : node ≠ [] → far cands size gpn rank = false).
  { intros Hne. unfold far. apply andb_false_iff. right. apply not_true_is_false. intros Hall.
    apply Hne, filter_nil_none. intros x Hx. rewrite forallb_forall in Hall.
    apply negb_true_iff, Hall. by apply list_elem_of_In. }
  destruct (decide (len cands = 1)) as [H1|H1].
  { destruct cands as [|x [|y cands]]; [done| |unfold len in H1; cbn in H1; lia].
    exists x. split; [done|]. cbn. split; [by left|]. split; intros (p & Hp & Hd);
      apply list_elem_of_singleton in Hp as ->; done. }
  assert (Ef : _find_nearest_expert cands size rank gpn (size * gpn) =
    match same with x :: _ => Ok x | [] => match node with x :: _ => Ok x | [] => Ok (-1) end end).
  { unfold _find_nearest_expert, py_div. destruct (Z.eqb_spec gpn 0); [lia|]. cbn [res_bind]. rewrite E1, E2.
    cbn [res_bind]. destruct cands as [|x [|y cands]]; [done| |done]. by destruct H1. }
  rewrite Ef. destruct same as [|x l] eqn:Es; [destruct node as [|x l] eqn:En|].
  - exists (-1). split; [done|]. unfold far. destruct (Z.eqb_spec (len cands) 1); [done|]. cbn.
    destruct (forallb _ cands) eqn:Ea; [done|]. exfalso. apply not_true_iff_false in Ea. apply Ea, forallb_forall.
    intros p Hp. apply negb_true_iff. apply (proj1 (filter_nil_none _ _) En). by apply list_elem_of_In.
  - exists x. split; [done|]. rewrite Hfar by done. apply Hin in En as [Hx Hd%Z.eqb_eq]. split; [done|].
    split; [|done]. intros (p & Hp & Hpd). pose proof (proj1 (filter_nil_none _ _) Es p Hp) as Hf.
    cbn in Hf. apply Z.eqb_neq in Hf. done.
  - apply Hin in Es as [Hx Hd%Z.eqb_eq]. exists x. split; [done|].
    assert (Hxn : x / (size * gpn) = rank / gpn) by (by apply device_on_node).
    rewrite Hfar.
    { split; [done|]. split; done. }
    intros En. pose proof (proj1 (filter_nil_none _ _) En x Hx) as Hf. cbn in Hf. by apply Z.eqb_neq in Hf.
Qed.

(** ** Fair choices *)

Definition occurrences (x : Z) (l : list Z) : Z := len (List.filter (Z.eqb x) l).

Lemma occurrences_app x l k : occurrences x (l ++ k) = occurrences x l + occurrences x k.
Proof. unfold occurrences. rewrite List.filter_app. unfold len. rewrite length_app. lia. Qed.

Lemma occurrences_perm x l k : l ≡ₚ k → occurrences x l = occurrences x k.
Proof.
  unfold occurrences, len. induction 1; cbn; [done| | |by etrans].
  - destruct (x =? x0); cbn; lia.
  - destruct (x =? y), (x =? x0); cbn; lia.
Qed.

Lemma occurrences_nonneg x l : 0 ≤ occurrences x l.
Proof. apply len_nonneg. Qed.

Lemma occurrences_NoDup x l : NoDup l → x ∈ l → occurrences x l = 1.
Proof.
  intros Hl Hx. apply elem_of_Permutation in Hx as [k E]. rewrite (occurrences_perm _ _ _ E).
  assert (Hk : x ∉ k) by (rewrite E in Hl; by apply NoDup_cons in Hl as [? _]).
  unfold occurrences. cbn. rewrite Z.eqb_refl. rewrite (proj2 (filter_nil_none (Z.eqb x) k)); [done|].
  intros y Hy. apply Z.eqb_neq. by intros ->.
Qed.

Lemma occurrences_replicate x n l : occurrences x (concat (replicate n l)) = Z.of_nat n * occurrences x l.
Proof. induction n as [|n IH]; [done|]. cbn [replicate concat]. rewrite occurrences_app, IH. lia. Qed.

Section dispatch.
Context {S : Type} `{Random S} `{!RandomLaws S}.

(** Every candidate is taken [k / n] times, or once more. *)
Lemma fair_choices_ok arr k (r : S) : arr ≠ [] → 0 ≤ k →
  ∃ c r', _fair_choices arr k r = Ok (c, r') ∧ len c = k ∧ (∀ x, x ∈ c → x ∈ arr) ∧
    (NoDup arr → ∀ x, x ∈ arr → k / len arr ≤ occurrences x c ≤ k / len arr + 1).
Proof.
  intros Hne Hk. assert (Hl : 0 < len arr) by (destruct arr; [done|]; rewrite len_cons; pose proof (len_nonneg arr); lia).
  unfold _fair_choices. destruct (Z.eqb_spec (len arr) 0); [lia|]. cbn [guard_raise res_bind].
  pose proof (Z.mod_pos_bound k (len arr) Hl). pose proof (Z.div_mod k (len arr) ltac:(lia)) as Hdm.
  pose proof (Z.div_pos k (len arr) Hk Hl).
  destruct (sample_sub r arr (k mod len arr)) as (rest & Hsub & Hls); [lia|].
  destruct (sample r arr (k mod len arr)) as [extra r1]. cbn in Hsub, Hls.
  set (l := concat (replicate (Z.to_nat (k / len arr)) arr) ++ extra).
  pose proof (shuffle_perm r1 l) as Hp. destruct (shuffle r1 l) as [c r2]. cbn in Hp.
  assert (Hconcat : ∀ n, len (concat (replicate n arr)) = Z.of_nat n * len arr).
  { intros n0. induction n0 as [|n0 IH]; [done|]. cbn [replicate concat]. rewrite len_app, IH. lia. }
  exists c, r2. split_and!; [done| | |].
  - unfold len at 1. rewrite Hp. fold (len l). unfold l. rewrite len_app, Hconcat. lia.
  - intros x Hx. rewrite Hp in Hx. unfold l in Hx. apply elem_of_app in Hx as [Hx|Hx].
    + apply list_elem_of_In, in_concat in Hx as (a & Ha & Hx). apply list_elem_of_In, elem_of_replicate in Ha as [-> _].
      by apply list_elem_of_In.
    + rewrite Hsub. apply elem_of_app. by left.
  - intros Hnd x Hx. rewrite (occurrences_perm x c l Hp). unfold l.
    rewrite occurrences_app, occurrences_replicate, (occurrences_NoDup x arr Hnd Hx).
    pose proof (occurrences_perm x _ _ Hsub) as E. rewrite occurrences_app, (occurrences_NoDup x arr Hnd Hx) in E.
    pose proof (occurrences_nonneg x extra). pose proof (occurrences_nonneg x rest). lia.
Qed.

Lemma fill_missing_ok l vals : len vals = len (List.filter (λ x, x =? -1) l) →
  ∃ out, fill_missing l vals = Ok out ∧ len out = len l ∧
    (∀ i x, zat l i = Some x → x ≠ -1 → zat out i = Some x) ∧
    (List.filter (λ p : Z * Z, p.1 =? -1) (zip l out)).*2 = vals.
Proof.
  revert vals. induction l as [|x l IH]; intros vals Hl.
  { destruct vals; [|rewrite len_cons in Hl; unfold len in Hl; cbn in Hl; lia]. by exists []. }
  assert (Hzat : ∀ (y : Z) (m : list Z) i z, zat (y :: m) i = Some z ↔ (i = 0 ∧ y = z) ∨ (0 < i ∧ zat m (i - 1) = Some z)).
  { intros y m i z. destruct (decide (i = 0)) as [->|Hi].
    - cbn. split; [intros [= ->]; by left|intros [[_ ->]|[]]; [done|lia]].
    - split.
      + intros Hz. pose proof (zat_Some_bound _ _ _ Hz). right. split; [lia|].
        change (y :: m) with ([y] ++ m) in Hz. rewrite zat_app_r in Hz by (unfold len; cbn [length]; lia).
        rewrite <- Hz. f_equal.
      + intros [[-> _]|[Hi' Hz]]; [done|]. change (y :: m) with ([y] ++ m).
        rewrite zat_app_r by (unfold len; cbn [length]; lia). rewrite <- Hz. f_equal. }
  cbn [List.filter] in Hl. destruct (Z.eqb_spec x (-1)) as [Ex|Hx].
  - destruct vals as [|v vals].
    { rewrite len_cons in Hl. pose proof (len_nonneg (List.filter (λ x, x =? -1) l)). unfold len in *. cbn in Hl. lia. }
    rewrite !len_cons in Hl. destruct (IH vals ltac:(lia)) as (out & E & Hlo & Hk & Hf).
    exists (v :: out). cbn [fill_missing]. rewrite Ex. cbn [Z.eqb Pos.eqb]. rewrite E. split_and!; [done|by rewrite !len_cons, Hlo| |].
    + intros i y Hy Hne. apply Hzat in Hy as [[_ <-]|[Hi Hy]]; [done|]. apply Hzat. right. split; [done|]. by apply Hk.
    + cbn. by rewrite Hf.
  - destruct (IH vals Hl) as (out & E & Hlo & Hk & Hf). exists (x :: out). cbn [fill_missing].
    destruct (Z.eqb_spec x (-1)); [done|]. rewrite E. split_and!; [done|by rewrite !len_cons, Hlo| |].
    + intros i y Hy Hne. apply Hzat. apply Hzat in Hy as [[-> <-]|[Hi Hy]]; [by left|]. right. split; [done|]. by apply Hk.
    + cbn. destruct (Z.eqb_spec x (-1)); [done|]. done.
Qed.

(** The ranks without a near replica, with their choices. *)
Definition far_choices (cands : list Z) (size gpn ep : Z) (out : list Z) : list Z :=
  (List.filter (λ p : Z * Z, far cands size gpn p.1) (zip (py_range 0 ep) out)).*2.

Lemma dispatch_expert_ok (a : ServerArgs) ep P cands (r : S) :
  0 < ep → 0 < P / ep → 0 < nnodes a → 0 < ep_size a / nnodes a → cands ≠ [] → Forall (Z.le 0) cands →
  let size := P / ep in let gpn := ep_size a / nnodes a in
  ∃ out r', dispatch_expert a ep P cands r = Ok (out, r') ∧ len out = ep ∧
    (∀ rank x, zat out rank = Some x → x ∈ cands ∧ nearest_ok cands size gpn rank x) ∧
    (NoDup cands → ∀ x y, x ∈ cands → y ∈ cands →
      Z.abs (occurrences x (far_choices cands size gpn ep out) - occurrences y (far_choices cands size gpn ep out)) ≤ 1).
Proof.
  intros Hep Hsize Hno Hgpn Hne Hpos size gpn. unfold dispatch_expert, py_div.
  destruct (Z.eqb_spec ep 0); [lia|]. destruct (Z.eqb_spec (nnodes a) 0); [lia|]. cbn [res_bind]. fold size gpn.
  destruct (mapM_res_exists (λ rank, _find_nearest_expert cands size rank gpn (size * gpn))
    (λ rank x, if far cands size gpn rank then x = -1 else x ∈ cands ∧ nearest_ok cands size gpn rank x)
    (py_range 0 ep)) as (partial & E & HF).
  { apply Forall_forall. intros rank _. by apply nearest_spec. }
  rewrite E. cbn [res_bind].
  destruct (fair_choices_ok cands (len (List.filter (λ x, x =? -1) partial)) r Hne (len_nonneg _))
    as (choices & r' & -> & Hlc & Hin & Hfair).
  cbn [res_bind]. destruct (fill_missing_ok partial choices Hlc) as (out & -> & Hlo & Hkeep & Hfill).
  cbn [res_bind]. exists out, r'.
  assert (Hlp : len partial = ep).
  { apply Forall2_length in HF. rewrite length_py_range in HF. unfold len. lia. }
  assert (Hmiss : ∀ rank x, zat partial rank = Some x → (x =? -1) = far cands size gpn rank ∧
    (x ≠ -1 → x ∈ cands ∧ nearest_ok cands size gpn rank x)).
  { intros rank x Hx. pose proof (zat_Some_bound _ _ _ Hx) as Hb.
    assert (Hr : zat (py_range 0 ep) rank = Some rank) by (apply zat_range0; lia).
    unfold zat in Hx, Hr. destruct (Z.ltb_spec rank 0); [lia|].
    pose proof (Forall2_lookup_lr _ _ _ _ _ _ HF Hr Hx) as Hf. cbn in Hf.
    destruct (far cands size gpn rank); [subst; done|]. destruct Hf as [Hx' Hnear]. split; [|done].
    apply Z.eqb_neq. intros ->. rewrite Forall_forall in Hpos. apply Hpos in Hx'. lia. }
  assert (Hfar : far_choices cands size gpn ep out = choices).
  { rewrite <- Hfill. unfold far_choices.
    assert (Hgen : ∀ (l : list Z) b o, (∀ i x, zat l i = Some x → (x =? -1) = far cands size gpn (b + i)) →
      (List.filter (λ p : Z * Z, far cands size gpn p.1) (zip (py_range b (b + len l)) o)).*2 =
      (List.filter (λ p : Z * Z, p.1 =? -1) (zip l o)).*2).
    { clear. induction l as [|x l IH]; intros b o Hl; [by rewrite py_range_nil by (rewrite len_nil; lia)|].
      rewrite len_cons, py_range_cons by apply len_nonneg. destruct o as [|y o]; [done|]. cbn [zip_with List.filter fst].
      pose proof (Hl 0 x eq_refl) as Hx. rewrite Z.add_0_r in Hx. rewrite Hx.
      assert (IH' := IH (b + 1) o). replace (b + (1 + len l)) with (b + 1 + len l) in * by lia.
      destruct (far cands size gpn b); cbn; rewrite IH'; try done; intros i z Hz;
        (replace (b + 1 + i) with (b + (1 + i)) by lia); apply Hl;
        change (x :: l) with ([x] ++ l); pose proof (zat_Some_bound _ _ _ Hz);
        (rewrite zat_app_r by (unfold len; cbn [length]; lia)); rewrite <- Hz; f_equal; unfold len; cbn [length]; lia. }
    rewrite <- Hlp. apply (Hgen partial 0). intros i x Hx. by apply (Hmiss i). }
  split_and!; [done|lia| |].
  - intros rank x Hx. destruct (zat_in partial rank) as [y Hy]; [apply zat_Some_bound in Hx; lia|].
    destruct (Hmiss rank y Hy) as [Hf Hn']. destruct (decide (y = -1)) as [->|Hy1].
    + cbn in Hf. assert (Hxc : x ∈ choices).
      { rewrite <- Hfill. apply list_elem_of_fmap. exists (-1, x). split; [done|]. apply list_elem_of_In, filter_In.
        split; [|done]. apply list_elem_of_In, (zat_elem _ rank), zat_zip. done. }
      split; [by apply Hin|]. unfold far in Hf. symmetry in Hf. apply andb_true_iff in Hf as [_ Hf].
      rewrite forallb_forall in Hf. assert (Hno' : ¬ ∃ p, p ∈ cands ∧ p / (size * gpn) = rank / gpn).
      { intros (p & Hp & Hpd). apply list_elem_of_In, Hf in Hp. apply negb_true_iff, Z.eqb_neq in Hp. done. }
      split; [|by intros Hex]. intros (p & Hp & Hpd). destruct Hno'. exists p. split; [done|].
      by apply device_on_node.
    + rewrite (Hkeep rank y Hy Hy1) in Hx. injection Hx as <-. by apply Hn'.
  - intros Hnd x y Hx Hy. rewrite Hfar. pose proof (Hfair Hnd x Hx). pose proof (Hfair Hnd y Hy). lia.
Qed.
End dispatch.
