(* ===== verification/ExpertMetadata.v ===== *)
(** * Well-formed metadata

    [metadata_ok]: in every layer the places listed for an expert hold it, and with
    static dispatch so does the place this rank sends its tokens to.  [_init_raw]
    makes such metadata from well-formed maps, [update] keeps it so while some layers
    are replaced and others are not, and dispatch sends every id to its expert. *)

From S2P Require Import Prelude Tensor ExpertLoad ExpertPacking ExpertOptimal ExpertLoadSpec ExpertBalance.
From S2P Require Import ExpertUpdate ExpertUpdateChunks ExpertUpdatePlan.
From S2P Require Import ExpertElastic ExpertElasticSpec ExpertVec ExpertLocation ExpertLocationSpec.

(** ** Rows *)

(** A row of [M] entries with the places [cands] of an expert. *)
Definition padded_row (M : Z) (cands : list Z) : list Z :=
  cands ++ replicate (Z.to_nat (M - len cands)) (-1).

(** Different places of [phy] that hold [e]. *)
Record places_of (phy : list Z) (e : Z) (cands : list Z) : Prop := {
  pl_some : cands ≠ [];
  pl_nodup : NoDup cands;
  pl_holds : Forall (λ p, zat phy p = Some e) cands;
}.

Record layer_ok (n P M : Z) (phy : list Z) (rows : list (list Z)) : Prop := {
  lo_phy : len phy = P;
  lo_range : ∀ e, e ∈ phy → 0 ≤ e < n;
  lo_len : len rows = n;
  lo_rows : ∀ e row, zat rows e = Some row → ∃ cands, row = padded_row M cands ∧ len cands ≤ M ∧ places_of phy e cands;
}.

Lemma places_nonneg phy e cands : places_of phy e cands → Forall (Z.le 0) cands.
Proof. intros [_ _ H]. apply (Forall_impl _ _ _ H). intros p Hp%zat_Some_bound. lia. Qed.

Lemma places_few phy e cands : places_of phy e cands → len cands ≤ len phy.
Proof.
  intros [_ Hnd H]. pose proof (len_nonneg phy).
  enough (Hle : (length cands ≤ length (py_range 0 (len phy)))%nat) by (rewrite length_py_range in Hle; unfold len in *; lia).
  apply submseteq_length, NoDup_submseteq; [done|]. intros p Hp. rewrite Forall_forall in H.
  apply elem_of_py_range. specialize (H p Hp). apply zat_Some_bound in H. lia.
Qed.

Lemma valid_padded M cands : Forall (Z.le 0) cands → valid_ids (padded_row M cands) = cands.
Proof.
  intros H. unfold valid_ids, padded_row. rewrite List.filter_app, filter_all.
  - rewrite (proj2 (filter_nil_none _ _)); [apply app_nil_r|]. by intros x [-> _]%elem_of_replicate.
  - apply (Forall_impl _ _ _ H). intros x Hx. destruct (Z.eqb_spec x (-1)); [lia|done].
Qed.

Lemma len_padded M cands : len cands ≤ M → len (padded_row M cands) = M.
Proof. intros. unfold padded_row. rewrite len_app, len_replicate. pose proof (len_nonneg cands). lia. Qed.

(** Padding to [P] entries, or cutting to them. *)
Lemma pad_padded M P cands : len cands ≤ M → len cands ≤ P →
  pad_row (P - len (padded_row M cands)) (padded_row M cands) = padded_row P cands.
Proof.
  intros HM HP. pose proof (len_nonneg cands). unfold pad_row. rewrite len_padded by done.
  destruct (Z.leb_spec 0 (P - M)).
  - unfold padded_row. rewrite <- app_assoc, <- replicate_add. do 2 f_equal. lia.
  - unfold padded_row. rewrite take_app_ge by (unfold len in *; lia). f_equal.
    rewrite take_replicate. f_equal. unfold len in *. lia.
Qed.

(** A row that lists [c] places and then [-1]. *)
Lemma row_padded (row : list Z) c M : 1 ≤ c ≤ M → len row = M → (∀ r, c ≤ r < M → zat row r = Some (-1)) →
  row = padded_row M (take (Z.to_nat c) row).
Proof.
  intros Hc HM Hr. unfold padded_row. rewrite <- (take_drop (Z.to_nat c) row) at 1. f_equal.
  assert (Hl : len (take (Z.to_nat c) row) = c) by (unfold len in *; rewrite length_take; lia). rewrite Hl.
  apply list_eq_same_length with (n := Z.to_nat (M - c)).
  - by rewrite length_replicate.
  - rewrite length_drop. unfold len in HM. lia.
  - intros i x y Hi Hx Hy. rewrite lookup_drop in Hx. rewrite lookup_replicate_2 in Hy by done. injection Hy as <-.
    specialize (Hr (Z.of_nat (Z.to_nat c + i)) ltac:(lia)). rewrite zat_nat in Hr. congruence.
Qed.

Lemma take_places (phy row : list Z) c e : 1 ≤ c ≤ len row → NoDup (take (Z.to_nat c) row) →
  (∀ r, 0 ≤ r < c → ∃ p, zat row r = Some p ∧ zat phy p = Some e) → places_of phy e (take (Z.to_nat c) row).
Proof.
  intros Hc Hnd Hr. split; [|done|].
  - intros E. apply (f_equal length) in E. rewrite length_take in E. unfold len in *. cbn in E. lia.
  - apply Forall_forall. intros p (i & Hi)%elem_zat. pose proof (zat_Some_bound _ _ _ Hi) as Hb.
    assert (Hic : 0 ≤ i < c) by (unfold len in *; rewrite length_take in Hb; lia).
    rewrite zat_take in Hi by lia. destruct (Hr i Hic) as (p' & Hp' & He). congruence.
Qed.

Lemma maps_layer n P M phy l2p cnt : maps_consistent n P M phy l2p cnt → layer_ok n P M phy l2p.
Proof.
  intros Hm. pose proof (maps_range _ _ _ _ _ _ Hm) as Hrange. destruct Hm as [H1 H2 H3 H4 _]. split; [done..|].
  intros e row Hrow. destruct (H4 e) as (c & row' & _ & Hrow' & Hc & HM & Hnd & Hin & Hout).
  { apply zat_Some_bound in Hrow. lia. }
  assert (row' = row) as -> by congruence. exists (take (Z.to_nat c) row).
  split_and!; [by apply row_padded|unfold len in *; rewrite length_take; lia|apply take_places; [lia|done|done]].
Qed.

Lemma active_layer n P nl M act phy l2p cnt : maps_active n P nl M act phy l2p cnt → layer_ok n P M phy l2p.
Proof.
  intros [H1 H2 H3 H4 H5]. split; [done..|].
  intros e row Hrow. destruct (H5 e) as (c & row' & _ & Hrow' & Hc & HM & Hnd & Hin & Hout).
  { apply zat_Some_bound in Hrow. lia. }
  assert (row' = row) as -> by congruence. exists (take (Z.to_nat c) row).
  split_and!; [by apply row_padded|unfold len in *; rewrite length_take; lia|apply take_places; [lia|done|]].
  intros r Hr. destruct (Hin r Hr) as (p & a & ? & ? & _). by exists p.
Qed.

(** ** Metadata *)

Definition is_static (a : ServerArgs) : bool :=
  match ep_dispatch_algorithm a with Some alg => String.eqb alg "static" | None => false end.

(** The place of every expert holds it. *)
Definition table_ok (n : Z) (phy table : list Z) : Prop :=
  len table = n ∧ ∀ e p, zat table e = Some p → zat phy p = Some e.

Record metadata_ok (a : ServerArgs) (n P L : Z) (m : ExpertLocationMetadata) : Prop := {
  mo_layers : len (physical_to_logical_map m) = L;
  mo_places : len (logical_to_all_physical_map m) = L;
  mo_layer : ∀ l phy rows, zat (physical_to_logical_map m) l = Some phy →
    zat (logical_to_all_physical_map m) l = Some rows → layer_ok n P P phy rows;
  mo_valid : logical_to_all_physical_map_num_valid m =
    (λ rows : list (list Z), (λ row, len (valid_ids row)) <$> rows) <$> logical_to_all_physical_map m;
  mo_table : match logical_to_rank_dispatch_physical_map m with
    | Some d => is_static a = true ∧ len d = L ∧
        ∀ l phy table, zat (physical_to_logical_map m) l = Some phy → zat d l = Some table → table_ok n phy table
    | None => is_static a = false
    end;
}.

Lemma layer_padded n P M phy rows : layer_ok n P M phy rows →
  layer_ok n P P phy ((λ row, pad_row (P - len row) row) <$> rows) ∧
  (λ row, len (valid_ids row)) <$> ((λ row, pad_row (P - len row) row) <$> rows) = (λ row, len (valid_ids row)) <$> rows.
Proof.
  intros [H1 H2 H3 H4]. split.
  - split; [done..|by rewrite len_fmap|]. intros e row. rewrite zat_fmap.
    destruct (zat rows e) as [row0|] eqn:E; [|done]. intros [= <-]. destruct (H4 e row0 E) as (cands & -> & HM & Hp).
    assert (len cands ≤ P) by (rewrite <- H1; by eapply places_few).
    exists cands. split_and!; [by apply pad_padded|done|done].
  - rewrite <- list_fmap_compose. apply list_fmap_ext. intros i row Hi. cbn.
    destruct (H4 (Z.of_nat i) row) as (cands & -> & HM & Hp); [by rewrite zat_nat|].
    assert (len cands ≤ P) by (rewrite <- H1; by eapply places_few). pose proof (places_nonneg _ _ _ Hp).
    by rewrite pad_padded, !valid_padded by done.
Qed.

(** ** The static choice *)

(** A loop that passes the generator on and collects the results. *)
Lemma fold_collect {A B S} (f : A → S → res (B * S)) (Q : A → B → Prop) l :
  (∀ x, x ∈ l → ∀ s, ∃ y s', f x s = Ok (y, s') ∧ Q x y) →
  ∀ out s, ∃ ys s', fold_res (λ '(out, s) x, let! '(y, s) := f x s in Ok (out ++ [y], s)) (out, s) l = Ok (out ++ ys, s') ∧
    Forall2 Q l ys.
Proof.
  induction l as [|x l IH]; intros Hf out s.
  - exists [], s. rewrite app_nil_r. split; [done|constructor].
  - destruct (Hf x ltac:(left) s) as (y & s1 & E & HQ).
    destruct (IH ltac:(intros z Hz; apply Hf; by right) (out ++ [y]) s1) as (ys & s2 & E2 & HF).
    exists (y :: ys), s2. cbn [fold_res]. rewrite E. cbn [res_bind]. rewrite E2, <- app_assoc.
    split; [done|by constructor].
Qed.

(** The sizes of the group of ranks. *)
Record group_ok (a : ServerArgs) (P : Z) : Prop := {
  go_ranks : 0 < ep_size a;
  go_nodes : 0 < nnodes a ≤ ep_size a;
  go_places : 0 < P ∧ P mod ep_size a = 0;
}.

Lemma group_sizes a P : group_ok a P → 0 < P / ep_size a ∧ 0 < ep_size a / nnodes a ∧ P = P / ep_size a * ep_size a.
Proof.
  intros [H1 [H2 H2'] [H3 H4]]. apply Z.mod_divide in H4 as [k ->]; [|lia]. rewrite Z.div_mul by lia.
  split_and!; [nia|apply Z.div_str_pos; lia|lia].
Qed.

Section metadata.
Context {S : Type} `{Random S} `{!RandomLaws S}.

(** One expert: every rank gets a place of it, a near one when there is one. *)
Definition ranks_ok (a : ServerArgs) (P : Z) (row out : list Z) : Prop :=
  len out = ep_size a ∧ ∀ rank x, zat out rank = Some x → x ∈ valid_ids row ∧
    nearest_ok (valid_ids row) (P / ep_size a) (ep_size a / nnodes a) rank x.

Lemma dispatch_layer_ok a n P M phy rows : group_ok a P → layer_ok n P M phy rows → ∀ r,
  ∃ layer r', dispatch_layer a (ep_size a) P rows r = Ok (layer, r') ∧ Forall2 (ranks_ok a P) rows layer.
Proof.
  intros Hg Hl r. destruct (group_sizes _ _ Hg) as (Hnl & Hgpn & _). destruct Hg as [Hep [Hno _] _].
  unfold dispatch_layer.
  destruct (fold_collect (λ row r, dispatch_expert a (ep_size a) P (valid_ids row) r) (ranks_ok a P) rows) with
    (out := @nil (list Z)) (s := r) as (ys & r' & E & HF).
  - intros row (e & He)%elem_zat s. destruct Hl as [_ _ _ H4]. destruct (H4 e row He) as (cands & -> & HM & Hp).
    pose proof (places_nonneg _ _ _ Hp) as Hpos. unfold ranks_ok. rewrite valid_padded by done.
    destruct (dispatch_expert_ok a (ep_size a) P cands s) as (out & s' & Eo & Hlo & Hin & _);
      [lia..|by destruct Hp|done|].
    by exists out, s'.
  - rewrite E. by exists ys, r'.
Qed.

(** The column of this rank in the table of a layer. *)
Lemma rank_column a n P M phy rows layer rank : layer_ok n P M phy rows → Forall2 (ranks_ok a P) rows layer →
  0 ≤ rank < ep_size a →
  ∃ table, mapM_res (λ ranks : list Z, py_index ranks rank) layer = Ok table ∧ table_ok n phy table ∧
    ∀ e row p, zat rows e = Some row → zat table e = Some p →
      nearest_ok (valid_ids row) (P / ep_size a) (ep_size a / nnodes a) rank p.
Proof.
  intros [_ _ H3 H4] HF Hr.
  destruct (mapM_res_exists (λ ranks : list Z, py_index ranks rank) (λ ranks p, zat ranks rank = Some p) layer)
    as (table & E & HT).
  { apply Forall_forall. intros out Ho. apply list_elem_of_lookup in Ho as [i Hi].
    destruct (Forall2_lookup_r _ _ _ _ _ HF Hi) as (row & _ & [Hlo _]).
    destruct (zat_in out rank) as [p Hp]; [lia|]. exists p. split; [by apply zat_py_index|done]. }
  exists table. split; [done|].
  assert (Hcell : ∀ e row p, zat rows e = Some row → zat table e = Some p →
    p ∈ valid_ids row ∧ nearest_ok (valid_ids row) (P / ep_size a) (ep_size a / nnodes a) rank p).
  { intros e row p Hrow Hp. unfold zat in Hrow, Hp. destruct (e <? 0); [done|].
    destruct (Forall2_lookup_l _ _ _ _ _ HF Hrow) as (out & Hout & [_ Hin]).
    pose proof (Forall2_lookup_lr _ _ _ _ _ _ HT Hout Hp) as Hz. cbn in Hz. by apply Hin. }
  split; [|intros e row p Hrow Hp; by eapply Hcell].
  apply Forall2_length in HF as HlF. apply Forall2_length in HT as HlT. split; [unfold len in *; lia|].
  intros e p Hp. pose proof (zat_Some_bound _ _ _ Hp). destruct (zat_in rows e) as [row Hrow]; [unfold len in *; lia|].
  destruct (Hcell e row p Hrow Hp) as [Hin _]. destruct (H4 e row Hrow) as (cands & -> & HM & Hpl).
  rewrite valid_padded in Hin by (by eapply places_nonneg). destruct Hpl as [_ _ Hpl]. rewrite Forall_forall in Hpl. by apply Hpl.
Qed.

Lemma table_valid a n P M phy rows layer : layer_ok n P M phy rows → Forall2 (ranks_ok a P) rows layer →
  forallb (forallb (λ x, negb (x =? -1))) layer = true.
Proof.
  intros [_ _ _ H4] HF. apply forallb_forall. intros out Ho. apply forallb_forall. intros x Hx.
  apply list_elem_of_In, list_elem_of_lookup in Ho as [i Hi]. apply list_elem_of_In, elem_zat in Hx as [rank Hrank].
  destruct (Forall2_lookup_r _ _ _ _ _ HF Hi) as (row & Hrow & [_ Hin]).
  destruct (H4 (Z.of_nat i) row) as (cands & -> & _ & Hp); [by rewrite zat_nat|].
  pose proof (places_nonneg _ _ _ Hp) as Hpos. destruct (Hin rank x Hrank) as [Hx _].
  rewrite valid_padded in Hx by done. rewrite Forall_forall in Hpos. apply Hpos in Hx.
  apply negb_true_iff, Z.eqb_neq. lia.
Qed.

Lemma dispatch_map_ok a n P M phys l2ps rank seed : group_ok a P → Forall2 (layer_ok n P M) phys l2ps →
  0 ≤ rank < ep_size a →
  ∃ tables, compute_logical_to_rank_dispatch_physical_map a l2ps (ep_size a) P rank seed = Ok tables ∧
    len tables = len phys ∧
    ∀ l phy rows table, zat phys l = Some phy → zat l2ps l = Some rows → zat tables l = Some table →
      table_ok n phy table ∧ ∀ e row p, zat rows e = Some row → zat table e = Some p →
        nearest_ok (valid_ids row) (P / ep_size a) (ep_size a / nnodes a) rank p.
Proof.
  intros Hg HF Hrank. unfold compute_logical_to_rank_dispatch_physical_map.
  destruct (Z.eqb_spec (ep_size a) 0); [by destruct Hg; lia|]. destruct (Z.eqb_spec (nnodes a) 0); [by destruct Hg; lia|].
  cbn [guard_raise res_bind].
  assert (Hlayer : ∀ rows, rows ∈ l2ps → ∃ phy, layer_ok n P M phy rows).
  { intros rows [i Hi]%list_elem_of_lookup. by destruct (Forall2_lookup_r _ _ _ _ _ HF Hi) as (phy & _ & ?); exists phy. }
  destruct (fold_collect (λ rows r, dispatch_layer a (ep_size a) P rows r) (Forall2 (ranks_ok a P)) l2ps) with
    (out := @nil (list (list Z))) (s := seeded (S := S) seed) as (ys & r' & -> & HL).
  { intros rows Hrows s. destruct (Hlayer rows Hrows) as [phy Hl]. by apply (dispatch_layer_ok a n P M phy). }
  cbn [res_bind app]. replace (forallb _ ys) with true.
  2:{ symmetry. apply forallb_forall. intros layer Hl. apply list_elem_of_In, list_elem_of_lookup in Hl as [i Hi].
      destruct (Forall2_lookup_r _ _ _ _ _ HL Hi) as (rows & Hrows & Hr). apply list_elem_of_lookup_2 in Hrows.
      destruct (Hlayer rows Hrows) as [phy Hl]. by apply (table_valid a n P M phy rows). }
  cbn [py_assert res_bind].
  destruct (mapM_res_exists (mapM_res (λ ranks : list Z, py_index ranks rank))
    (λ layer table, mapM_res (λ ranks : list Z, py_index ranks rank) layer = Ok table) ys) as (tables & -> & HT).
  { apply Forall_forall. intros layer Hl. apply list_elem_of_lookup in Hl as [i Hi].
    destruct (Forall2_lookup_r _ _ _ _ _ HL Hi) as (rows & Hrows & Hr). apply list_elem_of_lookup_2 in Hrows.
    destruct (Hlayer rows Hrows) as [phy Hl]. destruct (rank_column a n P M phy rows layer rank Hl Hr Hrank) as (t & E & _).
    by exists t. }
  exists tables. split; [done|]. pose proof (Forall2_length _ _ _ HF). pose proof (Forall2_length _ _ _ HL).
  pose proof (Forall2_length _ _ _ HT). split; [unfold len; lia|].
  intros l phy rows table Hphy Hrows Ht. unfold zat in Hphy, Hrows, Ht. destruct (l <? 0); [done|].
  pose proof (Forall2_lookup_lr _ _ _ _ _ _ HF Hphy Hrows) as Hl.
  destruct (Forall2_lookup_l _ _ _ _ _ HL Hrows) as (layer & Hlayer' & Hr).
  pose proof (Forall2_lookup_lr _ _ _ _ _ _ HT Hlayer' Ht) as Et. cbn in Et.
  destruct (rank_column a n P M phy rows layer rank Hl Hr Hrank) as (t & E & Hok & Hnear).
  rewrite E in Et. injection Et as <-. done.
Qed.

(** ** Construction *)

Lemma post_init_ok n P L m : 0 < L → len (physical_to_logical_map m) = L → len (logical_to_all_physical_map m) = L →
  Forall2 (layer_ok n P P) (physical_to_logical_map m) (logical_to_all_physical_map m) →
  logical_to_all_physical_map_num_valid m =
    (λ rows : list (list Z), (λ row, len (valid_ids row)) <$> rows) <$> logical_to_all_physical_map m →
  post_init m = Ok m.
Proof.
  intros HL H1 H2 HF Hv. unfold post_init. rewrite Hv, len_fmap, H1, H2, Z.eqb_refl. cbn [andb py_assert res_bind].
  assert (HP : num_physical_experts m = P).
  { unfold num_physical_experts. destruct HF as [|phy rows phys l2ps Hl _]; [unfold len in H1; cbn in H1; lia|].
    cbn. by destruct Hl. }
  replace (forallb _ (zip _ _)) with true.
  2:{ symmetry. apply forallb_forall. intros [x y] Hxy. apply list_elem_of_In, elem_zat in Hxy as [i Hi].
      apply zat_zip in Hi as [Hx Hy]. rewrite zat_fmap, Hx in Hy. injection Hy as <-. cbn. rewrite len_fmap. apply Z.eqb_refl. }
  cbn [py_assert res_bind]. replace (forallb _ _) with true; [done|].
  symmetry. apply forallb_forall. intros rows Hrows. apply list_elem_of_In, list_elem_of_lookup in Hrows as [i Hi].
  destruct (Forall2_lookup_r _ _ _ _ _ HF Hi) as (phy & _ & [_ _ _ H4]).
  apply forallb_forall. intros row Hrow. apply list_elem_of_In, elem_zat in Hrow as [e He].
  destruct (H4 e row He) as (cands & -> & HM & _). rewrite len_padded by done. rewrite HP. apply Z.eqb_refl.
Qed.

Lemma init_raw_ok a n P M rank phys l2ps : group_ok a P → phys ≠ [] → Forall2 (layer_ok n P M) phys l2ps →
  ∃ m, _init_raw a (ep_size a) rank phys l2ps = Ok m ∧ metadata_ok a n P (len phys) m ∧ physical_to_logical_map m = phys ∧
    ∀ d l rows table, logical_to_rank_dispatch_physical_map m = Some d → zat l2ps l = Some rows → zat d l = Some table →
      ∀ e row p, zat rows e = Some row → zat table e = Some p →
        nearest_ok (valid_ids row) (P / ep_size a) (ep_size a / nnodes a) (rank mod ep_size a) p.
Proof.
  intros Hg Hne HF. pose proof (Forall2_length _ _ _ HF) as Hlen.
  assert (HP : ncols phys = P). { destruct HF as [|phy rows ? ? [Hl _ _ _] _]; [done|]. done. }
  unfold _init_raw. rewrite HP. destruct (Z.eqb_spec (ep_size a) 0); [by destruct Hg; lia|]. cbn [guard_raise res_bind].
  assert (Hpos : 0 < len phys) by (destruct phys; [done|]; rewrite len_cons; pose proof (len_nonneg phys); lia).
  set (padded := (λ rows : list (list Z), (λ row, pad_row (P - len row) row) <$> rows) <$> l2ps).
  assert (HFp : Forall2 (layer_ok n P P) phys padded).
  { unfold padded. apply Forall2_fmap_r. eapply Forall2_impl; [exact HF|]. intros phy rows Hl. by eapply layer_padded. }
  assert (Hv : (λ rows : list (list Z), (λ row, len (valid_ids row)) <$> rows) <$> l2ps =
    (λ rows : list (list Z), (λ row, len (valid_ids row)) <$> rows) <$> padded).
  { unfold padded. rewrite <- (list_fmap_compose _ _ l2ps). apply list_fmap_ext. intros i rows Hi. cbn.
    destruct (Forall2_lookup_r _ _ _ _ _ HF Hi) as (phy & _ & Hl). symmetry. by eapply layer_padded. }
  assert (Hbuild : ∀ d, match d with
      | Some d => is_static a = true ∧ len d = len phys ∧
          ∀ l phy table, zat phys l = Some phy → zat d l = Some table → table_ok n phy table
      | None => is_static a = false end →
    let m := {| physical_to_logical_map := phys; logical_to_all_physical_map := padded;
      logical_to_all_physical_map_num_valid := (λ rows : list (list Z), (λ row, len (valid_ids row)) <$> rows) <$> l2ps;
      logical_to_rank_dispatch_physical_map := d |} in
    post_init m = Ok m ∧ metadata_ok a n P (len phys) m).
  { intros d Hd m. assert (Hlp : len padded = len phys) by (unfold padded; rewrite len_fmap; unfold len; lia).
    split; [by apply (post_init_ok n P (len phys))|]. split; [done|done| |done|done].
    intros l phy rows H1 H2. unfold zat in H1, H2. destruct (l <? 0); [done|]. by eapply Forall2_lookup_lr. }
  unfold is_static in Hbuild.
  destruct (dispatch_map_ok a n P M phys l2ps (rank mod ep_size a) 42 Hg HF) as (d & Ed & Hld & Hd).
  { apply Z.mod_pos_bound. by destruct Hg. }
  destruct (ep_dispatch_algorithm a) as [alg|] eqn:Ea; [destruct (String.eqb alg "static") eqn:Es|].
  - rewrite Ed. cbn [res_bind]. destruct (Hbuild (Some d)) as [E1 E2].
    { split_and!; [done|done|]. intros l phy table Hphy Ht.
      destruct (zat_in l2ps l) as [rows Hrows].
      { apply zat_Some_bound in Hphy. unfold len in *. lia. }
      by destruct (Hd l phy rows table Hphy Hrows Ht). }
    rewrite E1. eexists. split; [done|]. split; [done|]. split; [done|].
    intros d' l rows table [= <-] Hrows Ht e row p Hrow Hp.
    destruct (zat_in phys l) as [phy Hphy]. { apply zat_Some_bound in Hrows. unfold len in *. lia. }
    destruct (Hd l phy rows table Hphy Hrows Ht) as [_ Hn]. by apply (Hn e row).
  - cbn [res_bind]. destruct (Hbuild None) as [E1 E2]; [done|]. rewrite E1. eexists. by split_and!.
  - cbn [res_bind]. destruct (Hbuild None) as [E1 E2]; [done|]. rewrite E1. eexists. by split_and!.
Qed.
End metadata.

(** ** Replacing layers *)

Lemma zat_imap {A B} (f : nat → A → B) (l : list A) i : 0 ≤ i → zat (imap f l) i = f (Z.to_nat i) <$> zat l i.
Proof. intros. unfold zat. destruct (Z.ltb_spec i 0); [lia|]. apply list_lookup_imap. Qed.

Lemma where_layers_ok {B} (ids : list Z) (self other : list B) : len self = len other →
  ∃ out, where_layers ids self other = Ok out ∧ len out = len self ∧
    ∀ i, zat out i = if mem i ids then zat other i else zat self i.
Proof.
  intros Hl. unfold where_layers.
  replace (match other with [x] => replicate (length self) x | _ => other end) with other.
  2:{ destruct other as [|x [|y other]]; try done. destruct self as [|z [|z' self]]; [done..|].
      rewrite !len_cons in Hl. pose proof (len_nonneg self). unfold len in Hl. cbn in Hl. lia. }
  rewrite Hl, Z.eqb_refl. cbn [negb]. eexists. split; [done|]. split; [unfold len in *; rewrite length_imap, length_zip_with; lia|].
  intros i. destruct (decide (0 ≤ i < len self)) as [Hi|Hi].
  - rewrite zat_imap by lia. destruct (zat_in self i Hi) as [x Hx]. destruct (zat_in other i) as [y Hy]; [lia|].
    rewrite (proj2 (zat_zip self other i x y)) by done. cbn. rewrite Z2Nat.id by lia. fold (mem i ids).
    by destruct (mem i ids).
  - assert (Hnone : ∀ C (l : list C), len l = len self → zat l i = None).
    { intros C l Hlen. destruct (zat l i) eqn:E; [apply zat_Some_bound in E; lia|done]. }
    rewrite !Hnone; [by destruct (mem i ids)|done|done|]. unfold len in *. rewrite length_imap, length_zip_with. lia.
Qed.

(** A layer of the result is the new one or the old one. *)
Lemma update_ok a n P L self other ids : metadata_ok a n P L self → metadata_ok a n P L other →
  ∃ m, update self other ids = Ok m ∧ metadata_ok a n P L m ∧
    ∀ l, zat (physical_to_logical_map m) l =
      if mem l ids then zat (physical_to_logical_map other) l else zat (physical_to_logical_map self) l.
Proof.
  intros [A1 A2 A3 A4 A5] [B1 B2 B3 B4 B5]. unfold update.
  destruct (where_layers_ok ids (physical_to_logical_map self) (physical_to_logical_map other)) as (p2l & -> & Hl1 & H1); [congruence|].
  destruct (where_layers_ok ids (logical_to_all_physical_map self) (logical_to_all_physical_map other)) as (l2p & -> & Hl2 & H2); [congruence|].
  destruct (where_layers_ok ids (logical_to_all_physical_map_num_valid self) (logical_to_all_physical_map_num_valid other))
    as (nv & -> & Hl3 & H3); [rewrite A4, B4, !len_fmap; congruence|].
  cbn [res_bind].
  assert (∃ d, match logical_to_rank_dispatch_physical_map self, logical_to_rank_dispatch_physical_map other with
    | None, None => Ok None
    | Some s, Some o => let! d := where_layers ids s o in Ok (Some d)
    | _, _ => Err AssertionError end = Ok d ∧
    match d with
    | Some d => is_static a = true ∧ len d = L ∧
        ∀ l phy table, zat p2l l = Some phy → zat d l = Some table → table_ok n phy table
    | None => is_static a = false end) as (d & -> & Hd).
  { destruct (logical_to_rank_dispatch_physical_map self) as [s|], (logical_to_rank_dispatch_physical_map other) as [o|].
    - destruct A5 as (As & Al & At). destruct B5 as (Bs & Bl & Bt).
      destruct (where_layers_ok ids s o) as (d & -> & Hld & Hd); [congruence|]. cbn [res_bind]. exists (Some d).
      split_and!; [done|done|lia|]. intros l phy table. rewrite H1, Hd. destruct (mem l ids); [apply Bt|apply At].
    - destruct A5. congruence.
    - destruct B5. congruence.
    - by exists None. }
  cbn [res_bind]. eexists. split; [done|]. split; [|exact H1].
  split; cbn; [lia|lia| | |done].
  - intros l phy rows. rewrite H1, H2. destruct (mem l ids); [apply B3|apply A3].
  - apply list_eq_zat. intros l. rewrite zat_fmap, H3, H2, A4, B4, !zat_fmap. by destruct (mem l ids).
Qed.

(** ** Dispatch *)

Lemma zat_padded M cands i p : zat cands i = Some p → zat (padded_row M cands) i = Some p.
Proof. intros Hp. unfold padded_row. rewrite zat_app_l; [done|]. apply zat_Some_bound in Hp. lia. Qed.

(** Whatever the draws are, every expert id goes to a place that holds the expert. *)
Lemma dispatch_ok a n P L m l ids draws alg : metadata_ok a n P L m → 0 ≤ l < L →
  ep_dispatch_algorithm a = Some alg → alg ∈ ["static"; "dynamic"; "fake"] →
  len draws = len ids → Forall (λ e : Z, 0 ≤ e < n) ids →
  ∃ info phy places, init_new a m l = Ok info ∧ topk_ids_logical_to_physical ids draws info = Ok places ∧
    zat (physical_to_logical_map m) l = Some phy ∧ Forall2 (λ e p, zat phy p = Some e) ids places.
Proof.
  intros [H1 H2 H3 H4 H5] Hl Ha Halg Hdraws Hids.
  destruct (zat_in (physical_to_logical_map m) l) as [phy Hphy]; [lia|].
  destruct (zat_in (logical_to_all_physical_map m) l) as [rows Hrows]; [lia|].
  pose proof (H3 l phy rows Hphy Hrows) as [L1 L2 L3 L4].
  assert (Hnv : zat (logical_to_all_physical_map_num_valid m) l = Some ((λ row, len (valid_ids row)) <$> rows)).
  { by rewrite H4, zat_fmap, Hrows. }
  unfold init_new. rewrite Ha. unfold is_static in H5. rewrite Ha in H5.
  rewrite (zat_py_index _ _ _ Hrows), (zat_py_index _ _ _ Hnv).
  destruct (String.eqb alg "static") eqn:Es.
  - destruct (logical_to_rank_dispatch_physical_map m) as [d|]; [|done]. destruct H5 as (_ & Hld & Hd).
    destruct (zat_in d l) as [table Ht]; [lia|]. destruct (Hd l phy table Hphy Ht) as [Hlt Htable].
    rewrite (zat_py_index _ _ _ Ht). cbn [res_bind].
    destruct (mapM_res_exists (py_index table) (λ e p, zat phy p = Some e) ids) as (places & E & HF).
    { apply (Forall_impl _ _ _ Hids). intros e He. destruct (zat_in table e) as [p Hp]; [lia|].
      exists p. split; [by apply zat_py_index|by apply Htable]. }
    do 3 eexists. split; [done|]. split; [|by split]. unfold topk_ids_logical_to_physical. cbn [info_algorithm]. by rewrite Es.
  - destruct (logical_to_rank_dispatch_physical_map m) as [d|]; [by destruct H5|]. cbn [res_bind].
    set (info := {| info_algorithm := alg; partial_logical_to_rank_dispatch_physical_map := None;
      partial_logical_to_all_physical_map := rows; partial_logical_to_all_physical_map_num_valid := (λ row, len (valid_ids row)) <$> rows |}).
    assert (∃ places, _topk_ids_logical_to_physical_dynamic ids draws info = Ok places ∧
      Forall2 (λ e p, zat phy p = Some e) ids places) as (places & E & HF).
    { unfold _topk_ids_logical_to_physical_dynamic. assert (Hlen : length draws = length ids) by (unfold len in Hdraws; lia).
      clear Hdraws. revert draws Hlen. induction Hids as [|e ids He _ IH]; intros draws Hlen; [by exists []|].
      destruct draws as [|draw draws]; [done|]. destruct (IH draws) as (places & E & HF); [by injection Hlen|].
      unfold map2_res in *. cbn [zip_with mapM_res fst snd info partial_logical_to_all_physical_map_num_valid partial_logical_to_all_physical_map].
      destruct (zat_in rows e) as [row Hrow]; [lia|].
      destruct (L4 e row Hrow) as (cands & -> & HM & Hp). pose proof (places_nonneg _ _ _ Hp) as Hpos. destruct Hp as [Hne _ Hh].
      assert (Hn : zat ((λ row, len (valid_ids row)) <$> rows) e = Some (len cands)) by (rewrite zat_fmap, Hrow; cbn; by rewrite valid_padded).
      assert (0 < len cands) by (destruct cands; [done|]; rewrite len_cons; pose proof (len_nonneg cands); lia).
      rewrite (zat_py_index _ _ _ Hn). cbn [res_bind]. destruct (Z.eqb_spec (len cands) 0); [lia|]. cbn [guard_raise res_bind].
      rewrite (zat_py_index _ _ _ Hrow). cbn [res_bind].
      destruct (zat_in cands (draw mod len cands)) as [p Hpz]; [by apply Z.mod_pos_bound|].
      rewrite (zat_py_index _ _ _ (zat_padded P _ _ _ Hpz)). cbn [res_bind].
      cbn [info partial_logical_to_all_physical_map_num_valid partial_logical_to_all_physical_map] in E. rewrite E.
      cbn [res_bind]. exists (p :: places). split; [done|]. constructor; [|done].
      rewrite Forall_forall in Hh. apply Hh. by eapply zat_elem. }
    exists (Some info), phy, places. split; [done|]. split; [|done].
    unfold topk_ids_logical_to_physical. cbn [info info_algorithm]. rewrite Es.
    replace (String.eqb alg "dynamic" || String.eqb alg "fake")%bool with true; [done|].
    apply elem_of_cons in Halg as [->|Halg]; [done|]. apply elem_of_cons in Halg as [->|Halg]; [done|].
    by apply list_elem_of_singleton in Halg as ->.
Qed.
