(* ===== verification/ExpertConstruct.v ===== *)
(** * The constructors of the metadata

    [init_by_eplb] with any of the balancers, [init_by_mapping] and [init_trivial]
    succeed on the sizes their assertions ask for and return well-formed metadata. *)

From S2P Require Import Prelude Tensor ExpertLoad ExpertPacking ExpertOptimal ExpertLoadSpec ExpertBalance.
From S2P Require Import ExpertUpdate ExpertUpdateChunks ExpertUpdatePlan.
From S2P Require Import ExpertElastic ExpertElasticSpec ExpertVec ExpertVecSpec ExpertVecBalance.
From S2P Require Import ExpertLocation ExpertLocationSpec ExpertMetadata.

Section construction.
Context {S : Type} `{Random S} `{!RandomLaws S}.

(** ** The balancers *)

Section balancers.
Context {W : Type} `{TorchFloat W} `{!TorchLaws W} `{TorchVec W} `{!TorchVecLaws W}.

(** The sizes that the assertions of each balancer ask for. *)
Definition algorithm_config (n P ep nodes : Z) (groups : option Z) (act : list Z) (alg : EplbAlgorithm) : Prop :=
  match alg with
  | deepseek => balancer_config n P 1 1 ep
  | deepseek_hierarchical => ∃ g, groups = Some g ∧ balancer_config n P g nodes ep
  | deepseek_vec => chunk_config n P P (P / ep)
  | deepseek_vec_hierarchical => ∃ g, groups = Some g ∧ prefill_config n P (P / ep) g nodes
  | elasticity_aware => len act = ep ∧ Forall (λ a, a = 0 ∨ a = 1) act ∧ n ≤ P / ep * sum_Z act ∧
      (sum_Z act = ep → ∃ g, groups = Some g ∧ balancer_config n P g nodes ep)
  end.

Lemma sum_steps_shape L n (tokens : list (list (list W))) : loads_shape L n tokens → 0 ≤ n → (0 < L)%nat →
  length (sum_steps tokens) = L ∧ Forall (λ w, len w = n) (sum_steps tokens).
Proof.
  intros [Hne Hall] Hn HL. destruct tokens as [|first tokens]; [done|]. apply Forall_cons in Hall as [[HL' Hr] _].
  cbn [sum_steps]. rewrite length_fmap, length_py_range. split; [unfold len; lia|].
  assert (Hc : ncols first = n).
  { destruct first as [|r first]; [cbn in HL'; lia|]. by apply Forall_cons in Hr as [? _]. }
  rewrite Hc. apply Forall_forall. intros w (l & -> & _)%list_elem_of_fmap. by apply len_sum0.
Qed.

Lemma Forall3_layers {X} (Q : list Z → list (list Z) → X → Prop) (R : list Z → list (list Z) → Prop) phys l2ps cnts :
  (∀ a b c, Q a b c → R a b) → Forall3 Q phys l2ps cnts → Forall2 R phys l2ps.
Proof. intros HQ. induction 1; constructor; eauto. Qed.

Lemma balancers_ok L (tokens : list (list (list W))) n P ep nodes groups act alg :
  loads_shape L n tokens → (0 < L)%nat → 0 < n → 0 < ep → 0 < P / ep → P = P / ep * ep →
  algorithm_config n P ep nodes groups act alg →
  ∃ phys l2ps cnts M, ExpertLocation.rebalance_experts tokens P (P / ep) groups nodes act alg = Ok (phys, l2ps, cnts) ∧
    length phys = L ∧ Forall2 (layer_ok n P M) phys l2ps.
Proof.
  intros Hshape HL Hn Hep Hnl HP Hcfg. destruct (sum_steps_shape L n tokens Hshape) as [Hsl Hsc]; [lia|done|].
  assert (Hne : sum_steps tokens ≠ []) by (intros E; rewrite E in Hsl; cbn in Hsl; lia).
  assert (Hgpus : py_div P (P / ep) = Ok ep).
  { unfold py_div. destruct (Z.eqb_spec (P / ep) 0); [lia|]. f_equal.
    rewrite HP at 1. rewrite Z.mul_comm. apply Z.div_mul. lia. }
  assert (Hdeep : ∀ g h, balancer_config n P (if h : bool then g else 1) (if h then nodes else 1) ep →
    ∃ phys l2ps cnts M, ExpertLoad.rebalance_experts (sum_steps tokens) P g nodes ep h = Ok (phys, l2ps, cnts) ∧
      length phys = L ∧ Forall2 (layer_ok n P M) phys l2ps).
  { intros g h Hb. destruct (rebalance_ok (sum_steps tokens) n P g nodes ep h Hne Hsc Hb) as (T & l2p & M & E & Hl & _ & H3).
    do 4 eexists. split; [exact E|]. split; [rewrite length_fmap; congruence|].
    eapply Forall3_layers; [|exact H3]. intros. by eapply maps_layer. }
  assert (Hvec : ∀ g h, (if h : bool then prefill_config n P (P / ep) g nodes else chunk_config n P P (P / ep)) →
    ∃ phys l2ps cnts M, rebalance_experts_vec tokens P (P / ep) (Some g) nodes h = Ok (phys, l2ps, cnts) ∧
      length phys = L ∧ Forall2 (layer_ok n P M) phys l2ps).
  { intros g h Hc.
    assert (∃ phys l2ps cnts, rebalance_experts_vec tokens P (P / ep) (Some g) nodes h = Ok (phys, l2ps, cnts) ∧
      length phys = L ∧ Forall3 (maps_consistent n P (P - n + 1)) phys l2ps cnts) as (phys & l2ps & cnts & E & Hl & H3).
    { destruct h; [by apply prefill_ok|by apply chunkwise_ok]. }
    do 4 eexists. split; [exact E|]. split; [done|]. eapply Forall3_layers; [|exact H3]. intros. by eapply maps_layer. }
  unfold ExpertLocation.rebalance_experts. destruct alg.
  - rewrite Hgpus. cbn [res_bind]. by apply (Hdeep _ false).
  - destruct Hcfg as (g & -> & Hb). rewrite Hgpus. cbn [res_bind of_opt]. by apply (Hdeep _ true).
  - destruct (Hvec 1 false) as (phys & l2ps & cnts & M & E & Hr); [done|]. exists phys, l2ps, cnts, M. split; [exact E|done].
  - destruct Hcfg as (g & -> & Hb). by apply (Hvec g true).
  - destruct Hcfg as (Hact & H01 & Hroom & Hfull). rewrite Hgpus. cbn [res_bind].
    assert (∃ g, (if sum_Z act <? ep then Ok 1 else of_opt TypeError groups) = Ok g ∧
      (sum_Z act = len act → balancer_config n (P / ep * len act) g nodes (len act))) as (g & -> & Hb).
    { pose proof (active_count act H01). assert (0 ≤ inactive act) by apply len_nonneg.
      destruct (Z.ltb_spec (sum_Z act) ep); [exists 1; split; [done|lia]|].
      destruct Hfull as (g & -> & Hb); [lia|]. exists g. split; [done|]. intros _. by rewrite Hact, <- HP. }
    cbn [res_bind].
    destruct (elastic_ok (sum_steps tokens) n (P / ep) g nodes true act Hne Hsc Hnl H01) as (phys & l2ps & cnts & M & E & Hl & H3);
      [lia|done|].
    rewrite Hact, <- HP in E. do 4 eexists. split; [exact E|]. split; [congruence|].
    eapply Forall3_layers; [|exact H3]. intros phy l2p cnt Hm. rewrite Hact, Z.mul_comm, <- HP in Hm. by eapply active_layer.
Qed.

(** [init_by_eplb]: all ranks get the same map. *)
Lemma init_by_eplb_ok a c L (logical_count : list (list (list W))) act alg :
  let n := num_logical_experts c in let P := n + ep_num_redundant_experts a in
  loads_shape L n logical_count → (0 < L)%nat → 0 < n → group_ok a P →
  compute_algorithm (eplb_algorithm a) (num_groups c) (nnodes a) = Ok alg →
  algorithm_config n P (ep_size a) (nnodes a) (num_groups c) act alg →
  ∃ phys, ∀ rank, ∃ m, init_by_eplb a (Some c) rank logical_count act = Ok (Some m) ∧
    metadata_ok a n P (Z.of_nat L) m ∧ physical_to_logical_map m = phys.
Proof.
  intros n P Hshape HL Hn Hg Halg Hcfg. destruct (group_sizes _ _ Hg) as (Hnl & _ & HP).
  pose proof Hg as [Hep _ [_ Hmod]].
  destruct (balancers_ok L logical_count n P (ep_size a) (nnodes a) (num_groups c) act alg)
    as (phys & l2ps & cnts & M & E & Hl & HF); [done..|].
  exists phys. intros rank. unfold init_by_eplb, _init_common, py_divides, py_div.
  destruct (Z.eqb_spec (ep_size a) 0); [lia|]. cbn [res_bind].
  fold n. fold P. rewrite Hmod. cbn [Z.eqb py_assert res_bind]. rewrite Halg. cbn [res_bind]. rewrite E. cbn [res_bind].
  destruct (init_raw_ok a n P M rank phys l2ps Hg) as (m & -> & Hm & Hp & _); [by intros ->; cbn in Hl; lia|done|].
  exists m. split; [done|]. unfold len in Hm. by rewrite Hl in Hm.
Qed.
End balancers.

(** ** A given mapping *)

Definition positions (phy : list Z) (e : Z) : list Z :=
  (List.filter (λ p : Z * Z, p.2 =? e) (zip (py_range 0 (len phy)) phy)).*1.

Lemma elem_of_positions phy e p : p ∈ positions phy e ↔ zat phy p = Some e.
Proof.
  unfold positions. rewrite list_elem_of_fmap. split.
  - intros ([q x] & -> & Hq). apply list_elem_of_In, filter_In in Hq as [Hq Hx%Z.eqb_eq]. cbn in *. subst x.
    apply list_elem_of_In, elem_zat in Hq as [i Hi]. apply zat_zip in Hi as [[_ ->]%zat_range0 Hi]. done.
  - intros Hp. exists (p, e). split; [done|]. apply list_elem_of_In, filter_In. cbn. split; [|apply Z.eqb_refl].
    apply list_elem_of_In, (zat_elem _ p), zat_zip. split; [|done]. apply zat_range0. split; [|done].
    by apply zat_Some_bound in Hp.
Qed.

Lemma NoDup_filter_fst {A B} (f : A * B → bool) (l : list (A * B)) : NoDup l.*1 → NoDup (List.filter f l).*1.
Proof.
  induction l as [|x l IH]; [done|]. cbn. intros [Hx Hl]%NoDup_cons. destruct (f x); [|by apply IH].
  cbn. constructor; [|by apply IH]. intros (y & E & Hy)%list_elem_of_fmap. apply Hx, list_elem_of_fmap.
  apply list_elem_of_In, filter_In in Hy as [Hy _]. exists y. split; [done|]. by apply list_elem_of_In.
Qed.

Lemma positions_places phy e : e ∈ phy → places_of phy e (positions phy e).
Proof.
  intros He. split.
  - intros E. apply elem_zat in He as [p Hp]. apply elem_of_positions in Hp. rewrite E in Hp. by apply not_elem_of_nil in Hp.
  - apply NoDup_filter_fst. rewrite fst_zip; [apply NoDup_py_range|]. rewrite length_py_range. unfold len. lia.
  - apply Forall_forall. intros p. apply elem_of_positions.
Qed.

Lemma collect_physical_ok n phy : 0 ≤ n → Forall (λ e, 0 ≤ e < n) phy →
  collect_physical n phy = Ok (positions phy <$> py_range 0 n).
Proof.
  intros Hn Hphy. unfold collect_physical.
  set (upto := λ (dn : list (Z * Z)) e, (List.filter (λ p : Z * Z, p.2 =? e) dn).*1).
  destruct (fold_res_inv (λ rows (p : Z * Z), let! row := py_index rows p.2 in py_set_index rows p.2 (row ++ [p.1]))
    (λ dn rows, rows = upto dn <$> py_range 0 n) (zip (py_range 0 (len phy)) phy) (replicate (Z.to_nat n) [])) as (out & E & Hout).
  - apply list_eq_zat. intros i. rewrite zat_fmap. destruct (decide (0 ≤ i < n)) as [Hi|Hi].
    + rewrite zat_replicate by lia. by rewrite (proj2 (zat_range0 n i i)).
    + destruct (zat (replicate (Z.to_nat n) []) i) eqn:E1; [apply zat_Some_bound in E1; rewrite len_replicate in E1; lia|].
      destruct (zat (py_range 0 n) i) eqn:E2; [by apply zat_range0 in E2 as [? _]|done].
  - intros dn [p e] rest rows Hsplit ->. cbn [fst snd].
    assert (He : 0 ≤ e < n).
    { rewrite Forall_forall in Hphy. apply Hphy. assert (Hin : (p, e) ∈ zip (py_range 0 (len phy)) phy) by (rewrite Hsplit; set_solver).
      by apply elem_of_zip_r in Hin. }
    assert (Hrow : zat (upto dn <$> py_range 0 n) e = Some (upto dn e)).
    { rewrite zat_fmap, (proj2 (zat_range0 n e e)) by done. done. }
    rewrite (zat_py_index _ _ _ Hrow). cbn [res_bind].
    assert (Hlen : len (upto dn <$> py_range 0 n) = n) by (rewrite len_fmap, len_py_range; lia).
    rewrite py_set_index_ok by (rewrite Hlen; lia).
    eexists. split; [done|]. apply list_eq_zat. intros i. rewrite zat_insert by (rewrite Hlen; lia). rewrite !zat_fmap.
    destruct (zat (py_range 0 n) i) as [x|] eqn:Ei.
    + apply zat_range0 in Ei as [_ ->]. cbn. unfold upto. rewrite List.filter_app, fmap_app. cbn.
      destruct (Z.eqb_spec e i) as [->|]; [done|]. cbn. by rewrite app_nil_r.
    + cbn. destruct (Z.eqb_spec e i) as [->|]; [|done]. by rewrite (proj2 (zat_range0 n i i)) in Ei.
  - rewrite E. by rewrite Hout.
Qed.

Definition rows_ok (n : Z) (phy : list Z) (rows : list (list Z)) : Prop :=
  len rows = n ∧ ∀ e row, zat rows e = Some row → places_of phy e row.

Lemma use_nearest_ok a P rank phy e row : group_ok a P → places_of phy e row →
  ∃ row', use_nearest a P (ep_size a) rank row = Ok row' ∧ places_of phy e row'.
Proof.
  intros Hg Hp. destruct (group_sizes _ _ Hg) as (Hnl & Hgpn & _). destruct Hg as [Hep [Hno _] _].
  unfold use_nearest, py_div. destruct (Z.eqb_spec (nnodes a) 0); [lia|]. destruct (Z.eqb_spec (ep_size a) 0); [lia|].
  cbn [res_bind]. destruct (nearest_spec row (P / ep_size a) (ep_size a / nnodes a) rank Hnl Hgpn) as (x & -> & Hx).
  cbn [res_bind]. destruct (far _ _ _ _).
  - subst x. exists row. done.
  - destruct Hx as [Hx _]. pose proof (places_nonneg _ _ _ Hp) as Hpos. rewrite Forall_forall in Hpos.
    specialize (Hpos x Hx). destruct (Z.eqb_spec x (-1)); [lia|]. exists [x]. split; [done|].
    destruct Hp as [_ _ Hh]. rewrite Forall_forall in Hh.
    split; [done|apply NoDup_singleton|]. apply Forall_singleton. by apply Hh.
Qed.

Lemma mapM_rows (f : list Z → res (list Z)) n phy rows : rows_ok n phy rows →
  (∀ e row, places_of phy e row → ∃ row', f row = Ok row' ∧ places_of phy e row') →
  ∃ rows', mapM_res f rows = Ok rows' ∧ rows_ok n phy rows'.
Proof.
  intros [Hl Hr] Hf. destruct (mapM_res_exists f (λ row row', ∀ e, places_of phy e row → places_of phy e row') rows)
    as (rows' & E & HF).
  - apply Forall_forall. intros row (e & He)%elem_zat. destruct (Hf e row (Hr e row He)) as (row' & E & Hp).
    exists row'. split; [done|]. intros e' He'. destruct (Hf e' row He') as (row'' & E' & Hp'). congruence.
  - exists rows'. split; [done|]. pose proof (Forall2_length _ _ _ HF). split; [unfold len in *; lia|].
    intros e row' Hrow'. pose proof (zat_Some_bound _ _ _ Hrow'). destruct (zat_in rows e) as [row Hrow]; [unfold len in *; lia|].
    specialize (Hr e row Hrow). unfold zat in *. destruct (e <? 0); [done|].
    by apply (Forall2_lookup_lr _ _ _ _ _ _ HF Hrow Hrow').
Qed.

Lemma pad_nested_ok n P phys l2ps : 0 < n → phys ≠ [] →
  Forall (λ phy, len phy = P ∧ ∀ e, e ∈ phy → 0 ≤ e < n) phys → Forall2 (rows_ok n) phys l2ps →
  ∃ M out, _pad_nested_array l2ps (-1) = Ok out ∧ Forall2 (layer_ok n P M) phys out.
Proof.
  intros Hn Hne Hphys HF. unfold _pad_nested_array. destruct (len <$> concat l2ps) as [|x l] eqn:E.
  { exfalso. destruct HF as [|phy rows phys l2ps [Hl _] _]; [done|]. destruct rows; [unfold len in Hl; cbn in Hl; lia|]. done. }
  destruct (fold_max_ge l x) as [Hx Hl]. set (M := fold_left Z.max l x) in *. exists M. eexists. split; [done|].
  apply Forall2_fmap_r.
  apply Forall2_same_length_lookup. split; [by eapply Forall2_length|].
  intros i phy rows Hphy Hrows. pose proof (Forall2_lookup_lr _ _ _ _ _ _ HF Hphy Hrows) as [Hlr Hr].
  rewrite Forall_forall in Hphys. destruct (Hphys phy) as [Hp1 Hp2]; [by apply list_elem_of_lookup_2 in Hphy|].
  split; [done..|by rewrite len_fmap|]. intros e row'. rewrite zat_fmap. destruct (zat rows e) as [row|] eqn:Erow; [|done].
  intros [= <-]. exists row. split_and!; [done| |by apply Hr].
  assert (Hin : len row ∈ x :: l).
  { rewrite <- E. apply list_elem_of_fmap_2, list_elem_of_In, in_concat. exists rows.
    split; apply list_elem_of_In; [by apply list_elem_of_lookup_2 in Hrows|by apply zat_elem in Erow]. }
  apply elem_of_cons in Hin as [->|Hin]; [done|]. rewrite Forall_forall in Hl. by apply Hl.
Qed.

(** Every expert has a place in every layer. *)
Definition mapping_ok (n P : Z) (phys : list (list Z)) : Prop :=
  phys ≠ [] ∧ Forall (λ phy, len phy = P ∧ (∀ e, e ∈ phy → 0 ≤ e < n) ∧ ∀ e, 0 ≤ e < n → e ∈ phy) phys.

Lemma physical_map_ok a n P phys rank : 0 < n → group_ok a P → mapping_ok n P phys →
  ∃ M l2ps, _compute_logical_to_all_physical_map a phys n (ep_size a) rank = Ok l2ps ∧ Forall2 (layer_ok n P M) phys l2ps.
Proof.
  intros Hn Hg [Hne Hphys]. unfold _compute_logical_to_all_physical_map.
  assert (Hcols : ncols phys = P) by (destruct phys; [done|]; by apply Forall_cons in Hphys as [[? _] _]).
  rewrite Hcols. rewrite Forall_forall in Hphys.
  destruct (mapM_res_exists (collect_physical n) (rows_ok n) phys) as (l2ps & -> & HF).
  { apply Forall_forall. intros phy Hphy. destruct (Hphys phy Hphy) as (_ & H1 & H2).
    eexists. split; [apply collect_physical_ok; [lia|by apply Forall_forall]|].
    split; [rewrite len_fmap, len_py_range; lia|]. intros e row. rewrite zat_fmap.
    destruct (zat (py_range 0 n) e) as [x|] eqn:E; [|done]. apply zat_range0 in E as [He ->]. intros [= <-].
    apply positions_places. by apply H2. }
  cbn [res_bind].
  assert (∃ l2ps', match rank with
    | None => Ok l2ps | Some r => mapM_res (mapM_res (use_nearest a P (ep_size a) r)) l2ps end = Ok l2ps' ∧
    Forall2 (rows_ok n) phys l2ps') as (l2ps' & -> & HF').
  { destruct rank as [r|]; [|by exists l2ps]. clear -HF Hg.
    induction HF as [|phy rows phys l2ps Hr _ (l2ps' & E & HF)]; [by exists []|].
    destruct (mapM_rows (use_nearest a P (ep_size a) r) n phy rows Hr) as (rows' & E' & Hr').
    { intros e row. by apply use_nearest_ok. }
    exists (rows' :: l2ps'). cbn [mapM_res]. rewrite E'. cbn [res_bind]. rewrite E. split; [done|by constructor]. }
  cbn [res_bind]. destruct (pad_nested_ok n P phys l2ps' Hn Hne) as (M & out & E & Hout); [|done|by exists M, out].
  apply Forall_forall. intros phy Hphy. by destruct (Hphys phy Hphy) as (? & ? & _).
Qed.

Lemma init_by_mapping_ok a c rank phys moe_rank :
  let n := num_logical_experts c in let P := n + ep_num_redundant_experts a in
  0 < n → group_ok a P → mapping_ok n P phys →
  ∃ m, init_by_mapping a (Some c) rank phys moe_rank = Ok (Some m) ∧ metadata_ok a n P (len phys) m ∧
    physical_to_logical_map m = phys.
Proof.
  intros n P Hn Hg Hphys. pose proof Hg as [Hep _ [_ Hmod]].
  unfold init_by_mapping, _init_common, py_divides. destruct (Z.eqb_spec (ep_size a) 0); [lia|]. cbn [res_bind].
  fold n. fold P. rewrite Hmod. cbn [Z.eqb py_assert res_bind].
  destruct (physical_map_ok a n P phys moe_rank Hn Hg Hphys) as (M & l2ps & -> & HF). cbn [res_bind].
  destruct (init_raw_ok a n P M rank phys l2ps Hg) as (m & -> & Hm & Hp & _); [by destruct Hphys|done|].
  by exists m.
Qed.

(** Place [p] of a trivial placement holds expert [p mod n]. *)
Lemma init_trivial_ok a c rank moe_rank :
  let n := num_logical_experts c in let P := n + ep_num_redundant_experts a in
  0 < n ≤ P → 0 < num_layers c → group_ok a P →
  ∃ m, init_trivial a (Some c) rank moe_rank = Ok (Some m) ∧ metadata_ok a n P (num_layers c) m ∧
    physical_to_logical_map m = replicate (Z.to_nat (num_layers c)) ((λ p, p mod n) <$> py_range 0 P).
Proof.
  intros n P Hn HL Hg. pose proof Hg as [Hep _ [_ Hmod]].
  unfold init_trivial, _init_common, py_divides. destruct (Z.eqb_spec (ep_size a) 0); [lia|]. cbn [res_bind].
  fold n. fold P. rewrite Hmod. cbn [Z.eqb py_assert res_bind].
  destruct (Z.eqb_spec n 0); [lia|]. cbn [guard_raise res_bind].
  set (phy := (λ p, p mod n) <$> py_range 0 P).
  destruct (init_by_mapping_ok a c rank (replicate (Z.to_nat (num_layers c)) phy) (Some moe_rank)) as (m & E & Hm & Hp); [lia|done| |].
  - split; [by destruct (Z.to_nat (num_layers c)) eqn:E; [lia|]|]. apply Forall_replicate. unfold phy. split_and!.
    + rewrite len_fmap, len_py_range; unfold P; lia.
    + intros e (p & -> & _)%list_elem_of_fmap. apply Z.mod_pos_bound. fold n. lia.
    + intros e He. apply list_elem_of_fmap. exists e. split; [by rewrite Z.mod_small|]. apply elem_of_py_range. fold n P in He |- *. lia.
  - exists m. split; [done|]. rewrite len_replicate, Z2Nat.id in Hm by lia. done.
Qed.
End construction.
