(* ===== verification/ExpertRecorder.v ===== *)
(** * Counting the tokens of every expert ([eplb/expert_distribution.py])

    During a forward pass a gatherer counts the tokens sent to every place; at its
    end the counts go into a buffer of passes; a dump turns counts per place into
    counts per logical expert with the map of that moment, and sums over the ranks.

    Modelled are the modes [stat] and [stat_approx].  Recording every token
    ([per_token], [per_pass]), files and the utilisation metrics are left out.
    Tensors of counts are [int32]. *)

From S2P Require Import Prelude Tensor ExpertLoad ExpertLocation.
From S2P Require KVAllocator.

Notation to_int32 := KVAllocator.to_int32.

Definition zeros (r c : Z) : list (list Z) := replicate (Z.to_nat r) (replicate (Z.to_nat c) 0).

(** [l.scatter_add_(-1, idx, src)] of one row: [l[idx[k]] += src[k]]. *)
Fixpoint scatter_add (l idx src : list Z) : res (list Z) :=
  match idx, src with
  | [], _ => Ok l
  | i :: idx', x :: src' =>
      if (i <? 0) || (len l <=? i) then Err RuntimeError
      else scatter_add (alter (λ y, to_int32 (y + x)) (Z.to_nat i) l) idx' src'
  | _ :: _, [] => Err RuntimeError
  end.

(** ** Gatherers of one pass *)

(** The sizes a gatherer reads from the metadata, and its rank. *)
Record gatherer_config := {
  g_num_layers : Z;
  g_num_physical_experts : Z;
  g_num_local_physical_experts : Z;
  g_rank : Z;
}.

Inductive gatherer :=
  | _SelectExpertsSinglePassGatherer (data : list (list Z))
  | _DeepepLowLatencySinglePassGatherer (data : list (list Z))
  | _DeepepNormalSinglePassGatherer (objects_of_layer : list (Z * list Z)).

(** The arguments that choose a gatherer: [stat_approx] or [stat], whether a backend
    for the exchange of tokens is used, and its mode. *)
Definition init_gatherer (c : gatherer_config) (stat_approx a2a_backend : bool) (deepep_mode : string) : res gatherer :=
  let select := _SelectExpertsSinglePassGatherer (zeros (g_num_layers c) (g_num_physical_experts c)) in
  if stat_approx then
    if a2a_backend && String.eqb deepep_mode "normal" then Ok (_DeepepNormalSinglePassGatherer [])
    else Err NotImplementedError
  else if a2a_backend then
    if String.eqb deepep_mode "normal" then Ok select
    else if String.eqb deepep_mode "low_latency" then
      Ok (_DeepepLowLatencySinglePassGatherer (zeros (g_num_layers c) (g_num_local_physical_experts c)))
    else Err NotImplementedError
  else Ok select.

Inductive hook :=
  | on_select_experts (topk_ids : list Z)
  | on_deepep_dispatch_normal (local_physical_count_of_layer : list Z)
  | on_deepep_dispatch_low_latency (local_physical_count_of_layer : list Z).

(** [topk_ids] is flattened; [-1] marks the padding. *)
Definition count_ids (row topk_ids : list Z) : res (list Z) :=
  scatter_add row ((λ x, if x =? -1 then 0 else x) <$> topk_ids) ((λ x, if x =? -1 then 0 else 1) <$> topk_ids).

Definition _list_sum (a b : list Z) : res (list Z) :=
  if negb (len a =? len b) then Err ValueError else Ok (zip_with Z.add a b).

(** [row += l] on [int32], where [l] may have one element for all. *)
Definition add_in_place (row l : list Z) : res (list Z) :=
  let l := match l with [x] => replicate (length row) x | _ => l end in
  if negb (len row =? len l) then Err RuntimeError else Ok (zip_with (λ x y, to_int32 (x + y)) row l).

(** The call of a hook, with the layer of the region it is made in; a gatherer
    ignores the hooks that are not its own. *)
Definition on_hook (c : gatherer_config) (g : gatherer) (layer_idx : option Z) (h : hook) : res gatherer :=
  match g, h with
  | _SelectExpertsSinglePassGatherer data, on_select_experts topk_ids =>
      let! layer := of_opt RuntimeError layer_idx in
      let! row := py_index data layer in
      let! row := count_ids row topk_ids in
      let! data := py_set_index data layer row in
      Ok (_SelectExpertsSinglePassGatherer data)
  | _DeepepLowLatencySinglePassGatherer data, on_deepep_dispatch_low_latency l =>
      match layer_idx with
      | None => let! data := mapM_res (λ row, add_in_place row l) data in Ok (_DeepepLowLatencySinglePassGatherer data)
      | Some layer =>
          let! row := py_index data layer in
          let! row := add_in_place row l in
          let! data := py_set_index data layer row in
          Ok (_DeepepLowLatencySinglePassGatherer data)
      end
  | _DeepepNormalSinglePassGatherer objects, on_deepep_dispatch_normal l =>
      let! layer := of_opt TypeError layer_idx in
      let! _ := py_assert ((0 <=? layer) && (layer <? g_num_layers c)) in
      match dict_get layer objects with
      | Some old => let! l := _list_sum old l in Ok (_DeepepNormalSinglePassGatherer (dict_set layer l objects))
      | None => Ok (_DeepepNormalSinglePassGatherer (dict_set layer l objects))
      end
  | _, _ => Ok g
  end.

Definition reset_gatherer (g : gatherer) : gatherer :=
  let zero (data : list (list Z)) := (λ row : list Z, (λ _, 0) <$> row) <$> data in
  match g with
  | _SelectExpertsSinglePassGatherer data => _SelectExpertsSinglePassGatherer (zero data)
  | _DeepepLowLatencySinglePassGatherer data => _DeepepLowLatencySinglePassGatherer (zero data)
  | _DeepepNormalSinglePassGatherer _ => _DeepepNormalSinglePassGatherer []
  end.

(** The counts of the places of one rank among those of all. *)
Definition _convert_local_to_global_physical_count (c : gatherer_config) (local_physical_count : list (list Z))
    : res (list (list Z)) :=
  let nl := g_num_local_physical_experts c in
  mapM_res (λ l, py_set_slice (replicate (Z.to_nat (g_num_physical_experts c)) 0)
    (nl * g_rank c) (nl * (g_rank c + 1)) l) local_physical_count.

(** An empty list counts as missing; the rows of a tensor have one length. *)
Definition _collect_objects (c : gatherer_config) (objects : list (Z * list Z)) (pad_len : Z) : res (list (list Z)) :=
  let data := (λ layer, match dict_get layer objects with
    | Some (_ :: _ as l) => l
    | _ => replicate (Z.to_nat pad_len) 0
    end) <$> py_range 0 (g_num_layers c) in
  let! _ := guard_raise (negb (forallb (λ l : list Z, len l =? ncols data) data)) ValueError in
  Ok data.

Definition collect (c : gatherer_config) (g : gatherer) : res (list (list Z)) :=
  match g with
  | _SelectExpertsSinglePassGatherer data => Ok data
  | _DeepepLowLatencySinglePassGatherer data => _convert_local_to_global_physical_count c data
  | _DeepepNormalSinglePassGatherer objects =>
      let! data := _collect_objects c objects (g_num_local_physical_experts c) in
      _convert_local_to_global_physical_count c data
  end.

(** ** The buffer of passes *)

Inductive buffer :=
  | _CircularBuffer (b : list (list (list Z))) (curr_index : Z)
  | _InfiniteBuffer (b : list (list (list Z))) (size : Z).

Definition init_buffer (item : list (list Z)) (buffer_size : Z) : buffer :=
  if buffer_size <? 0 then _InfiniteBuffer (replicate 128 item) 0
  else _CircularBuffer (replicate (Z.to_nat buffer_size) item) 0.

Definition buffer_append (bf : buffer) (value : list (list Z)) : res buffer :=
  let value := (λ row : list Z, to_int32 <$> row) <$> value in
  match bf with
  | _CircularBuffer b curr =>
      let! b := py_set_index b curr value in
      Ok (_CircularBuffer b ((curr + 1) mod len b))
  | _InfiniteBuffer b size =>
      let b := if size =? len b then b ++ ((λ m : list (list Z), (λ row : list Z, (λ _, 0) <$> row) <$> m) <$> b) else b in
      let! b := py_set_index b size value in
      Ok (_InfiniteBuffer b (size + 1))
  end.

Definition get_all (bf : buffer) : list (list (list Z)) :=
  match bf with
  | _CircularBuffer b _ => b
  | _InfiniteBuffer b size => take (Z.to_nat size) b
  end.

Definition reset_buffer (bf : buffer) : buffer :=
  let zero (b : list (list (list Z))) := (λ m : list (list Z), (λ row : list Z, (λ _, 0) <$> row) <$> m) <$> b in
  match bf with
  | _CircularBuffer b curr => _CircularBuffer (zero b) curr
  | _InfiniteBuffer b _ => _InfiniteBuffer (zero b) 0
  end.

(** ** The recorder of a rank *)

Record recorder := {
  config : gatherer_config;
  recording : bool;
  disable_all : bool;
  current_forward_pass_id : option Z;
  current_layer_idx : option Z;
  pass_gatherer : gatherer;
  accumulated : buffer;
}.

Definition with_recording (r : recorder) (b : bool) : recorder :=
  {| config := config r; recording := b; disable_all := disable_all r;
     current_forward_pass_id := current_forward_pass_id r; current_layer_idx := current_layer_idx r;
     pass_gatherer := pass_gatherer r; accumulated := accumulated r |}.
Definition with_disable_all (r : recorder) (b : bool) : recorder :=
  {| config := config r; recording := recording r; disable_all := b;
     current_forward_pass_id := current_forward_pass_id r; current_layer_idx := current_layer_idx r;
     pass_gatherer := pass_gatherer r; accumulated := accumulated r |}.
Definition with_pass_id (r : recorder) (i : option Z) : recorder :=
  {| config := config r; recording := recording r; disable_all := disable_all r;
     current_forward_pass_id := i; current_layer_idx := current_layer_idx r;
     pass_gatherer := pass_gatherer r; accumulated := accumulated r |}.
Definition with_layer_idx (r : recorder) (i : option Z) : recorder :=
  {| config := config r; recording := recording r; disable_all := disable_all r;
     current_forward_pass_id := current_forward_pass_id r; current_layer_idx := i;
     pass_gatherer := pass_gatherer r; accumulated := accumulated r |}.
Definition with_gathered (r : recorder) (g : gatherer) (b : buffer) : recorder :=
  {| config := config r; recording := recording r; disable_all := disable_all r;
     current_forward_pass_id := current_forward_pass_id r; current_layer_idx := current_layer_idx r;
     pass_gatherer := g; accumulated := b |}.

(** [with] regions around a body; [Withable] does not nest. *)
Definition with_current_layer (layer_idx : Z) (body : recorder → res recorder) (r : recorder) : res recorder :=
  let! _ := py_assert (bool_decide (current_layer_idx r = None)) in
  let! r := body (with_layer_idx r (Some layer_idx)) in
  let! _ := py_assert (bool_decide (current_layer_idx r = Some layer_idx)) in
  Ok (with_layer_idx r None).

Definition disable_this_region (body : recorder → res recorder) (r : recorder) : res recorder :=
  let previous_disable_all := disable_all r in
  let! r := body (with_disable_all r true) in
  Ok (with_disable_all r previous_disable_all).

Definition _on_forward_pass_start (r : recorder) : recorder :=
  if recording r then with_gathered r (reset_gatherer (pass_gatherer r)) (accumulated r) else r.

Definition _on_forward_pass_end (r : recorder) : res recorder :=
  if recording r then
    let! global_physical_count := collect (config r) (pass_gatherer r) in
    let! b := buffer_append (accumulated r) global_physical_count in
    Ok (with_gathered r (pass_gatherer r) b)
  else Ok r.

Definition with_forward_pass (forward_pass_id : Z) (body : recorder → res recorder) (r : recorder) : res recorder :=
  let! _ := py_assert (bool_decide (current_forward_pass_id r = None)) in
  let r := _on_forward_pass_start (with_pass_id r (Some forward_pass_id)) in
  let! r := body r in
  let! r := _on_forward_pass_end r in
  let! _ := py_assert (bool_decide (current_forward_pass_id r = Some forward_pass_id)) in
  Ok (with_pass_id r None).

(** [capturing] tells whether the device records a graph. *)
Definition _on_hook (capturing : bool) (r : recorder) (h : hook) : res recorder :=
  if disable_all r then Ok r
  else if negb (recording r || capturing) then Ok r
  else let! g := on_hook (config r) (pass_gatherer r) (current_layer_idx r) h in
       Ok (with_gathered r g (accumulated r)).

Definition _reset (r : recorder) : res recorder :=
  let! _ := py_assert (bool_decide (current_layer_idx r = None)) in
  Ok (with_gathered r (reset_gatherer (pass_gatherer r)) (reset_buffer (accumulated r))).

Definition start_record (r : recorder) : res recorder :=
  let! r := _reset r in Ok (with_recording r true).

Definition stop_record (r : recorder) : recorder := with_recording r false.

Definition init_recorder (c : gatherer_config) (stat_approx a2a_backend : bool) (deepep_mode : string)
    (buffer_size : Z) : res recorder :=
  let! g := init_gatherer c stat_approx a2a_backend deepep_mode in
  Ok {| config := c; recording := false; disable_all := false; current_forward_pass_id := None;
        current_layer_idx := None; pass_gatherer := g;
        accumulated := init_buffer (zeros (g_num_layers c) (g_num_physical_experts c)) buffer_size |}.

(** ** Dumping, on all ranks *)

(** The counts per place of every step, as counts per expert. *)
Definition _convert_global_physical_count_to_logical_count (global_physical_count : list (list (list Z)))
    (num_logical_experts : Z) (physical_to_logical_map : list (list Z)) : res (list (list (list Z))) :=
  mapM_res (λ step : list (list Z),
    map2_res (scatter_add (replicate (Z.to_nat num_logical_experts) 0)) physical_to_logical_map step)
    global_physical_count.

(** [torch.distributed.all_reduce] with [SUM]. *)
Definition add_tensors (a b : list (list (list Z))) : list (list (list Z)) :=
  zip_with (zip_with (zip_with (λ x y, to_int32 (x + y)))) a b.

Definition all_reduce (ts : list (list (list (list Z)))) : list (list (list Z)) :=
  match ts with [] => [] | t :: ts => fold_left add_tensors ts t end.

Definition num_logical_experts_of (m : ExpertLocationMetadata) : Z :=
  match logical_to_all_physical_map m with [] => 0 | rows :: _ => len rows end.

Definition local_dump (m : ExpertLocationMetadata) (r : recorder) : res (list (list (list Z))) :=
  _convert_global_physical_count_to_logical_count (get_all (accumulated r)) (num_logical_experts_of m)
    (physical_to_logical_map m).

(** [dump_record("object")] of every rank: the counts all of them get, and the
    recorders after the reset. *)
Definition dump_record (ms : list ExpertLocationMetadata) (rs : list recorder) : res (list (list (list Z)) * list recorder) :=
  let! locals := map2_res local_dump ms rs in
  let! rs := mapM_res _reset rs in
  Ok (all_reduce locals, rs).
