(* ===== verification/ExpertRecorderSpec.v ===== *)
(** * What the recorder counts

    A pass appends, for every layer and place, the number of tokens sent there; a
    dump turns this into the number of tokens that asked for each expert, all modulo
    the width of the tensors, when the map of the dump is the one of the pass. *)

From S2P Require Import Prelude Tensor ExpertLoad ExpertPacking ExpertUpdate ExpertUpdateChunks.
From S2P Require Import ExpertUpdatePlan ExpertElastic ExpertVec ExpertLocation ExpertLocationSpec ExpertRecorder.

(** ** Addition on [int32] *)

Lemma int32_add_l x y : to_int32 (to_int32 x + y) = to_int32 (x + y).
Proof.
  unfold KVAllocator.to_int32. f_equal.
  replace ((x + 2 ^ 31) mod 2 ^ 32 - 2 ^ 31 + y + 2 ^ 31) with ((x + 2 ^ 31) mod 2 ^ 32 + y) by lia.
  rewrite Zplus_mod_idemp_l. f_equal. lia.
Qed.

Lemma int32_add_r x y : to_int32 (x + to_int32 y) = to_int32 (x + y).
Proof. rewrite Z.add_comm, int32_add_l. f_equal. lia. Qed.

Lemma int32_idem x : to_int32 (to_int32 x) = to_int32 x.
Proof. pose proof (int32_add_l x 0) as E. by rewrite !Z.add_0_r in E. Qed.

Lemma int32_0 : to_int32 0 = 0.
Proof. reflexivity. Qed.

(** Elements that fit. *)
Definition fits (l : list Z) : Prop := Forall (λ x, to_int32 x = x) l.

Lemma fits_replicate n : fits (replicate n 0).
Proof. by apply Forall_replicate. Qed.

(** ** [scatter_add] *)

Lemma len_alter {A} (f : A → A) i l : len (alter f i l) = len l.
Proof. unfold len. by rewrite length_alter. Qed.

Lemma zat_alter {A} (f : A → A) (l : list A) i j : 0 ≤ i →
  zat (alter f (Z.to_nat i) l) j = if i =? j then f <$> zat l j else zat l j.
Proof.
  intros Hi. unfold zat. destruct (Z.ltb_spec j 0), (Z.eqb_spec i j) as [->|Hne]; try done.
  - by rewrite list_lookup_alter_eq.
  - rewrite list_lookup_alter_ne by lia. done.
Qed.

(** What is added at [j]. *)
Definition hits (j : Z) (idx src : list Z) : Z := sum_Z (zip_with (λ i x, if i =? j then x else 0) idx src).

Lemma scatter_add_ok idx : ∀ src l, len src = len idx → Forall (λ i, 0 ≤ i < len l) idx → fits l →
  ∃ out, scatter_add l idx src = Ok out ∧ len out = len l ∧ fits out ∧
    ∀ j x, zat l j = Some x → zat out j = Some (to_int32 (x + hits j idx src)).
Proof.
  induction idx as [|i idx IH]; intros src l Hsrc Hidx Hl.
  - exists l. split_and!; [done..|]. intros j x Hx. cbn. rewrite Z.add_0_r. rewrite Hx. f_equal.
    unfold fits in Hl. rewrite Forall_forall in Hl. symmetry. apply Hl. by eapply zat_elem.
  - destruct src as [|y src]; [rewrite len_cons in Hsrc; pose proof (len_nonneg idx); unfold len in *; cbn in Hsrc; lia|].
    apply Forall_cons in Hidx as [Hi Hidx]. rewrite !len_cons in Hsrc. cbn [scatter_add].
    destruct (Z.ltb_spec i 0); [lia|]. destruct (Z.leb_spec (len l) i); [lia|]. cbn [orb].
    destruct (IH src (alter (λ z, to_int32 (z + y)) (Z.to_nat i) l)) as (out & E & Hlo & Hf & Ho); [lia| | |].
    + by rewrite len_alter.
    + apply Forall_forall. intros z (j & Hj)%elem_zat. rewrite zat_alter in Hj by lia. unfold fits in Hl. rewrite Forall_forall in Hl.
      destruct (i =? j).
      * destruct (zat l j) eqn:Ej; [|done]. injection Hj as <-. apply int32_idem.
      * apply Hl. by eapply zat_elem.
    + exists out. rewrite E. split_and!; [done|by rewrite Hlo, len_alter|done|].
      intros j x Hx. unfold hits. cbn [zip_with sum_Z fold_right].
      assert (Hj : zat (alter (λ z, to_int32 (z + y)) (Z.to_nat i) l) j = Some (if i =? j then to_int32 (x + y) else x)).
      { rewrite zat_alter by lia. rewrite Hx. by destruct (i =? j). }
      rewrite (Ho j _ Hj). f_equal. unfold hits, sum_Z. destruct (i =? j); [rewrite int32_add_l|]; f_equal; lia.
Qed.

(** ** One call of the router *)

(** Ids of places, or [-1]. *)
Definition ids_ok (P : Z) (ids : list Z) : Prop := Forall (λ p, p = -1 ∨ 0 ≤ p < P) ids.

Lemma hits_occurrences p ids : 0 ≤ p →
  hits p ((λ x, if x =? -1 then 0 else x) <$> ids) ((λ x, if x =? -1 then 0 else 1) <$> ids) = occurrences p ids.
Proof.
  intros Hp. unfold hits, occurrences. induction ids as [|x ids IH]; [done|].
  rewrite !fmap_cons. cbn [zip_with sum_Z fold_right List.filter].
  change (fold_right Z.add 0 ?l) with (sum_Z l). rewrite IH.
  destruct (Z.eqb_spec x (-1)) as [->|Hx].
  - destruct (Z.eqb_spec p (-1)); [lia|]. destruct (0 =? p); lia.
  - destruct (Z.eqb_spec x p) as [->|Hne]; [rewrite Z.eqb_refl, len_cons; lia|].
    destruct (Z.eqb_spec p x); [congruence|lia].
Qed.

Lemma count_ids_ok P row ids : 0 < P → len row = P → fits row → ids_ok P ids →
  ∃ out, count_ids row ids = Ok out ∧ len out = P ∧ fits out ∧
    ∀ p x, zat row p = Some x → zat out p = Some (to_int32 (x + occurrences p ids)).
Proof.
  intros HP Hl Hf Hids. unfold count_ids.
  destruct (scatter_add_ok ((λ x, if x =? -1 then 0 else x) <$> ids) ((λ x, if x =? -1 then 0 else 1) <$> ids) row)
    as (out & E & Hlo & Hfo & Ho); [by rewrite !len_fmap| |done|].
  - apply Forall_fmap, (Forall_impl _ _ _ Hids). intros x [->|Hx]; cbn; [lia|]. destruct (x =? -1); lia.
  - exists out. split_and!; [done|lia|done|]. intros p x Hx. rewrite (Ho p x Hx), hits_occurrences; [done|].
    apply zat_Some_bound in Hx. lia.
Qed.

(** ** One pass *)

(** The tokens sent to place [p] in layer [l]. *)
Definition routed (calls : list (Z * list Z)) (l p : Z) : Z :=
  sum_Z ((λ c, if c.1 =? l then occurrences p c.2 else 0) <$> calls).

Definition counts (L P : Z) (calls : list (Z * list Z)) : list (list Z) :=
  (λ l, (λ p, to_int32 (routed calls l p)) <$> py_range 0 P) <$> py_range 0 L.

Definition shaped (L P : Z) (m : list (list Z)) : Prop := len m = L ∧ Forall (λ row, len row = P ∧ fits row) m.

Lemma counts_shaped L P calls : 0 ≤ L → 0 ≤ P → shaped L P (counts L P calls).
Proof.
  intros HL HP. unfold counts. split; [rewrite len_fmap, len_py_range; lia|].
  apply Forall_fmap, Forall_forall. intros l _. cbn. split; [rewrite len_fmap, len_py_range; lia|].
  apply Forall_fmap, Forall_forall. intros p _. apply int32_idem.
Qed.

Lemma routed_snoc calls c l p : routed (calls ++ [c]) l p = routed calls l p + if c.1 =? l then occurrences p c.2 else 0.
Proof.
  unfold routed. rewrite fmap_app. generalize ((λ c0 : Z * list Z, if c0.1 =? l then occurrences p c0.2 else 0) <$> calls).
  intros ks. cbn. induction ks as [|k ks IH]; cbn; [lia|]. unfold sum_Z in *. cbn. lia.
Qed.

Lemma zat_counts L P calls l row : zat (counts L P calls) l = Some row ↔
  0 ≤ l < L ∧ row = (λ p, to_int32 (routed calls l p)) <$> py_range 0 P.
Proof.
  unfold counts. rewrite zat_fmap. split.
  - destruct (zat (py_range 0 L) l) as [x|] eqn:E; [|done]. apply zat_range0 in E as [? ->]. by intros [= <-].
  - intros [Hl ->]. by rewrite (proj2 (zat_range0 L l l)).
Qed.

(** One more call. *)
Lemma counts_snoc L P calls l ids : 0 ≤ L → 0 < P → 0 ≤ l < L → ids_ok P ids →
  ∃ row row', py_index (counts L P calls) l = Ok row ∧ count_ids row ids = Ok row' ∧
    py_set_index (counts L P calls) l row' = Ok (counts L P (calls ++ [(l, ids)])).
Proof.
  intros HL HP Hl Hids. destruct (counts_shaped L P calls HL) as [Hlen Hrows]; [lia|].
  destruct (zat_in (counts L P calls) l) as [row Hrow]; [lia|]. exists row.
  rewrite Forall_forall in Hrows. destruct (Hrows row (zat_elem _ _ _ Hrow)) as [Hlr Hfr].
  destruct (count_ids_ok P row ids HP Hlr Hfr Hids) as (row' & E & Hl' & _ & Hr'). exists row'.
  split_and!; [by apply zat_py_index|done|].
  rewrite py_set_index_ok by lia. f_equal. apply list_eq_zat. intros k. rewrite zat_insert by lia.
  destruct (Z.eqb_spec l k) as [<-|Hne].
  - symmetry. apply zat_counts. split; [done|]. apply zat_counts in Hrow as [_ ->]. apply list_eq_zat. intros p.
    rewrite zat_fmap. destruct (zat (py_range 0 P) p) as [q|] eqn:Ep.
    + apply zat_range0 in Ep as [Hp ->]. cbn. rewrite (Hr' p (to_int32 (routed calls l p))).
      * rewrite routed_snoc. cbn [fst snd]. rewrite Z.eqb_refl. by rewrite int32_add_l.
      * by rewrite zat_fmap, (proj2 (zat_range0 P p p)).
    + destruct (zat row' p) eqn:E'; [|done]. apply zat_Some_bound in E'. by rewrite (proj2 (zat_range0 P p p)) in Ep by (split; [lia|done]).
  - destruct (zat (counts L P (calls ++ [(l, ids)])) k) as [row2|] eqn:E2.
    + apply zat_counts in E2 as [Hk ->]. apply zat_counts. split; [done|]. apply list_fmap_ext. intros i p _.
      rewrite routed_snoc. cbn [fst]. destruct (Z.eqb_spec l k); [done|]. by rewrite Z.add_0_r.
    + destruct (zat (counts L P calls) k) as [row3|] eqn:E3; [|done].
      apply zat_Some_bound in E3. rewrite Hlen in E3.
      by rewrite (proj2 (zat_counts L P (calls ++ [(l, ids)]) k _) (conj E3 eq_refl)) in E2.
Qed.

Lemma counts_nil L P : 0 ≤ L → 0 ≤ P → counts L P [] = zeros L P.
Proof.
  intros. unfold counts, zeros, routed. cbn. apply list_eq_zat. intros l. rewrite zat_fmap.
  assert (Hrow : (λ _ : Z, to_int32 0) <$> py_range 0 P = replicate (Z.to_nat P) 0).
  { apply list_eq_zat. intros p. rewrite zat_fmap. destruct (zat (py_range 0 P) p) as [q|] eqn:E.
    - apply zat_range0 in E as [? ->]. cbn. symmetry. apply zat_replicate. lia.
    - destruct (zat (replicate (Z.to_nat P) 0) p) eqn:E2; [|done]. apply zat_Some_bound in E2. rewrite len_replicate in E2.
      by rewrite (proj2 (zat_range0 P p p)) in E by (split; [lia|done]). }
  destruct (zat (py_range 0 L) l) as [q|] eqn:E.
  - apply zat_range0 in E as [? ->]. cbn. rewrite zat_replicate by lia. by f_equal.
  - destruct (zat (replicate (Z.to_nat L) (replicate (Z.to_nat P) 0)) l) eqn:E2; [|done]. apply zat_Some_bound in E2.
    rewrite len_replicate in E2. by rewrite (proj2 (zat_range0 L l l)) in E by (split; [lia|done]).
Qed.

(** ** The buffer *)

Definition zero_rows (m : list (list Z)) : list (list Z) := (λ row : list Z, (λ _, 0) <$> row) <$> m.

Lemma zero_shaped L P m : len m = L → Forall (λ row, len row = P) m → zero_rows m = zeros L P.
Proof.
  intros HL HP. unfold zero_rows, zeros. subst L. unfold len. rewrite Nat2Z.id.
  induction HP as [|row m Hrow _ IH]; [done|]. cbn [length replicate]. rewrite fmap_cons, IH. f_equal.
  clear -Hrow. subst P. unfold len. rewrite Nat2Z.id. induction row as [|x row IH]; [done|]. cbn. by f_equal.
Qed.

Lemma zeros_shaped L P : 0 ≤ L → 0 ≤ P → shaped L P (zeros L P).
Proof. intros. rewrite <- counts_nil by done. by apply counts_shaped. Qed.

Lemma zero_rows_shaped L P m : shaped L P m → shaped L P (zero_rows m).
Proof.
  intros [HL HP]. split; [by unfold zero_rows; rewrite len_fmap|]. unfold zero_rows.
  apply Forall_fmap, (Forall_impl _ _ _ HP). intros row [Hr _]. cbn. split; [by rewrite len_fmap|].
  apply Forall_fmap, Forall_forall. by intros.
Qed.

Lemma fits_rows m : Forall (λ row, fits row) m → (λ row : list Z, to_int32 <$> row) <$> m = m.
Proof.
  induction 1 as [|row m Hr _ IH]; [done|]. rewrite fmap_cons, IH. f_equal. clear -Hr.
  induction Hr as [|x row Hx _ IH]; [done|]. rewrite fmap_cons. by f_equal.
Qed.

(** A buffer made for [B] passes of [L] layers and [P] places. *)
Definition buffer_ok (B L P : Z) (bf : buffer) : Prop :=
  match bf with
  | _CircularBuffer b curr => 0 < B ∧ len b = B ∧ 0 ≤ curr < B ∧ Forall (shaped L P) b
  | _InfiniteBuffer b size => B < 0 ∧ 0 < len b ∧ 0 ≤ size ≤ len b ∧ Forall (shaped L P) b
  end.

(** The passes, the oldest first, and the position of the next one. *)
Definition contents (bf : buffer) : list (list (list Z)) :=
  match bf with
  | _CircularBuffer b curr => drop (Z.to_nat curr) b ++ take (Z.to_nat curr) b
  | _InfiniteBuffer b size => take (Z.to_nat size) b
  end.

Definition cursor (bf : buffer) : Z :=
  match bf with _CircularBuffer _ curr => curr | _InfiniteBuffer _ size => size end.

Definition push {A} (B : Z) (l : list A) (x : A) : list A := if B <? 0 then l ++ [x] else drop 1 l ++ [x].
Definition next_cursor (B c : Z) : Z := if B <? 0 then c + 1 else (c + 1) mod B.
(** The passes in the order of the slots. *)
Definition arrange {A} (B c : Z) (l : list A) : list A :=
  if B <? 0 then l else drop (Z.to_nat (B - c)) l ++ take (Z.to_nat (B - c)) l.

Lemma arrange_perm {A} B c (l : list A) : arrange B c l ≡ₚ l.
Proof.
  unfold arrange. destruct (B <? 0); [done|]. rewrite Permutation_app_comm. by rewrite take_drop.
Qed.

Lemma arrange_fmap {A A'} (f : A → A') B c (l : list A) : arrange B c (f <$> l) = f <$> arrange B c l.
Proof. unfold arrange. destruct (B <? 0); [done|]. by rewrite fmap_app, fmap_drop, fmap_take. Qed.

Lemma get_all_arrange B L P bf : buffer_ok B L P bf → get_all bf = arrange B (cursor bf) (contents bf).
Proof.
  destruct bf as [b curr|b size]; cbn [buffer_ok get_all cursor contents]; unfold arrange.
  - intros (HB & Hl & Hc & _). destruct (Z.ltb_spec B 0); [lia|].
    assert (Hd : length (drop (Z.to_nat curr) b) = Z.to_nat (B - curr)) by (rewrite length_drop; unfold len in Hl; lia).
    rewrite <- Hd, drop_app_length, take_app_length. by rewrite take_drop.
  - intros (HB & _). by destruct (Z.ltb_spec B 0); [|lia].
Qed.

Lemma drop_take_insert {A} (b : list A) i v : (i < length b)%nat →
  drop (S i) (<[i := v]> b) ++ take (S i) (<[i := v]> b) = drop 1 (drop i b ++ take i b) ++ [v].
Proof.
  intros Hi. rewrite drop_insert_lt by lia.
  rewrite (take_S_r _ i v) by (by apply list_lookup_insert_eq).
  rewrite take_insert_ge by lia. rewrite drop_app_le by (rewrite length_drop; lia).
  rewrite drop_drop. rewrite <- app_assoc. f_equal. f_equal. lia.
Qed.

Lemma buffer_append_ok B L P bf v : buffer_ok B L P bf → shaped L P v →
  ∃ bf', buffer_append bf v = Ok bf' ∧ buffer_ok B L P bf' ∧ contents bf' = push B (contents bf) v ∧
    cursor bf' = next_cursor B (cursor bf).
Proof.
  intros Hb Hv. unfold buffer_append. rewrite fits_rows by (apply (Forall_impl _ _ _ (proj2 Hv)); by intros row []).
  destruct bf as [b curr|b size]; cbn [buffer_ok contents cursor] in *; unfold push, next_cursor.
  - destruct Hb as (HB & Hl & Hc & Hs). rewrite py_set_index_ok by lia. cbn [res_bind]. eexists. split; [done|].
    destruct (Z.ltb_spec B 0); [lia|]. cbn [buffer_ok contents cursor]. rewrite len_insert, Hl.
    pose proof (Z.mod_pos_bound (curr + 1) B HB) as Hmod.
    split; [split; [done|split; [done|split; [done|by apply Forall_insert]]]|]. split; [|done].
    rewrite <- drop_take_insert by (unfold len in Hl; lia). destruct (decide (curr + 1 = B)) as [Hlast|].
    + rewrite Hlast, Z.mod_same by lia. change (Z.to_nat 0) with O. rewrite take_0, app_nil_r, drop_0.
      rewrite drop_ge by (rewrite length_insert; unfold len in Hl; lia).
      rewrite take_ge by (rewrite length_insert; unfold len in Hl; lia). done.
    + rewrite Z.mod_small by lia. by replace (Z.to_nat (curr + 1)) with (S (Z.to_nat curr)) by lia.
  - destruct Hb as (HB & Hne & Hsz & Hs). destruct (Z.ltb_spec B 0); [|lia].
    set (b2 := if size =? len b then _ else b).
    assert (Hb2 : size < len b2 ∧ Forall (shaped L P) b2 ∧ take (Z.to_nat size) b2 = take (Z.to_nat size) b ∧ 0 < len b2).
    { unfold b2. destruct (Z.eqb_spec size (len b)) as [->|].
      - rewrite len_app, len_fmap. split_and!; [lia| | |lia].
        + apply Forall_app. split; [done|]. apply Forall_fmap, (Forall_impl _ _ _ Hs). intros m. apply zero_rows_shaped.
        + rewrite take_app_le by (unfold len; lia). done.
      - split_and!; [lia|done|done|done]. }
    destruct Hb2 as (H1 & H2 & H3 & H4). rewrite py_set_index_ok by lia. cbn [res_bind]. eexists. split; [done|].
    cbn [buffer_ok contents cursor]. rewrite len_insert.
    split; [split; [done|split; [done|split; [lia|by apply Forall_insert]]]|]. split; [|done].
    replace (Z.to_nat (size + 1)) with (S (Z.to_nat size)) by lia.
    rewrite (take_S_r _ (Z.to_nat size) v) by (apply list_lookup_insert_eq; unfold len in H1; lia).
    rewrite take_insert_ge by lia. by rewrite H3.
Qed.

Lemma reset_buffer_ok B L P bf : buffer_ok B L P bf → buffer_ok B L P (reset_buffer bf) ∧
  cursor (reset_buffer bf) = if B <? 0 then 0 else cursor bf.
Proof.
  assert (Hz : ∀ b, Forall (shaped L P) b → Forall (shaped L P) (zero_rows <$> b)).
  { intros b Hb. apply Forall_fmap, (Forall_impl _ _ _ Hb). intros m. apply zero_rows_shaped. }
  destruct bf as [b curr|b size]; cbn [buffer_ok reset_buffer cursor].
  - intros (HB & Hl & Hc & Hs). destruct (Z.ltb_spec B 0); [lia|]. split; [|done].
    split_and!; [done|by rewrite len_fmap|lia|lia|by apply Hz].
  - intros (HB & Hne & Hsz & Hs). destruct (Z.ltb_spec B 0); [|lia]. split; [|done].
    split_and!; [done|by rewrite len_fmap|lia|rewrite len_fmap; lia|by apply Hz].
Qed.

Lemma init_buffer_ok B L P : B ≠ 0 → 0 ≤ L → 0 ≤ P → buffer_ok B L P (init_buffer (zeros L P) B) ∧ cursor (init_buffer (zeros L P) B) = 0.
Proof.
  intros HB HL HP. unfold init_buffer. destruct (Z.ltb_spec B 0); cbn [buffer_ok cursor].
  - rewrite len_replicate. split_and!; [lia..| |done]. apply Forall_replicate. by apply zeros_shaped.
  - rewrite len_replicate. split_and!; [lia..| |done]. apply Forall_replicate. by apply zeros_shaped.
Qed.

(** ** The recorder *)

Record recorder_ok (B L P : Z) (r : recorder) : Prop := {
  ro_recording : recording r = true;
  ro_enabled : disable_all r = false;
  ro_pass : current_forward_pass_id r = None;
  ro_layer : current_layer_idx r = None;
  ro_gatherer : ∃ data, pass_gatherer r = _SelectExpertsSinglePassGatherer data ∧
    len data = L ∧ Forall (λ row, len row = P) data;
  ro_buffer : buffer_ok B L P (accumulated r);
}.

Lemma shaped_rows L P m : shaped L P m → Forall (λ row, len row = P) m.
Proof. intros [_ H]. apply (Forall_impl _ _ _ H). by intros row []. Qed.

Lemma record_call_ok L P calls l ids r : 0 ≤ L → 0 < P → 0 ≤ l < L → ids_ok P ids →
  recording r = true → disable_all r = false → current_layer_idx r = None →
  pass_gatherer r = _SelectExpertsSinglePassGatherer (counts L P calls) →
  with_current_layer l (λ r, _on_hook false r (on_select_experts ids)) r =
  Ok (with_gathered r (_SelectExpertsSinglePassGatherer (counts L P (calls ++ [(l, ids)]))) (accumulated r)).
Proof.
  intros HL HP Hl Hids H1 H2 H3 H4.
  destruct (counts_snoc L P calls l ids HL HP Hl Hids) as (row & row' & E1 & E2 & E3).
  destruct r; cbn in *; subst. unfold with_current_layer, _on_hook. cbn. by rewrite E1; cbn; rewrite E2; cbn; rewrite E3; cbn;
    rewrite bool_decide_true by done.
Qed.

(** The loop over the calls of a pass: [layer] and [ids] of each. *)
Lemma record_calls_ok {X} (layer : X → Z) (ids : X → list Z) L P : 0 ≤ L → 0 < P → ∀ (xs : list X) calls r,
  Forall (λ x, 0 ≤ layer x < L ∧ ids_ok P (ids x)) xs →
  recording r = true → disable_all r = false → current_layer_idx r = None →
  pass_gatherer r = _SelectExpertsSinglePassGatherer (counts L P calls) →
  fold_res (λ r x, with_current_layer (layer x) (λ r, _on_hook false r (on_select_experts (ids x))) r) r xs =
  Ok (with_gathered r (_SelectExpertsSinglePassGatherer (counts L P (calls ++ ((λ x, (layer x, ids x)) <$> xs)))) (accumulated r)).
Proof.
  intros HL HP. induction xs as [|x xs IH]; intros calls r Hxs H1 H2 H3 H4.
  - cbn [fold_res]. rewrite fmap_nil, app_nil_r, <- H4. by destruct r.
  - apply Forall_cons in Hxs as [[Hl Hids] Hxs]. cbn [fold_res].
    rewrite (record_call_ok L P calls (layer x) (ids x)) by done. cbn [res_bind].
    rewrite (IH (calls ++ [(layer x, ids x)])) by done. by rewrite <- app_assoc.
Qed.

Lemma record_pass_ok {X} (layer : X → Z) (ids : X → list Z) B L P (xs : list X) r i : 0 ≤ L → 0 < P →
  Forall (λ x, 0 ≤ layer x < L ∧ ids_ok P (ids x)) xs → recorder_ok B L P r →
  ∃ r', with_forward_pass i (λ r, fold_res (λ r x,
      with_current_layer (layer x) (λ r, _on_hook false r (on_select_experts (ids x))) r) r xs) r = Ok r' ∧
    recorder_ok B L P r' ∧
    contents (accumulated r') = push B (contents (accumulated r)) (counts L P ((λ x, (layer x, ids x)) <$> xs)) ∧
    cursor (accumulated r') = next_cursor B (cursor (accumulated r)).
Proof.
  intros HL HP Hxs [H1 H2 H3 H4 (data & H5 & H6 & H7) H8].
  destruct r as [cfg rc dis pid lay g bf];
    cbn [recording disable_all current_forward_pass_id current_layer_idx pass_gatherer accumulated] in *; subst.
  unfold with_forward_pass, _on_forward_pass_start.
  cbn [current_forward_pass_id with_pass_id with_gathered recording pass_gatherer accumulated reset_gatherer config
    disable_all current_layer_idx].
  rewrite bool_decide_true by done. cbn [py_assert res_bind].
  fold (zero_rows data). rewrite (zero_shaped (len data) P), <- counts_nil by (done || lia).
  rewrite (record_calls_ok layer ids (len data) P HL HP xs []) by done. cbn [res_bind app].
  unfold _on_forward_pass_end. cbn [with_gathered with_pass_id recording config pass_gatherer accumulated collect res_bind].
  destruct (counts_shaped (len data) P ((λ x, (layer x, ids x)) <$> xs) HL) as [Hs Hs']; [lia|].
  destruct (buffer_append_ok B (len data) P bf (counts (len data) P ((λ x, (layer x, ids x)) <$> xs)) H8) as (bf' & -> & Hb & Hc & Hcur);
    [done|].
  cbn [res_bind current_forward_pass_id with_gathered]. rewrite bool_decide_true by done. cbn [py_assert res_bind].
  eexists. split; [done|]. cbn [accumulated with_pass_id with_gathered]. split; [|done].
  split; [done..| |done]. eexists. split; [done|]. split; [done|]. apply (shaped_rows (len data)), counts_shaped; lia.
Qed.

Lemma reset_ok B L P r : recorder_ok B L P r →
  ∃ r', _reset r = Ok r' ∧ recorder_ok B L P r' ∧
    cursor (accumulated r') = if B <? 0 then 0 else cursor (accumulated r).
Proof.
  intros [H1 H2 H3 H4 (data & H5 & H6 & H7) H8]. unfold _reset. rewrite bool_decide_true by done. cbn [py_assert res_bind].
  destruct (reset_buffer_ok B L P (accumulated r) H8) as [Hb Hc].
  eexists. split; [done|]. split; [|done]. split; [done..| |done]. cbn [pass_gatherer with_gathered]. rewrite H5. cbn [reset_gatherer].
  fold (zero_rows data). exists (zero_rows data). split; [done|]. unfold zero_rows. split; [by rewrite len_fmap|].
  apply Forall_fmap, (Forall_impl _ _ _ H7). intros row Hr. cbn. by rewrite len_fmap.
Qed.

(** ** Counts per expert *)

(** A map of the places of [L] layers. *)
Definition map_ok (n P L : Z) (p2l : list (list Z)) : Prop :=
  len p2l = L ∧ Forall (λ phy, len phy = P ∧ ∀ e, e ∈ phy → 0 ≤ e < n) p2l.

Definition convert_row (n : Z) (phy row : list Z) : list Z := (λ e, to_int32 (hits e phy row)) <$> py_range 0 n.
Definition convert (n : Z) (p2l step : list (list Z)) : list (list Z) := zip_with (convert_row n) p2l step.

Lemma convert_row_ok n P phy row : 0 ≤ n → len phy = P → (∀ e, e ∈ phy → 0 ≤ e < n) → len row = P →
  scatter_add (replicate (Z.to_nat n) 0) phy row = Ok (convert_row n phy row).
Proof.
  intros Hn Hphy Hr Hrow.
  destruct (scatter_add_ok phy row (replicate (Z.to_nat n) 0)) as (out & E & Hlo & _ & Ho); [lia| |apply fits_replicate|].
  - apply Forall_forall. intros e He. rewrite len_replicate. specialize (Hr e He). lia.
  - rewrite E. f_equal. rewrite len_replicate in Hlo. apply list_eq_zat. intros e. unfold convert_row. rewrite zat_fmap.
    destruct (zat (py_range 0 n) e) as [x|] eqn:Ee.
    + apply zat_range0 in Ee as [He ->]. by rewrite (Ho e 0) by (apply zat_replicate; lia).
    + destruct (zat out e) eqn:Eo; [|done]. apply zat_Some_bound in Eo.
      by rewrite (proj2 (zat_range0 n e e)) in Ee by (split; [lia|done]).
Qed.

Lemma convert_ok n P L p2l steps : 0 ≤ n → map_ok n P L p2l → Forall (shaped L P) steps →
  _convert_global_physical_count_to_logical_count steps n p2l = Ok (convert n p2l <$> steps).
Proof.
  intros Hn [Hl Hm] Hs. unfold _convert_global_physical_count_to_logical_count. apply mapM_res_ok, (Forall_impl _ _ _ Hs).
  intros step [Hsl Hrows]. unfold map2_res, convert. rewrite (mapM_res_ok _ (λ p, convert_row n p.1 p.2)).
  - f_equal. clear. revert step. induction p2l as [|phy p2l IH]; intros [|row step]; [done..|]. cbn. by rewrite <- IH.
  - apply Forall_forall. intros [phy row] Hin. cbn. rewrite Forall_forall in Hm, Hrows.
    destruct (Hm phy) as [Hp Hr]; [by apply elem_of_zip_l in Hin|]. apply elem_of_zip_r in Hin. destruct (Hrows row Hin) as [Hlr _].
    by apply (convert_row_ok n P).
Qed.

Lemma convert_shaped n P L p2l step : 0 ≤ n → map_ok n P L p2l → shaped L P step → shaped L n (convert n p2l step).
Proof.
  intros Hn [Hl _] [Hsl _]. unfold convert. split; [unfold len in *; rewrite length_zip_with; lia|].
  apply Forall_forall. intros row (i & Hi)%list_elem_of_lookup. apply lookup_zip_with_Some in Hi as (phy & c & -> & _).
  unfold convert_row. split; [rewrite len_fmap, len_py_range; lia|]. apply Forall_fmap, Forall_forall. intros e _. apply int32_idem.
Qed.

(** The sum of a function over the places of an expert. *)
Lemma hits_plus e phy (f g : Z → Z) ps :
  hits e phy ((λ p, f p + g p) <$> ps) = hits e phy (f <$> ps) + hits e phy (g <$> ps).
Proof.
  unfold hits. revert ps. induction phy as [|x phy IH]; intros [|p ps]; [done..|]. rewrite !fmap_cons. cbn [zip_with sum_Z fold_right].
  specialize (IH ps). unfold sum_Z in IH. rewrite IH. destruct (x =? e); lia.
Qed.

Lemma hits_zero e phy (ps : list Z) : hits e phy ((λ _, 0) <$> ps) = 0.
Proof.
  unfold hits. revert ps. induction phy as [|x phy IH]; intros [|p ps]; [done..|]. rewrite fmap_cons. cbn [zip_with sum_Z fold_right].
  specialize (IH ps). unfold sum_Z in IH. rewrite IH. by destruct (x =? e).
Qed.

Lemma hits_int32 e phy xs : to_int32 (hits e phy (to_int32 <$> xs)) = to_int32 (hits e phy xs).
Proof.
  unfold hits. revert xs. induction phy as [|x phy IH]; intros [|y xs]; [done..|]. rewrite fmap_cons. cbn [zip_with sum_Z fold_right].
  specialize (IH xs). change (fold_right Z.add 0 ?l) with (sum_Z l). destruct (x =? e); [|done].
  rewrite int32_add_l, <- int32_add_r, IH. apply int32_add_r.
Qed.

Lemma hits_one e x phy : ∀ b, hits e phy ((λ p, if p =? x then 1 else 0) <$> py_range b (b + len phy)) =
  match zat phy (x - b) with Some e' => if e' =? e then 1 else 0 | None => 0 end.
Proof.
  induction phy as [|y phy IH]; intros b; [by destruct (zat _ _) eqn:E; [apply zat_Some_bound in E; unfold len in E; cbn in E; lia|]|].
  rewrite len_cons, py_range_cons by apply len_nonneg. rewrite fmap_cons. unfold hits. cbn [zip_with sum_Z fold_right].
  replace (b + (1 + len phy)) with (b + 1 + len phy) by lia. specialize (IH (b + 1)). unfold hits, sum_Z in IH. rewrite IH.
  destruct (Z.eqb_spec b x) as [<-|Hne].
  - rewrite Z.sub_diag. change (zat (y :: phy) 0) with (Some y). replace (zat phy (b - (b + 1))) with (@None Z); [destruct (y =? e); lia|].
    destruct (zat phy (b - (b + 1))) eqn:E; [apply zat_Some_bound in E; lia|done].
  - replace (zat (y :: phy) (x - b)) with (zat phy (x - (b + 1))); [destruct (y =? e); lia|].
    destruct (decide (x < b)) as [Hlt|Hge].
    + unfold zat. destruct (Z.ltb_spec (x - (b + 1)) 0); [|lia]. by destruct (Z.ltb_spec (x - b) 0); [|lia].
    + change (y :: phy) with ([y] ++ phy). rewrite zat_app_r by (unfold len; cbn; lia). f_equal. unfold len. cbn. lia.
Qed.

(** Id [e] was sent to place [p], or is padding. *)
Definition sent (phy : list Z) (e p : Z) : Prop := (e = -1 ∧ p = -1) ∨ zat phy p = Some e.

Lemma hits_dispatched phy lids ids e : 0 ≤ e → Forall2 (sent phy) lids ids →
  hits e phy ((λ p, occurrences p ids) <$> py_range 0 (len phy)) = occurrences e lids.
Proof.
  intros He. induction 1 as [|x p lids ids Hs _ IH]; [apply hits_zero|].
  assert (E : (λ q, occurrences q (p :: ids)) <$> py_range 0 (len phy) =
    (λ q, (if q =? p then 1 else 0) + occurrences q ids) <$> py_range 0 (len phy)).
  { apply list_fmap_ext. intros _ q _. unfold occurrences. cbn [List.filter].
    destruct (q =? p); [rewrite len_cons; lia|lia]. }
  rewrite E, hits_plus, IH. pose proof (hits_one e p phy 0) as H1. rewrite Z.add_0_l in H1. rewrite H1, Z.sub_0_r.
  unfold occurrences at 2. cbn [List.filter]. fold (occurrences e lids).
  destruct Hs as [[-> ->]|Hp].
  - destruct (zat phy (-1)) eqn:Ez; [apply zat_Some_bound in Ez; lia|].
    destruct (Z.eqb_spec e (-1)); [lia|]. unfold occurrences. lia.
  - rewrite Hp. rewrite (Z.eqb_sym x e). destruct (e =? x); [rewrite len_cons|]; unfold occurrences; lia.
Qed.

(** Counts of places, converted, are the counts of the experts asked for. *)
Lemma convert_counts {X} (layer : X → Z) (lids ids : X → list Z) n P L p2l (xs : list X) :
  0 ≤ L → 0 ≤ P → map_ok n P L p2l →
  Forall (λ x, ∃ phy, zat p2l (layer x) = Some phy ∧ Forall2 (sent phy) (lids x) (ids x)) xs →
  convert n p2l (counts L P ((λ x, (layer x, ids x)) <$> xs)) = counts L n ((λ x, (layer x, lids x)) <$> xs).
Proof.
  intros HL HP [Hl Hm] Hxs. apply list_eq_zat. intros l. destruct (decide (0 ≤ l < L)) as [Hlb|Hlb].
  2:{ assert (Hnone : ∀ m : list (list Z), len m = L → zat m l = None).
      { intros m Hlm. destruct (zat m l) eqn:E; [apply zat_Some_bound in E; lia|done]. }
      rewrite !Hnone; [done|unfold counts; rewrite len_fmap, len_py_range; lia|].
      unfold convert, counts, len. rewrite length_zip_with, length_fmap, length_py_range. unfold len in Hl. lia. }
  rewrite (proj2 (zat_counts L n _ l _) (conj Hlb eq_refl)).
  destruct (zat_in p2l l) as [phy Hphy]; [lia|].
  assert (Hc : zat (convert n p2l (counts L P ((λ x, (layer x, ids x)) <$> xs))) l =
    Some (convert_row n phy ((λ p, to_int32 (routed ((λ x, (layer x, ids x)) <$> xs) l p)) <$> py_range 0 P))).
  { unfold convert, zat in *. destruct (l <? 0) eqn:El; [done|]. rewrite lookup_zip_with, Hphy. cbn.
    pose proof (proj2 (zat_counts L P ((λ x, (layer x, ids x)) <$> xs) l _) (conj Hlb eq_refl)) as Hz.
    unfold zat in Hz. rewrite El in Hz. by rewrite Hz. }
  rewrite Hc. f_equal. unfold convert_row. apply list_fmap_ext. intros _ e [He _]%list_elem_of_lookup_2%elem_of_py_range.
  rewrite Forall_forall in Hm. destruct (Hm phy) as [Hlp _]; [by eapply zat_elem|].
  change (λ p, to_int32 (routed ((λ x, (layer x, ids x)) <$> xs) l p)) with (to_int32 ∘ (λ p, routed ((λ x, (layer x, ids x)) <$> xs) l p)).
  rewrite list_fmap_compose, hits_int32. f_equal. clear Hc. induction Hxs as [|x xs (phy' & Hphy' & Hsent) _ IH].
  - unfold routed. cbn. apply hits_zero.
  - unfold routed in *. rewrite !fmap_cons. cbn [fst snd].
    assert (E : (λ p, sum_Z ((λ c : Z * list Z, if c.1 =? l then occurrences p c.2 else 0) <$> (layer x, ids x) :: ((λ x, (layer x, ids x)) <$> xs))) <$> py_range 0 P =
      (λ p, (if layer x =? l then occurrences p (ids x) else 0) + sum_Z ((λ c : Z * list Z, if c.1 =? l then occurrences p c.2 else 0) <$> ((λ x, (layer x, ids x)) <$> xs))) <$> py_range 0 P).
    { apply list_fmap_ext. intros _ p _. by rewrite fmap_cons. }
    rewrite E, hits_plus, IH. cbn [sum_Z fold_right]. f_equal. cbn [fst snd].
    destruct (Z.eqb_spec (layer x) l) as [El|]; [|apply hits_zero].
    subst l. assert (phy' = phy) as -> by congruence. rewrite <- Hlp. by apply hits_dispatched.
Qed.

(** ** The sum over the ranks *)

Lemma add_counts L n c1 c2 : zip_with (zip_with (λ x y, to_int32 (x + y))) (counts L n c1) (counts L n c2) = counts L n (c1 ++ c2).
Proof.
  unfold counts. rewrite zip_with_fmap_l, zip_with_fmap_r. generalize (py_range 0 L). intros ls.
  induction ls as [|l ls IH]; [done|]. cbn [zip_with]. rewrite fmap_cons, IH. f_equal.
  rewrite zip_with_fmap_l, zip_with_fmap_r. generalize (py_range 0 n). intros ps.
  induction ps as [|p ps IHp]; [done|]. cbn [zip_with]. rewrite fmap_cons, IHp. f_equal.
  rewrite int32_add_l, int32_add_r. f_equal. unfold routed. rewrite fmap_app.
  generalize ((λ c : Z * list Z, if c.1 =? l then occurrences p c.2 else 0) <$> c1). intros ks.
  induction ks as [|k ks IHk]; [done|]. cbn in *. unfold sum_Z in *. lia.
Qed.

Lemma all_reduce_counts L n (cs : list (list (Z * list Z))) (css : list (list (list (Z * list Z)))) :
  all_reduce ((λ c : list (list (Z * list Z)), counts L n <$> c) <$> (cs :: css)) = counts L n <$> fold_left (zip_with (++)) css cs.
Proof.
  cbn [all_reduce fmap list_fmap]. revert cs. induction css as [|c css IH]; intros cs; [done|].
  cbn [fold_left fmap list_fmap]. rewrite <- IH. f_equal. unfold add_tensors.
  revert c. induction cs as [|x cs IHc]; intros [|y c]; [done..|]. cbn. rewrite IHc. f_equal. apply add_counts.
Qed.

(** The shape of the sum: one step per slot, [L] layers, [n] experts. *)
Lemma all_reduce_shaped L n (k : nat) ts : ts ≠ [] → Forall (λ t, length t = k ∧ Forall (shaped L n) t) ts →
  length (all_reduce ts) = k ∧ Forall (shaped L n) (all_reduce ts).
Proof.
  destruct ts as [|t ts]; [done|]. intros _ [Ht Hts]%Forall_cons. cbn [all_reduce]. revert t Ht.
  induction Hts as [|u ts [Hu1 Hu2] _ IH]; intros t [Ht1 Ht2]; [done|]. cbn [fold_left]. apply IH. unfold add_tensors.
  split; [rewrite length_zip_with; lia|]. apply Forall_forall. intros m (i & Hi)%list_elem_of_lookup.
  apply lookup_zip_with_Some in Hi as (x & y & -> & Hx & Hy).
  rewrite Forall_forall in Ht2, Hu2. destruct (Ht2 x) as [Hx1 Hx2]; [by apply list_elem_of_lookup_2 in Hx|].
  destruct (Hu2 y) as [Hy1 Hy2]; [by apply list_elem_of_lookup_2 in Hy|].
  split; [unfold len in *; rewrite length_zip_with; lia|]. apply Forall_forall. intros row (j & Hj)%list_elem_of_lookup.
  apply lookup_zip_with_Some in Hj as (a & b & -> & Ha & Hb). rewrite Forall_forall in Hx2, Hy2.
  destruct (Hx2 a) as [Ha' _]; [by apply list_elem_of_lookup_2 in Ha|]. destruct (Hy2 b) as [Hb' _]; [by apply list_elem_of_lookup_2 in Hb|].
  split; [unfold len in *; rewrite length_zip_with; lia|]. apply Forall_forall. intros z (q & Hq)%list_elem_of_lookup.
  apply lookup_zip_with_Some in Hq as (? & ? & -> & _). apply int32_idem.
Qed.
