(* ===== verification/ExpertManager.v ===== *)
(** * Rebalancing while serving ([eplb/eplb_manager.py], [eplb/expert_location_updater.py])

    Every rank runs a generator: after each forward pass it resumes, counts passes,
    and every [eplb_rebalance_num_iterations] passes asks all ranks for the counts,
    computes a new placement and moves the weights to it, all layers at once or some
    layers per pass.

    The code of a rank between two collective operations is a function from a control
    point to an [event]: the generator yields, or it enters a dump or an update, which
    all ranks must enter together.  [on_forward_pass_end] runs all ranks until they
    have yielded; a rank that waits in a collective operation for others that do not
    come is an error.

    Left out: timing, logs, the canary tensors, and the update from disk of elastic
    groups. *)

From S2P Require Import Prelude Tensor ExpertLoad ExpertUpdate ExpertElastic ExpertVec ExpertLocation ExpertRecorder.

(** ** The arguments *)

Record ManagerArgs (W : Type) := {
  eplb_rebalance_num_iterations : Z;
  eplb_rebalance_layers_per_chunk : option Z;
  eplb_min_rebalancing_utilization_threshold : W;
}.
Arguments eplb_rebalance_num_iterations {W}.
Arguments eplb_rebalance_layers_per_chunk {W}.
Arguments eplb_min_rebalancing_utilization_threshold {W}.

(** The assertion of [__init__]. *)
Definition init_manager (num_iterations recorder_buffer_size : Z) : res unit :=
  py_assert (recorder_buffer_size <=? num_iterations).

(** [range(start, stop, step)] from 0. *)
Definition _chunk_list (items : list Z) (chunk_size : Z) : list (list Z) :=
  if chunk_size <? 0 then []
  else (λ k, py_slice items (k * chunk_size) (k * chunk_size + chunk_size)) <$>
    py_range 0 ((len items + chunk_size - 1) / chunk_size).

(** [x or 1000000] also replaces 0. *)
Definition _compute_update_layer_ids_chunks (layers_per_chunk : option Z) (keys : list Z) : list (list Z) :=
  let chunk_size := match layers_per_chunk with
    | Some k => if k =? 0 then 1000000 else k
    | None => 1000000
    end in
  _chunk_list (py_sort Z.ltb keys) chunk_size.

(** ** The generator of a rank *)

(** Where the generator is suspended: in iteration [i] of the waiting loop, or before
    the update of the layers [ids]. *)
Inductive control :=
  | Started
  | Waiting (i : Z)
  | Chunked (new : ExpertLocationMetadata) (ids : list Z) (rest : list (list Z)).

Inductive event :=
  | Yield (c : control)
  | Dump
  | Update (new : ExpertLocationMetadata) (ids : list Z) (rest : list (list Z)).

Section generator.
Context {W : Type} `{TorchFloat W} (args : ManagerArgs W).

(** The head of the main loop. *)
Definition main_loop : event :=
  if 0 <? eplb_rebalance_num_iterations args then Yield (Waiting 0) else Dump.

Definition resume (c : control) : event :=
  match c with
  | Started => main_loop
  | Waiting i => if i + 1 <? eplb_rebalance_num_iterations args then Yield (Waiting (i + 1)) else Dump
  | Chunked new ids rest => Update new ids rest
  end.

(** The rest of the loop over the chunks, when there are several. *)
Definition next_chunk (new : ExpertLocationMetadata) (chunks : list (list Z)) : event :=
  match chunks with
  | [] => main_loop
  | ids :: rest => Yield (Chunked new ids rest)
  end.

Definition _check_rebalance_needed (average_utilization_rate_over_window : option W) : bool :=
  match average_utilization_rate_over_window with
  | None => true
  | Some u => negb (fltb (eplb_min_rebalancing_utilization_threshold args) u)
  end.

End generator.

(** Counts as loads. *)
Class OfInt (W : Type) := of_int : Z → W.

Section after_dump.
Context {S W : Type} `{Random S} `{TorchFloat W} `{TorchVec W} `{OfInt W}.

(** [rebalance] after the dump: [keys] are the layers with routed experts. *)
Definition after_dump (args : ManagerArgs W) (a : ServerArgs) (mc : option ModelConfigForExpertLocation)
    (keys : list Z) (rank world_size : Z) (logical_count : list (list (list Z))) (util : option W) : res event :=
  if negb (_check_rebalance_needed args util) then Ok (main_loop args)
  else
    let! new := init_by_eplb a mc rank
      ((λ step : list (list Z), (λ row : list Z, of_int <$> row) <$> step) <$> logical_count)
      (replicate (Z.to_nat world_size) 1) in
    match _compute_update_layer_ids_chunks (eplb_rebalance_layers_per_chunk args) keys, new with
    | [], _ => Ok (main_loop args)
    | _, None => Err AttributeError
    | [ids], Some new => Ok (Update new ids [])
    | chunks, Some new => Ok (next_chunk args new chunks)
    end.

End after_dump.

(** ** All ranks *)

(** Memory from [torch.empty_like]. *)
Class Uninitialised (A : Type) := uninitialised : Z → Z → A.

Record rank_state (A : Type) := {
  metadata : ExpertLocationMetadata;
  routed_experts_weights_of_layer : list (Z * list (list A));
  distribution_recorder : recorder;
  main_generator : control;
}.
Arguments metadata {A}.
Arguments routed_experts_weights_of_layer {A}.
Arguments distribution_recorder {A}.
Arguments main_generator {A}.

Definition with_metadata {A} (s : rank_state A) (m : ExpertLocationMetadata) : rank_state A :=
  {| metadata := m; routed_experts_weights_of_layer := routed_experts_weights_of_layer s;
     distribution_recorder := distribution_recorder s; main_generator := main_generator s |}.
Definition with_weights {A} (s : rank_state A) (w : list (Z * list (list A))) : rank_state A :=
  {| metadata := metadata s; routed_experts_weights_of_layer := w;
     distribution_recorder := distribution_recorder s; main_generator := main_generator s |}.
Definition with_recorder {A} (s : rank_state A) (r : recorder) : rank_state A :=
  {| metadata := metadata s; routed_experts_weights_of_layer := routed_experts_weights_of_layer s;
     distribution_recorder := r; main_generator := main_generator s |}.
Definition with_generator {A} (s : rank_state A) (c : control) : rank_state A :=
  {| metadata := metadata s; routed_experts_weights_of_layer := routed_experts_weights_of_layer s;
     distribution_recorder := distribution_recorder s; main_generator := c |}.

Section update.
Context {A : Type} `{P2P} `{Uninitialised A}.

Definition create_temp_buffers (sample_tensors : list (list A)) : list (list A) :=
  imap (λ i t, imap (λ j _, uninitialised (Z.of_nat i) (Z.of_nat j)) t) sample_tensors.

(** One layer on all ranks. *)
Definition update_layer (num_locals : list Z) (num_gpu_per_node : Z) (olds news : list ExpertLocationMetadata)
    (st : list (list (Z * list (list A))) * list (list (list A))) (layer_id : Z)
    : res (list (list (Z * list (list A))) * list (list (list A))) :=
  let '(dicts, temps) := st in
  let! weights := mapM_res (λ d, of_opt KeyError (dict_get layer_id d)) dicts in
  let! ctxs := mapM_res (λ '(rank, ((old, new), (num_local, w))),
    let! old := py_index (physical_to_logical_map old) layer_id in
    let! new := py_index (physical_to_logical_map new) layer_id in
    Ok (ctx_of old new num_local num_gpu_per_node (len w) rank))
    (zip (py_range 0 (len weights)) (zip (zip olds news) (zip num_locals weights))) in
  let! out := update_expert_weights_single_layer ctxs weights temps in
  Ok (zip_with (λ d o, dict_set layer_id o.1 d) dicts out, out.*2).

(** [num_local_physical_experts] asserts that the places divide by the ranks. *)
Definition _update_expert_weights_raw (nnodes : Z) (olds news : list ExpertLocationMetadata) (update_layer_ids : list Z)
    (dicts : list (list (Z * list (list A)))) : res (list (list (Z * list (list A)))) :=
  let world_size := len dicts in
  let! first := py_index update_layer_ids 0 in
  let! samples := mapM_res (λ d, of_opt KeyError (dict_get first d)) dicts in
  let! num_locals := mapM_res (λ old,
    let! _ := py_assert (num_physical_experts old mod world_size =? 0) in
    Ok (num_physical_experts old / world_size)) olds in
  let! num_gpu_per_node := py_div world_size nnodes in
  let! '(dicts, _) := fold_res (update_layer num_locals num_gpu_per_node olds news)
    (dicts, create_temp_buffers <$> samples) update_layer_ids in
  Ok dicts.

(** [ExpertLocationUpdater.update] on all ranks. *)
Definition update_expert_location (nnodes : Z) (news : list ExpertLocationMetadata) (update_layer_ids : list Z)
    (ranks : list (rank_state A)) : res (list (rank_state A)) :=
  let! dicts := _update_expert_weights_raw nnodes (metadata <$> ranks) news update_layer_ids
    (routed_experts_weights_of_layer <$> ranks) in
  let! metas := map2_res (λ old new, update old new update_layer_ids) (metadata <$> ranks) news in
  Ok (zip_with (λ s '(d, m), with_metadata (with_weights s d) m) ranks (zip dicts metas)).

End update.

Section passes.
Context {S W A : Type} `{Random S} `{TorchFloat W} `{TorchVec W} `{OfInt W} `{P2P} `{Uninitialised A}.
Context (args : ManagerArgs W) (a : ServerArgs) (mc : option ModelConfigForExpertLocation).

(** What all ranks do next, if they agree. *)
Definition yields (es : list event) : option (list control) :=
  mapM (λ e, match e with Yield c => Some c | _ => None end) es.
Definition dumps (es : list event) : option (list unit) :=
  mapM (λ e, match e with Dump => Some tt | _ => None end) es.
Definition updates (es : list event) : option (list (ExpertLocationMetadata * list Z * list (list Z))) :=
  mapM (λ e, match e with Update new ids rest => Some (new, ids, rest) | _ => None end) es.

(** Run the generators until all have yielded. [util] is the utilisation that rank 0
    broadcasts with a dump. *)
Fixpoint run_generators (fuel : nat) (util : option W) (ranks : list (rank_state A)) (es : list event)
    : res (list (rank_state A)) :=
  match fuel with
  | O => Err OutOfFuel
  | Datatypes.S fuel =>
      match yields es, dumps es, updates es with
      | Some cs, _, _ => Ok (zip_with with_generator ranks cs)
      | None, Some _, _ =>
          let! '(counts, recs) := dump_record (metadata <$> ranks) (distribution_recorder <$> ranks) in
          let ranks := zip_with with_recorder ranks recs in
          let! es := mapM_res (λ '(rank, s),
            after_dump args a mc (routed_experts_weights_of_layer s).*1 rank (len ranks) counts util)
            (zip (py_range 0 (len ranks)) ranks) in
          run_generators fuel util ranks es
      | None, None, Some us =>
          let! '(_, ids, rest) := of_opt RuntimeError (head us) in
          let! _ := guard_raise (negb (bool_decide (Forall (λ u, u.1.2 = ids) us))) RuntimeError in
          let! ranks := update_expert_location (nnodes a) us.*1.*1 ids ranks in
          run_generators fuel util ranks ((λ u, next_chunk args u.1.1 u.2) <$> us)
      | None, None, None => Err RuntimeError
      end
  end.

Definition on_forward_pass_end (fuel : nat) (util : option W) (ranks : list (rank_state A)) : res (list (rank_state A)) :=
  run_generators fuel util ranks (resume args <$> (main_generator <$> ranks)).

(** ** A forward pass

    A call of the router: the experts chosen for the tokens of a batch in one layer,
    [top_k] per token, with the draws of the dynamic dispatch. *)
Record call := {
  c_layer : Z;
  c_topk_ids : list Z;
  c_draws : list Z;
  c_top_k : Z;
  c_num_token_non_padded : option Z;
}.

(** [_mask_topk_ids_padded_region] on the flattened ids. *)
Definition mask_padded (c : call) (ids : list Z) : list Z :=
  match c_num_token_non_padded c with
  | None => ids
  | Some m => imap (λ i x, if m <=? Z.of_nat i / c_top_k c then -1 else x) ids
  end.

Definition select_experts (m : ExpertLocationMetadata) (c : call) : res (list Z) :=
  let! info := init_new a m (c_layer c) in
  let! places := topk_ids_logical_to_physical (c_topk_ids c) (c_draws c) info in
  Ok (mask_padded c places).

(** [forward] of a rank without the end of the pass; the places the tokens go to. *)
Definition forward (forward_pass_id : Z) (s : rank_state A) (calls : list call) : res (rank_state A * list (list Z)) :=
  let! places := mapM_res (select_experts (metadata s)) calls in
  let! r := with_forward_pass forward_pass_id
    (λ r, fold_res (λ r '(c, p),
      with_current_layer (c_layer c) (λ r, _on_hook false r (on_select_experts p)) r) r (zip calls places))
    (distribution_recorder s) in
  Ok (with_recorder s r, places).

(** One pass of all ranks, then its end. *)
Definition pass (fuel : nat) (forward_pass_id : Z) (util : option W) (ranks : list (rank_state A))
    (batches : list (list call)) : res (list (rank_state A) * list (list (list Z))) :=
  let! out := map2_res (forward forward_pass_id) ranks batches in
  let! ranks := on_forward_pass_end fuel util out.*1 in
  Ok (ranks, out.*2).

Definition run_passes (fuel : nat) : list (rank_state A) → list (option W * list (list call)) →
    res (list (rank_state A) * list (list (list (list Z)))) :=
  λ ranks passes, fold_res (λ '(ranks, outs) '(util, batches),
    let! '(ranks, places) := pass fuel (len outs + 1) util ranks batches in Ok (ranks, outs ++ [places]))
    (ranks, []) passes.

End passes.
