(* ===== verification/ExpertManagerPass.v ===== *)
(** * An update, a pass and a dump of all ranks

    [_update_expert_weights_raw] loops over the layers and passes the buffers on:
    the layers of the update end with the experts of the new map on every rank, and
    the other layers are not touched.  In a pass every token goes to a place of the
    expert it asked for, and the counts of the pass go to the buffer; a dump adds
    the converted buffers of all ranks. *)

From S2P Require Import Prelude Tensor ExpertLoad ExpertPacking ExpertOptimal ExpertLoadSpec ExpertBalance.
From S2P Require Import ExpertUpdate ExpertUpdateChunks ExpertUpdatePlan ExpertUpdateMatch.
From S2P Require Import ExpertUpdateSpec.
From S2P Require Import ExpertElastic ExpertElasticSpec ExpertVec ExpertLocation ExpertLocationSpec ExpertMetadata.
From S2P Require Import ExpertRecorder ExpertRecorderSpec ExpertManager.
From S2P Require Import ExpertVecSpec ExpertVecBalance.
From S2P Require Import ExpertConstruct.

(** The weights of a rank: the experts of the map in every layer. *)
Definition weights_ok {A} (content : Z → Z → Z → A) (keys : list Z) (p2l : list (list Z)) (nl nt r : Z)
    (d : list (Z * list (list A))) : Prop :=
  d.*1 = keys ∧ ∀ l w phy, dict_get l d = Some w → zat p2l l = Some phy → holds (content l) phy nl nt r w.

(** Every expert has a place. *)
Definition covered (n : Z) (phy : list Z) : Prop := ∀ e, 0 ≤ e < n → e ∈ phy.

Definition placed (n P L : Z) (p2l : list (list Z)) : Prop := map_ok n P L p2l ∧ Forall (covered n) p2l.

Lemma metadata_placed a n P L m : 0 < n → metadata_ok a n P L m → placed n P L (physical_to_logical_map m).
Proof.
  intros Hn [H1 H2 H3 _ _].
  assert (Hl : ∀ phy, phy ∈ physical_to_logical_map m → ∃ rows, layer_ok n P P phy rows).
  { intros phy (l & Hl)%elem_zat. pose proof (zat_Some_bound _ _ _ Hl). destruct (zat_in (logical_to_all_physical_map m) l) as [rows Hr]; [lia|].
    exists rows. by apply (H3 l). }
  split; [split; [done|]|]; apply Forall_forall; intros phy Hphy; destruct (Hl phy Hphy) as (rows & [L1 L2 L3 L4]); [done|].
  intros e He. destruct (zat_in rows e) as [row Hrow]; [lia|]. destruct (L4 e row Hrow) as (cands & _ & _ & [Hne _ Hh]).
  destruct cands as [|p cands]; [done|]. apply Forall_cons in Hh as [Hp _]. by eapply zat_elem.
Qed.

Lemma create_temp_buffers_shape {A} `{Uninitialised A} nl nt (w : list (list A)) : shape nl nt w → shape nl nt (create_temp_buffers w).
Proof.
  intros [H1 H2]. unfold create_temp_buffers, shape. split; [unfold len in *; by rewrite length_imap|].
  apply Forall_forall. intros t (i & Hi)%list_elem_of_lookup. rewrite list_lookup_imap in Hi.
  destruct (w !! i) as [u|] eqn:Ei; [|done]. injection Hi as <-. rewrite Forall_forall in H2.
  unfold len. rewrite length_imap. apply (H2 u). by apply list_elem_of_lookup_2 in Ei.
Qed.

Section update.
Context {A : Type} `{P2PLaws} `{Uninitialised A}.
Context (content : Z → Z → Z → A) (keys : list Z) (n P L nl G nt R : Z).
Context (Hn : 0 < n) (Hnl : 0 < nl) (HG : 0 < G) (HR : 0 < R) (HP : P = R * nl).
Context (old new : list (list Z)) (Hold : placed n P L old) (Hnew : placed n P L new).

(** What the loop over the layers keeps: the layers [dn] hold the new experts. *)
Definition moved (dn : list Z) (r : Z) (d : list (Z * list (list A))) : Prop :=
  d.*1 = keys ∧ ∀ l w phy, dict_get l d = Some w → zat (if mem l dn then new else old) l = Some phy →
    holds (content l) phy nl nt r w.

Definition loop_ok (dn : list Z) (st : list (list (Z * list (list A))) * list (list (list A))) : Prop :=
  len st.1 = R ∧ len st.2 = R ∧ Forall (shape nl nt) st.2 ∧ ∀ r d, zat st.1 r = Some d → moved dn r d.

Lemma mem_In l dn : mem l dn = true ↔ l ∈ dn.
Proof.
  unfold mem. rewrite existsb_exists. split.
  - intros (x & Hx & ->%Z.eqb_eq). by apply list_elem_of_In.
  - intros Hl. exists l. split; [by apply list_elem_of_In|apply Z.eqb_refl].
Qed.

Lemma dict_get_keys {V} (d : list (Z * V)) l : l ∈ d.*1 → ∃ v, dict_get l d = Some v.
Proof.
  intros Hl. destruct (dict_get l d) eqn:E; [by eexists|]. by apply dict_get_None in E.
Qed.

Lemma layer_at (m : list (list Z)) l : placed n P L m → 0 ≤ l < L →
  ∃ phy, zat m l = Some phy ∧ len phy = P ∧ (∀ e, e ∈ phy ↔ 0 ≤ e < n).
Proof.
  intros [[Hl Hm] Hc] Hlb. destruct (zat_in m l) as [phy Hphy]; [lia|]. exists phy. split; [done|].
  apply zat_elem in Hphy. rewrite Forall_forall in Hm, Hc. destruct (Hm phy Hphy) as [S1 S2].
  split; [done|]. intros e. split; [apply S2|by apply Hc].
Qed.

Lemma update_layer_ok (olds news : list ExpertLocationMetadata) nls dn st l :
  len olds = R → len news = R → nls = replicate (Z.to_nat R) nl →
  Forall (λ m, physical_to_logical_map m = old) olds → Forall (λ m, physical_to_logical_map m = new) news →
  0 ≤ l < L → l ∈ keys → l ∉ dn → loop_ok dn st →
  ∃ st', update_layer nls G olds news st l = Ok st' ∧ loop_ok (dn ++ [l]) st'.
Proof.
  intros Ho Hnw -> Holds Hnews Hl Hk Hdn (S1 & S2 & S3 & S4). destruct st as [dicts temps]. cbn [fst snd] in *.
  destruct (layer_at old l Hold Hl) as (po & Epo & Hlo & Heo). destruct (layer_at new l Hnew Hl) as (pn & Epn & Hln & Hen).
  unfold update_layer.
  destruct (mapM_res_exists (λ d, of_opt KeyError (dict_get l d)) (λ d w, dict_get l d = Some w) dicts) as (ws & -> & HW).
  { apply Forall_forall. intros d (r & Hr)%elem_zat. destruct (S4 r d Hr) as [Hd _].
    destruct (dict_get_keys d l) as [w Hw]; [by rewrite Hd|]. exists w. by rewrite Hw. }
  cbn [res_bind].
  assert (Hlw : len ws = R) by (apply Forall2_length in HW; unfold len in *; lia).
  assert (Hws : ∀ r w, zat ws r = Some w → ∃ d, zat dicts r = Some d ∧ dict_get l d = Some w ∧ holds (content l) po nl nt r w).
  { intros r w Hw. destruct (zat_in dicts r) as [d Hd]; [apply zat_Some_bound in Hw; lia|]. exists d.
    assert (Hg : dict_get l d = Some w).
    { unfold zat in Hw, Hd. destruct (r <? 0); [done|]. exact (Forall2_lookup_lr _ _ _ _ _ _ HW Hd Hw). }
    split_and!; [done|done|]. destruct (S4 r d Hd) as [_ Hm]. apply (Hm l w po Hg).
    destruct (mem l dn) eqn:Em; [by apply mem_In in Em|done]. }
  destruct (mapM_ranks (λ '(rank, ((old, new), (num_local, w))),
      let! old := py_index (physical_to_logical_map old) l in
      let! new := py_index (physical_to_logical_map new) l in
      Ok (ctx_of old new num_local G (len (w : list (list A))) rank)) id
    (λ r _ o, o = ctx_of po pn nl G nt r) R (zip (zip olds news) (zip (replicate (Z.to_nat R) nl) ws))) as (cs & Ecs & Hlc & Hcs).
  { unfold len in *. rewrite !length_zip_with, length_replicate. lia. }
  { intros r [[mo mn] [k w]] [[Hmo Hmn]%zip_inv [Hk' Hw]%zip_inv]%zip_inv. cbn [fst snd] in *.
    apply zat_elem in Hmo, Hmn. apply zat_elem, elem_of_replicate in Hk' as [-> _].
    rewrite Forall_forall in Holds, Hnews. rewrite (Holds mo Hmo), (Hnews mn Hmn).
    rewrite (zat_py_index _ _ _ Epo), (zat_py_index _ _ _ Epn). cbn [res_bind].
    destruct (Hws r w Hw) as (d & _ & _ & [[Hsh _] _]). rewrite Hsh. by eexists. }
  rewrite list_fmap_id in Ecs. rewrite Hlw, Ecs. cbn [res_bind].
  assert (Ec : cs = ctx_of po pn nl G nt <$> py_range 0 (len ws)).
  { apply list_eq_zat. intros r. rewrite zat_fmap, Hlw. destruct (decide (0 ≤ r < R)) as [Hr|Hr].
    - rewrite (proj2 (zat_range0 R r r)) by done. destruct (zat_in cs r) as [o Hco]; [lia|]. rewrite Hco. cbn. f_equal.
      destruct (zat_in (zip (zip olds news) (zip (replicate (Z.to_nat R) nl) ws)) r) as [x Hx].
      { unfold len in *. rewrite !length_zip_with, length_replicate. lia. }
      by destruct (Hcs r x o Hx Hco) as [_ ->].
    - destruct (zat cs r) eqn:E1; [by apply zat_Some_bound in E1; lia|].
      destruct (zat (py_range 0 R) r) eqn:E2; [by apply zat_range0 in E2 as [? _]|done]. }
  rewrite Ec. destruct (single_layer_ok (content l) po pn nl G nt ws temps) as (out & -> & Hlout & Hout); [done..|lia|lia|lia|done| | |].
  { intros e He. by apply Heo, Hen. }
  { intros r w Hw. by destruct (Hws r w Hw) as (d & _ & _ & ?). }
  cbn [res_bind]. eexists. split; [done|]. unfold loop_ok. cbn [fst snd].
  assert (Hld : length dicts = length out) by (unfold len in *; lia). split_and!.
  - unfold len in *. rewrite length_zip_with. lia.
  - rewrite len_fmap. lia.
  - apply Forall_fmap, Forall_forall. intros [w t] (r & Hr)%elem_zat. by destruct (Hout r w t Hr).
  - intros r d' Hd'. unfold zat in Hd'. destruct (r <? 0) eqn:Er; [done|]. apply lookup_zip_with_Some in Hd' as (d & [w t] & -> & Hd & Hwt).
    assert (Hd0 : zat dicts r = Some d) by (unfold zat; by rewrite Er).
    assert (Hwt0 : zat out r = Some (w, t)) by (unfold zat; by rewrite Er).
    destruct (S4 r d Hd0) as [Hdk Hdm]. destruct (Hout r w t Hwt0) as [Hw _]. split.
    + cbn. rewrite dict_set_fst_in; [done|]. by rewrite Hdk.
    + cbn [fst]. intros l' w' phy Hg Hphy. destruct (decide (l' = l)) as [->|Hne].
      * rewrite dict_get_set_eq in Hg. injection Hg as <-. destruct (mem l (dn ++ [l])) eqn:Em; [congruence|].
        exfalso. apply not_true_iff_false in Em. apply Em, mem_In. set_solver.
      * rewrite dict_get_set_ne in Hg by done. apply (Hdm l' w' phy Hg).
        assert (mem l' (dn ++ [l]) = mem l' dn) as <-; [|done]. apply eq_true_iff_eq. rewrite !mem_In. set_solver.
Qed.

(** The whole loop. *)
Lemma update_weights_ok nno (olds news : list ExpertLocationMetadata) ids dicts :
  len olds = R → len news = R → 0 < nno → R / nno = G →
  Forall (λ m, physical_to_logical_map m = old) olds → Forall (λ m, physical_to_logical_map m = new) news →
  0 < L → ids ≠ [] → NoDup ids → Forall (λ l, 0 ≤ l < L ∧ l ∈ keys) ids → len dicts = R →
  (∀ r d, zat dicts r = Some d → weights_ok content keys old nl nt r d) →
  ∃ dicts', _update_expert_weights_raw nno olds news ids dicts = Ok dicts' ∧ len dicts' = R ∧
    ∀ r d, zat dicts' r = Some d → moved ids r d.
Proof.
  intros Ho Hw Hno HG' Holds Hnews HL Hne Hnd Hids Hd Hdicts. unfold _update_expert_weights_raw.
  destruct ids as [|l0 ids0] eqn:Eids; [done|]. rewrite <- Eids in *.
  assert (Hl0 : l0 ∈ keys) by (rewrite Eids in Hids; by apply Forall_cons in Hids as [[_ ?] _]).
  assert (Hl0L : 0 ≤ l0 < L) by (rewrite Eids in Hids; by apply Forall_cons in Hids as [[? _] _]).
  rewrite (zat_py_index ids 0 l0) by (by rewrite Eids). cbn [res_bind].
  destruct (mapM_res_exists (λ d, of_opt KeyError (dict_get l0 d)) (λ _ w, shape nl nt w) dicts) as (samples & -> & HS).
  { apply Forall_forall. intros d (r & Hr)%elem_zat. destruct (Hdicts r d Hr) as [Hk Hh].
    destruct (dict_get_keys d l0) as [w Hw0]; [by rewrite Hk|]. exists w. rewrite Hw0. split; [done|].
    destruct (layer_at old l0 Hold Hl0L) as (po & Epo & _). by destruct (Hh l0 w po Hw0 Epo). }
  cbn [res_bind].
  assert (Hnp : ∀ m, m ∈ olds → num_physical_experts m = P).
  { intros m Hm. rewrite Forall_forall in Holds. unfold num_physical_experts. rewrite (Holds m Hm).
    destruct Hold as [[Hlo Hmo] _]. destruct old as [|phy old']; [unfold len in Hlo; cbn in Hlo; lia|].
    by apply Forall_cons in Hmo as [[? _] _]. }
  rewrite (mapM_res_ok _ (λ _, nl)).
  2:{ apply Forall_forall. intros m Hm. rewrite (Hnp m Hm), Hd, HP, Z.mul_comm, Z.mod_mul, Z.div_mul by lia. done. }
  cbn [res_bind].
  unfold py_div. destruct (Z.eqb_spec nno 0); [lia|]. cbn [res_bind]. rewrite Hd, HG'.
  assert (Enls : (λ _ : ExpertLocationMetadata, nl) <$> olds = replicate (Z.to_nat R) nl).
  { assert (E : Z.to_nat R = length olds) by (unfold len in Ho; lia). rewrite E. clear. induction olds as [|m olds IH]; [done|]. cbn. by f_equal. }
  rewrite Enls.
  destruct (fold_res_inv (update_layer (replicate (Z.to_nat R) nl) G olds news) loop_ok ids (dicts, create_temp_buffers <$> samples))
    as (st & E & Hst).
  - unfold loop_ok. cbn [fst snd]. pose proof (Forall2_length _ _ _ HS). split_and!; [done|rewrite len_fmap; unfold len in *; lia| |].
    + apply Forall_fmap, Forall_forall. intros w (i & Hi)%list_elem_of_lookup. cbn. apply create_temp_buffers_shape.
      by destruct (Forall2_lookup_r _ _ _ _ _ HS Hi) as (d & _ & ?).
    + intros r d Hr. by destruct (Hdicts r d Hr) as [? ?].
  - intros dn l rest st Hsplit Hst. assert (Hin : l ∈ ids) by (rewrite Hsplit; set_solver).
    rewrite Forall_forall in Hids. destruct (Hids l Hin) as [Hl Hk].
    apply (update_layer_ok olds news _ dn st l); try done.
    rewrite Hsplit in Hnd. apply NoDup_app in Hnd as (_ & Hnd & _). intros Hdn. apply (Hnd l Hdn). by left.
  - rewrite E. cbn [res_bind]. destruct st as [dicts' temps]. destruct Hst as (T1 & _ & _ & T4). by exists dicts'.
Qed.
End update.

(** ** All ranks *)

(** [p2l] has the layers [ids] of [new] and the others of [old]. *)
Definition mixed (ids : list Z) (old new p2l : list (list Z)) : Prop :=
  ∀ l, zat p2l l = if mem l ids then zat new l else zat old l.

(** The metadata and the weights of rank [r] follow [p2l]. *)
Record follows {A} (content : Z → Z → Z → A) (keys : list Z) (a : ServerArgs) (n P L nl nt : Z) (p2l : list (list Z))
    (r : Z) (s : rank_state A) : Prop := {
  fo_metadata : metadata_ok a n P L (metadata s);
  fo_map : physical_to_logical_map (metadata s) = p2l;
  fo_weights : weights_ok content keys p2l nl nt r (routed_experts_weights_of_layer s);
}.

Lemma update_expert_location_ok {A} `{P2PLaws} `{Uninitialised A} (content : Z → Z → Z → A) keys a n P L nt
    old new (news : list ExpertLocationMetadata) ids (ranks : list (rank_state A)) :
  let R := ep_size a in let nl := P / R in
  0 < n → 0 < L → group_ok a P → ids ≠ [] → NoDup ids → Forall (λ l, 0 ≤ l < L ∧ l ∈ keys) ids →
  len ranks = R → (∀ r s, zat ranks r = Some s → follows content keys a n P L nl nt old r s) →
  len news = R → Forall (λ m, metadata_ok a n P L m ∧ physical_to_logical_map m = new) news →
  ∃ ranks' p2l, update_expert_location (nnodes a) news ids ranks = Ok ranks' ∧ mixed ids old new p2l ∧ len ranks' = R ∧
    ∀ r s s', zat ranks r = Some s → zat ranks' r = Some s' → follows content keys a n P L nl nt p2l r s' ∧
      distribution_recorder s' = distribution_recorder s ∧ main_generator s' = main_generator s.
Proof.
  intros R nl Hn HL Hg Hne Hnd Hids Hranks Hall Hnews Hok. destruct (group_sizes _ _ Hg) as (Hnl & HG & HP).
  assert (HR : 0 < R) by (by destruct Hg). destruct (zat_in ranks 0) as [s0 Hs0]; [lia|].
  assert (Hold : placed n P L old).
  { destruct (Hall 0 s0 Hs0) as [Hm <- _]. by apply (metadata_placed a). }
  assert (Hnew : placed n P L new).
  { destruct (zat_in news 0) as [m0 Hm0]; [lia|]. rewrite Forall_forall in Hok. destruct (Hok m0) as [Hm <-]; [by eapply zat_elem|].
    by apply (metadata_placed a). }
  unfold update_expert_location.
  destruct (update_weights_ok content keys n P L nl (R / nnodes a) nt R Hn Hnl HG HR ltac:(fold R nl in HP; lia) old new Hold Hnew (nnodes a)
    (metadata <$> ranks) news ids (routed_experts_weights_of_layer <$> ranks)) as (dicts & -> & Hld & Hdicts);
    [by rewrite len_fmap|done|by destruct Hg; lia|done| | |done|done|done|done|by rewrite len_fmap| |].
  { apply Forall_fmap, Forall_forall. intros s (r & Hr)%elem_zat. by destruct (Hall r s Hr). }
  { apply (Forall_impl _ _ _ Hok). by intros m []. }
  { intros r d. rewrite zat_fmap. destruct (zat ranks r) as [s|] eqn:Er; [|done]. intros [= <-]. by destruct (Hall r s Er). }
  cbn [res_bind].
  destruct (map2_res_exists (λ old new, update old new ids)
    (λ m0 m1 m, update m0 m1 ids = Ok m ∧ metadata_ok a n P L m ∧ ∀ l, zat (physical_to_logical_map m) l = if mem l ids then zat new l else zat old l)
    (metadata <$> ranks) news) as (metas & -> & HM).
  { apply Forall2_same_length_lookup. split; [rewrite length_fmap; unfold len in *; lia|].
    intros i m0 m1 Hi Hj. rewrite list_lookup_fmap in Hi. destruct (ranks !! i) as [s|] eqn:Ei; [|done]. injection Hi as <-.
    destruct (Hall (Z.of_nat i) s) as [F1 F2 _]; [by rewrite zat_nat|]. rewrite Forall_forall in Hok.
    destruct (Hok m1) as [F3 F4]; [by apply list_elem_of_lookup_2 in Hj|].
    destruct (update_ok a n P L (metadata s) m1 ids F1 F3) as (m & E & Hm & Hl). exists m. split; [done|]. rewrite F2, F4 in Hl. done. }
  cbn [res_bind].
  assert (Hlm : length metas = length ranks).
  { clear -HM. remember (metadata <$> ranks) as ms eqn:E. assert (length ms = length ranks) as <- by (subst; apply length_fmap).
    clear E. induction HM; cbn; lia. }
  assert (Hmetas : ∀ i m, metas !! i = Some m → metadata_ok a n P L m ∧ mixed ids old new (physical_to_logical_map m)).
  { clear -HM. induction HM as [|m0 m1 m ? ? ? (_ & T1 & T2) _ IH]; intros i m' Hi; [done|]. destruct i as [|i]; [|by apply (IH i)].
    cbn in Hi. injection Hi as <-. done. }
  destruct metas as [|m00 metas'] eqn:Em; [unfold len in *; cbn in Hlm; lia|]. rewrite <- Em in *.
  assert (Hm00 : metas !! 0%nat = Some m00) by (by rewrite Em).
  do 2 eexists. split; [done|]. split; [by apply (Hmetas 0%nat m00)|]. split; [unfold len in *; rewrite !length_zip_with; lia|].
  intros r s s' Hs Hs'. unfold zat in Hs, Hs'. destruct (r <? 0) eqn:Er; [done|].
  apply lookup_zip_with_Some in Hs' as (t & [d m] & -> & Ht & Hdm). assert (t = s) as -> by congruence.
  apply lookup_zip_with_Some in Hdm as (d' & m' & [= <- <-] & Hd & Hm). destruct (Hmetas _ m Hm) as [G1 G2].
  assert (E : physical_to_logical_map m = physical_to_logical_map m00).
  { apply list_eq_zat. intros l. destruct (Hmetas _ m00 Hm00) as [_ G3]. by rewrite G2, G3. }
  split; [|done]. split; [done|done|]. cbn [routed_experts_weights_of_layer with_metadata with_weights].
  destruct (Hdicts r d) as [D1 D2]; [unfold zat; by rewrite Er|]. split; [done|]. intros l w phy Hw Hphy.
  apply (D2 l w phy Hw). rewrite <- E in Hphy. rewrite G2 in Hphy. by destruct (mem l ids).
Qed.

(** ** Calls of the router *)

Record call_ok (n L : Z) (c : call) : Prop := {
  co_layer : 0 ≤ c_layer c < L;
  co_ids : Forall (λ e, 0 ≤ e < n) (c_topk_ids c);
  co_draws : len (c_draws c) = len (c_topk_ids c);
}.

(** The experts asked for, without the padding. *)
Definition asked (c : call) : list Z := mask_padded c (c_topk_ids c).

Lemma mask_sent c phy ids places : Forall2 (λ e p, zat phy p = Some e) ids places →
  Forall2 (sent phy) (mask_padded c ids) (mask_padded c places).
Proof.
  intros HF. unfold mask_padded. destruct (c_num_token_non_padded c) as [m|].
  - apply Forall2_same_length_lookup. split; [rewrite !length_imap; by eapply Forall2_length|].
    intros i x y Hx Hy. rewrite list_lookup_imap in Hx, Hy. destruct (ids !! i) as [e|] eqn:Ee; [|done].
    destruct (places !! i) as [p|] eqn:Ep; [|done]. injection Hx as <-. injection Hy as <-.
    destruct (m <=? _); [by left|right]. exact (Forall2_lookup_lr _ _ _ _ _ _ HF Ee Ep).
  - eapply Forall2_impl; [exact HF|]. intros e p He. by right.
Qed.

Lemma sent_ids phy lids ids : Forall2 (sent phy) lids ids → ids_ok (len phy) ids.
Proof.
  intros HF. apply Forall_forall. intros p (i & Hi)%list_elem_of_lookup.
  destruct (Forall2_lookup_r _ _ _ _ _ HF Hi) as (e & _ & [[_ ->]|Hp]); [by left|right]. by apply zat_Some_bound in Hp.
Qed.

Lemma fold_res_ext {X St} (f g : St → X → res St) xs : (∀ s x, f s x = g s x) → ∀ s, fold_res f s xs = fold_res g s xs.
Proof. intros Hfg. induction xs as [|x xs IH]; intros s; [done|]. cbn. rewrite Hfg. by destruct (g s x); cbn. Qed.

Section forward.
Context {A : Type} (a : ServerArgs) (n P L B : Z).
Context (Hn : 0 < n) (HP : 0 < P) (HL : 0 < L).
Context (alg : string) (Halg : ep_dispatch_algorithm a = Some alg) (Hknown : alg ∈ ["static"; "dynamic"; "fake"]).

(** The tokens of the calls went to places of the experts. *)
Definition delivered (p2l : list (list Z)) (calls : list call) (places : list (list Z)) : Prop :=
  Forall2 (λ c ps, ∃ phy, zat p2l (c_layer c) = Some phy ∧ Forall2 (sent phy) (asked c) ps) calls places.

(** What the calls ask for, by layer. *)
Definition asked_calls (calls : list call) : list (Z * list Z) := (λ c, (c_layer c, asked c)) <$> calls.

Lemma select_experts_ok m c : metadata_ok a n P L m → call_ok n L c →
  ∃ places, select_experts a m c = Ok places ∧
    ∃ phy, zat (physical_to_logical_map m) (c_layer c) = Some phy ∧ Forall2 (sent phy) (asked c) places.
Proof.
  intros Hm [Hl Hids Hdraws].
  destruct (dispatch_ok a n P L m (c_layer c) (c_topk_ids c) (c_draws c) alg) as (info & phy & places & E1 & E2 & Hphy & HF); [done..|].
  unfold select_experts. rewrite E1. cbn [res_bind]. rewrite E2. cbn [res_bind]. eexists. split; [done|].
  exists phy. split; [done|]. by apply mask_sent.
Qed.

Lemma forward_ok i (s : rank_state A) calls : metadata_ok a n P L (metadata s) → recorder_ok B L P (distribution_recorder s) →
  Forall (call_ok n L) calls →
  ∃ rec places item, forward a i s calls = Ok (with_recorder s rec, places) ∧ recorder_ok B L P rec ∧
    cursor (accumulated rec) = next_cursor B (cursor (accumulated (distribution_recorder s))) ∧
    contents (accumulated rec) = push B (contents (accumulated (distribution_recorder s))) item ∧
    shaped L P item ∧ convert n (physical_to_logical_map (metadata s)) item = counts L n (asked_calls calls) ∧
    delivered (physical_to_logical_map (metadata s)) calls places.
Proof.
  intros Hm Hr Hcalls. unfold forward.
  destruct (mapM_res_exists (select_experts a (metadata s)) (λ c ps, ∃ phy, zat (physical_to_logical_map (metadata s)) (c_layer c) = Some phy ∧
    Forall2 (sent phy) (asked c) ps) calls) as (places & -> & HF).
  { apply (Forall_impl _ _ _ Hcalls). intros c Hc. by apply select_experts_ok. }
  cbn [res_bind]. destruct (metadata_placed a n P L (metadata s) Hn Hm) as [Hmap _].
  pose proof Hmap as [_ Hmap']. rewrite Forall_forall in Hmap'.
  set (xs := zip calls places).
  assert (Hxs : Forall (λ x : call * list Z, ∃ phy, zat (physical_to_logical_map (metadata s)) (c_layer x.1) = Some phy ∧
    Forall2 (sent phy) (asked x.1) x.2) xs).
  { unfold xs. clear -HF. induction HF; constructor; done. }
  assert (Hfst : xs.*1 = calls) by (unfold xs; apply fst_zip; apply Forall2_length in HF; lia).
  destruct (record_pass_ok (λ x : call * list Z, c_layer x.1) (λ x, x.2) B L P xs (distribution_recorder s) i) as (rec & E & Hrec & Hcont & Hcur);
    [lia|done| |done|].
  { apply Forall_forall. intros x Hx. rewrite Forall_forall in Hxs. destruct (Hxs x Hx) as (phy & Hphy & Hs).
    destruct (Hmap' phy) as [Hlp _]; [by eapply zat_elem|]. split.
    - rewrite Forall_forall in Hcalls. destruct (Hcalls x.1) as [Hl _ _]; [|done]. rewrite <- Hfst. by apply list_elem_of_fmap_2.
    - rewrite <- Hlp. by eapply sent_ids. }
  assert (E' : with_forward_pass i (λ r, fold_res (λ r '(c, p),
      with_current_layer (c_layer c) (λ r, _on_hook false r (on_select_experts p)) r) r xs) (distribution_recorder s) = Ok rec).
  { rewrite <- E. unfold with_forward_pass. destruct (py_assert _) as [[]|]; [|done]. cbn [res_bind].
    erewrite fold_res_ext; [done|]. by intros r [c p]. }
  rewrite E'. cbn [res_bind]. do 3 eexists. split; [done|]. split; [done|]. split; [done|]. split; [exact Hcont|].
  split; [apply counts_shaped; lia|]. split; [|done].
  rewrite (convert_counts (λ x : call * list Z, c_layer x.1) (λ x, asked x.1) (λ x, x.2) n P L) by (lia || done).
  unfold asked_calls. by rewrite <- Hfst, <- list_fmap_compose.
Qed.
End forward.

(** ** A dump of all ranks *)

Lemma contents_length B L P bf : buffer_ok B L P bf → len (get_all bf) = if B <? 0 then cursor bf else B.
Proof.
  destruct bf as [b curr|b size]; cbn [buffer_ok get_all cursor].
  - intros (HB & Hl & _). by destruct (Z.ltb_spec B 0); [lia|].
  - intros (HB & _ & Hs & _). destruct (Z.ltb_spec B 0); [|lia]. unfold len in *. rewrite length_take. lia.
Qed.

Lemma get_all_shaped B L P bf : buffer_ok B L P bf → Forall (shaped L P) (get_all bf).
Proof.
  destruct bf as [b curr|b size]; cbn [buffer_ok get_all]; [by intros (_ & _ & _ & ?)|].
  intros (_ & _ & _ & Hs). by apply Forall_take.
Qed.

(** A rank between two operations: its recorder has appended as many passes as the
    others'. *)
Definition records {A} (B L P cur : Z) (s : rank_state A) : Prop :=
  recorder_ok B L P (distribution_recorder s) ∧ cursor (accumulated (distribution_recorder s)) = cur.

Lemma num_logical_experts_ok a n P L m : 0 < L → metadata_ok a n P L m → num_logical_experts_of m = n.
Proof.
  intros HL [H1 H2 H3 _ _]. unfold num_logical_experts_of.
  destruct (zat_in (physical_to_logical_map m) 0) as [phy Hphy]; [lia|].
  destruct (logical_to_all_physical_map m) as [|rows l2ps]; [unfold len in H2; cbn in H2; lia|].
  by destruct (H3 0 phy rows Hphy eq_refl).
Qed.

Lemma dump_ok {A} a n P L B p2l cur (ranks : list (rank_state A)) : 0 < n → 0 < L → ranks ≠ [] → map_ok n P L p2l →
  Forall (λ s, metadata_ok a n P L (metadata s) ∧ physical_to_logical_map (metadata s) = p2l ∧ records B L P cur s) ranks →
  ∃ recs, dump_record (metadata <$> ranks) (distribution_recorder <$> ranks) =
      Ok (all_reduce ((λ s, convert n p2l <$> get_all (accumulated (distribution_recorder s))) <$> ranks), recs) ∧
    Forall2 (λ s r, recorder_ok B L P r ∧ cursor (accumulated r) = if B <? 0 then 0 else cur) ranks recs ∧
    let counts := all_reduce ((λ s, convert n p2l <$> get_all (accumulated (distribution_recorder s))) <$> ranks) in
    len counts = (if B <? 0 then cur else B) ∧ Forall (shaped L n) counts.
Proof.
  intros Hn HL Hne Hmap Hall. unfold dump_record.
  assert (E1 : map2_res local_dump (metadata <$> ranks) (distribution_recorder <$> ranks) =
    Ok ((λ s, convert n p2l <$> get_all (accumulated (distribution_recorder s))) <$> ranks)).
  { unfold map2_res. assert (Hz : zip (metadata <$> ranks) (distribution_recorder <$> ranks) = (λ s, (metadata s, distribution_recorder s)) <$> ranks).
    { clear. induction ranks as [|s ranks IH]; [done|]. cbn. by f_equal. }
    rewrite Hz, (mapM_res_ok _ (λ x, convert n p2l <$> get_all (accumulated x.2))), <- list_fmap_compose; [done|].
    apply Forall_fmap, (Forall_impl _ _ _ Hall). intros s (H1 & H2 & [[_ _ _ _ _ H3] _]). cbn. unfold local_dump.
    rewrite (num_logical_experts_ok a n P L) by done. rewrite H2. apply (convert_ok n P L); [lia|done|].
    by apply (get_all_shaped B). }
  rewrite E1. cbn [res_bind].
  destruct (mapM_res_exists _reset (λ _ r, recorder_ok B L P r ∧ cursor (accumulated r) = if B <? 0 then 0 else cur)
    (distribution_recorder <$> ranks)) as (recs & -> & HF).
  { apply Forall_fmap, (Forall_impl _ _ _ Hall). intros s (_ & _ & H3 & H4). cbn.
    destruct (reset_ok B L P _ H3) as (r & E & Hr & Hc). exists r. rewrite H4 in Hc. done. }
  cbn [res_bind]. exists recs. split; [done|]. split; [by apply Forall2_fmap_l in HF|].
  set (counts := all_reduce _).
  destruct (all_reduce_shaped L n (Z.to_nat (if B <? 0 then cur else B))
    ((λ s, convert n p2l <$> get_all (accumulated (distribution_recorder s))) <$> ranks)) as [Hl Hs].
  - intros E. apply fmap_nil_inv in E. done.
  - apply Forall_fmap, (Forall_impl _ _ _ Hall). intros s (_ & _ & [_ _ _ _ _ Hb] & H4). cbn. rewrite length_fmap.
    pose proof (contents_length _ _ _ _ Hb) as Hc. rewrite H4 in Hc. split; [unfold len in Hc; lia|].
    apply Forall_fmap, (Forall_impl _ _ _ (get_all_shaped _ _ _ _ Hb)). intros step. apply (convert_shaped n P L); [lia|done].
  - split; [|done]. unfold counts, len. rewrite Hl. destruct (zat_in ranks 0) as [s Hs0].
    { destruct ranks; [done|]. rewrite len_cons. pose proof (len_nonneg ranks). lia. }
    rewrite Forall_forall in Hall. destruct (Hall s) as (_ & _ & [_ _ _ _ _ Hb] & H4); [by eapply zat_elem|].
    pose proof (contents_length _ _ _ _ Hb) as Hc. rewrite H4 in Hc. rewrite <- Hc. pose proof (len_nonneg (get_all (accumulated (distribution_recorder s)))). lia.
Qed.
