(* ===== verification/ExpertManagerWorld.v ===== *)
(** * The ranks of a run

    What holds of all ranks between two passes ([world]), and the abstract machine
    that they follow: a map and a phase, [eplb_step].  Within a pass the generators of
    all ranks are at the same stage, so every collective operation is entered by all
    of them. *)

From S2P Require Import Prelude Tensor ExpertLoad ExpertPacking ExpertOptimal ExpertLoadSpec ExpertBalance.
From S2P Require Import ExpertUpdate ExpertUpdateChunks ExpertUpdatePlan ExpertUpdateMatch.
From S2P Require Import ExpertUpdateSpec.
From S2P Require Import ExpertElastic ExpertElasticSpec ExpertVec ExpertVecSpec ExpertVecBalance.
From S2P Require Import ExpertLocation ExpertLocationSpec ExpertMetadata ExpertConstruct.
From S2P Require Import ExpertRecorder ExpertRecorderSpec ExpertManager ExpertManagerPass.

(** ** The chunks of layers *)

(** A chunk of the layers [keys]. *)
Definition chunk_of (keys ids : list Z) : Prop := ids ≠ [] ∧ NoDup ids ∧ ∀ l, l ∈ ids → l ∈ keys.

Lemma slice_take_drop {A} (l : list A) k size : 0 ≤ k → 0 < size →
  py_slice l (k * size) (k * size + size) = take (Z.to_nat size) (drop (Z.to_nat (k * size)) l).
Proof.
  intros Hk Hs. rewrite py_slice_drop_take by nia. rewrite Z2Nat.inj_add by nia.
  by rewrite take_drop_commute.
Qed.

Lemma chunk_list_ok keys size : NoDup keys → Forall (chunk_of keys) (_chunk_list (py_sort Z.ltb keys) size).
Proof.
  intros Hnd. unfold _chunk_list. destruct (Z.ltb_spec size 0); [constructor|].
  assert (Hp : py_sort Z.ltb keys ≡ₚ keys) by apply py_sort_perm.
  assert (Hnd' : NoDup (py_sort Z.ltb keys)) by (by rewrite Hp).
  destruct (decide (size = 0)) as [->|Hsz].
  { replace ((len (py_sort Z.ltb keys) + 0 - 1) / 0) with 0 by (by rewrite Zdiv_0_r). constructor. }
  apply Forall_fmap, Forall_forall. intros k [Hk Hk']%elem_of_py_range. cbn.
  assert (Hb : k * size < len (py_sort Z.ltb keys)).
  { pose proof (Z.mul_div_le (len (py_sort Z.ltb keys) + size - 1) size ltac:(lia)). nia. }
  rewrite slice_take_drop by lia. split_and!.
  - intros E. apply (f_equal length) in E. rewrite length_take, length_drop in E. unfold len in Hb. cbn in E. lia.
  - eapply sublist_NoDup; [exact Hnd'|]. etrans; [apply sublist_take|apply sublist_drop].
  - intros l Hl. rewrite <- Hp. eapply elem_of_submseteq; [exact Hl|]. apply sublist_submseteq.
    etrans; [apply sublist_take|apply sublist_drop].
Qed.

(** Every layer is in a chunk. *)
Lemma concat_pieces size m : 0 < size → ∀ (l : list Z) b, (length l ≤ m)%nat → 0 ≤ b →
  concat ((λ k, take (Z.to_nat size) (drop (Z.to_nat (k * size - b * size)) l)) <$>
    py_range b (b + (len l + size - 1) / size)) = l.
Proof.
  intros Hs. induction m as [|m IH]; intros l b Hm Hb.
  { destruct l; [|cbn in Hm; lia]. replace ((len (@nil Z) + size - 1) / size) with 0.
    - by rewrite py_range_nil by lia.
    - symmetry. apply Z.div_small. unfold len. cbn. lia. }
  destruct (decide (l = [])) as [->|Hne].
  { replace ((len (@nil Z) + size - 1) / size) with 0; [by rewrite py_range_nil by lia|].
    symmetry. apply Z.div_small. unfold len. cbn. lia. }
  assert (Hl : 0 < len l) by (destruct l; [done|]; rewrite len_cons; pose proof (len_nonneg l); lia).
  assert (Hq : (len l + size - 1) / size = 1 + (len l - 1) / size).
  { replace (len l + size - 1) with (len l - 1 + 1 * size) by lia. rewrite Z.div_add by lia. lia. }
  assert (0 ≤ (len l - 1) / size) by (apply Z.div_pos; lia).
  rewrite Hq, py_range_cons by done. rewrite fmap_cons. cbn [concat].
  rewrite Z.sub_diag. change (Z.to_nat 0) with O. rewrite drop_0.
  destruct (decide (len l ≤ size)) as [Hsmall|Hbig].
  { rewrite take_ge by (unfold len in Hsmall; lia). rewrite Z.div_small by lia. rewrite py_range_nil by lia. apply app_nil_r. }
  assert (Hld : len (drop (Z.to_nat size) l) = len l - size) by (unfold len in *; rewrite length_drop; lia).
  transitivity (take (Z.to_nat size) l ++ drop (Z.to_nat size) l); [|apply take_drop]. f_equal.
  rewrite <- (IH (drop (Z.to_nat size) l) (b + 1)) by (unfold len in *; lia).
  rewrite Hld. replace (len l - size + size - 1) with (len l - 1) by lia.
  f_equal. apply list_fmap_ext. intros i k Hk%list_elem_of_lookup_2%elem_of_py_range. f_equal. rewrite drop_drop. f_equal. nia.
Qed.

Lemma chunk_list_concat (l : list Z) size : 0 < size → concat (_chunk_list l size) = l.
Proof.
  intros Hs. unfold _chunk_list. destruct (Z.ltb_spec size 0); [lia|].
  pose proof (concat_pieces size (length l) Hs l 0 ltac:(done) ltac:(lia)) as E. rewrite Z.add_0_l in E.
  etransitivity; [|exact E]. f_equal. apply list_fmap_ext. intros i k Hk%list_elem_of_lookup_2%elem_of_py_range.
  rewrite slice_take_drop by lia. do 3 f_equal. lia.
Qed.

Lemma layer_chunks_ok lpc keys : NoDup keys → Forall (chunk_of keys) (_compute_update_layer_ids_chunks lpc keys).
Proof. apply chunk_list_ok. Qed.

Lemma layer_chunks_concat lpc keys : (∀ k, lpc = Some k → 0 ≤ k) →
  concat (_compute_update_layer_ids_chunks lpc keys) ≡ₚ keys.
Proof.
  intros Hk. unfold _compute_update_layer_ids_chunks. rewrite chunk_list_concat; [apply py_sort_perm|].
  destruct lpc as [k|]; [|done]. specialize (Hk k eq_refl). destruct (Z.eqb_spec k 0); lia.
Qed.

(** ** The abstract machine *)

Inductive phase :=
  | PStarted
  | PWaiting (i : Z)
  | PChunked (new : list (list Z)) (ids : list Z) (rest : list (list Z)).

Definition after_chunk (new : list (list Z)) (rest : list (list Z)) : phase :=
  match rest with [] => PWaiting 0 | ids :: rest => PChunked new ids rest end.

(** One pass: [plan] are the chunks, [good] says which maps may be chosen. *)
Inductive eplb_step (iterations : Z) (plan : list (list Z)) (good : list (list Z) → Prop) :
    list (list Z) * phase → list (list Z) * phase → Prop :=
  | step_start p : eplb_step iterations plan good (p, PStarted) (p, PWaiting 0)
  | step_wait p i : i + 1 < iterations → eplb_step iterations plan good (p, PWaiting i) (p, PWaiting (i + 1))
  | step_skip p i : i + 1 = iterations → eplb_step iterations plan good (p, PWaiting i) (p, PWaiting 0)
  | step_all p i new ids p' : i + 1 = iterations → good new → plan = [ids] → mixed ids p new p' →
      eplb_step iterations plan good (p, PWaiting i) (p', PWaiting 0)
  | step_plan p i new ids rest : i + 1 = iterations → good new → plan = ids :: rest → rest ≠ [] →
      eplb_step iterations plan good (p, PWaiting i) (p, PChunked new ids rest)
  | step_chunk p new ids rest p' : mixed ids p new p' →
      eplb_step iterations plan good (p, PChunked new ids rest) (p', after_chunk new rest).

(** ** The world between two passes *)

Section world.
Context {S W A : Type} `{Hrandom : Random S} `{!RandomLaws S} `{Hfloat : TorchFloat W} `{!TorchLaws W}.
Context `{Hvec : TorchVec W} `{!TorchVecLaws W} `{Hint : OfInt W} `{Hp2p : P2P} `{!P2PLaws} `{Huninit : Uninitialised A}.
Context (content : Z → Z → Z → A) (keys : list Z) (args : ManagerArgs W) (a : ServerArgs)
  (c : ModelConfigForExpertLocation) (B nt : Z).

Let n := num_logical_experts c.
Let P := n + ep_num_redundant_experts a.
Let L := num_layers c.
Let R := ep_size a.
Let nl := P / R.
Let iterations := eplb_rebalance_num_iterations args.
Let plan := _compute_update_layer_ids_chunks (eplb_rebalance_layers_per_chunk args) keys.

(** The sizes and options of a server. *)
Record setup (alg : EplbAlgorithm) (dispatch : string) : Prop := {
  su_experts : 0 < n ≤ P;
  su_layers : 0 < L;
  su_group : group_ok a P;
  su_keys : NoDup keys ∧ Forall (λ l, 0 ≤ l < L) keys;
  su_iterations : 0 < iterations;
  su_buffer : B ≠ 0;
  su_dispatch : ep_dispatch_algorithm a = Some dispatch ∧ dispatch ∈ ["static"; "dynamic"; "fake"];
  su_algorithm : compute_algorithm (eplb_algorithm a) (num_groups c) (nnodes a) = Ok alg;
  su_config : algorithm_config n P R (nnodes a) (num_groups c) (replicate (Z.to_nat R) 1) alg;
}.

Definition at_phase (ph : phase) (g : control) : Prop :=
  match ph, g with
  | PStarted, Started => True
  | PWaiting i, Waiting j => i = j
  | PChunked new ids rest, Chunked m ids' rest' =>
      metadata_ok a n P L m ∧ physical_to_logical_map m = new ∧ ids' = ids ∧ rest' = rest
  | _, _ => False
  end.

Definition phase_ok (ph : phase) : Prop :=
  match ph with
  | PStarted => True
  | PWaiting i => 0 ≤ i < iterations
  | PChunked _ ids rest => Forall (chunk_of keys) (ids :: rest)
  end.

(** The state of rank [r]. *)
Definition rank_ok (p2l : list (list Z)) (cur : Z) (ph : phase) (r : Z) (s : rank_state A) : Prop :=
  follows content keys a n P L nl nt p2l r s ∧ records B L P cur s ∧ at_phase ph (main_generator s).

Record world (p2l : list (list Z)) (cur : Z) (ph : phase) (ranks : list (rank_state A)) : Prop := {
  wo_ranks : len ranks = R;
  wo_phase : phase_ok ph;
  wo_cursor : 0 ≤ cur;
  wo_rank : ∀ r s, zat ranks r = Some s → rank_ok p2l cur ph r s;
}.

Context (alg : EplbAlgorithm) (dispatch : string) (Hsetup : setup alg dispatch).

Lemma setup_sizes : 0 < R ∧ 0 < nl ∧ 0 < P ∧ P = R * nl ∧ 0 < L ∧ 0 < n.
Proof.
  destruct Hsetup as [H1 H2 H3 _ _ _ _ _ _]. destruct (group_sizes _ _ H3) as (H4 & _ & H5). destruct H3 as [H6 _ [H7 _]].
  fold R nl in H4, H5, H6. split_and!; [done..|lia|done|lia].
Qed.

Lemma world_map p2l cur ph ranks : world p2l cur ph ranks → placed n P L p2l.
Proof.
  intros [H1 _ _ H2]. destruct setup_sizes as (HR & _ & _ & _ & _ & Hn). destruct (zat_in ranks 0) as [s Hs]; [lia|].
  destruct (H2 0 s Hs) as [[Hm <- _] _]. by apply (metadata_placed a).
Qed.

(** *** Stages of the generators within a pass *)

Inductive stage :=
  | SYield (ph : phase)
  | SDump
  | SUpdate (new : list (list Z)) (ids : list Z) (rest : list (list Z)).

Definition at_stage (st : stage) (e : event) : Prop :=
  match st, e with
  | SYield ph, Yield g => at_phase ph g
  | SDump, Dump => True
  | SUpdate new ids rest, Update m ids' rest' =>
      metadata_ok a n P L m ∧ physical_to_logical_map m = new ∧ ids' = ids ∧ rest' = rest
  | _, _ => False
  end.

Lemma main_loop_stage : at_stage (SYield (PWaiting 0)) (main_loop args).
Proof. unfold main_loop. destruct Hsetup as [_ _ _ _ Hi _ _ _ _]. fold iterations. by destruct (Z.ltb_spec 0 iterations); [|lia]. Qed.

Lemma next_chunk_stage m new rest : metadata_ok a n P L m → physical_to_logical_map m = new →
  at_stage (SYield (after_chunk new rest)) (next_chunk args m rest).
Proof. intros Hm Hp. destruct rest as [|ids rest]; [apply main_loop_stage|]. done. Qed.

Definition resumed (ph : phase) : stage :=
  match ph with
  | PStarted => SYield (PWaiting 0)
  | PWaiting i => if i + 1 <? iterations then SYield (PWaiting (i + 1)) else SDump
  | PChunked new ids rest => SUpdate new ids rest
  end.

Lemma resume_stage ph g : at_phase ph g → at_stage (resumed ph) (resume args g).
Proof.
  destruct ph as [|i|new ids rest], g as [|j|m ids' rest']; try done; cbn [at_phase resumed resume].
  - intros _. apply main_loop_stage.
  - intros <-. fold iterations. by destruct (i + 1 <? iterations).
Qed.

(** The ranks, whatever their generators are at. *)
Definition ranks_ok (p2l : list (list Z)) (cur : Z) (ranks : list (rank_state A)) : Prop :=
  len ranks = R ∧ ∀ r s, zat ranks r = Some s → follows content keys a n P L nl nt p2l r s ∧ records B L P cur s.

Lemma yields_ok ph es : Forall (at_stage (SYield ph)) es → ∃ gs, yields es = Some gs ∧ length gs = length es ∧ Forall (at_phase ph) gs.
Proof.
  unfold yields. induction 1 as [|e es He _ (gs & E & Hl & Hgs)]; [by exists []|]. destruct e as [g| |]; [|done..].
  exists (g :: gs). cbn. rewrite E. cbn. split_and!; [done|by f_equal|by constructor].
Qed.

Lemma yields_none st es : es ≠ [] → Forall (at_stage st) es → (∀ ph, st ≠ SYield ph) → yields es = None.
Proof. destruct es as [|e es]; [done|]. intros _ [He _]%Forall_cons Hst. destruct st, e; try done. by destruct (Hst ph). Qed.

Lemma dumps_none st es : es ≠ [] → Forall (at_stage st) es → st ≠ SDump → dumps es = None.
Proof. destruct es as [|e es]; [done|]. intros _ [He _]%Forall_cons Hst. by destruct st, e. Qed.

Lemma dumps_ok es : Forall (at_stage SDump) es → ∃ us, dumps es = Some us.
Proof. unfold dumps. induction 1 as [|e es He _ (us & E)]; [by exists []|]. destruct e; [done| |done]. exists (tt :: us). cbn. by rewrite E. Qed.

Lemma updates_ok new ids rest es : Forall (at_stage (SUpdate new ids rest)) es →
  ∃ us, updates es = Some us ∧ length us = length es ∧
    Forall (λ u, metadata_ok a n P L u.1.1 ∧ physical_to_logical_map u.1.1 = new ∧ u.1.2 = ids ∧ u.2 = rest) us.
Proof.
  unfold updates. induction 1 as [|e es He _ (us & E & Hl & Hus)]; [by exists []|]. destruct e as [| |m ids' rest']; [done..|].
  exists ((m, ids', rest') :: us). cbn. rewrite E. cbn. split_and!; [done|by f_equal|by constructor].
Qed.

(** *** The stages run *)

(** All yield. *)
Lemma run_yield fuel util p2l cur ph ranks es : ranks_ok p2l cur ranks → phase_ok ph → 0 ≤ cur → length es = length ranks →
  Forall (at_stage (SYield ph)) es →
  ∃ ranks', run_generators args a (Some c) (Datatypes.S fuel) util ranks es = Ok ranks' ∧ world p2l cur ph ranks' ∧
    distribution_recorder <$> ranks' = distribution_recorder <$> ranks.
Proof.
  intros [Hl Hr] Hph Hcur Hes Hst. destruct (yields_ok ph es Hst) as (gs & E & Hgs & Hat). cbn [run_generators]. rewrite E.
  eexists. split; [done|]. split.
  - split; [unfold len in *; rewrite length_zip_with; lia|done|done|]. intros r s' Hs'. unfold zat in Hs'. destruct (r <? 0) eqn:Er; [done|].
    apply lookup_zip_with_Some in Hs' as (s & g & -> & Hs & Hg). rewrite Forall_forall in Hat.
    destruct (Hr r s) as [[F1 F2 F3] Hrec]; [unfold zat; by rewrite Er|].
    split; [split; done|]. split; [exact Hrec|]. apply Hat. by apply list_elem_of_lookup_2 in Hg.
  - clear -Hgs Hes. assert (Hl : length gs = length ranks) by lia. clear Hgs Hes. revert gs Hl.
    induction ranks as [|s ranks IH]; intros [|g gs] Hl; [done..|]. cbn. f_equal. apply IH. by injection Hl.
Qed.

Lemma plan_ok : Forall (chunk_of keys) plan.
Proof. apply layer_chunks_ok. by destruct Hsetup as [_ _ _ [? _] _ _ _ _ _]. Qed.

(** All update the layers [ids], then yield. *)
Lemma run_update fuel util p2l cur new ids rest ranks es : ranks_ok p2l cur ranks → 0 ≤ cur → length es = length ranks →
  Forall (at_stage (SUpdate new ids rest)) es → Forall (chunk_of keys) (ids :: rest) →
  ∃ ranks' p2l', run_generators args a (Some c) (Datatypes.S (Datatypes.S fuel)) util ranks es = Ok ranks' ∧ mixed ids p2l new p2l' ∧
    world p2l' cur (after_chunk new rest) ranks' ∧ distribution_recorder <$> ranks' = distribution_recorder <$> ranks.
Proof.
  intros [Hl Hr] Hcur Hes Hst [[Hne [Hnd Hin]] Hrest]%Forall_cons. destruct setup_sizes as (HR & Hnl & HP & HPR & HL & Hn).
  assert (Hes0 : es ≠ []) by (intros ->; unfold len in Hl; cbn in Hes; lia).
  destruct (updates_ok new ids rest es Hst) as (us & E & Hlu & Hus).
  cbn [run_generators]. rewrite (yields_none (SUpdate new ids rest)), (dumps_none (SUpdate new ids rest)), E by done.
  destruct us as [|u us'] eqn:Eus; [cbn in Hlu; unfold len in Hl; lia|]. rewrite <- Eus in *.
  assert (Eh : head us = Some u) by (by rewrite Eus). rewrite Eh. cbn [of_opt res_bind].
  assert (Eu : u.1.2 = ids ∧ u.2 = rest) by (rewrite Eus in Hus; by apply Forall_cons in Hus as [(_ & _ & ? & ?) _]).
  destruct u as [[m0 ids0] rest0]. cbn in Eu. destruct Eu as [-> ->].
  rewrite bool_decide_true by (apply (Forall_impl _ _ _ Hus); by intros ? (_ & _ & ? & _)). cbn [negb guard_raise res_bind].
  destruct Hsetup as [_ _ Hg [Hkn Hkr] _ _ _ _ _].
  destruct (update_expert_location_ok content keys a n P L nt p2l new us.*1.*1 ids ranks) as (ranks' & p2l' & E2 & Hmix & Hl' & Hall);
    [done|done|done|done|done| |done| | | |].
  { apply Forall_forall. intros l Hlin. rewrite Forall_forall in Hkr. split; [|by apply Hin]. by apply Hkr, Hin. }
  { intros r s Hs. by destruct (Hr r s Hs). }
  { rewrite !len_fmap. unfold len in *. lia. }
  { apply Forall_fmap, Forall_fmap, (Forall_impl _ _ _ Hus). by intros v (? & ? & _). }
  rewrite E2. cbn [res_bind].
  assert (Hrec : distribution_recorder <$> ranks' = distribution_recorder <$> ranks).
  { apply list_eq_zat. intros r. rewrite !zat_fmap. destruct (decide (0 ≤ r < R)) as [Hrb|Hrb].
    - destruct (zat_in ranks r) as [s Hs]; [lia|]. destruct (zat_in ranks' r) as [s' Hs']; [unfold R in *; lia|].
      rewrite Hs, Hs'. cbn. f_equal. by destruct (Hall r s s' Hs Hs') as (_ & ? & _).
    - destruct (zat ranks r) eqn:E3; [apply zat_Some_bound in E3; lia|].
      destruct (zat ranks' r) eqn:E4; [apply zat_Some_bound in E4; unfold R in *; lia|done]. }
  destruct (run_yield fuel util p2l' cur (after_chunk new rest) ranks' ((λ u, next_chunk args u.1.1 u.2) <$> us)) as (ranks2 & E3 & Hw & Hrec2).
  - split; [done|]. intros r s' Hs'. destruct (zat_in ranks r) as [s Hs]; [apply zat_Some_bound in Hs'; unfold R in *; lia|].
    destruct (Hall r s s' Hs Hs') as (F & Er & _). destruct (Hr r s Hs) as [_ [Q1 Q2]].
    split; [done|]. unfold records. rewrite Er. done.
  - destruct rest as [|ids1 rest1]; cbn [after_chunk phase_ok]; [|done]. destruct Hsetup as [_ _ _ _ Hi _ _ _ _]. lia.
  - done.
  - rewrite length_fmap. unfold len in *. unfold R in *. lia.
  - apply Forall_fmap, (Forall_impl _ _ _ Hus). intros v (G1 & G2 & _ & G4). cbv beta delta [compose]. rewrite G4. by apply next_chunk_stage.
  - exists ranks2, p2l'. split; [done|]. split; [done|]. split; [done|]. by rewrite Hrec2.
Qed.

(** What follows a dump: nothing, one update of everything, or the first of several. *)
Definition dumped (st : stage) : Prop :=
  st = SYield (PWaiting 0) ∨
  ∃ new ids rest, placed n P L new ∧ plan = ids :: rest ∧
    st = match rest with [] => SUpdate new ids [] | _ => SYield (PChunked new ids rest) end.

Lemma after_dump_ok counts util : loads_shape (Z.to_nat L) n counts →
  ∃ st, dumped st ∧ ∀ rank, ∃ e, after_dump args a (Some c) keys rank R counts util = Ok e ∧ at_stage st e.
Proof.
  intros Hcounts. destruct setup_sizes as (HR & Hnl & HP & HPR & HL & Hn). unfold after_dump.
  destruct (_check_rebalance_needed args util).
  2:{ exists (SYield (PWaiting 0)). split; [by left|]. intros rank. eexists. split; [done|]. apply main_loop_stage. }
  cbn [negb]. destruct Hsetup as [_ _ Hg _ _ _ _ Halg Hcfg].
  set (loads := (λ step : list (list Z), (λ row : list Z, of_int <$> row) <$> step) <$> counts).
  destruct (init_by_eplb_ok (S := S) (W := W) a c (Z.to_nat L) loads (replicate (Z.to_nat R) 1) alg) as (phys & Hinit); [|lia|done|done|done|done|].
  { unfold loads. destruct Hcounts as [Hne Hall]. split; [intros E; by apply fmap_nil_inv in E|].
    apply Forall_fmap, (Forall_impl _ _ _ Hall). intros m [Hm Hr]. cbn. split; [by rewrite length_fmap|].
    apply Forall_fmap, (Forall_impl _ _ _ Hr). intros row Hrow. cbn. by rewrite len_fmap. }
  rewrite Z2Nat.id in Hinit by lia. fold n P L in Hinit.
  assert (Hphys : placed n P L phys).
  { destruct (Hinit 0) as (m & _ & Hm & <-). by apply (metadata_placed a). }
  destruct plan as [|ids rest] eqn:Eplan.
  - exists (SYield (PWaiting 0)). split; [by left|]. intros rank. destruct (Hinit rank) as (m & -> & _). cbn [res_bind].
    fold plan. rewrite Eplan. eexists. split; [done|]. apply main_loop_stage.
  - exists (match rest with [] => SUpdate phys ids [] | _ => SYield (PChunked phys ids rest) end).
    split; [right; by exists phys, ids, rest|]. intros rank. destruct (Hinit rank) as (m & -> & Hm & Hp). cbn [res_bind].
    fold plan. rewrite Eplan. destruct rest as [|ids1 rest]; (eexists; split; [done|]); done.
Qed.

Lemma run_dump fuel util p2l cur i ranks es : ranks_ok p2l cur ranks → 0 ≤ cur → (B < 0 → 0 < cur) → length es = length ranks →
  Forall (at_stage SDump) es → i + 1 = iterations →
  ∃ ranks' p2l' cur' ph', run_generators args a (Some c) (Datatypes.S (Datatypes.S (Datatypes.S fuel))) util ranks es = Ok ranks' ∧
    eplb_step iterations plan (placed n P L) (p2l, PWaiting i) (p2l', ph') ∧ world p2l' cur' ph' ranks'.
Proof.
  intros [Hl Hr] Hcur Hinf Hes Hst Hi. destruct setup_sizes as (HR & Hnl & HP & HPR & HL & Hn).
  assert (Hne : ranks ≠ []) by (intros ->; unfold len in Hl; cbn in Hl; lia).
  assert (Hes0 : es ≠ []) by (intros ->; destruct ranks; [done|by cbn in Hes]).
  destruct (zat_in ranks 0) as [s0 Hs0]; [lia|].
  assert (Hmap : map_ok n P L p2l).
  { destruct (Hr 0 s0 Hs0) as [[Hm <- _] _]. by apply (metadata_placed a). }
  destruct (dumps_ok es Hst) as (us & E). remember (Datatypes.S (Datatypes.S fuel)) as f2 eqn:Ef. cbn [run_generators].
  rewrite (yields_none SDump), E by done. clear E us.
  destruct (dump_ok a n P L B p2l cur ranks Hn HL Hne Hmap) as (recs & -> & Hrecs & Hcl & Hcs).
  { apply Forall_forall. intros s (r & Hs)%elem_zat. by destruct (Hr r s Hs) as [[? ? _] ?]. }
  set (counts := all_reduce _) in *. cbn [res_bind].
  destruct (after_dump_ok counts util) as (st & Hdump & Hafter).
  { assert (0 < len counts) by (rewrite Hcl; destruct (Z.ltb_spec B 0); [by apply Hinf|destruct Hsetup; lia]). split.
    - intros E. rewrite E in *. unfold len in *. cbn in *. lia.
    - apply (Forall_impl _ _ _ Hcs). intros m [Hm Hrows]. split; [unfold len in Hm; lia|by apply (shaped_rows L)]. }
  set (ranks1 := zip_with with_recorder ranks recs).
  pose proof (Forall2_length _ _ _ Hrecs) as Hlr.
  assert (Hl1 : len ranks1 = R) by (unfold ranks1, len in *; rewrite length_zip_with; lia).
  set (cur' := if B <? 0 then 0 else cur).
  assert (Hr1 : ranks_ok p2l cur' ranks1).
  { split; [done|]. intros r s' Hs'. unfold zat, ranks1 in Hs'. destruct (r <? 0) eqn:Er; [done|].
    apply lookup_zip_with_Some in Hs' as (s & rec & -> & Hs & Hrec). destruct (Forall2_lookup_lr _ _ _ _ _ _ Hrecs Hs Hrec) as [Q1 Q2].
    destruct (Hr r s) as [[F1 F2 F3] _]; [unfold zat; by rewrite Er|]. split; [done|]. by split. }
  assert (∃ es', mapM_res (λ '(rank, s), after_dump args a (Some c) (routed_experts_weights_of_layer s).*1 rank (len ranks1) counts util)
      (zip (py_range 0 (len ranks1)) ranks1) = Ok es' ∧ Forall (at_stage st) es' ∧ length es' = length ranks1) as (es' & -> & Hst' & Hes').
  { destruct (mapM_res_exists (λ '(rank, s), after_dump args a (Some c) (routed_experts_weights_of_layer s).*1 rank (len ranks1) counts util)
      (λ _ e, at_stage st e) (zip (py_range 0 (len ranks1)) ranks1)) as (es' & E & HF).
    - apply Forall_forall. intros [r s] (j & [_ Hs]%zat_zip)%elem_zat. destruct Hr1 as [_ Hr1]. destruct (Hr1 j s Hs) as [[_ _ [Hk _]] _].
      rewrite Hk, Hl1. apply Hafter.
    - exists es'. split; [done|]. split.
      + apply Forall_forall. intros e (j & Hj)%list_elem_of_lookup. by destruct (Forall2_lookup_r _ _ _ _ _ HF Hj) as (? & _ & ?).
      + apply Forall2_length in HF. rewrite <- HF, length_zip_with, length_py_range. unfold len in *. lia. }
  cbn [res_bind]. assert (0 ≤ cur') by (unfold cur'; destruct (B <? 0); lia).
  assert (Hi0 : 0 < iterations) by (by destruct Hsetup).
  destruct Hdump as [->|(new & ids & rest & Hnew & Eplan & ->)].
  - subst f2. destruct (run_yield (Datatypes.S fuel) util p2l cur' (PWaiting 0) ranks1 es') as (ranks2 & E & Hw & _); [done|cbn; lia|done..|].
    exists ranks2, p2l, cur', (PWaiting 0). split; [done|]. split; [by apply step_skip|done].
  - pose proof plan_ok as Hplan. rewrite Eplan in Hplan. destruct rest as [|ids1 rest].
    + subst f2. destruct (run_update fuel util p2l cur' new ids [] ranks1 es') as (ranks2 & p2l' & E & Hmix & Hw & _); [done..|].
      exists ranks2, p2l', cur', (PWaiting 0). split; [done|]. split; [by eapply step_all|done].
    + subst f2. destruct (run_yield (Datatypes.S fuel) util p2l cur' (PChunked new ids (ids1 :: rest)) ranks1 es') as (ranks2 & E & Hw & _); [done..|].
      exists ranks2, p2l, cur', (PChunked new ids (ids1 :: rest)). split; [done|]. split; [by eapply step_plan|done].
Qed.

End world.
