(* ===== verification/ExpertManagerSpec.v ===== *)
(** * Runs of the load balancer

    Whatever the batches are, the ranks stay in step: no collective operation waits
    for a rank that does not come, every token reaches a place that holds the weights
    of its expert, also while only some layers have moved, and what the balancer sees
    are the tokens of the last passes. *)

From S2P Require Import Prelude Tensor ExpertLoad ExpertPacking ExpertOptimal ExpertLoadSpec ExpertBalance.
From S2P Require Import ExpertUpdate ExpertUpdateChunks ExpertUpdatePlan ExpertUpdateMatch.
From S2P Require Import ExpertUpdateSpec.
From S2P Require Import ExpertElastic ExpertElasticSpec ExpertVec ExpertVecSpec ExpertVecBalance.
From S2P Require Import ExpertLocation ExpertLocationSpec ExpertMetadata ExpertConstruct.
From S2P Require Import ExpertRecorder ExpertRecorderSpec ExpertManager ExpertManagerPass.
From S2P Require Import ExpertManagerWorld.

(** ** The history in the buffers *)

Definition pushes {X} (B : Z) (l items : list X) : list X :=
  if B <? 0 then l ++ items else drop (length items) (l ++ items).

Lemma push_pushes {X} B (l items : list X) x : (0 < B → len l = B) → B ≠ 0 →
  push B (pushes B l items) x = pushes B l (items ++ [x]).
Proof.
  intros Hl HB. unfold push, pushes. destruct (Z.ltb_spec B 0); [by rewrite <- app_assoc|].
  rewrite length_app. cbn [length]. rewrite app_assoc, (drop_app_le (l ++ items) [x]).
  - by rewrite drop_drop.
  - rewrite length_app. assert (len l = B) by (apply Hl; lia). unfold len in *. lia.
Qed.

Lemma pushes_last {X} B (l items : list X) : 0 < B → len l = B → B ≤ len items →
  pushes B l items = drop (Z.to_nat (len items - B)) items.
Proof.
  intros HB Hl Hi. unfold pushes. destruct (Z.ltb_spec B 0); [lia|].
  rewrite drop_app_ge by (unfold len in *; lia). f_equal. unfold len in *. lia.
Qed.

Lemma fold_zip_app {X Y I} (f : I → X → list Y) (xs : list X) (ks : list I) : ∀ g : X → list Y,
  fold_left (zip_with (++)) ((λ i, f i <$> xs) <$> ks) (g <$> xs) = (λ x, g x ++ concat ((λ i, f i x) <$> ks)) <$> xs.
Proof.
  induction ks as [|i ks IH]; intros g.
  - cbn. apply list_fmap_ext. intros _ x _. by rewrite app_nil_r.
  - rewrite fmap_cons. cbn [fold_left].
    assert (E : zip_with (++) (g <$> xs) (f i <$> xs) = (λ x, g x ++ f i x) <$> xs).
    { clear. induction xs as [|x xs IH]; [done|]. cbn. by f_equal. }
    rewrite E, IH. apply list_fmap_ext. intros _ x _. rewrite fmap_cons. cbn [concat]. by rewrite <- app_assoc.
Qed.

Section runs.
Context {S W A : Type} `{Hrandom : Random S} `{!RandomLaws S} `{Hfloat : TorchFloat W} `{!TorchLaws W}.
Context `{Hvec : TorchVec W} `{!TorchVecLaws W} `{Hint : OfInt W} `{Hp2p : P2P} `{!P2PLaws} `{Huninit : Uninitialised A}.
Context (content : Z → Z → Z → A) (keys : list Z) (args : ManagerArgs W) (a : ServerArgs)
  (c : ModelConfigForExpertLocation) (B nt : Z) (alg : EplbAlgorithm) (dispatch : string).
Context (Hsetup : setup keys args a c B alg dispatch).

Let n := num_logical_experts c.
Let P := n + ep_num_redundant_experts a.
Let L := num_layers c.
Let R := ep_size a.
Let nl := P / R.
Let iterations := eplb_rebalance_num_iterations args.
Let plan := _compute_update_layer_ids_chunks (eplb_rebalance_layers_per_chunk args) keys.

Definition batches_ok (batches : list (list call)) : Prop :=
  len batches = R ∧ Forall (Forall (call_ok n L)) batches.

(** The last passes in the buffer of rank [r] are the [recent] ones, counted with
    the map in force. *)
Definition fresh (p2l : list (list Z)) (recent : list (list (list call))) (r : Z) (s : rank_state A) : Prop :=
  ∃ old items, (0 < B → len old = B) ∧ contents (accumulated (distribution_recorder s)) = pushes B old items ∧
    Forall2 (λ item batches, ∃ calls, zat batches r = Some calls ∧ convert n p2l item = counts L n (asked_calls calls)) items recent.

Record history (p2l : list (list Z)) (ph : phase) (recent : list (list (list call))) (ranks : list (rank_state A)) : Prop := {
  hi_fresh : ∀ r s, zat ranks r = Some s → fresh p2l recent r s;
  hi_waited : ∀ i, ph = PWaiting i → i ≤ len recent;
}.

Lemma buffer_length bf : buffer_ok B L P bf → 0 < B → len (contents bf) = B.
Proof.
  intros Hb HB. pose proof (get_all_arrange _ _ _ _ Hb) as E. pose proof (contents_length _ _ _ _ Hb) as Hl.
  destruct (Z.ltb_spec B 0); [lia|]. rewrite E in Hl. etransitivity; [|exact Hl]. unfold len. f_equal.
  apply Permutation_length. symmetry. apply arrange_perm.
Qed.

Lemma fresh_nil p2l r s : recorder_ok B L P (distribution_recorder s) → fresh p2l [] r s.
Proof.
  intros [_ _ _ _ _ Hb]. exists (contents (accumulated (distribution_recorder s))), []. split; [by apply buffer_length|].
  split; [|constructor]. unfold pushes. rewrite app_nil_r. cbn. rewrite drop_0. by destruct (B <? 0).
Qed.

(** *** One pass *)

Lemma forward_all_ok i p2l cur ph recent ranks batches :
  world content keys args a c B nt p2l cur ph ranks → history p2l ph recent ranks → batches_ok batches →
  ∃ out, map2_res (forward a i) ranks batches = Ok out ∧ len out = R ∧
    ranks_ok content keys a c B nt p2l (next_cursor B cur) out.*1 ∧
    (∀ r s, zat out.*1 r = Some s → at_phase a c ph (main_generator s)) ∧
    (∀ r s, zat out.*1 r = Some s → fresh p2l (recent ++ [batches]) r s) ∧ Forall2 (delivered p2l) batches out.*2.
Proof.
  intros [Hl _ _ Hw] [Hf _] [Hlb Hb]. destruct (setup_sizes keys args a c B alg dispatch Hsetup) as (HR & Hnl & HP & HPR & HL & Hn).
  fold n P L R nl in HR, Hnl, HP, HPR, HL, Hn, Hl.
  pose proof (su_dispatch _ _ _ _ _ _ _ Hsetup) as [Hd1 Hd2]. pose proof (su_buffer _ _ _ _ _ _ _ Hsetup) as HB.
  destruct (map2_res_exists (forward a i) (λ s calls o, ∃ r rec item, zat ranks r = Some s ∧ zat batches r = Some calls ∧
      o.1 = with_recorder s rec ∧ recorder_ok B L P rec ∧ cursor (accumulated rec) = next_cursor B cur ∧
      contents (accumulated rec) = push B (contents (accumulated (distribution_recorder s))) item ∧
      convert n p2l item = counts L n (asked_calls calls) ∧ delivered p2l calls o.2) ranks batches) as (out & E & H3).
  { apply Forall2_same_length_lookup. split; [unfold len in *; lia|]. intros j s calls Hs Hc. rewrite <- zat_nat in Hs. rewrite <- zat_nat in Hc.
    destruct (Hw (Z.of_nat j) s Hs) as ([F1 F2 F3] & [F4 F5] & F6). rewrite Forall_forall in Hb.
    destruct (forward_ok a n P L B Hn HP HL dispatch Hd1 Hd2 i s calls F1 F4) as (rec & places & item & E & G1 & G2 & G3 & _ & G4 & G5);
      [apply Hb; by eapply zat_elem|].
    rewrite F2 in G4, G5. rewrite F5 in G2. exists (with_recorder s rec, places). split; [done|]. by exists (Z.of_nat j), rec, item. }
  exists out. split; [done|].
  assert (Hlo : length out = length ranks) by (clear -H3; induction H3; cbn; lia).
  assert (Hout : ∀ r o, zat out r = Some o → ∃ s calls, zat ranks r = Some s ∧ zat batches r = Some calls ∧ ∃ rec item,
      o.1 = with_recorder s rec ∧ recorder_ok B L P rec ∧ cursor (accumulated rec) = next_cursor B cur ∧
      contents (accumulated rec) = push B (contents (accumulated (distribution_recorder s))) item ∧
      convert n p2l item = counts L n (asked_calls calls) ∧ delivered p2l calls o.2).
  { assert (Hgen : ∀ (j : nat) o, out !! j = Some o → ∃ s calls, ranks !! j = Some s ∧ batches !! j = Some calls ∧ ∃ rec item,
      o.1 = with_recorder s rec ∧ recorder_ok B L P rec ∧ cursor (accumulated rec) = next_cursor B cur ∧
      contents (accumulated rec) = push B (contents (accumulated (distribution_recorder s))) item ∧
      convert n p2l item = counts L n (asked_calls calls) ∧ delivered p2l calls o.2).
    { clear -H3. revert H3. generalize ranks at 1, batches at 1. intros ranks0 batches0 H3.
      induction H3 as [|s calls o ? ? ? (r & rec & item & _ & _ & H) _ IH]; intros j o' Hj; [done|]. destruct j as [|j]; [|by apply IH].
      cbn in Hj. injection Hj as <-. exists s, calls. split; [done|]. split; [done|]. by exists rec, item. }
    intros r o Ho. unfold zat in *. destruct (r <? 0); [done|]. by apply Hgen. }
  split; [unfold len in *; lia|]. split_and!.
  - split; [rewrite len_fmap; unfold len in *; unfold R in *; lia|]. intros r s'. rewrite zat_fmap. destruct (zat out r) as [o|] eqn:Eo; [|done].
    intros [= <-]. destruct (Hout r o Eo) as (s & calls & Hs & _ & rec & item & -> & G1 & G2 & _).
    destruct (Hw r s Hs) as ([F1 F2 F3] & _ & _). split; [done|]. by split.
  - intros r s'. rewrite zat_fmap. destruct (zat out r) as [o|] eqn:Eo; [|done]. intros [= <-].
    destruct (Hout r o Eo) as (s & calls & Hs & _ & rec & item & -> & _). by destruct (Hw r s Hs) as (_ & _ & ?).
  - intros r s'. rewrite zat_fmap. destruct (zat out r) as [o|] eqn:Eo; [|done]. intros [= <-].
    destruct (Hout r o Eo) as (s & calls & Hs & Hc & rec & item & -> & _ & _ & G3 & G4 & _).
    destruct (Hf r s Hs) as (old & items & Ho & Hcont & HF). exists old, (items ++ [item]). split; [done|]. split.
    + cbn. rewrite G3, Hcont. by apply push_pushes.
    + apply Forall2_app; [done|]. constructor; [|constructor]. by exists calls.
  - apply Forall2_same_length_lookup. split; [rewrite length_fmap; unfold len in *; lia|]. intros j calls places Hc Hp.
    rewrite list_lookup_fmap in Hp. destruct (out !! j) as [o|] eqn:Eo; [|done]. injection Hp as <-.
    destruct (Hout (Z.of_nat j) o) as (s & calls' & _ & Hc' & rec & item & _ & _ & _ & _ & _ & G5); [by rewrite zat_nat|].
    rewrite zat_nat in Hc'. by assert (calls' = calls) as -> by congruence.
Qed.

Lemma world_fresh_nil p2l cur ph ph' ranks : world content keys args a c B nt p2l cur ph ranks →
  (∀ i, ph = PWaiting i → i = 0) → ph' = ph → history p2l ph' [] ranks.
Proof.
  intros [_ _ _ Hw] Hph ->. split.
  - intros r s Hs. apply fresh_nil. by destruct (Hw r s Hs) as (_ & [? _] & _).
  - intros i Hi. by rewrite (Hph i Hi).
Qed.

Lemma fresh_recorder p2l recent (ranks ranks' : list (rank_state A)) :
  distribution_recorder <$> ranks' = distribution_recorder <$> ranks →
  (∀ r s, zat ranks r = Some s → fresh p2l recent r s) → ∀ r s, zat ranks' r = Some s → fresh p2l recent r s.
Proof.
  intros E Hf r s' Hs'. assert (Hz : distribution_recorder <$> zat ranks r = distribution_recorder <$> zat ranks' r) by (by rewrite <- !zat_fmap, E).
  rewrite Hs' in Hz. destruct (zat ranks r) as [s|] eqn:Es; [|done]. injection Hz as Hz.
  destruct (Hf r s Es) as (old & items & ? & ? & ?). exists old, items. by rewrite <- Hz.
Qed.

Lemma pass_ok fuel i util p2l cur ph recent ranks batches :
  world content keys args a c B nt p2l cur ph ranks → history p2l ph recent ranks → batches_ok batches →
  ∃ ranks' places p2l' cur' ph' recent',
    pass args a (Some c) (Datatypes.S (Datatypes.S (Datatypes.S fuel))) i util ranks batches = Ok (ranks', places) ∧
    eplb_step iterations plan (placed n P L) (p2l, ph) (p2l', ph') ∧
    world content keys args a c B nt p2l' cur' ph' ranks' ∧ history p2l' ph' recent' ranks' ∧
    Forall2 (delivered p2l) batches places ∧ (recent' = [] ∨ recent' = recent ++ [batches]).
Proof.
  intros Hw Hh Hb. destruct (forward_all_ok i p2l cur ph recent ranks batches Hw Hh Hb) as (out & E & Hlo & Hranks & Hat & Hfresh & Hdel).
  unfold pass. rewrite E. cbn [res_bind]. unfold on_forward_pass_end.
  pose proof (wo_phase _ _ _ _ _ _ _ _ _ _ _ Hw) as Hph. pose proof (wo_cursor _ _ _ _ _ _ _ _ _ _ _ Hw) as Hcur.
  pose proof (su_buffer _ _ _ _ _ _ _ Hsetup) as HB.
  assert (Hes : Forall (at_stage a c (resumed args ph)) (resume args <$> (main_generator <$> out.*1))).
  { apply Forall_fmap, Forall_fmap, Forall_forall. intros s (r & Hs)%elem_zat.
    apply (resume_stage keys args a c B alg dispatch Hsetup). by apply (Hat r). }
  assert (Hle : length (resume args <$> (main_generator <$> out.*1)) = length out.*1) by (by rewrite !length_fmap).
  set (es := resume args <$> (main_generator <$> out.*1)) in *.
  assert (Hc0 : 0 ≤ next_cursor B cur).
  { unfold next_cursor. destruct (Z.ltb_spec B 0); [lia|]. apply Z.mod_pos_bound. lia. }
  destruct ph as [|j|new ids rest]; cbn [resumed] in Hes.
  - destruct (run_yield content keys args a c B nt (Datatypes.S (Datatypes.S fuel)) util p2l _ (PWaiting 0) out.*1 es Hranks) as (ranks' & E2 & Hw' & Hrec); [|done..|].
    { pose proof (su_iterations _ _ _ _ _ _ _ Hsetup). cbn. unfold iterations in *. lia. }
    rewrite E2. cbn [res_bind]. do 5 eexists. exists (recent ++ [batches]). split; [done|]. split; [apply step_start|]. split; [exact Hw'|].
    split; [|split; [done|by right]]. split; [by eapply fresh_recorder|]. intros j [= <-]. apply len_nonneg.
  - cbn in Hph. fold iterations in Hph, Hes. destruct (Z.ltb_spec (j + 1) iterations) as [Hlt|Hge].
    + destruct (run_yield content keys args a c B nt (Datatypes.S (Datatypes.S fuel)) util p2l _ (PWaiting (j + 1)) out.*1 es Hranks) as (ranks' & E2 & Hw' & Hrec); [|done..|].
      { cbn. fold iterations. lia. }
      rewrite E2. cbn [res_bind]. do 5 eexists. exists (recent ++ [batches]). split; [done|]. split; [by apply step_wait|]. split; [exact Hw'|].
      split; [|split; [done|by right]]. split; [by eapply fresh_recorder|]. intros k [= <-]. destruct Hh as [_ Hh]. specialize (Hh j eq_refl).
      rewrite len_app. unfold len at 2. cbn. lia.
    + destruct (run_dump content keys args a c B nt alg dispatch Hsetup fuel util p2l (next_cursor B cur) j out.*1 es Hranks Hc0)
        as (ranks' & p2l' & cur' & ph' & E2 & Hstep & Hw'); [|done|done|unfold iterations in *; lia|].
      { unfold next_cursor. destruct (Z.ltb_spec B 0); lia. }
      rewrite E2. cbn [res_bind]. do 5 eexists. exists []. split; [done|]. split; [exact Hstep|]. split; [exact Hw'|].
      split; [|split; [done|by left]]. apply (world_fresh_nil p2l' cur' ph'); [done| |done].
      intros k ->. fold iterations plan n P L in Hstep. inversion Hstep; subst; try done. lia.
  - destruct (run_update content keys args a c B nt alg dispatch Hsetup (Datatypes.S fuel) util p2l (next_cursor B cur) new ids rest out.*1 es Hranks Hc0)
      as (ranks' & p2l' & E2 & Hmix & Hw' & Hrec); [done|done|done|].
    rewrite E2. cbn [res_bind]. do 5 eexists. exists []. split; [done|]. split; [by apply step_chunk|]. split; [exact Hw'|].
    split; [|split; [done|by left]]. eapply world_fresh_nil; [done| |done]. intros k. destruct rest; [|done]. by intros [= <-].
Qed.

(** *** Runs *)

Definition run (ranks : list (rank_state A)) (passes : list (option W * list (list call))) :=
  run_passes args a (Some c) 3 ranks passes.

(** A number of steps of the abstract machine. *)
Definition eplb_steps := nsteps (eplb_step iterations plan (placed n P L)).

Lemma run_ok passes : ∀ p2l cur ph recent ranks done,
  world content keys args a c B nt p2l cur ph ranks → history p2l ph recent ranks →
  (∃ before, done = before ++ recent) → Forall (λ p, batches_ok p.2) passes →
  ∃ ranks' outs p2l' cur' ph' recent', run ranks passes = Ok (ranks', outs) ∧ length outs = length passes ∧
    eplb_steps (length passes) (p2l, ph) (p2l', ph') ∧
    world content keys args a c B nt p2l' cur' ph' ranks' ∧ history p2l' ph' recent' ranks' ∧
    (∃ before, done ++ passes.*2 = before ++ recent').
Proof.
  unfold run, run_passes.
  assert (Hgen : ∀ passes outs0 p2l cur ph recent ranks done,
    world content keys args a c B nt p2l cur ph ranks → history p2l ph recent ranks →
    (∃ before, done = before ++ recent) → Forall (λ p, batches_ok p.2) passes →
    ∃ ranks' outs p2l' cur' ph' recent', fold_res (λ '(ranks, outs) '(util, batches),
        let! '(ranks, places) := pass args a (Some c) 3 (len outs + 1) util ranks batches in Ok (ranks, outs ++ [places]))
        (ranks, outs0) passes = Ok (ranks', outs0 ++ outs) ∧ length outs = length passes ∧
      eplb_steps (length passes) (p2l, ph) (p2l', ph') ∧
      world content keys args a c B nt p2l' cur' ph' ranks' ∧ history p2l' ph' recent' ranks' ∧
      (∃ before, done ++ passes.*2 = before ++ recent')).
  { clear passes. induction passes as [|[util batches] passes IH]; intros outs0 p2l cur ph recent ranks dn Hw Hh Hb Hp.
    - exists ranks, [], p2l, cur, ph, recent. cbn [fold_res]. rewrite !app_nil_r. split_and!; [done|done|constructor|done|done|done].
    - apply Forall_cons in Hp as [Hp1 Hp]. cbn [fold_res].
      destruct (pass_ok 0 (len outs0 + 1) util p2l cur ph recent ranks batches Hw Hh Hp1)
        as (ranks1 & places & p2l1 & cur1 & ph1 & recent1 & E & Hstep & Hw1 & Hh1 & _ & Hrec).
      rewrite E. cbn [res_bind].
      destruct (IH (outs0 ++ [places]) p2l1 cur1 ph1 recent1 ranks1 (dn ++ [batches]) Hw1 Hh1) as (ranks' & outs & p2l' & cur' & ph' & recent' & E2 & Hl & Hs & Hw' & Hh' & Hb');
        [|done|].
      { destruct Hrec as [->| ->]; [exists (dn ++ [batches]); by rewrite app_nil_r|]. destruct Hb as [before ->]. exists before. by rewrite app_assoc. }
      exists ranks', (places :: outs), p2l', cur', ph', recent'. rewrite E2, <- app_assoc. split; [done|]. split; [cbn; by f_equal|].
      split; [by eapply nsteps_l|]. split; [done|]. split; [done|]. rewrite <- app_assoc in Hb'. exact Hb'. }
  intros p2l cur ph recent ranks dn Hw Hh Hb Hp.
  destruct (Hgen passes [] p2l cur ph recent ranks dn Hw Hh Hb Hp) as (ranks' & outs & Hr). exists ranks', outs. exact Hr.
Qed.

(** *** The start *)

Definition trivial_map : list (list Z) := replicate (Z.to_nat L) ((λ p, p mod n) <$> py_range 0 P).

(** Rank [r] after the model has been loaded with the trivial placement. *)
Record booted (r : Z) (s : rank_state A) : Prop := {
  bt_metadata : init_trivial a (Some c) r r = Ok (Some (metadata s));
  bt_recorder : (let! rec := init_recorder {| g_num_layers := L; g_num_physical_experts := P;
      g_num_local_physical_experts := nl; g_rank := r |} false false "normal" B in start_record rec) =
    Ok (distribution_recorder s);
  bt_weights : weights_ok content keys trivial_map nl nt r (routed_experts_weights_of_layer s);
  bt_generator : main_generator s = Started;
}.

Lemma start_recorder_ok r rec : (let! rec := init_recorder {| g_num_layers := L; g_num_physical_experts := P;
      g_num_local_physical_experts := nl; g_rank := r |} false false "normal" B in start_record rec) = Ok rec →
  recorder_ok B L P rec ∧ cursor (accumulated rec) = 0.
Proof.
  destruct (setup_sizes keys args a c B alg dispatch Hsetup) as (HR & Hnl & HP & _ & HL & _). fold n P L R nl in HR, Hnl, HP, HL.
  pose proof (su_buffer _ _ _ _ _ _ _ Hsetup) as HB. unfold init_recorder, init_gatherer. cbn [res_bind g_num_layers g_num_physical_experts].
  unfold start_record, _reset. cbn [current_layer_idx]. rewrite bool_decide_true by done. cbn [py_assert res_bind]. intros [= <-].
  destruct (init_buffer_ok B L P HB) as [Hb Hc]; [lia|lia|]. destruct (reset_buffer_ok B L P _ Hb) as [Hb' Hc'].
  destruct (zeros_shaped L P) as [Hz Hz']; [lia|lia|]. split.
  - split; [done..| |done]. eexists. split; [done|]. split; [by rewrite len_fmap|].
    apply Forall_fmap, (Forall_impl _ _ _ Hz'). intros row [Hr _]. cbn. by rewrite len_fmap.
  - cbn [accumulated with_recording with_gathered]. rewrite Hc', Hc. by destruct (B <? 0).
Qed.

Lemma boot_world ranks : len ranks = R → (∀ r s, zat ranks r = Some s → booted r s) →
  world content keys args a c B nt trivial_map 0 PStarted ranks ∧ history trivial_map PStarted [] ranks.
Proof.
  intros Hl Hboot. pose proof (su_experts _ _ _ _ _ _ _ Hsetup) as Hn. pose proof (su_layers _ _ _ _ _ _ _ Hsetup) as HL.
  assert (Hw : world content keys args a c B nt trivial_map 0 PStarted ranks).
  { split; [done|done|done|]. intros r s Hs. destruct (Hboot r s Hs) as [H1 H2 H3 H4].
    destruct (init_trivial_ok a c r r) as (m & E & Hm & Hp); [done|done|by destruct Hsetup|].
    rewrite E in H1. injection H1 as ->. destruct (start_recorder_ok r _ H2) as [Hr Hc]. split; [by split|]. split; [by split|].
    by rewrite H4. }
  split; [done|]. by eapply world_fresh_nil.
Qed.

(** *** What the tokens get *)

(** Row [p] of tensor [t] of a layer, on the rank it is on. *)
Definition stored (ranks : list (rank_state A)) (layer t p : Z) : option A :=
  s ← zat ranks (p / nl); w ← dict_get layer (routed_experts_weights_of_layer s); tensor ← zat w t; zat tensor (p mod nl).

(** Every token that is not padding went to a place whose rows, in all tensors of the
    layer, are those of the expert it asked for. *)
Definition served (ranks : list (rank_state A)) (calls : list call) (places : list (list Z)) : Prop :=
  Forall2 (λ c ps, Forall2 (λ e p, (e = -1 ∧ p = -1) ∨ ∀ t, 0 ≤ t < nt → c_layer c ∈ keys →
    stored ranks (c_layer c) t p = Some (content (c_layer c) t e)) (asked c) ps) calls places.

Lemma stored_ok p2l cur ph ranks layer phy t p e : world content keys args a c B nt p2l cur ph ranks →
  zat p2l layer = Some phy → zat phy p = Some e → layer ∈ keys → 0 ≤ t < nt → stored ranks layer t p = Some (content layer t e).
Proof.
  intros Hw Hphy Hp Hk Ht. destruct (setup_sizes keys args a c B alg dispatch Hsetup) as (HR & Hnl & _ & HPR & _).
  fold n P R nl in HR, Hnl, HPR. destruct (world_map content keys args a c B nt alg dispatch Hsetup _ _ _ _ Hw) as [[_ Hm] _].
  rewrite Forall_forall in Hm. destruct (Hm phy (zat_elem _ _ _ Hphy)) as [Hlen _]. fold n P in Hlen.
  pose proof (zat_Some_bound _ _ _ Hp) as Hb. rewrite Hlen in Hb. destruct Hw as [Hl _ _ Hr]. fold R in Hl.
  assert (Hq : 0 ≤ p / nl < R). { split; [apply Z.div_pos; lia|]. apply Z.div_lt_upper_bound; lia. }
  destruct (zat_in ranks (p / nl)) as [s Hs]; [lia|]. destruct (Hr _ s Hs) as ([_ _ [Hkeys Hh]] & _ & _).
  destruct (dict_get_keys (routed_experts_weights_of_layer s) layer) as [w Hw']; [by rewrite Hkeys|].
  destruct (Hh layer w phy Hw' Hphy) as [_ Hrows]. unfold stored. rewrite Hs. cbn. rewrite Hw'. cbn.
  specialize (Hrows p e). unfold row_is, cell in Hrows. apply Hrows; [|done|done].
  unfold local. pose proof (Z.div_mod p nl ltac:(lia)). pose proof (Z.mod_pos_bound p nl Hnl). fold n P R nl. nia.
Qed.

Lemma delivered_served p2l cur ph ranks calls places : world content keys args a c B nt p2l cur ph ranks →
  delivered p2l calls places → served ranks calls places.
Proof.
  intros Hw Hd. eapply Forall2_impl; [exact Hd|]. intros cl ps (phy & Hphy & Hs). eapply Forall2_impl; [exact Hs|].
  intros e p [Hpad|Hp]; [by left|right]. intros t Ht Hk. by eapply stored_ok.
Qed.

(** *** The machine *)

(** The layers whose chunk is done follow the new map. *)
Definition machine_ok (st : list (list Z) * phase) : Prop :=
  match st with
  | (p, PChunked new ids rest) => ∀ l, l ∈ keys → l ∉ concat (ids :: rest) → zat p l = zat new l
  | _ => True
  end.

Definition finite_chunks : Prop := ∀ k, eplb_rebalance_layers_per_chunk args = Some k → 0 ≤ k.

Lemma chunk_step_ok p new ids rest p' : machine_ok (p, PChunked new ids rest) → mixed ids p new p' →
  machine_ok (p', after_chunk new rest) ∧ (rest = [] → ∀ l, l ∈ keys → zat p' l = zat new l).
Proof.
  intros Hm Hmix. split.
  - destruct rest as [|ids1 rest]; [done|]. intros l Hl Hn. rewrite Hmix. destruct (mem l ids) eqn:E; [done|]. apply Hm; [done|].
    cbn [concat]. intros [Hin|Hin]%elem_of_app; [|done]. apply mem_In in Hin. congruence.
  - intros -> l Hl. rewrite Hmix. destruct (mem l ids) eqn:E; [done|]. apply Hm; [done|]. cbn. rewrite app_nil_r.
    intros Hin%mem_In. congruence.
Qed.

Lemma machine_step_ok st st' : finite_chunks → eplb_step iterations plan (placed n P L) st st' → machine_ok st → machine_ok st'.
Proof.
  intros Hf Hstep Hm. inversion Hstep as [| | | |p i new ids rest Hi Hg Hplan Hr|p new ids rest p' Hmix]; subst; try done.
  - intros l Hl Hn. exfalso. apply Hn. pose proof (layer_chunks_concat (eplb_rebalance_layers_per_chunk args) keys Hf) as Hc.
    fold plan in Hc. rewrite Hplan in Hc. by rewrite Hc.
  - by apply (chunk_step_ok p new ids rest p').
Qed.

Lemma machine_steps_ok k st st' : finite_chunks → eplb_steps k st st' → machine_ok st → machine_ok st'.
Proof. intros Hf Hs. induction Hs as [|k st st1 st' Hstep _ IH]; [done|]. intros Hm. apply IH. by eapply machine_step_ok. Qed.

(** As many steps as there are chunks. *)
Lemma machine_completes rest : ∀ p new ids st, machine_ok (p, PChunked new ids rest) →
  eplb_steps (Datatypes.S (length rest)) (p, PChunked new ids rest) st →
  st.2 = PWaiting 0 ∧ ∀ l, l ∈ keys → zat st.1 l = zat new l.
Proof.
  induction rest as [|ids1 rest IH]; intros p new ids st Hm Hs; inversion Hs as [|k st0 st1 st2 Hstep Hs']; subst;
    inversion Hstep as [| | | | |p0 new0 ids0 rest0 p' Hmix]; subst; destruct (chunk_step_ok _ _ _ _ _ Hm Hmix) as [Hm' Hdone].
  - inversion Hs'; subst. cbn. split; [done|]. by apply Hdone.
  - by apply (IH p' new ids1).
Qed.
End runs.
