(* ===== verification/ExpertManagerDemo.v ===== *)
(** * A small server

    Two ranks, two layers of three experts with one more place each, integers as
    loads and rows, a deterministic random generator and memory of zeros.  A
    rebalancing is tried every two passes and moves one layer per pass. *)

From S2P Require Import Prelude Tensor ExpertLoad ExpertPacking ExpertOptimal ExpertLoadSpec ExpertBalance.
From S2P Require Import ExpertUpdate ExpertUpdateChunks ExpertUpdatePlan ExpertUpdateMatch.
From S2P Require Import ExpertUpdateSpec.
From S2P Require Import ExpertElastic ExpertElasticSpec ExpertVec ExpertVecSpec ExpertVecBalance.
From S2P Require Import ExpertLocation ExpertLocationSpec ExpertMetadata ExpertConstruct.
From S2P Require Import ExpertRecorder ExpertRecorderSpec ExpertManager ExpertManagerPass.
From S2P Require Import ExpertManagerWorld ExpertManagerSpec.

#[export] Instance first_choice : Random unit := {|
  seeded _ := tt; sample _ l k := (take (Z.to_nat k) l, tt); shuffle _ l := (l, tt) |}.

#[export] Instance first_choice_laws : RandomLaws unit.
Proof.
  split.
  - intros s l k Hk. exists (drop (Z.to_nat k) l). cbn. split; [by rewrite take_drop|]. unfold len in *. rewrite length_take. lia.
  - done.
Qed.

#[export] Instance integer_counts : OfInt Z := id.
#[export] Instance zero_memory : Uninitialised Z := λ _ _, 0.

Definition demo_args : ManagerArgs Z := {|
  eplb_rebalance_num_iterations := 2; eplb_rebalance_layers_per_chunk := Some 1;
  eplb_min_rebalancing_utilization_threshold := 1 |}.

Definition demo_server : ServerArgs := {|
  ep_size := 2; nnodes := 1; ep_num_redundant_experts := 1; eplb_algorithm := "auto"; ep_dispatch_algorithm := Some "static" |}.

Definition demo_model : ModelConfigForExpertLocation := {| num_layers := 2; num_logical_experts := 3; num_groups := None |}.

Definition demo_content (l t e : Z) : Z := 100 * l + 10 * t + e.

Definition demo_weights (r : Z) : list (Z * list (list Z)) :=
  (λ l, (l, (λ t, (λ p, demo_content l t (p mod 3)) <$> [2 * r; 2 * r + 1]) <$> [0; 1])) <$> [0; 1].

Definition demo_recorder (B r : Z) : res recorder :=
  let! rec := init_recorder {| g_num_layers := 2; g_num_physical_experts := 4;
    g_num_local_physical_experts := 2; g_rank := r |} false false "normal" B in start_record rec.

Definition demo_rank (B r : Z) : res (rank_state Z) :=
  let! m := init_trivial demo_server (Some demo_model) r r in
  let! m := of_opt AttributeError m in
  let! rec := demo_recorder B r in
  Ok {| metadata := m; distribution_recorder := rec; main_generator := Started;
        routed_experts_weights_of_layer := demo_weights r |}.

Definition demo_ranks (B : Z) : list (rank_state Z) :=
  match mapM_res (demo_rank B) [0; 1] with Ok ranks => ranks | Err _ => [] end.

Definition demo_call (l : Z) (ids : list Z) : call := {|
  c_layer := l; c_topk_ids := ids; c_draws := replicate (length ids) 0; c_top_k := 1; c_num_token_non_padded := None |}.

(** The batches of the two ranks in a pass. *)
Definition demo_batches : list (list call) :=
  [[demo_call 0 [0; 1; 1]; demo_call 1 [2; 1; 0]]; [demo_call 0 [1]; demo_call 1 [1; 1]]].

Definition demo_passes (k : nat) : list (option Z * list (list call)) := replicate k (None, demo_batches).

Definition demo_run (B : Z) (k : nat) := run demo_args demo_server demo_model (demo_ranks B) (demo_passes k).

(** The ranks after [k] passes. *)
Definition demo_after (B : Z) (k : nat) : list (rank_state Z) :=
  match demo_run B k with Ok (ranks, _) => ranks | Err _ => [] end.

(** What a dump within the next pass returns. *)
Definition demo_dump (B : Z) (k : nat) : res (list (list (list Z))) :=
  let! out := map2_res (forward demo_server (Z.of_nat k + 1)) (demo_after B k) demo_batches in
  let! '(counts, _) := dump_record (metadata <$> out.*1) (distribution_recorder <$> out.*1) in Ok counts.

Lemma demo_setup B : B ≠ 0 → setup [0; 1] demo_args demo_server demo_model B deepseek "static".
Proof.
  intros HB. split; [done|done| | |done|done| |done|].
  - by repeat split.
  - split; [|by repeat constructor]. by apply (bool_decide_unpack _).
  - split; [done|]. by left.
  - by repeat split.
Qed.

Lemma two_ranks {X} (l : list X) r x : len l = 2 → zat l r = Some x → r = 0 ∨ r = 1.
Proof. intros Hl Hz. pose proof (zat_Some_bound _ _ _ Hz). lia. Qed.

Lemma demo_weights_ok r : r = 0 ∨ r = 1 →
  weights_ok demo_content [0; 1] (trivial_map demo_server demo_model) 2 2 r (demo_weights r).
Proof.
  intros Hr. split; [done|]. intros l w phy Hw Hphy. pose proof (zat_Some_bound _ _ _ Hphy) as Hl.
  change (len (trivial_map demo_server demo_model)) with 2 in Hl. assert (l = 0 ∨ l = 1) as Hl' by lia.
  destruct_or! Hl'; subst l; injection Hphy as <-; destruct_or! Hr; subst r; injection Hw as <-; (split; [by repeat constructor|]);
    intros x e Hx He i Hi; unfold local in Hx; assert (i = 0 ∨ i = 1) as Hi' by lia;
    assert (x = 0 ∨ x = 1 ∨ x = 2 ∨ x = 3) as Hx' by lia;
    destruct_or! Hi'; destruct_or! Hx'; subst i x; first [lia|cbn in He; injection He as <-; done].
Qed.
