(* ===== verification/ExpertManagerRuns.v ===== *)
(** * What the load balancer promises

    [tokens_reach_experts]: at any point of any run, the tokens of the next pass find
    the weights of their experts.  [ranks_follow_machine]: all ranks follow the abstract
    machine.  [rebalance_completes]: a rebalancing in chunks ends after as many passes
    as there are chunks.  [balancer_sees_last_passes]: the counts of a dump are those
    of the last passes.  [stale_counts]: a run in which it is not so, with the unbounded buffer. *)

From S2P Require Import Prelude Tensor ExpertLoad ExpertPacking ExpertOptimal ExpertLoadSpec ExpertBalance.
From S2P Require Import ExpertUpdate ExpertUpdateChunks ExpertUpdatePlan ExpertUpdateMatch.
From S2P Require Import ExpertUpdateSpec.
From S2P Require Import ExpertElastic ExpertElasticSpec ExpertVec ExpertVecSpec ExpertVecBalance.
From S2P Require Import ExpertLocation ExpertLocationSpec ExpertMetadata ExpertConstruct.
From S2P Require Import ExpertRecorder ExpertRecorderSpec ExpertManager ExpertManagerPass.
From S2P Require Import ExpertManagerWorld ExpertManagerSpec ExpertManagerDemo.

Section promises.
Context {S W A : Type} `{Hrandom : Random S} `{!RandomLaws S} `{Hfloat : TorchFloat W} `{!TorchLaws W}.
Context `{Hvec : TorchVec W} `{!TorchVecLaws W} `{Hint : OfInt W} `{Hp2p : P2P} `{!P2PLaws} `{Huninit : Uninitialised A}.
Context (content : Z → Z → Z → A) (keys : list Z) (args : ManagerArgs W) (a : ServerArgs)
  (c : ModelConfigForExpertLocation) (B nt : Z) (alg : EplbAlgorithm) (dispatch : string).

(** All ranks after loading, and batches for all ranks. *)
Definition boot_ok (ranks : list (rank_state A)) : Prop :=
  len ranks = ep_size a ∧ ∀ r s, zat ranks r = Some s → booted content keys a c B nt r s.

Definition passes_ok (passes : list (option W * list (list call))) : Prop := Forall (λ p, batches_ok a c p.2) passes.

Lemma reachable ranks0 passes : setup keys args a c B alg dispatch → boot_ok ranks0 → passes_ok passes →
  ∃ ranks outs p2l cur ph recent, run args a c ranks0 passes = Ok (ranks, outs) ∧ length outs = length passes ∧
    eplb_steps keys args a c (length passes) (trivial_map a c, PStarted) (p2l, ph) ∧
    world content keys args a c B nt p2l cur ph ranks ∧ history c B p2l ph recent ranks ∧
    (∃ before, passes.*2 = before ++ recent).
Proof.
  intros Hsetup [Hl Hb] Hp. destruct (boot_world content keys args a c B nt alg dispatch Hsetup ranks0 Hl Hb) as [Hw Hh].
  destruct (run_ok content keys args a c B nt alg dispatch Hsetup passes _ _ _ _ _ [] Hw Hh) as (ranks & outs & p2l & cur & ph & recent & Hrun);
    [by exists []|done|]. by exists ranks, outs, p2l, cur, ph, recent.
Qed.

(** C3. The ranks never block or fail, and whatever batches came before, at any moment
    of a rebalancing, every token of the next pass is sent to a place where all tensors
    of the layer hold the rows of the expert that the router chose for it. *)
Theorem tokens_reach_experts ranks0 passes i batches :
  setup keys args a c B alg dispatch → boot_ok ranks0 → passes_ok passes → batches_ok a c batches →
  ∃ ranks outs out, run args a c ranks0 passes = Ok (ranks, outs) ∧ length outs = length passes ∧
    map2_res (forward a i) ranks batches = Ok out ∧
    Forall2 (served content keys a c nt ranks) batches out.*2.
Proof.
  intros Hsetup Hboot Hp Hb.
  destruct (reachable ranks0 passes Hsetup Hboot Hp) as (ranks & outs & p2l & cur & ph & recent & E & Hl & _ & Hw & Hh & _).
  destruct (forward_all_ok content keys args a c B nt alg dispatch Hsetup i _ _ _ _ _ _ Hw Hh Hb) as (out & E2 & _ & _ & _ & _ & Hd).
  exists ranks, outs, out. split_and!; [done..|]. eapply Forall2_impl; [exact Hd|]. intros calls places.
  by apply (delivered_served content keys args a c B nt alg dispatch Hsetup p2l cur ph).
Qed.

(** C4. All ranks together are one abstract machine: after each pass they share one
    map and one phase, a step of [eplb_step] from the previous ones, and every rank
    holds the weights that the map gives it. *)
Theorem ranks_follow_machine ranks0 passes :
  setup keys args a c B alg dispatch → boot_ok ranks0 → passes_ok passes →
  ∃ ranks outs p2l ph, run args a c ranks0 passes = Ok (ranks, outs) ∧ len ranks = ep_size a ∧
    eplb_steps keys args a c (length passes) (trivial_map a c, PStarted) (p2l, ph) ∧
    ∀ r s, zat ranks r = Some s → physical_to_logical_map (metadata s) = p2l ∧ at_phase a c ph (main_generator s) ∧
      weights_ok content keys p2l ((num_logical_experts c + ep_num_redundant_experts a) / ep_size a) nt r
        (routed_experts_weights_of_layer s).
Proof.
  intros Hsetup Hboot Hp.
  destruct (reachable ranks0 passes Hsetup Hboot Hp) as (ranks & outs & p2l & cur & ph & recent & E & _ & Hs & Hw & _).
  exists ranks, outs, p2l, ph. split_and!; [done|by destruct Hw|done|]. intros r s Hz.
  by destruct (wo_rank _ _ _ _ _ _ _ _ _ _ _ Hw r s Hz) as ([_ Hm Hwt] & _ & Hat).
Qed.

(** C6. A rebalancing that a run has begun layer by layer is over after as many passes
    as chunks of layers are left: all ranks wait again, and every layer with routed
    experts has the new map. *)
Theorem rebalance_completes ranks0 passes ranks outs more r s m ids rest :
  setup keys args a c B alg dispatch → boot_ok ranks0 → passes_ok passes → finite_chunks args →
  run args a c ranks0 passes = Ok (ranks, outs) → zat ranks r = Some s → main_generator s = Chunked m ids rest →
  passes_ok more → length more = Datatypes.S (length rest) →
  ∃ ranks' outs', run args a c ranks more = Ok (ranks', outs') ∧
    ∀ r' s', zat ranks' r' = Some s' → main_generator s' = Waiting 0 ∧
      ∀ l, l ∈ keys → zat (physical_to_logical_map (metadata s')) l = zat (physical_to_logical_map m) l.
Proof.
  intros Hsetup Hboot Hp Hf E Hs Hg Hmore Hlen.
  destruct (reachable ranks0 passes Hsetup Hboot Hp) as (ranks1 & outs1 & p2l & cur & ph & recent & E1 & _ & Hsteps & Hw & Hh & _).
  rewrite E in E1. injection E1 as <- <-.
  assert (Hm : machine_ok keys (p2l, ph)) by (eapply (machine_steps_ok keys args a c); [done|exact Hsteps|done]).
  destruct (wo_rank _ _ _ _ _ _ _ _ _ _ _ Hw r s Hs) as (_ & _ & Hat). rewrite Hg in Hat.
  destruct ph as [| |new ids' rest']; [done..|]. destruct Hat as (_ & Hnew & -> & ->).
  destruct (run_ok content keys args a c B nt alg dispatch Hsetup more _ _ _ _ _ recent Hw Hh) as
    (ranks' & outs' & p2l' & cur' & ph' & recent' & E' & _ & Hsteps' & Hw' & _); [by exists []|done|].
  rewrite Hlen in Hsteps'. destruct (machine_completes keys args a c rest' p2l new ids' _ Hm Hsteps') as [Hph Hmap]. cbn in Hph, Hmap.
  exists ranks', outs'. split; [done|]. intros r' s' Hs'. destruct (wo_rank _ _ _ _ _ _ _ _ _ _ _ Hw' r' s' Hs') as ([_ Hm' _] & _ & Hat').
  rewrite Hph in Hat'. destruct (main_generator s') as [|j|]; [done| |done]. cbn in Hat'. subst j. split; [done|].
  intros l Hl. rewrite Hm', Hnew. by apply Hmap.
Qed.

(** All ranks together ask for what the batches ask for. *)
Lemma asked_ranks (bs : list (list call)) : bs ≠ [] →
  asked_calls (default [] (zat bs 0)) ++ concat ((λ r, asked_calls (default [] (zat bs r))) <$> py_range 1 (len bs)) =
  asked_calls (concat bs).
Proof.
  destruct bs as [|b bs]; [done|]. intros _. unfold asked_calls. cbn [zat Z.ltb Z.compare].
  assert (Hgen : ∀ (bs pre : list (list call)) k, k = len pre →
    concat ((λ r, (λ c0, (c_layer c0, asked c0)) <$> default [] (zat (pre ++ bs) r)) <$> py_range k (k + len bs)) =
    (λ c0, (c_layer c0, asked c0)) <$> concat bs).
  { clear. induction bs as [|b bs IH]; intros pre k ->.
    - by rewrite py_range_nil by (unfold len at 2; cbn; lia).
    - rewrite len_cons, py_range_cons by apply len_nonneg. rewrite fmap_cons. cbn [concat]. rewrite fmap_app. f_equal.
      + rewrite zat_app_r, Z.sub_diag by lia. done.
      + specialize (IH (pre ++ [b]) (len pre + 1)). rewrite <- app_assoc in IH. apply IH. rewrite len_app. done. }
  specialize (Hgen bs [b] 1 eq_refl). rewrite len_cons, (Z.add_comm 1 (len bs)) in *. cbn [app] in Hgen. rewrite Hgen.
  cbn [concat]. by rewrite fmap_app.
Qed.

Let n := num_logical_experts c.
Let L := num_layers c.
Let R := ep_size a.

(** What rank [r] asked for in these passes, in the order of its buffer. *)
Definition arranged (cur : Z) (last : list (list (list call))) (r : Z) : list (list (Z * list Z)) :=
  (λ bs, asked_calls (default [] (zat bs r))) <$> arrange B cur last.

(** The full buffer of a rank, converted with the map in force. *)
Lemma rank_counts p2l cur recent r (s : rank_state A) :
  0 < B → B ≤ len recent → buffer_ok B L (n + ep_num_redundant_experts a) (accumulated (distribution_recorder s)) →
  cursor (accumulated (distribution_recorder s)) = cur → fresh c B p2l recent r s →
  convert n p2l <$> get_all (accumulated (distribution_recorder s)) =
  counts L n <$> arranged cur (drop (Z.to_nat (len recent - B)) recent) r.
Proof.
  intros HB Hl Hbuf Hcur (old & items & Hold & Hitems & HF). unfold arranged.
  rewrite (get_all_arrange B L _ _ Hbuf), Hcur, <- !arrange_fmap. f_equal. rewrite Hitems.
  pose proof (Forall2_length _ _ _ HF) as HlF. rewrite pushes_last; [|done|by apply Hold|unfold len in *; lia].
  replace (len items) with (len recent) by (unfold len; lia). rewrite !fmap_drop. f_equal. unfold n, L. clear -HF.
  induction HF as [|item bs items recent (calls & Hc & E) _ IH]; [done|]. rewrite !fmap_cons, IH. by rewrite Hc, E.
Qed.

(** The sum over the ranks. *)
Lemma reduced_counts p2l cur recent (ranks : list (rank_state A)) :
  0 < B → B ≤ len recent → 0 < R → len ranks = R → Forall (λ bs : list (list call), len bs = R) recent →
  (∀ r s, zat ranks r = Some s → buffer_ok B L (n + ep_num_redundant_experts a) (accumulated (distribution_recorder s)) ∧
    cursor (accumulated (distribution_recorder s)) = cur ∧ fresh c B p2l recent r s) →
  all_reduce ((λ s, convert n p2l <$> get_all (accumulated (distribution_recorder s))) <$> ranks) ≡ₚ
  (λ bs, counts L n (asked_calls (concat bs))) <$> drop (Z.to_nat (len recent - B)) recent.
Proof.
  intros HB Hl HR Hlr Hbs Hr. set (last := drop _ recent).
  assert (Hall : (λ s, convert n p2l <$> get_all (accumulated (distribution_recorder s))) <$> ranks =
    (λ cs : list (list (Z * list Z)), counts L n <$> cs) <$> (arranged cur last <$> py_range 0 R)).
  { apply list_eq_zat. intros r. rewrite !zat_fmap. destruct (zat ranks r) as [s|] eqn:Es.
    - pose proof (zat_Some_bound _ _ _ Es). rewrite (proj2 (zat_range0 R r r)) by (split; [lia|done]). cbn. f_equal.
      destruct (Hr r s Es) as (H1 & H2 & H3). by apply rank_counts.
    - destruct (zat (py_range 0 R) r) eqn:Er; [|done]. apply zat_range0 in Er as [? _].
      destruct (zat_in ranks r) as [s Hs]; [lia|]. congruence. }
  rewrite Hall. replace R with (0 + (1 + (R - 1))) by lia. rewrite py_range_cons by lia. rewrite fmap_cons, all_reduce_counts.
  unfold arranged. rewrite (fold_zip_app (λ r bs, asked_calls (default [] (zat bs r)))), <- list_fmap_compose.
  rewrite <- (arrange_fmap _ B cur last), arrange_perm. apply reflexive_eq, list_fmap_ext. intros k bs Hk%list_elem_of_lookup_2.
  unfold last in Hk. apply (Forall_drop _ (Z.to_nat (len recent - B))) in Hbs. rewrite Forall_forall in Hbs. specialize (Hbs bs Hk). cbn. f_equal.
  replace (0 + 1) with 1 by lia. replace (1 + (R - 1)) with (len bs) by lia. apply asked_ranks. intros ->.
  unfold len in Hbs. cbn in Hbs. lia.
Qed.

(** C5. With a bounded buffer that the manager accepts, a dump at the end of a waiting
    period returns, for each of the last passes, the number of tokens of all ranks that
    asked for each expert of each layer, modulo the width of the counters, although
    placements may have changed before. *)
Theorem balancer_sees_last_passes ranks0 passes ranks outs i batches out :
  setup keys args a c B alg dispatch → boot_ok ranks0 → passes_ok passes → batches_ok a c batches →
  0 < B → init_manager (eplb_rebalance_num_iterations args) B = Ok tt →
  run args a c ranks0 passes = Ok (ranks, outs) →
  (∀ r s, zat ranks r = Some s → main_generator s = Waiting (eplb_rebalance_num_iterations args - 1)) →
  map2_res (forward a i) ranks batches = Ok out →
  let all := passes.*2 ++ [batches] in
  ∃ counts_of_passes recs, dump_record (metadata <$> out.*1) (distribution_recorder <$> out.*1) = Ok (counts_of_passes, recs) ∧
    counts_of_passes ≡ₚ (λ bs, counts (num_layers c) (num_logical_experts c) (asked_calls (concat bs))) <$>
      drop (Z.to_nat (len all - B)) all.
Proof.
  intros Hsetup Hboot Hp Hb HB Hinit E Hwait Efwd all.
  destruct (reachable ranks0 passes Hsetup Hboot Hp) as (ranks1 & outs1 & p2l & cur & ph & recent & E1 & _ & _ & Hw & Hh & before & Hbefore).
  rewrite E in E1. injection E1 as <- <-.
  destruct (setup_sizes keys args a c B alg dispatch Hsetup) as (HR & _ & _ & _ & HL & Hn).
  destruct (forward_all_ok content keys args a c B nt alg dispatch Hsetup i _ _ _ _ _ _ Hw Hh Hb) as (out' & E2 & Hlo & [Hl1 Hr1] & _ & Hfresh & _).
  rewrite Efwd in E2. injection E2 as <-. fold R in HR, Hlo, Hl1.
  assert (Hrecent : B ≤ len recent + 1).
  { destruct (zat_in ranks 0) as [s Hs]; [by rewrite (wo_ranks _ _ _ _ _ _ _ _ _ _ _ Hw); fold R; lia|].
    destruct (wo_rank _ _ _ _ _ _ _ _ _ _ _ Hw 0 s Hs) as (_ & _ & Hat). rewrite (Hwait 0 s Hs) in Hat.
    destruct ph as [|j|]; [done| |done]. cbn in Hat. subst j. destruct Hh as [_ Hh]. specialize (Hh _ eq_refl).
    unfold init_manager, py_assert in Hinit. destruct (Z.leb_spec B (eplb_rebalance_num_iterations args)); [lia|done]. }
  assert (Hl_recent : B ≤ len (recent ++ [batches])) by (rewrite len_app; unfold len at 2; cbn; lia).
  assert (Hlast : drop (Z.to_nat (len all - B)) all = drop (Z.to_nat (len (recent ++ [batches]) - B)) (recent ++ [batches])).
  { unfold all. rewrite Hbefore, <- app_assoc. rewrite drop_app_ge by (rewrite (len_app before); unfold len in *; lia).
    f_equal. rewrite (len_app before). unfold len in *. lia. }
  destruct (dump_ok a n (n + ep_num_redundant_experts a) L B p2l (next_cursor B cur) out.*1 Hn HL) as (recs & -> & _).
  { intros E0. rewrite E0 in Hl1. unfold len in Hl1. cbn in Hl1. lia. }
  { apply (world_map content keys args a c B nt alg dispatch Hsetup _ _ _ _ Hw). }
  { apply Forall_forall. intros s (r & Hs)%elem_zat. by destruct (Hr1 r s Hs) as [[F1 F2 _] F3]. }
  do 2 eexists. split; [done|]. rewrite Hlast. eapply (reduced_counts p2l (next_cursor B cur)); [done..| |].
  - apply Forall_app. split; [|by constructor; [destruct Hb|]].
    assert (Hpall : Forall (λ bs : list (list call), len bs = R) passes.*2).
    { apply Forall_fmap, (Forall_impl _ _ _ Hp). by intros [u bs] [? _]. }
    rewrite Hbefore in Hpall. by apply Forall_app in Hpall as [_ ?].
  - intros r s Hs. destruct (Hr1 r s Hs) as [_ [[_ _ _ _ _ Hbuf] Hcur]]. split_and!; [done..|]. by apply Hfresh.
Qed.
End promises.

(** ** The small server *)

Lemma demo_rank_booted B r s : (B = 2 ∨ B = -1) → r = 0 ∨ r = 1 → demo_rank B r = Ok s →
  booted demo_content [0; 1] demo_server demo_model B 2 r s.
Proof.
  intros HB Hr Hs. assert (Hw := demo_weights_ok r Hr).
  destruct_or! HB; destruct_or! Hr; subst B r; vm_compute in Hs; injection Hs as <-; (split; [| |exact Hw|done]); vm_compute; reflexivity.
Qed.

Lemma demo_boot B : (B = 2 ∨ B = -1) → boot_ok demo_content [0; 1] demo_server demo_model B 2 (demo_ranks B).
Proof.
  intros HB. assert (Hl : len (demo_ranks B) = 2) by (destruct_or! HB; subst B; vm_compute; reflexivity). split; [done|].
  intros r s Hs. apply demo_rank_booted; [done|by apply (two_ranks _ _ _ Hl Hs)|].
  pose proof (two_ranks _ _ _ Hl Hs) as Hr. destruct_or! HB; destruct_or! Hr; subst B r; vm_compute in Hs; injection Hs as <-; vm_compute; reflexivity.
Qed.

Lemma demo_batches_ok : batches_ok demo_server demo_model demo_batches.
Proof. split; [done|]. repeat constructor; done. Qed.

Lemma demo_passes_ok k : passes_ok demo_server demo_model (demo_passes k).
Proof. apply Forall_replicate, demo_batches_ok. Qed.

(** A rebalancing moves the layers one after the other. *)
Example demo_moves :
  (λ k, (λ s, physical_to_logical_map (metadata s)) <$> demo_after 2 k) <$> [2; 4; 5]%nat =
  [replicate 2 [[0; 1; 2; 0]; [0; 1; 2; 0]]; replicate 2 [[1; 0; 1; 2]; [0; 1; 2; 0]]; replicate 2 [[1; 0; 1; 2]; [1; 0; 1; 2]]].
Proof. vm_compute. reflexivity. Qed.

Lemma tokens_reach_experts_witness :
  ∃ ranks outs out, run demo_args demo_server demo_model (demo_ranks 2) (demo_passes 4) = Ok (ranks, outs) ∧ length outs = 4%nat ∧
    map2_res (forward demo_server 5) ranks demo_batches = Ok out ∧
    Forall2 (served demo_content [0; 1] demo_server demo_model 2 ranks) demo_batches out.*2.
Proof.
  apply (tokens_reach_experts demo_content [0; 1] demo_args demo_server demo_model 2 2 deepseek "static" (demo_ranks 2) (demo_passes 4) 5).
  - by apply demo_setup.
  - apply demo_boot. by left.
  - apply demo_passes_ok.
  - apply demo_batches_ok.
Defined.

Lemma ranks_follow_machine_witness :
  ∃ ranks outs p2l ph, run demo_args demo_server demo_model (demo_ranks 2) (demo_passes 4) = Ok (ranks, outs) ∧ len ranks = 2 ∧
    eplb_steps [0; 1] demo_args demo_server demo_model 4 (trivial_map demo_server demo_model, PStarted) (p2l, ph) ∧
    ∀ r s, zat ranks r = Some s → physical_to_logical_map (metadata s) = p2l ∧ at_phase demo_server demo_model ph (main_generator s) ∧
      weights_ok demo_content [0; 1] p2l 2 2 r (routed_experts_weights_of_layer s).
Proof.
  apply (ranks_follow_machine demo_content [0; 1] demo_args demo_server demo_model 2 2 deepseek "static" (demo_ranks 2) (demo_passes 4)).
  - by apply demo_setup.
  - apply demo_boot. by left.
  - apply demo_passes_ok.
Defined.

(** After three passes a rebalancing of two chunks is planned; two passes later it is over. *)
Lemma rebalance_completes_witness :
  ∃ m ranks' outs', run demo_args demo_server demo_model (demo_after 2 3) (demo_passes 2) = Ok (ranks', outs') ∧
    ∀ r' s', zat ranks' r' = Some s' → main_generator s' = Waiting 0 ∧
      ∀ l, l ∈ [0; 1] → zat (physical_to_logical_map (metadata s')) l = zat (physical_to_logical_map m) l.
Proof.
  destruct (demo_run 2 3) as [[ranks outs]|] eqn:E; [|by vm_compute in E].
  assert (Ea : demo_after 2 3 = ranks) by (unfold demo_after; by rewrite E). rewrite Ea.
  destruct (zat ranks 0) as [s|] eqn:Es; [|by rewrite <- Ea in Es; vm_compute in Es].
  destruct (main_generator s) as [|j|m ids rest] eqn:Eg; [rewrite <- Ea in Es; vm_compute in Es; injection Es as <-; by vm_compute in Eg..|].
  exists m. eapply (rebalance_completes demo_content [0; 1] demo_args demo_server demo_model 2 2 deepseek "static" (demo_ranks 2)
    (demo_passes 3) ranks outs (demo_passes 2) 0 s m ids rest); [by apply demo_setup|apply demo_boot; by left|apply demo_passes_ok| |exact E|done..|apply demo_passes_ok|].
  - by intros k [= <-].
  - rewrite <- Ea in Es. vm_compute in Es. injection Es as <-. vm_compute in Eg. injection Eg as <- <- <-. done.
Defined.

(** The dump after seven passes, with a placement that came after the second. *)
Lemma balancer_sees_last_passes_witness :
  ∃ counts_of_passes, demo_dump 2 6 = Ok counts_of_passes ∧
    counts_of_passes ≡ₚ replicate 2 (counts 2 3 (asked_calls (concat demo_batches))).
Proof.
  destruct (demo_run 2 6) as [[ranks outs]|] eqn:E; [|by vm_compute in E].
  assert (Ea : demo_after 2 6 = ranks) by (unfold demo_after; by rewrite E).
  destruct (map2_res (forward demo_server 7) ranks demo_batches) as [out|] eqn:Eo; [|by rewrite <- Ea in Eo; vm_compute in Eo].
  destruct (balancer_sees_last_passes demo_content [0; 1] demo_args demo_server demo_model 2 2 deepseek "static" (demo_ranks 2)
    (demo_passes 6) ranks outs 7 demo_batches out) as (cs & recs & Ed & Hp);
    [by apply demo_setup|apply demo_boot; by left|apply demo_passes_ok|apply demo_batches_ok|lia|done|exact E| |done|].
  - intros r s Hs. rewrite <- Ea in Hs. assert (Hr : r = 0 ∨ r = 1) by (by eapply two_ranks, Hs).
    destruct_or! Hr; subst r; vm_compute in Hs; injection Hs as <-; done.
  - exists cs. unfold demo_dump. change (Z.of_nat 6 + 1) with 7. rewrite Ea, Eo. cbn [res_bind]. rewrite Ed. split; [done|exact Hp].
Defined.

(** One run: with the unbounded buffer, which the manager accepts as well, the passes that
    run while a rebalancing moves layers stay in the buffer, and the next dump converts
    them with a map that was not in force: it returns counts that no pass had. *)
Theorem stale_counts :
  setup [0; 1] demo_args demo_server demo_model (-1) deepseek "static" ∧
  boot_ok demo_content [0; 1] demo_server demo_model (-1) 2 (demo_ranks (-1)) ∧
  init_manager (eplb_rebalance_num_iterations demo_args) (-1) = Ok tt ∧
  (λ s, main_generator s) <$> demo_after (-1) 6 = replicate 2 (Waiting 1) ∧
  ∃ counts_of_passes, demo_dump (-1) 6 = Ok counts_of_passes ∧
    ¬ Forall (λ cs, cs = counts 2 3 (asked_calls (concat demo_batches))) counts_of_passes.
Proof.
  split; [by apply demo_setup|]. split; [apply demo_boot; by right|]. split; [done|]. split; [vm_compute; reflexivity|].
  destruct (demo_dump (-1) 6) as [cs|] eqn:E; [|by vm_compute in E]. exists cs. split; [done|].
  vm_compute in E. injection E as <-. vm_compute. intros H. apply Forall_cons in H as [H _]. discriminate H.
Qed.
