(* ===== verification/PyText.v ===== *)
(** * Python strings

    A string is the list of its code points.  The methods the parsers use:
    [startswith], [in], [find], [replace] by the empty string, [strip], [lower];
    and what [find] and [replace] do with tags that cannot overlap. *)

From Stdlib Require Import Ascii String.
From S2P Require Import Prelude.

Abbreviation str := (list Z).

(** A literal of ASCII characters. *)
Definition lit (s : string) : str := (λ c, Z.of_N (N_of_ascii c)) <$> list_ascii_of_string s.

(** [s.startswith(p)] *)
Fixpoint startswith (s p : str) {struct p} : bool :=
  match p, s with
  | [], _ => true
  | x :: p, y :: s => (x =? y) && startswith s p
  | _ :: _, [] => false
  end.

(** [s.endswith(p)] *)
Definition endswith (s p : str) : bool := startswith (reverse s) (reverse p).

(** [s.find(sub)], with [None] for -1. *)
Fixpoint find (s sub : str) : option nat :=
  if startswith s sub then Some 0%nat
  else match s with [] => None | _ :: s => S <$> find s sub end.

(** [sub in s] *)
Definition contains (sub s : str) : bool := match find s sub with Some _ => true | None => false end.

(** [s.replace(old, "")]: [skip] characters of an occurrence are left. *)
Fixpoint delete_from (old : str) (skip : nat) (s : str) : str :=
  match s with
  | [] => []
  | x :: s' =>
      match skip with
      | Datatypes.S k => delete_from old k s'
      | O => if startswith s old then delete_from old (pred (length old)) s' else x :: delete_from old 0 s'
      end
  end.

Definition delete_all (old s : str) : str := match old with [] => s | _ => delete_from old 0 s end.

(** The code points with [isspace()]. *)
Definition isspace (c : Z) : bool :=
  ((9 <=? c) && (c <=? 13)) || ((28 <=? c) && (c <=? 32)) || (c =? 133) || (c =? 160) || (c =? 5760) ||
  ((8192 <=? c) && (c <=? 8202)) || (c =? 8232) || (c =? 8233) || (c =? 8239) || (c =? 8287) || (c =? 12288).

Fixpoint lstrip (s : str) : str :=
  match s with [] => [] | c :: s' => if isspace c then lstrip s' else s end.

Definition rstrip (s : str) : str := reverse (lstrip (reverse s)).

Definition strip (s : str) : str := rstrip (lstrip s).

(** [lower()] of the ASCII letters. *)
Definition lower (s : str) : str := (λ c, if (65 <=? c) && (c <=? 90) then c + 32 else c) <$> s.

(** ** Occurrences *)

Definition occurs (sub s : str) : Prop := ∃ a b, s = a ++ sub ++ b.

Lemma startswith_spec s p : startswith s p = true ↔ p `prefix_of` s.
Proof.
  revert s. induction p as [|x p IH]; intros s; [split; [intros _; apply prefix_nil|by destruct s]|].
  destruct s as [|y s]; cbn.
  - split; [done|]. by intros [k [=]].
  - rewrite andb_true_iff, Z.eqb_eq, IH. split; [intros [-> ?]; by apply prefix_cons|].
    intros [k [= -> ->]]. split; [done|]. by exists k.
Qed.

Lemma startswith_app p s : startswith (p ++ s) p = true.
Proof. apply startswith_spec. by exists s. Qed.

Lemma find_Some s sub i : find s sub = Some i → ∃ b, s = take i s ++ sub ++ b ∧ (i ≤ length s)%nat.
Proof.
  revert i. induction s as [|x s IH]; intros i; cbn [find]; destruct (startswith _ sub) eqn:E.
  - intros [= <-]. apply startswith_spec in E as [k E]. exists k. split; [exact E|cbn; lia].
  - done.
  - intros [= <-]. apply startswith_spec in E as [k E]. exists k. cbn [take app length]. split; [exact E|lia].
  - destruct (find s sub) as [j|]; [|done]. intros [= <-]. destruct (IH j eq_refl) as (b & Hb & Hj). exists b. cbn.
    split; [by f_equal|lia].
Qed.

Lemma find_None s sub : find s sub = None ↔ ¬ occurs sub s.
Proof.
  induction s as [|x s IH]; cbn [find]; destruct (startswith _ sub) eqn:E; (split; [try done|]).
  - intros []. apply startswith_spec in E as [k E]. by exists [], k.
  - intros _ (a & b & Hs). symmetry in Hs. apply app_nil in Hs as [-> [-> _]%app_nil]. done.
  - done.
  - intros []. apply startswith_spec in E as [k E]. by exists [], k.
  - intros HN. assert (Hn : find s sub = None) by (by destruct (find s sub)). apply IH in Hn. intros (a & b & Hs).
    destruct a as [|y a].
    + assert (startswith (x :: s) sub = true) by (apply startswith_spec; by exists b). congruence.
    + injection Hs as -> ->. apply Hn. by exists a, b.
  - intros Hn. assert (Hs : ¬ occurs sub s) by (intros (a & b & ->); apply Hn; by exists (x :: a), b).
    apply IH in Hs. by rewrite Hs.
Qed.

Lemma contains_spec sub s : contains sub s = true ↔ occurs sub s.
Proof.
  unfold contains. destruct (find s sub) as [i|] eqn:E.
  - split; [intros _|done]. apply find_Some in E as (b & E & _). by exists (take i s), b.
  - apply find_None in E. split; [done|]. by intros.
Qed.

Lemma contains_false sub s : contains sub s = false ↔ ¬ occurs sub s.
Proof. rewrite <- contains_spec. by destruct (contains sub s). Qed.

#[global] Instance occurs_dec sub s : Decision (occurs sub s).
Proof. refine (cast_if (decide (contains sub s = true))); by rewrite <- contains_spec. Defined.

Lemma occurs_app_l sub x y : occurs sub x → occurs sub (x ++ y).
Proof. intros (a & b & ->). exists a, (b ++ y). by rewrite <- !app_assoc. Qed.

Lemma occurs_app_r sub x y : occurs sub y → occurs sub (x ++ y).
Proof. intros (a & b & ->). exists (x ++ a), b. by rewrite <- !app_assoc. Qed.

(** An occurrence in [x ++ y] is in [x], in [y], or over the border. *)
Lemma occurs_app_cases sub x y : occurs sub (x ++ y) →
  occurs sub x ∨ occurs sub y ∨ ∃ p q, sub = p ++ q ∧ p ≠ [] ∧ q ≠ [] ∧ p `suffix_of` x ∧ q `prefix_of` y.
Proof.
  intros (a & b & E). apply app_eq_inv in E as [(k & -> & E)|(k & -> & E)].
  - symmetry in E. apply app_eq_inv in E as [(k' & -> & ->)|(k' & -> & ->)].
    + left. by exists a, k'.
    + destruct (decide (k = [])) as [->|Hk]; [right; left; by exists [], b|].
      destruct (decide (k' = [])) as [->|Hk']; [left; exists a, []; by rewrite !app_nil_r|].
      right; right. exists k, k'. split_and!; [done..|by exists a|by exists b].
  - right; left. by exists k, b.
Qed.

(** ** Tags

    A tag begins with a character that does not come again in it, so two
    occurrences never overlap. *)

Definition tag_ok (c : Z) (tag : str) : Prop := ∃ t, tag = c :: t ∧ c ∉ t.

Lemma tag_straddles c tag1 tag2 p q k : tag_ok c tag1 → tag_ok c tag2 → tag1 = p ++ q → p ≠ [] → q ≠ [] →
  q `prefix_of` tag2 ++ k → False.
Proof.
  intros (t1 & -> & H1) (t2 & -> & H2) E Hp Hq [m Hm]. destruct p as [|x p]; [done|]. destruct q as [|y q]; [done|].
  injection E as -> ->. injection Hm as <- _. apply H1. set_solver.
Qed.

Lemma find_self c tag x y : tag_ok c tag → ¬ occurs tag x → find (x ++ tag ++ y) tag = Some (length x).
Proof.
  intros H Hx. induction x as [|z x IH].
  - destruct H as (t & -> & _). cbn [app find]. pose proof (startswith_app (c :: t) y) as E. cbn [app] in E. by rewrite E.
  - cbn [app find]. destruct (startswith (z :: x ++ tag ++ y) tag) eqn:E.
    + exfalso. apply startswith_spec in E as [k E]. change (z :: x ++ tag ++ y) with ((z :: x) ++ tag ++ y) in E.
      apply app_eq_inv in E as [(m & E & _)|(m & E & E')].
      * apply Hx. exists [], m. by rewrite E.
      * destruct (decide (m = [])) as [->|Hm]; [apply Hx; exists [], []; by rewrite !app_nil_r in *|].
        by apply (tag_straddles c tag tag (z :: x) m y); [..|by exists k].
    + rewrite IH; [done|]. intros Ho. apply Hx. by apply (occurs_app_r _ [z]).
Qed.

Lemma tag_nonempty c tag : tag_ok c tag → tag ≠ [].
Proof. by intros (t & -> & _). Qed.

(** Tags occur in each other only as prefixes. *)
Lemma occurs_in_tag c tag1 tag2 x : tag_ok c tag1 → tag_ok c tag2 → x `prefix_of` tag2 → occurs tag1 x → tag1 `prefix_of` x.
Proof.
  intros (t1 & -> & H1) (t2 & -> & H2) [k Hk] (a & b & ->). destruct a as [|y a]; [by exists b|].
  injection Hk as _ ->. exfalso. apply H2. set_solver.
Qed.

Lemma suffix_is_tag c tag1 tag2 p q : tag_ok c tag1 → tag_ok c tag2 → tag1 = p ++ q → p ≠ [] → p `suffix_of` tag2 → p = tag2.
Proof.
  intros (t1 & -> & _) (t2 & -> & H2) Ep Hp [k Hk]. destruct p as [|y p]; [done|]. injection Ep as <- ->.
  destruct k as [|z k]; [done|]. injection Hk as _ ->. exfalso. apply H2. set_solver.
Qed.

Lemma find_min s sub i j : find s sub = Some i → (j < i)%nat → ¬ sub `prefix_of` drop j s.
Proof.
  revert i j. induction s as [|x s IH]; intros i j; cbn [find]; destruct (startswith _ sub) eqn:E; try (intros [= <-]; lia).
  destruct (find s sub) as [k|]; [|done]. intros [= <-] Hj. destruct j as [|j]; cbn [drop].
  - intros H%startswith_spec. congruence.
  - apply (IH k); [done|lia].
Qed.

Lemma find_split c tag s i : tag_ok c tag → find s tag = Some i → ∃ x y, s = x ++ tag ++ y ∧ ¬ occurs tag x.
Proof.
  intros Ht Hf. destruct (find_Some _ _ _ Hf) as (y & E & Hi). exists (take i s), y. split; [done|]. intros (a & b & Ea).
  pose proof (f_equal length Ea) as Hl. rewrite length_take, !length_app in Hl.
  assert (0 < length tag)%nat by (destruct Ht as (t & -> & _); cbn; lia).
  apply (find_min s tag i (length a)); [done|lia|]. exists (b ++ drop i s).
  rewrite <- (take_drop i s) at 1. rewrite Ea, <- !app_assoc. by rewrite drop_app_length.
Qed.

Lemma delete_none old s : ¬ occurs old s → delete_all old s = s.
Proof.
  intros H. unfold delete_all. destruct old as [|z old]; [done|]. set (o := z :: old) in *.
  induction s as [|x s IH]; [done|]. cbn [delete_from]. destruct (startswith (x :: s) o) eqn:E.
  - exfalso. apply startswith_spec in E as [k E]. apply H. by exists [], k.
  - f_equal. apply IH. intros Ho. apply H. by apply (occurs_app_r _ [x]).
Qed.

Lemma delete_from_skip old x s : delete_from old (length x) (x ++ s) = delete_from old 0 s.
Proof. induction x as [|z x IH]; [done|]. done. Qed.

Lemma delete_head old s : old ≠ [] → delete_all old (old ++ s) = delete_all old s.
Proof.
  intros H. unfold delete_all. destruct old as [|z old]; [done|]. cbn [app delete_from].
  pose proof (startswith_app (z :: old) s) as E. cbn [app] in E. rewrite E. cbn [length pred]. apply delete_from_skip.
Qed.

(** ** White space *)

Lemma lstrip_app s k : lstrip s ≠ [] → lstrip (s ++ k) = lstrip s ++ k.
Proof. induction s as [|c s IH]; [done|]. cbn. destruct (isspace c); [done|by intros]. Qed.

Lemma lstrip_idem s : lstrip (lstrip s) = lstrip s.
Proof. induction s as [|c s IH]; [done|]. cbn. destruct (isspace c) eqn:E; [done|]. cbn. by rewrite E. Qed.

Lemma lstrip_blank s : lstrip s = [] ↔ Forall (λ c, isspace c = true) s.
Proof.
  induction s as [|c s IH]; [done|]. cbn. rewrite Forall_cons. destruct (isspace c) eqn:E; [rewrite IH; naive_solver|].
  split; [done|]. by intros [? _].
Qed.

Lemma lstrip_suffix s : ∃ w, s = w ++ lstrip s ∧ Forall (λ c, isspace c = true) w.
Proof.
  induction s as [|c s (w & E & Hw)]; [by exists []|]. cbn. destruct (isspace c) eqn:Ec.
  - exists (c :: w). split; [cbn; by f_equal|by constructor].
  - by exists [].
Qed.

Lemma lstrip_drop_blank w s : Forall (λ c, isspace c = true) w → lstrip (w ++ s) = lstrip s.
Proof. induction 1 as [|c w Hc _ IH]; [done|]. cbn. by rewrite Hc. Qed.

Lemma rstrip_prefix s : ∃ w, s = rstrip s ++ w ∧ Forall (λ c, isspace c = true) w.
Proof.
  destruct (lstrip_suffix (reverse s)) as (w & E & Hw). exists (reverse w). split; [|by apply Forall_reverse].
  unfold rstrip. by rewrite <- reverse_app, <- E, reverse_involutive.
Qed.

Lemma rstrip_drop_blank s w : Forall (λ c, isspace c = true) w → rstrip (s ++ w) = rstrip s.
Proof. intros Hw. unfold rstrip. rewrite reverse_app, lstrip_drop_blank; [done|by apply Forall_reverse]. Qed.

Lemma strip_lstrip s : strip (lstrip s) = strip s.
Proof. unfold strip. by rewrite lstrip_idem. Qed.

(** [strip] does not depend on the order of its two halves. *)
Lemma strip_rstrip s : strip (rstrip s) = strip s.
Proof.
  destruct (rstrip_prefix s) as (w & E & Hw). unfold strip. destruct (decide (lstrip (rstrip s) = [])) as [Hb|Hb].
  - rewrite Hb, E. rewrite lstrip_blank in Hb. assert (lstrip (rstrip s ++ w) = []) as ->; [|done].
    apply lstrip_blank, Forall_app. done.
  - rewrite E at 2. rewrite lstrip_app by done. by rewrite rstrip_drop_blank.
Qed.

Lemma strip_idem s : strip (strip s) = strip s.
Proof. unfold strip at 2. by rewrite strip_rstrip, strip_lstrip. Qed.

Lemma strip_app_rstrip x s : strip (x ++ rstrip s) = strip (x ++ s).
Proof.
  destruct (rstrip_prefix s) as (w & E & Hw). rewrite E at 2. rewrite app_assoc.
  assert (Hs : ∀ u, strip (u ++ w) = strip u).
  { intros u. rewrite <- strip_rstrip, rstrip_drop_blank, strip_rstrip; done. }
  by rewrite Hs.
Qed.

Lemma lstrip_app_fixed a b : lstrip b = b → lstrip (a ++ b) = lstrip a ++ b.
Proof.
  intros Hb. destruct (decide (lstrip a = [])) as [Ha|Ha]; [|by apply lstrip_app].
  rewrite Ha. apply lstrip_blank in Ha. by rewrite lstrip_drop_blank.
Qed.

(** A word without white space at its ends survives at the head of a text. *)
Lemma strip_word w s : w ≠ [] → lstrip w = w → rstrip w = w → strip (w ++ s) = w ++ rstrip s.
Proof.
  intros Hw Hl Hr. unfold strip. rewrite lstrip_app by (by rewrite Hl). rewrite Hl. unfold rstrip in *.
  rewrite reverse_app, lstrip_app_fixed; [by rewrite reverse_app, reverse_involutive|].
  by rewrite <- (reverse_involutive (lstrip _)), Hr.
Qed.

Lemma lower_app a b : lower (a ++ b) = lower a ++ lower b.
Proof. apply fmap_app. Qed.

#[export] Hint Resolve occurs_app_l occurs_app_r : py.
