(* ===== verification/Harmony.v ===== *)
(** * The Harmony format ([parser/harmony_parser.py])

    The output of GPT-OSS is a sequence of messages between structural tokens.  The
    tokens of the text are found first ([iter_tokens]); [CanonicalStrategy] reads
    messages off them, [TextStrategy] reads a fallback format without tokens with
    regular expressions, and [HarmonyParser] chooses between them as the text comes in
    chunks, and keeps what may be incomplete in a buffer.

    Positions are natural numbers; the loops over the text and the tokens have fuel,
    which [HarmonySpec] shows to be enough.  Case is ignored as Python ignores it for
    the letters that occur in the words looked for. *)

From Stdlib Require Import String.
From S2P Require Import Prelude PyText.

(** [text[a:b]] *)
Definition slice (text : str) (a b : nat) : str := take (b - a) (drop a text).

(** ** Holding back the beginning of a token *)

(** The largest [k] from [n] down such that the last [k] characters begin [tok]. *)
Fixpoint longest_hold (text tok : str) (n : nat) : nat :=
  match n with
  | O => 0
  | S n' => if startswith tok (drop (length text - n) text) then n else longest_hold text tok n'
  end.

Definition prefix_hold (text : str) (tokens : list str) : str * str :=
  let max_hold := fold_left (λ h tok, Nat.max h (longest_hold text tok (Nat.min (length tok - 1) (length text)))) tokens 0%nat in
  (take (length text - max_hold) text, drop (length text - max_hold) text).

(** ** Tokens *)

Inductive token_type := TEXT | START | CHANNEL | MESSAGE | CONSTRAIN | END | CALL | RETURN.

#[global] Instance token_type_eq_dec : EqDecision token_type.
Proof. solve_decision. Defined.

Record Token := { type : token_type; start : nat; end_ : nat }.

Definition TOKENS : list (str * token_type) :=
  [(lit "<|start|>", START); (lit "<|channel|>", CHANNEL); (lit "<|message|>", MESSAGE);
   (lit "<|constrain|>", CONSTRAIN); (lit "<|end|>", END); (lit "<|call|>", CALL); (lit "<|return|>", RETURN)].

Definition mark : str := lit "<|".
Definition close : str := lit "|>".

(** The literal that the text continues with. *)
Definition literal_at (s : str) : option (str * token_type) := List.find (λ l, startswith s l.1) TOKENS.

(** The text before a marker, if any. *)
Definition text_token (a b : nat) : list Token := if (a <? b)%nat then [{| type := TEXT; start := a; end_ := b |}] else [].

(** The loop: the tokens, the position behind them, and whether an unknown token came. *)
Fixpoint scan (fuel : nat) (text : str) (pos : nat) (has_unknown_tokens : bool) : res (list Token * nat * bool) :=
  match fuel with
  | O => Err OutOfFuel
  | S fuel =>
      match find (drop pos text) mark with
      | None => Ok ([], pos, has_unknown_tokens)
      | Some i =>
          let marker_pos := (pos + i)%nat in
          let tail := drop marker_pos text in
          match literal_at tail with
          | Some (literal, t) =>
              let next := (marker_pos + length literal)%nat in
              let! '(ts, pos', u) := scan fuel text next has_unknown_tokens in
              Ok (text_token pos marker_pos ++ {| type := t; start := marker_pos; end_ := next |} :: ts, pos', u)
          | None =>
              if existsb (λ l : str * token_type, startswith l.1 tail) TOKENS then
                Ok (text_token pos marker_pos ++ [{| type := TEXT; start := marker_pos; end_ := length text |}],
                    length text, has_unknown_tokens)
              else
                let two := {| type := TEXT; start := marker_pos; end_ := (marker_pos + 2)%nat |} in
                match find (drop (marker_pos + 2) text) close with
                | Some j =>
                    let close_pos := (marker_pos + 2 + j)%nat in
                    match find (drop (close_pos + 2) text) mark with
                    | Some k =>
                        let next_marker := (close_pos + 2 + k)%nat in
                        let! '(ts, pos', u) := scan fuel text next_marker true in
                        Ok (text_token pos marker_pos ++ two ::
                            {| type := TEXT; start := (marker_pos + 2)%nat; end_ := next_marker |} :: ts, pos', u)
                    | None =>
                        Ok (text_token pos marker_pos ++
                            [two; {| type := TEXT; start := (marker_pos + 2)%nat; end_ := length text |}], length text, true)
                    end
                | None =>
                    let! '(ts, pos', u) := scan fuel text (marker_pos + 2) true in
                    Ok (text_token pos marker_pos ++ two :: ts, pos', u)
                end
          end
      end
  end.

Definition iter_tokens (text : str) (start_pos : nat) : res (list Token) :=
  let! '(ts, pos, has_unknown_tokens) := scan (S (length text)) text start_pos false in
  Ok (ts ++
    if (pos <? length text)%nat then [{| type := TEXT; start := pos; end_ := length text |}]
    else if (pos =? length text)%nat && has_unknown_tokens && existsb (λ l : str * token_type, endswith text l.1) TOKENS
    then [{| type := TEXT; start := pos; end_ := pos |}]
    else []).

(** ** The canonical format *)

Inductive event_type := Reasoning | Normal | ToolCall.

#[global] Instance event_type_eq_dec : EqDecision event_type.
Proof. solve_decision. Defined.

Record Event := { kind : event_type; content : str; raw_text : option str }.

Definition reasoning_event (s : str) : Event := {| kind := Reasoning; content := s; raw_text := None |}.
Definition normal_event (s : str) : Event := {| kind := Normal; content := s; raw_text := None |}.
Definition tool_call (s raw : str) : Event := {| kind := ToolCall; content := s; raw_text := Some raw |}.

Inductive channel := analysis | commentary | final.

#[global] Instance channel_eq_dec : EqDecision channel.
Proof. solve_decision. Defined.

Definition _extract_channel_type (header_text : str) : option channel :=
  let header := lower (strip header_text) in
  if startswith header (lit "analysis") then Some analysis
  else if startswith header (lit "commentary") then Some commentary
  else if startswith header (lit "final") then Some final
  else None.

(** The positions of the channel and of the message that begins a block. *)
Fixpoint find_parts (ts : list Token) (i : nat) (channel_pos : option nat) : option nat * option nat :=
  match ts with
  | [] => (channel_pos, None)
  | t :: ts =>
      if bool_decide (type t = CHANNEL) && bool_decide (channel_pos = None) then find_parts ts (S i) (Some i)
      else if bool_decide (type t = MESSAGE) then (channel_pos, Some i)
      else find_parts ts (S i) channel_pos
  end.

(** The first position from [i] with a token of these types. *)
Fixpoint find_type (types : list token_type) (ts : list Token) (i : nat) : option nat :=
  match ts with
  | [] => None
  | t :: ts => if bool_decide (type t ∈ types) then Some i else find_type types ts (S i)
  end.

Definition type_at (tokens : list Token) (pos : nat) : option token_type := type <$> tokens !! pos.

(** Behind an optional start token. *)
Definition skip_start (tokens : list Token) (pos : nat) : nat :=
  if bool_decide (type_at tokens pos = Some START) then S pos else pos.

(** The header between the channel and the message. *)
Definition header (text : str) (tokens : list Token) (channel_pos message_pos : nat) : option str :=
  match tokens !! channel_pos, tokens !! message_pos with
  | Some ch, Some m =>
      let channel_start := match tokens !! S channel_pos with Some t => start t | None => end_ ch end in
      Some (slice text channel_start (start m))
  | _, _ => None
  end.

Definition _parse_partial_analysis (text : str) (tokens : list Token) (start_pos : nat) : option (Event * str) :=
  let pos := skip_start tokens start_pos in
  match find_parts (drop pos tokens) pos None with
  | (Some channel_pos, Some message_pos) =>
      channel_header ← header text tokens channel_pos message_pos;
      if bool_decide (_extract_channel_type channel_header = Some analysis) then
        m ← tokens !! message_pos;
        t ← tokens !! start_pos;
        Some (reasoning_event (drop (end_ m) text), slice text (start t) (end_ m))
      else None
  | _ => None
  end.

Definition ends_of (c : channel) : list token_type :=
  match c with final => [RETURN] | _ => [END; CALL] end.

Definition _parse_block (text : str) (tokens : list Token) (start_pos : nat) : option (Event * nat) :=
  let pos := skip_start tokens start_pos in
  match find_parts (drop pos tokens) pos None with
  | (_, None) => None
  | (None, Some message_pos) =>
      m ← tokens !! message_pos;
      end_token_pos ← find_type [END; CALL; RETURN] (drop (S message_pos) tokens) (S message_pos);
      e ← tokens !! end_token_pos;
      Some (normal_event (slice text (end_ m) (start e)), S end_token_pos)
  | (Some channel_pos, Some message_pos) =>
      channel_header ← header text tokens channel_pos message_pos;
      channel_type ← _extract_channel_type channel_header;
      m ← tokens !! message_pos;
      t ← tokens !! start_pos;
      let content_start := end_ m in
      match find_type (ends_of channel_type) (drop (S message_pos) tokens) (S message_pos) with
      | None =>
          if bool_decide (channel_type = final) then Some (normal_event (drop content_start text), length tokens)
          else None
      | Some end_pos =>
          e ← tokens !! end_pos;
          let content := slice text content_start (start e) in
          if bool_decide (channel_type = final) then
            match tokens !! S end_pos with
            | Some next_token =>
                if bool_decide (type next_token = TEXT)
                then Some (normal_event (content ++ slice text (start next_token) (end_ next_token)), S (S end_pos))
                else Some (normal_event content, S end_pos)
            | None => Some (normal_event content, S end_pos)
            end
          else if bool_decide (type e = CALL)
          then Some (tool_call (strip content) (slice text (start t) (end_ e)), S end_pos)
          else if bool_decide (channel_type = analysis) then Some (reasoning_event content, S end_pos)
          else Some (normal_event content, S end_pos)
      end
  end.

Definition _is_commentary_filler_between_blocks (text : str) (tokens : list Token) (pos : nat) : bool :=
  match tokens !! pos, (if (0 <? pos)%nat then type_at tokens (pos - 1) else None) with
  | Some current_token, Some CALL =>
      let is_commentary := bool_decide (lower (strip (slice text (start current_token) (end_ current_token))) = lit "commentary") in
      (bool_decide (type_at tokens (S pos) = Some CHANNEL) && is_commentary) ||
      bool_decide (type current_token = MESSAGE) ||
      (bool_decide (type current_token = TEXT) && is_commentary)
  | _, _ => false
  end.

Definition _is_standalone_structural_token (content : str) : bool := bool_decide (strip content ∈ TOKENS.*1).

(** What a token outside a block gives. *)
Definition stray (text : str) (tokens : list Token) (pos : nat) (token : Token) : list Event :=
  if _is_commentary_filler_between_blocks text tokens pos then []
  else
    let content := slice text (start token) (end_ token) in
    if _is_standalone_structural_token content then [] else [normal_event content].

Definition cons_events (es : list Event) (r : list Event * str) : list Event * str := (es ++ r.1, r.2).

Fixpoint parse_tokens (fuel : nat) (text : str) (tokens : list Token) (pos : nat) : res (list Event * str) :=
  match fuel with
  | O => Err OutOfFuel
  | S fuel =>
      match tokens !! pos with
      | None => Ok ([], [])
      | Some token =>
          match type token with
          | TEXT =>
              if bool_decide (S pos = length tokens) then
                let '(emit, hold) := prefix_hold (slice text (start token) (end_ token)) TOKENS.*1 in
                Ok (if bool_decide (emit = []) then [] else [normal_event emit], hold)
              else
                let! r := parse_tokens fuel text tokens (S pos) in
                Ok (cons_events (stray text tokens pos token) r)
          | START | CHANNEL =>
              match _parse_block text tokens pos with
              | Some (event, new_pos) =>
                  let! r := parse_tokens fuel text tokens new_pos in Ok (cons_events [event] r)
              | None =>
                  match _parse_partial_analysis text tokens pos with
                  | Some (event, remaining_text) => Ok ([event], remaining_text)
                  | None => Ok ([], drop (start token) text)
                  end
              end
          | _ =>
              let! r := parse_tokens fuel text tokens (S pos) in
              Ok (cons_events (stray text tokens pos token) r)
          end
      end
  end.

(** [CanonicalStrategy.parse] *)
Definition canonical_parse (text : str) : res (list Event * str) :=
  let! tokens := iter_tokens text 0 in
  parse_tokens (S (length tokens)) text tokens 0.

(** ** Regular expressions

    A matcher takes the position, the rest of the text and what is to be matched
    afterwards, and tries its alternatives in order. *)

Section matchers.
Context {A : Type}.

Abbreviation cont := (nat → str → option A).

(** A letter of a pattern under [IGNORECASE]: the dotted and the dotless capital I
    match [i], the long s matches [s]. *)
Definition same_letter (c x : Z) : bool :=
  (x =? c) || ((97 <=? c) && (c <=? 122) && (x =? c - 32)) ||
  ((c =? 105) && ((x =? 304) || (x =? 305))) || ((c =? 115) && (x =? 383)).

Fixpoint m_word (w : str) (i : nat) (s : str) (k : cont) : option A :=
  match w, s with
  | [], _ => k i s
  | c :: w, x :: s => if same_letter c x then m_word w (S i) s k else None
  | _ :: _, [] => None
  end.

(** [(a|b|...)] *)
Fixpoint m_alt (ws : list str) (i : nat) (s : str) (k : cont) : option A :=
  match ws with
  | [] => None
  | w :: ws => match m_word w i s k with Some r => Some r | None => m_alt ws i s k end
  end.

(** [(?:w)?] *)
Definition m_opt (w : str) (i : nat) (s : str) (k : cont) : option A :=
  match m_word w i s k with Some r => Some r | None => k i s end.

(** [c*] and [c*?] for a class of characters. *)
Fixpoint m_star (class : Z → bool) (i : nat) (s : str) (k : cont) : option A :=
  match s with
  | x :: s' =>
      if class x then match m_star class (S i) s' k with Some r => Some r | None => k i s end else k i s
  | [] => k i s
  end.

Fixpoint m_lazy (class : Z → bool) (i : nat) (s : str) (k : cont) : option A :=
  match k i s with
  | Some r => Some r
  | None => match s with x :: s' => if class x then m_lazy class (S i) s' k else None | [] => None end
  end.

(** [$] also matches before a final newline. *)
Definition m_end (i : nat) (s : str) (k : cont) : option A :=
  match s with [] | [10] => k i s | _ => None end.

(** [(?:^|\s)] *)
Definition m_border (i : nat) (s : str) (k : cont) : option A :=
  match (if (i =? 0)%nat then k i s else None) with
  | Some r => Some r
  | None => match s with x :: s' => if isspace x then k (S i) s' else None | [] => None end
  end.

(** [re.search] *)
Fixpoint m_search (p : nat → str → option A) (i : nat) (s : str) : option A :=
  match p i s with
  | Some r => Some r
  | None => match s with _ :: s' => m_search p (S i) s' | [] => None end
  end.

End matchers.

Definition any (x : Z) : bool := true.

Definition assistant : str := lit "assistant".
Definition assistantfinal : str := lit "assistantfinal".
Definition channels : list str := [lit "analysis"; lit "commentary"].

(** The groups of the three patterns; the third with the start of its second group. *)
Definition analysis_then_final (text : str) : option (str * str * str) :=
  m_star isspace 0 text (λ i s, m_opt assistant i s (λ i s, m_star isspace i s (λ i s,
    m_alt channels i s (λ j s, m_lazy any j s (λ l s, m_star isspace l s (λ m s,
      m_word assistantfinal m s (λ m s, m_star isspace m s (λ g s, m_star any g s (λ h s,
        m_star isspace h s (λ e s, m_end e s (λ _ _,
          Some (slice text i j, slice text j l, slice text g h)))))))))))).

Definition final_only (text : str) : option str :=
  m_star isspace 0 text (λ i s, m_word assistantfinal i s (λ i s, m_star isspace i s (λ g s,
    m_star any g s (λ h s, m_star isspace h s (λ e s, m_end e s (λ _ _, Some (slice text g h))))))).

Definition analysis_only (text : str) : option (str * str * nat) :=
  m_star isspace 0 text (λ i s, m_opt assistant i s (λ i s, m_star isspace i s (λ i s,
    m_alt channels i s (λ j s, m_star any j s (λ l s, m_star isspace l s (λ e s, m_end e s (λ _ _,
      Some (slice text i j, slice text j l, j)))))))).

(** [re.search(r"(?:^|\s)(?:assistant)?\s*(...)")] *)
Definition mentions (words : list str) (text : str) : bool :=
  match m_search (λ i s, m_border i s (λ i s, m_opt assistant i s (λ i s, m_star isspace i s (λ i s,
    m_alt words i s (λ _ _, Some tt))))) 0 text with Some _ => true | None => false end.

(** ** The format without tokens *)

Definition if_text (s : str) (e : str → Event) : list Event := if bool_decide (s = []) then [] else [e s].

(** [TextStrategy.parse] *)
Definition text_parse (text : str) : list Event * str :=
  match analysis_then_final text with
  | Some (name, reasoning, answer) =>
      ((if bool_decide (lower name = lit "analysis") then if_text (strip reasoning) reasoning_event
        else if bool_decide (lower name = lit "commentary") then if_text (strip reasoning) normal_event
        else []) ++ if_text (strip answer) normal_event, [])
  | None =>
      let low := lower text in
      if mentions channels text && contains (lit "assistantfin") low && negb (contains assistantfinal low) then ([], text)
      else
        match final_only text with
        | Some answer => (if_text (strip answer) normal_event, [])
        | None =>
            match analysis_only text with
            | Some (name, content, start2) =>
                let '(emit, hold) := prefix_hold content [assistantfinal] in
                let kept := take start2 text ++ hold in
                if bool_decide (lower name = lit "analysis") && negb (bool_decide (emit = [])) then
                  ([reasoning_event emit], if bool_decide (hold = []) then name else kept)
                else if bool_decide (lower name = lit "commentary") && negb (bool_decide (emit = [])) then
                  ([normal_event (if bool_decide (hold = []) then strip emit else emit)],
                   if bool_decide (hold = []) then [] else kept)
                else ([], kept)
            | None =>
                let '(emit, hold) := prefix_hold text (channels ++ [assistantfinal]) in
                (if_text emit normal_event, hold)
            end
        end
  end.

(** ** The parser *)

Inductive strategy := CanonicalStrategy | TextStrategy.

Record HarmonyParser := {
  chosen : option strategy;
  buffered : str;
  _should_filter_commentary : bool;
  _partial_commentary : str;
}.

Definition init_harmony : HarmonyParser :=
  {| chosen := None; buffered := []; _should_filter_commentary := false; _partial_commentary := [] |}.

(** The loop that drops the word "commentary" between blocks; the two flags are those
    of the parser. *)
Fixpoint filter_events (buffer_has_call_token should_filter_commentary : bool) (partial_commentary : str)
    (events : list Event) : list Event * bool * str :=
  match events with
  | [] => ([], should_filter_commentary, partial_commentary)
  | e :: events =>
      let '(should_filter, f, p) :=
        if bool_decide (kind e = Normal) then
          if should_filter_commentary || negb (bool_decide (partial_commentary = [])) then
            let potential := partial_commentary ++ lower (strip (content e)) in
            if bool_decide (potential = lit "commentary") then (true, false, [])
            else if startswith (lit "commentary") potential then (true, should_filter_commentary, potential)
            else (false, false, [])
          else (false, should_filter_commentary, [])
        else (false, should_filter_commentary, partial_commentary) in
      if should_filter : bool then filter_events buffer_has_call_token f p events
      else
        let '(f, p) :=
          if bool_decide (kind e = ToolCall) then (true, [])
          else if buffer_has_call_token then (true, p) else (f, p) in
        let '(es, f, p) := filter_events buffer_has_call_token f p events in
        (e :: es, f, p)
  end.

(** [HarmonyParser.parse] *)
Definition harmony_parse (h : HarmonyParser) (chunk : str) : res (list Event * HarmonyParser) :=
  let buffer := buffered h ++ chunk in
  let strategy := match chosen h with
    | Some s => Some s
    | None =>
        if contains (lit "<|channel|>") buffer || contains (lit "<|start|>") buffer then Some CanonicalStrategy
        else if mentions (channels ++ [assistantfinal]) buffer then Some TextStrategy
        else None
    end in
  match strategy with
  | None => Ok ([], {| chosen := None; buffered := buffer; _should_filter_commentary := _should_filter_commentary h;
                       _partial_commentary := _partial_commentary h |})
  | Some s =>
      let! '(events, remaining) := match s with
        | CanonicalStrategy => canonical_parse buffer
        | TextStrategy => Ok (text_parse buffer)
        end in
      let buffer_has_call_token := endswith (rstrip buffer) (lit "<|call|>") in
      let '(es, f, p) := filter_events buffer_has_call_token (_should_filter_commentary h) (_partial_commentary h) events in
      Ok (es, {| chosen := Some s; buffered := remaining; _should_filter_commentary := f; _partial_commentary := p |})
  end.
