(* ===== verification/HarmonySpec.v ===== *)
(** * What the Harmony parser promises

    The tokens tile the text and the loops end; what is held back is the longest
    possible beginning of a token; a sequence of well-formed messages is read back as
    the events it was written from. *)

From Stdlib Require Import String.
From S2P Require Import Prelude PyText Harmony.

(** ** Slices *)

Lemma slice_full text : slice text 0 (length text) = text.
Proof. unfold slice. rewrite drop_0, Nat.sub_0_r. apply firstn_all. Qed.

Lemma slice_nil text a : slice text a a = [].
Proof. unfold slice. by rewrite Nat.sub_diag. Qed.

Lemma slice_app text a b c : (a ≤ b)%nat → (b ≤ c)%nat → slice text a b ++ slice text b c = slice text a c.
Proof.
  intros Hab Hbc. unfold slice. replace (c - a)%nat with ((b - a) + (c - b))%nat by lia.
  rewrite <- take_take_drop. f_equal. rewrite drop_drop. do 2 f_equal. lia.
Qed.

Lemma slice_mid x y z : slice (x ++ y ++ z) (length x) (length x + length y) = y.
Proof.
  unfold slice. rewrite drop_app_length. replace (length x + length y - length x)%nat with (length y) by lia.
  by rewrite take_app_length.
Qed.

Lemma slice_at text a s k : drop a text = s ++ k → slice text a (a + length s) = s.
Proof. intros E. unfold slice. rewrite E. replace (a + length s - a)%nat with (length s) by lia. apply take_app_length. Qed.

(** ** The tokens tile the text *)

Fixpoint tiles (ts : list Token) (a b : nat) : Prop :=
  match ts with
  | [] => a = b
  | t :: ts => start t = a ∧ (a ≤ end_ t)%nat ∧ tiles ts (end_ t) b
  end.

Definition token_ok (text : str) (t : Token) : Prop :=
  type t = TEXT ∨ (slice text (start t) (end_ t), type t) ∈ TOKENS.

Lemma tiles_app ts1 ts2 a b c : tiles ts1 a b → tiles ts2 b c → tiles (ts1 ++ ts2) a c.
Proof. revert a. induction ts1 as [|t ts1 IH]; intros a; cbn; [by intros ->|]. intros (? & ? & ?) ?. by auto. Qed.

Lemma tiles_le ts a b : tiles ts a b → (a ≤ b)%nat.
Proof. revert a. induction ts as [|t ts IH]; intros a; cbn; [lia|]. intros (_ & ? & H%IH). lia. Qed.

Lemma tiles_concat text ts a b : tiles ts a b → concat ((λ t, slice text (start t) (end_ t)) <$> ts) = slice text a b.
Proof.
  revert a. induction ts as [|t ts IH]; intros a; cbn; [intros ->; by rewrite slice_nil|].
  intros (<- & ? & H). rewrite (IH _ H). apply slice_app; [done|by eapply tiles_le].
Qed.

Lemma text_token_tiles a b : (a ≤ b)%nat → tiles (text_token a b) a b.
Proof. intros H. unfold text_token. destruct (Nat.ltb_spec a b); cbn; [|lia]. split_and!; [done|lia|done]. Qed.

Lemma text_token_ok text a b : Forall (token_ok text) (text_token a b).
Proof. unfold text_token. destruct (a <? b)%nat; [|constructor]. repeat constructor. Qed.

Lemma literal_at_spec s l t : literal_at s = Some (l, t) → (l, t) ∈ TOKENS ∧ ∃ k, s = l ++ k.
Proof.
  unfold literal_at. intros E. apply List.find_some in E as [H1%list_elem_of_In H2]. split; [done|].
  by apply startswith_spec in H2.
Qed.

Lemma find_le s sub i : find s sub = Some i → (i + length sub ≤ length s)%nat.
Proof. intros (b & E & Hi)%find_Some. apply (f_equal length) in E. rewrite !length_app, length_take in E. lia. Qed.

Lemma scan_ok text : ∀ fuel pos u, (length text < fuel + pos)%nat → (pos ≤ length text)%nat →
  ∃ ts pos' u', scan fuel text pos u = Ok (ts, pos', u') ∧ (pos ≤ pos' ≤ length text)%nat ∧ tiles ts pos pos' ∧
    Forall (token_ok text) ts.
Proof.
  induction fuel as [|fuel IH]; intros pos u Hf Hp; [lia|]. cbn [scan].
  destruct (find (drop pos text) mark) as [i|] eqn:Ei; [|by exists [], pos, u].
  apply find_le in Ei. rewrite length_drop in Ei. change (length mark) with 2%nat in Ei.
  destruct (literal_at (drop (pos + i) text)) as [[l t]|] eqn:El.
  - apply literal_at_spec in El as [Hin [k Hk]]. assert (Hl : (length l = length l ∧ 0 < length l)%nat).
    { split; [done|]. assert (Hall : Forall (λ x, (0 < length x.1)%nat) TOKENS) by (repeat constructor; cbn; lia).
      rewrite Forall_forall in Hall. apply (Hall _ Hin). }
    pose proof (f_equal length Hk) as Hlen. rewrite length_drop, length_app in Hlen.
    destruct (IH (pos + i + length l)%nat u) as (ts & pos' & u' & -> & Hb & Ht & Hok); [lia..|]. cbn [res_bind].
    do 3 eexists. split; [done|]. split; [lia|]. split.
    + eapply tiles_app; [apply text_token_tiles; lia|]. cbn. split_and!; [done|lia|done].
    + apply Forall_app. split; [apply text_token_ok|]. constructor; [|done]. right. cbn [type start end_]. by rewrite (slice_at _ _ _ _ Hk).
  - destruct (existsb _ TOKENS).
    + do 3 eexists. split; [done|]. split; [lia|]. split.
      * eapply tiles_app; [apply text_token_tiles; lia|]. cbn. split_and!; [done|lia|done].
      * apply Forall_app. split; [apply text_token_ok|]. repeat constructor.
    + destruct (find (drop (pos + i + 2) text) close) as [j|] eqn:Ej.
      * apply find_le in Ej. rewrite length_drop in Ej. change (length close) with 2%nat in Ej.
        destruct (find (drop (pos + i + 2 + j + 2) text) mark) as [k|] eqn:Ek.
        -- apply find_le in Ek. rewrite length_drop in Ek. change (length mark) with 2%nat in Ek.
           destruct (IH (pos + i + 2 + j + 2 + k)%nat true) as (ts & pos' & u' & -> & Hb & Ht & Hok); [lia..|]. cbn [res_bind].
           do 3 eexists. split; [done|]. split; [lia|]. split.
           ++ eapply tiles_app; [apply text_token_tiles; lia|]. cbn. split_and!; [done|lia|done|lia|done].
           ++ apply Forall_app. split; [apply text_token_ok|]. by repeat (constructor; [by left|]).
        -- do 3 eexists. split; [done|]. split; [lia|]. split.
           ++ eapply tiles_app; [apply text_token_tiles; lia|]. cbn. split_and!; [done|lia|done|lia|done].
           ++ apply Forall_app. split; [apply text_token_ok|]. repeat constructor.
      * destruct (IH (pos + i + 2)%nat true) as (ts & pos' & u' & -> & Hb & Ht & Hok); [lia..|]. cbn [res_bind].
        do 3 eexists. split; [done|]. split; [lia|]. split.
        -- eapply tiles_app; [apply text_token_tiles; lia|]. cbn. split_and!; [done|lia|done].
        -- apply Forall_app. split; [apply text_token_ok|]. by repeat (constructor; [by left|]).
Qed.

Lemma iter_tokens_ok text : ∃ ts, iter_tokens text 0 = Ok ts ∧ tiles ts 0 (length text) ∧ Forall (token_ok text) ts.
Proof.
  unfold iter_tokens. destruct (scan_ok text (S (length text)) 0 false) as (ts & pos & u & -> & Hb & Ht & Hok); [lia..|].
  cbn [res_bind]. eexists. split; [done|]. destruct (Nat.ltb_spec pos (length text)).
  - split; [eapply tiles_app; [done|]; cbn; split_and!; [done|lia|done]|]. apply Forall_app. split; [done|]. repeat constructor.
  - assert (pos = length text) as -> by lia. destruct (_ && _); [|rewrite app_nil_r; done].
    split; [eapply tiles_app; [done|]; cbn; split_and!; [done|lia|done]|]. apply Forall_app. split; [done|]. repeat constructor.
Qed.

(** ** The loop over the tokens ends *)

Lemma find_type_bound types ts : ∀ i j, find_type types ts i = Some j → (i ≤ j < i + length ts)%nat.
Proof.
  induction ts as [|t ts IH]; intros i j; [done|]. cbn. destruct (bool_decide _); [intros [= <-]; lia|].
  intros ?%IH. lia.
Qed.

Lemma find_parts_bound ts : ∀ i ch m, (find_parts ts i ch).2 = Some m → (i ≤ m < i + length ts)%nat.
Proof.
  induction ts as [|t ts IH]; intros i ch m; [done|]. cbn [find_parts length]. destruct (_ && _); [intros ?%IH; lia|].
  destruct (bool_decide _); [intros [= <-]; lia|]. intros ?%IH. lia.
Qed.

Lemma parse_block_progress text tokens pos e n : _parse_block text tokens pos = Some (e, n) → (pos < n)%nat.
Proof.
  unfold _parse_block, skip_start. intros H.
  set (p := if bool_decide _ then S pos else pos) in H. assert (Hp : (pos ≤ p)%nat) by (unfold p; case_bool_decide; lia). clearbody p.
  destruct (find_parts (drop p tokens) p None) as [ch [mp|]] eqn:E; [|by destruct ch].
  pose proof (f_equal snd E) as Em. cbn in Em. apply find_parts_bound in Em. rewrite length_drop in Em.
  destruct ch as [cp|].
  - destruct (header _ _ _ _) as [h|]; cbn in H; [|done]. destruct (_extract_channel_type h) as [c|]; cbn in H; [|done].
    destruct (tokens !! mp); cbn in H; [|done]. destruct (tokens !! pos); cbn in H; [|done].
    destruct (find_type _ _ _) as [ep|] eqn:Ee; [|destruct (bool_decide _); [injection H as _ <-; lia|done]].
    apply find_type_bound in Ee. destruct (tokens !! ep); cbn in H; [|done].
    repeat (match type of H with
      | context [bool_decide ?P] => destruct (bool_decide P)
      | context [match ?l !! ?q with _ => _ end] => destruct (l !! q)
      end); injection H as _ <-; lia.
  - destruct (tokens !! mp); cbn in H; [|done]. destruct (find_type _ _ _) as [ep|] eqn:Ee; cbn in H; [|done].
    apply find_type_bound in Ee. destruct (tokens !! ep); cbn in H; [|done]. injection H as _ <-. lia.
Qed.

Lemma parse_tokens_total text tokens : ∀ fuel pos, (length tokens < fuel + pos)%nat →
  (0 < fuel)%nat → ∃ r, parse_tokens fuel text tokens pos = Ok r.
Proof.
  induction fuel as [|fuel IH]; intros pos Hf H0; [lia|]. cbn [parse_tokens].
  destruct (tokens !! pos) as [t|] eqn:Et; [|by eexists]. pose proof (lookup_lt_Some _ _ _ Et) as Hlt.
  assert (Hnext : ∀ q es, (pos < q)%nat → ∃ r, (let! r := parse_tokens fuel text tokens q in Ok (cons_events es r)) = Ok r).
  { intros q es Hq. destruct (IH q) as [r ->]; [lia..|]. by eexists. }
  assert (Hb : ∃ r, match _parse_block text tokens pos with
      | Some (event, new_pos) => let! r := parse_tokens fuel text tokens new_pos in Ok (cons_events [event] r)
      | None => match _parse_partial_analysis text tokens pos with
          | Some (event, remaining_text) => Ok ([event], remaining_text)
          | None => Ok ([], drop (start t) text)
          end
      end = Ok r).
  { destruct (_parse_block text tokens pos) as [[e n]|] eqn:Eb.
    - apply Hnext. by eapply parse_block_progress.
    - destruct (_parse_partial_analysis _ _ _) as [[e rem]|]; by eexists. }
  destruct (type t); try (by apply Hnext; lia); [|exact Hb..].
  case_bool_decide; [destruct (prefix_hold _ _); by eexists|]. apply Hnext. lia.
Qed.

(** ** What is held back *)

Lemma longest_hold_spec text tok n : (n ≤ length text)%nat →
  (longest_hold text tok n ≤ n)%nat ∧
  (longest_hold text tok n ≠ 0%nat → drop (length text - longest_hold text tok n) text `prefix_of` tok) ∧
  ∀ k, (longest_hold text tok n < k ≤ n)%nat → ¬ drop (length text - k) text `prefix_of` tok.
Proof.
  induction n as [|n IH]; intros Hn; [split_and!; [done|done|intros; lia]|]. cbn [longest_hold].
  destruct (startswith _ _) eqn:E.
  - apply startswith_spec in E. split_and!; [done|done|intros; lia].
  - destruct IH as (H1 & H2 & H3); [lia|]. split_and!; [lia|done|]. intros k Hk.
    destruct (decide (k = S n)) as [->|]; [|apply H3; lia]. intros Hp%startswith_spec. congruence.
Qed.

Lemma fold_max_spec {X} (f : X → nat) l : ∀ h, let m := fold_left (λ h x, Nat.max h (f x)) l h in
  (h ≤ m)%nat ∧ Forall (λ x, (f x ≤ m)%nat) l ∧ (m = h ∨ ∃ x, x ∈ l ∧ m = f x).
Proof.
  induction l as [|x l IH]; intros h; cbn; [split_and!; [done|constructor|by left]|].
  destruct (IH (Nat.max h (f x))) as (H1 & H2 & H3). split_and!; [lia|constructor; [lia|done]|].
  destruct H3 as [H3|(y & Hy & H3)]; [|right; exists y; split; [by constructor|done]].
  destruct (decide (f x ≤ h)%nat); [left; lia|right; exists x; split; [by constructor|lia]].
Qed.

(** The beginning of a token, not the whole. *)
Definition begins (tokens : list str) (s : str) : Prop := s ≠ [] ∧ ∃ tok, tok ∈ tokens ∧ s `prefix_of` tok ∧ s ≠ tok.

Lemma prefix_hold_ok text tokens emit hold : prefix_hold text tokens = (emit, hold) →
  text = emit ++ hold ∧ (hold = [] ∨ begins tokens hold) ∧
  ∀ s, s `suffix_of` text → begins tokens s → (length s ≤ length hold)%nat.
Proof.
  unfold prefix_hold. set (f := λ tok, longest_hold text tok (Nat.min (length tok - 1) (length text))).
  destruct (fold_max_spec f tokens 0) as (_ & Hall & Hm). set (m := fold_left _ tokens 0%nat) in *.
  assert (Hle : (m ≤ length text)%nat).
  { destruct Hm as [->|(x & _ & ->)]; [lia|]. destruct (longest_hold_spec text x (Nat.min (length x - 1) (length text))); unfold f; lia. }
  intros [= <- <-]. split; [by rewrite take_drop|]. split.
  - destruct (decide (m = 0%nat)) as [->|Hm0]; [left; by rewrite Nat.sub_0_r, drop_all|].
    right. destruct Hm as [->|(tok & Hin & Em)]; [done|].
    destruct (longest_hold_spec text tok (Nat.min (length tok - 1) (length text))) as (H1 & H2 & _); [lia|]. fold (f tok) in H1, H2.
    rewrite <- Em in H1, H2. assert (Hlen : length (drop (length text - m) text) = m) by (rewrite length_drop; lia).
    split; [intros E; rewrite E in Hlen; cbn in Hlen; lia|]. exists tok. split_and!; [done|by apply H2|]. intros E. rewrite E in Hlen. lia.
  - intros s [k Hk] (Hs & tok & Hin & Hp & Hne). rewrite length_drop. rewrite Forall_forall in Hall. specialize (Hall tok Hin). cbn in Hall.
    destruct (longest_hold_spec text tok (Nat.min (length tok - 1) (length text))) as (_ & _ & H3); [lia|]. fold (f tok) in H3.
    assert (Hlt : (length s < length tok)%nat).
    { pose proof (prefix_length _ _ Hp). destruct (decide (length s = length tok)); [|lia]. exfalso. apply Hne.
      destruct Hp as [q ->]. rewrite length_app in *. destruct q; [by rewrite app_nil_r|cbn in *; lia]. }
    destruct (decide (length s ≤ f tok)%nat); [lia|]. exfalso. apply (H3 (length s)).
    + rewrite Hk, length_app. lia.
    + rewrite Hk, length_app. replace (length k + length s - length s)%nat with (length k) by lia. by rewrite drop_app_length.
Qed.

(** ** Reading tokens back

    A text written as plain pieces, each before a structural token, is scanned into
    these pieces and tokens. *)

Definition literal (t : token_type) : str :=
  match t with
  | TEXT => [] | START => lit "<|start|>" | CHANNEL => lit "<|channel|>" | MESSAGE => lit "<|message|>"
  | CONSTRAIN => lit "<|constrain|>" | END => lit "<|end|>" | CALL => lit "<|call|>" | RETURN => lit "<|return|>"
  end.

Definition plain (s : str) : Prop := ¬ occurs mark s.

Definition seg_ok (s : str * token_type) : Prop := plain s.1 ∧ s.2 ≠ TEXT.

Definition render (segs : list (str * token_type)) : str := concat ((λ s, s.1 ++ literal s.2) <$> segs).

(** The tokens of the pieces, from position [p]. *)
Fixpoint toks_of (segs : list (str * token_type)) (p : nat) : list Token :=
  match segs with
  | [] => []
  | (x, t) :: segs =>
      let a := (p + length x)%nat in
      let b := (a + length (literal t))%nat in
      text_token p a ++ {| type := t; start := a; end_ := b |} :: toks_of segs b
  end.

Lemma render_cons x t segs : render ((x, t) :: segs) = x ++ literal t ++ render segs.
Proof. unfold render. cbn. by rewrite <- app_assoc. Qed.

Lemma render_app s1 s2 : render (s1 ++ s2) = render s1 ++ render s2.
Proof. unfold render. by rewrite fmap_app, concat_app. Qed.

Lemma toks_of_app s1 s2 p : toks_of (s1 ++ s2) p = toks_of s1 p ++ toks_of s2 (p + length (render s1)).
Proof.
  revert p. induction s1 as [|[x t] s1 IH]; intros p; [by rewrite Nat.add_0_r|].
  cbn [app toks_of]. rewrite IH, render_cons, <- app_assoc. cbn [app]. rewrite !length_app. do 4 f_equal. lia.
Qed.

Lemma literal_tag t : t ≠ TEXT → ∃ k, literal t = mark ++ k.
Proof. destruct t; [done|..]; intros _; by eexists. Qed.

Lemma literal_at_literal t k : t ≠ TEXT → literal_at (literal t ++ k) = Some (literal t, t).
Proof. destruct t; [done|..]; intros _; reflexivity. Qed.

Lemma mark_tag : tag_ok 60 mark.
Proof. exists [124]. split; [done|]. by apply (bool_decide_unpack _). Qed.

Lemma find_mark x t k : plain x → t ≠ TEXT → find (x ++ literal t ++ k) mark = Some (length x).
Proof. intros Hx [m ->]%literal_tag. rewrite <- app_assoc. by apply (find_self 60); [apply mark_tag|]. Qed.

Lemma scan_render text tail segs : Forall seg_ok segs → plain tail → ∀ fuel pos,
  drop pos text = render segs ++ tail → (length segs < fuel)%nat →
  scan fuel text pos false = Ok (toks_of segs pos, (pos + length (render segs))%nat, false).
Proof.
  intros Hs Ht. induction Hs as [|[x t] segs [Hx Hne] _ IH]; intros fuel pos Hd Hf; (destruct fuel as [|fuel]; [cbn in Hf; lia|]); cbn [scan].
  - rewrite Hd. cbn [render fmap list_fmap concat app]. apply find_None in Ht. rewrite Ht. by rewrite Nat.add_0_r.
  - rewrite Hd, render_cons, <- !app_assoc, (find_mark x t _ Hx Hne).
    assert (Hd1 : drop (pos + length x) text = literal t ++ render segs ++ tail).
    { by rewrite <- drop_drop, Hd, render_cons, <- !app_assoc, drop_app_length. }
    rewrite Hd1, literal_at_literal by done. rewrite (IH fuel); [|by rewrite <- drop_drop, Hd1, drop_app_length|cbn in Hf; lia].
    cbn [res_bind toks_of]. rewrite !length_app. by rewrite !Nat.add_assoc.
Qed.

Lemma iter_tokens_render segs tail : Forall seg_ok segs → plain tail →
  iter_tokens (render segs ++ tail) 0 = Ok (toks_of segs 0 ++ text_token (length (render segs)) (length (render segs ++ tail))).
Proof.
  intros Hs Ht. unfold iter_tokens. rewrite (scan_render _ tail segs Hs Ht); [|done|].
  2:{ rewrite length_app. assert (length segs ≤ length (render segs))%nat; [|lia].
      clear -Hs. induction Hs as [|[x t] segs [_ Hne] _ IH]; [done|]. rewrite render_cons, !length_app.
      assert (0 < length (literal t))%nat by (destruct t; [done|..]; cbn; lia). cbn. lia. }
  cbn [res_bind]. by rewrite andb_false_r.
Qed.

(** ** Reading messages back

    The messages of the format, independently of the parser: the name of the channel
    and its attributes, and what each channel means with the token at its end. *)

Record message := {
  m_role : option str;      (** after [<|start|>] *)
  m_channel : channel;
  m_attributes : str;       (** behind the name of the channel *)
  m_constrain : option str; (** after [<|constrain|>] *)
  m_content : str;
  m_end : token_type;
}.

Definition channel_name (c : channel) : str :=
  match c with analysis => lit "analysis" | commentary => lit "commentary" | final => lit "final" end.

(** A thought, a call of a tool (built-in tools are called from the analysis channel),
    a preamble, the answer; nothing else is well formed. *)
Definition meaning (c : channel) (e : token_type) : option event_type :=
  match c, e with
  | analysis, END => Some Reasoning
  | analysis, CALL | commentary, CALL => Some ToolCall
  | commentary, END | final, RETURN => Some Normal
  | _, _ => None
  end.

Definition m_header (m : message) : str := channel_name (m_channel m) ++ m_attributes m.

Definition lead_segs (m : message) : list (str * token_type) :=
  match m_role m with Some role => [([], START); (role, CHANNEL)] | None => [([], CHANNEL)] end.

Definition header_segs (m : message) : list (str * token_type) :=
  match m_constrain m with Some c => [(m_header m, CONSTRAIN); (c, MESSAGE)] | None => [(m_header m, MESSAGE)] end.

Definition segs_of (m : message) : list (str * token_type) :=
  lead_segs m ++ header_segs m ++ [(m_content m, m_end m)].

Definition header_of (m : message) : str :=
  match m_constrain m with Some c => m_header m ++ literal CONSTRAIN ++ c | None => m_header m end.

Definition message_ok (m : message) : Prop :=
  Forall seg_ok (segs_of m) ∧ meaning (m_channel m) (m_end m) ≠ None.

Definition event_of (m : message) : Event :=
  match meaning (m_channel m) (m_end m) with
  | Some Reasoning => reasoning_event (m_content m)
  | Some ToolCall => tool_call (strip (m_content m)) (render (segs_of m))
  | _ => normal_event (m_content m)
  end.

(** The parser recognises the channel by its name and the end by its token. *)
Lemma channel_read c s : _extract_channel_type (channel_name c ++ s) = Some c.
Proof.
  unfold _extract_channel_type. rewrite strip_word by (by destruct c). rewrite lower_app.
  by destruct c.
Qed.

Lemma meaning_ends c e : meaning c e ≠ None → e ∈ ends_of c.
Proof. destruct c, e; intros H; try done; by apply (bool_decide_unpack _). Qed.

Lemma header_read m : _extract_channel_type (header_of m) = Some (m_channel m).
Proof. unfold header_of, m_header. destruct (m_constrain m); rewrite <- ?app_assoc; apply channel_read. Qed.

Lemma find_parts_skip ts1 ts2 ch : Forall (λ t, type t ≠ CHANNEL ∧ type t ≠ MESSAGE) ts1 → ∀ i,
  find_parts (ts1 ++ ts2) i ch = find_parts ts2 (i + length ts1) ch.
Proof.
  induction 1 as [|t ts1 [H1 H2] _ IH]; intros i; [by rewrite Nat.add_0_r|]. cbn [app find_parts length].
  rewrite (bool_decide_false _ H1), (bool_decide_false _ H2), IH. cbn. f_equal. lia.
Qed.

Lemma find_type_skip types ts1 ts2 : Forall (λ t, type t ∉ types) ts1 → ∀ i,
  find_type types (ts1 ++ ts2) i = find_type types ts2 (i + length ts1).
Proof.
  induction 1 as [|t ts1 H _ IH]; intros i; [by rewrite Nat.add_0_r|]. cbn [app find_type length].
  rewrite (bool_decide_false _ H), IH. f_equal. lia.
Qed.

Definition texts : list Token → Prop := Forall (λ t, type t = TEXT).

Lemma text_token_texts a b : texts (text_token a b).
Proof. unfold text_token. destruct (a <? b)%nat; by repeat constructor. Qed.

(** What comes before the channel: nothing, or a start token and text. *)
Definition leads (lead : list Token) : Prop := lead = [] ∨ ∃ s ts, lead = s :: ts ∧ type s = START ∧ texts ts.

(** *** A block, found in the list of tokens *)

Ltac relist := rewrite <- ?app_assoc; cbn [app]; repeat (rewrite <- ?app_assoc; cbn [app]); reflexivity.
Ltac lengths := rewrite ?length_app; cbn [length app]; repeat (rewrite ?length_app; cbn [length app]); try lia.

Lemma lookup_at {X} (tokens l : list X) x k : tokens = l ++ x :: k → tokens !! length l = Some x.
Proof. intros ->. by apply list_lookup_middle. Qed.

Section block.
Context (text : str) (T lead mid ts post : list Token) (ch m e t0 : Token) (c : channel).
Context (Hlead : leads lead) (Hch : type ch = CHANNEL) (Hmid : Forall (λ t, type t = TEXT ∨ type t = CONSTRAIN) mid).
Context (Hm : type m = MESSAGE) (Hts : texts ts).
Context (Ht0 : head (lead ++ [ch]) = Some t0) (Hnext : (start <$> head (mid ++ [m])) = Some (end_ ch)).
Context (Hc : _extract_channel_type (slice text (end_ ch) (start m)) = Some c) (He : type e ∈ ends_of c).
Context (Hpost : ∀ t, head post = Some t → type t ≠ TEXT).

Let block := lead ++ ch :: mid ++ m :: ts ++ [e].
Let tokens := T ++ block ++ post.
Let cp := length (T ++ lead).
Let mp := length (T ++ lead ++ ch :: mid).
Let ep := length (T ++ lead ++ ch :: mid ++ m :: ts).

Lemma block_channel : tokens !! cp = Some ch.
Proof. apply (lookup_at _ _ _ (mid ++ m :: ts ++ e :: post)). unfold tokens, block. relist. Qed.

Lemma block_message : tokens !! mp = Some m.
Proof. apply (lookup_at _ _ _ (ts ++ e :: post)). unfold tokens, block. relist. Qed.

Lemma block_last : tokens !! ep = Some e.
Proof. apply (lookup_at _ _ _ post). unfold tokens, block. relist. Qed.

Lemma block_first : tokens !! length T = Some t0.
Proof.
  unfold tokens, block. destruct Hlead as [->|(s & us & -> & _ & _)]; injection Ht0 as <-.
  - apply (lookup_at _ T _ (mid ++ m :: ts ++ e :: post)). unfold tokens, block. relist.
  - apply (lookup_at _ T _ (us ++ ch :: mid ++ m :: ts ++ e :: post)). unfold tokens, block. relist.
Qed.

Lemma block_parts : find_parts (drop (skip_start tokens (length T)) tokens) (skip_start tokens (length T)) None = (Some cp, Some mp).
Proof.
  assert (Hgo : ∀ us j, texts us → (j + length us = cp)%nat →
    find_parts (us ++ ch :: mid ++ m :: ts ++ e :: post) j None = (Some cp, Some mp)).
  { intros us j Hus Hj. rewrite find_parts_skip by (apply (Forall_impl _ _ _ Hus); by intros t ->). rewrite Hj. cbn [find_parts].
    rewrite Hch, bool_decide_true by done. cbn. rewrite find_parts_skip by (apply (Forall_impl _ _ _ Hmid); by intros t [-> | ->]).
    cbn [find_parts]. rewrite Hm. cbn. unfold mp, cp. do 2 f_equal. lengths. }
  unfold skip_start, type_at. rewrite block_first. cbn [fmap option_fmap option_map].
  assert (Htk : tokens = T ++ lead ++ ch :: mid ++ m :: ts ++ e :: post) by (unfold tokens, block; relist).
  destruct Hlead as [->|(s & us & -> & Hs & Hus)]; injection Ht0 as <-.
  - rewrite Hch, bool_decide_false by done. rewrite Htk, drop_app_length. apply (Hgo []); [constructor|]. unfold cp. lengths.
  - rewrite Hs, bool_decide_true by done. rewrite Htk. cbn [app]. rewrite cons_middle, app_assoc.
    replace (S (length T)) with (length (T ++ [s])) by lengths. rewrite drop_app_length. apply Hgo; [done|]. unfold cp. lengths.
Qed.

Lemma block_header : header text tokens cp mp = Some (slice text (end_ ch) (start m)).
Proof.
  unfold header. rewrite block_channel, block_message.
  assert (Htk : tokens = (T ++ lead ++ [ch]) ++ (mid ++ [m]) ++ ts ++ e :: post) by (unfold tokens, block; relist).
  assert (E : start <$> tokens !! S cp = Some (end_ ch)).
  { rewrite Htk. replace (S cp) with (length (T ++ lead ++ [ch])) by (unfold cp; lengths).
    rewrite lookup_app_r, Nat.sub_diag by done. destruct (mid ++ [m]) as [|t1 rest]; [done|]. exact Hnext. }
  destruct (tokens !! S cp) as [t1|]; [|done]. by injection E as ->.
Qed.

Lemma block_end : find_type (ends_of c) (drop (S mp) tokens) (S mp) = Some ep.
Proof.
  assert (Htk : tokens = (T ++ lead ++ ch :: mid ++ [m]) ++ ts ++ e :: post) by (unfold tokens, block; relist).
  rewrite Htk. assert (Hl : length (T ++ lead ++ ch :: mid ++ [m]) = S mp) by (unfold mp; lengths).
  rewrite <- Hl, drop_app_length, find_type_skip.
  - cbn [find_type]. rewrite bool_decide_true by done. f_equal. unfold ep. lengths.
  - apply (Forall_impl _ _ _ Hts). intros t ->. by destruct c; apply (bool_decide_unpack _).
Qed.

(** The event of a block without text behind it. *)
Definition block_event : Event :=
  if bool_decide (c = final) then normal_event (slice text (end_ m) (start e))
  else if bool_decide (type e = CALL) then tool_call (strip (slice text (end_ m) (start e))) (slice text (start t0) (end_ e))
  else if bool_decide (c = analysis) then reasoning_event (slice text (end_ m) (start e))
  else normal_event (slice text (end_ m) (start e)).

Lemma parse_block_shape : _parse_block text tokens (length T) = Some (block_event, length (T ++ block)).
Proof.
  unfold _parse_block. rewrite block_parts, block_header. cbn [mbind option_bind]. rewrite Hc. cbn [mbind option_bind].
  rewrite block_message, block_first. cbn [mbind option_bind]. rewrite block_end, block_last. cbn [mbind option_bind].
  assert (Hlen : S ep = length (T ++ block)) by (unfold ep, block; lengths).
  assert (Hafter : match tokens !! S ep with Some t => bool_decide (type t = TEXT) | None => false end = false).
  { unfold tokens. rewrite Hlen, app_assoc. destruct post as [|t post']; [rewrite app_nil_r, lookup_ge_None_2; done|].
    rewrite list_lookup_middle by done. apply bool_decide_false. by apply Hpost. }
  unfold block_event. destruct (bool_decide (c = final)).
  - destruct (tokens !! S ep) as [t|]; [rewrite Hafter|]; by rewrite Hlen.
  - destruct (bool_decide (type e = CALL)); [by rewrite Hlen|]. destruct (bool_decide (c = analysis)); by rewrite Hlen.
Qed.
End block.

(** *** Messages as blocks *)

Lemma head_text_token a b t k : (a ≤ b)%nat → start t = b → start <$> head (text_token a b ++ t :: k) = Some a.
Proof. intros Hab Ht. unfold text_token. destruct (Nat.ltb_spec a b); cbn; [done|]. f_equal. lia. Qed.

Lemma lead_shape m p : ∃ lead ch t0, toks_of (lead_segs m) p = lead ++ [ch] ∧ leads lead ∧ type ch = CHANNEL ∧
  end_ ch = (p + length (render (lead_segs m)))%nat ∧ head (lead ++ [ch]) = Some t0 ∧ start t0 = p.
Proof.
  unfold lead_segs. destruct (m_role m) as [role|]; cbn [toks_of]; rewrite !render_cons.
  - set (s := {| type := START; start := (p + length [])%nat; end_ := _ |}).
    set (us := text_token _ (_ + length role)). set (ch := {| type := CHANNEL; start := _; end_ := _ |}).
    exists (s :: us), ch, s. assert (E : text_token p (p + length (@nil Z)) = []) by (unfold text_token; cbn [length]; by rewrite Nat.add_0_r, Nat.ltb_irrefl).
    rewrite E. split_and!; [done|right; exists s, us; split_and!; [done..|apply text_token_texts]|done| |done|cbn; lia].
    unfold ch. cbn [end_]. unfold render. cbn. lengths.
  - set (ch := {| type := CHANNEL; start := _; end_ := _ |}). exists [], ch, ch.
    assert (E : text_token p (p + length (@nil Z)) = []) by (unfold text_token; cbn [length]; by rewrite Nat.add_0_r, Nat.ltb_irrefl).
    rewrite E. split_and!; [done|by left|done| |done|cbn; lia]. unfold ch. cbn [end_]. unfold render. cbn. lengths.
Qed.

Lemma header_shape m q : ∃ mid mt, toks_of (header_segs m) q = mid ++ [mt] ∧
  Forall (λ t, type t = TEXT ∨ type t = CONSTRAIN) mid ∧ type mt = MESSAGE ∧
  start mt = (q + length (header_of m))%nat ∧ end_ mt = (start mt + length (literal MESSAGE))%nat ∧
  start <$> head (mid ++ [mt]) = Some q.
Proof.
  assert (Htext : ∀ a b, Forall (λ t, type t = TEXT ∨ type t = CONSTRAIN) (text_token a b)).
  { intros a b. apply (Forall_impl _ _ _ (text_token_texts a b)). by left. }
  unfold header_segs, header_of. destruct (m_constrain m) as [cn|]; cbn [toks_of].
  - set (k := {| type := CONSTRAIN; start := _; end_ := _ |}). set (mt := {| type := MESSAGE; start := _; end_ := _ |}).
    exists (text_token q (q + length (m_header m)) ++ k :: text_token (end_ k) (start mt)), mt. split_and!.
    + relist.
    + apply Forall_app. split; [apply Htext|]. constructor; [by right|apply Htext].
    + done.
    + unfold mt. cbn [start]. lengths.
    + done.
    + rewrite <- app_assoc. cbn [app]. apply head_text_token; [lia|done].
  - set (mt := {| type := MESSAGE; start := _; end_ := _ |}). exists (text_token q (q + length (m_header m))), mt.
    split_and!; [done|apply Htext|done..|apply head_text_token; [lia|done]].
Qed.

Lemma render_header_segs m : render (header_segs m) = header_of m ++ literal MESSAGE.
Proof. unfold header_segs, header_of. destruct (m_constrain m); rewrite !render_cons; unfold render; cbn [fmap list_fmap concat]; by rewrite ?app_nil_r, <- ?app_assoc. Qed.

Lemma message_block m pre k T post : message_ok m → (∀ t, head post = Some t → type t ≠ TEXT) →
  let text := pre ++ render (segs_of m) ++ k in
  let ts := toks_of (segs_of m) (length pre) in
  _parse_block text (T ++ ts ++ post) (length T) = Some (event_of m, length (T ++ ts)) ∧
  ∃ t0, head ts = Some t0 ∧ (type t0 = START ∨ type t0 = CHANNEL).
Proof.
  intros [_ Hmean] Hpost text ts. pose proof (header_read m) as Hc. pose proof (meaning_ends _ _ Hmean) as He.
  set (c := m_channel m) in *. set (p := length pre).
  destruct (lead_shape m p) as (lead & ch & t0 & E1 & H1 & H2 & H3 & H4 & H5).
  destruct (header_shape m (end_ ch)) as (mid & mt & E2 & G1 & G2 & G3 & G4 & G5).
  set (R1 := render (lead_segs m)) in *. set (us := text_token (end_ mt) (end_ mt + length (m_content m))).
  set (e := {| type := m_end m; start := (end_ mt + length (m_content m))%nat;
    end_ := (end_ mt + length (m_content m) + length (literal (m_end m)))%nat |}).
  assert (Er : render (segs_of m) = R1 ++ header_of m ++ literal MESSAGE ++ m_content m ++ literal (m_end m)).
  { unfold segs_of. rewrite !render_app, render_header_segs. fold R1. unfold render. cbn. by rewrite app_nil_r, <- !app_assoc. }
  assert (Ets : ts = lead ++ ch :: mid ++ mt :: us ++ [e]).
  { unfold ts, segs_of. rewrite !toks_of_app. fold R1 p. rewrite E1, <- H3, E2, render_header_segs. cbn [toks_of].
    replace (end_ ch + length (header_of m ++ literal MESSAGE))%nat with (end_ mt) by (rewrite G4, G3; lengths). relist. }
  assert (Hslice : ∀ a b x y z, text = x ++ y ++ z → length x = a → (a + length y)%nat = b → slice text a b = y).
  { intros a b x y z Et <- <-. rewrite Et. apply slice_mid. }
  assert (Hh : slice text (end_ ch) (start mt) = header_of m).
  { apply (Hslice _ _ (pre ++ R1) _ (literal MESSAGE ++ m_content m ++ literal (m_end m) ++ k));
      [unfold text; rewrite Er; relist|rewrite H3; unfold p; lengths|by rewrite G3]. }
  assert (Hcontent : slice text (end_ mt) (start e) = m_content m).
  { apply (Hslice _ _ (pre ++ R1 ++ header_of m ++ literal MESSAGE) _ (literal (m_end m) ++ k));
      [unfold text; rewrite Er; relist|rewrite G4, G3, H3; unfold p; lengths|done]. }
  assert (Hraw : slice text (start t0) (end_ e) = render (segs_of m)).
  { apply (Hslice _ _ pre _ k); [done|by rewrite H5|]. unfold e. cbn [end_]. rewrite H5, G4, G3, H3, Er. lengths. }
  split.
  - rewrite Ets. rewrite (parse_block_shape text T lead mid us post ch mt e t0 c) by (done || (by rewrite Hh) || apply text_token_texts).
    do 2 f_equal. unfold block_event, event_of. fold c. rewrite Hcontent, Hraw. cbn [type e]. clear -Hmean.
    by destruct c, (m_end m).
  - exists t0. rewrite Ets. destruct H1 as [->|(s & vs & -> & Hs & _)]; cbn in H4; injection H4 as <-; [|by split; [|left]].
    split; [done|by right].
Qed.

(** *** Sequences of messages *)

Definition all_segs (ms : list message) : list (str * token_type) := concat (segs_of <$> ms).
Definition render_messages (ms : list message) : str := render (all_segs ms).

Lemma all_segs_cons m ms : all_segs (m :: ms) = segs_of m ++ all_segs ms.
Proof. done. Qed.

Lemma toks_of_length segs : ∀ p, (length segs ≤ length (toks_of segs p))%nat.
Proof. induction segs as [|[x t] segs IH]; intros p; [done|]. cbn [toks_of]. specialize (IH (p + length x + length (literal t))%nat). lengths. Qed.

Lemma all_segs_length ms : (length ms ≤ length (all_segs ms))%nat.
Proof. induction ms as [|m ms IH]; [done|]. rewrite all_segs_cons. unfold segs_of. lengths. Qed.

Lemma parse_messages text ms : Forall message_ok ms → ∀ pre T fuel, text = pre ++ render_messages ms →
  (length ms < fuel)%nat →
  parse_tokens fuel text (T ++ toks_of (all_segs ms) (length pre)) (length T) = Ok (event_of <$> ms, []).
Proof.
  induction 1 as [|m ms Hm Hms IH]; intros pre T fuel Et Hf; (destruct fuel as [|fuel]; [cbn in Hf; lia|]); cbn [parse_tokens].
  - cbn [all_segs fmap list_fmap concat toks_of]. rewrite app_nil_r, lookup_ge_None_2 by done. done.
  - set (k := render_messages ms). assert (Er : render_messages (m :: ms) = render (segs_of m) ++ k).
    { unfold k, render_messages. by rewrite all_segs_cons, render_app. }
    set (pre2 := pre ++ render (segs_of m)). set (post := toks_of (all_segs ms) (length pre2)).
    assert (Ets : toks_of (all_segs (m :: ms)) (length pre) = toks_of (segs_of m) (length pre) ++ post).
    { rewrite all_segs_cons, toks_of_app. unfold post, pre2. by rewrite length_app. }
    assert (Hpost : ∀ t, head post = Some t → type t ≠ TEXT).
    { intros t. unfold post. destruct Hms as [|m2 ms2 Hm2 _]; [done|].
      destruct (message_block m2 pre2 (render_messages ms2) [] [] Hm2) as [_ (t0 & H0 & Ht0)]; [done|].
      rewrite all_segs_cons, toks_of_app. destruct (toks_of (segs_of m2) (length pre2)); [done|].
      intros [= <-]. injection H0 as ->. destruct Ht0 as [-> | ->]; done. }
    destruct (message_block m pre k T post Hm Hpost) as [Hb (t0 & H0 & Ht0)].
    rewrite Er in Et. rewrite <- Et in Hb. rewrite Ets. set (ts := toks_of (segs_of m) (length pre)) in *. clearbody ts.
    assert (Hl : (T ++ ts ++ post) !! length T = Some t0).
    { rewrite lookup_app_r, Nat.sub_diag by done. by destruct ts as [|t1 ts']; [|injection H0 as ->]. }
    rewrite Hl, Hb, app_assoc.
    assert (E : parse_tokens fuel text ((T ++ ts) ++ post) (length (T ++ ts)) = Ok (event_of <$> ms, [])).
    { apply IH; [unfold pre2; rewrite Et; fold k; relist|cbn in Hf; lia]. }
    rewrite E. by destruct Ht0 as [-> | ->].
Qed.

Lemma messages_ok ms : Forall message_ok ms → canonical_parse (render_messages ms) = Ok (event_of <$> ms, []).
Proof.
  intros Hms. unfold canonical_parse.
  assert (Hsegs : Forall seg_ok (all_segs ms)) by (unfold all_segs; apply Forall_concat, Forall_fmap, (Forall_impl _ _ _ Hms); by intros m []).
  pose proof (iter_tokens_render (all_segs ms) [] Hsegs) as E. rewrite !app_nil_r in E.
  unfold render_messages. rewrite E by (apply contains_false; done). unfold text_token. rewrite Nat.ltb_irrefl. cbn [res_bind].
  rewrite app_nil_r. apply (parse_messages _ ms Hms [] []); [done|].
  pose proof (toks_of_length (all_segs ms) 0). pose proof (all_segs_length ms). lia.
Qed.

(** ** The parser on whole texts *)

Lemma canonical_chosen m ms : contains (lit "<|channel|>") (render_messages (m :: ms)) = true.
Proof.
  apply contains_spec. unfold render_messages. rewrite all_segs_cons. unfold segs_of, lead_segs.
  destruct (m_role m) as [role|]; rewrite !render_app, !render_cons, <- !app_assoc.
  - do 2 apply occurs_app_r. apply occurs_app_r. apply occurs_app_l. by exists [], []; rewrite app_nil_r.
  - apply occurs_app_r. apply occurs_app_l. by exists [], []; rewrite app_nil_r.
Qed.

(** The text of messages ends with the last structural token. *)
Lemma render_messages_last ms m : ∃ x, render_messages (ms ++ [m]) = x ++ literal (m_end m).
Proof.
  unfold render_messages, all_segs. rewrite fmap_app, concat_app, render_app. cbn [fmap list_fmap concat].
  rewrite app_nil_r. unfold segs_of. rewrite !app_assoc, render_app, !render_app. unfold render at 3. cbn. rewrite app_nil_r.
  eexists. by rewrite !app_assoc.
Qed.

Lemma rstrip_literal x t : t ≠ TEXT → rstrip (x ++ literal t) = x ++ literal t.
Proof.
  intros Ht. unfold rstrip. rewrite reverse_app. assert (E : ∃ k, reverse (literal t) = 62 :: k) by (destruct t; [done|..]; by eexists).
  destruct E as [k E]. rewrite E. cbn [app lstrip]. change (isspace 62) with false. cbn iota.
  change (62 :: k ++ reverse x) with ((62 :: k) ++ reverse x). by rewrite <- E, <- reverse_app, reverse_involutive.
Qed.

Lemma ends_with_call x t : t ≠ TEXT → endswith (rstrip (x ++ literal t)) (lit "<|call|>") = bool_decide (t = CALL).
Proof. intros Ht. rewrite rstrip_literal by done. unfold endswith. rewrite reverse_app. destruct t; [done|..]; reflexivity. Qed.

Lemma filter_no_call es : Forall (λ e, kind e ≠ ToolCall) es → filter_events false false [] es = (es, false, []).
Proof.
  induction 1 as [|e es He _ IH]; [done|]. cbn [filter_events]. rewrite (bool_decide_false (kind e = ToolCall)) by done.
  destruct (bool_decide (kind e = Normal)); cbn; by rewrite IH.
Qed.

Definition no_call (m : message) : Prop := m_end m ≠ CALL.

Lemma no_call_event m : no_call m → kind (event_of m) ≠ ToolCall.
Proof.
  intros Hm. unfold no_call, event_of in *. by destruct (m_channel m), (m_end m).
Qed.

Lemma message_end_ok m : message_ok m → m_end m ≠ TEXT.
Proof. intros [Hs _]. unfold segs_of in Hs. rewrite !Forall_app in Hs. destruct Hs as (_ & _ & [[_ ?] _]%Forall_cons). done. Qed.

Lemma harmony_messages m ms f p : Forall message_ok (m :: ms) →
  let text := render_messages (m :: ms) in
  let '(es, f', p') := filter_events (endswith (rstrip text) (lit "<|call|>")) f p (event_of <$> m :: ms) in
  harmony_parse {| chosen := None; buffered := []; _should_filter_commentary := f; _partial_commentary := p |} text =
    Ok (es, {| chosen := Some CanonicalStrategy; buffered := []; _should_filter_commentary := f'; _partial_commentary := p' |}).
Proof.
  intros Hms text. destruct (filter_events _ f p _) as [[es f'] p'] eqn:E. unfold harmony_parse.
  assert (Hch : contains (lit "<|channel|>") text = true) by apply canonical_chosen.
  assert (Hcp : canonical_parse text = Ok (event_of <$> m :: ms, [])) by (by apply messages_ok).
  cbn [buffered chosen app _should_filter_commentary _partial_commentary]. fold text. rewrite Hch. cbn [orb]. rewrite Hcp.
  cbn [res_bind]. by rewrite E.
Qed.

Lemma harmony_no_call ms : Forall message_ok ms → ms ≠ [] → Forall no_call ms →
  harmony_parse init_harmony (render_messages ms) = Ok (event_of <$> ms,
    {| chosen := Some CanonicalStrategy; buffered := []; _should_filter_commentary := false; _partial_commentary := [] |}).
Proof.
  intros Hms Hne Hcall. destruct ms as [|m ms]; [done|].
  pose proof (harmony_messages m ms false [] Hms) as H. cbv zeta in H.
  assert (Hend : endswith (rstrip (render_messages (m :: ms))) (lit "<|call|>") = false).
  { destruct (exists_last Hne) as (ms0 & m0 & El). rewrite El in Hms, Hcall |- *. destruct (render_messages_last ms0 m0) as [x ->].
    apply Forall_app in Hms as [_ [Hm0 _]%Forall_cons]. apply Forall_app in Hcall as [_ [Hc0 _]%Forall_cons].
    rewrite ends_with_call by (by apply message_end_ok). by apply bool_decide_false. }
  rewrite Hend, filter_no_call in H; [exact H|]. apply Forall_fmap, (Forall_impl _ _ _ Hcall), no_call_event.
Qed.

Lemma filter_tool b f p e es : kind e = ToolCall →
  filter_events b f p (e :: es) = let '(r, f', p') := filter_events b true [] es in (e :: r, f', p').
Proof. intros H. cbn [filter_events]. by rewrite H, (bool_decide_false (ToolCall = Normal)), bool_decide_true by done. Qed.

Lemma filter_filler b e : kind e = Normal → startswith (lit "commentary") (lower (strip (content e))) = true →
  ∃ f p, filter_events b true [] [e] = ([], f, p).
Proof.
  intros H Hs. cbn [filter_events]. rewrite H, bool_decide_true by done. cbn [orb app]. rewrite Hs.
  destruct (bool_decide (lower _ = _)); by do 2 eexists.
Qed.

(** C37. The scanner always ends, its tokens cut the text into consecutive pieces, and
    every token that is not text stands for its literal. *)
Theorem tokens_tile_text text :
  ∃ ts, iter_tokens text 0 = Ok ts ∧ tiles ts 0 (length text) ∧
    concat ((λ t, slice text (start t) (end_ t)) <$> ts) = text ∧ Forall (token_ok text) ts.
Proof.
  destruct (iter_tokens_ok text) as (ts & E & Ht & Hok). exists ts. split_and!; [done..| |done].
  by rewrite (tiles_concat text ts 0 _ Ht), slice_full.
Qed.

(** C36. The parser ends on every text, and a sequence of well-formed messages is read
    back as the events it was written from, with nothing left over; without tool calls
    the whole parser returns all of them. *)
Theorem messages_read_back :
  (∀ text, ∃ r, canonical_parse text = Ok r) ∧
  ∀ ms, Forall message_ok ms → canonical_parse (render_messages ms) = Ok (event_of <$> ms, []) ∧
    (ms ≠ [] → Forall no_call ms → ∃ h, harmony_parse init_harmony (render_messages ms) = Ok (event_of <$> ms, h) ∧ buffered h = []).
Proof.
  split.
  - intros text. unfold canonical_parse. destruct (iter_tokens_ok text) as (ts & -> & _ & _). cbn [res_bind].
    apply parse_tokens_total; lia.
  - intros ms Hms. split; [by apply messages_ok|]. intros Hne Hcall. eexists. split; [by apply harmony_no_call|done].
Qed.

(** C40. After a tool call an answer that spells the beginning of "commentary" (a "C",
    say) is taken for the filler word and lost. *)
Theorem short_answer_dropped m answer :
  message_ok m → message_ok answer → kind (event_of m) = ToolCall → kind (event_of answer) = Normal →
  m_end answer ≠ CALL → startswith (lit "commentary") (lower (strip (m_content answer))) = true →
  ∃ h, harmony_parse init_harmony (render_messages [m; answer]) = Ok ([event_of m], h).
Proof.
  intros Hm Ha Hk Hka Hend Hs. assert (Hms : Forall message_ok [m; answer]) by (apply Forall_cons; split; [done|by apply Forall_singleton]).
  pose proof (harmony_messages m [answer] false [] Hms) as H. cbv zeta in H.
  destruct (render_messages_last [m] answer) as [x E]. cbn [app] in E.
  rewrite E, ends_with_call, bool_decide_false, <- E in H by (done || by apply message_end_ok).
  assert (Hc : content (event_of answer) = m_content answer).
  { revert Hka. unfold event_of. by destruct (meaning _ _) as [[]|]. }
  cbn [fmap list_fmap] in H. rewrite filter_tool in H by done.
  destruct (filter_filler false (event_of answer) Hka) as (f & p & Ef); [by rewrite Hc|]. rewrite Ef in H. eexists. exact H.
Qed.

(** ** Examples *)

#[export] Instance seg_ok_dec s : Decision (seg_ok s).
Proof. unfold seg_ok, plain. apply _. Defined.

Definition thought : message := {|
  m_role := None; m_channel := analysis; m_attributes := []; m_constrain := None; m_content := lit "Hm"; m_end := END |}.
Definition weather : message := {|
  m_role := Some (lit "assistant"); m_channel := commentary; m_attributes := lit " to=functions.weather "; m_constrain := Some (lit "json");
  m_content := lit "{}"; m_end := CALL |}.
Definition answer_c : message := {|
  m_role := Some (lit "assistant"); m_channel := final; m_attributes := []; m_constrain := None; m_content := lit "C"; m_end := RETURN |}.

Lemma samples_ok : Forall message_ok [thought; weather; answer_c].
Proof.
  by repeat (constructor; [split; [by apply (bool_decide_unpack _); vm_compute|done]|]).
Qed.

Lemma messages_read_back_witness :
  canonical_parse (render_messages [thought; weather; answer_c]) =
    Ok ([reasoning_event (lit "Hm"); tool_call (lit "{}") (render (segs_of weather)); normal_event (lit "C")], []) ∧
  ∃ h, harmony_parse init_harmony (render_messages [thought; answer_c]) =
    Ok ([reasoning_event (lit "Hm"); normal_event (lit "C")], h) ∧ buffered h = [].
Proof.
  destruct messages_read_back as [_ H]. pose proof samples_ok as Hs. split.
  - by destruct (H _ Hs) as [-> _].
  - apply (H [thought; answer_c]); [|done|by repeat constructor].
    rewrite !Forall_cons in Hs. destruct Hs as (H1 & _ & H3 & _). by repeat (constructor; [done|]).
Defined.

Lemma short_answer_dropped_witness :
  ∃ h, harmony_parse init_harmony (render_messages [weather; answer_c]) =
    Ok ([tool_call (lit "{}") (render (segs_of weather))], h).
Proof.
  pose proof samples_ok as Hs. rewrite !Forall_cons in Hs. destruct Hs as (_ & H2 & H3 & _).
  by apply (short_answer_dropped weather answer_c H2 H3); vm_compute.
Defined.

(** Chunk after chunk. *)
Fixpoint parse_chunks (h : HarmonyParser) (chunks : list str) : res (list Event) :=
  match chunks with
  | [] => Ok []
  | c :: chunks =>
      let! '(es, h) := harmony_parse h c in
      let! rest := parse_chunks h chunks in Ok (es ++ rest)
  end.

(** When a chunk ends within the marker at the end of a thought, the marker is
    streamed as part of the thought and never recognised: the answer becomes reasoning
    too.  At once the same text is read correctly. *)
Theorem split_end_marker_leaks :
  let text := render_messages [thought; answer_c] in
  parse_chunks init_harmony [text] = Ok (event_of <$> [thought; answer_c]) ∧
  Forall (λ k, ∃ es, parse_chunks init_harmony [take (32 + k) text; drop (32 + k) text] = Ok es ∧
    Forall (λ e, kind e = Reasoning) es) (seq 1 6).
Proof.
  split; [vm_compute; reflexivity|].
  repeat (constructor; [eexists; split; [vm_compute; reflexivity|by apply (bool_decide_unpack _); vm_compute]|]). constructor.
Qed.

(** A marker in the content takes the end of the next token for its own. *)
Example unknown_marker_swallows :
  canonical_parse (lit "<|channel|>analysis<|message|>if a <| b then<|end|>") =
    Ok ([reasoning_event (lit "if a <| b then<|end|>")], lit "<|channel|>analysis<|message|>").
Proof. vm_compute. reflexivity. Qed.
