(* ===== verification/ReasoningParser.v ===== *)
(** * Reasoning and answer ([parser/reasoning_parser.py])

    The text of a reasoning model is split into what it thinks, between two tags, and
    its answer: at once, or chunk by chunk as the text comes. *)

From Stdlib Require Import String.
From S2P Require Import Prelude PyText Harmony.

Record StreamingParseResult := {
  normal_text : str;
  reasoning_text : str;
}.

Definition nothing : StreamingParseResult := {| normal_text := []; reasoning_text := [] |}.
Definition normal (s : str) : StreamingParseResult := {| normal_text := s; reasoning_text := [] |}.
Definition reasoning (s : str) : StreamingParseResult := {| normal_text := []; reasoning_text := s |}.

(** ** The base detector *)

Record detector := {
  think_start_token : str;
  think_end_token : str;
  _in_reasoning : bool;
  stream_reasoning : bool;
  _buffer : str;
  stripped_think_start : bool;
}.

Definition init_detector (start end_ : str) (force_reasoning stream : bool) : detector :=
  {| think_start_token := start; think_end_token := end_; _in_reasoning := force_reasoning;
     stream_reasoning := stream; _buffer := []; stripped_think_start := false |}.

Definition with_buffer (d : detector) (s : str) : detector :=
  {| think_start_token := think_start_token d; think_end_token := think_end_token d; _in_reasoning := _in_reasoning d;
     stream_reasoning := stream_reasoning d; _buffer := s; stripped_think_start := stripped_think_start d |}.

Definition with_reasoning (d : detector) (b : bool) : detector :=
  {| think_start_token := think_start_token d; think_end_token := think_end_token d; _in_reasoning := b;
     stream_reasoning := stream_reasoning d; _buffer := _buffer d; stripped_think_start := stripped_think_start d |}.

Definition with_stripped (d : detector) : detector :=
  {| think_start_token := think_start_token d; think_end_token := think_end_token d; _in_reasoning := _in_reasoning d;
     stream_reasoning := stream_reasoning d; _buffer := _buffer d; stripped_think_start := true |}.

Definition detect_and_parse (d : detector) (text : str) : StreamingParseResult :=
  if negb (_in_reasoning d || contains (think_start_token d) text) then normal text
  else
    let processed_text := strip (delete_all (think_start_token d) text) in
    match find processed_text (think_end_token d) with
    | None => reasoning processed_text
    | Some i => {| normal_text := strip (drop (i + length (think_end_token d)) processed_text);
                   reasoning_text := take i processed_text |}
    end.

(** The text so far may be the beginning of a tag. *)
Definition unfinished (d : detector) (text : str) : bool :=
  existsb (λ token, startswith token text && negb (bool_decide (token = text)))
    [think_start_token d; think_end_token d].

Definition parse_streaming_increment (d : detector) (new_text : str) : StreamingParseResult * detector :=
  let d := with_buffer d (_buffer d ++ new_text) in
  let current_text := _buffer d in
  if unfinished d current_text then (nothing, d)
  else
    let '(current_text, d) :=
      if negb (stripped_think_start d) && contains (think_start_token d) current_text
      then (delete_all (think_start_token d) current_text, with_reasoning (with_stripped d) true)
      else (current_text, d) in
    if _in_reasoning d then
      match find current_text (think_end_token d) with
      | Some end_idx =>
          ({| normal_text := drop (end_idx + length (think_end_token d)) current_text;
              reasoning_text := rstrip (take end_idx current_text) |},
           with_reasoning (with_buffer d []) false)
      | None =>
          if stream_reasoning d then (reasoning current_text, with_buffer d []) else (nothing, d)
      end
    else (normal current_text, with_buffer d []).

(** ** The detectors of the models *)

Definition think : str := lit "<think>".
Definition end_think : str := lit "</think>".

(** The tags of Kimi, in white triangles. *)
Definition kimi_think : str := [9665] ++ lit "think" ++ [9655].
Definition kimi_end_think : str := [9665] ++ lit "/think" ++ [9655].

Inductive model_detector :=
  | Base (d : detector)
  | GptOssDetector (d : detector) (parser : HarmonyParser)
  | MiniMaxAppendThinkDetector (d : detector) (is_first_chunk : bool).

(** The classes, called with [stream_reasoning] and an optional [force_reasoning]. *)
Definition DeepSeekR1Detector (stream : bool) (force_reasoning : option bool) : model_detector :=
  Base (init_detector think end_think true stream).
Definition Qwen3Detector (stream : bool) (force_reasoning : option bool) : model_detector :=
  Base (init_detector think end_think (default false force_reasoning) stream).
Definition KimiDetector (stream : bool) (force_reasoning : option bool) : model_detector :=
  Base (init_detector kimi_think kimi_end_think false stream).
Definition GptOss (stream : bool) (force_reasoning : option bool) : model_detector :=
  GptOssDetector (init_detector (lit "<|channel|>analysis<|message|>") (lit "<|end|>") (default true force_reasoning) stream)
    init_harmony.
Definition MiniMaxAppend (stream : bool) (force_reasoning : option bool) : model_detector :=
  MiniMaxAppendThinkDetector (init_detector think end_think (default false force_reasoning) stream) false.

Definition DetectorMap : list (str * (bool → option bool → model_detector)) :=
  [(lit "deepseek-r1", DeepSeekR1Detector); (lit "deepseek-v3", Qwen3Detector); (lit "glm45", Qwen3Detector);
   (lit "gpt-oss", GptOss); (lit "kimi", KimiDetector); (lit "kimi_k2", DeepSeekR1Detector); (lit "qwen3", Qwen3Detector);
   (lit "qwen3-thinking", Qwen3Detector); (lit "minimax", Qwen3Detector);
   (lit "minimax-append-think", MiniMaxAppend); (lit "step3", DeepSeekR1Detector)].

(** [ReasoningParser.__init__] *)
Definition init_parser (model_type : option str) (stream : bool) (force_reasoning : option bool) : res model_detector :=
  match model_type with
  | None | Some [] => Err ValueError
  | Some model_type =>
      let name := lower model_type in
      let! detector_class := of_opt ValueError (dict_get name DetectorMap) in
      let force_reasoning :=
        if bool_decide (name ∈ [lit "qwen3-thinking"; lit "gpt-oss"; lit "minimax"]) then Some true else force_reasoning in
      Ok (detector_class stream force_reasoning)
  end.

(** The events of GPT-OSS: a tool call keeps its text for the parser of function calls. *)
Definition of_events (events : list Event) : StreamingParseResult :=
  {| normal_text := concat ((λ e, match kind e with
       | Normal => content e
       | ToolCall => match raw_text e with Some (_ :: _ as raw) => raw | _ => content e end
       | Reasoning => []
       end) <$> events);
     reasoning_text := concat ((λ e, if bool_decide (kind e = Reasoning) then content e else []) <$> events) |}.

(** [GptOssDetector.detect_and_parse]; an empty chunk asks for what is held back. *)
Definition gpt_oss_detect (parser : HarmonyParser) (text : str) : res (StreamingParseResult * HarmonyParser) :=
  let! '(events, parser) := harmony_parse parser text in
  let! '(more, parser) := harmony_parse parser [] in
  Ok (of_events (events ++ more), parser).

(** [GptOssDetector.parse_streaming_increment] *)
Definition gpt_oss_increment (parser : HarmonyParser) (new_text : str) : res (StreamingParseResult * HarmonyParser) :=
  let! '(events, parser) := harmony_parse parser new_text in
  Ok (of_events events, parser).

(** [MiniMaxAppendThinkDetector.parse_streaming_increment] *)
Definition minimax_increment (d : detector) (is_first_chunk : bool) (new_text : str) : StreamingParseResult * bool :=
  let '(new_text, is_first_chunk) :=
    if negb is_first_chunk then (think_start_token d ++ new_text, true) else (new_text, is_first_chunk) in
  (normal new_text, is_first_chunk).

(** [MiniMaxAppendThinkDetector.detect_and_parse] *)
Definition minimax_detect (d : detector) (text : str) : StreamingParseResult := normal (think_start_token d ++ text).

Definition parse_non_stream (m : model_detector) (full_text : str) : res (StreamingParseResult * model_detector) :=
  match m with
  | Base d => Ok (detect_and_parse d full_text, m)
  | GptOssDetector d parser =>
      let! '(ret, parser) := gpt_oss_detect parser full_text in Ok (ret, GptOssDetector d parser)
  | MiniMaxAppendThinkDetector d _ => Ok (minimax_detect d full_text, m)
  end.

Definition parse_stream_chunk (m : model_detector) (chunk_text : str) : res (StreamingParseResult * model_detector) :=
  match m with
  | Base d => let '(ret, d) := parse_streaming_increment d chunk_text in Ok (ret, Base d)
  | GptOssDetector d parser =>
      let! '(ret, parser) := gpt_oss_increment parser chunk_text in Ok (ret, GptOssDetector d parser)
  | MiniMaxAppendThinkDetector d is_first_chunk =>
      let '(ret, is_first_chunk) := minimax_increment d is_first_chunk chunk_text in
      Ok (ret, MiniMaxAppendThinkDetector d is_first_chunk)
  end.

(** All chunks of a text, and what came out in total. *)
Definition append_result (a b : StreamingParseResult) : StreamingParseResult :=
  {| normal_text := normal_text a ++ normal_text b; reasoning_text := reasoning_text a ++ reasoning_text b |}.

Fixpoint parse_stream (m : model_detector) (chunks : list str) : res (StreamingParseResult * model_detector) :=
  match chunks with
  | [] => Ok (nothing, m)
  | c :: chunks =>
      let! '(r, m) := parse_stream_chunk m c in
      let! '(r', m) := parse_stream m chunks in
      Ok (append_result r r', m)
  end.
