(* ===== verification/ReasoningSpec.v ===== *)
(** * What the reasoning parsers promise

    When the reasoning is streamed and no chunk ends within a tag, reading a text
    chunk by chunk gives what reading it at once gives, up to white space at the ends.  When the end tag is cut after
    other text, it is never seen. *)

From Stdlib Require Import String.
From S2P Require Import Prelude PyText Harmony HarmonySpec ReasoningParser.

(** ** The base detector over several chunks *)

Fixpoint stream (d : detector) (chunks : list str) : StreamingParseResult * detector :=
  match chunks with
  | [] => (nothing, d)
  | x :: chunks =>
      let '(r, d) := parse_streaming_increment d x in
      let '(r', d) := stream d chunks in (append_result r r', d)
  end.

Lemma parse_stream_base d chunks : parse_stream (Base d) chunks = let '(r, d) := stream d chunks in Ok (r, Base d).
Proof.
  revert d. induction chunks as [|x chunks IH]; intros d; [done|]. cbn. destruct (parse_streaming_increment d x) as [r d1].
  cbn. rewrite IH. by destruct (stream d1 chunks).
Qed.

Section tags.
Context (c : Z) (S E : str) (HS : tag_ok c S) (HE : tag_ok c E).

(** Nothing of a chunk would have to be held back. *)
Definition settled (x : str) : Prop := (prefix_hold x [S; E]).2 = [].

Lemma settled_suffix x s : settled x → s `suffix_of` x → begins [S; E] s → False.
Proof.
  unfold settled. destruct (prefix_hold x [S; E]) as [emit hold] eqn:Eh. cbn. intros ->.
  destruct (prefix_hold_ok _ _ _ _ Eh) as (_ & _ & Hmax). intros Hs Hb. specialize (Hmax s Hs Hb).
  destruct Hb as [Hne _]. destruct s; [done|cbn in Hmax; lia].
Qed.

Lemma settled_drop x y : settled (x ++ y) → settled y.
Proof.
  intros H. unfold settled. destruct (prefix_hold y [S; E]) as [emit hold] eqn:Eh. cbn.
  destruct (prefix_hold_ok _ _ _ _ Eh) as (-> & [->|Hb] & _); [done|]. exfalso.
  apply (settled_suffix _ hold H); [|done]. exists (x ++ emit). by rewrite app_assoc.
Qed.

(** A detector between two chunks, with nothing in its buffer. *)
Definition ready (d : detector) : Prop :=
  think_start_token d = S ∧ think_end_token d = E ∧ stream_reasoning d = true ∧ _buffer d = [].

Lemma ready_buffer d : ready d → with_buffer d [] = d.
Proof. intros (_ & _ & _ & H). destruct d. cbn in H. by subst. Qed.

Lemma unfinished_nil d : ready d → unfinished d [] = true.
Proof. intros (H1 & H2 & _). unfold unfinished. rewrite H1. cbn. rewrite bool_decide_false; [done|]. by apply (tag_nonempty c). Qed.

Lemma unfinished_settled d x : ready d → settled x → x ≠ [] → unfinished d x = false.
Proof.
  intros (H1 & H2 & _) Hx Hne. unfold unfinished. rewrite H1, H2. apply not_true_is_false. intros Hu.
  apply existsb_exists in Hu as (tok & Hin & [Hp Hd]%andb_true_iff). apply (settled_suffix x x Hx); [done|].
  split; [done|]. exists tok. split_and!; [by apply list_elem_of_In|by apply startswith_spec|].
  intros ->. by rewrite bool_decide_true in Hd.
Qed.

(** The start tag is not to be taken away (any more) from a text. *)
Definition startless (d : detector) (x : str) : Prop := stripped_think_start d = true ∨ ¬ occurs S x.

Lemma startless_l d x y : startless d (x ++ y) → startless d x.
Proof. intros [H|H]; [by left|right]. intros Ho. by apply H, occurs_app_l. Qed.

Lemma startless_r d x y : startless d (x ++ y) → startless d y.
Proof. intros [H|H]; [by left|right]. intros Ho. by apply H, occurs_app_r. Qed.

(** One chunk that is not the beginning of a tag. *)
Lemma increment_text d x : ready d → unfinished d x = false → startless d x →
  parse_streaming_increment d x =
    if _in_reasoning d then
      match find x E with
      | Some i => ({| normal_text := drop (i + length E) x; reasoning_text := rstrip (take i x) |}, with_reasoning d false)
      | None => (reasoning x, d)
      end
    else (normal x, d).
Proof.
  intros Hd Hx Hs. pose proof (ready_buffer d Hd) as Eb. pose proof Hd as (H1 & H2 & H3 & H4).
  assert (Hf : with_reasoning (with_buffer d []) false = with_reasoning d false) by (by rewrite Eb).
  unfold parse_streaming_increment. rewrite H4. cbn [app].
  assert (Eu : ∀ s t, unfinished (with_buffer d s) t = unfinished d t) by done. rewrite Eu.
  cbn [think_start_token stripped_think_start with_buffer _buffer]. rewrite Hx, H1.
  assert (Hneg : negb (stripped_think_start d) && contains S x = false).
  { destruct Hs as [->|Hs%contains_false]; [done|]. rewrite Hs. by apply andb_false_r. }
  rewrite Hneg. cbn [_in_reasoning stream_reasoning with_buffer think_end_token]. rewrite H2, H3.
  destruct (_in_reasoning d); [|by rewrite <- Eb at 2].
  destruct (find x E); [by rewrite <- Hf|by rewrite <- Eb at 2].
Qed.

(** Before the first text. *)
Lemma increment_nil d : ready d → parse_streaming_increment d [] = (nothing, d).
Proof.
  intros Hd. pose proof (ready_buffer d Hd) as Eb. pose proof Hd as (_ & _ & _ & H4). unfold parse_streaming_increment. rewrite H4. cbn [app].
  change (unfinished (with_buffer d []) (_buffer (with_buffer d []))) with (unfinished d []). by rewrite unfinished_nil, Eb.
Qed.

Lemma find_nil : find [] E = None.
Proof.
  apply find_None. intros (a & b & Ha). symmetry in Ha. apply app_nil in Ha as [_ [Ha _]%app_nil]. by apply (tag_nonempty c E).
Qed.

(** One chunk that does not end within a tag. *)
Lemma increment d x : ready d → settled x → startless d x →
  parse_streaming_increment d x =
    if _in_reasoning d then
      match find x E with
      | Some i => ({| normal_text := drop (i + length E) x; reasoning_text := rstrip (take i x) |}, with_reasoning d false)
      | None => (reasoning x, d)
      end
    else (normal x, d).
Proof.
  intros Hd Hx Hs. destruct (decide (x = [])) as [->|Hne].
  - rewrite increment_nil, find_nil by done. by destruct (_in_reasoning d).
  - apply increment_text; [done| |done]. by apply unfinished_settled.
Qed.

Lemma ready_reasoning d b : ready d → ready (with_reasoning d b).
Proof. done. Qed.

Lemma normal_phase chunks : ∀ d, ready d → _in_reasoning d = false → Forall settled chunks → startless d (concat chunks) →
  stream d chunks = (normal (concat chunks), d).
Proof.
  induction chunks as [|x chunks IH]; intros d Hd Hr Hs Hl; [done|]. apply Forall_cons in Hs as [Hx Hs]. cbn [stream concat] in *.
  rewrite increment, Hr by (done || by eapply startless_l). rewrite IH by (done || by eapply startless_r). done.
Qed.

Lemma thinking_phase chunks : ∀ d, ready d → _in_reasoning d = true → Forall settled chunks → startless d (concat chunks) →
  ¬ occurs E (concat chunks) → stream d chunks = (reasoning (concat chunks), d).
Proof.
  induction chunks as [|x chunks IH]; intros d Hd Hr Hs Hl He; [done|]. apply Forall_cons in Hs as [Hx Hs]. cbn [stream concat] in *.
  rewrite increment, Hr by (done || by eapply startless_l).
  assert (Hn : find x E = None) by (apply find_None; intros Ho; by apply He, occurs_app_l). rewrite Hn.
  rewrite IH; [done..|by eapply startless_r|]. intros Ho. by apply He, occurs_app_r.
Qed.

(** The end tag comes whole, in the chunk where the thought ends. *)
Lemma chunk_cases x rest R N : settled x → x ++ rest = R ++ E ++ N →
  (∃ R', R = x ++ R' ∧ rest = R' ++ E ++ N) ∨ ∃ y, x = R ++ E ++ y ∧ N = y ++ rest.
Proof.
  intros Hx Eq. apply app_eq_inv in Eq as [(k & -> & Eq)|(k & -> & Eq)]; [|left; by exists k].
  apply app_eq_inv in Eq as [(k' & Ek & ->)|(y & -> & ->)]; [|right; by exists y].
  destruct (decide (k = [])) as [->|Hk]; [left; exists []; cbn in Ek; split; [by rewrite !app_nil_r|by rewrite Ek]|].
  destruct (decide (k' = [])) as [->|Hk']; [right; exists []; rewrite app_nil_r in Ek; split; [by rewrite Ek, app_nil_r|done]|].
  exfalso. apply (settled_suffix (R ++ k) k Hx); [by exists R|]. split; [done|]. exists E. split_and!; [set_solver|by exists k'|].
  intros ->. apply Hk'. apply (app_inv_head E). by rewrite app_nil_r.
Qed.

Lemma answer_phase chunks : ∀ d R N, ready d → _in_reasoning d = true → Forall settled chunks → startless d (concat chunks) →
  concat chunks = R ++ E ++ N → ¬ occurs E R →
  ∃ R1 R2, R = R1 ++ R2 ∧
    stream d chunks = ({| normal_text := N; reasoning_text := R1 ++ rstrip R2 |}, with_reasoning d false).
Proof.
  induction chunks as [|x chunks IH]; intros d R N Hd Hr Hs Hl Eq He.
  { exfalso. symmetry in Eq. apply app_nil in Eq as [_ [Eq _]%app_nil]. by apply (tag_nonempty c E HE). }
  apply Forall_cons in Hs as [Hx Hs]. cbn [stream concat] in *. rewrite increment, Hr by (done || by eapply startless_l).
  destruct (chunk_cases _ _ _ _ Hx Eq) as [(R' & -> & Eq')|(y & -> & ->)].
  - assert (Hn : find x E = None) by (apply find_None; intros Ho; by apply He, occurs_app_l). rewrite Hn.
    destruct (IH d R' N) as (R1 & R2 & -> & ->); [done..|by eapply startless_r|done|intros Ho; by apply He, occurs_app_r|].
    exists (x ++ R1), R2. split; [by rewrite app_assoc|]. unfold append_result. cbn. by rewrite app_assoc.
  - rewrite (find_self c) by done. rewrite normal_phase; [|done..|by eapply startless_r].
    exists [], R. split; [done|]. rewrite take_app_length. unfold append_result. cbn. rewrite app_nil_r. do 3 f_equal.
    rewrite app_assoc, <- length_app. by rewrite drop_app_length.
Qed.

(** The chunk with the start tag is read as its rest. *)
Lemma increment_start d y : ready d → stripped_think_start d = false → settled (S ++ y) → ¬ occurs S y →
  parse_streaming_increment d (S ++ y) = parse_streaming_increment (with_reasoning (with_stripped d) true) y.
Proof.
  intros Hd Hr Hx Ho. pose proof (settled_drop S y Hx) as Hy. rewrite (increment _ y) by (done || by left).
  cbn [_in_reasoning with_reasoning with_stripped]. pose proof Hd as (H1 & H2 & H3 & H4).
  unfold parse_streaming_increment. rewrite H4. cbn [app].
  change (unfinished (with_buffer d (S ++ y)) (_buffer (with_buffer d (S ++ y)))) with (unfinished d (S ++ y)).
  rewrite unfinished_settled by (done || by (intros [? _]%app_nil; by apply (tag_nonempty c S HS))).
  cbn [think_start_token stripped_think_start with_buffer _buffer]. rewrite H1, Hr.
  assert (Hc : contains S (S ++ y) = true) by (apply contains_spec; by exists [], y). rewrite Hc. cbn [negb andb].
  rewrite delete_head, delete_none by (done || by apply (tag_nonempty c)).
  cbn [_in_reasoning with_reasoning with_stripped with_buffer think_end_token stream_reasoning]. rewrite H2, H3.
  destruct d. cbn in *. subst. by destruct (find y E).
Qed.

(** The first chunk that is not empty has the start tag. *)
Lemma start_phase chunks : ∀ d body, ready d → stripped_think_start d = false → Forall settled chunks →
  concat chunks = S ++ body → ¬ occurs S body →
  ∃ chunks', Forall settled chunks' ∧ concat chunks' = body ∧
    stream d chunks = stream (with_reasoning (with_stripped d) true) chunks'.
Proof.
  induction chunks as [|x chunks IH]; intros d body Hd Hr Hs Eq Ho.
  { exfalso. symmetry in Eq. apply app_nil in Eq as [Eq _]. by apply (tag_nonempty c S HS). }
  apply Forall_cons in Hs as [Hx Hs]. cbn [concat] in Eq.
  destruct (decide (x = [])) as [->|Hne].
  { destruct (IH d body Hd Hr Hs Eq Ho) as (chunks' & H1 & H2 & H3). exists chunks'. split_and!; [done..|].
    cbn [stream]. rewrite increment_nil, H3 by done. destruct (stream _ chunks') as [[r1 r2] d']. done. }
  assert (∃ y, x = S ++ y ∧ body = y ++ concat chunks) as (y & -> & ->).
  { apply app_eq_inv in Eq as [(y & -> & ->)|(k & Ek & Eq)]; [by exists y|].
    destruct (decide (k = [])) as [->|Hk]; [exists []; rewrite app_nil_r in *; by split|].
    exfalso. apply (settled_suffix x x Hx); [done|]. split; [done|]. exists S. split_and!; [set_solver|by exists k|].
    intros ->. apply Hk. apply (app_inv_head S). by rewrite app_nil_r. }
  exists (y :: chunks). split_and!; [constructor; [by apply (settled_drop S)|done]|done|].
  cbn [stream]. rewrite increment_start; [done..|]. intros Hy. by apply Ho, occurs_app_l.
Qed.

(** ** At once *)

Lemma strip_around R N : lstrip E = E → rstrip E = E → strip (R ++ E ++ N) = lstrip R ++ E ++ rstrip N.
Proof.
  intros H1 H2. pose proof (tag_nonempty c E HE) as Hne. unfold strip.
  rewrite lstrip_app_fixed by (rewrite lstrip_app; rewrite ?H1; done). unfold rstrip in *.
  rewrite !reverse_app, <- app_assoc. assert (Hre : lstrip (reverse E) = reverse E).
  { rewrite <- (reverse_involutive (lstrip _)). by rewrite H2. }
  rewrite lstrip_app_fixed.
  - rewrite !reverse_app, !reverse_involutive. by rewrite <- app_assoc.
  - rewrite lstrip_app; [by rewrite Hre|]. rewrite Hre. intros Hr. apply Hne. apply (f_equal reverse) in Hr. by rewrite reverse_involutive in Hr.
Qed.

Lemma infix_strip R : ∃ a b, R = a ++ strip R ++ b.
Proof.
  destruct (lstrip_suffix R) as (a & E1 & _). destruct (rstrip_prefix (lstrip R)) as (b & E2 & _). exists a, b.
  unfold strip. by rewrite <- E2.
Qed.

Lemma at_once d text body : think_start_token d = S → think_end_token d = E → lstrip E = E → rstrip E = E →
  (text = S ++ body ∨ text = body ∧ _in_reasoning d = true) → ¬ occurs S body →
  (∀ R, body = R → ¬ occurs E R → detect_and_parse d text = reasoning (strip R)) ∧
  ∀ R N, body = R ++ E ++ N → ¬ occurs E R →
    detect_and_parse d text = {| normal_text := strip N; reasoning_text := lstrip R |}.
Proof.
  intros H1 H2 HlE HrE Htext Ho. unfold detect_and_parse. rewrite H1, H2.
  assert (Hin : negb (_in_reasoning d || contains S text) = false).
  { destruct Htext as [->|[_ ->]]; [|done]. assert (contains S (S ++ body) = true) as -> by (apply contains_spec; by exists [], body).
    by rewrite orb_true_r. }
  rewrite Hin. assert (Hdel : delete_all S text = body).
  { destruct Htext as [->|[-> _]]; [rewrite delete_head by by apply (tag_nonempty c)|]; by apply delete_none. }
  rewrite Hdel. split.
  - intros R -> He. assert (Hn : find (strip R) E = None).
    { apply find_None. intros Hs. apply He. destruct (infix_strip R) as (a & b & ER). rewrite ER. by apply occurs_app_r, occurs_app_l. }
    by rewrite Hn.
  - intros R N -> He. rewrite strip_around by done. rewrite (find_self c); [|done|].
    + rewrite take_app_length, app_assoc, <- length_app, drop_app_length. by rewrite strip_rstrip.
    + intros Hs. apply He. destruct (lstrip_suffix R) as (a & ER & _). rewrite ER. by apply occurs_app_r.
Qed.
End tags.

(** ** Chunk by chunk and at once *)

(** Tags that begin with the character [c] and have it nowhere else. *)
Record tags_ok (c : Z) (S E : str) : Prop := {
  to_start : tag_ok c S;
  to_end : tag_ok c E;
  to_distinct : ¬ S `prefix_of` E ∧ ¬ E `prefix_of` S;
  to_stripped : lstrip E = E ∧ rstrip E = E;
}.

(** A detector that is thinking, from the first text on. *)
Lemma thinking_agrees c S E chunks d body : tags_ok c S E → ready S E d → _in_reasoning d = true →
  Forall (settled S E) chunks → concat chunks = body → ¬ occurs S body →
  ∃ r d', stream d chunks = (r, d') ∧
    (∀ R, body = R → ¬ occurs E R → r = reasoning R) ∧
    (∀ R N, body = R ++ E ++ N → ¬ occurs E R → normal_text r = N ∧ strip (reasoning_text r) = strip R).
Proof.
  intros [HS HE _ _] Hd Hr Hs Hb Ho.
  destruct (find body E) as [i|] eqn:Ef.
  - destruct (find_split c E body i HE Ef) as (R & N & -> & HR).
    destruct (answer_phase c S E HS HE chunks d R N) as (R1 & R2 & -> & ->); [done..|right; by rewrite Hb|done|done|].
    do 2 eexists. split; [done|]. split; [intros R <- []; by exists (R1 ++ R2), N|]. intros R' N' Eq HR'.
    assert (Some (length (R1 ++ R2)) = Some (length R')) as [= Hl].
    { rewrite <- (find_self c E _ N HE HR), Eq. by apply (find_self c). }
    apply app_inj_1 in Eq as [<- Eq]; [|done]. apply app_inv_head in Eq as <-. split; [done|]. apply strip_app_rstrip.
  - apply find_None in Ef. rewrite (thinking_phase c S E HS HE) by (done || (by right; rewrite Hb) || by rewrite Hb).
    do 2 eexists. split; [done|]. split; [intros R <- _; by rewrite Hb|]. intros R N -> _. destruct Ef. by exists R, N.
Qed.

(** C38. A detector of the base class that streams its reasoning ([stream_reasoning] is
    true), and a text whose only start tag, if it has one, is at its beginning: if no
    chunk ends within a tag, then reading chunk by chunk and reading at once give the
    same thought and the same answer, up to white space at their ends.  (With
    [stream_reasoning] false they differ, see [buffered_start_tag_kept].) *)
Theorem stream_agrees c S E force chunks lead body :
  tags_ok c S E → Forall (settled S E) chunks → concat chunks = lead ++ body → lead = [] ∨ lead = S → ¬ occurs S body →
  let m := Base (init_detector S E force true) in
  ∃ r m' one m1, parse_stream m chunks = Ok (r, m') ∧ parse_non_stream m (concat chunks) = Ok (one, m1) ∧
    strip (normal_text r) = strip (normal_text one) ∧ strip (reasoning_text r) = strip (reasoning_text one).
Proof.
  intros Htags Hs Hb Hlead Ho m. pose proof Htags as [HS HE _ [H3 H4]]. set (d := init_detector S E force true).
  assert (Hd : ready S E d) by done. unfold m. rewrite parse_stream_base. fold d. cbn [parse_non_stream].
  assert (Hfin : ∀ r d', stream d chunks = (r, d') → (lead = S ∨ lead = [] ∧ force = true) →
    (∀ R, body = R → ¬ occurs E R → r = reasoning R) →
    (∀ R N, body = R ++ E ++ N → ¬ occurs E R → normal_text r = N ∧ strip (reasoning_text r) = strip R) →
    ∃ r m' one m1, (let '(r, d) := stream d chunks in Ok (r, Base d)) = Ok (r, m') ∧ Ok (detect_and_parse d (concat chunks), Base d) = Ok (one, m1) ∧
      strip (normal_text r) = strip (normal_text one) ∧ strip (reasoning_text r) = strip (reasoning_text one)).
  { intros r d' -> Hl G1 G2. do 4 eexists. split; [done|]. split; [done|].
    destruct (at_once c S E HS HE d (concat chunks) body) as [A1 A2]; [done..| |done|].
    { rewrite Hb. destruct Hl as [->|[-> Hf]]; [by left|by right]. }
    destruct (find body E) as [i|] eqn:Ef.
    - destruct (find_split c E body i HE Ef) as (R & N & Eb & HR). rewrite (A2 R N Eb HR). destruct (G2 R N Eb HR) as [-> ->].
      cbn [normal_text reasoning_text]. by rewrite strip_idem, strip_lstrip.
    - apply find_None in Ef. rewrite (A1 body eq_refl Ef), (G1 body eq_refl Ef). cbn [reasoning normal_text reasoning_text]. by rewrite strip_idem. }
  destruct Hlead as [->| ->].
  - cbn [app] in Hb. destruct force eqn:Ef.
    + destruct (thinking_agrees c S E chunks d body) as (r & d' & Er & G1 & G2); [done..|]. apply (Hfin r d'); [done|by right|done..].
    + rewrite (normal_phase c S E HS HE) by (done || (right; by rewrite Hb)). do 4 eexists. split; [done|]. split; [done|].
      unfold detect_and_parse. assert (Hc : contains S (concat chunks) = false) by (rewrite Hb; by apply contains_false). cbn. by rewrite Hc.
  - destruct (start_phase c S E HS HE chunks d body) as (chunks' & G1 & G2 & G3); [done..|].
    destruct (thinking_agrees c S E chunks' (with_reasoning (with_stripped d) true) body) as (r & d' & Er & K1 & K2); [done..|].
    apply (Hfin r d'); [by rewrite G3|by left|done..].
Qed.

(** ** When a tag is cut *)

Section cut.
Context (c : Z) (S E : str) (Htags : tags_ok c S E).

Lemma no_start_around x n : ¬ occurs S x → ¬ occurs S n → ¬ occurs S (x ++ E ++ n).
Proof.
  destruct Htags as [HS HE [H1 H2] _]. intros Hx Hn [H|[H|(p & q & Ep & Hp & Hq & _ & H)]]%occurs_app_cases; [done| |].
  - apply occurs_app_cases in H as [H|[H|(p & q & Ep & Hp & Hq & H & _)]]; [|done|].
    + by apply H1, (occurs_in_tag c S E).
    + apply H2. rewrite <- (suffix_is_tag c S E p q) by done. by exists q.
  - by apply (tag_straddles c S E p q n).
Qed.

Context (p q : str) (Ecut : E = p ++ q) (Hp : p ≠ []) (Hq : q ≠ []).

Lemma c_not_in_rest : c ∉ q.
Proof.
  destruct Htags as [_ (t & Et & Ht) _ _]. rewrite Ecut in Et. destruct p as [|y p']; [done|]. injection Et as _ <-. set_solver.
Qed.

Lemma no_tag_before tag x : tag = S ∨ tag = E → ¬ occurs tag x → ¬ occurs tag (x ++ p).
Proof.
  destruct Htags as [HS HE [H1 H2] _]. intros Htag Hx. assert (Ht : tag_ok c tag) by (by destruct Htag as [->| ->]).
  assert (Hpe : p `prefix_of` E) by (by exists q). intros [H|[H|(a & b & Ea & Ha & Hb & _ & H)]]%occurs_app_cases; [done| |].
  - apply (occurs_in_tag c tag E) in H; [|done..]. destruct Htag as [->| ->]; [by apply H1; etrans|].
    apply prefix_length in H. rewrite Ecut, length_app in H. destruct q; [done|cbn in H; lia].
  - apply (tag_straddles c tag E a b []); [done..|]. rewrite app_nil_r. by etrans.
Qed.

Lemma no_tag_after tag n : tag = S ∨ tag = E → ¬ occurs tag n → ¬ occurs tag (q ++ n).
Proof.
  destruct Htags as [HS HE _ _]. intros Htag Hn. assert (Ht : tag_ok c tag) by (by destruct Htag as [->| ->]).
  destruct Ht as (t & -> & _). pose proof c_not_in_rest as Hc.
  intros [(a & b & H)|[H|(a & b & Ea & Ha & _ & [k H] & _)]]%occurs_app_cases; [|done|].
  - apply Hc. rewrite H. set_solver.
  - destruct a as [|y a]; [done|]. injection Ea as <- _. apply Hc. rewrite H. set_solver.
Qed.

Lemma before_finished d x : think_start_token d = S → think_end_token d = E → x ≠ [] → unfinished d (x ++ p) = false.
Proof.
  destruct Htags as [HS HE _ _]. intros H1 H2 Hx. unfold unfinished. rewrite H1, H2. apply not_true_is_false. intros Hu.
  apply existsb_exists in Hu as (tok & Hin & [[k Hk]%startswith_spec _]%andb_true_iff).
  assert (Ht : tag_ok c tok) by (destruct Hin as [<-|[<-|[]]]; done). destruct Ht as (t & -> & Ht).
  destruct x as [|y x]; [done|]. injection Hk as _ ->. apply Ht. destruct HE as (te & Ee & _). rewrite Ecut in Ee.
  destruct p as [|z p']; [done|]. injection Ee as -> _. set_solver.
Qed.

Lemma after_finished d n : think_start_token d = S → think_end_token d = E → unfinished d (q ++ n) = false.
Proof.
  destruct Htags as [HS HE _ _]. intros H1 H2. unfold unfinished. rewrite H1, H2. apply not_true_is_false. intros Hu.
  apply existsb_exists in Hu as (tok & Hin & [[k Hk]%startswith_spec _]%andb_true_iff).
  assert (Ht : tag_ok c tok) by (destruct Hin as [<-|[<-|[]]]; done). destruct Ht as (t & -> & _).
  pose proof c_not_in_rest as Hc. destruct q as [|z q']; [done|]. injection Hk as -> _. apply Hc. by left.
Qed.
End cut.

(** C39. When a chunk ends within the end tag and has other text before it, the tag is
    never seen: the tag and the whole answer are streamed as reasoning, although
    reading the text at once separates them. *)
Theorem split_end_tag_missed c S E x p q n :
  tags_ok c S E → E = p ++ q → p ≠ [] → q ≠ [] → x ≠ [] →
  ¬ occurs S x → ¬ occurs E x → ¬ occurs S n → ¬ occurs E n →
  let m := Base (init_detector S E true true) in
  (∃ m', parse_stream m [x ++ p; q ++ n] = Ok (reasoning (x ++ E ++ n), m')) ∧
  ∃ m1, parse_non_stream m (x ++ E ++ n) = Ok ({| normal_text := strip n; reasoning_text := lstrip x |}, m1).
Proof.
  intros Htags Ecut Hp Hq Hx HSx HEx HSn HEn m. pose proof Htags as [HS HE _ [H3 H4]]. set (d := init_detector S E true true).
  assert (Hd : ready S E d) by done. split.
  - unfold m. rewrite parse_stream_base. fold d. cbn [stream].
    rewrite (increment_text S E d (x ++ p)); [|done|by apply (before_finished c S E Htags p q)|right; apply (no_tag_before c S E Htags p q); [done..|by left|done]].
    assert (H1 : find (x ++ p) E = None) by (apply find_None, (no_tag_before c S E Htags p q); [done..|by right|done]).
    rewrite H1. cbn [_in_reasoning d init_detector]. fold d.
    rewrite (increment_text S E d (q ++ n)); [|done|by apply (after_finished c S E Htags p q)|right; apply (no_tag_after c S E Htags p q); [done..|by left|done]].
    assert (H2 : find (q ++ n) E = None) by (apply find_None, (no_tag_after c S E Htags p q); [done..|by right|done]).
    rewrite H2. eexists. unfold append_result. cbn. rewrite app_nil_r, Ecut, <- !app_assoc. done.
  - cbn [parse_non_stream m]. destruct (at_once c S E HS HE d (x ++ E ++ n) (x ++ E ++ n)) as [_ A]; [done..|by right| |].
    + by apply (no_start_around c S E Htags).
    + fold d. rewrite (A x n) by done. by eexists.
Qed.

(** ** GPT-OSS *)

(** Without tool calls, thoughts and answers are put together. *)
Theorem gpt_oss_messages stream force ms : Forall message_ok ms → ms ≠ [] → Forall no_call ms →
  ∃ m', parse_non_stream (GptOss stream force) (render_messages ms) =
    Ok ({| normal_text := concat ((λ m, if bool_decide (kind (event_of m) = Normal) then m_content m else []) <$> ms);
           reasoning_text := concat ((λ m, if bool_decide (kind (event_of m) = Reasoning) then m_content m else []) <$> ms) |}, m').
Proof.
  intros Hms Hne Hcall. unfold GptOss. cbn [parse_non_stream]. unfold gpt_oss_detect. rewrite harmony_no_call by done. cbn [res_bind].
  unfold harmony_parse. cbn [buffered chosen app _should_filter_commentary _partial_commentary].
  change (canonical_parse []) with (Ok ([] : list Event, [] : str)). cbn [res_bind filter_events]. eexists. f_equal. f_equal.
  unfold of_events. rewrite app_nil_r, <- !list_fmap_compose. f_equal; f_equal; apply list_fmap_ext; intros i m Hm%list_elem_of_lookup_2; cbn;
    rewrite Forall_forall in Hcall; specialize (Hcall m Hm); pose proof (no_call_event m Hcall) as Hk;
    assert (Hc : content (event_of m) = m_content m) by (revert Hk; unfold event_of; by destruct (meaning _ _) as [[]|]);
    rewrite Hc; by destruct (kind (event_of m)).
Qed.

(** ** Examples *)

Lemma think_tags : tags_ok 60 think end_think.
Proof.
  split; [eexists; split; [vm_compute; reflexivity|]|eexists; split; [vm_compute; reflexivity|]| |by vm_compute].
  1,2: by apply (bool_decide_unpack _); vm_compute.
  split; intros H%startswith_spec; by vm_compute in H.
Qed.

Lemma kimi_tags : tags_ok 9665 kimi_think kimi_end_think.
Proof.
  split; [eexists; split; [vm_compute; reflexivity|]|eexists; split; [vm_compute; reflexivity|]| |by vm_compute].
  1,2: by apply (bool_decide_unpack _); vm_compute.
  split; intros H%startswith_spec; by vm_compute in H.
Qed.

Lemma stream_agrees_witness :
  let m := Qwen3Detector true None in
  let chunks := [lit "<think>"; lit " a "; lit "b"; lit " </think> c"; lit "d "] in
  ∃ r m' one m1, parse_stream m chunks = Ok (r, m') ∧ parse_non_stream m (concat chunks) = Ok (one, m1) ∧
    strip (normal_text r) = strip (normal_text one) ∧ strip (reasoning_text r) = strip (reasoning_text one).
Proof.
  apply (stream_agrees 60 think end_think false [lit "<think>"; lit " a "; lit "b"; lit " </think> c"; lit "d "] think (lit " a b </think> cd ")).
  - apply think_tags.
  - by repeat constructor.
  - done.
  - by right.
  - by apply contains_false.
Defined.

Lemma split_end_tag_missed_witness :
  let m := DeepSeekR1Detector true None in
  (∃ m', parse_stream m [lit "a</"; lit "think>b"] = Ok (reasoning (lit "a</think>b"), m')) ∧
  ∃ m1, parse_non_stream m (lit "a</think>b") = Ok ({| normal_text := lit "b"; reasoning_text := lit "a" |}, m1).
Proof.
  by apply (split_end_tag_missed 60 think end_think (lit "a") (lit "</") (lit "think>") (lit "b")); [apply think_tags|done..| | | |];
    apply contains_false.
Defined.

(** Without streaming the reasoning, the start tag stays in the buffer. *)
Example buffered_start_tag_kept :
  (let! '(r, _) := parse_stream (Qwen3Detector false None) [lit "<think>"; lit "a</think>b"] in Ok r) =
    Ok {| normal_text := lit "b"; reasoning_text := lit "<think>a" |} ∧
  (let! '(r, _) := parse_non_stream (Qwen3Detector false None) (lit "<think>a</think>b") in Ok r) =
    Ok {| normal_text := lit "b"; reasoning_text := lit "a" |}.
Proof. by split; vm_compute. Qed.
